(* ===== verification/_CoqProject ===== *)
-Q . S2P
Prelude.v
JsNum.v
Json.v
HttpStatus.v
ModelMapping.v
MappingResolve.v
MappingParse.v
NumText.v
Records.v
JsValue.v
RiskGuard.v
Regex.v
AdvancedCustom.v
AdvancedRoutes.v
BillingExpr.v
RuleRoundtrip.v
TierExpr.v
TierRoundtrip.v
Playground.v
PlaygroundMessages.v
PlaygroundStorage.v
PlaygroundPersist.v
PlaygroundReload.v
PlaygroundChat.v
PlaygroundSession.v
IntNum.v
Flow.v
FlowGraph.v
FlowData.v
FlowTotals.v
FlowLaws.v
FlowTop.v
FlowView.v
FlowShow.v
ParamOverride.v
ParamDrafts.v
ParamPresets.v
ParamEditor.v
ParamLaws.v
ParamSave.v
ParamReach.v
ChannelForm.v
ChannelTransform.v
ChannelUtils.v
ChannelDrawer.v
ChannelSubmit.v
ChannelLaws.v
ChannelReopen.v
ChannelSession.v
ChannelSave.v
PricingEditor.v
PricingCommit.v
PricingText.v
PricingLaws.v
PricingCards.v
PricingLoss.v
PricingPanel.v
PricingTable.v
PricingPanelLaws.v
PricingTableLaws.v
NumRound.v
NumPrint.v
DemoFixtures.v
DemoEngine.v
DemoServer.v
DemoMoney.v
DemoLedger.v
DemoSession.v
NavConfig.v
NavModules.v
NavSidebar.v
NavEditors.v
NavOrder.v
NavHeader.v
NavSections.v
NavVisible.v
NavEdits.v
Account.v
Wallet.v
WalletLaws.v
