(* ===== verification/Prelude.v ===== *)
(** * RenewAPI web console: a verification library

    RenewAPI is a gateway to language-model providers: a Go server, and a web
    console under src/web/default/src written in TypeScript. This library verifies
    the console's own logic, the parts that parse, check, transform and store what
    an administrator or a user enters: the rules that decide how a request is
    routed, mapped, rewritten and priced, the form of a channel, the chat
    playground, the graph of usage on the dashboard, the navigation and who may see
    it, the requests of an account and the payments of its wallet, and the demonstration
    server. Of the React components the
    state, the effects and the handlers are modelled where they carry such logic;
    their layout is not, nor is the server that stores and applies the results.

    ** Parts and files

    Foundations. This file holds JavaScript strings as sequences of UTF-16 code
    units ([jsstr]), their methods, sets and maps that keep insertion order, stable
    sorting, exceptions ([res], with [let!]), and the lemmas and hints (database
    [js]) the components share. JsNum is the Number type, an IEEE binary64 value.
    Json has JSON values, [JSON.parse] and [JSON.stringify] and their round trip.
    NumText converts between numbers and texts as ECMAScript does. Records has
    objects whose optional properties may be left out. JsValue has the operators on
    values of unknown type and the objects that print and read back. IntNum is exact
    arithmetic on integer numbers. NumRound shows that the arithmetic is correctly
    rounded, with its error bounds, and NumPrint that the text of a short decimal
    reads back. Regex is the backtracking matcher of regular expressions.

    HttpStatus (lib/http-status-code-rules.ts): texts such as 401,500-599 that say
    which status codes a rule applies to. [parseHttpStatusCodeRules] is the parser,
    [mergeRanges] the normalization.

    RiskGuard (features/channels/lib/status-code-risk-guard.ts): the warning of the
    channel form about status-code redirects.

    ModelMapping, MappingResolve, MappingParse
    (features/channels/lib/model-mapping-validation.ts): mappings from a requested
    model to upstream models, in two versions of the format. ModelMapping holds
    the definitions, MappingResolve the resolution of a source ([mappingCandidates],
    a bounded search that threads its budget) and the upgrade between versions,
    MappingParse the parser's limits, the scan for repeated JSON members and the
    checks of the form.

    AdvancedCustom, AdvancedRoutes (features/channels/lib/advanced-custom.ts, types
    in features/channels/types.ts): channels that route incoming paths to upstream
    paths through converters; normalization, JSON form, templates and validator.

    BillingExpr, RuleRoundtrip, TierExpr, TierRoundtrip
    (features/pricing/lib/billing-expr.ts and tier-expr.ts): prices given as
    expressions; the parsers and builders of tiers and of request rules. The
    regular expressions of the source are terms of Regex.

    Playground, PlaygroundMessages (features/playground/lib/message-utils.ts,
    lib/payload-builder.ts, types.ts, constants.ts): chat messages, the separation
    of thinking from visible text, streaming updates, and requests.

    PlaygroundStorage, PlaygroundPersist, PlaygroundReload (lib/storage.ts,
    hooks/use-playground-state.ts): what the playground keeps in the browser's
    storage, with the exceptions the storage may raise, and the state of the page.

    PlaygroundChat, PlaygroundSession (hooks/use-stream-request.ts,
    hooks/use-chat-handler.ts, hooks/use-message-action-guard.ts, index.tsx): the
    conversation as a state and a step for every event of a stream, every answer
    and every action of the page.

    Flow, FlowGraph, FlowData (features/dashboard/lib/flow.ts and flow-selection.ts,
    types in features/dashboard/types.ts, palette of lib/colors.ts): usage rows
    become paths through stages (user, token, group, model, channel and so on), and
    paths the nodes and links of a graph, with filters, a limit on the nodes of a
    column, masking, highlighting and colours ([buildDashboardFlowData]).
    FlowTotals, FlowLaws, FlowTop, FlowView and FlowShow have its theory.

    ParamOverride, ParamDrafts, ParamPresets, ParamEditor
    (features/channels/components/dialogs/param-override-editor-dialog.tsx): the
    editor of the rules that rewrite the parameters of a request. ParamOverride
    reads and writes the stored JSON and validates the operations, ParamDrafts has
    the structured values and labels, ParamPresets the templates, ParamEditor the
    dialog's state and one function per handler. ParamLaws,
    ParamSave and ParamReach have its theory; ParamReach has the handlers as a step
    relation.

    PricingEditor, PricingCommit, PricingText, PricingLaws, PricingCards, PricingLoss
    (features/system-settings/models/tiered-pricing-editor.tsx): the editor that
    shows a billing expression as cards of tiers and rules, or as text. It uses
    TierExpr and BillingExpr. PricingEditor has the handlers of the cards, the
    presets, the estimator and the editor itself; a [commit] is one render with its
    four effects, [settle] renders until nothing changes, [dispatch] is an event.
    PricingCommit shows that the renders end, PricingText that a printed
    configuration is split from the rules again, PricingLaws and PricingCards what
    opening, switching, editing and the inputs do, PricingLoss what is lost.

    PricingPanel, PricingPanelLaws, PricingTable, PricingTableLaws
    (features/system-settings/models/model-pricing-sheet.tsx, pricing-format.ts,
    model-ratio-visual-editor.tsx): the panel of one model, with token prices and
    the ratios derived from them, which shows the pricing editor in its expression
    mode; and the table of all models over ten settings that are JSON objects.

    ChannelForm, ChannelTransform, ChannelLaws, ChannelReopen
    (features/channels/lib/channel-form.ts and what it imports): the schema of the
    form of a channel, its defaults, the stored channel to form values, and form
    values to the payloads of a create or an update. ChannelUtils
    (features/channels/lib/channel-utils.ts): keys, lists, checks and the rows
    grouped by tag.

    ChannelDrawer, ChannelSubmit, ChannelSession, ChannelSave
    (features/channels/components/drawers/channel-mutate-drawer.tsx,
    hooks/use-channel-mutate-form.ts): the drawer in which a channel is edited.
    ChannelDrawer has the form library as an interface ([FormLib], with its
    documented laws [FormLaws]) and the derived values; ChannelSubmit the state, the
    loading effect, the handlers and the submission, which may ask the user two
    questions; ChannelSession the events and the reachable states; ChannelSave what
    a save sends. The theorems are proved against the interface, and a simple form
    discharges it.

    DemoFixtures, DemoEngine, DemoServer (demo/fixtures.ts, engine.ts, adapter.ts,
    lib/deployment-mode.ts): the server that runs in the browser in the demonstration
    mode. DemoFixtures has its data, DemoEngine its state, with loading, saving and
    the quotes of plans, DemoServer every route of [request] in the order of the
    source, and the adapter of the HTTP client, with the URL parser as an interface
    ([UrlLib]). DemoMoney has the arithmetic of cents and, in its Module DemoQuote, the
    quotes; DemoLedger the invariant and, in its Module DemoReload, the stored text;
    DemoSession the sessions of requests and reloads and, in its Module DemoPages, the
    pages and the adapter.

    NavConfig, NavModules, NavSidebar, NavEditors
    (features/system-settings/maintenance/config.ts, lib/nav-modules.ts,
    components/layout/lib/sidebar-navigation.ts, hooks/use-sidebar-data.ts,
    hooks/use-sidebar-view.ts and the pages that edit the settings): the navigation of
    the console. NavConfig has the stored texts, with their defaults, parsers and
    serializers; NavModules the second parser, of the public pages, the cached status
    and the guards of the routes; NavSidebar the entries, who may see them and how they
    are grouped by task ([useSidebarView]); NavEditors the three pages on which an
    administrator edits the settings and the card on which a user narrows the sidebar,
    each a state and a step. NavOrder (Modules NavFold and
    NavOrder) and NavSections have their theory; NavHeader compares the two parsers, NavVisible has what the filter lets
    through and, in its Modules NavSwitch and NavView, what a switch changes and the view
    and the guards; NavEdits the sessions of the editors and, in its Module NavPages, the
    entries inside the settings pages.

    Account (stores/auth-store.ts, lib/api.ts, lib/account-query-cache.ts,
    lib/frontend-cache.ts, main.tsx): the signed-in user and its keys in the storage, the
    HTTP client, whose requests are states that events move on ([client_step]), the sharing
    of equal requests, and the cache of queries as an interface ([QueryLib], with its
    documented laws [QueryLaws]). Its Module AccountLaws has the theory, with a simple cache
    that discharges the interface.

    Wallet, WalletLaws (features/wallet): recharging the account. Wallet reads the topup
    information, has the amounts and limits of lib/payment.ts, the watch over a payment
    window ([monitorPaymentWindow]), the payment hook as a state with a step for every call
    and every answer ([pay_step]), and the page that uses it ([page_step], an event with the
    drawing and the timer it causes). WalletLaws has their theory.

    A module has the name of its file. Definitions keep the names of the functions
    they model; helpers name a local function, a loop or a pattern of one. [null]
    and [undefined] are [None], a thrown error is [Throw], a mutated local is
    threaded through a fold or a fixpoint.

    ** What the theorems show

    Rules and mappings. An accepted status rule compiles to ranges with exactly the
    meaning of its text, in a normal form that decides equality of meaning. A
    mapping resolves to exactly the models reachable in its graph; resolution
    terminates, refuses cycles and chains that are too long, and is preserved by
    the upgrade of the format; the scan for repeated members is exact; accepted
    mappings are within the documented limits; the redirects warned about are
    exactly those an edit adds. Advanced channels: the JSON form reads back, and
    the validator is exact, with the route it blames.

    Prices. What the editors of tiers and of request rules print is read back
    unchanged, and the two halves of an expression are separated as they were
    combined, for tiers with plain labels and numbers that print and read back
    ([config_ok]) and for rules of the supported conditions ([group_ok]). The
    comparisons and the containment test on a request parameter are not supported, and
    are shown to be lost. The effects of the pricing editor settle. Then the page has
    the billing expression that the editor shows, and the rules of its cards; rules in
    the text of the raw mode are not reported by an effect, and that switching to the
    text can therefore charge for a rule twice is shown. Opening the editor on what it
    printed changes nothing; switching its mode and back restores the cards; an edit
    is what is saved; the edits of the cards keep a fallback and conditions before it.
    The ratios of the panel follow its prices. Saving and copying write exactly their
    models, with the row that is stated field by field ([data_row]), and leave the
    others; in the token and request modes a price is written alone, without the
    ratios. A saved expression whose tiers and rules can be read is the one opened
    next. Expressions that the editor cannot show are shown to be replaced, and prices
    that the ratios cannot hold to be changed.

    Channels. An accepted form is sent as it was filled in, with the settings of its
    type and no other; a saved channel is reopened as the same form, and each field that
    is not saved is named with what it shows. A save sends
    the version of the channel that the form was filled from, asks before a new
    risky redirect is sent, and leaves no question open; the guardrail warns of the
    models that saving asks about; rows grouped by tag hold exactly their channels.

    Playground. Thinking is separated exactly on every text and independently of
    how a stream is cut; events touch the answer only; every failure is reported
    once; a complete stream yields what was sent; stored messages are read back, in
    any order of their properties; any stored text gives well-formed messages; and
    reloading restores the state after any sequence of actions, with the last
    interrupted message repaired. The operations of
    PlaygroundChat preserve the condition ([good_message]) under which
    PlaygroundReload restores messages.

    Usage flows. What enters and leaves a node equals its value; the nodes are
    those on the paths of the rows, with exactly the usage of the rows through them;
    every column adds up to the total shown; the nodes kept under a limit are the
    largest; menus, highlighting and masking do what they say and nothing else.

    Parameter overrides. A save hands over complete operations or names the first
    incomplete one; what is saved is reopened and saved unchanged, also through the
    JSON view, when its value texts stand for the same value once reopened; structured
    values are read back; and however the dialog is used an operation is selected and identifiers are distinct. Where the editor loses an
    edit, that is shown.

    Demonstration server. After any session of requests and reloads the balance is
    what is left of ten thousand dollars after the purchases, exactly to the cent,
    although it is kept as a binary number; a purchase charges what was quoted, an
    upgrade the difference of the prices for the rest of the period; the saved state
    is the one loaded; a visitor who is not signed in reaches the open routes only;
    every request is answered; pages list the items in order. That a session of more
    than a hundred purchases is lost by a reload is shown too.

    Navigation. A user's own settings only narrow the sidebar, and nothing is shown
    that the role, the site or the user forbids; the sidebar shows every allowed entry
    once, in the configured order; inside the settings pages it has exactly the pages
    that are on; the guard of a route agrees with it, although it reads the raw text;
    the switch of a task turns that task and nothing else. Any session of any of the
    three editors, on any stored text, is stored so that opening the page again shows
    it unchanged. The two parsers of the header agree on switches that are booleans,
    texts, 0 or 1, and disagree on other numbers.

    Accounts. Whatever the order of events, the cache holds answers to requests of the
    present session only; a request of an earlier account can only be cancelled and is never
    answered late; concurrent equal requests are one request, and different ones are not. In
    a page of its own every cached answer named the user who is signed in. That a storage
    that refuses everything stops the page from starting is shown.

    Wallet. The confirmation shows the quote for what is then paid; an order reaches Stripe
    only with the fingerprint of the quote whose price was shown; at most one payment is
    under way, and event by event only its answer, the end of its watch or leaving the
    page ends it; the watch over a payment window ends, with its first verdict. Three
    selections of the page that go wrong are shown.

    ** Fuel

    [parse_value] has twice the length of its text and two: each call consumes a
    character or moves from a value to its list, and the round trip is proved with
    that amount. [expand] has 34: its depth check stops at 33, and
    [expand_terminates] shows that more changes nothing. [thinkLoop], [unwrapLoop],
    [json_tokens] and the loops of Regex have the length of their text and consume
    a character at each turn. [shortest] tries up to 17 digits, enough for any
    binary64 value. [settle] has five renders, which [commits_settle] shows to be
    enough. None of the proved results is conditional on fuel.

    ** Assumptions

    Outside code is a parameter: [URL] (the URL parser used by the validator), the
    Unicode lower-case mapping, the JavaScript evaluator of the price estimator,
    the identifier generator [nanoid] (required only not to return blank texts),
    the browser's storage (with what it refuses), the event source (its events
    are inputs), the comparison of texts by locale and the formats of numbers and
    dates for display, the translation function (required only not to return the
    empty text) and the clock. The form library of the channel drawer is a class
    with its documented laws; that the server stores what an update sends is a named
    hypothesis ([stores]) of the theorem on reopening. A batch of state updates made
    by the effects of one render is seen by the next render, as React documents. The usage counters of flows are integers whose sum
    is a safe integer. That the text of a number reads back is a decidable condition on
    the number ([num_back], [prints_back]), evaluated in the witnesses; for integers
    and amounts in cents it is proved. The clock of the demonstration server is read
    several times by one request, in whole seconds, and the readings may differ. Of the
    navigation, nothing is assumed of the lower-case mapping; a value of JSON that is
    converted to a text has the inherited [toString], and what an object inherits, and
    assignments to [__proto__], are modelled. Of the
    HTTP client, the request interceptor runs after the call returned and the response
    interceptor on what the network gives; two objects that are read at different times are
    never the same one. In the wallet page a timer without delay fires before the next
    event, and the confirmation is modal. The two questions of the channel drawer are asked
    one after the other, so that one pending question stands for the states of the two
    dialogs. A commit of the pricing editor leaves out that reading rules the cards cannot
    show may also throw while it is drawn. The sessions of the editors of the header and of
    the settings pages start from a loaded configuration and end with a save; that a new
    configuration object from the server resets their form in between is left out. Inputs have
    their declared TypeScript types unless they come from JSON.

    ** Not modelled

    The server, another program in another language; HTTP wrappers, translations and
    generated code, which hold no logic of their own; the layout of React components;
    the filtering and paging of the table library and the other third-party code. Of
    the console's own helpers, the display of prices (features/pricing/lib), the usage
    logs and the formatting of numbers and dates (lib/) depend on the locale data of
    the browser and are left out. So are the settings pages other than those of prices and
    navigation, the hooks of the wallet for Creem, Waffo, redemption and affiliates, and the
    pages of tokens, models and users: they are outside this development, and nothing is
    claimed of them. Fields of a navigation entry that are only drawn (its icon and
    badge) are left out of its record. *)

From Stdlib Require Export Ascii String Lia ZifyBool ZifyN ZifyNat.
From Stdlib Require Export Sorting.Sorted.
From stdpp Require Export base tactics numbers option strings sets list.

#[export] Set Warnings "-notation-for-abbreviation,-clear-no-such-hyp".

#[global] Set Default Goal Selector "!".

Create HintDb js.

(** ** JavaScript strings: sequences of UTF-16 code units. *)

Notation jsstr := (list N).

Declare Scope js_scope.
Delimit Scope js_scope with js.

(** ASCII literals of the source, as code units. *)
Fixpoint js (s : string) : jsstr :=
  match s with
  | EmptyString => []
  | String a s' => N_of_ascii a :: js s'
  end.

Arguments js : simpl never.

(** A literal written with apostrophes for its quotation marks. *)
Definition jsq (s : string) : jsstr := map (fun c => if (c =? 39)%N then 34%N else c) (js s).

(** ECMAScript WhiteSpace and LineTerminator: what [trim] removes and [\s]
    matches. *)
Definition is_ws (c : N) : bool :=
  ((9 <=? c) && (c <=? 13))%N || (c =? 32)%N || (c =? 160)%N || (c =? 5760)%N
  || ((8192 <=? c) && (c <=? 8202))%N || (c =? 8232)%N || (c =? 8233)%N
  || (c =? 8239)%N || (c =? 8287)%N || (c =? 12288)%N || (c =? 65279)%N.

Definition is_digit (c : N) : bool := ((48 <=? c) && (c <=? 57))%N.

Fixpoint drop_ws (s : jsstr) : jsstr :=
  match s with
  | [] => []
  | c :: s' => if is_ws c then drop_ws s' else s
  end.

(** [String.prototype.trim]. *)
Definition trim (s : jsstr) : jsstr := reverse (drop_ws (reverse (drop_ws s))).

(** [s.split(c)] for a one-unit separator. *)
Fixpoint split_char (c : N) (s : jsstr) : list jsstr :=
  match s with
  | [] => [[]]
  | x :: s' =>
      if (x =? c)%N then [] :: split_char c s'
      else match split_char c s' with
           | seg :: rest => (x :: seg) :: rest
           | [] => [[x]]
           end
  end.

(** [Array.prototype.join]. *)
Fixpoint join (sep : jsstr) (l : list jsstr) : jsstr :=
  match l with
  | [] => []
  | [x] => x
  | x :: l' => x ++ sep ++ join sep l'
  end.

(** [s.startsWith(p)], [s.includes(p)]. *)
Fixpoint starts_with (p s : jsstr) : bool :=
  match p, s with
  | [], _ => true
  | _ :: _, [] => false
  | a :: p', b :: s' => (a =? b)%N && starts_with p' s'
  end.

Fixpoint includes (p s : jsstr) : bool :=
  starts_with p s || match s with [] => false | _ :: s' => includes p s' end.

(** Default [Array.prototype.sort]: by UTF-16 code units. *)
Fixpoint str_cmp (a b : jsstr) : Z :=
  match a, b with
  | [], [] => 0%Z
  | [], _ :: _ => (-1)%Z
  | _ :: _, [] => 1%Z
  | x :: a', y :: b' =>
      if (x <? y)%N then (-1)%Z else if (y <? x)%N then 1%Z else str_cmp a' b'
  end.

(** A string is falsy exactly when it is empty. *)
Definition nonempty {A} (s : list A) : bool :=
  match s with [] => false | _ :: _ => true end.

(** [a || b] on strings. *)
Definition str_or (a b : jsstr) : jsstr := if nonempty a then a else b.

(** ** Sets: [Set] keeps first insertions, in order. *)

Section js_set.
Context {A : Type} `{EqDecision A}.

(** [set.add(x)]. *)
Definition set_add (s : list A) (x : A) : list A :=
  if decide (x ∈ s) then s else s ++ [x].

(** [new Set(l)], and [Array.from] or spread of it. *)
Definition set_of (l : list A) : list A := foldl set_add [] l.

(** [set.has(x)]. *)
Definition set_has (x : A) (s : list A) : bool := bool_decide (x ∈ s).

Lemma elem_of_set_add s x y : y ∈ set_add s x ↔ y ∈ s ∨ y = x.
Proof. unfold set_add. case_decide; set_solver. Qed.

Lemma NoDup_set_add s x : NoDup s → NoDup (set_add s x).
Proof.
  intros Hs. unfold set_add. case_decide; [done|].
  apply NoDup_app. split_and!; [done| |apply NoDup_singleton]. set_solver.
Qed.

Lemma elem_of_foldl_set_add l s y : y ∈ foldl set_add s l ↔ y ∈ s ∨ y ∈ l.
Proof.
  revert s. induction l as [|x l IH]; intros s; simpl; [set_solver|].
  rewrite IH, elem_of_set_add. set_solver.
Qed.

Lemma elem_of_set_of l y : y ∈ set_of l ↔ y ∈ l.
Proof. unfold set_of. rewrite elem_of_foldl_set_add. set_solver. Qed.

Lemma NoDup_foldl_set_add l s : NoDup s → NoDup (foldl set_add s l).
Proof. revert s. induction l; intros s Hs; simpl; auto using NoDup_set_add. Qed.

Lemma NoDup_set_of l : NoDup (set_of l).
Proof. apply NoDup_foldl_set_add, NoDup_nil_2. Qed.

Lemma foldl_set_add_fresh l s :
  NoDup (s ++ l) → foldl set_add s l = s ++ l.
Proof.
  revert s. induction l as [|x l IH]; intros s Hs; simpl; [by rewrite app_nil_r|].
  assert (Hx : x ∉ s).
  { apply NoDup_app in Hs as (_ & Hd & _). intros Hin. apply (Hd x Hin). set_solver. }
  unfold set_add at 2. rewrite decide_False by done.
  rewrite IH; rewrite <- (assoc_L (++)); done.
Qed.

Lemma set_of_id l : NoDup l → set_of l = l.
Proof. intros Hl. unfold set_of. by rewrite foldl_set_add_fresh. Qed.

Lemma set_of_snoc l x : set_of (l ++ [x]) = set_add (set_of l) x.
Proof. unfold set_of. by rewrite foldl_app. Qed.

Lemma length_set_add s x : (length s <= length (set_add s x) <= S (length s))%nat.
Proof. unfold set_add. case_decide; rewrite ?length_app; simpl; lia. Qed.

Lemma length_foldl_set_add l s : (length s <= length (foldl set_add s l))%nat.
Proof.
  revert s. induction l as [|x l IH]; intros s; simpl; [done|].
  pose proof (IH (set_add s x)). pose proof (length_set_add s x). lia.
Qed.

Lemma length_set_of_le l : (length (set_of l) <= length l)%nat.
Proof.
  induction l as [|x l IH] using rev_ind; [done|]. rewrite set_of_snoc, length_app. simpl.
  pose proof (length_set_add (set_of l) x). lia.
Qed.

(** An element of a set was first inserted after exactly the elements before it. *)
Lemma set_of_split l s1 x s2 :
  set_of l = s1 ++ x :: s2 → ∃ a b, l = a ++ x :: b ∧ set_of a = s1.
Proof.
  revert s2. induction l as [|z l IH] using rev_ind; intros s2.
  - intros H. by destruct s1.
  - rewrite set_of_snoc. unfold set_add. case_decide.
    + intros H1. destruct (IH s2 H1) as (a & b & -> & Ha).
      exists a, (b ++ [z]). by rewrite <- app_assoc.
    + destruct s2 as [|w s2 _] using rev_ind.
      * intros [<- <-]%app_inj_tail. by exists l, [].
      * rewrite app_comm_cons, app_assoc. intros [H1 ->]%app_inj_tail.
        destruct (IH s2 H1) as (a & b & -> & Ha). exists a, (b ++ [w]). by rewrite <- app_assoc.
Qed.

Lemma set_has_spec x s : set_has x s = true ↔ x ∈ s.
Proof. unfold set_has. by rewrite bool_decide_eq_true. Qed.
End js_set.

(** ** Maps: [Map] and plain objects keep insertion order. *)

Section js_map.
Context {K V : Type} `{EqDecision K}.

(** [map.get(k)], [map.has(k)], [map.set(k, v)]. *)
Fixpoint map_get (k : K) (m : list (K * V)) : option V :=
  match m with
  | [] => None
  | (k', v) :: m' => if decide (k = k') then Some v else map_get k m'
  end.

Definition map_has (k : K) (m : list (K * V)) : bool :=
  match map_get k m with Some _ => true | None => false end.

Fixpoint map_set (k : K) (v : V) (m : list (K * V)) : list (K * V) :=
  match m with
  | [] => [(k, v)]
  | (k', v') :: m' => if decide (k = k') then (k, v) :: m' else (k', v') :: map_set k v m'
  end.

Lemma map_get_set_eq k v m : map_get k (map_set k v m) = Some v.
Proof. induction m as [|[k' v'] m IH]; simpl; repeat (case_decide; simpl); congruence. Qed.

Lemma map_get_set_ne k k' v m : k ≠ k' → map_get k (map_set k' v m) = map_get k m.
Proof.
  intros Hne. induction m as [|[k2 v2] m IH]; simpl; repeat (case_decide; simpl); congruence.
Qed.

Lemma map_get_Some k m v : map_get k m = Some v → (k, v) ∈ m.
Proof.
  induction m as [|[k' v'] m IH]; simpl; [done|].
  case_decide; [intros [= ->]; subst; set_solver|set_solver].
Qed.

Lemma map_get_None k m : map_get k m = None ↔ k ∉ m.*1.
Proof.
  induction m as [|[k' v'] m IH]; simpl; [set_solver|].
  case_decide; [subst; set_solver|]. rewrite IH. set_solver.
Qed.

Lemma map_get_is_Some k m : is_Some (map_get k m) ↔ k ∈ m.*1.
Proof.
  rewrite <- not_eq_None_Some, map_get_None. split.
  - intros H. destruct (decide (k ∈ m.*1)); tauto.
  - tauto.
Qed.

Lemma map_has_spec k m : map_has k m = true ↔ k ∈ m.*1.
Proof. rewrite <- map_get_is_Some. unfold map_has. destruct (map_get k m); naive_solver. Qed.

Lemma elem_of_keys_map_set k k' v m : k' ∈ (map_set k v m).*1 ↔ k' = k ∨ k' ∈ m.*1.
Proof.
  induction m as [|[k2 v2] m IH]; simpl; [set_solver|].
  case_decide; simpl; [subst; set_solver|]. set_solver.
Qed.

Lemma NoDup_keys_map_set k v m : NoDup m.*1 → NoDup (map_set k v m).*1.
Proof.
  induction m as [|[k2 v2] m IH]; simpl; intros Hm; [apply NoDup_singleton|].
  apply NoDup_cons in Hm as [Hk Hm]. case_decide; simpl; apply NoDup_cons; [by subst|].
  split; [|auto]. rewrite elem_of_keys_map_set. naive_solver.
Qed.

Lemma map_get_elem_of k v m : NoDup m.*1 → (k, v) ∈ m → map_get k m = Some v.
Proof.
  induction m as [|[k2 v2] m IH]; simpl; [set_solver|].
  intros [Hk Hm]%NoDup_cons [[= <- <-]|Hin]%elem_of_cons; [by rewrite decide_True|].
  rewrite decide_False; [auto|]. intros ->. apply Hk.
  apply list_elem_of_fmap. by exists (k2, v).
Qed.
End js_map.

(** ** [Array.prototype.sort]: stable, by a comparator returning a number. *)

Section js_sort.
Context {A : Type} (cmp : A → A → Z).

Fixpoint insert_by (x : A) (l : list A) : list A :=
  match l with
  | [] => [x]
  | y :: l' => if (cmp x y <=? 0)%Z then x :: y :: l' else y :: insert_by x l'
  end.

Fixpoint sort_by (l : list A) : list A :=
  match l with
  | [] => []
  | x :: l' => insert_by x (sort_by l')
  end.

Lemma insert_by_perm x l : insert_by x l ≡ₚ x :: l.
Proof.
  induction l as [|y l IH]; simpl; [done|]. destruct (_ <=? _)%Z; [done|].
  rewrite IH. apply Permutation_swap.
Qed.

Lemma sort_by_perm l : sort_by l ≡ₚ l.
Proof. induction l as [|x l IH]; simpl; [done|]. by rewrite insert_by_perm, IH. Qed.

Lemma elem_of_sort_by x l : x ∈ sort_by l ↔ x ∈ l.
Proof. by rewrite sort_by_perm. Qed.

Lemma length_sort_by l : length (sort_by l) = length l.
Proof. by rewrite sort_by_perm. Qed.

Definition cmp_le (x y : A) : Prop := (cmp x y ≤ 0)%Z.

(** What a comparator promises: a total preorder. *)
Class Comparator : Prop := {
  cmp_total x y : cmp_le x y ∨ cmp_le y x;
  cmp_trans x y z : cmp_le x y → cmp_le y z → cmp_le x z
}.

Lemma insert_by_sorted `{!Comparator} x l :
  StronglySorted cmp_le l → StronglySorted cmp_le (insert_by x l).
Proof.
  induction 1 as [|y l Hl IH Hy]; simpl; [repeat constructor|].
  destruct (Z.leb_spec (cmp x y) 0) as [Hc|Hc].
  - repeat constructor; auto. eapply Forall_impl; [exact Hy|]. intros z Hz.
    eapply cmp_trans; [exact Hc|done].
  - constructor; [done|]. rewrite insert_by_perm. constructor; [|done].
    destruct (cmp_total x y) as [Hxy|Hxy]; [unfold cmp_le in Hxy; lia|done].
Qed.

Lemma sort_by_sorted `{!Comparator} l : StronglySorted cmp_le (sort_by l).
Proof. induction l; simpl; [constructor|by apply insert_by_sorted]. Qed.

Lemma insert_by_head x l : Forall (cmp_le x) l → insert_by x l = x :: l.
Proof.
  destruct l as [|y l]; simpl; [done|]. intros [Hy _]%Forall_cons.
  unfold cmp_le in Hy. by rewrite (proj2 (Z.leb_le _ _) Hy).
Qed.

(** Sorting an already sorted array changes nothing. *)
Lemma sort_by_id l : StronglySorted cmp_le l → sort_by l = l.
Proof. induction 1 as [|x l Hl IH Hx]; simpl; [done|]. by rewrite IH, insert_by_head. Qed.
End js_sort.

Arguments Comparator {_} _.

(** ** Exceptions: a computation returns or throws an error with a message. *)

Inductive res (A : Type) : Type :=
| Ok (a : A)
| Throw (msg : jsstr).
Arguments Ok {_} _.
Arguments Throw {_} _.

Definition res_bind {A B} (m : res A) (f : A → res B) : res B :=
  match m with Ok a => f a | Throw e => Throw e end.

Notation "'let!' x ':=' m 'in' k" := (res_bind m (fun x => k))
  (at level 200, x pattern, m at level 100, k at level 200, right associativity) : js_scope.

(** [l.map(f)] for a callback that may throw, left to right. *)
Fixpoint res_map {A B} (f : A → res B) (l : list A) : res (list B) :=
  match l with
  | [] => Ok []
  | x :: l' => res_bind (f x) (fun y => res_bind (res_map f l') (fun ys => Ok (y :: ys)))
  end.

(** A loop body that threads a state and may throw. *)
Fixpoint res_fold {A S} (f : S → A → res S) (s : S) (l : list A) : res S :=
  match l with
  | [] => Ok s
  | x :: l' => res_bind (f s x) (fun s' => res_fold f s' l')
  end.

Lemma res_bind_Ok {A B} (m : res A) (f : A → res B) b :
  res_bind m f = Ok b ↔ ∃ a, m = Ok a ∧ f a = Ok b.
Proof. destruct m; simpl; naive_solver. Qed.

Lemma res_fold_ext {A S} (f g : S → A → res S) s l :
  (∀ s x, x ∈ l → f s x = g s x) → res_fold f s l = res_fold g s l.
Proof.
  revert s. induction l as [|x l IH]; intros s Hfg; simpl; [done|].
  rewrite Hfg by set_solver. destruct (g s x); simpl; [apply IH; set_solver|done].
Qed.

Lemma res_fold_app {A S} (f : S → A → res S) s l l' :
  res_fold f s (l ++ l') = res_bind (res_fold f s l) (fun s' => res_fold f s' l').
Proof. revert s. induction l as [|x l IH]; intros s; simpl; [done|]. by destruct (f s x); simpl. Qed.

(** Rule of invariants for a loop that completes. *)
Lemma res_fold_inv {A S} (f : S → A → res S) (I : list A → S → Prop) s l s' :
  I [] s →
  (∀ pre x post t t', l = pre ++ x :: post → I pre t → f t x = Ok t' → I (pre ++ [x]) t') →
  res_fold f s l = Ok s' → I l s'.
Proof.
  intros H0. revert s'. induction l as [|x l IH] using rev_ind; intros s' Hstep; simpl.
  - by intros [= <-].
  - rewrite res_fold_app. intros (t & Ht & Hx)%res_bind_Ok. simpl in Hx.
    apply res_bind_Ok in Hx as (t' & Hx & [= <-]).
    apply (Hstep l x [] t); [done| |done]. apply IH; [|done].
    intros pre y post u u' Heq. apply (Hstep pre y (post ++ [x])). rewrite Heq.
    by rewrite <- app_assoc.
Qed.

Lemma res_map_Ok {A B} (f : A → res B) l ys :
  res_map f l = Ok ys ↔ Forall2 (fun x y => f x = Ok y) l ys.
Proof.
  revert ys. induction l as [|x l IH]; intros ys; simpl.
  - split; [by intros [= <-]|by inversion 1].
  - rewrite res_bind_Ok. setoid_rewrite res_bind_Ok. setoid_rewrite IH. split.
    + intros (y & Hy & ys' & Hys & [= <-]). by constructor.
    + inversion 1; subst. naive_solver.
Qed.

(** ** Lemmas on strings *)

Definition no_ws (s : jsstr) : Prop := Forall (fun c => is_ws c = false) s.

Lemma drop_ws_suffix s : drop_ws s `suffix_of` s.
Proof.
  induction s as [|c s IH]; simpl; [done|]. destruct (is_ws c); [|done].
  by apply suffix_cons_r.
Qed.

Lemma drop_ws_idem s : drop_ws (drop_ws s) = drop_ws s.
Proof. induction s as [|c s IH]; simpl; [done|]. destruct (is_ws c) eqn:E; simpl; by rewrite ?E. Qed.

Lemma drop_ws_fixed s : drop_ws s = s ↔ match s with [] => True | c :: _ => is_ws c = false end.
Proof.
  destruct s as [|c s]; simpl; [done|]. destruct (is_ws c) eqn:E; [|done].
  split; [|done]. intros H. pose proof (suffix_length _ _ (drop_ws_suffix s)) as Hl.
  rewrite H in Hl. simpl in Hl. lia.
Qed.

Lemma drop_ws_prefix_fixed s t : drop_ws t = t → s `prefix_of` t → drop_ws s = s.
Proof.
  intros Ht [k ->]. apply drop_ws_fixed. apply drop_ws_fixed in Ht. by destruct s.
Qed.

Lemma no_ws_drop_ws s : no_ws s → drop_ws s = s.
Proof. intros H. apply drop_ws_fixed. destruct s; [done|]. by apply Forall_cons in H as [Hc _]. Qed.

Lemma trim_no_ws s : no_ws s → trim s = s.
Proof.
  intros H. unfold trim. rewrite (no_ws_drop_ws s H), no_ws_drop_ws.
  - apply reverse_involutive.
  - unfold no_ws. by rewrite reverse_Permutation.
Qed.

Lemma trim_idem s : trim (trim s) = trim s.
Proof.
  unfold trim. set (t := drop_ws s).
  assert (Hpre : reverse (drop_ws (reverse t)) `prefix_of` t).
  { destruct (drop_ws_suffix (reverse t)) as [k Hk]. exists (reverse k).
    rewrite <- reverse_app, <- Hk. by rewrite reverse_involutive. }
  rewrite (drop_ws_prefix_fixed (reverse (drop_ws (reverse t))) t); [|apply drop_ws_idem|done].
  by rewrite reverse_involutive, drop_ws_idem.
Qed.

Lemma trim_ends s c d :
  head s = Some c → last s = Some d → is_ws c = false → is_ws d = false → trim s = s.
Proof.
  intros Hc Hd Hwc Hwd. unfold trim.
  rewrite (proj2 (drop_ws_fixed s)) by (destruct s; [done|by injection Hc as ->]).
  rewrite (proj2 (drop_ws_fixed (reverse s))); [apply reverse_involutive|].
  rewrite <- head_reverse in Hd. destruct (reverse s); [done|by injection Hd as ->].
Qed.

Lemma trim_elem_of s c : c ∈ trim s → c ∈ s.
Proof.
  unfold trim. rewrite elem_of_reverse. intros Hc.
  destruct (drop_ws_suffix (reverse (drop_ws s))) as [k Hk].
  destruct (drop_ws_suffix s) as [k' Hk']. rewrite Hk'.
  assert (c ∈ reverse (drop_ws s)) by (rewrite Hk; set_solver).
  set_solver.
Qed.

Lemma drop_ws_keeps s c : c ∈ s → is_ws c = false → c ∈ drop_ws s.
Proof.
  intros Hc Hw. induction s as [|d s IH]; [done|]. simpl. destruct (is_ws d) eqn:E; [|done].
  apply IH. apply elem_of_cons in Hc as [->|Hc]; [congruence|done].
Qed.

Lemma trim_keeps s c : c ∈ s → is_ws c = false → c ∈ trim s.
Proof.
  intros Hc Hw. unfold trim. apply elem_of_reverse, drop_ws_keeps; [|done].
  by apply elem_of_reverse, drop_ws_keeps.
Qed.

Lemma trim_not_blank s c : c ∈ s → is_ws c = false → nonempty (trim s) = true.
Proof. intros Hc Hw. pose proof (trim_keeps s c Hc Hw) as H. by destruct (trim s); [apply elem_of_nil in H|]. Qed.

Lemma split_char_nonempty c s : split_char c s ≠ [].
Proof. destruct s as [|x s]; simpl; [done|]. destruct (x =? c)%N, (split_char c s); done. Qed.

Lemma split_char_fresh c s : c ∉ s → split_char c s = [s].
Proof.
  induction s as [|x s IH]; simpl; [done|]. intros Hc.
  destruct (N.eqb_spec x c); [set_solver|]. by rewrite IH by set_solver.
Qed.

Lemma split_char_app c s t :
  c ∉ s → split_char c (s ++ c :: t) = s :: split_char c t.
Proof.
  induction s as [|x s IH]; intros Hc; simpl.
  - by rewrite N.eqb_refl.
  - destruct (N.eqb_spec x c); [set_solver|]. by rewrite IH by set_solver.
Qed.

(** Splitting a joined list of separator-free segments gives it back. *)
Lemma split_char_join c l :
  l ≠ [] → Forall (fun s => c ∉ s) l → split_char c (join [c] l) = l.
Proof.
  induction l as [|x l IH]; [done|]. intros _ [Hx Hl]%Forall_cons.
  destruct l as [|y l]; simpl join; [by apply split_char_fresh|].
  simpl app. rewrite split_char_app by done. f_equal. by apply IH.
Qed.

Lemma split_char_segment_fresh c s : Forall (fun seg => c ∉ seg) (split_char c s).
Proof.
  induction s as [|x s IH]; simpl; [repeat constructor; set_solver|].
  destruct (N.eqb_spec x c).
  - constructor; [set_solver|done].
  - destruct (split_char c s) as [|seg rest]; [repeat constructor; set_solver|].
    apply Forall_cons in IH as [Hs Hr]. constructor; [set_solver|done].
Qed.

Lemma trim_head s c r : trim s = c :: r → is_ws c = false.
Proof.
  intros E. enough (H : drop_ws (trim s) = trim s) by (rewrite E in H; by apply drop_ws_fixed in H).
  apply (drop_ws_prefix_fixed _ (drop_ws s)); [apply drop_ws_idem|]. unfold trim.
  destruct (drop_ws_suffix (reverse (drop_ws s))) as [k Hk]. exists (reverse k).
  rewrite <- reverse_app, <- Hk. by rewrite reverse_involutive.
Qed.

Lemma split_char_incl c s seg x : seg ∈ split_char c s → x ∈ seg → x ∈ s.
Proof.
  revert seg. induction s as [|y s IH]; intros seg; cbn [split_char].
  - intros ->%list_elem_of_singleton H. done.
  - destruct (y =? c)%N.
    + intros [->|H]%elem_of_cons Hx; [by apply elem_of_nil in Hx|]. apply elem_of_cons. right. eauto.
    + destruct (split_char c s) as [|t ts] eqn:E.
      * intros ->%list_elem_of_singleton ->%list_elem_of_singleton. apply elem_of_cons. by left.
      * intros [->|H]%elem_of_cons Hx.
        -- apply elem_of_cons in Hx as [->|Hx]; apply elem_of_cons; [by left|right]. apply (IH t); [set_solver|done].
        -- apply elem_of_cons. right. apply (IH seg); [set_solver|done].
Qed.

Lemma starts_with_spec p s : starts_with p s = true ↔ ∃ t, s = p ++ t.
Proof.
  revert s. induction p as [|a p IH]; intros s; simpl; [naive_solver|].
  destruct s as [|b s]; [naive_solver|].
  rewrite andb_true_iff, IH, N.eqb_eq. naive_solver.
Qed.

Lemma starts_with_app_false p q s : starts_with p s = false → starts_with (p ++ q) s = false.
Proof.
  intros H. destruct (starts_with (p ++ q) s) eqn:E; [|done].
  apply starts_with_spec in E as [t ->]. rewrite <- H. symmetry. apply starts_with_spec.
  exists (q ++ t). by rewrite app_assoc.
Qed.

Lemma includes_spec p s : includes p s = true ↔ ∃ a b, s = a ++ p ++ b.
Proof.
  induction s as [|x s IH]; simpl.
  - rewrite orb_false_r, starts_with_spec. split.
    + intros [t Ht]. by exists [], t.
    + intros (a & b & H). exists b. by destruct a.
  - rewrite orb_true_iff, starts_with_spec, IH. split.
    + intros [[t ->]|(a & b & ->)]; [by exists [], t|by exists (x :: a), b].
    + intros ([|y a] & b & H); simpl in *; [left; eauto|right].
      injection H as _ ->. eauto.
Qed.

Lemma includes_char c s : includes [c] s = true ↔ c ∈ s.
Proof.
  rewrite includes_spec. split; [intros (a & b & ->); set_solver|].
  intros (a & b & ->)%list_elem_of_split. by exists a, b.
Qed.

Lemma nonempty_true {A} (s : list A) : nonempty s = true ↔ s ≠ [].
Proof. by destruct s. Qed.

(** ** Decimal numerals *)

(** [Number.parseInt(s, 10)] on a string of digits. *)
Definition parse_digits (s : jsstr) : N := foldl (fun acc c => 10 * acc + (c - 48))%N 0%N s.

(** Template-literal printing of a natural number. *)
Fixpoint digits_aux (fuel : nat) (n : N) (acc : jsstr) : jsstr :=
  match fuel with
  | O => acc
  | S fuel' =>
      let acc' := (48 + n mod 10)%N :: acc in
      if (n / 10 =? 0)%N then acc' else digits_aux fuel' (n / 10)%N acc'
  end.

Definition print_N (n : N) : jsstr := digits_aux (S (N.size_nat n)) n [].

Lemma digits_aux_spec fuel n acc :
  (n < 2 ^ N.of_nat fuel)%N → (0 < fuel)%nat →
  ∃ ds, digits_aux fuel n acc = ds ++ acc ∧ parse_digits ds = n ∧
        Forall (fun c => is_digit c = true) ds ∧ ds ≠ [].
Proof.
  revert n acc. induction fuel as [|fuel IH]; intros n acc Hn Hf; [lia|]. simpl.
  assert (Hd : is_digit (48 + n mod 10)%N = true).
  { unfold is_digit. pose proof (N.mod_lt n 10 ltac:(lia)) as Hm.
    revert Hm. generalize (n mod 10)%N. lia. }
  destruct (N.eqb_spec (n / 10) 0) as [Hq|Hq].
  - exists [(48 + n mod 10)%N]. split_and!; [done| |by constructor|done].
    unfold parse_digits. cbn [foldl]. pose proof (N.div_mod n 10 ltac:(lia)) as Hdm. revert Hdm.
    generalize (n mod 10)%N. lia.
  - assert (Hlt : (n / 10 < 2 ^ N.of_nat fuel)%N).
    { rewrite Nat2N.inj_succ, N.pow_succ_r' in Hn. apply N.Div0.div_lt_upper_bound. lia. }
    destruct (IH (n / 10)%N ((48 + n mod 10)%N :: acc) Hlt) as (ds & -> & Hp & Hds & _).
    { destruct fuel; [|lia]. simpl in Hlt. lia. }
    exists (ds ++ [(48 + n mod 10)%N]). split_and!.
    + by rewrite <- app_assoc.
    + unfold parse_digits in *. rewrite foldl_app, Hp. cbn [foldl].
      pose proof (N.div_mod n 10 ltac:(lia)) as Hdm. revert Hdm.
    generalize (n mod 10)%N. lia.
    + apply Forall_app. split; [done|by constructor].
    + by destruct ds.
Qed.

Lemma N_lt_pow2_size n : (n < 2 ^ N.of_nat (S (N.size_nat n)))%N.
Proof.
  rewrite Nat2N.inj_succ, N.pow_succ_r'.
  assert (n < 2 ^ N.of_nat (N.size_nat n))%N; [|lia].
  replace (N.of_nat (N.size_nat n)) with (N.size n); [apply N.size_gt|].
  destruct n as [|p]; simpl; [done|]. induction p; simpl; lia.
Qed.

Lemma print_N_spec n :
  parse_digits (print_N n) = n ∧ Forall (fun c => is_digit c = true) (print_N n) ∧ print_N n ≠ [].
Proof.
  destruct (digits_aux_spec _ n [] (N_lt_pow2_size n)) as (ds & Heq & Hp & Hd & Hne); [lia|].
  unfold print_N. rewrite Heq, app_nil_r. done.
Qed.

Lemma is_digit_not_ws c : is_digit c = true → is_ws c = false.
Proof. unfold is_digit, is_ws. lia. Qed.

#[export] Hint Resolve is_digit_not_ws : js.

(** ** Sorted lists *)

Lemma StronglySorted_snoc {A} (R : A → A → Prop) l x :
  StronglySorted R (l ++ [x]) ↔ StronglySorted R l ∧ Forall (fun y => R y x) l.
Proof.
  induction l as [|y l IH]; simpl.
  - split; [repeat constructor|]. intros _. repeat constructor.
  - split.
    + intros H. apply StronglySorted_inv in H as [Hs Hf]. apply IH in Hs as [Hs Hx].
      apply Forall_app in Hf as [Hf Hyx]. split; constructor; auto. by inversion Hyx.
    + intros [Hs Hf]. apply StronglySorted_inv in Hs as [Hs Hy].
      apply Forall_cons in Hf as [Hyx Hf]. constructor; [by apply IH|].
      apply Forall_app. split; [done|by constructor].
Qed.

Lemma StronglySorted_impl {A} (R R' : A → A → Prop) (P : A → Prop) l :
  (∀ x y, P x → P y → R x y → R' x y) → Forall P l → StronglySorted R l → StronglySorted R' l.
Proof.
  intros Himp HP Hs. induction Hs as [|x l Hs IH Hx]; [constructor|].
  apply Forall_cons in HP as [Hp HP]. constructor; [auto|].
  rewrite Forall_forall in *. auto.
Qed.

Lemma List_filter_all {A} (f : A → bool) l : Forall (fun x => f x = true) l → List.filter f l = l.
Proof. induction 1 as [|x l Hx _ IH]; simpl; [done|]. by rewrite Hx, IH. Qed.

Lemma existsb_map {A B} (f : A → B) (q : B → bool) l : existsb q (map f l) = existsb (fun x => q (f x)) l.
Proof. induction l as [|x l IH]; [done|]. cbn [map existsb]. by rewrite IH. Qed.

Lemma forallb_map {A B} (f : B → bool) (g : A → B) l : forallb f (map g l) = forallb (fun x => f (g x)) l.
Proof. induction l as [|x l IH]; [done|]. cbn [map forallb]. by rewrite IH. Qed.

Lemma omap_cons_eq {A B} (f : A → option B) x (l : list A) :
  omap f (x :: l) = match f x with Some y => y :: omap f l | None => omap f l end.
Proof. done. Qed.

Lemma omap_ext_in {A B} (f g : A → option B) (l : list A) : (∀ x, x ∈ l → f x = g x) → omap f l = omap g l.
Proof.
  induction l as [|x l IH]; intros H; [done|]. rewrite !omap_cons_eq, (H x) by set_solver.
  by rewrite IH by set_solver.
Qed.

Lemma elem_of_List_filter {A} (f : A → bool) l x : x ∈ List.filter f l ↔ x ∈ l ∧ f x = true.
Proof. rewrite !list_elem_of_In. apply filter_In. Qed.

Lemma map_id_Forall {A} (f : A → A) l : Forall (fun x => f x = x) l → map f l = l.
Proof. induction 1 as [|x l Hx _ IH]; simpl; [done|]. by rewrite Hx, IH. Qed.

Lemma elem_of_join c sep l : c ∈ join sep l → c ∈ sep ∨ ∃ s, s ∈ l ∧ c ∈ s.
Proof.
  induction l as [|x l IH]; simpl; [set_solver|].
  destruct l as [|y l]; [intros H; right; exists x; set_solver|].
  rewrite !elem_of_app. intros [H|[H|H]]; [right; exists x; set_solver|by left|].
  destruct (IH H) as [?|(s & ? & ?)]; [by left|right; exists s; set_solver].
Qed.

(** ** Sorting strings by code units *)

Lemma str_cmp_refl a : str_cmp a a = 0%Z.
Proof. induction a as [|x a IH]; simpl; [done|]. by rewrite N.ltb_irrefl. Qed.

#[export] Instance str_cmp_comparator : Comparator str_cmp.
Proof.
  split; unfold cmp_le.
  - induction x as [|a x IH]; intros [|b y]; simpl; try lia.
    destruct (N.ltb_spec a b), (N.ltb_spec b a); try lia. apply IH.
  - induction x as [|a x IH]; intros [|b y] [|c z]; simpl; try lia.
    destruct (N.ltb_spec a b), (N.ltb_spec b a), (N.ltb_spec b c), (N.ltb_spec c b),
      (N.ltb_spec a c), (N.ltb_spec c a); try lia. apply IH.
Qed.
