(* ===== verification/JsNum.v ===== *)
(** * JavaScript numbers

    A Number is an IEEE 754 binary64 value, here a [spec_float] of the standard
    library's executable specification, with precision 53 and exponent bound
    1024. Decimal literals round to nearest, ties to even: an integer mantissa
    is normalized, a fraction is the correctly rounded quotient of two integers. *)

From S2P Require Import Prelude.
From Stdlib Require Import Floats.SpecFloat.

Notation num := spec_float.

Definition prec : Z := 53.
Definition emax : Z := 1024.

#[export] Instance num_eq_dec : EqDecision num.
Proof. solve_decision. Defined.

Definition num_of_Z (z : Z) : num := binary_normalize prec emax z 0 false.

(** The Number denoted by the decimal [m * 10 ^ e], negated when [neg]. *)
Definition num_of_dec (neg : bool) (m : N) (e : Z) : num :=
  match m with
  | N0 => S754_zero neg
  | Npos p =>
      if (0 <=? e)%Z then
        binary_normalize prec emax ((if neg then Z.neg else Z.pos) (p * Z.to_pos (10 ^ e))%positive) 0 neg
      else SFdiv prec emax (S754_finite neg p 0) (S754_finite false (Z.to_pos (10 ^ (- e))) 0)
  end.

(** [===], [<], [<=], [>] and [>=]; every comparison with NaN is false. *)
Definition num_eqb (a b : num) : bool := SFeqb a b.
Definition num_ltb (a b : num) : bool := SFltb a b.
Definition num_leb (a b : num) : bool := SFleb a b.

(** [Number.isFinite]. *)
Definition num_is_finite (x : num) : bool :=
  match x with S754_zero _ | S754_finite _ _ _ => true | _ => false end.

(** [Number.isInteger], and the integer a Number that passes it stands for. *)
Definition num_is_integer (x : num) : bool :=
  match x with
  | S754_zero _ => true
  | S754_finite _ m e => (0 <=? e)%Z || (Z.pos m mod 2 ^ (- e) =? 0)%Z
  | _ => false
  end.

Definition num_to_Z (x : num) : Z :=
  match x with
  | S754_finite s m e =>
      let a := if (0 <=? e)%Z then (Z.pos m * 2 ^ e)%Z else (Z.pos m / 2 ^ (- e))%Z in
      if s then (- a)%Z else a
  | _ => 0%Z
  end.

(** A number is truthy unless it is zero or NaN. *)
Definition num_truthy (x : num) : bool :=
  match x with S754_zero _ | S754_nan => false | _ => true end.

Example dec_tenth : num_of_dec false 1 (-1) = S754_finite false 7205759403792794 (-56).
Proof. vm_compute. reflexivity. Qed.

Example dec_int32 : num_to_Z (num_of_dec true 2147483648 0) = (-2147483648)%Z.
Proof. vm_compute. reflexivity. Qed.
