(* ===== verification/Json.v ===== *)
(** * JSON: values, [JSON.parse] and [JSON.stringify]

    The parser follows the JSON grammar of ECMA-404 on UTF-16 code units. It
    first builds the syntax tree of the text, in which an object lists its
    members as written; [to_js] then gives the JavaScript value, in which a later
    member of the same name replaces an earlier one and integer-index keys come
    first in ascending order, the order [Object.keys] reports. *)

From S2P Require Import Prelude JsNum.

Unset Elimination Schemes.
Inductive json : Type :=
| JNull
| JBool (b : bool)
| JNum (n : num)
| JStr (s : jsstr)
| JArr (l : list json)
| JObj (m : list (jsstr * json)).
Set Elimination Schemes.

(** Induction with hypotheses for every element and every member. *)
Definition json_ind (P : json → Prop)
    (Hnull : P JNull) (Hbool : ∀ b, P (JBool b)) (Hnum : ∀ n, P (JNum n))
    (Hstr : ∀ s, P (JStr s)) (Harr : ∀ l, Forall P l → P (JArr l))
    (Hobj : ∀ m, Forall (fun kv => P kv.2) m → P (JObj m)) : ∀ j, P j :=
  fix go j :=
    match j with
    | JNull => Hnull | JBool b => Hbool b | JNum n => Hnum n | JStr s => Hstr s
    | JArr l => Harr l ((fix gol l : Forall P l :=
        match l with [] => List.Forall_nil _ | x :: l' => @List.Forall_cons _ P x l' (go x) (gol l') end) l)
    | JObj m => Hobj m ((fix gom m : Forall (fun kv => P kv.2) m :=
        match m with [] => List.Forall_nil _
                   | kv :: m' => @List.Forall_cons _ (fun kv => P kv.2) kv m' (go kv.2) (gom m') end) m)
    end.

(** ** Lexical grammar *)

Definition is_json_ws (c : N) : bool := (c =? 32)%N || (c =? 10)%N || (c =? 13)%N || (c =? 9)%N.

Fixpoint skip_ws (s : jsstr) : jsstr :=
  match s with
  | c :: s' => if is_json_ws c then skip_ws s' else s
  | [] => []
  end.

Definition hex_val (c : N) : option N :=
  if is_digit c then Some (c - 48)%N
  else if ((97 <=? c) && (c <=? 102))%N then Some (c - 87)%N
  else if ((65 <=? c) && (c <=? 70))%N then Some (c - 55)%N
  else None.

(** The one-letter escapes of a JSON string. *)
Definition escape_val (c : N) : option N :=
  if (c =? 34)%N then Some 34%N        (* quotation mark *)
  else if (c =? 92)%N then Some 92%N   (* reverse solidus *)
  else if (c =? 47)%N then Some 47%N   (* solidus *)
  else if (c =? 98)%N then Some 8%N    (* b *)
  else if (c =? 102)%N then Some 12%N  (* f *)
  else if (c =? 110)%N then Some 10%N  (* n *)
  else if (c =? 114)%N then Some 13%N  (* r *)
  else if (c =? 116)%N then Some 9%N   (* t *)
  else None.

(** The characters of a string after its opening quote, and what follows the
    closing one. *)
Fixpoint parse_chars (s : jsstr) : option (jsstr * jsstr) :=
  match s with
  | [] => None
  | c :: s1 =>
      if (c =? 34)%N then Some ([], s1)
      else if (c <? 32)%N then None
      else if (c =? 92)%N then
        match s1 with
        | e :: s2 =>
            if (e =? 117)%N then
              match s2 with
              | a :: b :: d :: f :: s3 =>
                  match hex_val a, hex_val b, hex_val d, hex_val f with
                  | Some a', Some b', Some d', Some f' =>
                      prod_map (cons (((a' * 16 + b') * 16 + d') * 16 + f')%N) id <$> parse_chars s3
                  | _, _, _, _ => None
                  end
              | _ => None
              end
            else match escape_val e with
                 | Some v => prod_map (cons v) id <$> parse_chars s2
                 | None => None
                 end
        | [] => None
        end
      else prod_map (cons c) id <$> parse_chars s1
  end.

(** A maximal run of digits. *)
Fixpoint take_digits (s : jsstr) : jsstr * jsstr :=
  match s with
  | c :: s' => if is_digit c then prod_map (cons c) id (take_digits s') else ([], s)
  | [] => ([], [])
  end.

(** [ '.' digits ], optional. *)
Definition parse_frac (s : jsstr) : option (jsstr * jsstr) :=
  match s with
  | 46%N :: s1 => let '(ds, s2) := take_digits s1 in if nonempty ds then Some (ds, s2) else None
  | _ => Some ([], s)
  end.

(** [ (e|E) sign? digits ], optional. *)
Definition parse_exp (s : jsstr) : option (Z * jsstr) :=
  match s with
  | c :: s1 =>
      if (c =? 101)%N || (c =? 69)%N then
        let '(sg, s2) := match s1 with
                         | 43%N :: s2 => (1%Z, s2)
                         | 45%N :: s2 => ((-1)%Z, s2)
                         | _ => (1%Z, s1)
                         end in
        let '(ds, s3) := take_digits s2 in
        if nonempty ds then Some ((sg * Z.of_N (parse_digits ds))%Z, s3) else None
      else Some (0%Z, s)
  | [] => Some (0%Z, s)
  end.

Definition parse_number (s : jsstr) : option (num * jsstr) :=
  let '(neg, s1) := match s with 45%N :: s1 => (true, s1) | _ => (false, s) end in
  let '(ints, s2) := take_digits s1 in
  if negb (nonempty ints) then None
  else match ints with
       | 48%N :: _ :: _ => None
       | _ =>
           match parse_frac s2 with
           | None => None
           | Some (frac, s3) =>
               match parse_exp s3 with
               | None => None
               | Some (e, s4) =>
                   Some (num_of_dec neg (parse_digits (ints ++ frac)) (e - Z.of_nat (length frac))%Z, s4)
               end
           end
       end.

(** ** Syntactic grammar. Every call spends one unit of fuel; twice the length
    of the text is enough for each. *)

Fixpoint parse_value (fuel : nat) (s : jsstr) : option (json * jsstr) :=
  match fuel with
  | O => None
  | S fuel' =>
      match skip_ws s with
      | 123%N :: s1 =>
          match skip_ws s1 with
          | 125%N :: s2 => Some (JObj [], s2)
          | s2 => prod_map JObj id <$> parse_members fuel' s2
          end
      | 91%N :: s1 =>
          match skip_ws s1 with
          | 93%N :: s2 => Some (JArr [], s2)
          | s2 => prod_map JArr id <$> parse_elems fuel' s2
          end
      | 34%N :: s1 => prod_map JStr id <$> parse_chars s1
      | s1 =>
          if starts_with (js "null") s1 then Some (JNull, drop 4 s1)
          else if starts_with (js "true") s1 then Some (JBool true, drop 4 s1)
          else if starts_with (js "false") s1 then Some (JBool false, drop 5 s1)
          else prod_map JNum id <$> parse_number s1
      end
  end
with parse_elems (fuel : nat) (s : jsstr) : option (list json * jsstr) :=
  match fuel with
  | O => None
  | S fuel' =>
      match parse_value fuel' s with
      | None => None
      | Some (v, s1) =>
          match skip_ws s1 with
          | 44%N :: s2 => prod_map (cons v) id <$> parse_elems fuel' s2
          | 93%N :: s2 => Some ([v], s2)
          | _ => None
          end
      end
  end
with parse_members (fuel : nat) (s : jsstr) : option (list (jsstr * json) * jsstr) :=
  match fuel with
  | O => None
  | S fuel' =>
      match skip_ws s with
      | 34%N :: s0 =>
          match parse_chars s0 with
          | None => None
          | Some (k, s1) =>
              match skip_ws s1 with
              | 58%N :: s2 =>
                  match parse_value fuel' s2 with
                  | None => None
                  | Some (v, s3) =>
                      match skip_ws s3 with
                      | 44%N :: s4 => prod_map (cons (k, v)) id <$> parse_members fuel' s4
                      | 125%N :: s4 => Some ([(k, v)], s4)
                      | _ => None
                      end
                  end
              | _ => None
              end
          end
      | _ => None
      end
  end.

(** The same equations with the case analysis on the first unit as tests. *)
Ltac case_unit c :=
  destruct c as [|c]; [reflexivity|];
  do 7 (try (destruct c as [c|c|]; try reflexivity)).

Lemma parse_value_eq fuel s :
  parse_value (S fuel) s =
  match skip_ws s with
  | [] => None
  | c :: s1 =>
      if (c =? 123)%N then
        match skip_ws s1 with
        | d :: s2 => if (d =? 125)%N then Some (JObj [], s2)
                     else prod_map JObj id <$> parse_members fuel (d :: s2)
        | [] => prod_map JObj id <$> parse_members fuel []
        end
      else if (c =? 91)%N then
        match skip_ws s1 with
        | d :: s2 => if (d =? 93)%N then Some (JArr [], s2)
                     else prod_map JArr id <$> parse_elems fuel (d :: s2)
        | [] => prod_map JArr id <$> parse_elems fuel []
        end
      else if (c =? 34)%N then prod_map JStr id <$> parse_chars s1
      else if starts_with (js "null") (c :: s1) then Some (JNull, drop 4 (c :: s1))
      else if starts_with (js "true") (c :: s1) then Some (JBool true, drop 4 (c :: s1))
      else if starts_with (js "false") (c :: s1) then Some (JBool false, drop 5 (c :: s1))
      else prod_map JNum id <$> parse_number (c :: s1)
  end.
Proof.
  cbn [parse_value]. destruct (skip_ws s) as [|c s1]; [reflexivity|].
  destruct (N.eqb_spec c 123) as [->|H1].
  { destruct (skip_ws s1) as [|d s2]; [reflexivity|]. case_unit d. }
  destruct (N.eqb_spec c 91) as [->|H2].
  { destruct (skip_ws s1) as [|d s2]; [reflexivity|]. case_unit d. }
  destruct (N.eqb_spec c 34) as [->|H3]; [reflexivity|].
  case_unit c; congruence.
Qed.

Lemma parse_elems_eq fuel s :
  parse_elems (S fuel) s =
  match parse_value fuel s with
  | None => None
  | Some (v, s1) =>
      match skip_ws s1 with
      | c :: s2 => if (c =? 44)%N then prod_map (cons v) id <$> parse_elems fuel s2
                   else if (c =? 93)%N then Some ([v], s2) else None
      | [] => None
      end
  end.
Proof.
  cbn [parse_elems]. destruct (parse_value fuel s) as [[v s1]|]; [|reflexivity].
  destruct (skip_ws s1) as [|c s2]; [reflexivity|]. case_unit c.
Qed.

Lemma parse_members_eq fuel s :
  parse_members (S fuel) s =
  match skip_ws s with
  | c :: s0 =>
      if (c =? 34)%N then
        match parse_chars s0 with
        | None => None
        | Some (k, s1) =>
            match skip_ws s1 with
            | d :: s2 =>
                if (d =? 58)%N then
                  match parse_value fuel s2 with
                  | None => None
                  | Some (v, s3) =>
                      match skip_ws s3 with
                      | e :: s4 =>
                          if (e =? 44)%N then prod_map (cons (k, v)) id <$> parse_members fuel s4
                          else if (e =? 125)%N then Some ([(k, v)], s4) else None
                      | [] => None
                      end
                  end
                else None
            | [] => None
            end
        end
      else None
  | [] => None
  end.
Proof.
  cbn [parse_members]. destruct (skip_ws s) as [|c s0]; [reflexivity|].
  destruct (N.eqb_spec c 34) as [->|H1]; [|case_unit c; congruence].
  destruct (parse_chars s0) as [[k s1]|]; [|reflexivity].
  destruct (skip_ws s1) as [|d s2]; [reflexivity|].
  destruct (N.eqb_spec d 58) as [->|H2]; [|case_unit d; congruence].
  destruct (parse_value fuel s2) as [[v s3]|]; [|reflexivity].
  destruct (skip_ws s3) as [|e s4]; [reflexivity|]. case_unit e.
Qed.

(** The syntax tree of a whole text. *)
Definition parse_text (s : jsstr) : option json :=
  match parse_value (2 * length s + 2) s with
  | Some (v, rest) => if nonempty (skip_ws rest) then None else Some v
  | None => None
  end.

(** ** JavaScript values *)

(** An array index: the canonical numeral of an integer below [2^32 - 1]. *)
Definition is_index (k : jsstr) : bool :=
  nonempty k && forallb is_digit k && bool_decide (print_N (parse_digits k) = k)
  && (parse_digits k <? 4294967295)%N.

Definition cmpIndex {A} (a b : jsstr * A) : Z :=
  (Z.of_N (parse_digits a.1) - Z.of_N (parse_digits b.1))%Z.

Definition property_order {A} (m : list (jsstr * A)) : list (jsstr * A) :=
  sort_by cmpIndex (List.filter (fun kv => is_index kv.1) m)
  ++ List.filter (fun kv => negb (is_index kv.1)) m.

Definition obj_of {A} (m : list (jsstr * A)) : list (jsstr * A) :=
  property_order (foldl (fun acc kv => map_set kv.1 kv.2 acc) [] m).

Fixpoint to_js (j : json) : json :=
  match j with
  | JArr l => JArr (map to_js l)
  | JObj m => JObj (obj_of (map (fun kv => (kv.1, to_js kv.2)) m))
  | _ => j
  end.

(** [JSON.parse]; [None] is a thrown [SyntaxError]. *)
Definition JSON_parse (s : jsstr) : option json := to_js <$> parse_text s.

Example json_demo :
  JSON_parse (jsq "{ 'b': [1, true], '2': null, 'b': 'x\n' }") =
  Some (JObj [(js "2", JNull); (js "b", JStr [120; 10]%N)]).
Proof. vm_compute. reflexivity. Qed.

(** ** [JSON.stringify] *)

Definition hex_digit (n : N) : N := if (n <? 10)%N then (48 + n)%N else (87 + n)%N.

(** [\uXXXX]. *)
Definition unicode_escape (c : N) : jsstr :=
  [92; 117; hex_digit (c / 4096); hex_digit (c / 256 mod 16);
   hex_digit (c / 16 mod 16); hex_digit (c mod 16)]%N.

Definition is_high (c : N) : bool := ((55296 <=? c) && (c <=? 56319))%N.
Definition is_low (c : N) : bool := ((56320 <=? c) && (c <=? 57343))%N.

Definition escape_char (c : N) : jsstr :=
  (if c =? 8 then [92; 98] else if c =? 9 then [92; 116] else if c =? 10 then [92; 110]
   else if c =? 12 then [92; 102] else if c =? 13 then [92; 114]
   else if c =? 34 then [92; 34] else if c =? 92 then [92; 92]
   else if c <? 32 then unicode_escape c else [c])%N.

(** Unpaired surrogates are escaped, pairs are copied. *)
Fixpoint escape (s : jsstr) : jsstr :=
  match s with
  | [] => []
  | c :: s' =>
      if is_high c then
        match s' with
        | d :: s'' => if is_low d then c :: d :: escape s'' else unicode_escape c ++ escape s'
        | [] => unicode_escape c
        end
      else if is_low c then unicode_escape c ++ escape s'
      else escape_char c ++ escape s'
  end.

(** [JSON.stringify] of a string. *)
Definition quote (s : jsstr) : jsstr := 34%N :: escape s ++ [34%N].

(** The layout of arrays and objects: the line break before an element at a
    nesting level, and the separator of a member's key. *)
Record layout := mkLayout { nl : nat → jsstr; colon : jsstr }.

Definition compact : layout := mkLayout (fun _ => []) [58%N].
(** The third argument [2] of [JSON.stringify(v, null, 2)]. *)
Definition indent2 : layout := mkLayout (fun k => 10%N :: replicate (2 * k) 32%N) [58%N; 32%N].

Section stringify.
(** [print_num] is the text of a number. *)
Context (lay : layout) (print_num : num → jsstr).

Definition print_seq (k : nat) (opn cls : N) (items : list jsstr) : jsstr :=
  match items with
  | [] => [opn; cls]
  | _ => opn :: nl lay (S k) ++ join (44%N :: nl lay (S k)) items ++ nl lay k ++ [cls]
  end.

Fixpoint stringify (k : nat) (j : json) : jsstr :=
  match j with
  | JNull => js "null"
  | JBool b => if b then js "true" else js "false"
  | JNum n => print_num n
  | JStr s => quote s
  | JArr l => print_seq k 91 93 (map (stringify (S k)) l)
  | JObj m => print_seq k 123 125
                (map (fun kv => quote kv.1 ++ colon lay ++ stringify (S k) kv.2) m)
  end.
End stringify.

(** ** Parsing what was printed *)

(** A value without numbers. *)
Fixpoint no_num (j : json) : bool :=
  match j with
  | JNum _ => false
  | JArr l => forallb no_num l
  | JObj m => forallb (fun kv => no_num kv.2) m
  | _ => true
  end.

(** The text of a number reads back as a JSON number. *)
Definition num_back (pn : num → jsstr) (n : num) : bool :=
  match pn n with c :: _ => is_digit c || (c =? 45)%N | [] => false end
  && bool_decide (parse_number (pn n) = Some (n, [])).

(** So do the texts of all numbers in a value. *)
Fixpoint nums_ok (pn : num → jsstr) (j : json) : bool :=
  match j with
  | JNum n => num_back pn n
  | JArr l => forallb (nums_ok pn) l
  | JObj m => forallb (fun kv => nums_ok pn kv.2) m
  | _ => true
  end.

(** A value as JavaScript holds it: distinct keys in property order. *)
Fixpoint js_ok (j : json) : Prop :=
  match j with
  | JArr l => (fix go l := match l with [] => True | x :: l' => js_ok x ∧ go l' end) l
  | JObj m => obj_of m = m ∧
      (fix go m := match m with [] => True | kv :: m' => js_ok kv.2 ∧ go m' end) m
  | _ => True
  end.

Definition all_json_ws (s : jsstr) : Prop := Forall (fun c => is_json_ws c = true) s.

(** The layouts of [JSON.stringify] only add JSON white space. *)
Class LayoutOk (lay : layout) : Prop := {
  nl_ws k : all_json_ws (nl lay k);
  colon_ws : ∃ w, colon lay = 58%N :: w ∧ all_json_ws w
}.

#[export] Instance compact_ok : LayoutOk compact.
Proof. split; [constructor|]. exists []. split; [done|constructor]. Qed.

#[export] Instance indent2_ok : LayoutOk indent2.
Proof.
  split; [|exists [32%N]; split; [done|by repeat constructor]].
  intros k. constructor; [done|]. by apply Forall_replicate.
Qed.

Lemma skip_ws_app w s : all_json_ws w → skip_ws (w ++ s) = skip_ws s.
Proof. induction 1 as [|c w Hc _ IH]; simpl; [done|]. by rewrite Hc. Qed.

Lemma skip_ws_cons c s : is_json_ws c = false → skip_ws (c :: s) = c :: s.
Proof. simpl. by intros ->. Qed.

Lemma hex_val_digit n : (n < 16)%N → hex_val (hex_digit n) = Some n.
Proof.
  intros Hn. unfold hex_val, hex_digit, is_digit.
  destruct (N.ltb_spec n 10).
  - rewrite (proj2 (andb_true_iff _ _)) by lia. f_equal. lia.
  - destruct ((48 <=? 87 + n)%N && (87 + n <=? 57)%N) eqn:E; [lia|].
    destruct ((97 <=? 87 + n)%N && (87 + n <=? 102)%N) eqn:E'; [f_equal; lia|lia].
Qed.

Lemma parse_chars_unicode c s :
  (c < 65536)%N →
  parse_chars (unicode_escape c ++ s) = prod_map (cons c) id <$> parse_chars s.
Proof.
  intros Hc. unfold unicode_escape. cbn [app parse_chars N.eqb Pos.eqb N.ltb N.compare].
  assert (H1 : (c / 4096 < 16)%N) by (apply N.Div0.div_lt_upper_bound; lia).
  assert (H2 : ∀ x, (x mod 16 < 16)%N) by (intros; apply N.mod_lt; lia).
  replace (117 =? 117)%N with true by done. simpl.
  rewrite !hex_val_digit by done.
  replace (((c / 4096 * 16 + c / 256 mod 16) * 16 + c / 16 mod 16) * 16 + c mod 16)%N with c;
    [done|].
  pose proof (N.div_mod c 16 ltac:(lia)) as E1.
  pose proof (N.div_mod (c / 16) 16 ltac:(lia)) as E2.
  pose proof (N.div_mod (c / 256) 16 ltac:(lia)) as E3.
  rewrite N.Div0.div_div in E2, E3. simpl in E2, E3. lia.
Qed.

Lemma parse_chars_escape_char c s :
  parse_chars (escape_char c ++ s) = prod_map (cons c) id <$> parse_chars s.
Proof.
  unfold escape_char.
  do 7 (match goal with |- context [(c =? ?x)%N] => destruct (N.eqb_spec c x); [by subst|] end).
  destruct (N.ltb_spec c 32); [apply parse_chars_unicode; lia|].
  simpl. destruct (N.eqb_spec c 34); [lia|]. destruct (N.ltb_spec c 32); [lia|].
  by destruct (N.eqb_spec c 92).
Qed.

Lemma parse_chars_plain c s :
  (57344 <= c ∨ 55296 <= c <= 57343)%N → parse_chars (c :: s) = prod_map (cons c) id <$> parse_chars s.
Proof.
  intros Hc. simpl. destruct (N.eqb_spec c 34); [lia|]. destruct (N.ltb_spec c 32); [lia|].
  by destruct (N.eqb_spec c 92); [lia|].
Qed.

Lemma parse_chars_escape s rest : parse_chars (escape s ++ 34%N :: rest) = Some (s, rest).
Proof.
  assert (H : ∀ n s, (length s <= n)%nat → parse_chars (escape s ++ 34%N :: rest) = Some (s, rest));
    [|by apply (H (length s))].
  clear s. induction n as [|n IH]; intros s Hs; [by destruct s; simpl in *; [|lia]|].
  destruct s as [|c s]; [done|]. simpl in Hs. cbn [escape].
  destruct (is_high c) eqn:Eh.
  - unfold is_high in Eh. destruct s as [|d s].
    + rewrite parse_chars_unicode by lia. done.
    + destruct (is_low d) eqn:El.
      * unfold is_low in El. simpl in Hs. simpl app.
        rewrite !parse_chars_plain by lia. rewrite IH by lia. done.
      * rewrite <- app_assoc, parse_chars_unicode by lia. rewrite IH by (simpl in *; lia). done.
  - destruct (is_low c) eqn:El; rewrite <- app_assoc.
    + unfold is_low in El. rewrite parse_chars_unicode by lia. rewrite IH by lia. done.
    + rewrite parse_chars_escape_char, IH by lia. done.
Qed.

Lemma parse_value_ws fuel w s : all_json_ws w → parse_value fuel (w ++ s) = parse_value fuel s.
Proof. intros Hw. destruct fuel; simpl; [done|]. by rewrite skip_ws_app. Qed.

Lemma parse_elems_ws fuel w s : all_json_ws w → parse_elems fuel (w ++ s) = parse_elems fuel s.
Proof. intros Hw. destruct fuel; simpl; [done|]. by rewrite parse_value_ws. Qed.

Lemma parse_members_ws fuel w s : all_json_ws w → parse_members fuel (w ++ s) = parse_members fuel s.
Proof. intros Hw. destruct fuel; simpl; [done|]. by rewrite skip_ws_app. Qed.

(** Fuel that parsing a printed value needs. *)
Fixpoint jsize (j : json) : nat :=
  match j with
  | JArr l => S (sum_list_with (fun x => S (jsize x)) l)
  | JObj m => S (sum_list_with (fun kv => S (jsize kv.2)) m)
  | _ => 1
  end.

(** ** Numbers followed by other text *)

(** What may follow a number without being read as a part of it. *)
Definition num_stop (s : jsstr) : Prop :=
  match s with
  | [] => True
  | c :: _ => is_digit c = false ∧ c ≠ 46%N ∧ c ≠ 101%N ∧ c ≠ 69%N
  end.

Lemma num_stop_ws w c s : all_json_ws w → num_stop (c :: s) → num_stop (w ++ c :: s).
Proof.
  intros Hw Hs. destruct Hw as [|d w Hd]; [done|]. cbn. unfold is_json_ws, is_digit in *. lia.
Qed.

Lemma take_digits_app s ds t rest :
  take_digits s = (ds, t) → (t ≠ [] ∨ match rest with c :: _ => is_digit c = false | [] => True end) →
  take_digits (s ++ rest) = (ds, t ++ rest).
Proof.
  revert ds t. induction s as [|c s IH]; intros ds t Heq Hr; cbn [take_digits app] in *.
  - injection Heq as <- <-. destruct Hr as [|Hr]; [done|]. destruct rest as [|c rest]; [done|].
    cbn. by rewrite Hr.
  - destruct (is_digit c); [|by injection Heq as <- <-].
    destruct (take_digits s) as [ds' t'] eqn:E. cbn in Heq. injection Heq as <- <-.
    by rewrite (IH ds' t').
Qed.

Lemma parse_exp_app s e rest :
  parse_exp s = Some (e, []) → num_stop rest → parse_exp (s ++ rest) = Some (e, rest).
Proof.
  intros H Hr. destruct s as [|c s]; cbn [app].
  - injection H as <-. unfold parse_exp. destruct rest as [|c rest]; [done|].
    destruct Hr as (_ & _ & H1 & H2). by rewrite !(proj2 (N.eqb_neq _ _)).
  - unfold parse_exp in *. destruct ((c =? 101)%N || (c =? 69)%N); [|done].
    assert (Hsg : ∀ (t : jsstr) (sg : Z), (let '(ds, s3) := take_digits t in
      if nonempty ds then Some ((sg * Z.of_N (parse_digits ds))%Z, s3) else None) = Some (e, []) →
      (let '(ds, s3) := take_digits (t ++ rest) in
      if nonempty ds then Some ((sg * Z.of_N (parse_digits ds))%Z, s3) else None) = Some (e, rest)).
    { intros t sg Ht. destruct (take_digits t) as [ds s3] eqn:E.
      rewrite (take_digits_app _ _ _ rest E) by (right; by destruct rest as [|? ?]; [|destruct Hr]).
      destruct (nonempty ds); [|done]. by injection Ht as <- ->. }
    destruct s as [|d s]; [done|].
    destruct (N.eq_dec d 43%N) as [->|H1]; [by apply Hsg|].
    destruct (N.eq_dec d 45%N) as [->|H2]; [by apply Hsg|].
    assert (Hd : ∀ u : jsstr, (match d :: u with 43%N :: s2 => (1%Z, s2) | 45%N :: s2 => ((-1)%Z, s2)
                    | _ => (1%Z, d :: u) end) = (1%Z, d :: u)).
    { intros u. destruct d as [|d]; [done|]. do 6 (try (destruct d as [d|d|]; try done)). }
    cbn [app]. rewrite Hd in *. by apply (Hsg (d :: s)).
Qed.

Lemma parse_frac_app s f t rest :
  parse_frac s = Some (f, t) → (t ≠ [] ∨ num_stop rest) → parse_frac (s ++ rest) = Some (f, t ++ rest).
Proof.
  intros H Hr. destruct s as [|c s].
  - injection H as <- <-. destruct Hr as [|Hr]; [done|]. cbn [app]. destruct rest as [|c rest]; [done|].
    destruct Hr as (_ & Hc & _). destruct c as [|c]; [done|].
    do 6 (try (destruct c as [c|c|]; try done)).
  - destruct (N.eq_dec c 46%N) as [->|Hc].
    + cbn [parse_frac app] in *. destruct (take_digits s) as [ds s2] eqn:E.
      destruct (nonempty ds) eqn:En; [|done]. injection H as <- <-.
      rewrite (take_digits_app _ _ _ rest E), En; [done|].
      destruct Hr as [|Hr]; [by left|right]. by destruct rest as [|? ?]; [|destruct Hr].
    + assert (Hc' : ∀ u : jsstr, parse_frac (c :: u) = Some ([], c :: u)).
      { intros u. destruct c as [|c]; [done|]. do 6 (try (destruct c as [c|c|]; try done)). }
      cbn [app]. rewrite Hc' in *. by injection H as <- <-.
Qed.

Lemma parse_number_app s n rest :
  parse_number s = Some (n, []) → num_stop rest → parse_number (s ++ rest) = Some (n, rest).
Proof.
  intros H Hr.
  assert (Hneg : ∃ neg s1, ∀ t, (match s ++ t with 45%N :: u => (true, u) | _ => (false, s ++ t) end) = (neg, s1 ++ t)).
  { destruct s as [|c s]; [done|]. destruct (N.eq_dec c 45%N) as [->|Hc]; [by exists true, s|].
    exists false, (c :: s). intros t. cbn [app]. destruct c as [|c]; [done|].
    do 6 (try (destruct c as [c|c|]; try done)). }
  destruct Hneg as (neg & s1 & Hneg). unfold parse_number in *. pose proof (Hneg []) as H0.
  rewrite !app_nil_r in H0. rewrite H0 in H. rewrite Hneg. clear Hneg H0.
  destruct (take_digits s1) as [ints s2] eqn:E1.
  rewrite (take_digits_app _ _ _ rest E1) by (right; by destruct rest as [|? ?]; [|destruct Hr]).
  destruct (negb (nonempty ints)); [done|].
  assert (Hcore : match parse_frac s2 with
    | None => None
    | Some (frac, s3) => match parse_exp s3 with
        | None => None
        | Some (e, s4) => Some (num_of_dec neg (parse_digits (ints ++ frac)) (e - Z.of_nat (length frac))%Z, s4)
        end end = Some (n, []) →
    match parse_frac (s2 ++ rest) with
    | None => None
    | Some (frac, s3) => match parse_exp s3 with
        | None => None
        | Some (e, s4) => Some (num_of_dec neg (parse_digits (ints ++ frac)) (e - Z.of_nat (length frac))%Z, s4)
        end end = Some (n, rest)).
  { intros Hc. destruct (parse_frac s2) as [[f s3]|] eqn:E2; [|done].
    rewrite (parse_frac_app _ _ _ rest E2) by by right.
    destruct (parse_exp s3) as [[e s4]|] eqn:E3; [|done]. injection Hc as <- ->.
    by rewrite (parse_exp_app _ _ _ E3 Hr). }
  destruct ints as [|d [|d' ints]]; [by apply Hcore| |].
  - destruct d as [|d]; [by apply Hcore|]. do 6 (try (destruct d as [d|d|]; try by apply Hcore)).
  - destruct d as [|d]; [by apply Hcore|]. do 6 (try (destruct d as [d|d|]; try by apply Hcore)); done.
Qed.

Lemma js_ok_arr l : Forall js_ok l → js_ok (JArr l).
Proof. induction 1; simpl in *; auto. Qed.

Lemma js_ok_obj m : obj_of m = m → Forall (fun kv => js_ok kv.2) m → js_ok (JObj m).
Proof. intros Ho H. split; [done|]. clear Ho. induction H; simpl in *; auto. Qed.

(** An object whose keys are distinct and not array indices keeps its members as listed. *)
Lemma obj_of_plain {A} (m : list (jsstr * A)) :
  NoDup m.*1 → Forall (fun kv => is_index kv.1 = false) m → obj_of m = m.
Proof.
  intros Hd Hi. unfold obj_of.
  assert (Hf : ∀ acc, NoDup (acc ++ m).*1 → foldl (fun acc kv => map_set kv.1 kv.2 acc) acc m = acc ++ m).
  { clear Hi Hd. induction m as [|[k v] m IH]; intros acc H; cbn; [by rewrite app_nil_r|].
    assert (Hk : map_set k v acc = acc ++ [(k, v)]).
    { rewrite fmap_app in H. apply NoDup_app in H as (_ & H & _).
      assert (Hn : k ∉ acc.*1) by (intros Hin; apply (H k Hin); apply list_elem_of_here).
      clear -Hn. induction acc as [|[k' v'] acc IH]; cbn in *; [done|].
      rewrite decide_False by set_solver. rewrite IH; set_solver. }
    rewrite Hk, IH; rewrite <- app_assoc; done. }
  rewrite Hf by done. cbn. unfold property_order.
  rewrite (List_filter_all (fun kv => negb (is_index kv.1)))
    by (eapply Forall_impl; [exact Hi|]; intros kv Hkv; by rewrite Hkv).
  replace (List.filter (fun kv => is_index kv.1) m) with (@nil (jsstr * A)); [done|].
  clear Hd Hf. induction Hi as [|kv m Hkv Hi IH]; cbn; [done|]. by rewrite Hkv.
Qed.

Section roundtrip.
Context (lay : layout) `{!LayoutOk lay} (pn : num → jsstr).

Definition parses_back (v : json) : Prop :=
  nums_ok pn v = true → ∀ k fuel rest, (jsize v <= fuel)%nat → num_stop rest →
  parse_value fuel (stringify lay pn k v ++ rest) = Some (v, rest).

Definition print_member (k : nat) (kv : jsstr * json) : jsstr :=
  quote kv.1 ++ colon lay ++ stringify lay pn k kv.2.

Lemma stringify_head k v : nums_ok pn v = true →
  ∃ c t, stringify lay pn k v = c :: t ∧ (c ∈ [34; 91; 123; 110; 116; 102]%N ∨ is_digit c || (c =? 45)%N = true).
Proof.
  destruct v as [|[]|n|s|l|m]; simpl; intros H.
  - eexists _, _. split; [reflexivity|set_solver].
  - eexists _, _. split; [reflexivity|set_solver].
  - eexists _, _. split; [reflexivity|set_solver].
  - unfold num_back in H. destruct (pn n) as [|c t]; [done|]. apply andb_true_iff in H as [H _].
    exists c, t. by split; [|right].
  - eexists _, _. split; [reflexivity|set_solver].
  - destruct l; simpl; eexists _, _; (split; [reflexivity|set_solver]).
  - destruct m; simpl; eexists _, _; (split; [reflexivity|set_solver]).
Qed.

Lemma parse_elems_print k l w fuel rest :
  l ≠ [] → Forall parses_back l → forallb (nums_ok pn) l = true → all_json_ws w →
  (sum_list_with (fun x => S (jsize x)) l <= fuel)%nat →
  parse_elems fuel (join (44%N :: nl lay k) (map (stringify lay pn k) l) ++ w ++ 93%N :: rest)
  = Some (l, rest).
Proof.
  intros Hne HP Hnn Hw. revert fuel. induction l as [|v l IH]; [done|]. intros fuel Hf.
  apply Forall_cons in HP as [Hv HP]. simpl in Hnn, Hf. apply andb_true_iff in Hnn as [Hnv Hnn].
  destruct fuel as [|fuel]; [lia|]. destruct l as [|v' l].
  - simpl join. cbn [parse_elems map join]. rewrite Hv by (done || lia || by apply num_stop_ws).
    by rewrite skip_ws_app.
  - cbn [map join parse_elems]. rewrite <- !app_assoc, Hv by (done || lia).
    cbn [app]. rewrite skip_ws_cons by done. rewrite parse_elems_ws by apply nl_ws.
    change (stringify lay pn k v' :: map (stringify lay pn k) l)
      with (map (stringify lay pn k) (v' :: l)).
    rewrite IH by (done || lia). done.
Qed.

Lemma parse_members_print k m w fuel rest :
  m ≠ [] → Forall (fun kv => parses_back kv.2) m → forallb (fun kv => nums_ok pn kv.2) m = true →
  all_json_ws w → (sum_list_with (fun kv => S (jsize kv.2)) m <= fuel)%nat →
  parse_members fuel (join (44%N :: nl lay k) (map (print_member k) m) ++ w ++ 125%N :: rest)
  = Some (m, rest).
Proof.
  intros Hne HP Hnn Hw. revert fuel. destruct colon_ws as (cw & Hcol & Hcw).
  induction m as [|[key v] m IH]; [done|]. intros fuel Hf.
  apply Forall_cons in HP as [Hv HP]. simpl in Hnn, Hf, Hv. apply andb_true_iff in Hnn as [Hnv Hnn].
  destruct fuel as [|fuel]; [lia|].
  assert (Hkey : ∀ tl, num_stop tl → parse_members (S fuel) (print_member k (key, v) ++ tl) =
    match skip_ws tl with
    | 44%N :: s4 => prod_map (cons (key, v)) id <$> parse_members fuel s4
    | 125%N :: s4 => Some ([(key, v)], s4)
    | _ => None
    end).
  { intros tl Htl. unfold print_member, quote. rewrite Hcol. cbn [fst snd app].
    rewrite <- !app_assoc. cbn [app parse_members]. rewrite skip_ws_cons by done.
    rewrite parse_chars_escape. cbn [app]. rewrite (skip_ws_cons 58) by done.
    rewrite <- app_assoc, parse_value_ws by done. by rewrite Hv by (done || lia). }
  destruct m as [|kv' m].
  - cbn [map join]. rewrite Hkey by by apply num_stop_ws. by rewrite skip_ws_app.
  - cbn [map join]. rewrite <- !app_assoc, Hkey by done. cbn [app]. rewrite skip_ws_cons by done.
    rewrite parse_members_ws by apply nl_ws.
    change (print_member k kv' :: map (print_member k) m) with (map (print_member k) (kv' :: m)).
    rewrite IH by (done || lia). done.
Qed.

Lemma elems_unit fuel (c : N) t :
  c ≠ 93%N →
  match c :: t with
  | 93%N :: s2 => Some (JArr [], s2)
  | s2 => prod_map JArr id <$> parse_elems fuel s2
  end = prod_map JArr id <$> parse_elems fuel (c :: t).
Proof. intros H. case_unit c; congruence. Qed.

Lemma parse_value_stringify v : parses_back v.
Proof.
  induction v as [|b|n|s|l IH|m IH] using json_ind; intros Hnn k [|fuel] rest Hf Hr;
    simpl in Hf; try lia; try done.
  - by destruct b.
  - cbn [stringify nums_ok] in *. unfold num_back in Hnn. apply andb_true_iff in Hnn as [Hh Hp].
    apply bool_decide_eq_true in Hp. pose proof (parse_number_app _ _ _ Hp Hr) as Ha.
    rewrite parse_value_eq. destruct (pn n) as [|c t]; [done|]. cbn [app] in *.
    assert (Hc : c = 45%N ∨ (48 <= c <= 57)%N) by (unfold is_digit in Hh; lia).
    rewrite skip_ws_cons by (unfold is_json_ws; lia).
    rewrite !(proj2 (N.eqb_neq _ _)) by lia. rewrite Ha.
    change (js "null") with (110%N :: js "ull"). change (js "true") with (116%N :: js "rue").
    change (js "false") with (102%N :: js "alse"). cbn [starts_with].
    by rewrite !(proj2 (N.eqb_neq _ _)) by lia.
  - unfold stringify, quote. cbn [app parse_value]. rewrite skip_ws_cons by done.
    rewrite <- app_assoc. cbn [app]. by rewrite parse_chars_escape.
  - destruct l as [|v l]; [done|]. set (l' := v :: l) in *.
    destruct (stringify_head (S k) v) as (c & t & Hh & Hc).
    { simpl in Hnn. by apply andb_true_iff in Hnn as [? _]. }
    pose proof (parse_elems_print (S k) l' (nl lay k) fuel rest ltac:(done) IH Hnn
                  (nl_ws k) ltac:(lia)) as He.
    cbn [stringify]. unfold print_seq, l'. cbn [map app parse_value].
    rewrite skip_ws_cons by done. rewrite <- !app_assoc, skip_ws_app by apply nl_ws.
    unfold l' in He. cbn [map app] in *. 
    destruct l; cbn [map join] in *; rewrite Hh in *; cbn [app] in *;
      (rewrite skip_ws_cons by (unfold is_json_ws, is_digit in *; set_unfold in Hc; lia));
      rewrite elems_unit by (unfold is_digit in *; set_unfold in Hc; lia); by rewrite He.
  - destruct m as [|[key v] m]; [done|].
    pose proof (parse_members_print (S k) ((key, v) :: m) (nl lay k) fuel rest ltac:(done) IH Hnn
                  (nl_ws k) ltac:(lia)) as He.
    cbn [stringify]. unfold print_seq. cbn [map app parse_value].
    rewrite skip_ws_cons by done. rewrite <- !app_assoc, skip_ws_app by apply nl_ws.
    destruct m; unfold print_member, quote in *; cbn [map join fst snd app] in *;
      rewrite skip_ws_cons by done; by rewrite He.
Qed.
Lemma length_join sep l : (sum_list_with length l <= length (join sep l))%nat.
Proof.
  induction l as [|x l IH]; simpl; [done|]. destruct l as [|y l]; simpl in *; [lia|].
  rewrite !length_app. simpl in *. lia.
Qed.

Lemma length_join_sep c sep l :
  (sum_list_with (fun s => S (length s)) l <= S (length (join (c :: sep) l)))%nat.
Proof.
  induction l as [|x l IH]; simpl; [lia|]. destruct l as [|y l]; simpl in *; [lia|].
  rewrite !length_app. simpl in *. rewrite length_app. lia.
Qed.

Lemma jsize_stringify v k :
  nums_ok pn v = true → (jsize v <= 2 * length (stringify lay pn k v))%nat.
Proof.
  revert k. induction v as [|b|n|s|l IH|m IH] using json_ind; intros k Hnn; cbn [jsize stringify].
  - simpl. lia.
  - destruct b; simpl; lia.
  - cbn [nums_ok] in Hnn. unfold num_back in Hnn. destruct (pn n); [done|]. cbn [length]. lia.
  - simpl. lia.
  - assert (Hs : (sum_list_with (fun x => S (jsize x)) l <=
                  2 * sum_list_with (fun s => S (length s)) (map (stringify lay pn (S k)) l))%nat).
    { simpl in Hnn. clear -IH Hnn. induction IH as [|x l Hx _ IHl]; simpl in *; [lia|].
      apply andb_true_iff in Hnn as [H1 H2]. specialize (Hx (S k) H1). specialize (IHl H2). lia. }
    destruct l as [|x l]; [simpl; lia|]. unfold print_seq. cbn [map] in *.
    pose proof (length_join_sep 44 (nl lay (S k))
      (stringify lay pn (S k) x :: map (stringify lay pn (S k)) l)) as Hj.
    cbn [length]. rewrite !length_app. cbn [length]. lia.
  - set (pm := fun kv : jsstr * json => quote kv.1 ++ colon lay ++ stringify lay pn (S k) kv.2).
    assert (Hs : (sum_list_with (fun kv => S (jsize kv.2)) m <=
                  2 * sum_list_with (fun s => S (length s)) (map pm m))%nat).
    { simpl in Hnn. clear -IH Hnn. induction IH as [|x m Hx _ IHm]; cbn [forallb map sum_list_with] in *; [lia|].
      apply andb_true_iff in Hnn as [H1 H2]. specialize (Hx (S k) H1). specialize (IHm H2).
      unfold pm at 1. rewrite !length_app. lia. }
    destruct m as [|x m]; [simpl; lia|]. unfold print_seq. cbn [map] in *.
    pose proof (length_join_sep 44 (nl lay (S k)) (pm x :: map pm m)) as Hj.
    cbn [length]. rewrite !length_app. cbn [length]. lia.
Qed.

Lemma to_js_ok v : js_ok v → to_js v = v.
Proof.
  induction v as [| | | |l IH|m IH] using json_ind; try done.
  - simpl. intros H. f_equal. induction IH as [|x l Hx _ IHl]; simpl; [done|].
    destruct H as [H1 H2]. by rewrite Hx, IHl.
  - simpl. intros [Ho H]. f_equal. rewrite <- Ho at 2. f_equal. clear Ho.
    induction IH as [|[key x] m Hx _ IHm]; simpl in *; [done|].
    destruct H as [H1 H2]. by rewrite Hx, IHm.
Qed.

(** [JSON.parse(JSON.stringify(v))] is [v]. *)
Lemma JSON_parse_printed v :
  nums_ok pn v = true → js_ok v → JSON_parse (stringify lay pn 0 v) = Some v.
Proof.
  intros Hnn Hok. unfold JSON_parse, parse_text.
  pose proof (jsize_stringify v 0 Hnn) as Hsz.
  pose proof (parse_value_stringify v Hnn 0 (2 * length (stringify lay pn 0 v) + 2) []) as Hp.
  rewrite app_nil_r in Hp. rewrite Hp by (done || lia). simpl. by rewrite to_js_ok.
Qed.

Lemma no_num_ok v : no_num v = true → nums_ok pn v = true.
Proof.
  induction v as [| | | |l IH|m IH] using json_ind; simpl; try done.
  - induction IH as [|x l Hx _ IHl]; simpl; [done|]. rewrite !andb_true_iff. naive_solver.
  - induction IH as [|x l Hx _ IHl]; simpl; [done|]. rewrite !andb_true_iff. naive_solver.
Qed.

Lemma JSON_parse_stringify v :
  no_num v = true → js_ok v → JSON_parse (stringify lay pn 0 v) = Some v.
Proof. intros. by apply JSON_parse_printed; [apply no_num_ok|]. Qed.
End roundtrip.
