(* ===== verification/HttpStatus.v ===== *)
(** * HTTP status-code rules (src/web/default/src/lib/http-status-code-rules.ts)

    The rule text an administrator types ("401, 500-503") is parsed into
    status-code ranges, the ranges are sorted and merged, and the merged ranges
    are printed back as the stored setting. Definitions follow the source
    function by function; the theorems relate the printed rules to the set of
    codes the text denotes. *)

From S2P Require Import Prelude.

Module HttpStatus.

Record StatusCodeRange := mkRange { start : Z; end_ : Z }.

#[export] Instance StatusCodeRange_eq_dec : EqDecision StatusCodeRange.
Proof. solve_decision. Defined.

Record ParsedHttpStatusCodeRules := mkParsed {
  ok : bool;
  ranges : list StatusCodeRange;
  tokens : list jsstr;
  normalized : jsstr;
  invalidTokens : list jsstr
}.

(** [/^\d+$/.test(s)]. *)
Definition isNumber (s : jsstr) : bool := nonempty s && forallb is_digit s.

(** [Number.isFinite(code) && code >= 100 && code <= 599]; a digit string never
    parses to NaN, and one that parses to Infinity is above 599. *)
Definition isValidCode (code : Z) : bool := ((100 <=? code) && (code <=? 599))%Z.

Definition parseInt10 (s : jsstr) : Z := Z.of_N (parse_digits s).

(** [token.trim().replaceAll(/\s/g, '')]. *)
Definition cleanToken (token : jsstr) : jsstr :=
  List.filter (fun c => negb (is_ws c)) (trim token).

(** [parseToken]; 45 is ['-']. Array destructuring keeps the first two parts. *)
Definition parseToken (token : jsstr) : option StatusCodeRange :=
  let cleaned := cleanToken token in
  if negb (nonempty cleaned) then None
  else if includes [45%N] cleaned then
    match split_char 45 cleaned with
    | a :: b :: _ =>
        if negb (isNumber a) || negb (isNumber b) then None
        else
          let s := parseInt10 a in
          let e := parseInt10 b in
          if negb (isValidCode s) || negb (isValidCode e) || (e <? s)%Z then None
          else Some (mkRange s e)
    | _ => None
    end
  else if negb (isNumber cleaned) then None
  else
    let code := parseInt10 cleaned in
    if negb (isValidCode code) then None else Some (mkRange code code).

(** The comparator of [mergeRanges]. *)
Definition cmpRange (a b : StatusCodeRange) : Z :=
  if decide (start a = start b) then (end_ a - end_ b)%Z else (start a - start b)%Z.

(** The reducer of [mergeRanges]: push, or extend the last range in place. *)
Definition mergeStep (merged : list StatusCodeRange) (current : StatusCodeRange) :
    list StatusCodeRange :=
  match last merged with
  | None => merged ++ [current]
  | Some l =>
      if (end_ l + 1 <? start current)%Z then merged ++ [current]
      else <[length merged - 1 := mkRange (start l) (Z.max (end_ l) (end_ current))]> merged
  end.

Definition mergeRanges (rs : list StatusCodeRange) : list StatusCodeRange :=
  match rs with
  | [] => []
  | _ => foldl mergeStep [] (sort_by cmpRange rs)
  end.

(** The template literal of one merged range. *)
Definition printRange (r : StatusCodeRange) : jsstr :=
  if (start r =? end_ r)%Z then print_N (Z.to_N (start r))
  else print_N (Z.to_N (start r)) ++ [45%N] ++ print_N (Z.to_N (end_ r)).

(** [sanitized.split(',').map(s => s.trim()).filter(Boolean)]; 65292 is the
    fullwidth comma, 44 the ASCII one. *)
Definition segmentsOf (raw : jsstr) : list jsstr :=
  let sanitized := map (fun c => if (c =? 65292)%N then 44%N else c) raw in
  List.filter nonempty (map trim (split_char 44 sanitized)).

(** The loop over the segments: the parsed ranges and the rejected segments. *)
Definition scanSegments (segments : list jsstr) : list StatusCodeRange * list jsstr :=
  foldl (fun '(rs, bad) seg =>
           match parseToken seg with
           | None => (rs, bad ++ [seg])
           | Some r => (rs ++ [r], bad)
           end) ([], []) segments.

(** [parseHttpStatusCodeRules]; [None] is [null] or [undefined]. *)
Definition parseHttpStatusCodeRules (input : option jsstr) : ParsedHttpStatusCodeRules :=
  let raw := trim (default [] input) in
  if (length raw =? 0)%nat then mkParsed true [] [] [] []
  else
    let '(rs, bad) := scanSegments (segmentsOf raw) in
    if (0 <? length bad)%nat then mkParsed false [] [] raw bad
    else
      let merged := mergeRanges rs in
      let toks := map printRange merged in
      mkParsed true merged toks (join [44%N] toks) [].

Example parse_demo :
  parseHttpStatusCodeRules (Some (js " 500-503, 401,502 - 510 ")) =
  mkParsed true [mkRange 401 401; mkRange 500 510] [js "401"; js "500-510"] (js "401,500-510") [].
Proof. vm_compute. reflexivity. Qed.

(** ** Lemmas *)

Definition covers (rs : list StatusCodeRange) (c : Z) : Prop :=
  ∃ r, r ∈ rs ∧ (start r ≤ c ≤ end_ r)%Z.

Definition wf_range (r : StatusCodeRange) : Prop :=
  (100 ≤ start r ∧ start r ≤ end_ r ∧ end_ r ≤ 599)%Z.

Definition gap (a b : StatusCodeRange) : Prop := (end_ a + 1 < start b)%Z.

(** Canonical rules: nonempty ranges, sorted, neither overlapping nor adjacent. *)
Definition canonical (rs : list StatusCodeRange) : Prop :=
  Forall (fun r => start r ≤ end_ r)%Z rs ∧ StronglySorted gap rs.

Lemma covers_nil c : covers [] c ↔ False.
Proof. unfold covers. set_solver. Qed.

Lemma covers_cons r rs c : covers (r :: rs) c ↔ (start r ≤ c ≤ end_ r)%Z ∨ covers rs c.
Proof. unfold covers. set_solver. Qed.

Lemma covers_app rs rs' c : covers (rs ++ rs') c ↔ covers rs c ∨ covers rs' c.
Proof. unfold covers. set_solver. Qed.

Lemma covers_perm rs rs' c : rs ≡ₚ rs' → covers rs c ↔ covers rs' c.
Proof. intros Hp. unfold covers. by setoid_rewrite Hp. Qed.

#[local] Hint Rewrite covers_nil covers_cons covers_app : covers.

#[export] Instance cmpRange_comparator : Comparator cmpRange.
Proof. split; unfold cmp_le, cmpRange; intros; repeat case_decide; lia. Qed.

Lemma mergeStep_snoc pre l c :
  mergeStep (pre ++ [l]) c =
  if (end_ l + 1 <? start c)%Z then pre ++ [l; c]
  else pre ++ [mkRange (start l) (Z.max (end_ l) (end_ c))].
Proof.
  unfold mergeStep. rewrite last_snoc. destruct (_ <? _)%Z.
  - by rewrite <- app_assoc.
  - rewrite length_app. simpl. replace (length pre + 1 - 1)%nat with (length pre + 0)%nat by lia.
    by rewrite insert_app_r.
Qed.

Lemma canonical_snoc pre l :
  canonical (pre ++ [l]) ↔ canonical pre ∧ (start l ≤ end_ l)%Z ∧ Forall (fun r => gap r l) pre.
Proof.
  unfold canonical. rewrite StronglySorted_snoc, Forall_app, Forall_singleton. naive_solver.
Qed.

Lemma foldl_mergeStep pre l rs :
  canonical (pre ++ [l]) →
  Forall (fun r => start l ≤ start r ∧ start r ≤ end_ r)%Z rs →
  StronglySorted (cmp_le cmpRange) rs →
  let m := foldl mergeStep (pre ++ [l]) rs in
  canonical m ∧ ∀ c, covers m c ↔ covers (pre ++ [l]) c ∨ covers rs c.
Proof.
  revert pre l. induction rs as [|r rs IH]; intros pre l Hc Hrs Hs; simpl.
  { split; [done|]. intros c. autorewrite with covers. tauto. }
  apply Forall_cons in Hrs as [[Hlr Hr] Hrs]. apply StronglySorted_inv in Hs as [Hs Hrf].
  assert (Hge : Forall (fun r' => start r ≤ start r' ∧ start r' ≤ end_ r')%Z rs).
  { rewrite Forall_forall in *. intros x Hx. specialize (Hrf x Hx). specialize (Hrs x Hx).
    unfold cmp_le, cmpRange in Hrf. case_decide; lia. }
  rewrite mergeStep_snoc. pose proof Hc as (Hp & Hl & Hg)%canonical_snoc.
  destruct (Z.ltb_spec (end_ l + 1) (start r)) as [Hlt|Hge'].
  - change [l; r] with ([l] ++ [r]). rewrite app_assoc.
    destruct (IH (pre ++ [l]) r) as [Hcan Hcov]; [|done..|].
    { apply canonical_snoc. split_and!; [done..|]. apply Forall_app. split; [|by constructor].
      eapply Forall_impl; [exact Hg|]. unfold gap. simpl. lia. }
    split; [done|]. intros c. rewrite Hcov. autorewrite with covers. tauto.
  - destruct (IH pre (mkRange (start l) (Z.max (end_ l) (end_ r)))) as [Hcan Hcov]; [| |done|].
    { apply canonical_snoc. split_and!; [done|simpl; lia|done]. }
    { done. }
    split; [done|]. intros c. rewrite Hcov. autorewrite with covers. simpl.
    assert (Hm : (start l ≤ c ≤ end_ l `max` end_ r ↔
                  start l ≤ c ≤ end_ l ∨ start r ≤ c ≤ end_ r)%Z) by lia.
    tauto.
Qed.

Lemma mergeRanges_spec rs :
  Forall (fun r => start r ≤ end_ r)%Z rs →
  canonical (mergeRanges rs) ∧ ∀ c, covers (mergeRanges rs) c ↔ covers rs c.
Proof.
  intros Hrs. destruct rs as [|r0 rs0]; [by repeat constructor|].
  unfold mergeRanges. set (rs := r0 :: rs0) in *.
  pose proof (sort_by_sorted cmpRange rs) as Hs. pose proof (sort_by_perm cmpRange rs) as Hp.
  destruct (sort_by cmpRange rs) as [|s0 ss] eqn:E; [by apply Permutation_nil in Hp|].
  assert (Hwf : Forall (fun r => start r ≤ end_ r)%Z (s0 :: ss)) by (by rewrite Hp).
  apply Forall_cons in Hwf as [H0 Hss]. apply StronglySorted_inv in Hs as [Hs Hf].
  destruct (foldl_mergeStep [] s0 ss) as [Hcan Hcov]; [|..|done|].
  { apply canonical_snoc. by repeat constructor. }
  { rewrite Forall_forall in *. intros x Hx. specialize (Hf x Hx). specialize (Hss x Hx).
    unfold cmp_le, cmpRange in Hf. case_decide; lia. }
  split; [done|]. intros c. simpl. unfold mergeStep at 2. simpl. rewrite Hcov.
  rewrite <- covers_app. simpl. by apply covers_perm.
Qed.

Lemma foldl_mergeStep_id acc rs : canonical (acc ++ rs) → foldl mergeStep acc rs = acc ++ rs.
Proof.
  revert acc. induction rs as [|r rs IH]; intros acc Hc; simpl; [by rewrite app_nil_r|].
  assert (Hstep : mergeStep acc r = acc ++ [r]).
  { destruct acc as [|l pre _] using rev_ind; [done|].
    rewrite mergeStep_snoc, <- app_assoc. rewrite <- app_assoc in Hc. destruct Hc as [_ Hc].
    assert (gap l r) as Hg.
    { clear -Hc. induction pre as [|x pre IHp]; simpl in *.
      - by apply StronglySorted_inv in Hc as [_ [? _]%Forall_cons].
      - apply StronglySorted_inv in Hc as [Hc _]. auto. }
    unfold gap in Hg. by rewrite (proj2 (Z.ltb_lt _ _) Hg). }
  rewrite Hstep, IH; by rewrite <- app_assoc.
Qed.

Lemma canonical_cmp_sorted rs : canonical rs → StronglySorted (cmp_le cmpRange) rs.
Proof.
  intros [Hwf Hs]. eapply StronglySorted_impl; [|exact Hwf|exact Hs].
  intros a b Ha Hb Hg. unfold gap in Hg. cbn beta in *. unfold cmp_le, cmpRange. case_decide; lia.
Qed.

Lemma mergeRanges_id rs : canonical rs → mergeRanges rs = rs.
Proof.
  intros Hc. unfold mergeRanges. destruct rs as [|r rs]; [done|].
  rewrite sort_by_id by (by apply canonical_cmp_sorted).
  by apply (foldl_mergeStep_id []).
Qed.

Lemma canonical_head_lt r rs c : canonical (r :: rs) → covers rs c → (end_ r + 1 < c)%Z.
Proof.
  intros [_ [_ Hg]%StronglySorted_inv] (x & Hx & Hc).
  rewrite Forall_forall in Hg. specialize (Hg x Hx). unfold gap in Hg. lia.
Qed.

Lemma canonical_tail r rs : canonical (r :: rs) → (start r ≤ end_ r)%Z ∧ canonical rs.
Proof. intros [[? ?]%Forall_cons [? _]%StronglySorted_inv]. by repeat split. Qed.

Lemma canonical_head_incl r rs r' rs' :
  canonical (r :: rs) → canonical (r' :: rs') →
  (∀ c, covers (r :: rs) c → covers (r' :: rs') c) →
  (start r' ≤ start r ∧ (start r ≤ start r' → end_ r ≤ end_ r'))%Z.
Proof.
  intros Hc Hc' Hcov. destruct (canonical_tail _ _ Hc) as [Hr _], (canonical_tail _ _ Hc') as [Hr' _].
  pose proof (fun c => canonical_head_lt _ _ c Hc') as Hlt'.
  setoid_rewrite covers_cons in Hcov. split.
  - destruct (Hcov (start r)) as [?|Hx]; [left; lia|lia|]. apply Hlt' in Hx. lia.
  - intros Hs. apply Z.nlt_ge. intros Hlt.
    destruct (Hcov (end_ r' + 1)%Z) as [?|Hx]; [left; lia|lia|]. apply Hlt' in Hx. lia.
Qed.

(** Canonical rules are determined by the codes they cover. *)
Lemma canonical_unique rs rs' :
  canonical rs → canonical rs' → (∀ c, covers rs c ↔ covers rs' c) → rs = rs'.
Proof.
  revert rs'. induction rs as [|r rs IH]; intros [|r' rs'] Hc Hc' Hcov; [done|..].
  - destruct (canonical_tail _ _ Hc') as [Hr _].
    destruct (proj2 (Hcov (start r'))) as (? & ? & _); [|set_solver].
    autorewrite with covers. left. lia.
  - destruct (canonical_tail _ _ Hc) as [Hr _].
    destruct (proj1 (Hcov (start r))) as (? & ? & _); [|set_solver].
    autorewrite with covers. left. lia.
  - destruct (canonical_tail _ _ Hc) as [Hr Ht], (canonical_tail _ _ Hc') as [Hr' Ht'].
    assert (Hse : start r = start r' ∧ end_ r = end_ r').
    { destruct (canonical_head_incl r rs r' rs') as [? ?]; [done..|apply Hcov|].
      destruct (canonical_head_incl r' rs' r rs) as [? ?]; [done..|apply Hcov|]. lia. }
    pose proof (fun c => canonical_head_lt _ _ c Hc) as Hlt.
    pose proof (fun c => canonical_head_lt _ _ c Hc') as Hlt'.
    setoid_rewrite covers_cons in Hcov.
    destruct r, r', Hse as [Hs He]; simpl in *; subst. f_equal. apply IH; [done..|].
    intros c. specialize (Hcov c). specialize (Hlt c). specialize (Hlt' c). split; intros Hx.
    + destruct (proj1 Hcov (or_intror Hx)); [specialize (Hlt Hx); lia|done].
    + destruct (proj2 Hcov (or_intror Hx)); [specialize (Hlt' Hx); lia|done].
Qed.

Lemma isValidCode_spec c : isValidCode c = true ↔ (100 ≤ c ≤ 599)%Z.
Proof. unfold isValidCode. lia. Qed.

Lemma parseToken_wf token r : parseToken token = Some r → wf_range r.
Proof.
  unfold parseToken, wf_range. intros H.
  repeat (case_match; try discriminate); simplify_eq/=;
    repeat match goal with H : context [isValidCode] |- _ => revert H end;
    unfold isValidCode; lia.
Qed.

Lemma scanSegments_spec segs :
  scanSegments segs =
  (omap parseToken segs, List.filter (fun s => bool_decide (parseToken s = None)) segs).
Proof.
  unfold scanSegments.
  set (f := fun '(rs, bad) seg => match parseToken seg with
            | None => (rs, bad ++ [seg]) | Some r => (rs ++ [r], bad) end).
  assert (H : ∀ rs bad, foldl f (rs, bad) segs =
    (rs ++ omap parseToken segs,
     bad ++ List.filter (fun s => bool_decide (parseToken s = None)) segs)); [|by rewrite H].
  induction segs as [|x segs IH]; intros rs bad; simpl; [by rewrite !app_nil_r|].
  destruct (parseToken x); rewrite IH; simpl; by rewrite <- app_assoc.
Qed.

Lemma omap_parseToken_wf segs : Forall wf_range (omap parseToken segs).
Proof.
  rewrite Forall_forall. intros r (s & _ & Hs)%list_elem_of_omap. by apply parseToken_wf in Hs.
Qed.

Lemma wf_start_le_end rs : Forall wf_range rs → Forall (fun r => start r ≤ end_ r)%Z rs.
Proof. intros H. eapply Forall_impl; [exact H|]. unfold wf_range. lia. Qed.

Definition rejected (segs : list jsstr) : list jsstr :=
  List.filter (fun s => bool_decide (parseToken s = None)) segs.

(** The parser in one equation, for a text that is not blank. *)
Lemma parse_unfold s :
  trim s ≠ [] →
  parseHttpStatusCodeRules (Some s) =
  if nonempty (rejected (segmentsOf (trim s)))
  then mkParsed false [] [] (trim s) (rejected (segmentsOf (trim s)))
  else let merged := mergeRanges (omap parseToken (segmentsOf (trim s))) in
       mkParsed true merged (map printRange merged) (join [44%N] (map printRange merged)) [].
Proof.
  intros Hne. unfold parseHttpStatusCodeRules. simpl default.
  destruct (trim s) as [|x t] eqn:E; [done|]. simpl length. cbn [Nat.eqb].
  rewrite <- E, scanSegments_spec. fold (rejected (segmentsOf (trim s))).
  by destruct (rejected (segmentsOf (trim s))).
Qed.

Definition is_rule_char (c : N) : Prop := is_digit c = true ∨ c = 45%N.

Lemma rule_char_facts c : is_rule_char c → is_ws c = false ∧ c ≠ 44%N ∧ c ≠ 65292%N.
Proof. unfold is_rule_char, is_digit, is_ws. intros [H| ->]; [lia|done]. Qed.

Lemma print_N_digits n : Forall (fun c => is_digit c = true) (print_N n).
Proof. apply print_N_spec. Qed.

Lemma printRange_chars r : Forall is_rule_char (printRange r) ∧ printRange r ≠ [].
Proof.
  assert (H : ∀ n, Forall is_rule_char (print_N n)).
  { intros n. eapply Forall_impl; [apply print_N_digits|]. intros c Hc. by left. }
  unfold printRange. destruct (_ =? _)%Z; [split; [done|apply print_N_spec]|].
  split; [|by destruct (print_N _)].
  apply Forall_app. split; [done|]. constructor; [by right|done].
Qed.

Lemma isNumber_print n : isNumber (print_N n) = true.
Proof.
  destruct (print_N_spec n) as (_ & Hd & Hne). unfold isNumber.
  rewrite (proj2 (nonempty_true _) Hne). apply forallb_forall.
  intros c Hc%list_elem_of_In. rewrite Forall_forall in Hd. auto.
Qed.

Lemma parseInt10_print z : (0 ≤ z)%Z → parseInt10 (print_N (Z.to_N z)) = z.
Proof. intros Hz. unfold parseInt10. rewrite (proj1 (print_N_spec _)). lia. Qed.

Lemma dash_not_in_print n : 45%N ∉ print_N n.
Proof.
  intros H. pose proof (print_N_digits n) as Hd. rewrite Forall_forall in Hd.
  specialize (Hd _ H). done.
Qed.

Lemma cleanToken_rule s : Forall is_rule_char s → cleanToken s = s.
Proof.
  intros H. unfold cleanToken. rewrite trim_no_ws.
  - apply List_filter_all. eapply Forall_impl; [exact H|]. intros c Hc.
    cbn beta. by rewrite (proj1 (rule_char_facts c Hc)).
  - eapply Forall_impl; [exact H|]. intros c Hc. apply (rule_char_facts c Hc).
Qed.

Lemma parseToken_printRange r : wf_range r → parseToken (printRange r) = Some r.
Proof.
  intros (Hlo & Hle & Hhi). destruct (printRange_chars r) as [Hch Hne].
  unfold parseToken. rewrite (cleanToken_rule _ Hch), (proj2 (nonempty_true _) Hne).
  unfold printRange. destruct (Z.eqb_spec (start r) (end_ r)) as [Heq|Hneq]; simpl negb; cbn iota.
  - destruct (includes [45%N] _) eqn:E; [by apply includes_char, dash_not_in_print in E|].
    rewrite isNumber_print, parseInt10_print by lia. simpl.
    rewrite (proj2 (isValidCode_spec _)) by lia. simpl. by destruct r; simpl in *; subst.
  - rewrite (proj2 (includes_char 45 _)) by set_solver.
    simpl app. rewrite split_char_app, split_char_fresh by apply dash_not_in_print.
    rewrite !isNumber_print, !parseInt10_print by lia. simpl.
    rewrite !(proj2 (isValidCode_spec _)) by lia. simpl.
    rewrite (proj2 (Z.ltb_ge _ _) Hle). by destruct r.
Qed.

Lemma segmentsOf_print rs :
  segmentsOf (join [44%N] (map printRange rs)) = map printRange rs.
Proof.
  assert (Hch : ∀ s, s ∈ map printRange rs → Forall is_rule_char s ∧ s ≠ []).
  { intros s (r & -> & _)%list_elem_of_fmap. apply printRange_chars. }
  unfold segmentsOf. rewrite (map_id_Forall (fun c => if (c =? 65292)%N then 44%N else c)).
  - destruct rs as [|r rs]; [done|].
    rewrite split_char_join; [|done|].
    + rewrite map_id_Forall.
      * apply List_filter_all, Forall_forall. intros s Hs. apply nonempty_true, (Hch s Hs).
      * apply Forall_forall. intros s Hs. apply trim_no_ws.
        eapply Forall_impl; [apply (Hch s Hs)|]. intros c Hc. apply (rule_char_facts c Hc).
    + apply Forall_forall. intros s Hs Hin. destruct (Hch s Hs) as [Hf _].
      rewrite Forall_forall in Hf. by destruct (rule_char_facts _ (Hf _ Hin)) as (_ & ? & _).
  - apply Forall_forall. intros c Hc. destruct (N.eqb_spec c 65292); [|done].
    apply elem_of_join in Hc as [Hc|(s & Hs & Hc)]; [set_solver|].
    destruct (Hch s Hs) as [Hf _]. rewrite Forall_forall in Hf.
    by destruct (rule_char_facts _ (Hf _ Hc)) as (_ & _ & ?).
Qed.

Lemma segmentsOf_blank : segmentsOf [] = [].
Proof. done. Qed.

Lemma parse_ok_unfold s :
  ok (parseHttpStatusCodeRules (Some s)) = true →
  let merged := mergeRanges (omap parseToken (segmentsOf (trim s))) in
  parseHttpStatusCodeRules (Some s) =
  mkParsed true merged (map printRange merged) (join [44%N] (map printRange merged)) [].
Proof.
  intros Hok. destruct (decide (trim s = [])) as [He|Hne].
  - unfold parseHttpStatusCodeRules. simpl default. by rewrite He.
  - rewrite parse_unfold in * by done. by destruct (nonempty _).
Qed.

Lemma mergeRanges_wf rs : Forall wf_range rs → Forall wf_range (mergeRanges rs).
Proof.
  intros Hwf. destruct (mergeRanges_spec rs (wf_start_le_end _ Hwf)) as [[Hle Hs] Hcov].
  rewrite Forall_forall in *. intros r Hr. specialize (Hle r Hr). simpl in Hle.
  destruct (proj1 (Hcov (start r))) as (a & Ha & ?); [exists r; split; [done|lia]|].
  destruct (proj1 (Hcov (end_ r))) as (b & Hb & ?); [exists r; split; [done|lia]|].
  apply Hwf in Ha, Hb. unfold wf_range in *. lia.
Qed.

Definition denotes (s : jsstr) (c : Z) : Prop :=
  ∃ seg r, seg ∈ segmentsOf (trim s) ∧ parseToken seg = Some r ∧ (start r ≤ c ≤ end_ r)%Z.

Lemma covers_omap segs c :
  covers (omap parseToken segs) c ↔
  ∃ seg r, seg ∈ segs ∧ parseToken seg = Some r ∧ (start r ≤ c ≤ end_ r)%Z.
Proof. unfold covers. setoid_rewrite list_elem_of_omap. naive_solver. Qed.

(** What an accepted text is turned into. *)
Lemma parse_ok_facts s :
  ok (parseHttpStatusCodeRules (Some s)) = true →
  let p := parseHttpStatusCodeRules (Some s) in
  canonical (ranges p) ∧ Forall wf_range (ranges p) ∧
  normalized p = join [44%N] (map printRange (ranges p)) ∧
  ∀ c, covers (ranges p) c ↔ denotes s c.
Proof.
  intros Hok. rewrite (parse_ok_unfold s Hok). simpl.
  pose proof (omap_parseToken_wf (segmentsOf (trim s))) as Hwf.
  destruct (mergeRanges_spec _ (wf_start_le_end _ Hwf)) as [Hcan Hcov].
  split_and!; [done|by apply mergeRanges_wf|done|].
  intros c. rewrite Hcov. apply covers_omap.
Qed.

Lemma trim_print rs : trim (join [44%N] (map printRange rs)) = join [44%N] (map printRange rs).
Proof.
  apply trim_no_ws, Forall_forall. intros c Hc.
  apply elem_of_join in Hc as [Hc|(s & (r & -> & _)%list_elem_of_fmap & Hc)].
  - apply list_elem_of_singleton in Hc. by subst.
  - destruct (printRange_chars r) as [Hf _]. rewrite Forall_forall in Hf.
    apply (rule_char_facts c (Hf c Hc)).
Qed.

(** Printed canonical rules parse to themselves. *)
Lemma parse_print rs :
  canonical rs → Forall wf_range rs →
  parseHttpStatusCodeRules (Some (join [44%N] (map printRange rs))) =
  mkParsed true rs (map printRange rs) (join [44%N] (map printRange rs)) [].
Proof.
  intros Hcan Hwf. assert (Hpt : Forall (fun r => parseToken (printRange r) = Some r) rs).
  { eapply Forall_impl; [exact Hwf|]. apply parseToken_printRange. }
  assert (Hom : omap parseToken (map printRange rs) = rs).
  { clear -Hpt. induction Hpt as [|r rs Hr _ IH]; simpl; [done|]. rewrite Hr. f_equal. exact IH. }
  assert (Hrej : rejected (map printRange rs) = []).
  { clear -Hpt. induction Hpt as [|r rs Hr _ IH]; simpl; [done|].
    unfold rejected in *. simpl. by rewrite Hr. }
  destruct (decide (rs = [])) as [->|Hne]; [done|].
  rewrite parse_unfold; rewrite trim_print.
  - rewrite segmentsOf_print, Hrej. cbn zeta. rewrite Hom, mergeRanges_id by done. done.
  - destruct rs as [|r rs]; [done|]. destruct (printRange_chars r) as [_ Hr].
    destruct rs; simpl; [done|]. by destruct (printRange r).
Qed.

(** ** Properties *)

(** C37: an accepted rule text is compiled to ranges that match exactly the codes its segments
    denote, all between 100 and 599, sorted, and neither overlapping nor adjacent. *)
Theorem parse_refines_denotation (s : jsstr) :
  ok (parseHttpStatusCodeRules (Some s)) = true →
  let p := parseHttpStatusCodeRules (Some s) in
  canonical (ranges p) ∧ Forall wf_range (ranges p) ∧
  ∀ c, covers (ranges p) c ↔ denotes s c.
Proof. intros Hok. by destruct (parse_ok_facts s Hok) as (? & ? & _ & ?). Qed.

Lemma parse_refines_denotation_witness :
  ok (parseHttpStatusCodeRules (Some (js "500-502,401,503"))) = true ∧
  canonical (ranges (parseHttpStatusCodeRules (Some (js "500-502,401,503")))).
Proof.
  split; [vm_compute; reflexivity|].
  apply (parse_refines_denotation (js "500-502,401,503")). vm_compute; reflexivity.
Defined.

(** the normalized text is a fixed point: parsing what an accepted text was normalized to
    gives the same result, field for field. *)
Theorem parse_normalized_roundtrip (input : option jsstr) :
  ok (parseHttpStatusCodeRules input) = true →
  parseHttpStatusCodeRules (Some (normalized (parseHttpStatusCodeRules input))) =
  parseHttpStatusCodeRules input.
Proof.
  intros Hok. destruct input as [s|]; [|done].
  destruct (parse_ok_facts s Hok) as (Hcan & Hwf & Hn & _). rewrite Hn, parse_print by done.
  clear -Hok. pose proof (parse_ok_unfold s Hok) as Hp. by rewrite Hp.
Qed.

Lemma parse_normalized_roundtrip_witness :
  ok (parseHttpStatusCodeRules (Some (js "502 , 500-501"))) = true ∧
  parseHttpStatusCodeRules (Some (normalized (parseHttpStatusCodeRules (Some (js "502 , 500-501"))))) =
  parseHttpStatusCodeRules (Some (js "502 , 500-501")).
Proof.
  split; [vm_compute; reflexivity|]. apply parse_normalized_roundtrip. vm_compute; reflexivity.
Defined.

(** normalization is a complete normal form: two accepted texts have the same normalized
    text exactly when they denote the same status codes. *)
Theorem normalized_complete (s s' : jsstr) :
  ok (parseHttpStatusCodeRules (Some s)) = true →
  ok (parseHttpStatusCodeRules (Some s')) = true →
  normalized (parseHttpStatusCodeRules (Some s)) = normalized (parseHttpStatusCodeRules (Some s')) ↔
  ∀ c, denotes s c ↔ denotes s' c.
Proof.
  intros Hok Hok'. destruct (parse_ok_facts s Hok) as (Hc & Hw & Hn & Hd).
  destruct (parse_ok_facts s' Hok') as (Hc' & Hw' & Hn' & Hd').
  rewrite Hn, Hn'. split.
  - intros Heq. apply (f_equal (fun t => ranges (parseHttpStatusCodeRules (Some t)))) in Heq.
    rewrite !parse_print in Heq by done. simpl in Heq. intros c. by rewrite <- Hd, <- Hd', Heq.
  - intros Heq. do 2 f_equal. apply canonical_unique; [done..|].
    intros c. by rewrite Hd, Hd'.
Qed.

Lemma normalized_complete_witness :
  normalized (parseHttpStatusCodeRules (Some (js "500,501"))) =
  normalized (parseHttpStatusCodeRules (Some (js "500-501"))) ↔
  ∀ c, denotes (js "500,501") c ↔ denotes (js "500-501") c.
Proof. apply normalized_complete; vm_compute; reflexivity. Defined.

(** the error path: a nonblank text is rejected exactly when one of its segments is not a
    code or a range within 100..599; a rejection reports those segments in order, carries no
    range, and keeps the trimmed text. *)
Theorem parse_rejects (s : jsstr) :
  trim s ≠ [] →
  let p := parseHttpStatusCodeRules (Some s) in
  (ok p = false ↔ ∃ seg, seg ∈ segmentsOf (trim s) ∧ parseToken seg = None) ∧
  (ok p = false → p = mkParsed false [] [] (trim s) (rejected (segmentsOf (trim s)))).
Proof.
  intros Hne. cbn zeta. rewrite parse_unfold by done.
  assert (Hr : nonempty (rejected (segmentsOf (trim s))) = true ↔
               ∃ seg, seg ∈ segmentsOf (trim s) ∧ parseToken seg = None).
  { rewrite nonempty_true. unfold rejected. split.
    - intros Hf. destruct (List.filter _ _) as [|x l] eqn:E; [done|].
      assert (Hx : x ∈ x :: l) by set_solver. rewrite <- E in Hx.
      apply elem_of_List_filter in Hx as [? ?%bool_decide_eq_true]. eauto.
    - intros (seg & Hin & Hp) Hnil.
      assert (Hx : seg ∈ []); [|by apply not_elem_of_nil in Hx].
      rewrite <- Hnil. apply elem_of_List_filter. by rewrite bool_decide_eq_true. }
  rewrite <- Hr. by destruct (nonempty _).
Qed.

Lemma parse_rejects_witness :
  trim (js "401,abc") ≠ [] ∧
  (ok (parseHttpStatusCodeRules (Some (js "401,abc"))) = false ↔
   ∃ seg, seg ∈ segmentsOf (trim (js "401,abc")) ∧ parseToken seg = None).
Proof.
  assert (H : trim (js "401,abc") ≠ []) by (vm_compute; discriminate).
  split; [exact H|]. apply (parse_rejects (js "401,abc") H).
Defined.

(** a range segment keeps only its first two parts: text after a second dash is dropped, so
    a malformed range is accepted as the range before it. *)
Theorem parseToken_drops_extra_parts (a b rest : jsstr) :
  isNumber a = true → isNumber b = true → no_ws rest →
  parseToken (a ++ [45%N] ++ b ++ [45%N] ++ rest) = parseToken (a ++ [45%N] ++ b).
Proof.
  intros Ha Hb Hrest.
  assert (Hnum : ∀ t, isNumber t = true → no_ws t ∧ 45%N ∉ t ∧ t ≠ []).
  { intros t [Hne Hd]%andb_true_iff. rewrite forallb_forall in Hd. split_and!.
    - apply Forall_forall. intros c Hc. apply is_digit_not_ws, Hd. by apply list_elem_of_In.
    - intros Hc%list_elem_of_In. specialize (Hd _ Hc). done.
    - by apply nonempty_true. }
  destruct (Hnum a Ha) as (Hwa & Hda & Hna), (Hnum b Hb) as (Hwb & Hdb & Hnb).
  assert (Hdash : no_ws [45%N]) by (by constructor).
  assert (Hclean : ∀ t, no_ws t → cleanToken t = t).
  { intros t Ht. unfold cleanToken. rewrite trim_no_ws by done. apply List_filter_all.
    eapply Forall_impl; [exact Ht|]. intros c Hc. cbn beta in *. by rewrite Hc. }
  unfold parseToken. rewrite !Hclean by (by repeat (apply Forall_app; split)).
  destruct (includes_char 45 (a ++ [45%N] ++ b ++ [45%N] ++ rest)) as [_ Hi1].
  destruct (includes_char 45 (a ++ [45%N] ++ b)) as [_ Hi2].
  rewrite Hi1, Hi2 by set_solver. simpl app.
  rewrite !split_char_app by done. rewrite (split_char_fresh 45 b) by done.
  by destruct a.
Qed.

Lemma parseToken_drops_extra_parts_witness :
  parseToken (js "400-499-oops") = parseToken (js "400-499") ∧
  parseToken (js "400-499") = Some (mkRange 400 499).
Proof.
  split; [|vm_compute; reflexivity].
  apply (parseToken_drops_extra_parts (js "400") (js "499") (js "oops"));
    [reflexivity|reflexivity|repeat constructor].
Defined.

End HttpStatus.
