(* ===== verification/ModelMapping.v ===== *)
(** * Model mapping (src/web/default/src/features/channels/lib/model-mapping-validation.ts)

    A channel's model mapping is a JSON text in one of two formats: version 1
    maps a source model to one or several targets, which may themselves be
    sources, and version 2 lists prioritized rules. This file models the parser
    with its limits, the resolution of a source to its candidate models, the
    upgrade of version 1 to version 2, the duplicate-member scan, and the checks
    of the channel form. A thrown [Error] is [Throw] with its message. *)

From S2P Require Import Prelude JsNum Json.
Local Open Scope js_scope.

Module ModelMapping.

(** ** Model lists *)

Definition parseModelsString (modelsStr : jsstr) : list jsstr :=
  if nonempty modelsStr then List.filter nonempty (map trim (split_char 44 modelsStr)) else [].

Definition formatModelsArray (models : list jsstr) : jsstr := join [44%N] (set_of models).

Definition normalizeModelName (model : jsstr) : jsstr := trim model.

(** ** Data *)

Record ModelMappingRule := mkRule {
  id : jsstr;
  from : jsstr;
  to : jsstr;
  priority : Z;
  enabled : bool
}.

Inductive ModelMappingConfig :=
| V1 (legacy : list (jsstr * list jsstr))
| V2 (rules : list ModelMappingRule).

Definition EMPTY_RULE_MAPPING : jsstr := jsq "{'version':2,'rules':[]}".

(** ** Limits of the parser *)

(** [new TextEncoder().encode(raw).length]; an unpaired surrogate is encoded as
    the three bytes of U+FFFD. *)
Fixpoint utf8_length (s : jsstr) : N :=
  match s with
  | [] => 0
  | c :: s' =>
      if (c <? 128)%N then 1 + utf8_length s'
      else if (c <? 2048)%N then 2 + utf8_length s'
      else if is_high c then
        match s' with
        | d :: s'' => if is_low d then 4 + utf8_length s'' else 3 + utf8_length s'
        | [] => 3
        end
      else 3 + utf8_length s'
  end%N.

(** [Array.from(s).length]: code points. *)
Fixpoint cp_length (s : jsstr) : N :=
  match s with
  | [] => 0
  | c :: s' =>
      if is_high c then
        match s' with
        | d :: s'' => if is_low d then 1 + cp_length s'' else 1 + cp_length s'
        | [] => 1
        end
      else 1 + cp_length s'
  end%N.

(** [name(value, max)]; [None] is [undefined]. *)
Definition name (value : option json) (max : N) : res jsstr :=
  match value with
  | Some (JStr s) =>
      if negb (nonempty (trim s)) then Throw (js "Mapping fields must be non-empty strings")
      else if (max <? cp_length (trim s))%N then Throw (js "Mapping field exceeds character limit")
      else Ok (trim s)
  | _ => Throw (js "Mapping fields must be non-empty strings")
  end.

Definition rule_keys : list jsstr :=
  [js "id"; js "from"; js "to"; js "priority"; js "enabled"].

(** The callback of [value.rules.map], with the set of ids seen so far. *)
Definition parseRule (ids : list jsstr) (item : json) : res (list jsstr * ModelMappingRule) :=
  match item with
  | JObj m =>
      if existsb (fun kv => negb (set_has kv.1 rule_keys)) m
      then Throw (js "Invalid mapping rule fields")
      else
        let! id := name (map_get (js "id") m) 128 in
        if set_has id ids then Throw (js "Mapping rule IDs must be unique")
        else
          let ids := set_add ids id in
          let! priority :=
            match map_get (js "priority") m with
            | None => Ok 0%Z
            | Some (JNum n) =>
                if negb (num_is_integer n) || (num_to_Z n <? -2147483648)%Z
                   || (2147483647 <? num_to_Z n)%Z
                then Throw (js "Mapping priority must be a signed 32-bit integer")
                else Ok (num_to_Z n)
            | Some _ => Throw (js "Mapping priority must be a signed 32-bit integer")
            end in
          let! enabled :=
            match map_get (js "enabled") m with
            | None => Ok true
            | Some (JBool b) => Ok b
            | Some _ => Throw (js "Mapping enabled must be a boolean")
            end in
          let! from := name (map_get (js "from") m) 255 in
          let! to := name (map_get (js "to") m) 255 in
          Ok (ids, mkRule id from to priority enabled)
  | _ => Throw (js "Invalid mapping rule fields")
  end.

Fixpoint parseRules (ids : list jsstr) (items : list json) : res (list ModelMappingRule) :=
  match items with
  | [] => Ok []
  | item :: items' =>
      let! (ids', r) := parseRule ids item in
      let! rs := parseRules ids' items' in
      Ok (r :: rs)
  end.

(** The body of the loop over [Object.entries(value)]: the mapping built so far
    and the number of edges. *)
Definition legacyStep (st : list (jsstr * list jsstr) * Z) (entry : jsstr * json) :
    res (list (jsstr * list jsstr) * Z) :=
  let '(legacy, edges) := st in
  let! from := name (Some (JStr entry.1)) 255 in
  if map_has from legacy then Throw (js "Duplicate source model mappings are not allowed")
  else
    let targets := match entry.2 with JArr l => l | t => [t] end in
    if negb (nonempty targets) then Throw (js "Mapping targets must not be empty")
    else
      let edges := (edges + Z.of_nat (length targets))%Z in
      if (4096 <? edges)%Z then Throw (js "Model mapping exceeds 4096 edges")
      else
        let! names := res_map (fun v => name (Some v) 255) targets in
        Ok (map_set from (set_of names) legacy, edges).

Definition parseModelMappingConfig (raw : jsstr) : res ModelMappingConfig :=
  if (1048576 <? utf8_length raw)%N then Throw (js "Model mapping exceeds 1 MiB")
  else if negb (nonempty (trim raw)) then Ok (V1 [])
  else
    match JSON_parse raw with
    | None => Throw (js "Model mapping must be valid JSON format")
    | Some (JObj m) =>
        match map_get (js "version") m with
        | Some (JNum v) =>
            if negb (num_eqb v (num_of_Z 2)) then Throw (js "Unsupported model mapping version")
            else
              match map_get (js "rules") m with
              | Some (JArr items) =>
                  if negb (length m =? 2)%nat
                  then Throw (js "Model mapping v2 requires only version and rules")
                  else if (1024 <? length items)%nat
                  then Throw (js "Model mapping exceeds 1024 rules or sources")
                  else let! rules := parseRules [] items in Ok (V2 rules)
              | _ => Throw (js "Model mapping v2 requires only version and rules")
              end
        | _ =>
            if (1024 <? length m)%nat then Throw (js "Model mapping exceeds 1024 rules or sources")
            else
              let! (legacy, _) := res_fold legacyStep ([], 0%Z) m in
              Ok (V1 (property_order legacy))
        end
    | Some _ => Throw (js "Model mapping must be a valid JSON object")
    end.

(** ** Resolution *)

Definition mappingSources (config : ModelMappingConfig) : list jsstr :=
  sort_by str_cmp (set_of
    match config with
    | V2 rules => map from (List.filter enabled rules)
    | V1 legacy => legacy.*1
    end).

(** The set [result], the current [path] and [budget.remaining]. *)
Record walk := mkWalk { result : list jsstr; path : list jsstr; remaining : Z }.

Definition add (target : jsstr) (w : walk) : res walk :=
  let r := set_add (result w) target in
  if (128 <? length r)%nat then Throw (js "Model mapping exceeds 128 resolved candidates")
  else Ok (mkWalk r (path w) (remaining w)).

Definition step (w : walk) : res walk :=
  let b := (remaining w - 1)%Z in
  if (b <? 0)%Z then Throw (js "Model mapping exceeds expansion work limit")
  else Ok (mkWalk (result w) (path w) b).

Definition path_add (x : jsstr) (w : walk) : walk :=
  mkWalk (result w) (set_add (path w) x) (remaining w).

Definition path_delete (x : jsstr) (w : walk) : walk :=
  mkWalk (result w) (List.filter (fun y => negb (bool_decide (y = x))) (path w)) (remaining w).

(** [expand(current, depth)]. The depth check bounds the recursion: with fuel
    [34 - depth] the last case is never reached. *)
Fixpoint expand (legacy : list (jsstr * list jsstr)) (fuel : nat) (w : walk)
    (current : jsstr) (depth : nat) : res walk :=
  match fuel with
  | O => Throw []
  | S fuel' =>
      let! w := step w in
      if (32 <? depth)%nat then Throw (js "Model mapping exceeds maximum depth")
      else if set_has current (path w) then Throw (js "Legacy model mapping contains a cycle")
      else
        match map_get current legacy with
        | None => add current w
        | Some targets =>
            let! w := res_fold (fun w target =>
                        if bool_decide (target = current)
                        then let! w := step w in add target w
                        else expand legacy fuel' w target (S depth))
                      (path_add current w) targets in
            Ok (path_delete current w)
        end
  end.

Arguments expand : simpl never.

Definition expand_fuel : nat := 34.

(** [mappingCandidates(config, source, budget)]: the candidates and what is left
    of the budget. *)
Definition mappingCandidates (config : ModelMappingConfig) (source : jsstr) (budget : Z) :
    res (list jsstr * Z) :=
  match config with
  | V2 rules =>
      let rs := sort_by (fun a b => (priority b - priority a)%Z)
                  (List.filter (fun r => enabled r && bool_decide (from r = source)) rules) in
      let! w := res_fold (fun w r => add (to r) w) (mkWalk [] [] budget) rs in
      Ok (result w, remaining w)
  | V1 legacy =>
      if negb (map_has source legacy) then Ok ([], budget)
      else
        let! w := expand legacy expand_fuel (mkWalk [] [] budget) source 0 in
        Ok (result w, remaining w)
  end.

Arguments mappingCandidates : simpl never.

(** ** Upgrade to version 2 *)

(** The inner loop: one rule per candidate, numbered from the rules so far. *)
Definition pushRules (from_ : jsstr) (rules : list ModelMappingRule) (tos : list jsstr) :
    list ModelMappingRule :=
  foldl (fun rules to_ =>
           rules ++ [mkRule (js "upgraded-" ++ print_N (N.of_nat (length rules + 1))) from_ to_ 0 true])
        rules tos.

(** The outer loop: the candidates of one source, within the shared budget. *)
Definition upgradeStep (config : ModelMappingConfig) (st : list ModelMappingRule * Z)
    (from_ : jsstr) : res (list ModelMappingRule * Z) :=
  let '(rules, budget) := st in
  let! (tos, budget) := mappingCandidates config from_ budget in
  Ok (pushRules from_ rules tos, budget).

Definition upgradeLegacyMapping (config : ModelMappingConfig) : res ModelMappingConfig :=
  match config with
  | V2 _ => Ok config
  | V1 _ =>
      let! (rules, _) := res_fold (upgradeStep config) ([], 65536%Z) (mappingSources config) in
      if (1024 <? length rules)%nat then Throw (js "Model mapping exceeds 1024 rules or sources")
      else Ok (V2 rules)
  end.

(** ** Extraction for the channel form *)

Definition extractMappingSourceModels (raw : jsstr) : list jsstr :=
  match parseModelMappingConfig raw with
  | Ok config => mappingSources config
  | Throw _ => []
  end.

Definition extractRedirectModels (raw : jsstr) : list jsstr :=
  match parseModelMappingConfig raw with
  | Ok (V2 rules) => set_of (map to (List.filter enabled rules))
  | Ok (V1 legacy) => set_of (concat legacy.*2)
  | Throw _ => []
  end.

Fixpoint models_differ (cur init : list jsstr) : bool :=
  match cur, init with
  | c :: cur', i :: init' => negb (bool_decide (c = i)) || models_differ cur' init'
  | _, _ => false
  end.

Definition hasModelConfigChanged (currentModels : list jsstr) (currentModelMapping : jsstr)
    (initialModels : list jsstr) (initialModelMapping : jsstr) : bool :=
  if (length initialModels =? 0)%nat && negb (nonempty initialModelMapping) then true
  else if negb (length currentModels =? length initialModels)%nat then true
  else if models_differ currentModels initialModels then true
  else negb (bool_decide (trim currentModelMapping = trim initialModelMapping)).

Definition findMissingModelsInMapping (modelMapping : jsstr) (currentModels : list jsstr) :
    list jsstr :=
  let modelSet := set_of (map normalizeModelName currentModels) in
  List.filter (fun source => negb (set_has source modelSet))
    (extractMappingSourceModels modelMapping).

Definition findExposedTargetModels (modelMapping : jsstr) (currentModels : list jsstr) :
    list jsstr :=
  let redirectModels := extractRedirectModels modelMapping in
  if (length redirectModels =? 0)%nat then []
  else
    let modelSet := set_of (map normalizeModelName currentModels) in
    List.filter (fun model => set_has (normalizeModelName model) modelSet) redirectModels.

Record ModelClassification := mkClassification {
  normalizedCurrentModels : list jsstr;
  normalizedRedirectModels : list jsstr;
  classificationSet : list jsstr;
  redirectOnlySet : list jsstr
}.

Definition categorizeModelsWithRedirect (currentModels redirectModels : list jsstr) :
    ModelClassification :=
  let cur := set_of (List.filter nonempty (map normalizeModelName currentModels)) in
  let red := set_of (List.filter nonempty (map normalizeModelName redirectModels)) in
  mkClassification cur red (set_of (cur ++ red))
    (set_of (List.filter (fun m => negb (set_has m cur)) red)).

(** ** The duplicate-member scan *)

(** The string alternative of the token pattern after its opening quote: escaped
    units (any unit but a line terminator after the backslash) and other units, up to the
    closing quote. Returns the matched text and the rest. *)
Definition is_line_terminator (c : N) : bool :=
  (c =? 10)%N || (c =? 13)%N || (c =? 8232)%N || (c =? 8233)%N.

Fixpoint match_string (s : jsstr) : option (jsstr * jsstr) :=
  match s with
  | [] => None
  | c :: s1 =>
      if (c =? 34)%N then Some ([34%N], s1)
      else if (c =? 92)%N then
        match s1 with
        | d :: s2 =>
            if is_line_terminator d then None
            else prod_map (fun t => c :: d :: t) (fun r => r) <$> match_string s2
        | [] => None
        end
      else prod_map (cons c) (fun r => r) <$> match_string s1
  end.

Definition is_punct (c : N) : bool :=
  (c =? 123)%N || (c =? 125)%N || (c =? 44)%N || (c =? 58)%N || (c =? 91)%N || (c =? 93)%N.

(** [raw.match(...)] with the token pattern (a string, or one of the punctuators):
    leftmost matches, a unit that starts none is skipped. Each step consumes a
    unit, so the length is enough fuel. *)
Fixpoint json_tokens (fuel : nat) (s : jsstr) : list jsstr :=
  match fuel, s with
  | S fuel', c :: s1 =>
      if (c =? 34)%N then
        match match_string s1 with
        | Some (t, s2) => (34%N :: t) :: json_tokens fuel' s2
        | None => json_tokens fuel' s1
        end
      else if is_punct c then [c] :: json_tokens fuel' s1
      else json_tokens fuel' s1
  | _, _ => []
  end.

(** A frame of the stack: [keys] is [null] for an array. *)
Record frame := mkFrame { keys : option (list jsstr); expectKey : bool }.

(** The loop over the tokens; it returns as soon as a key repeats. *)
Fixpoint scan (stack : list frame) (toks : list jsstr) : res bool :=
  match toks with
  | [] => Ok false
  | t :: toks' =>
      if bool_decide (t = [123%N]) then scan (mkFrame (Some []) true :: stack) toks'
      else if bool_decide (t = [91%N]) then scan (mkFrame None false :: stack) toks'
      else if bool_decide (t = [125%N]) || bool_decide (t = [93%N]) then scan (tail stack) toks'
      else
        match stack with
        | mkFrame (Some ks) e :: stack' =>
            if bool_decide (t = [44%N]) then scan (mkFrame (Some ks) true :: stack') toks'
            else if starts_with [34%N] t && e then
              match JSON_parse t with
              | Some (JStr key) =>
                  if set_has key ks then Ok true
                  else scan (mkFrame (Some (set_add ks key)) false :: stack') toks'
              | _ => Throw (js "SyntaxError")
              end
            else scan stack toks'
        | _ => scan stack toks'
        end
  end.

Definition hasDuplicateJsonMembers (raw : jsstr) : res bool :=
  scan [] (json_tokens (length raw) raw).

(** ** Validation *)

(** The loop of [validateModelMappingJson]: each source alone, then within the
    budget all sources share. *)
Definition checkSource (config : ModelMappingConfig) (budget : Z) (source : jsstr) : res Z :=
  let! _ := mappingCandidates config source 8192 in
  let! (_, budget) := mappingCandidates config source budget in
  Ok budget.

Definition checkMapping (modelMapping : jsstr) : res unit :=
  let! config := parseModelMappingConfig modelMapping in
  let! dup := hasDuplicateJsonMembers modelMapping in
  if (dup : bool) then Throw (js "Duplicate JSON object members are not allowed")
  else
    let! _ := res_fold (checkSource config) 65536%Z (mappingSources config) in
    Ok tt.

(** [{ valid, error }]. *)
Definition validateModelMappingJson (modelMapping : jsstr) : bool * option jsstr :=
  match checkMapping modelMapping with
  | Ok _ => (true, None)
  | Throw e => (false, Some e)
  end.

Definition demo_cfg : ModelMappingConfig :=
  V1 [(js "a", [js "b"; js "c"]); (js "b", [js "b"; js "d"])].

Example candidates_demo :
  mappingCandidates demo_cfg (js "a") 8192 = Ok ([js "b"; js "d"; js "c"], 8187%Z).
Proof. vm_compute. reflexivity. Qed.

Example validate_demo :
  validateModelMappingJson (jsq "{'a': ['b', 'c'], 'b': 'd'}") = (true, None) ∧
  validateModelMappingJson (jsq "{'a': 'b', 'b': 'a'}") =
    (false, Some (js "Legacy model mapping contains a cycle")) ∧
  validateModelMappingJson (jsq "{'a': 'b', 'a': 'c'}") =
    (false, Some (js "Duplicate JSON object members are not allowed")).
Proof. vm_compute. split_and!; reflexivity. Qed.

End ModelMapping.
