(* ===== verification/MappingResolve.v ===== *)
(** * Resolution of model mappings: lemmas and properties

    The recursive expansion of a version 1 mapping against the reachability
    relation it computes, its termination, the priority order of version 2
    rules, and the equivalence of a mapping with its upgrade. *)

From S2P Require Import Prelude JsNum Json ModelMapping.
From stdpp Require Import relations.
Import ModelMapping.

Module MappingResolve.

Section legacy.
Context (legacy : list (jsstr * list jsstr)).

(** An edge from a source to a target other than itself. *)
Definition edge (x y : jsstr) : Prop := ∃ ts, map_get x legacy = Some ts ∧ y ∈ ts ∧ y ≠ x.

(** The models a name stands for: itself when it is not a source or lists
    itself, and what its other targets stand for. *)
Inductive resolves : jsstr → jsstr → Prop :=
| resolves_leaf x : map_get x legacy = None → resolves x x
| resolves_self x ts : map_get x legacy = Some ts → x ∈ ts → resolves x x
| resolves_edge x y t : edge x y → resolves y t → resolves x t.

Lemma add_Ok t w w' :
  add t w = Ok w' ↔
  w' = mkWalk (set_add (result w) t) (path w) (remaining w) ∧
  (length (set_add (result w) t) <= 128)%nat.
Proof.
  unfold add. destruct (Nat.ltb_spec 128 (length (set_add (result w) t))); naive_solver lia.
Qed.

Lemma step_Ok w w' :
  step w = Ok w' ↔ w' = mkWalk (result w) (path w) (remaining w - 1) ∧ (1 <= remaining w)%Z.
Proof. unfold step. destruct (Z.ltb_spec (remaining w - 1) 0); naive_solver lia. Qed.

Lemma path_add_delete x w :
  x ∉ path w → path (path_delete x (path_add x w)) = path w.
Proof.
  intros Hx. unfold path_delete, path_add, set_add. simpl. rewrite decide_False by done.
  rewrite List.filter_app. simpl. rewrite bool_decide_true by done. simpl. rewrite app_nil_r.
  apply List_filter_all, Forall_forall. intros y Hy. rewrite bool_decide_false; [done|].
  by intros ->.
Qed.

(** What a completed expansion did: the path is restored, the candidates grew by
    exactly what [current] stands for, at least one unit of work was spent, and
    no chain of edges runs past the depth limit. *)
Record expanded (w : walk) (current : jsstr) (depth : nat) (w' : walk) : Prop := {
  ex_path : path w' = path w;
  ex_result t : t ∈ result w' ↔ t ∈ result w ∨ resolves current t;
  ex_nodup : NoDup (result w) → NoDup (result w');
  ex_size : (length (result w) <= 128 → length (result w') <= 128)%nat;
  ex_work : (0 <= remaining w' < remaining w)%Z;
  ex_depth n y : nsteps edge n current y → (depth + n <= 32)%nat
}.

Definition target_resolves (current y t : jsstr) : Prop :=
  if decide (y = current) then t = current else resolves y t.

Record expanded_all (w : walk) (current : jsstr) (depth : nat) (ys : list jsstr) (w' : walk) :
    Prop := {
  exs_path : path w' = path w;
  exs_result t : t ∈ result w' ↔ t ∈ result w ∨ ∃ y, y ∈ ys ∧ target_resolves current y t;
  exs_nodup : NoDup (result w) → NoDup (result w');
  exs_size : (length (result w) <= 128 → length (result w') <= 128)%nat;
  exs_work : (0 <= remaining w → 0 <= remaining w' <= remaining w)%Z;
  exs_depth y n z : y ∈ ys → y ≠ current → nsteps edge n y z → (S depth + n <= 32)%nat
}.

Definition visit (fuel : nat) (current : jsstr) (depth : nat) (w : walk) (target : jsstr) : res walk :=
  if bool_decide (target = current)
  then res_bind (step w) (fun w => add target w)
  else expand legacy fuel w target (S depth).

Lemma expand_all fuel current depth ys w w' :
  (∀ w c w', expand legacy fuel w c (S depth) = Ok w' → expanded w c (S depth) w') →
  res_fold (visit fuel current depth) w ys = Ok w' →
  expanded_all w current depth ys w'.
Proof.
  intros IH. revert w. induction ys as [|y ys IHys]; intros w; simpl.
  { intros [= <-]. split; try done; set_solver by lia. }
  intros (w1 & Hv & Hf)%res_bind_Ok. specialize (IHys _ Hf) as [Hp Hr Hn Hs Hw Hd].
  unfold visit in Hv. case_bool_decide as Hy.
  - subst y. apply res_bind_Ok in Hv as (w0 & (-> & Hb)%step_Ok & (-> & Hl)%add_Ok). simpl in *.
    split; [done|..].
    + intros t. rewrite Hr, elem_of_set_add. unfold target_resolves at 2. split.
      * intros [[? | ->]|(y & ? & ?)]; [by left|right; exists current|right; exists y].
        -- case_decide; set_solver.
        -- set_solver.
      * intros [?|(y & [->|?]%elem_of_cons & Ht)]; [by left; left|left; right|right; eauto].
        by rewrite decide_True in Ht.
    + auto using NoDup_set_add.
    + auto.
    + lia.
    + intros y n z [->|?]%elem_of_cons ?; [done|]. by eapply Hd.
  - destruct (IH _ _ _ Hv) as [Hp' Hr' Hn' Hs' Hw' Hd']. split; [congruence|..].
    + intros t. rewrite Hr, Hr'. unfold target_resolves at 2. split.
      * intros [[?|?]|(y' & ? & ?)]; [by left|right; exists y|right; exists y'].
        -- rewrite decide_False by done. set_solver.
        -- set_solver.
      * intros [?|(y' & [->|?]%elem_of_cons & Ht)]; [by left; left|left; right|right; eauto].
        by rewrite decide_False in Ht.
    + auto.
    + auto.
    + lia.
    + intros y' n z [->|?]%elem_of_cons ? ?; [by eapply Hd'|by eapply Hd].
Qed.

Lemma expand_unfold fuel w current depth :
  expand legacy (S fuel) w current depth =
  res_bind (step w) (fun w =>
    if (32 <? depth)%nat then Throw (js "Model mapping exceeds maximum depth")
    else if set_has current (path w) then Throw (js "Legacy model mapping contains a cycle")
    else match map_get current legacy with
         | None => add current w
         | Some targets =>
             res_bind (res_fold (visit fuel current depth) (path_add current w) targets)
               (fun w => Ok (path_delete current w))
         end).
Proof. done. Qed.

Lemma resolves_None x t : map_get x legacy = None → resolves x t ↔ t = x.
Proof.
  intros Hx. split.
  - intros Hr. inversion Hr as [| |? ? ? (ts & Hg & _)]; subst; congruence.
  - intros ->. by apply resolves_leaf.
Qed.

Lemma resolves_Some x ts t :
  map_get x legacy = Some ts → resolves x t ↔ ∃ y, y ∈ ts ∧ target_resolves x y t.
Proof.
  intros Hx. unfold target_resolves. split.
  - intros Hr. inversion Hr as [|? ? Hg|? y ? (ts' & Hg & Hy & Hne)]; subst; simplify_eq.
    + exists t. by rewrite decide_True.
    + exists y. by rewrite decide_False.
  - intros (y & Hy & Ht). case_decide; subst.
    + by eapply resolves_self.
    + eapply resolves_edge; [|done]. by exists ts.
Qed.

Lemma nsteps_edge_inv n x z :
  nsteps edge n x z →
  (n = 0 ∧ z = x) ∨
  ∃ n' ts y, n = S n' ∧ map_get x legacy = Some ts ∧ y ∈ ts ∧ y ≠ x ∧ nsteps edge n' y z.
Proof. inversion 1 as [|n' ? y ? (ts & Hg & Hy & Hne) Hn]; subst; naive_solver. Qed.

Lemma expand_spec fuel w current depth w' :
  expand legacy fuel w current depth = Ok w' → expanded w current depth w'.
Proof.
  revert w current depth w'. induction fuel as [|fuel IH]; [done|]. intros w current depth w'.
  rewrite expand_unfold. intros (w0 & (-> & Hb)%step_Ok & H)%res_bind_Ok.
  destruct (Nat.ltb_spec 32 depth) as [|Hdep]; [done|]. simpl in H.
  destruct (set_has current (path w)) eqn:Hc; [done|].
  assert (Hnp : current ∉ path w) by (rewrite <- set_has_spec, Hc; done).
  destruct (map_get current legacy) as [ts|] eqn:Hg.
  - apply res_bind_Ok in H as (w1 & Hf & [= <-]).
    destruct (expand_all _ _ _ _ _ _ (fun w c w' => IH w c (S depth) w') Hf) as [Hp Hr Hn Hs Hw Hd].
    simpl in *. split; simpl; [..|done|done|lia|].
    + transitivity (path (path_delete current (path_add current w))); [|by apply path_add_delete].
      simpl. by rewrite Hp.
    + intros t. by rewrite Hr, (resolves_Some current ts).
    + intros n y [[-> ->]|(n' & ts' & z & -> & Hg' & Hz & Hne & Hn')]%nsteps_edge_inv; [lia|].
      simplify_eq. specialize (Hd z n' y Hz Hne Hn'). lia.
  - apply add_Ok in H as [-> Hl]. simpl in *. split; simpl; [done|..].
    + intros t. by rewrite elem_of_set_add, resolves_None.
    + apply NoDup_set_add.
    + done.
    + lia.
    + intros n y [[-> ->]|(n' & ts' & z & -> & Hg' & _)]%nsteps_edge_inv; [lia|congruence].
Qed.

(** The depth limit ends every recursion before the fuel does. *)
Lemma expand_fuel_S fuel w current depth :
  (34 <= S fuel + depth)%nat →
  expand legacy (S fuel) w current depth = expand legacy (S (S fuel)) w current depth.
Proof.
  revert w current depth. induction fuel as [|fuel IH]; intros w current depth Hd;
    rewrite 2!expand_unfold; destruct (step w) as [w0|]; simpl; try done.
  - by rewrite (proj2 (Nat.ltb_lt 32 depth)) by lia.
  - destruct (32 <? depth)%nat; [done|]. destruct (set_has _ _); [done|].
    destruct (map_get current legacy) as [ts|]; [|done]. f_equal.
    apply res_fold_ext. intros s x _. unfold visit. destruct (bool_decide _); [done|].
    rewrite IH by lia. done.
Qed.

Lemma res_fold_not_throw {A S} (f : S → A → res S) e s l :
  (∀ s x, f s x ≠ Throw e) → res_fold f s l ≠ Throw e.
Proof.
  intros Hf. revert s. induction l as [|x l IH]; intros s; simpl; [done|].
  specialize (Hf s x). destruct (f s x); simpl; [apply IH|congruence].
Qed.

Lemma expand_not_out_of_fuel fuel w current depth :
  (34 <= S fuel + depth)%nat → expand legacy (S fuel) w current depth ≠ Throw [].
Proof.
  revert w current depth. induction fuel as [|fuel IH]; intros w current depth Hd;
    rewrite expand_unfold; unfold step; destruct (_ <? 0)%Z; try done; cbn [res_bind].
  - by rewrite (proj2 (Nat.ltb_lt 32 depth)) by lia.
  - destruct (32 <? depth)%nat; [done|]. destruct (set_has _ _); [done|].
    destruct (map_get current legacy) as [ts|].
    + match goal with |- res_bind ?m _ ≠ _ => assert (Hm : m ≠ Throw []); [|by destruct m] end.
      apply res_fold_not_throw. intros s x. unfold visit. destruct (bool_decide _).
      * unfold step, add. destruct (_ <? 0)%Z; simpl; [done|]. by destruct (128 <? _)%nat.
      * apply IH. lia.
    + unfold add. by destruct (128 <? _)%nat.
Qed.

Definition more (k : Z) (w : walk) : walk := mkWalk (result w) (path w) (remaining w + k).

Lemma add_more k t w w' : add t w = Ok w' → add t (more k w) = Ok (more k w').
Proof. rewrite !add_Ok. intros [-> Hl]. done. Qed.

Lemma step_more k w w' : (0 <= k)%Z → step w = Ok w' → step (more k w) = Ok (more k w').
Proof.
  rewrite !step_Ok. intros Hk [-> Hl]. unfold more. simpl. split; [f_equal; lia|lia].
Qed.

(** A larger budget changes neither the candidates nor the work spent. *)
Lemma expand_more k fuel w current depth w' :
  (0 <= k)%Z → expand legacy fuel w current depth = Ok w' →
  expand legacy fuel (more k w) current depth = Ok (more k w').
Proof.
  intros Hk. revert w current depth w'. induction fuel as [|fuel IH]; [done|].
  intros w current depth w'. rewrite !expand_unfold.
  intros (w0 & Hs & H)%res_bind_Ok. rewrite (step_more k w w0) by done. simpl.
  destruct (32 <? depth)%nat; [done|]. destruct (set_has _ _); [done|].
  destruct (map_get current legacy) as [ts|]; [|by apply add_more].
  apply res_bind_Ok in H as (w1 & Hf & [= <-]).
  assert (Hall : ∀ ts w w1, res_fold (visit fuel current depth) w ts = Ok w1 →
    res_fold (visit fuel current depth) (more k w) ts = Ok (more k w1)).
  { clear -IH Hk. induction ts as [|y ts IHts]; intros w w1; simpl; [by intros [= <-]|].
    intros (w2 & Hv & Hf)%res_bind_Ok.
    assert (Hv' : visit fuel current depth (more k w) y = Ok (more k w2)).
    { unfold visit in *. destruct (bool_decide _); [|by apply IH].
      apply res_bind_Ok in Hv as (w3 & H1 & H2). rewrite (step_more k w w3) by done.
      by apply add_more. }
    rewrite Hv'. simpl. by apply IHts. }
  apply Hall in Hf. change (path_add current (more k w0)) with (more k (path_add current w0)).
  by rewrite Hf.
Qed.

End legacy.

(** ** Version 2 rules *)

Definition byPriority (a b : ModelMappingRule) : Z := (priority b - priority a)%Z.

#[export] Instance byPriority_comparator : Comparator byPriority.
Proof. split; unfold cmp_le, byPriority; lia. Qed.

Definition matching (rules : list ModelMappingRule) (source : jsstr) : list ModelMappingRule :=
  List.filter (fun r => enabled r && bool_decide (from r = source)) rules.

Lemma fold_add rs w :
  (length (result w) <= 128)%nat →
  res_fold (fun w r => add (to r) w) w rs =
  let R := foldl set_add (result w) (map to rs) in
  if (128 <? length R)%nat then Throw (js "Model mapping exceeds 128 resolved candidates")
  else Ok (mkWalk R (path w) (remaining w)).
Proof.
  revert w. induction rs as [|r rs IH]; intros w Hl; simpl.
  - rewrite (proj2 (Nat.ltb_ge _ _)) by done. by destruct w.
  - unfold add. destruct (Nat.ltb_spec 128 (length (set_add (result w) (to r)))) as [Hlt|Hge]; simpl.
    + pose proof (length_foldl_set_add (map to rs) (set_add (result w) (to r))).
      by rewrite (proj2 (Nat.ltb_lt _ _)) by lia.
    + by rewrite IH.
Qed.

Lemma candidates_V2 rules source b :
  mappingCandidates (V2 rules) source b =
  let R := set_of (map to (sort_by byPriority (matching rules source))) in
  if (128 <? length R)%nat then Throw (js "Model mapping exceeds 128 resolved candidates")
  else Ok (R, b).
Proof.
  unfold mappingCandidates. change (fun a b => (priority b - priority a)%Z) with byPriority.
  fold (matching rules source). rewrite fold_add by (simpl; lia). simpl.
  by destruct (128 <? _)%nat.
Qed.

Lemma elem_of_matching rules source r :
  r ∈ matching rules source ↔ r ∈ rules ∧ enabled r = true ∧ from r = source.
Proof.
  unfold matching. rewrite elem_of_List_filter, andb_true_iff, bool_decide_eq_true. done.
Qed.

(** The first insertion of [x] precedes every occurrence of a later [y]. *)
Lemma first_insertion_priority rules source s1 x s2 y ry :
  set_of (map to (sort_by byPriority (matching rules source))) = s1 ++ x :: s2 →
  y ∈ s2 → ry ∈ matching rules source → to ry = y →
  ∃ rx, rx ∈ matching rules source ∧ to rx = x ∧ (priority ry <= priority rx)%Z.
Proof.
  intros Hset Hy Hry Hto. set (rs := sort_by byPriority (matching rules source)) in *.
  pose proof (NoDup_set_of (map to rs)) as Hnd. rewrite Hset in Hnd.
  apply set_of_split in Hset as (a & b & Hab & Ha).
  apply NoDup_app in Hnd as (_ & Hdis & [Hx _]%NoDup_cons).
  change (map to rs) with (to <$> rs) in Hab.
  apply fmap_app_inv in Hab as (ra & rb' & Hra & Hrb & Hrs).
  destruct rb' as [|rx rb]; [done|]. injection Hrb as Hrx Hrb.
  exists rx. assert (Hin : rx ∈ rs) by (rewrite Hrs; set_solver). split_and!.
  - by apply (elem_of_sort_by byPriority).
  - done.
  - apply (elem_of_sort_by byPriority) in Hry. fold rs in Hry. rewrite Hrs in Hry.
    pose proof (sort_by_sorted byPriority (matching rules source)) as Hsort. fold rs in Hsort.
    rewrite Hrs in Hsort. clear Hin.
    apply elem_of_app in Hry as [Hin|[->|Hin]%elem_of_cons].
    + exfalso. apply (Hdis y); [|set_solver]. rewrite <- Ha. apply elem_of_set_of.
      subst y a. by apply list_elem_of_fmap_2.
    + done.
    + clear -Hsort Hin. induction ra as [|z ra IH]; simpl in Hsort;
        apply StronglySorted_inv in Hsort as [Hs Hf]; [|auto].
      rewrite Forall_forall in Hf. specialize (Hf ry Hin). unfold cmp_le, byPriority in Hf. lia.
Qed.

(** ** The upgrade *)

Definition upid (n : nat) : jsstr := js "upgraded-" ++ print_N (N.of_nat n).

#[export] Instance upid_inj : Inj (=) (=) upid.
Proof.
  intros n m. unfold upid. intros H. apply app_inv_head in H. apply (f_equal parse_digits) in H.
  rewrite !(proj1 (print_N_spec _)) in H. lia.
Qed.

Lemma pushRules_cons f rules t tos :
  pushRules f rules (t :: tos) =
  pushRules f (rules ++ [mkRule (upid (length rules + 1)) f t 0 true]) tos.
Proof. done. Qed.

Lemma pushRules_matching f rules tos s :
  map to (matching (pushRules f rules tos) s) =
  map to (matching rules s) ++ (if decide (f = s) then tos else []).
Proof.
  revert rules. induction tos as [|t tos IH]; intros rules.
  - simpl. by case_decide; rewrite app_nil_r.
  - rewrite pushRules_cons, IH. unfold matching. rewrite List.filter_app. simpl.
    rewrite map_app, <- app_assoc. f_equal. case_decide.
    + by rewrite bool_decide_true.
    + by rewrite bool_decide_false.
Qed.

Lemma pushRules_ids f rules tos :
  map id (pushRules f rules tos) = map id rules ++ map upid (seq (S (length rules)) (length tos)).
Proof.
  revert rules. induction tos as [|t tos IH]; intros rules; simpl; [by rewrite app_nil_r|].
  fold (pushRules f (rules ++ [mkRule (upid (length rules + 1)) f t 0 true]) tos).
  rewrite IH, map_app, <- app_assoc, length_app. simpl. rewrite Nat.add_1_r. done.
Qed.

Lemma pushRules_length f rules tos : length (pushRules f rules tos) = (length rules + length tos)%nat.
Proof.
  rewrite <- (length_map id), pushRules_ids, length_app, !length_map, length_seq. done.
Qed.

Lemma pushRules_zero f rules tos :
  Forall (fun r => priority r = 0%Z) rules →
  Forall (fun r => priority r = 0%Z) (pushRules f rules tos).
Proof.
  revert rules. induction tos as [|t tos IH]; intros rules Hr; simpl; [done|].
  apply IH, Forall_app. split; [done|by constructor].
Qed.

Lemma sort_by_zero rules :
  Forall (fun r => priority r = 0%Z) rules → sort_by byPriority rules = rules.
Proof.
  intros Hz. apply sort_by_id. induction Hz as [|r rs Hr Hrs IH]; constructor; [done|].
  eapply Forall_impl; [exact Hrs|]. intros x Hx. unfold cmp_le, byPriority. cbn beta in *. lia.
Qed.

Lemma candidates_V1_more legacy source b b' l b1 :
  (b <= b')%Z → mappingCandidates (V1 legacy) source b = Ok (l, b1) →
  ∃ b2, mappingCandidates (V1 legacy) source b' = Ok (l, b2).
Proof.
  intros Hb. unfold mappingCandidates. destruct (map_has source legacy); simpl.
  - intros (w & Hw & [= <- <-])%res_bind_Ok.
    apply (expand_more _ (b' - b)) in Hw; [|lia]. unfold more in Hw at 1. simpl in Hw.
    replace (b + (b' - b))%Z with b' in Hw by lia. rewrite Hw. simpl. eauto.
  - intros [= <- <-]. eauto.
Qed.

Lemma candidates_V1_facts legacy source b l b1 :
  mappingCandidates (V1 legacy) source b = Ok (l, b1) →
  NoDup l ∧ (length l <= 128)%nat ∧ (b1 <= b)%Z.
Proof.
  unfold mappingCandidates. destruct (map_has source legacy); simpl.
  - intros (w & Hw & [= <- <-])%res_bind_Ok. apply expand_spec in Hw as [_ _ Hn Hs Hr _].
    simpl in *. split_and!; [apply Hn, NoDup_nil_2|lia|lia].
  - intros [= <- <-]. split_and!; [apply NoDup_nil_2|simpl; lia|lia].
Qed.

(** What the loop of the upgrade has built after the sources [pre]. *)
Record upgraded (legacy : list (jsstr * list jsstr)) (pre : list jsstr)
    (st : list ModelMappingRule * Z) : Prop := {
  up_budget : (st.2 <= 65536)%Z;
  up_done s : s ∈ pre → ∃ l b, mappingCandidates (V1 legacy) s 65536 = Ok (l, b) ∧
                               map to (matching st.1 s) = l;
  up_rest s : s ∉ pre → map to (matching st.1 s) = [];
  up_zero : Forall (fun r => priority r = 0%Z) st.1;
  up_ids : map id st.1 = map upid (seq 1 (length st.1))
}.

Lemma upgrade_loop legacy st :
  res_fold (upgradeStep (V1 legacy)) ([], 65536%Z) (mappingSources (V1 legacy)) = Ok st →
  upgraded legacy (mappingSources (V1 legacy)) st.
Proof.
  assert (Hnd : NoDup (mappingSources (V1 legacy))).
  { unfold mappingSources. rewrite sort_by_perm. apply NoDup_set_of. }
  apply (res_fold_inv _ (upgraded legacy)); [split; simpl; [lia|set_solver|done|constructor|done]|].
  intros pre x post [rules b] [rules' b'] Hl [Hb Hd Hr Hz Hi] Hx. simpl in *.
  apply res_bind_Ok in Hx as ([tos b1] & Hc & [= <- <-]).
  assert (Hfresh : x ∉ pre).
  { rewrite Hl in Hnd. apply NoDup_app in Hnd as (_ & Hdis & _).
    intros Hin. apply (Hdis x Hin). set_solver. }
  destruct (candidates_V1_facts _ _ _ _ _ Hc) as (_ & _ & Hle).
  split; simpl.
  - lia.
  - intros s [Hs| ->%list_elem_of_singleton]%elem_of_app.
    + destruct (Hd s Hs) as (l & b2 & H1 & H2). exists l, b2. split; [done|].
      rewrite pushRules_matching, decide_False by congruence. by rewrite app_nil_r.
    + destruct (candidates_V1_more _ _ _ 65536 _ _ Hb Hc) as [b2 H2].
      exists tos, b2. split; [done|]. by rewrite pushRules_matching, decide_True, Hr.
  - intros s Hs. rewrite pushRules_matching, Hr by set_solver.
    by rewrite decide_False by set_solver.
  - by apply pushRules_zero.
  - rewrite pushRules_ids, pushRules_length, seq_app, map_app, Hi. done.
Qed.

Lemma mappingSources_V1 legacy s : s ∈ mappingSources (V1 legacy) ↔ map_has s legacy = true.
Proof. unfold mappingSources. by rewrite elem_of_sort_by, elem_of_set_of, map_has_spec. Qed.

(** ** Properties *)

(** C20: resolving a source of a version 1 mapping, when it succeeds, gives exactly the models
    the source stands for in the mapping graph, each once, at most 128 of them, and spends
    part of the budget. *)
Theorem legacy_candidates_exact legacy source budget l b :
  map_has source legacy = true →
  mappingCandidates (V1 legacy) source budget = Ok (l, b) →
  (∀ t, t ∈ l ↔ resolves legacy source t) ∧ NoDup l ∧ (length l <= 128)%nat ∧
  (0 <= b < budget)%Z.
Proof.
  intros Hs Hc. destruct (candidates_V1_facts _ _ _ _ _ Hc) as (Hn & Hl & _).
  unfold mappingCandidates in Hc. rewrite Hs in Hc. simpl in Hc.
  apply res_bind_Ok in Hc as (w & Hw & [= <- <-]). apply expand_spec in Hw as [_ Hr _ _ Hb _].
  split_and!; [|done|done|apply Hb..]. intros t. rewrite Hr. set_solver.
Qed.

Lemma legacy_candidates_exact_witness :
  (∀ t, t ∈ [js "b"; js "d"; js "c"] ↔ resolves [(js "a", [js "b"; js "c"]); (js "b", [js "b"; js "d"])] (js "a") t)
  ∧ NoDup [js "b"; js "d"; js "c"] ∧ (length [js "b"; js "d"; js "c"] <= 128)%nat ∧ (0 <= 8187 < 8192)%Z.
Proof.
  apply (legacy_candidates_exact _ (js "a") 8192 _ 8187); vm_compute; reflexivity.
Defined.

(** a version 1 source that resolves heads no long chain and no cycle: every chain of
    mapping edges from it has at most 32 edges, so no model reachable from it maps back to
    itself through other models. *)
Theorem legacy_candidates_acyclic legacy source budget l b :
  map_has source legacy = true →
  mappingCandidates (V1 legacy) source budget = Ok (l, b) →
  (∀ n x, nsteps (edge legacy) n source x → (n <= 32)%nat) ∧
  (∀ x, rtc (edge legacy) source x → ¬ tc (edge legacy) x x).
Proof.
  intros Hs Hc. unfold mappingCandidates in Hc. rewrite Hs in Hc. simpl in Hc.
  apply res_bind_Ok in Hc as (w & Hw & _). apply expand_spec in Hw as [_ _ _ _ _ Hd].
  assert (Hlen : ∀ n x, nsteps (edge legacy) n source x → (n <= 32)%nat).
  { intros n x Hn. specialize (Hd n x Hn). simpl in Hd. lia. }
  split; [done|]. intros x Hx Hcyc.
  assert (Hloop : ∀ k, ∃ n, (k <= n)%nat ∧ nsteps (edge legacy) n x x).
  { induction k as [|k (n & Hk & Hn)]; [exists 0; split; [lia|constructor]|].
    apply tc_nsteps in Hcyc as (m & Hm & Hmx). exists (n + m)%nat.
    split; [lia|]. by eapply nsteps_trans. }
  destruct (Hloop 33) as (n & Hk & Hn). apply rtc_nsteps in Hx as (m & Hm).
  specialize (Hlen (m + n)%nat x (nsteps_trans _ _ _ _ _ Hm Hn)). lia.
Qed.

Lemma legacy_candidates_acyclic_witness :
  (∀ n x, nsteps (edge [(js "a", [js "b"])]) n (js "a") x → (n <= 32)%nat)
  ∧ (∀ x, rtc (edge [(js "a", [js "b"])]) (js "a") x → ¬ tc (edge [(js "a", [js "b"])]) x x).
Proof. apply (legacy_candidates_acyclic _ (js "a") 8192 [js "b"] 8190); vm_compute; reflexivity. Defined.

(** the expansion of a mapping terminates: its recursion is cut off by the depth limit, so
    no larger recursion bound changes its outcome, and it never ends by running out of it. *)
Theorem expand_terminates legacy w source k :
  expand legacy (expand_fuel + k) w source 0 = expand legacy expand_fuel w source 0 ∧
  expand legacy expand_fuel w source 0 ≠ Throw [].
Proof.
  split.
  - induction k as [|k IH]; [done|]. rewrite <- IH. unfold expand_fuel.
    replace (34 + S k)%nat with (S (S (33 + k))) by lia.
    replace (34 + k)%nat with (S (33 + k)) by lia. symmetry. apply expand_fuel_S. lia.
  - apply (expand_not_out_of_fuel legacy 33 w source 0). lia.
Qed.

(** resolving a version 2 source gives each target of an enabled rule for it, once, in the
    order of the rules' priorities: whatever comes later has only rules of at most the priority
    of some rule of what comes before. *)
Theorem rule_candidates_by_priority rules source budget l b :
  mappingCandidates (V2 rules) source budget = Ok (l, b) →
  NoDup l ∧ (length l <= 128)%nat ∧ b = budget ∧
  (∀ t, t ∈ l ↔ ∃ r, r ∈ rules ∧ enabled r = true ∧ from r = source ∧ to r = t) ∧
  (∀ s1 x s2 ry, l = s1 ++ x :: s2 → ry ∈ rules → enabled ry = true → from ry = source →
     to ry ∈ s2 → ∃ rx, rx ∈ rules ∧ enabled rx = true ∧ from rx = source ∧ to rx = x ∧
                        (priority ry <= priority rx)%Z).
Proof.
  rewrite candidates_V2. cbn zeta. destruct (Nat.ltb_spec 128 (length (set_of (map to (sort_by byPriority
    (matching rules source)))))) as [|Hl]; [done|]. intros [= <- <-].
  split_and!; [apply NoDup_set_of|done|done|..].
  - intros t. rewrite elem_of_set_of, list_elem_of_fmap. setoid_rewrite elem_of_sort_by.
    setoid_rewrite elem_of_matching. naive_solver.
  - intros s1 x s2 ry Hs Hin Hen Hfrom Hy.
    destruct (first_insertion_priority _ _ _ _ _ _ ry Hs Hy) as (rx & Hrx & Hx & Hp); [|done|].
    { by apply elem_of_matching. }
    apply elem_of_matching in Hrx as (? & ? & ?). by exists rx.
Qed.

Lemma rule_candidates_by_priority_witness :
  NoDup [js "y"; js "x"].
Proof.
  apply (rule_candidates_by_priority
    [mkRule (js "1") (js "a") (js "x") 0 true; mkRule (js "2") (js "a") (js "y") 5 true]
    (js "a") 8192 _ 8192). vm_compute; reflexivity.
Defined.

(** C1: upgrading a version 1 mapping preserves what every model resolves to, in the same
    order, and gives at most 1024 rules with distinct identifiers. *)
Theorem upgrade_preserves_resolution legacy rules :
  upgradeLegacyMapping (V1 legacy) = Ok (V2 rules) →
  NoDup (map id rules) ∧ (length rules <= 1024)%nat ∧
  ∀ source budget, ∃ l b,
    mappingCandidates (V1 legacy) source 65536 = Ok (l, b) ∧
    mappingCandidates (V2 rules) source budget = Ok (l, budget).
Proof.
  unfold upgradeLegacyMapping.
  intros ([rs b0] & Hloop & H)%res_bind_Ok. simpl in H.
  destruct (Nat.ltb_spec 1024 (length rs)) as [|Hlen]; [done|]. injection H as <-.
  apply upgrade_loop in Hloop as [_ Hd Hr Hz Hi]. simpl in *. split_and!; [|done|].
  - rewrite Hi. apply (NoDup_fmap_2 upid), NoDup_seq.
  - intros source budget.
    assert (Hsort : sort_by byPriority (matching rs source) = matching rs source).
    { apply sort_by_zero, Forall_forall. intros r [Hin _]%elem_of_matching.
      rewrite Forall_forall in Hz. auto. }
    rewrite candidates_V2, Hsort. cbn zeta.
    destruct (map_has source legacy) eqn:Hs.
    + destruct (Hd source) as (l & b & Hc & Hm); [by apply mappingSources_V1|].
      exists l, b. split; [done|]. rewrite Hm.
      destruct (candidates_V1_facts _ _ _ _ _ Hc) as (Hn & Hle & _).
      by rewrite set_of_id, (proj2 (Nat.ltb_ge _ _)).
    + exists [], 65536%Z. split; [unfold mappingCandidates; by rewrite Hs|].
      rewrite Hr; [done|]. by rewrite mappingSources_V1, Hs.
Qed.

Lemma upgrade_preserves_resolution_witness :
  ∃ l b, mappingCandidates demo_cfg (js "b") 65536 = Ok (l, b) ∧
         mappingCandidates
           (V2 [mkRule (js "upgraded-1") (js "a") (js "b") 0 true;
                mkRule (js "upgraded-2") (js "a") (js "d") 0 true;
                mkRule (js "upgraded-3") (js "a") (js "c") 0 true;
                mkRule (js "upgraded-4") (js "b") (js "b") 0 true;
                mkRule (js "upgraded-5") (js "b") (js "d") 0 true]) (js "b") 7 = Ok (l, 7%Z).
Proof. apply upgrade_preserves_resolution. vm_compute. reflexivity. Defined.

End MappingResolve.
