(* ===== verification/MappingParse.v ===== *)
(** * Parsing of model mappings: lemmas and properties

    The limits an accepted mapping satisfies, and the exactness of the token
    scan that looks for duplicate object members. *)

From S2P Require Import Prelude JsNum Json ModelMapping.
Import ModelMapping.

Module MappingParse.

(** ** Duplicate members of a syntax tree *)

Fixpoint dup (j : json) : bool :=
  match j with
  | JArr l => existsb dup l
  | JObj m =>
      (fix go (ks : list jsstr) (m : list (jsstr * json)) : bool :=
         match m with
         | [] => false
         | (k, v) :: m' => set_has k ks || dup v || go (set_add ks k) m'
         end) [] m
  | _ => false
  end.

Fixpoint dup_members (ks : list jsstr) (m : list (jsstr * json)) : bool :=
  match m with
  | [] => false
  | (k, v) :: m' => set_has k ks || dup v || dup_members (set_add ks k) m'
  end.

Lemma dup_JObj m : dup (JObj m) = dup_members [] m.
Proof.
  simpl. generalize (@nil jsstr). induction m as [|[k v] m IH]; intros ks; simpl; [done|].
  by rewrite IH.
Qed.

(** ** The token stream of a text *)

Definition toks (s : jsstr) : list jsstr := json_tokens (length s) s.

Lemma match_string_suffix s t r : match_string s = Some (t, r) → s = t ++ r.
Proof.
  assert (H : ∀ n s t r, (length s <= n)%nat → match_string s = Some (t, r) → s = t ++ r);
    [|by apply (H (length s))].
  clear. induction n as [|n IH]; intros [|c s] t r Hl; simpl in *; try done; [lia|].
  destruct (N.eqb_spec c 34); [by intros [= <- <-]; subst|].
  destruct (N.eqb_spec c 92).
  - destruct s as [|d s]; [done|]. destruct (is_line_terminator d); [done|]. simpl in *.
    destruct (match_string s) as [[t' r']|] eqn:E; [|done]. intros [= <- <-].
    by rewrite (IH s t' r') by (done || lia).
  - destruct (match_string s) as [[t' r']|] eqn:E; [|done]. intros [= <- <-].
    by rewrite (IH s t' r') by (done || lia).
Qed.

Lemma json_tokens_fuel n s : (length s <= n)%nat → json_tokens n s = toks s.
Proof.
  unfold toks. revert s.
  assert (H : ∀ k s n m, (length s <= k)%nat → (length s <= n)%nat → (length s <= m)%nat →
              json_tokens n s = json_tokens m s);
    [|intros s Hs; by apply (H (length s))].
  clear. induction k as [|k IH]; intros [|c s] [|n] [|m] Hk Hn Hm; simpl in *; try done; try lia.
  destruct (c =? 34)%N.
  - destruct (match_string s) as [[t r]|] eqn:E; [|apply IH; lia].
    apply match_string_suffix in E. subst s. rewrite length_app in *. f_equal. apply IH; lia.
  - destruct (is_punct c); [f_equal|]; apply IH; lia.
Qed.

Definition plain (c : N) : Prop := c ≠ 34%N ∧ is_punct c = false.

Lemma toks_cons c s :
  toks (c :: s) =
  if (c =? 34)%N then
    match match_string s with Some (t, r) => (34%N :: t) :: toks r | None => toks s end
  else if is_punct c then [c] :: toks s else toks s.
Proof.
  unfold toks at 1. simpl. destruct (c =? 34)%N; [|done].
  destruct (match_string s) as [[t r]|] eqn:E; [|done].
  apply match_string_suffix in E. subst s. rewrite json_tokens_fuel; [done|].
  rewrite length_app. lia.
Qed.

Lemma toks_plain p s : Forall plain p → toks (p ++ s) = toks s.
Proof.
  induction 1 as [|c p [Hq Hp] _ IH]; simpl; [done|]. rewrite toks_cons.
  destruct (N.eqb_spec c 34); [done|]. by rewrite Hp.
Qed.

Lemma toks_punct c s : is_punct c = true → toks (c :: s) = [c] :: toks s.
Proof. intros Hp. rewrite toks_cons. destruct (N.eqb_spec c 34); [by subst|]. by rewrite Hp. Qed.

Lemma skip_ws_plain s : ∃ w, s = w ++ skip_ws s ∧ Forall plain w.
Proof.
  induction s as [|c s (w & Hw & Hp)]; simpl; [by exists []|].
  destruct (is_json_ws c) eqn:E; [|by exists []].
  exists (c :: w). simpl. rewrite <- Hw. split; [done|]. constructor; [|done].
  unfold plain, is_punct. unfold is_json_ws in E. lia.
Qed.

Lemma toks_skip_ws s : toks (skip_ws s) = toks s.
Proof. destruct (skip_ws_plain s) as (w & Hw & Hp). rewrite Hw at 2. by rewrite toks_plain. Qed.

Lemma parse_chars_token s k r :
  parse_chars s = Some (k, r) →
  ∃ t, match_string s = Some (t, r) ∧ parse_chars t = Some (k, []).
Proof.
  assert (H : ∀ n s k r, (length s <= n)%nat → parse_chars s = Some (k, r) →
    ∃ t, match_string s = Some (t, r) ∧ parse_chars t = Some (k, [])); [|by apply (H (length s))].
  clear. induction n as [|n IH]; intros [|c s] k r Hl; cbn [length] in Hl; try done; [lia|].
  cbn [parse_chars match_string].
  destruct (N.eqb_spec c 34) as [->|Hq]; [intros [= <- <-]; by exists [34%N]|].
  destruct (N.ltb_spec c 32) as [|Hc]; [done|].
  destruct (N.eqb_spec c 92) as [->|Hb].
  - destruct s as [|e s2]; [done|]. cbn [length] in Hl.
    destruct (N.eqb_spec e 117) as [->|He].
    + destruct s2 as [|a [|b [|d [|f s3]]]]; try done.
      destruct (hex_val a) as [a'|] eqn:Ha, (hex_val b) as [b'|] eqn:Hb',
        (hex_val d) as [d'|] eqn:Hd, (hex_val f) as [f'|] eqn:Hf; try done.
      destruct (parse_chars s3) as [[k' r']|] eqn:E; [|done]. intros [= <- <-].
      destruct (IH s3 k' r') as (t & Hm & Hp); [simpl in Hl; lia|done|].
      exists ([92; 117; a; b; d; f] ++ t)%N. cbn [app parse_chars].
      assert (Hplain : ∀ x v u w, hex_val x = Some v → match_string u = Some (w, r') →
                match_string (x :: u) = Some (x :: w, r')).
      { intros x v u w Hx Hu. cbn [match_string]. unfold hex_val, is_digit in Hx.
        destruct (N.eqb_spec x 34) as [->|]; [done|]. destruct (N.eqb_spec x 92) as [->|]; [done|].
        by rewrite Hu. }
      split.
      * change (is_line_terminator 117) with false. cbn iota.
        by rewrite (Hplain a a' _ (b :: d :: f :: t)), ?(Hplain b b' _ (d :: f :: t)),
          ?(Hplain d d' _ (f :: t)), ?(Hplain f f' _ t) by eauto.
      * change (92 =? 34)%N with false. change (92 <? 32)%N with false.
        change (92 =? 92)%N with true. change (117 =? 117)%N with true. cbn iota.
        by rewrite Ha, Hb', Hd, Hf, Hp.
    + destruct (escape_val e) as [v|] eqn:Hv; [|done].
      destruct (parse_chars s2) as [[k' r']|] eqn:E; [|done]. intros [= <- <-].
      destruct (IH s2 k' r') as (t & Hm & Hp); [lia|done|].
      exists (92%N :: e :: t). rewrite Hm.
      assert (Hlt : is_line_terminator e = false).
      { unfold is_line_terminator. unfold escape_val in Hv.
        repeat (case_match; [lia|]). done. }
      rewrite Hlt. split; [done|]. cbn [parse_chars].
      change (92 =? 34)%N with false. change (92 <? 32)%N with false.
      change (92 =? 92)%N with true. cbn iota.
      destruct (N.eqb_spec e 117); [done|]. by rewrite Hv, Hp.
  - destruct (parse_chars s) as [[k' r']|] eqn:E; [|done]. intros [= <- <-].
    destruct (IH s k' r') as (t & Hm & Hp); [lia|done|]. exists (c :: t). rewrite Hm.
    split; [done|]. cbn [parse_chars]. destruct (N.eqb_spec c 34); [done|].
    destruct (N.ltb_spec c 32); [lia|]. destruct (N.eqb_spec c 92); [done|]. by rewrite Hp.
Qed.

Lemma JSON_parse_token t k : parse_chars t = Some (k, []) → JSON_parse (34%N :: t) = Some (JStr k).
Proof.
  intros H. unfold JSON_parse, parse_text. cbn [length].
  replace (2 * S (length t) + 2)%nat with (S (2 * length t + 3)) by lia.
  cbn [parse_value]. rewrite skip_ws_cons by done. by rewrite H.
Qed.

(** Text consumed by a number holds no token. *)
Lemma take_digits_split s ds r :
  take_digits s = (ds, r) → s = ds ++ r ∧ Forall (fun c => is_digit c = true) ds.
Proof.
  revert ds r. induction s as [|c s IH]; intros ds r; simpl; [by intros [= <- <-]|].
  destruct (is_digit c) eqn:E; [|by intros [= <- <-]].
  destruct (take_digits s) as [ds' r'] eqn:E'. intros [= <- <-].
  destruct (IH _ _ eq_refl) as [-> Hd]. split; [done|by constructor].
Qed.

Lemma digits_plain ds : Forall (fun c => is_digit c = true) ds → Forall plain ds.
Proof.
  intros H. eapply Forall_impl; [exact H|]. unfold plain, is_punct, is_digit. intros; lia.
Qed.

Lemma parse_frac_plain s fr r : parse_frac s = Some (fr, r) → ∃ p, s = p ++ r ∧ Forall plain p.
Proof.
  unfold parse_frac. intros H.
  assert (Hd : s = r ∨ ∃ s1, s = 46%N :: s1 ∧ take_digits s1 = (fr, r)).
  { repeat (case_match; simplify_eq; eauto). }
  destruct Hd as [->|(s1 & -> & Ht)]; [by exists []|].
  apply take_digits_split in Ht as [-> Hd]. exists (46%N :: fr). split; [done|].
  constructor; [done|]. by apply digits_plain.
Qed.

Lemma parse_exp_plain s e r : parse_exp s = Some (e, r) → ∃ p, s = p ++ r ∧ Forall plain p.
Proof.
  unfold parse_exp. destruct s as [|c s1]; [intros [= <- <-]; by exists []|].
  destruct ((c =? 101)%N || (c =? 69)%N) eqn:Ec; [|intros [= <- <-]; by exists []].
  set (q := match s1 with 43%N :: s2 => (1%Z, s2) | 45%N :: s2 => ((-1)%Z, s2) | _ => (1%Z, s1) end).
  assert (Hq : ∃ p, s1 = p ++ q.2 ∧ Forall plain p).
  { unfold q. repeat case_match; simpl; subst;
      first [by exists [] | by exists [43%N]; repeat constructor | by exists [45%N]; repeat constructor]. }
  destruct Hq as (p & Hp & Hpl). destruct q as [sg s2]. simpl in Hp.
  destruct (take_digits s2) as [ds s3] eqn:E. apply take_digits_split in E as [-> Hd].
  destruct (nonempty ds); [|done]. intros [= <- <-]. exists (c :: p ++ ds).
  split; [by rewrite Hp; simpl; rewrite <- app_assoc|].
  constructor; [unfold plain, is_punct; lia|]. apply Forall_app. split; [done|by apply digits_plain].
Qed.

Lemma parse_number_plain s n r : parse_number s = Some (n, r) → ∃ p, s = p ++ r ∧ Forall plain p.
Proof.
  unfold parse_number.
  set (q := match s with 45%N :: s1 => (true, s1) | _ => (false, s) end).
  assert (Hq : ∃ p, s = p ++ q.2 ∧ Forall plain p).
  { unfold q. repeat case_match; simpl; subst;
      first [by exists [] | by exists [45%N]; repeat constructor]. }
  destruct Hq as (p & Hp & Hpl). destruct q as [neg s1]. simpl in Hp.
  destruct (take_digits s1) as [ints s2] eqn:E. apply take_digits_split in E as [-> Hd].
  destruct (negb (nonempty ints)); [done|]. intros H.
  assert (Hrest : ∃ fr s3 e, parse_frac s2 = Some (fr, s3) ∧ parse_exp s3 = Some (e, r)).
  { destruct (parse_frac s2) as [[fr s3]|] eqn:Ef; [|repeat case_match; done].
    destruct (parse_exp s3) as [[e s4]|] eqn:Ee; [|repeat case_match; done].
    exists fr, s3, e. split; [done|]. rewrite Ee. repeat case_match; simplify_eq; done. }
  destruct Hrest as (fr & s3 & e & (p2 & -> & Hp2)%parse_frac_plain & (p3 & -> & Hp3)%parse_exp_plain).
  exists (p ++ ints ++ p2 ++ p3). split; [by rewrite Hp, <- !app_assoc|].
  repeat (apply Forall_app; split); auto using digits_plain.
Qed.

(** ** The scan against the syntax tree *)

(** The top frame is not waiting for a key. *)
Definition no_key (st : list frame) : Prop :=
  match st with mkFrame (Some _) true :: _ => False | _ => True end.

Lemma scan_string st t ts : no_key st → scan st ((34%N :: t) :: ts) = scan st ts.
Proof.
  intros Hk. simpl. repeat (rewrite bool_decide_false by done). simpl.
  destruct st as [|[[ks|] []] st]; simpl in Hk; try done.
Qed.

Definition scans (s : jsstr) (b : bool) (rest : jsstr) (st st' : list frame) : Prop :=
  scan st (toks s) = if b then Ok true else scan st' (toks rest).

Lemma scan_plain_value p rest st : Forall plain p → scans (p ++ rest) false rest st st.
Proof. intros Hp. unfold scans. by rewrite toks_plain. Qed.

Definition value_scans (fuel : nat) : Prop := ∀ s v rest st,
  parse_value fuel s = Some (v, rest) → no_key st → scans s (dup v) rest st st.
Definition elems_scan (fuel : nat) : Prop := ∀ s l rest st,
  parse_elems fuel s = Some (l, rest) → scans s (existsb dup l) rest (mkFrame None false :: st) st.
Definition members_scan (fuel : nat) : Prop := ∀ s m rest st ks,
  parse_members fuel s = Some (m, rest) →
  scans s (dup_members ks m) rest (mkFrame (Some ks) true :: st) st.

Lemma scan_open st ts : scan st ([123%N] :: ts) = scan (mkFrame (Some []) true :: st) ts.
Proof. done. Qed.
Lemma scan_open_arr st ts : scan st ([91%N] :: ts) = scan (mkFrame None false :: st) ts.
Proof. done. Qed.
Lemma scan_close c f st ts :
  c = 125%N ∨ c = 93%N → scan (f :: st) ([c] :: ts) = scan st ts.
Proof. by intros [-> | ->]. Qed.
Lemma scan_comma_arr e st ts :
  scan (mkFrame None e :: st) ([44%N] :: ts) = scan (mkFrame None e :: st) ts.
Proof. done. Qed.
Lemma scan_comma ks e st ts :
  scan (mkFrame (Some ks) e :: st) ([44%N] :: ts) = scan (mkFrame (Some ks) true :: st) ts.
Proof. done. Qed.
Lemma scan_colon ks st ts :
  scan (mkFrame (Some ks) false :: st) ([58%N] :: ts) = scan (mkFrame (Some ks) false :: st) ts.
Proof. done. Qed.

Lemma scan_key ks st t k ts :
  parse_chars t = Some (k, []) →
  scan (mkFrame (Some ks) true :: st) ((34%N :: t) :: ts) =
  if set_has k ks then Ok true else scan (mkFrame (Some (set_add ks k)) false :: st) ts.
Proof.
  intros Hp. cbn [scan]. repeat (rewrite bool_decide_false by done). cbn [orb].
  replace (starts_with [34%N] (34%N :: t)) with true by done.
  by rewrite (JSON_parse_token _ _ Hp).
Qed.

Lemma toks_string s t r : match_string s = Some (t, r) → toks (34%N :: s) = (34%N :: t) :: toks r.
Proof. intros H. rewrite toks_cons, H. done. Qed.

Lemma elems_step fuel : value_scans fuel → elems_scan fuel → elems_scan (S fuel).
Proof.
  intros HV HE s l rest st. rewrite parse_elems_eq. unfold scans.
  destruct (parse_value fuel s) as [[v s1]|] eqn:Ev; [|done].
  pose proof (HV _ _ _ (mkFrame None false :: st) Ev I) as Hv. unfold scans in Hv.
  rewrite <- (toks_skip_ws s1) in Hv. destruct (skip_ws s1) as [|c s2]; [done|].
  destruct (N.eqb_spec c 44) as [->|].
  - destruct (parse_elems fuel s2) as [[l' r]|] eqn:El; [|done]. intros [= <- <-].
    rewrite Hv, toks_punct, scan_comma_arr by done. simpl. destruct (dup v); [done|].
    by apply HE.
  - destruct (N.eqb_spec c 93) as [->|]; [|done]. intros [= <- <-].
    rewrite Hv, toks_punct, scan_close by auto. simpl. by rewrite orb_false_r.
Qed.

Lemma members_step fuel : value_scans fuel → members_scan fuel → members_scan (S fuel).
Proof.
  intros HV HM s m rest st ks. rewrite parse_members_eq. unfold scans.
  rewrite <- (toks_skip_ws s). destruct (skip_ws s) as [|c s0]; [done|].
  destruct (N.eqb_spec c 34) as [->|]; [|done].
  destruct (parse_chars s0) as [[k s1]|] eqn:Ek; [|done].
  apply parse_chars_token in Ek as (t & Hm & Hk). rewrite (toks_string _ _ _ Hm), (scan_key _ _ _ _ _ Hk).
  rewrite <- (toks_skip_ws s1). destruct (skip_ws s1) as [|d s2]; [done|].
  destruct (N.eqb_spec d 58) as [->|]; [|done].
  destruct (parse_value fuel s2) as [[v s3]|] eqn:Ev; [|done].
  pose proof (HV _ _ _ (mkFrame (Some (set_add ks k)) false :: st) Ev I) as Hv. unfold scans in Hv.
  rewrite toks_punct, scan_colon, Hv by done. rewrite <- (toks_skip_ws s3).
  destruct (skip_ws s3) as [|e s4]; [done|].
  destruct (N.eqb_spec e 44) as [->|].
  - destruct (parse_members fuel s4) as [[m' r]|] eqn:El; [|done]. intros [= <- <-].
    rewrite toks_punct, scan_comma by done. simpl.
    destruct (set_has k ks); [done|]. destruct (dup v); [done|]. by apply HM.
  - destruct (N.eqb_spec e 125) as [->|]; [|done]. intros [= <- <-].
    rewrite toks_punct, scan_close by auto. simpl. rewrite orb_false_r.
    by destruct (set_has k ks), (dup v).
Qed.

Lemma starts_with_drop p s : starts_with p s = true → s = p ++ drop (length p) s.
Proof. intros (t & ->)%starts_with_spec. by rewrite drop_app_length. Qed.

Lemma value_step fuel : elems_scan fuel → members_scan fuel → value_scans (S fuel).
Proof.
  intros HE HM s v rest st. rewrite parse_value_eq. unfold scans.
  rewrite <- (toks_skip_ws s). destruct (skip_ws s) as [|c s1]; [done|].
  destruct (N.eqb_spec c 123) as [->|].
  { rewrite toks_punct, scan_open, <- (toks_skip_ws s1) by done.
    destruct (skip_ws s1) as [|d s2]; [by destruct fuel|].
    destruct (N.eqb_spec d 125) as [->|].
    - intros [= <- <-] _. by rewrite toks_punct, scan_close by auto.
    - destruct (parse_members fuel (d :: s2)) as [[m r]|] eqn:E; [|done]. intros [= <- <-] _.
      rewrite dup_JObj. by apply HM. }
  destruct (N.eqb_spec c 91) as [->|].
  { rewrite toks_punct, scan_open_arr, <- (toks_skip_ws s1) by done.
    destruct (skip_ws s1) as [|d s2]; [by destruct fuel as [|[]]|].
    destruct (N.eqb_spec d 93) as [->|].
    - intros [= <- <-] _. by rewrite toks_punct, scan_close by auto.
    - destruct (parse_elems fuel (d :: s2)) as [[l r]|] eqn:E; [|done]. intros [= <- <-] _.
      by apply HE. }
  destruct (N.eqb_spec c 34) as [->|].
  { destruct (parse_chars s1) as [[k r]|] eqn:E; [|done]. intros [= <- <-] Hk.
    apply parse_chars_token in E as (t & Hm & _). rewrite (toks_string _ _ _ Hm). by rewrite scan_string. }
  intros H _.
  assert (Hpl : dup v = false ∧ ∃ p, c :: s1 = p ++ rest ∧ Forall plain p).
  { destruct (starts_with (js "null") (c :: s1)) eqn:E1.
    { injection H as <- <-. split; [done|]. exists (js "null"). split; [by apply starts_with_drop in E1|].
      by repeat constructor. }
    destruct (starts_with (js "true") (c :: s1)) eqn:E2.
    { injection H as <- <-. split; [done|]. exists (js "true"). split; [by apply starts_with_drop in E2|].
      by repeat constructor. }
    destruct (starts_with (js "false") (c :: s1)) eqn:E3.
    { injection H as <- <-. split; [done|]. exists (js "false"). split; [by apply starts_with_drop in E3|].
      by repeat constructor. }
    destruct (parse_number (c :: s1)) as [[nn r]|] eqn:E4; [|done]. injection H as <- <-.
    split; [done|]. by apply parse_number_plain in E4. }
  destruct Hpl as (-> & p & -> & Hp). by apply scan_plain_value.
Qed.

Lemma scan_tree fuel : value_scans fuel ∧ elems_scan fuel ∧ members_scan fuel.
Proof.
  induction fuel as [|fuel (HV & HE & HM)]; [done|].
  split_and!; [by apply value_step|by apply elems_step|by apply members_step].
Qed.

(** ** Limits *)

Definition valid_name (max : N) (s : jsstr) : Prop :=
  s ≠ [] ∧ trim s = s ∧ (cp_length s <= max)%N.

Lemma name_Ok v max s : name v max = Ok s → valid_name max s.
Proof.
  unfold name. destruct v as [[| | |t| |]|]; try done.
  destruct (nonempty (trim t)) eqn:En; [|done]. simpl.
  destruct (N.ltb_spec max (cp_length (trim t))); [done|]. intros [= <-].
  split_and!; [by apply nonempty_true|apply trim_idem|done].
Qed.

Definition wf_rule (r : ModelMappingRule) : Prop :=
  valid_name 128 (id r) ∧ valid_name 255 (from r) ∧ valid_name 255 (to r) ∧
  (-2147483648 <= priority r <= 2147483647)%Z.

Definition wf_entry (e : jsstr * list jsstr) : Prop :=
  valid_name 255 e.1 ∧ e.2 ≠ [] ∧ NoDup e.2 ∧ Forall (valid_name 255) e.2.

(** What every accepted mapping satisfies. *)
Definition wf_config (c : ModelMappingConfig) : Prop :=
  match c with
  | V2 rules => (length rules <= 1024)%nat ∧ NoDup (map id rules) ∧ Forall wf_rule rules
  | V1 legacy =>
      (length legacy <= 1024)%nat ∧ NoDup legacy.*1 ∧ Forall wf_entry legacy ∧
      (sum_list_with (fun e => length e.2) legacy <= 4096)%nat
  end.

Lemma parseRule_Ok ids item ids' r :
  parseRule ids item = Ok (ids', r) → ids' = set_add ids (id r) ∧ id r ∉ ids ∧ wf_rule r.
Proof.
  unfold parseRule. destruct item as [| | | | |m]; try done.
  destruct (existsb _ m); [done|].
  intros (i & Hi & H)%res_bind_Ok. destruct (set_has i ids) eqn:Hs; [done|].
  apply res_bind_Ok in H as (pr & Hp & H). apply res_bind_Ok in H as (en & _ & H).
  apply res_bind_Ok in H as (f & Hf & H). apply res_bind_Ok in H as (t & Ht & [= <- <-]).
  assert (Hpr : (-2147483648 <= pr <= 2147483647)%Z).
  { destruct (map_get (js "priority") m) as [[| |n| | |]|]; simplify_eq; [|lia].
    destruct (negb (num_is_integer n) || (num_to_Z n <? -2147483648)%Z
              || (2147483647 <? num_to_Z n)%Z) eqn:E; [done|]. injection Hp as <-. lia. }
  simpl. split; [done|]. split; [by rewrite <- set_has_spec, Hs|].
  unfold wf_rule. simpl. split_and!; (by eapply name_Ok) || lia.
Qed.

Lemma parseRules_Ok ids items rules :
  NoDup ids → parseRules ids items = Ok rules →
  length rules = length items ∧ NoDup (ids ++ map id rules) ∧ Forall wf_rule rules.
Proof.
  revert ids rules. induction items as [|x items IH]; intros ids rules Hnd; simpl.
  - intros [= <-]. rewrite app_nil_r. by repeat split.
  - intros ([ids' r] & Hr & H)%res_bind_Ok. apply res_bind_Ok in H as (rs & Hrs & [= <-]).
    apply parseRule_Ok in Hr as (-> & Hfr & Hwf).
    destruct (IH _ _ (NoDup_set_add _ _ Hnd) Hrs) as (Hl & Hn & Hf).
    split_and!; [simpl; lia| |by constructor].
    unfold set_add in Hn. rewrite decide_False in Hn by done. by rewrite <- app_assoc in Hn.
Qed.

Lemma legacyStep_Ok st e st' :
  legacyStep st e = Ok st' →
  ∃ f ts, valid_name 255 f ∧ f ∉ st.1.*1 ∧ ts ≠ [] ∧ NoDup ts ∧ Forall (valid_name 255) ts ∧
    st'.1 = map_set f ts st.1 ∧ (st.2 + Z.of_nat (length ts) <= st'.2 <= 4096)%Z.
Proof.
  destruct st as [legacy edges]. unfold legacyStep.
  intros (f & Hf & H)%res_bind_Ok. destruct (map_has f legacy) eqn:Hh; [done|].
  set (targets := match e.2 with JArr l => l | t => [t] end) in *.
  destruct (nonempty targets) eqn:Hne; [|done]. simpl in H.
  destruct (Z.ltb_spec 4096 (edges + Z.of_nat (length targets))) as [|Hle]; [done|].
  apply res_bind_Ok in H as (ns & Hns & [= <-]). apply res_map_Ok in Hns.
  pose proof (Forall2_length _ _ _ Hns) as Hlen. exists f, (set_of ns).
  split_and!; simpl.
  - by eapply name_Ok.
  - rewrite <- map_has_spec, Hh. done.
  - destruct targets as [|t0 ?]; [done|]. destruct ns as [|n0 ns]; [done|]. intros Hnil.
    assert (Hin : n0 ∈ set_of (n0 :: ns)) by (apply elem_of_set_of; set_solver).
    rewrite Hnil in Hin. set_solver.
  - apply NoDup_set_of.
  - apply Forall_forall. intros x Hx. rewrite elem_of_set_of in Hx.
    apply list_elem_of_lookup in Hx as [i Hi].
    eapply Forall2_lookup_r in Hns as (v & _ & Hv); [|exact Hi]. by apply (name_Ok (Some v)).
  - done.
  - pose proof (length_set_of_le ns). lia.
  - lia.
Qed.

Lemma map_set_fresh {V} (k : jsstr) (v : V) m : k ∉ m.*1 → map_set k v m = m ++ [(k, v)].
Proof.
  induction m as [|[k' v'] m IH]; simpl; [done|]. intros Hk.
  rewrite decide_False by set_solver. by rewrite IH by set_solver.
Qed.

Definition legacy_inv (pre : list (jsstr * json)) (st : list (jsstr * list jsstr) * Z) : Prop :=
  length st.1 = length pre ∧ NoDup st.1.*1 ∧ Forall wf_entry st.1 ∧
  (Z.of_nat (sum_list_with (fun e => length e.2) st.1) <= st.2)%Z ∧ (st.2 <= 4096)%Z.

Lemma legacy_loop m st :
  res_fold legacyStep ([], 0%Z) m = Ok st → legacy_inv m st.
Proof.
  apply (res_fold_inv _ legacy_inv).
  { unfold legacy_inv. simpl. split_and!; [done|constructor|constructor|lia|lia]. }
  intros pre x post t t' _ (Hl & Hn & Hw & Hs & Hle) Hx.
  apply legacyStep_Ok in Hx as (f & ts & Hf & Hfr & Hne & Hnd & Hts & Heq & He).
  rewrite map_set_fresh in Heq by done. unfold legacy_inv. rewrite Heq.
  rewrite !length_app, fmap_app, sum_list_with_app. simpl. split_and!; [lia| | |lia|lia].
  - apply NoDup_app. split_and!; [done|set_solver|apply NoDup_singleton].
  - apply Forall_app. split; [done|]. by apply Forall_singleton.
Qed.

Lemma property_order_perm {V} (m : list (jsstr * V)) : property_order m ≡ₚ m.
Proof.
  unfold property_order. rewrite sort_by_perm.
  induction m as [|kv m IH]; simpl; [done|]. destruct (is_index kv.1); simpl.
  - by rewrite IH.
  - by rewrite <- Permutation_middle, IH.
Qed.

(** ** Properties *)

(** the duplicate-member scan of a JSON text is exact: on a text that parses it ends, and
    it answers yes exactly when some object of the syntax tree repeats a member name. *)
Theorem duplicate_scan_exact raw j :
  parse_text raw = Some j → hasDuplicateJsonMembers raw = Ok (dup j).
Proof.
  unfold parse_text, hasDuplicateJsonMembers. fold (toks raw).
  destruct (parse_value _ raw) as [[v rest]|] eqn:E; [|done].
  destruct (nonempty (skip_ws rest)) eqn:Er; [done|]. intros [= <-].
  pose proof (proj1 (scan_tree _) _ _ _ [] E I) as Hs. unfold scans in Hs. rewrite Hs.
  rewrite <- toks_skip_ws. destruct (skip_ws rest); [|done]. by destruct (dup v).
Qed.

Lemma duplicate_scan_exact_witness :
  hasDuplicateJsonMembers (jsq "{'a': [{'b': 1, '\u0062': 2}]}") = Ok true ∧
  hasDuplicateJsonMembers (jsq "{'a': {'b': 'a'}, 'b': 'b'}") = Ok false.
Proof.
  split.
  - apply (duplicate_scan_exact _
      (JObj [(js "a", JArr [JObj [(js "b", JNum (num_of_Z 1)); (js "b", JNum (num_of_Z 2))]])])).
    vm_compute. reflexivity.
  - apply (duplicate_scan_exact _
      (JObj [(js "a", JObj [(js "b", JStr (js "a"))]); (js "b", JStr (js "b"))])).
    vm_compute. reflexivity.
Defined.

Lemma parse_wf raw config :
  parseModelMappingConfig raw = Ok config → wf_config config.
Proof.
  unfold parseModelMappingConfig. destruct (1048576 <? utf8_length raw)%N; [done|].
  destruct (negb (nonempty (trim raw))).
  { intros [= <-]. simpl. split_and!; [lia|constructor|constructor|lia]. }
  destruct (JSON_parse raw) as [[| | | | |m]|]; try done.
  assert (Hleg : (if (1024 <? length m)%nat
       then Throw (js "Model mapping exceeds 1024 rules or sources")
       else res_bind (res_fold legacyStep ([], 0%Z) m)
              (fun '(legacy, _) => Ok (V1 (property_order legacy)))) = Ok config → wf_config config).
  { destruct (Nat.ltb_spec 1024 (length m)) as [|Hm]; [done|].
    intros ([leg ed] & Hl & [= <-])%res_bind_Ok.
    apply legacy_loop in Hl as (Hlen & Hn & Hw & Hs & Hle). simpl in *.
    rewrite property_order_perm. split_and!; [lia|done|done|lia]. }
  destruct (map_get (js "version") m) as [[| |v| | |]|]; try exact Hleg.
  destruct (negb (num_eqb v (num_of_Z 2))); [done|].
  destruct (map_get (js "rules") m) as [[| | | |items|]|]; try done.
  destruct (negb (length m =? 2)%nat); [done|].
  destruct (Nat.ltb_spec 1024 (length items)) as [|Hm]; [done|].
  intros (rules & Hr & [= <-])%res_bind_Ok.
  apply parseRules_Ok in Hr as (Hl & Hn & Hf); [|constructor]. simpl in *. split_and!; [lia|done|done].
Qed.

(** every mapping the parser accepts is within its limits: at most 1024 rules with
    distinct identifiers and 32-bit priorities, or at most 1024 sources with at most 4096
    distinct targets per source in all, every name trimmed, nonempty and bounded in length. *)
Theorem parsed_mapping_wf raw config :
  parseModelMappingConfig raw = Ok config → wf_config config.
Proof. apply parse_wf. Qed.

Lemma parsed_mapping_wf_witness :
  wf_config (V2 [mkRule (js "r1") (js "a") (js "b") 3 true]).
Proof.
  apply (parsed_mapping_wf
    (jsq "{'version':2,'rules':[{'id':' r1 ','from':'a','to':'b','priority':3}]}")).
  vm_compute. reflexivity.
Defined.

(** a mapping text is reported valid exactly when it parses, repeats no member name, and
    each source resolves within a budget of 8192 units alone and all of them within 65536
    units in sequence; otherwise the message of the first failure is reported. *)
Theorem validate_spec raw :
  validateModelMappingJson raw = (true, None) ↔
  ∃ config, parseModelMappingConfig raw = Ok config ∧
            hasDuplicateJsonMembers raw = Ok false ∧
            (∀ s, s ∈ mappingSources config → ∃ l b, mappingCandidates config s 8192 = Ok (l, b)) ∧
            ∃ b, res_fold (fun b s => res_bind (mappingCandidates config s b) (fun p => Ok p.2))
                   65536%Z (mappingSources config) = Ok b.
Proof.
  assert (Hloop : ∀ config b sources,
    (∃ b', res_fold (checkSource config) b sources = Ok b') ↔
    (∀ s, s ∈ sources → ∃ l b', mappingCandidates config s 8192 = Ok (l, b')) ∧
    ∃ b', res_fold (fun b s => res_bind (mappingCandidates config s b) (fun p => Ok p.2))
            b sources = Ok b').
  { intros config b sources. revert b. induction sources as [|s sources IH]; intros b; simpl.
    - split; [intros _; split; [set_solver|eauto]|eauto].
    - unfold checkSource at 1.
      destruct (mappingCandidates config s 8192) as [[l0 b0]|e] eqn:E0; simpl.
      + destruct (mappingCandidates config s b) as [[l1 b1]|e]; simpl.
        * rewrite IH. setoid_rewrite elem_of_cons. naive_solver.
        * naive_solver.
      + split; [naive_solver|]. intros [H _]. destruct (H s) as (? & ? & ?); [set_solver|congruence]. }
  unfold validateModelMappingJson, checkMapping.
  destruct (parseModelMappingConfig raw) as [config|e]; simpl; [|naive_solver].
  destruct (hasDuplicateJsonMembers raw) as [[]|e]; simpl; [naive_solver| |naive_solver].
  specialize (Hloop config 65536%Z (mappingSources config)).
  destruct (res_fold (checkSource config) 65536%Z (mappingSources config)) as [b|e]; simpl.
  - destruct Hloop as [H _]. specialize (H (ex_intro _ b eq_refl)) as [H1 H2]. naive_solver.
  - split; [done|]. intros (c & [= <-] & _ & H1 & H2).
    destruct (proj2 Hloop (conj H1 H2)) as [b' [=]].
Qed.

(** the sources of a mapping that the channel form reports as missing are exactly the
    sources whose name is not, up to surrounding blanks, a model of the channel, in code-unit
    order and without repetition. *)
Theorem missing_models_spec raw models :
  let missing := findMissingModelsInMapping raw models in
  StronglySorted (cmp_le str_cmp) missing ∧ NoDup missing ∧
  ∀ s, s ∈ missing ↔
    ∃ config, parseModelMappingConfig raw = Ok config ∧ s ∈ mappingSources config ∧
              ∀ m, m ∈ models → trim m ≠ s.
Proof.
  cbn zeta. unfold findMissingModelsInMapping, extractMappingSourceModels.
  set (src := match parseModelMappingConfig raw with Ok c => mappingSources c | Throw _ => [] end).
  assert (Hsrc : StronglySorted (cmp_le str_cmp) src ∧ NoDup src).
  { unfold src. destruct (parseModelMappingConfig raw) as [c|]; [|split; constructor].
    unfold mappingSources. split; [apply sort_by_sorted, _|rewrite sort_by_perm; apply NoDup_set_of]. }
  destruct Hsrc as [Hs Hn]. split_and!.
  - clear -Hs. induction Hs as [|x l Hl IH Hx]; simpl; [constructor|].
    destruct (negb _); [|done]. constructor; [done|]. apply Forall_forall.
    intros y [Hy _]%elem_of_List_filter. rewrite Forall_forall in Hx. auto.
  - by apply NoDup_ListNoDup, List.NoDup_filter, NoDup_ListNoDup.
  - intros s. rewrite elem_of_List_filter, negb_true_iff.
    assert (Hset : set_has s (set_of (map normalizeModelName models)) = false ↔
                   ∀ m, m ∈ models → trim m ≠ s).
    { rewrite <- not_true_iff_false, set_has_spec, elem_of_set_of, list_elem_of_fmap.
      unfold normalizeModelName. naive_solver. }
    rewrite Hset. unfold src. destruct (parseModelMappingConfig raw); naive_solver set_solver.
Qed.

End MappingParse.
