(* ===== verification/NumText.v ===== *)
(** * Numbers and their texts

    [Number(s)] for a string and [String(x)] for a number, as ECMAScript
    defines them, both executable. [String(x)] searches for the shortest
    decimal that reads back as [x]: at most 17 digits are ever needed for a
    binary64 value. *)

From S2P Require Import Prelude JsNum Json.
From Stdlib Require Import Floats.SpecFloat.

(** ** Number(s) *)

Definition take_hex_like (base : N) (s : jsstr) : option N :=
  foldl (fun acc c =>
           match acc, hex_val c with
           | Some a, Some d => if (d <? base)%N then Some (base * a + d)%N else None
           | _, _ => None
           end) (Some 0%N) s.

(** StrUnsignedDecimalLiteral with its sign already read. *)
Definition number_decimal (neg : bool) (s : jsstr) : num :=
  let '(ints, s1) := take_digits s in
  let '(frac, s2) := match s1 with 46%N :: t => take_digits t | _ => ([], s1) end in
  if negb (nonempty ints || nonempty frac) then S754_nan
  else match parse_exp s2 with
       | Some (e, []) =>
           num_of_dec neg (parse_digits (ints ++ frac)) (e - Z.of_nat (length frac))%Z
       | _ => S754_nan
       end.

Definition number_signed (neg : bool) (s : jsstr) : num :=
  if bool_decide (s = js "Infinity") then S754_infinity neg else number_decimal neg s.

Definition number_radix (base : N) (s : jsstr) : num :=
  if nonempty s then
    match take_hex_like base s with Some n => num_of_Z (Z.of_N n) | None => S754_nan end
  else S754_nan.

Definition Number (s : jsstr) : num :=
  match trim s with
  | [] => S754_zero false
  | 43%N :: t => number_signed false t
  | 45%N :: t => number_signed true t
  | 48%N :: c :: t =>
      if (c =? 120)%N || (c =? 88)%N then number_radix 16 t
      else if (c =? 111)%N || (c =? 79)%N then number_radix 8 t
      else if (c =? 98)%N || (c =? 66)%N then number_radix 2 t
      else number_signed false (48%N :: c :: t)
  | t => number_signed false t
  end.

(** ** String(x) *)

Definition digit_count (n : Z) : Z :=
  if (n <=? 0)%Z then 0 else Z.of_nat (length (print_N (Z.to_N n))).

(** [10 ^ (n - 1) <= a / b < 10 ^ n]. *)
Definition decimal_point (a b : Z) : Z :=
  if (b <=? a)%Z then digit_count (a / b) else 1 - digit_count ((b + a - 1) / a - 1).

(** The decimals of [k] digits next to [a / b], nearest first, each with the
    position of its decimal point. *)
Definition candidates (a b n k : Z) : list (N * Z) :=
  let '(p, q) := if (n <=? k)%Z then (a * 10 ^ (k - n), b)%Z else (a, b * 10 ^ (n - k))%Z in
  let f := (p / q)%Z in
  let near := if (2 * (p - f * q) <=? q)%Z then [f; f + 1]%Z else [f + 1; f]%Z in
  map (fun s => if (s <? 10 ^ k)%Z then (Z.to_N s, n) else (Z.to_N (10 ^ (k - 1)), n + 1)%Z) near.

(** The digits, their number and the position of the point: the fewest digits
    that read back as [x]. *)
Fixpoint shortest (fuel : nat) (x : num) (a b n k : Z) : N * Z * Z :=
  let cs := candidates a b n k in
  match List.find (fun s => bool_decide (num_of_dec false s.1 (s.2 - k) = x)) cs, fuel with
  | Some (s, n'), _ => (s, k, n')
  | None, S fuel' => shortest fuel' x a b n (k + 1)
  | None, O => (default 0%N (fst <$> head cs), k, n)
  end.

Definition format_exp (e : Z) : jsstr :=
  101%N :: (if (e <? 0)%Z then 45%N else 43%N) :: print_N (Z.abs_N e).

(** The layout of [k] digits with the decimal point after position [n]. *)
Definition format_digits (ds : jsstr) (k n : Z) : jsstr :=
  if (k <=? n)%Z && (n <=? 21)%Z then ds ++ replicate (Z.to_nat (n - k)) 48%N
  else if (0 <? n)%Z && (n <=? 21)%Z then take (Z.to_nat n) ds ++ 46%N :: drop (Z.to_nat n) ds
  else if (-6 <? n)%Z && (n <=? 0)%Z then [48%N; 46%N] ++ replicate (Z.to_nat (- n)) 48%N ++ ds
  else match ds with
       | [d] => d :: format_exp (n - 1)
       | d :: ds' => d :: 46%N :: ds' ++ format_exp (n - 1)
       | [] => []
       end.

Definition format_positive (m : positive) (e : Z) : jsstr :=
  let '(a, b) := if (0 <=? e)%Z then (Z.pos m * 2 ^ e, 1)%Z else (Z.pos m, 2 ^ (- e))%Z in
  let n := decimal_point a b in
  let '(s, k, n') := shortest 16 (S754_finite false m e) a b n 1 in
  format_digits (print_N s) k n'.

Definition Number_toString (x : num) : jsstr :=
  match x with
  | S754_nan => js "NaN"
  | S754_zero _ => js "0"
  | S754_infinity s => (if s then js "-" else []) ++ js "Infinity"
  | S754_finite s m e => (if s then js "-" else []) ++ format_positive m e
  end.

Example string_of_tenth : Number_toString (Number (js "0.1")) = js "0.1".
Proof. vm_compute. reflexivity. Qed.
Example string_of_decimals :
  map (fun s => Number_toString (Number (js s)))
    ["1e21"; "123456789012345680000"; "1e-7"; "0.000001"; "-2.5e-10"; "3"; " 15.75 "; "5e-324"; "0x1F"; "1e"]%string
  = map js ["1e+21"; "123456789012345680000"; "1e-7"; "0.000001"; "-2.5e-10"; "3"; "15.75"; "5e-324"; "31"; "NaN"]%string.
Proof. vm_compute. reflexivity. Qed.

(** ** Texts of JSON values *)

(** The text of a value that is joined to a string. An object is taken to have the
    inherited [toString]. *)
Fixpoint to_text (v : json) : jsstr :=
  match v with
  | JNull => js "null"
  | JBool b => if b then js "true" else js "false"
  | JNum x => Number_toString x
  | JStr s => s
  | JArr l => join [44%N] (map (fun x => match x with JNull => [] | _ => to_text x end) l)
  | JObj _ => js "[object Object]"
  end.

(** [Number(value)] of a parsed value or of [undefined]. *)
Definition Number_value (v : option json) : num :=
  match v with
  | None => S754_nan
  | Some JNull => S754_zero false
  | Some (JBool b) => if b then num_of_Z 1 else S754_zero false
  | Some (JNum x) => x
  | Some (JStr s) => Number s
  | Some j => Number (to_text j)
  end.

(** ** [JSON.stringify] *)

(** A number as [JSON.stringify] prints it. *)
Definition json_number (x : num) : jsstr := if num_is_finite x then Number_toString x else js "null".

Definition JSON_stringify (v : json) : jsstr := stringify compact json_number 0 v.

(** The properties that are not [undefined]. *)
Definition present (l : list (jsstr * option json)) : list (jsstr * json) :=
  omap (fun kv => pair kv.1 <$> kv.2) l.

(** Reading back what was printed. *)
Definition prints_back (x : num) : bool := bool_decide (Number (Number_toString x) = x).

(** ** The characters of a printed number *)

(** [[\d.eE+-]] *)
Definition is_numchar (c : N) : bool :=
  is_digit c || (c =? 46)%N || (c =? 101)%N || (c =? 69)%N || (c =? 43)%N || (c =? 45)%N.

Definition numtext (s : jsstr) : Prop := s ≠ [] ∧ Forall (fun c => is_numchar c = true) s.

Lemma digit_numchar c : is_digit c = true → is_numchar c = true.
Proof. unfold is_numchar. by intros ->. Qed.

Lemma numchar_not_ws c : is_numchar c = true → is_ws c = false.
Proof. unfold is_numchar, is_digit, is_ws. intros H. lia. Qed.

Lemma print_N_numtext n : numtext (print_N n).
Proof.
  destruct (print_N_spec n) as (H1 & H2 & H3). split; [done|].
  eapply Forall_impl; [exact H2|]. intros c Hc. by apply digit_numchar.
Qed.

Lemma numtext_app a b : numtext a → Forall (fun c => is_numchar c = true) b → numtext (a ++ b).
Proof. intros [Hne Ha] Hb. split; [by destruct a|]. by apply Forall_app. Qed.

Lemma zeros_numchar k : Forall (fun c => is_numchar c = true) (replicate k 48%N).
Proof. by apply Forall_replicate. Qed.

Lemma format_digits_numtext ds k n : numtext ds → numtext (format_digits ds k n).
Proof.
  intros [Hne Hd]. pose proof (print_N_numtext (Z.abs_N (n - 1))) as [_ He].
  unfold format_digits, format_exp.
  case_match; [|case_match; [|case_match]].
  - apply numtext_app; [done|]. apply zeros_numchar.
  - split; [by destruct (take _ _)|]. apply Forall_app; split; [by apply Forall_take|].
    constructor; [done|]. by apply Forall_drop.
  - split; [done|]. repeat (constructor; [done|]). apply Forall_app; split; [apply zeros_numchar|done].
  - destruct ds as [|d ds]; [done|]. apply Forall_cons in Hd as [Hd Hd'].
    assert (Hs : is_numchar (if (n - 1 <? 0)%Z then 45%N else 43%N) = true).
    { by destruct (n - 1 <? 0)%Z. }
    destruct ds as [|d' ds]; (split; [done|]).
    + by do 3 (constructor; [done|]).
    + do 2 (constructor; [done|]). apply Forall_app. split; [done|]. by do 2 (constructor; [done|]).
Qed.

Lemma format_positive_numtext m e : numtext (format_positive m e).
Proof.
  unfold format_positive. destruct (0 <=? e)%Z, (shortest _ _ _ _ _ _) as [[s k] n'];
  apply format_digits_numtext, print_N_numtext.
Qed.

(** The text of a finite number is a word of [[\d.eE+-]+]. *)
Lemma Number_toString_numtext x : num_is_finite x = true → numtext (Number_toString x).
Proof.
  destruct x as [s|s| |s m e]; try done; intros _.
  - split; [done|]. by repeat constructor.
  - destruct (format_positive_numtext m e) as [Hne Hc]. destruct s; [|done].
    split; [done|]. by constructor.
Qed.
