(* ===== verification/Records.v ===== *)
(** * Records as JSON objects

    An object literal whose optional properties are left out when they are
    [undefined] ([present]): its properties, that it prints and reads back, and
    that the properties may come in any order. *)

From S2P Require Import Prelude JsNum Json NumText.
From Stdlib Require Import Floats.SpecFloat.

Lemma map_get_perm {A} (k : jsstr) (m1 m2 : list (jsstr * A)) :
  NoDup m1.*1 → m1 ≡ₚ m2 → map_get k m1 = map_get k m2.
Proof.
  intros Hd Hp. assert (Hd2 : NoDup m2.*1) by by rewrite <- Hp.
  destruct (map_get k m2) as [v|] eqn:E.
  - apply map_get_elem_of; [done|]. rewrite Hp. by apply map_get_Some.
  - apply map_get_None. apply map_get_None in E. by rewrite Hp.
Qed.

Lemma present_keys k l : k ∈ (present l).*1 → k ∈ l.*1.
Proof.
  induction l as [|[k' [v|]] l IH]; cbn [present omap list_omap fmap list_fmap option_fmap option_map fst snd]; [done| |];
    rewrite !elem_of_cons.
  - intros [->|H]; [by left|right; by apply IH].
  - intros H. right. by apply IH.
Qed.

Lemma present_NoDup l : NoDup l.*1 → NoDup (present l).*1.
Proof.
  induction l as [|[k [v|]] l IH]; cbn; [done| |]; rewrite NoDup_cons; intros [Hk Hd]; [|by apply IH].
  constructor; [|by apply IH]. intros H. by apply Hk, present_keys.
Qed.

Lemma map_get_present k l : NoDup l.*1 → map_get k (present l) = mjoin (map_get k l).
Proof.
  induction l as [|[k' o] l IH]; cbn; [done|]. rewrite NoDup_cons. intros [Hk Hd]. specialize (IH Hd).
  change (omap _ l) with (present l). destruct o as [v|]; cbn; case_decide; subst; try done.
  apply map_get_None. intros H. by apply Hk, present_keys.
Qed.

(** The properties of an arranged object are those of its table. *)
Lemma map_get_arranged k l m : NoDup l.*1 → m ≡ₚ present l → map_get k m = mjoin (map_get k l).
Proof.
  intros Hd Hp. rewrite <- map_get_present by done. symmetry. apply map_get_perm; [by apply present_NoDup|done].
Qed.

Definition plain_keys (l : list (jsstr * option json)) : bool := forallb (fun kv => negb (is_index kv.1)) l.

Lemma present_plain l : plain_keys l = true → Forall (fun kv => is_index kv.1 = false) (present l).
Proof.
  induction l as [|[k [v|]] l IH]; cbn; [done| |]; intros H; apply andb_true_iff in H as [H1 H2]; [|by apply IH].
  constructor; [|by apply IH]. by apply negb_true_iff.
Qed.

Lemma arranged_ok l m :
  NoDup l.*1 → plain_keys l = true → m ≡ₚ present l →
  Forall (fun kv => match kv.2 with Some v => js_ok v | None => True end) l → js_ok (JObj m).
Proof.
  intros Hd Hi Hp Hv. apply js_ok_obj.
  - apply obj_of_plain; [rewrite Hp; by apply present_NoDup|]. rewrite Hp. by apply present_plain.
  - rewrite Hp. clear -Hv. induction Hv as [|[k [v|]] l H Hv IH]; cbn; [constructor| |done]. by constructor.
Qed.

Lemma arranged_nums pn l m :
  m ≡ₚ present l → Forall (fun kv => match kv.2 with Some v => nums_ok pn v = true | None => True end) l →
  nums_ok pn (JObj m) = true.
Proof.
  intros Hp Hv. cbn. apply forallb_forall. intros kv Hkv. apply list_elem_of_In in Hkv. rewrite Hp in Hkv.
  revert kv Hkv. apply Forall_forall.
  clear -Hv. induction Hv as [|[k [v|]] l H Hv IH]; cbn; [constructor| |done]. by constructor.
Qed.

(** A list of distinct keys, checked by evaluation. *)
Lemma distinct_keys {A} (l : list (jsstr * A)) ks : l.*1 = ks → bool_decide (NoDup ks) = true → NoDup l.*1.
Proof. intros -> H. by apply bool_decide_eq_true in H. Qed.
