(* ===== verification/JsValue.v ===== *)
(** * Dynamic values

    What the code does with values whose type it does not know: truthiness, property
    access, the operators || and ??, and object literals with optional properties;
    and the theory of the values [JSON.parse] returns and of literals that are
    printed and read back. *)

From S2P Require Import Prelude JsNum Json NumText Records.
From Stdlib Require Import Floats.SpecFloat.

(** ** Reading values *)

(** [x === true]. *)
Definition is_true (v : option json) : bool := match v with Some (JBool b) => b | _ => false end.
(** [x === false]. *)
Definition is_false (v : option json) : bool := match v with Some (JBool b) => negb b | _ => false end.

(** A value in a condition; [undefined] is not truthy. *)
Definition truthy (v : option json) : bool :=
  match v with
  | None | Some JNull => false
  | Some (JBool b) => b
  | Some (JNum x) => num_truthy x
  | Some (JStr s) => nonempty s
  | Some _ => true
  end.

(** [String(x || fallback)]. *)
Definition text_or_default (v : option json) (fallback : jsstr) : jsstr :=
  match v with Some x => if truthy v then to_text x else fallback | None => fallback end.

(** A property of an object, array or primitive that is not [null]. *)
Definition prop_of (v : json) (k : string) : option json := match v with JObj m => map_get (js k) m | _ => None end.

(** [v?.key]. *)
Definition prop_opt (v : option json) (k : string) : option json := match v with Some j => prop_of j k | None => None end.

(** [x || y]. *)
Definition orv (v : option json) (d : json) : json := match v with Some x => if truthy v then x else d | None => d end.

(** [x ?? y]. *)
Definition nullish (v : option json) (d : json) : json := match v with None | Some JNull => d | Some x => x end.

(** A valid HTTP status. *)
Definition valid_status (x : num) : bool :=
  num_is_integer x && num_leb (num_of_Z 100) x && num_leb x (num_of_Z 599).

(** ** Literals *)

(** The properties of an object literal. *)
Definition table {A} (l : list (string * A)) : list (jsstr * A) := map (fun kv => (js kv.1, kv.2)) l.

(** The value of a property of a literal. *)
Fixpoint assoc {A} (k : string) (l : list (string * A)) : option A :=
  match l with
  | [] => None
  | (k', v) :: l' => if String.eqb k k' then Some v else assoc k l'
  end.

Lemma js_inj a b : js a = js b → a = b.
Proof.
  revert b. induction a as [|x a IH]; intros [|y b]; try done. change (js (String x a)) with (N_of_ascii x :: js a).
  change (js (String y b)) with (N_of_ascii y :: js b). intros [= E ->%IH]. f_equal.
  by rewrite <- (ascii_N_embedding x), E, ascii_N_embedding.
Qed.

Lemma map_get_table {A} k (l : list (string * A)) : map_get (js k) (table l) = assoc k l.
Proof.
  induction l as [|[k' v] l IH]; [done|]. cbn [table map fst snd map_get assoc]. destruct (String.eqb_spec k k') as [->|Hne].
  - by rewrite decide_True.
  - rewrite decide_False; [exact IH|]. by intros E%js_inj.
Qed.

Lemma map_get_literal k (l : list (string * option json)) :
  bool_decide (NoDup (map fst l)) = true → map_get (js k) (present (table l)) = mjoin (assoc k l).
Proof.
  intros Hd%bool_decide_eq_true. rewrite map_get_present; [by rewrite map_get_table|].
  unfold table. rewrite <- list_fmap_compose. change (fst ∘ (fun kv : string * option json => (js kv.1, kv.2))) with (js ∘ (@fst string (option json))).
  rewrite list_fmap_compose. apply NoDup_fmap_2; [|done]. intros a b. apply js_inj.
Qed.


Definition str (s : string) : json := JStr (js s).

(** An optional property of a payload. *)
Definition opt_prop (b : bool) (v : json) : option json := if b then Some v else None.

(** ** Values of [JSON.parse] *)

Lemma foldl_map_set_fresh {A} (m acc : list (jsstr * A)) :
  NoDup (acc ++ m).*1 → foldl (fun acc kv => map_set kv.1 kv.2 acc) acc m = acc ++ m.
Proof.
  revert acc. induction m as [|[k v] m IH]; intros acc H; cbn [foldl fst snd]; [by rewrite app_nil_r|].
  assert (Hk : map_set k v acc = acc ++ [(k, v)]).
  { rewrite fmap_app in H. apply NoDup_app in H as (_ & H & _).
    assert (Hn : k ∉ acc.*1) by (intros Hin; apply (H k Hin); apply list_elem_of_here).
    clear -Hn. induction acc as [|[k' v'] acc IH]; cbn in *; [done|].
    rewrite decide_False by set_solver. rewrite IH; set_solver. }
  rewrite Hk, IH; rewrite <- app_assoc; done.
Qed.

Lemma foldl_map_set_keys {A} (m acc : list (jsstr * A)) :
  NoDup acc.*1 → NoDup (foldl (fun acc kv => map_set kv.1 kv.2 acc) acc m).*1.
Proof. revert acc. induction m as [|kv m IH]; intros acc H; [done|]. cbn [foldl]. apply IH. by apply NoDup_keys_map_set. Qed.

#[local] Instance cmpIndex_comparator {A} : Comparator (@cmpIndex A).
Proof. split; unfold cmp_le, cmpIndex; lia. Qed.

Lemma List_filter_none {A} (q : A → bool) l : Forall (fun x => q x = false) l → List.filter q l = [].
Proof. induction 1 as [|x l Hx Hl IH]; [done|]. cbn [List.filter]. by rewrite Hx. Qed.

Lemma List_filter_perm' {A} (q : A → bool) (l : list A) : List.filter q l ++ List.filter (fun x => negb (q x)) l ≡ₚ l.
Proof.
  induction l as [|x l IH]; [done|]. cbn [List.filter]. destruct (q x); cbn [negb app].
  - by rewrite IH.
  - rewrite <- Permutation_middle. by rewrite IH.
Qed.

Lemma ordered_perm {A} (m : list (jsstr * A)) : property_order m ≡ₚ m.
Proof. unfold property_order. rewrite sort_by_perm. apply List_filter_perm'. Qed.

Lemma property_order_idem {A} (m : list (jsstr * A)) : property_order (property_order m) = property_order m.
Proof.
  unfold property_order. set (q := fun kv : jsstr * A => is_index kv.1). set (s := sort_by cmpIndex (List.filter q m)).
  set (r := List.filter (fun kv => negb (is_index kv.1)) m).
  assert (Hs : Forall (fun kv => q kv = true) s).
  { unfold s. rewrite sort_by_perm. apply Forall_forall. intros x [_ Hx]%elem_of_List_filter. done. }
  assert (Hr : Forall (fun kv => q kv = false) r).
  { apply Forall_forall. intros x [_ Hx]%elem_of_List_filter. by apply negb_true_iff in Hx. }
  rewrite !List.filter_app, (List_filter_all q s), (List_filter_none q r), app_nil_r by done.
  rewrite (List_filter_none (fun kv => negb (is_index kv.1)) s), (List_filter_all (fun kv => negb (is_index kv.1)) r).
  - unfold s. rewrite (sort_by_id cmpIndex (sort_by cmpIndex _)); [done|]. apply sort_by_sorted. apply _.
  - eapply Forall_impl; [exact Hr|]. intros x Hx. unfold q in Hx. by rewrite Hx.
  - eapply Forall_impl; [exact Hs|]. intros x Hx. unfold q in Hx. by rewrite Hx.
Qed.

Lemma obj_of_idem {A} (m : list (jsstr * A)) : obj_of (obj_of m) = obj_of m.
Proof.
  unfold obj_of. set (f := foldl _ [] m). assert (Hf : NoDup f.*1) by (apply foldl_map_set_keys; constructor).
  rewrite (foldl_map_set_fresh (property_order f) []); [apply property_order_idem|]. cbn [app]. by rewrite ordered_perm.
Qed.

Lemma to_js_is_ok v : js_ok (to_js v).
Proof.
  induction v as [| | | |l IH|m IH] using json_ind; try done.
  - cbn [to_js]. apply js_ok_arr. by apply Forall_fmap.
  - cbn [to_js]. apply js_ok_obj; [apply obj_of_idem|]. unfold obj_of. rewrite ordered_perm.
    assert (H : ∀ (l acc : list (jsstr * json)), Forall (fun kv => js_ok kv.2) l → Forall (fun kv => js_ok kv.2) acc →
       Forall (fun kv => js_ok kv.2) (foldl (fun acc kv => map_set kv.1 kv.2 acc) acc l)).
    { clear. induction l as [|[k v] l IH]; intros acc Hl Ha; [done|]. apply Forall_cons in Hl as [Hv Hl]. cbn [foldl fst snd].
      apply IH; [done|]. clear IH. induction Ha as [|[k' v'] acc Hv' Ha IHa]; cbn [map_set]; [by repeat constructor|].
      case_decide; by constructor. }
    apply H; [|constructor]. by apply Forall_fmap.
Qed.

Lemma JSON_parse_ok s v : JSON_parse s = Some v → js_ok v.
Proof. unfold JSON_parse. destruct (parse_text s); [|done]. intros [= <-]. apply to_js_is_ok. Qed.

(** ** Printed objects *)

Lemma trim_printed lay pn m : trim (stringify lay pn 0 (JObj m)) = stringify lay pn 0 (JObj m).
Proof.
  cbn [stringify]. set (items := map _ m). unfold print_seq. destruct items as [|x l]; [done|].
  apply (trim_ends _ 123%N 125%N); [done| |done|done]. rewrite last_cons, !last_app. done.
Qed.

(** An object literal reads back. *)
Lemma parse_record lay `{!LayoutOk lay} tbl :
  NoDup tbl.*1 → plain_keys tbl = true →
  Forall (fun kv => match kv.2 with Some v => js_ok v | None => True end) tbl →
  Forall (fun kv => match kv.2 with Some v => nums_ok json_number v = true | None => True end) tbl →
  JSON_parse (stringify lay json_number 0 (JObj (present tbl))) = Some (JObj (present tbl)).
Proof.
  intros Hd Hp Hj Hn. apply (JSON_parse_printed lay json_number); [by apply (arranged_nums json_number tbl)|by apply (arranged_ok tbl)].
Qed.

(** Distinct literal keys, by evaluation. *)
Ltac literal_keys := eapply distinct_keys; [reflexivity|vm_compute; reflexivity].

(** One goal per field of a literal. *)
Ltac each_field := repeat first [apply List.Forall_nil | apply List.Forall_cons]; cbn [snd]; try done;
  unfold opt_prop; try match goal with |- context [if ?b then Some _ else None] => destruct b end; try done.

(** ** Values that print and read back *)

Definition wellformed (v : json) : Prop := js_ok v ∧ nums_ok json_number v = true.

Lemma wellformed_arr l : Forall wellformed l → wellformed (JArr l).
Proof.
  intros H. split; [apply js_ok_arr; eapply Forall_impl; [exact H|by intros v []]|]. cbn [nums_ok]. apply forallb_forall.
  intros v Hv%list_elem_of_In. rewrite Forall_forall in H. by apply H.
Qed.

Lemma wellformed_record tbl :
  NoDup tbl.*1 → plain_keys tbl = true → Forall (fun kv => match kv.2 with Some v => wellformed v | None => True end) tbl →
  wellformed (JObj (present tbl)).
Proof.
  intros Hd Hp H. split; [apply (arranged_ok tbl)|apply (arranged_nums json_number tbl)]; try done;
    (eapply Forall_impl; [exact H|]); intros [k [v|]]; cbn; try done; by intros [].
Qed.

(** ** Setting and deleting a property *)

Definition obj_delete {A} (k : jsstr) (m : list (jsstr * A)) : list (jsstr * A) :=
  List.filter (fun kv => negb (bool_decide (kv.1 = k))) m.

Lemma map_get_obj_delete {A} k k' (m : list (jsstr * A)) : map_get k (obj_delete k' m) = if decide (k = k') then None else map_get k m.
Proof.
  unfold obj_delete. induction m as [|[k1 v] m IH]; cbn [List.filter map_get fst]; [by case_decide|].
  destruct (decide (k1 = k')) as [->|Hne].
  - rewrite bool_decide_true by done. cbn [negb]. rewrite IH. by repeat case_decide.
  - rewrite bool_decide_false by done. cbn [negb map_get]. rewrite IH. repeat case_decide; congruence.
Qed.

Lemma obj_of_fixed {A} (m : list (jsstr * A)) : obj_of m = m ↔ NoDup m.*1 ∧ property_order m = m.
Proof.
  assert (Hf : NoDup m.*1 → foldl (fun acc kv => map_set kv.1 kv.2 acc) [] m = m) by (intros H; by apply (foldl_map_set_fresh m [])).
  split.
  - intros H. assert (Hd : NoDup m.*1).
    { rewrite <- H. unfold obj_of. rewrite ordered_perm. apply foldl_map_set_keys, NoDup_nil_2. }
    split; [done|]. unfold obj_of in H. by rewrite (Hf Hd) in H.
  - intros [Hd Hp]. unfold obj_of. by rewrite (Hf Hd).
Qed.

Lemma filter_map_set {A} (q : jsstr → bool) k (v : A) m :
  List.filter (fun kv => q kv.1) (map_set k v m)
  = if q k then map_set k v (List.filter (fun kv => q kv.1) m) else List.filter (fun kv => q kv.1) m.
Proof.
  induction m as [|[k' v'] m IH]; cbn [map_set List.filter fst]; [by destruct (q k)|].
  destruct (decide (k = k')) as [->|Hne]; cbn [List.filter fst]; destruct (q k') eqn:E.
  - cbn [map_set]. by rewrite decide_True.
  - done.
  - rewrite IH. destruct (q k); [|done]. cbn [map_set]. by rewrite decide_False.
  - exact IH.
Qed.

Lemma map_set_app {A} (k : jsstr) (v : A) a b : k ∉ a.*1 → map_set k v (a ++ b) = a ++ map_set k v b.
Proof.
  induction a as [|[k' v'] a IH]; cbn [app map_set fmap list_fmap fst]; [done|]. intros H. rewrite decide_False by set_solver.
  f_equal. apply IH. set_solver.
Qed.

Lemma filter_comm {A} (p q : A → bool) l : List.filter p (List.filter q l) = List.filter q (List.filter p l).
Proof.
  induction l as [|x l IH]; [done|]. cbn [List.filter]. destruct (q x) eqn:Eq, (p x) eqn:Ep; cbn [List.filter]; rewrite ?Eq, ?Ep, IH; done.
Qed.

Section plain_key.
Context (k : jsstr) (Hk : is_index k = false).

Lemma index_part_plain {A} (m : list (jsstr * A)) : k ∉ (sort_by cmpIndex (List.filter (fun kv => is_index kv.1) m)).*1.
Proof.
  rewrite sort_by_perm. intros ([k' v] & -> & [_ H]%elem_of_List_filter)%list_elem_of_fmap. cbn [fst] in *. congruence.
Qed.

Lemma property_order_set {A} (v : A) m : property_order (map_set k v m) = map_set k v (property_order m).
Proof.
  unfold property_order. rewrite map_set_app by apply index_part_plain. rewrite (filter_map_set is_index), Hk.
  rewrite (filter_map_set (fun k => negb (is_index k))), Hk. done.
Qed.

Lemma property_order_delete {A} (m : list (jsstr * A)) : property_order (obj_delete k m) = obj_delete k (property_order m).
Proof.
  unfold property_order, obj_delete. rewrite List.filter_app. f_equal.
  - rewrite filter_comm, (List_filter_all _ (List.filter (fun kv => is_index kv.1) m)), (List_filter_all _ (sort_by _ _)); [done| |];
      apply Forall_forall; intros kv Hin; apply negb_true_iff, bool_decide_eq_false; intros E.
    + apply (index_part_plain m). rewrite <- E. apply list_elem_of_fmap. by exists kv.
    + apply elem_of_List_filter in Hin as [_ Hi]. rewrite E in Hi. congruence.
  - apply filter_comm.
Qed.
End plain_key.

Lemma wellformed_obj m :
  wellformed (JObj m) ↔ NoDup m.*1 ∧ property_order m = m ∧ Forall (fun kv => wellformed kv.2) m.
Proof.
  assert (Hgo : ∀ m : list (jsstr * json), (fix go m := match m with [] => True | kv :: m' => js_ok kv.2 ∧ go m' end) m ↔ Forall (fun kv => js_ok kv.2) m).
  { clear m. induction m as [|kv m IH]; [by split|]. rewrite Forall_cons, <- IH. done. }
  unfold wellformed at 1. cbn [js_ok nums_ok]. rewrite obj_of_fixed, Hgo, forallb_forall. split.
  - intros [[[Hd Hp] Hj] Hn]. split; [done|]. split; [done|]. apply Forall_forall. intros kv Hkv. split.
    + rewrite Forall_forall in Hj. by apply Hj.
    + by apply Hn, list_elem_of_In.
  - intros (Hd & Hp & Hw). rewrite Forall_forall in Hw. repeat split; [done|done| |].
    + apply Forall_forall. intros kv Hkv. by apply Hw.
    + intros kv Hkv%list_elem_of_In. by apply Hw.
Qed.

Lemma wellformed_set k v m : is_index k = false → wellformed v → wellformed (JObj m) → wellformed (JObj (map_set k v m)).
Proof.
  intros Hk Hv (Hd & Hp & Hw)%wellformed_obj. apply wellformed_obj. split; [by apply NoDup_keys_map_set|].
  split; [by rewrite property_order_set, Hp|]. clear Hd Hp. induction Hw as [|[k' v'] m H Hw IH]; cbn [map_set].
  - apply List.Forall_cons; [done|apply List.Forall_nil].
  - case_decide; by apply List.Forall_cons.
Qed.

Lemma wellformed_delete k m : is_index k = false → wellformed (JObj m) → wellformed (JObj (obj_delete k m)).
Proof.
  intros Hk (Hd & Hp & Hw)%wellformed_obj. apply wellformed_obj. split; [|split].
  - clear Hp Hw. unfold obj_delete. induction m as [|[k' v'] m IH]; [done|]. cbn [fmap list_fmap fst] in Hd. apply NoDup_cons in Hd as [Hn Hd].
    cbn [List.filter fst]. destruct (negb _); [|by apply IH]. cbn [fmap list_fmap fst]. constructor; [|by apply IH].
    intros (kv & E & [Hin _]%elem_of_List_filter)%list_elem_of_fmap. apply Hn. rewrite E. apply list_elem_of_fmap. by exists kv.
  - by rewrite property_order_delete, Hp.
  - apply Forall_forall. intros kv [Hin _]%elem_of_List_filter. rewrite Forall_forall in Hw. by apply Hw.
Qed.

(** ** Blank texts are not JSON *)

Lemma skip_ws_blank s : Forall (fun c => is_ws c = true) s → skip_ws s = [] ∨ ∃ c r, skip_ws s = c :: r ∧ is_ws c = true ∧ is_json_ws c = false.
Proof.
  induction 1 as [|c s Hc Hs IH]; [by left|]. cbn [skip_ws]. destruct (is_json_ws c) eqn:E; [done|]. right. by exists c, s.
Qed.

Lemma drop_ws_blank s : drop_ws s = [] → Forall (fun c => is_ws c = true) s.
Proof. induction s as [|c s IH]; [by constructor|]. cbn [drop_ws]. destruct (is_ws c) eqn:E; [|done]. intros H. constructor; auto. Qed.

Lemma trim_blank s : trim s = [] → Forall (fun c => is_ws c = true) s.
Proof.
  unfold trim. intros H. apply (f_equal reverse) in H. rewrite reverse_involutive in H. apply drop_ws_blank in H.
  rewrite Forall_reverse in H. destruct (drop_ws s) as [|c r] eqn:E; [by apply drop_ws_blank|].
  pose proof (drop_ws_idem s) as Hi. rewrite E in Hi. apply drop_ws_fixed in Hi. apply Forall_cons in H as [H _]. congruence.
Qed.

Lemma is_ws_cases c :
  is_ws c = true → c ∈ [9; 10; 11; 12; 13; 32; 160; 5760; 8192; 8193; 8194; 8195; 8196; 8197; 8198; 8199; 8200; 8201; 8202;
    8232; 8233; 8239; 8287; 12288; 65279]%N.
Proof.
  unfold is_ws. rewrite !orb_true_iff, !andb_true_iff, !N.leb_le, !N.eqb_eq. intros H. rewrite !elem_of_cons, elem_of_nil. lia.
Qed.

Lemma JSON_parse_blank s : trim s = [] → JSON_parse s = None.
Proof.
  intros H%trim_blank%skip_ws_blank. unfold JSON_parse, parse_text. replace (2 * length s + 2)%nat with (S (2 * length s + 1)) by lia.
  cbn [parse_value]. destruct H as [->|(c & r & -> & Hw%is_ws_cases & _)]; [done|].
  rewrite !elem_of_cons, elem_of_nil in Hw. repeat (destruct Hw as [->|Hw]; [reflexivity|]). done.
Qed.
