(* ===== verification/RiskGuard.v ===== *)
(** * Risky status-code redirects (src/web/default/src/features/channels/lib/status-code-risk-guard.ts)

    The channel form warns before a gateway timeout is mapped to another status:
    the entries of a status-code mapping that are malformed, those that redirect a
    status that must not be redirected, and those of them that an edit adds. *)

From S2P Require Import Prelude JsNum Json NumText.

Module RiskGuard.

Definition NON_REDIRECTABLE_STATUS_CODES : list Z := [504; 524]%Z.

(** [/^[1-5]\d{2}$/] *)
Definition is_code_text (s : jsstr) : bool :=
  match s with
  | [a; b; c] => ((49 <=? a) && (a <=? 53))%N && is_digit b && is_digit c
  | _ => false
  end.

Definition parseStatusCodeKey (rawKey : jsstr) : option Z :=
  let normalized := trim rawKey in
  if negb (is_code_text normalized) then None else Some (Z.of_N (parse_digits normalized)).

Definition in_range (code : Z) : option Z := if (100 <=? code)%Z && (code <=? 599)%Z then Some code else None.

Definition parseStatusCodeMappingTarget (rawValue : json) : option Z :=
  match rawValue with
  | JNum x => if num_is_integer x then in_range (num_to_Z x) else None
  | JStr s =>
      let normalized := trim s in
      if negb (is_code_text normalized) then None else in_range (Z.of_N (parse_digits normalized))
  | _ => None
  end.

(** [Object.entries] of the mapping; nothing when the text is blank, is not JSON
    or is not an object. *)
Definition mappingEntries (statusCodeMappingStr : jsstr) : list (jsstr * json) :=
  if negb (nonempty (trim statusCodeMappingStr)) then []
  else match JSON_parse statusCodeMappingStr with Some (JObj m) => m | _ => [] end.

Definition is_none {A} (o : option A) : bool := match o with None => true | Some _ => false end.

Definition invalidEntry (kv : jsstr * json) : bool :=
  is_none (parseStatusCodeKey kv.1) || is_none (parseStatusCodeMappingTarget kv.2).

Definition collectInvalidStatusCodeEntries (statusCodeMappingStr : jsstr) : list jsstr :=
  map (fun kv => kv.1 ++ [32; 8594; 32]%N ++ to_text kv.2)
    (List.filter invalidEntry (mappingEntries statusCodeMappingStr)).

Definition print_code (code : Z) : jsstr := print_N (Z.to_N code).

Definition redirect_text (fromCode toCode : Z) : jsstr := print_code fromCode ++ js " -> " ++ print_code toCode.

Definition riskyMapping (kv : jsstr * json) : option jsstr :=
  match parseStatusCodeKey kv.1, parseStatusCodeMappingTarget kv.2 with
  | Some fromCode, Some toCode =>
      if negb (set_has fromCode NON_REDIRECTABLE_STATUS_CODES) then None
      else if (fromCode =? toCode)%Z then None
      else Some (redirect_text fromCode toCode)
  | _, _ => None
  end.

Definition collectDisallowedStatusCodeRedirects (statusCodeMappingStr : jsstr) : list jsstr :=
  sort_by str_cmp (set_of (omap riskyMapping (mappingEntries statusCodeMappingStr))).

Definition collectNewDisallowedStatusCodeRedirects (originalStr currentStr : jsstr) : list jsstr :=
  let currentRisky := collectDisallowedStatusCodeRedirects currentStr in
  if (length currentRisky =? 0)%nat then []
  else
    let originalRiskySet := set_of (collectDisallowedStatusCodeRedirects originalStr) in
    List.filter (fun mapping => negb (set_has mapping originalRiskySet)) currentRisky.

Example risky_demo :
  (collectDisallowedStatusCodeRedirects (jsq "{'504':200,'524':'524',' 524 ':'502','500':200,'504 ':'200','x':1}"),
   collectInvalidStatusCodeEntries (jsq "{'504':200,'x':1,'500':20.5}"))
  = ([js "504 -> 200"; js "524 -> 502"], [js "500" ++ [32; 8594; 32]%N ++ js "20.5"; js "x" ++ [32; 8594; 32]%N ++ js "1"]).
Proof. vm_compute. reflexivity. Qed.

(** ** Properties *)

(** The mapping redirects a protected status. *)
Definition redirects (s : jsstr) (f t : Z) : Prop :=
  ∃ k v, (k, v) ∈ mappingEntries s ∧ parseStatusCodeKey k = Some f ∧ parseStatusCodeMappingTarget v = Some t
         ∧ f ∈ NON_REDIRECTABLE_STATUS_CODES ∧ f ≠ t.

Lemma elem_of_risky s x :
  x ∈ collectDisallowedStatusCodeRedirects s ↔ ∃ f t, redirects s f t ∧ x = redirect_text f t.
Proof.
  unfold collectDisallowedStatusCodeRedirects. rewrite elem_of_sort_by, elem_of_set_of, list_elem_of_omap. split.
  - intros ([k v] & Hin & H). unfold riskyMapping in H. cbn in H.
    destruct (parseStatusCodeKey k) as [f|] eqn:Ef; [|done].
    destruct (parseStatusCodeMappingTarget v) as [t|] eqn:Et; [|done].
    destruct (set_has f _) eqn:Eh; [|done]. apply set_has_spec in Eh. cbn in H.
    destruct (f =? t)%Z eqn:Eq; [done|]. injection H as <-. exists f, t. split; [|done]. exists k, v. split_and!; try done. lia.
  - intros (f & t & (k & v & Hin & Hf & Ht & Hp & Hne) & ->). exists (k, v). split; [done|]. unfold riskyMapping. cbn.
    rewrite Hf, Ht. rewrite (proj2 (set_has_spec f _) Hp). cbn. by rewrite (proj2 (Z.eqb_neq f t)).
Qed.

Lemma target_range v t : parseStatusCodeMappingTarget v = Some t → (100 <= t <= 599)%Z.
Proof.
  unfold parseStatusCodeMappingTarget, in_range. destruct v; try done; repeat case_match; try done; intros [= <-]; lia.
Qed.

(** The text of a redirect determines it. *)
Lemma redirect_text_inj s s' f t f' t' :
  redirects s f t → redirects s' f' t' → redirect_text f t = redirect_text f' t' → f = f' ∧ t = t'.
Proof.
  intros (k & v & _ & _ & Ht & Hf & _) (k' & v' & _ & _ & Ht' & Hf' & _) H.
  apply target_range in Ht, Ht'. unfold redirect_text in H.
  assert (Hl : ∀ g, g ∈ NON_REDIRECTABLE_STATUS_CODES → length (print_code g) = 3%nat ∧ (0 <= g)%Z).
  { intros g Hg. unfold NON_REDIRECTABLE_STATUS_CODES in Hg. rewrite !elem_of_cons, elem_of_nil in Hg.
    by destruct Hg as [->|[->|[]]]. }
  destruct (Hl f Hf) as [L1 P1], (Hl f' Hf') as [L2 P2].
  apply app_inj_1 in H as [H1 H2]; [|by rewrite L1, L2]. apply app_inj_1 in H2 as [_ H2]; [|done].
  assert (Hp : ∀ a b, (0 <= a)%Z → (0 <= b)%Z → print_code a = print_code b → a = b).
  { intros a b Ha Hb E. apply (f_equal parse_digits) in E. unfold print_code in E.
    destruct (print_N_spec (Z.to_N a)) as (Ea & _), (print_N_spec (Z.to_N b)) as (Eb & _).
    rewrite Ea, Eb in E. lia. }
  split; apply Hp; (done || lia).
Qed.

(** The warning lists exactly the redirects of protected statuses. The list
    is sorted and without repetition, and has the text of a redirect exactly when
    some entry maps 504 or 524, as its trimmed key, to another valid status. *)
Theorem risky_exact s :
  let l := collectDisallowedStatusCodeRedirects s in
  StronglySorted (cmp_le str_cmp) l ∧ NoDup l
  ∧ (∀ x, x ∈ l ↔ ∃ f t, redirects s f t ∧ x = redirect_text f t)
  ∧ (∀ f t, redirects s f t → (f = 504 ∨ f = 524)%Z ∧ (100 <= t <= 599)%Z ∧ f ≠ t).
Proof.
  cbn zeta. split_and!.
  - unfold collectDisallowedStatusCodeRedirects. apply sort_by_sorted, _.
  - unfold collectDisallowedStatusCodeRedirects. rewrite sort_by_perm. apply NoDup_set_of.
  - apply elem_of_risky.
  - intros f t (k & v & _ & _ & Ht & Hf & Hne). split; [|split; [by eapply target_range|done]].
    unfold NON_REDIRECTABLE_STATUS_CODES in Hf. rewrite !elem_of_cons, elem_of_nil in Hf. naive_solver.
Qed.

(** An edit is warned about exactly for the redirects it adds. A redirect is
    reported for an edit when the new mapping has it and the old one does not,
    however the texts are written; an edit that adds no entry is never reported. *)
Theorem new_risky_exact original current :
  let l := collectNewDisallowedStatusCodeRedirects original current in
  (∀ x, x ∈ l ↔ ∃ f t, redirects current f t ∧ ¬ redirects original f t ∧ x = redirect_text f t)
  ∧ ((∀ kv, kv ∈ mappingEntries current → kv ∈ mappingEntries original) → l = []).
Proof.
  assert (H : ∀ x, x ∈ collectNewDisallowedStatusCodeRedirects original current
                   ↔ ∃ f t, redirects current f t ∧ ¬ redirects original f t ∧ x = redirect_text f t).
  { intros x.
    assert (E : x ∈ collectNewDisallowedStatusCodeRedirects original current
                ↔ x ∈ collectDisallowedStatusCodeRedirects current ∧ x ∉ collectDisallowedStatusCodeRedirects original).
    { unfold collectNewDisallowedStatusCodeRedirects. set (c := collectDisallowedStatusCodeRedirects current).
      destruct (length c =? 0)%nat eqn:El.
      - apply Nat.eqb_eq, length_zero_iff_nil in El. rewrite El. set_solver.
      - rewrite elem_of_List_filter, negb_true_iff, <- not_true_iff_false, set_has_spec, elem_of_set_of. done. }
    rewrite E, !elem_of_risky. split.
    - intros [(f & t & Hr & ->) Hn]. exists f, t. split_and!; [done| |done]. intros Ho. apply Hn. by exists f, t.
    - intros (f & t & Hr & Hn & ->). split; [by exists f, t|]. intros (f' & t' & Ho & Heq).
      destruct (redirect_text_inj _ _ _ _ _ _ Hr Ho Heq) as [-> ->]. done. }
  cbn zeta. split; [exact H|]. intros Hsub. destruct (collectNewDisallowedStatusCodeRedirects original current) as [|x l] eqn:El; [done|].
  destruct (proj1 (H x)) as (f & t & (k & v & Hin & Hr) & Hn & _); [apply list_elem_of_here|].
  destruct Hn. exists k, v. split; [by apply Hsub|done].
Qed.
End RiskGuard.
