(* ===== verification/Regex.v ===== *)
(** * Regular expressions

    The backtracking matcher of ECMAScript regular expressions, as the language
    specifies it: a matcher takes a state and a continuation, alternatives are
    tried from left to right, and quantifiers are greedy and do not iterate on
    the empty word. Patterns have no flag that changes case or lines and no
    lookaround. Then [exec], the global loop over it, [split] and [replace], and
    the lemmas that evaluate a pattern on a text of known shape. *)

From S2P Require Import Prelude.

Inductive re :=
| Eps
| Chr (f : N → bool)
| Seq (a b : re)
| Alt (a b : re)
| Star (a : re)
| Cap (n : nat) (a : re)
| Back (n : nat)
| Bol
| Eol
| WordB.

(** The character before the position, the rest of the text, the captures. *)
Record mst := mkM { prev : option N; rest : jsstr; caps : list (nat * jsstr) }.

(** [[A-Za-z0-9_]] *)
Definition is_word (c : N) : bool :=
  is_digit c || ((65 <=? c) && (c <=? 90))%N || ((97 <=? c) && (c <=? 122))%N || (c =? 95)%N.

Definition word_at (o : option N) : bool := match o with Some c => is_word c | None => false end.

(** The previous character after consuming a word. *)
Fixpoint after (b : option N) (w : jsstr) : option N :=
  match w with [] => b | c :: w' => after (Some c) w' end.

Section matcher.
Context {R : Type}.

(** At most [n] iterations of [m], as many as possible first. *)
Fixpoint star (m : (mst → option R) → mst → option R) (n : nat) (k : mst → option R) (s : mst) : option R :=
  match n with
  | O => k s
  | S n' =>
      match m (fun s' => if (length (rest s') <? length (rest s))%nat then star m n' k s' else None) s with
      | Some r => Some r
      | None => k s
      end
  end.

(** The text consumed between two states. *)
Definition consumed (s s' : mst) : jsstr := take (length (rest s) - length (rest s')) (rest s).

Fixpoint m (r : re) (k : mst → option R) (s : mst) : option R :=
  match r with
  | Eps => k s
  | Chr f =>
      match rest s with
      | c :: t => if f c then k (mkM (Some c) t (caps s)) else None
      | [] => None
      end
  | Seq a b => m a (m b k) s
  | Alt a b => match m a k s with Some r => Some r | None => m b k s end
  | Star a => star (m a) (S (length (rest s))) k s
  | Cap n a => m a (fun s' => k (mkM (prev s') (rest s') (map_set n (consumed s s') (caps s')))) s
  | Back n =>
      match map_get n (caps s) with
      | Some w => if starts_with w (rest s)
                  then k (mkM (after (prev s) w) (drop (length w) (rest s)) (caps s)) else None
      | None => k s
      end
  | Bol => match prev s with None => k s | Some _ => None end
  | Eol => match rest s with [] => k s | _ => None end
  | WordB => if xorb (word_at (prev s)) (word_at (head (rest s))) then k s else None
  end.
End matcher.

(** ** Patterns *)

Definition chr (c : N) : re := Chr (N.eqb c).
Definition seqs (l : list re) : re := foldr Seq Eps l.
Definition lit (w : jsstr) : re := seqs (map chr w).
Definition Plus (a : re) : re := Seq a (Star a).
Definition Opt (a : re) : re := Alt a Eps.
Fixpoint alts (l : list re) : re :=
  match l with [] => Chr (fun _ => false) | [a] => a | a :: l' => Alt a (alts l') end.
Definition ws_star : re := Star (Chr is_ws).
Definition is_newline (c : N) : bool := (c =? 10)%N || (c =? 13)%N || (c =? 8232)%N || (c =? 8233)%N.

(** ** Searching *)

(** [exec] from a position: the state after the first match. *)
Fixpoint exec_from (r : re) (b : option N) (s : jsstr) : option mst :=
  match m r Some (mkM b s []) with
  | Some s' => Some s'
  | None => match s with [] => None | c :: s' => exec_from r (Some c) s' end
  end.

Definition exec (r : re) (s : jsstr) : option mst := exec_from r None s.

(** [r.test(s)]. *)
Definition test (r : re) (s : jsstr) : bool := match exec r s with Some _ => true | None => false end.

(** A group of a match; [undefined] is [None]. *)
Definition group (n : nat) (s : mst) : option jsstr := map_get n (caps s).

(** [while ((m = r.exec(s)) !== null)] with a global [r] that consumes. *)
Fixpoint exec_all_from (fuel : nat) (r : re) (b : option N) (s : jsstr) : list mst :=
  match fuel with
  | O => []
  | S fuel' =>
      match exec_from r b s with
      | Some s' => s' :: exec_all_from fuel' r (prev s') (rest s')
      | None => []
      end
  end.

Definition exec_all (r : re) (s : jsstr) : list mst := exec_all_from (S (length s)) r None s.

(** [s.split(r)] and [s.replace(r, repl)] with a global [r]; [cur] is the text
    since the last match, reversed. An empty match is skipped: the patterns used
    here have none. *)
Fixpoint split_go (fuel : nat) (r : re) (b : option N) (cur s : jsstr) : list jsstr :=
  match fuel, s with
  | S fuel', c :: s' =>
      match m r Some (mkM b s []) with
      | Some st => if (length (rest st) <? length s)%nat
                   then reverse cur :: split_go fuel' r (prev st) [] (rest st)
                   else split_go fuel' r (Some c) (c :: cur) s'
      | None => split_go fuel' r (Some c) (c :: cur) s'
      end
  | _, _ => [reverse cur]
  end.

Definition split_re (r : re) (s : jsstr) : list jsstr := split_go (length s) r None [] s.

Definition replace_all (r : re) (repl s : jsstr) : jsstr := join repl (split_re r s).

Example re_demo :
  caps <$> exec (seqs [Cap 1 (Plus (Chr is_digit)); lit (js "-"); Back 1; Eol]) (js "a12-2-12-12")
  = Some [(1%nat, js "12")].
Proof. vm_compute. reflexivity. Qed.

(** ** Evaluation lemmas *)

Section eval.
Context {R : Type}.
Implicit Types (k : mst → option R) (w t : jsstr).

Lemma m_seqs_cons a l k s : m (seqs (a :: l)) k s = m a (m (seqs l) k) s.
Proof. done. Qed.

Lemma m_ext r k k' s : (∀ s', k s' = k' s') → m r k s = m r k' s.
Proof.
  revert k k' s. induction r as [|f|a IHa b IHb|a IHa b IHb|a IHa|n a IHa|n| | |]; intros k k' s Hk; cbn [m].
  - done.
  - by repeat case_match.
  - apply IHa. intros s'. by apply IHb.
  - by rewrite (IHa _ k'), (IHb _ k').
  - assert (Hs : ∀ i s, star (m a) i k s = star (m a) i k' s).
    { induction i as [|i IHi]; intros s0; cbn [star]; [done|].
      rewrite (IHa _ (fun s' => if (length (rest s') <? length (rest s0))%nat
                                then star (m a) i k' s' else None)).
      - by rewrite Hk.
      - intros s'. by rewrite IHi. }
    apply Hs.
  - apply IHa. intros s'. apply Hk.
  - by repeat case_match.
  - by repeat case_match.
  - by repeat case_match.
  - by repeat case_match.
Qed.

Lemma m_chr_eq c k b t cs : m (chr c) k (mkM b (c :: t) cs) = k (mkM (Some c) t cs).
Proof. cbn. by rewrite N.eqb_refl. Qed.

Lemma m_chr_ne c d k b t cs : d ≠ c → m (chr c) k (mkM b (d :: t) cs) = None.
Proof. intros H. cbn. by rewrite (proj2 (N.eqb_neq c d)). Qed.

Lemma m_lit w k b t cs : m (lit w) k (mkM b (w ++ t) cs) = k (mkM (after b w) t cs).
Proof.
  revert b. induction w as [|c w IH]; intros b; [done|]. unfold lit. cbn [map].
  rewrite m_seqs_cons. cbn [app]. rewrite m_chr_eq. apply IH.
Qed.

Lemma m_lit_nil w k b cs : w ≠ [] → m (lit w) k (mkM b [] cs) = None.
Proof. by destruct w. Qed.

Lemma m_lit_none w k b s cs : starts_with w s = false → m (lit w) k (mkM b s cs) = None.
Proof.
  revert b s. induction w as [|c w IH]; intros b s; [done|]. unfold lit. cbn [map].
  rewrite m_seqs_cons. destruct s as [|d s]; [done|]. cbn [starts_with chr m rest].
  destruct (c =? d)%N eqn:E; [|done]. cbn [andb]. intros H. by apply IH.
Qed.

(** The text stops a class: it is empty or goes on with another character. *)
Definition stops (f : N → bool) (t : jsstr) : Prop :=
  match t with [] => True | c :: _ => f c = false end.

(** A continuation fails wherever the text goes on with a character of the class. *)
Definition refuses (f : N → bool) (k : mst → option R) : Prop :=
  ∀ b c t cs, f c = true → k (mkM b (c :: t) cs) = None.

Lemma refuses_chr f c k : f c = false → refuses f (m (chr c) k).
Proof. intros H b d t cs Hd. apply m_chr_ne. congruence. Qed.

Lemma refuses_lit f c w k : f c = false → refuses f (m (lit (c :: w)) k).
Proof. intros H b d t cs Hd. unfold lit. cbn [map]. rewrite m_seqs_cons. by apply (refuses_chr f). Qed.

Lemma refuses_eol f k : refuses f (m Eol k).
Proof. done. Qed.

Lemma refuses_seqs f a l k : refuses f (m a (m (seqs l) k)) → refuses f (m (seqs (a :: l)) k).
Proof. done. Qed.

(** Deterministic classes: the continuation refuses the class. *)
Lemma star_until f k b w t cs n :
  Forall (fun c => f c = true) w → stops f t → refuses f k → (length w <= n)%nat →
  star (m (Chr f)) (S n) k (mkM b (w ++ t) cs) = k (mkM (after b w) t cs).
Proof.
  intros Hw Ht Hk. revert b n. induction Hw as [|c w Hc Hw IH]; intros b n Hn.
  - cbn [app after star]. cbn [m rest caps]. destruct t as [|c t]; [done|]. by rewrite Ht.
  - cbn [star]. cbn [m rest caps app]. rewrite Hc. cbn [rest].
    replace (_ <? _)%nat with true by (symmetry; apply Nat.ltb_lt; cbn; lia).
    cbn [length] in Hn. destruct n as [|n]; [lia|]. rewrite IH by lia. cbn [after].
    destruct (k _); [done|]. by apply Hk.
Qed.

Lemma m_star_until f k b w t cs :
  Forall (fun c => f c = true) w → stops f t → refuses f k →
  m (Star (Chr f)) k (mkM b (w ++ t) cs) = k (mkM (after b w) t cs).
Proof. intros. cbn [m]. apply star_until; try done. cbn. rewrite length_app. lia. Qed.

(** Greedy classes: what the longest run leads to wins. *)
Lemma star_first f k b w t cs n r :
  Forall (fun c => f c = true) w → stops f t → (length w <= n)%nat →
  k (mkM (after b w) t cs) = Some r →
  star (m (Chr f)) (S n) k (mkM b (w ++ t) cs) = Some r.
Proof.
  intros Hw Ht Hn. revert b n Hn. induction Hw as [|c w Hc Hw IH]; intros b n Hn Hk.
  - cbn [app star]. cbn [m rest caps]. destruct t as [|c t]; [done|]. by rewrite Ht.
  - cbn [star]. cbn [m rest caps app]. rewrite Hc. cbn [rest].
    replace (_ <? _)%nat with true by (symmetry; apply Nat.ltb_lt; cbn; lia).
    cbn [length] in Hn. destruct n as [|n]; [lia|]. by rewrite (IH (Some c)) by (done || lia).
Qed.

Lemma m_star_first f k b w t cs r :
  Forall (fun c => f c = true) w → stops f t → k (mkM (after b w) t cs) = Some r →
  m (Star (Chr f)) k (mkM b (w ++ t) cs) = Some r.
Proof. intros. cbn [m]. apply star_first; try done. cbn. rewrite length_app. lia. Qed.

Lemma m_plus_until f k b w t cs :
  w ≠ [] → Forall (fun c => f c = true) w → stops f t → refuses f k →
  m (Plus (Chr f)) k (mkM b (w ++ t) cs) = k (mkM (after b w) t cs).
Proof.
  intros Hne Hw Ht Hk. destruct w as [|c w]; [done|]. apply Forall_cons in Hw as [Hc Hw].
  unfold Plus. change (m (Seq ?a ?b) k ?s) with (m a (m b k) s). cbn [app].
  cbn [m rest caps]. rewrite Hc. apply (star_until f k (Some c) w); try done. cbn. rewrite length_app. lia.
Qed.

Lemma m_plus_first f k b w t cs r :
  w ≠ [] → Forall (fun c => f c = true) w → stops f t → k (mkM (after b w) t cs) = Some r →
  m (Plus (Chr f)) k (mkM b (w ++ t) cs) = Some r.
Proof.
  intros Hne Hw Ht Hk. destruct w as [|c w]; [done|]. apply Forall_cons in Hw as [Hc Hw].
  unfold Plus. change (m (Seq ?a ?b) k ?s) with (m a (m b k) s). cbn [app].
  cbn [m rest caps]. rewrite Hc. apply (star_first f k (Some c) w); try done. cbn. rewrite length_app. lia.
Qed.

Lemma m_plus_none f k b s cs : stops f s → m (Plus (Chr f)) k (mkM b s cs) = None.
Proof.
  intros H. unfold Plus. change (m (Seq ?a ?b) k ?s) with (m a (m b k) s). cbn [m rest].
  destruct s as [|c s]; [done|]. by rewrite H.
Qed.

(** Captures of such runs. *)
Lemma consumed_app b w t cs b' cs' : consumed (mkM b (w ++ t) cs) (mkM b' t cs') = w.
Proof.
  unfold consumed. cbn [rest]. rewrite length_app.
  replace (length w + length t - length t)%nat with (length w) by lia. by rewrite take_app_length.
Qed.

Definition capture n s k : mst → option R :=
  fun s' => k (mkM (prev s') (rest s') (map_set n (consumed s s') (caps s'))).

Lemma m_cap n a k s : m (Cap n a) k s = m a (capture n s k) s.
Proof. done. Qed.

Lemma capture_app n k b w t cs b' cs' :
  capture n (mkM b (w ++ t) cs) k (mkM b' t cs') = k (mkM b' t (map_set n w cs')).
Proof. unfold capture. cbn [prev rest caps]. by rewrite consumed_app. Qed.

Lemma refuses_capture f n s k : refuses f k → refuses f (capture n s k).
Proof. intros H b c t cs Hc. by apply H. Qed.

Lemma m_cap_plus_until n f k b w t cs :
  w ≠ [] → Forall (fun c => f c = true) w → stops f t → refuses f k →
  m (Cap n (Plus (Chr f))) k (mkM b (w ++ t) cs) = k (mkM (after b w) t (map_set n w cs)).
Proof.
  intros. rewrite m_cap, m_plus_until by (done || by apply refuses_capture). apply capture_app.
Qed.

Lemma m_cap_plus_first n f k b w t cs r :
  w ≠ [] → Forall (fun c => f c = true) w → stops f t →
  k (mkM (after b w) t (map_set n w cs)) = Some r →
  m (Cap n (Plus (Chr f))) k (mkM b (w ++ t) cs) = Some r.
Proof. intros. rewrite m_cap. apply m_plus_first; try done. by rewrite capture_app. Qed.

Lemma m_cap_star_until n f k b w t cs :
  Forall (fun c => f c = true) w → stops f t → refuses f k →
  m (Cap n (Star (Chr f))) k (mkM b (w ++ t) cs) = k (mkM (after b w) t (map_set n w cs)).
Proof.
  intros. rewrite m_cap, m_star_until by (done || by apply refuses_capture). apply capture_app.
Qed.

Lemma m_cap_star_first n f k b w t cs r :
  Forall (fun c => f c = true) w → stops f t →
  k (mkM (after b w) t (map_set n w cs)) = Some r →
  m (Cap n (Star (Chr f))) k (mkM b (w ++ t) cs) = Some r.
Proof. intros. rewrite m_cap. apply m_star_first; try done. by rewrite capture_app. Qed.

Lemma m_back n w k b t cs :
  map_get n cs = Some w → m (Back n) k (mkM b (w ++ t) cs) = k (mkM (after b w) t cs).
Proof.
  intros H. cbn [m caps rest]. rewrite H.
  rewrite (proj2 (starts_with_spec w (w ++ t))) by eauto. by rewrite drop_app_length.
Qed.
End eval.

(** ** Anchored patterns and alphabets *)

Lemma exec_from_bol r c s : exec_from (Seq Bol r) (Some c) s = None.
Proof. revert c. induction s as [|d s IH]; intros c; cbn; auto. Qed.

Lemma exec_bol r s : exec (Seq Bol r) s = m r Some (mkM None s []).
Proof.
  unfold exec. destruct s as [|c s]; cbn [exec_from]; change (m (Seq Bol r) Some ?x) with (m r Some x).
  - by destruct (m r _ _).
  - rewrite exec_from_bol. by destruct (m r _ _).
Qed.

(** The words a pattern consumes are over [P]. *)
Fixpoint over (P : N → Prop) (r : re) : Prop :=
  match r with
  | Chr f => ∀ c, f c = true → P c
  | Seq a b | Alt a b => over P a ∧ over P b
  | Star a | Cap _ a => over P a
  | Back _ => False
  | _ => True
  end.

Lemma over_consumes {R} P r (k : mst → option R) s x :
  over P r → m r k s = Some x → ∃ s' w, k s' = Some x ∧ rest s = w ++ rest s' ∧ Forall P w.
Proof.
  revert k s. induction r as [|f|a IHa b IHb|a IHa b IHb|a IHa|n a IHa|n| | |]; intros k s Ho Hm.
  - exists s, []. done.
  - cbn in *. destruct (rest s) as [|c t] eqn:E; [done|]. destruct (f c) eqn:Ef; [|done].
    eexists _, [c]. split; [done|]. split; [done|]. constructor; eauto.
  - destruct Ho as [Ha Hb]. destruct (IHa _ _ Ha Hm) as (s1 & w1 & H1 & E1 & F1).
    destruct (IHb _ _ Hb H1) as (s2 & w2 & H2 & E2 & F2).
    exists s2, (w1 ++ w2). rewrite E1, E2, app_assoc. split; [done|]. split; [done|]. by apply Forall_app.
  - destruct Ho as [Ha Hb]. cbn in Hm. destruct (m a k s) as [y|] eqn:E; [|by apply IHb].
    injection Hm as ->. by apply IHa.
  - cbn [m] in Hm. revert Hm. generalize (S (length (rest s))). intros n. revert s.
    induction n as [|n IHn]; intros s Hm; cbn [star] in Hm; [by exists s, []|].
    destruct (m a _ s) as [y|] eqn:E; [|by exists s, []]. injection Hm as ->.
    destruct (IHa _ _ Ho E) as (s1 & w1 & H1 & E1 & F1). cbv beta in H1.
    destruct (_ <? _)%nat; [|done]. destruct (IHn _ H1) as (s2 & w2 & H2 & E2 & F2).
    exists s2, (w1 ++ w2). rewrite E1, E2, app_assoc. split; [done|]. split; [done|]. by apply Forall_app.
  - destruct (IHa _ _ Ho Hm) as (s1 & w1 & H1 & E1 & F1). by eexists _, w1.
  - done.
  - cbn in Hm. destruct (prev s); [done|]. by exists s, [].
  - cbn in Hm. destruct (rest s) eqn:E; [|done]. exists s, []. done.
  - cbn in Hm. destruct (xorb _ _); [|done]. by exists s, [].
Qed.

Section eval_more.
Context {R : Type}.
Implicit Types (k : mst → option R) (w t : jsstr).

Lemma m_alts_cons a l k s : l ≠ [] →
  m (alts (a :: l)) k s = match m a k s with Some r => Some r | None => m (alts l) k s end.
Proof. by destruct l. Qed.

Lemma m_alts_none ws k b s cs :
  Forall (fun u => starts_with u s = false) ws → m (alts (map lit ws)) k (mkM b s cs) = None.
Proof.
  induction 1 as [|u ws Hu Hws IH]; [by destruct s|]. cbn [map].
  destruct ws as [|u' ws]; [by apply m_lit_none|].
  rewrite m_alts_cons by done. by rewrite m_lit_none.
Qed.

(** A choice of literals of which only [w] starts the text. *)
Lemma m_alts_lit l1 w l2 k b t cs :
  Forall (fun u => starts_with u (w ++ t) = false) (l1 ++ l2) →
  m (alts (map lit (l1 ++ w :: l2))) k (mkM b (w ++ t) cs) = k (mkM (after b w) t cs).
Proof.
  induction l1 as [|u l1 IH]; cbn [app map]; intros H.
  - destruct l2 as [|u l2]; [apply m_lit|]. cbn [map]. rewrite m_alts_cons by done.
    rewrite m_lit. change (lit u :: map lit l2) with (map lit (u :: l2)).
    rewrite m_alts_none by done. by destruct (k _).
  - apply Forall_cons in H as [Hu H]. rewrite m_alts_cons by by destruct l1.
    rewrite m_lit_none by done. by apply IH.
Qed.

Lemma m_cap_alts_lit n l1 w l2 k b t cs :
  Forall (fun u => starts_with u (w ++ t) = false) (l1 ++ l2) →
  m (Cap n (alts (map lit (l1 ++ w :: l2)))) k (mkM b (w ++ t) cs)
  = k (mkM (after b w) t (map_set n w cs)).
Proof. intros. rewrite m_cap, m_alts_lit by done. apply capture_app. Qed.

(** A run of a class whose pattern has an alternative that the run and what
    follows it never take. *)
Lemma m_star_alt_until f a k b w t cs :
  Forall (fun c => f c = true) w → stops f t →
  (∀ k' b' c' t' cs', f c' = true → m a k' (mkM b' (c' :: t') cs') = None) →
  (∀ k' b', m a k' (mkM b' t cs) = None) → refuses f k →
  m (Star (Alt (Chr f) a)) k (mkM b (w ++ t) cs) = k (mkM (after b w) t cs).
Proof.
  intros Hw Ht Ha Hat Hk. cbn [m].
  assert (Hn : (length w <= length (rest (mkM b (w ++ t) cs)))%nat) by (cbn; rewrite length_app; lia).
  revert Hn. generalize (length (rest (mkM b (w ++ t) cs))). intros n Hn. revert b n Hn.
  induction Hw as [|c w Hc Hw IH]; intros b n Hn.
  - cbn [app after star]. cbn [m rest caps]. destruct t as [|c t]; [by rewrite Hat|].
    rewrite Ht. by rewrite Hat.
  - cbn [star]. cbn [m rest caps app]. rewrite Hc. cbn [rest].
    replace (_ <? _)%nat with true by (symmetry; apply Nat.ltb_lt; cbn; lia).
    cbn [length] in Hn. destruct n as [|n]; [lia|]. rewrite IH by lia. cbn [after].
    destruct (k _) eqn:E; [done|]. rewrite Ha by done. by apply Hk.
Qed.

Lemma star_any_cons n k b c t cs :
  star (m (Chr (fun _ => true))) (S n) k (mkM b (c :: t) cs)
  = match star (m (Chr (fun _ => true))) n k (mkM (Some c) t cs) with
    | Some r => Some r
    | None => k (mkM b (c :: t) cs)
    end.
Proof.
  cbn [star]. change (m (Chr (fun _ => true)) ?k' (mkM b (c :: t) cs)) with (k' (mkM (Some c) t cs)).
  cbv beta. cbn [rest]. by replace (_ <? _)%nat with true by (symmetry; apply Nat.ltb_lt; cbn; lia).
Qed.

(** A greedy run over everything, where the continuation fails on every proper
    suffix of [v]. *)
Lemma star_any_longest k b u v cs n r :
  (length u < n)%nat →
  (∀ b' v1 c v2, v = v1 ++ c :: v2 → k (mkM b' v2 cs) = None) →
  k (mkM (after b u) v cs) = Some r →
  star (m (Chr (fun _ => true))) n k (mkM b (u ++ v) cs) = Some r.
Proof.
  intros Hn Hv E.
  assert (Hstar : ∀ n b' v1 c v2, v = v1 ++ c :: v2 →
            star (m (Chr (fun _ => true))) n k (mkM b' v2 cs) = None).
  { clear n Hn E. induction n as [|n IHn]; intros b' v1 c v2 Hs; [by eapply Hv|].
    destruct v2 as [|d v2]; [by eapply Hv|]. rewrite star_any_cons.
    rewrite (IHn (Some d) (v1 ++ [c]) d v2) by by rewrite <- app_assoc. by eapply Hv. }
  revert b n Hn E. induction u as [|c u IH]; intros b n Hn E; (destruct n as [|n]; [cbn in Hn; lia|]).
  - cbn [app after] in *. destruct v as [|c v]; [done|]. rewrite star_any_cons.
    by rewrite (Hstar n (Some c) [] c v).
  - cbn [app after] in *. rewrite star_any_cons. cbn [length] in Hn. by rewrite (IH (Some c) n) by (done || lia).
Qed.

Lemma m_cap_any_longest i k b u v cs r :
  u ≠ [] →
  (∀ b' v1 c v2 cs', v = v1 ++ c :: v2 → k (mkM b' v2 cs') = None) →
  k (mkM (after b u) v (map_set i u cs)) = Some r →
  m (Cap i (Plus (Chr (fun _ => true)))) k (mkM b (u ++ v) cs) = Some r.
Proof.
  intros Hu Hv E. rewrite m_cap. unfold Plus. change (m (Seq ?a ?b) ?k' ?s) with (m a (m b k') s).
  destruct u as [|c u]; [done|]. cbn [app].
  change (m (Chr (fun _ => true)) ?k' (mkM b (c :: u ++ v) cs)) with (k' (mkM (Some c) (u ++ v) cs)).
  cbn [m]. apply star_any_longest.
  - cbn. rewrite length_app. lia.
  - intros b' v1 d v2 Hs. unfold capture. by eapply Hv.
  - change (c :: u ++ v) with ((c :: u) ++ v). by rewrite capture_app.
Qed.
End eval_more.
