(* ===== verification/AdvancedCustom.v ===== *)
(** * Advanced custom channels (src/web/default/src/features/channels/lib/advanced-custom.ts)

    An advanced custom channel routes an incoming API path, for some models or
    for all of them, to an upstream path through a converter. This file models
    the configuration's data, its defaults and templates, its normalization, its
    JSON form, and the validator. Values have their declared TypeScript types;
    [undefined] is [None]. *)

From S2P Require Import Prelude JsNum Json.

Module AdvancedCustom.

(** ** Data (features/channels/types.ts) *)

Record AdvancedCustomRouteAuth := mkAuth {
  auth_type : option jsstr;
  auth_name : option jsstr;
  auth_value : option jsstr
}.

Record AdvancedCustomRoute := mkRoute {
  incoming_path : option jsstr;
  upstream_path : option jsstr;
  converter : option jsstr;
  models : option (list jsstr);
  auth : option AdvancedCustomRouteAuth
}.

Record AdvancedCustomConfig := mkConfig { advanced_routes : option (list AdvancedCustomRoute) }.

#[export] Instance Auth_eq_dec : EqDecision AdvancedCustomRouteAuth.
Proof. solve_decision. Defined.
#[export] Instance Route_eq_dec : EqDecision AdvancedCustomRoute.
Proof. solve_decision. Defined.

(** The converters; the code receives them as strings and checks that they are
    registered. *)
Definition c_none := js "none".
Definition c_anthropic_to_chat := js "anthropic_messages_to_openai_chat_completions".
Definition c_chat_to_anthropic := js "openai_chat_completions_to_anthropic_messages".
Definition c_chat_to_responses := js "openai_chat_completions_to_openai_responses".
Definition c_responses_to_chat := js "openai_responses_to_openai_chat_completions".
Definition c_responses_to_gemini := js "openai_responses_to_gemini_generate_content".
Definition c_gemini_to_chat := js "gemini_generate_content_to_openai_chat_completions".
Definition c_chat_to_gemini := js "openai_chat_completions_to_gemini_generate_content".

Definition AdvancedCustomConverter : list jsstr :=
  [c_none; c_anthropic_to_chat; c_chat_to_anthropic; c_chat_to_responses;
   c_responses_to_chat; c_responses_to_gemini; c_gemini_to_chat; c_chat_to_gemini].

Definition CHANNEL_TYPE_ADVANCED_CUSTOM : Z := 58.

(** Options are (value, label, trigger label). *)
Definition ADVANCED_CUSTOM_CONVERTER_OPTIONS : list (jsstr * jsstr * jsstr) :=
  [(c_none, js "Native forwarding", js "Native forwarding");
   (c_anthropic_to_chat, js "Anthropic Messages to OpenAI Chat", js "To OpenAI Chat");
   (c_chat_to_anthropic, js "OpenAI Chat to Anthropic Messages", js "To Anthropic Messages");
   (c_chat_to_responses, js "OpenAI Chat to OpenAI Responses", js "To OpenAI Responses");
   (c_responses_to_chat, js "OpenAI Responses to OpenAI Chat", js "To OpenAI Chat");
   (c_responses_to_gemini, js "OpenAI Responses to Gemini Generate Content",
    js "To Gemini Generate Content");
   (c_gemini_to_chat, js "Gemini Generate Content to OpenAI Chat", js "To OpenAI Chat");
   (c_chat_to_gemini, js "OpenAI Chat to Gemini Generate Content", js "To Gemini Generate Content")].

Definition ADVANCED_CUSTOM_AUTH_MODE_OPTIONS : list (jsstr * jsstr) :=
  [(js "default", js "Default Bearer"); (js "none", js "No Auth");
   (js "header", js "Header"); (js "query", js "Query")].

Definition ADVANCED_CUSTOM_INCOMING_PATH_OPTIONS : list (jsstr * jsstr) :=
  [(js "/v1/chat/completions", js "OpenAI Chat");
   (js "/v1/responses", js "OpenAI Responses");
   (js "/v1/responses/compact", js "OpenAI Responses Compact");
   (js "/v1/embeddings", js "OpenAI Embeddings");
   (js "/v1/images/generations", js "OpenAI Image Generations");
   (js "/v1/images/edits", js "OpenAI Image Edits");
   (js "/v1/completions", js "OpenAI Completions");
   (js "/v1/audio/speech", js "OpenAI Audio Speech");
   (js "/v1/audio/transcriptions", js "OpenAI Audio Transcriptions");
   (js "/v1/audio/translations", js "OpenAI Audio Translations");
   (js "/v1/rerank", js "OpenAI Rerank");
   (js "/v1/realtime", js "OpenAI Realtime");
   (js "/v1/messages", js "Claude Messages");
   (js "/v1beta/models/{model}:generateContent", js "Gemini Generate Content");
   (js "/v1beta/models/{model}:embedContent", js "Gemini Embed Content");
   (js "/v1beta/models/{model}:batchEmbedContents", js "Gemini Batch Embed Contents")].

Definition ADVANCED_CUSTOM_ROUTE_SUMMARY_LABELS : list (jsstr * jsstr) :=
  [(js "/v1/chat/completions", js "OpenAI Chat")].

Definition ADVANCED_CUSTOM_MODEL_REGEX_PREFIX : jsstr := js "re:".

Definition openAIChatPath := js "/v1/chat/completions".
Definition openAIResponsesPath := js "/v1/responses".
Definition claudeMessagesPath := js "/v1/messages".
Definition geminiGenerateContentPath := js "/v1beta/models/{model}:generateContent".

Definition bearerHeaderAuth : AdvancedCustomRouteAuth :=
  mkAuth (Some (js "header")) (Some (js "Authorization")) (Some (js "Bearer {api_key}")).
Definition apiKeyHeaderAuth : AdvancedCustomRouteAuth :=
  mkAuth (Some (js "header")) (Some (js "x-api-key")) (Some (js "{api_key}")).
Definition geminiQueryAuth : AdvancedCustomRouteAuth :=
  mkAuth (Some (js "query")) (Some (js "key")) (Some (js "{api_key}")).

(** ** Templates *)

Definition templateRoute (i u c : jsstr) (a : AdvancedCustomRouteAuth) : AdvancedCustomRoute :=
  mkRoute (Some i) (Some u) (Some c) None (Some a).

Definition templateOf (rs : list AdvancedCustomRoute) : AdvancedCustomConfig := mkConfig (Some rs).

(** (value, label, config). *)
Definition ADVANCED_CUSTOM_TEMPLATE_OPTIONS : list (jsstr * jsstr * AdvancedCustomConfig) :=
  [(js "official_openai_chat", js "Official OpenAI Chat", templateOf
     [templateRoute (js "/v1/chat/completions") (js "/v1/chat/completions") c_none bearerHeaderAuth]);
   (js "official_openai_responses", js "Official OpenAI Responses", templateOf
     [templateRoute (js "/v1/responses") (js "/v1/responses") c_none bearerHeaderAuth]);
   (js "official_openai_embeddings", js "Official OpenAI Embeddings", templateOf
     [templateRoute (js "/v1/embeddings") (js "/v1/embeddings") c_none bearerHeaderAuth]);
   (js "official_openai_images", js "Official OpenAI Images", templateOf
     [templateRoute (js "/v1/images/generations") (js "/v1/images/generations") c_none bearerHeaderAuth;
      templateRoute (js "/v1/images/edits") (js "/v1/images/edits") c_none bearerHeaderAuth]);
   (js "official_claude_messages", js "Official Claude Messages", templateOf
     [templateRoute (js "/v1/messages") (js "/v1/messages") c_none apiKeyHeaderAuth]);
   (js "official_gemini_native", js "Official Gemini Native", templateOf
     [templateRoute (js "/v1beta/models/{model}:generateContent")
        (js "/v1beta/models/{model}:generateContent") c_none geminiQueryAuth;
      templateRoute (js "/v1beta/models/{model}:embedContent")
        (js "/v1beta/models/{model}:embedContent") c_none geminiQueryAuth;
      templateRoute (js "/v1beta/models/{model}:batchEmbedContents")
        (js "/v1beta/models/{model}:batchEmbedContents") c_none geminiQueryAuth]);
   (js "official_gemini_from_openai_chat", js "Official Gemini from OpenAI Chat", templateOf
     [templateRoute (js "/v1/chat/completions") (js "/v1beta/models/{model}:generateContent")
        c_chat_to_gemini geminiQueryAuth])].

(** ** JSON form *)

Definition opt_field (k : string) (v : option json) : list (jsstr * json) :=
  match v with Some j => [(js k, j)] | None => [] end.

(** [JSON.stringify] drops properties that are [undefined]. *)
Definition encodeAuth (a : AdvancedCustomRouteAuth) : json :=
  JObj (opt_field "type" (JStr <$> auth_type a) ++ opt_field "name" (JStr <$> auth_name a)
        ++ opt_field "value" (JStr <$> auth_value a)).

Definition encodeRoute (r : AdvancedCustomRoute) : json :=
  JObj (opt_field "incoming_path" (JStr <$> incoming_path r)
        ++ opt_field "upstream_path" (JStr <$> upstream_path r)
        ++ opt_field "converter" (JStr <$> converter r)
        ++ opt_field "models" ((fun l => JArr (map JStr l)) <$> models r)
        ++ opt_field "auth" (encodeAuth <$> auth r)).

Definition encodeConfig (c : AdvancedCustomConfig) : json :=
  JObj (opt_field "advanced_routes" ((fun l => JArr (map encodeRoute l)) <$> advanced_routes c)).

(** Reading parsed JSON at the declared types: a missing or null string field is
    [undefined], and what is not an array counts as no array, as in the code's
    [Array.isArray] tests. [None] when a field has another type than declared. *)
Definition decodeString (v : option json) : option (option jsstr) :=
  match v with
  | None | Some JNull => Some None
  | Some (JStr s) => Some (Some s)
  | Some _ => None
  end.

Definition decodeModels (v : option json) : option (option (list jsstr)) :=
  match v with
  | Some (JArr l) => Some <$> mapM (fun j => match j with JStr s => Some s | _ => None end) l
  | _ => Some None
  end.

Definition decodeAuth (v : option json) : option (option AdvancedCustomRouteAuth) :=
  match v with
  | None | Some JNull => Some None
  | Some (JObj m) =>
      t ← decodeString (map_get (js "type") m);
      n ← decodeString (map_get (js "name") m);
      w ← decodeString (map_get (js "value") m);
      Some (Some (mkAuth t n w))
  | Some _ => None
  end.

Definition decodeRoute (j : json) : option AdvancedCustomRoute :=
  match j with
  | JObj m =>
      i ← decodeString (map_get (js "incoming_path") m);
      u ← decodeString (map_get (js "upstream_path") m);
      c ← decodeString (map_get (js "converter") m);
      ms ← decodeModels (map_get (js "models") m);
      a ← decodeAuth (map_get (js "auth") m);
      Some (mkRoute i u c ms a)
  | _ => None
  end.

Definition decodeConfig (m : list (jsstr * json)) : option AdvancedCustomConfig :=
  match map_get (js "advanced_routes") m with
  | Some (JArr l) => (fun rs => mkConfig (Some rs)) <$> mapM decodeRoute l
  | _ => Some (mkConfig None)
  end.

(** [JSON.parse(JSON.stringify(config))]. *)
Definition cloneAdvancedCustomConfig (c : AdvancedCustomConfig) : option AdvancedCustomConfig :=
  match JSON_parse (stringify compact (fun _ => []) 0 (encodeConfig c)) with
  | Some (JObj m) => decodeConfig m
  | _ => None
  end.

Definition templateConfig (templateKey : jsstr) : AdvancedCustomConfig :=
  match List.find (fun o => bool_decide (o.1.1 = templateKey)) ADVANCED_CUSTOM_TEMPLATE_OPTIONS with
  | Some o => o.2
  | None => match ADVANCED_CUSTOM_TEMPLATE_OPTIONS with o :: _ => o.2 | [] => mkConfig None end
  end.

Definition getAdvancedCustomTemplateConfig (templateKey : jsstr) : option AdvancedCustomConfig :=
  cloneAdvancedCustomConfig (templateConfig templateKey).

Definition createAdvancedCustomRoute : AdvancedCustomRoute :=
  mkRoute (Some openAIChatPath) (Some openAIChatPath) (Some c_none) None None.

Definition createAdvancedCustomConfig : AdvancedCustomConfig :=
  mkConfig (Some [createAdvancedCustomRoute]).

(** ** Converters and paths *)

Definition str_eqb (a b : jsstr) : bool := bool_decide (a = b).

Definition isConverterPathAllowed (incomingPath converter : jsstr) : bool :=
  if str_eqb converter c_none then true
  else if str_eqb converter c_anthropic_to_chat then str_eqb incomingPath (js "/v1/messages")
  else if str_eqb converter c_chat_to_anthropic || str_eqb converter c_chat_to_responses
          || str_eqb converter c_chat_to_gemini
  then str_eqb incomingPath (js "/v1/chat/completions")
  else if str_eqb converter c_responses_to_chat then str_eqb incomingPath (js "/v1/responses")
  else if str_eqb converter c_responses_to_gemini then str_eqb incomingPath (js "/v1/responses")
  else includes (js ":generateContent") incomingPath || includes (js ":streamGenerateContent") incomingPath.

Definition isAdvancedCustomConverter (value : jsstr) : bool :=
  existsb (fun o => str_eqb o.1.1 value) ADVANCED_CUSTOM_CONVERTER_OPTIONS.

Definition getAdvancedCustomIncomingPathOptions (converter : jsstr) : list (jsstr * jsstr) :=
  List.filter (fun o => isConverterPathAllowed o.1 converter) ADVANCED_CUSTOM_INCOMING_PATH_OPTIONS.

Definition getDefaultAdvancedCustomIncomingPath (converter : jsstr) : jsstr :=
  match getAdvancedCustomIncomingPathOptions converter with
  | o :: _ => str_or o.1 (js "/v1/chat/completions")
  | [] => js "/v1/chat/completions"
  end.

Definition isAdvancedCustomIncomingPathAllowed (incomingPath converter : jsstr) : bool :=
  isConverterPathAllowed incomingPath converter.

Definition getAdvancedCustomConverterOptions (incomingPath : jsstr) : list (jsstr * jsstr * jsstr) :=
  let normalizedIncomingPath := trim incomingPath in
  List.filter (fun o => str_eqb o.1.1 c_none || isConverterPathAllowed normalizedIncomingPath o.1.1)
    ADVANCED_CUSTOM_CONVERTER_OPTIONS.

Definition getAdvancedCustomIncomingPathLabel (value : jsstr) : jsstr :=
  match List.find (fun o => str_eqb o.1 value) ADVANCED_CUSTOM_INCOMING_PATH_OPTIONS with
  | Some o => str_or o.2 value
  | None => value
  end.

Definition getAdvancedCustomNativeAuth (incomingPath : jsstr) : AdvancedCustomRouteAuth :=
  if str_eqb incomingPath claudeMessagesPath then apiKeyHeaderAuth
  else if includes (js ":generateContent") incomingPath
          || includes (js ":streamGenerateContent") incomingPath
          || includes (js ":embedContent") incomingPath
          || includes (js ":batchEmbedContents") incomingPath
  then geminiQueryAuth
  else bearerHeaderAuth.

(** [{ upstream_path, auth }]. *)
Definition getAdvancedCustomConverterDefaults (converter incomingPath : jsstr) :
    jsstr * AdvancedCustomRouteAuth :=
  let normalizedIncomingPath :=
    str_or (trim incomingPath) (getDefaultAdvancedCustomIncomingPath converter) in
  if str_eqb converter c_none
  then (normalizedIncomingPath, getAdvancedCustomNativeAuth normalizedIncomingPath)
  else if str_eqb converter c_anthropic_to_chat || str_eqb converter c_gemini_to_chat
          || str_eqb converter c_responses_to_chat
  then (openAIChatPath, bearerHeaderAuth)
  else if str_eqb converter c_chat_to_responses then (openAIResponsesPath, bearerHeaderAuth)
  else if str_eqb converter c_chat_to_anthropic then (claudeMessagesPath, apiKeyHeaderAuth)
  else if str_eqb converter c_chat_to_gemini || str_eqb converter c_responses_to_gemini
  then (geminiGenerateContentPath, geminiQueryAuth)
  else (str_or normalizedIncomingPath openAIChatPath,
        getAdvancedCustomNativeAuth normalizedIncomingPath).

Definition getAdvancedCustomUpstreamPathPlaceholder (converter : jsstr)
    (incomingPath : option jsstr) : jsstr :=
  let incomingPath := default (getDefaultAdvancedCustomIncomingPath converter) incomingPath in
  (getAdvancedCustomConverterDefaults converter incomingPath).1.

(** ** Normalization *)

Definition opt_or (a : option jsstr) (b : jsstr) : jsstr := str_or (default [] a) b.

Definition getAdvancedCustomRouteUpstreamPath (r : AdvancedCustomRoute) : jsstr :=
  trim (opt_or (upstream_path r) []).

Definition normalizeAdvancedCustomRouteModels (ms : option (list jsstr)) : list jsstr :=
  match ms with
  | None => []
  | Some l => List.filter nonempty (map trim l)
  end.

Definition normalizeAdvancedCustomRoute (r : AdvancedCustomRoute) : AdvancedCustomRoute :=
  let ms := normalizeAdvancedCustomRouteModels (models r) in
  mkRoute (Some (opt_or (incoming_path r) []))
          (Some (getAdvancedCustomRouteUpstreamPath r))
          (Some (opt_or (converter r) c_none))
          (if (0 <? length ms)%nat then Some ms else None)
          ((fun a => mkAuth (auth_type a) (Some (opt_or (auth_name a) []))
                            (Some (opt_or (auth_value a) []))) <$> auth r).

Definition normalizeAdvancedCustomConfig (c : AdvancedCustomConfig) : AdvancedCustomConfig :=
  mkConfig (Some (match advanced_routes c with
                  | Some rs => map normalizeAdvancedCustomRoute rs
                  | None => []
                  end)).

(** What [parseAdvancedCustomConfig] returns: [null], a configuration, or a
    value that does not have the declared type. *)
Inductive parse_outcome :=
| Null
| Parsed (c : AdvancedCustomConfig)
| Untyped.

Definition parseAdvancedCustomConfig (value : option jsstr) : parse_outcome :=
  match value with
  | None => Null
  | Some s =>
      if negb (nonempty (trim s)) then Null
      else match JSON_parse s with
           | Some (JObj m) =>
               match decodeConfig m with
               | Some c => Parsed (normalizeAdvancedCustomConfig c)
               | None => Untyped
               end
           | _ => Null
           end
  end.

Definition stringifyAdvancedCustomConfig (c : AdvancedCustomConfig) : jsstr :=
  stringify indent2 (fun _ => []) 0 (encodeConfig (normalizeAdvancedCustomConfig c)).

Definition parseAdvancedCustomRouteModels (value : jsstr) : list jsstr :=
  set_of (List.filter nonempty (map trim (split_char 44 value))).

Inductive AdvancedCustomModelRuleKind := exact | regex.

#[export] Instance kind_eq_dec : EqDecision AdvancedCustomModelRuleKind.
Proof. solve_decision. Defined.

Definition getAdvancedCustomModelRuleKind (modelRule : jsstr) : AdvancedCustomModelRuleKind :=
  if starts_with ADVANCED_CUSTOM_MODEL_REGEX_PREFIX modelRule then regex else exact.

Definition getAdvancedCustomRegexModelPattern (modelRule : jsstr) : jsstr :=
  drop (length ADVANCED_CUSTOM_MODEL_REGEX_PREFIX) modelRule.

(** ** Validation *)

Record AdvancedCustomValidationError := mkError { message : jsstr; routeIndex : option nat }.

(** The entry of a path: the catch-all route and the models claimed so far. *)
Record path_state := mkPathState { catchAllIndex : option nat; claimed : list (jsstr * nat) }.

(** The loop over the models of one route: the models seen in the route and the
    models claimed for its path. *)
Fixpoint claimModels (routeIndex_ : nat) (seenInRoute : list jsstr) (st : list (jsstr * nat))
    (ms : list jsstr) : AdvancedCustomValidationError + list (jsstr * nat) :=
  match ms with
  | [] => inr st
  | model :: ms' =>
      if bool_decide (getAdvancedCustomModelRuleKind model = regex)
         && str_eqb (getAdvancedCustomRegexModelPattern model) []
      then inl (mkError (js "Model regex cannot be empty") (Some routeIndex_))
      else if set_has model seenInRoute
      then inl (mkError (js "Duplicate model in route models") (Some routeIndex_))
      else if map_has model st
      then inl (mkError (js "Route models must be unique for the same incoming path") (Some routeIndex_))
      else claimModels routeIndex_ (set_add seenInRoute model) (map_set model routeIndex_ st) ms'
  end.

(** The error, or the updated map of paths. *)
Definition validateAdvancedCustomRouteModels (routeIndex_ : nat) (incomingPath : jsstr)
    (ms : list jsstr) (byPath : list (jsstr * path_state)) :
    AdvancedCustomValidationError + list (jsstr * path_state) :=
  let state := default (mkPathState None []) (map_get incomingPath byPath) in
  if (length ms =? 0)%nat then
    match catchAllIndex state with
    | Some _ =>
        inl (mkError (js "Only one catch-all route is allowed for the same incoming path")
               (Some routeIndex_))
    | None => inr (map_set incomingPath (mkPathState (Some routeIndex_) (claimed state)) byPath)
    end
  else
    match catchAllIndex state with
    | Some _ =>
        inl (mkError (js "Catch-all route must be last for the same incoming path") (Some routeIndex_))
    | None =>
        match claimModels routeIndex_ [] (claimed state) ms with
        | inl e => inl e
        | inr st => inr (map_set incomingPath (mkPathState None st) byPath)
        end
    end.

Definition validateRouteAuth (a : option AdvancedCustomRouteAuth) : option jsstr :=
  match a with
  | None => None
  | Some a =>
      if bool_decide (auth_type a = Some (js "none")) then None
      else if negb (bool_decide (auth_type a = Some (js "header")))
              && negb (bool_decide (auth_type a = Some (js "query")))
      then Some (js "Auth type is invalid")
      else if negb (nonempty (trim (default [] (auth_name a)))) then Some (js "Auth name is required")
      else if negb (nonempty (trim (default [] (auth_value a)))) then Some (js "Auth value is required")
      else None
  end.

Section url.
(** The platform's URL parser: host and protocol of a parseable URL. *)
Context (URL : jsstr → option (jsstr * jsstr)).

Definition isFullHttpURLOrAbsolutePath (value : jsstr) : bool :=
  if starts_with (js "/") value then negb (starts_with (js "//") value)
  else match URL value with
       | Some (host, protocol) =>
           nonempty host && (str_eqb protocol (js "http:") || str_eqb protocol (js "https:"))
       | None => false
       end.

(** One turn of the loop over the routes. *)
Definition validateRoute (index : nat) (byPath : list (jsstr * path_state))
    (route : AdvancedCustomRoute) :
    AdvancedCustomValidationError + list (jsstr * path_state) :=
  let incomingPath := trim (default [] (incoming_path route)) in
  let upstreamPath := getAdvancedCustomRouteUpstreamPath route in
  let conv := opt_or (converter route) c_none in
  let routeModels := normalizeAdvancedCustomRouteModels (models route) in
  let err m := inl (mkError m (Some index)) in
  if negb (nonempty incomingPath) then err (js "Incoming path is required")
  else if negb (starts_with (js "/") incomingPath) then err (js "Incoming path must start with /")
  else if includes (js "?") incomingPath then err (js "Incoming path must not include query")
  else
    match validateAdvancedCustomRouteModels index incomingPath routeModels byPath with
    | inl e => inl e
    | inr byPath' =>
        if negb (nonempty upstreamPath) then err (js "Upstream path is required")
        else if negb (isFullHttpURLOrAbsolutePath upstreamPath)
        then err (js "Upstream path must be a full URL or a path starting with /")
        else if negb (isAdvancedCustomConverter conv) then err (js "Converter is not registered")
        else if negb (isConverterPathAllowed incomingPath conv)
        then err (js "Converter does not match incoming path")
        else match validateRouteAuth (auth route) with
             | Some e => err e
             | None => inr byPath'
             end
    end.

Fixpoint validateRoutes (index : nat) (byPath : list (jsstr * path_state))
    (routes : list AdvancedCustomRoute) : option AdvancedCustomValidationError :=
  match routes with
  | [] => None
  | route :: routes' =>
      match validateRoute index byPath route with
      | inl e => Some e
      | inr byPath' => validateRoutes (S index) byPath' routes'
      end
  end.

Definition validateAdvancedCustomConfig (config : option AdvancedCustomConfig) :
    option AdvancedCustomValidationError :=
  match config with
  | None => Some (mkError (js "Advanced custom configuration is required") None)
  | Some c =>
      let routes := default [] (advanced_routes (normalizeAdvancedCustomConfig c)) in
      if (length routes =? 0)%nat
      then Some (mkError (js "Advanced custom configuration requires at least one route") None)
      else validateRoutes 0 [] routes
  end.

Definition advancedCustomConfigUsesRelativeUpstreamPath (config : option AdvancedCustomConfig) : bool :=
  match config with
  | None => false
  | Some c =>
      existsb (fun r => starts_with (js "/") (getAdvancedCustomRouteUpstreamPath r))
        (default [] (advanced_routes (normalizeAdvancedCustomConfig c)))
  end.

(** [ADVANCED_CUSTOM_ROUTE_SUMMARY_LABELS[incomingPath] || ...]; a path is not
    the name of a property that objects inherit. *)
Definition getAdvancedCustomRouteSummaryLabel (route : AdvancedCustomRoute) : option jsstr :=
  let incomingPath := trim (default [] (incoming_path route)) in
  if negb (nonempty incomingPath) then None
  else Some (opt_or (map_get incomingPath ADVANCED_CUSTOM_ROUTE_SUMMARY_LABELS)
               (getAdvancedCustomIncomingPathLabel incomingPath)).

Record AdvancedCustomStats := mkStats {
  routeCount : nat; valid : bool; routeTypeLabels : list jsstr
}.

(** The loop that collects the labels, each once. *)
Definition collectLabels (routes : list AdvancedCustomRoute) : list jsstr :=
  foldl (fun labels route =>
           match getAdvancedCustomRouteSummaryLabel route with
           | Some label => if nonempty label && negb (set_has label labels)
                           then labels ++ [label] else labels
           | None => labels
           end) [] routes.

Definition getAdvancedCustomStats (value : option jsstr) : option AdvancedCustomStats :=
  match parseAdvancedCustomConfig value with
  | Null => Some (mkStats 0 false [])
  | Untyped => None
  | Parsed config =>
      let normalized := normalizeAdvancedCustomConfig config in
      let routes := default [] (advanced_routes normalized) in
      Some (mkStats (length routes)
              match validateAdvancedCustomConfig (Some normalized) with None => true | Some _ => false end
              (collectLabels routes))
  end.
End url.

(** ** Authentication editor *)

Definition getAdvancedCustomAuthMode (r : AdvancedCustomRoute) : jsstr :=
  opt_or (auth r ≫= auth_type) (js "default").

Definition buildAdvancedCustomAuth (mode : jsstr) (previousAuth : option AdvancedCustomRouteAuth) :
    option AdvancedCustomRouteAuth :=
  if str_eqb mode (js "default") then None
  else if str_eqb mode (js "none") then Some (mkAuth (Some (js "none")) None None)
  else if str_eqb mode (js "header") then
    Some (mkAuth (Some (js "header"))
            (Some (opt_or (previousAuth ≫= auth_name) (js "Authorization")))
            (Some (opt_or (previousAuth ≫= auth_value) (js "Bearer {api_key}"))))
  else
    Some (mkAuth (Some (js "query"))
            (Some (opt_or (previousAuth ≫= auth_name) (js "api_key")))
            (Some (opt_or (previousAuth ≫= auth_value) (js "{api_key}")))).

End AdvancedCustom.
