(* ===== verification/AdvancedRoutes.v ===== *)
(** * Advanced custom channels: lemmas and properties

    The JSON form of a configuration reads back as the configuration; the
    validator accepts exactly the configurations in which every route is well
    formed and compatible with the routes before it, and otherwise reports the
    first route that is not; the built-in templates and defaults are accepted. *)

From S2P Require Import Prelude JsNum Json AdvancedCustom.
Import AdvancedCustom.

Module AdvancedRoutes.

(** ** JSON form *)

Lemma decodeString_field (v : option jsstr) :
  decodeString (JStr <$> v) = Some v.
Proof. by destruct v. Qed.

Lemma mapM_strings (l : list jsstr) :
  mapM (fun j => match j with JStr s => Some s | _ => None end) (map JStr l) = Some l.
Proof. induction l as [|s l IH]; [done|]. cbn [map mapM mbind option_bind]. by rewrite IH. Qed.

Lemma decodeModels_field (v : option (list jsstr)) :
  decodeModels ((fun l => JArr (map JStr l)) <$> v) = Some v.
Proof. destruct v; [|done]. unfold decodeModels. cbn [fmap option_fmap option_map]. by rewrite mapM_strings. Qed.

Lemma decodeAuth_field (v : option AdvancedCustomRouteAuth) :
  decodeAuth (encodeAuth <$> v) = Some v.
Proof. by destruct v as [[[] [] []]|]. Qed.

Lemma route_fields (i u c ms a : option json) :
  let m := opt_field "incoming_path" i ++ opt_field "upstream_path" u
           ++ opt_field "converter" c ++ opt_field "models" ms ++ opt_field "auth" a in
  map_get (js "incoming_path") m = i ∧ map_get (js "upstream_path") m = u
  ∧ map_get (js "converter") m = c ∧ map_get (js "models") m = ms ∧ map_get (js "auth") m = a
  ∧ obj_of m = m.
Proof. destruct i, u, c, ms, a; repeat split. Qed.

Lemma decodeRoute_encode r : decodeRoute (encodeRoute r) = Some r.
Proof.
  unfold decodeRoute, encodeRoute.
  pose proof (route_fields (JStr <$> incoming_path r) (JStr <$> upstream_path r)
    (JStr <$> converter r) ((fun l => JArr (map JStr l)) <$> models r)
    (encodeAuth <$> auth r)) as (Hi & Hu & Hc & Hm & Ha & _).
  rewrite Hi, Hu, Hc, Hm, Ha, !decodeString_field, decodeModels_field, decodeAuth_field.
  by destruct r.
Qed.

Lemma mapM_routes l : mapM decodeRoute (map encodeRoute l) = Some l.
Proof.
  induction l as [|r l IH]; [done|]. cbn [map mapM]. rewrite decodeRoute_encode.
  cbn [mbind option_bind]. by rewrite IH.
Qed.

Lemma decodeConfig_encode c :
  match encodeConfig c with JObj m => decodeConfig m | _ => None end = Some c.
Proof.
  destruct c as [[l|]]; [|done]. unfold encodeConfig, decodeConfig.
  cbn [advanced_routes fmap option_fmap option_map opt_field].
  cbn [map_get]. rewrite decide_True by done.
  by rewrite mapM_routes.
Qed.

(** A value [JSON.stringify] and [JSON.parse] carry unchanged. *)
Definition carried (j : json) : Prop := no_num j = true ∧ js_ok j.

Lemma carried_strings l : carried (JArr (map JStr l)).
Proof.
  split; [by induction l|]. apply js_ok_arr, Forall_fmap, Forall_true. done.
Qed.

Lemma carried_auth a : carried (encodeAuth a).
Proof. by destruct a as [[] [] []]. Qed.

Lemma carried_field k (v : option json) :
  (∀ j, v = Some j → carried j) →
  forallb (fun kv => no_num kv.2) (opt_field k v) = true
  ∧ Forall (fun kv => js_ok kv.2) (opt_field k v).
Proof.
  destruct v as [j|]; intros H; [|split; [done|constructor]].
  destruct (H j eq_refl) as [H1 H2]. simpl. rewrite H1. split; [done|].
  by repeat constructor.
Qed.

Lemma carried_str (v : option jsstr) j : JStr <$> v = Some j → carried j.
Proof. destruct v; intros [= <-]. by split. Qed.

Lemma carried_route r : carried (encodeRoute r).
Proof.
  pose proof (carried_field "incoming_path" _ (carried_str (incoming_path r))) as [N1 O1].
  pose proof (carried_field "upstream_path" _ (carried_str (upstream_path r))) as [N2 O2].
  pose proof (carried_field "converter" _ (carried_str (converter r))) as [N3 O3].
  destruct (carried_field "models" ((fun l => JArr (map JStr l)) <$> models r)) as [N4 O4].
  { intros j. destruct (models r); intros [= <-]. apply carried_strings. }
  destruct (carried_field "auth" (encodeAuth <$> auth r)) as [N5 O5].
  { intros j. destruct (auth r); intros [= <-]. apply carried_auth. }
  split.
  - unfold encodeRoute. cbn [no_num]. by rewrite !forallb_app, N1, N2, N3, N4, N5.
  - apply js_ok_obj; [apply route_fields|]. by repeat apply Forall_app_2.
Qed.

Lemma carried_config c : carried (encodeConfig c).
Proof.
  destruct c as [[l|]]; [|done]. split.
  - cbn. rewrite andb_true_r. induction l as [|r l IH]; [done|].
    cbn [map forallb]. by rewrite (proj1 (carried_route r)), IH.
  - apply js_ok_obj; [done|]. repeat constructor.
    apply js_ok_arr, Forall_fmap, Forall_true. intros r. apply carried_route.
Qed.

Lemma config_text_reads_back lay `{!LayoutOk lay} pn c :
  match JSON_parse (stringify lay pn 0 (encodeConfig c)) with
  | Some (JObj m) => decodeConfig m
  | _ => None
  end = Some c.
Proof.
  destruct (carried_config c) as [Hn Ho]. rewrite JSON_parse_stringify by done.
  apply (decodeConfig_encode c).
Qed.

(** ** Normalization *)

Lemma normalize_models_idem ms :
  normalizeAdvancedCustomRouteModels (Some (normalizeAdvancedCustomRouteModels ms))
  = normalizeAdvancedCustomRouteModels ms.
Proof.
  destruct ms as [l|]; [|done]. cbn. induction l as [|m l IH]; [done|].
  cbn. destruct (nonempty (trim m)) eqn:E; [|done]. cbn. by rewrite trim_idem, E, IH.
Qed.

Lemma opt_or_idem a b : opt_or (Some (opt_or a b)) b = opt_or a b.
Proof. unfold opt_or, str_or. simpl. destruct a as [[|]|]; [..|]; by destruct b. Qed.

Lemma normalize_route_idem r :
  normalizeAdvancedCustomRoute (normalizeAdvancedCustomRoute r) = normalizeAdvancedCustomRoute r.
Proof.
  unfold normalizeAdvancedCustomRoute. cbn [incoming_path upstream_path converter models auth].
  rewrite !opt_or_idem. f_equal.
  - unfold getAdvancedCustomRouteUpstreamPath. cbn [upstream_path]. f_equal.
    rewrite <- (trim_idem (opt_or (upstream_path r) [])) at 2. f_equal.
    unfold opt_or at 1, str_or. cbn [default]. by destruct (trim _).
  - destruct (0 <? length (normalizeAdvancedCustomRouteModels (models r)))%nat eqn:E;
      [by rewrite normalize_models_idem, E|done].
  - destruct (auth r) as [[]|]; [|done]. cbn. by rewrite !opt_or_idem.
Qed.

Lemma normalize_idem c :
  normalizeAdvancedCustomConfig (normalizeAdvancedCustomConfig c) = normalizeAdvancedCustomConfig c.
Proof.
  destruct c as [[l|]]; [|done]. unfold normalizeAdvancedCustomConfig. cbn [advanced_routes].
  do 2 f_equal. rewrite map_map. apply map_ext. apply normalize_route_idem.
Qed.

(** A configuration that is printed for the channel's settings is read back
    as the normalized configuration, and normalizing is idempotent, so that
    opening and saving the editor again changes nothing; cloning a configuration
    through its JSON text is the identity. *)
Theorem config_roundtrip c :
  let n := normalizeAdvancedCustomConfig c in
  parseAdvancedCustomConfig (Some (stringifyAdvancedCustomConfig c)) = Parsed n
  ∧ stringifyAdvancedCustomConfig n = stringifyAdvancedCustomConfig c
  ∧ cloneAdvancedCustomConfig c = Some c.
Proof.
  intros n. subst n. split; [|split].
  - unfold parseAdvancedCustomConfig.
    replace (negb (nonempty (trim _))) with false.
    + pose proof (config_text_reads_back indent2 (fun _ => []) (normalizeAdvancedCustomConfig c)) as H.
      unfold stringifyAdvancedCustomConfig. destruct (JSON_parse _) as [[]|]; try done.
      rewrite H. by rewrite normalize_idem.
    + symmetry. apply negb_false_iff, (trim_not_blank _ 123%N); [|done]. left.
  - unfold stringifyAdvancedCustomConfig. by rewrite normalize_idem.
  - apply config_text_reads_back, _.
Qed.

(** ** What the validator promises *)

Definition route_path (r : AdvancedCustomRoute) : jsstr := trim (default [] (incoming_path r)).
Definition route_models (r : AdvancedCustomRoute) : list jsstr :=
  normalizeAdvancedCustomRouteModels (models r).

Definition blank (v : option jsstr) : Prop := trim (default [] v) = [].

Definition auth_ok (a : option AdvancedCustomRouteAuth) : Prop :=
  match a with
  | None => True
  | Some a =>
      auth_type a = Some (js "none")
      ∨ (auth_type a = Some (js "header") ∨ auth_type a = Some (js "query"))
        ∧ ¬ blank (auth_name a) ∧ ¬ blank (auth_value a)
  end.

(** A later route of a path is compatible with an earlier one: the earlier one
    is no catch-all and claims none of the later one's models. *)
Definition compatible (earlier : list AdvancedCustomRoute) (r : AdvancedCustomRoute) : Prop :=
  ∀ r', r' ∈ earlier → route_path r' = route_path r →
    route_models r' ≠ [] ∧ ∀ m, m ∈ route_models r' → m ∉ route_models r.

Section validator.
Context (URL : jsstr → option (jsstr * jsstr)).

Definition upstream_ok (u : jsstr) : Prop :=
  (∃ t, u = js "/" ++ t ∧ ¬ ∃ t', u = js "//" ++ t')
  ∨ u ≠ [] ∧ ¬ (∃ t, u = js "/" ++ t) ∧ ∃ host protocol, URL u = Some (host, protocol) ∧ host ≠ []
      ∧ (protocol = js "http:" ∨ protocol = js "https:").

Record route_ok (r : AdvancedCustomRoute) : Prop := {
  ok_path : ∃ t, route_path r = js "/" ++ t;
  ok_query : 63%N ∉ route_path r;
  ok_models : NoDup (route_models r);
  ok_regex : js "re:" ∉ route_models r;
  ok_upstream : upstream_ok (trim (default [] (upstream_path r)));
  ok_converter : opt_or (converter r) c_none ∈ AdvancedCustomConverter;
  ok_match : isConverterPathAllowed (route_path r) (opt_or (converter r) c_none) = true;
  ok_auth : auth_ok (auth r)
}.

(** ** The checks of one route *)

Lemma opt_or_nil v : opt_or v [] = default [] v.
Proof. by destruct v as [[]|]. Qed.

Lemma auth_check a : validateRouteAuth a = None ↔ auth_ok a.
Proof.
  destruct a as [[t n v]|]; [|done]. unfold validateRouteAuth, auth_ok, blank.
  cbn [auth_type auth_name auth_value].
  generalize (js "none"), (js "header"), (js "query"). intros a b c.
  repeat case_bool_decide; cbn [negb andb]; destruct (trim (default [] n)), (trim (default [] v));
    cbn; split; intuition congruence.
Qed.

Lemma upstream_check u :
  nonempty u = true ∧ isFullHttpURLOrAbsolutePath URL u = true ↔ upstream_ok u.
Proof.
  rewrite nonempty_true.
  unfold isFullHttpURLOrAbsolutePath, upstream_ok, str_eqb.
  pose proof (starts_with_spec (js "/") u) as H1. pose proof (starts_with_spec (js "//") u) as H2.
  destruct (starts_with (js "/") u).
  - destruct (proj1 H1 eq_refl) as [t Ht]. rewrite negb_true_iff, <- not_true_iff_false, H2.
    split; [intros [_ ?]; left; eauto|]. intros [(_ & _ & ?)|(_ & ? & _)]; [|naive_solver].
    split; [by rewrite Ht|done].
  - assert (Hn : ¬ ∃ t, u = js "/" ++ t) by (rewrite <- H1; done).
    destruct (URL u) as [[h p]|]; [|naive_solver].
    rewrite andb_true_iff, orb_true_iff, !bool_decide_eq_true, nonempty_true. naive_solver.
Qed.

Lemma converter_check c : isAdvancedCustomConverter c = true ↔ c ∈ AdvancedCustomConverter.
Proof.
  unfold isAdvancedCustomConverter, AdvancedCustomConverter, ADVANCED_CUSTOM_CONVERTER_OPTIONS, str_eqb.
  cbn [existsb fst]. rewrite !orb_true_iff, !bool_decide_eq_true, !elem_of_cons, elem_of_nil.
  intuition congruence.
Qed.

Lemma empty_regex m :
  bool_decide (getAdvancedCustomModelRuleKind m = regex)
  && str_eqb (getAdvancedCustomRegexModelPattern m) [] = true ↔ m = js "re:".
Proof.
  unfold getAdvancedCustomModelRuleKind, str_eqb, getAdvancedCustomRegexModelPattern.
  rewrite andb_true_iff, !bool_decide_eq_true. split.
  - intros [Hk Hp]. destruct (starts_with _ m) eqn:E; [|done].
    apply starts_with_spec in E as [t ->]. by rewrite drop_app_length in Hp; subst.
  - intros ->. done.
Qed.

(** The loop over a route's models succeeds exactly on fresh, distinct models,
    and then claims them. *)
Lemma claimModels_spec i seen st ms :
  match claimModels i seen st ms with
  | inr st' => (NoDup ms ∧ js "re:" ∉ ms ∧ ∀ m, m ∈ ms → m ∉ seen ∧ m ∉ st.*1)
               ∧ ∀ m, m ∈ st'.*1 ↔ m ∈ st.*1 ∨ m ∈ ms
  | inl e => routeIndex e = Some i
             ∧ ¬ (NoDup ms ∧ js "re:" ∉ ms ∧ ∀ m, m ∈ ms → m ∉ seen ∧ m ∉ st.*1)
  end.
Proof.
  revert seen st. induction ms as [|m ms IH]; intros seen st; cbn [claimModels].
  { split; [|set_solver]. split; [constructor|]. set_solver. }
  pose proof (empty_regex m) as He.
  destruct (bool_decide _ && _); [split; [done|]; rewrite (proj1 He eq_refl); set_solver|].
  assert (Hre : m ≠ js "re:") by (intros ->; by discriminate (proj2 He eq_refl)). clear He.
  pose proof (set_has_spec m seen) as Hs. destruct (set_has m seen); [split; [done|]; set_solver|].
  pose proof (map_has_spec m st) as Hm. destruct (map_has m st); [split; [done|]; set_solver|].
  assert (Hms : m ∉ seen) by (rewrite <- Hs; done).
  assert (Hmt : m ∉ st.*1) by (rewrite <- Hm; done).
  specialize (IH (set_add seen m) (map_set m i st)).
  assert (Hiff : (NoDup (m :: ms) ∧ js "re:" ∉ m :: ms ∧
                  ∀ m0, m0 ∈ m :: ms → m0 ∉ seen ∧ m0 ∉ st.*1) ↔
     (NoDup ms ∧ js "re:" ∉ ms ∧ ∀ m0, m0 ∈ ms → m0 ∉ set_add seen m ∧ m0 ∉ (map_set m i st).*1)).
  { rewrite NoDup_cons. setoid_rewrite elem_of_keys_map_set. setoid_rewrite elem_of_set_add.
    setoid_rewrite elem_of_cons. split; [|set_solver].
    intros ([? ?] & ? & ?). split; [done|]. split; [set_solver|]. intros m0 Hm0.
    destruct (decide (m0 = m)); set_solver. }
  destruct (claimModels _ _ _ ms) as [e|st']; destruct IH as [IH1 IH2].
  - split; [done|]. by rewrite Hiff.
  - rewrite Hiff. split; [done|]. intros m0. rewrite IH2, elem_of_keys_map_set. set_solver.
Qed.

(** ** The bookkeeping per path *)

Definition entry (byPath : list (jsstr * path_state)) (p : jsstr) : path_state :=
  default (mkPathState None []) (map_get p byPath).

(** The map describes the routes validated so far. *)
Definition tracks (earlier : list AdvancedCustomRoute) (byPath : list (jsstr * path_state)) : Prop :=
  ∀ p, (catchAllIndex (entry byPath p) = None ↔
          ∀ r, r ∈ earlier → route_path r = p → route_models r ≠ [])
     ∧ ∀ m, m ∈ (claimed (entry byPath p)).*1 ↔
          ∃ r, r ∈ earlier ∧ route_path r = p ∧ m ∈ route_models r.

Lemma tracks_nil : tracks [] [].
Proof. intros p. cbn. split; [|intros m]; split; set_solver. Qed.

Lemma entry_set_eq byPath p st : entry (map_set p st byPath) p = st.
Proof. unfold entry. by rewrite map_get_set_eq. Qed.
Lemma entry_set_ne byPath p q st : q ≠ p → entry (map_set p st byPath) q = entry byPath q.
Proof. intros H. unfold entry. by rewrite map_get_set_ne. Qed.

(** Recording a route [r] in the entry of its path. *)
Lemma tracks_snoc earlier byPath r st :
  tracks earlier byPath →
  (catchAllIndex st = None ↔
     catchAllIndex (entry byPath (route_path r)) = None ∧ route_models r ≠ []) →
  (∀ m, m ∈ (claimed st).*1 ↔
     m ∈ (claimed (entry byPath (route_path r))).*1 ∨ m ∈ route_models r) →
  tracks (earlier ++ [r]) (map_set (route_path r) st byPath).
Proof.
  intros Ht Hc Hm p. destruct (decide (p = route_path r)) as [->|Hp].
  - rewrite entry_set_eq. destruct (Ht (route_path r)) as [Ht1 Ht2]. split.
    + rewrite Hc, Ht1. set_solver.
    + intros m. rewrite Hm, Ht2. set_solver.
  - rewrite entry_set_ne by done. destruct (Ht p) as [Ht1 Ht2]. split.
    + rewrite Ht1. set_solver.
    + intros m. rewrite Ht2. set_solver.
Qed.

Lemma models_check i earlier byPath r :
  tracks earlier byPath →
  match validateAdvancedCustomRouteModels i (route_path r) (route_models r) byPath with
  | inr byPath' => (NoDup (route_models r) ∧ js "re:" ∉ route_models r ∧ compatible earlier r)
                   ∧ tracks (earlier ++ [r]) byPath'
  | inl e => routeIndex e = Some i
             ∧ ¬ (NoDup (route_models r) ∧ js "re:" ∉ route_models r ∧ compatible earlier r)
  end.
Proof.
  intros Ht. destruct (Ht (route_path r)) as [Ht1 Ht2].
  pose proof (tracks_snoc earlier byPath r) as Hs. specialize (Hs) with (1 := Ht).
  unfold validateAdvancedCustomRouteModels. fold (entry byPath (route_path r)).
  destruct (route_models r) as [|m ms] eqn:Er; cbn [length Nat.eqb].
  - destruct (catchAllIndex _) eqn:E; cbn [catchAllIndex].
    + split; [done|]. intros (_ & _ & Hc).
      enough (Some n = None) by done. apply Ht1. intros r' Hr' Hp. by apply Hc.
    + split.
      * split; [constructor|]. split; [set_solver|]. intros r' Hr' Hp. rewrite Er.
        split; [|set_solver]. by apply Ht1.
      * apply Hs; cbn; [split; [done|]; intros [_ ?]; done|]. intros m. set_solver.
  - rewrite <- Er in *. destruct (catchAllIndex _) eqn:E.
    + split; [done|]. intros (_ & _ & Hc).
      enough (Some n = None) by done. apply Ht1. intros r' Hr' Hp. by apply Hc.
    + pose proof (claimModels_spec i [] (claimed (entry byPath (route_path r))) (route_models r)) as H.
      assert (Hiff : compatible earlier r ↔
        ∀ m, m ∈ route_models r → m ∉ [] ∧ m ∉ (claimed (entry byPath (route_path r))).*1).
      { setoid_rewrite Ht2. pose proof (proj1 Ht1 eq_refl). unfold compatible. set_solver. }
      destruct (claimModels _ _ _ _) as [e|st']; rewrite Hiff; destruct H as [H1 H2]; split; try done.
      apply Hs; cbn; [|done]. by rewrite Er.
Qed.

Lemma normalized_path r : route_path (normalizeAdvancedCustomRoute r) = route_path r.
Proof. unfold route_path. cbn. by rewrite opt_or_nil. Qed.

Lemma normalized_models r : route_models (normalizeAdvancedCustomRoute r) = route_models r.
Proof.
  unfold route_models, normalizeAdvancedCustomRoute. cbn [models].
  destruct (normalizeAdvancedCustomRouteModels (models r)) eqn:E; [done|].
  cbn [length Nat.ltb Nat.leb]. rewrite <- E. apply normalize_models_idem.
Qed.

Lemma normalized_upstream r :
  getAdvancedCustomRouteUpstreamPath (normalizeAdvancedCustomRoute r)
  = trim (default [] (upstream_path r)).
Proof.
  unfold getAdvancedCustomRouteUpstreamPath, normalizeAdvancedCustomRoute,
    getAdvancedCustomRouteUpstreamPath. cbn [upstream_path].
  rewrite !opt_or_nil. cbn [default]. apply trim_idem.
Qed.

Lemma normalized_converter r :
  opt_or (converter (normalizeAdvancedCustomRoute r)) c_none = opt_or (converter r) c_none.
Proof. apply opt_or_idem. Qed.

Lemma normalized_auth r :
  validateRouteAuth (auth (normalizeAdvancedCustomRoute r)) = None ↔ auth_ok (auth r).
Proof.
  rewrite auth_check. destruct r as [? ? ? ? [[t n v]|]]; [|done].
  unfold auth_ok, blank. cbn. by rewrite !opt_or_nil.
Qed.

(** Closes the case of a failed check against the record of requirements. *)
Ltac refuse := split; [done|]; intros [[? ? ? ? ? ? ? ?] _]; 
  first [congruence | tauto | enough (false = true) by done; tauto].

Lemma validateRoute_spec i earlier byPath r :
  tracks earlier byPath →
  match validateRoute URL i byPath (normalizeAdvancedCustomRoute r) with
  | inr byPath' => (route_ok r ∧ compatible earlier r) ∧ tracks (earlier ++ [r]) byPath'
  | inl e => routeIndex e = Some i ∧ ¬ (route_ok r ∧ compatible earlier r)
  end.
Proof.
  intros Ht. unfold validateRoute. fold (route_path (normalizeAdvancedCustomRoute r)).
  fold (route_models (normalizeAdvancedCustomRoute r)).
  rewrite normalized_path, normalized_models, normalized_upstream, normalized_converter.
  pose proof (nonempty_true (route_path r)) as H0.
  pose proof (starts_with_spec (js "/") (route_path r)) as H1.
  pose proof (includes_char 63 (route_path r)) as H2. change [63%N] with (js "?") in H2.
  pose proof (models_check i earlier byPath r Ht) as H3.
  pose proof (upstream_check (trim (default [] (upstream_path r)))) as H4.
  pose proof (converter_check (opt_or (converter r) c_none)) as H5.
  pose proof (normalized_auth r) as H6.
  destruct (nonempty (route_path r)); cbn [negb];
    [|split; [done|]; intros [[[t Hp]] _]; rewrite Hp in H0; by enough (false = true); [|apply H0]].
  destruct (starts_with _ (route_path r)); cbn [negb]; [|refuse].
  destruct (includes _ (route_path r)); [refuse|].
  destruct (validateAdvancedCustomRouteModels _ _ _ _) as [e|byPath'];
    destruct H3 as [H3 H3']; [by split; [|intros [[] ?]; tauto]|].
  destruct (nonempty (trim _)); cbn [negb]; [|refuse].
  destruct (isFullHttpURLOrAbsolutePath _ _); cbn [negb]; [|refuse].
  destruct (isAdvancedCustomConverter _); cbn [negb]; [|refuse].
  destruct (isConverterPathAllowed _ _) eqn:H7; cbn [negb]; [|refuse].
  destruct (validateRouteAuth _);
    [split; [done|]; intros [[] _]; destruct H6 as [_ H6]; by discriminate H6|].
  split; [|done]. split; [|tauto]. split; tauto || (rewrite <- ?H2; done) || (by rewrite <- H1).
Qed.

(** The routes of a list that the requirements hold for, up to the first failure. *)
Definition good (rs : list AdvancedCustomRoute) (i : nat) : Prop :=
  ∃ r, rs !! i = Some r ∧ route_ok r ∧ compatible (take i rs) r.

Lemma validateRoutes_spec earlier byPath rs :
  tracks earlier byPath →
  match validateRoutes URL (length earlier) byPath (map normalizeAdvancedCustomRoute rs) with
  | None => ∀ i, (length earlier <= i < length (earlier ++ rs))%nat → good (earlier ++ rs) i
  | Some e => ∃ i, routeIndex e = Some i ∧ (length earlier <= i < length (earlier ++ rs))%nat
                   ∧ ¬ good (earlier ++ rs) i
                   ∧ ∀ j, (length earlier <= j < i)%nat → good (earlier ++ rs) j
  end.
Proof.
  revert earlier byPath. induction rs as [|r rs IH]; intros earlier byPath Ht;
    cbn [map validateRoutes].
  { intros i Hi. rewrite length_app in Hi. simpl in Hi. lia. }
  pose proof (validateRoute_spec (length earlier) earlier byPath r Ht) as H.
  assert (Hr : (earlier ++ r :: rs) !! length earlier = Some r) by by apply list_lookup_middle.
  assert (Hd : take (length earlier) (earlier ++ r :: rs) = earlier) by by rewrite take_app_length.
  destruct (validateRoute _ _ _ _) as [e|byPath']; destruct H as [H1 H2].
  - exists (length earlier). split; [done|]. split; [rewrite length_app; simpl; lia|].
    split; [|lia]. intros (r' & Hr' & Hg). rewrite Hd in Hg. by simplify_eq.
  - specialize (IH (earlier ++ [r]) byPath' H2).
    rewrite length_app, Nat.add_1_r, <- app_assoc in IH. cbn [app] in IH.
    assert (Hg : good (earlier ++ r :: rs) (length earlier)).
    { exists r. rewrite Hd. done. }
    destruct (validateRoutes _ _ _ _) as [e|].
    + destruct IH as (i & ? & ? & ? & Hall). exists i. split; [done|]. split; [lia|]. split; [done|].
      intros j Hj. destruct (decide (j = length earlier)) as [->|]; [done|]. apply Hall. lia.
    + intros i Hi. destruct (decide (i = length earlier)) as [->|]; [done|]. apply IH. lia.
Qed.

(** C18: The validator of a configuration is exact. It accepts exactly the
    configurations with at least one route in which every route is well formed
    (an absolute incoming path without query, distinct models without an empty
    regular expression, an absolute upstream path or HTTP URL, a registered
    converter that fits the incoming path, complete authentication) and
    compatible with the earlier routes of its path; otherwise the reported index
    is that of the first route that is not. *)
Theorem validator_exact c :
  let rs := default [] (advanced_routes c) in
  match validateAdvancedCustomConfig URL (Some c) with
  | None => rs ≠ [] ∧ ∀ i, (i < length rs)%nat → good rs i
  | Some e => rs = [] ∧ routeIndex e = None
              ∨ ∃ i, routeIndex e = Some i ∧ (i < length rs)%nat ∧ ¬ good rs i
                     ∧ ∀ j, (j < i)%nat → good rs j
  end.
Proof.
  intros rs. unfold validateAdvancedCustomConfig.
  replace (default [] (advanced_routes (normalizeAdvancedCustomConfig c)))
    with (map normalizeAdvancedCustomRoute rs) by (subst rs; by destruct c as [[]]).
  pose proof (validateRoutes_spec [] [] rs tracks_nil) as H. cbn [length app] in H.
  rewrite length_map. destruct rs as [|r rs]; [by left|]. cbn [length Nat.eqb].
  destruct (validateRoutes _ _ _ _) as [e|].
  - right. destruct H as (i & ? & ? & ? & Hall). exists i. split; [done|]. split; [cbn in *; lia|].
    split; [done|]. intros j Hj. apply Hall. lia.
  - split; [done|]. intros i Hi. apply H. cbn in *. lia.
Qed.

(** ** Built-in configurations *)

(** Every built-in template and the initial configuration pass the
    validator, whatever the URL parser does, and a template is what its key
    returns. *)
Theorem templates_valid key :
  (∃ c, getAdvancedCustomTemplateConfig key = Some c
        ∧ validateAdvancedCustomConfig URL (Some c) = None
        ∧ advancedCustomConfigUsesRelativeUpstreamPath (Some c) = true)
  ∧ validateAdvancedCustomConfig URL (Some createAdvancedCustomConfig) = None.
Proof.
  split; [|vm_compute; done]. exists (templateConfig key). split.
  - apply config_text_reads_back, _.
  - unfold templateConfig, ADVANCED_CUSTOM_TEMPLATE_OPTIONS. cbn [List.find fst].
    repeat case_bool_decide; split; vm_compute; done.
Qed.

(** A route the editor makes from a converter, an incoming path and the defaults
    of both. *)
Definition default_route (conv path : jsstr) : AdvancedCustomRoute :=
  let d := getAdvancedCustomConverterDefaults conv path in
  mkRoute (Some path) (Some d.1) (Some conv) None (Some d.2).

(** For every registered converter and every incoming path the editor
    offers for it, the route made of the converter's default upstream path and
    authentication passes the validator. *)
Theorem converter_defaults_valid conv path :
  conv ∈ AdvancedCustomConverter →
  path ∈ (getAdvancedCustomIncomingPathOptions conv).*1 →
  validateAdvancedCustomConfig URL (Some (mkConfig (Some [default_route conv path]))) = None.
Proof.
  intros Hc. unfold AdvancedCustomConverter in Hc.
  repeat (apply elem_of_cons in Hc as [->|Hc];
          [match goal with |- context [(getAdvancedCustomIncomingPathOptions ?c).*1] =>
             let l := eval vm_compute in (getAdvancedCustomIncomingPathOptions c).*1 in
             change (getAdvancedCustomIncomingPathOptions c).*1 with l end;
           intros Hp; repeat (apply elem_of_cons in Hp as [->|Hp]; [vm_compute; done|]);
           by apply elem_of_nil in Hp|]).
  by apply elem_of_nil in Hc.
Qed.
End validator.

Lemma converter_defaults_valid_witness :
  validateAdvancedCustomConfig (fun _ => None)
    (Some (mkConfig (Some [default_route c_gemini_to_chat geminiGenerateContentPath]))) = None.
Proof.
  apply converter_defaults_valid.
  - unfold AdvancedCustomConverter. do 6 right. left.
  - vm_compute. left.
Defined.
End AdvancedRoutes.
