(* ===== verification/BillingExpr.v ===== *)
(** * Billing expressions (src/web/default/src/features/pricing/lib/billing-expr.ts)

    A model's price can be an expression: a choice of tiers, times request
    rules that multiply the price when conditions on the request hold. This file
    models the registry of variables, the parser of tiers, the parser and the
    builder of request rules, the split of an expression into its two halves and
    their combination. Strings are code units; [null] is [None]; a thrown
    [SyntaxError] is [Throw]. *)

From S2P Require Import Prelude JsNum Json NumText Regex.
From Stdlib Require Import Floats.SpecFloat.

Module BillingExpr.
Open Scope js_scope.

Definition str_eqb (a b : jsstr) : bool := bool_decide (a = b).

(** ** Variable registry *)

Inductive side_t := input | output | condition.

Record BillingVar := mkVar {
  key : jsstr;
  field : option jsstr;
  tierField : option jsstr;
  label : jsstr;
  shortLabel : jsstr;
  side : side_t;
  isBase : bool;
  isConditionOnly : bool;
  vgroup : option jsstr
}.

Definition BILLING_VARS : list BillingVar :=
  [mkVar (js "p") (Some (js "inputPrice")) (Some (js "input_unit_cost"))
     (js "Input price") (js "Input") input true false None;
   mkVar (js "c") (Some (js "outputPrice")) (Some (js "output_unit_cost"))
     (js "Completion price") (js "Output") output true false None;
   mkVar (js "len") None None (js "Input length") (js "Length") condition false true None;
   mkVar (js "cr") (Some (js "cacheReadPrice")) (Some (js "cache_read_unit_cost"))
     (js "Cache read price") (js "Cache Read") input false false (Some (js "cache"));
   mkVar (js "cc") (Some (js "cacheCreatePrice")) (Some (js "cache_create_unit_cost"))
     (js "Cache create price") (js "Cache Write") input false false (Some (js "cache"));
   mkVar (js "cc1h") (Some (js "cacheCreate1hPrice")) (Some (js "cache_create_1h_unit_cost"))
     (js "Cache create (1h) price") (js "Cache Write (1h)") input false false (Some (js "cache"));
   mkVar (js "img") (Some (js "imagePrice")) (Some (js "image_unit_cost"))
     (js "Image input price") (js "Image In") input false false (Some (js "media"));
   mkVar (js "img_o") (Some (js "imageOutputPrice")) (Some (js "image_output_unit_cost"))
     (js "Image output price") (js "Image Out") output false false (Some (js "media"));
   mkVar (js "ai") (Some (js "audioInputPrice")) (Some (js "audio_input_unit_cost"))
     (js "Audio input price") (js "Audio In") input false false (Some (js "media"));
   mkVar (js "ao") (Some (js "audioOutputPrice")) (Some (js "audio_output_unit_cost"))
     (js "Audio output price") (js "Audio Out") output false false (Some (js "media"))].

Definition BILLING_PRICING_VARS : list BillingVar :=
  List.filter (fun v => negb (isConditionOnly v)) BILLING_VARS.

Definition BILLING_CONDITION_VARS : list jsstr :=
  map key (List.filter (fun v => isBase v || isConditionOnly v) BILLING_VARS).

Definition BILLING_VAR_KEY_TO_FIELD : list (jsstr * jsstr) :=
  map (fun v => (key v, default [] (field v))) BILLING_PRICING_VARS.

Definition BILLING_EXTRA_VARS : list BillingVar :=
  List.filter (fun v => negb (isBase v) && negb (isConditionOnly v)) BILLING_VARS.

(** (field, exprVar). *)
Definition BILLING_CACHE_VAR_MAP : list (jsstr * jsstr) :=
  map (fun v => (default [] (tierField v), key v)) BILLING_EXTRA_VARS.

(** [[\d.eE+-]+] and [[\d.eE+]+]. *)
Definition num_re : re := Plus (Chr is_numchar).
Definition is_condchar (c : N) : bool :=
  is_digit c || (c =? 46)%N || (c =? 101)%N || (c =? 69)%N || (c =? 43)%N.
Definition cond_num_re : re := Plus (Chr is_condchar).

Definition BILLING_VAR_REGEX : re :=
  seqs [WordB; Cap 1 (alts (map (fun v => lit (key v)) BILLING_PRICING_VARS));
        ws_star; lit (js "*"); ws_star; Cap 2 num_re].

(** ** Request rule constants *)

Definition SOURCE_PARAM := js "param".
Definition SOURCE_HEADER := js "header".
Definition SOURCE_TIME := js "time".
Definition MATCH_EQ := js "eq".
Definition MATCH_CONTAINS := js "contains".
Definition MATCH_GT := js "gt".
Definition MATCH_GTE := js "gte".
Definition MATCH_LT := js "lt".
Definition MATCH_LTE := js "lte".
Definition MATCH_EXISTS := js "exists".
Definition MATCH_RANGE := js "range".

Definition TIME_FUNCS : list jsstr := [js "hour"; js "minute"; js "weekday"; js "month"; js "day"].

(** (value, label). *)
Definition COMMON_TIMEZONES : list (jsstr * jsstr) :=
  [(js "Asia/Shanghai", js "UTC+8 Shanghai (Asia/Shanghai)");
   (js "UTC", js "UTC");
   (js "America/New_York", js "UTC-5 New York (America/New_York)");
   (js "America/Los_Angeles", js "UTC-8 Los Angeles (America/Los_Angeles)");
   (js "America/Chicago", js "UTC-6 Chicago (America/Chicago)");
   (js "Europe/London", js "UTC+0 London (Europe/London)");
   (js "Europe/Berlin", js "UTC+1 Berlin (Europe/Berlin)");
   (js "Asia/Tokyo", js "UTC+9 Tokyo (Asia/Tokyo)");
   (js "Asia/Singapore", js "UTC+8 Singapore (Asia/Singapore)");
   (js "Asia/Seoul", js "UTC+9 Seoul (Asia/Seoul)");
   (js "Australia/Sydney", js "UTC+10 Sydney (Australia/Sydney)")].

Definition digit_re : re := Chr is_digit.

(** [/^-?(?:\d+\.?\d*|\.\d+)(?:[eE][+-]?\d+)?$/] *)
Definition NUMERIC_LITERAL_REGEX : re :=
  Seq Bol (seqs [Opt (lit (js "-"));
    Alt (seqs [Plus digit_re; Opt (lit (js ".")); Star digit_re]) (seqs [lit (js "."); Plus digit_re]);
    Opt (seqs [Chr (fun c => (c =? 101)%N || (c =? 69)%N);
               Opt (Chr (fun c => (c =? 43)%N || (c =? 45)%N)); Plus digit_re]);
    Eol]).

Inductive RequestCondition :=
| ParamHeaderCondition (source path mode value : jsstr)
| TimeCondition (timeFunc timezone mode value rangeStart rangeEnd : jsstr).

Record RequestRuleGroup := mkGroup { conditions : list RequestCondition; multiplier : jsstr }.

Record TierCondition := mkTierCond { var : jsstr; op : jsstr; value : num }.

(** A parsed tier: its label, its conditions and its price fields. *)
Record ParsedTier := mkTier {
  tier_label : jsstr;
  tier_conditions : list TierCondition;
  tier_fields : list (jsstr * num)
}.

#[export] Instance RequestCondition_eq_dec : EqDecision RequestCondition.
Proof. solve_decision. Defined.
#[export] Instance RequestRuleGroup_eq_dec : EqDecision RequestRuleGroup.
Proof. solve_decision. Defined.

(** ** Tier parser *)

(** [/^v(\d+):([\s\S]* )$/] *)
Definition version_re : re :=
  Seq Bol (seqs [lit (js "v"); Cap 1 (Plus digit_re); lit (js ":"); Cap 2 (Star (Chr (fun _ => true))); Eol]).

Definition grp (n : nat) (s : mst) : jsstr := default [] (group n s).

Definition stripExprVersion (exprStr : jsstr) : num * jsstr :=
  if negb (nonempty exprStr) then (num_of_Z 1, [])
  else match exec version_re exprStr with
       | Some m => (Number (grp 1 m), grp 2 m)
       | None => (num_of_Z 1, exprStr)
       end.

(** The loop that keeps the first coefficient of each variable. *)
Definition collectCoeffs (ms : list mst) : list (jsstr * num) :=
  foldl (fun coeffs m =>
           if map_has (grp 1 m) coeffs then coeffs
           else map_set (grp 1 m) (Number (grp 2 m)) coeffs) [] ms.

Definition num_or_zero (x : num) : num := if num_truthy x then x else S754_zero false.

Definition parseTierBody (bodyStr : jsstr) : list (jsstr * num) :=
  let coeffs := collectCoeffs (exec_all BILLING_VAR_REGEX bodyStr) in
  map (fun '(varName, field) =>
         (field, match map_get varName coeffs with
                 | Some x => num_or_zero x
                 | None => S754_zero false
                 end)) BILLING_VAR_KEY_TO_FIELD.

(** [(?:p|c|len)], [(?:<|<=|>|>=)] and a condition of a tier. *)
Definition cond_var_re : re := alts [lit (js "p"); lit (js "c"); lit (js "len")].
Definition cond_op_re : re := alts [lit (js "<"); lit (js "<="); lit (js ">"); lit (js ">=")].
Definition cond_re : re := seqs [cond_var_re; ws_star; cond_op_re; ws_star; cond_num_re].

Definition and_re : re := seqs [ws_star; lit (js "&&"); ws_star].

Definition condGroup : re := Cap 1 (seqs [cond_re; Star (seqs [ws_star; lit (js "&&"); ws_star; cond_re])]).

Definition is_not (d : N) (c : N) : bool := negb (c =? d)%N.

(** An optional group [condGroup\s*\?\s*], then [tier\('([^']* )',\s*([^)]+)\)] with double quotes. *)
Definition tierRe : re :=
  seqs [Opt (seqs [condGroup; ws_star; lit (js "?"); ws_star]);
        lit (jsq "tier('"); Cap 2 (Star (Chr (is_not 34))); lit (jsq "',"); ws_star;
        Cap 3 (Plus (Chr (is_not 41))); lit (js ")")].

(** [/^(p|c|len)\s*(<|<=|>|>=)\s*([\d.eE+]+)$/] *)
Definition single_cond_re : re :=
  Seq Bol (seqs [Cap 1 cond_var_re; ws_star; Cap 2 cond_op_re; ws_star; Cap 3 cond_num_re; Eol]).

Definition parseTierConditions (condStr : jsstr) : list TierCondition :=
  if negb (nonempty condStr) then []
  else omap (fun cp => (fun cm => mkTierCond (grp 1 cm) (grp 2 cm) (Number (grp 3 cm)))
                         <$> exec single_cond_re (trim cp))
            (split_re and_re condStr).

Definition parseTiersFromExpr (exprStr : jsstr) : list ParsedTier :=
  if negb (nonempty exprStr) then []
  else let body := (stripExprVersion exprStr).2 in
       map (fun m => mkTier (grp 2 m) (parseTierConditions (grp 1 m)) (parseTierBody (grp 3 m)))
         (exec_all tierRe body).

Section normalizeTierLabel.
(** The Unicode lower-case mapping. *)
Context (toLowerCase : jsstr → jsstr).

(** [/<[=＝]?|≤|＜[=＝]?/g] and [/>[=＝]?|≥|＞[=＝]?/g]. *)
Definition eq_sign : re := Opt (Chr (fun c => (c =? 61)%N || (c =? 65309)%N)).
Definition less_re : re := alts [seqs [chr 60; eq_sign]; chr 8804; seqs [chr 65308; eq_sign]].
Definition greater_re : re := alts [seqs [chr 62; eq_sign]; chr 8805; seqs [chr 65310; eq_sign]].
Definition space_re : re := Plus (Chr is_ws).

Definition normalizeTierLabel (label : option jsstr) : jsstr :=
  match label with
  | None | Some [] => []
  | Some l => toLowerCase (replace_all space_re []
                (replace_all greater_re (js ">") (replace_all less_re (js "<") l)))
  end.
End normalizeTierLabel.

(** ** Request rule parser *)

(** The depth of parentheses after a character. *)
Definition bump (depth : Z) (c : N) : Z :=
  if (c =? 40)%N then depth + 1 else if (c =? 41)%N then depth - 1 else depth.

(** The loop of [splitTopLevelMultiply] and [splitTopLevelAnd] for a separator;
    [cur] is the text since [start], reversed. *)
Fixpoint splitMultiply_go (depth : Z) (cur s : jsstr) : list jsstr :=
  match s with
  | [] => [trim (reverse cur)]
  | c :: s1 =>
      let depth := bump depth c in
      if (depth =? 0)%Z && starts_with (js " * ") s then
        match s1 with
        | _ :: _ :: s3 => trim (reverse cur) :: splitMultiply_go depth [] s3
        | _ => []
        end
      else splitMultiply_go depth (c :: cur) s1
  end.

Definition splitTopLevelMultiply (expr : jsstr) : list jsstr :=
  List.filter nonempty (splitMultiply_go 0 [] expr).

Fixpoint splitAnd_go (depth : Z) (cur s : jsstr) : list jsstr :=
  match s with
  | [] => [trim (reverse cur)]
  | c :: s1 =>
      let depth := bump depth c in
      if (depth =? 0)%Z && starts_with (js " && ") s then
        match s1 with
        | _ :: _ :: _ :: s4 => trim (reverse cur) :: splitAnd_go depth [] s4
        | _ => []
        end
      else splitAnd_go depth (c :: cur) s1
  end.

Definition splitTopLevelAnd (expr : jsstr) : list jsstr :=
  List.filter nonempty (splitAnd_go 0 [] expr).

(** [String(v)] of a parsed JSON value. *)
Fixpoint json_String (j : json) : jsstr :=
  match j with
  | JNull => js "null"
  | JBool b => if b then js "true" else js "false"
  | JNum n => Number_toString n
  | JStr s => s
  | JArr l => join (js ",") (map (fun x => match x with JNull => [] | _ => json_String x end) l)
  | JObj _ => js "[object Object]"
  end.

(** The literal, or [null] for a JSON null and for what does not parse. *)
Definition parseExprLiteral (raw : jsstr) : option json :=
  let text := trim raw in
  if str_eqb text (js "true") || str_eqb text (js "false") then Some (JStr text)
  else if test NUMERIC_LITERAL_REGEX text then Some (JStr text)
  else match JSON_parse text with
       | Some JNull | None => None
       | Some j => Some j
       end.

Definition time_func_re : re := alts (map lit TIME_FUNCS).

(** [\('([^']+)'\)] with double quotes, the path or time zone of a call. *)
Definition quoted_arg (n : nat) : list re := [lit (jsq "('"); Cap n (Plus (Chr (is_not 34))); lit (jsq "')")].

Definition time_range_body : list re :=
  Cap 1 time_func_re :: quoted_arg 2 ++
  [lit (js " >= "); Cap 3 num_re; lit (js " || "); Back 1; lit (jsq "('"); Back 2; lit (jsq "')");
   lit (js " < "); Cap 4 num_re].

Definition time_range_re : re := Seq Bol (seqs (time_range_body ++ [Eol])).
Definition time_range_paren_re : re :=
  Seq Bol (seqs (lit (js "(") :: time_range_body ++ [lit (js ")"); Eol])).
Definition time_cmp_re : re :=
  Seq Bol (seqs (Cap 1 time_func_re :: quoted_arg 2 ++
    [lit (js " "); Cap 3 (alts [lit (js "=="); lit (js ">="); lit (js "<")]); lit (js " "); Cap 4 num_re; Eol])).

Definition time_op_modes : list (jsstr * jsstr) :=
  [(js "==", MATCH_EQ); (js ">=", MATCH_GTE); (js "<", MATCH_LT)].

Definition opt_str_or (a : option jsstr) (b : jsstr) : jsstr := str_or (default [] a) b.

Definition rangeCondition (m : mst) : RequestCondition :=
  TimeCondition (grp 1 m) (grp 2 m) MATCH_RANGE [] (grp 3 m) (grp 4 m).

Definition tryParseTimeCondition (expr : jsstr) : option RequestCondition :=
  match exec time_range_re expr with
  | Some m => Some (rangeCondition m)
  | None =>
      match exec time_range_paren_re expr with
      | Some m => Some (rangeCondition m)
      | None =>
          match exec time_cmp_re expr with
          | Some m => Some (TimeCondition (grp 1 m) (grp 2 m)
                              (opt_str_or (map_get (grp 3 m) time_op_modes) MATCH_EQ) (grp 4 m) [] [])
          | None => None
          end
      end
  end.

(** [(?:'(?:[^'\\]|\\.)* ')] with double quotes: a quoted literal. *)
Definition string_lit_re : re :=
  seqs [chr 34; Star (Alt (Chr (fun c => is_not 34 c && is_not 92 c))
                          (seqs [chr 92; Chr (fun c => negb (is_newline c))])); chr 34].

Definition header_exists_re : re :=
  Seq Bol (seqs (lit (js "header") :: quoted_arg 1 ++ [lit (jsq " != ''"); Eol])).
Definition param_exists_re : re :=
  Seq Bol (seqs (lit (js "param") :: quoted_arg 1 ++ [lit (js " != nil"); Eol])).
Definition header_has_re : re :=
  Seq Bol (seqs (lit (js "has(header") :: quoted_arg 1 ++
    [lit (js ", "); Cap 2 string_lit_re; lit (js ")"); Eol])).
Definition param_has_re : re :=
  Seq Bol (seqs (lit (js "param") :: quoted_arg 1 ++ lit (js " != nil && has(param") :: quoted_arg 2 ++
    [lit (js ", "); Cap 3 string_lit_re; lit (js ")"); Eol])).
Definition param_cmp_re : re :=
  Seq Bol (seqs (lit (js "param") :: quoted_arg 1 ++ lit (js " != nil && param") :: quoted_arg 2 ++
    [lit (js " "); Cap 3 (alts [lit (js ">"); lit (js ">="); lit (js "<"); lit (js "<=")]);
     lit (js " "); Cap 4 num_re; Eol])).
Definition eq_re : re :=
  Seq Bol (seqs (Cap 1 (alts [lit (js "param"); lit (js "header")]) :: quoted_arg 2 ++
    [lit (js " == "); Cap 3 (Plus (Chr (fun c => negb (is_newline c)))); Eol])).

Definition cmp_op_modes : list (jsstr * jsstr) :=
  [(js ">", MATCH_GT); (js ">=", MATCH_GTE); (js "<", MATCH_LT); (js "<=", MATCH_LTE)].

(** [JSON.parse(text) as string]. *)
Definition JSON_parse_string (text : jsstr) : res jsstr :=
  match JSON_parse text with
  | Some j => Ok (json_String j)
  | None => Throw (js "SyntaxError")
  end.

(** The last branch: [==] with a literal. *)
Definition tryParseEqCondition (expr : jsstr) : option RequestCondition :=
  m ← exec eq_re expr;
  parsedValue ← parseExprLiteral (grp 3 m);
  Some (ParamHeaderCondition (grp 1 m) (grp 2 m) MATCH_EQ (json_String parsedValue)).

(** The branches on a parameter: has, then comparison, then [==]. *)
Definition tryParseParamCmp (expr : jsstr) : option RequestCondition :=
  match exec param_cmp_re expr with
  | Some m =>
      if str_eqb (grp 1 m) (grp 2 m)
      then Some (ParamHeaderCondition SOURCE_PARAM (grp 1 m)
                   (default [] (map_get (grp 3 m) cmp_op_modes)) (grp 4 m))
      else tryParseEqCondition expr
  | None => tryParseEqCondition expr
  end.

Definition tryParseParamHas (expr : jsstr) : res (option RequestCondition) :=
  match exec param_has_re expr with
  | Some m =>
      if str_eqb (grp 1 m) (grp 2 m)
      then let! v := JSON_parse_string (grp 3 m) in
           Ok (Some (ParamHeaderCondition SOURCE_PARAM (grp 1 m) MATCH_CONTAINS v))
      else Ok (tryParseParamCmp expr)
  | None => Ok (tryParseParamCmp expr)
  end.

Definition tryParseRequestCondition (expr : jsstr) : res (option RequestCondition) :=
  match tryParseTimeCondition expr with
  | Some tc => Ok (Some tc)
  | None =>
  match exec header_exists_re expr with
  | Some m => Ok (Some (ParamHeaderCondition SOURCE_HEADER (grp 1 m) MATCH_EXISTS []))
  | None =>
  match exec param_exists_re expr with
  | Some m => Ok (Some (ParamHeaderCondition SOURCE_PARAM (grp 1 m) MATCH_EXISTS []))
  | None =>
  match exec header_has_re expr with
  | Some m =>
      let! v := JSON_parse_string (grp 2 m) in
      Ok (Some (ParamHeaderCondition SOURCE_HEADER (grp 1 m) MATCH_CONTAINS v))
  | None => tryParseParamHas expr
  end end end end.

(** [/^\((.+) \? ([\d.eE+-]+) : 1\)$/s] *)
Definition factor_re : re :=
  Seq Bol (seqs [lit (js "("); Cap 1 (Plus (Chr (fun _ => true))); lit (js " ? "); Cap 2 num_re;
                 lit (js " : 1)"); Eol]).

(** The loop over the conjuncts; it stops at the first that is no condition. *)
Fixpoint parseConditions (andParts : list jsstr) : res (option (list RequestCondition)) :=
  match andParts with
  | [] => Ok (Some [])
  | ap :: rest =>
      let! cond := tryParseRequestCondition (trim ap) in
      match cond with
      | None => Ok None
      | Some c => let! cs := parseConditions rest in Ok (cons c <$> cs)
      end
  end.

Definition tryParseRuleGroupFactor (part : jsstr) : res (option RequestRuleGroup) :=
  match exec factor_re part with
  | None => Ok None
  | Some m =>
      let conditionStr := grp 1 m in
      let multiplier := grp 2 m in
      let! conditions := parseConditions (splitTopLevelAnd conditionStr) in
      match conditions with
      | None | Some [] => Ok None
      | Some cs => Ok (Some (mkGroup cs multiplier))
      end
  end.

Fixpoint parseGroups (parts : list jsstr) : res (option (list RequestRuleGroup)) :=
  match parts with
  | [] => Ok (Some [])
  | part :: rest =>
      let! group := tryParseRuleGroupFactor part in
      match group with
      | None => Ok None
      | Some g => let! gs := parseGroups rest in Ok (cons g <$> gs)
      end
  end.

Definition tryParseRequestRuleExpr (expr : jsstr) : res (option (list RequestRuleGroup)) :=
  let trimmed := trim expr in
  if negb (nonempty trimmed) then Ok (Some [])
  else parseGroups (splitTopLevelMultiply trimmed).

(** ** Combining and splitting *)

(** The loop over the characters: the last depth, or [None] when the depth is
    zero before the last one. *)
Fixpoint outerDepth (depth : Z) (s : jsstr) : option Z :=
  match s with
  | [] => Some depth
  | c :: s' =>
      let depth := bump depth c in
      if (depth =? 0)%Z && nonempty s' then None else outerDepth depth s'
  end.

Definition hasFullOuterParens (expr : jsstr) : bool :=
  if negb (starts_with (js "(") expr) || negb (bool_decide (last expr = Some 41%N)) then false
  else match outerDepth 0 expr with
       | Some depth => (depth =? 0)%Z
       | None => false
       end.

(** [s.slice(1, -1)]. *)
Definition slice_inner (s : jsstr) : jsstr := removelast (tail s).

Fixpoint unwrapLoop (fuel : nat) (current : jsstr) : jsstr :=
  match fuel with
  | O => current
  | S fuel' => if hasFullOuterParens current then unwrapLoop fuel' (trim (slice_inner current)) else current
  end.

(** Every turn of the loop removes a character, so that the length is fuel enough. *)
Definition unwrapOuterParens (expr : jsstr) : jsstr :=
  let current := trim expr in unwrapLoop (length current) current.

Record split_result := mkSplit { billingExpr : jsstr; requestRuleExpr : jsstr }.

(** [parts.forEach]: the rule parts and the base parts. *)
Fixpoint classifyParts (parts : list jsstr) : res (list jsstr * list jsstr) :=
  match parts with
  | [] => Ok ([], [])
  | part :: rest =>
      let! parsed := tryParseRequestRuleExpr part in
      let! acc := classifyParts rest in
      match parsed with
      | Some (_ :: _) => Ok (part :: acc.1, acc.2)
      | _ => Ok (acc.1, part :: acc.2)
      end
  end.

Definition splitBillingExprAndRequestRules (expr : jsstr) : res split_result :=
  let trimmed := trim expr in
  if negb (nonempty trimmed) then Ok (mkSplit [] [])
  else
    let parts := splitTopLevelMultiply trimmed in
    if (length parts <=? 1)%nat then Ok (mkSplit trimmed [])
    else
      let! acc := classifyParts parts in
      match acc.1, acc.2 with
      | _ :: _, [base] => Ok (mkSplit (unwrapOuterParens base) (join (js " * ") acc.1))
      | _, _ => Ok (mkSplit trimmed [])
      end.

Definition combineBillingExpr (baseExpr requestRuleExpr : jsstr) : jsstr :=
  let base := trim baseExpr in
  let rules := trim requestRuleExpr in
  if negb (nonempty base) then []
  else if negb (nonempty rules) then base
  else js "(" ++ base ++ js ") * " ++ rules.

(** ** Editor *)

Definition createEmptyCondition : RequestCondition := ParamHeaderCondition (js "param") [] MATCH_EQ [].
Definition createEmptyTimeCondition : RequestCondition :=
  TimeCondition (js "hour") (js "Asia/Shanghai") MATCH_GTE [] [] [].
Definition createEmptyRuleGroup : RequestRuleGroup := mkGroup [createEmptyCondition] [].
Definition createEmptyTimeRuleGroup : RequestRuleGroup := mkGroup [createEmptyTimeCondition] [].

(** Options are (value, label key). *)
Definition getRequestRuleMatchOptions (source : jsstr) : list (jsstr * jsstr) :=
  if str_eqb source SOURCE_TIME then
    [(MATCH_EQ, js "Equals"); (MATCH_GTE, js "Greater than or equal"); (MATCH_LT, js "Less than");
     (MATCH_RANGE, js "Overnight range")]
  else
    let base := [(MATCH_EQ, js "Equals"); (MATCH_CONTAINS, js "Contains"); (MATCH_EXISTS, js "Exists")] in
    if str_eqb source SOURCE_HEADER then base
    else base ++ [(MATCH_GT, js "Greater than"); (MATCH_GTE, js "Greater than or equal");
                  (MATCH_LT, js "Less than"); (MATCH_LTE, js "Less than or equal")].

Definition isTimeFunc (value : option jsstr) : bool :=
  match value with Some v => set_has v TIME_FUNCS | None => false end.

(** [Partial<RequestCondition>]; a condition that is null or undefined has no field. *)
Record PartialCondition := mkPartial {
  c_source : option jsstr; c_path : option jsstr; c_mode : option jsstr; c_value : option jsstr;
  c_timeFunc : option jsstr; c_timezone : option jsstr;
  c_rangeStart : option jsstr; c_rangeEnd : option jsstr
}.

Definition partial_of (c : RequestCondition) : PartialCondition :=
  match c with
  | ParamHeaderCondition s p m v => mkPartial (Some s) (Some p) (Some m) (Some v) None None None None
  | TimeCondition f tz m v a b =>
      mkPartial (Some SOURCE_TIME) None (Some m) (Some v) (Some f) (Some tz) (Some a) (Some b)
  end.

Definition offered (options : list (jsstr * jsstr)) (mode : option jsstr) : bool :=
  match mode with Some m => existsb (fun o => str_eqb o.1 m) options | None => false end.

Definition normalizeCondition (cond : PartialCondition) : RequestCondition :=
  let source := if bool_decide (c_source cond = Some (js "time")) then js "time"
                else if bool_decide (c_source cond = Some (js "header")) then js "header"
                else js "param" in
  if str_eqb source (js "time") then
    let timeFunc := if isTimeFunc (c_timeFunc cond) then default [] (c_timeFunc cond) else js "hour" in
    let options := getRequestRuleMatchOptions SOURCE_TIME in
    let mode := if offered options (c_mode cond) then default [] (c_mode cond) else MATCH_GTE in
    TimeCondition timeFunc (opt_str_or (c_timezone cond) (js "Asia/Shanghai")) mode
      (default [] (c_value cond)) (default [] (c_rangeStart cond)) (default [] (c_rangeEnd cond))
  else
    let options := getRequestRuleMatchOptions source in
    let mode := if offered options (c_mode cond) then default [] (c_mode cond) else MATCH_EQ in
    ParamHeaderCondition source (default [] (c_path cond)) mode (default [] (c_value cond)).

Definition buildExprLiteral (mode value : jsstr) : jsstr :=
  let text := trim value in
  if str_eqb mode MATCH_CONTAINS then quote text
  else if str_eqb text (js "true") || str_eqb text (js "false") then text
  else if test NUMERIC_LITERAL_REGEX text then text
  else quote text.

Definition time_mode_ops : list (jsstr * jsstr) :=
  [(MATCH_EQ, js "=="); (MATCH_GTE, js ">="); (MATCH_LT, js "<")].

(** [buildTimeConditionExpr] after normalization. *)
Definition buildNormalizedTime (timeFunc timezone mode value rangeStart rangeEnd : jsstr) : jsstr :=
  let tz := quote timezone in
  let fn := timeFunc ++ js "(" ++ tz ++ js ")" in
  if str_eqb mode MATCH_RANGE then
    let s := trim rangeStart in
    let e := trim rangeEnd in
    if negb (test NUMERIC_LITERAL_REGEX s) || negb (test NUMERIC_LITERAL_REGEX e) then []
    else fn ++ js " >= " ++ s ++ js " || " ++ fn ++ js " < " ++ e
  else
    let v := trim value in
    if negb (test NUMERIC_LITERAL_REGEX v) then []
    else fn ++ js " " ++ opt_str_or (map_get mode time_mode_ops) (js "==") ++ js " " ++ v.

Definition cmp_mode_ops : list (jsstr * jsstr) :=
  [(MATCH_GT, js ">"); (MATCH_GTE, js ">="); (MATCH_LT, js "<"); (MATCH_LTE, js "<=")].

(** The switch of [buildRequestConditionExpr] on a normalized condition. *)
Definition buildNormalizedParamHeader (source path mode value : jsstr) : jsstr :=
  let path := trim path in
  if negb (nonempty path) then []
  else
    let isHeader := str_eqb source (js "header") in
    let sourceExpr := (if isHeader then js "header(" else js "param(") ++ quote path ++ js ")" in
    if str_eqb mode MATCH_EXISTS then
      sourceExpr ++ (if isHeader then jsq " != ''" else js " != nil")
    else if str_eqb mode MATCH_CONTAINS then
      if isHeader then js "has(" ++ sourceExpr ++ js ", " ++ buildExprLiteral mode value ++ js ")"
      else sourceExpr ++ js " != nil && has(" ++ sourceExpr ++ js ", " ++ buildExprLiteral mode value ++ js ")"
    else
      match map_get mode cmp_mode_ops with
      | Some op =>
          let numText := trim value in
          if negb (test NUMERIC_LITERAL_REGEX numText) then []
          else sourceExpr ++ js " != nil && " ++ sourceExpr ++ js " " ++ op ++ js " " ++ numText
      | None => sourceExpr ++ js " == " ++ buildExprLiteral mode value
      end.

Definition buildNormalized (c : RequestCondition) : jsstr :=
  match c with
  | TimeCondition f tz m v a b => buildNormalizedTime f tz m v a b
  | ParamHeaderCondition s p m v => buildNormalizedParamHeader s p m v
  end.

Definition buildRequestConditionExpr (cond : RequestCondition) : jsstr :=
  buildNormalized (normalizeCondition (partial_of cond)).

Definition combineConditions (condExprs : list jsstr) : jsstr :=
  match condExprs with
  | [e] => e
  | _ => join (js " && ")
           (map (fun e => if includes (js " || ") e then js "(" ++ e ++ js ")" else e) condExprs)
  end.

Definition buildRuleGroupFactor (group : RequestRuleGroup) : jsstr :=
  let mult := trim (multiplier group) in
  if negb (test NUMERIC_LITERAL_REGEX mult) then []
  else
    let condExprs := List.filter nonempty (map buildRequestConditionExpr (conditions group)) in
    if (length condExprs =? 0)%nat then []
    else js "(" ++ combineConditions condExprs ++ js " ? " ++ mult ++ js " : 1)".

Definition buildRequestRuleExpr (groups : list RequestRuleGroup) : jsstr :=
  join (js " * ") (List.filter nonempty (map buildRuleGroupFactor groups)).
End BillingExpr.
