(* ===== verification/RuleRoundtrip.v ===== *)
(** * Request rules: the editor's round trip

    What the editor builds from rule groups is parsed back into the same groups,
    and the split of a combined expression returns its two halves, for the
    conditions the parser supports. The comparisons and the containment test on
    a request parameter are not among them: their guard is split off as a
    conjunct of its own, so that the parser gives up on the whole expression. *)

From S2P Require Import Prelude JsNum Json NumText Regex BillingExpr.
Import BillingExpr.
Open Scope js_scope.

Module RuleRoundtrip.

(** ** The supported conditions *)

(** A character that is neither escaped by JSON nor read by the splitters. *)
Definition plain_char (c : N) : bool :=
  (32 <=? c)%N && negb (is_high c || is_low c)
  && negb (existsb (N.eqb c) [34; 92; 40; 41; 38; 124; 8232; 8233]%N).

Definition plain (s : jsstr) : Prop := Forall (fun c => plain_char c = true) s.

Definition numeric (s : jsstr) : Prop := test NUMERIC_LITERAL_REGEX s = true.

Definition literal (s : jsstr) : Prop :=
  s = js "true" ∨ s = js "false" ∨ numeric s ∨ plain s.

(** Conditions as the parser returns them. *)
Inductive supported : RequestCondition → Prop :=
| sup_range f tz a b : f ∈ TIME_FUNCS → tz ≠ [] → plain tz → numeric a → numeric b →
    supported (TimeCondition f tz MATCH_RANGE [] a b)
| sup_time f tz mode v : f ∈ TIME_FUNCS → tz ≠ [] → plain tz → numeric v →
    mode ∈ [MATCH_EQ; MATCH_GTE; MATCH_LT] → supported (TimeCondition f tz mode v [] [])
| sup_exists src p : src ∈ [SOURCE_PARAM; SOURCE_HEADER] → p ≠ [] → trim p = p → plain p →
    supported (ParamHeaderCondition src p MATCH_EXISTS [])
| sup_eq src p v : src ∈ [SOURCE_PARAM; SOURCE_HEADER] → p ≠ [] → trim p = p → plain p →
    trim v = v → literal v → supported (ParamHeaderCondition src p MATCH_EQ v)
| sup_contains p v : p ≠ [] → trim p = p → plain p → trim v = v → plain v →
    supported (ParamHeaderCondition SOURCE_HEADER p MATCH_CONTAINS v).

(** ** Literals *)

Lemma seqs_app_eol {R} l (k : mst → option R) s : m (seqs (l ++ [Eol])) k s = m (seqs l) (m Eol k) s.
Proof. revert s. induction l as [|a l IH]; intros s; [done|]. cbn [app]. rewrite !m_seqs_cons. by apply m_ext. Qed.

(** The whole text is over the alphabet of an anchored pattern. *)
Lemma test_over P l s :
  over P (seqs l) → test (Seq Bol (seqs (l ++ [Eol]))) s = true → Forall P s.
Proof.
  intros Ho. unfold test. rewrite exec_bol, seqs_app_eol. destruct (m _ _ _) as [st|] eqn:E; [|done]. intros _.
  destruct (over_consumes P _ _ _ _ Ho E) as (s' & w & Hk & Hs & Hw). cbn in Hk, Hs.
  destruct (rest s'); [|done]. by rewrite app_nil_r in Hs; subst.
Qed.

Lemma numeric_numtext s : numeric s → numtext s.
Proof.
  intros H. split; [intros ->; by vm_compute in H|].
  apply (test_over _ (removelast [Opt (lit (js "-"));
    Alt (seqs [Plus digit_re; Opt (lit (js ".")); Star digit_re]) (seqs [lit (js "."); Plus digit_re]);
    Opt (seqs [Chr (fun c => (c =? 101)%N || (c =? 69)%N);
               Opt (Chr (fun c => (c =? 43)%N || (c =? 45)%N)); Plus digit_re]); Eol])); [|exact H].
  cbn [removelast]. unfold Opt, Plus, lit, seqs, digit_re, chr. cbn [map js foldr over].
  unfold is_numchar, is_digit. repeat split; intros c Hc; vm_compute Ascii.N_of_ascii in Hc; lia.
Qed.

Lemma numtext_trim s : numtext s → trim s = s.
Proof. intros [_ H]. apply trim_no_ws. eapply Forall_impl; [exact H|]. apply numchar_not_ws. Qed.

Lemma numeric_trim s : numeric s → trim s = s.
Proof. intros. by apply numtext_trim, numeric_numtext. Qed.

Lemma numtext_fresh s c : numtext s → is_numchar c = false → c ∉ s.
Proof. intros [_ H] Hc Hin. rewrite Forall_forall in H. by rewrite H in Hc. Qed.

Lemma escape_plain s : plain s → escape s = s.
Proof.
  induction 1 as [|c s Hc Hs IH]; [done|]. cbn [escape]. unfold plain_char in Hc.
  apply andb_true_iff in Hc as [Hc Hx]. apply andb_true_iff in Hc as [Hge Hsur].
  apply negb_true_iff, orb_false_iff in Hsur as [-> ->]. rewrite IH. unfold escape_char.
  cbn [existsb] in Hx.
  repeat match goal with |- context [(c =? ?d)%N] => replace (c =? d)%N with false by (symmetry; lia) end.
  by replace (c <? 32)%N with false by (symmetry; lia).
Qed.

Lemma quote_plain s : plain s → quote s = jsq "'" ++ s ++ jsq "'".
Proof. intros H. unfold quote. by rewrite escape_plain. Qed.

Lemma plain_fresh s c : plain s → plain_char c = false → c ∉ s.
Proof. intros H Hc Hin. unfold plain in H. rewrite Forall_forall in H. by rewrite H in Hc. Qed.

Lemma plain_char_not_newline c : plain_char c = true → negb (is_newline c) = true.
Proof.
  unfold plain_char, is_newline. cbn [existsb]. intros H. lia.
Qed.

(** ** Texts *)

(** [f('p')] with double quotes. *)
Definition call (f p : jsstr) : jsstr := f ++ jsq "('" ++ p ++ jsq "')".

Lemma call_quote f p : plain p → f ++ js "(" ++ quote p ++ js ")" = call f p.
Proof. intros H. rewrite quote_plain by done. unfold call. by rewrite <- !app_assoc. Qed.

Lemma header_quote p : plain p → js "header(" ++ quote p ++ js ")" = call SOURCE_HEADER p.
Proof. apply (call_quote SOURCE_HEADER). Qed.
Lemma param_quote p : plain p → js "param(" ++ quote p ++ js ")" = call SOURCE_PARAM p.
Proof. apply (call_quote SOURCE_PARAM). Qed.

Lemma m_quoted_arg {R} n l (k : mst → option R) b p t cs :
  p ≠ [] → 34%N ∉ p →
  m (seqs (quoted_arg n ++ l)) k (mkM b (jsq "('" ++ p ++ jsq "')" ++ t) cs)
  = m (seqs l) k (mkM (Some 41%N) t (map_set n p cs)).
Proof.
  intros Hne Hp. unfold quoted_arg. cbn [app]. rewrite m_seqs_cons, m_lit, m_seqs_cons.
  rewrite m_cap_plus_until; [|done| | |].
  - rewrite m_seqs_cons, m_lit. done.
  - apply Forall_forall. intros c Hc. unfold is_not. apply negb_true_iff, N.eqb_neq. set_solver.
  - done.
  - apply refuses_seqs, refuses_lit. done.
Qed.

(** The literal of an equality. *)
Lemma literal_cases v :
  trim v = v → literal v →
  (buildExprLiteral MATCH_EQ v = v ∧ (v = js "true" ∨ v = js "false" ∨ numeric v))
  ∨ (buildExprLiteral MATCH_EQ v = jsq "'" ++ v ++ jsq "'" ∧ plain v).
Proof.
  intros Ht Hl. unfold buildExprLiteral, str_eqb. rewrite Ht. change (bool_decide (MATCH_EQ = MATCH_CONTAINS)) with false.
  destruct (decide (v = js "true")) as [H1|H1]; [rewrite bool_decide_eq_true_2 by done; auto|].
  rewrite bool_decide_eq_false_2 by done.
  destruct (decide (v = js "false")) as [H2|H2]; [rewrite bool_decide_eq_true_2 by done; auto|].
  rewrite bool_decide_eq_false_2 by done. cbn [orb].
  destruct (test _ v) eqn:E; [auto|]. right. unfold literal, numeric in Hl.
  destruct Hl as [?|[?|[?|Hp]]]; try congruence. by rewrite quote_plain.
Qed.

Lemma JSON_parse_quote v : JSON_parse (quote v) = Some (JStr v).
Proof. by apply (JSON_parse_stringify compact (fun _ => []) (JStr v)). Qed.

Lemma trim_quoted s : trim (jsq "'" ++ s ++ jsq "'") = jsq "'" ++ s ++ jsq "'".
Proof.
  unfold trim. change (drop_ws (jsq "'" ++ s ++ jsq "'")) with (jsq "'" ++ s ++ jsq "'").
  rewrite !reverse_app. change (reverse (jsq "'")) with [34%N].
  replace (drop_ws (([34%N] ++ reverse s) ++ [34%N])) with (([34%N] ++ reverse s) ++ [34%N]) by done.
  rewrite !reverse_app, reverse_involutive. done.
Qed.

Lemma not_numeric_quoted s : test NUMERIC_LITERAL_REGEX (jsq "'" ++ s) = false.
Proof.
  destruct (test _ _) eqn:E; [|done]. apply numeric_numtext in E as [_ H].
  apply Forall_app in H as [H _]. by apply Forall_cons in H as [H _].
Qed.

Lemma parse_literal v :
  trim v = v → literal v → parseExprLiteral (buildExprLiteral MATCH_EQ v) = Some (JStr v).
Proof.
  intros Ht Hl. unfold parseExprLiteral, str_eqb.
  destruct (literal_cases v Ht Hl) as [[-> Hv]|[-> Hp]].
  - rewrite Ht. destruct Hv as [->|[->|Hv]]; [done..|]. rewrite Hv. by destruct (_ || _).
  - rewrite trim_quoted, not_numeric_quoted.
    replace (_ || _) with false by (symmetry; apply orb_false_iff; by rewrite !bool_decide_eq_false).
    rewrite <- quote_plain by done. by rewrite JSON_parse_quote.
Qed.

Lemma literal_no_newline v :
  trim v = v → literal v →
  buildExprLiteral MATCH_EQ v ≠ [] ∧
  Forall (fun c => negb (is_newline c) = true) (buildExprLiteral MATCH_EQ v).
Proof.
  intros Ht Hl. destruct (literal_cases v Ht Hl) as [[-> Hv]|[-> Hp]].
  - destruct Hv as [->|[->|Hv]]; [by repeat constructor..|]. destruct (numeric_numtext v Hv) as [Hne Hf].
    split; [done|]. eapply Forall_impl; [exact Hf|]. intros c Hc.
    unfold is_numchar, is_digit, is_newline in *. lia.
  - split; [done|]. apply Forall_app; split; [by repeat constructor|].
    apply Forall_app; split; [|by repeat constructor].
    eapply Forall_impl; [exact Hp|]. apply plain_char_not_newline.
Qed.

(** ** Parsing one condition *)

Definition arg_ok (p : jsstr) : Prop := p ≠ [] ∧ 34%N ∉ p.

Lemma plain_arg p : p ≠ [] → plain p → arg_ok p.
Proof. intros Hne Hp. split; [done|]. by apply plain_fresh. Qed.

(** Evaluates an anchored pattern up to the argument of the first call. *)
Ltac enter := rewrite exec_bol; unfold call; rewrite <- ?app_assoc.
Ltac past_lit := rewrite m_seqs_cons, m_lit.
Ltac past_arg := rewrite m_quoted_arg by done.

Lemma time_none pre t :
  pre ∈ [js "header"; js "param"; js "has("] → tryParseTimeCondition (pre ++ t) = None.
Proof.
  intros H. unfold tryParseTimeCondition, time_range_re, time_range_paren_re, time_cmp_re.
  rewrite !exec_bol. repeat (apply elem_of_cons in H as [->|H]; [reflexivity|]). by apply elem_of_nil in H.
Qed.

Lemma header_exists_none p t :
  arg_ok p → starts_with (jsq " != ''") t = false → exec header_exists_re (call (js "header") p ++ t) = None.
Proof. intros [? ?] Ht. unfold header_exists_re. enter. past_lit. past_arg. rewrite m_seqs_cons. by apply m_lit_none. Qed.

Lemma param_exists_none p t :
  arg_ok p → starts_with (js " != nil") t = false → exec param_exists_re (call (js "param") p ++ t) = None.
Proof. intros [? ?] Ht. unfold param_exists_re. enter. past_lit. past_arg. rewrite m_seqs_cons. by apply m_lit_none. Qed.

Lemma param_guard_none p t :
  arg_ok p → starts_with (js " != nil &&") t = false →
  exec param_has_re (call (js "param") p ++ t) = None
  ∧ exec param_cmp_re (call (js "param") p ++ t) = None.
Proof.
  intros [? ?] Ht. unfold param_has_re, param_cmp_re. split; enter; past_lit; past_arg; rewrite m_seqs_cons;
    apply m_lit_none.
  - change (js " != nil && has(param") with (js " != nil &&" ++ js " has(param"). by apply starts_with_app_false.
  - change (js " != nil && param") with (js " != nil &&" ++ js " param"). by apply starts_with_app_false.
Qed.

(** Patterns that start with another word. *)
Lemma foreign t :
  exec header_exists_re (js "param" ++ t) = None ∧ exec header_has_re (js "param" ++ t) = None
  ∧ exec param_exists_re (js "header" ++ t) = None ∧ exec header_has_re (js "header" ++ t) = None
  ∧ exec param_has_re (js "header" ++ t) = None ∧ exec param_cmp_re (js "header" ++ t) = None
  ∧ exec header_exists_re (js "has(" ++ t) = None ∧ exec param_exists_re (js "has(" ++ t) = None.
Proof.
  unfold header_exists_re, header_has_re, param_exists_re, param_has_re, param_cmp_re.
  rewrite !exec_bol. repeat split.
Qed.

Lemma call_app f p t : call f p ++ t = f ++ jsq "('" ++ p ++ jsq "')" ++ t.
Proof. unfold call. by rewrite <- !app_assoc. Qed.

Lemma parse_param_exists p : arg_ok p →
  tryParseRequestCondition (call SOURCE_PARAM p ++ js " != nil")
  = Ok (Some (ParamHeaderCondition SOURCE_PARAM p MATCH_EXISTS [])).
Proof.
  intros [? ?]. unfold tryParseRequestCondition. rewrite !call_app, time_none by set_solver.
  rewrite (proj1 (foreign _)). unfold param_exists_re. enter. past_lit. past_arg. done.
Qed.

Lemma parse_header_exists p : arg_ok p →
  tryParseRequestCondition (call SOURCE_HEADER p ++ jsq " != ''")
  = Ok (Some (ParamHeaderCondition SOURCE_HEADER p MATCH_EXISTS [])).
Proof.
  intros [? ?]. unfold tryParseRequestCondition. rewrite !call_app, time_none by set_solver.
  unfold header_exists_re. enter. past_lit. past_arg. done.
Qed.

(** Everything but the last branch refuses an equality. *)
Lemma reaches_eq src p t :
  src ∈ [SOURCE_PARAM; SOURCE_HEADER] → arg_ok p →
  tryParseRequestCondition (call src p ++ js " == " ++ t)
  = Ok (tryParseEqCondition (call src p ++ js " == " ++ t)).
Proof.
  intros Hs Hp. unfold tryParseRequestCondition, tryParseParamHas, tryParseParamCmp.
  assert (Htime : tryParseTimeCondition (call src p ++ js " == " ++ t) = None).
  { rewrite call_app. apply time_none. unfold SOURCE_PARAM, SOURCE_HEADER in Hs. set_solver. }
  rewrite Htime. set (e := call src p ++ js " == " ++ t).
  apply elem_of_cons in Hs as [->|Hs]; [|apply elem_of_cons in Hs as [->|Hs]; [|by apply elem_of_nil in Hs]].
  - destruct (foreign (jsq "('" ++ p ++ jsq "')" ++ js " == " ++ t)) as (H1 & H2 & _).
    destruct (param_guard_none p (js " == " ++ t) Hp) as [H3 H4]; [done|].
    pose proof (param_exists_none p (js " == " ++ t) Hp) as H5. specialize (H5 eq_refl).
    rewrite <- call_app in H1, H2. unfold e, SOURCE_PARAM. by rewrite H1, H5, H2, H3, H4.
  - destruct (foreign (jsq "('" ++ p ++ jsq "')" ++ js " == " ++ t)) as (_ & _ & H1 & H2 & H3 & H4 & _).
    pose proof (header_exists_none p (js " == " ++ t) Hp) as H5. specialize (H5 eq_refl).
    rewrite <- call_app in H1, H2, H3, H4. unfold e, SOURCE_HEADER. by rewrite H5, H1, H2, H3, H4.
Qed.

Lemma parse_eq src p v :
  src ∈ [SOURCE_PARAM; SOURCE_HEADER] → arg_ok p → trim v = v → literal v →
  tryParseRequestCondition (call src p ++ js " == " ++ buildExprLiteral MATCH_EQ v)
  = Ok (Some (ParamHeaderCondition src p MATCH_EQ v)).
Proof.
  intros Hs Hp Ht Hl. rewrite reaches_eq by done. unfold tryParseEqCondition.
  assert (He : exec eq_re (call src p ++ js " == " ++ buildExprLiteral MATCH_EQ v)
    = Some (mkM (after (Some 32%N) (buildExprLiteral MATCH_EQ v)) []
              [(1%nat, src); (2%nat, p); (3%nat, buildExprLiteral MATCH_EQ v)])).
  { destruct Hp as [? ?]. unfold eq_re. rewrite exec_bol, call_app, m_seqs_cons.
    destruct (literal_no_newline v Ht Hl) as [Hne Hnl].
    assert (Hcap : ∀ k : mst → option mst, ∀ t,
      m (Cap 1 (alts [lit (js "param"); lit (js "header")])) k (mkM None (src ++ t) [])
      = k (mkM (after None src) t [(1%nat, src)])).
    { intros k t. apply elem_of_cons in Hs as [->|Hs]; [|apply elem_of_cons in Hs as [->|Hs]; [|by apply elem_of_nil in Hs]].
      - by apply (m_cap_alts_lit 1 [] SOURCE_PARAM [SOURCE_HEADER]); repeat constructor.
      - by apply (m_cap_alts_lit 1 [SOURCE_PARAM] SOURCE_HEADER []); repeat constructor. }
    rewrite Hcap. past_arg. past_lit. rewrite m_seqs_cons.
    rewrite <- (app_nil_r (buildExprLiteral MATCH_EQ v)) at 1.
    rewrite m_cap_plus_until by done. done. }
  rewrite He. cbn [mbind option_bind]. change (grp 3 _) with (buildExprLiteral MATCH_EQ v).
  rewrite parse_literal by done. done.
Qed.

(** A quoted plain literal. *)
Lemma m_string_lit {R} n (k : mst → option R) b v t cs :
  plain v →
  m (Cap n string_lit_re) k (mkM b ((jsq "'" ++ v ++ jsq "'") ++ t) cs)
  = k (mkM (Some 34%N) t (map_set n (jsq "'" ++ v ++ jsq "'") cs)).
Proof.
  intros Hv. rewrite m_cap. unfold string_lit_re. rewrite m_seqs_cons.
  set (k' := capture _ _ _). rewrite <- !app_assoc.
  change (jsq "'" ++ v ++ jsq "'" ++ t) with (34%N :: v ++ 34%N :: t). rewrite m_chr_eq, m_seqs_cons.
  rewrite m_star_alt_until.
  - rewrite m_seqs_cons, m_chr_eq. unfold k'. cbn [seqs foldr m].
    change (Some 34%N) with (after b (jsq "'")). by rewrite capture_app.
  - eapply Forall_impl; [exact Hv|]. intros c Hc.
    unfold is_not, plain_char in *. cbn [existsb] in Hc. lia.
  - done.
  - intros k1 b1 c t1 cs1 Hc. rewrite m_seqs_cons. apply m_chr_ne. intros ->. done.
  - done.
  - apply refuses_seqs, refuses_chr. done.
Qed.

Lemma parse_header_contains p v :
  arg_ok p → plain v →
  tryParseRequestCondition (js "has(" ++ call SOURCE_HEADER p ++ js ", " ++ (jsq "'" ++ v ++ jsq "'") ++ js ")")
  = Ok (Some (ParamHeaderCondition SOURCE_HEADER p MATCH_CONTAINS v)).
Proof.
  intros [? ?] Hv. unfold tryParseRequestCondition. rewrite time_none by set_solver.
  set (t := call SOURCE_HEADER p ++ _).
  destruct (foreign t) as (_ & _ & _ & _ & _ & _ & H1 & H2). rewrite H1, H2. unfold t.
  unfold header_has_re. rewrite exec_bol, call_app, m_seqs_cons.
  rewrite (app_assoc (js "has(")). change (js "has(" ++ SOURCE_HEADER) with (js "has(header").
  rewrite m_lit. past_arg. past_lit.
  rewrite m_seqs_cons, m_string_lit by done. 
  rewrite <- (app_nil_r (js ")")), m_seqs_cons, m_lit. cbn [seqs foldr m rest].
  change (grp 2 _) with (jsq "'" ++ v ++ jsq "'"). rewrite <- quote_plain by done.
  unfold JSON_parse_string. by rewrite JSON_parse_quote.
Qed.

(** ** Time conditions *)

Lemma m_cap_num {R} n (k : mst → option R) b w t cs :
  numtext w → stops is_numchar t → refuses is_numchar k →
  m (Cap n num_re) k (mkM b (w ++ t) cs) = k (mkM (after b w) t (map_set n w cs)).
Proof. intros [? ?] ? ?. by apply m_cap_plus_until. Qed.

Lemma time_func_cap {R} (k : mst → option R) b f t cs :
  f ∈ TIME_FUNCS →
  m (Cap 1 time_func_re) k (mkM b (f ++ jsq "('" ++ t) cs)
  = k (mkM (after b f) (jsq "('" ++ t) (map_set 1%nat f cs)).
Proof.
  intros Hf. unfold time_func_re.
  apply list_elem_of_split in Hf as (l1 & l2 & Hl). rewrite Hl. apply m_cap_alts_lit.
  unfold TIME_FUNCS in Hl.
  do 5 (destruct l1 as [|? l1]; injection Hl as <- Hl; [subst; by repeat constructor|]).
  by destruct l1.
Qed.

Definition range_text (f tz a b : jsstr) : jsstr :=
  call f tz ++ js " >= " ++ a ++ js " || " ++ call f tz ++ js " < " ++ b.

Lemma m_time_range_body {R} l (k : mst → option R) b0 f tz a b t :
  f ∈ TIME_FUNCS → arg_ok tz → numtext a → numtext b → stops is_numchar t →
  refuses is_numchar (m (seqs l) k) →
  ∃ b', m (seqs (time_range_body ++ l)) k (mkM b0 (range_text f tz a b ++ t) [])
  = m (seqs l) k (mkM b' t [(1%nat, f); (2%nat, tz); (3%nat, a); (4%nat, b)]).
Proof.
  intros Hf [Htz1 Htz2] Ha Hb Ht Hk. unfold time_range_body, range_text.
  rewrite <- !app_assoc, !call_app. cbn [app]. rewrite m_seqs_cons, time_func_cap by done.
  rewrite <- app_assoc, m_quoted_arg by done. cbn [app].
  rewrite m_seqs_cons, m_lit, m_seqs_cons, m_cap_num by (done || by apply refuses_seqs, refuses_lit).
  rewrite m_seqs_cons, m_lit, m_seqs_cons, (m_back 1 f) by done.
  rewrite m_seqs_cons, m_lit, m_seqs_cons, (m_back 2 tz) by done.
  rewrite m_seqs_cons, m_lit, m_seqs_cons, m_lit, m_seqs_cons, m_cap_num by done.
  by eexists.
Qed.

Lemma parse_range f tz a b :
  f ∈ TIME_FUNCS → arg_ok tz → numtext a → numtext b →
  tryParseTimeCondition (range_text f tz a b) = Some (TimeCondition f tz MATCH_RANGE [] a b).
Proof.
  intros. unfold tryParseTimeCondition, time_range_re. rewrite exec_bol.
  rewrite <- (app_nil_r (range_text f tz a b)).
  destruct (m_time_range_body [Eol] Some None f tz a b []) as [b' ->]; try done.
Qed.

Lemma parse_range_paren f tz a b :
  f ∈ TIME_FUNCS → arg_ok tz → numtext a → numtext b →
  tryParseTimeCondition (js "(" ++ range_text f tz a b ++ js ")") = Some (TimeCondition f tz MATCH_RANGE [] a b).
Proof.
  intros. unfold tryParseTimeCondition, time_range_re, time_range_paren_re. rewrite exec_bol.
  replace (m (seqs (time_range_body ++ [Eol])) Some _) with (@None mst) by done.
  rewrite exec_bol. cbn [app]. rewrite m_seqs_cons, m_lit.
  destruct (m_time_range_body [lit (js ")"); Eol] Some (after None (js "(")) f tz a b (js ")"))
    as [b' ->]; try done. by apply refuses_seqs, refuses_lit.
Qed.

Definition time_text (f tz op v : jsstr) : jsstr := call f tz ++ js " " ++ op ++ js " " ++ v.

Lemma time_range_none f tz op v :
  f ∈ TIME_FUNCS → arg_ok tz → numtext v → op ∈ [js "=="; js ">="; js "<"] →
  exec time_range_re (time_text f tz op v) = None.
Proof.
  intros Hf [? ?] Hv Ho. unfold time_range_re, time_text, time_range_body. rewrite exec_bol, call_app.
  cbn [app]. rewrite m_seqs_cons, time_func_cap by done. rewrite <- app_assoc, m_quoted_arg by done.
  cbn [app]. rewrite m_seqs_cons.
  repeat (apply elem_of_cons in Ho as [->|Ho]; [try done|]); [|by apply elem_of_nil in Ho].
  change (js " " ++ js ">=" ++ js " " ++ v) with (js " >= " ++ v). rewrite m_lit, m_seqs_cons.
  rewrite <- (app_nil_r v). rewrite m_cap_num by (done || by apply refuses_seqs, refuses_lit). done.
Qed.

Lemma time_paren_none f t : f ∈ TIME_FUNCS → exec time_range_paren_re (f ++ t) = None.
Proof.
  intros Hf. unfold time_range_paren_re. rewrite exec_bol. unfold TIME_FUNCS in Hf.
  repeat (apply elem_of_cons in Hf as [->|Hf]; [done|]). by apply elem_of_nil in Hf.
Qed.

Lemma parse_time f tz mode op v :
  f ∈ TIME_FUNCS → arg_ok tz → numtext v →
  (op, mode) ∈ time_op_modes →
  tryParseTimeCondition (time_text f tz op v) = Some (TimeCondition f tz mode v [] []).
Proof.
  intros Hf Htz Hv Hop. unfold tryParseTimeCondition.
  assert (Ho : op ∈ [js "=="; js ">="; js "<"]) by (unfold time_op_modes in Hop; set_solver).
  rewrite time_range_none by done. unfold time_text at 1. rewrite call_app, time_paren_none by done.
  unfold time_cmp_re, time_text. destruct Htz. rewrite exec_bol, call_app.
  cbn [app]. rewrite m_seqs_cons, time_func_cap, m_quoted_arg by done. cbn [app].
  rewrite m_seqs_cons, m_lit, m_seqs_cons.
  assert (Hcap : ∀ (k : mst → option mst) b t cs,
    m (Cap 3 (alts [lit (js "=="); lit (js ">="); lit (js "<")])) k (mkM b (op ++ js " " ++ t) cs)
    = k (mkM (after b op) (js " " ++ t) (map_set 3%nat op cs))).
  { intros k b t cs. repeat (apply elem_of_cons in Ho as [->|Ho]);
      [apply (m_cap_alts_lit 3 [] (js "==") [js ">="; js "<"])
      |apply (m_cap_alts_lit 3 [js "=="] (js ">=") [js "<"])
      |apply (m_cap_alts_lit 3 [js "=="; js ">="] (js "<") [])|by apply elem_of_nil in Ho]; by repeat constructor. }
  rewrite Hcap, m_seqs_cons, m_lit, m_seqs_cons. rewrite <- (app_nil_r v) at 1.
  rewrite m_cap_num by done. cbn [seqs foldr m rest].
  unfold time_op_modes in Hop.
  repeat (apply elem_of_cons in Hop as [[= -> ->]|Hop]; [done|]). by apply elem_of_nil in Hop.
Qed.

(** ** What the builder prints *)

(** The text of a supported condition. *)
Definition cond_text (c : RequestCondition) : jsstr :=
  match c with
  | TimeCondition f tz mode v a b =>
      if decide (mode = MATCH_RANGE) then range_text f tz a b
      else time_text f tz (default [] (map_get mode time_mode_ops)) v
  | ParamHeaderCondition src p mode v =>
      if decide (mode = MATCH_EXISTS)
      then call src p ++ (if decide (src = SOURCE_HEADER) then jsq " != ''" else js " != nil")
      else if decide (mode = MATCH_CONTAINS)
      then js "has(" ++ call src p ++ js ", " ++ (jsq "'" ++ v ++ jsq "'") ++ js ")"
      else call src p ++ js " == " ++ buildExprLiteral MATCH_EQ v
  end.

Ltac cases_in H := repeat (apply elem_of_cons in H as [->|H]; [|]); [..|by apply elem_of_nil in H].

Lemma normalize_supported c : supported c → normalizeCondition (partial_of c) = c.
Proof.
  destruct 1 as [f tz a b Hf Htz _ _ _|f tz mode v Hf Htz _ _ Hm|src p Hs _ _ _|src p v Hs _ _ _ _ _|p v _ _ _ _ _];
    unfold normalizeCondition; cbn [partial_of c_source c_timeFunc c_timezone c_mode c_value c_rangeStart
      c_rangeEnd c_path isTimeFunc default].
  - rewrite (proj2 (set_has_spec f TIME_FUNCS) Hf). destruct tz; done.
  - rewrite (proj2 (set_has_spec f TIME_FUNCS) Hf). destruct tz; [done|]. by cases_in Hm.
  - by cases_in Hs.
  - by cases_in Hs.
  - done.
Qed.

Lemma build_supported c : supported c → buildRequestConditionExpr c = cond_text c.
Proof.
  intros Hc. unfold buildRequestConditionExpr. rewrite normalize_supported by done.
  destruct Hc as [f tz a b Hf Htz Hpt Ha Hb|f tz mode v Hf Htz Hpt Hv Hm|src p Hs Hne Ht Hp
                 |src p v Hs Hne Ht Hp Htv Hl|p v Hne Ht Hp Htv Hl]; cbn [buildNormalized cond_text].
  - unfold buildNormalizedTime, range_text. rewrite !numeric_trim, Ha, Hb by done.
    rewrite call_quote by done. done.
  - unfold buildNormalizedTime, time_text. rewrite (numeric_trim v), Hv by done.
    rewrite call_quote by done. by cases_in Hm.
  - unfold buildNormalizedParamHeader. rewrite Ht. destruct p as [|c p]; [done|].
    cases_in Hs; [by rewrite <- param_quote|by rewrite <- header_quote].
  - unfold buildNormalizedParamHeader. rewrite Ht. destruct p as [|c p]; [done|].
    cases_in Hs; [by rewrite <- param_quote|by rewrite <- header_quote].
  - unfold buildNormalizedParamHeader, buildExprLiteral. rewrite Ht, Htv. destruct p as [|c p]; [done|].
    rewrite (quote_plain v) by done. by rewrite <- header_quote.
Qed.

Lemma time_mode_ne mode : mode ∈ [MATCH_EQ; MATCH_GTE; MATCH_LT] → mode ≠ MATCH_RANGE.
Proof.
  intros H ->. repeat (apply elem_of_cons in H as [H|H]; [by vm_compute in H|]). by apply elem_of_nil in H.
Qed.

Lemma parse_cond_text c : supported c → tryParseRequestCondition (cond_text c) = Ok (Some c).
Proof.
  destruct 1 as [f tz a b Hf Htz Hpt Ha Hb|f tz mode v Hf Htz Hpt Hv Hm|src p Hs Hne Ht Hp
                 |src p v Hs Hne Ht Hp Htv Hl|p v Hne Ht Hp Htv Hl]; cbn [cond_text].
  - unfold tryParseRequestCondition. rewrite decide_True by done.
    rewrite parse_range; [done|done|by apply plain_arg|by apply numeric_numtext..].
  - unfold tryParseRequestCondition. rewrite decide_False by by apply time_mode_ne.
    erewrite parse_time; [done|done|by apply plain_arg|by apply numeric_numtext|].
    cases_in Hm; [left|right; left|right; right; left].
  - pose proof (plain_arg p Hne Hp). cases_in Hs; [by apply parse_param_exists|by apply parse_header_exists].
  - by apply parse_eq; [|apply plain_arg|..].
  - by apply parse_header_contains; [apply plain_arg|].
Qed.

(** ** Shapes of texts *)

(** Words with balanced parentheses. *)
Inductive bal : jsstr → Prop :=
| bal_flat w : 40%N ∉ w → 41%N ∉ w → bal w
| bal_paren w : bal w → bal (40%N :: w ++ [41%N])
| bal_app u v : bal u → bal v → bal (u ++ v).

(** A word without some character. *)
Definition free (d : N) (w : jsstr) : Prop := Forall (fun c => (c =? d)%N = false) w.

Lemma free_spec d w : free d w ↔ d ∉ w.
Proof.
  unfold free. rewrite Forall_forall. split.
  - intros H Hin. specialize (H d Hin). by rewrite N.eqb_refl in H.
  - intros H c Hc. apply N.eqb_neq. by intros ->.
Qed.

Lemma free_plain d w : plain w → plain_char d = false → free d w.
Proof. intros. by apply free_spec, plain_fresh. Qed.

Lemma free_numeric d w : numeric w → is_numchar d = false → free d w.
Proof. intros. by apply free_spec, numtext_fresh; [apply numeric_numtext|]. Qed.

Lemma free_func d f : f ∈ TIME_FUNCS → is_word d = false → free d f.
Proof.
  intros Hf Hd. apply free_spec. intros Hin. unfold TIME_FUNCS in Hf.
  assert (H : Forall (fun f => forallb is_word f = true) TIME_FUNCS) by by repeat constructor.
  rewrite Forall_forall in H. specialize (H f Hf). rewrite forallb_forall in H.
  rewrite (H d) in Hd; [done|]. by apply list_elem_of_In.
Qed.

Lemma free_call d f p : free d f → free d p → free d (jsq "('')") → free d (call f p).
Proof.
  intros Hf Hp Hq. unfold call. apply Forall_app; split; [done|].
  change (jsq "('')") with (jsq "('" ++ jsq "')") in Hq. apply Forall_app in Hq as [Hq1 Hq2].
  apply Forall_app; split; [done|]. by apply Forall_app.
Qed.

Lemma free_literal d v :
  trim v = v → literal v → plain_char d = false → d ≠ 34%N → is_word d = false → is_numchar d = false →
  free d (buildExprLiteral MATCH_EQ v).
Proof.
  intros Ht Hl Hp Hd Hw Hn. destruct (literal_cases v Ht Hl) as [[-> Hv]|[-> Hv]].
  - destruct Hv as [->|[->|Hv]]; [| |by apply free_numeric]; apply free_spec; intros Hin.
    + assert (H : forallb is_word (js "true") = true) by done. rewrite forallb_forall in H.
      rewrite (H d) in Hw; [done|]. by apply list_elem_of_In.
    + assert (H : forallb is_word (js "false") = true) by done. rewrite forallb_forall in H.
      rewrite (H d) in Hw; [done|]. by apply list_elem_of_In.
  - assert (Hq : free d (jsq "'")) by (constructor; [|constructor]; by apply N.eqb_neq).
    apply Forall_app; split; [done|]. apply Forall_app; split; [by apply free_plain|done].
Qed.

Ltac free_tac :=
  repeat (apply Forall_app; split);
  first [by repeat constructor | by apply free_plain | by apply free_numeric | by apply free_func
        | by apply free_literal | by apply free_call; [by repeat constructor | by apply free_plain | by repeat constructor]
        | by apply free_call; [by apply free_func | by apply free_plain | by repeat constructor] | idtac].

(** No conjunction sign anywhere; a disjunction sign only in ranges. *)
Lemma text_free_amp c : supported c → free 38 (cond_text c).
Proof.
  destruct 1 as [f tz a b Hf Htz Hpt Ha Hb|f tz mode v Hf Htz Hpt Hv Hm|src p Hs Hne Ht Hp
                 |src p v Hs Hne Ht Hp Htv Hl|p v Hne Ht Hp Htv Hl]; cbn [cond_text].
  - rewrite decide_True by done. unfold range_text. free_tac.
  - rewrite decide_False by by apply time_mode_ne. unfold time_text. cases_in Hm; free_tac.
  - cases_in Hs; (rewrite decide_True by done); free_tac.
  - cases_in Hs; free_tac.
  - free_tac.
Qed.

Definition is_range (c : RequestCondition) : bool :=
  match c with TimeCondition _ _ mode _ _ _ => str_eqb mode MATCH_RANGE | _ => false end.

Lemma text_free_bar c : supported c → is_range c = false → free 124 (cond_text c).
Proof.
  destruct 1 as [f tz a b Hf Htz Hpt Ha Hb|f tz mode v Hf Htz Hpt Hv Hm|src p Hs Hne Ht Hp
                 |src p v Hs Hne Ht Hp Htv Hl|p v Hne Ht Hp Htv Hl]; intros Hr; cbn [cond_text].
  - done.
  - rewrite decide_False by by apply time_mode_ne. unfold time_text. cases_in Hm; free_tac.
  - cases_in Hs; (rewrite decide_True by done); free_tac.
  - cases_in Hs; free_tac.
  - free_tac.
Qed.

Lemma range_includes c : supported c → includes (js " || ") (cond_text c) = is_range c.
Proof.
  intros Hc. destruct (is_range c) eqn:E.
  - apply includes_spec. destruct Hc as [f tz a b| | | |]; try done.
    + exists (call f tz ++ js " >= " ++ a), (call f tz ++ js " < " ++ b).
      cbn [cond_text]. rewrite decide_True by done. unfold range_text. by rewrite <- !app_assoc.
    + unfold is_range, str_eqb in E. apply bool_decide_eq_true in E.
      by apply time_mode_ne in E.
  - destruct (includes _ _) eqn:Hi; [|done]. apply includes_spec in Hi as (a & b & Hi).
    pose proof (text_free_bar c Hc E) as Hf. apply free_spec in Hf. rewrite Hi in Hf.
    destruct Hf. apply elem_of_app. right. apply elem_of_app. left. right. left.
Qed.

Lemma bal_free w : free 40 w → free 41 w → bal w.
Proof. intros. by apply bal_flat; apply free_spec. Qed.

Lemma bal_call f p : free 40 f → free 41 f → plain p → bal (call f p).
Proof.
  intros H1 H2 Hp. unfold call. apply bal_app; [by apply bal_free|].
  change (bal (40%N :: 34%N :: p ++ [34%N] ++ [41%N])).
  replace (40%N :: 34%N :: p ++ [34%N] ++ [41%N]) with (40%N :: ((34%N :: p ++ [34%N]) ++ [41%N]))
    by (cbn; by rewrite <- app_assoc).
  apply bal_paren, bal_free; (constructor; [done|]; apply Forall_app; split;
    [by apply free_plain|by repeat constructor]).
Qed.

Ltac bal_tac :=
  repeat first [ apply bal_call; [by repeat constructor | by repeat constructor | done]
               | apply bal_call; [by apply free_func | by apply free_func | done]
               | apply bal_free; [by repeat constructor | by repeat constructor]
               | apply bal_free; [by apply free_numeric | by apply free_numeric]
               | apply bal_free; [by apply free_literal | by apply free_literal]
               | apply bal_app ].

Lemma text_bal c : supported c → bal (cond_text c).
Proof.
  destruct 1 as [f tz a b Hf Htz Hpt Ha Hb|f tz mode v Hf Htz Hpt Hv Hm|src p Hs Hne Ht Hp
                 |src p v Hs Hne Ht Hp Htv Hl|p v Hne Ht Hp Htv Hl]; cbn [cond_text].
  - rewrite decide_True by done. unfold range_text. bal_tac.
  - rewrite decide_False by by apply time_mode_ne. unfold time_text. cases_in Hm; bal_tac.
  - cases_in Hs; (rewrite decide_True by done); bal_tac.
  - cases_in Hs; bal_tac.
  - change (bal (js "has" ++ 40%N :: call SOURCE_HEADER p ++ js ", " ++ (jsq "'" ++ v ++ jsq "'") ++ [41%N])).
    apply bal_app; [bal_tac|].
    rewrite (app_assoc (js ", ")), (app_assoc (call _ _)). apply bal_paren.
    apply bal_app; [bal_tac|]. apply bal_app; [bal_tac|].
    by apply bal_free; free_tac.
Qed.

Lemma last_numtext s : numtext s → ∃ d, last s = Some d ∧ is_ws d = false.
Proof.
  intros [Hne Hf]. destruct (last s) as [d|] eqn:E; [|by apply last_None in E].
  exists d. split; [done|]. apply numchar_not_ws. rewrite Forall_forall in Hf. apply Hf.
  by apply last_Some_elem_of.
Qed.

Lemma last_literal v : trim v = v → literal v →
  ∃ d, last (buildExprLiteral MATCH_EQ v) = Some d ∧ is_ws d = false.
Proof.
  intros Ht Hl. destruct (literal_cases v Ht Hl) as [[-> Hv]|[-> Hv]].
  - destruct Hv as [->|[->|Hv]]; [by eexists..|]. by apply last_numtext, numeric_numtext.
  - exists 34%N. split; [|done]. rewrite app_assoc. apply last_snoc.
Qed.

Lemma last_app_Some {A} (u v : list A) d : last v = Some d → last (u ++ v) = Some d.
Proof. intros H. by rewrite last_app, H. Qed.

Lemma head_func f t : f ∈ TIME_FUNCS → ∃ c, head (f ++ t) = Some c ∧ is_ws c = false.
Proof. intros Hf. unfold TIME_FUNCS in Hf. cases_in Hf; by eexists. Qed.

(** A text begins and ends with characters that are not white space. *)
Lemma text_trim c : supported c → trim (cond_text c) = cond_text c ∧ cond_text c ≠ [].
Proof.
  intros Hc.
  enough (∃ x y, head (cond_text c) = Some x ∧ last (cond_text c) = Some y ∧ is_ws x = false ∧ is_ws y = false)
    as (x & y & Hx & Hy & ? & ?) by (split; [by eapply trim_ends|]; intros Hn; by rewrite Hn in Hx).
  destruct Hc as [f tz a b Hf Htz Hpt Ha Hb|f tz mode v Hf Htz Hpt Hv Hm|src p Hs Hne Ht Hp
                 |src p v Hs Hne Ht Hp Htv Hl|p v Hne Ht Hp Htv Hl]; cbn [cond_text].
  - rewrite decide_True by done. unfold range_text, call. rewrite <- !app_assoc.
    destruct (head_func f (jsq "('" ++ tz ++ jsq "')" ++ js " >= " ++ a ++ js " || " ++ f ++ jsq "('"
      ++ tz ++ jsq "')" ++ js " < " ++ b) Hf) as (x & Hx & ?).
    destruct (last_numtext b) as (y & Hy & ?); [by apply numeric_numtext|]. exists x, y.
    repeat split; try done. by repeat apply last_app_Some.
  - rewrite decide_False by by apply time_mode_ne. unfold time_text. rewrite call_app.
    set (t := jsq "('" ++ _). destruct (head_func f t Hf) as (x & Hx & ?).
    destruct (last_numtext v) as (y & Hy & ?); [by apply numeric_numtext|]. exists x, y.
    repeat split; try done. unfold t. by repeat apply last_app_Some.
  - cases_in Hs; (rewrite decide_True by done); eexists _, _; (repeat split); by rewrite ?last_app.
  - destruct (last_literal v Htv Hl) as (y & Hy & ?).
    cases_in Hs; eexists _, y; (repeat split); try done; by do 2 apply last_app_Some.
  - eexists _, _. split; [done|]. split; [by do 4 apply last_app_Some|]. done.
Qed.

(** ** Splitting *)

Definition walk (d : Z) (w : jsstr) : Z := foldl bump d w.

Lemma bump_flat d c : c ≠ 40%N → c ≠ 41%N → bump d c = d.
Proof. intros H1 H2. unfold bump. by rewrite !(proj2 (N.eqb_neq _ _)). Qed.

Lemma walk_flat d w : 40%N ∉ w → 41%N ∉ w → walk d w = d.
Proof.
  revert d. induction w as [|c w IH]; intros d H1 H2; [done|]. cbn. unfold walk in IH.
  rewrite bump_flat by set_solver. apply IH; set_solver.
Qed.

Lemma walk_bal w d : bal w → walk d w = d.
Proof.
  intros H. revert d. induction H as [w H1 H2|w Hw IH|u v Hu IHu Hv IHv]; intros d.
  - by apply walk_flat.
  - unfold walk. cbn [foldl]. rewrite foldl_app. fold (walk (bump d 40) w). rewrite IH. cbn. lia.
  - unfold walk. rewrite foldl_app. fold (walk d u). rewrite IHu. apply IHv.
Qed.

Lemma reverse_app_cons {A} (w : list A) c cur : reverse w ++ c :: cur = reverse (c :: w) ++ cur.
Proof. by rewrite reverse_cons, <- app_assoc. Qed.

(** No split inside balanced text at a positive depth. *)
Lemma splitMultiply_inside w d cur s :
  bal w → (1 <= d)%Z → splitMultiply_go d cur (w ++ s) = splitMultiply_go d (reverse w ++ cur) s.
Proof.
  intros H. revert d cur s. induction H as [w H1 H2|w Hw IH|u v Hu IHu Hv IHv]; intros d cur s Hd.
  - revert cur. induction w as [|c w IHw]; intros cur; [done|]. cbn [app splitMultiply_go].
    rewrite bump_flat by set_solver. replace (d =? 0)%Z with false by (symmetry; lia). cbn [andb].
    rewrite IHw by set_solver. by rewrite reverse_app_cons.
  - cbn [app splitMultiply_go]. change (bump d 40) with (d + 1)%Z.
    replace (d + 1 =? 0)%Z with false by (symmetry; lia). cbn [andb].
    rewrite <- app_assoc, IH by lia. cbn [app splitMultiply_go].
    replace (bump (d + 1) 41) with d by (unfold bump; cbn; lia).
    replace (d =? 0)%Z with false by (symmetry; lia). cbn [andb].
    by rewrite reverse_cons, reverse_app, <- !app_assoc.
  - rewrite <- app_assoc, IHu, IHv by done. by rewrite reverse_app, app_assoc.
Qed.

(** A parenthesized part at depth zero. *)
Lemma splitMultiply_part w s :
  bal w → splitMultiply_go 0 [] ((40%N :: w ++ [41%N]) ++ s)
          = splitMultiply_go 0 (reverse (40%N :: w ++ [41%N])) s.
Proof.
  intros Hw. cbn [app splitMultiply_go]. change (bump 0 40) with 1%Z. cbn [Z.eqb andb].
  rewrite <- app_assoc, splitMultiply_inside by done. cbn [app splitMultiply_go].
  change (bump 1 41) with 0%Z. cbn [Z.eqb andb]. change (starts_with (js " * ") (41%N :: s)) with false.
  cbn iota. by rewrite reverse_cons, reverse_app.
Qed.

Definition part_ok (p : jsstr) : Prop := ∃ w, bal w ∧ p = 40%N :: w ++ [41%N].

Lemma part_trim p : part_ok p → trim p = p ∧ p ≠ [].
Proof.
  intros (w & _ & ->). split; [|done]. apply (trim_ends _ 40 41); [done| |done|done].
  by apply (last_app_Some (40%N :: w)).
Qed.

Lemma splitMultiply_join ps :
  Forall part_ok ps → ps ≠ [] → splitMultiply_go 0 [] (join (js " * ") ps) = ps.
Proof.
  intros Hps. induction Hps as [|p ps Hp Hps IH]; [done|]. intros _.
  destruct (part_trim p Hp) as [Ht _]. destruct Hp as (w & Hw & ->). destruct ps as [|q ps].
  - cbn [join]. rewrite <- (app_nil_r (40%N :: w ++ [41%N])) at 1. rewrite splitMultiply_part by done.
    cbn [splitMultiply_go]. by rewrite reverse_involutive, Ht.
  - change (join (js " * ") ((40%N :: w ++ [41%N]) :: q :: ps))
      with ((40%N :: w ++ [41%N]) ++ js " * " ++ join (js " * ") (q :: ps)).
    rewrite splitMultiply_part by done.
    change (splitMultiply_go 0 ?cur (js " * " ++ ?s)) with (trim (reverse cur) :: splitMultiply_go 0 [] s).
    by rewrite reverse_involutive, Ht, IH.
Qed.

Lemma splitTopLevelMultiply_join ps :
  Forall part_ok ps → splitTopLevelMultiply (join (js " * ") ps) = ps.
Proof.
  intros Hps. destruct ps as [|p ps]; [done|]. unfold splitTopLevelMultiply.
  rewrite splitMultiply_join by done. apply List_filter_all.
  eapply Forall_impl; [exact Hps|]. intros q Hq. by apply nonempty_true, part_trim.
Qed.

(** The conjunction splitter moves over text without its sign. *)
Lemma splitAnd_over w d cur s :
  free 38 w → head s ≠ Some 38%N →
  splitAnd_go d cur (w ++ s) = splitAnd_go (walk d w) (reverse w ++ cur) s.
Proof.
  intros Hw Hs. revert d cur. induction Hw as [|c w Hc Hw IH]; intros d cur; [done|].
  cbn [app splitAnd_go].
  replace (starts_with (js " && ") (c :: w ++ s)) with false.
  - rewrite andb_false_r, IH. by rewrite reverse_app_cons.
  - symmetry. change (js " && ") with (32%N :: 38%N :: js "& "). cbn [starts_with].
    destruct (32 =? c)%N; [|done]. cbn [andb].
    destruct w as [|c' w]; cbn [app].
    + destruct s as [|c' s]; [done|]. cbn [starts_with]. replace (38 =? c')%N with false; [done|].
      symmetry. apply N.eqb_neq. intros <-. by apply Hs.
    + apply Forall_cons in Hw as [Hc' _]. cbn [starts_with]. by replace (38 =? c')%N with false by (symmetry; lia).
Qed.

Definition conjunct_ok (e : jsstr) : Prop := free 38 e ∧ bal e ∧ trim e = e ∧ e ≠ [].

Lemma splitTopLevelAnd_join es :
  Forall conjunct_ok es → splitTopLevelAnd (join (js " && ") es) = es.
Proof.
  intros Hes. destruct es as [|e0 es0]; [done|]. unfold splitTopLevelAnd.
  enough (splitAnd_go 0 [] (join (js " && ") (e0 :: es0)) = e0 :: es0) as ->.
  { apply List_filter_all. eapply Forall_impl; [exact Hes|]. intros e (_ & _ & _ & He). by apply nonempty_true. }
  revert e0 Hes. induction es0 as [|e1 es IH]; intros e Hes; apply Forall_cons in Hes as [(Hf & Hb & Ht & _) Hes].
  - cbn [join]. rewrite <- (app_nil_r e) at 1. rewrite splitAnd_over by done.
    cbn [splitAnd_go]. by rewrite app_nil_r, reverse_involutive, Ht.
  - change (join (js " && ") (e :: e1 :: es)) with (e ++ js " && " ++ join (js " && ") (e1 :: es)).
    rewrite splitAnd_over, walk_bal by done.
    change (splitAnd_go 0 ?cur (js " && " ++ ?s)) with (trim (reverse cur) :: splitAnd_go 0 [] s).
    by rewrite app_nil_r, reverse_involutive, Ht, IH.
Qed.

(** ** One factor *)

Lemma free_suffix d w u v : free d w → w = u ++ v → free d v.
Proof. intros Hw ->. by apply Forall_app in Hw as [_ ?]. Qed.

Lemma not_starts_free d p s : d ∈ p → free d s → starts_with p s = false.
Proof.
  intros Hd Hs. destruct (starts_with p s) eqn:E; [|done].
  apply starts_with_spec in E as [t ->]. apply Forall_app in Hs as [Hp _].
  by apply free_spec in Hp.
Qed.

Lemma exec_factor u mult :
  u ≠ [] → numtext mult →
  ∃ st, exec factor_re (js "(" ++ u ++ js " ? " ++ mult ++ js " : 1)") = Some st
        ∧ grp 1 st = u ∧ grp 2 st = mult.
Proof.
  intros Hu Hm. eexists. split; [|split].
  { unfold factor_re. rewrite exec_bol, m_seqs_cons, m_lit, m_seqs_cons.
    apply m_cap_any_longest; [done| |].
    - intros b' v1 c v2 cs' Hv. rewrite m_seqs_cons. apply m_lit_none.
      destruct v1 as [|c1 v1]; [injection Hv as _ <-; done|]. injection Hv as _ Hv.
      destruct v1 as [|c2 v1]; injection Hv as _ Hv.
      + subst v2. destruct Hm as [_ Hm]. destruct mult as [|x mult]; [done|].
        apply Forall_cons in Hm as [Hx _]. change (js " ? ") with (32%N :: 63%N :: [32%N]).
        cbn [app starts_with]. destruct (63 =? x)%N eqn:E; [|done]. apply N.eqb_eq in E as <-. done.
      + apply (not_starts_free 63); [right; left|]. apply (free_suffix _ (32%N :: mult ++ js " : 1)") (v1 ++ [c])).
        * constructor; [done|]. apply Forall_app; split; [|by repeat constructor].
          apply free_spec. by apply numtext_fresh.
        * by rewrite <- app_assoc.
    - rewrite m_seqs_cons, m_lit, m_seqs_cons, m_cap_num; [|done|done|by apply refuses_seqs, refuses_lit].
      rewrite <- (app_nil_r (js " : 1)")), m_seqs_cons, m_lit. reflexivity. }
  all: done.
Qed.

Definition wrap (c : RequestCondition) : jsstr :=
  if is_range c then js "(" ++ cond_text c ++ js ")" else cond_text c.

Lemma parse_wrap c : supported c → tryParseRequestCondition (wrap c) = Ok (Some c).
Proof.
  intros Hc. unfold wrap. destruct (is_range c) eqn:E; [|by apply parse_cond_text].
  destruct Hc as [f tz a b Hf Htz Hpt Ha Hb|f tz mode v Hf Htz Hpt Hv Hm| | |]; try done.
  - unfold tryParseRequestCondition. cbn [cond_text]. rewrite decide_True by done.
    by rewrite parse_range_paren; [|done|apply plain_arg|apply numeric_numtext..].
  - unfold is_range, str_eqb in E. apply bool_decide_eq_true in E. by apply time_mode_ne in E.
Qed.

Lemma text_conjunct c : supported c → conjunct_ok (cond_text c).
Proof.
  intros Hc. split; [by apply text_free_amp|]. split; [by apply text_bal|]. by apply text_trim.
Qed.

Lemma wrap_conjunct c : supported c → conjunct_ok (wrap c).
Proof.
  intros Hc. destruct (text_conjunct c Hc) as (H1 & H2 & H3 & H4). unfold wrap.
  destruct (is_range c); [|done]. split; [|split; [|split]].
  - constructor; [done|]. apply Forall_app; split; [done|by repeat constructor].
  - by apply (bal_paren (cond_text c)).
  - apply (trim_ends _ 40 41); [done|by do 2 apply last_app_Some|done|done].
  - done.
Qed.

(** The conjuncts as the builder joins them. *)
Definition conjuncts (cs : list RequestCondition) : list jsstr :=
  match cs with [c] => [cond_text c] | _ => map wrap cs end.

Record group_ok (g : RequestRuleGroup) : Prop := {
  ok_some : conditions g ≠ [];
  ok_supported : Forall supported (conditions g);
  ok_multiplier : numeric (multiplier g)
}.

Lemma build_texts cs :
  Forall supported cs → List.filter nonempty (map buildRequestConditionExpr cs) = map cond_text cs.
Proof.
  induction 1 as [|c cs Hc Hcs IH]; [done|]. cbn [map List.filter]. rewrite build_supported by done.
  destruct (text_trim c Hc) as [_ Hne]. apply nonempty_true in Hne. by rewrite Hne, IH.
Qed.

Lemma combine_texts cs :
  Forall supported cs → combineConditions (map cond_text cs) = join (js " && ") (conjuncts cs).
Proof.
  intros Hcs. destruct cs as [|c [|c' cs]]; [done|done|].
  change (combineConditions (map cond_text (c :: c' :: cs))) with (join (js " && ")
    (map (fun e => if includes (js " || ") e then js "(" ++ e ++ js ")" else e)
       (map cond_text (c :: c' :: cs)))).
  unfold conjuncts. f_equal. generalize dependent (c :: c' :: cs). intros l Hl. rewrite map_map.
  apply map_ext_in. intros x Hx. unfold wrap. rewrite range_includes; [done|].
  rewrite Forall_forall in Hl. apply Hl. by apply list_elem_of_In.
Qed.

Definition factor (g : RequestRuleGroup) : jsstr :=
  js "(" ++ join (js " && ") (conjuncts (conditions g)) ++ js " ? " ++ multiplier g ++ js " : 1)".

Lemma build_factor g : group_ok g → buildRuleGroupFactor g = factor g.
Proof.
  intros [Hne Hs Hm]. unfold buildRuleGroupFactor. rewrite numeric_trim, Hm, build_texts by done.
  rewrite length_map. destruct (conditions g) as [|c cs] eqn:E; [done|].
  cbn [length Nat.eqb negb]. rewrite combine_texts by done. unfold factor. by rewrite E.
Qed.

Lemma conjuncts_ok cs : Forall supported cs → Forall conjunct_ok (conjuncts cs).
Proof.
  intros Hcs. destruct cs as [|c [|c' cs]]; [constructor| |].
  - apply Forall_cons in Hcs as [Hc _]. constructor; [by apply text_conjunct|constructor].
  - unfold conjuncts. apply Forall_fmap. eapply Forall_impl; [exact Hcs|]. apply wrap_conjunct.
Qed.

Lemma parse_conjuncts cs :
  Forall supported cs → parseConditions (conjuncts cs) = Ok (Some cs).
Proof.
  intros Hcs. destruct cs as [|c0 [|c1 cs0]]; [done| |].
  - apply Forall_cons in Hcs as [Hc _]. cbn [conjuncts parseConditions].
    destruct (text_trim c0 Hc) as [-> _]. by rewrite parse_cond_text.
  - unfold conjuncts. generalize dependent (c0 :: c1 :: cs0). intros cs Hcs.
    induction Hcs as [|c cs Hc Hcs IH]; [done|]. cbn [map parseConditions].
    destruct (wrap_conjunct c Hc) as (_ & _ & -> & _). rewrite parse_wrap by done. cbn [res_bind].
    by rewrite IH.
Qed.

Lemma join_nonempty sep es : es ≠ [] → Forall (fun e => e ≠ []) es → join sep es ≠ [].
Proof. intros Hne H. destruct H as [|e es He Hes]; [done|]. destruct e; [done|]. by destruct es. Qed.

Lemma conjuncts_join cs :
  cs ≠ [] → Forall supported cs → join (js " && ") (conjuncts cs) ≠ [].
Proof.
  intros Hne Hcs. apply join_nonempty.
  - by destruct cs as [|c [|c' cs]].
  - eapply Forall_impl; [by apply conjuncts_ok|]. intros e (_ & _ & _ & ?). done.
Qed.

Lemma parse_factor g : group_ok g → tryParseRuleGroupFactor (factor g) = Ok (Some g).
Proof.
  intros [Hne Hs Hm]. unfold tryParseRuleGroupFactor, factor.
  destruct (exec_factor (join (js " && ") (conjuncts (conditions g))) (multiplier g)) as (st & -> & H1 & H2).
  { by apply conjuncts_join. }
  { by apply numeric_numtext. }
  rewrite H1, H2, splitTopLevelAnd_join, parse_conjuncts by (done || by apply conjuncts_ok).
  cbn [res_bind]. destruct g as [[|c cs] mult]; done.
Qed.

Lemma bal_join sep es : bal sep → Forall bal es → bal (join sep es).
Proof.
  intros Hsep. induction 1 as [|e es He Hes IH]; [by apply bal_flat; apply not_elem_of_nil|].
  destruct es as [|e' es]; [done|]. cbn [join]. apply bal_app; [done|]. by apply bal_app.
Qed.

Lemma factor_part g : group_ok g → part_ok (factor g).
Proof.
  intros [Hne Hs Hm]. exists (join (js " && ") (conjuncts (conditions g)) ++ js " ? " ++ multiplier g ++ js " : 1").
  split.
  - apply bal_app; [apply bal_join|].
    + apply bal_free; by repeat constructor.
    + eapply Forall_impl; [by apply conjuncts_ok|]. by intros e (_ & ? & _).
    + apply bal_free; free_tac.
  - unfold factor. change (js " : 1)") with (js " : 1" ++ [41%N]). cbn [app]. by rewrite <- !app_assoc.
Qed.

Lemma build_rules gs : Forall group_ok gs → buildRequestRuleExpr gs = join (js " * ") (map factor gs).
Proof.
  intros Hgs. unfold buildRequestRuleExpr. f_equal. induction Hgs as [|g gs Hg Hgs IH]; [done|].
  cbn [map List.filter]. rewrite build_factor by done.
  destruct (part_trim _ (factor_part g Hg)) as [_ Hne]. apply nonempty_true in Hne. by rewrite Hne, IH.
Qed.

Lemma join_parts_trim ps : Forall part_ok ps → trim (join (js " * ") ps) = join (js " * ") ps.
Proof.
  intros Hps. destruct ps as [|p ps]; [done|].
  enough (head (join (js " * ") (p :: ps)) = Some 40%N ∧ last (join (js " * ") (p :: ps)) = Some 41%N)
    as [? ?] by by eapply trim_ends.
  split.
  - apply Forall_cons in Hps as [(w & _ & ->) _]. by destruct ps.
  - revert p Hps. induction ps as [|q ps IH]; intros p Hps; apply Forall_cons in Hps as [(w & _ & ->) Hps].
    + by apply (last_app_Some (40%N :: w)).
    + cbn [join]. do 2 apply last_app_Some. by apply IH.
Qed.

Lemma parse_factors gs : Forall group_ok gs → parseGroups (map factor gs) = Ok (Some gs).
Proof.
  induction 1 as [|g gs Hg Hgs IH]; [done|]. cbn [map parseGroups]. rewrite parse_factor by done.
  cbn [res_bind]. by rewrite IH.
Qed.

Lemma factors_parts gs : Forall group_ok gs → Forall part_ok (map factor gs).
Proof. intros H. apply Forall_fmap. eapply Forall_impl; [exact H|]. apply factor_part. Qed.

Lemma parse_rules gs :
  Forall group_ok gs → tryParseRequestRuleExpr (join (js " * ") (map factor gs)) = Ok (Some gs).
Proof.
  intros Hgs. unfold tryParseRequestRuleExpr. pose proof (factors_parts gs Hgs) as Hp.
  rewrite join_parts_trim by done. destruct gs as [|g gs]; [done|].
  replace (nonempty _) with true.
  - cbn [negb]. rewrite splitTopLevelMultiply_join by done. by apply parse_factors.
  - symmetry. apply nonempty_true, join_nonempty; [done|].
    eapply Forall_impl; [exact Hp|]. intros p Hq. by apply part_trim.
Qed.

Lemma rules_read_back gs :
  Forall group_ok gs → tryParseRequestRuleExpr (buildRequestRuleExpr gs) = Ok (Some gs).
Proof. intros H. rewrite build_rules by done. by apply parse_rules. Qed.

(** C2: The rule groups of the editor survive the round trip through the
    billing expression: what is built from any list of groups with conditions of
    the supported kinds is parsed back into the same list. *)
Theorem rules_roundtrip gs :
  Forall group_ok gs → tryParseRequestRuleExpr (buildRequestRuleExpr gs) = Ok (Some gs).
Proof. apply rules_read_back. Qed.

Definition demo_group : RequestRuleGroup :=
  mkGroup [ParamHeaderCondition SOURCE_HEADER (js "x-tier") MATCH_CONTAINS (js "fast");
           TimeCondition (js "hour") (js "UTC") MATCH_RANGE [] (js "21") (js "6")] (js "0.5").

Lemma demo_group_ok : group_ok demo_group.
Proof.
  split; [done| |done]. repeat constructor; try done; by vm_compute.
Qed.

Lemma rules_roundtrip_witness :
  tryParseRequestRuleExpr (buildRequestRuleExpr [demo_group; demo_group]) = Ok (Some [demo_group; demo_group]).
Proof.
  apply (rules_roundtrip [demo_group; demo_group]).
  constructor; [exact demo_group_ok|]. constructor; [exact demo_group_ok|constructor].
Defined.

(** ** Splitting the whole expression *)

Lemma outerDepth_inside w d s :
  bal w → (1 <= d)%Z → outerDepth d (w ++ s) = outerDepth d s.
Proof.
  intros H. revert d s. induction H as [w H1 H2|w Hw IH|u v Hu IHu Hv IHv]; intros d s Hd.
  - induction w as [|c w IHw]; [done|]. cbn [app outerDepth]. rewrite bump_flat by set_solver.
    replace (d =? 0)%Z with false by (symmetry; lia). cbn [andb]. apply IHw; set_solver.
  - cbn [app outerDepth]. change (bump d 40) with (d + 1)%Z.
    replace (d + 1 =? 0)%Z with false by (symmetry; lia). cbn [andb].
    rewrite <- app_assoc, IH by lia. cbn [app outerDepth].
    replace (bump (d + 1) 41) with d by (unfold bump; cbn; lia).
    by replace (d =? 0)%Z with false by (symmetry; lia).
  - by rewrite <- app_assoc, IHu, IHv.
Qed.

Lemma parens_full w : bal w → hasFullOuterParens (40%N :: w ++ [41%N]) = true.
Proof.
  intros Hw. unfold hasFullOuterParens.
  rewrite bool_decide_eq_true_2 by by apply (last_app_Some (40%N :: w)).
  change (starts_with (js "(") (40%N :: w ++ [41%N])) with true. cbn [negb orb outerDepth].
  change (bump 0 40) with 1%Z. cbn [Z.eqb andb]. by rewrite outerDepth_inside.
Qed.

Lemma unwrap_parens w :
  bal w → trim w = w → hasFullOuterParens w = false → unwrapOuterParens (40%N :: w ++ [41%N]) = w.
Proof.
  intros Hw Ht Hf. unfold unwrapOuterParens.
  assert (Hp : part_ok (40%N :: w ++ [41%N])) by by exists w.
  destruct (part_trim _ Hp) as [-> _]. cbn [length unwrapLoop]. rewrite parens_full by done.
  unfold slice_inner. cbn [tail]. rewrite removelast_last, Ht.
  destruct (length (w ++ [41%N])) as [|n]; [done|]. cbn [unwrapLoop]. by rewrite Hf.
Qed.

(** A base expression the split can recover. *)
Record base_ok (base : jsstr) : Prop := {
  base_some : base ≠ [];
  base_trim : trim base = base;
  base_bal : bal base;
  base_bare : hasFullOuterParens base = false;
  base_no_rule : tryParseRequestRuleExpr (js "(" ++ base ++ js ")") = Ok None
}.

Lemma classify_factors gs :
  Forall group_ok gs → classifyParts (map factor gs) = Ok (map factor gs, []).
Proof.
  induction 1 as [|g gs Hg Hgs IH]; [done|]. cbn [map classifyParts].
  pose proof (parse_rules [g] ltac:(constructor; [done|constructor])) as Hp. cbn [map join] in Hp.
  rewrite Hp. cbn [res_bind]. by rewrite IH.
Qed.

Lemma combine_parts base gs :
  base_ok base → Forall group_ok gs → gs ≠ [] →
  splitBillingExprAndRequestRules (combineBillingExpr base (buildRequestRuleExpr gs))
  = Ok (mkSplit base (buildRequestRuleExpr gs)).
Proof.
  intros [Hne Ht Hb Hf Hr] Hgs Hg0. rewrite build_rules by done. unfold combineBillingExpr.
  pose proof (factors_parts gs Hgs) as Hps.
  rewrite Ht, join_parts_trim by done. rewrite (proj2 (nonempty_true base)) by done. cbn [negb].
  destruct gs as [|g gs]; [done|].
  rewrite (proj2 (nonempty_true _)); cycle 1.
  { apply join_nonempty; [done|]. eapply Forall_impl; [exact Hps|]. intros p Hq. by apply part_trim. }
  cbn [negb].
  assert (Hj : js "(" ++ base ++ js ") * " ++ join (js " * ") (map factor (g :: gs))
               = join (js " * ") ((js "(" ++ base ++ js ")") :: map factor (g :: gs))).
  { change (js ") * ") with (js ")" ++ js " * "). cbn [map join]. by rewrite <- !app_assoc. }
  rewrite Hj. unfold splitBillingExprAndRequestRules.
  assert (Hall : Forall part_ok ((js "(" ++ base ++ js ")") :: map factor (g :: gs))).
  { constructor; [by exists base|done]. }
  rewrite join_parts_trim, splitTopLevelMultiply_join by done.
  rewrite (proj2 (nonempty_true _)) by (by apply join_nonempty; [|eapply Forall_impl; [exact Hall|]; intros p Hq; apply part_trim]).
  cbn [negb length map Nat.leb].
  change (factor g :: map factor gs) with (map factor (g :: gs)).
  assert (Hc : classifyParts ((js "(" ++ base ++ js ")") :: map factor (g :: gs))
               = Ok (map factor (g :: gs), [js "(" ++ base ++ js ")"])).
  { cbn [classifyParts]. rewrite Hr. cbn [res_bind]. by rewrite classify_factors. }
  rewrite Hc. cbn [res_bind fst snd map].
  change (js "(" ++ base ++ js ")") with (40%N :: base ++ [41%N]). by rewrite (unwrap_parens base).
Qed.

(** C22: Combining a base expression with the text of rule groups and splitting
    the result gives back the base expression and the rules, each unchanged, when
    the base is non-empty and trimmed, has balanced parentheses and quotes, is not
    wrapped in parentheses and does not read as rules when it is, and when there is
    at least one group, each group has conditions of the supported kinds and its
    multiplier is a number. (The comparisons and the containment test on a request
    parameter are not supported, see [guarded_condition_lost].) *)
Theorem combine_split base gs :
  base_ok base → Forall group_ok gs → gs ≠ [] →
  splitBillingExprAndRequestRules (combineBillingExpr base (buildRequestRuleExpr gs))
  = Ok (mkSplit base (buildRequestRuleExpr gs)).
Proof. apply combine_parts. Qed.

Definition demo_base : jsstr := jsq "tier('base', p * 3 + c * 15)".

Lemma demo_base_ok : base_ok demo_base.
Proof.
  split; [done|by vm_compute| |by vm_compute|by vm_compute].
  change demo_base with (js "tier" ++ 40%N :: jsq "'base', p * 3 + c * 15" ++ [41%N]).
  apply bal_app; [by apply bal_free; repeat constructor|]. apply bal_paren.
  by apply bal_free; repeat constructor.
Qed.

Lemma combine_split_witness :
  splitBillingExprAndRequestRules (combineBillingExpr demo_base (buildRequestRuleExpr [demo_group]))
  = Ok (mkSplit demo_base (buildRequestRuleExpr [demo_group])).
Proof.
  apply combine_split; [exact demo_base_ok| |done]. constructor; [exact demo_group_ok|constructor].
Defined.

(** ** Conditions the editor loses *)

(** A condition on a parameter whose text starts with a guard of its own. *)
Inductive guarded : RequestCondition → Prop :=
| guarded_cmp p mode op v : p ≠ [] → trim p = p → plain p → numeric v →
    (mode, op) ∈ cmp_mode_ops → guarded (ParamHeaderCondition SOURCE_PARAM p mode v)
| guarded_contains p v : p ≠ [] → trim p = p → plain p → trim v = v → plain v →
    guarded (ParamHeaderCondition SOURCE_PARAM p MATCH_CONTAINS v).

Lemma no_eq_condition pre p t :
  pre = js "param" → arg_ok p → starts_with (js " == ") t = false → tryParseEqCondition (call pre p ++ t) = None.
Proof.
  intros -> [? ?] Ht. unfold tryParseEqCondition, eq_re. rewrite exec_bol, call_app, m_seqs_cons.
  rewrite (m_cap_alts_lit 1 [] (js "param") [js "header"]) by by repeat constructor.
  past_arg. rewrite m_seqs_cons. by rewrite m_lit_none.
Qed.

(** The half of a comparison after the guard is no condition. *)
Lemma half_cmp p op t : arg_ok p → op ∈ map snd cmp_mode_ops →
  tryParseRequestCondition (call SOURCE_PARAM p ++ js " " ++ op ++ js " " ++ t) = Ok None.
Proof.
  intros Hp Hop. set (u := js " " ++ op ++ js " " ++ t).
  assert (Hu : starts_with (js " != nil") u = false ∧ starts_with (js " != nil &&") u = false
               ∧ starts_with (js " == ") u = false) by (subst u; cbn in Hop; by cases_in Hop).
  destruct Hu as (Hu1 & Hu2 & Hu3).
  unfold tryParseRequestCondition, tryParseParamHas, tryParseParamCmp, SOURCE_PARAM.
  destruct (param_guard_none p u Hp Hu2) as [H3 H4].
  pose proof (param_exists_none p u Hp Hu1) as H5. pose proof (no_eq_condition (js "param") p u eq_refl Hp Hu3) as H6.
  rewrite H5, H3, H4, H6, call_app, time_none by set_solver.
  set (w := jsq "('" ++ _). destruct (foreign w) as (-> & -> & _). done.
Qed.

Lemma half_contains t : tryParseRequestCondition (js "has(param" ++ t) = Ok None.
Proof.
  unfold tryParseRequestCondition, tryParseParamHas, tryParseParamCmp, tryParseEqCondition.
  change (js "has(param" ++ t) with (js "has(" ++ js "param" ++ t). rewrite time_none by set_solver.
  destruct (foreign (js "param" ++ t)) as (_ & _ & _ & _ & _ & _ & -> & ->).
  unfold header_has_re, param_has_re, param_cmp_re, eq_re. rewrite !exec_bol. done.
Qed.

Definition guard (p : jsstr) : jsstr := call SOURCE_PARAM p ++ js " != nil".

Lemma guard_conjunct p : p ≠ [] → plain p → conjunct_ok (guard p).
Proof.
  intros Hne Hp. unfold guard. split; [free_tac|]. split; [bal_tac|]. split; [|done].
  apply (trim_ends _ 112 108); [done| |done|done]. by apply last_app_Some.
Qed.

(** The text of a guarded condition is a conjunction of two conjuncts, the
    second of which is no condition. *)
Lemma guarded_text c : guarded c →
  ∃ p half, p ≠ [] ∧ plain p ∧ conjunct_ok half ∧ tryParseRequestCondition half = Ok None
            ∧ buildRequestConditionExpr c = join (js " && ") [guard p; half].
Proof.
  destruct 1 as [p mode op v Hne Ht Hp Hv Hm|p v Hne Ht Hp Htv Hv].
  - exists p, (call SOURCE_PARAM p ++ js " " ++ op ++ js " " ++ v).
    assert (Hop : op ∈ map snd cmp_mode_ops) by (apply (list_elem_of_fmap_2 snd) in Hm; exact Hm).
    split; [done|]. split; [done|]. split; [|split; [by apply half_cmp, Hop; apply plain_arg|]].
    + split; [|split; [|split; [|done]]].
      * cbn in Hop. cases_in Hop; free_tac.
      * cbn in Hop. cases_in Hop; bal_tac.
      * destruct (last_numtext v) as (y & Hy & ?); [by apply numeric_numtext|].
        apply (trim_ends _ 112 y); [done| |done|done]. by do 4 apply last_app_Some.
    + assert (Hb : buildNormalizedParamHeader SOURCE_PARAM p mode v
        = call SOURCE_PARAM p ++ js " != nil && " ++ call SOURCE_PARAM p ++ js " " ++ op ++ js " " ++ v).
      { unfold buildNormalizedParamHeader. rewrite Ht, (numeric_trim v), Hv by done. destruct p as [|x p]; [done|].
        rewrite <- param_quote by done. unfold cmp_mode_ops in Hm.
        repeat (apply elem_of_cons in Hm as [[= -> ->]|Hm]; [done|]). by apply elem_of_nil in Hm. }
      unfold buildRequestConditionExpr.
      replace (normalizeCondition _) with (ParamHeaderCondition SOURCE_PARAM p mode v).
      * cbn [buildNormalized]. rewrite Hb. unfold guard. cbn [join]. by rewrite <- !app_assoc.
      * unfold cmp_mode_ops in Hm. 
        repeat (apply elem_of_cons in Hm as [[= -> ->]|Hm]; [done|]). by apply elem_of_nil in Hm.
  - exists p, (js "has(param" ++ jsq "('" ++ p ++ jsq "')" ++ js ", " ++ (jsq "'" ++ v ++ jsq "'") ++ js ")").
    split; [done|]. split; [done|]. split; [|split; [apply half_contains|]].
    + split; [free_tac|]. split; [|split; [|done]].
      * replace (js "has(param" ++ jsq "('" ++ p ++ jsq "')" ++ js ", " ++ (jsq "'" ++ v ++ jsq "'") ++ js ")")
          with (js "has" ++ 40%N :: (call SOURCE_PARAM p ++ js ", " ++ (jsq "'" ++ v ++ jsq "'")) ++ [41%N])
          by (unfold call; rewrite <- !app_assoc; reflexivity).
        apply bal_app; [bal_tac|]. apply bal_paren.
        apply bal_app; [bal_tac|]. apply bal_app; [bal_tac|]. by apply bal_free; free_tac.
      * apply (trim_ends _ 104 41); [done| |done|done]. by do 6 apply last_app_Some.
    + unfold buildRequestConditionExpr.
      change (normalizeCondition _) with (ParamHeaderCondition SOURCE_PARAM p MATCH_CONTAINS v).
      cbn [buildNormalized]. unfold buildNormalizedParamHeader, buildExprLiteral. rewrite Ht, Htv.
      rewrite (quote_plain v) by done. destruct p as [|x p]; [done|].
      transitivity (call SOURCE_PARAM (x :: p) ++ js " != nil && has(" ++ call SOURCE_PARAM (x :: p)
                    ++ js ", " ++ (jsq "'" ++ v ++ jsq "'") ++ js ")"); [by rewrite <- !param_quote|].
      unfold guard, call. cbn [join]. rewrite <- !app_assoc. reflexivity.
Qed.

(** A condition that compares a request parameter with a number, or asks
    whether it contains a text, is lost by the round trip: the builder prints it
    as a guard and a test joined by a conjunction, the parser splits the two
    apart before it tries its pattern for the pair, and rejects the whole rule
    expression. *)
Theorem guarded_condition_lost c mult :
  guarded c → numeric mult →
  let expr := buildRequestRuleExpr [mkGroup [c] mult] in
  expr ≠ [] ∧ tryParseRequestRuleExpr expr = Ok None.
Proof.
  intros Hc Hm expr. destruct (guarded_text c Hc) as (p & half & Hne & Hp & Hhalf & Hnone & Hb).
  pose proof (guard_conjunct p Hne Hp) as Hg.
  assert (Hes : Forall conjunct_ok [guard p; half]) by (constructor; [done|]; constructor; [done|constructor]).
  assert (Hexpr : expr = js "(" ++ join (js " && ") [guard p; half] ++ js " ? " ++ mult ++ js " : 1)").
  { subst expr. unfold buildRequestRuleExpr, buildRuleGroupFactor. cbn [map conditions multiplier].
    rewrite numeric_trim, Hm, Hb by done.
    assert (Hj : nonempty (join (js " && ") [guard p; half]) = true) by done.
    cbn [List.filter negb]. rewrite Hj. done. }
  assert (Hpart : part_ok expr).
  { exists (join (js " && ") [guard p; half] ++ js " ? " ++ mult ++ js " : 1"). split.
    - apply bal_app; [|apply bal_free; free_tac]. apply bal_join; [apply bal_free; by repeat constructor|].
      eapply Forall_impl; [exact Hes|]. by intros e (_ & ? & _).
    - rewrite Hexpr. change (js " : 1)") with (js " : 1" ++ [41%N]). cbn [app]. by rewrite <- !app_assoc. }
  destruct (part_trim expr Hpart) as [Ht Hn]. split; [done|].
  unfold tryParseRequestRuleExpr. rewrite Ht, (proj2 (nonempty_true expr)) by done. cbn [negb].
  assert (Hsplit : splitTopLevelMultiply expr = [expr]).
  { apply (splitTopLevelMultiply_join [expr]). constructor; [done|constructor]. }
  rewrite Hsplit.
  cbn [parseGroups]. rewrite Hexpr. unfold tryParseRuleGroupFactor.
  destruct (exec_factor (join (js " && ") [guard p; half]) mult) as (st & -> & H1 & _); [done|by apply numeric_numtext|].
  rewrite H1, splitTopLevelAnd_join by done. cbn [parseConditions].
  destruct Hg as (_ & _ & -> & _). destruct Hhalf as (_ & _ & -> & _). unfold guard.
  rewrite parse_param_exists by by apply plain_arg. cbn [res_bind]. by rewrite Hnone.
Qed.

Lemma guarded_condition_lost_witness :
  let expr := buildRequestRuleExpr
    [mkGroup [ParamHeaderCondition SOURCE_PARAM (js "max_tokens") MATCH_GT (js "4096")] (js "2")] in
  expr ≠ [] ∧ tryParseRequestRuleExpr expr = Ok None.
Proof.
  apply guarded_condition_lost; [|by vm_compute].
  apply (guarded_cmp _ _ (js ">")); [done|by vm_compute|by repeat constructor|by vm_compute|left].
Defined.
End RuleRoundtrip.
