(* ===== verification/TierExpr.v ===== *)
(** * The tier editor (src/web/default/src/features/pricing/lib/tier-expr.ts)

    The visual editor of tiered prices keeps a list of tiers, each with a label,
    conditions and unit costs; it prints them as a billing expression and reads
    such an expression back. A tier's optional costs are an association list by
    field name; a missing property is absent from it. *)

From S2P Require Import Prelude JsNum Json NumText Regex BillingExpr.
From Stdlib Require Import Floats.SpecFloat.
Import BillingExpr.

Module TierExpr.

Definition CACHE_MODE_TIMED := js "timed".
Definition CACHE_MODE_GENERIC := js "generic".

(** [value: number | string]. *)
Inductive cond_value := VNum (x : num) | VStr (s : jsstr).

Record TierConditionInput := mkCond { cvar : jsstr; cop : jsstr; cval : option cond_value }.

Record VisualTier := mkVTier {
  vlabel : jsstr;
  vconditions : list TierConditionInput;
  input_unit_cost : num;
  output_unit_cost : num;
  cache_mode : jsstr;
  costs : list (jsstr * num)
}.

(** [Partial<VisualTier>]. *)
Record PartialTier := mkPTier {
  p_label : option jsstr;
  p_conditions : option (list TierConditionInput);
  p_input : option num;
  p_output : option num;
  p_mode : option jsstr;
  p_costs : list (jsstr * num)
}.

Notation VisualConfig := (list VisualTier).

#[export] Instance cond_value_eq_dec : EqDecision cond_value.
Proof. solve_decision. Defined.
#[export] Instance TierConditionInput_eq_dec : EqDecision TierConditionInput.
Proof. solve_decision. Defined.
#[export] Instance VisualTier_eq_dec : EqDecision VisualTier.
Proof. solve_decision. Defined.

(** [Number(x)] of an optional number, and [Number(x) || 0]. *)
Definition to_number (x : option num) : num := default S754_nan x.
Definition number_or_zero (x : option num) : num := num_or_zero (to_number x).

Definition getTierCacheMode (mode : option jsstr) (costs : list (jsstr * num)) : jsstr :=
  if bool_decide (mode = Some CACHE_MODE_TIMED) then CACHE_MODE_TIMED
  else if bool_decide (mode = Some CACHE_MODE_GENERIC) then CACHE_MODE_GENERIC
  else if num_ltb (S754_zero false) (to_number (map_get (js "cache_create_1h_unit_cost") costs))
  then CACHE_MODE_TIMED else CACHE_MODE_GENERIC.

(** The optional cost fields, in the order they are written. *)
Definition cost_fields : list jsstr :=
  [js "cache_read_unit_cost"; js "cache_create_unit_cost"; js "cache_create_1h_unit_cost";
   js "image_unit_cost"; js "image_output_unit_cost"; js "audio_input_unit_cost";
   js "audio_output_unit_cost"].

Definition normalizeVisualTier (tier : PartialTier) : VisualTier :=
  mkVTier (default [] (p_label tier)) (default [] (p_conditions tier))
    (default (S754_zero false) (p_input tier)) (default (S754_zero false) (p_output tier))
    (default (getTierCacheMode (p_mode tier) (p_costs tier)) (p_mode tier))
    (map (fun f => (f, number_or_zero (map_get f (p_costs tier)))) cost_fields).

Definition partial_of (t : VisualTier) : PartialTier :=
  mkPTier (Some (vlabel t)) (Some (vconditions t)) (Some (input_unit_cost t)) (Some (output_unit_cost t))
    (Some (cache_mode t)) (costs t).

Definition createDefaultVisualConfig : VisualConfig :=
  [normalizeVisualTier (mkPTier (Some (js "base")) (Some []) (Some (S754_zero false))
                          (Some (S754_zero false)) (Some CACHE_MODE_GENERIC) [])].

Definition normalizeVisualConfig (config : option VisualConfig) : VisualConfig :=
  match config with
  | None | Some [] => createDefaultVisualConfig
  | Some tiers => map (fun t => normalizeVisualTier (partial_of t)) tiers
  end.

(** ** Printing *)

Definition value_text (v : cond_value) : jsstr :=
  match v with VNum x => Number_toString x | VStr s => s end.

Definition has_value (v : option cond_value) : bool :=
  match v with None | Some (VStr []) => false | Some _ => true end.

Definition buildConditionStr (conditions : list TierConditionInput) : jsstr :=
  join (js " && ")
    (map (fun c => cvar c ++ js " " ++ cop c ++ js " " ++ match cval c with Some v => value_text v | None => [] end)
       (List.filter (fun c => nonempty (cvar c) && nonempty (cop c) && has_value (cval c)) conditions)).

(** The loop over the cache and media variables. *)
Definition extraParts (tier : VisualTier) : list jsstr :=
  omap (fun '(field, exprVar) =>
          let v := number_or_zero (map_get field (costs tier)) in
          if num_truthy v then Some (exprVar ++ js " * " ++ Number_toString v) else None)
    BILLING_CACHE_VAR_MAP.

Definition buildTierBodyExpr (tier : VisualTier) : jsstr :=
  join (js " + ")
    ((js "p * " ++ Number_toString (num_or_zero (input_unit_cost tier)))
     :: (js "c * " ++ Number_toString (num_or_zero (output_unit_cost tier))) :: extraParts tier).

Definition tierCall (label body : jsstr) : jsstr := jsq "tier('" ++ label ++ jsq "', " ++ body ++ js ")".

(** One turn of the loop over several tiers. *)
Definition tierPart (count i : nat) (tier : VisualTier) : jsstr :=
  let label := str_or (vlabel tier) (js "tier_" ++ print_N (N.of_nat (i + 1))) in
  let body := tierCall label (buildTierBodyExpr tier) in
  let cond := buildConditionStr (vconditions tier) in
  if (i <? count - 1)%nat && nonempty cond then cond ++ js " ? " ++ body else body.

Definition generateExprFromVisualConfig (config : option VisualConfig) : jsstr :=
  match config with
  | None | Some [] => js "p * 0 + c * 0"
  | Some [tier] =>
      let label := str_or (vlabel tier) (js "default") in
      let body := tierCall label (buildTierBodyExpr tier) in
      let cond := buildConditionStr (vconditions tier) in
      if nonempty cond then cond ++ js " ? " ++ body ++ js " : p * 0 + c * 0" else body
  | Some tiers => join (js " : ") (imap (tierPart (length tiers)) tiers)
  end.

(** ** Reading *)

(** [^v\d+:([\s\S]* )$] *)
Definition versioned_re : re :=
  Seq Bol (seqs [lit (js "v"); Plus digit_re; lit (js ":"); Cap 1 (Star (Chr (fun _ => true))); Eol]).

Definition cacheVarNames : list jsstr := map snd BILLING_CACHE_VAR_MAP.

(** An optional group [\s*\+\s*v\s*\*\s*([\d.eE+-]+)], captured as group [n]. *)
Definition extra_re (v : jsstr) (n : nat) : list re :=
  [ws_star; lit (js "+"); ws_star; lit v; ws_star; lit (js "*"); ws_star; Cap n num_re].

Definition optCache (n : nat) (vars : list jsstr) : list re :=
  imap (fun i v => Opt (seqs (extra_re v (n + i)))) vars.

(** The body of a tier; its costs are captured from group [n]. *)
Definition bodyPat (n : nat) : list re :=
  [lit (js "p"); ws_star; lit (js "*"); ws_star; Cap n num_re; ws_star; lit (js "+"); ws_star;
   lit (js "c"); ws_star; lit (js "*"); ws_star; Cap (n + 1) num_re] ++ optCache (n + 2) cacheVarNames.

Definition tier_head (n : nat) : list re :=
  [lit (jsq "tier('"); Cap n (Star (Chr (is_not 34))); lit (jsq "',"); ws_star].

Definition singleRe : re := Seq Bol (seqs (tier_head 1 ++ bodyPat 2 ++ [lit (js ")"); Eol])).

Definition visualTierRe : re :=
  seqs (Opt (seqs [condGroup; ws_star; lit (js "?"); ws_star]) :: tier_head 2 ++ bodyPat 3 ++ [lit (js ")")]).

(** The tier of a match whose label is group [n]. *)
Definition tierOfMatch (n : nat) (conditions : list TierConditionInput) (m : mst) : VisualTier :=
  normalizeVisualTier
    (mkPTier (Some (grp n m)) (Some conditions) (Some (Number (grp (n + 1) m))) (Some (Number (grp (n + 2) m)))
       None
       (omap id (imap (fun i '(field, _) => (fun val => (field, Number val)) <$> group (n + 3 + i) m)
                   BILLING_CACHE_VAR_MAP))).

(** The conditions of a match, read from its first group. *)
Definition readConditions (m : mst) : list TierConditionInput :=
  map (fun c => mkCond (var c) (op c) (Some (VNum (value c)))) (parseTierConditions (grp 1 m)).

Definition tryParseVisualConfig (exprStr : option jsstr) : option VisualConfig :=
  match exprStr with
  | None | Some [] => None
  | Some s =>
      let body := match exec versioned_re s with Some m => grp 1 m | None => s end in
      match exec singleRe body with
      | Some m => Some (normalizeVisualConfig (Some [tierOfMatch 1 [] m]))
      | None =>
          let tiers := map (fun m => tierOfMatch 2 (readConditions m) m) (exec_all visualTierRe body) in
          match tiers with
          | [] => None
          | _ =>
              let cfg := normalizeVisualConfig (Some tiers) in
              let regenerated := generateExprFromVisualConfig (Some cfg) in
              if bool_decide (replace_all space_re [] regenerated = replace_all space_re [] body)
              then Some cfg else None
          end
      end
  end.

(** ** The estimator *)

(** (variable, state key). *)
Definition ESTIMATOR_VARS : list (jsstr * jsstr) :=
  [(js "cr", js "cacheReadTokens"); (js "cc", js "cacheCreateTokens"); (js "cc1h", js "cacheCreate1hTokens");
   (js "img", js "imageTokens"); (js "img_o", js "imageOutputTokens"); (js "ai", js "audioInputTokens");
   (js "ao", js "audioOutputTokens")].

Definition exprUsesExtraVars (exprStr : jsstr) : bool :=
  if negb (nonempty exprStr) then false
  else test (seqs [WordB; Cap 1 (alts (map (fun f => lit f.1) ESTIMATOR_VARS)); WordB]) exprStr.

Record EvalResult := mkEval { cost : num; matchedTier : jsstr; error : option jsstr }.

Section evaluator.
(** The host's evaluator of an expression in an environment of numbers: the
    value and the last tier it announced, or the thrown message. *)
Context (Function : list (jsstr * num) → jsstr → (num * jsstr) + jsstr).

Definition token (state : list (jsstr * num)) (k : jsstr) : num := number_or_zero (map_get k state).

Definition num_add (a b : num) : num := SFadd prec emax a b.

Definition estimatorEnv (promptTokens completionTokens : num) (extra : list (jsstr * num)) :
    list (jsstr * num) :=
  let len := num_add (num_add (num_add promptTokens (token extra (js "cacheReadTokens")))
                        (token extra (js "cacheCreateTokens"))) (token extra (js "cacheCreate1hTokens")) in
  [(js "p", promptTokens); (js "c", completionTokens); (js "len", len)]
  ++ map (fun f => (f.1, token extra f.2)) ESTIMATOR_VARS.

Definition evalExprLocally (exprStr : jsstr) (promptTokens completionTokens : num)
    (extra : list (jsstr * num)) : EvalResult :=
  if negb (nonempty exprStr) || negb (nonempty (trim exprStr)) then mkEval (S754_zero false) [] None
  else match Function (estimatorEnv promptTokens completionTokens extra) exprStr with
       | inl (v, tier) => mkEval (num_or_zero v) tier None
       | inr e => mkEval (S754_zero false) [] (Some e)
       end.
End evaluator.
End TierExpr.
