(* ===== verification/TierRoundtrip.v ===== *)
(** * The tier editor's round trip

    Reading back the expression the editor prints gives the tiers it was printed
    from, whatever their number, their conditions and the costs they set. *)

From S2P Require Import Prelude JsNum Json NumText Regex BillingExpr TierExpr RuleRoundtrip.
From Stdlib Require Import Floats.SpecFloat.
Import BillingExpr TierExpr RuleRoundtrip.

Module TierRoundtrip.

(** ** Canonical tiers *)

(** A finite number whose text reads back; this excludes the negative zero. *)
Definition printable (x : num) : Prop := num_is_finite x = true ∧ prints_back x = true.

(** A condition as the reader returns it. Its number's text has no minus sign. *)
Record cond_ok (c : TierConditionInput) : Prop := {
  ok_var : cvar c ∈ [js "p"; js "c"; js "len"];
  ok_op : cop c ∈ [js "<"; js "<="; js ">"; js ">="];
  ok_val : ∃ x, cval c = Some (VNum x) ∧ printable x ∧ 45%N ∉ Number_toString x
}.

Record tier_ok (t : VisualTier) : Prop := {
  ok_label : vlabel t ≠ [] ∧ 34%N ∉ vlabel t;
  ok_conditions : Forall cond_ok (vconditions t);
  ok_input : printable (input_unit_cost t);
  ok_output : printable (output_unit_cost t);
  ok_mode : cache_mode t = getTierCacheMode None (costs t);
  ok_costs : (costs t).*1 = cost_fields ∧ Forall printable (costs t).*2
}.

(** Only the last of several tiers has no room for a condition. *)
Definition config_ok (cfg : VisualConfig) : Prop :=
  cfg ≠ [] ∧ Forall tier_ok cfg ∧
  ((1 < length cfg)%nat → ∀ t, last cfg = Some t → vconditions t = []).

(** ** Conditions *)

Lemma printable_back x : printable x → Number (Number_toString x) = x.
Proof. intros [_ H]. by apply bool_decide_eq_true in H. Qed.

Lemma printable_numtext x : printable x → numtext (Number_toString x).
Proof. intros [H _]. by apply Number_toString_numtext. Qed.

Lemma printable_or_zero x : printable x → num_or_zero x = x.
Proof. intros [H1 H2]. destruct x as [[]| | |]; done. Qed.

Definition condtext (w : jsstr) : Prop := w ≠ [] ∧ Forall (fun c => is_condchar c = true) w.

Lemma condtext_intro w : numtext w → 45%N ∉ w → condtext w.
Proof.
  intros [Hne Hw] Hm. split; [done|]. rewrite Forall_forall in *. intros c Hc.
  specialize (Hw c Hc). assert (c ≠ 45%N) by (intros ->; done).
  unfold is_numchar, is_condchar in *. lia.
Qed.

(** A condition's parts: variable, operator and number. *)
Definition parts (c : TierConditionInput) (v o w : jsstr) : Prop :=
  v ∈ [js "p"; js "c"; js "len"] ∧ o ∈ [js "<"; js "<="; js ">"; js ">="] ∧ condtext w ∧
  cvar c = v ∧ cop c = o ∧ ∃ x, cval c = Some (VNum x) ∧ w = Number_toString x ∧ Number w = x.

Definition ctext (v o w : jsstr) : jsstr := v ++ js " " ++ o ++ js " " ++ w.

Lemma cond_parts c : cond_ok c → ∃ v o w, parts c v o w.
Proof.
  intros [Hv Ho (x & Hx & Hp & Hm)]. exists (cvar c), (cop c), (Number_toString x).
  split; [done|]. split; [done|]. split; [by apply condtext_intro; [apply printable_numtext|]|].
  split; [done|]. split; [done|]. exists x. by rewrite printable_back.
Qed.

(** The operators overlap: a continuation that fails at an equals sign resolves them. *)
Lemma m_op {R} (k : mst → option R) b o t cs :
  o ∈ [js "<"; js "<="; js ">"; js ">="] →
  (∀ b' t' cs', k (mkM b' (61%N :: t') cs') = None) →
  m cond_op_re k (mkM b (o ++ js " " ++ t) cs) = k (mkM (after b o) (js " " ++ t) cs).
Proof.
  intros Ho Hk. unfold cond_op_re. rewrite !m_alts_cons by done.
  change (alts [lit (js ">=")]) with (lit (js ">=")). cases_in Ho.
  - rewrite m_lit, (m_lit_none (js "<=")), (m_lit_none (js ">")), (m_lit_none (js ">=")) by done.
    by destruct (k _).
  - change (js "<=" ++ js " " ++ t) with (js "<" ++ 61%N :: js " " ++ t) at 1. rewrite m_lit, Hk.
    rewrite m_lit, (m_lit_none (js ">")), (m_lit_none (js ">=")) by done. by destruct (k _).
  - rewrite (m_lit_none (js "<")), (m_lit_none (js "<=")), m_lit, (m_lit_none (js ">=")) by done.
    by destruct (k _).
  - rewrite (m_lit_none (js "<")), (m_lit_none (js "<=")) by done.
    change (js ">=" ++ js " " ++ t) with (js ">" ++ 61%N :: js " " ++ t) at 1. rewrite m_lit, Hk.
    by rewrite m_lit.
Qed.

Lemma m_ws_one {R} (k : mst → option R) b t cs :
  stops is_ws t → refuses is_ws k → m ws_star k (mkM b (js " " ++ t) cs) = k (mkM (Some 32%N) t cs).
Proof. intros Ht Hk. unfold ws_star. by rewrite m_star_until by (done || by repeat constructor). Qed.

Lemma m_ws_none {R} (k : mst → option R) b t cs :
  stops is_ws t → refuses is_ws k → m ws_star k (mkM b t cs) = k (mkM b t cs).
Proof. intros Ht Hk. unfold ws_star. by rewrite (m_star_until is_ws k b [] t). Qed.

Lemma refuses_plus {R} f g (k : mst → option R) :
  (∀ c, f c = true → g c = false) → refuses f (m (Plus (Chr g)) k).
Proof. intros H b c t cs Hc. by apply m_plus_none, H. Qed.

Lemma refuses_cap_plus {R} n f g (k : mst → option R) :
  (∀ c, f c = true → g c = false) → refuses f (m (Cap n (Plus (Chr g))) k).
Proof. intros H b c t cs Hc. rewrite m_cap. by apply m_plus_none, H. Qed.

Lemma ws_not_condchar c : is_ws c = true → is_condchar c = false.
Proof. unfold is_ws, is_condchar, is_digit. lia. Qed.

Lemma ws_not_numchar c : is_ws c = true → is_numchar c = false.
Proof. destruct (is_numchar c) eqn:E; [|done]. apply numchar_not_ws in E. congruence. Qed.

Lemma condtext_stops w t : condtext w → stops is_ws (w ++ t).
Proof.
  intros [Hne Hw]. destruct w as [|c w]; [done|]. apply Forall_cons in Hw as [Hc _].
  cbn. destruct (is_ws c) eqn:E; [|done]. apply ws_not_condchar in E. congruence.
Qed.

Lemma op_stops o t : o ∈ [js "<"; js "<="; js ">"; js ">="] → stops is_ws (o ++ t).
Proof. intros Ho. by cases_in Ho. Qed.

Lemma refuses_op {R} f (k : mst → option R) :
  f 60%N = false → f 62%N = false → refuses f (m cond_op_re k).
Proof.
  intros H1 H2 b c t cs Hc. apply (m_alts_none [js "<"; js "<="; js ">"; js ">="]).
  assert (Hs : ∀ x p, f x = false → starts_with (x :: p) (c :: t) = false).
  { intros x p Hx. cbn [starts_with]. destruct (x =? c)%N eqn:E; [|done].
    apply N.eqb_eq in E as <-. congruence. }
  do 2 (constructor; [by apply (Hs 60%N)|]). do 2 (constructor; [by apply (Hs 62%N)|]). constructor.
Qed.

Lemma num_fails_eq {R} (k : mst → option R) b t cs : m (Plus (Chr is_condchar)) k (mkM b (61%N :: t) cs) = None.
Proof. by apply m_plus_none. Qed.

(** A condition read by the pattern of tiers. *)
Lemma m_cond {R} (k : mst → option R) b v o w t cs r :
  v ∈ [js "p"; js "c"; js "len"] → o ∈ [js "<"; js "<="; js ">"; js ">="] → condtext w →
  stops is_condchar t → (∀ b', k (mkM b' t cs) = Some r) →
  m cond_re k (mkM b (ctext v o w ++ t) cs) = Some r.
Proof.
  intros Hv Ho Hw Ht Hk. unfold cond_re, ctext. rewrite <- !app_assoc, m_seqs_cons.
  assert (Hvar : ∀ k' : mst → option R, m cond_var_re k' (mkM b (v ++ js " " ++ o ++ js " " ++ w ++ t) cs)
                 = k' (mkM (after b v) (js " " ++ o ++ js " " ++ w ++ t) cs)).
  { intros k'. unfold cond_var_re. cases_in Hv;
      [apply (m_alts_lit [] (js "p") [js "c"; js "len"])|apply (m_alts_lit [js "p"] (js "c") [js "len"])
      |apply (m_alts_lit [js "p"; js "c"] (js "len") [])]; by repeat constructor. }
  rewrite Hvar. unfold cond_num_re.
  rewrite m_seqs_cons, m_ws_one; [|by apply op_stops|by apply refuses_seqs, refuses_op].
  rewrite m_seqs_cons, m_op; [|done|].
  - rewrite m_seqs_cons, m_ws_one; [|by apply condtext_stops|apply refuses_seqs, refuses_plus, ws_not_condchar].
    rewrite m_seqs_cons. destruct Hw. by apply m_plus_first.
  - intros b' t' cs'. rewrite m_seqs_cons, m_ws_none; [by rewrite m_seqs_cons; apply m_plus_none|done|].
    apply refuses_seqs, refuses_plus, ws_not_condchar.
Qed.

Lemma refuses_cond_ws {R} (k : mst → option R) : refuses is_ws (m cond_re k).
Proof.
  intros b c t cs Hc. unfold cond_re, cond_var_re. rewrite m_seqs_cons.
  apply (m_alts_none [js "p"; js "c"; js "len"]).
  assert (Hs : ∀ x p, is_ws x = false → starts_with (x :: p) (c :: t) = false).
  { intros x p Hx. cbn [starts_with]. destruct (x =? c)%N eqn:E; [|done].
    apply N.eqb_eq in E as <-. congruence. }
  constructor; [by apply (Hs 112%N)|]. constructor; [by apply (Hs 99%N)|].
  constructor; [by apply (Hs 108%N)|]. constructor.
Qed.

Lemma var_stops v t : v ∈ [js "p"; js "c"; js "len"] → stops is_ws (v ++ t).
Proof. intros Hv. by cases_in Hv. Qed.

(** Texts of several conditions. *)
Definition triple : Type := jsstr * jsstr * jsstr.
Definition triple_ok (p : triple) : Prop :=
  p.1.1 ∈ [js "p"; js "c"; js "len"] ∧ p.1.2 ∈ [js "<"; js "<="; js ">"; js ">="] ∧ condtext p.2.
Definition ttext (p : triple) : jsstr := ctext p.1.1 p.1.2 p.2.
Definition more (ps : list triple) : jsstr := concat (map (fun p => js " && " ++ ttext p) ps).

Lemma join_more p ps : join (js " && ") (map ttext (p :: ps)) = ttext p ++ more ps.
Proof.
  revert p. induction ps as [|q ps IH]; intros p; [by rewrite app_nil_r|].
  change (join (js " && ") (map ttext (p :: q :: ps)))
    with (ttext p ++ js " && " ++ join (js " && ") (map ttext (q :: ps))).
  rewrite IH. unfold more. cbn [map concat]. by rewrite <- !app_assoc.
Qed.

Lemma more_stops ps t : stops is_condchar t → stops is_condchar (more ps ++ t).
Proof. intros H. by destruct ps. Qed.

Definition next_cond : re := seqs [ws_star; lit (js "&&"); ws_star; cond_re].

Lemma star_conds {R} (k : mst → option R) ps n b t cs r :
  Forall triple_ok ps → (length ps < n)%nat →
  (∀ b', k (mkM b' (js " ? " ++ t) cs) = Some r) →
  star (m next_cond) n k (mkM b (more ps ++ js " ? " ++ t) cs) = Some r.
Proof.
  intros Hps. revert n b. induction Hps as [|p ps (Hv & Ho & Hw) Hps IH]; intros n b Hn Hk;
    (destruct n as [|n]; [cbn in Hn; lia|]); cbn [star].
  - unfold next_cond at 1. rewrite m_seqs_cons.
    change (more [] ++ js " ? " ++ t) with (js " " ++ js "? " ++ t).
    rewrite m_ws_one; [|done|by apply refuses_seqs, refuses_lit].
    rewrite m_seqs_cons, m_lit_none by done. apply Hk.
  - unfold next_cond at 1. unfold more. cbn [map concat]. fold (more ps).
    change (js " && ") with (js " " ++ js "&&" ++ js " "). rewrite <- !app_assoc.
    rewrite m_seqs_cons, m_ws_one; [|done|by apply refuses_seqs, refuses_lit].
    rewrite m_seqs_cons, m_lit, m_seqs_cons, m_ws_one;
      [|unfold ttext, ctext; rewrite <- app_assoc; by apply var_stops|apply refuses_seqs, refuses_cond_ws].
    rewrite m_seqs_cons. unfold ttext. erewrite m_cond; [done|done|done|done| |].
    + by apply more_stops.
    + intros b'. cbn [seqs foldr m]. cbn [rest].
      replace (_ <? _)%nat with true; [apply IH; [cbn in Hn; lia|done]|].
      symmetry. apply Nat.ltb_lt. rewrite !length_app. change (length (js " ")) with 1%nat. lia.
Qed.

(** The group of conditions before a tier. *)
Lemma m_condGroup {R} (k : mst → option R) p ps b t cs r :
  Forall triple_ok (p :: ps) →
  (∀ b', k (mkM b' (js " ? " ++ t) (map_set 1%nat (join (js " && ") (map ttext (p :: ps))) cs)) = Some r) →
  m condGroup k (mkM b (join (js " && ") (map ttext (p :: ps)) ++ js " ? " ++ t) cs) = Some r.
Proof.
  intros Hps Hk. unfold condGroup. rewrite m_cap, m_seqs_cons. set (k' := capture _ _ _).
  assert (Hk' : ∀ b', k' (mkM b' (js " ? " ++ t) cs) = Some r).
  { intros b'. unfold k'. rewrite capture_app. apply Hk. }
  clearbody k'. rewrite join_more, <- app_assoc. apply Forall_cons in Hps as [(Hv & Ho & Hw) Hps].
  apply m_cond; [done|done|done|by apply more_stops|]. intros b'. rewrite m_seqs_cons.
  change (m (Star ?a) ?kk ?s) with (star (m a) (S (length (rest s))) kk s).
  apply star_conds; [done| |by intros b''; apply Hk'].
  cbn [rest]. rewrite !length_app. enough (length ps <= length (more ps))%nat by lia.
  clear. induction ps as [|p ps IH]; [done|]. unfold more. cbn [map concat]. fold (more ps).
  rewrite !length_app. change (length (js " && ")) with 4%nat. cbn [length]. lia.
Qed.

(** ** Bodies *)

(** Variables in the order of the pattern: none can be mistaken for a later one. *)
Fixpoint separated (vars : list jsstr) : Prop :=
  match vars with
  | [] => True
  | v :: vars' =>
      stops is_ws v ∧ v ≠ []
      ∧ Forall (fun v' => (stops is_ws v' ∧ v' ≠ []) ∧ ∀ k b t cs,
                  @m mst (seqs [lit v; ws_star; lit (js "*")]) k (mkM b (v' ++ js " * " ++ t) cs) = None) vars'
      ∧ separated vars'
  end.

Lemma cacheVarNames_separated : separated cacheVarNames.
Proof. cbn. repeat split; try done; repeat (constructor; [by repeat split|]); constructor. Qed.

(** The text of the costs that are set. *)
Fixpoint extras_text (vars : list jsstr) (ws : list (option jsstr)) : jsstr :=
  match vars, ws with
  | v :: vars', w :: ws' =>
      match w with Some w => js " + " ++ v ++ js " * " ++ w | None => [] end ++ extras_text vars' ws'
  | _, _ => []
  end.

Fixpoint set_extras (n : nat) (ws : list (option jsstr)) (cs : list (nat * jsstr)) : list (nat * jsstr) :=
  match ws with
  | [] => cs
  | w :: ws' => set_extras (S n) ws' (match w with Some w => map_set n w cs | None => cs end)
  end.

Definition opt_numtext (w : option jsstr) : Prop := match w with Some w => numtext w | None => True end.

Lemma extras_head vars ws :
  extras_text vars ws = [] ∨ ∃ v t, v ∈ vars ∧ extras_text vars ws = js " + " ++ v ++ js " * " ++ t.
Proof.
  revert ws. induction vars as [|v vars IH]; intros ws; [by left|]. destruct ws as [|[w|] ws]; [by left| |].
  - right. exists v, (w ++ extras_text vars ws). split; [left|]. cbn. by rewrite <- !app_assoc.
  - cbn. destruct (IH ws) as [->|(v' & t & Hv & ->)]; [by left|]. right. exists v', t. split; [by right|done].
Qed.

Lemma extras_stops vars ws t : stops is_numchar (extras_text vars ws ++ js ")" ++ t).
Proof. destruct (extras_head vars ws) as [->|(v & u & _ & ->)]; done. Qed.

Lemma optCache_cons n v vars : optCache n (v :: vars) = Opt (seqs (extra_re v n)) :: optCache (S n) vars.
Proof.
  unfold optCache. cbn [imap]. rewrite Nat.add_0_r. f_equal. apply imap_ext. intros i x _. cbn.
  by rewrite Nat.add_succ_r.
Qed.

(** A cost that is not set: its group matches nothing that follows. *)
Lemma extra_absent v n vars ws (k : mst → option mst) b t cs :
  separated (v :: vars) →
  m (seqs (extra_re v n)) k (mkM b (extras_text vars ws ++ js ")" ++ t) cs) = None.
Proof.
  intros (Hv & Hvne & Hvars & _). unfold extra_re. rewrite m_seqs_cons.
  destruct (extras_head vars ws) as [->|(v' & u & Hin & ->)].
  - rewrite m_ws_none; [done|done|by apply refuses_seqs, refuses_lit].
  - rewrite Forall_forall in Hvars. destruct (Hvars v' Hin) as [[Hs Hsne] Hm]. rewrite <- !app_assoc.
    change (js " + ") with (js " " ++ js "+" ++ js " "). rewrite <- !app_assoc.
    rewrite m_ws_one; [|done|by apply refuses_seqs, refuses_lit].
    rewrite m_seqs_cons, m_lit, m_seqs_cons, m_ws_one.
    + apply (Hm (m (seqs [ws_star; Cap n num_re]) k)).
    + by destruct v'.
    + apply refuses_seqs. destruct v as [|c v]; [done|]. apply refuses_lit. done.
Qed.

Lemma m_optCache vars ws n fin (k : mst → option mst) b t cs r :
  separated vars → length ws = length vars → Forall opt_numtext ws →
  (∀ b', m (seqs fin) k (mkM b' (js ")" ++ t) (set_extras n ws cs)) = Some r) →
  m (seqs (optCache n vars ++ fin)) k (mkM b (extras_text vars ws ++ js ")" ++ t) cs) = Some r.
Proof.
  revert ws n b cs. induction vars as [|v vars IH]; intros ws n b cs Hsep Hlen Hws Hk.
  { destruct ws; [|done]. apply Hk. }
  destruct ws as [|w ws]; [done|]. injection Hlen as Hlen. apply Forall_cons in Hws as [Hw Hws].
  rewrite optCache_cons. cbn [app]. rewrite m_seqs_cons. unfold Opt.
  change (m (Alt ?a ?b) ?k ?s) with (match m a k s with Some r => Some r | None => m b k s end).
  destruct w as [w|]; cbn [extras_text set_extras] in *.
  - rewrite <- !app_assoc. destruct Hsep as (Hv & Hvne & _ & Hsep).
    change (js " + ") with (js " " ++ js "+" ++ js " "). change (js " * ") with (js " " ++ js "*" ++ js " ").
    rewrite <- !app_assoc. unfold extra_re, num_re.
    rewrite m_seqs_cons, m_ws_one; [|done|by apply refuses_seqs, refuses_lit].
    rewrite m_seqs_cons, m_lit, m_seqs_cons, m_ws_one; cycle 1.
    { by destruct v. }
    { apply refuses_seqs. destruct v as [|c v]; [done|]. by apply refuses_lit. }
    rewrite m_seqs_cons, m_lit, m_seqs_cons, m_ws_one; [|done|by apply refuses_seqs, refuses_lit].
    rewrite m_seqs_cons, m_lit, m_seqs_cons. destruct Hw as [Hne Hw].
    rewrite m_ws_one; cycle 1.
    { destruct w as [|c w]; [done|]. apply Forall_cons in Hw as [Hc _]. by apply numchar_not_ws. }
    { apply refuses_seqs, refuses_cap_plus, ws_not_numchar. }
    rewrite m_seqs_cons. erewrite m_cap_plus_first; [done|done|done|apply extras_stops|].
    by apply IH.
  - cbn [app]. rewrite extra_absent by done. change (m Eps ?k ?s) with (k s).
    apply IH; [by destruct Hsep as (_ & _ & _ & ?)|done..].
Qed.

(** A whole tier: its call, up to the closing parenthesis. *)
Definition body_text (ic oc : jsstr) (ws : list (option jsstr)) : jsstr :=
  js "p * " ++ ic ++ js " + c * " ++ oc ++ extras_text cacheVarNames ws.

Definition tier_caps (n : nat) (label ic oc : jsstr) (ws : list (option jsstr)) (cs : list (nat * jsstr)) :=
  set_extras (n + 3) ws (map_set (n + 2)%nat oc (map_set (n + 1)%nat ic (map_set n label cs))).

Lemma numtext_stops w t : numtext w → stops is_ws (w ++ t).
Proof.
  intros [Hne Hw]. destruct w as [|c w]; [done|]. apply Forall_cons in Hw as [Hc _]. by apply numchar_not_ws.
Qed.

Lemma m_tier n fin (k : mst → option mst) b label ic oc ws t cs r :
  34%N ∉ label → numtext ic → numtext oc → length ws = length cacheVarNames → Forall opt_numtext ws →
  (∀ b', m (seqs fin) k (mkM b' (js ")" ++ t) (tier_caps n label ic oc ws cs)) = Some r) →
  m (seqs (tier_head n ++ bodyPat (n + 1) ++ fin)) k
    (mkM b (tierCall label (body_text ic oc ws) ++ t) cs) = Some r.
Proof.
  intros Hl Hic Hoc Hlen Hws Hk. unfold tierCall, body_text, tier_head. cbn [app].
  rewrite <- !app_assoc. rewrite m_seqs_cons, m_lit, m_seqs_cons, m_cap_star_until; cycle 1.
  { apply Forall_forall. intros c Hc. apply negb_true_iff, N.eqb_neq. intros ->. done. }
  { done. }
  { by apply refuses_seqs, refuses_lit. }
  change (jsq "', ") with (jsq "'," ++ js " "). rewrite <- !app_assoc.
  rewrite m_seqs_cons, m_lit, m_seqs_cons, m_ws_one; [|done|by apply refuses_seqs, refuses_lit].
  unfold bodyPat. cbn [app].
  change (js "p * ") with (js "p" ++ js " " ++ js "*" ++ js " "). rewrite <- !app_assoc.
  rewrite m_seqs_cons, m_lit, m_seqs_cons, m_ws_one; [|done|by apply refuses_seqs, refuses_lit].
  rewrite m_seqs_cons, m_lit, m_seqs_cons, m_ws_one;
    [|by apply numtext_stops|apply refuses_seqs, refuses_cap_plus, ws_not_numchar].
  rewrite m_seqs_cons. destruct Hic as [Hic1 Hic2]. apply m_cap_plus_first; [done|done|done|].
  change (js " + c * ") with (js " " ++ js "+" ++ js " " ++ js "c" ++ js " " ++ js "*" ++ js " ").
  rewrite <- !app_assoc.
  rewrite m_seqs_cons, m_ws_one; [|done|by apply refuses_seqs, refuses_lit].
  rewrite m_seqs_cons, m_lit, m_seqs_cons, m_ws_one; [|done|by apply refuses_seqs, refuses_lit].
  rewrite m_seqs_cons, m_lit, m_seqs_cons, m_ws_one; [|done|by apply refuses_seqs, refuses_lit].
  rewrite m_seqs_cons, m_lit, m_seqs_cons, m_ws_one;
    [|by apply numtext_stops|apply refuses_seqs, refuses_cap_plus, ws_not_numchar].
  rewrite m_seqs_cons. destruct Hoc as [Hoc1 Hoc2].
  apply m_cap_plus_first; [done|done|apply extras_stops|].
  apply m_optCache; [apply cacheVarNames_separated|done|done|].
  intros b'. specialize (Hk b'). unfold tier_caps in Hk.
  replace (n + 1 + 2)%nat with (n + 3)%nat by lia. by replace (n + 1 + 1)%nat with (n + 2)%nat by lia.
Qed.

(** ** Costs *)

(** The text of a cost, when it is set. *)
Definition cost_text (v : num) : option jsstr := if num_truthy v then Some (Number_toString v) else None.

Definition vals (t : VisualTier) : list num := (costs t).*2.
Definition cost_texts (t : VisualTier) : list (option jsstr) := map cost_text (vals t).

Lemma cost_text_numtext v : printable v → opt_numtext (cost_text v).
Proof. intros H. unfold cost_text. destruct (num_truthy v); [|done]. by apply printable_numtext. Qed.

Lemma map_get_zip (fs : list jsstr) (vs : list num) f v :
  NoDup fs → (f, v) ∈ zip fs vs → map_get f (zip fs vs) = Some v.
Proof.
  intros Hnd Hin. apply map_get_elem_of; [|done].
  eapply sublist_NoDup; [exact Hnd|]. clear. revert vs. induction fs as [|f fs IH]; intros [|v vs]; cbn.
  - constructor.
  - constructor.
  - apply sublist_nil_l.
  - apply sublist_skip, IH.
Qed.

Lemma map_zip_get {B} (g : option num → B) (fs : list jsstr) (vs : list num) :
  NoDup fs → length fs = length vs →
  map (fun f => g (map_get f (zip fs vs))) fs = map (fun v => g (Some v)) vs.
Proof.
  revert vs. induction fs as [|f fs IH]; intros [|v vs] Hnd Hlen; try done.
  apply NoDup_cons in Hnd as [Hf Hnd]. injection Hlen as Hlen. cbn [zip map map_get].
  rewrite decide_True by done. f_equal. rewrite <- (IH vs) by done.
  apply map_ext_in. intros f' Hf'. rewrite decide_False; [done|].
  intros ->. apply Hf. by apply list_elem_of_In.
Qed.

Lemma cost_fields_NoDup : NoDup cost_fields.
Proof. apply (proj1 (bool_decide_eq_true (NoDup cost_fields))). by vm_compute. Qed.

Lemma tier_costs t : tier_ok t → costs t = zip cost_fields (vals t) ∧ length cost_fields = length (vals t).
Proof.
  intros [_ _ _ _ _ [Hf _]]. split.
  - rewrite <- Hf. unfold vals. by rewrite zip_fst_snd.
  - rewrite <- Hf. unfold vals. by rewrite !length_fmap.
Qed.

Lemma extra_parts_text (F : jsstr * jsstr → option jsstr) (l : list (jsstr * jsstr)) (cost : jsstr → num) :
  (∀ f v, F (f, v) = if num_truthy (cost f) then Some (v ++ js " * " ++ Number_toString (cost f)) else None) →
  concat (map (fun p => js " + " ++ p) (omap F l))
  = extras_text (map snd l) (map (fun f => cost_text (cost f)) (map fst l)).
Proof.
  intros HF. induction l as [|[f v] l IH]; [done|].
  change (omap F ((f, v) :: l)) with (match F (f, v) with Some y => y :: omap F l | None => omap F l end).
  rewrite HF. cbn [map fst snd extras_text]. unfold cost_text at 1.
  destruct (num_truthy (cost f)); [|done]. cbn [map concat]. rewrite IH. by rewrite <- !app_assoc.
Qed.

Lemma join_plus a l : join (js " + ") (a :: l) = a ++ concat (map (fun p => js " + " ++ p) l).
Proof.
  revert a. induction l as [|b l IH]; intros a; [by rewrite app_nil_r|].
  change (join (js " + ") (a :: b :: l)) with (a ++ js " + " ++ join (js " + ") (b :: l)).
  rewrite IH. cbn [map concat]. by rewrite <- app_assoc.
Qed.

Lemma body_of_tier t : tier_ok t →
  buildTierBodyExpr t
  = body_text (Number_toString (input_unit_cost t)) (Number_toString (output_unit_cost t)) (cost_texts t).
Proof.
  intros Ht. pose proof Ht as [_ _ Hi Ho _ [_ Hp]]. destruct (tier_costs t Ht) as [Hc Hlen].
  unfold buildTierBodyExpr, body_text. rewrite !printable_or_zero by done. rewrite join_plus.
  cbn [map concat]. unfold extraParts.
  rewrite (extra_parts_text _ _ (fun f => number_or_zero (map_get f (costs t)))) by done.
  change (map snd BILLING_CACHE_VAR_MAP) with cacheVarNames. change (map fst BILLING_CACHE_VAR_MAP) with cost_fields.
  assert (Hws : map (fun f => cost_text (number_or_zero (map_get f (costs t)))) cost_fields = cost_texts t).
  { rewrite Hc. rewrite (map_zip_get (fun o => cost_text (number_or_zero o))) by (done || apply cost_fields_NoDup).
    unfold cost_texts. apply map_ext_in. intros v Hv. unfold number_or_zero, to_number. cbn [default].
    rewrite printable_or_zero; [done|]. rewrite Forall_forall in Hp. apply Hp. by apply list_elem_of_In. }
  cbv beta. rewrite Hws. change (js " + c * ") with (js " + " ++ js "c * "). by rewrite <- !app_assoc.
Qed.

(** ** Reading the captures *)

Lemma get_set_extras j n ws cs :
  map_get j (set_extras n ws cs)
  = match (if (j <? n)%nat then None else ws !! (j - n)%nat) with
    | Some (Some w) => Some w
    | _ => map_get j cs
    end.
Proof.
  revert n cs. induction ws as [|w ws IH]; intros n cs; cbn [set_extras].
  { by destruct (_ <? _)%nat. }
  rewrite IH. destruct (decide (j < n)%nat) as [H1|H1].
  { rewrite (proj2 (Nat.ltb_lt _ _)), (proj2 (Nat.ltb_lt j n)) by lia.
    destruct w; [|done]. by rewrite map_get_set_ne by lia. }
  rewrite (proj2 (Nat.ltb_ge j n)) by lia. destruct (decide (j = n)) as [->|H2].
  - rewrite (proj2 (Nat.ltb_lt _ _)), Nat.sub_diag by lia. cbn. destruct w; [|done]. by rewrite map_get_set_eq.
  - rewrite (proj2 (Nat.ltb_ge _ _)) by lia. replace (j - n)%nat with (S (j - S n)) by lia. cbn.
    destruct (ws !! _) as [[|]|]; [done|..]; (destruct w; [|done]); by rewrite map_get_set_ne by lia.
Qed.

Lemma set_extras_below j n ws cs : (j < n)%nat → map_get j (set_extras n ws cs) = map_get j cs.
Proof. intros H. rewrite get_set_extras. by rewrite (proj2 (Nat.ltb_lt j n)). Qed.

Lemma tier_caps_spec n label ic oc ws cs st :
  caps st = tier_caps n label ic oc ws cs →
  (∀ j, (n <= j)%nat → map_get j cs = None) →
  grp n st = label ∧ grp (n + 1) st = ic ∧ grp (n + 2) st = oc
  ∧ (∀ i, group (n + 3 + i) st = mjoin (ws !! i)) ∧ (∀ j, (j < n)%nat → group j st = map_get j cs).
Proof.
  intros Hc Hcs. unfold grp, group. rewrite Hc. unfold tier_caps. repeat split.
  - rewrite set_extras_below by lia. rewrite !map_get_set_ne by lia. by rewrite map_get_set_eq.
  - rewrite set_extras_below by lia. rewrite !map_get_set_ne by lia. by rewrite map_get_set_eq.
  - rewrite set_extras_below by lia. by rewrite map_get_set_eq.
  - intros i. rewrite get_set_extras. rewrite (proj2 (Nat.ltb_ge _ _)) by lia.
    replace (n + 3 + i - (n + 3))%nat with i by lia. rewrite !map_get_set_ne by lia. rewrite Hcs by lia.
    by destruct (ws !! i) as [[|]|].
  - intros j Hj. rewrite set_extras_below by lia. by rewrite !map_get_set_ne by lia.
Qed.

(** The costs a match sets. *)
Fixpoint read_costs (fs : list jsstr) (ws : list (option jsstr)) : list (jsstr * num) :=
  match fs, ws with
  | f :: fs', w :: ws' =>
      match w with Some w => (f, Number w) :: read_costs fs' ws' | None => read_costs fs' ws' end
  | _, _ => []
  end.

Lemma imap_read_costs (G : nat → jsstr * jsstr → option (jsstr * num)) l ws :
  (∀ i f v, G i (f, v) = (fun val => (f, Number val)) <$> mjoin (ws !! i)) → length ws = length l →
  omap id (imap G l) = read_costs (map fst l) ws.
Proof.
  revert G ws. induction l as [|[f v] l IH]; intros G ws HG Hlen; [done|].
  destruct ws as [|w ws]; [done|]. injection Hlen as Hlen. cbn [imap map read_costs].
  change (omap id (?x :: ?l')) with (match x with Some y => y :: omap id l' | None => omap id l' end).
  rewrite HG, (IH (G ∘ S) ws); [by destruct w| |done].
  intros i f' v'. cbn [compose]. by rewrite HG.
Qed.

Lemma read_costs_keys fs ws f : f ∈ (read_costs fs ws).*1 → f ∈ fs.
Proof.
  revert ws. induction fs as [|f' fs IH]; intros ws; [done|]. destruct ws as [|[w|] ws]; cbn; [set_solver|..].
  - rewrite elem_of_cons. intros [->|H]; [left|right; eauto].
  - intros H. right. eauto.
Qed.

(** Reading back the texts of printable costs: a cost that is not set is zero. *)
Lemma read_costs_get fs vs (g : option num → num) :
  NoDup fs → length fs = length vs → Forall printable vs →
  (∀ v, printable v → num_truthy v = false → g None = g (Some v)) →
  map (fun f => g (map_get f (read_costs fs (map cost_text vs)))) fs = map (fun v => g (Some v)) vs.
Proof.
  revert vs. induction fs as [|f fs IH]; intros [|v vs] Hnd Hlen Hp Hg; try done.
  apply NoDup_cons in Hnd as [Hf Hnd]. injection Hlen as Hlen. apply Forall_cons in Hp as [Hv Hp].
  cbn [map read_costs].
  assert (Hfresh : map_get f (read_costs fs (map cost_text vs)) = None).
  { apply map_get_None. intros H. by apply read_costs_keys in H. }
  rewrite <- (IH vs) by done. destruct (num_truthy v) eqn:E.
  - assert (Ec : cost_text v = Some (Number_toString v)) by (unfold cost_text; by rewrite E).
    rewrite Ec, printable_back by done. f_equal.
    + cbn [map_get]. by rewrite decide_True.
    + apply map_ext_in. intros f' Hf'. cbn [map_get]. rewrite decide_False; [done|].
      intros ->. apply Hf. by apply list_elem_of_In.
  - assert (Ec : cost_text v = None) by (unfold cost_text; by rewrite E).
    rewrite Ec. f_equal. rewrite Hfresh. by apply Hg.
Qed.

Lemma printable_falsy v : printable v → num_truthy v = false → v = S754_zero false.
Proof. intros [H1 H2]. by destruct v as [[]| | |]. Qed.

Lemma map_pair_zip {A B} (h : A → B) (fs : list A) : map (fun f => (f, h f)) fs = zip fs (map h fs).
Proof. induction fs; cbn; [done|]. by f_equal. Qed.

(** The mode is decided by the one-hour cost, set or not. *)
Lemma read_mode (vs : list num) :
  length cost_fields = length vs → Forall printable vs →
  getTierCacheMode None (read_costs cost_fields (map cost_text vs)) = getTierCacheMode None (zip cost_fields vs).
Proof.
  intros Hlen Hp. unfold getTierCacheMode. cbn [bool_decide].
  set (f1h := js "cache_create_1h_unit_cost").
  assert (Hin : f1h ∈ cost_fields) by (unfold cost_fields; do 2 right; left).
  set (g := fun o : option num => if num_ltb (S754_zero false) (to_number o) then num_of_Z 1 else num_of_Z 0).
  pose proof (read_costs_get cost_fields vs g cost_fields_NoDup Hlen Hp) as H1.
  pose proof (map_zip_get g cost_fields vs cost_fields_NoDup Hlen) as H2. rewrite <- H2 in H1.
  assert (Hg : g (map_get f1h (read_costs cost_fields (map cost_text vs))) = g (map_get f1h (zip cost_fields vs))).
  { apply list_elem_of_lookup in Hin as [i Hi].
    assert (H3 : ∀ h : jsstr → num, (map h cost_fields) !! i = Some (h f1h)).
    { intros h. pose proof (list_lookup_fmap h cost_fields i) as Hh. by rewrite Hi in Hh. }
    specialize (H1 ltac:(intros v Hv E; by rewrite (printable_falsy v Hv E))).
    pose proof (H3 (fun f => g (map_get f (read_costs cost_fields (map cost_text vs))))) as H4.
    rewrite H1, (H3 (fun f => g (map_get f (zip cost_fields vs)))) in H4. by injection H4. }
  unfold g in Hg. repeat case_bool_decide; try done.
  destruct (num_ltb _ (to_number (map_get f1h (read_costs _ _)))), (num_ltb _ (to_number (map_get f1h (zip _ _)))); done.
Qed.

Lemma tier_of_match n conds label ic oc t cs st :
  tier_ok t → caps st = tier_caps n label ic oc (cost_texts t) cs → (∀ j, (n <= j)%nat → map_get j cs = None) →
  label = vlabel t → conds = vconditions t →
  ic = Number_toString (input_unit_cost t) → oc = Number_toString (output_unit_cost t) →
  tierOfMatch n conds st = t.
Proof.
  intros Ht Hc Hcs -> -> -> ->. destruct (tier_caps_spec _ _ _ _ _ _ _ Hc Hcs) as (H1 & H2 & H3 & H4 & _).
  destruct (tier_costs t Ht) as [Hcosts Hlen]. pose proof Ht as [_ _ Hi Ho Hm [_ Hp]].
  unfold tierOfMatch. rewrite H1, H2, H3, !printable_back by done.
  rewrite (imap_read_costs _ _ (cost_texts t)); cycle 1.
  { intros i f v. by rewrite H4. }
  { unfold cost_texts. rewrite length_map. by rewrite <- Hlen. }
  change (map fst BILLING_CACHE_VAR_MAP) with cost_fields.
  unfold normalizeVisualTier. cbn [p_label p_conditions p_input p_output p_mode p_costs default].
  unfold cost_texts. rewrite read_mode, <- Hcosts, <- Hm by done.
  rewrite (map_pair_zip (fun f => number_or_zero (map_get f _))).
  rewrite read_costs_get; [|apply cost_fields_NoDup|done|done|].
  - replace (map (fun v => number_or_zero (Some v)) (vals t)) with (vals t); [by rewrite <- Hcosts; destruct t|].
    symmetry. apply map_id_Forall. eapply Forall_impl; [exact Hp|]. apply printable_or_zero.
  - intros v Hv E. by rewrite (printable_falsy v Hv E).
Qed.

Lemma normalize_tier_id t : tier_ok t → normalizeVisualTier (partial_of t) = t.
Proof.
  intros Ht. destruct (tier_costs t Ht) as [Hcosts Hlen]. pose proof Ht as [_ _ Hi Ho Hm [_ Hp]].
  unfold normalizeVisualTier. cbn [partial_of p_label p_conditions p_input p_output p_mode p_costs default].
  rewrite (map_pair_zip (fun f => number_or_zero (map_get f _))), Hcosts.
  rewrite map_zip_get by (done || apply cost_fields_NoDup).
  replace (map (fun v => number_or_zero (Some v)) (vals t)) with (vals t); [by rewrite <- Hcosts; destruct t|].
  symmetry. apply map_id_Forall. eapply Forall_impl; [exact Hp|]. apply printable_or_zero.
Qed.

Lemma normalize_config_id cfg : cfg ≠ [] → Forall tier_ok cfg → normalizeVisualConfig (Some cfg) = cfg.
Proof.
  intros Hne Hok. destruct cfg as [|t cfg]; [done|].
  change (map (fun t => normalizeVisualTier (partial_of t)) (t :: cfg) = t :: cfg).
  apply map_id_Forall. eapply Forall_impl; [exact Hok|]. apply normalize_tier_id.
Qed.

(** ** Reading conditions *)

Definition cond_shown (c : TierConditionInput) : bool :=
  nonempty (cvar c) && nonempty (cop c) && has_value (cval c).
Definition cond_text (c : TierConditionInput) : jsstr :=
  cvar c ++ js " " ++ cop c ++ js " " ++ match cval c with Some v => value_text v | None => [] end.

Lemma conds_triples cs : Forall cond_ok cs →
  ∃ ps, Forall2 (fun c p => parts c p.1.1 p.1.2 p.2) cs ps ∧ Forall triple_ok ps
        ∧ buildConditionStr cs = join (js " && ") (map ttext ps).
Proof.
  intros Hcs. enough (∃ ps, Forall2 (fun c p => parts c p.1.1 p.1.2 p.2) cs ps ∧ Forall triple_ok ps
        ∧ map cond_text (List.filter cond_shown cs) = map ttext ps) as (ps & H1 & H2 & H3).
  { exists ps. split; [done|]. split; [done|]. change (buildConditionStr cs)
      with (join (js " && ") (map cond_text (List.filter cond_shown cs))). by rewrite H3. }
  induction Hcs as [|c cs Hc Hcs (ps & H2 & Hok & Heq)].
  { exists []. by repeat constructor. }
  destruct (cond_parts c Hc) as (v & o & w & Hp). exists ((v, o, w) :: ps).
  split; [by constructor|]. pose proof Hp as (Hv & Ho & Hw & Ev & Eo & x & Ex & Ew & _).
  split; [by constructor|]. cbn [List.filter]. replace (cond_shown c) with true.
  - cbn [map]. rewrite Heq. f_equal. unfold cond_text. by rewrite Ev, Eo, Ex, Ew.
  - unfold cond_shown. rewrite Ev, Eo, Ex. by cases_in Hv; cases_in Ho.
Qed.

(** The splitter moves over a condition's text and cuts at the conjunction. *)
Lemma and_none b s : starts_with (js "&&") (drop_ws s) = false → m and_re Some (mkM b s []) = None.
Proof.
  intros H. unfold and_re. rewrite m_seqs_cons.
  assert (Hs : ∃ w, s = w ++ drop_ws s ∧ Forall (fun c => is_ws c = true) w ∧ stops is_ws (drop_ws s)).
  { clear. induction s as [|c s (w & E & Hw & Hst)]; [by exists []|]. cbn [drop_ws].
    destruct (is_ws c) eqn:Ec; [|by exists []].
    exists (c :: w). split; [cbn; by rewrite <- E|]. split; [by constructor|done]. }
  destruct Hs as (w & E & Hw & Hst). rewrite E. unfold ws_star.
  rewrite m_star_until; [|done|done|by apply refuses_seqs, refuses_lit].
  rewrite m_seqs_cons. by apply m_lit_none.
Qed.

Lemma drop_ws_app_keep e s d : last e = Some d → is_ws d = false → drop_ws (e ++ s) = drop_ws e ++ s ∧ drop_ws e ≠ [].
Proof.
  revert d. induction e as [|c e IH]; intros d Hd Hw; [done|]. cbn [app drop_ws].
  destruct (is_ws c) eqn:Ec; [|done]. destruct e as [|c' e]; [injection Hd as ->; congruence|].
  by apply (IH d).
Qed.

Lemma split_over e s b cur n d :
  free 38 e → last e = Some d → is_ws d = false →
  ∃ b', split_go (length e + n) and_re b cur (e ++ s) = split_go n and_re b' (reverse e ++ cur) s.
Proof.
  intros Hf Hd Hw. assert (Hne : e ≠ []) by by destruct e. revert b cur Hne Hd.
  induction e as [|c e IH]; intros b cur _ Hd; [done|].
  cbn [length Nat.add app split_go]. rewrite and_none.
  - destruct e as [|c' e]; [by exists (Some c)|]. apply Forall_cons in Hf as [_ Hf].
    destruct (IH Hf (Some c) (c :: cur)) as [b' Hb']; [done|by destruct e|].
    exists b'. rewrite Hb'. by rewrite reverse_app_cons.
  - destruct (drop_ws_app_keep (c :: e) s d Hd Hw) as [E Hn]. cbn [app] in E. rewrite E.
    assert (Hfr : free 38 (drop_ws (c :: e))).
    { destruct (drop_ws_suffix (c :: e)) as [k Hk]. by apply (free_suffix 38 (c :: e) k). }
    destruct (drop_ws (c :: e)) as [|x y]; [done|]. apply Forall_cons in Hfr as [Hx _].
    change (js "&&") with [38%N; 38%N]. cbn [app starts_with].
    by replace (38 =? x)%N with false by (symmetry; rewrite N.eqb_sym; done).
Qed.

Lemma and_cut b s : stops is_ws s → m and_re Some (mkM b (js " && " ++ s) []) = Some (mkM (Some 32%N) s []).
Proof.
  intros Hs. unfold and_re. change (js " && ") with (js " " ++ js "&&" ++ js " "). rewrite <- !app_assoc.
  rewrite m_seqs_cons, m_ws_one; [|done|by apply refuses_seqs, refuses_lit].
  rewrite m_seqs_cons, m_lit, m_seqs_cons. unfold ws_star. apply m_star_first; [by repeat constructor|done|done].
Qed.

Lemma split_cut n b cur s : stops is_ws s →
  split_go (S n) and_re b cur (js " && " ++ s) = reverse cur :: split_go n and_re (Some 32%N) [] s.
Proof.
  intros Hs. pose proof (and_cut b s Hs) as Hc.
  change (js " && " ++ s) with (32%N :: js "&& " ++ s) in *. cbn [split_go]. rewrite Hc. cbn [rest prev].
  replace (_ <? _)%nat with true; [done|]. symmetry. apply Nat.ltb_lt. cbn [length].
  rewrite length_app. lia.
Qed.

Definition conj_ok (e : jsstr) : Prop :=
  free 38 e ∧ stops is_ws e ∧ e ≠ [] ∧ ∃ d, last e = Some d ∧ is_ws d = false.

Lemma split_join es : Forall conj_ok es → es ≠ [] → split_re and_re (join (js " && ") es) = es.
Proof.
  intros Hes Hne. unfold split_re. generalize (@None N). intros b.
  assert (Hle : (length (join (js " && ") es) <= length (join (js " && ") es))%nat) by lia.
  revert Hle. generalize (length (join (js " && ") es)) at 2 3. intros n Hle.
  revert n b Hle Hne. induction Hes as [|e es (Hf & Hs & Hn & d & Hd & Hw) Hes IH]; intros n b Hle Hne; [done|].
  destruct es as [|e' es].
  - cbn [join] in *. rewrite <- (app_nil_r e) at 1. replace n with (length e + (n - length e))%nat by lia.
    destruct (split_over e [] b [] (n - length e) d Hf Hd Hw) as [b' ->]. rewrite app_nil_r.
    destruct (n - length e)%nat; cbn; by rewrite reverse_involutive.
  - change (join (js " && ") (e :: e' :: es)) with (e ++ js " && " ++ join (js " && ") (e' :: es)) in *.
    set (s := join (js " && ") (e' :: es)) in *. rewrite !length_app in Hle.
    change (length (js " && ")) with 4%nat in Hle.
    replace n with (length e + S (n - length e - 1))%nat by lia.
    destruct (split_over e (js " && " ++ s) b [] (S (n - length e - 1)) d Hf Hd Hw) as [b' ->].
    assert (Hst : stops is_ws s).
    { subst s. apply Forall_cons in Hes as [(_ & Hs' & Hn' & _) _]. destruct e' as [|x e']; [done|]. by destruct es. }
    rewrite app_nil_r, split_cut by done. f_equal; [apply reverse_involutive|]. apply IH; [lia|done].
Qed.

Lemma free_condtext d w : condtext w → is_condchar d = false → free d w.
Proof.
  intros [_ Hw] Hd. apply free_spec. intros Hin. rewrite Forall_forall in Hw. by rewrite Hw in Hd.
Qed.

Lemma ttext_conj p : triple_ok p → conj_ok (ttext p) ∧ trim (ttext p) = ttext p.
Proof.
  destruct p as [[v o] w]. intros (Hv & Ho & Hw). cbn [fst snd] in *. unfold ttext. cbn [fst snd].
  assert (Hlast : ∃ d, last (ctext v o w) = Some d ∧ is_ws d = false).
  { destruct Hw as [Hne Hw]. destruct (last w) as [d|] eqn:E; [|by apply last_None in E].
    exists d. split; [by do 4 apply last_app_Some|]. rewrite Forall_forall in Hw.
    pose proof (Hw d ltac:(by apply last_Some_elem_of)) as Hd.
    destruct (is_ws d) eqn:Ew; [|done]. apply ws_not_condchar in Ew. congruence. }
  assert (Hstop : stops is_ws (ctext v o w)) by by apply var_stops.
  assert (Hne : ctext v o w ≠ []) by by cases_in Hv.
  split.
  - split; [|done]. unfold ctext. cases_in Hv; cases_in Ho;
      repeat (apply Forall_app; split); (by repeat constructor) || by apply free_condtext.
  - destruct Hlast as (d & Hd & ?). destruct (ctext v o w) as [|c t] eqn:E; [done|].
    by apply (trim_ends _ c d).
Qed.

(** One condition read back. *)
Lemma read_single v o w :
  triple_ok (v, o, w) →
  ∃ st, exec single_cond_re (ttext (v, o, w)) = Some st ∧ grp 1 st = v ∧ grp 2 st = o ∧ grp 3 st = w.
Proof.
  intros (Hv & Ho & Hw). cbn [fst snd] in *. exists (mkM (after (Some 32%N) w) [] [(1%nat, v); (2%nat, o); (3%nat, w)]).
  split; [|done]. unfold single_cond_re, ttext, ctext. cbn [fst snd]. rewrite exec_bol, m_seqs_cons.
  assert (Hvar : ∀ k' : mst → option mst, ∀ t, m (Cap 1 cond_var_re) k' (mkM None (v ++ js " " ++ t) [])
                 = k' (mkM (after None v) (js " " ++ t) [(1%nat, v)])).
  { intros k' t. unfold cond_var_re. cases_in Hv;
      [apply (m_cap_alts_lit 1 [] (js "p") [js "c"; js "len"])|apply (m_cap_alts_lit 1 [js "p"] (js "c") [js "len"])
      |apply (m_cap_alts_lit 1 [js "p"; js "c"] (js "len") [])]; by repeat constructor. }
  rewrite Hvar. unfold cond_num_re.
  rewrite m_seqs_cons, m_ws_one; [|by apply op_stops|].
  2: { apply refuses_seqs. intros b c t cs Hc. rewrite m_cap. by apply (refuses_op is_ws). }
  assert (Hnum : ∀ b t cs, m (seqs [ws_star; Cap 3 (Plus (Chr is_condchar)); Eol]) Some (mkM b (61%N :: t) cs) = None).
  { intros b t cs. rewrite m_seqs_cons, m_ws_none; [|done|apply refuses_seqs, refuses_cap_plus, ws_not_condchar].
    rewrite m_seqs_cons, m_cap. by apply m_plus_none. }
  rewrite m_seqs_cons, m_cap, m_op; [|done|].
  2: { intros b' t' cs'. unfold capture. apply Hnum. }
  rewrite capture_app. rewrite m_seqs_cons, m_ws_one;
    [|rewrite <- (app_nil_r w); by apply condtext_stops|apply refuses_seqs, refuses_cap_plus, ws_not_condchar].
  rewrite m_seqs_cons. destruct Hw as [Hw1 Hw2]. rewrite <- (app_nil_r w) at 1.
  rewrite m_cap_plus_until by done. done.
Qed.

Lemma omap_Forall2 {A B C} (F : A → option B) (G : B → C) (l : list A) (l' : list C) :
  Forall2 (fun a c => ∃ b, F a = Some b ∧ G b = c) l l' → map G (omap F l) = l'.
Proof.
  induction 1 as [|a c l l' (b & Hb & Hc) H IH]; [done|].
  change (omap F (a :: l)) with (match F a with Some y => y :: omap F l | None => omap F l end).
  rewrite Hb. cbn [map]. by rewrite Hc, IH.
Qed.

Lemma read_conditions cs ps st :
  Forall2 (fun c p => parts c p.1.1 p.1.2 p.2) cs ps → Forall triple_ok ps →
  grp 1 st = join (js " && ") (map ttext ps) → readConditions st = cs.
Proof.
  intros H2 Hok Hg. unfold readConditions, parseTierConditions. rewrite Hg.
  destruct ps as [|p0 ps0] eqn:Eps; [by inversion H2|]. rewrite <- Eps in *.
  assert (Hconj : Forall conj_ok (map ttext ps)).
  { apply Forall_fmap. eapply Forall_impl; [exact Hok|]. intros p Hp. by apply ttext_conj. }
  rewrite (proj2 (nonempty_true _)); cycle 1.
  { apply join_nonempty; [by subst|]. eapply Forall_impl; [exact Hconj|]. by intros e (_ & _ & ? & _). }
  cbn [negb]. rewrite split_join by (done || by subst).
  apply omap_Forall2. clear Eps p0 ps0 Hg Hconj.
  induction H2 as [|c [[v o] w] cs ps Hp H2 IH]; [constructor|].
  apply Forall_cons in Hok as [Hok1 Hok]. constructor; [|by apply IH].
  destruct (read_single v o w Hok1) as (st' & He & Hg1 & Hg2 & Hg3).
  destruct (ttext_conj _ Hok1) as [_ ->]. rewrite He. eexists. split; [done|].
  destruct Hp as (_ & _ & _ & Ev & Eo & x & Ex & Ew & En). cbn [fst snd var op value] in *.
  rewrite Hg1, Hg2, Hg3, En, <- Ex. subst. by destruct c.
Qed.

(** ** Matching a tier in the whole expression *)

Definition call_of (t : VisualTier) : jsstr := tierCall (vlabel t) (buildTierBodyExpr t).

(** A tier as it appears in the expression. *)
Definition part_of (t : VisualTier) : jsstr :=
  let cond := buildConditionStr (vconditions t) in
  if nonempty cond then cond ++ js " ? " ++ call_of t else call_of t.

Definition caps_of (n : nat) (t : VisualTier) (cs : list (nat * jsstr)) : list (nat * jsstr) :=
  tier_caps n (vlabel t) (Number_toString (input_unit_cost t)) (Number_toString (output_unit_cost t))
    (cost_texts t) cs.

Definition cond_caps (t : VisualTier) : list (nat * jsstr) :=
  let cond := buildConditionStr (vconditions t) in if nonempty cond then [(1%nat, cond)] else [].

Lemma m_tier_ok n fin (k : mst → option mst) b t u cs r :
  tier_ok t → (∀ b', m (seqs fin) k (mkM b' (js ")" ++ u) (caps_of n t cs)) = Some r) →
  m (seqs (tier_head n ++ bodyPat (n + 1) ++ fin)) k (mkM b (call_of t ++ u) cs) = Some r.
Proof.
  intros Ht Hk. pose proof Ht as [[_ Hl] _ Hi Ho _ [Hf Hp]]. unfold call_of. rewrite body_of_tier by done.
  apply m_tier; [done|by apply printable_numtext..| | |done].
  - unfold cost_texts, vals. rewrite length_map, length_fmap.
    rewrite <- (length_fmap fst), Hf. done.
  - unfold cost_texts. apply Forall_fmap. eapply Forall_impl; [exact Hp|]. apply cost_text_numtext.
Qed.

Lemma m_part t b u :
  tier_ok t →
  m visualTierRe Some (mkM b (part_of t ++ u) []) = Some (mkM (Some 41%N) u (caps_of 2 t (cond_caps t))).
Proof.
  intros Ht. unfold visualTierRe. rewrite m_seqs_cons. unfold Opt.
  change (m (Alt ?a ?b) ?k ?s) with (match m a k s with Some r => Some r | None => m b k s end).
  assert (Hcall : ∀ b' cs, m (seqs (tier_head 2 ++ bodyPat 3 ++ [lit (js ")")])) Some (mkM b' (call_of t ++ u) cs)
                           = Some (mkM (Some 41%N) u (caps_of 2 t cs))).
  { intros b' cs. apply (m_tier_ok 2); [done|]. intros b''. by rewrite m_seqs_cons, m_lit. }
  destruct (conds_triples _ (ok_conditions t Ht)) as (ps & H2 & Hok & Heq).
  unfold part_of, cond_caps. rewrite Heq. destruct ps as [|p ps].
  - cbn [map join nonempty]. 
    assert (Hnone : ∀ (k : mst → option mst) w, m (seqs [condGroup; ws_star; lit (js "?"); ws_star]) k
              (mkM b (jsq "tier('" ++ w) []) = None) by done.
    unfold call_of at 1, tierCall. rewrite <- app_assoc, Hnone. apply Hcall.
  - assert (Hne : nonempty (join (js " && ") (map ttext (p :: ps))) = true).
    { apply nonempty_true, join_nonempty; [done|]. apply Forall_fmap. eapply Forall_impl; [exact Hok|].
      intros q Hq. by destruct (ttext_conj q Hq) as [(_ & _ & ? & _) _]. }
    rewrite Hne. rewrite <- !app_assoc, m_seqs_cons. erewrite m_condGroup; [done|done|].
    intros b'. rewrite m_seqs_cons. change (js " ? ") with (js " " ++ js "?" ++ js " "). rewrite <- !app_assoc.
    rewrite m_ws_one; [|done|by apply refuses_seqs, refuses_lit].
    rewrite m_seqs_cons, m_lit, m_seqs_cons, m_ws_one.
    + apply (Hcall (Some 32%N) [(1%nat, join (js " && ") (map ttext (p :: ps)))]).
    + done.
    + change (m (seqs []) ?k) with k. by apply refuses_seqs, refuses_lit.
Qed.

Lemma exec_at r b s st : m r Some (mkM b s []) = Some st → exec_from r b s = Some st.
Proof. intros H. destruct s; cbn [exec_from]; by rewrite H. Qed.

Lemma exec_skip_colon b s :
  exec_from visualTierRe b (js " : " ++ s) = exec_from visualTierRe (Some 32%N) s.
Proof. reflexivity. Qed.

(** The captures of the loop over the whole expression. *)
Lemma exec_all_parts ts fuel b :
  Forall tier_ok ts → ts ≠ [] → (length ts < fuel)%nat →
  map caps (exec_all_from fuel visualTierRe b (join (js " : ") (map part_of ts)))
  = map (fun t => caps_of 2 t (cond_caps t)) ts.
Proof.
  intros Hts. revert fuel b. induction Hts as [|t ts Ht Hts IH]; intros fuel b Hne Hf; [done|].
  destruct fuel as [|fuel]; [lia|]. cbn [length] in Hf. destruct ts as [|t' ts].
  - cbn [map join exec_all_from]. rewrite <- (app_nil_r (part_of t)). rewrite (exec_at _ _ _ _ (m_part t b [] Ht)).
    cbn [rest prev map]. destruct fuel; [lia|]. done.
  - change (join (js " : ") (map part_of (t :: t' :: ts)))
      with (part_of t ++ js " : " ++ join (js " : ") (map part_of (t' :: ts))).
    cbn [exec_all_from]. rewrite (exec_at _ _ _ _ (m_part t b _ Ht)). cbn [rest prev].
    cbn [map caps]. f_equal. specialize (IH fuel (Some 32%N)). cbn [map] in IH. rewrite <- IH by (done || lia).
    destruct fuel as [|fuel]; [lia|]. cbn [exec_all_from]. by rewrite exec_skip_colon.
Qed.

(** The tiers of such matches. *)
Definition tier_at (cs : list (nat * jsstr)) : VisualTier :=
  tierOfMatch 2 (readConditions (mkM None [] cs)) (mkM None [] cs).

Lemma tier_at_ok t : tier_ok t → tier_at (caps_of 2 t (cond_caps t)) = t.
Proof.
  intros Ht. unfold tier_at. destruct (conds_triples _ (ok_conditions t Ht)) as (ps & H2 & Hok & Heq).
  assert (Hcs : ∀ j, (2 <= j)%nat → map_get j (cond_caps t) = None).
  { intros j Hj. unfold cond_caps. destruct (nonempty _); [|done]. cbn. by rewrite decide_False by lia. }
  set (st := mkM None [] (caps_of 2 t (cond_caps t))).
  assert (Hst : caps st = caps_of 2 t (cond_caps t)) by done.
  eapply tier_of_match; try done.
  apply (read_conditions _ ps); [done|done|].
  destruct (tier_caps_spec _ _ _ _ _ _ _ Hst Hcs) as (_ & _ & _ & _ & Hg). unfold grp. rewrite Hg by lia.
  unfold cond_caps. rewrite Heq. destruct (join _ (map ttext ps)); done.
Qed.

Lemma tiers_read (ms : list mst) ts :
  Forall tier_ok ts → map caps ms = map (fun t => caps_of 2 t (cond_caps t)) ts →
  map (fun m => tierOfMatch 2 (readConditions m) m) ms = ts.
Proof.
  intros Hts Hms. change (map (fun m => tierOfMatch 2 (readConditions m) m) ms) with (map (fun m => tier_at (caps m)) ms).
  rewrite <- map_map with (f := caps) (g := tier_at). rewrite Hms, map_map. apply map_id_Forall.
  eapply Forall_impl; [exact Hts|]. apply tier_at_ok.
Qed.

(** ** The pattern of a single tier *)

Lemma seqs_app {R} l1 l2 (k : mst → option R) s : m (seqs (l1 ++ l2)) k s = m (seqs l1) (m (seqs l2) k) s.
Proof. revert s. induction l1 as [|a l1 IH]; intros s; [done|]. cbn [app]. rewrite !m_seqs_cons. by apply m_ext. Qed.

Lemma over_ws P : (∀ c, is_ws c = true → P c) → over P ws_star.
Proof. done. Qed.

Lemma over_lit P w : Forall P w → over P (lit w).
Proof. induction 1 as [|c w Hc Hw IH]; [done|]. split; [|done]. intros d Hd. apply N.eqb_eq in Hd as <-. done. Qed.

Lemma over_seqs P l : Forall (over P) l → over P (seqs l).
Proof. induction 1; [done|]. by split. Qed.

Lemma over_body n : over (fun c => (c =? 41)%N = false) (seqs (ws_star :: bodyPat n)).
Proof.
  assert (Hws : over (fun c => (c =? 41)%N = false) ws_star) by (cbn; unfold is_ws; intros c Hc; lia).
  assert (Hnum : ∀ i, over (fun c => (c =? 41)%N = false) (Cap i num_re)).
  { intros i. unfold num_re, Plus. cbn [over]. unfold is_numchar, is_digit. split; intros c Hc; lia. }
  apply over_seqs. unfold bodyPat.
  repeat (constructor; [first [exact Hws | apply Hnum | apply over_lit; by repeat constructor]|]).
  unfold optCache. apply Forall_lookup. intros i r Hr. rewrite list_lookup_imap in Hr.
  apply fmap_Some in Hr as (v & Hv & ->). unfold Opt. split; [|done]. apply over_seqs. unfold extra_re.
  repeat (constructor; [first [exact Hws | apply Hnum | apply over_lit; by repeat constructor | idtac]|]);
    [|constructor].
  apply over_lit. assert (Hall : Forall (free 41) cacheVarNames) by by repeat constructor.
  rewrite Forall_lookup in Hall. by apply (Hall i).
Qed.

Lemma snoc_unique (a x w : jsstr) d : free d a → free d w → a ++ d :: x = w ++ [d] → x = [].
Proof.
  revert w. induction a as [|c a IH]; intros [|c' w] Ha Hw H; cbn in H.
  - by injection H.
  - injection H as <- H. apply Forall_cons in Hw as [Hw _]. by rewrite N.eqb_refl in Hw.
  - injection H as <- H. apply Forall_cons in Ha as [Ha _]. by rewrite N.eqb_refl in Ha.
  - injection H as <- H. apply Forall_cons in Ha as [_ Ha]. apply Forall_cons in Hw as [_ Hw]. by apply (IH w).
Qed.

Lemma free_extras vars ws : Forall (free 41) vars → Forall opt_numtext ws → free 41 (extras_text vars ws).
Proof.
  intros Hv. revert ws. induction Hv as [|v vars Hv Hvars IH]; intros ws Hws; [constructor|].
  destruct ws as [|w ws]; [constructor|]. apply Forall_cons in Hws as [Hw Hws]. cbn [extras_text].
  apply Forall_app. split; [|by apply IH]. destruct w as [w|]; [|constructor].
  repeat (apply Forall_app; split); [by repeat constructor|done|by repeat constructor|].
  apply free_spec. by apply numtext_fresh.
Qed.

Lemma free_body t : tier_ok t → free 41 (buildTierBodyExpr t).
Proof.
  intros Ht. pose proof Ht as [_ _ Hi Ho _ [_ Hp]]. rewrite body_of_tier by done. unfold body_text.
  repeat (apply Forall_app; split); [by repeat constructor| |by repeat constructor| |].
  - apply free_spec. by apply numtext_fresh; [apply printable_numtext|].
  - apply free_spec. by apply numtext_fresh; [apply printable_numtext|].
  - apply free_extras; [by repeat constructor|]. unfold cost_texts. apply Forall_fmap.
    eapply Forall_impl; [exact Hp|]. apply cost_text_numtext.
Qed.

(** It matches one tier alone, and nothing longer. *)
Lemma single_more t u : tier_ok t → u ≠ [] → exec singleRe (call_of t ++ u) = None.
Proof.
  intros Ht Hu. pose proof Ht as [[_ Hl] _ _ _ _ _]. unfold singleRe, call_of, tierCall. rewrite exec_bol, <- !app_assoc.
  unfold tier_head. cbn [app].
  rewrite m_seqs_cons, m_lit, m_seqs_cons, m_cap_star_until; cycle 1.
  { apply Forall_forall. intros c Hc. apply negb_true_iff, N.eqb_neq. intros ->. done. }
  { done. }
  { by apply refuses_seqs, refuses_lit. }
  change (jsq "', ") with (jsq "'," ++ js " "). rewrite <- !app_assoc, m_seqs_cons, m_lit.
  rewrite (app_comm_cons (bodyPat 2) _ ws_star), seqs_app.
  destruct (m (seqs (ws_star :: bodyPat 2)) _ _) as [st|] eqn:E; [|done].
  destruct (over_consumes _ _ _ _ _ (over_body 2) E) as (s' & w & Hk & Hs & Hw). cbn [rest] in Hs.
  assert (Hr : rest s' = [41%N]).
  { destruct s' as [b' s' cs']. cbn [rest] in *. rewrite m_seqs_cons in Hk.
    destruct (starts_with (js ")") s') eqn:Es; [|by rewrite m_lit_none in Hk].
    apply starts_with_spec in Es as [x ->]. rewrite m_lit in Hk. by destruct x. }
  rewrite Hr in Hs. apply (snoc_unique (js " " ++ buildTierBodyExpr t) u w 41) in Hs as ->; [done| |done].
  constructor; [done|]. by apply free_body.
Qed.

Lemma single_cond t u : tier_ok t → nonempty (buildConditionStr (vconditions t)) = true →
  exec singleRe (part_of t ++ u) = None.
Proof.
  intros Ht Hne. unfold part_of. rewrite Hne.
  destruct (conds_triples _ (ok_conditions t Ht)) as (ps & H2 & Hok & Heq). rewrite Heq in *.
  destruct ps as [|[[v o] w] ps]; [done|]. rewrite join_more. unfold singleRe. rewrite exec_bol.
  apply Forall_cons in Hok as [(Hv & _) _]. unfold ttext at 1, ctext. cbn [fst snd] in *. rewrite <- !app_assoc.
  by cases_in Hv.
Qed.

Lemma single_exact t : tier_ok t →
  exec singleRe (call_of t) = Some (mkM (Some 41%N) [] (caps_of 1 t [])).
Proof.
  intros Ht. unfold singleRe. rewrite exec_bol, <- (app_nil_r (call_of t)).
  apply (m_tier_ok 1); [done|]. intros b'. by rewrite m_seqs_cons, m_lit.
Qed.

(** ** The round trip *)

Lemma no_version t u : tier_ok t → exec versioned_re (part_of t ++ u) = None.
Proof.
  intros Ht. unfold versioned_re. rewrite exec_bol. unfold part_of.
  destruct (conds_triples _ (ok_conditions t Ht)) as (ps & H2 & Hok & Heq). rewrite Heq.
  destruct ps as [|[[v o] w] ps]; [done|]. rewrite join_more.
  apply Forall_cons in Hok as [(Hv & _) _]. unfold ttext, ctext. cbn [fst snd] in *. rewrite <- !app_assoc.
  by cases_in Hv.
Qed.

Lemma part_nonempty t u : tier_ok t → part_of t ++ u ≠ [].
Proof.
  intros Ht. unfold part_of.
  destruct (nonempty (buildConditionStr _)) eqn:E; [|done]. by destruct (buildConditionStr _).
Qed.

(** What follows the singleton pattern when it fails. *)
Lemma parse_by_tiers s cfg :
  s ≠ [] → exec versioned_re s = None → exec singleRe s = None →
  Forall tier_ok cfg → cfg ≠ [] → generateExprFromVisualConfig (Some cfg) = s →
  map caps (exec_all visualTierRe s) = map (fun t => caps_of 2 t (cond_caps t)) cfg →
  tryParseVisualConfig (Some s) = Some cfg.
Proof.
  intros Hs Hv H1 Hok Hne Hg Hc. unfold tryParseVisualConfig. destruct s as [|c s]; [done|].
  rewrite Hv, H1, (tiers_read _ cfg) by done. destruct cfg as [|t cfg]; [done|].
  cbv zeta. rewrite normalize_config_id by done.
  rewrite bool_decide_eq_true_2; [done|]. f_equal. exact Hg.
Qed.

Lemma length_parts ts : Forall tier_ok ts → (length ts <= sum_list_with length (map part_of ts))%nat.
Proof.
  induction 1 as [|t ts Ht Hts IH]; cbn [map sum_list_with length]; [lia|].
  pose proof (part_nonempty t [] Ht) as Hn. rewrite app_nil_r in Hn. destruct (part_of t); [done|]. cbn [length]. lia.
Qed.

Lemma parts_of_config cfg :
  config_ok cfg → imap (tierPart (length cfg)) cfg = map part_of cfg ∨ length cfg = 1%nat.
Proof.
  intros (Hne & Hok & Hlast). destruct (decide (1 < length cfg)%nat) as [Hlen|Hlen].
  2: { right. destruct cfg; [done|]. cbn in *. lia. }
  left. specialize (Hlast Hlen). apply list_eq. intros i. rewrite list_lookup_imap.
  pose proof (list_lookup_fmap part_of cfg i) as Hm. change (part_of <$> cfg) with (map part_of cfg) in Hm.
  rewrite Hm. destruct (cfg !! i) as [t|] eqn:Ei; [|done]. cbn. f_equal. unfold tierPart, part_of.
  rewrite Forall_lookup in Hok. destruct (Hok i t Ei) as [[Hl _] _ _ _ _ _].
  assert (Hlab : str_or (vlabel t) (js "tier_" ++ print_N (N.of_nat (i + 1))) = vlabel t) by by destruct (vlabel t).
  rewrite Hlab. fold (call_of t).
  destruct (i <? length cfg - 1)%nat eqn:Eb; [done|]. cbn [andb].
  apply Nat.ltb_ge in Eb. pose proof (lookup_lt_Some _ _ _ Ei).
  rewrite (Hlast t); [done|]. rewrite last_lookup. by replace (pred (length cfg)) with i by lia.
Qed.

Lemma no_conditions t : tier_ok t → nonempty (buildConditionStr (vconditions t)) = false → vconditions t = [].
Proof.
  intros Ht Ec. destruct (conds_triples _ (ok_conditions t Ht)) as (ps & H2 & Hps & Heq). rewrite Heq in Ec.
  destruct ps as [|p ps]; [by inversion H2|]. exfalso.
  assert (join (js " && ") (map ttext (p :: ps)) ≠ []) as Hj; [|by apply nonempty_true in Hj; congruence].
  apply join_nonempty; [done|]. apply Forall_fmap. eapply Forall_impl; [exact Hps|].
  intros q Hq. by destruct (ttext_conj q Hq) as [(_ & _ & ? & _) _].
Qed.

(** One tier with conditions, one without, and several tiers. *)
Lemma roundtrip_guarded t :
  tier_ok t → nonempty (buildConditionStr (vconditions t)) = true →
  tryParseVisualConfig (Some (generateExprFromVisualConfig (Some [t]))) = Some [t].
Proof.
  intros Ht Ec. pose proof Ht as [[Hl _] _ _ _ _ _].
  assert (Hlab : str_or (vlabel t) (js "default") = vlabel t) by by destruct (vlabel t).
  assert (Hgen : generateExprFromVisualConfig (Some [t]) = part_of t ++ js " : p * 0 + c * 0").
  { unfold generateExprFromVisualConfig, part_of, call_of. rewrite Hlab, Ec. by rewrite <- !app_assoc. }
  rewrite Hgen. apply parse_by_tiers; [by apply part_nonempty|by apply no_version|by apply single_cond
    |constructor; [done|constructor]|done|done|].
  unfold exec_all. cbn [exec_all_from]. rewrite (exec_at _ _ _ _ (m_part t None _ Ht)). cbn [rest prev].
  rewrite length_app. change (length (js " : p * 0 + c * 0")) with 16%nat.
  rewrite Nat.add_comm. reflexivity.
Qed.

Lemma roundtrip_plain t :
  tier_ok t → nonempty (buildConditionStr (vconditions t)) = false →
  tryParseVisualConfig (Some (generateExprFromVisualConfig (Some [t]))) = Some [t].
Proof.
  intros Ht Ec. pose proof Ht as [[Hl _] _ _ _ _ _].
  assert (Hlab : str_or (vlabel t) (js "default") = vlabel t) by by destruct (vlabel t).
  assert (Hgen : generateExprFromVisualConfig (Some [t]) = call_of t).
  { unfold generateExprFromVisualConfig, call_of. by rewrite Hlab, Ec. }
  assert (Hpart : part_of t = call_of t) by (unfold part_of; by rewrite Ec).
  rewrite Hgen. pose proof (no_version t [] Ht) as Hv. pose proof (part_nonempty t [] Ht) as Hn.
  rewrite app_nil_r, Hpart in Hv, Hn. unfold tryParseVisualConfig.
  destruct (call_of t) as [|c s] eqn:Es; [done|]. rewrite Hv, <- Es, single_exact by done.
  erewrite (tier_of_match 1); [|done|done|done|done|by rewrite no_conditions|done|done].
  rewrite normalize_config_id; [done|done|]. constructor; [done|constructor].
Qed.

Lemma roundtrip_many t t' cfg :
  config_ok (t :: t' :: cfg) →
  tryParseVisualConfig (Some (generateExprFromVisualConfig (Some (t :: t' :: cfg)))) = Some (t :: t' :: cfg).
Proof.
  intros Hcfg. pose proof Hcfg as (Hne & Hok & _). destruct (parts_of_config _ Hcfg) as [Hp|]; [|done].
  assert (Hgen : generateExprFromVisualConfig (Some (t :: t' :: cfg)) = join (js " : ") (map part_of (t :: t' :: cfg))).
  { by rewrite <- Hp. }
  rewrite Hgen. set (u := js " : " ++ join (js " : ") (map part_of (t' :: cfg))).
  assert (Hj : join (js " : ") (map part_of (t :: t' :: cfg)) = part_of t ++ u) by done.
  pose proof Hok as Hok'. apply Forall_cons in Hok' as [Ht _].
  apply parse_by_tiers; try done.
  - rewrite Hj. by apply part_nonempty.
  - rewrite Hj. by apply no_version.
  - rewrite Hj. destruct (nonempty (buildConditionStr (vconditions t))) eqn:Ec; [by apply single_cond|].
    assert (Hpart : part_of t = call_of t) by (unfold part_of; by rewrite Ec). rewrite Hpart.
    by apply single_more.
  - unfold exec_all. apply exec_all_parts; [done|done|].
    pose proof (length_join (js " : ") (map part_of (t :: t' :: cfg))) as Hlen.
    pose proof (length_parts _ Hok). lia.
Qed.

Lemma config_reads_back cfg :
  config_ok cfg → tryParseVisualConfig (Some (generateExprFromVisualConfig (Some cfg))) = Some cfg.
Proof.
  intros Hcfg. destruct cfg as [|t [|t' cfg]]; [by destruct Hcfg| |by apply roundtrip_many].
  destruct Hcfg as (_ & Hok & _). apply Forall_cons in Hok as [Ht _].
  destruct (nonempty (buildConditionStr (vconditions t))) eqn:Ec;
    [by apply roundtrip_guarded|by apply roundtrip_plain].
Qed.

(** C3: The tier editor's round trip. Reading the expression printed from a
    configuration gives the configuration back: the labels, the conditions in
    their order, every unit cost and the cache mode, for any positive number of
    tiers, provided that the last of several tiers has no condition, that each label
    is non-empty and has no double quote, that each condition compares p, c or len by
    <, <=, > or >= with a number whose text has no minus sign, that all costs and
    compared numbers are finite and the numbers that their texts read as (a
    negative zero is not), and that the cache mode is the one derived from the
    costs. *)
Theorem visual_roundtrip cfg :
  config_ok cfg → tryParseVisualConfig (Some (generateExprFromVisualConfig (Some cfg))) = Some cfg.
Proof. apply config_reads_back. Qed.

Definition demo_tier (conds : list TierConditionInput) : VisualTier :=
  normalizeVisualTier (mkPTier (Some (js "standard")) (Some conds) (Some (Number (js "2.5")))
    (Some (Number (js "15"))) None [(js "cache_create_1h_unit_cost", Number (js "0.3"))]).

Definition demo_conds : list TierConditionInput :=
  [mkCond (js "len") (js "<=") (Some (VNum (Number (js "200000"))))].

Lemma demo_tier_ok conds : Forall cond_ok conds → tier_ok (demo_tier conds).
Proof.
  intros H. split; [|done|by split; vm_compute|by split; vm_compute|by vm_compute|].
  - split; [done|]. apply free_spec. vm_compute. by repeat constructor.
  - split; [by vm_compute|]. repeat (constructor; [by split; vm_compute|]). constructor.
Qed.

Lemma visual_roundtrip_witness :
  tryParseVisualConfig (Some (generateExprFromVisualConfig (Some [demo_tier demo_conds; demo_tier []])))
  = Some [demo_tier demo_conds; demo_tier []].
Proof.
  apply visual_roundtrip. split; [done|]. split.
  - constructor; [|constructor; [apply demo_tier_ok; constructor|constructor]].
    apply demo_tier_ok. constructor; [|constructor]. split; [right; right; left|right; left|].
    exists (Number (js "200000")). split; [done|]. split; [by split; vm_compute|].
    apply free_spec. vm_compute. by repeat constructor.
  - intros _ t [= <-]. done.
Defined.
End TierRoundtrip.
