(* ===== verification/Playground.v ===== *)
(** * Playground messages (src/web/default/src/features/playground)

    The chat playground's messages: their construction, the separation of
    thinking from visible text, the update of the message being streamed, its
    finalization, the repair of messages that were interrupted, and the request
    built from a conversation (types.ts, constants.ts, lib/message-utils.ts,
    lib/payload-builder.ts). Values have their declared types; [nanoid] is an
    argument, the identifier it returns. *)

From S2P Require Import Prelude JsNum.
From Stdlib Require Import Floats.SpecFloat.

Module Playground.

(** ** Data *)

Inductive MessageRole := user | assistant | system.
Inductive MessageStatus := loading | streaming | complete | error.

Record MessageVersion := mkVersion { id : jsstr; content : jsstr }.
Record Reasoning := mkReasoning { r_content : jsstr; r_duration : num }.
Record Source := mkSource { href : jsstr; title : jsstr }.

Record Message := mkMessage {
  key : jsstr;
  from : MessageRole;
  versions : list MessageVersion;
  sources : option (list Source);
  reasoning : option Reasoning;
  isReasoningStreaming : option bool;
  isReasoningComplete : option bool;
  isContentComplete : option bool;
  status : option MessageStatus;
  errorCode : option (option jsstr)
}.

#[export] Instance role_eq_dec : EqDecision MessageRole.
Proof. solve_decision. Defined.
#[export] Instance status_eq_dec : EqDecision MessageStatus.
Proof. solve_decision. Defined.
#[export] Instance version_eq_dec : EqDecision MessageVersion.
Proof. solve_decision. Defined.
#[export] Instance reasoning_eq_dec : EqDecision Reasoning.
Proof. solve_decision. Defined.
#[export] Instance source_eq_dec : EqDecision Source.
Proof. solve_decision. Defined.
#[export] Instance message_eq_dec : EqDecision Message.
Proof. solve_decision. Defined.

Definition API_REQUEST_ERROR := js "Request error occurred".
Definition PARSE_ERROR := js "Error parsing response data".
Definition STREAM_START_ERROR := js "Error establishing connection".
Definition CONNECTION_CLOSED := js "Connection closed".
Definition INTERRUPTED := js "Generation was interrupted".

(** Object spreads: a message with one property replaced. *)
Definition with_versions (m : Message) (vs : list MessageVersion) : Message :=
  mkMessage (key m) (from m) vs (sources m) (reasoning m) (isReasoningStreaming m)
    (isReasoningComplete m) (isContentComplete m) (status m) (errorCode m).
Definition with_reasoning (m : Message) (r : option Reasoning) : Message :=
  mkMessage (key m) (from m) (versions m) (sources m) r (isReasoningStreaming m)
    (isReasoningComplete m) (isContentComplete m) (status m) (errorCode m).
Definition with_streaming (m : Message) (b : bool) : Message :=
  mkMessage (key m) (from m) (versions m) (sources m) (reasoning m) (Some b)
    (isReasoningComplete m) (isContentComplete m) (status m) (errorCode m).
Definition with_status (m : Message) (s : MessageStatus) : Message :=
  mkMessage (key m) (from m) (versions m) (sources m) (reasoning m) (isReasoningStreaming m)
    (isReasoningComplete m) (isContentComplete m) (Some s) (errorCode m).
Definition with_errorCode (m : Message) (c : option jsstr) : Message :=
  mkMessage (key m) (from m) (versions m) (sources m) (reasoning m) (isReasoningStreaming m)
    (isReasoningComplete m) (isContentComplete m) (status m) (Some c).

(** ** Construction *)

Definition createMessageVersion (nanoid content : jsstr) : MessageVersion := mkVersion nanoid content.

Definition default_version : MessageVersion := mkVersion (js "default") [].

Definition getCurrentVersion (m : Message) : MessageVersion :=
  match versions m with v :: _ => v | [] => default_version end.

Definition updateCurrentVersionContent (m : Message) (content : jsstr) : Message :=
  with_versions m [mkVersion (id (getCurrentVersion m)) content].

Definition createUserMessage (nanoid nanoid' content : jsstr) : Message :=
  mkMessage nanoid user [createMessageVersion nanoid' content] None None None None None None None.

Definition createLoadingAssistantMessage (nanoid nanoid' : jsstr) : Message :=
  mkMessage nanoid assistant [createMessageVersion nanoid' []] None None (Some false) (Some false)
    (Some false) (Some loading) None.

(** ** Contents of a request *)

Inductive ContentPart :=
| TextPart (text : option jsstr)
| ImagePart (url : jsstr).

Inductive Content :=
| Text (s : jsstr)
| Parts (l : list ContentPart).

Definition buildMessageContent (text : jsstr) (imageUrls : list jsstr) : Content :=
  let validImages := List.filter (fun url => nonempty (trim url)) imageUrls in
  if (length validImages =? 0)%nat then Text text
  else Parts (TextPart (Some text) :: map (fun url => ImagePart (trim url)) validImages).

Definition is_text (p : ContentPart) : bool := match p with TextPart _ => true | _ => false end.

Definition getTextContent (c : Content) : jsstr :=
  match c with
  | Text s => s
  | Parts l =>
      match List.find is_text l with
      | Some (TextPart t) => default [] t
      | _ => []
      end
  end.

Record ChatCompletionMessage := mkChat { role : MessageRole; chat_content : Content }.

Definition formatMessageForAPI (m : Message) : ChatCompletionMessage :=
  mkChat (from m) (Text (content (getCurrentVersion m))).

Definition isValidMessage (m : Message) : bool :=
  match versions m with
  | [] => false
  | v :: _ => negb (bool_decide (from m = assistant) && negb (nonempty (trim (content v))))
  end.

(** ** Thinking and visible text *)

(** The text before and after the first occurrence of [pat]:
    [s.indexOf(pat)] with the two substrings around it. *)
Fixpoint cut (pat s : jsstr) : option (jsstr * jsstr) :=
  if starts_with pat s then Some ([], drop (length pat) s)
  else match s with
       | [] => None
       | c :: s' => (fun p => (c :: p.1, p.2)) <$> cut pat s'
       end.

Definition open_tag := js "<think>".
Definition close_tag := js "</think>".

Record think_result := mkThink { visibleContent : jsstr; think_reasoning : jsstr; hasUnclosedTag : bool }.

(** The loop from a position: the visible parts, the reasoning parts and whether
    a tag is left open. Every turn consumes a tag, so that the length of the text
    is fuel enough. *)
Fixpoint thinkLoop (fuel : nat) (s : jsstr) : list jsstr * list jsstr * bool :=
  match cut open_tag s with
  | None => (if nonempty s then [s] else [], [], false)
  | Some (before, inside) =>
      let vis := if nonempty before then [before] else [] in
      match cut close_tag inside with
      | None => (vis, [inside], true)
      | Some (r, after) =>
          match fuel with
          | O => (vis, [r], false)
          | S fuel' =>
              let '(vs, rs, u) := thinkLoop fuel' after in (vis ++ vs, r :: rs, u)
          end
      end
  end.

Definition parseThinkTags (content : jsstr) : think_result :=
  if negb (includes open_tag content) then mkThink content [] false
  else
    let '(visibleParts, reasoningParts, hasUnclosed) := thinkLoop (length content) content in
    mkThink (trim (concat visibleParts)) (trim (join [10%N; 10%N] reasoningParts)) hasUnclosed.

(** ** Updating the last assistant message *)

Definition updateLastAssistantMessage (messages : list Message) (updater : Message → Message) : list Message :=
  match last messages with
  | Some l => if bool_decide (from l = assistant) then removelast messages ++ [updater l] else messages
  | None => messages
  end.

Definition updateAssistantMessageWithError (messages : list Message) (errorMessage : jsstr)
    (errorCode : option jsstr) : list Message :=
  updateLastAssistantMessage messages (fun m =>
    with_errorCode
      (with_streaming
        (with_status (updateCurrentVersionContent m (API_REQUEST_ERROR ++ js ": " ++ errorMessage)) error) false)
      (match errorCode with Some (_ :: _) => errorCode | _ => None end)).

Definition processStreamingContent (m : Message) (contentChunk : jsstr) : Message :=
  let fullContent := content (getCurrentVersion m) ++ contentChunk in
  let t := parseThinkTags fullContent in
  let finalReasoning := if nonempty (think_reasoning t)
                        then Some (mkReasoning (think_reasoning t) (S754_zero false)) else reasoning m in
  with_streaming (with_reasoning (updateCurrentVersionContent m fullContent) finalReasoning) (hasUnclosedTag t).

(** [a || b] on optional strings. *)
Definition or_str (a : option jsstr) (b : jsstr) : jsstr := str_or (default [] a) b.

Definition num_or_zero (x : num) : num := if num_truthy x then x else S754_zero false.

Definition finalizeMessage (m : Message) (apiReasoningContent : option jsstr) : Message :=
  let t := parseThinkTags (content (getCurrentVersion m)) in
  let finalReasoning :=
    or_str apiReasoningContent (or_str (r_content <$> reasoning m) (think_reasoning t)) in
  with_streaming
    (with_reasoning (updateCurrentVersionContent m (visibleContent t))
      (if nonempty finalReasoning
       then Some (mkReasoning finalReasoning
                    match reasoning m with Some r => num_or_zero (r_duration r) | None => S754_zero false end)
       else None)) false.

(** ** Repairing loaded messages *)

Definition stuck (m : Message) : bool :=
  bool_decide (from m = assistant)
  && (bool_decide (status m = Some loading) || bool_decide (status m = Some streaming)).

(** The stable form of an interrupted message. *)
Definition sanitizeMessage (m : Message) : Message :=
  let finalized := finalizeMessage m None in
  let hasContent := match versions finalized with v :: _ => nonempty (trim (content v)) | [] => false end in
  let hasReasoning := match reasoning finalized with Some r => nonempty (trim (r_content r)) | None => false end in
  if hasContent || hasReasoning then with_streaming (with_status finalized complete) false
  else with_streaming
         (with_status (updateCurrentVersionContent finalized (API_REQUEST_ERROR ++ js ": " ++ INTERRUPTED)) error)
         false.

(** The loop from the end of the list for the last stuck message. *)
Fixpoint findStuck (messages : list Message) (i : nat) : option nat :=
  match i with
  | O => None
  | S i' =>
      match messages !! i' with
      | Some m => if stuck m then Some i' else findStuck messages i'
      | None => findStuck messages i'
      end
  end.

Definition sanitizeMessagesOnLoad (messages : list Message) : list Message :=
  match findStuck messages (length messages) with
  | None => messages
  | Some targetIndex =>
      match messages !! targetIndex with
      | Some m => <[targetIndex := sanitizeMessage m]> messages
      | None => messages
      end
  end.

(** ** The request *)

Record PlaygroundConfig := mkConfig {
  model : jsstr; group : jsstr;
  temperature : num; top_p : num; max_tokens : num; frequency_penalty : num; presence_penalty : num;
  seed : option num; stream : bool
}.

Record ParameterEnabled := mkEnabled {
  e_temperature : bool; e_top_p : bool; e_max_tokens : bool; e_frequency_penalty : bool;
  e_presence_penalty : bool; e_seed : bool
}.

Definition parameterKeys : list jsstr :=
  [js "temperature"; js "top_p"; js "max_tokens"; js "frequency_penalty"; js "presence_penalty"; js "seed"].

Definition enabledOf (e : ParameterEnabled) (k : jsstr) : bool :=
  default false (map_get k
    [(js "temperature", e_temperature e); (js "top_p", e_top_p e); (js "max_tokens", e_max_tokens e);
     (js "frequency_penalty", e_frequency_penalty e); (js "presence_penalty", e_presence_penalty e);
     (js "seed", e_seed e)]).

(** [config[key]]: a null seed is [None]. *)
Definition configOf (c : PlaygroundConfig) (k : jsstr) : option num :=
  mjoin (map_get k
    [(js "temperature", Some (temperature c)); (js "top_p", Some (top_p c)); (js "max_tokens", Some (max_tokens c));
     (js "frequency_penalty", Some (frequency_penalty c)); (js "presence_penalty", Some (presence_penalty c));
     (js "seed", seed c)]).

Record ChatCompletionRequest := mkRequest {
  req_model : jsstr; req_group : jsstr; req_messages : list ChatCompletionMessage; req_stream : bool;
  req_params : list (jsstr * num)
}.

Definition addParameter (c : PlaygroundConfig) (e : ParameterEnabled) (params : list (jsstr * num)) (k : jsstr) :
    list (jsstr * num) :=
  if enabledOf e k then
    match configOf c k with Some v => map_set k v params | None => params end
  else params.

Definition buildChatCompletionPayload (messages : list Message) (c : PlaygroundConfig) (e : ParameterEnabled) :
    ChatCompletionRequest :=
  mkRequest (model c) (group c) (map formatMessageForAPI (List.filter isValidMessage messages)) (stream c)
    (foldl (addParameter c e) [] parameterKeys).

Definition DEFAULT_GROUP : jsstr := js "default".

Definition DEFAULT_CONFIG : PlaygroundConfig :=
  mkConfig (js "gpt-4o") DEFAULT_GROUP (num_of_dec false 7 (-1)) (num_of_Z 1) (num_of_Z 4096)
    (num_of_Z 0) (num_of_Z 0) None true.

Definition DEFAULT_PARAMETER_ENABLED : ParameterEnabled := mkEnabled true true false true true false.
End Playground.
