(* ===== verification/PlaygroundMessages.v ===== *)
(** * Playground messages: lemmas and properties

    The separation of thinking from visible text is exact on every text, the
    accumulation of streamed content does not depend on how the text is cut into
    chunks as long as the text contains thinking, and it does when a thinking
    block is empty. Interrupted messages are repaired. *)

From S2P Require Import Prelude JsNum Playground.
From Stdlib Require Import Floats.SpecFloat.
Import Playground.

Module PlaygroundMessages.

(** ** Occurrences *)

Lemma starts_with_true p t : starts_with p (p ++ t) = true.
Proof. apply starts_with_spec. eauto. Qed.

Lemma cut_Some pat s a b : cut pat s = Some (a, b) → s = a ++ pat ++ b ∧ includes pat a = false ∨ pat = [].
Proof.
  destruct (decide (pat = [])) as [|Hne]; [by right|]. intros H. left. revert a b H.
  induction s as [|c s IH]; intros a b; cbn [cut].
  - destruct (starts_with pat []) eqn:E; [|done]. apply starts_with_spec in E as [t Ht].
    destruct pat; [done|discriminate].
  - destruct (starts_with pat (c :: s)) eqn:E.
    + intros [= <- <-]. apply starts_with_spec in E as [t ->]. rewrite drop_app_length. split; [done|].
      by destruct pat.
    + destruct (cut pat s) as [[a' b']|]; [|done]. intros [= <- <-].
      destruct (IH a' b' eq_refl) as [-> Hi]. split; [done|]. cbn [fst includes].
      apply orb_false_iff. split; [|done]. apply not_true_is_false. intros Ht.
      apply starts_with_spec in Ht as [u Hu]. apply not_true_iff_false in E. apply E.
      apply starts_with_spec. exists (u ++ pat ++ b'). by rewrite (app_assoc pat u), <- Hu.
Qed.

Lemma cut_None pat s : cut pat s = None ↔ includes pat s = false.
Proof.
  induction s as [|c s IH]; cbn [cut includes].
  - by destruct (starts_with pat []).
  - destruct (starts_with pat (c :: s)); [done|]. cbn [orb]. rewrite <- IH. by destruct (cut pat s).
Qed.

(** A pattern whose first character occurs nowhere else in it cannot overlap
    itself: it is found right after a text that does not contain it. *)
Lemma cut_after c p v t :
  c ∉ p → includes (c :: p) v = false → cut (c :: p) (v ++ (c :: p) ++ t) = Some (v, t).
Proof.
  intros Hc. induction v as [|x v IH]; intros Hv.
  - pose proof (starts_with_true (c :: p) t) as H. cbn [app] in *. cbn [cut]. rewrite H.
    change (drop (length (c :: p)) (c :: p ++ t)) with (drop (length p) (p ++ t)). by rewrite drop_app_length.
  - cbn [includes] in Hv. apply orb_false_iff in Hv as [Hs Hv].
    change ((x :: v) ++ (c :: p) ++ t) with (x :: (v ++ (c :: p) ++ t)). cbn [cut].
    assert (Hn : starts_with (c :: p) (x :: (v ++ (c :: p) ++ t)) = false).
    { apply not_true_is_false. intros H. apply starts_with_spec in H as [u Hu].
      injection Hu as -> Hu. apply not_true_iff_false in Hs. apply app_eq_inv in Hu as [(k & -> & _)|(k & H1 & H2)].
      - apply Hs. apply (starts_with_true (c :: p)).
      - destruct k as [|y k].
        + rewrite app_nil_r in H1. subst v. apply Hs. pose proof (starts_with_true (c :: p) []) as HH.
          by rewrite app_nil_r in HH.
        + cbn in H2. injection H2 as <- _. apply Hc. rewrite H1. set_solver. }
    rewrite Hn. by rewrite IH.
Qed.

Lemma not_elem_of_list_check (c : N) p : forallb (fun d => negb (d =? c)%N) p = true → c ∉ p.
Proof.
  intros H Hin. rewrite forallb_forall in H. specialize (H c). rewrite N.eqb_refl in H.
  discriminate H. by apply list_elem_of_In.
Qed.

Lemma cut_open v t : includes open_tag v = false → cut open_tag (v ++ open_tag ++ t) = Some (v, t).
Proof.
  change open_tag with (60%N :: js "think>"). intros H. apply cut_after; [|done].
  apply not_elem_of_list_check. done.
Qed.

Lemma cut_close v t : includes close_tag v = false → cut close_tag (v ++ close_tag ++ t) = Some (v, t).
Proof.
  change close_tag with (60%N :: js "/think>"). intros H. apply cut_after; [|done].
  apply not_elem_of_list_check. done.
Qed.

(** ** The structure of a text *)

(** Visible text followed by a closed block of thinking. *)
Record segment := mkSeg { seg_visible : jsstr; seg_thought : jsstr }.

(** What follows the last closed block: visible text, and an open block if any. *)
Record ending := mkEnd { end_visible : jsstr; end_open : option jsstr }.

Definition segment_ok (s : segment) : Prop :=
  includes open_tag (seg_visible s) = false ∧ includes close_tag (seg_thought s) = false.
Definition ending_ok (e : ending) : Prop :=
  includes open_tag (end_visible e) = false
  ∧ match end_open e with Some r => includes close_tag r = false | None => True end.

Definition render_end (e : ending) : jsstr :=
  end_visible e ++ match end_open e with Some r => open_tag ++ r | None => [] end.
Fixpoint render (segs : list segment) (e : ending) : jsstr :=
  match segs with
  | [] => render_end e
  | s :: segs' => seg_visible s ++ open_tag ++ seg_thought s ++ close_tag ++ render segs' e
  end.

Definition visible (segs : list segment) (e : ending) : jsstr :=
  concat (map seg_visible segs) ++ end_visible e.
Definition thoughts (segs : list segment) (e : ending) : list jsstr :=
  map seg_thought segs ++ match end_open e with Some r => [r] | None => [] end.
Definition is_open (e : ending) : bool := match end_open e with Some _ => true | None => false end.
Definition tagged (segs : list segment) (e : ending) : bool := nonempty segs || is_open e.

(** What the separation should return. *)
Definition separated (segs : list segment) (e : ending) : think_result :=
  if tagged segs e
  then mkThink (trim (visible segs e)) (trim (join [10%N; 10%N] (thoughts segs e))) (is_open e)
  else mkThink (end_visible e) [] false.

Lemma concat_nonempty_head (v : jsstr) (l : list jsstr) : concat ((if nonempty v then [v] else []) ++ l) = v ++ concat l.
Proof. by destruct v. Qed.

Lemma thinkLoop_end fuel e : ending_ok e →
  thinkLoop fuel (render_end e)
  = (if nonempty (end_visible e) then [end_visible e] else [],
     match end_open e with Some r => [r] | None => [] end, is_open e).
Proof.
  intros [Hv Ho]. unfold render_end, is_open. destruct (end_open e) as [r|].
  - destruct fuel; cbn [thinkLoop]; rewrite cut_open by done; by rewrite (proj2 (cut_None close_tag r)).
  - rewrite app_nil_r. destruct fuel; cbn [thinkLoop]; by rewrite (proj2 (cut_None open_tag (end_visible e))).
Qed.

Lemma thinkLoop_render segs e fuel :
  Forall segment_ok segs → ending_ok e → (length segs <= fuel)%nat →
  ∃ vs, thinkLoop fuel (render segs e) = (vs, thoughts segs e, is_open e) ∧ concat vs = visible segs e.
Proof.
  intros Hs He. revert fuel. induction Hs as [|s segs [Hv Hr] Hs IH]; intros fuel Hf.
  - eexists. split; [by apply thinkLoop_end|]. unfold visible. cbn. destruct (end_visible e); [done|].
    cbn. by rewrite app_nil_r.
  - destruct fuel as [|fuel]; [cbn in Hf; lia|]. cbn [render thinkLoop].
    rewrite cut_open, cut_close by done.
    destruct (IH fuel) as (vs & -> & Hc); [cbn in Hf; lia|].
    eexists. split; [done|]. rewrite concat_nonempty_head, Hc. unfold visible. cbn. by rewrite app_assoc.
Qed.

Lemma length_render segs e : (length segs <= length (render segs e))%nat.
Proof. induction segs as [|s segs IH]; cbn [render length]; [lia|]. rewrite !length_app.
  change (length open_tag) with 7%nat. lia.
Qed.

Lemma includes_render segs e : ending_ok e → includes open_tag (render segs e) = tagged segs e.
Proof.
  intros [Hv _]. unfold tagged. destruct segs as [|s segs]; cbn [nonempty orb].
  - unfold render, render_end, is_open. destruct (end_open e) as [r|].
    + apply includes_spec. by exists (end_visible e), r.
    + by rewrite app_nil_r.
  - apply includes_spec. cbn [render]. eauto.
Qed.

Lemma parse_render segs e :
  Forall segment_ok segs → ending_ok e → parseThinkTags (render segs e) = separated segs e.
Proof.
  intros Hs He. unfold parseThinkTags, separated. rewrite includes_render by done.
  destruct (tagged segs e) eqn:Et; cbn [negb].
  - destruct (thinkLoop_render segs e (length (render segs e)) Hs He (length_render segs e)) as (vs & -> & ->). done.
  - unfold tagged in Et. apply orb_false_iff in Et as [E1 E2]. destruct segs; [|done].
    unfold render, render_end, is_open in *. destruct (end_open e); [done|]. by rewrite app_nil_r.
Qed.

Lemma has_structure n s :
  (length s <= n)%nat → ∃ segs e, Forall segment_ok segs ∧ ending_ok e ∧ s = render segs e.
Proof.
  revert s. induction n as [n IH] using lt_wf_ind. intros s Hn.
  destruct (cut open_tag s) as [[v t]|] eqn:E1.
  - apply cut_Some in E1 as [[-> Hv]|]; [|done]. destruct (cut close_tag t) as [[r t']|] eqn:E2.
    + apply cut_Some in E2 as [[-> Hr]|]; [|done].
      destruct (IH (length t')) with (s := t') as (segs & e & Hs & He & ->).
      { rewrite !length_app in Hn. change (length open_tag) with 7%nat in Hn. lia. }
      { lia. }
      exists (mkSeg v r :: segs), e. split; [by constructor|]. by split.
    + exists [], (mkEnd v (Some t)). split; [constructor|]. split; [|done]. split; [done|]. by apply cut_None.
  - exists [], (mkEnd s None). split; [constructor|]. unfold render, render_end. cbn. rewrite app_nil_r.
    split; [|done]. split; [|done]. by apply cut_None.
Qed.

(** The separation of thinking from visible text is exact. Every text is a
    sequence of visible texts and closed blocks, ended by visible text or by an
    open block, and on every such sequence the parser returns the concatenation
    of the visible texts, the thoughts, and whether the last block is open; a
    text without a tag is returned unchanged. *)
Theorem think_separation_exact :
  (∀ s, ∃ segs e, Forall segment_ok segs ∧ ending_ok e ∧ s = render segs e
                  ∧ parseThinkTags s = separated segs e)
  ∧ ∀ segs e, Forall segment_ok segs → ending_ok e → parseThinkTags (render segs e) = separated segs e.
Proof.
  split; [|apply parse_render]. intros s.
  destruct (has_structure (length s) s) as (segs & e & Hs & He & ->); [lia|].
  exists segs, e. split; [done|]. split; [done|]. split; [done|]. by apply parse_render.
Qed.

(** ** Streaming *)

(** The updates of a content stream. *)
Definition stream_content (m : Message) (chunks : list jsstr) : Message := foldl processStreamingContent m chunks.

Definition raw (m : Message) : jsstr := content (getCurrentVersion m).

Lemma process_raw m c : raw (processStreamingContent m c) = raw m ++ c.
Proof. done. Qed.

Lemma stream_raw m chunks : raw (stream_content m chunks) = raw m ++ concat chunks.
Proof.
  revert m. induction chunks as [|c chunks IH]; intros m; cbn; [by rewrite app_nil_r|].
  unfold stream_content in IH. rewrite IH, process_raw. by rewrite app_assoc.
Qed.

Lemma stream_snoc m chunks c : stream_content m (chunks ++ [c]) = processStreamingContent (stream_content m chunks) c.
Proof. apply foldl_snoc. Qed.

(** The whole text processed at once, when it has thinking. *)
Lemma stream_whole m chunks :
  chunks ≠ [] → think_reasoning (parseThinkTags (raw m ++ concat chunks)) ≠ [] →
  stream_content m chunks = processStreamingContent m (concat chunks).
Proof.
  intros Hne Hr. apply nonempty_true in Hr.
  destruct chunks as [|c chunks _] using rev_ind; [done|].
  rewrite stream_snoc, concat_app in *. cbn [concat] in *. rewrite app_nil_r in *.
  unfold processStreamingContent. fold (raw (stream_content m chunks)). fold (raw m).
  rewrite stream_raw, <- app_assoc, Hr.
  assert (Hf : ∀ l, key (stream_content m l) = key m ∧ from (stream_content m l) = from m
             ∧ sources (stream_content m l) = sources m
             ∧ isReasoningComplete (stream_content m l) = isReasoningComplete m
             ∧ isContentComplete (stream_content m l) = isContentComplete m
             ∧ status (stream_content m l) = status m ∧ errorCode (stream_content m l) = errorCode m
             ∧ id (getCurrentVersion (stream_content m l)) = id (getCurrentVersion m)).
  { intros l. induction l as [|x l IH] using rev_ind; [done|]. rewrite stream_snoc. exact IH. }
  destruct (Hf chunks) as (H1 & H2 & H3 & H4 & H5 & H6 & H7 & H8).
  unfold updateCurrentVersionContent, with_versions, with_reasoning, with_streaming.
  cbn [key from versions sources reasoning isReasoningStreaming isReasoningComplete isContentComplete status errorCode].
  by rewrite H1, H2, H3, H4, H5, H6, H7, H8.
Qed.

(** Streaming does not depend on how the text is cut. When the whole text
    has thinking, processing it chunk by chunk ends in the same message as
    processing it at once; in any case the raw content is the concatenation of
    the chunks. *)
Theorem streaming_chunk_independent m chunks :
  chunks ≠ [] → think_reasoning (parseThinkTags (raw m ++ concat chunks)) ≠ [] →
  stream_content m chunks = processStreamingContent m (concat chunks)
  ∧ raw (stream_content m chunks) = raw m ++ concat chunks.
Proof. intros Hne Hr. split; [by apply stream_whole|apply stream_raw]. Qed.

Definition demo_message : Message := createLoadingAssistantMessage (js "k") (js "v").

Lemma streaming_chunk_independent_witness :
  stream_content demo_message [js "<thi"; js "nk>a"; js "b</thin"; js "k>c"]
  = processStreamingContent demo_message (js "<think>ab</think>c")
  ∧ raw (stream_content demo_message [js "<thi"; js "nk>a"; js "b</thin"; js "k>c"]) = js "<think>ab</think>c".
Proof. apply (streaming_chunk_independent demo_message [js "<thi"; js "nk>a"; js "b</thin"; js "k>c"]); by vm_compute. Defined.

(** ** Empty thinking *)

(** The text of an empty block and the visible text after it, cut inside the
    closing tag. *)
Definition split_empty_think (v : jsstr) : list jsstr := [open_tag; js "</"; js "think>" ++ v].

Lemma parse_empty_think v : includes open_tag v = false →
  parseThinkTags (open_tag ++ close_tag ++ v) = mkThink (trim v) [] false.
Proof.
  intros Hv. pose proof (parse_render [mkSeg [] []] (mkEnd v None)) as H.
  unfold render, render_end in H. cbn [seg_visible seg_thought end_visible end_open app] in H.
  rewrite app_nil_r in H. rewrite H; [done| |done].
  constructor; [done|constructor].
Qed.

(** An empty block of thinking whose closing tag is split over two chunks
    leaves a piece of the tag as reasoning. The text has no reasoning, and
    processing it at once records none; chunk by chunk the message keeps the
    reasoning recorded while the tag was incomplete, and finalization prefers it. *)
Theorem empty_think_leaves_tag nanoid nanoid' v :
  includes open_tag v = false →
  let m := createLoadingAssistantMessage nanoid nanoid' in
  let text := concat (split_empty_think v) in
  think_reasoning (parseThinkTags text) = []
  ∧ reasoning (finalizeMessage (processStreamingContent m text) None) = None
  ∧ reasoning (finalizeMessage (stream_content m (split_empty_think v)) None)
    = Some (mkReasoning (js "</") (S754_zero false)).
Proof.
  intros Hv m text.
  assert (Ht : text = open_tag ++ close_tag ++ v).
  { unfold text, split_empty_think. cbn [concat]. by rewrite app_nil_r. }
  assert (Hs : reasoning (stream_content m [open_tag; js "</"]) = Some (mkReasoning (js "</") (S754_zero false))).
  { reflexivity. }
  rewrite Ht. pose proof (parse_empty_think v Hv) as Hp. split; [by rewrite Hp|]. split.
  - unfold finalizeMessage, processStreamingContent. cbn -[parseThinkTags]. by rewrite Hp.
  - change (split_empty_think v) with ([open_tag; js "</"] ++ [js "think>" ++ v]). rewrite stream_snoc.
    set (m2 := stream_content m [open_tag; js "</"]) in *.
    assert (Hr : raw m2 ++ js "think>" ++ v = open_tag ++ close_tag ++ v).
    { unfold m2. rewrite stream_raw. done. }
    assert (Hm : reasoning (processStreamingContent m2 (js "think>" ++ v)) = reasoning m2).
    { unfold processStreamingContent. fold (raw m2). rewrite Hr, Hp. done. }
    unfold finalizeMessage. rewrite Hm, Hs. done.
Qed.

Lemma empty_think_leaves_tag_witness :
  reasoning (finalizeMessage (stream_content (createLoadingAssistantMessage (js "k") (js "v"))
    (split_empty_think (js "Hello"))) None) = Some (mkReasoning (js "</") (S754_zero false)).
Proof. apply (empty_think_leaves_tag (js "k") (js "v") (js "Hello")). by vm_compute. Defined.

(** ** Repair of interrupted messages *)

Lemma findStuck_app l m r k :
  stuck m = true → Forall (fun x => stuck x = false) r → (k <= length r)%nat →
  findStuck (l ++ m :: r) (length l + S k) = Some (length l).
Proof.
  intros Hm Hr. induction k as [|k IH]; intros Hk; rewrite Nat.add_succ_r; cbn [findStuck].
  - rewrite Nat.add_0_r. rewrite list_lookup_middle by done. by rewrite Hm.
  - rewrite lookup_app_r by lia. replace (length l + S k - length l)%nat with (S k) by lia. change ((m :: r) !! S k) with (r !! k).
    destruct (lookup_lt_is_Some_2 r k) as [x Hx]; [lia|]. rewrite Hx.
    rewrite (Forall_lookup_1 _ _ _ _ Hr Hx). apply IH. lia.
Qed.

Lemma findStuck_none messages i : Forall (fun x => stuck x = false) messages → findStuck messages i = None.
Proof.
  intros H. induction i as [|i IH]; cbn [findStuck]; [done|]. destruct (messages !! i) as [m|] eqn:E; [|done].
  by rewrite (Forall_lookup_1 _ _ _ _ H E).
Qed.

Lemma last_stuck messages :
  Forall (fun x => stuck x = false) messages
  ∨ ∃ l m r, messages = l ++ m :: r ∧ stuck m = true ∧ Forall (fun x => stuck x = false) r.
Proof.
  induction messages as [|x ms [IH|(l & m & r & -> & Hm & Hr)]]; [by left| |].
  - destruct (stuck x) eqn:E; [right; by exists [], x, ms|]. left. by constructor.
  - right. by exists (x :: l), m, r.
Qed.

Lemma sanitize_app l m r :
  stuck m = true → Forall (fun x => stuck x = false) r →
  sanitizeMessagesOnLoad (l ++ m :: r) = l ++ sanitizeMessage m :: r.
Proof.
  intros Hm Hr. unfold sanitizeMessagesOnLoad. rewrite length_app. cbn [length].
  rewrite findStuck_app by done. rewrite list_lookup_middle by done.
  rewrite insert_app_r_alt by lia. by rewrite Nat.sub_diag.
Qed.

Lemma sanitize_fixed messages :
  Forall (fun x => stuck x = false) messages → sanitizeMessagesOnLoad messages = messages.
Proof. intros H. unfold sanitizeMessagesOnLoad. by rewrite findStuck_none. Qed.

(** A message the reader can see something of. *)
Definition shows_something (m : Message) : bool :=
  nonempty (trim (content (getCurrentVersion m)))
  || match reasoning m with Some r => nonempty (trim (r_content r)) | None => false end.

Lemma sanitizeMessage_spec m :
  stuck (sanitizeMessage m) = false ∧ key (sanitizeMessage m) = key m ∧ from (sanitizeMessage m) = from m
  ∧ isReasoningStreaming (sanitizeMessage m) = Some false ∧ shows_something (sanitizeMessage m) = true.
Proof.
  unfold sanitizeMessage. case_match eqn:E; unfold stuck; cbn [key from status].
  - rewrite (bool_decide_false (Some complete = Some loading)), (bool_decide_false (Some complete = Some streaming)) by done.
    rewrite andb_false_r. repeat (split; [done|]). exact E.
  - rewrite (bool_decide_false (Some error = Some loading)), (bool_decide_false (Some error = Some streaming)) by done.
    rewrite andb_false_r. repeat (split; [done|]). reflexivity.
Qed.

Definition count_stuck (messages : list Message) : nat := length (List.filter stuck messages).

Lemma count_stuck_app l r : count_stuck (l ++ r) = (count_stuck l + count_stuck r)%nat.
Proof. unfold count_stuck. by rewrite List.filter_app, length_app. Qed.

Lemma count_stuck_none l : Forall (fun x => stuck x = false) l → count_stuck l = 0%nat.
Proof. intros H. unfold count_stuck. induction H as [|x l Hx H IH]; [done|]. cbn. by rewrite Hx. Qed.

(** Loading repairs the last interrupted message and only that one. A list
    without interrupted messages is unchanged; otherwise the last interrupted
    message is replaced in place by a message with the same key and role that is
    not interrupted and shows some text, everything else is kept, and the number
    of interrupted messages drops by exactly one. *)
Theorem sanitize_repairs_last :
  (∀ messages, count_stuck messages = 0%nat → sanitizeMessagesOnLoad messages = messages)
  ∧ (∀ messages, count_stuck (sanitizeMessagesOnLoad messages) = pred (count_stuck messages))
  ∧ (∀ messages, count_stuck messages ≠ 0%nat → ∃ l m m' r,
       messages = l ++ m :: r ∧ stuck m = true ∧ count_stuck r = 0%nat
       ∧ sanitizeMessagesOnLoad messages = l ++ m' :: r
       ∧ key m' = key m ∧ from m' = from m ∧ stuck m' = false ∧ shows_something m' = true).
Proof.
  split_and!; intros ms; destruct (last_stuck ms) as [H|(l & m & r & -> & Hm & Hr)].
  - intros _. by apply sanitize_fixed.
  - rewrite count_stuck_app. unfold count_stuck at 2. cbn [List.filter]. rewrite Hm. cbn. lia.
  - rewrite sanitize_fixed by done. by rewrite count_stuck_none.
  - rewrite sanitize_app by done. destruct (sanitizeMessage_spec m) as [Hs _].
    rewrite !count_stuck_app. unfold count_stuck at 2 4. cbn [List.filter]. rewrite Hs, Hm. cbn. lia.
  - by rewrite count_stuck_none.
  - intros _. destruct (sanitizeMessage_spec m) as (Hs & Hk & Hf & _ & Hv).
    exists l, m, (sanitizeMessage m), r. split; [done|]. split; [done|]. split; [by apply count_stuck_none|].
    split; [by apply sanitize_app|]. done.
Qed.
End PlaygroundMessages.
