(* ===== verification/PlaygroundStorage.v ===== *)
(** * Playground storage (src/web/default/src/features/playground)

    What the playground keeps in [localStorage] and the state it builds from it:
    lib/storage.ts and hooks/use-playground-state.ts. The browser's storage is a
    value with its items and what it refuses; its exceptions are [Throw]. A
    message is printed with its properties in any order, since the order in which
    an object got its properties depends on the message's history; [undefined]
    properties are left out, as [JSON.stringify] does. [nanoid] is a supply of
    identifiers, [nat → jsstr], with the number of the next one threaded through. *)

From S2P Require Import Prelude JsNum Json NumText Playground.
From Stdlib Require Import Floats.SpecFloat.
Import Playground.

Module PlaygroundStorage.

(** ** localStorage *)

Record Storage := mkStorage {
  items : list (jsstr * jsstr);
  readable : bool;
  removable : bool;
  accepts : list (jsstr * jsstr) → jsstr → jsstr → bool
}.

Definition map_delete (k : jsstr) (m : list (jsstr * jsstr)) : list (jsstr * jsstr) :=
  List.filter (fun kv => negb (bool_decide (kv.1 = k))) m.

Definition with_items (s : Storage) (m : list (jsstr * jsstr)) : Storage :=
  mkStorage m (readable s) (removable s) (accepts s).

Definition getItem (s : Storage) (k : jsstr) : res (option jsstr) :=
  if readable s then Ok (map_get k (items s)) else Throw (js "SecurityError").
Definition setItem (s : Storage) (k v : jsstr) : res Storage :=
  if accepts s (items s) k v then Ok (with_items s (map_set k v (items s))) else Throw (js "QuotaExceededError").
Definition removeItem (s : Storage) (k : jsstr) : res Storage :=
  if removable s then Ok (with_items s (map_delete k (items s))) else Throw (js "SecurityError").

(** [try { … } catch { … }] around an operation that returns the new storage. *)
Definition try_storage (s : Storage) (r : res Storage) : Storage :=
  match r with Ok s' => s' | Throw _ => s end.

Definition CONFIG := js "playground_config".
Definition MESSAGES := js "playground_messages".
Definition PARAMETER_ENABLED := js "playground_parameter_enabled".

(** ** Values *)

Definition isRecord (value : json) : option (list (jsstr * json)) :=
  match value with JObj m => Some m | _ => None end.

Definition removeStorageValue (s : Storage) (k : jsstr) : Storage := try_storage s (removeItem s k).

Definition role_text (r : MessageRole) : jsstr :=
  match r with user => js "user" | assistant => js "assistant" | system => js "system" end.
Definition status_text (s : MessageStatus) : jsstr :=
  match s with
  | loading => js "loading" | streaming => js "streaming" | complete => js "complete" | error => js "error"
  end.

Definition MESSAGE_ROLES : list MessageRole := [user; assistant; system].
Definition MESSAGE_STATUSES : list MessageStatus := [loading; streaming; complete; error].

Definition isMessageRole (value : option json) : option MessageRole :=
  match value with
  | Some (JStr s) => List.find (fun r => bool_decide (role_text r = s)) MESSAGE_ROLES
  | _ => None
  end.

Definition isMessageStatus (value : option json) : option MessageStatus :=
  match value with
  | Some (JStr s) => List.find (fun r => bool_decide (status_text r = s)) MESSAGE_STATUSES
  | _ => None
  end.

Definition str_value (v : option json) : option jsstr := match v with Some (JStr s) => Some s | _ => None end.
Definition bool_value (v : option json) : option bool := match v with Some (JBool b) => Some b | _ => None end.
Definition finite_value (v : option json) : option num :=
  match v with Some (JNum x) => if num_is_finite x then Some x else None | _ => None end.
(** A string that is not blank. *)
Definition text_value (v : option json) : option jsstr :=
  match v with Some (JStr s) => if nonempty (trim s) then Some s else None | _ => None end.

(** ** Normalization of stored messages *)

Section normalize.
Context (nanoid : nat → jsstr).

(** The stored identifier when it is not blank, otherwise a fresh one. *)
Definition id_or_fresh (v : option json) (n : nat) : jsstr * nat :=
  match text_value v with Some s => (s, n) | None => (nanoid n, S n) end.

Definition normalizeVersion (value : json) (n : nat) : option MessageVersion * nat :=
  match isRecord value with
  | None => (None, n)
  | Some m =>
      match str_value (map_get (js "content") m) with
      | None => (None, n)
      | Some content => let '(id, n') := id_or_fresh (map_get (js "id") m) n in (Some (mkVersion id content), n')
      end
  end.

Fixpoint normalizeVersions (values : list json) (n : nat) : list MessageVersion * nat :=
  match values with
  | [] => ([], n)
  | value :: values' =>
      let '(v, n1) := normalizeVersion value n in
      let '(vs, n2) := normalizeVersions values' n1 in
      (match v with Some v => v :: vs | None => vs end, n2)
  end.

Definition normalizeSource (m : list (jsstr * json)) : Source :=
  mkSource (default [] (str_value (map_get (js "href") m))) (default [] (str_value (map_get (js "title") m))).

Definition normalizeSources (value : option json) : option (list Source) :=
  match value with
  | Some (JArr l) =>
      let sources := List.filter (fun s => nonempty (href s) || nonempty (title s))
                       (map normalizeSource (omap isRecord l)) in
      if nonempty sources then Some sources else None
  | _ => None
  end.

Definition normalizeReasoning (value : option json) : option Reasoning :=
  match value with
  | Some (JObj m) =>
      match str_value (map_get (js "content") m) with
      | None => None
      | Some content =>
          Some (mkReasoning content (default (S754_zero false) (finite_value (map_get (js "duration") m))))
      end
  | _ => None
  end.

Definition error_code (value : option json) : option (option jsstr) :=
  match value with Some (JStr s) => Some (Some s) | Some JNull => Some None | _ => None end.

(** [value.from ?? value.role] *)
Definition role_of (m : list (jsstr * json)) : option json :=
  match map_get (js "from") m with
  | None | Some JNull => map_get (js "role") m
  | v => v
  end.

Definition normalizeMessage (value : json) (n : nat) : option Message * nat :=
  match isRecord value with
  | None => (None, n)
  | Some m =>
      match isMessageRole (role_of m) with
      | None => (None, n)
      | Some role =>
          let '(versions, n1) :=
            match map_get (js "versions") m with Some (JArr l) => normalizeVersions l n | _ => ([], n) end in
          let '(versions, n1) :=
            match versions, str_value (map_get (js "content") m) with
            | [], Some content => ([mkVersion (nanoid n1) content], S n1)
            | _, _ => (versions, n1)
            end in
          if negb (nonempty versions) then (None, n1)
          else
            let '(key, n2) := id_or_fresh (map_get (js "key") m) n1 in
            (Some (mkMessage key role versions
                     (normalizeSources (map_get (js "sources") m))
                     (normalizeReasoning (map_get (js "reasoning") m))
                     (bool_value (map_get (js "isReasoningStreaming") m))
                     (bool_value (map_get (js "isReasoningComplete") m))
                     (bool_value (map_get (js "isContentComplete") m))
                     (isMessageStatus (map_get (js "status") m))
                     (error_code (map_get (js "errorCode") m))), n2)
      end
  end.

Fixpoint normalizeMessages (values : list json) (n : nat) : list Message * nat :=
  match values with
  | [] => ([], n)
  | value :: values' =>
      let '(v, n1) := normalizeMessage value n in
      let '(vs, n2) := normalizeMessages values' n1 in
      (match v with Some v => v :: vs | None => vs end, n2)
  end.
End normalize.

(** ** Printing *)

Definition versionJson (v : MessageVersion) : json :=
  JObj [(js "id", JStr (id v)); (js "content", JStr (content v))].
Definition sourceJson (s : Source) : json := JObj [(js "href", JStr (href s)); (js "title", JStr (title s))].
Definition reasoningJson (r : Reasoning) : json :=
  JObj [(js "content", JStr (r_content r)); (js "duration", JNum (r_duration r))].

Definition messageTable (m : Message) : list (jsstr * option json) :=
  [(js "key", Some (JStr (key m)));
   (js "from", Some (JStr (role_text (from m))));
   (js "versions", Some (JArr (map versionJson (versions m))));
   (js "sources", (fun l => JArr (map sourceJson l)) <$> sources m);
   (js "reasoning", reasoningJson <$> reasoning m);
   (js "isReasoningStreaming", JBool <$> isReasoningStreaming m);
   (js "isReasoningComplete", JBool <$> isReasoningComplete m);
   (js "isContentComplete", JBool <$> isContentComplete m);
   (js "status", (fun s => JStr (status_text s)) <$> status m);
   (js "errorCode", (fun c => match c with Some s => JStr s | None => JNull end) <$> errorCode m)].

(** The order in which the properties of the [i]th message are listed. *)
Notation arrangement := (nat → list (jsstr * json) → list (jsstr * json)).

Definition messagesJson (arr : arrangement) (messages : list Message) : json :=
  JArr (imap (fun i m => JObj (arr i (present (messageTable m)))) messages).

(** ** Configuration *)

Record PartialConfig := mkPartial {
  p_model : option jsstr; p_group : option jsstr;
  p_temperature : option num; p_top_p : option num; p_max_tokens : option num;
  p_frequency_penalty : option num; p_presence_penalty : option num;
  p_seed : option (option num); p_stream : option bool
}.

Record PartialEnabled := mkPartialEnabled {
  pe_temperature : option bool; pe_top_p : option bool; pe_max_tokens : option bool;
  pe_frequency_penalty : option bool; pe_presence_penalty : option bool; pe_seed : option bool
}.

Definition no_config : PartialConfig := mkPartial None None None None None None None None None.
Definition no_enabled : PartialEnabled := mkPartialEnabled None None None None None None.

(** A whole configuration as a partial one. *)
Definition partial_config (c : PlaygroundConfig) : PartialConfig :=
  mkPartial (Some (model c)) (Some (group c)) (Some (temperature c)) (Some (top_p c)) (Some (max_tokens c))
    (Some (frequency_penalty c)) (Some (presence_penalty c)) (Some (seed c)) (Some (stream c)).
Definition partial_enabled (e : ParameterEnabled) : PartialEnabled :=
  mkPartialEnabled (Some (e_temperature e)) (Some (e_top_p e)) (Some (e_max_tokens e))
    (Some (e_frequency_penalty e)) (Some (e_presence_penalty e)) (Some (e_seed e)).

Definition seed_value (v : option json) : option (option num) :=
  match v with
  | Some JNull => Some None
  | _ => Some <$> finite_value v
  end.

Definition configOfRecord (m : list (jsstr * json)) : PartialConfig :=
  mkPartial (text_value (map_get (js "model") m)) (text_value (map_get (js "group") m))
    (finite_value (map_get (js "temperature") m)) (finite_value (map_get (js "top_p") m))
    (finite_value (map_get (js "max_tokens") m)) (finite_value (map_get (js "frequency_penalty") m))
    (finite_value (map_get (js "presence_penalty") m)) (seed_value (map_get (js "seed") m))
    (bool_value (map_get (js "stream") m)).

Definition enabledOfRecord (m : list (jsstr * json)) : PartialEnabled :=
  mkPartialEnabled (bool_value (map_get (js "temperature") m)) (bool_value (map_get (js "top_p") m))
    (bool_value (map_get (js "max_tokens") m)) (bool_value (map_get (js "frequency_penalty") m))
    (bool_value (map_get (js "presence_penalty") m)) (bool_value (map_get (js "seed") m)).

Definition configTable (c : PartialConfig) : list (jsstr * option json) :=
  [(js "model", JStr <$> p_model c); (js "group", JStr <$> p_group c);
   (js "temperature", JNum <$> p_temperature c); (js "top_p", JNum <$> p_top_p c);
   (js "max_tokens", JNum <$> p_max_tokens c); (js "frequency_penalty", JNum <$> p_frequency_penalty c);
   (js "presence_penalty", JNum <$> p_presence_penalty c);
   (js "seed", (fun s => match s with Some x => JNum x | None => JNull end) <$> p_seed c);
   (js "stream", JBool <$> p_stream c)].

Definition enabledTable (e : PartialEnabled) : list (jsstr * option json) :=
  [(js "temperature", JBool <$> pe_temperature e); (js "top_p", JBool <$> pe_top_p e);
   (js "max_tokens", JBool <$> pe_max_tokens e); (js "frequency_penalty", JBool <$> pe_frequency_penalty e);
   (js "presence_penalty", JBool <$> pe_presence_penalty e); (js "seed", JBool <$> pe_seed e)].

(** ** Loading and saving *)

(** The record stored under a key, and the storage afterwards: what is not a
    record, or not JSON at all, is removed. *)
Definition loadRecord (s : Storage) (k : jsstr) : option (list (jsstr * json)) * Storage :=
  match getItem s k with
  | Throw _ => (None, removeStorageValue s k)
  | Ok None => (None, s)
  | Ok (Some saved) =>
      if negb (nonempty saved) then (None, s)
      else match isRecord <$> JSON_parse saved with
           | Some (Some m) => (Some m, s)
           | _ => (None, removeStorageValue s k)
           end
  end.

Definition loadConfig (s : Storage) : PartialConfig * Storage :=
  let '(m, s') := loadRecord s CONFIG in (default no_config (configOfRecord <$> m), s').

Definition saveConfig (c : PartialConfig) (s : Storage) : Storage :=
  try_storage s (setItem s CONFIG (JSON_stringify (JObj (present (configTable c))))).

Definition loadParameterEnabled (s : Storage) : PartialEnabled * Storage :=
  let '(m, s') := loadRecord s PARAMETER_ENABLED in (default no_enabled (enabledOfRecord <$> m), s').

Definition saveParameterEnabled (e : PartialEnabled) (s : Storage) : Storage :=
  try_storage s (setItem s PARAMETER_ENABLED (JSON_stringify (JObj (present (enabledTable e))))).

Definition saveMessages (arr : arrangement) (messages : list Message) (s : Storage) : Storage :=
  try_storage s (setItem s MESSAGES (JSON_stringify (messagesJson arr messages))).

Definition loadMessages (nanoid : nat → jsstr) (arr : arrangement) (s : Storage) (n : nat) :
    option (list Message) * Storage * nat :=
  match getItem s MESSAGES with
  | Throw _ => (None, removeStorageValue s MESSAGES, n)
  | Ok None => (None, s, n)
  | Ok (Some saved) =>
      if negb (nonempty saved) then (None, s, n)
      else match JSON_parse saved with
           | Some (JArr parsed) =>
               let '(normalized, n') := normalizeMessages nanoid parsed n in
               let sanitized := sanitizeMessagesOnLoad normalized in
               let s' := if bool_decide (JSON_stringify (messagesJson arr sanitized) = saved) then s
                         else saveMessages arr sanitized s in
               (Some sanitized, s', n')
           | _ => (None, removeStorageValue s MESSAGES, n)
           end
  end.

Definition clearPlaygroundData (s : Storage) : Storage :=
  match removeItem s CONFIG with
  | Throw _ => s
  | Ok s1 =>
      match removeItem s1 PARAMETER_ENABLED with
      | Throw _ => s1
      | Ok s2 => try_storage s2 (removeItem s2 MESSAGES)
      end
  end.

(** ** State of the page (hooks/use-playground-state.ts) *)

Record ModelOption := mkModelOption { mo_label : jsstr; mo_value : jsstr }.
Record GroupOption := mkGroupOption { go_label : jsstr; go_value : jsstr; go_ratio : num; go_desc : option jsstr }.

Record PlaygroundState := mkState {
  config : PlaygroundConfig;
  parameterEnabled : ParameterEnabled;
  messages : list Message;
  models : list ModelOption;
  groups : list GroupOption
}.

(** [{ ...config, ...saved }] *)
Definition mergeConfig (c : PlaygroundConfig) (p : PartialConfig) : PlaygroundConfig :=
  mkConfig (default (model c) (p_model p)) (default (group c) (p_group p))
    (default (temperature c) (p_temperature p)) (default (top_p c) (p_top_p p))
    (default (max_tokens c) (p_max_tokens p)) (default (frequency_penalty c) (p_frequency_penalty p))
    (default (presence_penalty c) (p_presence_penalty p)) (default (seed c) (p_seed p))
    (default (stream c) (p_stream p)).

Definition mergeEnabled (e : ParameterEnabled) (p : PartialEnabled) : ParameterEnabled :=
  mkEnabled (default (e_temperature e) (pe_temperature p)) (default (e_top_p e) (pe_top_p p))
    (default (e_max_tokens e) (pe_max_tokens p)) (default (e_frequency_penalty e) (pe_frequency_penalty p))
    (default (e_presence_penalty e) (pe_presence_penalty p)) (default (e_seed e) (pe_seed p)).

Definition initialState (nanoid : nat → jsstr) (arr : arrangement) (s : Storage) (n : nat) :
    PlaygroundState * Storage * nat :=
  let '(c, s1) := loadConfig s in
  let '(e, s2) := loadParameterEnabled s1 in
  let '(ms, s3, n') := loadMessages nanoid arr s2 n in
  (mkState (mergeConfig DEFAULT_CONFIG c) (mergeEnabled DEFAULT_PARAMETER_ENABLED e) (default [] ms) [] [], s3, n').

(** The actions of the hook; [updateConfig(key, value)] writes the properties
    that are given. *)
Inductive action :=
| updateConfig (value : PartialConfig)
| updateParameterEnabled (value : PartialEnabled)
| updateMessages (arr : arrangement) (updater : list Message → list Message)
| clearMessages
| resetConfig
| setModels (l : list ModelOption)
| setGroups (l : list GroupOption).

Definition with_messages (st : PlaygroundState) (ms : list Message) : PlaygroundState :=
  mkState (config st) (parameterEnabled st) ms (models st) (groups st).

Definition perform (st : PlaygroundState) (s : Storage) (a : action) : PlaygroundState * Storage :=
  match a with
  | updateConfig value =>
      let updated := mergeConfig (config st) value in
      (mkState updated (parameterEnabled st) (messages st) (models st) (groups st),
       saveConfig (partial_config updated) s)
  | updateParameterEnabled value =>
      let updated := mergeEnabled (parameterEnabled st) value in
      (mkState (config st) updated (messages st) (models st) (groups st),
       saveParameterEnabled (partial_enabled updated) s)
  | updateMessages arr updater =>
      let newMessages := updater (messages st) in
      (with_messages st newMessages, saveMessages arr newMessages s)
  | clearMessages => (with_messages st [], saveMessages (fun _ l => l) [] s)
  | resetConfig =>
      (mkState DEFAULT_CONFIG DEFAULT_PARAMETER_ENABLED (messages st) (models st) (groups st),
       saveParameterEnabled (partial_enabled DEFAULT_PARAMETER_ENABLED)
         (saveConfig (partial_config DEFAULT_CONFIG) s))
  | setModels l => (mkState (config st) (parameterEnabled st) (messages st) l (groups st), s)
  | setGroups l => (mkState (config st) (parameterEnabled st) (messages st) (models st) l, s)
  end.

Definition performAll (st : PlaygroundState) (s : Storage) (l : list action) : PlaygroundState * Storage :=
  foldl (fun p a => perform p.1 p.2 a) (st, s) l.

Definition demo_storage : Storage := mkStorage [] true true (fun _ _ _ => true).

Example load_legacy_message :
  (loadMessages (fun n => js "id" ++ print_N (N.of_nat n)) (fun _ l => l)
    (with_items demo_storage [(MESSAGES, jsq "[{'role':'user','content':'hi'},{'from':'bot'},7]")]) 0).1.1
  = Some [mkMessage (js "id1") user [mkVersion (js "id0") (js "hi")] None None None None None None None].
Proof. vm_compute. reflexivity. Qed.
End PlaygroundStorage.
