(* ===== verification/PlaygroundPersist.v ===== *)
(** * Playground storage: lemmas and properties

    What is saved is what is loaded: messages in any property order come back as
    they were saved, up to the repair of an interrupted one; whatever the stored
    text, the loaded messages are well formed and the storage is left consistent;
    the state of the page survives a reload after every sequence of actions. *)

From S2P Require Import Prelude JsNum Json NumText Playground PlaygroundMessages PlaygroundStorage Records.
From Stdlib Require Import Floats.SpecFloat.
Import Playground PlaygroundMessages PlaygroundStorage.

Module PlaygroundPersist.

(** ** Well-formed messages *)

Definition nonblank (s : jsstr) : bool := nonempty (trim s).

Definition wf_source (s : Source) : bool := nonempty (href s) || nonempty (title s).

(** What the code relies on: a key, versions with identifiers, and no empty list
    of sources. *)
Definition wf_message (m : Message) : bool :=
  nonblank (key m) && nonempty (versions m) && forallb (fun v => nonblank (id v)) (versions m)
  && match sources m with Some l => nonempty l && forallb wf_source l | None => true end
  && match reasoning m with Some r => num_is_finite (r_duration r) | None => true end.

(** The duration of the reasoning has a text that reads back. *)
Definition printable (m : Message) : bool :=
  match reasoning m with Some r => num_back json_number (r_duration r) | None => true end.

Definition good_message (m : Message) : bool := wf_message m && printable m.

Class Arrangement (arr : nat → list (jsstr * json) → list (jsstr * json)) : Prop :=
  arranges : ∀ i l, arr i l ≡ₚ l.

#[export] Instance declared_order : Arrangement (fun _ l => l).
Proof. by intros i l. Qed.
#[export] Instance reversed_order : Arrangement (fun _ l => reverse l).
Proof. intros i l. apply reverse_Permutation. Qed.

Lemma isMessageRole_text r : isMessageRole (Some (JStr (role_text r))) = Some r.
Proof. by destruct r. Qed.
Lemma isMessageStatus_text o : isMessageStatus ((fun s => JStr (status_text s)) <$> o) = o.
Proof. by destruct o as [[]|]. Qed.
Lemma bool_value_text o : bool_value (JBool <$> o) = o.
Proof. by destruct o. Qed.
Lemma error_code_text o :
  error_code ((fun c => match c with Some s => JStr s | None => JNull end) <$> o) = o.
Proof. by destruct o as [[]|]. Qed.
Lemma text_value_text s : nonblank s = true → text_value (Some (JStr s)) = Some s.
Proof. unfold nonblank. cbn. by intros ->. Qed.

Lemma normalizeVersions_text nanoid vs n :
  forallb (fun v => nonblank (id v)) vs = true → normalizeVersions nanoid (map versionJson vs) n = (vs, n).
Proof.
  induction vs as [|[i c] vs IH]; cbn [forallb map normalizeVersions]; [done|]. intros H.
  apply andb_true_iff in H as [H1 H2]. unfold normalizeVersion, versionJson at 1. cbn [isRecord].
  unfold id_or_fresh. change (map_get (js "id") _) with (Some (JStr i)).
  change (map_get (js "content") _) with (Some (JStr c)). rewrite text_value_text by done. cbn [str_value].
  by rewrite IH.
Qed.

Lemma normalizeSources_text o :
  match o with Some l => nonempty l && forallb wf_source l | None => true end = true →
  normalizeSources ((fun l => JArr (map sourceJson l)) <$> o) = o.
Proof.
  destruct o as [l|]; [|done]. intros H. apply andb_true_iff in H as [Hn H]. cbn [fmap option_fmap option_map].
  unfold normalizeSources.
  assert (E : map normalizeSource (omap isRecord (map sourceJson l)) = l).
  { clear. induction l as [|[h t] l IH]; [done|]. cbn [map omap list_omap isRecord sourceJson].
    by change (map normalizeSource (?x :: ?y)) with (normalizeSource x :: map normalizeSource y); rewrite IH. }
  rewrite E. rewrite List_filter_all; [by rewrite Hn|]. apply Forall_forall. intros s Hs.
  rewrite forallb_forall in H. by apply H, list_elem_of_In.
Qed.

Lemma normalizeReasoning_text o :
  match o with Some r => num_is_finite (r_duration r) | None => true end = true →
  normalizeReasoning (reasoningJson <$> o) = o.
Proof.
  destruct o as [[c d]|]; [|done]. intros H. unfold normalizeReasoning, reasoningJson.
  cbn [fmap option_fmap option_map r_content r_duration] in *.
  change (map_get (js "content") _) with (Some (JStr c)). change (map_get (js "duration") _) with (Some (JNum d)).
  cbn [str_value finite_value]. by rewrite H.
Qed.

Lemma messageTable_keys m : NoDup (messageTable m).*1.
Proof. by eapply distinct_keys. Qed.

(** A well-formed message is read back from any arrangement of its properties. *)
Lemma normalizeMessage_text nanoid m l n :
  wf_message m = true → l ≡ₚ present (messageTable m) → normalizeMessage nanoid (JObj l) n = (Some m, n).
Proof.
  intros Hw Hp. unfold wf_message in Hw. rewrite !andb_true_iff in Hw. destruct Hw as [[[[H1 H2] H3] H4] H5].
  assert (G : ∀ k, map_get k l = mjoin (map_get k (messageTable m))).
  { intros k. apply map_get_arranged; [apply messageTable_keys|done]. }
  unfold normalizeMessage, role_of. cbn [isRecord]. rewrite !G.
  change (mjoin (map_get (js "from") (messageTable m))) with (Some (JStr (role_text (from m)))). cbv iota.
  rewrite isMessageRole_text.
  change (mjoin (map_get (js "versions") (messageTable m))) with (Some (JArr (map versionJson (versions m)))). cbv iota.
  rewrite normalizeVersions_text by done. destruct (versions m) as [|v vs] eqn:Ev; [done|]. cbn [nonempty negb].
  change (mjoin (map_get (js "key") (messageTable m))) with (Some (JStr (key m))).
  unfold id_or_fresh. rewrite text_value_text by done.
  change (mjoin (map_get (js "sources") (messageTable m))) with ((fun l => JArr (map sourceJson l)) <$> sources m).
  change (mjoin (map_get (js "reasoning") (messageTable m))) with (reasoningJson <$> reasoning m).
  change (mjoin (map_get (js "isReasoningStreaming") (messageTable m))) with (JBool <$> isReasoningStreaming m).
  change (mjoin (map_get (js "isReasoningComplete") (messageTable m))) with (JBool <$> isReasoningComplete m).
  change (mjoin (map_get (js "isContentComplete") (messageTable m))) with (JBool <$> isContentComplete m).
  change (mjoin (map_get (js "status") (messageTable m))) with ((fun s => JStr (status_text s)) <$> status m).
  change (mjoin (map_get (js "errorCode") (messageTable m)))
    with ((fun c => match c with Some s => JStr s | None => JNull end) <$> errorCode m).
  rewrite normalizeSources_text, normalizeReasoning_text, !bool_value_text, isMessageStatus_text, error_code_text by done.
  destruct m. cbn in *. by rewrite Ev.
Qed.

Lemma normalizeMessages_text nanoid arr ms n :
  (∀ i l, arr i l ≡ₚ l) → Forall (fun m => wf_message m = true) ms →
  normalizeMessages nanoid (imap (fun i m => JObj (arr i (present (messageTable m)))) ms) n = (ms, n).
Proof.
  intros Ha H. revert arr Ha. induction H as [|m ms Hm H IH]; intros arr Ha; [done|].
  rewrite imap_cons. cbn [normalizeMessages]. rewrite (normalizeMessage_text nanoid m) by (done || apply Ha).
  change (imap ((fun i m => JObj (arr i (present (messageTable m)))) ∘ S) ms)
    with (imap (fun i m => JObj ((fun j => arr (S j)) i (present (messageTable m)))) ms).
  rewrite IH; [done|]. intros i l. apply Ha.
Qed.

Ltac by_table := repeat (apply Forall_cons; split); try apply Forall_nil; cbn [fst snd].
Ltac plain_obj := apply js_ok_obj; [apply obj_of_plain; [by eapply distinct_keys|by_table; done]|by_table; done].

Lemma message_js_ok m l : l ≡ₚ present (messageTable m) → js_ok (JObj l).
Proof.
  intros Hp. eapply arranged_ok; [apply messageTable_keys|done|exact Hp|]. by_table; try done.
  - apply js_ok_arr, Forall_fmap, Forall_true. intros v. plain_obj.
  - destruct (sources m); [|done]. cbn. apply js_ok_arr, Forall_fmap, Forall_true. intros v.
    plain_obj.
  - destruct (reasoning m); [|done]. cbn [fmap option_fmap option_map reasoningJson].
    plain_obj.
  - by destruct (isReasoningStreaming m).
  - by destruct (isReasoningComplete m).
  - by destruct (isContentComplete m).
  - by destruct (status m).
  - by destruct (errorCode m) as [[]|].
Qed.

Lemma forallb_map_true {A B} (f : B → bool) (g : A → B) l : (∀ x, f (g x) = true) → forallb f (map g l) = true.
Proof. intros H. induction l as [|x l IH]; cbn; [done|]. by rewrite H. Qed.

Lemma message_nums m l :
  printable m = true → l ≡ₚ present (messageTable m) → nums_ok json_number (JObj l) = true.
Proof.
  intros Hr Hp. eapply arranged_nums; [exact Hp|]. by_table; try done.
  - by apply forallb_map_true.
  - destruct (sources m); [|done]. by apply forallb_map_true.
  - unfold printable in Hr. destruct (reasoning m); [|done]. cbn. by rewrite Hr.
  - by destruct (isReasoningStreaming m).
  - by destruct (isReasoningComplete m).
  - by destruct (isContentComplete m).
  - by destruct (status m).
  - by destruct (errorCode m) as [[]|].
Qed.

(** Saved messages parse to the value that was printed. *)
Lemma messages_parse arr `{!Arrangement arr} ms :
  Forall (fun m => printable m = true) ms →
  JSON_parse (JSON_stringify (messagesJson arr ms)) = Some (messagesJson arr ms).
Proof.
  intros H. apply (JSON_parse_printed compact json_number).
  - cbn. apply forallb_forall. intros v Hv. apply list_elem_of_In in Hv.
    apply elem_of_lookup_imap in Hv as (i & m & -> & Hm).
    apply (message_nums m); [|apply arranges]. exact (Forall_lookup_1 _ _ _ _ H Hm).
  - apply js_ok_arr, Forall_forall. intros v Hv. apply elem_of_lookup_imap in Hv as (i & m & -> & Hm).
    apply (message_js_ok m), arranges.
Qed.

Lemma good_split ms :
  Forall (fun m => good_message m = true) ms →
  Forall (fun m => wf_message m = true) ms ∧ Forall (fun m => printable m = true) ms.
Proof.
  intros H. split; (eapply Forall_impl; [exact H|]); intros m Hm; by apply andb_true_iff in Hm as [].
Qed.

Lemma messages_text_nonempty arr ms : nonempty (JSON_stringify (messagesJson arr ms)) = true.
Proof. by destruct ms. Qed.

Lemma saved_item arr ms s :
  accepts s (items s) MESSAGES (JSON_stringify (messagesJson arr ms)) = true → readable s = true →
  getItem (saveMessages arr ms s) MESSAGES = Ok (Some (JSON_stringify (messagesJson arr ms))).
Proof.
  intros Ha Hr. unfold saveMessages, setItem. rewrite Ha. unfold getItem. cbn [try_storage readable with_items items].
  by rewrite Hr, map_get_set_eq.
Qed.

(** What is loaded from a storage that holds saved messages. *)
Lemma load_stored nanoid arr arr' `{!Arrangement arr} ms s n :
  Forall (fun m => good_message m = true) ms →
  getItem s MESSAGES = Ok (Some (JSON_stringify (messagesJson arr ms))) →
  (loadMessages nanoid arr' s n).1.1 = Some (sanitizeMessagesOnLoad ms) ∧ (loadMessages nanoid arr' s n).2 = n.
Proof.
  intros H Hg. apply good_split in H as [Hw Hp]. unfold loadMessages. rewrite Hg.
  rewrite (messages_parse arr ms Hp). rewrite messages_text_nonempty. cbn [negb messagesJson].
  rewrite normalizeMessages_text; [done| |done]. apply arranges.
Qed.

(** Saved messages are loaded as they were saved, up to the repair of an
    interrupted one, and without drawing a new identifier, whatever the order in
    which the objects list their properties. *)
Theorem messages_roundtrip nanoid arr arr' `{!Arrangement arr} ms s n :
  Forall (fun m => good_message m = true) ms →
  readable s = true → accepts s (items s) MESSAGES (JSON_stringify (messagesJson arr ms)) = true →
  (loadMessages nanoid arr' (saveMessages arr ms s) n).1.1 = Some (sanitizeMessagesOnLoad ms)
  ∧ (loadMessages nanoid arr' (saveMessages arr ms s) n).2 = n.
Proof. intros H Hr Ha. eapply load_stored; [done|done|]. by apply saved_item. Qed.

Definition demo_messages : list Message :=
  [mkMessage (js "a") user [mkVersion (js "v1") (js "hi")] (Some [mkSource (js "u") []]) None None None None None None;
   mkMessage (js "b") assistant [mkVersion (js "v2") (js "<think>x</think>yo")] None
     (Some (mkReasoning (js "x") (num_of_dec false 15 (-1)))) (Some true) (Some false) None (Some streaming)
     (Some None)].

Lemma messages_roundtrip_witness :
  (loadMessages (fun _ => js "id") (fun _ l => l) (saveMessages (fun _ l => reverse l) demo_messages demo_storage) 0).1.1
  = Some (sanitizeMessagesOnLoad demo_messages)
  ∧ (loadMessages (fun _ => js "id") (fun _ l => l) (saveMessages (fun _ l => reverse l) demo_messages demo_storage) 0).2
  = 0%nat.
Proof.
  apply (messages_roundtrip (fun _ => js "id") (fun _ l => reverse l) (fun _ l => l) demo_messages demo_storage 0).
  - constructor; [by vm_compute|]. constructor; [by vm_compute|constructor].
  - reflexivity.
  - reflexivity.
Defined.

(** ** Loading any text *)

Section any_text.
Context (nanoid : nat → jsstr) (Hnano : ∀ k, nonblank (nanoid k) = true).

Lemma id_or_fresh_nonblank v n : nonblank (id_or_fresh nanoid v n).1 = true.
Proof.
  unfold id_or_fresh, text_value. destruct v as [[| | |s| |]|]; try apply Hnano.
  destruct (nonempty (trim s)) eqn:E; [exact E|apply Hnano].
Qed.

Lemma normalizeVersions_nonblank l n : forallb (fun v => nonblank (id v)) (normalizeVersions nanoid l n).1 = true.
Proof.
  revert n. induction l as [|v l IH]; intros n; cbn [normalizeVersions]; [done|].
  assert (Hv : match (normalizeVersion nanoid v n).1 with Some w => nonblank (id w) = true | None => True end).
  { unfold normalizeVersion. destruct (isRecord v) as [m|]; [|done]. destruct (str_value _) as [c|]; [|done].
    pose proof (id_or_fresh_nonblank (map_get (js "id") m) n) as H. by destruct (id_or_fresh _ _ _). }
  destruct (normalizeVersion nanoid v n) as [w n1]. specialize (IH n1).
  destruct (normalizeVersions nanoid l n1) as [vs n2]. cbn in *. destruct w; [cbn; by rewrite Hv|done].
Qed.

Lemma normalizeSources_wf v :
  match normalizeSources v with Some l => nonempty l && forallb wf_source l | None => true end = true.
Proof.
  unfold normalizeSources. destruct v as [[]|]; try done. cbv zeta. destruct (nonempty _) eqn:E; [|done].
  rewrite E. apply forallb_forall. intros x Hx. by apply List.filter_In in Hx as [_ Hx].
Qed.

Lemma normalizeReasoning_finite v :
  match normalizeReasoning v with Some r => num_is_finite (r_duration r) | None => true end = true.
Proof.
  unfold normalizeReasoning. destruct v as [[]|]; try done. destruct (str_value _); [|done]. cbn.
  unfold finite_value. destruct (map_get _ _) as [[]|]; try done. by destruct (num_is_finite n) eqn:E.
Qed.

Lemma normalizeMessage_wf v n :
  match (normalizeMessage nanoid v n).1 with Some m => wf_message m = true | None => True end.
Proof.
  unfold normalizeMessage. destruct (isRecord v) as [m|]; [|done]. destruct (isMessageRole _) as [r|]; [|done].
  set (p := match map_get (js "versions") m with Some (JArr l) => normalizeVersions nanoid l n | _ => ([], n) end).
  assert (Hp : forallb (fun v => nonblank (id v)) p.1 = true).
  { unfold p. destruct (map_get _ _) as [[]|]; try done. apply normalizeVersions_nonblank. }
  destruct p as [vs n1]. cbn in Hp.
  set (q := match vs, str_value (map_get (js "content") m) with
            | [], Some c => ([mkVersion (nanoid n1) c], S n1) | _, _ => (vs, n1) end).
  assert (Hq : forallb (fun v => nonblank (id v)) q.1 = true).
  { unfold q. destruct vs; [|done]. destruct (str_value _); [|done]. cbn. by rewrite Hnano. }
  destruct q as [vs' n2]. cbn in Hq. destruct vs' as [|w vs']; [done|]. cbn [nonempty negb].
  pose proof (id_or_fresh_nonblank (map_get (js "key") m) n2) as Hk. destruct (id_or_fresh _ _ _) as [k n3].
  unfold wf_message. cbn [fst key versions sources reasoning nonempty] in *. rewrite Hk, Hq.
  by rewrite normalizeSources_wf, normalizeReasoning_finite.
Qed.

Lemma normalizeMessages_wf l n : Forall (fun m => wf_message m = true) (normalizeMessages nanoid l n).1.
Proof.
  revert n. induction l as [|v l IH]; intros n; cbn [normalizeMessages]; [constructor|].
  pose proof (normalizeMessage_wf v n) as Hv. destruct (normalizeMessage nanoid v n) as [w n1]. specialize (IH n1).
  destruct (normalizeMessages nanoid l n1) as [vs n2]. cbn in *. destruct w; [by constructor|done].
Qed.
End any_text.

Lemma finalizeMessage_wf m r : wf_message m = true → wf_message (finalizeMessage m r) = true.
Proof.
  unfold wf_message, finalizeMessage. cbn [key versions sources reasoning with_streaming with_reasoning
    updateCurrentVersionContent with_versions nonempty forallb id].
  rewrite !andb_true_iff. intros [[[[H1 H2] H3] H4] H5]. unfold getCurrentVersion.
  destruct (versions m) as [|v vs]; [done|]. cbn in H3. apply andb_true_iff in H3 as [H3 _].
  split; [by rewrite H1, H3, H4|]. destruct (nonempty (or_str _ _)); [|done]. cbn [r_duration].
  destruct (reasoning m) as [rr|]; [|done]. unfold num_or_zero. by destruct (num_truthy _).
Qed.

Lemma updateCurrentVersionContent_wf m c : wf_message m = true → wf_message (updateCurrentVersionContent m c) = true.
Proof.
  unfold wf_message, updateCurrentVersionContent, getCurrentVersion.
  cbn [key versions sources reasoning with_versions nonempty forallb id].
  rewrite !andb_true_iff. intros [[[[H1 H2] H3] H4] H5]. destruct (versions m) as [|v vs]; [done|].
  cbn in H3. apply andb_true_iff in H3 as [H3 _]. by repeat split.
Qed.

Lemma sanitizeMessage_wf m : wf_message m = true → wf_message (sanitizeMessage m) = true.
Proof.
  intros H. apply (finalizeMessage_wf m None) in H. unfold sanitizeMessage. case_match; [done|].
  by apply (updateCurrentVersionContent_wf _ (API_REQUEST_ERROR ++ js ": " ++ INTERRUPTED)) in H.
Qed.

Lemma sanitize_all (P : Message → Prop) ms :
  (∀ m, P m → P (sanitizeMessage m)) → Forall P ms → Forall P (sanitizeMessagesOnLoad ms).
Proof.
  intros HP H. destruct (last_stuck ms) as [Hs|(l & m & r & -> & Hm & Hr)]; [by rewrite sanitize_fixed|].
  rewrite sanitize_app by done. apply Forall_app in H as [H1 H2]. apply Forall_cons in H2 as [H2 H3].
  apply Forall_app. split; [done|]. constructor; [by apply HP|done].
Qed.

Lemma map_get_delete k k' m : map_get k (map_delete k' m) = if decide (k = k') then None else map_get k m.
Proof.
  induction m as [|[k1 v] m IH]; cbn; [by case_decide|]. unfold map_delete in IH.
  destruct (decide (k1 = k')) as [->|Hne].
  - rewrite bool_decide_true by done. cbn. rewrite IH. by repeat case_decide.
  - rewrite bool_decide_false by done. cbn. rewrite IH. repeat case_decide; congruence.
Qed.

Lemma removeStorageValue_get s k k' :
  map_get k' (items (removeStorageValue s k))
  = if removable s && bool_decide (k' = k) then None else map_get k' (items s).
Proof.
  unfold removeStorageValue, removeItem. destruct (removable s); [|done]. cbn. rewrite map_get_delete.
  case_decide; [by rewrite bool_decide_true|by rewrite bool_decide_false].
Qed.

Lemma saveMessages_get arr ms s k :
  map_get k (items (saveMessages arr ms s))
  = if accepts s (items s) MESSAGES (JSON_stringify (messagesJson arr ms)) && bool_decide (k = MESSAGES)
    then Some (JSON_stringify (messagesJson arr ms)) else map_get k (items s).
Proof.
  unfold saveMessages, setItem. destruct (accepts _ _ _ _); [|done]. cbn [try_storage items with_items andb].
  case_bool_decide as E; [subst; apply map_get_set_eq|by apply map_get_set_ne].
Qed.

(** The effect of loading on one item. *)
Lemma loadMessages_get nanoid arr s n k :
  let '(r, s', _) := loadMessages nanoid arr s n in
  map_get k (items s') = map_get k (items s) ∨ k = MESSAGES.
Proof.
  unfold loadMessages. destruct (decide (k = MESSAGES)) as [|Hk].
  { repeat case_match; by right. }
  assert (Hr : map_get k (items (removeStorageValue s MESSAGES)) = map_get k (items s)).
  { rewrite removeStorageValue_get, (bool_decide_false (k = _)) by done. by rewrite andb_false_r. }
  assert (Hs : ∀ ms, map_get k (items (saveMessages arr ms s)) = map_get k (items s)).
  { intros ms. rewrite saveMessages_get, (bool_decide_false (k = _)) by done. by rewrite andb_false_r. }
  repeat case_match; left; simplify_eq; try done; apply Hs.
Qed.

(** Loading accepts any stored text. Whatever is stored, the messages it
    returns have a key, versions with identifiers and finite durations; after it
    the storage holds the text of exactly the messages returned, or nothing that
    would be read as messages when none are returned; and no other item changes. *)
Theorem load_consistent nanoid arr s n :
  (∀ k, nonblank (nanoid k) = true) →
  (∀ v, accepts s (items s) MESSAGES v = true) → readable s = true → removable s = true →
  let '(r, s', _) := loadMessages nanoid arr s n in
  match r with
  | Some ms => Forall (fun m => wf_message m = true) ms
               ∧ map_get MESSAGES (items s') = Some (JSON_stringify (messagesJson arr ms))
  | None => map_get MESSAGES (items s') = None ∨ map_get MESSAGES (items s') = Some []
  end
  ∧ ∀ k, k ≠ MESSAGES → map_get k (items s') = map_get k (items s).
Proof.
  intros Hn Ha Hr Hm. pose proof (loadMessages_get nanoid arr s n) as Hk.
  assert (Hd : map_get MESSAGES (items (removeStorageValue s MESSAGES)) = None).
  { by rewrite removeStorageValue_get, Hm, bool_decide_true. }
  revert Hk. unfold loadMessages, getItem. rewrite Hr. destruct (map_get MESSAGES (items s)) as [[|c t]|] eqn:E; cbn [nonempty negb].
  - intros Hk. split; [by right|]. intros k Hne. by destruct (Hk k).
  - destruct (JSON_parse (c :: t)) as [[| | | |l|]|]; try (intros Hk; split; [by left|]; intros k Hne; by destruct (Hk k)).
    pose proof (normalizeMessages_wf nanoid Hn l n) as Hw. destruct (normalizeMessages nanoid l n) as [ms n'].
    intros Hk. split; [|intros k Hne; by destruct (Hk k)]. split.
    + apply sanitize_all; [apply sanitizeMessage_wf|done].
    + case_bool_decide as Eq; [by rewrite E, Eq|]. by rewrite saveMessages_get, Ha, bool_decide_true.
  - intros Hk. split; [by left|]. intros k Hne. by destruct (Hk k).
Qed.

Definition broken_storage : Storage :=
  with_items demo_storage [(MESSAGES, jsq "[{'from':'user','content':'x','key':' '},{}]"); (CONFIG, js "{}")].

Lemma load_consistent_witness :
  match loadMessages (fun _ => js "id") (fun _ l => l) broken_storage 0 with
  | (Some ms, s', _) => map_get MESSAGES (items s') = Some (JSON_stringify (messagesJson (fun _ l => l) ms))
  | _ => False
  end.
Proof.
  pose proof (load_consistent (fun _ => js "id") (fun _ l => l) broken_storage 0 (fun _ => eq_refl) (fun _ => eq_refl)
    eq_refl eq_refl) as H.
  vm_compute in H. vm_compute. apply H.
Defined.
End PlaygroundPersist.
