(* ===== verification/PlaygroundReload.v ===== *)
(** * Playground state: reloading the page

    The state of the page and the storage agree after every sequence of actions:
    reloading restores the configuration, the enabled parameters and the messages. *)

From S2P Require Import Prelude JsNum Json NumText Playground PlaygroundMessages PlaygroundStorage Records PlaygroundPersist.
From Stdlib Require Import Floats.SpecFloat.
Import Playground PlaygroundMessages PlaygroundStorage PlaygroundPersist.

Module PlaygroundReload.

(** ** Configuration and parameters *)

Definition num_ok (x : num) : bool := num_is_finite x && num_back json_number x.

(** A configuration that survives printing: names that are not blank and finite
    numbers whose texts read back. *)
Definition config_ok (c : PlaygroundConfig) : bool :=
  nonblank (model c) && nonblank (group c) && num_ok (temperature c) && num_ok (top_p c) && num_ok (max_tokens c)
  && num_ok (frequency_penalty c) && num_ok (presence_penalty c)
  && match seed c with Some x => num_ok x | None => true end.

Lemma num_ok_split x : num_ok x = true → num_is_finite x = true ∧ num_back json_number x = true.
Proof. apply andb_true_iff. Qed.

Lemma finite_value_ok x : num_ok x = true → finite_value (Some (JNum x)) = Some x.
Proof. intros H. apply num_ok_split in H as [H _]. cbn. by rewrite H. Qed.

Lemma nums_ok_num x : num_ok x = true → nums_ok json_number (JNum x) = true.
Proof. intros H. by apply num_ok_split in H as [_ H]. Qed.

Lemma configTable_keys c : NoDup (configTable c).*1.
Proof. by eapply distinct_keys. Qed.
Lemma enabledTable_keys e : NoDup (enabledTable e).*1.
Proof. by eapply distinct_keys. Qed.

(** Printing and parsing a record of a table. *)
Lemma table_parse l :
  NoDup l.*1 → plain_keys l = true →
  Forall (fun kv => match kv.2 with Some v => js_ok v ∧ nums_ok json_number v = true | None => True end) l →
  JSON_parse (JSON_stringify (JObj (present l))) = Some (JObj (present l)).
Proof.
  intros Hd Hi Hv. apply (JSON_parse_printed compact json_number).
  - eapply arranged_nums; [done|]. eapply Forall_impl; [exact Hv|]. intros [k [v|]]; cbn; [|done]. by intros [_ H].
  - eapply arranged_ok; [done|done|done|]. eapply Forall_impl; [exact Hv|]. intros [k [v|]]; cbn; [|done]. by intros [H _].
Qed.

Lemma config_parse c : config_ok c = true →
  JSON_parse (JSON_stringify (JObj (present (configTable (partial_config c)))))
  = Some (JObj (present (configTable (partial_config c)))).
Proof.
  unfold config_ok. rewrite !andb_true_iff. intros [[[[[[[_ _] H1] H2] H3] H4] H5] H6].
  apply table_parse; [apply configTable_keys|done|].
  by_table; try done; try (split; [done|by apply nums_ok_num]).
  cbn. split; [by destruct (seed c)|]. destruct (seed c); [by apply nums_ok_num|done].
Qed.

Lemma enabled_parse e :
  JSON_parse (JSON_stringify (JObj (present (enabledTable (partial_enabled e)))))
  = Some (JObj (present (enabledTable (partial_enabled e)))).
Proof. apply table_parse; [apply enabledTable_keys|done|]. by_table; done. Qed.

Lemma config_back c : config_ok c = true →
  configOfRecord (present (configTable (partial_config c))) = partial_config c.
Proof.
  intros H. unfold configOfRecord. rewrite !map_get_present by apply configTable_keys.
  unfold config_ok in H. rewrite !andb_true_iff in H. destruct H as [[[[[[[Hm Hg] H1] H2] H3] H4] H5] H6].
  set (T := configTable (partial_config c)).
  change (mjoin (map_get (js "model") T)) with (Some (JStr (model c))).
  change (mjoin (map_get (js "group") T)) with (Some (JStr (group c))).
  change (mjoin (map_get (js "temperature") T)) with (Some (JNum (temperature c))).
  change (mjoin (map_get (js "top_p") T)) with (Some (JNum (top_p c))).
  change (mjoin (map_get (js "max_tokens") T)) with (Some (JNum (max_tokens c))).
  change (mjoin (map_get (js "frequency_penalty") T)) with (Some (JNum (frequency_penalty c))).
  change (mjoin (map_get (js "presence_penalty") T)) with (Some (JNum (presence_penalty c))).
  change (mjoin (map_get (js "seed") T)) with (Some (match seed c with Some x => JNum x | None => JNull end)).
  change (mjoin (map_get (js "stream") T)) with (Some (JBool (stream c))).
  rewrite !text_value_text, !finite_value_ok by done. unfold partial_config. f_equal.
  destruct (seed c) as [x|]; [|done]. apply finite_value_ok in H6. cbn in H6 |- *. by destruct (num_is_finite x).
Qed.

Lemma enabled_back e : enabledOfRecord (present (enabledTable (partial_enabled e))) = partial_enabled e.
Proof. by destruct e. Qed.

Lemma mergeConfig_whole d c : mergeConfig d (partial_config c) = c.
Proof. by destruct c. Qed.
Lemma mergeEnabled_whole d e : mergeEnabled d (partial_enabled e) = e.
Proof. by destruct e. Qed.

(** Updating keeps a configuration printable when the new values are. *)
Lemma mergeConfig_ok c p :
  config_ok c = true → config_ok (mergeConfig DEFAULT_CONFIG p) = true → config_ok (mergeConfig c p) = true.
Proof.
  unfold config_ok. rewrite !andb_true_iff. destruct p as [o1 o2 o3 o4 o5 o6 o7 o8 o9]. unfold mergeConfig.
  cbn [model group temperature top_p max_tokens frequency_penalty presence_penalty seed p_model p_group
    p_temperature p_top_p p_max_tokens p_frequency_penalty p_presence_penalty p_seed p_stream].
  intros [[[[[[[A1 A2] A3] A4] A5] A6] A7] A8] [[[[[[[B1 B2] B3] B4] B5] B6] B7] B8].
  repeat match goal with |- _ ∧ _ => split end.
  - by destruct o1.
  - by destruct o2.
  - by destruct o3.
  - by destruct o4.
  - by destruct o5.
  - by destruct o6.
  - by destruct o7.
  - by destruct o8.
Qed.

(** ** Loading depends on the item only *)

Lemma loadRecord_item s s' k : getItem s k = getItem s' k → (loadRecord s k).1 = (loadRecord s' k).1.
Proof. unfold loadRecord. intros ->. by repeat case_match. Qed.

Lemma loadMessages_item nanoid arr s s' n :
  getItem s MESSAGES = getItem s' MESSAGES → (loadMessages nanoid arr s n).1.1 = (loadMessages nanoid arr s' n).1.1.
Proof. unfold loadMessages. intros ->. by repeat case_match. Qed.

Lemma removeStorageValue_item s k k' : k' ≠ k → getItem (removeStorageValue s k) k' = getItem s k'.
Proof.
  intros Hne. unfold getItem. rewrite removeStorageValue_get, (bool_decide_false (k' = k)), andb_false_r by done.
  unfold removeStorageValue, removeItem. by destruct (removable s).
Qed.

Lemma loadRecord_other s k k' : k' ≠ k → getItem (loadRecord s k).2 k' = getItem s k'.
Proof. intros Hne. unfold loadRecord. repeat case_match; cbn; try done; by apply removeStorageValue_item. Qed.

(** Removing an item that cannot be read as a record changes nothing of what is loaded. *)
Lemma loadRecord_removed s k : (loadRecord s k).1 = None → (loadRecord (removeStorageValue s k) k).1 = None.
Proof.
  intros H. unfold removeStorageValue, removeItem. destruct (removable s); [|done]. cbn [try_storage].
  unfold loadRecord, getItem. cbn [readable with_items items]. destruct (readable s); [|done].
  by rewrite map_get_delete, decide_True.
Qed.

Lemma loadRecord_again s k : (loadRecord (loadRecord s k).2 k).1 = (loadRecord s k).1.
Proof.
  destruct (loadRecord s k) as [m s'] eqn:E. cbn.
  assert (Hs : s' = s ∨ s' = removeStorageValue s k ∧ m = None).
  { revert E. unfold loadRecord. repeat case_match; intros [= <- <-]; auto. }
  destruct Hs as [->|[-> ->]]; [by rewrite E|]. apply loadRecord_removed. by rewrite E.
Qed.

(** ** The storage restores the state *)

(** What a reload would show. *)
Definition restores (s : Storage) (st : PlaygroundState) : Prop :=
  mergeConfig DEFAULT_CONFIG (default no_config (configOfRecord <$> (loadRecord s CONFIG).1)) = config st
  ∧ mergeEnabled DEFAULT_PARAMETER_ENABLED
      (default no_enabled (enabledOfRecord <$> (loadRecord s PARAMETER_ENABLED).1)) = parameterEnabled st
  ∧ ∀ nanoid arr n, default [] (loadMessages nanoid arr s n).1.1 = sanitizeMessagesOnLoad (messages st).

(** A storage that works, and a state whose values have texts that read back. *)
Definition working (s : Storage) : Prop :=
  readable s = true ∧ removable s = true ∧ ∀ m k v, accepts s m k v = true.
Definition state_ok (st : PlaygroundState) : Prop :=
  config_ok (config st) = true ∧ Forall (fun m => good_message m = true) (messages st).

Lemma initialState_restores s st nanoid arr n :
  restores s st →
  (initialState nanoid arr s n).1.1
  = mkState (config st) (parameterEnabled st) (sanitizeMessagesOnLoad (messages st)) [] [].
Proof.
  intros (Hc & He & Hm). unfold initialState, loadConfig, loadParameterEnabled.
  pose proof (loadRecord_other s CONFIG) as H1. destruct (loadRecord s CONFIG) as [m1 s1]. cbn in *.
  rewrite (loadRecord_item s s1) in He by (by rewrite H1).
  pose proof (loadRecord_other s1 PARAMETER_ENABLED) as H2.
  destruct (loadRecord s1 PARAMETER_ENABLED) as [m2 s2]. cbn in *. rewrite Hc, He.
  specialize (Hm nanoid arr n). rewrite (loadMessages_item _ _ s s2) in Hm.
  { destruct (loadMessages nanoid arr s2 n) as [[r s3] n']. cbn in *. by rewrite Hm. }
  by rewrite H2, H1.
Qed.

(** Storing under one key. *)
Definition store (s : Storage) (k v : jsstr) : Storage := with_items s (map_set k v (items s)).

Lemma store_working s k v : working s → working (store s k v).
Proof. done. Qed.

Lemma store_other s k v k' : k' ≠ k → getItem (store s k v) k' = getItem s k'.
Proof. intros Hne. unfold getItem, store. cbn. by rewrite map_get_set_ne. Qed.

Lemma store_same s k v : working s → getItem (store s k v) k = Ok (Some v).
Proof. intros (Hr & _). unfold getItem, store. cbn. by rewrite Hr, map_get_set_eq. Qed.

Lemma setItem_working s k v : working s → try_storage s (setItem s k v) = store s k v.
Proof. intros (_ & _ & Ha). unfold setItem. by rewrite Ha. Qed.

Lemma loadRecord_stored s k m :
  getItem s k = Ok (Some (JSON_stringify (JObj m))) →
  JSON_parse (JSON_stringify (JObj m)) = Some (JObj m) → (loadRecord s k).1 = Some m.
Proof.
  intros Hg Hp. unfold loadRecord. rewrite Hg, Hp.
  assert (Hn : nonempty (JSON_stringify (JObj m)) = true) by by destruct m. by rewrite Hn.
Qed.

Lemma restores_config s st c :
  working s → restores s st → config_ok c = true →
  restores (saveConfig (partial_config c) s) (mkState c (parameterEnabled st) (messages st) (models st) (groups st))
  ∧ working (saveConfig (partial_config c) s).
Proof.
  intros Hw (_ & He & Hm) Hc. unfold saveConfig. rewrite setItem_working by done. split; [|done].
  split; [|split].
  - rewrite (loadRecord_stored _ _ (present (configTable (partial_config c)))).
    + cbn [fmap option_fmap option_map from_option config]. rewrite config_back by done. apply mergeConfig_whole.
    + by apply store_same.
    + by apply config_parse.
  - cbn [parameterEnabled]. rewrite <- He. by rewrite (loadRecord_item _ s) by by apply store_other.
  - intros nanoid arr n. cbn [messages]. rewrite <- (Hm nanoid arr n). by rewrite (loadMessages_item _ _ _ s) by by apply store_other.
Qed.

Lemma restores_enabled s st e :
  working s → restores s st →
  restores (saveParameterEnabled (partial_enabled e) s) (mkState (config st) e (messages st) (models st) (groups st))
  ∧ working (saveParameterEnabled (partial_enabled e) s).
Proof.
  intros Hw (Hc & _ & Hm). unfold saveParameterEnabled. rewrite setItem_working by done. split; [|done].
  split; [|split].
  - cbn [config]. rewrite <- Hc. by rewrite (loadRecord_item _ s) by by apply store_other.
  - rewrite (loadRecord_stored _ _ (present (enabledTable (partial_enabled e)))).
    + cbn [fmap option_fmap option_map from_option parameterEnabled]. rewrite enabled_back. apply mergeEnabled_whole.
    + by apply store_same.
    + by apply enabled_parse.
  - intros nanoid arr n. cbn [messages]. rewrite <- (Hm nanoid arr n). by rewrite (loadMessages_item _ _ _ s) by by apply store_other.
Qed.

Lemma restores_messages s st arr ms :
  Arrangement arr → working s → restores s st → Forall (fun m => good_message m = true) ms →
  restores (saveMessages arr ms s) (with_messages st ms) ∧ working (saveMessages arr ms s).
Proof.
  intros Ha Hw (Hc & He & _) Hg. unfold saveMessages. rewrite setItem_working by done. split; [|done].
  split; [|split].
  - cbn [config with_messages]. rewrite <- Hc. by rewrite (loadRecord_item _ s) by by apply store_other.
  - cbn [parameterEnabled with_messages]. rewrite <- He. by rewrite (loadRecord_item _ s) by by apply store_other.
  - intros nanoid arr' n.
    destruct (load_stored nanoid arr arr' ms (store s MESSAGES (JSON_stringify (messagesJson arr ms))) n Hg) as [H _].
    { by apply store_same. }
    by rewrite H.
Qed.

(** An action whose values can be stored. *)
Definition action_ok (a : action) : Prop :=
  match a with
  | updateConfig p => config_ok (mergeConfig DEFAULT_CONFIG p) = true
  | updateMessages arr f =>
      Arrangement arr
      ∧ ∀ ms, Forall (fun m => good_message m = true) ms → Forall (fun m => good_message m = true) (f ms)
  | _ => True
  end.

Lemma DEFAULT_CONFIG_ok : config_ok DEFAULT_CONFIG = true.
Proof. by vm_compute. Qed.

Definition consistent (st : PlaygroundState) (s : Storage) : Prop := working s ∧ state_ok st ∧ restores s st.

Lemma perform_consistent st s a :
  consistent st s → action_ok a → consistent (perform st s a).1 (perform st s a).2.
Proof.
  intros (Hw & [Hc Hg] & Hr). destruct a as [p|p|arr f| | |l|l]; cbn [perform fst snd action_ok].
  - intros Ha. pose proof (mergeConfig_ok _ _ Hc Ha) as Hc'.
    destruct (restores_config s st (mergeConfig (config st) p)) as [H1 H2]; [done..|]. done.
  - intros _. destruct (restores_enabled s st (mergeEnabled (parameterEnabled st) p)) as [H1 H2]; done.
  - intros [Ha Hf]. destruct (restores_messages s st arr (f (messages st)) Ha Hw Hr (Hf _ Hg)) as [H1 H2].
    split; [done|]. split; [|done]. split; [done|]. by apply Hf.
  - intros _. destruct (restores_messages s st (fun _ l => l) [] _ Hw Hr) as [H1 H2]; [constructor|].
    split; [done|]. split; [|done]. split; [done|constructor].
  - intros _. destruct (restores_config s st DEFAULT_CONFIG) as [H1 H2]; [done|done|apply DEFAULT_CONFIG_ok|].
    destruct (restores_enabled _ _ DEFAULT_PARAMETER_ENABLED H2 H1) as [H3 H4].
    split; [done|]. split; [|done]. split; [apply DEFAULT_CONFIG_ok|done].
  - done.
  - done.
Qed.

Lemma performAll_consistent l st s :
  consistent st s → Forall action_ok l → consistent (performAll st s l).1 (performAll st s l).2.
Proof.
  intros H Hl. revert st s H. induction Hl as [|a l Ha Hl IH]; intros st s H; [done|].
  pose proof (perform_consistent st s a H Ha) as H'. unfold performAll in *. cbn [foldl fst snd].
  destruct (perform st s a) as [st' s']. by apply IH.
Qed.

Lemma remove_working s k : working s → working (removeStorageValue s k) ∧ getItem (removeStorageValue s k) k = Ok None.
Proof.
  intros (Hr & Hm & Ha). unfold getItem. rewrite removeStorageValue_get, Hm, bool_decide_true by done.
  unfold removeStorageValue, removeItem. rewrite Hm. cbn. by rewrite Hr.
Qed.

Lemma loadRecord_working s k : working s → working (loadRecord s k).2.
Proof. intros Hw. unfold loadRecord. repeat case_match; cbn; try done; by apply remove_working. Qed.

Lemma loadMessages_none nanoid arr s n :
  getItem s MESSAGES = Ok None ∨ getItem s MESSAGES = Ok (Some []) → (loadMessages nanoid arr s n).1.1 = None.
Proof. unfold loadMessages. by intros [-> | ->]. Qed.

(** Loading leaves a storage from which the same messages are loaded again. *)
Lemma loadMessages_again nanoid arr `{!Arrangement arr} s n :
  working s →
  let '(r, s', _) := loadMessages nanoid arr s n in
  working s' ∧ (∀ k, k ≠ MESSAGES → getItem s' k = getItem s k)
  ∧ (Forall (fun m => good_message m = true) (default [] r) →
     ∀ nanoid' arr' n', default [] (loadMessages nanoid' arr' s' n').1.1 = sanitizeMessagesOnLoad (default [] r)).
Proof.
  intros Hw. destruct (remove_working s MESSAGES Hw) as [Hw' Hn].
  pose proof (removeStorageValue_item s MESSAGES) as Hi.
  assert (Hrm : ∀ nanoid' arr' n', default [] (loadMessages nanoid' arr' (removeStorageValue s MESSAGES) n').1.1 = []).
  { intros. rewrite loadMessages_none; auto. }
  destruct (getItem s MESSAGES) as [[[|c t]|]|] eqn:E; unfold loadMessages at 1; rewrite E; cbn [nonempty negb].
  - split; [done|]. split; [done|]. intros _ ? ? ?. rewrite loadMessages_none; auto.
  - destruct (JSON_parse (c :: t)) as [[| | | |l|]|]; try done.
    destruct (normalizeMessages nanoid l n) as [ms n']. cbn [from_option].
    case_bool_decide as Eq.
    + split; [done|]. split; [done|]. intros Hg nanoid' arr' k.
      destruct (load_stored nanoid' arr arr' (sanitizeMessagesOnLoad ms) s k Hg) as [H _]; [by rewrite E, Eq|].
      by rewrite H.
    + unfold saveMessages. rewrite setItem_working by done. split; [done|]. split; [intros k Hk; by apply store_other|].
      intros Hg nanoid' arr' k.
      destruct (load_stored nanoid' arr arr' (sanitizeMessagesOnLoad ms)
        (store s MESSAGES (JSON_stringify (messagesJson arr (sanitizeMessagesOnLoad ms)))) k Hg) as [H _].
      { by apply store_same. }
      by rewrite H.
  - split; [done|]. split; [done|]. intros _ ? ? ?. rewrite loadMessages_none; auto.
  - done.
Qed.

(** The state built from any storage agrees with the storage left behind. *)
Lemma initial_consistent nanoid arr `{!Arrangement arr} s n :
  working s → let '(st, s', _) := initialState nanoid arr s n in state_ok st → consistent st s'.
Proof.
  intros Hw. unfold initialState, loadConfig, loadParameterEnabled.
  pose proof (loadRecord_other s CONFIG) as O1. pose proof (loadRecord_again s CONFIG) as A1.
  pose proof (loadRecord_working s CONFIG Hw) as W1. destruct (loadRecord s CONFIG) as [m1 s1]. cbn in *.
  pose proof (loadRecord_other s1 PARAMETER_ENABLED) as O2. pose proof (loadRecord_again s1 PARAMETER_ENABLED) as A2.
  pose proof (loadRecord_working s1 PARAMETER_ENABLED W1) as W2.
  destruct (loadRecord s1 PARAMETER_ENABLED) as [m2 s2]. cbn in *.
  pose proof (loadMessages_again nanoid arr s2 n W2) as H3.
  destruct (loadMessages nanoid arr s2 n) as [[r s3] n']. destruct H3 as (W3 & O3 & A3).
  intros Hok. split; [done|]. split; [done|]. split; [|split].
  - rewrite (loadRecord_item s3 s1); [by rewrite A1|]. rewrite O3, O2 by done. done.
  - rewrite (loadRecord_item s3 s2); [by rewrite A2|]. by rewrite O3.
  - apply A3, Hok.
Qed.

(** C15: Reloading the page restores its state. From a state loaded out of a
    storage that can be read and written, after any sequence of updates, clears and
    resets, building the state again from the storage gives the same configuration,
    the same enabled parameters and the messages with the last interrupted one
    repaired; they are exactly the same messages when none is interrupted. The
    loaded state and the updates are assumed to have values that can be stored:
    names that are not blank, numbers whose texts read back, and well-formed
    messages. *)
Theorem reload_restores nanoid arr `{!Arrangement arr} s0 n0 l :
  working s0 → state_ok (initialState nanoid arr s0 n0).1.1 → Forall action_ok l →
  let '(st0, s, _) := initialState nanoid arr s0 n0 in
  let '(st, s') := performAll st0 s l in
  ∀ nanoid' arr' n,
  (initialState nanoid' arr' s' n).1.1
  = mkState (config st) (parameterEnabled st) (sanitizeMessagesOnLoad (messages st)) [] []
  ∧ (Forall (fun m => stuck m = false) (messages st) → messages (initialState nanoid' arr' s' n).1.1 = messages st).
Proof.
  intros Hw Hok Hl. pose proof (initial_consistent nanoid arr s0 n0 Hw) as Hc.
  destruct (initialState nanoid arr s0 n0) as [[st0 s] n1]. specialize (Hc Hok).
  pose proof (performAll_consistent l st0 s Hc Hl) as H. destruct (performAll st0 s l) as [st s'].
  intros. rewrite (initialState_restores s' st) by apply H. split; [done|]. apply sanitize_fixed.
Qed.

Definition demo_actions : list action :=
  [updateConfig (mkPartial (Some (js "gpt-5")) None (Some (num_of_dec false 15 (-1))) None None None None (Some None) None);
   updateMessages (fun _ l => reverse l) (fun ms => ms ++ [createLoadingAssistantMessage (js "k") (js "v")]);
   updateParameterEnabled (mkPartialEnabled None None (Some true) None None None)].

Lemma reload_restores_witness :
  let '(st0, s, _) := initialState (fun _ => js "id") (fun _ l => l) demo_storage 0 in
  let '(st, s') := performAll st0 s demo_actions in
  (initialState (fun _ => js "id") (fun _ l => l) s' 0).1.1
  = mkState (config st) (parameterEnabled st) (sanitizeMessagesOnLoad (messages st)) [] []
  ∧ (Forall (fun m => stuck m = false) (messages st) →
     messages (initialState (fun _ => js "id") (fun _ l => l) s' 0).1.1 = messages st).
Proof.
  refine (reload_restores (fun _ => js "id") (fun _ l => l) demo_storage 0 demo_actions _ _ _
    (fun _ => js "id") (fun _ l => l) 0%nat).
  - done.
  - split; [by vm_compute|constructor].
  - constructor; [by vm_compute|]. constructor; [|constructor; [done|constructor]]. split; [apply _|].
    intros ms H. apply Forall_app. split; [done|]. constructor; [by vm_compute|constructor].
Defined.
End PlaygroundReload.
