(* ===== verification/PlaygroundChat.v ===== *)
(** * Playground chat (src/web/default/src/features/playground)

    Sending a conversation and receiving its answer: hooks/use-stream-request.ts,
    hooks/use-chat-handler.ts, hooks/use-message-action-guard.ts and the handlers
    of index.tsx. The event source is the browser's; its events are the inputs of
    the model, in any order and from any source, so that an event a source
    dispatches while it is being closed is the next event of the sequence. The
    handlers of index.tsx read the messages of the last render, here the current
    ones. A value of a server event is a JSON value; where the code joins it to a
    string, [to_text] is its text. *)

From S2P Require Import Prelude JsNum Json NumText Playground PlaygroundStorage.
From Stdlib Require Import Floats.SpecFloat.
Import Playground.

Module PlaygroundChat.

(** ** JavaScript property access on JSON values *)

Definition json_truthy (v : json) : bool :=
  match v with
  | JNull => false
  | JBool b => b
  | JNum x => num_truthy x
  | JStr s => nonempty s
  | JArr _ | JObj _ => true
  end.

(** [v.k] and [v[0]]; reading a property of [null] throws. *)
Definition get_prop (v : json) (k : jsstr) : res (option json) :=
  match v with
  | JNull => Throw (js "TypeError")
  | JObj m => Ok (map_get k m)
  | _ => Ok None
  end.
Definition get_first (v : json) : res (option json) :=
  match v with
  | JNull => Throw (js "TypeError")
  | JObj m => Ok (map_get (js "0") m)
  | JArr l => Ok (head l)
  | JStr (c :: _) => Ok (Some (JStr [c]))
  | _ => Ok None
  end.

(** [v?.k]: nothing for [undefined] and [null]. *)
Definition opt_get (f : json → res (option json)) (v : option json) : res (option json) :=
  match v with None | Some JNull => Ok None | Some v => f v end.

(** A truthy property value. *)
Definition truthy_value (v : option json) : option json :=
  match v with Some v => if json_truthy v then Some v else None | None => None end.

(** ** State *)

Record Session := mkSession {
  messages : list Message;
  toasts : list jsstr;
  sseSource : option nat;
  isStreamComplete : bool;
  closed : list nat;
  requests : list ChatCompletionRequest;
  editingMessageKey : option jsstr;
  next_id : nat
}.

Definition with_messages (st : Session) (ms : list Message) : Session :=
  mkSession ms (toasts st) (sseSource st) (isStreamComplete st) (closed st) (requests st) (editingMessageKey st) (next_id st).
Definition with_source (st : Session) (s : option nat) : Session :=
  mkSession (messages st) (toasts st) s (isStreamComplete st) (closed st) (requests st) (editingMessageKey st) (next_id st).
Definition with_complete (st : Session) (b : bool) : Session :=
  mkSession (messages st) (toasts st) (sseSource st) b (closed st) (requests st) (editingMessageKey st) (next_id st).
Definition with_closed (st : Session) (l : list nat) : Session :=
  mkSession (messages st) (toasts st) (sseSource st) (isStreamComplete st) l (requests st) (editingMessageKey st) (next_id st).
Definition with_toast (st : Session) (t : jsstr) : Session :=
  mkSession (messages st) (toasts st ++ [t]) (sseSource st) (isStreamComplete st) (closed st) (requests st)
    (editingMessageKey st) (next_id st).
Definition with_requests (st : Session) (l : list ChatCompletionRequest) : Session :=
  mkSession (messages st) (toasts st) (sseSource st) (isStreamComplete st) (closed st) l (editingMessageKey st) (next_id st).
Definition with_editing (st : Session) (k : option jsstr) : Session :=
  mkSession (messages st) (toasts st) (sseSource st) (isStreamComplete st) (closed st) (requests st) k (next_id st).
Definition with_next (st : Session) (n : nat) : Session :=
  mkSession (messages st) (toasts st) (sseSource st) (isStreamComplete st) (closed st) (requests st)
    (editingMessageKey st) n.

Definition isGenerating (st : Session) : bool := match sseSource st with Some _ => true | None => false end.

(** ** Updates of the last message (use-chat-handler.ts) *)

Inductive chunk_type := Reasoning_chunk | Content_chunk.

Definition onMessageUpdate (st : Session) (updater : Message → Message) : Session :=
  with_messages st (updateLastAssistantMessage (messages st) updater).

Definition streamUpdater (type : chunk_type) (chunk : jsstr) (m : Message) : Message :=
  if bool_decide (status m = Some error) then m
  else match type with
       | Reasoning_chunk =>
           with_status
             (with_streaming
               (with_reasoning m (Some (mkReasoning (or_str (r_content <$> reasoning m) [] ++ chunk) (S754_zero false))))
               true) streaming
       | Content_chunk => with_status (processStreamingContent m chunk) streaming
       end.

Definition handleStreamUpdate (st : Session) (type : chunk_type) (chunk : jsstr) : Session :=
  onMessageUpdate st (streamUpdater type chunk).

Definition completeUpdater (m : Message) : Message :=
  if bool_decide (status m = Some complete) || bool_decide (status m = Some error) then m
  else with_status (finalizeMessage m None) complete.

Definition handleStreamComplete (st : Session) : Session := onMessageUpdate st completeUpdater.

Definition handleStreamError (st : Session) (err : jsstr) (errorCode : option jsstr) : Session :=
  with_messages (with_toast st err) (updateAssistantMessageWithError (messages st) err errorCode).

Definition stopUpdater (m : Message) : Message :=
  if bool_decide (status m = Some loading) || bool_decide (status m = Some streaming)
  then with_status (finalizeMessage m None) complete else m.

(** ** The event source (use-stream-request.ts) *)

Definition closeSource (st : Session) (src : nat) : Session :=
  with_source (with_closed st (set_add (closed st) src)) None.

Definition handleError (st : Session) (src : nat) (errorMessage : jsstr) (errorCode : option jsstr) : Session :=
  if isStreamComplete st then st else closeSource (handleStreamError st errorMessage errorCode) src.

(** [JSON.parse(e.data).choices?.[0]?.delta] with the two texts of it. *)
Definition parseChunk (data : jsstr) : res (option json * option json) :=
  match JSON_parse data with
  | None => Throw (js "SyntaxError")
  | Some chunk =>
      (let! choices := get_prop chunk (js "choices") in
       let! choice := opt_get get_first choices in
       let! delta := opt_get (fun c => get_prop c (js "delta")) choice in
       match truthy_value delta with
       | None => Ok (None, None)
       | Some d =>
           let! r := get_prop d (js "reasoning_content") in
           let! c := get_prop d (js "content") in
           Ok (truthy_value r, truthy_value c)
       end)%js
  end.

Definition onMessage (st : Session) (src : nat) (data : jsstr) : Session :=
  if bool_decide (data = js "[DONE]") then handleStreamComplete (closeSource (with_complete st true) src)
  else match parseChunk data with
       | Throw _ => handleError st src PARSE_ERROR None
       | Ok (r, c) =>
           let st1 := match r with Some v => handleStreamUpdate st Reasoning_chunk (to_text v) | None => st end in
           match c with Some v => handleStreamUpdate st1 Content_chunk (to_text v) | None => st1 end
       end.

(** The message and the code reported for the data of an error event. *)
Definition parseErrorData (data : option jsstr) : jsstr * option jsstr :=
  match data with
  | None | Some [] => (API_REQUEST_ERROR, None)
  | Some d =>
      match JSON_parse d with
      | None => (d, None)
      | Some parsed =>
          match opt_get (fun p => get_prop p (js "error")) (Some parsed) with
          | Ok (Some err) =>
              if json_truthy err then
                match get_prop err (js "message"), get_prop err (js "code") with
                | Ok m, Ok c => (default d (to_text <$> truthy_value m), to_text <$> truthy_value c)
                | _, _ => (d, None)
                end
              else (d, None)
          | _ => (d, None)
          end
      end
  end.

Definition onErrorEvent (st : Session) (src : nat) (readyState : Z) (data : option jsstr) : Session :=
  if negb (readyState =? 2)%Z then
    let '(errorMessage, errorCode) := parseErrorData data in handleError st src errorMessage errorCode
  else st.

Definition print_status (z : Z) : jsstr :=
  if (z <? 0)%Z then 45%N :: print_N (Z.abs_N z) else print_N (Z.to_N z).

Definition onReadyStateChange (st : Session) (src : nat) (readyState status : option Z) : Session :=
  match readyState, status with
  | Some r, Some s =>
      if (2 <=? r)%Z && negb (s =? 200)%Z
      then handleError st src (js "HTTP " ++ print_status s ++ js ": " ++ CONNECTION_CLOSED) None
      else st
  | _, _ => st
  end.

(** [starts] is false when [source.stream()] throws. *)
Definition sendStreamRequest (st : Session) (payload : ChatCompletionRequest) (starts : bool) : Session :=
  let src := length (requests st) in
  let st1 := with_complete (with_source (with_requests st (requests st ++ [payload])) (Some src)) false in
  if starts then st1 else with_source (handleStreamError st1 STREAM_START_ERROR None) None.

Definition stopStream (st : Session) : Session :=
  match sseSource st with
  | Some src => with_source (with_closed st (set_add (closed st) src)) None
  | None => st
  end.

Definition stopGeneration (st : Session) : Session := onMessageUpdate (stopStream st) stopUpdater.

(** ** Answers that are not streamed *)

Record ChoiceMessage := mkChoiceMessage { cm_content : option jsstr; cm_reasoning : option jsstr }.
Notation Choice := (option ChoiceMessage).

Inductive Answer :=
| Answered (choices : option (list Choice))
| Failed (apiMessage message code : option jsstr).

Definition answerUpdater (choice : Choice) (m : Message) : Message :=
  let c := match choice with Some cm => or_str (cm_content cm) [] | None => [] end in
  with_status
    (finalizeMessage (with_versions m [mkVersion (id (getCurrentVersion m)) c])
      (match choice with Some cm => cm_reasoning cm | None => None end)) complete.

Definition onAnswer (st : Session) (a : Answer) : Session :=
  match a with
  | Answered choices =>
      match mjoin (head <$> choices) with
      | None => st
      | Some choice => onMessageUpdate st (answerUpdater choice)
      end
  | Failed apiMessage message code =>
      handleStreamError st (or_str apiMessage (or_str message API_REQUEST_ERROR))
        (match code with Some (_ :: _) => code | _ => None end)
  end.

(** ** Events *)

Inductive event :=
| EvMessage (src : nat) (data : jsstr)
| EvError (src : nat) (readyState : Z) (data : option jsstr)
| EvReadyState (src : nat) (readyState status : option Z)
| EvAnswer (a : Answer)
| EvStop.

Definition step (st : Session) (e : event) : Session :=
  match e with
  | EvMessage src data => onMessage st src data
  | EvError src readyState data => onErrorEvent st src readyState data
  | EvReadyState src readyState status => onReadyStateChange st src readyState status
  | EvAnswer a => onAnswer st a
  | EvStop => stopGeneration st
  end.

Definition run (st : Session) (l : list event) : Session := foldl step st l.

(** ** Sending *)

Section send.
Context (config : PlaygroundConfig) (parameterEnabled : ParameterEnabled) (nanoid : nat → jsstr).

Definition sendStreamingChat (st : Session) (ms : list Message) (starts : bool) : Session :=
  sendStreamRequest st (buildChatCompletionPayload ms config parameterEnabled) starts.

(** The answer arrives later, as an [EvAnswer]. *)
Definition sendNonStreamingChat (st : Session) (ms : list Message) : Session :=
  with_requests st (requests st ++ [buildChatCompletionPayload ms config parameterEnabled]).

Definition sendChat (st : Session) (ms : list Message) (starts : bool) : Session :=
  if stream config then sendStreamingChat st ms starts else sendNonStreamingChat st ms.

(** ** Handlers of the page (index.tsx) *)

Definition loadingMessage (n : nat) : Message := createLoadingAssistantMessage (nanoid n) (nanoid (S n)).

Definition handleSendMessage (st : Session) (text : jsstr) (starts : bool) : Session :=
  let n := next_id st in
  let newMessages := messages st ++ [createUserMessage (nanoid n) (nanoid (S n)) text; loadingMessage (S (S n))] in
  sendChat (with_next (with_messages st newMessages) (4 + n)) newMessages starts.

(** [messages.findIndex((m) => m.key === k)] *)
Fixpoint findIndex (k : jsstr) (ms : list Message) : option nat :=
  match ms with
  | [] => None
  | m :: ms' => if bool_decide (key m = k) then Some 0%nat else S <$> findIndex k ms'
  end.

Definition handleRegenerateMessage (st : Session) (m : Message) (starts : bool) : Session :=
  match findIndex (key m) (messages st) with
  | None => st
  | Some i =>
      let newMessages := take i (messages st) ++ [loadingMessage (next_id st)] in
      sendChat (with_next (with_messages st newMessages) (2 + next_id st)) newMessages starts
  end.

Definition handleEditMessage (st : Session) (m : Message) : Session := with_editing st (Some (key m)).
Definition handleEditOpenChange (st : Session) (opened : bool) : Session :=
  if opened then st else with_editing st None.

(** The edited message; a message without versions gets a fresh one. *)
Definition editMessage (k newContent : jsstr) (m : Message) (n : nat) : Message * nat :=
  if bool_decide (key m = k) then
    match versions m with
    | v :: _ => (with_versions m [mkVersion (id v) newContent], n)
    | [] => (with_versions m [mkVersion (nanoid n) newContent], S n)
    end
  else (m, n).

Fixpoint editMessages (k newContent : jsstr) (ms : list Message) (n : nat) : list Message * nat :=
  match ms with
  | [] => ([], n)
  | m :: ms' =>
      let '(m', n1) := editMessage k newContent m n in
      let '(l, n2) := editMessages k newContent ms' n1 in (m' :: l, n2)
  end.

Definition applyEdit (st : Session) (newContent : jsstr) (submit starts : bool) : Session :=
  match editingMessageKey st with
  | None | Some [] => st
  | Some k =>
      match findIndex k (messages st) with
      | None => st
      | Some index =>
          let '(updated, n) := editMessages k newContent (messages st) (next_id st) in
          let st1 := with_next (with_editing st None) n in
          match updated !! index with
          | Some m =>
              if negb submit || negb (bool_decide (from m = user)) then with_messages st1 updated
              else
                let toSubmit := take (S index) updated ++ [loadingMessage n] in
                sendChat (with_next (with_messages st1 toSubmit) (2 + n)) toSubmit starts
          | None => st1
          end
      end
  end.

Definition handleDeleteMessage (st : Session) (m : Message) : Session :=
  with_messages st (List.filter (fun x => negb (bool_decide (key x = key m))) (messages st)).
End send.

Definition WAIT_GENERATION := js "Please wait for the current generation to complete".

(** [guardAction(action)()] (use-message-action-guard.ts). *)
Definition guardAction (action : Session → Session) (st : Session) : Session :=
  if isGenerating st then with_toast st WAIT_GENERATION else action st.

(** The effects that keep the chosen model and group available. *)
Definition chooseModel (c : PlaygroundConfig) (modelsData : list PlaygroundStorage.ModelOption) : jsstr :=
  match modelsData with
  | [] => model c
  | m :: _ => if existsb (fun m => bool_decide (PlaygroundStorage.mo_value m = model c)) modelsData then model c
              else PlaygroundStorage.mo_value m
  end.

Definition chooseGroup (c : PlaygroundConfig) (groupsData : list PlaygroundStorage.GroupOption) : jsstr :=
  match groupsData with
  | [] => group c
  | g :: _ =>
      if existsb (fun g => bool_decide (PlaygroundStorage.go_value g = group c)) groupsData then group c
      else match List.find (fun g => bool_decide (PlaygroundStorage.go_value g = js "default")) groupsData with
           | Some d => PlaygroundStorage.go_value d
           | None => PlaygroundStorage.go_value g
           end
  end.

Definition empty_session : Session := mkSession [] [] None false [] [] None 0.

Example chat_demo :
  let nanoid n := js "id" ++ print_N (N.of_nat n) in
  let st := handleSendMessage DEFAULT_CONFIG DEFAULT_PARAMETER_ENABLED nanoid empty_session (js "hi") true in
  let st' := run st [EvMessage 0 (jsq "{'choices':[{'delta':{'content':'<think>hm'}}]}");
                     EvMessage 0 (jsq "{'choices':[{'delta':{'content':'</think>yo'}}]}");
                     EvMessage 0 (js "[DONE]"); EvError 0 0 None] in
  (map (fun m => content (getCurrentVersion m)) (messages st'), map reasoning (messages st'), toasts st')
  = ([js "hi"; js "yo"], [None; Some (mkReasoning (js "hm") (S754_zero false))], []).
Proof. vm_compute. reflexivity. Qed.
End PlaygroundChat.
