(* ===== verification/PlaygroundSession.v ===== *)
(** * Playground chat: lemmas and properties

    What a sequence of events does to a conversation: only the answer being
    received changes, every error is reported once until the stream is complete,
    an error stays, a complete stream gives the text and the thinking that were
    sent, and every operation keeps the messages fit for storage. *)

From S2P Require Import Prelude JsNum Json NumText Playground PlaygroundMessages PlaygroundStorage Records PlaygroundPersist PlaygroundChat.
From Stdlib Require Import Floats.SpecFloat.
Import Playground PlaygroundMessages PlaygroundPersist PlaygroundChat.

Module PlaygroundSession.

(** ** Updating the last message *)

(** An update that keeps a message's key and role. *)
Definition keeps_identity (f : Message → Message) : Prop := ∀ m, key (f m) = key m ∧ from (f m) = from m.

(** The messages before the last are the same, and the last is the same unless it
    is the assistant's; then it keeps its key. *)
Definition extends_last (ms ms' : list Message) : Prop :=
  ms' = ms
  ∨ ∃ l m m', ms = l ++ [m] ∧ ms' = l ++ [m'] ∧ from m = assistant ∧ from m' = assistant ∧ key m' = key m.

Lemma extends_last_trans ms1 ms2 ms3 : extends_last ms1 ms2 → extends_last ms2 ms3 → extends_last ms1 ms3.
Proof.
  intros [->|(l & m & m' & -> & -> & H1 & H2 & H3)]; [done|].
  intros [->|(l2 & m2 & m3 & E & -> & H4 & H5 & H6)]; [right; by exists l, m, m'|].
  apply app_inj_tail in E as [<- <-]. right. exists l, m, m3. by rewrite H6.
Qed.

Lemma update_last_app l m f :
  from m = assistant → updateLastAssistantMessage (l ++ [m]) f = l ++ [f m].
Proof.
  intros H. unfold updateLastAssistantMessage. rewrite last_snoc, bool_decide_true by done. by rewrite removelast_last.
Qed.

Lemma update_last_cases ms f :
  updateLastAssistantMessage ms f = ms
  ∨ ∃ l m, ms = l ++ [m] ∧ from m = assistant ∧ updateLastAssistantMessage ms f = l ++ [f m].
Proof.
  destruct ms as [|m l _] using rev_ind; [by left|]. destruct (decide (from m = assistant)) as [H|H].
  - right. exists l, m. split; [done|]. split; [done|]. by apply update_last_app.
  - left. unfold updateLastAssistantMessage. by rewrite last_snoc, bool_decide_false.
Qed.

Lemma update_last_extends ms f : keeps_identity f → extends_last ms (updateLastAssistantMessage ms f).
Proof.
  intros Hf. destruct (update_last_cases ms f) as [->|(l & m & -> & Hm & ->)]; [by left|].
  right. exists l, m, (f m). destruct (Hf m) as [H1 H2]. by rewrite H2.
Qed.

(** An update applied where it does nothing. *)
Lemma update_last_fixed l m f : f m = m → updateLastAssistantMessage (l ++ [m]) f = l ++ [m].
Proof.
  intros H. destruct (update_last_cases (l ++ [m]) f) as [->|(l' & m' & E & _ & ->)]; [done|].
  apply app_inj_tail in E as [<- <-]. by rewrite H.
Qed.

Lemma streamUpdater_identity t c : keeps_identity (streamUpdater t c).
Proof. intros m. unfold streamUpdater. case_bool_decide; [done|]. by destruct t. Qed.
Lemma completeUpdater_identity : keeps_identity completeUpdater.
Proof. intros m. unfold completeUpdater. by destruct (_ || _). Qed.
Lemma stopUpdater_identity : keeps_identity stopUpdater.
Proof. intros m. unfold stopUpdater. by destruct (_ || _). Qed.
Lemma answerUpdater_identity c : keeps_identity (answerUpdater c).
Proof. done. Qed.

#[export] Hint Resolve streamUpdater_identity completeUpdater_identity stopUpdater_identity
  answerUpdater_identity update_last_extends : js.

Lemma handleError_extends st src e c : extends_last (messages st) (messages (handleError st src e c)).
Proof. unfold handleError. destruct (isStreamComplete st); [by left|]. by apply update_last_extends. Qed.

#[export] Hint Resolve handleError_extends : js.

Lemma extends_last_refl ms : extends_last ms ms.
Proof. by left. Qed.
#[export] Hint Resolve extends_last_refl : js.

Lemma stopStream_messages st : messages (stopStream st) = messages st.
Proof. unfold stopStream. by destruct (sseSource st). Qed.

Lemma step_extends st e : extends_last (messages st) (messages (step st e)).
Proof.
  destruct e as [src d|src r d|src r s|a|]; cbn [step].
  - unfold onMessage. case_bool_decide; [unfold handleStreamComplete, onMessageUpdate; cbn; auto with js|].
    destruct (parseChunk d) as [[r c]|]; [|auto with js].
    assert (Hu : ∀ st t v, extends_last (messages st) (messages (handleStreamUpdate st t v))).
    { intros. unfold handleStreamUpdate, onMessageUpdate. cbn. auto with js. }
    destruct r, c; auto with js. eapply extends_last_trans; apply Hu.
  - unfold onErrorEvent. destruct (negb _); [|auto with js]. destruct (parseErrorData d). auto with js.
  - unfold onReadyStateChange. destruct r, s; auto with js. destruct (_ && _); auto with js.
  - unfold onAnswer. destruct a as [cs|a1 a2 a3].
    + destruct (mjoin _); [|auto with js]. unfold onMessageUpdate. cbn. auto with js.
    + by apply update_last_extends.
  - unfold stopGeneration, onMessageUpdate. cbn. rewrite stopStream_messages. auto with js.
Qed.

Lemma run_extends st l : extends_last (messages st) (messages (run st l)).
Proof.
  unfold run. revert st. induction l as [|e l IH]; intros st; cbn; [auto with js|].
  eapply extends_last_trans; [apply step_extends|apply IH].
Qed.

Lemma step_requests st e : requests (step st e) = requests st.
Proof.
  assert (Hh : ∀ src m c, requests (handleError st src m c) = requests st).
  { intros. unfold handleError. by destruct (isStreamComplete st). }
  destruct e as [src d|src r d|src r s|a|]; cbn [step].
  - unfold onMessage. case_bool_decide; [done|]. destruct (parseChunk d) as [[r c]|]; [|done]. by destruct r, c.
  - unfold onErrorEvent. destruct (negb _); [|done]. by destruct (parseErrorData d).
  - unfold onReadyStateChange. destruct r, s; try done. by destruct (_ && _).
  - unfold onAnswer. destruct a; [|done]. by destruct (mjoin _).
  - unfold stopGeneration, stopStream. by destruct (sseSource st).
Qed.

(** Receiving touches only the answer. Whatever events arrive, in any order
    and from any source, the conversation keeps its length, all messages before
    the last are unchanged, the last is unchanged unless it is the assistant's,
    its key and role stay, and no request is sent. *)
Theorem only_last_changes st l :
  let st' := run st l in
  length (messages st') = length (messages st)
  ∧ (∀ i, (S i < length (messages st))%nat → messages st' !! i = messages st !! i)
  ∧ (∀ i m, messages st !! i = Some m →
       ∃ m', messages st' !! i = Some m' ∧ key m' = key m ∧ from m' = from m ∧ (from m ≠ assistant → m' = m))
  ∧ requests st' = requests st.
Proof.
  assert (Hr : requests (run st l) = requests st).
  { unfold run. revert st. induction l as [|e l IH]; intros st; cbn; [done|]. by rewrite IH, step_requests. }
  destruct (run_extends st l) as [E|(k & m & m' & E1 & E2 & H1 & H2 & H3)]; cbn zeta.
  - rewrite E. split; [done|]. split; [done|]. split; [|done]. intros i x Hx. by exists x.
  - rewrite E1, E2, !length_app. split; [done|]. split; [|split; [|done]].
    + intros i Hi. cbn in Hi. rewrite !lookup_app_l by lia. done.
    + intros i x Hx. destruct (decide (i < length k)%nat) as [Hi|Hi].
      * rewrite lookup_app_l in Hx |- * by lia. by exists x.
      * rewrite lookup_app_r in Hx |- * by lia. destruct (i - length k)%nat; [|by rewrite lookup_nil in Hx || done].
        injection Hx as <-. exists m'. split; [done|]. split; [done|]. split; [by rewrite H2|]. done.
Qed.

(** ** Errors *)

Definition is_done (e : event) : bool :=
  match e with EvMessage _ d => bool_decide (d = js "[DONE]") | _ => false end.

(** The message and code an event reports while the stream is not complete. *)
Definition reported (e : event) : option (jsstr * option jsstr) :=
  match e with
  | EvMessage _ d =>
      if bool_decide (d = js "[DONE]") then None
      else match parseChunk d with Throw _ => Some (PARSE_ERROR, None) | Ok _ => None end
  | EvError _ r d => if (r =? 2)%Z then None else Some (parseErrorData d)
  | EvReadyState _ (Some r) (Some s) =>
      if (2 <=? r)%Z && negb (s =? 200)%Z
      then Some (js "HTTP " ++ print_status s ++ js ": " ++ CONNECTION_CLOSED, None) else None
  | _ => None
  end.

(** An event of a stream, as opposed to the answer of another request. *)
Definition of_stream (e : event) : bool := match e with EvAnswer _ => false | _ => true end.

(** The errors reported before the stream is complete. *)
Fixpoint reports (l : list event) : list jsstr :=
  match l with
  | [] => []
  | e :: l' => if is_done e then [] else match reported e with Some r => r.1 :: reports l' | None => reports l' end
  end.

(** What a stream event does to the reports. *)
Lemma step_reports st e :
  of_stream e = true →
  isStreamComplete (step st e) = isStreamComplete st || is_done e
  ∧ toasts (step st e)
    = toasts st ++ match reported e with Some r => if isStreamComplete st then [] else [r.1] | None => [] end.
Proof.
  assert (Hh : ∀ src m c, isStreamComplete (handleError st src m c) = isStreamComplete st
    ∧ toasts (handleError st src m c) = toasts st ++ if isStreamComplete st then [] else [m]).
  { intros. unfold handleError. destruct (isStreamComplete st) eqn:E; [by rewrite app_nil_r|done]. }
  intros He. destruct e as [src d|src r d|src r s|a|]; cbn [step reported is_done]; [| | |done|].
  - unfold onMessage. case_bool_decide; [by rewrite orb_true_r, app_nil_r|]. rewrite orb_false_r.
    destruct (parseChunk d) as [[r c]|]; [|apply Hh]. rewrite app_nil_r. by destruct r, c.
  - rewrite orb_false_r. unfold onErrorEvent. destruct (r =? 2)%Z; cbn [negb]; [by rewrite app_nil_r|].
    destruct (parseErrorData d). apply Hh.
  - rewrite orb_false_r. unfold onReadyStateChange. destruct r, s; try by rewrite app_nil_r.
    destruct (_ && _); [apply Hh|by rewrite app_nil_r].
  - rewrite orb_false_r, app_nil_r. unfold stopGeneration, stopStream. by destruct (sseSource st).
Qed.

Lemma run_quiet st l :
  forallb of_stream l = true → isStreamComplete st = true →
  toasts (run st l) = toasts st ∧ isStreamComplete (run st l) = true.
Proof.
  revert st. induction l as [|e l IH]; intros st Hl Hc; [done|]. cbn in Hl. apply andb_true_iff in Hl as [He Hl].
  destruct (step_reports st e He) as [H1 H2]. rewrite Hc in H1, H2.
  assert (H3 : toasts (step st e) = toasts st) by (rewrite H2; destruct (reported e); apply app_nil_r).
  unfold run in *. cbn [foldl]. destruct (IH (step st e) Hl H1) as [-> ->]. done.
Qed.

(** Every error is reported exactly once until the stream is complete. The
    notifications shown by a sequence of stream events are, in order, one for
    each malformed message, error event and failed status that comes before the
    end marker, and none after it. *)
Theorem reports_exact st l :
  isStreamComplete st = false → forallb of_stream l = true → toasts (run st l) = toasts st ++ reports l.
Proof.
  revert st. induction l as [|e l IH]; intros st Hc Hl; [by rewrite app_nil_r|].
  cbn in Hl. apply andb_true_iff in Hl as [He Hl]. destruct (step_reports st e He) as [H1 H2].
  rewrite Hc in H1, H2. cbn [reports]. change (run st (e :: l)) with (run (step st e) l).
  destruct (is_done e) eqn:Ed.
  - destruct (run_quiet (step st e) l Hl H1) as [-> _]. rewrite H2.
    destruct e; try done. cbn in *. by rewrite Ed.
  - rewrite IH, H2 by done. rewrite <- app_assoc. by destruct (reported e).
Qed.

Lemma reports_exact_witness :
  toasts (run empty_session [EvError 0 1 (Some (jsq "{'error':{'message':'quota'}}")); EvReadyState 0 (Some 2%Z) (Some 429%Z);
    EvMessage 0 (js "[DONE]"); EvMessage 0 (js "{")]) = [js "quota"; js "HTTP 429: Connection closed"].
Proof.
  exact (reports_exact empty_session [EvError 0 1 (Some (jsq "{'error':{'message':'quota'}}"));
    EvReadyState 0 (Some 2%Z) (Some 429%Z); EvMessage 0 (js "[DONE]"); EvMessage 0 (js "{")] eq_refl eq_refl).
Defined.

(** An error stays on the message. After the answer has the status of an
    error, no further content, end marker or stop changes the conversation,
    unless another error is reported. *)
Theorem error_absorbing st ms m l :
  messages st = ms ++ [m] → status m = Some error →
  forallb of_stream l = true → Forall (fun e => reported e = None) l → messages (run st l) = messages st.
Proof.
  intros Hm Hs Hl Hr. revert st Hm. induction Hr as [|e l He Hr IH]; intros st Hm; [done|].
  cbn in Hl. apply andb_true_iff in Hl as [Ho Hl]. change (run st (e :: l)) with (run (step st e) l).
  assert (Hf : ∀ st f, f m = m → messages st = ms ++ [m] → messages (onMessageUpdate st f) = ms ++ [m]).
  { intros st0 f Hfm E. cbn. rewrite E. by apply update_last_fixed. }
  assert (Hu : ∀ t c, streamUpdater t c m = m) by (intros; unfold streamUpdater; by rewrite bool_decide_true).
  assert (Hstep : messages (step st e) = ms ++ [m]); [|rewrite (IH Hl (step st e) Hstep); congruence].
  destruct e as [src d|src r d|src r s|a|]; cbn [step reported] in *; [| | |done|].
  - unfold onMessage. case_bool_decide as E.
    + apply Hf; [|done]. unfold completeUpdater. by rewrite Hs.
    + destruct (parseChunk d) as [[r c]|]; [|done]. unfold handleStreamUpdate.
      destruct r, c; repeat (apply Hf; [apply Hu|]); done.
  - unfold onErrorEvent. by destruct (r =? 2)%Z.
  - unfold onReadyStateChange. destruct r, s; try done. by destruct (_ && _).
  - apply Hf; [|by rewrite stopStream_messages]. unfold stopUpdater. by rewrite Hs.
Qed.

Lemma error_absorbing_witness :
  let m := with_status (createLoadingAssistantMessage (js "k") (js "v")) error in
  messages (run (PlaygroundChat.with_messages empty_session [m])
    [EvMessage 0 (jsq "{'choices':[{'delta':{'content':'late'}}]}"); EvMessage 0 (js "[DONE]"); EvStop]) = [m].
Proof.
  intros m. apply (error_absorbing (PlaygroundChat.with_messages empty_session [m]) [] m
    [EvMessage 0 (jsq "{'choices':[{'delta':{'content':'late'}}]}"); EvMessage 0 (js "[DONE]"); EvStop]);
    [done|done|done|].
  constructor; [by vm_compute|]. constructor; [by vm_compute|]. constructor; [done|constructor].
Defined.

(** ** Answers that arrive completely *)

(** The data of an event that carries a piece of the answer. *)
Definition chunkJson (field c : jsstr) : json :=
  JObj [(js "choices", JArr [JObj [(js "delta", JObj [(field, JStr c)])]])].
Definition contentData (c : jsstr) : jsstr := JSON_stringify (chunkJson (js "content") c).
Definition reasoningData (c : jsstr) : jsstr := JSON_stringify (chunkJson (js "reasoning_content") c).

Lemma chunk_parse f c : is_index f = false → JSON_parse (JSON_stringify (chunkJson f c)) = Some (chunkJson f c).
Proof.
  intros Hf. apply (JSON_parse_printed compact json_number); [done|]. unfold chunkJson.
  apply js_ok_obj; [done|]. constructor; [|constructor]. apply js_ok_arr. constructor; [|constructor].
  apply js_ok_obj; [done|]. constructor; [|constructor]. apply js_ok_obj; [|by constructor].
  apply obj_of_plain; [apply NoDup_singleton|by constructor].
Qed.

Lemma parseChunk_content c : c ≠ [] → parseChunk (contentData c) = Ok (None, Some (JStr c)).
Proof. intros Hc. unfold parseChunk, contentData. rewrite chunk_parse by done. by destruct c. Qed.
Lemma parseChunk_reasoning c : c ≠ [] → parseChunk (reasoningData c) = Ok (Some (JStr c), None).
Proof. intros Hc. unfold parseChunk, reasoningData. rewrite chunk_parse by done. by destruct c. Qed.

Definition contentEvents (src : nat) (cs : list jsstr) : list event := map (fun c => EvMessage src (contentData c)) cs.
Definition reasoningEvents (src : nat) (rs : list jsstr) : list event := map (fun c => EvMessage src (reasoningData c)) rs.

Lemma step_content st src c : c ≠ [] → step st (EvMessage src (contentData c)) = handleStreamUpdate st Content_chunk c.
Proof.
  intros Hc. cbn [step]. unfold onMessage. rewrite bool_decide_false by done. by rewrite parseChunk_content.
Qed.
Lemma step_reasoning st src c :
  c ≠ [] → step st (EvMessage src (reasoningData c)) = handleStreamUpdate st Reasoning_chunk c.
Proof.
  intros Hc. cbn [step]. unfold onMessage. rewrite bool_decide_false by done. by rewrite parseChunk_reasoning.
Qed.

(** The session after updates of the answer. *)
Definition answering (st : Session) (l : list Message) (m : Message) : Prop := messages st = l ++ [m] ∧ from m = assistant.

Lemma run_updates st l m src t data cs :
  (∀ st c, c ≠ [] → step st (EvMessage src (data c)) = handleStreamUpdate st t c) →
  answering st l m → Forall (fun c => c ≠ []) cs →
  let st' := run st (map (fun c => EvMessage src (data c)) cs) in
  answering st' l (foldl (fun m c => streamUpdater t c m) m cs)
  ∧ toasts st' = toasts st ∧ sseSource st' = sseSource st.
Proof.
  intros Hd Ha Hc. revert st m Ha. induction Hc as [|c cs Hc Hcs IH]; intros st m [Hm Hf]; [done|].
  cbn [map foldl]. unfold run. cbn [foldl]. rewrite Hd by done.
  destruct (IH (handleStreamUpdate st t c) (streamUpdater t c m)) as (H1 & H2 & H3).
  { split; [|by rewrite (proj2 (streamUpdater_identity t c m))].
    unfold handleStreamUpdate. cbn. by rewrite Hm, update_last_app. }
  unfold run in *. done.
Qed.

Lemma step_done st l m src :
  answering st l m →
  let st' := step st (EvMessage src (js "[DONE]")) in
  messages st' = l ++ [completeUpdater m] ∧ toasts st' = toasts st ∧ sseSource st' = None
  ∧ isStreamComplete st' = true.
Proof.
  intros [Hm Hf]. cbn [step]. unfold onMessage. rewrite bool_decide_true by done. cbn.
  split; [|done]. by rewrite Hm, update_last_app.
Qed.

(** A message being answered: the reasoning and the text received so far. *)
Record received (k v r c : jsstr) (m : Message) : Prop := mkReceived {
  rec_key : key m = k;
  rec_from : from m = assistant;
  rec_versions : versions m = [mkVersion v c];
  rec_sources : sources m = None;
  rec_reasoning : reasoning m = if nonempty r then Some (mkReasoning r (S754_zero false)) else None;
  rec_rc : isReasoningComplete m = Some false;
  rec_cc : isContentComplete m = Some false;
  rec_status : status m = Some loading ∨ status m = Some streaming;
  rec_code : errorCode m = None
}.

Lemma received_running k v r c m : received k v r c m → bool_decide (status m = Some error) = false.
Proof. intros H. apply bool_decide_false. by destruct (rec_status _ _ _ _ _ H) as [-> | ->]. Qed.

Lemma received_reasoning k v r c m r' :
  received k v r c m → r' ≠ [] → received k v (r ++ r') c (streamUpdater Reasoning_chunk r' m).
Proof.
  intros H Hr. unfold streamUpdater. rewrite (received_running k v r c) by done. destruct H.
  constructor; cbn; try done; [|by right]. rewrite rec_reasoning0. destruct r; [by destruct r'|done].
Qed.

Lemma parse_untagged s : includes open_tag s = false → parseThinkTags s = mkThink s [] false.
Proof. intros H. unfold parseThinkTags. by rewrite H. Qed.

Lemma received_content k v r c m c' :
  received k v r c m → includes open_tag (c ++ c') = false → received k v r (c ++ c') (streamUpdater Content_chunk c' m).
Proof.
  intros H Ht. unfold streamUpdater. rewrite (received_running k v r c) by done.
  unfold processStreamingContent. destruct H.
  assert (Hv : getCurrentVersion m = mkVersion v c) by (unfold getCurrentVersion; by rewrite rec_versions0).
  rewrite Hv. cbn [content]. rewrite parse_untagged by done. cbn [think_reasoning nonempty hasUnclosedTag].
  constructor; cbn; try done; [by rewrite Hv|by right].
Qed.

Lemma includes_app_l p s t : includes p (s ++ t) = false → includes p s = false.
Proof.
  intros H. apply not_true_is_false. intros Hs. apply not_true_iff_false in H. apply H.
  apply includes_spec in Hs as (a & b & ->). apply includes_spec. exists a, (b ++ t). by rewrite <- !app_assoc.
Qed.

Lemma received_reasonings k v r c m rs :
  received k v r c m → Forall (fun x => x ≠ []) rs →
  received k v (r ++ concat rs) c (foldl (fun m x => streamUpdater Reasoning_chunk x m) m rs).
Proof.
  intros H Hr. revert r m H. induction Hr as [|x rs Hx Hr IH]; intros r m H; cbn; [by rewrite app_nil_r|].
  rewrite app_assoc. by apply IH, received_reasoning.
Qed.

Lemma received_contents k v r c m cs :
  received k v r c m → includes open_tag (c ++ concat cs) = false →
  received k v r (c ++ concat cs) (foldl (fun m x => streamUpdater Content_chunk x m) m cs).
Proof.
  revert c m. induction cs as [|x cs IH]; intros c m H Ht; cbn in *; [by rewrite app_nil_r|].
  rewrite app_assoc in Ht |- *. apply IH; [|done]. apply received_content; [done|]. by eapply includes_app_l.
Qed.

Lemma received_complete k v r c m :
  received k v r c m → includes open_tag c = false →
  completeUpdater m
  = mkMessage k assistant [mkVersion v c] None (if nonempty r then Some (mkReasoning r (S754_zero false)) else None)
      (Some false) (Some false) (Some false) (Some complete) None.
Proof.
  intros H Ht. unfold completeUpdater. rewrite (received_running k v r c) by done. destruct H.
  rewrite bool_decide_false by by destruct rec_status0 as [-> | ->]. cbn [orb].
  unfold finalizeMessage, updateCurrentVersionContent, getCurrentVersion. rewrite rec_versions0. cbn [content id].
  rewrite parse_untagged by done. unfold with_status, with_streaming, with_reasoning, with_versions.
  cbn [visibleContent think_reasoning key from versions sources reasoning isReasoningComplete isContentComplete errorCode].
  rewrite rec_key0, rec_from0, rec_sources0, rec_rc0, rec_cc0, rec_code0, rec_reasoning0. by destruct r.
Qed.

Lemma received_loading k v : received k v [] [] (createLoadingAssistantMessage k v).
Proof. constructor; try done. by left. Qed.

(** An answer streamed with separate reasoning arrives exactly. From the
    placeholder, any pieces of reasoning followed by any pieces of content without
    thinking tags and the end marker give a complete message whose text and
    reasoning are the concatenations of the pieces; nothing is reported and the
    source is released. *)
Theorem streamed_answer_exact st l k v src rs cs :
  messages st = l ++ [createLoadingAssistantMessage k v] →
  Forall (fun x => x ≠ []) rs → Forall (fun x => x ≠ []) cs → includes open_tag (concat cs) = false →
  let st' := run st (reasoningEvents src rs ++ contentEvents src cs ++ [EvMessage src (js "[DONE]")]) in
  messages st'
  = l ++ [mkMessage k assistant [mkVersion v (concat cs)] None
            (if nonempty (concat rs) then Some (mkReasoning (concat rs) (S754_zero false)) else None)
            (Some false) (Some false) (Some false) (Some complete) None]
  ∧ toasts st' = toasts st ∧ sseSource st' = None.
Proof.
  intros Hm Hr Hc Ht. unfold run. rewrite !foldl_app. cbn zeta. cbn [foldl].
  pose proof (received_reasonings k v [] [] _ rs (received_loading k v) Hr) as R1.
  pose proof (received_contents k v _ [] _ cs R1 Ht) as R2. cbn [app] in R1, R2.
  destruct (run_updates st l (createLoadingAssistantMessage k v) src Reasoning_chunk reasoningData rs) as (A1 & T1 & _);
    [by intros; apply step_reasoning|done|done|].
  destruct (run_updates _ l _ src Content_chunk contentData cs (fun st c => step_content st src c) A1 Hc) as (A2 & T2 & _).
  destruct (step_done _ l _ src A2) as (M3 & T3 & S3 & _).
  rewrite (received_complete k v _ _ _ R2 Ht) in M3. unfold run in *. split; [exact M3|]. split; [|exact S3].
  etransitivity; [exact T3|]. by etransitivity; [exact T2|].
Qed.

Lemma streamed_answer_exact_witness :
  let st := PlaygroundChat.with_messages empty_session [createLoadingAssistantMessage (js "k") (js "v")] in
  map (fun m => content (getCurrentVersion m))
    (messages (run st (reasoningEvents 0 [js "so"; js "."] ++ contentEvents 0 [js "Hel"; js "lo"]
       ++ [EvMessage 0 (js "[DONE]")]))) = [js "Hello"].
Proof.
  intros st.
  destruct (streamed_answer_exact st [] (js "k") (js "v") 0 [js "so"; js "."] [js "Hel"; js "lo"]) as [H _].
  - reflexivity.
  - constructor; [done|]. constructor; [done|constructor].
  - constructor; [done|]. constructor; [done|constructor].
  - by vm_compute.
  - rewrite H. reflexivity.
Defined.

Lemma fold_content m c cs :
  status m ≠ Some error →
  foldl (fun m x => streamUpdater Content_chunk x m) m (c :: cs) = with_status (stream_content m (c :: cs)) streaming.
Proof.
  intros Hs. induction cs as [|x cs IH] using rev_ind.
  - cbn. unfold streamUpdater. by rewrite bool_decide_false.
  - rewrite app_comm_cons, foldl_snoc, IH, stream_snoc. unfold streamUpdater. by rewrite bool_decide_false.
Qed.

Lemma complete_thinking k v text :
  think_reasoning (parseThinkTags text) ≠ [] →
  completeUpdater (with_status (processStreamingContent (createLoadingAssistantMessage k v) text) streaming)
  = mkMessage k assistant [mkVersion v (visibleContent (parseThinkTags text))] None
      (Some (mkReasoning (think_reasoning (parseThinkTags text)) (S754_zero false)))
      (Some false) (Some false) (Some false) (Some complete) None.
Proof.
  intros Ht. unfold completeUpdater. cbn [status with_status].
  rewrite !bool_decide_false by done. cbn [orb].
  unfold finalizeMessage, processStreamingContent, updateCurrentVersionContent, getCurrentVersion.
  cbn -[parseThinkTags]. destruct (think_reasoning (parseThinkTags text)) as [|x t]; [done|]. reflexivity.
Qed.

(** C35: An answer streamed with thinking tags arrives separated. From the
    placeholder, any pieces of a text that contains thinking, followed by the end
    marker, give a complete message with exactly the visible text and the thinking
    of the whole text, wherever the pieces were cut. *)
Theorem streamed_thinking_exact st l k v src cs :
  messages st = l ++ [createLoadingAssistantMessage k v] →
  Forall (fun x => x ≠ []) cs → think_reasoning (parseThinkTags (concat cs)) ≠ [] →
  let st' := run st (contentEvents src cs ++ [EvMessage src (js "[DONE]")]) in
  messages st'
  = l ++ [mkMessage k assistant [mkVersion v (visibleContent (parseThinkTags (concat cs)))] None
            (Some (mkReasoning (think_reasoning (parseThinkTags (concat cs))) (S754_zero false)))
            (Some false) (Some false) (Some false) (Some complete) None]
  ∧ toasts st' = toasts st ∧ sseSource st' = None.
Proof.
  intros Hm Hc Ht. unfold run. rewrite foldl_app. cbn zeta. cbn [foldl].
  destruct (run_updates st l (createLoadingAssistantMessage k v) src Content_chunk contentData cs) as (A & T & _);
    [by intros; apply step_content|done|done|].
  destruct (step_done _ l _ src A) as (M3 & T3 & S3 & _).
  destruct cs as [|c cs]; [done|].
  rewrite fold_content, stream_whole, complete_thinking in M3 by done.
  split; [exact M3|]. split; [|exact S3]. by etransitivity; [exact T3|].
Qed.

Lemma streamed_thinking_exact_witness :
  let st := PlaygroundChat.with_messages empty_session [createLoadingAssistantMessage (js "k") (js "v")] in
  map (fun m => content (getCurrentVersion m))
    (messages (run st (contentEvents 0 [js "<thi"; js "nk>a</think"; js "> yo"] ++ [EvMessage 0 (js "[DONE]")])))
  = [js "yo"].
Proof.
  intros st.
  destruct (streamed_thinking_exact st [] (js "k") (js "v") 0 [js "<thi"; js "nk>a</think"; js "> yo"]) as [H _].
  - reflexivity.
  - constructor; [done|]. constructor; [done|]. constructor; [done|constructor].
  - by vm_compute.
  - rewrite H. reflexivity.
Defined.

(** What becomes of a request that is not streamed. From the placeholder, an
    answer with a choice gives a complete message with the separated text and the
    reasoning of the answer, or else the thinking in its text; a failure is
    reported and shown on the message; and an answer without choices changes
    nothing, so that the message stays loading exactly in that case. *)
Theorem answer_outcome st l k v a :
  messages st = l ++ [createLoadingAssistantMessage k v] →
  let st' := step st (EvAnswer a) in
  ∃ m, messages st' = l ++ [m] ∧ key m = k ∧ from m = assistant
  ∧ match a with
    | Failed apiMessage message code =>
        let err := or_str apiMessage (or_str message API_REQUEST_ERROR) in
        toasts st' = toasts st ++ [err] ∧ status m = Some error
        ∧ content (getCurrentVersion m) = API_REQUEST_ERROR ++ js ": " ++ err
    | Answered choices =>
        toasts st' = toasts st
        ∧ match mjoin (head <$> choices) with
          | Some choice =>
              let text := match choice with Some cm => or_str (cm_content cm) [] | None => [] end in
              let api := match choice with Some cm => cm_reasoning cm | None => None end in
              status m = Some complete
              ∧ content (getCurrentVersion m) = visibleContent (parseThinkTags text)
              ∧ default [] (r_content <$> reasoning m) = or_str api (think_reasoning (parseThinkTags text))
          | None => m = createLoadingAssistantMessage k v
          end
    end
  ∧ (stuck m = true ↔ ∃ choices, a = Answered choices ∧ mjoin (head <$> choices) = None).
Proof.
  intros Hm. cbn [step]. unfold onAnswer. destruct a as [choices|apiMessage message code].
  - destruct (mjoin (head <$> choices)) as [choice|] eqn:E.
    + exists (answerUpdater choice (createLoadingAssistantMessage k v)). cbn zeta. split_and!; try done.
      * unfold onMessageUpdate. cbn [messages PlaygroundChat.with_messages]. by rewrite Hm, update_last_app.
      * unfold answerUpdater, finalizeMessage. cbn -[parseThinkTags]. by destruct (or_str _ _).
      * split; [done|]. intros (cs & [= <-] & Hc). congruence.
    + exists (createLoadingAssistantMessage k v). split_and!; try done. split; [|done]. intros _. by exists choices.
  - eexists. split.
    { cbn. rewrite Hm. unfold updateAssistantMessageWithError. by apply update_last_app. }
    split; [done|]. split; [done|]. split; [done|]. split; [done|]. by intros (cs & [=] & _).
Qed.

Lemma answer_outcome_witness :
  ∃ m, messages (step (PlaygroundChat.with_messages empty_session [createLoadingAssistantMessage (js "k") (js "v")])
         (EvAnswer (Answered (Some [])))) = [m] ∧ stuck m = true.
Proof.
  destruct (answer_outcome (PlaygroundChat.with_messages empty_session [createLoadingAssistantMessage (js "k") (js "v")])
    [] (js "k") (js "v") (Answered (Some [])) eq_refl) as (m & H & _ & _ & _ & Hs).
  exists m. split; [exact H|]. apply Hs. by exists (Some []).
Defined.

(** ** Requests *)

Lemma payload_without_placeholder k v ms :
  List.filter isValidMessage (ms ++ [createLoadingAssistantMessage k v]) = List.filter isValidMessage ms.
Proof. rewrite List.filter_app. cbn. by rewrite app_nil_r. Qed.

Lemma sendChat_requests config en st ms starts :
  requests (sendChat config en st ms starts) = requests st ++ [buildChatCompletionPayload ms config en].
Proof. unfold sendChat, sendStreamingChat, sendStreamRequest. by destruct (stream config), starts. Qed.

Lemma sendChat_messages config en st ms : messages (sendChat config en st ms true) = messages st.
Proof. unfold sendChat, sendStreamingChat, sendStreamRequest. by destruct (stream config). Qed.

(** A request carries the conversation up to the question. Sending a text
    sends the valid messages of the conversation and the text as the user's, in
    order and without the placeholder, and appends the two messages; regenerating
    an answer sends the valid messages before it, and what followed it is dropped. *)
Theorem request_carries_conversation config en nanoid st :
  (∀ text, let st' := handleSendMessage config en nanoid st text true in
     ∃ r, requests st' = requests st ++ [r]
       ∧ req_messages r = map formatMessageForAPI (List.filter isValidMessage (messages st)) ++ [mkChat user (Text text)]
       ∧ req_model r = model config ∧ req_group r = group config ∧ req_stream r = stream config
       ∧ map key (messages st')
         = map key (messages st) ++ [nanoid (next_id st); nanoid (2 + next_id st)%nat])
  ∧ (∀ m i, findIndex (key m) (messages st) = Some i →
     let st' := handleRegenerateMessage config en nanoid st m true in
     ∃ r, requests st' = requests st ++ [r]
       ∧ req_messages r = map formatMessageForAPI (List.filter isValidMessage (take i (messages st)))
       ∧ messages st' = take i (messages st) ++ [loadingMessage nanoid (next_id st)]).
Proof.
  split.
  - intros text. cbn zeta. eexists. split; [unfold handleSendMessage; by rewrite sendChat_requests|]. cbn [req_messages buildChatCompletionPayload].
    split; [|split_and!; try done].
    + unfold loadingMessage. change (messages st ++ [?u; ?a]) with (messages st ++ ([u] ++ [a])). rewrite app_assoc, payload_without_placeholder.
      rewrite List.filter_app, map_app. done.
    + unfold handleSendMessage. rewrite sendChat_messages. cbn. by rewrite map_app.
  - intros m i Hi. unfold handleRegenerateMessage. rewrite Hi. cbn zeta. eexists. split; [by rewrite sendChat_requests|].
    cbn [req_messages buildChatCompletionPayload]. unfold loadingMessage. rewrite payload_without_placeholder. split; [done|].
    by rewrite sendChat_messages.
Qed.

Lemma foldl_addParameter c e ks k acc :
  NoDup ks →
  map_get k (foldl (addParameter c e) acc ks)
  = match (if bool_decide (k ∈ ks) && enabledOf e k then configOf c k else None) with
    | Some v => Some v | None => map_get k acc end.
Proof.
  intros Hd. revert acc. induction Hd as [|x ks Hx Hd IH]; intros acc; cbn [foldl].
  - by rewrite (bool_decide_false (k ∈ [])) by set_solver.
  - rewrite IH. unfold addParameter. destruct (decide (k = x)) as [->|Hne].
    + rewrite (bool_decide_false (x ∈ ks)), (bool_decide_true (x ∈ x :: ks)) by set_solver. cbn [andb].
      destruct (enabledOf e x); [|done]. destruct (configOf c x); [by rewrite map_get_set_eq|done].
    + rewrite (bool_decide_ext (k ∈ x :: ks) (k ∈ ks)) by set_solver.
      replace (map_get k (if enabledOf e x then _ else acc)) with (map_get k acc); [done|].
      destruct (enabledOf e x); [|done]. destruct (configOf c x); [|done]. by rewrite map_get_set_ne.
Qed.

(** The request has exactly the enabled parameters. A parameter is sent when
    it is one of the six, enabled and not null, with the value of the
    configuration; anything else is absent. *)
Theorem request_parameters_exact ms c e k :
  map_get k (req_params (buildChatCompletionPayload ms c e))
  = if bool_decide (k ∈ parameterKeys) && enabledOf e k then configOf c k else None.
Proof.
  cbn [req_params buildChatCompletionPayload]. rewrite foldl_addParameter.
  - match goal with |- _ = ?o => by destruct o end.
  - apply (bool_decide_unpack _). by vm_compute.
Qed.

(** ** Messages stay fit for storage *)

Notation good ms := (Forall (fun m => good_message m = true) ms).

Lemma zero_printable : num_back json_number (S754_zero false) = true.
Proof. by vm_compute. Qed.

Lemma good_parts m : good_message m = true ↔ wf_message m = true ∧ printable m = true.
Proof. apply andb_true_iff. Qed.

Lemma good_content m c : good_message m = true → good_message (updateCurrentVersionContent m c) = true.
Proof. rewrite !good_parts. intros [H1 H2]. split; [by apply updateCurrentVersionContent_wf|done]. Qed.

Lemma good_finalize m r : good_message m = true → good_message (finalizeMessage m r) = true.
Proof.
  rewrite !good_parts. intros [H1 H2]. split; [by apply finalizeMessage_wf|]. unfold printable in *. cbn.
  destruct (nonempty _); [|done]. cbn. destruct (reasoning m) as [q|]; [|apply zero_printable].
  unfold num_or_zero. destruct (num_truthy _); [done|apply zero_printable].
Qed.

(** Reasoning of no duration. *)
Lemma good_reasoning m t :
  good_message m = true → good_message (with_reasoning m (Some (mkReasoning t (S754_zero false)))) = true.
Proof.
  rewrite !good_parts. unfold wf_message. cbn. rewrite !andb_true_iff. intros [[H _] _]. split; [by split|].
  apply zero_printable.
Qed.

Lemma good_streamUpdater t c m : good_message m = true → good_message (streamUpdater t c m) = true.
Proof.
  intros H. unfold streamUpdater. case_bool_decide; [done|]. destruct t.
  - by apply (good_reasoning _ (or_str (r_content <$> reasoning m) [] ++ c)) in H.
  - unfold processStreamingContent. set (txt := content (getCurrentVersion m) ++ c).
    apply (good_content _ txt) in H. destruct (nonempty _); [by apply (good_reasoning _ (think_reasoning (parseThinkTags txt))) in H|done].
Qed.

Lemma good_completeUpdater m : good_message m = true → good_message (completeUpdater m) = true.
Proof. intros H. unfold completeUpdater. destruct (_ || _); [done|]. by apply (good_finalize m None) in H. Qed.
Lemma good_stopUpdater m : good_message m = true → good_message (stopUpdater m) = true.
Proof. intros H. unfold stopUpdater. destruct (_ || _); [|done]. by apply (good_finalize m None) in H. Qed.
Lemma good_answerUpdater c m : good_message m = true → good_message (answerUpdater c m) = true.
Proof.
  intros H. unfold answerUpdater. cbv zeta.
  match goal with |- context [finalizeMessage (with_versions m [mkVersion _ ?t]) ?r] =>
    exact (good_finalize (updateCurrentVersionContent m t) r (good_content m t H)) end.
Qed.

Lemma good_update ms f :
  (∀ m, good_message m = true → good_message (f m) = true) → good ms → good (updateLastAssistantMessage ms f).
Proof.
  intros Hf H. destruct (update_last_cases ms f) as [->|(l & m & -> & _ & ->)]; [done|].
  apply Forall_app in H as [H1 H2]. apply Forall_cons in H2 as [H2 _]. apply Forall_app. split; [done|].
  constructor; [by apply Hf|constructor].
Qed.

Lemma good_error ms e c : good ms → good (updateAssistantMessageWithError ms e c).
Proof.
  intros H. apply good_update; [|done]. intros m Hm.
  by apply (good_content m (API_REQUEST_ERROR ++ js ": " ++ e)) in Hm.
Qed.

#[export] Hint Resolve good_streamUpdater good_completeUpdater good_stopUpdater good_answerUpdater
  good_update good_error : js.

Lemma good_handleError st src e c : good (messages st) → good (messages (handleError st src e c)).
Proof. intros H. unfold handleError. destruct (isStreamComplete st); [done|]. cbn. auto with js. Qed.
#[export] Hint Resolve good_handleError : js.

Lemma good_step st e : good (messages st) → good (messages (step st e)).
Proof.
  intros H. destruct e as [src d|src r d|src r s|a|]; cbn [step].
  - unfold onMessage. case_bool_decide; [cbn; auto with js|].
    destruct (parseChunk d) as [[[r|] [c|]]|]; cbn; auto with js.
  - unfold onErrorEvent. destruct (negb _); [|done]. destruct (parseErrorData d). auto with js.
  - unfold onReadyStateChange. destruct r, s; auto. destruct (_ && _); auto with js.
  - unfold onAnswer. destruct a; [destruct (mjoin _)|]; cbn; auto with js.
  - cbn. rewrite stopStream_messages. auto with js.
Qed.

Section handlers.
Context (config : PlaygroundConfig) (en : ParameterEnabled) (nanoid : nat → jsstr).
Context (Hnano : ∀ n, nonblank (nanoid n) = true).

Lemma good_created n : good_message (loadingMessage nanoid n) = true
  ∧ ∀ text, good_message (createUserMessage (nanoid n) (nanoid (S n)) text) = true.
Proof. split; intros; unfold good_message, wf_message; cbn; by rewrite !Hnano. Qed.

Lemma good_sendChat st ms starts :
  good (messages st) → good (messages (sendChat config en st ms starts)).
Proof. intros H. unfold sendChat, sendStreamingChat, sendStreamRequest. destruct (stream config), starts; cbn; auto with js. Qed.

Lemma good_snoc l n : good l → good (l ++ [loadingMessage nanoid n]).
Proof. intros H. apply Forall_app. split; [done|]. constructor; [apply good_created|constructor]. Qed.

Lemma good_edit k c m n : good_message m = true → good_message (editMessage nanoid k c m n).1 = true.
Proof.
  intros H. unfold editMessage. case_bool_decide; [|done].
  assert (Hw := good_content m c H). unfold updateCurrentVersionContent, getCurrentVersion in Hw.
  destruct (versions m) as [|v vs] eqn:Ev; [|done].
  apply good_parts in H as [H _]. unfold wf_message in H. rewrite Ev in H. cbn in H. by rewrite andb_false_r in H.
Qed.

Lemma good_edits k c ms n : good ms → good (editMessages nanoid k c ms n).1.
Proof.
  intros H. revert n. induction H as [|m ms Hm H IH]; intros n; cbn; [constructor|].
  pose proof (good_edit k c m n Hm) as He. destruct (editMessage nanoid k c m n) as [m' n1]. specialize (IH n1).
  destruct (editMessages nanoid k c ms n1) as [l n2]. by constructor.
Qed.

Lemma good_applyEdit st c submit starts :
  good (messages st) → good (messages (applyEdit config en nanoid st c submit starts)).
Proof.
  intros H. unfold applyEdit. destruct (editingMessageKey st) as [[|x k]|]; try done.
  destruct (findIndex _ _) as [i|]; [|done]. pose proof (good_edits (x :: k) c (messages st) (next_id st) H) as He.
  destruct (editMessages _ _ _ _ _) as [l n]. cbn in He. destruct (l !! i) as [m|]; [|done].
  destruct (_ || _); [done|]. apply good_sendChat, good_snoc. cbn. by apply Forall_take.
Qed.
End handlers.

(** Every operation keeps the messages fit for storage. Any event and any
    handler of the page leads from messages that are saved and loaded unchanged to
    such messages, when fresh identifiers are not blank. *)
Theorem session_keeps_good config en nanoid st :
  (∀ n, nonblank (nanoid n) = true) → good (messages st) →
  (∀ l, good (messages (run st l)))
  ∧ (∀ text starts, good (messages (handleSendMessage config en nanoid st text starts)))
  ∧ (∀ m starts, good (messages (handleRegenerateMessage config en nanoid st m starts)))
  ∧ (∀ c submit starts, good (messages (applyEdit config en nanoid st c submit starts)))
  ∧ (∀ m, good (messages (handleDeleteMessage st m))).
Proof.
  intros Hn H. split_and!.
  - intros l. unfold run. revert st H. induction l as [|e l IH]; intros st H; [done|]. by apply IH, good_step.
  - intros text starts. apply good_sendChat. cbn. apply Forall_app. split; [done|].
    constructor; [by apply good_created|]. constructor; [by apply good_created|constructor].
  - intros m starts. unfold handleRegenerateMessage. destruct (findIndex _ _) as [i|]; [|done].
    apply good_sendChat, good_snoc; [done|]. by apply Forall_take.
  - intros c submit starts. by apply good_applyEdit.
  - intros m. cbn. apply Forall_forall. intros x Hx. apply elem_of_List_filter in Hx as [Hx _].
    by apply (proj1 (Forall_forall _ _) H).
Qed.

Lemma session_keeps_good_witness :
  good (messages (handleSendMessage DEFAULT_CONFIG DEFAULT_PARAMETER_ENABLED (fun _ => js "id") empty_session (js "hi") false)).
Proof.
  apply (session_keeps_good DEFAULT_CONFIG DEFAULT_PARAMETER_ENABLED (fun _ => js "id") empty_session).
  - intros n. reflexivity.
  - constructor.
Defined.
End PlaygroundSession.
