(* ===== verification/IntNum.v ===== *)
(** * Integers among JavaScript numbers

    Addition and subtraction of Numbers are exact on integers as long as operands
    and results stay below [2 ^ 53] in absolute value, and comparison agrees with
    that of the integers. Sums of counters are therefore sums of integers. *)

From S2P Require Import Prelude JsNum.
From Stdlib Require Import Floats.SpecFloat.
From Stdlib Require Import PArith ZArith.

(** [a + b], [a - b], [a * b] and [a / b]. *)
Definition num_add (a b : num) : num := SFadd prec emax a b.
Definition num_sub (a b : num) : num := SFsub prec emax a b.
Definition num_mul (a b : num) : num := SFmul prec emax a b.
Definition num_div (a b : num) : num := SFdiv prec emax a b.

(** [Math.round]: to the nearest integer, halves upwards. *)
Definition Math_round (x : num) : num :=
  match x with
  | S754_finite s m e =>
      if (0 <=? e)%Z then x
      else
        let d := (2 ^ (- e))%Z in
        let v := (if s then - Z.pos m else Z.pos m)%Z in
        let n := ((2 * v + d) / (2 * d))%Z in
        if (n =? 0)%Z then S754_zero s else num_of_Z n
  | _ => x
  end.

(** The integers a Number represents without rounding, and on which addition is
    closed while the result is one of them. *)
Definition safe (z : Z) : Prop := (- 2 ^ 53 < z < 2 ^ 53)%Z.

(** ** Shifted mantissas *)

Definition shl (k : nat) (m : positive) : positive := Nat.iter k xO m.

Lemma shl_add j k m : shl j (shl k m) = shl (j + k) m.
Proof. unfold shl. by rewrite Nat.iter_add. Qed.

Lemma shl_iter m p : Pos.iter xO m p = shl (Pos.to_nat p) m.
Proof. apply Pos2Nat.inj_iter. Qed.

Lemma shl_Z k m : Z.pos (shl k m) = (Z.pos m * 2 ^ Z.of_nat k)%Z.
Proof.
  induction k as [|k IH]; [cbn; lia|]. rewrite Nat2Z.inj_succ, Z.pow_succ_r by lia.
  change (shl (S k) m) with (xO (shl k m)). rewrite Pos2Z.inj_xO. lia.
Qed.

Lemma digits_shl k m : Z.pos (digits2_pos (shl k m)) = (Z.pos (digits2_pos m) + Z.of_nat k)%Z.
Proof.
  induction k as [|k IH]; [change (shl 0 m) with m; lia|]. change (shl (S k) m) with (xO (shl k m)). cbn [digits2_pos]. lia.
Qed.

Lemma digits_bounds m :
  (2 ^ (Z.pos (digits2_pos m) - 1) <= Z.pos m < 2 ^ Z.pos (digits2_pos m))%Z.
Proof.
  assert (Hs : ∀ p, (2 ^ Z.pos (Pos.succ p) = 2 * 2 ^ Z.pos p)%Z).
  { intros p. rewrite Pos2Z.inj_succ, Z.pow_succ_r; lia. }
  assert (Hp : ∀ p, (2 ^ (Z.pos (Pos.succ p) - 1) = 2 * 2 ^ (Z.pos p - 1))%Z).
  { intros p. replace (Z.pos (Pos.succ p) - 1)%Z with (Z.succ (Z.pos p - 1)) by lia. apply Z.pow_succ_r. lia. }
  induction m as [m IH|m IH|]; cbn [digits2_pos]; [| |done]; rewrite Hs, Hp; lia.
Qed.

Lemma digits_le m : (Z.pos m < 2 ^ 53)%Z → (Z.pos (digits2_pos m) <= 53)%Z.
Proof.
  intros H. destruct (digits_bounds m) as [Hl _]. apply Z.lt_pred_le.
  destruct (Z.lt_ge_cases (Z.pred 53) (Z.pos (digits2_pos m))) as [Hd|Hd]; [|lia].
  apply Z.nle_gt. intros Hc. assert (H2 : (2 ^ 53 <= 2 ^ (Z.pos (digits2_pos m) - 1))%Z) by (apply Z.pow_le_mono_r; lia).
  lia.
Qed.

(** ** Shifting right *)

Lemma iter_pos_nat {A} (f : A → A) (p : positive) (x : A) : SpecFloat.iter_pos f p x = Nat.iter (Pos.to_nat p) f x.
Proof.
  revert x. induction p as [p IH|p IH|]; intros x; cbn [SpecFloat.iter_pos]; rewrite ?IH.
  - rewrite Pos2Nat.inj_xI, <- Nat.iter_add. replace (S (2 * Pos.to_nat p)) with (Pos.to_nat p + Pos.to_nat p + 1)%nat by lia.
    by rewrite (Nat.iter_add _ 1).
  - rewrite Pos2Nat.inj_xO, <- Nat.iter_add. f_equal. lia.
  - done.
Qed.

Definition exact (m : positive) : shr_record := Build_shr_record (Z.pos m) false false.

Lemma shr_shl j k m : Nat.iter j shr_1 (exact (shl (j + k) m)) = exact (shl k m).
Proof.
  induction j as [|j IH] in k |- *; [done|]. change (S j + k)%nat with (S (j + k)).
  rewrite <- Nat.add_succ_r. rewrite Nat.iter_succ, IH. done.
Qed.

(** ** Canonical representation *)

Definition canon (s : bool) (m : positive) : num :=
  let d := Z.pos (digits2_pos m) in S754_finite s (shl (Z.to_nat (53 - d)) m) (d - 53).

Lemma fexp_small d : (-1000 <= d <= 1000)%Z → fexp prec emax d = (d - 53)%Z.
Proof. intros H. unfold fexp, emin, prec, emax. lia. Qed.

Lemma shr_fexp_exact m k :
  let d := Z.pos (digits2_pos m) in
  (d <= 53)%Z → (53 - d <= Z.of_nat k <= 900)%Z →
  shr_fexp prec emax (Z.pos (shl k m)) (- Z.of_nat k) loc_Exact = (exact (shl (Z.to_nat (53 - d)) m), (d - 53)%Z).
Proof.
  intros d Hd Hk. unfold shr_fexp. cbn [Zdigits2]. rewrite digits_shl. fold d. rewrite fexp_small by lia.
  replace (d + Z.of_nat k + - Z.of_nat k - 53 - - Z.of_nat k)%Z with (Z.of_nat k - (53 - d))%Z by lia.
  cbn [shr_record_of_loc]. fold (exact (shl k m)).
  destruct (Z.of_nat k - (53 - d))%Z as [|p|p] eqn:E; cbn [shr]; [| |lia].
  - f_equal; [do 2 f_equal|]; lia.
  - rewrite iter_pos_nat. replace k with (Pos.to_nat p + Z.to_nat (53 - d))%nat at 1 by lia. rewrite shr_shl.
    f_equal. lia.
Qed.

Lemma round_aux_canon s m k :
  let d := Z.pos (digits2_pos m) in
  (d <= 53)%Z → (53 - d <= Z.of_nat k <= 900)%Z →
  binary_round_aux prec emax s (Z.pos (shl k m)) (- Z.of_nat k) loc_Exact = canon s m.
Proof.
  intros d Hd Hk. unfold binary_round_aux. rewrite shr_fexp_exact by (fold d; lia). fold d.
  cbn [exact loc_of_shr_record round_nearest_even shr_m].
  replace (d - 53)%Z with (- Z.of_nat (Z.to_nat (53 - d)))%Z by lia.
  rewrite shr_fexp_exact by (fold d; lia). fold d. cbn [exact shr_m].
  rewrite (proj2 (Z.leb_le (d - 53) (emax - prec))) by (unfold emax, prec; lia). done.
Qed.

Lemma round_canon s m k :
  (Z.pos (digits2_pos m) <= 53)%Z → (Z.of_nat k <= 900)%Z →
  binary_round prec emax s (shl k m) (- Z.of_nat k) = canon s m.
Proof.
  intros Hd Hk. set (d := Z.pos (digits2_pos m)) in *. 
  unfold binary_round. rewrite digits_shl. fold d. rewrite fexp_small by lia.
  replace (d + Z.of_nat k + - Z.of_nat k - 53)%Z with (d - 53)%Z by lia. unfold shl_align.
  destruct (d - 53 - - Z.of_nat k)%Z as [|p|p] eqn:E.
  - apply round_aux_canon; fold d; lia.
  - apply round_aux_canon; fold d; lia.
  - rewrite shl_iter, shl_add. replace (d - 53)%Z with (- Z.of_nat (Pos.to_nat p + k))%Z by lia.
    apply round_aux_canon; fold d; lia.
Qed.

Lemma num_of_Z_pos m : safe (Z.pos m) → num_of_Z (Z.pos m) = canon false m.
Proof. intros H. apply (round_canon false m 0); [apply digits_le; unfold safe in H|]; lia. Qed.
Lemma num_of_Z_neg m : safe (Z.neg m) → num_of_Z (Z.neg m) = canon true m.
Proof. intros H. apply (round_canon true m 0); [apply digits_le; unfold safe in H|]; lia. Qed.

(** An integer scaled by a power of two below it. *)
Lemma normalize_scaled z k :
  safe z → (Z.of_nat k <= 900)%Z → binary_normalize prec emax (z * 2 ^ Z.of_nat k) (- Z.of_nat k) false = num_of_Z z.
Proof.
  intros Hz Hk. destruct z as [|m|m]; [done| |].
  - rewrite <- shl_Z, num_of_Z_pos by done. apply round_canon; [|done]. apply digits_le. unfold safe in Hz. lia.
  - rewrite num_of_Z_neg by done. replace (Z.neg m * 2 ^ Z.of_nat k)%Z with (Z.neg (shl k m)) by (pose proof (shl_Z k m); lia).
    apply round_canon; [|done]. apply digits_le. unfold safe in Hz. lia.
Qed.

(** ** Exact sums and differences *)

(** The aligned mantissa of an integer. *)
Lemma align_canon m k :
  let d := Z.pos (digits2_pos m) in
  (d <= 53)%Z → (53 - d <= Z.of_nat k)%Z →
  (shl_align (shl (Z.to_nat (53 - d)) m) (d - 53) (- Z.of_nat k)).1 = shl k m.
Proof.
  intros d Hd Hk. unfold shl_align. destruct (- Z.of_nat k - (d - 53))%Z as [|p|p] eqn:E; cbn [fst]; [| |].
  - f_equal. lia.
  - lia.
  - rewrite shl_iter, shl_add. f_equal. lia.
Qed.

(** A nonzero integer, as its sign and magnitude. *)
Definition signed (s : bool) (m : positive) : Z := cond_Zopp s (Z.pos m).

Lemma num_of_signed s m : safe (signed s m) → num_of_Z (signed s m) = canon s m.
Proof. destruct s; [apply num_of_Z_neg|apply num_of_Z_pos]. Qed.

Lemma signed_shl s k m : cond_Zopp s (Z.pos (shl k m)) = (signed s m * 2 ^ Z.of_nat k)%Z.
Proof. unfold signed. rewrite shl_Z. destruct s; cbn [cond_Zopp]; lia. Qed.

Lemma Z_signed z : z = 0%Z ∨ ∃ s m, z = signed s m.
Proof. destruct z as [|m|m]; [by left|right; by exists false, m|right; by exists true, m]. Qed.

Lemma safe_digits s m : safe (signed s m) → (Z.pos (digits2_pos m) <= 53)%Z.
Proof. intros H. apply digits_le. unfold safe, signed in H. destruct s; cbn [cond_Zopp] in H; lia. Qed.

(** Two nonzero integers are aligned to a common power of two. *)
Lemma aligned s m s' m' :
  safe (signed s m) → safe (signed s' m') →
  ∃ k, (Z.of_nat k <= 900)%Z ∧
    let d := Z.pos (digits2_pos m) in let d' := Z.pos (digits2_pos m') in
    Z.min (d - 53) (d' - 53) = (- Z.of_nat k)%Z ∧
    cond_Zopp s (Z.pos (shl_align (shl (Z.to_nat (53 - d)) m) (d - 53) (- Z.of_nat k)).1) = (signed s m * 2 ^ Z.of_nat k)%Z ∧
    cond_Zopp s' (Z.pos (shl_align (shl (Z.to_nat (53 - d')) m') (d' - 53) (- Z.of_nat k)).1) = (signed s' m' * 2 ^ Z.of_nat k)%Z.
Proof.
  intros H H'. apply safe_digits in H, H'.
  exists (Z.to_nat (53 - Z.min (Z.pos (digits2_pos m)) (Z.pos (digits2_pos m')))). split; [lia|]. cbn zeta.
  split; [lia|]. split; rewrite align_canon by lia; apply signed_shl.
Qed.

Theorem num_add_Z a b : safe a → safe b → safe (a + b) → num_add (num_of_Z a) (num_of_Z b) = num_of_Z (a + b).
Proof.
  intros Ha Hb Hab. destruct (Z_signed a) as [->|(s & m & ->)].
  { destruct (Z_signed b) as [->|(s' & m' & ->)]; [done|]. rewrite Z.add_0_l, num_of_signed by done. done. }
  destruct (Z_signed b) as [->|(s' & m' & ->)]; [by rewrite Z.add_0_r, num_of_signed by done|].
  rewrite !num_of_signed by done. destruct (aligned _ _ _ _ Ha Hb) as (k & Hk & E & E1 & E2). cbn zeta in *.
  unfold num_add, canon, SFadd. cbn zeta. rewrite E, E1, E2, <- Z.mul_add_distr_r. by apply normalize_scaled.
Qed.

Theorem num_sub_Z a b : safe a → safe b → safe (a - b) → num_sub (num_of_Z a) (num_of_Z b) = num_of_Z (a - b).
Proof.
  intros Ha Hb Hab. destruct (Z_signed a) as [->|(s & m & ->)].
  { destruct (Z_signed b) as [->|(s' & m' & ->)]; [done|].
    replace (0 - signed s' m')%Z with (signed (negb s') m') in * by (unfold signed; destruct s'; cbn [negb cond_Zopp]; lia).
    rewrite !num_of_signed by done. done. }
  destruct (Z_signed b) as [->|(s' & m' & ->)]; [by rewrite Z.sub_0_r, num_of_signed by done|].
  rewrite !num_of_signed by done. destruct (aligned _ _ _ _ Ha Hb) as (k & Hk & E & E1 & E2). cbn zeta in *.
  unfold num_sub, canon, SFsub. cbn zeta. rewrite E, E1, E2, <- Z.mul_sub_distr_r. by apply normalize_scaled.
Qed.

(** ** Signs and comparison *)

(** The sign of a comparator's result, as a sort reads it: NaN counts as zero. *)
Definition num_sign (x : num) : Z :=
  match x with
  | S754_zero _ | S754_nan => 0
  | S754_infinity s | S754_finite s _ _ => if s then -1 else 1
  end%Z.

Lemma num_sign_Z z : safe z → num_sign (num_of_Z z) = Z.sgn z.
Proof.
  intros H. destruct (Z_signed z) as [->|(s & m & ->)]; [done|]. rewrite num_of_signed by done. by destruct s.
Qed.

Lemma num_truthy_Z z : safe z → num_truthy (num_of_Z z) = negb (z =? 0)%Z.
Proof. intros H. destruct (Z_signed z) as [->|(s & m & ->)]; [done|]. rewrite num_of_signed by done. by destruct s. Qed.

Lemma num_finite_Z z : safe z → num_is_finite (num_of_Z z) = true.
Proof. intros H. destruct (Z_signed z) as [->|(s & m & ->)]; [done|]. by rewrite num_of_signed. Qed.

(** [x > 0]. *)
Definition num_pos (x : num) : bool := num_ltb (S754_zero false) x.

Lemma num_pos_Z z : safe z → num_pos (num_of_Z z) = (0 <? z)%Z.
Proof.
  intros H. destruct (Z_signed z) as [->|(s & m & ->)]; [done|]. rewrite num_of_signed by done. by destruct s.
Qed.

(** The integer read back. *)
Lemma num_to_Z_of z : safe z → num_to_Z (num_of_Z z) = z.
Proof.
  intros H. destruct (Z_signed z) as [->|(s & m & ->)]; [done|]. rewrite num_of_signed by done.
  apply safe_digits in H. unfold canon, num_to_Z. cbn zeta. set (d := Z.pos (digits2_pos m)) in *.
  assert ((if (0 <=? d - 53)%Z then (Z.pos (shl (Z.to_nat (53 - d)) m) * 2 ^ (d - 53))%Z
           else (Z.pos (shl (Z.to_nat (53 - d)) m) / 2 ^ (- (d - 53)))%Z) = Z.pos m) as ->; [|by destruct s].
  rewrite shl_Z, Z2Nat.id by lia. destruct (Z.leb_spec 0 (d - 53)).
  - replace d with 53%Z by lia. cbn. lia.
  - replace (- (d - 53))%Z with (53 - d)%Z by lia. apply Z.div_mul. lia.
Qed.

Lemma num_of_Z_inj a b : safe a → safe b → num_of_Z a = num_of_Z b → a = b.
Proof. intros Ha Hb E. rewrite <- (num_to_Z_of a Ha), <- (num_to_Z_of b Hb). by rewrite E. Qed.

(** ** Sums of integers *)

Definition zsum (l : list Z) : Z := foldr Z.add 0%Z l.

Lemma zsum_app l l' : zsum (l ++ l') = (zsum l + zsum l')%Z.
Proof. induction l as [|x l IH]; cbn [zsum foldr app] in *; [done|]. unfold zsum in *. lia. Qed.

Lemma zsum_perm l l' : l ≡ₚ l' → zsum l = zsum l'.
Proof. induction 1; unfold zsum in *; cbn [foldr]; lia. Qed.

Lemma zsum_nonneg l : Forall (Z.le 0) l → (0 <= zsum l)%Z.
Proof. induction 1; unfold zsum in *; cbn [foldr]; lia. Qed.

(** A fold of additions over integers is exact while the total is safe. *)
Lemma foldl_add_exact zs a :
  (0 <= a)%Z → Forall (Z.le 0) zs → safe (a + zsum zs) →
  foldl num_add (num_of_Z a) (map num_of_Z zs) = num_of_Z (a + zsum zs).
Proof.
  intros Ha Hzs. revert a Ha. induction Hzs as [|z zs Hz Hzs IH]; intros a Ha Hs; [by rewrite Z.add_0_r|].
  cbn [map foldl]. change (zsum (z :: zs)) with (z + zsum zs)%Z in *.
  pose proof (zsum_nonneg zs Hzs). unfold safe in *.
  rewrite num_add_Z by (unfold safe; lia). rewrite IH by lia. f_equal. lia.
Qed.

Section grouping.
Context {E K : Type} `{EqDecision K} (key : E → K) (w : E → Z).

Definition in_group (k : K) (es : list E) : list E := List.filter (fun e => bool_decide (key e = k)) es.

Lemma zsum_map_bump (g : K → Z) k0 c ks :
  NoDup ks → k0 ∈ ks →
  zsum (map (fun k => (if bool_decide (k0 = k) then c else 0) + g k)%Z ks) = (c + zsum (map g ks))%Z.
Proof.
  induction ks as [|k ks IH]; [set_solver|]. intros [Hk Hks]%NoDup_cons Hin. unfold zsum in *. cbn [map foldr].
  destruct (decide (k0 = k)) as [->|Hne].
  - rewrite bool_decide_true by done. assert (foldr Z.add 0%Z (map (fun k' => (if bool_decide (k = k') then c else 0) + g k')%Z ks)
      = foldr Z.add 0%Z (map g ks)) as ->; [|lia]. f_equal. apply map_ext_in. intros k' Hk'%list_elem_of_In.
    rewrite bool_decide_false by (intros ->; done). lia.
  - rewrite bool_decide_false by done. rewrite IH by (done || set_solver). lia.
Qed.

(** Summing per group, over groups that cover the events, sums the events. *)
Lemma zsum_groups ks es :
  NoDup ks → Forall (fun e => key e ∈ ks) es →
  zsum (map (fun k => zsum (map w (in_group k es))) ks) = zsum (map w es).
Proof.
  intros Hks. induction 1 as [|e es He Hes IH].
  - cbn. clear. induction ks as [|k ks IH]; [done|]. unfold zsum in *. cbn [map foldr]. cbn in *. lia.
  - change (zsum (map w (e :: es))) with (w e + zsum (map w es))%Z. rewrite <- IH, <- (zsum_map_bump _ (key e) (w e) ks) by done.
    f_equal. apply map_ext. intros k. unfold in_group. cbn [List.filter]. destruct (bool_decide (key e = k)) eqn:Eb; [|done].
    cbn [map]. done.
Qed.
End grouping.

Lemma zsum_filter_le {A} (f : A → Z) (q : A → bool) l :
  Forall (fun x => (0 <= f x)%Z) l → (zsum (map f (List.filter q l)) <= zsum (map f l))%Z.
Proof. induction 1; unfold zsum in *; cbn [List.filter map foldr]; [done|]. destruct (q _); cbn [map foldr]; lia. Qed.
