(* ===== verification/Flow.v ===== *)
(** * Usage flows: rows, stages, paths and filters

    The first half of features/dashboard/lib/flow.ts, with the types of
    features/dashboard/types.ts and the palette of lib/colors.ts: a row of usage
    becomes a path with one node per visible stage; users and nodes filter rows;
    colours are assigned to keys in a stable way. The comparison of texts by locale
    is a parameter of the definitions that sort. *)

From S2P Require Import Prelude JsNum IntNum Json NumText.
From Stdlib Require Import Floats.SpecFloat.

(** ** Types *)

Record FlowQuotaDataItem := mkRow {
  user_id : option num; username : option jsstr; node_name : option jsstr; use_group : option jsstr;
  token_id : option num; token_name : option jsstr; channel_id : option num; channel_name : option jsstr;
  model_name : option jsstr; token_used : option num; count : option num; quota_used : option num
}.

Inductive FlowMetric := MQuota | MTokens | MRequests.
Inductive FlowOverflowMode := Aggregate | Hide.
Inductive FlowRole := RUser | RAdmin | RRoot.
Inductive FlowNodeKind := KUser | KNode | KToken | KGroup | KModel | KChannel.

#[export] Instance FlowMetric_eq_dec : EqDecision FlowMetric.
Proof. solve_decision. Defined.
#[export] Instance FlowOverflowMode_eq_dec : EqDecision FlowOverflowMode.
Proof. solve_decision. Defined.
#[export] Instance FlowNodeKind_eq_dec : EqDecision FlowNodeKind.
Proof. solve_decision. Defined.

(** The text a kind is in the source. *)
Definition kind_text (k : FlowNodeKind) : jsstr :=
  match k with
  | KUser => js "user" | KNode => js "node" | KToken => js "token"
  | KGroup => js "group" | KModel => js "model" | KChannel => js "channel"
  end.

Record FlowNodeFilter := mkFilter { f_kind : FlowNodeKind; f_id : jsstr }.
Record FlowLinkSelection := mkSelection { sel_source : jsstr; sel_target : jsstr }.
Record FlowMetrics := mkMetrics { quota : num; tokens : num; requests : num }.
Record FlowPathNode := mkPathNode { id : jsstr; label : jsstr; kind : FlowNodeKind }.

(** [deletedTokenLabel] of a path context; [None] when the caller gives none. *)
Definition FlowPathContext := option (num → jsstr).
Definition EMPTY_FLOW_PATH_CONTEXT : FlowPathContext := None.

Definition FLOW_NODE_KINDS : list FlowNodeKind := [KUser; KNode; KToken; KGroup; KModel; KChannel].

(** ** Values *)

Definition numberValue (value : option json) : num :=
  let n := Number_value value in if num_is_finite n then n else S754_zero false.

Definition isFlowNodeKind (value : option json) : option FlowNodeKind :=
  match value with
  | Some (JStr s) => List.find (fun k => bool_decide (kind_text k = s)) FLOW_NODE_KINDS
  | _ => None
  end.

(** A numeric field of a row. *)
Definition num_field (x : option num) : num := numberValue (JNum <$> x).
(** [x || fallback] of an optional text. *)
Definition text_or (x : option jsstr) (fallback : jsstr) : jsstr := str_or (default [] x) fallback.

Definition rowMetrics (row : FlowQuotaDataItem) : FlowMetrics :=
  mkMetrics (num_field (quota_used row)) (num_field (token_used row)) (num_field (count row)).

Definition metricValue (m : FlowMetrics) (metric : FlowMetric) : num :=
  match metric with MRequests => requests m | MTokens => tokens m | MQuota => quota m end.

(** ** Nodes of a row *)

Definition userNode (row : FlowQuotaDataItem) : FlowPathNode :=
  let userID := num_field (user_id row) in
  mkPathNode
    (if num_pos userID then js "user:" ++ Number_toString userID else js "user:" ++ text_or (username row) (js "unknown"))
    (text_or (username row) (if num_pos userID then js "user-" ++ Number_toString userID else js "Unknown User"))
    KUser.

Definition nodeNameNode (row : FlowQuotaDataItem) : FlowPathNode :=
  let nodeName := text_or (node_name row) (js "default-node") in
  mkPathNode (js "node:" ++ nodeName) nodeName KNode.

Definition deletedTokenLabel (tokenID : num) (ctx : FlowPathContext) : jsstr :=
  if num_leb tokenID (S754_zero false) then js "Unknown Token"
  else match ctx with
       | Some f => f tokenID
       | None => js "token-" ++ Number_toString tokenID
       end.

Definition tokenNode (row : FlowQuotaDataItem) (ctx : FlowPathContext) : FlowPathNode :=
  let tokenID := num_field (token_id row) in
  mkPathNode
    (if num_pos tokenID then js "token:" ++ Number_toString tokenID
     else js "token:" ++ text_or (token_name row) (js "unknown"))
    (text_or (token_name row) (deletedTokenLabel tokenID ctx))
    KToken.

Definition groupNode (row : FlowQuotaDataItem) : FlowPathNode :=
  let useGroup := text_or (use_group row) (js "unknown") in
  mkPathNode (js "group:" ++ useGroup) useGroup KGroup.

Definition modelNode (row : FlowQuotaDataItem) : FlowPathNode :=
  let m := text_or (model_name row) (js "unknown") in
  mkPathNode (js "model:" ++ m) (text_or (model_name row) (js "Unknown Model")) KModel.

Definition channelNode (row : FlowQuotaDataItem) : FlowPathNode :=
  let channelID := num_field (channel_id row) in
  mkPathNode
    (if num_pos channelID then js "channel:" ++ Number_toString channelID
     else js "channel:" ++ text_or (channel_name row) (js "unknown"))
    (text_or (channel_name row) (if num_pos channelID then js "channel-" ++ Number_toString channelID else js "Unknown"))
    KChannel.

Definition NODE_BUILDERS (k : FlowNodeKind) (row : FlowQuotaDataItem) (ctx : FlowPathContext) : FlowPathNode :=
  match k with
  | KUser => userNode row | KNode => nodeNameNode row | KToken => tokenNode row ctx
  | KGroup => groupNode row | KModel => modelNode row | KChannel => channelNode row
  end.

(** ** Stages *)

Definition ROLE_FLOW_STAGES (role : FlowRole) : list FlowNodeKind :=
  match role with
  | RRoot => [KUser; KNode; KToken; KGroup; KModel; KChannel]
  | RAdmin => [KUser; KGroup; KModel; KChannel]
  | RUser => [KToken; KGroup; KModel]
  end.

Definition MIN_FLOW_STAGES : nat := 2.

Definition getFlowStages (role : FlowRole) : list FlowNodeKind := ROLE_FLOW_STAGES role.

Definition resolveVisibleStages (role : FlowRole) (visibleStages : option (list FlowNodeKind)) : list FlowNodeKind :=
  let stages := getFlowStages role in
  match visibleStages with
  | None => stages
  | Some visibleStages =>
      let visible := set_of visibleStages in
      let filtered := List.filter (fun stage => set_has stage visible) stages in
      if (MIN_FLOW_STAGES <=? length filtered)%nat then filtered else stages
  end.

Definition flowPathForStages (row : FlowQuotaDataItem) (stages : list FlowNodeKind) (ctx : FlowPathContext) :
    list FlowPathNode :=
  map (fun stage => NODE_BUILDERS stage row ctx) stages.

(** ** Colours *)

Definition CHART_COLORS : list jsstr :=
  map js ["#0084ce"; "#d55e00"; "#00986e"; "#c15c94"; "#8473dc"; "#c063b1";
          "#83832c"; "#398f81"; "#cc6576"; "#d24d90"; "#828282"; "#af7a46"]%string.

Definition DEFAULT_FLOW_CHART_COLOR : jsstr := js "#737373".

Definition getChartColor (index : nat) : jsstr := nth (index mod length CHART_COLORS) CHART_COLORS [].

Definition getDashboardChartColors (domainLength : nat) : list jsstr := map getChartColor (seq 0 domainLength).

(** A palette that is given and not empty. *)
Definition given (palette : option (list jsstr)) : option (list jsstr) :=
  match palette with Some (c :: l) => Some (c :: l) | _ => None end.

Definition colorAt (index : nat) (palette : option (list jsstr)) : jsstr :=
  let colors := match given palette with Some l => l | None => getDashboardChartColors (index + 1) end in
  if (length colors =? 0)%nat then DEFAULT_FLOW_CHART_COLOR
  else default DEFAULT_FLOW_CHART_COLOR (colors !! (index mod length colors)%nat).

Definition colorPalette (colorCount : nat) (palette : option (list jsstr)) : list jsstr :=
  match given palette with
  | Some l => l
  | None =>
      let colors := getDashboardChartColors colorCount in
      if (0 <? length colors)%nat then colors else [DEFAULT_FLOW_CHART_COLOR]
  end.

(** [x.toFixed(f)]: the nearest multiple of [10 ^ -f], the larger one of two;
    a Number of [10 ^ 21] or more is printed as usual. *)
Definition fixed_digits (f : nat) (n : N) : jsstr :=
  let ds := print_N n in
  let ds := replicate (S f - length ds) 48%N ++ ds in
  take (length ds - f) ds ++ (if (f =? 0)%nat then [] else 46%N :: drop (length ds - f) ds).

Definition toFixed (x : num) (f : nat) : jsstr :=
  match x with
  | S754_zero _ => fixed_digits f 0
  | S754_finite s m e =>
      let '(a, b) := if (0 <=? e)%Z then (Z.pos m * 2 ^ e, 1)%Z else (Z.pos m, 2 ^ (- e))%Z in
      let n := Z.to_N ((2 * a * 10 ^ Z.of_nat f + b) / (2 * b)) in
      if (10 ^ 21 * b <=? a)%Z then Number_toString x else
      (if s then js "-" else []) ++ fixed_digits f n
  | _ => Number_toString x
  end.

Definition is_hex (c : N) : bool := match hex_val c with Some _ => true | None => false end.

Definition alphaColor (color : jsstr) (alpha : num) : jsstr * num :=
  let normalized := trim color in
  let hex := if starts_with (js "#") normalized then drop 1 normalized else normalized in
  if negb ((length hex =? 6)%nat && forallb is_hex hex) then (normalized, alpha)
  else
    let value := Z.of_N (default 0%N (take_hex_like 16 hex)) in
    let red := Z.land (Z.shiftr value 16) 255 in
    let green := Z.land (Z.shiftr value 8) 255 in
    let blue := Z.land value 255 in
    (js "rgba(" ++ print_N (Z.to_N red) ++ js ", " ++ print_N (Z.to_N green) ++ js ", " ++ print_N (Z.to_N blue)
       ++ js ", " ++ toFixed alpha 2 ++ js ")", num_of_Z 1).

Definition stableColorMap (keys : list jsstr) (palette : option (list jsstr)) : list (jsstr * jsstr) :=
  let uniqueKeys := set_of keys in
  let colors := colorPalette (length uniqueKeys) palette in
  foldl (fun m ki => map_set ki.1 (colorAt ki.2 (Some colors)) m) []
    (zip uniqueKeys (seq 0 (length uniqueKeys))).

(** ** Filters *)

Definition filterRows (rows : list FlowQuotaDataItem) (selectedUsers : option (list jsstr)) : list FlowQuotaDataItem :=
  let selectedUsers := set_of (default [] selectedUsers) in
  if (length selectedUsers =? 0)%nat then rows
  else List.filter (fun row => set_has (id (userNode row)) selectedUsers) rows.

Definition nodeFilterKey (filter : FlowNodeFilter) : jsstr := kind_text (f_kind filter) ++ 0%N :: f_id filter.

(** [map.get(k) ?? new Set()], the set with [x] added, and back into the map. *)
Definition add_to {K} `{EqDecision K} (k : K) (x : jsstr) (m : list (K * list jsstr)) : list (K * list jsstr) :=
  map_set k (set_add (default [] (map_get k m)) x) m.

Definition normalizeSelectedNodeFilters (selectedNodes : option (list FlowNodeFilter)) (stages : list FlowNodeKind) :
    list (FlowNodeKind * list jsstr) :=
  let visibleKinds := set_of stages in
  foldl (fun filters filter =>
           if negb (set_has (f_kind filter) visibleKinds) then filters
           else add_to (f_kind filter) (f_id filter) filters)
        [] (default [] selectedNodes).

Definition pathMatchesNodeFilters (path : list FlowPathNode) (filters : list (FlowNodeKind * list jsstr)) : bool :=
  if (length filters =? 0)%nat then true
  else
    let pathNodesByKind := foldl (fun m node => add_to (kind node) (id node) m) [] path in
    forallb (fun ks =>
               match map_get ks.1 pathNodesByKind with
               | None => false
               | Some pathIds => existsb (fun i => set_has i pathIds) ks.2
               end) filters.

Definition filterRowsByNodes (rows : list FlowQuotaDataItem) (selectedNodes : option (list FlowNodeFilter))
    (stages : list FlowNodeKind) (ctx : FlowPathContext) : list FlowQuotaDataItem :=
  let filters := normalizeSelectedNodeFilters selectedNodes stages in
  if (length filters =? 0)%nat then rows
  else List.filter (fun row => pathMatchesNodeFilters (flowPathForStages row stages ctx) filters) rows.

Definition selectedNodeFiltersExceptKind (selectedNodes : option (list FlowNodeFilter)) (k : FlowNodeKind) :
    option (list FlowNodeFilter) :=
  let filtered := List.filter (fun filter => negb (bool_decide (f_kind filter = k))) (default [] selectedNodes) in
  if (0 <? length filtered)%nat then Some filtered else None.

Example alpha_hex :
  (alphaColor (js " #0084Ce") (num_of_dec false 34 (-2))).1 = js "rgba(0, 132, 206, 0.34)".
Proof. vm_compute. reflexivity. Qed.

Example alpha_named :
  alphaColor (js "var(--chart-1)") (num_of_dec false 34 (-2)) = (js "var(--chart-1)", num_of_dec false 34 (-2)).
Proof. vm_compute. reflexivity. Qed.
