(* ===== verification/FlowGraph.v ===== *)
(** * Usage flows: the graph

    The second half of features/dashboard/lib/flow.ts: nodes and links accumulate
    the metrics of the paths through them, the largest nodes of a stage may be kept
    and the others merged or hidden, labels are masked, paths through a selected
    node or link are highlighted, and filter options are counted. A map of the
    source is a list of entries in insertion order; an object that is mutated after
    it was stored is replaced under its key, which is unique in the map. *)

From S2P Require Import Prelude JsNum IntNum Json NumText Flow.
From Stdlib Require Import Floats.SpecFloat.

Record DashboardFlowNode := mkNode {
  n_id : jsstr; n_label : jsstr; n_kind : FlowNodeKind;
  n_value : num; n_requests : num; n_quota : num; n_tokens : num;
  n_color : jsstr; n_colorKey : jsstr; n_highlighted : option bool; n_dimmed : option bool
}.

Record DashboardFlowLink := mkLink {
  l_source : jsstr; l_target : jsstr;
  l_value : num; l_requests : num; l_quota : num; l_tokens : num;
  sourceLabel : jsstr; targetLabel : jsstr;
  l_color : jsstr; linkColor : jsstr; linkAlpha : num; hoverColor : jsstr; l_colorKey : jsstr; share : num;
  l_highlighted : option bool; l_dimmed : option bool
}.

Record DashboardFlowGraph := mkGraph { g_nodes : list DashboardFlowNode; g_links : list DashboardFlowLink }.
Record FlowSummary := mkSummary { s_quota : num; s_tokens : num; s_requests : num }.
Record PreparedFlowPath := mkPrepared { path : list FlowPathNode; metrics : FlowMetrics }.
Record FlowNodeRank := mkRank { r_node : FlowPathNode; r_value : num }.
Record FlowHighlightSets := mkSets { hl_nodes : list jsstr; hl_links : list jsstr }.

Record FlowGraphOptions := mkGraphOptions {
  topNodeLimit : option num; overflowMode : option FlowOverflowMode;
  otherNodeLabel : option (FlowNodeKind → jsstr);
  activeNode : option FlowNodeFilter; activeLink : option FlowLinkSelection; maskSensitive : option bool
}.

Definition DEFAULT_FLOW_OVERFLOW_MODE : FlowOverflowMode := Aggregate.

Definition OTHER_FLOW_NODE_IDS (k : FlowNodeKind) : jsstr := kind_text k ++ js ":__other__".

Definition DEFAULT_OTHER_FLOW_NODE_LABELS (k : FlowNodeKind) : jsstr :=
  match k with
  | KUser => js "Other users" | KNode => js "Other nodes" | KToken => js "Other tokens"
  | KGroup => js "Other groups" | KModel => js "Other models" | KChannel => js "Other channels"
  end.

Definition SENSITIVE_FLOW_KINDS : list FlowNodeKind := [KUser; KNode; KToken; KGroup; KChannel].
Definition OTHER_FLOW_NODE_ID_SET : list jsstr := map OTHER_FLOW_NODE_IDS FLOW_NODE_KINDS.

(** ** Accumulation *)

Definition zero : num := S754_zero false.

Definition bump_node (n : DashboardFlowNode) (m : FlowMetrics) (metric : FlowMetric) : DashboardFlowNode :=
  mkNode (n_id n) (n_label n) (n_kind n)
    (num_add (n_value n) (metricValue m metric)) (num_add (n_requests n) (requests m))
    (num_add (n_quota n) (quota m)) (num_add (n_tokens n) (tokens m))
    (n_color n) (n_colorKey n) (n_highlighted n) (n_dimmed n).

Definition addNode (m : list (jsstr * DashboardFlowNode)) (pathNode : FlowPathNode) (metrics : FlowMetrics)
    (metric : FlowMetric) (color colorKey : jsstr) : list (jsstr * DashboardFlowNode) :=
  let previous := default
    (mkNode (id pathNode) (label pathNode) (kind pathNode) zero zero zero zero color colorKey None None)
    (map_get (id pathNode) m) in
  map_set (id pathNode) (bump_node previous metrics metric) m.

Definition bump_link (l : DashboardFlowLink) (m : FlowMetrics) (metric : FlowMetric) : DashboardFlowLink :=
  mkLink (l_source l) (l_target l)
    (num_add (l_value l) (metricValue m metric)) (num_add (l_requests l) (requests m))
    (num_add (l_quota l) (quota m)) (num_add (l_tokens l) (tokens m))
    (sourceLabel l) (targetLabel l) (l_color l) (linkColor l) (linkAlpha l) (hoverColor l) (l_colorKey l) (share l)
    (l_highlighted l) (l_dimmed l).

Definition pathLinkKey (source target : FlowPathNode) : jsstr := id source ++ 0%N :: id target.
Definition linkStableKey (l : DashboardFlowLink) : jsstr := l_source l ++ 0%N :: l_target l.

Definition addLink (m : list (jsstr * DashboardFlowLink)) (source target : FlowPathNode) (metrics : FlowMetrics)
    (metric : FlowMetric) (color colorKey : jsstr) : list (jsstr * DashboardFlowLink) :=
  let key := id source ++ 0%N :: id target in
  let previous := default
    (mkLink (id source) (id target) zero zero zero zero (label source) (label target)
       color color (num_of_Z 1) color colorKey zero None None)
    (map_get key m) in
  map_set key (bump_link previous metrics metric) m.

(** The pairs of neighbours a loop over [i] and [i + 1] visits. *)
Fixpoint steps {A} (p : list A) : list (A * A) :=
  match p with
  | a :: (b :: _) as p' => (a, b) :: steps p'
  | _ => []
  end.

Definition buildSummary (rows : list FlowQuotaDataItem) : FlowSummary :=
  foldl (fun s row =>
           let m := rowMetrics row in
           mkSummary (num_add (s_quota s) (quota m)) (num_add (s_tokens s) (tokens m))
             (num_add (s_requests s) (requests m)))
        (mkSummary zero zero zero) rows.

(** [d || rest()] of a comparator whose first criterion is the number [d]. *)
Definition num_then (d : num) (rest : Z) : Z := if num_truthy d then num_sign d else rest.
Definition cmp_then (c rest : Z) : Z := if (c =? 0)%Z then rest else c.

(** [Math.floor]. *)
Definition num_floor (x : num) : num :=
  match x with
  | S754_finite s m e =>
      if (0 <=? e)%Z then x else num_of_Z ((if s then Z.neg m else Z.pos m) / 2 ^ (- e))
  | _ => x
  end.

Definition normalizeTopNodeLimit (limit : option num) : option num :=
  match limit with
  | None => None
  | Some limit =>
      let parsed := num_floor limit in
      if num_is_finite parsed && num_pos parsed then Some parsed else None
  end.

Definition otherFlowNode (k : FlowNodeKind) (labeler : option (FlowNodeKind → jsstr)) : FlowPathNode :=
  mkPathNode (OTHER_FLOW_NODE_IDS k)
    (match labeler with Some f => f k | None => DEFAULT_OTHER_FLOW_NODE_LABELS k end) k.

(** [l.slice(0, limit)]. *)
Definition slice_to {A} (limit : num) (l : list A) : list A :=
  take (Z.to_nat (Z.min (num_to_Z limit) (Z.of_nat (length l)))) l.

(** The total of a node within its stage. *)
Definition addRank (m : list (jsstr * FlowNodeRank)) (key : jsstr) (node : FlowPathNode) (value : num) :
    list (jsstr * FlowNodeRank) :=
  let current := default (mkRank node zero) (map_get key m) in
  map_set key (mkRank (r_node current) (num_add (r_value current) value)) m.

Definition rankNode (value : num) (totals : list (FlowNodeKind * list (jsstr * FlowNodeRank))) (node : FlowPathNode) :
    list (FlowNodeKind * list (jsstr * FlowNodeRank)) :=
  match map_get (kind node) totals with
  | None => totals
  | Some stageTotals => map_set (kind node) (addRank stageTotals (id node) node value) totals
  end.

Definition stageTotals (rows : list FlowQuotaDataItem) (metric : FlowMetric) (stages : list FlowNodeKind)
    (ctx : FlowPathContext) : list (FlowNodeKind * list (jsstr * FlowNodeRank)) :=
  foldl (fun totals row => foldl (rankNode (metricValue (rowMetrics row) metric)) totals (flowPathForStages row stages ctx))
    (foldl (fun m stage => map_set stage [] m) [] stages) rows.

Definition isTopFlowNode (node : FlowPathNode) (topNodeSets : option (list (FlowNodeKind * list jsstr))) : bool :=
  match topNodeSets ≫= map_get (kind node) with
  | None => true
  | Some topNodes => set_has (id node) topNodes
  end.

Definition applyTopNodeLimit (path : list FlowPathNode) (topNodeSets : option (list (FlowNodeKind * list jsstr)))
    (mode : FlowOverflowMode) (labeler : option (FlowNodeKind → jsstr)) : option (list FlowPathNode) :=
  match topNodeSets with
  | None => Some path
  | Some _ =>
      if negb (existsb (fun node => negb (isTopFlowNode node topNodeSets)) path) then Some path
      else match mode with
           | Hide => None
           | Aggregate =>
               Some (map (fun node => if isTopFlowNode node topNodeSets then node else otherFlowNode (kind node) labeler) path)
           end
  end.

(** ** Highlighting and masking *)

Definition pathContainsFlowNode (path : list FlowPathNode) (filter : FlowNodeFilter) : bool :=
  existsb (fun node => bool_decide (kind node = f_kind filter) && bool_decide (id node = f_id filter)) path.

Definition pathContainsFlowLink (path : list FlowPathNode) (link : FlowLinkSelection) : bool :=
  existsb (fun st => bool_decide (id st.1 = sel_source link) && bool_decide (id st.2 = sel_target link)) (steps path).

Definition matchesPath (activeNode : option FlowNodeFilter) (activeLink : option FlowLinkSelection)
    (path : list FlowPathNode) : bool :=
  match activeLink with
  | Some link => pathContainsFlowLink path link
  | None => match activeNode with Some node => pathContainsFlowNode path node | None => false end
  end.

Definition highlightPath (s : FlowHighlightSets) (path : list FlowPathNode) : FlowHighlightSets :=
  mkSets (foldl (fun s node => set_add s (id node)) (hl_nodes s) path)
         (foldl (fun s st => set_add s (pathLinkKey st.1 st.2)) (hl_links s) (steps path)).

Definition buildFlowHighlightSets (preparedPaths : list PreparedFlowPath) (activeNode : option FlowNodeFilter)
    (activeLink : option FlowLinkSelection) (stages : list FlowNodeKind) : option FlowHighlightSets :=
  let nodeActive := match activeNode with Some n => bool_decide (f_kind n ∈ stages) | None => false end in
  if negb nodeActive && match activeLink with None => true | Some _ => false end then None
  else
    let sets := foldl (fun s prepared =>
                         if negb (matchesPath activeNode activeLink (path prepared)) then s
                         else highlightPath s (path prepared))
                      (mkSets [] []) preparedPaths in
    if (length (hl_nodes sets) =? 0)%nat then None else Some sets.

Definition FLOW_MASK_TEXT : jsstr := [8226; 8226; 8226; 8226]%N.

Definition maskFlowLabel (label : jsstr) : jsstr := if (length label =? 0)%nat then label else FLOW_MASK_TEXT.

Definition set_label (n : DashboardFlowNode) (t : jsstr) : DashboardFlowNode :=
  mkNode (n_id n) t (n_kind n) (n_value n) (n_requests n) (n_quota n) (n_tokens n) (n_color n) (n_colorKey n)
    (n_highlighted n) (n_dimmed n).
Definition set_link_labels (l : DashboardFlowLink) (s t : jsstr) : DashboardFlowLink :=
  mkLink (l_source l) (l_target l) (l_value l) (l_requests l) (l_quota l) (l_tokens l) s t
    (l_color l) (linkColor l) (linkAlpha l) (hoverColor l) (l_colorKey l) (share l) (l_highlighted l) (l_dimmed l).

Definition mask_applies (n : DashboardFlowNode) : bool :=
  set_has (n_kind n) SENSITIVE_FLOW_KINDS && negb (set_has (n_id n) OTHER_FLOW_NODE_ID_SET).

Definition maskNode (n : DashboardFlowNode) : DashboardFlowNode :=
  if mask_applies n then set_label n (maskFlowLabel (n_label n)) else n.

Definition maskedById (nodes : list (jsstr * DashboardFlowNode)) : list (jsstr * jsstr) :=
  foldl (fun m kn => if mask_applies kn.2 then map_set (n_id kn.2) (maskFlowLabel (n_label kn.2)) m else m) [] nodes.

Definition maskLink (masked : list (jsstr * jsstr)) (l : DashboardFlowLink) : DashboardFlowLink :=
  set_link_labels l (default (sourceLabel l) (map_get (l_source l) masked))
    (default (targetLabel l) (map_get (l_target l) masked)).

Definition maskFlowGraphLabels (nodes : list (jsstr * DashboardFlowNode)) (links : list (jsstr * DashboardFlowLink)) :
    list (jsstr * DashboardFlowNode) * list (jsstr * DashboardFlowLink) :=
  let masked := maskedById nodes in
  (map (fun kn => (kn.1, maskNode kn.2)) nodes,
   if (length masked =? 0)%nat then links else map (fun kl => (kl.1, maskLink masked kl.2)) links).

Definition highlightNode (s : FlowHighlightSets) (n : DashboardFlowNode) : DashboardFlowNode :=
  let h := set_has (n_id n) (hl_nodes s) in
  mkNode (n_id n) (n_label n) (n_kind n) (n_value n) (n_requests n) (n_quota n) (n_tokens n) (n_color n) (n_colorKey n)
    (Some h) (Some (negb h)).
Definition highlightLink (s : FlowHighlightSets) (l : DashboardFlowLink) : DashboardFlowLink :=
  let h := set_has (linkStableKey l) (hl_links s) in
  mkLink (l_source l) (l_target l) (l_value l) (l_requests l) (l_quota l) (l_tokens l) (sourceLabel l) (targetLabel l)
    (l_color l) (linkColor l) (linkAlpha l) (hoverColor l) (l_colorKey l) (share l) (Some h) (Some (negb h)).

Definition applyFlowHighlights (nodes : list (jsstr * DashboardFlowNode)) (links : list (jsstr * DashboardFlowLink))
    (highlightSets : option FlowHighlightSets) : list (jsstr * DashboardFlowNode) * list (jsstr * DashboardFlowLink) :=
  match highlightSets with
  | None => (nodes, links)
  | Some s => (map (fun kn => (kn.1, highlightNode s kn.2)) nodes, map (fun kl => (kl.1, highlightLink s kl.2)) links)
  end.

(** ** Colours and shares of links *)

Definition set_display (l : DashboardFlowLink) (c : jsstr) (a : num) (h : jsstr) : DashboardFlowLink :=
  mkLink (l_source l) (l_target l) (l_value l) (l_requests l) (l_quota l) (l_tokens l) (sourceLabel l) (targetLabel l)
    (l_color l) c a h (l_colorKey l) (share l) (l_highlighted l) (l_dimmed l).
Definition set_share (l : DashboardFlowLink) (x : num) : DashboardFlowLink :=
  mkLink (l_source l) (l_target l) (l_value l) (l_requests l) (l_quota l) (l_tokens l) (sourceLabel l) (targetLabel l)
    (l_color l) (linkColor l) (linkAlpha l) (hoverColor l) (l_colorKey l) x (l_highlighted l) (l_dimmed l).

(** The alpha of the link at [index] of [count] links that leave a node. *)
Definition linkAlphaAt (index count : nat) : num :=
  if (count =? 1)%nat then num_of_dec false 34 (-2)
  else
    let denominator := Nat.max (count - 1) 1 in
    num_add (num_of_dec false 24 (-2))
      (num_mul (num_div (num_of_Z (Z.of_nat index)) (num_of_Z (Z.of_nat denominator))) (num_of_dec false 2 (-1))).

Section compare.
Context (localeCompare : jsstr → jsstr → Z).

Definition byValueThenLabel (a b : DashboardFlowNode) : Z :=
  num_then (num_sub (n_value b) (n_value a)) (localeCompare (n_label a) (n_label b)).

Definition byLinkValue (a b : DashboardFlowLink) : Z :=
  num_then (num_sub (l_value b) (l_value a)) (localeCompare (linkStableKey a) (linkStableKey b)).

(** [Number(flag)] of an optional flag. *)
Definition flag_number (b : option bool) : num := Number_value (JBool <$> b).

Definition byLinkDrawPriority (a b : DashboardFlowLink) : Z :=
  num_then (num_sub (flag_number (l_dimmed a)) (flag_number (l_dimmed b)))
    (num_then (num_sub (flag_number (l_highlighted b)) (flag_number (l_highlighted a)))
       (byLinkValue a b)).

Definition byRank (a b : FlowNodeRank) : Z :=
  num_then (num_sub (r_value b) (r_value a))
    (cmp_then (localeCompare (label (r_node a)) (label (r_node b))) (localeCompare (id (r_node a)) (id (r_node b)))).

Definition topIds (limit : num) (ranks : list FlowNodeRank) : list jsstr :=
  map (fun r => id (r_node r)) (slice_to limit (sort_by byRank ranks)).

Definition buildTopNodeSets (rows : list FlowQuotaDataItem) (metric : FlowMetric) (stages : list FlowNodeKind)
    (limit : option num) (ctx : FlowPathContext) : option (list (FlowNodeKind * list jsstr)) :=
  match limit with
  | None => None
  | Some limit =>
      if negb (num_truthy limit) then None
      else Some (foldl (fun topSets kt => map_set kt.1 (set_of (topIds limit kt.2.*2)) topSets) []
                   (stageTotals rows metric stages ctx))
  end.

Definition groupBySource (links : list DashboardFlowLink) : list (jsstr * list DashboardFlowLink) :=
  foldl (fun m link => map_set (l_source link) (default [] (map_get (l_source link) m) ++ [link]) m) [] links.

(** Mutating the link with a given key. *)
Definition updateLink (key : jsstr) (f : DashboardFlowLink → DashboardFlowLink) (links : list DashboardFlowLink) :
    list DashboardFlowLink :=
  map (fun l => if bool_decide (linkStableKey l = key) then f l else l) links.

Definition displayColor (index count : nat) (l : DashboardFlowLink) : DashboardFlowLink :=
  let d := alphaColor (l_color l) (linkAlphaAt index count) in set_display l d.1 d.2 (l_color l).

Definition assignLinkDisplayColors (links : list DashboardFlowLink) : list DashboardFlowLink :=
  foldl (fun links sourceLinks =>
           let sortedLinks := sort_by byLinkValue sourceLinks.2 in
           foldl (fun links li => updateLink (linkStableKey li.1) (displayColor li.2 (length sortedLinks)) links)
             links (zip sortedLinks (seq 0 (length sortedLinks))))
        links (groupBySource links).

Definition byEnds (a b : DashboardFlowLink) : Z :=
  cmp_then (localeCompare (l_source a) (l_source b)) (localeCompare (l_target a) (l_target b)).

(** ** The graph *)

Definition preparePaths (rows : list FlowQuotaDataItem) (stages : list FlowNodeKind) (ctx : FlowPathContext)
    (topNodeSets : option (list (FlowNodeKind * list jsstr))) (mode : FlowOverflowMode)
    (labeler : option (FlowNodeKind → jsstr)) : list PreparedFlowPath :=
  omap (fun row => (fun p => mkPrepared p (rowMetrics row))
                     <$> applyTopNodeLimit (flowPathForStages row stages ctx) topNodeSets mode labeler) rows.

(** The nonempty ids of the first nodes. *)
Definition rootIds (preparedPaths : list PreparedFlowPath) : list jsstr :=
  List.filter nonempty (omap (fun p => id <$> head (path p)) preparedPaths).

Definition addPath (metric : FlowMetric) (colors : list (jsstr * jsstr)) (palette : option (list jsstr))
    (g : list (jsstr * DashboardFlowNode) * list (jsstr * DashboardFlowLink)) (prepared : PreparedFlowPath) :
    list (jsstr * DashboardFlowNode) * list (jsstr * DashboardFlowLink) :=
  match head (path prepared) with
  | None => g
  | Some root =>
      let color := default (colorAt 0 palette) (map_get (id root) colors) in
      (foldl (fun m node => addNode m node (metrics prepared) metric color (id root)) g.1 (path prepared),
       foldl (fun m st => addLink m st.1 st.2 (metrics prepared) metric color (id root)) g.2 (steps (path prepared)))
  end.

Definition linkTotal (flowLinks : list DashboardFlowLink) (firstStepSources : list jsstr) : num :=
  foldl (fun sum link => num_add sum (l_value link)) zero
    (List.filter (fun link => set_has (l_source link) firstStepSources) flowLinks).

Definition assignShares (flowLinks : list DashboardFlowLink) (total : num) : list DashboardFlowLink :=
  map (fun link => set_share link (if num_pos total then num_div (l_value link) total else zero)) flowLinks.

(** The maps of nodes and links, before labels and highlights. *)
Definition accumulate (preparedPaths : list PreparedFlowPath) (metric : FlowMetric) (palette : option (list jsstr)) :
    list (jsstr * DashboardFlowNode) * list (jsstr * DashboardFlowLink) :=
  let colors := stableColorMap (sort_by localeCompare (rootIds preparedPaths)) palette in
  foldl (addPath metric colors palette) ([], []) preparedPaths.

Definition graphPaths (rows : list FlowQuotaDataItem) (metric : FlowMetric) (stages : list FlowNodeKind)
    (ctx : FlowPathContext) (options : FlowGraphOptions) : list PreparedFlowPath :=
  let topNodeSets := buildTopNodeSets rows metric stages (normalizeTopNodeLimit (topNodeLimit options)) ctx in
  preparePaths rows stages ctx topNodeSets (default DEFAULT_FLOW_OVERFLOW_MODE (overflowMode options))
    (otherNodeLabel options).

Definition buildFlowGraph (rows : list FlowQuotaDataItem) (metric : FlowMetric) (role : FlowRole)
    (palette : option (list jsstr)) (visibleStages : option (list FlowNodeKind)) (ctx : FlowPathContext)
    (options : FlowGraphOptions) : DashboardFlowGraph :=
  let stages := resolveVisibleStages role visibleStages in
  let preparedPaths := graphPaths rows metric stages ctx options in
  let g := accumulate preparedPaths metric palette in
  let g := if default false (maskSensitive options) then maskFlowGraphLabels g.1 g.2 else g in
  let g := applyFlowHighlights g.1 g.2
             (buildFlowHighlightSets preparedPaths (activeNode options) (activeLink options) stages) in
  let flowLinks := sort_by byEnds g.2.*2 in
  let total := linkTotal flowLinks (set_of (rootIds preparedPaths)) in
  mkGraph (sort_by byValueThenLabel g.1.*2) (assignLinkDisplayColors (assignShares flowLinks total)).

End compare.
