(* ===== verification/FlowData.v ===== *)
(** * Usage flows: filter options, the page's data and the chart

    The entry points of features/dashboard/lib/flow.ts ([buildDashboardFlowData],
    [buildFlowFilterOptions], the data and the readers of the Sankey chart) and
    features/dashboard/lib/flow-selection.ts. Formatting a number for display
    ([Intl.NumberFormat]) and comparing texts by locale are parameters. *)

From S2P Require Import Prelude JsNum IntNum Json NumText Flow FlowGraph.
From Stdlib Require Import Floats.SpecFloat.

Record FlowUserFilterOption := mkUserOption {
  uo_value : jsstr; uo_label : jsstr; uo_valueLabel : jsstr; uo_valueRaw : num; uo_color : jsstr
}.
Record FlowNodeFilterOption := mkNodeOption {
  no_kind : FlowNodeKind; no_value : jsstr; no_label : jsstr; no_valueLabel : jsstr; no_valueRaw : num; no_color : jsstr
}.
Record FlowFilterOptions := mkFilterOptions { fo_users : list FlowUserFilterOption; fo_nodes : list FlowNodeFilterOption }.

Record ProcessedFlowData := mkProcessed {
  summary : FlowSummary; flow : DashboardFlowGraph; filterOptions : FlowFilterOptions
}.

Record FlowBuildOptions := mkBuildOptions {
  o_role : option FlowRole; o_selectedUsers : option (list jsstr); o_selectedNodes : option (list FlowNodeFilter);
  o_colorPalette : option (list jsstr); o_visibleStages : option (list FlowNodeKind);
  o_deletedTokenLabel : FlowPathContext; o_graph : FlowGraphOptions
}.

Definition DEFAULT_FLOW_ROLE : FlowRole := RUser.

Record UserTotal := mkUserTotal { ut_label : jsstr; ut_value : num; ut_color : jsstr }.

(** [!row.user_id && !row.username]. *)
Definition anonymous (row : FlowQuotaDataItem) : bool :=
  negb (match user_id row with Some x => num_truthy x | None => false end) && negb (nonempty (default [] (username row))).

(** A row counted for its user. *)
Definition addUser (metric : FlowMetric) (colors : list (jsstr * jsstr)) (palette : option (list jsstr))
    (users : list (jsstr * UserTotal)) (row : FlowQuotaDataItem) : list (jsstr * UserTotal) :=
  let user := userNode row in
  if anonymous row then users
  else
    let current := default (mkUserTotal (label user) zero (default (colorAt 0 palette) (map_get (id user) colors)))
                     (map_get (id user) users) in
    map_set (id user)
      (mkUserTotal (ut_label current) (num_add (ut_value current) (metricValue (rowMetrics row) metric)) (ut_color current))
      users.

(** The totals of a stage over its candidate rows. *)
Definition optionTotals (rows : list FlowQuotaDataItem) (metric : FlowMetric) (stage : FlowNodeKind) (ctx : FlowPathContext) :
    list (jsstr * FlowNodeRank) :=
  foldl (fun totals row =>
           let node := NODE_BUILDERS stage row ctx in
           addRank totals (nodeFilterKey (mkFilter (kind node) (id node))) node (metricValue (rowMetrics row) metric))
        [] rows.

Section page.
Context (localeCompare : jsstr → jsstr → Z) (formatNumber : num → jsstr).

Definition byUserOption (a b : FlowUserFilterOption) : Z :=
  num_then (num_sub (uo_valueRaw b) (uo_valueRaw a)) (localeCompare (uo_label a) (uo_label b)).

Definition buildUserFilterOptions (rows : list FlowQuotaDataItem) (metric : FlowMetric) (palette : option (list jsstr)) :
    list FlowUserFilterOption :=
  let colors := stableColorMap (sort_by localeCompare (map (fun row => id (userNode row)) rows)) palette in
  let users := foldl (addUser metric colors palette) [] rows in
  sort_by byUserOption
    (map (fun vu => mkUserOption vu.1 (ut_label vu.2) (formatNumber (ut_value vu.2)) (ut_value vu.2) (ut_color vu.2)) users).

(** [stageOrder.get(kind) ?? 0]. *)
Definition stageOrder (stages : list FlowNodeKind) (k : FlowNodeKind) : Z :=
  Z.of_nat (default 0%nat (map_get k (zip stages (seq 0 (length stages))))).

Definition byNodeOption (stages : list FlowNodeKind) (a b : FlowNodeFilterOption) : Z :=
  cmp_then (stageOrder stages (no_kind a) - stageOrder stages (no_kind b))
    (num_then (num_sub (no_valueRaw b) (no_valueRaw a))
       (cmp_then (localeCompare (no_label a) (no_label b)) (localeCompare (no_value a) (no_value b)))).

Definition stageOptions (rows : list FlowQuotaDataItem) (metric : FlowMetric) (stages : list FlowNodeKind)
    (colors : list (jsstr * jsstr)) (palette : option (list jsstr)) (ctx : FlowPathContext)
    (selectedNodes : option (list FlowNodeFilter)) (stage : FlowNodeKind) : list FlowNodeFilterOption :=
  let candidateRows := filterRowsByNodes rows (selectedNodeFiltersExceptKind selectedNodes stage) stages ctx in
  map (fun kr => let rank := kr.2 in
         mkNodeOption (kind (r_node rank)) (id (r_node rank)) (label (r_node rank)) (formatNumber (r_value rank)) (r_value rank)
           (default (colorAt 0 palette) (map_get (id (r_node rank)) colors)))
      (optionTotals candidateRows metric stage ctx).

Definition buildNodeFilterOptions (rows : list FlowQuotaDataItem) (metric : FlowMetric) (role : FlowRole)
    (visibleStages : option (list FlowNodeKind)) (palette : option (list jsstr)) (ctx : FlowPathContext)
    (selectedNodes : option (list FlowNodeFilter)) : list FlowNodeFilterOption :=
  let stages := resolveVisibleStages role visibleStages in
  let colorIds := foldl (fun s row => foldl (fun s node => set_add s (id node)) s (flowPathForStages row stages ctx)) [] rows in
  let colors := stableColorMap (sort_by localeCompare colorIds) palette in
  sort_by (byNodeOption stages)
    (flat_map (stageOptions rows metric stages colors palette ctx selectedNodes) stages).

Definition buildFlowFilterOptions (rows : list FlowQuotaDataItem) (metric : FlowMetric) (palette : option (list jsstr))
    (role : FlowRole) (visibleStages : option (list FlowNodeKind)) (selectedNodes : option (list FlowNodeFilter)) :
    FlowFilterOptions :=
  mkFilterOptions (buildUserFilterOptions rows metric palette)
    (buildNodeFilterOptions rows metric role visibleStages palette EMPTY_FLOW_PATH_CONTEXT selectedNodes).

(** The rows a page shows. *)
Definition shownRows (rows : list FlowQuotaDataItem) (options : FlowBuildOptions) : list FlowQuotaDataItem :=
  let role := default DEFAULT_FLOW_ROLE (o_role options) in
  let stages := resolveVisibleStages role (o_visibleStages options) in
  filterRowsByNodes (filterRows rows (o_selectedUsers options)) (o_selectedNodes options) stages
    (o_deletedTokenLabel options).

Definition buildDashboardFlowData (rows : list FlowQuotaDataItem) (metric : FlowMetric) (options : FlowBuildOptions) :
    ProcessedFlowData :=
  let role := default DEFAULT_FLOW_ROLE (o_role options) in
  let palette := o_colorPalette options in
  let ctx := o_deletedTokenLabel options in
  let userFilteredRows := filterRows rows (o_selectedUsers options) in
  let filteredRows := shownRows rows options in
  mkProcessed (buildSummary filteredRows)
    (buildFlowGraph localeCompare filteredRows metric role palette (o_visibleStages options) ctx (o_graph options))
    (mkFilterOptions (buildUserFilterOptions rows metric palette)
       (buildNodeFilterOptions userFilteredRows metric role (o_visibleStages options) palette ctx (o_selectedNodes options))).

(** ** The chart's data *)

Record SankeyLink := mkSankeyLink { sk_link : DashboardFlowLink; linkKey : jsstr; zIndex : num }.

Definition linkZIndex (link : DashboardFlowLink) (index : nat) : num :=
  num_of_Z (if default false (l_highlighted link) then 1000000 + Z.of_nat index
            else if default false (l_dimmed link) then Z.of_nat index else 100000 + Z.of_nat index).

Definition sankeyLinks (flow : DashboardFlowGraph) : list SankeyLink :=
  imap (fun index link => mkSankeyLink link (linkStableKey link) (linkZIndex link index))
    (sort_by (byLinkDrawPriority localeCompare) (List.filter (fun link => num_pos (l_value link)) (g_links flow))).

(** [linkSortBy] of the chart, on the fields it reads. *)
Record SortedLink := mkSorted { so_value : option num; so_source : option jsstr; so_target : option jsstr; so_index : option num }.

Definition linkSortBy (a b : SortedLink) : Z :=
  num_then (num_sub (num_field (so_value b)) (num_field (so_value a)))
    (cmp_then (localeCompare (default [] (so_source a) ++ 0%N :: default [] (so_target a))
                 (default [] (so_source b) ++ 0%N :: default [] (so_target b)))
       (num_sign (num_sub (num_field (so_index a)) (num_field (so_index b))))).

End page.

(** ** Reading the chart's events *)

(** [value[key]] of a parsed value; an array has its elements and its length. *)
Definition prop (value : json) (key : jsstr) : option json :=
  match value with
  | JObj m => map_get key m
  | JArr l =>
      if bool_decide (key = js "length") then Some (JNum (num_of_Z (Z.of_nat (length l))))
      else if is_index key then l !! N.to_nat (parse_digits key) else None
  | _ => None
  end.

Definition recordValue (value : option json) : option json :=
  match value with Some (JObj m) => Some (JObj m) | Some (JArr l) => Some (JArr l) | _ => None end.

Definition or_else {A} (a b : option A) : option A := match a with Some _ => a | None => b end.

Definition sankeyDatumSource (datum : json) : json :=
  let nested := prop datum (js "datum") in
  match nested with
  | Some (JArr l) =>
      let depth := numberValue (prop datum (js "depth")) in
      default datum (or_else (recordValue (prop (JArr l) (Number_toString depth))) (recordValue (l !! 0%nat)))
  | _ => default datum (recordValue nested)
  end.

Definition sankeyDatumValue (datum : json) (key : jsstr) : option json :=
  match prop datum key with
  | Some v => Some v
  | None => prop (sankeyDatumSource datum) key
  end.

Definition sankeyDatumFlag (datum : json) (key : jsstr) : bool :=
  match sankeyDatumValue datum key with Some (JBool true) => true | _ => false end.

Definition flowSankeyDatumValue (datum : option json) (key : jsstr) : option json :=
  match recordValue datum with Some record => sankeyDatumValue record key | None => None end.

Definition isSankeyLinkDatum (datum : json) : bool :=
  match sankeyDatumValue datum (js "source"), sankeyDatumValue datum (js "target") with
  | Some _, Some _ => true
  | _, _ => false
  end.

Definition flowNodeFilterFromSankeyDatum (datum : option json) : option FlowNodeFilter :=
  match recordValue datum with
  | None => None
  | Some record =>
      if isSankeyLinkDatum record then None
      else match flowSankeyDatumValue (Some record) (js "key"),
                 isFlowNodeKind (flowSankeyDatumValue (Some record) (js "kind")) with
           | Some (JStr i), Some kind => Some (mkFilter kind i)
           | Some (JNum i), Some kind => Some (mkFilter kind (Number_toString i))
           | _, _ => None
           end
  end.

Definition node_fillOpacity (datum : json) : num :=
  if sankeyDatumFlag datum (js "dimmed") then num_of_dec false 18 (-2)
  else if sankeyDatumFlag datum (js "highlighted") then num_of_Z 1
  else num_of_dec false 92 (-2).

Definition link_fillOpacity (datum : json) : num :=
  if sankeyDatumFlag datum (js "dimmed") then num_of_dec false 8 (-2)
  else if sankeyDatumFlag datum (js "highlighted") then num_of_dec false 86 (-2)
  else let a := numberValue (sankeyDatumValue datum (js "linkAlpha")) in if num_truthy a then a else num_of_Z 1.

Definition link_zIndex (datum : json) : num :=
  match sankeyDatumValue datum (js "zIndex") with
  | Some z => numberValue (Some z)
  | None => num_sub (num_of_Z 1000000000) (numberValue (sankeyDatumValue datum (js "value")))
  end.

(** ** Selection (flow-selection.ts) *)

Inductive FlowDisplayState := DLoading | DError | DEmpty | DChart.

Definition requireSuccessfulFlowRows (success : bool) (data : option (list FlowQuotaDataItem)) (message : option jsstr)
    (fallbackMessage : jsstr) : res (list FlowQuotaDataItem) :=
  if negb success then Throw (text_or message fallbackMessage) else Ok (default [] data).

Definition flowDisplayState (isLoading isError : bool) (linkCount : nat) (themeReady : bool) : FlowDisplayState :=
  if isLoading then DLoading
  else if isError then DError
  else if (linkCount =? 0)%nat then DEmpty
  else if negb themeReady then DLoading
  else DChart.

Definition compactFlowSelectionLabel (count : nat) : jsstr :=
  if (0 <? count)%nat then print_N (N.of_nat count) else js "*".

Definition visibleFlowUsers (users : list FlowUserFilterOption) (selectedUsers : list jsstr) : list FlowUserFilterOption :=
  if (length selectedUsers =? 0)%nat then users
  else let selected := set_of selectedUsers in List.filter (fun user => set_has (uo_value user) selected) users.

(** ** A small page *)

Definition demo_row (user group model : string) (n : Z) : FlowQuotaDataItem :=
  mkRow None (Some (js user)) None (Some (js group)) None None None None (Some (js model))
    (Some (num_of_Z (10 * n))) (Some (num_of_Z 1)) (Some (num_of_Z n)).

Definition demo_rows : list FlowQuotaDataItem :=
  [demo_row "ann" "vip" "m1" 5; demo_row "bob" "vip" "m2" 3; demo_row "ann" "free" "m1" 2].

Definition demo_graph_options : FlowGraphOptions := mkGraphOptions None None None None None None.
Definition demo_options : FlowBuildOptions :=
  mkBuildOptions (Some RAdmin) None None None (Some [KUser; KGroup; KModel]) None demo_graph_options.

Example demo_values :
  let g := flow (buildDashboardFlowData str_cmp Number_toString demo_rows MQuota demo_options) in
  map (fun n => (n_id n, num_to_Z (n_value n))) (g_nodes g)
  = [(js "group:vip", 8%Z); (js "user:ann", 7%Z); (js "model:m1", 7%Z); (js "user:bob", 3%Z); (js "model:m2", 3%Z);
     (js "group:free", 2%Z)]
  ∧ map (fun l => (l_source l, l_target l, num_to_Z (l_value l), linkColor l)) (g_links g)
    = [(js "group:free", js "model:m1", 2%Z, js "rgba(0, 132, 206, 0.34)");
       (js "group:vip", js "model:m1", 5%Z, js "rgba(0, 132, 206, 0.24)");
       (js "group:vip", js "model:m2", 3%Z, js "rgba(213, 94, 0, 0.44)");
       (js "user:ann", js "group:free", 2%Z, js "rgba(0, 132, 206, 0.44)");
       (js "user:ann", js "group:vip", 5%Z, js "rgba(0, 132, 206, 0.24)");
       (js "user:bob", js "group:vip", 3%Z, js "rgba(213, 94, 0, 0.34)")].
Proof. vm_compute. split; reflexivity. Qed.
