(* ===== verification/FlowTotals.v ===== *)
(** * Usage flows: what the maps accumulate

    Nodes, links, ranks and user totals are all built the same way: an event is
    added to the entry of its key, which the first event creates. [tally] is that
    loop; its entries are characterized once, and the graph's maps are instances.
    The final graph holds the same nodes and links as the maps, up to order and
    presentation. *)

From S2P Require Import Prelude JsNum Json NumText IntNum Flow FlowGraph FlowData.
From Stdlib Require Import Floats.SpecFloat.

Lemma filter_filter_bool {A} (p q : A → bool) l :
  List.filter p (List.filter q l) = List.filter (fun x => q x && p x) l.
Proof. induction l as [|x l IH]; cbn [List.filter]; [done|]. destruct (q x); cbn [List.filter andb]; [destruct (p x)|]; by rewrite IH. Qed.

Lemma NoDup_filter_keys {K W} (q : K * W → bool) (m : list (K * W)) : NoDup m.*1 → NoDup (List.filter q m).*1.
Proof.
  induction m as [|kv m IH]; [done|]. intros [Hk Hm]%NoDup_cons. cbn [List.filter]. destruct (q kv); [|auto].
  apply NoDup_cons. split; [|auto]. intros (kv' & Ek & [Hin _]%elem_of_List_filter)%list_elem_of_fmap.
  apply Hk, list_elem_of_fmap. exists kv'. done.
Qed.

Section tally.
Context {E V : Type} (key : E → jsstr) (init : E → V) (bump : V → E → V).

Definition tally_step (m : list (jsstr * V)) (e : E) : list (jsstr * V) :=
  map_set (key e) (bump (default (init e) (map_get (key e) m)) e) m.

Definition tally (es : list E) : list (jsstr * V) := foldl tally_step [] es.

(** The entry of a group of events. *)
Definition entry (es : list E) : option V :=
  match es with [] => None | e :: _ => Some (foldl bump (init e) es) end.

Lemma entry_snoc es e : entry (es ++ [e]) = Some (bump (default (init e) (entry es)) e).
Proof. destruct es as [|e' es]; [done|]. cbn [entry app default]. change (e' :: es ++ [e]) with ((e' :: es) ++ [e]). by rewrite foldl_app. Qed.

Lemma in_group_snoc k es e :
  in_group key k (es ++ [e]) = in_group key k es ++ if bool_decide (key e = k) then [e] else [].
Proof. unfold in_group. rewrite List.filter_app. cbn [List.filter]. by destruct (bool_decide _). Qed.

Lemma tally_get k es : map_get k (tally es) = entry (in_group key k es).
Proof.
  induction es as [|e es IH] using rev_ind; [done|]. unfold tally in *. rewrite foldl_app, in_group_snoc. cbn [foldl].
  unfold tally_step at 1. destruct (decide (key e = k)) as [Ek|Hne].
  - rewrite bool_decide_true, Ek by done. rewrite map_get_set_eq, entry_snoc, IH. done.
  - rewrite bool_decide_false by done. rewrite map_get_set_ne, app_nil_r by done. done.
Qed.

Lemma keys_map_set {K W} `{EqDecision K} (k : K) (v : W) m : (map_set k v m).*1 = set_add m.*1 k.
Proof.
  unfold set_add. induction m as [|[k' v'] m IH]; cbn [map_set fmap list_fmap fst]; [done|].
  destruct (decide (k = k')) as [->|Hne]; cbn [fmap list_fmap fst].
  - by rewrite decide_True by set_solver.
  - change (list_fmap _ _ fst (map_set k v m)) with ((map_set k v m).*1). change (list_fmap _ _ fst m) with (m.*1).
    rewrite IH. repeat case_decide; [done|set_solver|set_solver|done].
Qed.

Lemma tally_keys es : (tally es).*1 = set_of (map key es).
Proof.
  induction es as [|e es IH] using rev_ind; [done|]. unfold tally in *. rewrite foldl_app, List.map_app. cbn [foldl map]. rewrite set_of_snoc.
  unfold tally_step at 1. by rewrite keys_map_set, IH.
Qed.

Lemma tally_NoDup es : NoDup (tally es).*1.
Proof. rewrite tally_keys. apply NoDup_set_of. Qed.

Lemma tally_elem k v es : (k, v) ∈ tally es ↔ entry (in_group key k es) = Some v.
Proof.
  rewrite <- tally_get. split; [apply map_get_elem_of, tally_NoDup|apply map_get_Some].
Qed.

(** An entry comes from events of its key, the first of which made it. *)
Lemma entry_Some k es v :
  entry (in_group key k es) = Some v → ∃ e, e ∈ es ∧ key e = k ∧ v = foldl bump (init e) (in_group key k es).
Proof.
  destruct (in_group key k es) as [|e g] eqn:Eg; [done|]. intros [= <-]. exists e.
  assert (He : e ∈ in_group key k es) by (rewrite Eg; set_solver).
  apply elem_of_List_filter in He as [He Hk%bool_decide_eq_true]. done.
Qed.

Lemma tally_has k es : (∃ v, (k, v) ∈ tally es) ↔ ∃ e, e ∈ es ∧ key e = k.
Proof.
  transitivity (k ∈ (tally es).*1).
  - rewrite list_elem_of_fmap. split; [intros [v Hv]; by exists (k, v)|intros ([k' v] & -> & Hv); by exists v].
  - rewrite tally_keys, elem_of_set_of, list_elem_of_fmap. naive_solver.
Qed.

(** ** Sums over entries *)

Context (value : V → num) (amount : E → num) (weight : E → Z).
Context (Hinit : ∀ e, value (init e) = num_of_Z 0) (Hbump : ∀ v e, value (bump v e) = num_add (value v) (amount e)).

(** Events with counters that are integers and sum to a safe one. *)
Definition tallied (es : list E) : Prop :=
  Forall (fun e => (0 <= weight e)%Z ∧ amount e = num_of_Z (weight e)) es ∧ safe (zsum (map weight es)).

Lemma value_foldl es v : value (foldl bump v es) = foldl num_add (value v) (map amount es).
Proof. revert v. induction es as [|e es IH]; intros v; [done|]. cbn [foldl map]. by rewrite IH, Hbump. Qed.

Lemma tallied_nonneg es : tallied es → Forall (fun e => (0 <= weight e)%Z) es.
Proof. intros [H _]. eapply Forall_impl; [exact H|naive_solver]. Qed.

Lemma tallied_filter q es : tallied es → tallied (List.filter q es).
Proof.
  intros [He Hs]. pose proof (tallied_nonneg es (conj He Hs)) as Hn. split.
  - rewrite Forall_forall in *. intros e [Hin _]%elem_of_List_filter. auto.
  - pose proof (zsum_filter_le weight q es Hn). unfold safe in *. split; [|lia].
    assert (0 <= zsum (map weight (List.filter q es)))%Z; [|lia]. apply zsum_nonneg, List.Forall_map.
    rewrite List.Forall_forall in *. intros e [Hin _]%List.filter_In. auto.
Qed.

Lemma entry_value es v : tallied es → entry es = Some v → value v = num_of_Z (zsum (map weight es)).
Proof.
  intros [He Hs] Hv. assert (Ha : map amount es = map num_of_Z (map weight es)).
  { rewrite map_map. apply map_ext_in. intros e Hin%list_elem_of_In. rewrite Forall_forall in He. by apply He. }
  assert (Hn : Forall (Z.le 0) (map weight es)).
  { apply List.Forall_map. rewrite List.Forall_forall. rewrite Forall_forall in He. intros e Hin%list_elem_of_In. by apply He. }
  destruct es as [|e es]; [done|]. injection Hv as <-. change (foldl bump (bump (init e) e) es) with (foldl bump (init e) (e :: es)).
  rewrite value_foldl, Ha, Hinit. by apply foldl_add_exact.
Qed.

(** The value of an entry is the sum of the events of its key. *)
Lemma tally_value k v es :
  tallied (in_group key k es) → (k, v) ∈ tally es → value v = num_of_Z (zsum (map weight (in_group key k es))).
Proof. intros Ht Hv%tally_elem. by apply entry_value. Qed.

(** The values of the entries a condition selects sum to the events it selects. *)
Lemma tally_sum (q : V → bool) (qe : E → bool) es :
  (∀ k, tallied (in_group key k es)) → (∀ k v e, (k, v) ∈ tally es → e ∈ es → key e = k → qe e = q v) →
  zsum (map (fun kv => num_to_Z (value kv.2)) (List.filter (fun kv => q kv.2) (tally es)))
  = zsum (map weight (List.filter qe es)).
Proof.
  intros Ht Hq. set (sel := List.filter _ (tally es)). rewrite <- (zsum_groups key weight (sel.*1) (List.filter qe es)).
  - change (sel.*1) with (map fst sel). rewrite map_map. f_equal. apply map_ext_in.
    intros [k v] [Hin Hqv]%List.filter_In. apply list_elem_of_In in Hin. cbn [fst snd] in *.
    rewrite (tally_value k v es) by done. rewrite num_to_Z_of by apply (Ht k).
    do 2 f_equal. unfold in_group. rewrite filter_filter_bool. apply List.filter_ext_in. intros e He%list_elem_of_In.
    destruct (bool_decide (key e = k)) eqn:Eb; [|by rewrite andb_false_r]. apply bool_decide_eq_true in Eb.
    by rewrite (Hq k v e), Hqv by done.
  - apply NoDup_filter_keys, tally_NoDup.
  - rewrite Forall_forall. intros e [He Hqe]%elem_of_List_filter.
    destruct (proj2 (tally_has (key e) es)) as [v Hv]; [by exists e|]. apply list_elem_of_fmap. exists (key e, v).
    split; [done|]. apply elem_of_List_filter. split; [done|]. cbn [snd]. by rewrite <- (Hq (key e) v e).
Qed.
End tally.

(** * Usage flows: the graph carries the usage

    Every node and every link of the graph has the sum of the rows that pass
    through it, what enters a node leaves it, and no stage loses usage. *)

(** ** The maps of nodes and links as tallies *)

Section maps.
Context (metric : FlowMetric) (colors : list (jsstr * jsstr)) (palette : option (list jsstr)).

Definition rootId (p : PreparedFlowPath) : jsstr := match head (path p) with Some root => id root | None => [] end.
Definition rootColor (p : PreparedFlowPath) : jsstr :=
  match head (path p) with Some root => default (colorAt 0 palette) (map_get (id root) colors) | None => [] end.

Definition node_events (ps : list PreparedFlowPath) : list (FlowPathNode * PreparedFlowPath) :=
  flat_map (fun p => map (fun n => (n, p)) (path p)) ps.
Definition link_events (ps : list PreparedFlowPath) : list ((FlowPathNode * FlowPathNode) * PreparedFlowPath) :=
  flat_map (fun p => map (fun st => (st, p)) (steps (path p))) ps.

Definition node_key (e : FlowPathNode * PreparedFlowPath) : jsstr := id e.1.
Definition node_init (e : FlowPathNode * PreparedFlowPath) : DashboardFlowNode :=
  mkNode (id e.1) (label e.1) (kind e.1) zero zero zero zero (rootColor e.2) (rootId e.2) None None.
Definition node_bump (n : DashboardFlowNode) (e : FlowPathNode * PreparedFlowPath) : DashboardFlowNode :=
  bump_node n (metrics e.2) metric.

Definition link_key (e : (FlowPathNode * FlowPathNode) * PreparedFlowPath) : jsstr := pathLinkKey e.1.1 e.1.2.
Definition link_init (e : (FlowPathNode * FlowPathNode) * PreparedFlowPath) : DashboardFlowLink :=
  mkLink (id e.1.1) (id e.1.2) zero zero zero zero (label e.1.1) (label e.1.2)
    (rootColor e.2) (rootColor e.2) (num_of_Z 1) (rootColor e.2) (rootId e.2) zero None None.
Definition link_bump (l : DashboardFlowLink) (e : (FlowPathNode * FlowPathNode) * PreparedFlowPath) : DashboardFlowLink :=
  bump_link l (metrics e.2) metric.

Lemma foldl_map {A B C} (f : C → B → C) (g : A → B) l c : foldl f c (map g l) = foldl (fun c a => f c (g a)) c l.
Proof. revert c. induction l as [|a l IH]; intros c; cbn [map foldl]; auto. Qed.

Lemma foldl_addPath ps g :
  foldl (addPath metric colors palette) g ps
  = (foldl (tally_step node_key node_init node_bump) g.1 (node_events ps),
     foldl (tally_step link_key link_init link_bump) g.2 (link_events ps)).
Proof.
  revert g. induction ps as [|p ps IH]; intros [gn gl]; [done|]. cbn [foldl]. rewrite IH. unfold node_events, link_events.
  cbn [flat_map]. rewrite !foldl_app, !foldl_map. unfold addPath.
  destruct (head (path p)) as [root|] eqn:Hh; cbn [fst snd].
  - repeat f_equal; unfold tally_step, node_init, link_init, rootColor, rootId; cbn [fst snd]; rewrite Hh; done.
  - destruct (path p); done.
Qed.
End maps.

Section graph.
Context (localeCompare : jsstr → jsstr → Z) (metric : FlowMetric) (palette : option (list jsstr)).

Definition path_colors (ps : list PreparedFlowPath) : list (jsstr * jsstr) :=
  stableColorMap (sort_by localeCompare (rootIds ps)) palette.

Definition node_map (ps : list PreparedFlowPath) : list (jsstr * DashboardFlowNode) :=
  tally node_key (node_init (path_colors ps) palette) (node_bump metric) (node_events ps).
Definition link_map (ps : list PreparedFlowPath) : list (jsstr * DashboardFlowLink) :=
  tally link_key (link_init (path_colors ps) palette) (link_bump metric) (link_events ps).

Lemma accumulate_eq ps : accumulate localeCompare ps metric palette = (node_map ps, link_map ps).
Proof. unfold accumulate. rewrite foldl_addPath. done. Qed.

(** ** What presentation leaves alone *)

Definition node_core (n : DashboardFlowNode) :=
  (n_id n, n_kind n, (n_value n, n_requests n, n_quota n, n_tokens n), n_color n, n_colorKey n).
Definition link_core (l : DashboardFlowLink) :=
  (l_source l, l_target l, (l_value l, l_requests l, l_quota l, l_tokens l), l_color l, l_colorKey l).

Lemma map_map_core {A B K} (core : A → B) (f : A → A) (m : list (K * A)) :
  (∀ x, core (f x) = core x) → map core (map (fun kv => (kv.1, f kv.2)) m).*2 = map core m.*2.
Proof. intros Hf. induction m as [|[k x] m IH]; cbn; [done|]. rewrite Hf. by f_equal. Qed.

Lemma maskNode_core n : node_core (maskNode n) = node_core n.
Proof. unfold maskNode. by destruct (mask_applies n). Qed.

Lemma updateLink_core {B} (core : DashboardFlowLink → B) k f ls :
  (∀ l, core (f l) = core l) → map core (updateLink k f ls) = map core ls.
Proof. intros Hf. unfold updateLink. rewrite map_map. apply map_ext. intros l. destruct (bool_decide _); auto. Qed.

Lemma foldl_preserves {A B C} (g : B → C) (f : B → A → B) l b : (∀ b a, g (f b a) = g b) → g (foldl f b l) = g b.
Proof. intros H. revert b. induction l as [|a l IH]; intros b; [done|]. cbn [foldl]. by rewrite IH, H. Qed.

Lemma assign_core {B} (core : DashboardFlowLink → B) ls :
  (∀ l c a h, core (set_display l c a h) = core l) → map core (assignLinkDisplayColors localeCompare ls) = map core ls.
Proof.
  intros Hcore. unfold assignLinkDisplayColors. apply foldl_preserves. intros ls' sl. apply foldl_preserves. intros ls'' li.
  apply updateLink_core. intros l. apply Hcore.
Qed.

Context (rows : list FlowQuotaDataItem) (role : FlowRole) (visibleStages : option (list FlowNodeKind)).
Context (ctx : FlowPathContext) (options : FlowGraphOptions).

Notation stages := (resolveVisibleStages role visibleStages).
Notation paths := (graphPaths localeCompare rows metric stages ctx options).
Notation graph := (buildFlowGraph localeCompare rows metric role palette visibleStages ctx options).

Lemma graph_nodes_core : map node_core (g_nodes graph) ≡ₚ map node_core (node_map paths).*2.
Proof.
  unfold buildFlowGraph. cbn [g_nodes]. rewrite accumulate_eq. rewrite sort_by_perm.
  destruct (buildFlowHighlightSets _ _ _ _); cbn [applyFlowHighlights fst];
    destruct (default false _); cbn [maskFlowGraphLabels fst]; rewrite ?map_map_core; auto using maskNode_core.
Qed.

Lemma graph_links_core : map link_core (g_links graph) ≡ₚ map link_core (link_map paths).*2.
Proof.
  unfold buildFlowGraph. cbn [g_links]. rewrite assign_core by done. rewrite accumulate_eq. unfold assignShares.
  rewrite map_map. cbn [set_share]. change (map (fun x => link_core (set_share x _)) ?l) with (map link_core l).
  rewrite sort_by_perm. destruct (buildFlowHighlightSets _ _ _ _); cbn [applyFlowHighlights snd];
    destruct (default false _); cbn [maskFlowGraphLabels snd]; rewrite ?map_map_core; auto;
    destruct (_ =? 0)%nat; rewrite ?map_map_core; auto.
Qed.
End graph.

(** ** Paths *)

(** An id starts with its kind, so ids of different kinds differ. *)
Definition id_of_kind (k : FlowNodeKind) (i : jsstr) : Prop := ∃ t, i = kind_text k ++ 58%N :: t.
Definition wf_node (n : FlowPathNode) : Prop := id_of_kind (kind n) (id n).
Definition wf_path (stages : list FlowNodeKind) (p : list FlowPathNode) : Prop := map kind p = stages ∧ Forall wf_node p.

Lemma id_of_kind_inj k k' i : id_of_kind k i → id_of_kind k' i → k = k'.
Proof. intros [t ->] [t' E]. destruct k, k'; try done; vm_compute in E; discriminate E. Qed.

Lemma builder_wf k row ctx : wf_node (NODE_BUILDERS k row ctx) ∧ kind (NODE_BUILDERS k row ctx) = k.
Proof.
  split; [|by destruct k]. unfold wf_node, id_of_kind.
  destruct k; cbn [NODE_BUILDERS]; unfold userNode, nodeNameNode, tokenNode, groupNode, modelNode, channelNode;
    cbn [id kind kind_text]; try destruct (num_pos _); eexists; reflexivity.
Qed.

Lemma other_wf k labeler : wf_node (otherFlowNode k labeler) ∧ kind (otherFlowNode k labeler) = k.
Proof. split; [|done]. by exists (js "__other__"). Qed.

Lemma path_wf row stages ctx : wf_path stages (flowPathForStages row stages ctx).
Proof.
  unfold wf_path, flowPathForStages. split.
  - rewrite map_map. rewrite <- (map_id stages) at 2. apply map_ext. intros k. apply builder_wf.
  - apply Forall_fmap, Forall_true. intros k. apply builder_wf.
Qed.

Lemma limited_wf stages p ts mode labeler p' :
  wf_path stages p → applyTopNodeLimit p ts mode labeler = Some p' → wf_path stages p'.
Proof.
  intros [Hk Hw]. unfold applyTopNodeLimit. destruct ts as [ts|]; [|intros [= <-]; done].
  destruct (negb _); [intros [= <-]; done|]. destruct mode; [|done]. intros [= <-]. split.
  - rewrite map_map, <- Hk. apply map_ext. intros n. by destruct (isTopFlowNode _ _).
  - apply Forall_fmap. eapply Forall_impl; [exact Hw|]. intros n Hn. cbn. destruct (isTopFlowNode _ _); [done|]. apply other_wf.
Qed.

Lemma wf_NoDup stages p : wf_path stages p → NoDup stages → NoDup (map id p).
Proof.
  intros [<- Hw] Hn. induction Hw as [|n p Hw Hp IH]; [constructor|]. cbn [map] in *. apply NoDup_cons in Hn as [Hk Hn].
  apply NoDup_cons. split; [|auto]. intros Hin. apply Hk. apply list_elem_of_fmap in Hin as (n' & Ei & Hin).
  apply list_elem_of_fmap. exists n'. split; [|done]. rewrite Forall_forall in Hp. specialize (Hp n' Hin).
  unfold wf_node in *. rewrite Ei in Hw. by apply (id_of_kind_inj _ _ (id n')).
Qed.

Lemma stages_shape role vs :
  NoDup (resolveVisibleStages role vs) ∧ (2 <= length (resolveVisibleStages role vs))%nat.
Proof.
  assert (Hg : NoDup (getFlowStages role) ∧ (2 <= length (getFlowStages role))%nat).
  { split; [|destruct role; cbn; lia]. destruct role; apply (bool_decide_unpack _); vm_compute; exact I. }
  unfold resolveVisibleStages. destruct vs as [vs|]; [|done]. destruct (_ <=? _)%nat eqn:E; [|done].
  apply Nat.leb_le in E. split; [|done]. apply NoDup_ListNoDup, List.NoDup_filter, NoDup_ListNoDup. apply Hg.
Qed.

(** ** Sums over the events of paths *)

Lemma flat_weights {A X} (w : A → Z) (f : A → list X) (q : X → bool) ps :
  Forall (fun p => (length (List.filter q (f p)) <= 1)%nat) ps →
  zsum (map (fun e => w e.2) (List.filter (fun e => q e.1) (flat_map (fun p => map (fun x => (x, p)) (f p)) ps)))
  = zsum (map w (List.filter (fun p => existsb q (f p)) ps)).
Proof.
  induction 1 as [|p ps Hp Hps IH]; [done|]. cbn [flat_map]. rewrite List.filter_app, map_app, zsum_app, IH. cbn [List.filter].
  assert (E : zsum (map (fun e => w e.2) (List.filter (fun e => q e.1) (map (fun x => (x, p)) (f p))))
              = if existsb q (f p) then w p else 0%Z); [|rewrite E; by destruct (existsb q (f p))].
  clear -Hp. induction (f p) as [|x l IH]; [done|]. cbn [map List.filter existsb fst] in *. destruct (q x); cbn [orb map length] in *; [|auto].
  assert (List.filter q l = []) as Hl by (destruct (List.filter q l); [done|cbn in Hp; lia]).
  assert (List.filter (fun e => q e.1) (map (fun x => (x, p)) l) = []) as ->; [|cbn; lia].
  clear -Hl. induction l as [|y l IH]; [done|]. cbn [map List.filter fst] in *. destruct (q y); [done|auto].
Qed.

Lemma filter_le1 {X Y} `{EqDecision Y} (g : X → Y) i l :
  NoDup (map g l) → (length (List.filter (fun x => bool_decide (g x = i)) l) <= 1)%nat.
Proof.
  induction l as [|x l IH]; [cbn; lia|]. cbn [map]. intros [Hx Hl]%NoDup_cons. cbn [List.filter].
  destruct (bool_decide (g x = i)) eqn:E; [|auto]. apply bool_decide_eq_true in E. subst i.
  assert (List.filter (fun y => bool_decide (g y = g x)) l = []) as ->; [|cbn; lia].
  destruct (List.filter _ l) as [|y l'] eqn:Ef; [done|]. exfalso. apply Hx.
  assert (Hy : y ∈ List.filter (fun y => bool_decide (g y = g x)) l) by (rewrite Ef; set_solver).
  apply elem_of_List_filter in Hy as [Hy Ey%bool_decide_eq_true]. apply list_elem_of_fmap. by exists y.
Qed.

Lemma filter_map_comm {A B} (f : A → B) (q : B → bool) l : List.filter q (map f l) = map f (List.filter (fun x => q (f x)) l).
Proof. induction l as [|x l IH]; [done|]. cbn [map List.filter]. destruct (q (f x)); cbn [map]; by rewrite IH. Qed.

Lemma NoDup_map_finer {A B C} (h : A → B) (g : A → C) l :
  (∀ x y, x ∈ l → y ∈ l → g x = g y → h x = h y) → NoDup (map h l) → NoDup (map g l).
Proof.
  induction l as [|x l IH]; [constructor|]. cbn [map]. intros Hg [Hx Hl]%NoDup_cons. apply NoDup_cons. split.
  - intros (y & E & Hy)%list_elem_of_fmap. apply Hx, list_elem_of_fmap. exists y. split; [|done]. apply Hg; set_solver.
  - apply IH; [|done]. intros y z Hy Hz. apply Hg; set_solver.
Qed.

(** ** Steps of a path *)

Lemma steps_cons2 {A} (a b : A) l : steps (a :: b :: l) = (a, b) :: steps (b :: l).
Proof. done. Qed.

Lemma steps_targets {A} (p : list A) : map snd (steps p) = tail p.
Proof. induction p as [|a [|b l] IH]; [done|done|]. rewrite steps_cons2. cbn [map snd tail]. by rewrite IH. Qed.

Lemma steps_sources {A} (p : list A) : map fst (steps p) = removelast p.
Proof.
  induction p as [|a [|b l] IH]; [done|done|]. rewrite steps_cons2. cbn [map fst].
  change (removelast (a :: b :: l)) with (a :: removelast (b :: l)). by rewrite IH.
Qed.

Lemma elem_of_removelast {A} (x : A) l : x ∈ removelast l → x ∈ l.
Proof.
  induction l as [|a [|b l] IH]; [done|set_solver|]. change (removelast (a :: b :: l)) with (a :: removelast (b :: l)). set_solver.
Qed.

Lemma elem_of_tail {A} (x : A) l : x ∈ tail l → x ∈ l.
Proof. destruct l; set_solver. Qed.

Lemma elem_of_steps {A} (st : A * A) p : st ∈ steps p → st.1 ∈ p ∧ st.2 ∈ p.
Proof.
  intros H. split.
  - apply elem_of_removelast. rewrite <- steps_sources. apply list_elem_of_fmap. by exists st.
  - apply elem_of_tail. rewrite <- steps_targets. apply list_elem_of_fmap. by exists st.
Qed.

Lemma steps_targets_NoDup p : NoDup (map id p) → NoDup (map (fun st => id st.2) (steps p)).
Proof.
  intros H. rewrite <- (map_map snd id), steps_targets. destruct p; [done|]. by apply NoDup_cons in H as [_ H].
Qed.

Lemma steps_sources_NoDup p : NoDup (map id p) → NoDup (map (fun st => id st.1) (steps p)).
Proof.
  intros H. rewrite <- (map_map fst id), steps_sources. destruct p as [|n l] using rev_ind; [done|].
  rewrite removelast_last. rewrite map_app in H. by apply NoDup_app in H as [H _].
Qed.

Lemma key_inj (a a' b b' : jsstr) : 0%N ∉ a → 0%N ∉ a' → a ++ 0%N :: b = a' ++ 0%N :: b' → a = a' ∧ b = b'.
Proof.
  revert a'. induction a as [|c a IH]; intros [|c' a'] Ha Ha' E; cbn [app] in E.
  - by injection E.
  - injection E as <- _. set_solver.
  - injection E as -> _. set_solver.
  - injection E as <- E. destruct (IH a') as [-> ->]; set_solver.
Qed.

Definition at_id (i : jsstr) (n : FlowPathNode) : bool := bool_decide (id n = i).
Definition at_key (k : jsstr) (st : FlowPathNode * FlowPathNode) : bool := bool_decide (pathLinkKey st.1 st.2 = k).

Section weights.
Context (metric : FlowMetric).

Definition path_amount (p : PreparedFlowPath) : num := metricValue (metrics p) metric.
Definition path_weight (p : PreparedFlowPath) : Z := num_to_Z (path_amount p).
Definition row_amount (row : FlowQuotaDataItem) : num := metricValue (rowMetrics row) metric.
Definition row_weight (row : FlowQuotaDataItem) : Z := num_to_Z (row_amount row).

(** Counters that are integers, with a total a Number holds exactly. *)
Definition counted (rows : list FlowQuotaDataItem) : Prop := tallied row_amount row_weight rows.
Definition counted_paths (ps : list PreparedFlowPath) : Prop := tallied path_amount path_weight ps.

Lemma events_tallied {X} (f : PreparedFlowPath → list X) (q : X → bool) ps :
  counted_paths ps → Forall (fun p => (length (List.filter q (f p)) <= 1)%nat) ps →
  tallied (fun e => path_amount e.2) (fun e => path_weight e.2)
    (List.filter (fun e => q e.1) (flat_map (fun p => map (fun x => (x, p)) (f p)) ps)).
Proof.
  intros Hc Hu. split; [|rewrite flat_weights by done; exact (proj2 (tallied_filter _ _ _ _ Hc))].
  destruct Hc as [Hc _]. rewrite Forall_forall in Hc. apply Forall_forall. intros e [He _]%elem_of_List_filter.
  apply list_elem_of_In, in_flat_map in He as (p & Hp%list_elem_of_In & (x & <- & _)%in_map_iff). by apply Hc.
Qed.

Context (localeCompare : jsstr → jsstr → Z) (palette : option (list jsstr)) (stages : list FlowNodeKind).
Context (Hstages : NoDup stages).

Definition wf_paths (ps : list PreparedFlowPath) : Prop := Forall (fun p => wf_path stages (path p)) ps.

Lemma nodes_once ps i :
  wf_paths ps → Forall (fun p => (length (List.filter (at_id i) (path p)) <= 1)%nat) ps.
Proof. intros Hw. eapply Forall_impl; [exact Hw|]. intros p Hp. apply filter_le1. by apply (wf_NoDup stages). Qed.

Lemma node_fields k n ps :
  (k, n) ∈ node_map localeCompare metric palette ps →
  n_id n = k ∧ ∃ p pn, p ∈ ps ∧ pn ∈ path p ∧ id pn = k ∧ n_kind n = kind pn ∧ n_label n = label pn
    ∧ n_highlighted n = None ∧ n_dimmed n = None.
Proof.
  intros (e & He & Hk & ->)%tally_elem%entry_Some. set (g := in_group node_key k _).
  assert (H : ∀ n0, let n' := foldl (node_bump metric) n0 g in
     n_id n' = n_id n0 ∧ n_kind n' = n_kind n0 ∧ n_label n' = n_label n0 ∧ n_highlighted n' = n_highlighted n0 ∧ n_dimmed n' = n_dimmed n0).
  { induction g as [|e' g IH]; intros n0; [done|]. cbn [foldl]. apply (IH (node_bump metric n0 e')). }
  destruct (H (node_init (path_colors localeCompare palette ps) palette e)) as (-> & -> & -> & -> & ->).
  cbn [node_init n_id n_kind n_label n_highlighted n_dimmed]. split; [done|].
  destruct e as [pn p]. apply list_elem_of_In, in_flat_map in He as (p' & Hp%list_elem_of_In & He).
  apply in_map_iff in He as (pn' & [= -> ->] & Hpn%list_elem_of_In). by exists p, pn.
Qed.

Lemma node_present k ps :
  (∃ n, (k, n) ∈ node_map localeCompare metric palette ps) ↔ ∃ p, p ∈ ps ∧ k ∈ map id (path p).
Proof.
  unfold node_map. rewrite tally_has. split.
  - intros ([pn p] & He & <-). apply list_elem_of_In, in_flat_map in He as (p' & Hp%list_elem_of_In & He).
    apply in_map_iff in He as (pn' & [= -> ->] & Hpn%list_elem_of_In). exists p. split; [done|].
    apply list_elem_of_fmap. by exists pn.
  - intros (p & Hp & (pn & -> & Hpn)%list_elem_of_fmap). exists (pn, p). split; [|done].
    apply list_elem_of_In, in_flat_map. exists p. split; [by apply list_elem_of_In|]. apply in_map_iff.
    exists pn. split; [done|by apply list_elem_of_In].
Qed.

(** The paths through a node. *)
Definition through (i : jsstr) (p : PreparedFlowPath) : bool := existsb (at_id i) (path p).

Lemma node_value k n ps :
  counted_paths ps → wf_paths ps → (k, n) ∈ node_map localeCompare metric palette ps →
  n_value n = num_of_Z (zsum (map path_weight (List.filter (through k) ps))).
Proof.
  intros Hc Hw Hn. pose proof (nodes_once ps k Hw) as Hu.
  rewrite (tally_value node_key (node_init (path_colors localeCompare palette ps) palette) (node_bump metric)
             n_value (fun e => path_amount e.2) (fun e => path_weight e.2)) with (k := k) (es := node_events ps);
    [|done|done|by apply (events_tallied path (at_id k))|exact Hn].
  f_equal. by apply (flat_weights path_weight path (at_id k)).
Qed.

(** ** Links *)

Definition plain_paths (ps : list PreparedFlowPath) : Prop := Forall (fun p => Forall (fun n => 0%N ∉ id n) (path p)) ps.

Lemma events_elem {X} (f : PreparedFlowPath → list X) ps e :
  e ∈ flat_map (fun p => map (fun x => (x, p)) (f p)) ps ↔ e.2 ∈ ps ∧ e.1 ∈ f e.2.
Proof.
  rewrite list_elem_of_In, in_flat_map. setoid_rewrite in_map_iff. setoid_rewrite <- list_elem_of_In.
  destruct e as [x p]. cbn [fst snd]. naive_solver.
Qed.

Lemma link_source_plain ps e : plain_paths ps → e ∈ link_events ps → 0%N ∉ id e.1.1.
Proof.
  intros Hp [He Hs]%events_elem. unfold plain_paths in Hp. rewrite Forall_forall in Hp. specialize (Hp _ He).
  rewrite Forall_forall in Hp. apply Hp, (elem_of_steps e.1 (path e.2)). done.
Qed.

(** With ids free of NUL a link's key determines its ends. *)
Lemma link_key_inj ps e e' :
  plain_paths ps → e ∈ link_events ps → e' ∈ link_events ps → link_key e = link_key e' → id e.1.1 = id e'.1.1 ∧ id e.1.2 = id e'.1.2.
Proof.
  intros Hp He He' Hk. apply (link_source_plain ps) in He, He'; [|done..]. by apply key_inj in Hk.
Qed.

Lemma link_fields k l ps :
  (k, l) ∈ link_map localeCompare metric palette ps →
  linkStableKey l = k ∧ ∃ e, e ∈ link_events ps ∧ link_key e = k ∧ l_source l = id e.1.1 ∧ l_target l = id e.1.2
    ∧ sourceLabel l = label e.1.1 ∧ targetLabel l = label e.1.2 ∧ l_highlighted l = None ∧ l_dimmed l = None.
Proof.
  intros (e & He & Hk & ->)%tally_elem%entry_Some. set (g := in_group link_key k _).
  assert (H : ∀ l0, let l' := foldl (link_bump metric) l0 g in
     l_source l' = l_source l0 ∧ l_target l' = l_target l0 ∧ sourceLabel l' = sourceLabel l0 ∧ targetLabel l' = targetLabel l0
     ∧ l_highlighted l' = l_highlighted l0 ∧ l_dimmed l' = l_dimmed l0).
  { induction g as [|e' g IH]; intros l0; [done|]. cbn [foldl]. apply (IH (link_bump metric l0 e')). }
  unfold linkStableKey. destruct (H (link_init (path_colors localeCompare palette ps) palette e)) as (-> & -> & -> & -> & -> & ->).
  cbn [link_init l_source l_target sourceLabel targetLabel l_highlighted l_dimmed]. split; [done|]. by exists e.
Qed.

Lemma steps_once (g : FlowPathNode * FlowPathNode → FlowPathNode) i ps :
  wf_paths ps → (∀ p, NoDup (map id p) → NoDup (map (fun st => id (g st)) (steps p))) →
  Forall (fun p => (length (List.filter (fun st => at_id i (g st)) (steps (path p))) <= 1)%nat) ps.
Proof.
  intros Hw Hg. eapply Forall_impl; [exact Hw|]. intros p Hp. apply (filter_le1 (fun st => id (g st))).
  apply Hg. by apply (wf_NoDup stages).
Qed.

Lemma keys_once k ps :
  wf_paths ps → plain_paths ps →
  Forall (fun p => (length (List.filter (at_key k) (steps (path p))) <= 1)%nat) ps.
Proof.
  intros Hw Hp. apply Forall_forall. intros p Hin. apply (filter_le1 (fun st => pathLinkKey st.1 st.2)).
  unfold wf_paths, plain_paths in *. rewrite Forall_forall in Hw, Hp. specialize (Hw p Hin). specialize (Hp p Hin).
  apply (NoDup_map_finer (fun st => id st.1)); [|by apply steps_sources_NoDup, (wf_NoDup stages)].
  rewrite Forall_forall in Hp. intros st st' Hs Hs' E. apply elem_of_steps in Hs as [Hs _], Hs' as [Hs' _].
  by apply key_inj in E as [-> _]; [|apply Hp..].
Qed.

(** What flows along the links that [g] selects. *)
Lemma link_sum (g : FlowPathNode * FlowPathNode → FlowPathNode) (fld : DashboardFlowLink → jsstr) i ps :
  counted_paths ps → wf_paths ps → plain_paths ps →
  (∀ p, NoDup (map id p) → NoDup (map (fun st => id (g st)) (steps p))) →
  (∀ k l e, (k, l) ∈ link_map localeCompare metric palette ps → e ∈ link_events ps → link_key e = k → id (g e.1) = fld l) →
  zsum (map (fun l => num_to_Z (l_value l)) (List.filter (fun l => bool_decide (fld l = i)) (link_map localeCompare metric palette ps).*2))
  = zsum (map path_weight (List.filter (fun p => existsb (fun st => at_id i (g st)) (steps (path p))) ps)).
Proof.
  intros Hc Hw Hp Hg Hf. rewrite <- (flat_weights path_weight (fun p => steps (path p)) (fun st => at_id i (g st))) by by apply steps_once.
  rewrite <- (tally_sum link_key (link_init (path_colors localeCompare palette ps) palette) (link_bump metric) l_value
                (fun e => path_amount e.2) (fun e => path_weight e.2)) with (q := fun l => bool_decide (fld l = i)); [|done|done| |].
  - change (link_map localeCompare metric palette ps).*2 with (map snd (link_map localeCompare metric palette ps)).
    rewrite filter_map_comm, map_map. done.
  - intros k. apply (events_tallied (fun p => steps (path p)) (at_key k)); [done|].
    by apply keys_once.
  - intros k l e Hl He Hk. unfold at_id. by rewrite (Hf k l e).
Qed.
End weights.
