(* ===== verification/FlowLaws.v ===== *)
(** * Usage flows: laws of the graph

    The theorems about nodes, links and totals of the graph a page shows, for rows
    whose counters are integers with a safe total. *)

From S2P Require Import Prelude JsNum IntNum Json NumText Flow FlowGraph FlowData FlowTotals.
From Stdlib Require Import Floats.SpecFloat.

(** ** From rows to paths *)

Definition no_nul (s : jsstr) : Prop := 0%N ∉ s.
#[export] Instance no_nul_dec s : Decision (no_nul s).
Proof. unfold no_nul. apply _. Defined.

(** A row whose texts have no NUL character. *)
Definition plain_row (row : FlowQuotaDataItem) : Prop :=
  Forall (fun t => no_nul (default [] t))
    [username row; node_name row; use_group row; token_name row; channel_name row; model_name row].

#[export] Instance plain_row_dec row : Decision (plain_row row).
Proof. unfold plain_row. apply _. Defined.
#[export] Instance counted_dec metric rows : Decision (counted metric rows).
Proof. unfold counted, tallied, safe. apply _. Defined.

(** A decidable condition on concrete data. *)
Ltac decided := apply (bool_decide_unpack _); vm_compute; exact I.

Lemma no_nul_app s t : no_nul s → no_nul t → no_nul (s ++ t).
Proof. unfold no_nul. set_solver. Qed.

Lemma no_nul_or t fallback : no_nul (default [] t) → no_nul fallback → no_nul (text_or t fallback).
Proof. intros H H'. unfold text_or, str_or. by destruct (nonempty _). Qed.

Lemma no_nul_number x : no_nul (Number_toString (num_field x)).
Proof.
  assert (Hf : num_is_finite (num_field x) = true).
  { unfold num_field, numberValue. destruct (num_is_finite (Number_value _)) eqn:E; done. }
  apply Number_toString_numtext in Hf as [_ Hf]. intros H0. rewrite Forall_forall in Hf. by apply Hf in H0.
Qed.

Ltac no_nul := repeat first
  [ apply no_nul_app | apply no_nul_or | apply no_nul_number | assumption
  | match goal with |- no_nul (js _) => unfold no_nul; apply (bool_decide_unpack _); vm_compute; exact I end ].

Lemma builder_plain k row ctx : plain_row row → no_nul (id (NODE_BUILDERS k row ctx)).
Proof.
  unfold plain_row. rewrite !Forall_cons. intros (H1 & H2 & H3 & H4 & H5 & H6 & _).
  destruct k; cbn [NODE_BUILDERS]; unfold userNode, nodeNameNode, tokenNode, groupNode, modelNode, channelNode; cbn [id];
    try destruct (num_pos _); no_nul.
Qed.

Lemma other_plain k labeler : no_nul (id (otherFlowNode k labeler)).
Proof. destruct k; unfold no_nul; apply (bool_decide_unpack _); vm_compute; exact I. Qed.

Section rows.
Context (stages : list FlowNodeKind) (ctx : FlowPathContext) (ts : option (list (FlowNodeKind * list jsstr))).
Context (mode : FlowOverflowMode) (labeler : option (FlowNodeKind → jsstr)).

(** The path of a row, limited to the top nodes; [None] when it is hidden. *)
Definition limitedPath (row : FlowQuotaDataItem) : option (list FlowPathNode) :=
  applyTopNodeLimit (flowPathForStages row stages ctx) ts mode labeler.

Definition kept (row : FlowQuotaDataItem) : bool := match limitedPath row with Some _ => true | None => false end.

Lemma prepared_elem rows p :
  p ∈ preparePaths rows stages ctx ts mode labeler ↔
  ∃ row, row ∈ rows ∧ limitedPath row = Some (path p) ∧ metrics p = rowMetrics row.
Proof.
  unfold preparePaths. rewrite list_elem_of_omap. unfold limitedPath. split.
  - intros (row & Hin & (p' & Hp & ->)%fmap_Some). by exists row.
  - intros (row & Hin & Hp & Hm). exists row. split; [done|]. apply fmap_Some. exists (path p). split; [done|].
    destruct p; cbn in *. by rewrite Hm.
Qed.

Lemma prepared_wf rows : wf_paths stages (preparePaths rows stages ctx ts mode labeler).
Proof.
  apply Forall_forall. intros p (row & _ & Hp & _)%prepared_elem. eapply limited_wf; [|exact Hp]. apply path_wf.
Qed.

Lemma prepared_plain rows : Forall plain_row rows → plain_paths (preparePaths rows stages ctx ts mode labeler).
Proof.
  intros Hr. apply Forall_forall. intros p (row & Hin & Hp & _)%prepared_elem. rewrite Forall_forall in Hr.
  specialize (Hr _ Hin). assert (Hb : Forall (fun n => no_nul (id n)) (flowPathForStages row stages ctx)).
  { apply Forall_fmap, Forall_true. intros k. by apply builder_plain. }
  unfold limitedPath, applyTopNodeLimit in Hp. destruct ts; [|by injection Hp as <-].
  destruct (negb _); [by injection Hp as <-|]. destruct mode; [|done]. injection Hp as <-.
  apply Forall_fmap. eapply Forall_impl; [exact Hb|]. intros n Hn. cbn. destruct (isTopFlowNode _ _); [done|]. apply other_plain.
Qed.

Lemma prepared_weights metric rows :
  map (path_weight metric) (preparePaths rows stages ctx ts mode labeler)
  = map (row_weight metric) (List.filter kept rows).
Proof.
  induction rows as [|row rows IH]; [done|]. unfold preparePaths in *. cbn [omap list_omap List.filter].
  unfold kept at 1, limitedPath. destruct (applyTopNodeLimit _ _ _ _); cbn [fmap option_fmap option_map]; [|done].
  cbn [map]. by rewrite <- IH.
Qed.

Lemma prepared_counted metric rows :
  counted metric rows → counted_paths metric (preparePaths rows stages ctx ts mode labeler).
Proof.
  intros Hc. split; [|rewrite prepared_weights; exact (proj2 (tallied_filter _ _ _ _ Hc))].
  destruct Hc as [Hc _]. rewrite Forall_forall in Hc. apply Forall_forall. intros p (row & Hin & _ & Hm)%prepared_elem.
  unfold path_weight, path_amount. rewrite Hm. by apply Hc.
Qed.
End rows.

(** ** The graph of some rows *)

Section graph.
Context (localeCompare : jsstr → jsstr → Z) (metric : FlowMetric) (palette : option (list jsstr)).
Context (rows : list FlowQuotaDataItem) (role : FlowRole) (visibleStages : option (list FlowNodeKind)).
Context (ctx : FlowPathContext) (options : FlowGraphOptions).

Notation stages := (resolveVisibleStages role visibleStages).
Notation paths := (graphPaths localeCompare rows metric stages ctx options).
Notation graph := (buildFlowGraph localeCompare rows metric role palette visibleStages ctx options).

Lemma graph_node n :
  n ∈ g_nodes graph → ∃ n', (n_id n, n') ∈ node_map localeCompare metric palette paths ∧ node_core n' = node_core n.
Proof.
  intros Hn. assert (Hc : node_core n ∈ map node_core (g_nodes graph)) by (apply list_elem_of_fmap; eauto).
  rewrite graph_nodes_core in Hc. apply list_elem_of_fmap in Hc as (n' & E & ([k n''] & -> & Hin)%list_elem_of_fmap).
  exists n''. cbn [snd] in *. split; [|done]. pose proof (node_fields metric localeCompare palette k n'' _ Hin) as [Hk _].
  by replace (n_id n) with k by (unfold node_core in E; congruence).
Qed.

Lemma graph_node_of k n' :
  (k, n') ∈ node_map localeCompare metric palette paths → ∃ n, n ∈ g_nodes graph ∧ n_id n = k ∧ node_core n' = node_core n.
Proof.
  intros Hn. assert (Hc : node_core n' ∈ map node_core (node_map localeCompare metric palette paths).*2).
  { apply list_elem_of_fmap. exists n'. split; [done|]. apply list_elem_of_fmap. by exists (k, n'). }
  rewrite <- graph_nodes_core in Hc. apply list_elem_of_fmap in Hc as (n & E & Hin).
  exists n. split; [done|]. split; [|done]. apply node_fields in Hn as [Hk _]. unfold node_core in E. congruence.
Qed.

Lemma graph_link l :
  l ∈ g_links graph → ∃ l', (linkStableKey l, l') ∈ link_map localeCompare metric palette paths ∧ link_core l' = link_core l.
Proof.
  intros Hl. assert (Hc : link_core l ∈ map link_core (g_links graph)) by (apply list_elem_of_fmap; eauto).
  rewrite graph_links_core in Hc. apply list_elem_of_fmap in Hc as (l' & E & ([k l''] & -> & Hin)%list_elem_of_fmap).
  exists l''. cbn [snd] in *. split; [|done]. pose proof (link_fields metric localeCompare palette k l'' _ Hin) as [Hk _].
  replace (linkStableKey l) with k; [done|]. unfold link_core, linkStableKey in *. injection E as -> ->. done.
Qed.

Lemma List_filter_perm {A} (q : A → bool) l l' : l ≡ₚ l' → List.filter q l ≡ₚ List.filter q l'.
Proof.
  induction 1 as [|x l l' _ IH|x y l|l1 l2 l3 _ IH1 _ IH2]; cbn [List.filter]; [done| | |by rewrite IH1].
  - destruct (q x); by rewrite IH.
  - destruct (q x), (q y); try done. apply Permutation_swap.
Qed.

Lemma core_sum {A B} (core : A → B) (F : B → Z) (q : B → bool) l l' :
  map core l ≡ₚ map core l' →
  zsum (map (fun x => F (core x)) (List.filter (fun x => q (core x)) l))
  = zsum (map (fun x => F (core x)) (List.filter (fun x => q (core x)) l')).
Proof.
  intros Hp. rewrite <- !(map_map core F), <- !(filter_map_comm core q). apply zsum_perm, Permutation_map.
  by apply List_filter_perm.
Qed.

(** The integers of the graph. *)
Definition node_Z (n : DashboardFlowNode) : Z := num_to_Z (n_value n).
Definition link_Z (l : DashboardFlowLink) : Z := num_to_Z (l_value l).

Definition inflow (g : DashboardFlowGraph) (i : jsstr) : Z :=
  zsum (map link_Z (List.filter (fun l => bool_decide (l_target l = i)) (g_links g))).
Definition outflow (g : DashboardFlowGraph) (i : jsstr) : Z :=
  zsum (map link_Z (List.filter (fun l => bool_decide (l_source l = i)) (g_links g))).
Definition stage_total (g : DashboardFlowGraph) (k : FlowNodeKind) : Z :=
  zsum (map node_Z (List.filter (fun n => bool_decide (n_kind n = k)) (g_nodes g))).

Context (Hc : counted metric rows).

Lemma graph_counted : counted_paths metric paths.
Proof. by apply prepared_counted. Qed.
Lemma graph_wf : wf_paths stages paths.
Proof. apply prepared_wf. Qed.

Lemma graph_node_value n :
  n ∈ g_nodes graph → n_value n = num_of_Z (zsum (map (path_weight metric) (List.filter (through (n_id n)) paths))).
Proof.
  intros (n' & Hin & E)%graph_node. replace (n_value n) with (n_value n') by (unfold node_core in E; congruence).
  apply (node_value metric localeCompare palette stages (proj1 (stages_shape role visibleStages)));
    [apply graph_counted|apply graph_wf|done].
Qed.

Lemma link_core_sum (fld : DashboardFlowLink → jsstr) i :
  (fld = l_source ∨ fld = l_target) →
  zsum (map link_Z (List.filter (fun l => bool_decide (fld l = i)) (g_links graph)))
  = zsum (map link_Z (List.filter (fun l => bool_decide (fld l = i)) (link_map localeCompare metric palette paths).*2)).
Proof.
  intros [->| ->].
  - pose proof (core_sum link_core (fun c => num_to_Z c.1.1.2.1.1.1) (fun c => bool_decide (c.1.1.1.1 = i)) _ _
      (graph_links_core localeCompare metric palette rows role visibleStages ctx options)) as E. exact E.
  - pose proof (core_sum link_core (fun c => num_to_Z c.1.1.2.1.1.1) (fun c => bool_decide (c.1.1.1.2 = i)) _ _
      (graph_links_core localeCompare metric palette rows role visibleStages ctx options)) as E. exact E.
Qed.

Context (Hp : Forall plain_row rows).

Lemma graph_plain : plain_paths paths.
Proof. by apply prepared_plain. Qed.

Lemma link_ends k l e :
  (k, l) ∈ link_map localeCompare metric palette paths → e ∈ link_events paths → link_key e = k →
  id e.1.1 = l_source l ∧ id e.1.2 = l_target l.
Proof.
  intros (_ & e' & He' & Hk' & -> & -> & _)%link_fields He Hk. eapply link_key_inj; [apply graph_plain|done..|congruence].
Qed.

Lemma inflow_paths i :
  inflow graph i = zsum (map (path_weight metric) (List.filter (fun p => existsb (at_id i) (tail (path p))) paths)).
Proof.
  unfold inflow. rewrite link_core_sum by auto. unfold link_Z.
  rewrite (link_sum metric localeCompare palette stages (proj1 (stages_shape role visibleStages)) snd l_target).
  - do 2 f_equal. apply List.filter_ext. intros p. rewrite <- steps_targets, existsb_map. done.
  - apply graph_counted.
  - apply graph_wf.
  - apply graph_plain.
  - apply steps_targets_NoDup.
  - intros k l e Hl He Hk. by apply (link_ends k l e).
Qed.

Lemma outflow_paths i :
  outflow graph i = zsum (map (path_weight metric) (List.filter (fun p => existsb (at_id i) (removelast (path p))) paths)).
Proof.
  unfold outflow. rewrite link_core_sum by auto. unfold link_Z.
  rewrite (link_sum metric localeCompare palette stages (proj1 (stages_shape role visibleStages)) fst l_source).
  - do 2 f_equal. apply List.filter_ext. intros p. rewrite <- steps_sources, existsb_map. done.
  - apply graph_counted.
  - apply graph_wf.
  - apply graph_plain.
  - apply steps_sources_NoDup.
  - intros k l e Hl He Hk. by apply (link_ends k l e).
Qed.
End graph.

(** ** Paths through a node *)

Lemma existsb_at_id i p : existsb (at_id i) p = true ↔ i ∈ map id p.
Proof.
  rewrite existsb_exists, list_elem_of_fmap. setoid_rewrite <- list_elem_of_In. unfold at_id.
  setoid_rewrite bool_decide_eq_true. naive_solver.
Qed.

(** A node of another kind is not at [n]. *)
Lemma at_id_kind k i n : wf_node n → id_of_kind k i → kind n ≠ k → at_id i n = false.
Proof. intros Hn Hi Hk. apply bool_decide_eq_false. intros <-. apply Hk. by apply (id_of_kind_inj _ _ (id n)). Qed.

Lemma through_tail stages k i p :
  wf_path stages p → id_of_kind k i → head stages ≠ Some k → existsb (at_id i) (tail p) = existsb (at_id i) p.
Proof.
  intros [<- Hw] Hi Hk. destruct p as [|n p]; [done|]. cbn [tail existsb]. apply Forall_cons in Hw as [Hn _].
  rewrite (at_id_kind k); [done..|]. intros E. apply Hk. cbn. by rewrite E.
Qed.

Lemma through_init stages k i p :
  wf_path stages p → id_of_kind k i → last stages ≠ Some k → existsb (at_id i) (removelast p) = existsb (at_id i) p.
Proof.
  intros [<- Hw] Hi Hk. destruct p as [|n p _] using rev_ind; [done|]. rewrite removelast_last, existsb_app. cbn [existsb].
  apply Forall_app in Hw as [_ [Hn _]%Forall_cons]. rewrite (at_id_kind k); [by rewrite !orb_false_r|done..|].
  intros E. apply Hk. rewrite map_app. cbn [map]. by rewrite last_snoc, E.
Qed.

Lemma zsum_filter_ext {A} (w : A → Z) (q q' : A → bool) l :
  Forall (fun x => q x = q' x) l → zsum (map w (List.filter q l)) = zsum (map w (List.filter q' l)).
Proof.
  intros H. do 2 f_equal. apply List.filter_ext_in. intros x Hx%list_elem_of_In. rewrite Forall_forall in H. by apply H.
Qed.

Lemma graph_node_kind localeCompare metric palette rows role visibleStages ctx options n :
  n ∈ g_nodes (buildFlowGraph localeCompare rows metric role palette visibleStages ctx options) →
  id_of_kind (n_kind n) (n_id n) ∧ n_kind n ∈ resolveVisibleStages role visibleStages.
Proof.
  intros (n' & Hn' & E)%graph_node. apply node_fields in Hn' as (Hi & p & pn & Hin & Hpn & Ei & Ek & _).
  pose proof (graph_wf localeCompare metric rows role visibleStages ctx options) as Hw. unfold wf_paths in Hw.
  rewrite Forall_forall in Hw. destruct (Hw p Hin) as [Hm Hf]. rewrite Forall_forall in Hf.
  replace (n_kind n) with (kind pn) by (unfold node_core in E; congruence). rewrite <- Ei. split; [by apply Hf|].
  rewrite <- Hm. apply list_elem_of_fmap. by exists pn.
Qed.

(** ** Exact nodes *)

(** The nodes of the graph are exactly the nodes on the paths of the rows (after
    the limit on nodes), and the value of each is the sum of the metric over the
    rows whose path goes through it: integer counters with a safe total are added
    without rounding. *)
Theorem node_usage_exact localeCompare metric palette rows role visibleStages ctx options :
  counted metric rows →
  let g := buildFlowGraph localeCompare rows metric role palette visibleStages ctx options in
  let ps := graphPaths localeCompare rows metric (resolveVisibleStages role visibleStages) ctx options in
  (∀ i, (∃ n, n ∈ g_nodes g ∧ n_id n = i) ↔ ∃ p, p ∈ ps ∧ i ∈ map id (path p))
  ∧ ∀ n, n ∈ g_nodes g →
      n_value n = num_of_Z (zsum (map (path_weight metric) (List.filter (fun p => bool_decide (n_id n ∈ map id (path p))) ps))).
Proof.
  intros Hc g ps. split.
  - intros i. unfold ps. rewrite <- (node_present metric localeCompare palette i). split.
    + intros (n & (n' & Hn' & _)%graph_node & <-). by exists n'.
    + intros (n' & (n & Hn & Hi & _)%(graph_node_of _ _ palette _ _ _ _ _ i n')). by exists n.
  - intros n Hn. rewrite (graph_node_value _ _ _ _ _ _ _ _ Hc n Hn). f_equal. apply zsum_filter_ext, Forall_forall.
    intros p _. apply eq_true_iff_eq. unfold through. rewrite existsb_at_id, bool_decide_eq_true. done.
Qed.

(** The demonstration rows, limited to one node per column. *)
Definition demo_limited : FlowGraphOptions := mkGraphOptions (Some (num_of_Z 1)) None None None None None.

Lemma node_usage_exact_witness :
  let g := buildFlowGraph str_cmp demo_rows MQuota RAdmin None None None demo_limited in
  map (fun n => (n_id n, node_Z n)) (g_nodes g)
  = [(js "channel:unknown", 10%Z); (js "group:vip", 8%Z); (js "user:ann", 7%Z); (js "model:m1", 7%Z);
     (js "model:__other__", 3%Z); (js "user:__other__", 3%Z); (js "group:__other__", 2%Z)]
  ∧ ∀ n, n ∈ g_nodes g →
      n_value n = num_of_Z (zsum (map (path_weight MQuota) (List.filter (fun p => bool_decide (n_id n ∈ map id (path p)))
        (graphPaths str_cmp demo_rows MQuota (resolveVisibleStages RAdmin None) None demo_limited)))).
Proof. split; [vm_compute; reflexivity|]. apply node_usage_exact. decided. Defined.

(** ** Conservation *)

(** C9: Flow is conserved: what enters a node that is not in the first column, and
    what leaves a node that is not in the last one, is exactly the node's value. *)
Theorem flow_conserved localeCompare metric palette rows role visibleStages ctx options n :
  counted metric rows → Forall plain_row rows →
  let g := buildFlowGraph localeCompare rows metric role palette visibleStages ctx options in
  let stages := resolveVisibleStages role visibleStages in
  n ∈ g_nodes g →
  (head stages ≠ Some (n_kind n) → inflow g (n_id n) = node_Z n)
  ∧ (last stages ≠ Some (n_kind n) → outflow g (n_id n) = node_Z n).
Proof.
  intros Hc Hp g stages Hn. pose proof (graph_node_value _ _ _ _ _ _ _ _ Hc n Hn) as Hv.
  pose proof (graph_node_kind _ _ _ _ _ _ _ _ n Hn) as [Hk _].
  pose proof (graph_wf localeCompare metric rows role visibleStages ctx options) as Hw.
  unfold node_Z. rewrite Hv, num_to_Z_of by apply (tallied_filter _ _ _ _ (graph_counted _ _ _ _ _ _ _ Hc)).
  subst g. split; intros Hs; [rewrite inflow_paths by done|rewrite outflow_paths by done]; apply zsum_filter_ext;
    eapply Forall_impl; [exact Hw| |exact Hw|]; intros p Hwp.
  - by apply (through_tail stages (n_kind n)).
  - by apply (through_init stages (n_kind n)).
Qed.

Lemma flow_conserved_witness :
  let g := buildFlowGraph str_cmp demo_rows MQuota RAdmin None None None demo_limited in
  ∃ n, n ∈ g_nodes g ∧ n_id n = js "group:vip" ∧ node_Z n = 8%Z
    ∧ inflow g (n_id n) = node_Z n ∧ outflow g (n_id n) = node_Z n.
Proof.
  exists (nth 1 (g_nodes (buildFlowGraph str_cmp demo_rows MQuota RAdmin None None None demo_limited)) (mkNode [] [] KUser zero zero zero zero [] [] None None)).
  assert (Hn : nth 1 (g_nodes (buildFlowGraph str_cmp demo_rows MQuota RAdmin None None None demo_limited))
     (mkNode [] [] KUser zero zero zero zero [] [] None None)
     ∈ g_nodes (buildFlowGraph str_cmp demo_rows MQuota RAdmin None None None demo_limited)).
  { apply list_elem_of_In, nth_In. vm_compute. lia. }
  split; [exact Hn|]. split; [vm_compute; reflexivity|]. split; [vm_compute; reflexivity|].
  apply (flow_conserved str_cmp MQuota None demo_rows RAdmin None None demo_limited _) in Hn as [Hi Ho];
    [|decided|decided]. split; [apply Hi|apply Ho]; vm_compute; discriminate.
Defined.

(** ** Totals *)

Lemma stage_once stages k ps :
  NoDup stages → wf_paths stages ps →
  Forall (fun p => (length (List.filter (fun n => bool_decide (kind n = k)) (path p)) <= 1)%nat) ps.
Proof.
  intros Hs Hw. eapply Forall_impl; [exact Hw|]. intros p [Hm _]. apply filter_le1. by rewrite Hm.
Qed.

Lemma stage_total_paths localeCompare metric palette rows role visibleStages ctx options k :
  counted metric rows → k ∈ resolveVisibleStages role visibleStages →
  stage_total (buildFlowGraph localeCompare rows metric role palette visibleStages ctx options) k
  = zsum (map (path_weight metric) (graphPaths localeCompare rows metric (resolveVisibleStages role visibleStages) ctx options)).
Proof.
  intros Hc Hk. set (ps := graphPaths _ _ _ _ _ _). destruct (stages_shape role visibleStages) as [Hs _].
  pose proof (graph_wf localeCompare metric rows role visibleStages ctx options) as Hw. fold ps in Hw.
  pose proof (graph_counted localeCompare metric rows role visibleStages ctx options Hc) as Hcp. fold ps in Hcp.
  pose (kind_is := fun n => bool_decide (kind n = k)).
  pose proof (core_sum node_core (fun c => num_to_Z c.1.1.2.1.1.1) (fun c => bool_decide (c.1.1.1.2 = k)) _ _
      (graph_nodes_core localeCompare metric palette rows role visibleStages ctx options)) as E. fold ps in E.
  unfold stage_total. etransitivity; [exact E|]. clear E.
  transitivity (zsum (map (path_weight metric) (List.filter (fun p => existsb kind_is (path p)) ps))).
  - rewrite <- (flat_weights (path_weight metric) path kind_is) by by apply (stage_once (resolveVisibleStages role visibleStages)).
    rewrite <- (tally_sum node_key (node_init (path_colors localeCompare palette ps) palette) (node_bump metric) n_value
       (fun e => path_amount metric e.2) (fun e => path_weight metric e.2)) with (q := fun n => bool_decide (n_kind n = k)); [|done|done| |].
    + change (node_map localeCompare metric palette ps).*2 with (map snd (node_map localeCompare metric palette ps)).
      rewrite filter_map_comm, map_map. done.
    + intros i. apply (events_tallied metric path (at_id i)); [done|by apply (nodes_once (resolveVisibleStages role visibleStages))].
    + intros i n e Hn He Hi. apply node_fields in Hn as (_ & p & pn & Hp & Hpn & Ei & -> & _). unfold kind_is.
      apply events_elem in He as [He1 He2]. f_equal. unfold wf_paths in Hw. rewrite Forall_forall in Hw.
      destruct (Hw p Hp) as [_ Hf], (Hw _ He1) as [_ Hf']. rewrite Forall_forall in Hf, Hf'.
      specialize (Hf pn Hpn). specialize (Hf' _ He2). unfold wf_node in *. unfold node_key in Hi.
      apply bool_decide_ext. assert (kind e.1 = kind pn) as ->; [|done]. apply (id_of_kind_inj _ _ i); congruence.
  - do 2 f_equal. apply List_filter_all. eapply Forall_impl; [exact Hw|]. intros p [Hm _].
    rewrite existsb_exists. setoid_rewrite <- list_elem_of_In. rewrite <- Hm in Hk.
    apply list_elem_of_fmap in Hk as (n & -> & Hn). exists n. split; [done|]. by apply bool_decide_eq_true.
Qed.

Definition summary_metric (s : FlowSummary) (metric : FlowMetric) : num :=
  match metric with MRequests => s_requests s | MTokens => s_tokens s | MQuota => s_quota s end.

Lemma summary_foldl metric rows s :
  summary_metric (foldl (fun s row =>
     let m := rowMetrics row in
     mkSummary (num_add (s_quota s) (quota m)) (num_add (s_tokens s) (tokens m)) (num_add (s_requests s) (requests m))) s rows) metric
  = foldl num_add (summary_metric s metric) (map (row_amount metric) rows).
Proof.
  revert s. induction rows as [|row rows IH]; intros s; [done|]. cbn [foldl map]. rewrite IH. f_equal. by destruct metric.
Qed.

Lemma summary_exact metric rows :
  counted metric rows → summary_metric (buildSummary rows) metric = num_of_Z (zsum (map (row_weight metric) rows)).
Proof.
  intros [Hr Hs]. unfold buildSummary. rewrite summary_foldl.
  assert (map (row_amount metric) rows = map num_of_Z (map (row_weight metric) rows)) as ->.
  { rewrite map_map. apply map_ext_in. intros r Hin%list_elem_of_In. rewrite Forall_forall in Hr. by apply Hr. }
  replace (summary_metric (mkSummary zero zero zero) metric) with (num_of_Z 0) by by destruct metric.
  apply foldl_add_exact; [done| |done]. apply List.Forall_map. rewrite List.Forall_forall. rewrite Forall_forall in Hr.
  intros r Hin%list_elem_of_In. by apply Hr.
Qed.

Lemma kept_aggregate stages ctx ts labeler row : kept stages ctx ts Aggregate labeler row = true.
Proof. unfold kept, limitedPath, applyTopNodeLimit. destruct ts; [|done]. by destruct (negb _). Qed.

Definition page_stages (options : FlowBuildOptions) : list FlowNodeKind :=
  resolveVisibleStages (default DEFAULT_FLOW_ROLE (o_role options)) (o_visibleStages options).

(** No column of the graph loses usage: on a page that aggregates what is beyond
    the limit on nodes, the values of the nodes of each visible stage sum to the
    total of the summary; on a page that hides it, they sum to at most that. *)
Theorem stage_totals_match_summary localeCompare formatNumber rows metric options k :
  counted metric (shownRows rows options) → k ∈ page_stages options →
  let d := buildDashboardFlowData localeCompare formatNumber rows metric options in
  let total := num_to_Z (summary_metric (summary d) metric) in
  (overflowMode (o_graph options) ≠ Some Hide → stage_total (flow d) k = total)
  ∧ (0 <= stage_total (flow d) k <= total)%Z.
Proof.
  intros Hc Hk d total. unfold total, d, buildDashboardFlowData. cbn [summary flow].
  rewrite (summary_exact _ _ Hc), num_to_Z_of by apply Hc. rewrite stage_total_paths by done. unfold graphPaths.
  rewrite prepared_weights. pose proof (tallied_nonneg _ _ _ Hc) as Hn. split.
  - intros Hm. rewrite List_filter_all; [done|]. apply Forall_true. intros row.
    destruct (overflowMode (o_graph options)) as [[|]|]; [|done|]; apply kept_aggregate.
  - split; [|by apply zsum_filter_le]. apply zsum_nonneg, List.Forall_map. rewrite List.Forall_forall. rewrite Forall_forall in Hn.
    intros r [Hin%list_elem_of_In _]%List.filter_In. by apply Hn.
Qed.

Lemma stage_totals_match_summary_witness :
  let d := buildDashboardFlowData str_cmp Number_toString demo_rows MTokens demo_options in
  num_to_Z (summary_metric (summary d) MTokens) = 100%Z
  ∧ stage_total (flow d) KGroup = num_to_Z (summary_metric (summary d) MTokens).
Proof.
  split; [vm_compute; reflexivity|].
  apply (stage_totals_match_summary str_cmp Number_toString demo_rows MTokens demo_options KGroup); [decided|decided|done].
Defined.

(** ** Shape *)

(** The second of two kinds is the stage after the first. *)
Definition adjacent (stages : list FlowNodeKind) (k k' : FlowNodeKind) : Prop := (k, k') ∈ steps stages.

Lemma steps_map {A B} (f : A → B) p : steps (map f p) = map (fun st => (f st.1, f st.2)) (steps p).
Proof. induction p as [|a [|b l] IH]; [done|done|]. rewrite steps_cons2. cbn [map fst snd] in *. rewrite steps_cons2. by rewrite IH. Qed.

Record well_formed_graph (stages : list FlowNodeKind) (g : DashboardFlowGraph) : Prop := mkWf {
  wf_node_ids : NoDup (map n_id (g_nodes g));
  wf_link_keys : NoDup (map linkStableKey (g_links g));
  wf_kinds : ∀ n, n ∈ g_nodes g → n_kind n ∈ stages;
  wf_ends : ∀ l, l ∈ g_links g → ∃ s t, s ∈ g_nodes g ∧ t ∈ g_nodes g
     ∧ n_id s = l_source l ∧ n_id t = l_target l ∧ adjacent stages (n_kind s) (n_kind t);
  wf_joined : ∀ n, n ∈ g_nodes g → ∃ l, l ∈ g_links g ∧ (l_source l = n_id n ∨ l_target l = n_id n)
}.

Section shape.
Context (localeCompare : jsstr → jsstr → Z) (metric : FlowMetric) (palette : option (list jsstr)).
Context (rows : list FlowQuotaDataItem) (role : FlowRole) (visibleStages : option (list FlowNodeKind)).
Context (ctx : FlowPathContext) (options : FlowGraphOptions).

Notation stages := (resolveVisibleStages role visibleStages).
Notation paths := (graphPaths localeCompare rows metric stages ctx options).
Notation graph := (buildFlowGraph localeCompare rows metric role palette visibleStages ctx options).

Lemma map_keys_NoDup {A B} (core : A → B) (f : B → jsstr) (g : list A) (m : list (jsstr * A)) :
  map core g ≡ₚ map core m.*2 → (∀ k x, (k, x) ∈ m → f (core x) = k) → NoDup m.*1 → NoDup (map (fun x => f (core x)) g).
Proof.
  intros Hp Hf Hm. rewrite <- (map_map core f). rewrite Hp. rewrite map_map. change (m.*2) with (map snd m). rewrite map_map.
  replace (map (fun x => f (core x.2)) m) with m.*1; [done|]. apply map_ext_in. intros [k x] Hin%list_elem_of_In.
  cbn [fst snd]. symmetry. by apply Hf.
Qed.

Lemma graph_ids_NoDup : NoDup (map n_id (g_nodes graph)).
Proof.
  apply (map_keys_NoDup node_core (fun c => c.1.1.1.1) _ (node_map localeCompare metric palette paths)).
  - apply graph_nodes_core.
  - intros k n Hn. by apply node_fields in Hn as [Hk _].
  - apply tally_NoDup.
Qed.

Lemma graph_keys_NoDup : NoDup (map linkStableKey (g_links graph)).
Proof.
  apply (map_keys_NoDup link_core (fun c => c.1.1.1.1 ++ 0%N :: c.1.1.1.2) _ (link_map localeCompare metric palette paths)).
  - apply graph_links_core.
  - intros k n Hn. by apply link_fields in Hn as [Hk _].
  - apply tally_NoDup.
Qed.

(** A node of a path is in the graph, with its kind. *)
Lemma path_node_in_graph p pn :
  p ∈ paths → pn ∈ path p → ∃ n, n ∈ g_nodes graph ∧ n_id n = id pn ∧ n_kind n = kind pn.
Proof.
  intros Hp Hn. destruct (proj2 (node_present metric localeCompare palette (id pn) paths)) as [n' Hn'].
  { exists p. split; [done|]. apply list_elem_of_fmap. by exists pn. }
  destruct (graph_node_of _ _ _ _ _ _ _ _ _ _ Hn') as (n & Hin & Hi & _). exists n. split; [done|]. split; [done|].
  apply graph_node_kind in Hin as [Hk _]. rewrite Hi in Hk. apply (id_of_kind_inj _ _ (id pn)); [done|].
  pose proof (graph_wf localeCompare metric rows role visibleStages ctx options) as Hw. unfold wf_paths in Hw.
  rewrite Forall_forall in Hw. destruct (Hw p Hp) as [_ Hf]. rewrite Forall_forall in Hf. by apply Hf.
Qed.

Lemma graph_link_ends l :
  l ∈ g_links graph → ∃ s t, s ∈ g_nodes graph ∧ t ∈ g_nodes graph
     ∧ n_id s = l_source l ∧ n_id t = l_target l ∧ adjacent stages (n_kind s) (n_kind t).
Proof.
  intros (l' & (_ & e & [Hp Hst]%events_elem & _ & Hs & Ht & _)%link_fields & E)%graph_link.
  pose proof (elem_of_steps _ _ Hst) as [H1 H2].
  destruct (path_node_in_graph _ _ Hp H1) as (s & Hsin & Es & Ks). destruct (path_node_in_graph _ _ Hp H2) as (t & Htin & Et & Kt).
  exists s, t. split; [done|]. split; [done|]. unfold link_core in E. split; [congruence|]. split; [congruence|].
  rewrite Ks, Kt. pose proof (graph_wf localeCompare metric rows role visibleStages ctx options) as Hw. unfold wf_paths in Hw.
  rewrite Forall_forall in Hw. destruct (Hw _ Hp) as [Hm _]. unfold adjacent. rewrite <- Hm, steps_map.
  apply list_elem_of_fmap. by exists e.1.
Qed.

Lemma step_link (Hplain : Forall plain_row rows) p st :
  p ∈ paths → st ∈ steps (path p) → ∃ l, l ∈ g_links graph ∧ l_source l = id st.1 ∧ l_target l = id st.2.
Proof.
  intros Hp Hst. assert (He : (st, p) ∈ link_events paths) by by apply events_elem.
  destruct (proj2 (tally_has link_key (link_init (path_colors localeCompare palette paths) palette) (link_bump metric)
    (link_key (st, p)) (link_events paths))) as [l' Hl']; [by exists (st, p)|].
  destruct (link_ends _ _ palette _ _ _ _ _ Hplain _ _ _ Hl' He eq_refl) as [Hs Ht]. cbn [fst] in Hs, Ht.
  assert (Hc : link_core l' ∈ map link_core (g_links graph)).
  { rewrite graph_links_core. apply list_elem_of_fmap. exists l'. split; [done|]. apply list_elem_of_fmap. eexists. by split; [|exact Hl']. }
  apply list_elem_of_fmap in Hc as (l & E & Hin). exists l. split; [done|]. unfold link_core in E. split; congruence.
Qed.

Lemma node_in_step {A} (x : A) p : (2 <= length p)%nat → x ∈ p → ∃ st, st ∈ steps p ∧ (st.1 = x ∨ st.2 = x).
Proof.
  destruct p as [|a [|b l]]; cbn [length]; [lia..|]. intros _. revert a b. induction l as [|c l IH]; intros a b Hx.
  - exists (a, b). cbn. set_solver.
  - apply elem_of_cons in Hx as [->|Hx]; [exists (a, b); cbn; set_solver|].
    destruct (IH b c Hx) as (st & Hst & E). exists st. split; [|done]. rewrite steps_cons2. set_solver.
Qed.
End shape.

(** C38: The graph is well formed: ids of nodes and keys of links are unique, every
    link joins two nodes of the graph whose kinds are consecutive visible stages (so
    there are no cycles), and no node stands alone. *)
Theorem graph_well_formed localeCompare metric palette rows role visibleStages ctx options :
  Forall plain_row rows →
  well_formed_graph (resolveVisibleStages role visibleStages)
    (buildFlowGraph localeCompare rows metric role palette visibleStages ctx options).
Proof.
  intros Hp. constructor.
  - apply graph_ids_NoDup.
  - apply graph_keys_NoDup.
  - intros n Hn. by apply graph_node_kind in Hn as [_ Hk].
  - apply graph_link_ends.
  - intros n Hn. apply graph_node in Hn as (n' & Hn' & E).
    apply node_fields in Hn' as (_ & p & pn & Hin & Hpn & Ei & _).
    destruct (node_in_step pn (path p)) as (st & Hst & Hor); [|done|].
    { pose proof (graph_wf localeCompare metric rows role visibleStages ctx options) as Hw. unfold wf_paths in Hw.
      rewrite Forall_forall in Hw. destruct (Hw p Hin) as [Hm _]. rewrite <- (length_map kind), Hm. apply stages_shape. }
    destruct (step_link localeCompare metric palette rows role visibleStages ctx options Hp p st Hin Hst) as (l & Hl & Hs & Ht).
    exists l. split; [done|]. destruct Hor as [Ho|Ho]; rewrite Ho in *; [left|right]; congruence.
Qed.

Lemma graph_well_formed_witness :
  well_formed_graph [KUser; KGroup; KModel; KChannel]
    (buildFlowGraph str_cmp demo_rows MQuota RAdmin None None None demo_limited).
Proof. apply (graph_well_formed str_cmp MQuota None demo_rows RAdmin None None demo_limited). decided. Defined.
