(* ===== verification/FlowTop.v ===== *)
(** * Usage flows: the limit on nodes per column

    The nodes kept in a column are as many as the limit allows, none of them has
    less usage than one that is dropped, and the graph's columns respect the
    limit. *)

From S2P Require Import Prelude JsNum IntNum Json NumText Flow FlowGraph FlowData FlowTotals FlowLaws.
From Stdlib Require Import Floats.SpecFloat.

(** ** Sorting by a criterion that decides first *)

Section decided_first.
Context {A : Type} (cmp : A → A → Z) (P : A → Prop) (R : A → A → Prop).
Context (Hle : ∀ x y, P x → P y → (cmp x y <= 0)%Z → R x y) (Hgt : ∀ x y, P x → P y → (0 < cmp x y)%Z → R y x).
Context (Htrans : ∀ x y z, R x y → R y z → R x z).

Lemma insert_by_sorted_rel x l : P x → Forall P l → StronglySorted R l → StronglySorted R (insert_by cmp x l).
Proof.
  intros Hx Hl. induction 1 as [|y l Hs IH Hy]; cbn [insert_by]; [repeat constructor|].
  apply Forall_cons in Hl as [Hpy Hl]. destruct (Z.leb_spec (cmp x y) 0) as [Hc|Hc].
  - repeat constructor; auto. eapply Forall_impl; [exact Hy|]. intros z Hz. eapply Htrans; [|exact Hz]. auto.
  - constructor; [auto|]. rewrite insert_by_perm. constructor; auto.
Qed.

Lemma sort_by_sorted_rel l : Forall P l → StronglySorted R (sort_by cmp l).
Proof.
  induction 1 as [|x l Hx Hl IH]; cbn [sort_by]; [constructor|]. apply insert_by_sorted_rel; [done| |done].
  by rewrite sort_by_perm.
Qed.
End decided_first.

(** What a sorted list keeps is related to what it drops. *)
Lemma sorted_take_drop {A} (R : A → A → Prop) n l x y :
  StronglySorted R l → x ∈ take n l → y ∈ drop n l → R x y.
Proof.
  intros Hs. revert n. induction Hs as [|a l Hs IH Ha]; intros n Hx Hy; [rewrite take_nil in Hx; set_solver|].
  destruct n as [|n]; [set_solver|]. cbn [take drop] in *. apply elem_of_cons in Hx as [->|Hx]; [|by apply (IH n)].
  rewrite Forall_forall in Ha. apply Ha. rewrite <- (take_drop n l). set_solver.
Qed.

(** ** Totals of a stage *)

Definition rank_key (e : FlowPathNode * num) : jsstr := id e.1.
Definition rank_init (e : FlowPathNode * num) : FlowNodeRank := mkRank e.1 zero.
Definition rank_bump (r : FlowNodeRank) (e : FlowPathNode * num) : FlowNodeRank := mkRank (r_node r) (num_add (r_value r) e.2).

Lemma addRank_step m e : addRank m (id e.1) e.1 e.2 = tally_step rank_key rank_init rank_bump m e.
Proof. done. Qed.

Lemma rank_foldl_node es r : r_node (foldl rank_bump r es) = r_node r.
Proof. revert r. induction es as [|e es IH]; intros r; [done|]. cbn [foldl]. apply (IH (rank_bump r e)). Qed.

Section totals.
Context (metric : FlowMetric) (ctx : FlowPathContext).

Definition rank_event (k : FlowNodeKind) (row : FlowQuotaDataItem) : FlowPathNode * num :=
  (NODE_BUILDERS k row ctx, row_amount metric row).

Definition stage_ranks (k : FlowNodeKind) (rows : list FlowQuotaDataItem) : list (jsstr * FlowNodeRank) :=
  tally rank_key rank_init rank_bump (map (rank_event k) rows).

Lemma rank_path row ks totals k :
  NoDup ks →
  map_get k (foldl (rankNode (row_amount metric row)) totals (flowPathForStages row ks ctx))
  = if bool_decide (k ∈ ks)
    then (fun m => tally_step rank_key rank_init rank_bump m (rank_event k row)) <$> map_get k totals
    else map_get k totals.
Proof.
  revert totals. induction ks as [|k' ks IH]; intros totals; [done|]. intros [Hk' Hks]%NoDup_cons.
  unfold flowPathForStages in *. cbn [map foldl]. rewrite IH by done. clear IH.
  pose proof (builder_wf k' row ctx) as [_ Ek]. unfold rankNode. rewrite Ek.
  destruct (decide (k = k')) as [->|Hne].
  - rewrite bool_decide_false, bool_decide_true by set_solver. destruct (map_get k' totals) as [m|] eqn:E; [|by rewrite E].
    rewrite map_get_set_eq. done.
  - rewrite (bool_decide_ext (k ∈ ks) (k ∈ k' :: ks)) by set_solver.
    destruct (map_get k' totals); [by rewrite map_get_set_ne by done|done].
Qed.

Lemma initial_totals stages k :
  map_get k (foldl (fun (m : list (FlowNodeKind * list (jsstr * FlowNodeRank))) stage => map_set stage [] m) [] stages)
  = if bool_decide (k ∈ stages) then Some [] else None.
Proof.
  induction stages as [|s stages IH] using rev_ind; [done|]. rewrite foldl_app. cbn [foldl].
  destruct (decide (k = s)) as [->|Hne]; [rewrite map_get_set_eq, bool_decide_true by set_solver; done|].
  rewrite map_get_set_ne, IH by done. by rewrite (bool_decide_ext (k ∈ stages ++ [s]) (k ∈ stages)) by set_solver.
Qed.

Lemma stageTotals_get rows stages k :
  NoDup stages → k ∈ stages → map_get k (stageTotals rows metric stages ctx) = Some (stage_ranks k rows).
Proof.
  intros Hs Hk. unfold stageTotals, stage_ranks. induction rows as [|row rows IH] using rev_ind.
  - cbn [foldl]. by rewrite initial_totals, bool_decide_true.
  - rewrite foldl_app, map_app. cbn [foldl map]. unfold tally. rewrite foldl_app. fold (row_amount metric row).
    rewrite rank_path, bool_decide_true, IH by done. done.
Qed.

Lemma rank_path_keys v p (m : list (FlowNodeKind * list (jsstr * FlowNodeRank))) :
  NoDup m.*1 → NoDup (foldl (rankNode v) m p).*1.
Proof.
  revert m. induction p as [|n p IH]; intros m Hm; [done|]. cbn [foldl]. apply IH. unfold rankNode.
  destruct (map_get (kind n) m); [by apply NoDup_keys_map_set|done].
Qed.

Lemma stageTotals_keys rows stages : NoDup (stageTotals rows metric stages ctx).*1.
Proof.
  unfold stageTotals. induction rows as [|row rows IH] using rev_ind.
  - cbn [foldl]. induction stages as [|s stages IH] using rev_ind; [constructor|]. rewrite foldl_app. cbn [foldl].
    by apply NoDup_keys_map_set.
  - rewrite foldl_app. cbn [foldl]. by apply rank_path_keys.
Qed.
End totals.

Lemma map_set_all {K V W} `{EqDecision K} (F : V → W) (m : list (K * V)) k :
  NoDup m.*1 → map_get k (foldl (fun acc kv => map_set kv.1 (F kv.2) acc) [] m) = F <$> map_get k m.
Proof.
  assert (H : ∀ acc, NoDup m.*1 →
     map_get k (foldl (fun acc kv => map_set kv.1 (F kv.2) acc) acc m)
     = match map_get k m with Some v => Some (F v) | None => map_get k acc end).
  { induction m as [|[k' v] m IH]; intros acc; [done|]. intros [Hk Hm]%NoDup_cons. cbn [foldl fst snd map_get]. rewrite IH by done.
    cbn [fst] in Hk. case_decide as E; [subst k'|].
    - rewrite (proj2 (map_get_None k m)) by done. apply map_get_set_eq.
    - destruct (map_get k m); [done|]. by apply map_get_set_ne. }
  intros Hm. rewrite H by done. by destruct (map_get k m).
Qed.

(** ** The top nodes of a stage *)

Section top.
Context (localeCompare : jsstr → jsstr → Z) (metric : FlowMetric) (ctx : FlowPathContext) (rows : list FlowQuotaDataItem).
Context (Hc : counted metric rows).

(** The usage of a node, and the nodes, of a stage. *)
Definition node_total (k : FlowNodeKind) (i : jsstr) : Z :=
  zsum (map (row_weight metric) (List.filter (fun row => bool_decide (id (NODE_BUILDERS k row ctx) = i)) rows)).
Definition stage_ids (k : FlowNodeKind) : list jsstr := set_of (map (fun row => id (NODE_BUILDERS k row ctx)) rows).

Lemma stage_ranks_ids k : map (fun kr => id (r_node kr.2)) (stage_ranks metric ctx k rows) = stage_ids k.
Proof.
  unfold stage_ids. rewrite <- (map_map (rank_event metric ctx k) rank_key).
  rewrite <- (tally_keys rank_key rank_init rank_bump). apply map_ext_in. intros [i r] Hin%list_elem_of_In.
  apply tally_elem, entry_Some in Hin as (e & _ & <- & ->). cbn [fst snd]. by rewrite rank_foldl_node.
Qed.

Lemma stage_rank_value k i r :
  (i, r) ∈ stage_ranks metric ctx k rows → id (r_node r) = i ∧ r_value r = num_of_Z (node_total k i) ∧ safe (node_total k i).
Proof.
  intros Hr. assert (Eg : in_group rank_key i (map (rank_event metric ctx k) rows)
    = map (rank_event metric ctx k) (List.filter (fun row => bool_decide (id (NODE_BUILDERS k row ctx) = i)) rows)).
  { unfold in_group. apply (filter_map_comm (rank_event metric ctx k)). }
  pose proof (tallied_filter _ _ (fun row => bool_decide (id (NODE_BUILDERS k row ctx) = i)) _ Hc) as Hf.
  split; [|split; [|apply Hf]].
  - assert (Hin : (i, r) ∈ stage_ranks metric ctx k rows) by done.
    apply tally_elem, entry_Some in Hin as (e & _ & <- & ->). by rewrite rank_foldl_node.
  - rewrite (tally_value rank_key rank_init rank_bump r_value (fun e => e.2) (fun e => num_to_Z e.2)) with (k := i)
       (es := map (rank_event metric ctx k) rows); [|done|done| |done].
    + rewrite Eg, map_map. done.
    + rewrite Eg. destruct Hf as [Hf Hs]. split; [|by rewrite map_map]. by apply Forall_fmap.
Qed.

Definition ranked (r : FlowNodeRank) : Prop := ∃ z, (0 <= z)%Z ∧ safe z ∧ r_value r = num_of_Z z.
Definition outranks (x y : FlowNodeRank) : Prop := (num_to_Z (r_value y) <= num_to_Z (r_value x))%Z.

Lemma byRank_decides x y :
  ranked x → ranked y →
  ((byRank localeCompare x y <= 0)%Z → outranks x y) ∧ ((0 < byRank localeCompare x y)%Z → outranks y x).
Proof.
  intros (a & Ha & Hsa & Ea) (b & Hb & Hsb & Eb). unfold byRank, outranks, num_then. rewrite Ea, Eb.
  rewrite num_sub_Z by (unfold safe in *; lia). rewrite num_truthy_Z, num_sign_Z, !num_to_Z_of by (unfold safe in *; lia).
  destruct (Z.eqb_spec (b - a) 0); cbn [negb]; lia.
Qed.

Lemma ranks_sorted k : StronglySorted outranks (sort_by (byRank localeCompare) (stage_ranks metric ctx k rows).*2).
Proof.
  apply (sort_by_sorted_rel _ ranked).
  - intros x y Hx Hy. by apply byRank_decides.
  - intros x y Hx Hy. by apply byRank_decides.
  - unfold outranks. lia.
  - apply Forall_forall. intros r ([i r'] & -> & Hr)%list_elem_of_fmap.
    pose proof (tallied_nonneg _ _ _ (tallied_filter _ _ (fun row => bool_decide (id (NODE_BUILDERS k row ctx) = i)) _ Hc)) as Hn.
    apply stage_rank_value in Hr as (_ & Hv & Hs). exists (node_total k i). split; [|done].
    unfold node_total. apply zsum_nonneg, List.Forall_map. rewrite List.Forall_forall. rewrite Forall_forall in Hn.
    intros r Hin%list_elem_of_In. by apply Hn.
Qed.

Lemma rank_total k r :
  r ∈ (stage_ranks metric ctx k rows).*2 → num_to_Z (r_value r) = node_total k (id (r_node r)).
Proof.
  intros ([i r'] & -> & Hr)%list_elem_of_fmap. apply stage_rank_value in Hr as (Hi & Hv & Hs). cbn [snd].
  by rewrite Hi, Hv, num_to_Z_of.
Qed.

Lemma topIds_perm limit k :
  ∃ rest, topIds localeCompare limit (stage_ranks metric ctx k rows).*2 ++ rest ≡ₚ stage_ids k
    ∧ (∀ i j, i ∈ topIds localeCompare limit (stage_ranks metric ctx k rows).*2 → j ∈ rest → (node_total k j <= node_total k i)%Z).
Proof.
  set (l := sort_by (byRank localeCompare) (stage_ranks metric ctx k rows).*2).
  set (n := Z.to_nat (Z.min (num_to_Z limit) (Z.of_nat (length l)))).
  assert (Hin : ∀ r, r ∈ l → r ∈ (stage_ranks metric ctx k rows).*2) by (intros r; apply elem_of_sort_by).
  exists (map (fun r => id (r_node r)) (drop n l)). split.
  - unfold topIds, slice_to. fold l n. rewrite <- map_app, take_drop. unfold l. rewrite sort_by_perm.
    rewrite <- stage_ranks_ids. change ((stage_ranks metric ctx k rows).*2) with (map snd (stage_ranks metric ctx k rows)). by rewrite map_map.
  - intros i j (x & -> & Hx)%list_elem_of_fmap (y & -> & Hy)%list_elem_of_fmap. unfold slice_to in Hx. fold l n in Hx.
    rewrite <- (rank_total k x), <- (rank_total k y).
    + apply (sorted_take_drop outranks n l); [apply ranks_sorted|done|done].
    + apply Hin. rewrite <- (take_drop n l). set_solver.
    + apply Hin. rewrite <- (take_drop n l). set_solver.
Qed.
End top.

Lemma limit_positive limit L : normalizeTopNodeLimit limit = Some L → num_truthy L = true ∧ num_pos L = true.
Proof.
  unfold normalizeTopNodeLimit. destruct limit as [x|]; [|done]. destruct (_ && _) eqn:E; [|done]. intros [= <-].
  apply andb_true_iff in E as [_ E]. split; [|done]. by destruct (num_floor x) as [s|s| |s m e].
Qed.

Lemma limit_nonneg limit L : normalizeTopNodeLimit limit = Some L → (0 <= num_to_Z L)%Z.
Proof.
  intros [_ Hpos]%limit_positive. destruct L as [s|s| |[] m e]; cbn [num_to_Z]; try lia; try done.
  destruct (Z.leb_spec 0 e); [lia|]. apply Z.div_pos; lia.
Qed.

Lemma NoDup_subset_length {A} `{EqDecision A} (l l' : list A) : NoDup l → l ⊆ l' → (length l <= length l')%nat.
Proof. intros Hn Hs. apply NoDup_ListNoDup in Hn. apply (List.NoDup_incl_length Hn). intros x Hx%list_elem_of_In. apply list_elem_of_In. auto. Qed.

Lemma topSets_get localeCompare metric ctx rows stages limit L k :
  normalizeTopNodeLimit limit = Some L → NoDup stages → k ∈ stages →
  ∃ ts, buildTopNodeSets localeCompare rows metric stages (normalizeTopNodeLimit limit) ctx = Some ts
    ∧ map_get k ts = Some (set_of (topIds localeCompare L (stage_ranks metric ctx k rows).*2)).
Proof.
  intros Hl Hs Hk. destruct (limit_positive _ _ Hl) as [Ht _]. rewrite Hl. unfold buildTopNodeSets. rewrite Ht. cbn [negb].
  eexists. split; [done|].
  rewrite (map_set_all (fun m => set_of (topIds localeCompare L m.*2))) by apply stageTotals_keys.
  by rewrite stageTotals_get.
Qed.

(** The nodes a limited graph keeps in a stage are distinct nodes of that stage,
    as many as the limit or all of them when there are fewer, and none of them has
    less usage than a node of the stage that is not kept. *)
Theorem top_nodes_are_largest localeCompare metric ctx rows role visibleStages limit L k :
  counted metric rows → normalizeTopNodeLimit limit = Some L → k ∈ resolveVisibleStages role visibleStages →
  ∃ ts ids,
    buildTopNodeSets localeCompare rows metric (resolveVisibleStages role visibleStages) (normalizeTopNodeLimit limit) ctx = Some ts
    ∧ map_get k ts = Some ids ∧ NoDup ids ∧ (∀ i, i ∈ ids → i ∈ stage_ids ctx rows k)
    ∧ Z.of_nat (length ids) = Z.min (num_to_Z L) (Z.of_nat (length (stage_ids ctx rows k)))
    ∧ ∀ i j, i ∈ ids → j ∈ stage_ids ctx rows k → j ∉ ids → (node_total metric ctx rows k j <= node_total metric ctx rows k i)%Z.
Proof.
  intros Hc Hl Hk. destruct (stages_shape role visibleStages) as [Hs _].
  destruct (topSets_get localeCompare metric ctx rows _ limit L k Hl Hs Hk) as (ts & Ets & Eids).
  destruct (topIds_perm localeCompare metric ctx rows Hc L k) as (rest & Hp & Hr).
  pose proof (NoDup_set_of (map (fun row => id (NODE_BUILDERS k row ctx)) rows)) as Hn. fold (stage_ids ctx rows k) in Hn.
  rewrite <- Hp in Hn. apply NoDup_app in Hn as (Hn & _ & _). rewrite set_of_id in Eids by done.
  eexists ts, _. split; [exact Ets|]. split; [exact Eids|]. split; [done|]. split; [intros i Hi; rewrite <- Hp; set_solver|]. split.
  - unfold topIds, slice_to. rewrite length_map, length_take, length_sort_by. rewrite <- (stage_ranks_ids metric ctx rows k), length_map.
    change (length (stage_ranks metric ctx k rows).*2) with (length (map snd (stage_ranks metric ctx k rows))). rewrite length_map.
    pose proof (limit_nonneg _ _ Hl). lia.
  - intros i j Hi Hj Hnj. rewrite <- Hp in Hj. apply elem_of_app in Hj as [Hj|Hj]; [done|auto].
Qed.

Lemma top_nodes_are_largest_witness :
  ∃ ts ids,
    buildTopNodeSets str_cmp demo_rows MQuota [KUser; KGroup; KModel; KChannel] (normalizeTopNodeLimit (Some (num_of_dec false 19 (-1)))) None
      = Some ts
    ∧ map_get KUser ts = Some ids ∧ ids = [js "user:ann"]
    ∧ (node_total MQuota None demo_rows KUser (js "user:bob") <= node_total MQuota None demo_rows KUser (js "user:ann"))%Z.
Proof.
  destruct (top_nodes_are_largest str_cmp MQuota None demo_rows RAdmin None (Some (num_of_dec false 19 (-1))) (num_of_Z 1) KUser)
    as (ts & ids & Hts & Hids & _ & _ & _ & Hle); [decided|vm_compute; reflexivity|decided|].
  exists ts, ids. split; [exact Hts|]. split; [exact Hids|].
  assert (E : ids = [js "user:ann"]) by (vm_compute in Hts; injection Hts as <-; vm_compute in Hids; injection Hids as <-; reflexivity).
  split; [exact E|]. rewrite E in Hle. apply Hle; decided.
Defined.

(** ** Columns of the graph *)

Lemma limited_nodes p ts mode labeler p' n :
  applyTopNodeLimit p (Some ts) mode labeler = Some p' → n ∈ p' →
  isTopFlowNode n (Some ts) = true ∨ (mode = Aggregate ∧ id n = OTHER_FLOW_NODE_IDS (kind n)).
Proof.
  unfold applyTopNodeLimit. destruct (existsb _ p) eqn:E; cbn [negb].
  - destruct mode; [|done]. intros [= <-] (m & -> & _)%list_elem_of_fmap.
    destruct (isTopFlowNode m (Some ts)) eqn:Em; [by left|by right].
  - intros [= <-] Hn. left. apply not_false_iff_true. intros Hf. apply not_true_iff_false in E. apply E.
    apply existsb_exists. exists n. split; [by apply list_elem_of_In|]. by rewrite Hf.
Qed.

(** The nodes of the graph in a column. *)
Definition column (g : DashboardFlowGraph) (k : FlowNodeKind) : list jsstr :=
  map n_id (List.filter (fun n => bool_decide (n_kind n = k)) (g_nodes g)).

Lemma NoDup_map_filter {A B} (f : A → B) q l : NoDup (map f l) → NoDup (map f (List.filter q l)).
Proof.
  induction l as [|x l IH]; [constructor|]. cbn [map List.filter]. intros [Hx Hl]%NoDup_cons. destruct (q x); [|auto].
  cbn [map]. apply NoDup_cons. split; [|auto]. intros (y & E & [Hy _]%elem_of_List_filter)%list_elem_of_fmap.
  apply Hx, list_elem_of_fmap. by exists y.
Qed.

Lemma column_nodes localeCompare metric palette rows role visibleStages ctx options ts k ids i :
  buildTopNodeSets localeCompare rows metric (resolveVisibleStages role visibleStages) (normalizeTopNodeLimit (topNodeLimit options)) ctx = Some ts →
  map_get k ts = Some ids →
  i ∈ column (buildFlowGraph localeCompare rows metric role palette visibleStages ctx options) k →
  i ∈ ids ∨ (overflowMode options ≠ Some Hide ∧ i = OTHER_FLOW_NODE_IDS k).
Proof.
  intros Hts Hids (n & -> & [Hn Hk%bool_decide_eq_true]%elem_of_List_filter)%list_elem_of_fmap.
  apply graph_node in Hn as (n' & Hn' & E). apply node_fields in Hn' as (_ & p & pn & Hp & Hpn & Ei & Ek & _).
  assert (Ekn : kind pn = k) by (unfold node_core in E; congruence).
  unfold graphPaths in Hp. rewrite Hts in Hp. apply prepared_elem in Hp as (row & _ & Hp & _). unfold limitedPath in Hp.
  destruct (limited_nodes _ _ _ _ _ _ Hp Hpn) as [Ht|[Hm Ho]].
  - left. unfold isTopFlowNode in Ht. cbn [mbind option_bind] in Ht. rewrite Ekn, Hids in Ht. apply set_has_spec in Ht. by rewrite <- Ei.
  - right. split; [|by rewrite <- Ei, Ho, Ekn]. intros Hh. by rewrite Hh in Hm.
Qed.

(** A column of a limited graph has at most as many nodes as the limit, and one
    more, the node that stands for the others, unless they are hidden. *)
Theorem column_bound localeCompare metric palette rows role visibleStages ctx options L k :
  normalizeTopNodeLimit (topNodeLimit options) = Some L →
  k ∈ resolveVisibleStages role visibleStages →
  let c := column (buildFlowGraph localeCompare rows metric role palette visibleStages ctx options) k in
  NoDup c ∧ (Z.of_nat (length c) <= num_to_Z L + (if bool_decide (overflowMode options = Some Hide) then 0 else 1))%Z.
Proof.
  intros Hl Hk c. destruct (stages_shape role visibleStages) as [Hs _].
  destruct (topSets_get localeCompare metric ctx rows _ _ L k Hl Hs Hk) as (ts & Ets & Eids).
  set (ids := set_of _) in Eids. assert (Hlen : (Z.of_nat (length ids) <= num_to_Z L)%Z).
  { etransitivity; [apply inj_le, length_set_of_le|]. unfold topIds, slice_to. rewrite length_map, length_take.
    pose proof (limit_nonneg _ _ Hl). lia. }
  assert (Hn : NoDup c) by apply NoDup_map_filter, graph_ids_NoDup. split; [done|].
  assert (Hsub : c ⊆ ids ++ (if bool_decide (overflowMode options = Some Hide) then [] else [OTHER_FLOW_NODE_IDS k])).
  { intros i [Hi|[Hm ->]]%(column_nodes _ _ _ _ _ _ _ _ ts k ids); [set_solver|by rewrite bool_decide_false by done; set_solver|done..]. }
  apply NoDup_subset_length in Hsub; [|done]. rewrite length_app in Hsub. destruct (bool_decide _); cbn [length] in Hsub; lia.
Qed.

Lemma column_bound_witness :
  let g := buildFlowGraph str_cmp demo_rows MQuota RAdmin None None None demo_limited in
  length (column g KUser) = 2%nat ∧ (Z.of_nat (length (column g KUser)) <= num_to_Z (num_of_Z 1) + 1)%Z.
Proof.
  split; [vm_compute; reflexivity|].
  apply (column_bound str_cmp MQuota None demo_rows RAdmin None None demo_limited (num_of_Z 1) KUser); [vm_compute; reflexivity|decided].
Defined.
