(* ===== verification/FlowView.v ===== *)
(** * Usage flows: filters, masking and highlighting

    The rows a page shows are exactly those its selections allow, the counts of the
    filter menus are those of the rows each choice would keep, masking changes
    nothing but labels, and the highlighted part of the graph is the union of the
    paths through the selected node or link. *)

From S2P Require Import Prelude JsNum IntNum Json NumText Flow FlowGraph FlowData FlowTotals FlowLaws FlowTop.
From Stdlib Require Import Floats.SpecFloat.

(** ** Filters *)

(** The ids selected for a kind. *)
Definition selected_ids (sel : option (list FlowNodeFilter)) (k : FlowNodeKind) : list jsstr :=
  map f_id (List.filter (fun f => bool_decide (f_kind f = k)) (default [] sel)).

(** A row passes when, for every visible kind with a selection, its node of that
    kind is selected. *)
Definition row_passes (sel : option (list FlowNodeFilter)) (stages : list FlowNodeKind) (ctx : FlowPathContext)
    (row : FlowQuotaDataItem) : bool :=
  forallb (fun k => negb (nonempty (selected_ids sel k)) || set_has (id (NODE_BUILDERS k row ctx)) (selected_ids sel k)) stages.

Definition group_ids {X K} `{EqDecision K} (kd : X → K) (i : X → jsstr) (k : K) (l : list X) : list jsstr :=
  map i (List.filter (fun x => bool_decide (kd x = k)) l).

Lemma add_to_get {X K} `{EqDecision K} (kd : X → K) (i : X → jsstr) (l : list X) k :
  map_get k (foldl (fun m x => add_to (kd x) (i x) m) [] l)
  = if nonempty (group_ids kd i k l) then Some (set_of (group_ids kd i k l)) else None.
Proof.
  induction l as [|x l IH] using rev_ind; [done|]. rewrite foldl_app. cbn [foldl]. unfold add_to at 1.
  unfold group_ids in *. rewrite List.filter_app, map_app. cbn [List.filter].
  destruct (decide (kd x = k)) as [Ek|Hne].
  - rewrite bool_decide_true, Ek by done. rewrite map_get_set_eq, IH. cbn [map].
    rewrite set_of_snoc. destruct (map i (List.filter _ l)) as [|y ys]; done.
  - rewrite bool_decide_false by done. rewrite map_get_set_ne by done. cbn [map]. by rewrite app_nil_r.
Qed.

Lemma foldl_filter {A B} (f : B → A → B) (q : A → bool) l b :
  foldl (fun b a => if negb (q a) then b else f b a) b l = foldl f b (List.filter q l).
Proof. revert b. induction l as [|a l IH]; intros b; [done|]. cbn [foldl List.filter]. destruct (q a); cbn [negb foldl]; auto. Qed.

Lemma add_to_keys {X K} `{EqDecision K} (kd : X → K) (i : X → jsstr) (l : list X) :
  NoDup (foldl (fun m x => add_to (kd x) (i x) m) [] l).*1.
Proof.
  induction l as [|x l IH] using rev_ind; [constructor|]. rewrite foldl_app. cbn [foldl]. by apply NoDup_keys_map_set.
Qed.

Section filters.
Context (sel : option (list FlowNodeFilter)) (stages : list FlowNodeKind) (ctx : FlowPathContext).
Context (Hstages : NoDup stages).

Lemma visible_selection k :
  group_ids f_kind f_id k (List.filter (fun f => set_has (f_kind f) (set_of stages)) (default [] sel))
  = if bool_decide (k ∈ stages) then selected_ids sel k else [].
Proof.
  unfold group_ids, selected_ids. rewrite filter_filter_bool. destruct (bool_decide (k ∈ stages)) eqn:Ek.
  - f_equal. apply List.filter_ext. intros f. destruct (bool_decide (f_kind f = k)) eqn:E; [|apply andb_false_r].
    apply bool_decide_eq_true in E, Ek. rewrite andb_true_r. apply set_has_spec, elem_of_set_of. by rewrite E.
  - rewrite (List.filter_ext _ (fun _ => false)); [by induction (default [] sel)|]. intros f.
    destruct (bool_decide (f_kind f = k)) eqn:E; [|apply andb_false_r]. apply bool_decide_eq_true in E. apply bool_decide_eq_false in Ek.
    rewrite andb_true_r. apply not_true_iff_false. intros H%set_has_spec. apply Ek. rewrite elem_of_set_of in H. by subst k.
Qed.

Lemma normalized_get k :
  map_get k (normalizeSelectedNodeFilters sel stages)
  = if bool_decide (k ∈ stages) && nonempty (selected_ids sel k) then Some (set_of (selected_ids sel k)) else None.
Proof.
  unfold normalizeSelectedNodeFilters.
  rewrite (foldl_filter (fun m f => add_to (f_kind f) (f_id f) m) (fun f => set_has (f_kind f) (set_of stages))).
  rewrite add_to_get, visible_selection. by destruct (bool_decide (k ∈ stages)).
Qed.

Lemma path_ids_get row k :
  map_get k (foldl (fun m node => add_to (kind node) (id node) m) [] (flowPathForStages row stages ctx))
  = if bool_decide (k ∈ stages) then Some [id (NODE_BUILDERS k row ctx)] else None.
Proof.
  rewrite add_to_get. assert (E : group_ids kind id k (flowPathForStages row stages ctx)
     = if bool_decide (k ∈ stages) then [id (NODE_BUILDERS k row ctx)] else []).
  { unfold group_ids, flowPathForStages. rewrite filter_map_comm, map_map. clear sel. induction stages as [|s ss IH]; [done|].
    apply NoDup_cons in Hstages as [Hs Hss]. specialize (IH Hss). cbn [List.filter]. rewrite (proj2 (builder_wf s row ctx)).
    destruct (decide (s = k)) as [->|Hne].
    - rewrite bool_decide_true by done. cbn [map]. rewrite IH, bool_decide_false, bool_decide_true by set_solver. done.
    - rewrite bool_decide_false by done. rewrite IH. by rewrite (bool_decide_ext (k ∈ ss) (k ∈ s :: ss)) by set_solver. }
  rewrite E. by destruct (bool_decide (k ∈ stages)).
Qed.

Lemma selected_elem k i ids :
  (k, ids) ∈ normalizeSelectedNodeFilters sel stages → existsb (fun j => set_has j [i]) ids = set_has i (selected_ids sel k).
Proof.
  intros Hin. assert (Hk : map_get k (normalizeSelectedNodeFilters sel stages) = Some ids).
  { apply map_get_elem_of; [|done]. unfold normalizeSelectedNodeFilters.
    rewrite (foldl_filter (fun m f => add_to (f_kind f) (f_id f) m) (fun f => set_has (f_kind f) (set_of stages))). apply add_to_keys. }
  rewrite normalized_get in Hk. destruct (_ && _); [|done]. injection Hk as <-.
  apply eq_true_iff_eq. rewrite existsb_exists. setoid_rewrite set_has_spec. setoid_rewrite <- list_elem_of_In. setoid_rewrite elem_of_set_of. set_solver.
Qed.

Lemma passes_filters row :
  pathMatchesNodeFilters (flowPathForStages row stages ctx) (normalizeSelectedNodeFilters sel stages) = row_passes sel stages ctx row.
Proof.
  unfold pathMatchesNodeFilters, row_passes. apply eq_true_iff_eq. rewrite forallb_forall. setoid_rewrite <- list_elem_of_In.
  transitivity (∀ k ids, (k, ids) ∈ normalizeSelectedNodeFilters sel stages → set_has (id (NODE_BUILDERS k row ctx)) (selected_ids sel k) = true).
  - destruct (length (normalizeSelectedNodeFilters sel stages) =? 0)%nat eqn:El.
    { apply Nat.eqb_eq, nil_length_inv in El. rewrite El. split; [set_solver|done]. }
    rewrite forallb_forall. setoid_rewrite <- list_elem_of_In. split.
    + intros H k ids Hin. specialize (H _ Hin). cbn [fst snd] in H. rewrite path_ids_get in H.
      destruct (bool_decide (k ∈ stages)); [|done]. by rewrite (selected_elem k) in H.
    + intros H [k ids] Hin. cbn [fst snd]. rewrite path_ids_get. rewrite bool_decide_true; [rewrite (selected_elem k) by done; eauto|].
      assert (Hs : is_Some (map_get k (normalizeSelectedNodeFilters sel stages))).
      { apply map_get_is_Some, list_elem_of_fmap. by exists (k, ids). }
      rewrite normalized_get in Hs. destruct (bool_decide (k ∈ stages)) eqn:E; [by apply bool_decide_eq_true in E|].
      by destruct Hs.
  - split.
    + intros H k Hk. destruct (nonempty (selected_ids sel k)) eqn:E; [|done]. cbn [negb orb]. apply (H k (set_of (selected_ids sel k))).
      apply map_get_Some. rewrite normalized_get, E, bool_decide_true by done. done.
    + intros H k ids Hin. assert (Hs : is_Some (map_get k (normalizeSelectedNodeFilters sel stages))).
      { apply map_get_is_Some, list_elem_of_fmap. by exists (k, ids). }
      rewrite normalized_get in Hs. destruct (bool_decide (k ∈ stages)) eqn:E; [|by destruct Hs]. apply bool_decide_eq_true in E.
      specialize (H k E). destruct (nonempty (selected_ids sel k)); [done|by destruct Hs].
Qed.

Lemma filterRowsByNodes_eq rows : filterRowsByNodes rows sel stages ctx = List.filter (row_passes sel stages ctx) rows.
Proof.
  unfold filterRowsByNodes. destruct (length _ =? 0)%nat eqn:El.
  - symmetry. apply List_filter_all, Forall_true. intros row. rewrite <- passes_filters. unfold pathMatchesNodeFilters. by rewrite El.
  - apply List.filter_ext. apply passes_filters.
Qed.
End filters.

Lemma filterRows_eq rows users :
  filterRows rows users
  = List.filter (fun row => negb (nonempty (default [] users)) || set_has (id (userNode row)) (default [] users)) rows.
Proof.
  unfold filterRows. destruct (default [] users) as [|u us] eqn:E; cbn [nonempty negb orb].
  - symmetry. apply List_filter_all, Forall_true. done.
  - destruct (length (set_of (u :: us)) =? 0)%nat eqn:El.
    { apply Nat.eqb_eq, nil_length_inv in El. assert (Hu : u ∈ set_of (u :: us)) by (apply elem_of_set_of; set_solver).
      rewrite El in Hu. set_solver. }
    apply List.filter_ext. intros row. apply eq_true_iff_eq. rewrite !set_has_spec. by rewrite elem_of_set_of.
Qed.

(** The rows a page shows are, in order, exactly the rows whose user is selected
    (when users are selected) and whose node is selected in every visible stage that
    has a selection; selections on hidden stages have no effect. *)
Theorem shown_rows_exact rows options :
  shownRows rows options
  = List.filter (fun row =>
      (negb (nonempty (default [] (o_selectedUsers options))) || set_has (id (userNode row)) (default [] (o_selectedUsers options)))
      && row_passes (o_selectedNodes options) (page_stages options) (o_deletedTokenLabel options) row) rows.
Proof.
  unfold shownRows, page_stages. rewrite filterRowsByNodes_eq, filterRows_eq, filter_filter_bool; [done|]. apply stages_shape.
Qed.

(** ** Counts of the filter menus *)

Definition option_key (e : FlowPathNode * num) : jsstr := nodeFilterKey (mkFilter (kind e.1) (id e.1)).

Lemma optionTotals_tally rows metric k ctx :
  optionTotals rows metric k ctx = tally option_key rank_init rank_bump (map (rank_event metric ctx k) rows).
Proof. unfold optionTotals, tally. rewrite foldl_map. done. Qed.

Lemma option_group metric ctx k i rows :
  in_group option_key (kind_text k ++ 0%N :: i) (map (rank_event metric ctx k) rows)
  = map (rank_event metric ctx k) (List.filter (fun row => bool_decide (id (NODE_BUILDERS k row ctx) = i)) rows).
Proof.
  unfold in_group. rewrite (filter_map_comm (rank_event metric ctx k)). f_equal. apply List.filter_ext. intros row.
  apply bool_decide_ext. unfold option_key, nodeFilterKey, rank_event. cbn [fst f_kind f_id]. rewrite (proj2 (builder_wf k row ctx)).
  split; [intros H; apply app_inv_head in H; congruence|by intros ->].
Qed.

Lemma selectedExcept sel k k' :
  selected_ids (selectedNodeFiltersExceptKind sel k) k' = if bool_decide (k' = k) then [] else selected_ids sel k'.
Proof.
  unfold selectedNodeFiltersExceptKind, selected_ids. set (l := List.filter (fun f => negb (bool_decide (f_kind f = k))) (default [] sel)).
  assert (E : map f_id (List.filter (fun f => bool_decide (f_kind f = k')) l)
    = if bool_decide (k' = k) then [] else map f_id (List.filter (fun f => bool_decide (f_kind f = k')) (default [] sel))).
  { unfold l. rewrite filter_filter_bool. destruct (bool_decide (k' = k)) eqn:Ek.
    - apply bool_decide_eq_true in Ek. rewrite (List.filter_ext _ (fun _ => false)); [by induction (default [] sel)|].
      intros f. rewrite Ek. by destruct (bool_decide (f_kind f = k)).
    - apply bool_decide_eq_false in Ek. f_equal. apply List.filter_ext. intros f.
      destruct (bool_decide (f_kind f = k')) eqn:E; [|apply andb_false_r]. apply bool_decide_eq_true in E.
      rewrite bool_decide_false by congruence. done. }
  rewrite <- E. destruct l as [|f l']; [done|]. cbn [length Nat.ltb Nat.leb default]. done.
Qed.

(** A row that the selections on the other stages keep. *)
Definition candidate (sel : option (list FlowNodeFilter)) (stages : list FlowNodeKind) (ctx : FlowPathContext)
    (k : FlowNodeKind) (row : FlowQuotaDataItem) : bool :=
  forallb (fun k' => bool_decide (k' = k) || negb (nonempty (selected_ids sel k'))
                     || set_has (id (NODE_BUILDERS k' row ctx)) (selected_ids sel k')) stages.

Lemma candidateRows_eq rows sel stages ctx k :
  NoDup stages →
  filterRowsByNodes rows (selectedNodeFiltersExceptKind sel k) stages ctx = List.filter (candidate sel stages ctx k) rows.
Proof.
  intros Hs. rewrite filterRowsByNodes_eq by done. apply List.filter_ext. intros row. unfold row_passes, candidate.
  clear Hs. induction stages as [|k' ss IH]; [done|]. cbn [forallb]. rewrite IH, selectedExcept. by destruct (bool_decide (k' = k)).
Qed.

Lemma stage_option localeCompare formatNumber rows metric role visibleStages palette ctx sel o :
  counted metric rows →
  o ∈ buildNodeFilterOptions localeCompare formatNumber rows metric role visibleStages palette ctx sel →
  let stages := resolveVisibleStages role visibleStages in
  no_kind o ∈ stages ∧ no_valueLabel o = formatNumber (no_valueRaw o)
  ∧ no_valueRaw o = num_of_Z (zsum (map (row_weight metric) (List.filter (fun row =>
        candidate sel stages ctx (no_kind o) row && bool_decide (id (NODE_BUILDERS (no_kind o) row ctx) = no_value o)) rows)))
  ∧ ∃ row, row ∈ rows ∧ candidate sel stages ctx (no_kind o) row = true ∧ id (NODE_BUILDERS (no_kind o) row ctx) = no_value o.
Proof.
  intros Hc Ho stages. destruct (stages_shape role visibleStages) as [Hs _]. fold stages in Hs.
  unfold buildNodeFilterOptions in Ho. apply elem_of_sort_by, list_elem_of_In, in_flat_map in Ho as (k & Hk%list_elem_of_In & Ho).
  unfold stageOptions in Ho. fold stages in Ho, Hk. rewrite candidateRows_eq, optionTotals_tally in Ho by done. apply in_map_iff in Ho as ([i r] & <- & Hr%list_elem_of_In).
  cbn [snd no_kind no_value no_valueRaw no_valueLabel]. pose proof (tallied_filter _ _ (candidate sel stages ctx k) _ Hc) as Hc1.
  set (crows := List.filter (candidate sel stages ctx k) rows) in *.
  pose proof Hr as (e & (row & -> & Hrow)%list_elem_of_fmap & Ek & Er)%tally_elem%entry_Some.
  assert (Hrn : r_node r = NODE_BUILDERS k row ctx) by by rewrite Er, rank_foldl_node. clear Er.
  rewrite Hrn, (proj2 (builder_wf k row ctx)).
  split; [done|]. split; [done|]. split.
  - rewrite <- filter_filter_bool. fold crows.
    assert (Ei : i = kind_text k ++ 0%N :: id (NODE_BUILDERS k row ctx)).
    { rewrite <- Ek. unfold option_key, nodeFilterKey. cbn [rank_event fst f_kind f_id]. by rewrite (proj2 (builder_wf k row ctx)). }
    pose proof (tallied_filter _ _ (fun row' => bool_decide (id (NODE_BUILDERS k row' ctx) = id (NODE_BUILDERS k row ctx))) _ Hc1) as [Hf Hsf].
    rewrite (tally_value option_key rank_init rank_bump r_value (fun e => e.2) (fun e => num_to_Z e.2)) with (k := i)
       (es := map (rank_event metric ctx k) crows); [|done|done| |exact Hr]; rewrite Ei, option_group.
    + by rewrite map_map.
    + split; [by apply Forall_fmap|by rewrite map_map].
  - exists row. apply elem_of_List_filter in Hrow as [Hin Hcand]. done.
Qed.

Lemma candidate_has_option localeCompare formatNumber rows metric role visibleStages palette ctx sel k row :
  let stages := resolveVisibleStages role visibleStages in
  k ∈ stages → row ∈ rows → candidate sel stages ctx k row = true →
  ∃ o, o ∈ buildNodeFilterOptions localeCompare formatNumber rows metric role visibleStages palette ctx sel
    ∧ no_kind o = k ∧ no_value o = id (NODE_BUILDERS k row ctx).
Proof.
  intros stages Hk Hrow Hcand. destruct (stages_shape role visibleStages) as [Hs _]. fold stages in Hs.
  set (crows := List.filter (candidate sel stages ctx k) rows).
  destruct (proj2 (tally_has option_key rank_init rank_bump (option_key (rank_event metric ctx k row)) (map (rank_event metric ctx k) crows)))
    as [r Hr].
  { exists (rank_event metric ctx k row). split; [|done]. apply list_elem_of_fmap. exists row. split; [done|].
    by apply elem_of_List_filter. }
  pose proof Hr as (e & (row' & -> & _)%list_elem_of_fmap & Ek & Er)%tally_elem%entry_Some.
  eexists. split.
  - unfold buildNodeFilterOptions. apply elem_of_sort_by, list_elem_of_In, in_flat_map. exists k. split; [by apply list_elem_of_In|].
    unfold stageOptions. fold stages. rewrite candidateRows_eq, optionTotals_tally by done. apply in_map_iff. eexists. split; [reflexivity|].
    apply list_elem_of_In. exact Hr.
  - cbn [snd no_kind no_value]. rewrite Er, !rank_foldl_node. cbn [rank_init r_node rank_event fst].
    rewrite (proj2 (builder_wf k row' ctx)). split; [done|]. unfold option_key, nodeFilterKey in Ek. cbn [rank_event fst f_kind f_id] in Ek.
    rewrite (proj2 (builder_wf k row' ctx)), (proj2 (builder_wf k row ctx)) in Ek. apply app_inv_head in Ek. congruence.
Qed.

(** The menu of a stage offers exactly the nodes of the rows that the selections
    on the other stages keep, each once with its kind, and counts for each the usage
    of those rows: choosing it shows that much. *)
Theorem filter_menu_exact localeCompare formatNumber rows metric role visibleStages palette ctx sel :
  counted metric rows →
  let stages := resolveVisibleStages role visibleStages in
  let menu := buildNodeFilterOptions localeCompare formatNumber rows metric role visibleStages palette ctx sel in
  (∀ k i, (∃ o, o ∈ menu ∧ no_kind o = k ∧ no_value o = i)
      ↔ k ∈ stages ∧ ∃ row, row ∈ rows ∧ candidate sel stages ctx k row = true ∧ id (NODE_BUILDERS k row ctx) = i)
  ∧ ∀ o, o ∈ menu → no_valueLabel o = formatNumber (no_valueRaw o)
      ∧ no_valueRaw o = num_of_Z (zsum (map (row_weight metric) (List.filter (fun row =>
        candidate sel stages ctx (no_kind o) row && bool_decide (id (NODE_BUILDERS (no_kind o) row ctx) = no_value o)) rows))).
Proof.
  intros Hc stages menu. split.
  - intros k i. split.
    + intros (o & Ho & <- & <-). apply stage_option in Ho as (Hk & _ & _ & Hrow); [|done]. done.
    + intros (Hk & row & Hrow & Hcand & <-). by apply candidate_has_option.
  - intros o Ho. apply stage_option in Ho as (_ & Hl & Hv & _); done.
Qed.

Definition demo_selection : option (list FlowNodeFilter) := Some [mkFilter KGroup (js "group:vip"); mkFilter KChannel (js "hidden")].

Lemma filter_menu_exact_witness :
  let menu := buildNodeFilterOptions str_cmp Number_toString demo_rows MQuota RAdmin (Some [KUser; KGroup]) None None demo_selection in
  map (fun o => (no_value o, no_valueLabel o)) menu
  = [(js "user:ann", js "5"); (js "user:bob", js "3"); (js "group:vip", js "8"); (js "group:free", js "2")]
  ∧ ∀ o, o ∈ menu → no_valueLabel o = Number_toString (no_valueRaw o).
Proof.
  split; [vm_compute; reflexivity|]. intros o Ho.
  apply (filter_menu_exact str_cmp Number_toString demo_rows MQuota RAdmin (Some [KUser; KGroup]) None None demo_selection); [decided|exact Ho].
Defined.
