(* ===== verification/FlowShow.v ===== *)
(** * Usage flows: masking and highlighting

    Masking changes labels and nothing else, and hides every sensitive one; the
    highlighted nodes and links are those on the paths through the selection. *)

From S2P Require Import Prelude JsNum IntNum Json NumText Flow FlowGraph FlowData FlowTotals FlowLaws.
From Stdlib Require Import Floats.SpecFloat.

(** ** The presented maps *)

Definition present_node (mask : bool) (sets : option FlowHighlightSets) (n : DashboardFlowNode) : DashboardFlowNode :=
  let n := if mask then maskNode n else n in
  match sets with Some s => highlightNode s n | None => n end.

Definition present_link (masked : list (jsstr * jsstr)) (sets : option FlowHighlightSets) (l : DashboardFlowLink) :
    DashboardFlowLink :=
  let l := maskLink masked l in
  match sets with Some s => highlightLink s l | None => l end.

Lemma maskLink_nil l : maskLink [] l = l.
Proof. by destruct l. Qed.

Section presented.
Context (localeCompare : jsstr → jsstr → Z) (metric : FlowMetric) (palette : option (list jsstr)).
Context (rows : list FlowQuotaDataItem) (role : FlowRole) (visibleStages : option (list FlowNodeKind)).
Context (ctx : FlowPathContext) (options : FlowGraphOptions).

Notation stages := (resolveVisibleStages role visibleStages).
Notation paths := (graphPaths localeCompare rows metric stages ctx options).
Notation graph := (buildFlowGraph localeCompare rows metric role palette visibleStages ctx options).

Definition sets : option FlowHighlightSets := buildFlowHighlightSets paths (activeNode options) (activeLink options) stages.
Definition masks : list (jsstr * jsstr) :=
  if default false (maskSensitive options) then maskedById (node_map localeCompare metric palette paths) else [].
Definition shown_links : list DashboardFlowLink :=
  map (fun kl => present_link masks sets kl.2) (link_map localeCompare metric palette paths).

Lemma map_snd_map {K A B} (f : A → B) (m : list (K * A)) : (map (fun kv => (kv.1, f kv.2)) m).*2 = map (fun kv => f kv.2) m.
Proof. change (map snd (map (fun kv => (kv.1, f kv.2)) m) = map (fun kv => f kv.2) m). by rewrite map_map. Qed.

Lemma graph_nodes_eq :
  g_nodes graph = sort_by (byValueThenLabel localeCompare)
    (map (fun kn => present_node (default false (maskSensitive options)) sets kn.2) (node_map localeCompare metric palette paths)).
Proof.
  unfold buildFlowGraph. cbn [g_nodes]. rewrite accumulate_eq. fold sets. f_equal. unfold present_node.
  destruct sets, (default false _); cbn [applyFlowHighlights maskFlowGraphLabels fst]; rewrite ?map_snd_map, ?map_map; done.
Qed.

Lemma graph_links_eq :
  g_links graph = assignLinkDisplayColors localeCompare (assignShares (sort_by (byEnds localeCompare) shown_links)
    (linkTotal (sort_by (byEnds localeCompare) shown_links) (set_of (rootIds paths)))).
Proof.
  unfold buildFlowGraph. cbn [g_links]. rewrite accumulate_eq. cbn [fst snd]. fold sets.
  match goal with |- assignLinkDisplayColors _ (assignShares (sort_by _ ?l) _) = _ => assert (E : l = shown_links); [|by rewrite E] end.
  unfold shown_links, present_link, masks.
  destruct sets, (default false _); cbn [applyFlowHighlights maskFlowGraphLabels snd].
  - destruct (_ =? 0)%nat eqn:El; rewrite ?map_snd_map, ?map_map; [|done]. apply Nat.eqb_eq, nil_length_inv in El. rewrite El.
    apply map_ext. intros kl. by rewrite maskLink_nil.
  - rewrite map_snd_map. apply map_ext. intros kl. by rewrite maskLink_nil.
  - destruct (_ =? 0)%nat eqn:El; rewrite ?map_snd_map; [|done]. apply Nat.eqb_eq, nil_length_inv in El. rewrite El.
    change (map snd (link_map localeCompare metric palette paths) = map (fun kl => maskLink [] kl.2) (link_map localeCompare metric palette paths)).
    apply map_ext. intros kl. by rewrite maskLink_nil.
  - change (map snd (link_map localeCompare metric palette paths) = map (fun kl => maskLink [] kl.2) (link_map localeCompare metric palette paths)).
    apply map_ext. intros kl. by rewrite maskLink_nil.
Qed.

(** A field that colours and shares do not touch. *)
Lemma graph_links_field {B} (core : DashboardFlowLink → B) :
  (∀ l c a h, core (set_display l c a h) = core l) → (∀ l x, core (set_share l x) = core l) →
  map core (g_links graph) = map core (sort_by (byEnds localeCompare) shown_links).
Proof.
  intros Hd Hs. rewrite graph_links_eq, assign_core by done. unfold assignShares. rewrite map_map. by apply map_ext.
Qed.
End presented.

(** ** Highlighting *)

Lemma exists_cons {A} (P : A → Prop) a l : (∃ x, x ∈ a :: l ∧ P x) ↔ P a ∨ ∃ x, x ∈ l ∧ P x.
Proof. setoid_rewrite elem_of_cons. naive_solver. Qed.

Lemma highlight_sets_elem (q : list FlowPathNode → bool) ps s :
  let r := foldl (fun s prepared => if negb (q (path prepared)) then s else highlightPath s (path prepared)) s ps in
  (∀ i, i ∈ hl_nodes r ↔ i ∈ hl_nodes s ∨ ∃ p, p ∈ ps ∧ q (path p) = true ∧ i ∈ map id (path p))
  ∧ (∀ k, k ∈ hl_links r ↔ k ∈ hl_links s ∨ ∃ p, p ∈ ps ∧ q (path p) = true ∧ existsb (at_key k) (steps (path p)) = true).
Proof.
  revert s. induction ps as [|p ps IH]; intros s r; [unfold r; cbn [foldl]; set_solver|]. unfold r. cbn [foldl].
  destruct (IH (if negb (q (path p)) then s else highlightPath s (path p))) as [IHn IHl].
  split; [intros i; rewrite IHn|intros k; rewrite IHl];
    rewrite (exists_cons (fun p => q (path p) = true ∧ _)); destruct (q (path p)) eqn:E; cbn [negb]; [|intuition done| |intuition done].
  - unfold highlightPath. cbn [hl_nodes]. rewrite <- (foldl_map set_add id), elem_of_foldl_set_add. tauto.
  - unfold highlightPath. cbn [hl_links].
    rewrite <- (foldl_map set_add (fun st => pathLinkKey st.1 st.2)), elem_of_foldl_set_add.
    assert (H : k ∈ map (fun st => pathLinkKey st.1 st.2) (steps (path p)) ↔ existsb (at_key k) (steps (path p)) = true).
    { rewrite existsb_exists. setoid_rewrite <- list_elem_of_In. unfold at_key. setoid_rewrite bool_decide_eq_true.
      rewrite list_elem_of_fmap. naive_solver. }
    rewrite H. tauto.
Qed.

(** A link is selected, or a node of a visible stage. *)
Definition selection_active (options : FlowGraphOptions) (stages : list FlowNodeKind) : bool :=
  match activeLink options with
  | Some _ => true
  | None => match activeNode options with Some n => bool_decide (f_kind n ∈ stages) | None => false end
  end.

(** The paths through the selected link, or else through the selected node. *)
Definition selected_paths (options : FlowGraphOptions) (ps : list PreparedFlowPath) : list PreparedFlowPath :=
  List.filter (fun p => matchesPath (activeNode options) (activeLink options) (path p)) ps.

Lemma sets_of_selection options ps stages :
  Forall (fun p => path p ≠ []) ps →
  match buildFlowHighlightSets ps (activeNode options) (activeLink options) stages with
  | None => selection_active options stages && nonempty (selected_paths options ps) = false
  | Some s => selection_active options stages && nonempty (selected_paths options ps) = true
      ∧ (∀ i, set_has i (hl_nodes s) = existsb (through i) (selected_paths options ps))
      ∧ (∀ k, set_has k (hl_links s) = existsb (fun p => existsb (at_key k) (steps (path p))) (selected_paths options ps))
  end.
Proof.
  intros Hne. unfold buildFlowHighlightSets.
  match goal with |- context [if ?b then _ else _] => assert (Eb : b = negb (selection_active options stages)) end.
  { unfold selection_active. destruct (activeLink options); [by rewrite andb_false_r|]. rewrite andb_true_r. by destruct (activeNode options). }
  rewrite Eb. destruct (selection_active options stages); cbn [negb andb]; [|done].
  set (q := matchesPath (activeNode options) (activeLink options)).
  destruct (highlight_sets_elem q ps (mkSets [] [])) as [Hn Hl]. set (s := foldl _ _ ps) in *. cbn [hl_nodes hl_links] in Hn, Hl.
  assert (Hsel : ∀ p, p ∈ selected_paths options ps ↔ p ∈ ps ∧ q (path p) = true) by (intros p; unfold selected_paths; by rewrite elem_of_List_filter).
  destruct (selected_paths options ps) as [|p m] eqn:Em; cbn [nonempty].
  - assert (hl_nodes s = []) as ->; [|done]. apply elem_of_nil_inv. intros i Hi. apply Hn in Hi as [Hi|(p & Hp & Hq & _)]; [set_solver|].
    assert (p ∈ []) by by apply Hsel. set_solver.
  - assert (Hp : p ∈ ps ∧ q (path p) = true) by (apply Hsel; set_solver). destruct Hp as [Hp Hq].
    destruct (length (hl_nodes s) =? 0)%nat eqn:El.
    { exfalso. apply Nat.eqb_eq, nil_length_inv in El. rewrite Forall_forall in Hne. specialize (Hne p Hp).
      destruct (path p) as [|n pp] eqn:Epp; [done|]. assert (Hin : id n ∈ hl_nodes s).
      { apply Hn. right. exists p. rewrite Epp. split; [done|]. split; [exact Hq|]. set_solver. }
      rewrite El in Hin. set_solver. }
    split; [done|]. split.
    + intros i. apply eq_true_iff_eq. rewrite set_has_spec, Hn, existsb_exists. setoid_rewrite <- list_elem_of_In.
      unfold through. setoid_rewrite existsb_at_id. setoid_rewrite Hsel. set_solver.
    + intros k. apply eq_true_iff_eq. rewrite set_has_spec, Hl, existsb_exists. setoid_rewrite <- list_elem_of_In.
      setoid_rewrite Hsel. set_solver.
Qed.

Lemma graph_paths_nonempty localeCompare rows metric role visibleStages ctx options :
  Forall (fun p => path p ≠ []) (graphPaths localeCompare rows metric (resolveVisibleStages role visibleStages) ctx options).
Proof.
  eapply Forall_impl; [apply graph_wf|]. intros p [Hm _] E. rewrite E in Hm. destruct (stages_shape role visibleStages) as [_ Hl].
  rewrite <- Hm in Hl. cbn in Hl. lia.
Qed.

(** When a link, or a node of a visible stage, is selected and some path goes
    through it, the highlighted nodes and links are exactly those on such paths and
    all others are dimmed; otherwise no flag is set. *)
Theorem highlight_exact localeCompare metric palette rows role visibleStages ctx options :
  let g := buildFlowGraph localeCompare rows metric role palette visibleStages ctx options in
  let stages := resolveVisibleStages role visibleStages in
  let sel := selected_paths options (graphPaths localeCompare rows metric stages ctx options) in
  let shown (b : bool) := if selection_active options stages && nonempty sel then Some b else None in
  (∀ n, n ∈ g_nodes g →
     let h := existsb (through (n_id n)) sel in n_highlighted n = shown h ∧ n_dimmed n = shown (negb h))
  ∧ (∀ l, l ∈ g_links g →
     let h := existsb (fun p => existsb (at_key (linkStableKey l)) (steps (path p))) sel in
     l_highlighted l = shown h ∧ l_dimmed l = shown (negb h)).
Proof.
  intros g stages sel shown. subst g.
  pose proof (sets_of_selection options _ stages (graph_paths_nonempty localeCompare rows metric role visibleStages ctx options)) as Hs.
  fold stages sel in Hs. split.
  - intros n Hn. rewrite graph_nodes_eq in Hn. apply elem_of_sort_by, list_elem_of_fmap in Hn as ([k n'] & -> & Hn').
    apply node_fields in Hn' as (_ & p & pn & _ & _ & _ & _ & _ & Hh & Hd). unfold sets. fold stages. cbn [snd].
    unfold present_node. destruct (buildFlowHighlightSets _ _ _ _) as [s|].
    + destruct Hs as (Ha & Hsn & _). unfold shown. rewrite Ha. cbn [highlightNode n_id n_highlighted n_dimmed]. by rewrite Hsn.
    + unfold shown. rewrite Hs. unfold maskNode. by destruct (default false _); [destruct (mask_applies n')|].
  - intros l Hl. pose (fld := fun l => (linkStableKey l, l_highlighted l, l_dimmed l)).
    assert (Hf : fld l ∈ map fld (g_links (buildFlowGraph localeCompare rows metric role palette visibleStages ctx options)))
      by (apply list_elem_of_fmap; eauto).
    rewrite (graph_links_field _ _ _ _ _ _ _ _ fld) in Hf by done.
    apply list_elem_of_fmap in Hf as (l' & E & ([k l''] & -> & Hl'')%elem_of_sort_by%list_elem_of_fmap).
    apply link_fields in Hl'' as (_ & e & _ & _ & _ & _ & _ & _ & Hh & Hd). cbn [snd] in E. unfold sets in E. fold stages in E.
    injection E as E1 E2 E3. unfold present_link in *. destruct (buildFlowHighlightSets _ _ _ _) as [s|].
    + destruct Hs as (Ha & _ & Hsl). unfold shown. rewrite Ha. rewrite E1, E2, E3. cbn [highlightLink l_highlighted l_dimmed linkStableKey l_source l_target maskLink set_link_labels].
      rewrite Hsl. done.
    + unfold shown. rewrite Hs, E2, E3. done.
Qed.

(** ** Masking *)

Definition strip (l : DashboardFlowLink) : DashboardFlowLink := set_link_labels l [] [].

Lemma sort_by_map {A} (cmp : A → A → Z) (f : A → A) l :
  (∀ x y, cmp (f x) (f y) = cmp x y) → sort_by cmp (map f l) = map f (sort_by cmp l).
Proof.
  intros Hf. induction l as [|x l IH]; [done|]. cbn [map sort_by]. rewrite IH. generalize (sort_by cmp l) as s.
  induction s as [|y s IHs]; [done|]. cbn [map insert_by]. rewrite Hf. destruct (_ <=? _)%Z; cbn [map]; [done|]. by rewrite IHs.
Qed.

Lemma linkTotal_strip ls roots : linkTotal (map strip ls) roots = linkTotal ls roots.
Proof. unfold linkTotal. rewrite filter_map_comm, foldl_map. done. Qed.

Lemma assignShares_strip ls t : assignShares (map strip ls) t = map strip (assignShares ls t).
Proof. unfold assignShares. rewrite !map_map. done. Qed.

Lemma map_get_map_values {K V W} `{EqDecision K} (f : V → W) k (m : list (K * V)) :
  map_get k (map (fun kv => (kv.1, f kv.2)) m) = f <$> map_get k m.
Proof. induction m as [|[k' v] m IH]; [done|]. cbn [map map_get fst snd]. by case_decide. Qed.

Lemma map_set_map_values {K V W} `{EqDecision K} (f : V → W) k v (m : list (K * V)) :
  map_set k (f v) (map (fun kv => (kv.1, f kv.2)) m) = map (fun kv => (kv.1, f kv.2)) (map_set k v m).
Proof. induction m as [|[k' v'] m IH]; [done|]. cbn [map map_set fst snd]. case_decide; [done|]. cbn [map fst snd]. by rewrite IH. Qed.

Lemma groupBySource_strip ls : groupBySource (map strip ls) = map (fun kv => (kv.1, map strip kv.2)) (groupBySource ls).
Proof.
  induction ls as [|l ls IH] using rev_ind; [done|]. unfold groupBySource in *. rewrite map_app, !foldl_app, IH. cbn [foldl map].
  change (l_source (strip l)) with (l_source l). rewrite map_get_map_values. rewrite <- (map_set_map_values (map strip)).
  rewrite map_app. cbn [map]. by destruct (map_get (l_source l) _).
Qed.

Lemma updateLink_strip k g ls :
  (∀ l, g (strip l) = strip (g l)) → updateLink k g (map strip ls) = map strip (updateLink k g ls).
Proof.
  intros Hg. unfold updateLink. rewrite !map_map. apply map_ext. intros l. change (linkStableKey (strip l)) with (linkStableKey l).
  by destruct (bool_decide _).
Qed.

Lemma foldl_commute {A A' B} (f : B → A → B) (f' : B → A' → B) (h : B → B) (a : A → A') l b :
  (∀ b x, f' (h b) (a x) = h (f b x)) → foldl f' (h b) (map a l) = h (foldl f b l).
Proof. intros H. revert b. induction l as [|x l IH]; intros b; [done|]. cbn [map foldl]. by rewrite H, IH. Qed.

Lemma zip_map_l {A B C} (f : A → B) (l : list A) (l' : list C) : zip (map f l) l' = map (fun xy => (f xy.1, xy.2)) (zip l l').
Proof. revert l'. induction l as [|x l IH]; intros [|y l']; [done..|]. cbn. by f_equal. Qed.

Lemma assign_strip localeCompare ls :
  assignLinkDisplayColors localeCompare (map strip ls) = map strip (assignLinkDisplayColors localeCompare ls).
Proof.
  unfold assignLinkDisplayColors. rewrite groupBySource_strip. apply foldl_commute. intros b [k g]. cbn [fst snd].
  rewrite (sort_by_map (byLinkValue localeCompare) strip) by done. rewrite length_map, zip_map_l. apply foldl_commute.
  intros b' [l i]. cbn [fst snd]. change (linkStableKey (strip l)) with (linkStableKey l). by apply updateLink_strip.
Qed.

Definition with_mask (o : FlowGraphOptions) (b : bool) : FlowGraphOptions :=
  mkGraphOptions (topNodeLimit o) (overflowMode o) (otherNodeLabel o) (activeNode o) (activeLink o) (Some b).

(** A label that shows nothing. *)
Definition hidden (t : jsstr) : Prop := t = [] ∨ t = FLOW_MASK_TEXT.

Lemma maskFlowLabel_hidden t : hidden (maskFlowLabel t).
Proof. unfold maskFlowLabel. destruct t; [by left|by right]. Qed.

Lemma maskedById_hidden nodes n k :
  (k, n) ∈ nodes → mask_applies n = true → ∃ t, map_get (n_id n) (maskedById nodes) = Some t ∧ hidden t.
Proof.
  unfold maskedById. induction nodes as [|[k' n'] nodes IH] using rev_ind; [set_solver|]. intros Hin Hm.
  rewrite foldl_app. cbn [foldl snd]. destruct (mask_applies n') eqn:Hm'.
  - destruct (decide (n_id n = n_id n')) as [E|Hne].
    + rewrite E, map_get_set_eq. eexists. split; [done|]. apply maskFlowLabel_hidden.
    + rewrite map_get_set_ne by done. apply IH; [|done]. apply elem_of_app in Hin as [Hin|Hin]; [done|]. set_solver.
  - apply IH; [|done]. apply elem_of_app in Hin as [Hin|Hin]; [done|]. apply list_elem_of_singleton in Hin. congruence.
Qed.

Section masking.
Context (localeCompare : jsstr → jsstr → Z) (metric : FlowMetric) (palette : option (list jsstr)).
Context (rows : list FlowQuotaDataItem) (role : FlowRole) (visibleStages : option (list FlowNodeKind)).
Context (ctx : FlowPathContext) (options : FlowGraphOptions).

Definition masked_graph (b : bool) : DashboardFlowGraph :=
  buildFlowGraph localeCompare rows metric role palette visibleStages ctx (with_mask options b).

Lemma masked_links_strip : map strip (g_links (masked_graph true)) = map strip (g_links (masked_graph false)).
Proof.
  unfold masked_graph. rewrite !graph_links_eq, <- !assign_strip, <- !assignShares_strip. rewrite <- !(sort_by_map (byEnds localeCompare) strip) by done.
  assert (E : ∀ b, map strip (shown_links localeCompare metric palette rows role visibleStages ctx (with_mask options b))
     = map (fun kl => strip (present_link [] (sets localeCompare metric rows role visibleStages ctx options) kl.2))
         (link_map localeCompare metric palette (graphPaths localeCompare rows metric (resolveVisibleStages role visibleStages) ctx options))).
  { intros b. unfold shown_links. rewrite map_map. apply map_ext. intros kl. unfold present_link.
    change (sets localeCompare metric rows role visibleStages ctx (with_mask options b)) with (sets localeCompare metric rows role visibleStages ctx options).
    by destruct (sets localeCompare metric rows role visibleStages ctx options). }
  rewrite !E. do 2 f_equal. rewrite <- (linkTotal_strip (sort_by _ (shown_links _ _ _ _ _ _ _ (with_mask options true)))).
  rewrite <- (linkTotal_strip (sort_by _ (shown_links _ _ _ _ _ _ _ (with_mask options false)))).
  rewrite <- !(sort_by_map (byEnds localeCompare) strip) by done. rewrite !E. done.
Qed.

Lemma masked_nodes_perm : g_nodes (masked_graph true) ≡ₚ map maskNode (g_nodes (masked_graph false)).
Proof.
  unfold masked_graph. rewrite !graph_nodes_eq. rewrite sort_by_perm. rewrite (sort_by_perm (byValueThenLabel localeCompare)). rewrite map_map.
  match goal with |- ?a ≡ₚ ?b => assert (Eab : a = b); [|by rewrite Eab] end. apply map_ext. intros kn. cbn [with_mask maskSensitive default]. unfold present_node.
  change (sets localeCompare metric rows role visibleStages ctx (with_mask options ?b)) with (sets localeCompare metric rows role visibleStages ctx options).
  destruct (sets localeCompare metric rows role visibleStages ctx options) as [hs|]; [|done].
  cbn [Datatypes.id]. unfold maskNode. change (mask_applies (highlightNode hs kn.2)) with (mask_applies kn.2). by destruct (mask_applies kn.2).
Qed.

Lemma masked_node_hidden n : n ∈ g_nodes (masked_graph true) → mask_applies n = true → hidden (n_label n).
Proof.
  rewrite masked_nodes_perm. intros (m & -> & _)%list_elem_of_fmap. unfold maskNode. destruct (mask_applies m) eqn:E; [|congruence].
  intros _. apply maskFlowLabel_hidden.
Qed.

Lemma masked_link_hidden l n :
  l ∈ g_links (masked_graph true) → n ∈ g_nodes (masked_graph true) → mask_applies n = true →
  (n_id n = l_source l → hidden (sourceLabel l)) ∧ (n_id n = l_target l → hidden (targetLabel l)).
Proof.
  intros Hl Hn Hm. unfold masked_graph in Hn. apply graph_node in Hn as (n' & Hn' & E).
  assert (Hm' : mask_applies n' = true) by (unfold mask_applies, node_core in *; congruence).
  pose proof Hn' as [Hi _]%node_fields. destruct (maskedById_hidden _ _ _ Hn' Hm') as (t & Ht & Hh). rewrite Hi in Ht.
  pose (fld := fun l => (l_source l, l_target l, sourceLabel l, targetLabel l)).
  assert (Hf : fld l ∈ map fld (g_links (masked_graph true))) by (apply list_elem_of_fmap; eauto). unfold masked_graph in Hf.
  rewrite (graph_links_field _ _ _ _ _ _ _ _ fld) in Hf by done.
  apply list_elem_of_fmap in Hf as (l' & El & ([k l''] & -> & _)%elem_of_sort_by%list_elem_of_fmap). cbn [snd] in El.
  assert (Ef : fld (present_link (masks localeCompare metric palette rows role visibleStages ctx (with_mask options true))
      (sets localeCompare metric rows role visibleStages ctx (with_mask options true)) l'')
    = fld (maskLink (masks localeCompare metric palette rows role visibleStages ctx (with_mask options true)) l'')).
  { unfold present_link. by destruct (sets _ _ _ _ _ _ _). }
  rewrite Ef in El. injection El as E1 E2 E3 E4. unfold masks in *. cbn [with_mask maskSensitive default Datatypes.id] in *.
  split; intros Hs; [rewrite E3|rewrite E4]; cbn [maskLink set_link_labels sourceLabel targetLabel].
  - rewrite <- E1, <- Hs, Ht. done.
  - rewrite <- E2, <- Hs, Ht. done.
Qed.
End masking.

(** Masking hides every label of a user, node, token, group or channel, on nodes
    and on the links that touch them, except those of the nodes that stand for the
    others, and changes nothing else: the links are the same in the same order, and
    the nodes are the same with their labels masked. *)
Theorem masking_hides_only_labels localeCompare metric palette rows role visibleStages ctx options :
  let g b := masked_graph localeCompare metric palette rows role visibleStages ctx options b in
  map strip (g_links (g true)) = map strip (g_links (g false))
  ∧ g_nodes (g true) ≡ₚ map maskNode (g_nodes (g false))
  ∧ ∀ n, n ∈ g_nodes (g true) → mask_applies n = true →
      hidden (n_label n)
      ∧ ∀ l, l ∈ g_links (g true) →
          (n_id n = l_source l → hidden (sourceLabel l)) ∧ (n_id n = l_target l → hidden (targetLabel l)).
Proof.
  intros g. split; [apply masked_links_strip|]. split; [apply masked_nodes_perm|]. intros n Hn Hm.
  split; [by apply masked_node_hidden in Hn|]. intros l Hl. by apply (masked_link_hidden localeCompare metric palette rows role visibleStages ctx options l n).
Qed.

(** The nodes are sorted by value and then by label, so masking reorders nodes with
    equal values: the comment that masking leaves the layout exactly the same does
    not hold for the order in which nodes are given to the chart. *)
Theorem masking_reorders_equal_nodes :
  let rows := [demo_row "zoe" "vip" "m1" 5; demo_row "ann" "vip" "m1" 5] in
  let ids b := map n_id (g_nodes (masked_graph str_cmp MQuota None rows RAdmin (Some [KUser; KGroup]) None demo_graph_options b)) in
  ids false = [js "group:vip"; js "user:ann"; js "user:zoe"] ∧ ids true = [js "group:vip"; js "user:zoe"; js "user:ann"].
Proof. vm_compute. split; reflexivity. Qed.
