(* ===== verification/ParamOverride.v ===== *)
(** * Parameter overrides: rules, values and validation

    The pure part of
    features/channels/components/dialogs/param-override-editor-dialog.tsx: the
    operations an administrator composes to rewrite requests, the tables of their
    modes, the conversion between stored JSON and the fields of the editor, the
    validator and the builder of the stored JSON, and the presets. Fresh identifiers
    come from a supply that is threaded; translation and the Unicode case mappings
    are parameters. *)

From S2P Require Import Prelude JsNum Json NumText JsValue.
From Stdlib Require Import Floats.SpecFloat.

#[local] Open Scope js_scope.

(** ** Types *)

Record ParamOverrideCondition := mkCond {
  c_id : jsstr; c_path : jsstr; c_mode : jsstr; c_value_text : jsstr; c_invert : bool; c_pass_missing_key : bool
}.

Record ParamOverrideOperation := mkOp {
  o_id : jsstr; description : jsstr; o_path : jsstr; o_mode : jsstr; from : jsstr; to : jsstr;
  value_text : jsstr; keep_origin : bool; logic : jsstr; conditions : list ParamOverrideCondition
}.

Inductive EditMode := Visual | JsonMode.
Inductive VisualMode := Operations | Legacy.

Record EditorState := mkEditor {
  editMode : EditMode; visualMode : VisualMode; legacyValue : jsstr;
  operations : list ParamOverrideOperation; jsonText : jsstr; jsonError : jsstr
}.

(** ** Tables *)

Definition OPERATION_MODE_OPTIONS : list (jsstr * jsstr) :=
  map (fun p => (js p.1, js p.2))
  [("Set Field", "set"); ("Delete Field", "delete"); ("Append to End", "append"); ("Prepend to Start", "prepend");
   ("Copy Field", "copy"); ("Move Field", "move"); ("String Replace", "replace"); ("Regex Replace", "regex_replace");
   ("Trim Prefix", "trim_prefix"); ("Trim Suffix", "trim_suffix"); ("Ensure Prefix", "ensure_prefix");
   ("Ensure Suffix", "ensure_suffix"); ("Trim Space", "trim_space"); ("To Lowercase", "to_lower");
   ("To Uppercase", "to_upper"); ("Return Custom Error", "return_error"); ("Prune Object Items", "prune_objects");
   ("Pass Through Headers", "pass_headers"); ("Sync Fields", "sync_fields"); ("Set Request Header", "set_header");
   ("Delete Request Header", "delete_header"); ("Copy Request Header", "copy_header");
   ("Move Request Header", "move_header")]%string.

Definition OPERATION_MODE_VALUES : list jsstr := map snd OPERATION_MODE_OPTIONS.

Definition OPERATION_MODE_LABEL_MAP : list (jsstr * jsstr) :=
  foldl (fun acc item => map_set item.2 item.1 acc) [] OPERATION_MODE_OPTIONS.

Definition CONDITION_MODE_OPTIONS : list (jsstr * jsstr) :=
  map (fun p => (js p.1, js p.2))
  [("Exact Match", "full"); ("Prefix", "prefix"); ("Suffix", "suffix"); ("Contains", "contains"); ("Greater Than", "gt");
   ("Greater Than or Equal", "gte"); ("Less Than", "lt"); ("Less Than or Equal", "lte")]%string.

Definition CONDITION_MODE_VALUES : list jsstr := map snd CONDITION_MODE_OPTIONS.

Record ModeMeta := mkMeta {
  m_path : bool; m_pathOptional : bool; m_value : bool; m_from : bool; m_to : bool; m_keepOrigin : bool; m_pathAlias : bool
}.

Definition meta_path : ModeMeta := mkMeta true false false false false false false.
Definition meta_value : ModeMeta := mkMeta true false true false false false false.
Definition meta_kept : ModeMeta := mkMeta true false true false false true false.
Definition meta_move : ModeMeta := mkMeta false false false true true false false.
Definition meta_replace : ModeMeta := mkMeta true false false true false false false.
Definition meta_alias : ModeMeta := mkMeta false false false true true true true.

Definition MODE_META : list (jsstr * ModeMeta) :=
  map (fun p => (js p.1, p.2))
  [("delete"%string, meta_path); ("set"%string, meta_kept); ("append"%string, meta_kept); ("prepend"%string, meta_kept);
   ("copy"%string, meta_move); ("move"%string, meta_move); ("replace"%string, meta_replace);
   ("regex_replace"%string, meta_replace); ("trim_prefix"%string, meta_value); ("trim_suffix"%string, meta_value);
   ("ensure_prefix"%string, meta_value); ("ensure_suffix"%string, meta_value); ("trim_space"%string, meta_path);
   ("to_lower"%string, meta_path); ("to_upper"%string, meta_path);
   ("return_error"%string, mkMeta false false true false false false false);
   ("prune_objects"%string, mkMeta false true true false false false false);
   ("pass_headers"%string, mkMeta false false true false false true false); ("sync_fields"%string, meta_move);
   ("set_header"%string, meta_kept); ("delete_header"%string, meta_path); ("copy_header"%string, meta_alias);
   ("move_header"%string, meta_alias)].

(** [MODE_META[mode] || MODE_META.set]. *)
Definition meta_of (mode : jsstr) : ModeMeta := default meta_kept (map_get mode MODE_META).

Definition VALUE_REQUIRED_MODES : list jsstr :=
  map js ["trim_prefix"; "trim_suffix"; "ensure_prefix"; "ensure_suffix"; "set_header"; "return_error"; "prune_objects";
          "pass_headers"]%string.
Definition FROM_REQUIRED_MODES : list jsstr :=
  map js ["copy"; "move"; "replace"; "regex_replace"; "copy_header"; "move_header"; "sync_fields"]%string.
Definition TO_REQUIRED_MODES : list jsstr :=
  map js ["copy"; "move"; "copy_header"; "move_header"; "sync_fields"]%string.

(** ** Values *)

Definition toValueText (value : option json) : jsstr :=
  match value with
  | None => []
  | Some (JStr s) => s
  | Some v => JSON_stringify v
  end.

Definition parseLooseValue (valueText : jsstr) : json :=
  let raw := trim valueText in
  if negb (nonempty raw) then JStr []
  else match JSON_parse raw with Some v => v | None => JStr raw end.

Definition verifyJSON (text : jsstr) : bool := match JSON_parse text with Some _ => true | None => false end.

(** [value.key]; reading a property of [null] throws. *)
Definition field (v : json) (key : string) : res (option json) :=
  match v with
  | JNull => Throw (js "Cannot read properties of null")
  | JObj m => Ok (map_get (js key) m)
  | _ => Ok None
  end.

(** [typeof x === 'string' ? x : '']. *)
Definition string_or_empty (v : option json) : jsstr := match v with Some (JStr s) => s | _ => [] end.
(** [SET.has(x) ? x : fallback]. *)
Definition member_or (values : list jsstr) (v : option json) (fallback : jsstr) : jsstr :=
  match v with Some (JStr s) => if set_has s values then s else fallback | _ => fallback end.
Section normalize.
Context (nextLocalId : nat → jsstr) (toUpperCase : jsstr → jsstr).

Definition normalizeCondition (condition : json) (n : nat) : res (ParamOverrideCondition * nat) :=
  let! path := field condition "path" in
  let! mode := field condition "mode" in
  let! value := field condition "value" in
  let! invert := field condition "invert" in
  let! pass := field condition "pass_missing_key" in
  Ok (mkCond (nextLocalId n) (string_or_empty path) (member_or CONDITION_MODE_VALUES mode (js "full")) (toValueText value)
        (is_true invert) (is_true pass), S n).

Definition createDefaultCondition (n : nat) : ParamOverrideCondition * nat :=
  (mkCond (nextLocalId n) [] (js "full") [] false false, S n).

(** [l.map(f)] for a function that draws identifiers. *)
Fixpoint map_ids {A} (f : json → nat → res (A * nat)) (l : list json) (n : nat) : res (list A * nat) :=
  match l with
  | [] => Ok ([], n)
  | x :: l' =>
      let! r := f x n in
      let! rs := map_ids f l' r.2 in
      Ok (r.1 :: rs.1, rs.2)
  end.

Definition normalizeOperation (operation : json) (n : nat) : res (ParamOverrideOperation * nat) :=
  let! desc := field operation "description" in
  let! path := field operation "path" in
  let! mode := field operation "mode" in
  let! value := field operation "value" in
  let! keep := field operation "keep_origin" in
  let! frm := field operation "from" in
  let! dest := field operation "to" in
  let! lgc := field operation "logic" in
  let! conds := field operation "conditions" in
  let! cs := match conds with Some (JArr l) => map_ids normalizeCondition l (S n) | _ => Ok ([], S n) end in
  Ok (mkOp (nextLocalId n) (string_or_empty desc) (string_or_empty path) (member_or OPERATION_MODE_VALUES mode (js "set"))
        (string_or_empty frm) (string_or_empty dest) (toValueText value) (is_true keep)
        (if bool_decide (toUpperCase (text_or_default lgc (js "OR")) = js "AND") then js "AND" else js "OR") cs.1, cs.2).

(** [normalizeOperation({ mode: 'set' })]: see [createDefaultOperation_eq]. *)
Definition createDefaultOperation (n : nat) : ParamOverrideOperation * nat :=
  (mkOp (nextLocalId n) [] [] (js "set") [] [] [] false (js "OR") [], S n).

Lemma createDefaultOperation_eq n :
  toUpperCase (js "OR") ≠ js "AND" →
  normalizeOperation (JObj [(js "mode", JStr (js "set"))]) n = Ok (createDefaultOperation n).
Proof.
  intros H. unfold normalizeOperation, createDefaultOperation. cbn [field res_bind].
  change (text_or_default (map_get (js "logic") [(js "mode", JStr (js "set"))]) (js "OR")) with (js "OR").
  by rewrite bool_decide_false.
Qed.

(** ** The stored JSON *)

Definition isConditionSet (c : ParamOverrideCondition) : bool :=
  nonempty (trim (c_path c)) || nonempty (trim (c_value_text c)) || negb (bool_decide (c_mode c = js "full"))
  || c_invert c || c_pass_missing_key c.

Definition isOperationBlank (o : ParamOverrideOperation) : bool :=
  bool_decide (o_mode o = js "set") && negb (nonempty (trim (o_path o))) && negb (nonempty (trim (from o)))
  && negb (nonempty (trim (to o))) && negb (nonempty (trim (value_text o))) && negb (keep_origin o)
  && negb (existsb isConditionSet (conditions o)).

Definition buildConditionPayload (c : ParamOverrideCondition) : option json :=
  let path := trim (c_path c) in
  if negb (nonempty path) then None
  else Some (JObj (present
    [(js "path", Some (JStr path)); (js "mode", Some (JStr (str_or (c_mode c) (js "full"))));
     (js "value", Some (parseLooseValue (c_value_text c)));
     (js "invert", opt_prop (c_invert c) (JBool true));
     (js "pass_missing_key", opt_prop (c_pass_missing_key c) (JBool true))])).

Definition buildOperationPayload (o : ParamOverrideOperation) : json :=
  let mode := str_or (o_mode o) (js "set") in
  let meta := meta_of mode in
  let descriptionValue := trim (description o) in
  let pathValue := trim (o_path o) in
  let fromValue := trim (from o) in
  let toValue := trim (to o) in
  let alias x := if m_pathAlias meta && negb (nonempty x) && nonempty pathValue then pathValue else x in
  let conds := omap buildConditionPayload (conditions o) in
  JObj (present
    [(js "mode", Some (JStr mode));
     (js "description", opt_prop (nonempty descriptionValue) (JStr descriptionValue));
     (js "path", opt_prop (m_path meta || m_pathOptional meta && nonempty pathValue) (JStr pathValue));
     (js "value", opt_prop (m_value meta) (parseLooseValue (value_text o)));
     (js "keep_origin", opt_prop (m_keepOrigin meta && keep_origin o) (JBool true));
     (js "from", opt_prop (m_from meta) (JStr (alias fromValue)));
     (js "to", opt_prop (m_to meta || nonempty toValue) (JStr (alias toValue)));
     (js "conditions", opt_prop (nonempty conds) (JArr conds));
     (js "logic", opt_prop (nonempty conds) (JStr (if bool_decide (logic o = js "AND") then js "AND" else js "OR")))]).

(** ** Header names *)

(** [String(i ?? '').trim()]. *)
Definition header_text (v : json) : jsstr := match v with JNull => [] | _ => trim (to_text v) end.

Definition parsePassHeaderNames (rawValue : json) : list jsstr :=
  match rawValue with
  | JArr l => List.filter nonempty (map header_text l)
  | JObj m =>
      match map_get (js "headers") m with
      | Some (JArr l) => List.filter nonempty (map header_text l)
      | _ => match map_get (js "header") m with
             | Some h => let single := header_text h in if nonempty single then [single] else []
             | None => []
             end
      end
  | JStr s => List.filter nonempty (map trim (split_char 44 s))
  | _ => []
  end.

(** ** Validation *)

Context (t : jsstr → option nat → jsstr).

(** The message for one operation; empty when it is complete. *)
Definition validateOperation (op : ParamOverrideOperation) (line : nat) : jsstr :=
  let mode := str_or (o_mode op) (js "set") in
  let meta := meta_of mode in
  let pathValue := trim (o_path op) in
  let fromValue := trim (from op) in
  let toValue := trim (to op) in
  let aliased := m_pathAlias meta && nonempty pathValue in
  let raw := trim (value_text op) in
  if m_path meta && negb (nonempty pathValue) then t (js "Rule {{line}} is missing target path") (Some line)
  else if set_has mode FROM_REQUIRED_MODES && negb (nonempty fromValue) && negb aliased
  then t (js "Rule {{line}} is missing source field") (Some line)
  else if set_has mode TO_REQUIRED_MODES && negb (nonempty toValue) && negb aliased
  then t (js "Rule {{line}} is missing target field") (Some line)
  else if set_has mode VALUE_REQUIRED_MODES && negb (nonempty raw) then t (js "Rule {{line}} is missing value") (Some line)
  else if bool_decide (mode = js "return_error") && negb (nonempty raw) then t (js "Rule {{line}} is missing value") (Some line)
  else if bool_decide (mode = js "return_error")
          && match JSON_parse raw with
             | Some (JObj m) => negb (nonempty (trim (text_or_default (map_get (js "message") m) [])))
             | _ => false
             end
  then t (js "Rule {{line}} return_error requires a message field") (Some line)
  else if bool_decide (mode = js "prune_objects") && negb (nonempty raw)
  then t (js "Rule {{line}} prune_objects is missing conditions") (Some line)
  else if bool_decide (mode = js "pass_headers") && negb (nonempty raw)
  then t (js "Rule {{line}} pass_headers is missing header names") (Some line)
  else if bool_decide (mode = js "pass_headers") && negb (nonempty (parsePassHeaderNames (parseLooseValue raw)))
  then t (js "Rule {{line}} pass_headers format is invalid") (Some line)
  else [].

Fixpoint validateFrom (line : nat) (ops : list ParamOverrideOperation) : jsstr :=
  match ops with
  | [] => []
  | op :: ops' => let message := validateOperation op line in
                  if nonempty message then message else validateFrom (S line) ops'
  end.

Definition validateOperations (ops : list ParamOverrideOperation) : jsstr := validateFrom 1 ops.

(** [JSON.stringify(v, null, 2)]. *)
Definition pretty (v : json) : jsstr := stringify indent2 json_number 0 v.

Definition buildOperationsJson (sourceOperations : list ParamOverrideOperation) (validate : bool) : res jsstr :=
  let filteredOps := List.filter (fun o => negb (isOperationBlank o)) sourceOperations in
  if negb (nonempty filteredOps) then Ok []
  else
    let message := if validate then validateOperations filteredOps else [] in
    if nonempty message then Throw message
    else Ok (pretty (JObj [(js "operations", JArr (map buildOperationPayload filteredOps))])).

(** The [operations] member of a parsed object, when it is an array. *)
Definition operations_member (parsed : json) : option (list json) :=
  match parsed with
  | JObj m => match map_get (js "operations") m with Some (JArr l) => Some l | _ => None end
  | _ => None
  end.

Definition is_object (v : json) : bool := match v with JObj _ => true | _ => false end.

(** The operations of a parsed list, or a default one. *)
Definition loadOperations (l : list json) (n : nat) : res (list ParamOverrideOperation * nat) :=
  if nonempty l then map_ids normalizeOperation l n
  else let d := createDefaultOperation n in Ok ([d.1], d.2).

Definition parseInitialState (text : jsstr) (n : nat) : res (EditorState * nat) :=
  let trimmed := trim text in
  let d := createDefaultOperation n in
  if negb (nonempty trimmed) then Ok (mkEditor Visual Operations [] [d.1] [] [], d.2)
  else match JSON_parse trimmed with
       | None => Ok (mkEditor JsonMode Operations [] [d.1] text (js "Invalid JSON format"), d.2)
       | Some parsed =>
           match operations_member parsed with
           | Some l => let! ops := loadOperations l n in Ok (mkEditor Visual Operations [] ops.1 (pretty parsed) [], ops.2)
           | None =>
               if is_object parsed then Ok (mkEditor Visual Legacy (pretty parsed) [d.1] (pretty parsed) [], d.2)
               else Ok (mkEditor JsonMode Operations [] [d.1] (pretty parsed) [], d.2)
           end
       end.
End normalize.
