(* ===== verification/ParamDrafts.v ===== *)
(** * Parameter overrides: drafts and presets

    The texts of the editor of
    features/channels/components/dialogs/param-override-editor-dialog.tsx: labels,
    the targets of synchronized fields, the structured drafts of the return_error
    and prune_objects modes, and the presets. *)

From S2P Require Import Prelude JsNum Json NumText JsValue ParamOverride.
From Stdlib Require Import Floats.SpecFloat.

#[local] Open Scope js_scope.

(** ** Order and labels *)

Definition find_index {A} (q : A → bool) (l : list A) : option nat :=
  (fix go i l := match l with [] => None | x :: l' => if q x then Some i else go (S i) l' end) 0%nat l.

Inductive Position := Before | After.

Definition has_id (i : jsstr) (o : ParamOverrideOperation) : bool := bool_decide (o_id o = i).

Definition reorderOperations (ops : list ParamOverrideOperation) (sourceId targetId : jsstr) (position : Position) :
    list ParamOverrideOperation :=
  if negb (nonempty sourceId) || negb (nonempty targetId) || bool_decide (sourceId = targetId) then ops
  else match find_index (has_id sourceId) ops with
       | None => ops
       | Some srcIdx =>
           match ops !! srcIdx with
           | None => ops
           | Some moved =>
               let next := take srcIdx ops ++ drop (S srcIdx) ops in
               match find_index (has_id targetId) next with
               | None => ops
               | Some insertIdx =>
                   let insertIdx := match position with After => S insertIdx | Before => insertIdx end in
                   take insertIdx next ++ moved :: drop insertIdx next
               end
           end
       end.

Definition getOperationSummary (o : ParamOverrideOperation) (index : nat) : jsstr :=
  let mode := str_or (o_mode o) (js "set") in
  let modeLabel := str_or (default [] (map_get mode OPERATION_MODE_LABEL_MAP)) mode in
  let from := trim (from o) in
  let to := trim (to o) in
  let subject :=
    if bool_decide (mode = js "sync_fields") then str_or from (str_or to (js "-"))
    else str_or (trim (o_path o)) (str_or from (str_or to (js "-"))) in
  print_N (N.of_nat (index + 1)) ++ js ". " ++ modeLabel ++ [32; 183; 32]%N ++ subject.

Definition is_mode (mode : jsstr) (names : list string) : bool := existsb (fun n => bool_decide (mode = js n)) names.

Definition getModePathLabel (mode : jsstr) : jsstr :=
  if is_mode mode ["set_header"; "delete_header"]%string then js "Header Name"
  else if is_mode mode ["prune_objects"]%string then js "Target Path (optional)" else js "Target Field Path".

Definition getModePathPlaceholder (mode : jsstr) : jsstr :=
  if is_mode mode ["set_header"]%string then js "Authorization"
  else if is_mode mode ["delete_header"]%string then js "X-Debug-Mode"
  else if is_mode mode ["prune_objects"]%string then js "messages" else js "temperature".

Definition getModeFromLabel (mode : jsstr) : jsstr :=
  if is_mode mode ["replace"]%string then js "Match Text"
  else if is_mode mode ["regex_replace"]%string then js "Regex Pattern"
  else if is_mode mode ["copy_header"; "move_header"]%string then js "Source Header" else js "Source Field".

Definition getModeFromPlaceholder (mode : jsstr) : jsstr :=
  if is_mode mode ["replace"]%string then js "openai/"
  else if is_mode mode ["regex_replace"]%string then js "^gpt-"
  else if is_mode mode ["copy_header"; "move_header"]%string then js "Authorization" else js "model".

Definition getModeToLabel (mode : jsstr) : jsstr :=
  if is_mode mode ["replace"; "regex_replace"]%string then js "Replace With"
  else if is_mode mode ["copy_header"; "move_header"]%string then js "Target Header" else js "Target Field".

Definition getModeToPlaceholder (mode : jsstr) : jsstr :=
  if is_mode mode ["replace"]%string then js "(leave empty to delete)"
  else if is_mode mode ["regex_replace"]%string then js "openai/gpt-"
  else if is_mode mode ["copy_header"; "move_header"]%string then js "X-Upstream-Auth" else js "original_model".

Definition affix_modes : list string := ["trim_prefix"; "trim_suffix"; "ensure_prefix"; "ensure_suffix"]%string.

Definition getModeValueLabel (mode : jsstr) : jsstr :=
  if is_mode mode ["set_header"]%string then js "Header Value (supports string or JSON mapping)"
  else if is_mode mode ["pass_headers"]%string then js "Pass-through Headers (comma-separated or JSON array)"
  else if is_mode mode affix_modes then js "Prefix/Suffix Text"
  else if is_mode mode ["prune_objects"]%string then js "Prune Rule (string or JSON object)"
  else js "Value (supports JSON or plain text)".

Definition getModeValuePlaceholder (mode : jsstr) : jsstr :=
  if is_mode mode ["set_header"]%string then js "Bearer sk-xxx"
  else if is_mode mode ["pass_headers"]%string then js "Authorization, X-Request-Id"
  else if is_mode mode affix_modes then js "openai/"
  else if is_mode mode ["prune_objects"]%string then jsq "{'type':'redacted_thinking'}"
  else js "0.7".

(** ** Sync targets *)

Section targets.
Context (toLowerCase : jsstr → jsstr).

(** The text before the first [c] and the text after it. *)
Fixpoint cut_at (c : N) (s : jsstr) : option (jsstr * jsstr) :=
  match s with
  | [] => None
  | d :: s' => if (d =? c)%N then Some ([], s') else (fun ab => (d :: ab.1, ab.2)) <$> cut_at c s'
  end.

Definition parseSyncTargetSpec (spec : jsstr) : jsstr * jsstr :=
  let raw := trim spec in
  if negb (nonempty raw) then (js "json", [])
  else match cut_at 58 raw with
       | None => (js "json", raw)
       | Some (a, b) =>
           let prefix := toLowerCase (trim a) in
           let key := trim b in
           if bool_decide (prefix = js "header") then (js "header", key) else (js "json", key)
       end.

Definition buildSyncTargetSpec (type key : jsstr) : jsstr :=
  let normalizedType := if bool_decide (type = js "header") then js "header" else js "json" in
  let normalizedKey := trim key in
  if negb (nonempty normalizedKey) then [] else normalizedType ++ 58%N :: normalizedKey.
End targets.

(** ** return_error *)

Record ReturnErrorDraft := mkReturnError {
  re_message : jsstr; re_statusCode : num; re_code : jsstr; re_type : jsstr; re_skipRetry : bool; re_simpleMode : bool
}.

Definition status_or_400 (x : num) : num := if valid_status x then x else num_of_Z 400.

Definition default_return_error : ReturnErrorDraft := mkReturnError [] (num_of_Z 400) [] [] true true.

Definition parseReturnErrorDraft (valueText : jsstr) : ReturnErrorDraft :=
  let raw := trim valueText in
  if negb (nonempty raw) then default_return_error
  else match JSON_parse raw with
       | Some (JObj m) =>
           let get k := map_get (js k) m in
           let statusRaw := match get "status_code"%string with Some v => Some v | None => get "status"%string end in
           mkReturnError
             (trim (text_or_default (get "message"%string) (text_or_default (get "msg"%string) [])))
             (status_or_400 (Number_value statusRaw))
             (trim (text_or_default (get "code"%string) [])) (trim (text_or_default (get "type"%string) []))
             (negb (is_false (get "skip_retry"%string))) false
       | _ => mkReturnError raw (num_of_Z 400) [] [] true true
       end.

Definition buildReturnErrorValueText (draft : ReturnErrorDraft) : jsstr :=
  let message := trim (re_message draft) in
  if re_simpleMode draft then message
  else
    let code := trim (re_code draft) in
    let type := trim (re_type draft) in
    JSON_stringify (JObj (present
      [(js "message", Some (JStr message)); (js "status_code", Some (JNum (status_or_400 (re_statusCode draft))));
       (js "code", opt_prop (nonempty code) (JStr code)); (js "type", opt_prop (nonempty type) (JStr type));
       (js "skip_retry", opt_prop (negb (re_skipRetry draft)) (JBool false))])).

(** ** prune_objects *)

Record PruneRule := mkPruneRule {
  pr_id : jsstr; pr_path : jsstr; pr_mode : jsstr; pr_value_text : jsstr; pr_invert : bool; pr_pass_missing_key : bool
}.
Record PruneObjectsDraft := mkPrune {
  pd_simpleMode : bool; typeText : jsstr; pd_logic : jsstr; recursive : bool; rules : list PruneRule
}.

Definition default_prune : PruneObjectsDraft := mkPrune true [] (js "AND") true [].

Section prune.
Context (nextLocalId : nat → jsstr) (toUpperCase : jsstr → jsstr).

Definition normalizePruneRule (rule : json) (n : nat) : PruneRule * nat :=
  (mkPruneRule (nextLocalId n) (string_or_empty (prop_of rule "path"))
     (member_or CONDITION_MODE_VALUES (prop_of rule "mode") (js "full"))
     (toValueText (prop_of rule "value")) (is_true (prop_of rule "invert")) (is_true (prop_of rule "pass_missing_key")), S n).

(** The rules of a list of values, each with a fresh identifier. *)
Definition pushPruneRules (l : list json) (acc : list PruneRule * nat) : list PruneRule * nat :=
  foldl (fun acc item => let r := normalizePruneRule item acc.2 in (acc.1 ++ [r.1], r.2)) acc l.

(** [{ path, mode: 'full', value }] of each entry. *)
Definition entry_rules (m : list (jsstr * json)) : list json :=
  map (fun kv => JObj [(js "path", JStr kv.1); (js "mode", str "full"); (js "value", kv.2)]) m.

Definition is_object_or_array (v : json) : bool := match v with JObj _ | JArr _ => true | _ => false end.

Definition draft_rules (m : list (jsstr * json)) (n : nat) : list PruneRule * nat :=
  let acc := match map_get (js "where") m with Some (JObj w) => pushPruneRules (entry_rules w) ([], n) | _ => ([], n) end in
  match map_get (js "conditions") m with
  | Some (JArr l) => pushPruneRules (List.filter is_object_or_array l) acc
  | Some (JObj c) => pushPruneRules (entry_rules c) acc
  | _ => acc
  end.

Definition defined (v : option json) : bool := match v with Some _ => true | None => false end.

Definition parsePruneObjectsDraft (valueText : jsstr) (n : nat) : PruneObjectsDraft * nat :=
  let raw := trim valueText in
  let simple t := mkPrune true t (js "AND") true [] in
  if negb (nonempty raw) then (default_prune, n)
  else match JSON_parse raw with
       | None => (simple raw, n)
       | Some (JStr s) => (simple (trim s), n)
       | Some (JObj m) =>
           let rs := draft_rules m n in
           let typeText := match map_get (js "type") m with None => [] | Some v => trim (to_text v) end in
           let logic := if bool_decide (toUpperCase (text_or_default (map_get (js "logic") m) (js "AND")) = js "OR")
                        then js "OR" else js "AND" in
           let hasAdvancedFields := defined (map_get (js "logic") m) || defined (map_get (js "recursive") m)
                                    || defined (map_get (js "where") m) || defined (map_get (js "conditions") m) in
           (mkPrune (negb hasAdvancedFields) typeText logic (negb (is_false (map_get (js "recursive") m))) rs.1, rs.2)
       | Some JNull => (simple [], n)
       | Some v => (simple (trim (to_text v)), n)
       end.

Definition pruneRulePayload (rule : PruneRule) : json :=
  let valueRaw := trim (pr_value_text rule) in
  JObj (present
    [(js "path", Some (JStr (trim (pr_path rule))));
     (js "mode", Some (JStr (if set_has (pr_mode rule) CONDITION_MODE_VALUES then pr_mode rule else js "full")));
     (js "value", opt_prop (nonempty valueRaw) (parseLooseValue valueRaw));
     (js "invert", opt_prop (pr_invert rule) (JBool true));
     (js "pass_missing_key", opt_prop (pr_pass_missing_key rule) (JBool true))]).

Definition buildPruneObjectsValueText (draft : PruneObjectsDraft) : jsstr :=
  let typeText := trim (typeText draft) in
  if pd_simpleMode draft then typeText
  else
    let conditions := map pruneRulePayload (List.filter (fun rule => nonempty (trim (pr_path rule))) (rules draft)) in
    if negb (nonempty typeText) && negb (nonempty conditions) then JSON_stringify (JObj [(js "logic", str "AND")])
    else JSON_stringify (JObj (present
      [(js "type", opt_prop (nonempty typeText) (JStr typeText));
       (js "logic", opt_prop (bool_decide (toUpperCase (str_or (pd_logic draft) (js "AND")) = js "OR")) (str "OR"));
       (js "recursive", opt_prop (negb (recursive draft)) (JBool false));
       (js "conditions", opt_prop (nonempty conditions) (JArr conditions))])).
End prune.
