(* ===== verification/ParamPresets.v ===== *)
(** * Parameter overrides: presets

    The templates an administrator can start from, as the JSON they are in
    features/channels/components/dialogs/param-override-editor-dialog.tsx. *)

From S2P Require Import Prelude JsNum Json NumText JsValue ParamOverride.
From Stdlib Require Import Floats.SpecFloat.

Definition obj (l : list (string * json)) : json := JObj (map (fun kv => (js kv.1, kv.2)) l).
Definition ops_template (ops : list json) : json := obj [("operations"%string, JArr ops)].

Definition LEGACY_TEMPLATE : json := obj [("temperature"%string, JNum (num_of_Z 0)); ("max_tokens"%string, JNum (num_of_Z 1000))].

Definition cond_template (path mode value : string) : json :=
  obj [("path"%string, str path); ("mode"%string, str mode); ("value"%string, str value)].

Definition OPERATION_TEMPLATE : json := ops_template
  [obj [("description"%string, str "Set default temperature for openai/* models."); ("path"%string, str "temperature");
        ("mode"%string, str "set"); ("value"%string, JNum (num_of_dec false 7 (-1)));
        ("conditions"%string, JArr [cond_template "model" "prefix" "openai/"]); ("logic"%string, str "AND")]].

Definition HEADER_PASSTHROUGH_TEMPLATE : json := ops_template
  [obj [("description"%string, str "Pass through X-Request-Id header to upstream."); ("mode"%string, str "pass_headers");
        ("value"%string, JArr [str "X-Request-Id"]); ("keep_origin"%string, JBool true)]].

Definition GEMINI_IMAGE_4K_TEMPLATE : json := ops_template
  [obj [("description"%string, str "Set imageSize to 4K when model contains gemini/image and ends with 4k.");
        ("mode"%string, str "set"); ("path"%string, str "generationConfig.imageConfig.imageSize"); ("value"%string, str "4K");
        ("conditions"%string, JArr [cond_template "original_model" "contains" "gemini";
           cond_template "original_model" "contains" "image"; cond_template "original_model" "suffix" "4k"]);
        ("logic"%string, str "AND")]].

Definition CODEX_CLI_HEADER_PASSTHROUGH_HEADERS : list string :=
  ["Originator"; "Session_id"; "Thread_id"; "Session-Id"; "Thread-Id"; "X-Client-Request-Id"; "User-Agent";
   "X-Codex-Beta-Features"; "X-Codex-Turn-State"; "X-Codex-Turn-Metadata"; "X-Codex-Window-Id"; "X-Codex-Parent-Thread-Id";
   "X-OpenAI-Subagent"; "X-OpenAI-Memgen-Request"; "X-ResponsesAPI-Include-Timing-Metrics";
   "X-OpenAI-Internal-Codex-Responses-Lite"]%string.

Definition CLAUDE_CLI_HEADER_PASSTHROUGH_HEADERS : list string :=
  ["X-Stainless-Arch"; "X-Stainless-Lang"; "X-Stainless-Os"; "X-Stainless-Package-Version"; "X-Stainless-Retry-Count";
   "X-Stainless-Runtime"; "X-Stainless-Runtime-Version"; "X-Stainless-Timeout"; "User-Agent"; "X-App"; "Anthropic-Beta";
   "Anthropic-Dangerous-Direct-Browser-Access"; "Anthropic-Version"]%string.

Definition buildPassHeadersTemplate (headers : list string) : json := ops_template
  [obj [("mode"%string, str "pass_headers"); ("value"%string, JArr (map str headers)); ("keep_origin"%string, JBool true)]].

Definition CODEX_CLI_HEADER_PASSTHROUGH_TEMPLATE : json := buildPassHeadersTemplate CODEX_CLI_HEADER_PASSTHROUGH_HEADERS.
Definition CLAUDE_CLI_HEADER_PASSTHROUGH_TEMPLATE : json := buildPassHeadersTemplate CLAUDE_CLI_HEADER_PASSTHROUGH_HEADERS.

Definition AWS_BETA_TOKENS : list (string * json) :=
  [("advanced-tool-use-2025-11-20"%string, str "tool-search-tool-2025-10-19"); ("bash_20241022"%string, JNull);
   ("bash_20250124"%string, JNull); ("code-execution-2025-08-25"%string, JNull);
   ("compact-2026-01-12"%string, str "compact-2026-01-12"); ("computer-use-2025-01-24"%string, str "computer-use-2025-01-24");
   ("computer-use-2025-11-24"%string, str "computer-use-2025-11-24"); ("context-1m-2025-08-07"%string, str "context-1m-2025-08-07");
   ("context-management-2025-06-27"%string, str "context-management-2025-06-27"); ("effort-2025-11-24"%string, JNull);
   ("fast-mode-2026-02-01"%string, JNull); ("files-api-2025-04-14"%string, JNull);
   ("fine-grained-tool-streaming-2025-05-14"%string, JNull);
   ("interleaved-thinking-2025-05-14"%string, str "interleaved-thinking-2025-05-14"); ("mcp-client-2025-11-20"%string, JNull);
   ("mcp-client-2025-04-04"%string, JNull); ("mcp-servers-2025-12-04"%string, JNull); ("output-128k-2025-02-19"%string, JNull);
   ("structured-output-2024-03-01"%string, JNull); ("prompt-caching-scope-2026-01-05"%string, JNull);
   ("skills-2025-10-02"%string, JNull); ("structured-outputs-2025-11-13"%string, JNull); ("text_editor_20241022"%string, JNull);
   ("text_editor_20250124"%string, JNull); ("token-efficient-tools-2025-02-19"%string, JNull);
   ("tool-search-tool-2025-10-19"%string, str "tool-search-tool-2025-10-19"); ("web-fetch-2025-09-10"%string, JNull);
   ("web-search-2025-03-05"%string, JNull); ("oauth-2025-04-20"%string, JNull)].

Definition AWS_BEDROCK_ANTHROPIC_COMPAT_TEMPLATE : json := ops_template
  [obj [("description"%string, str "Normalize anthropic-beta header tokens for Bedrock compatibility.");
        ("mode"%string, str "set_header"); ("path"%string, str "anthropic-beta"); ("value"%string, obj AWS_BETA_TOKENS)];
   obj [("description"%string, str "Remove all tools[*].custom.input_examples before upstream relay.");
        ("mode"%string, str "delete"); ("path"%string, str "tools.*.custom.input_examples")]].

Inductive PresetKind := POperations | PLegacy.
Record TemplatePresetConfig := mkPreset { preset_label : jsstr; preset_kind : PresetKind; payload : json }.

Definition TEMPLATE_PRESET_CONFIG : list (jsstr * TemplatePresetConfig) :=
  [(js "operations_default", mkPreset (js "New Format Template") POperations OPERATION_TEMPLATE);
   (js "legacy_default", mkPreset (js "Legacy Format Template") PLegacy LEGACY_TEMPLATE);
   (js "pass_headers_auth", mkPreset (js "Header Passthrough (X-Request-Id)") POperations HEADER_PASSTHROUGH_TEMPLATE);
   (js "gemini_image_4k", mkPreset (js "Gemini Image 4K") POperations GEMINI_IMAGE_4K_TEMPLATE);
   (js "claude_cli_headers_passthrough",
      mkPreset (js "Claude CLI Header Passthrough") POperations CLAUDE_CLI_HEADER_PASSTHROUGH_TEMPLATE);
   (js "codex_cli_headers_passthrough",
      mkPreset (js "Codex CLI Header Passthrough") POperations CODEX_CLI_HEADER_PASSTHROUGH_TEMPLATE);
   (js "aws_bedrock_anthropic_beta_override",
      mkPreset (js "AWS Bedrock Claude Compat") POperations AWS_BEDROCK_ANTHROPIC_COMPAT_TEMPLATE)].
