(* ===== verification/ParamEditor.v ===== *)
(** * Parameter overrides: the dialog

    The state of the dialog of
    features/channels/components/dialogs/param-override-editor-dialog.tsx and its
    handlers, each a function on the state. An update of an operation is a list of
    field assignments. React may or may not run an updater before the handler
    returns; where the handler depends on it, that is an input. *)

From S2P Require Import Prelude JsNum Json NumText JsValue ParamOverride ParamDrafts ParamPresets.
From Stdlib Require Import Floats.SpecFloat.

#[local] Open Scope js_scope.

Record Dialog := mkDialog {
  editor : EditorState; operationSearch : jsstr; selectedOverride : jsstr; expandedConditions : list (jsstr * bool);
  draggedOperationId : jsstr; dragOverOperationId : jsstr; dragOverPosition : Position; templatePresetKey : jsstr;
  toasts : list jsstr; saved : list jsstr; nextId : nat
}.

Definition with_editor (d : Dialog) (e : EditorState) : Dialog :=
  mkDialog e (operationSearch d) (selectedOverride d) (expandedConditions d) (draggedOperationId d) (dragOverOperationId d)
    (dragOverPosition d) (templatePresetKey d) (toasts d) (saved d) (nextId d).
Definition with_ops (d : Dialog) (ops : list ParamOverrideOperation) : Dialog :=
  let e := editor d in
  with_editor d (mkEditor (editMode e) (visualMode e) (legacyValue e) ops (jsonText e) (jsonError e)).
Definition with_selected (d : Dialog) (i : jsstr) : Dialog :=
  mkDialog (editor d) (operationSearch d) i (expandedConditions d) (draggedOperationId d) (dragOverOperationId d)
    (dragOverPosition d) (templatePresetKey d) (toasts d) (saved d) (nextId d).
Definition with_expanded (d : Dialog) (m : list (jsstr * bool)) : Dialog :=
  mkDialog (editor d) (operationSearch d) (selectedOverride d) m (draggedOperationId d) (dragOverOperationId d)
    (dragOverPosition d) (templatePresetKey d) (toasts d) (saved d) (nextId d).
Definition with_drag (d : Dialog) (src over : jsstr) (pos : Position) : Dialog :=
  mkDialog (editor d) (operationSearch d) (selectedOverride d) (expandedConditions d) src over pos
    (templatePresetKey d) (toasts d) (saved d) (nextId d).
Definition with_preset (d : Dialog) (k : jsstr) : Dialog :=
  mkDialog (editor d) (operationSearch d) (selectedOverride d) (expandedConditions d) (draggedOperationId d)
    (dragOverOperationId d) (dragOverPosition d) k (toasts d) (saved d) (nextId d).
Definition with_toast (d : Dialog) (m : jsstr) : Dialog :=
  mkDialog (editor d) (operationSearch d) (selectedOverride d) (expandedConditions d) (draggedOperationId d)
    (dragOverOperationId d) (dragOverPosition d) (templatePresetKey d) (toasts d ++ [m]) (saved d) (nextId d).
Definition with_saved (d : Dialog) (v : jsstr) : Dialog :=
  mkDialog (editor d) (operationSearch d) (selectedOverride d) (expandedConditions d) (draggedOperationId d)
    (dragOverOperationId d) (dragOverPosition d) (templatePresetKey d) (toasts d) (saved d ++ [v]) (nextId d).
Definition with_next (d : Dialog) (n : nat) : Dialog :=
  mkDialog (editor d) (operationSearch d) (selectedOverride d) (expandedConditions d) (draggedOperationId d)
    (dragOverOperationId d) (dragOverPosition d) (templatePresetKey d) (toasts d) (saved d) n.

(** The identifier of the first operation, or nothing. *)
Definition first_id (ops : list ParamOverrideOperation) : jsstr := match ops with o :: _ => o_id o | [] => [] end.

Definition selectedOperationId (d : Dialog) : jsstr :=
  let ops := operations (editor d) in
  if existsb (has_id (selectedOverride d)) ops then selectedOverride d else first_id ops.

Definition selectedOperation (d : Dialog) : option ParamOverrideOperation :=
  List.find (has_id (selectedOperationId d)) (operations (editor d)).

Definition operationCount (d : Dialog) : nat :=
  length (List.filter (fun o => negb (isOperationBlank o)) (operations (editor d))).

Definition topOperationModes (d : Dialog) : list (jsstr * nat) :=
  let counts := foldl (fun m op => let mode := str_or (o_mode op) (js "set") in
                         map_set mode (S (default 0%nat (map_get mode m))) m) [] (operations (editor d)) in
  take 4 (sort_by (fun a b => (Z.of_nat b.2 - Z.of_nat a.2)%Z) counts).

(** ** Assignments *)

Inductive OpField :=
  | FDescription (v : jsstr) | FPath (v : jsstr) | FMode (v : jsstr) | FFrom (v : jsstr) | FTo (v : jsstr)
  | FValue (v : jsstr) | FKeep (v : bool) | FLogic (v : jsstr).

Definition assign_op (o : ParamOverrideOperation) (f : OpField) : ParamOverrideOperation :=
  let 'mkOp i d p m fr t v k l c := o in
  match f with
  | FDescription d' => mkOp i d' p m fr t v k l c
  | FPath p' => mkOp i d p' m fr t v k l c
  | FMode m' => mkOp i d p m' fr t v k l c
  | FFrom fr' => mkOp i d p m fr' t v k l c
  | FTo t' => mkOp i d p m fr t' v k l c
  | FValue v' => mkOp i d p m fr t v' k l c
  | FKeep k' => mkOp i d p m fr t v k' l c
  | FLogic l' => mkOp i d p m fr t v k l' c
  end.

Inductive CondField := GPath (v : jsstr) | GMode (v : jsstr) | GValue (v : jsstr) | GInvert (v : bool) | GPass (v : bool).

Definition assign_cond (c : ParamOverrideCondition) (f : CondField) : ParamOverrideCondition :=
  let 'mkCond i p m v n k := c in
  match f with
  | GPath p' => mkCond i p' m v n k
  | GMode m' => mkCond i p m' v n k
  | GValue v' => mkCond i p m v' n k
  | GInvert n' => mkCond i p m v n' k
  | GPass k' => mkCond i p m v n k'
  end.

Definition set_conditions (o : ParamOverrideOperation) (cs : list ParamOverrideCondition) : ParamOverrideOperation :=
  mkOp (o_id o) (description o) (o_path o) (o_mode o) (from o) (to o) (value_text o) (keep_origin o) (logic o) cs.
Definition set_value (o : ParamOverrideOperation) (v : jsstr) : ParamOverrideOperation := assign_op o (FValue v).

(** [prev.map((o) => o.id === id ? f(o) : o)]. *)
Definition update_at (i : jsstr) (f : ParamOverrideOperation → ParamOverrideOperation) (ops : list ParamOverrideOperation) :
    list ParamOverrideOperation :=
  map (fun o => if has_id i o then f o else o) ops.

(** ** Handlers *)

Section handlers.
Context (nextLocalId : nat → jsstr) (toUpperCase toLowerCase : jsstr → jsstr) (t : jsstr → option nat → jsstr).

Definition filteredOperations (d : Dialog) : list ParamOverrideOperation :=
  let keyword := toLowerCase (trim (operationSearch d)) in
  if negb (nonempty keyword) then operations (editor d)
  else List.filter (fun op =>
         includes keyword (toLowerCase (join [32%N]
           (List.filter nonempty [description op; o_mode op; o_path op; from op; to op; value_text op]))))
       (operations (editor d)).

(** The dialog opens on a stored value. *)
Definition openDialog (d : Dialog) (value : jsstr) : res Dialog :=
  let! s := parseInitialState nextLocalId toUpperCase value (nextId d) in
  Ok (mkDialog s.1 [] (first_id (operations s.1)) [] [] [] Before
        (match visualMode s.1 with Legacy => js "legacy_default" | Operations => js "operations_default" end)
        (toasts d) (saved d) s.2).

Definition updateOperation (d : Dialog) (operationId : jsstr) (patch : list OpField) : Dialog :=
  with_ops d (update_at operationId (fun o => foldl assign_op o patch) (operations (editor d))).

Definition addOperation (d : Dialog) : Dialog :=
  let created := createDefaultOperation nextLocalId (nextId d) in
  with_selected (with_next (with_ops d (operations (editor d) ++ [created.1])) created.2) (o_id created.1).

Definition conditionCopy (c : ParamOverrideCondition) : json :=
  JObj [(js "path", JStr (c_path c)); (js "mode", JStr (c_mode c)); (js "value", parseLooseValue (c_value_text c));
        (js "invert", JBool (c_invert c)); (js "pass_missing_key", JBool (c_pass_missing_key c))].

Definition operationCopy (o : ParamOverrideOperation) : json :=
  JObj [(js "description", JStr (description o)); (js "path", JStr (o_path o)); (js "mode", JStr (o_mode o));
        (js "value", parseLooseValue (value_text o)); (js "keep_origin", JBool (keep_origin o)); (js "from", JStr (from o));
        (js "to", JStr (to o)); (js "logic", JStr (logic o)); (js "conditions", JArr (map conditionCopy (conditions o)))].

(** [eager] is whether the updater ran before the handler went on. *)
Definition duplicateOperation (d : Dialog) (operationId : jsstr) (eager : bool) : Dialog :=
  let prev := operations (editor d) in
  match find_index (has_id operationId) prev with
  | None => d
  | Some idx =>
      match prev !! idx with
      | None => d
      | Some source =>
          match normalizeOperation nextLocalId toUpperCase (operationCopy source) (nextId d) with
          | Throw _ => d
          | Ok cloned =>
              let d' := with_next (with_ops d (take (S idx) prev ++ cloned.1 :: drop (S idx) prev)) cloned.2 in
              if eager && nonempty (o_id cloned.1) then with_selected d' (o_id cloned.1) else d'
          end
      end
  end.

Definition removeOperation (d : Dialog) (operationId : jsstr) : Dialog :=
  let prev := operations (editor d) in
  if (length prev <=? 1)%nat then
    let created := createDefaultOperation nextLocalId (nextId d) in with_next (with_ops d [created.1]) created.2
  else with_ops d (List.filter (fun o => negb (has_id operationId o)) prev).

Definition addCondition (d : Dialog) (operationId : jsstr) : Dialog :=
  let created := createDefaultCondition nextLocalId (nextId d) in
  let d' := with_ops d (update_at operationId (fun o => set_conditions o (conditions o ++ [created.1])) (operations (editor d))) in
  with_next (with_expanded d' (map_set (c_id created.1) true (expandedConditions d))) created.2.

Definition cond_id (i : jsstr) (c : ParamOverrideCondition) : bool := bool_decide (c_id c = i).

Definition updateCondition (d : Dialog) (operationId conditionId : jsstr) (patch : list CondField) : Dialog :=
  with_ops d (update_at operationId (fun o => set_conditions o
    (map (fun c => if cond_id conditionId c then foldl assign_cond c patch else c) (conditions o))) (operations (editor d))).

Definition removeCondition (d : Dialog) (operationId conditionId : jsstr) : Dialog :=
  with_ops d (update_at operationId (fun o => set_conditions o
    (List.filter (fun c => negb (cond_id conditionId c)) (conditions o))) (operations (editor d))).

Definition updateReturnErrorDraft (d : Dialog) (operationId : jsstr) (patch : ReturnErrorDraft → ReturnErrorDraft) : Dialog :=
  with_ops d (update_at operationId (fun o => set_value o (buildReturnErrorValueText (patch (parseReturnErrorDraft (value_text o)))))
    (operations (editor d))).

(** The drafts of the operations with the identifier are parsed and rebuilt; each
    parse draws fresh identifiers. *)
Fixpoint updatePruneOps (operationId : jsstr) (updater : PruneObjectsDraft → nat → PruneObjectsDraft * nat)
    (ops : list ParamOverrideOperation) (n : nat) : list ParamOverrideOperation * nat :=
  match ops with
  | [] => ([], n)
  | o :: ops' =>
      if has_id operationId o then
        let draft := parsePruneObjectsDraft nextLocalId toUpperCase (value_text o) n in
        let next := updater draft.1 draft.2 in
        let rest := updatePruneOps operationId updater ops' next.2 in
        (set_value o (buildPruneObjectsValueText toUpperCase next.1) :: rest.1, rest.2)
      else let rest := updatePruneOps operationId updater ops' n in (o :: rest.1, rest.2)
  end.

Definition updatePruneObjectsDraft (d : Dialog) (operationId : jsstr)
    (updater : PruneObjectsDraft → nat → PruneObjectsDraft * nat) : Dialog :=
  let r := updatePruneOps operationId updater (operations (editor d)) (nextId d) in with_next (with_ops d r.1) r.2.

Definition with_rules (p : PruneObjectsDraft) (simple : bool) (rs : list PruneRule) : PruneObjectsDraft :=
  mkPrune simple (typeText p) (pd_logic p) (recursive p) rs.

Definition addPruneRule (d : Dialog) (operationId : jsstr) : Dialog :=
  updatePruneObjectsDraft d operationId (fun draft n =>
    let r := normalizePruneRule nextLocalId (JObj []) n in (with_rules draft false (rules draft ++ [r.1]), r.2)).

Definition rule_id (i : jsstr) (r : PruneRule) : bool := bool_decide (pr_id r = i).

Definition updatePruneRule (d : Dialog) (operationId ruleId : jsstr) (patch : PruneRule → PruneRule) : Dialog :=
  updatePruneObjectsDraft d operationId (fun draft n =>
    (with_rules draft (pd_simpleMode draft) (map (fun r => if rule_id ruleId r then patch r else r) (rules draft)), n)).

Definition removePruneRule (d : Dialog) (operationId ruleId : jsstr) : Dialog :=
  updatePruneObjectsDraft d operationId (fun draft n =>
    (with_rules draft (pd_simpleMode draft) (List.filter (fun r => negb (rule_id ruleId r)) (rules draft)), n)).

(** ** Drag and drop *)

Definition resetDragState (d : Dialog) : Dialog := with_drag d [] [] Before.

Definition handleDragStart (d : Dialog) (operationId : jsstr) : Dialog :=
  with_selected (with_drag d operationId (dragOverOperationId d) (dragOverPosition d)) operationId.

(** [lower] is whether the pointer is in the lower half of the row. *)
Definition handleDragOver (d : Dialog) (operationId : jsstr) (lower : bool) : Dialog :=
  if negb (nonempty (draggedOperationId d)) || bool_decide (draggedOperationId d = operationId) then d
  else with_drag d (draggedOperationId d) operationId (if lower then After else Before).

(** [data] is the text carried by the drag. *)
Definition handleDrop (d : Dialog) (operationId data : jsstr) : Dialog :=
  let sourceId := str_or (draggedOperationId d) data in
  let position := if bool_decide (dragOverOperationId d = operationId) then dragOverPosition d else Before in
  let d' := if nonempty sourceId && nonempty operationId && negb (bool_decide (sourceId = operationId))
            then with_selected (with_ops d (reorderOperations (operations (editor d)) sourceId operationId position)) sourceId
            else d in
  resetDragState d'.

(** ** Modes, templates and saving *)

Definition buildVisualJson (e : EditorState) : res jsstr :=
  match visualMode e with
  | Legacy =>
      let trimmed := trim (legacyValue e) in
      if negb (nonempty trimmed) then Ok []
      else match JSON_parse trimmed with
           | None => Throw (t (js "Parameter override must be valid JSON format") None)
           | Some parsed => if is_object parsed then Ok (pretty parsed)
                            else Throw (t (js "Legacy format must be a JSON object") None)
           end
  | Operations => buildOperationsJson t (operations e) true
  end.

(** The value of a computation that does not throw. *)
Definition result_or {A} (a : A) (r : res A) : A := match r with Ok x => x | Throw _ => a end.

Definition switchToJsonMode (d : Dialog) : Dialog :=
  let e := editor d in
  match editMode e with
  | JsonMode => d
  | Visual =>
      match buildVisualJson e with
      | Ok text => with_editor d (mkEditor JsonMode (visualMode e) (legacyValue e) (operations e) text [])
      | Throw m =>
          let text := match visualMode e with
                      | Legacy => legacyValue e
                      | Operations => result_or [] (buildOperationsJson t (operations e) false)
                      end in
          with_toast (with_editor d (mkEditor JsonMode (visualMode e) (legacyValue e) (operations e) text
                        (str_or m (t (js "Parameter configuration error") None)))) m
      end
  end.

Definition switchToVisualMode (d : Dialog) : Dialog :=
  let e := editor d in
  let fallback := createDefaultOperation nextLocalId (nextId d) in
  match editMode e with
  | Visual => d
  | JsonMode =>
      let trimmed := trim (jsonText e) in
      if negb (nonempty trimmed) then
        with_selected (with_next (with_editor d (mkEditor Visual Operations [] [fallback.1] (jsonText e) [])) fallback.2) (o_id fallback.1)
      else match JSON_parse trimmed with
           | None => with_toast d (t (js "Parameter override must be valid JSON format") None)
           | Some parsed =>
               match operations_member parsed with
               | Some l =>
                   match loadOperations nextLocalId toUpperCase l (nextId d) with
                   | Throw _ => d
                   | Ok ops =>
                       with_preset (with_selected (with_next (with_editor d (mkEditor Visual Operations [] ops.1 (jsonText e) [])) ops.2)
                         (first_id ops.1)) (js "operations_default")
                   end
               | None =>
                   if is_object parsed then
                     with_preset (with_selected (with_next (with_editor d (mkEditor Visual Legacy (pretty parsed) [fallback.1] (jsonText e) []))
                       fallback.2) (o_id fallback.1)) (js "legacy_default")
                   else with_toast d (t (js "Parameter override must be a valid JSON object") None)
               end
           end
  end.

(** The properties that [{ ...value }] copies. *)
Definition spread (v : json) : list (jsstr * json) :=
  match v with
  | JObj m => m
  | JArr l => imap (fun i x => (print_N (N.of_nat i), x)) l
  | JStr s => imap (fun i c => (print_N (N.of_nat i), JStr [c])) s
  | _ => []
  end.

Inductive FillMode := Fill | Append.

Definition load_legacy (d : Dialog) (text : jsstr) : Dialog :=
  let created := createDefaultOperation nextLocalId (nextId d) in
  with_next (with_editor d (mkEditor Visual Legacy text [created.1] text [])) created.2.

Definition fillTemplate (d : Dialog) (mode : FillMode) : Dialog :=
  let e := editor d in
  let preset := default (mkPreset (js "New Format Template") POperations OPERATION_TEMPLATE)
                  (map_get (templatePresetKey d) TEMPLATE_PRESET_CONFIG) in
  match preset_kind preset with
  | PLegacy =>
      match mode, visualMode e with
      | Append, Legacy =>
          let trimmed := trim (legacyValue e) in
          if negb (nonempty trimmed) then load_legacy d (pretty (JObj (obj_of (spread (payload preset)))))
          else match JSON_parse trimmed with
               | None => with_toast d (t (js "Current legacy JSON is invalid, cannot append") None)
               | Some current => load_legacy d (pretty (JObj (obj_of (spread (payload preset) ++ spread current))))
               end
      | _, _ => load_legacy d (pretty (payload preset))
      end
  | POperations =>
      let operationsPayload := default [] (operations_member (payload preset)) in
      match map_ids (normalizeOperation nextLocalId toUpperCase) operationsPayload (nextId d), mode with
      | Throw _, _ => d
      | Ok appended, Append =>
          let existing := match visualMode e with
                          | Operations => List.filter (fun o => negb (isOperationBlank o)) (operations e)
                          | Legacy => []
                          end in
          let nextOps := existing ++ appended.1 in
          with_selected (with_next (with_editor d (mkEditor Visual Operations [] (if nonempty nextOps then nextOps else appended.1) [] []))
            appended.2) (str_or (first_id nextOps) (first_id appended.1))
      | Ok nextOps, Fill =>
          let created := createDefaultOperation nextLocalId nextOps.2 in
          let finalOps := if nonempty nextOps.1 then nextOps else ([created.1], created.2) in
          with_selected (with_next (with_editor d (mkEditor Visual Operations (legacyValue e) finalOps.1
            (pretty (JObj [(js "operations", JArr operationsPayload)])) [])) finalOps.2) (first_id finalOps.1)
      end
  end.

Definition resetEditorState (d : Dialog) : Dialog :=
  let fallback := createDefaultOperation nextLocalId (nextId d) in
  with_preset (with_selected (with_next (with_editor d (mkEditor Visual Operations [] [fallback.1] [] [])) fallback.2)
    (o_id fallback.1)) (js "operations_default").

Definition handleJsonChange (d : Dialog) (nextValue : jsstr) : Dialog :=
  let e := editor d in
  let trimmed := trim nextValue in
  let error := if negb (nonempty trimmed) || verifyJSON trimmed then [] else t (js "JSON format error") None in
  with_editor d (mkEditor (editMode e) (visualMode e) (legacyValue e) (operations e) nextValue error).

Definition formatJson (d : Dialog) : Dialog :=
  let e := editor d in
  let trimmed := trim (jsonText e) in
  if negb (nonempty trimmed) then d
  else match JSON_parse trimmed with
       | None => with_toast d (t (js "Parameter override must be valid JSON format") None)
       | Some v => with_editor d (mkEditor (editMode e) (visualMode e) (legacyValue e) (operations e) (pretty v) [])
       end.

Definition visualValidationError (d : Dialog) : jsstr :=
  match editMode (editor d) with
  | JsonMode => []
  | Visual => match buildVisualJson (editor d) with
              | Ok _ => []
              | Throw m => str_or m (t (js "Parameter configuration error") None)
              end
  end.

(** The text that a save hands over. *)
Definition saveText (e : EditorState) : res jsstr :=
  match editMode e with
  | JsonMode =>
      let trimmed := trim (jsonText e) in
      if negb (nonempty trimmed) then Ok []
      else match JSON_parse trimmed with
           | None => Throw (t (js "Parameter override must be valid JSON format") None)
           | Some v => Ok (pretty v)
           end
  | Visual => buildVisualJson e
  end.

Definition handleSave (d : Dialog) : Dialog :=
  match saveText (editor d) with
  | Ok result => with_saved d result
  | Throw m => with_toast d m
  end.

Definition setAllConditions (d : Dialog) (b : bool) : Dialog :=
  match selectedOperation d with
  | None => d
  | Some o => with_expanded d (foldl (fun m c => map_set (c_id c) b m) (expandedConditions d) (conditions o))
  end.
Definition expandAllConditions (d : Dialog) : Dialog := setAllConditions d true.
Definition collapseAllConditions (d : Dialog) : Dialog := setAllConditions d false.
End handlers.
