(* ===== verification/ParamLaws.v ===== *)
(** * Parameter overrides: order, drafts and validation

    Moving an operation moves it and nothing else; the structured drafts read back
    what they print; the validator reports the first incomplete rule; and the
    editor of prune rules loses the edits made to a rule. *)

From S2P Require Import Prelude JsNum Json NumText Records JsValue IntNum ParamOverride ParamDrafts ParamPresets ParamEditor.
From Stdlib Require Import Floats.SpecFloat.

#[local] Open Scope js_scope.

(** ** Moving an operation *)

Lemma find_index_Some {A} (q : A → bool) l i :
  find_index q l = Some i → ∃ x, l = take i l ++ x :: drop (S i) l ∧ l !! i = Some x ∧ q x = true
    ∧ Forall (fun y => q y = false) (take i l).
Proof.
  unfold find_index. assert (H : ∀ l j k, (fix go i l := match l with [] => None | x :: l' => if q x then Some i else go (S i) l' end) j l = Some k →
     ∃ i, k = (j + i)%nat ∧ ∃ x, l = take i l ++ x :: drop (S i) l ∧ l !! i = Some x ∧ q x = true ∧ Forall (fun y => q y = false) (take i l)).
  { clear. induction l as [|x l IH]; intros j k; [done|]. destruct (q x) eqn:Eq.
    - intros [= <-]. exists 0%nat. split; [lia|]. exists x. done.
    - intros (i & -> & y & Hl & Hi & Hy & Hf)%IH. exists (S i). split; [lia|]. exists y. cbn [take drop app lookup list_lookup].
      split; [by f_equal|]. split; [done|]. split; [done|]. by constructor. }
  intros (i' & -> & Hx)%H. done.
Qed.

Lemma find_index_None {A} (q : A → bool) l : find_index q l = None → Forall (fun y => q y = false) l.
Proof.
  unfold find_index. assert (H : ∀ l j, (fix go i l := match l with [] => None | x :: l' => if q x then Some i else go (S i) l' end) j l = None →
     Forall (fun y => q y = false) l).
  { clear. induction l as [|x l IH]; intros j; [constructor|]. destruct (q x) eqn:Eq; [done|]. intros H%IH. by constructor. }
  apply H.
Qed.

Lemma has_id_true i o : has_id i o = true ↔ o_id o = i.
Proof. apply bool_decide_eq_true. Qed.

(** The operations but the one with an identifier. *)
Definition without (i : jsstr) (ops : list ParamOverrideOperation) : list ParamOverrideOperation :=
  List.filter (fun o => negb (has_id i o)) ops.

Lemma without_split i a x b :
  NoDup (map o_id (a ++ x :: b)) → o_id x = i → without i (a ++ x :: b) = a ++ b.
Proof.
  intros Hn Hx. unfold without. rewrite List.filter_app. cbn [List.filter]. rewrite (proj2 (has_id_true i x) Hx). cbn [negb].
  rewrite map_app in Hn. cbn [map] in Hn. apply NoDup_app in Hn as (_ & Hd & [Hb _]%NoDup_cons).
  f_equal; apply List_filter_all; apply Forall_forall; intros y Hy; apply negb_true_iff, not_true_iff_false; intros E%has_id_true.
  - apply (Hd (o_id y)); [apply list_elem_of_fmap; by exists y|]. rewrite E, <- Hx. set_solver.
  - apply Hb. rewrite Hx, <- E. apply list_elem_of_fmap. by exists y.
Qed.

Lemma insert_beside {A} (next : list A) j g m position :
  next = take j next ++ g :: drop (S j) next →
  let k := match position with Before => j | After => S j end in
  take k next ++ m :: drop k next = take j next ++ (match position with Before => [m; g] | After => [g; m] end) ++ drop (S j) next.
Proof.
  intros Hlj k. assert (Hlen : length (take j next) = j).
  { rewrite length_take. assert (H : length next = length (take j next ++ g :: drop (S j) next)) by by rewrite <- Hlj.
    rewrite length_app, length_take in H. cbn [length] in H. lia. }
  assert (Hd : drop j next = g :: drop (S j) next).
  { rewrite Hlj at 1. rewrite <- Hlen at 1. by rewrite drop_app_length. }
  unfold k. destruct position; cbn [app]; [by rewrite Hd|].
  rewrite <- (take_drop j next) at 1. rewrite Hd. rewrite take_app_ge by lia.
  replace (S j - length (take j next))%nat with 1%nat by lia. rewrite <- app_assoc. done.
Qed.

(** Dropping an operation on another one moves it next to it, on the side asked
    for, and leaves the others in their order; with an unknown or equal identifier
    nothing moves. No operation is lost or repeated. *)
Theorem reorder_moves_one ops sourceId targetId position :
  NoDup (map o_id ops) → sourceId ≠ [] → targetId ≠ [] →
  let ops' := reorderOperations ops sourceId targetId position in
  ops' ≡ₚ ops
  ∧ without sourceId ops' = without sourceId ops
  ∧ (sourceId = targetId ∨ sourceId ∉ map o_id ops ∨ targetId ∉ map o_id ops → ops' = ops)
  ∧ (sourceId ≠ targetId → sourceId ∈ map o_id ops → targetId ∈ map o_id ops →
     ∃ a b moved target, o_id moved = sourceId ∧ o_id target = targetId
       ∧ ops' = a ++ (match position with Before => [moved; target] | After => [target; moved] end) ++ b).
Proof.
  intros Hn Hs Ht ops'. unfold ops', reorderOperations. clear ops'.
  rewrite (proj2 (nonempty_true sourceId) Hs), (proj2 (nonempty_true targetId) Ht). cbn [negb orb].
  destruct (bool_decide (sourceId = targetId)) eqn:E.
  { apply bool_decide_eq_true in E. naive_solver. }
  apply bool_decide_eq_false in E. destruct (find_index (has_id sourceId) ops) as [i|] eqn:Ei.
  2:{ apply find_index_None in Ei. split; [done|]. split; [done|]. split; [done|]. intros _ (o & -> & Ho)%list_elem_of_fmap.
      rewrite Forall_forall in Ei. specialize (Ei o Ho). by rewrite (proj2 (has_id_true _ o) eq_refl) in Ei. }
  apply find_index_Some in Ei as (m & Hl & Hi & Hm%has_id_true & _). rewrite Hi. set (next := take i ops ++ drop (S i) ops).
  assert (Hp : ops ≡ₚ m :: next) by (rewrite Hl at 1; unfold next; by rewrite Permutation_middle).
  assert (Hw : without sourceId ops = next) by (rewrite Hl; apply without_split; [by rewrite <- Hl|done]).
  destruct (find_index (has_id targetId) next) as [j|] eqn:Ej.
  2:{ apply find_index_None in Ej. split; [done|]. split; [done|]. split; [done|]. intros _ _ (o & -> & Ho)%list_elem_of_fmap.
      rewrite Hp in Ho. apply elem_of_cons in Ho as [->|Ho]; [congruence|]. rewrite Forall_forall in Ej. specialize (Ej o Ho).
      by rewrite (proj2 (has_id_true _ o) eq_refl) in Ej. }
  apply find_index_Some in Ej as (g & Hlj & _ & Hg%has_id_true & _).
  set (k := match position with Before => j | After => S j end).
  assert (Hperm : take k next ++ m :: drop k next ≡ₚ ops) by (rewrite <- Permutation_middle, take_drop; by symmetry).
  split; [done|]. split.
  { rewrite Hw. transitivity (take k next ++ drop k next); [|by rewrite take_drop]. apply without_split; [|done].
    assert (Hpm : map o_id (take k next ++ m :: drop k next) ≡ₚ map o_id ops) by by apply Permutation_map. by rewrite Hpm. }
  split.
  { intros [Ho|[Ho|Ho]]; [done| |]; exfalso; apply Ho; apply list_elem_of_fmap; [exists m|exists g]; rewrite Hp; [set_solver|].
    split; [done|]. rewrite Hlj. set_solver. }
  intros _ _ _. exists (take j next), (drop (S j) next), m, g. split; [done|]. split; [done|]. unfold k.
  by apply insert_beside.
Qed.

Definition demo_op (i path value : string) : ParamOverrideOperation :=
  mkOp (js i) [] (js path) (js "set") [] [] (js value) false (js "OR") [].

Lemma reorder_moves_one_witness :
  let ops := [demo_op "a" "x" "1"; demo_op "b" "y" "2"; demo_op "c" "z" "3"] in
  map o_id (reorderOperations ops (js "a") (js "c") After) = map js ["b"; "c"; "a"]%string
  ∧ reorderOperations ops (js "a") (js "c") After ≡ₚ ops.
Proof.
  split; [vm_compute; reflexivity|].
  apply (reorder_moves_one [demo_op "a" "x" "1"; demo_op "b" "y" "2"; demo_op "c" "z" "3"] (js "a") (js "c") After);
    [apply (bool_decide_unpack _); vm_compute; exact I|discriminate|discriminate].
Defined.

(** ** Validation *)

(** What a mode needs. *)
Record complete (op : ParamOverrideOperation) : Prop := mkComplete {
  has_path : m_path (meta_of (str_or (o_mode op) (js "set"))) = true → trim (o_path op) ≠ [];
  has_from : str_or (o_mode op) (js "set") ∈ FROM_REQUIRED_MODES →
    trim (from op) ≠ [] ∨ (m_pathAlias (meta_of (str_or (o_mode op) (js "set"))) = true ∧ trim (o_path op) ≠ []);
  has_to : str_or (o_mode op) (js "set") ∈ TO_REQUIRED_MODES →
    trim (to op) ≠ [] ∨ (m_pathAlias (meta_of (str_or (o_mode op) (js "set"))) = true ∧ trim (o_path op) ≠ []);
  has_value : str_or (o_mode op) (js "set") ∈ VALUE_REQUIRED_MODES → trim (value_text op) ≠ [];
  has_message : ∀ m, str_or (o_mode op) (js "set") = js "return_error" → JSON_parse (trim (value_text op)) = Some (JObj m) →
    trim (text_or_default (map_get (js "message") m) []) ≠ [];
  has_headers : str_or (o_mode op) (js "set") = js "pass_headers" → parsePassHeaderNames (parseLooseValue (value_text op)) ≠ []
}.

Lemma nonempty_false {A} (l : list A) : nonempty l = false ↔ l = [].
Proof. by destruct l. Qed.

Lemma parseLooseValue_trim v : parseLooseValue (trim v) = parseLooseValue v.
Proof. unfold parseLooseValue. by rewrite trim_idem. Qed.

Section validation.
Context (t : jsstr → option nat → jsstr) (Ht : ∀ k l, t k l ≠ []).

Lemma validateOperation_spec op line :
  (validateOperation t op line = [] ∧ complete op)
  ∨ ((∃ key, validateOperation t op line = t key (Some line)) ∧ ~ complete op).
Proof.
  unfold validateOperation. set (mode := str_or (o_mode op) (js "set")). set (meta := meta_of mode).
  rewrite parseLooseValue_trim.
  assert (Halias : m_pathAlias meta && nonempty (trim (o_path op)) = true ↔ m_pathAlias meta = true ∧ trim (o_path op) ≠ [])
    by (rewrite andb_true_iff, nonempty_true; done).
  destruct (m_path meta && negb (nonempty (trim (o_path op)))) eqn:E1.
  { right. split; [eauto|]. intros [H _ _ _ _ _]. apply andb_true_iff in E1 as [E1 E2]. apply negb_true_iff, nonempty_false in E2. by apply H. }
  destruct (set_has mode FROM_REQUIRED_MODES && negb (nonempty (trim (from op))) && negb _) eqn:E2.
  { right. split; [eauto|]. intros [_ H _ _ _ _]. apply andb_true_iff in E2 as [[E2 E3]%andb_true_iff E4].
    apply negb_true_iff in E3, E4. apply nonempty_false in E3. apply set_has_spec in E2. fold mode meta in H.
    destruct (H E2) as [?|Ha]; [done|]. apply Halias in Ha. congruence. }
  destruct (set_has mode TO_REQUIRED_MODES && negb (nonempty (trim (to op))) && negb _) eqn:E3.
  { right. split; [eauto|]. intros [_ _ H _ _ _]. apply andb_true_iff in E3 as [[E3 E4]%andb_true_iff E5].
    apply negb_true_iff in E4, E5. apply nonempty_false in E4. apply set_has_spec in E3. fold mode meta in H.
    destruct (H E3) as [?|Ha]; [done|]. apply Halias in Ha. congruence. }
  destruct (set_has mode VALUE_REQUIRED_MODES && negb (nonempty (trim (value_text op)))) eqn:E4.
  { right. split; [eauto|]. intros [_ _ _ H _ _]. apply andb_true_iff in E4 as [E4 E5]. apply negb_true_iff, nonempty_false in E5.
    apply set_has_spec in E4. by apply H. }
  assert (Hval : ∀ m, mode = js m → set_has (js m) VALUE_REQUIRED_MODES = true → nonempty (trim (value_text op)) = true).
  { intros m Em Hm. rewrite Em, Hm in E4. by apply negb_false_iff in E4. }
  assert (Hraw : ∀ m, set_has (js m) VALUE_REQUIRED_MODES = true → bool_decide (mode = js m) && negb (nonempty (trim (value_text op))) = false).
  { intros m Hm. destruct (bool_decide (mode = js m)) eqn:Eb; [|done]. apply bool_decide_eq_true in Eb. by rewrite (Hval m). }
  rewrite (Hraw "return_error"%string), (Hraw "prune_objects"%string), (Hraw "pass_headers"%string) by reflexivity.
  destruct (bool_decide (mode = js "return_error") && _) eqn:E5.
  { right. split; [eauto|]. intros [_ _ _ _ H _]. apply andb_true_iff in E5 as [Em%bool_decide_eq_true E5].
    destruct (JSON_parse _) as [[| | | | |m]|] eqn:Ej; try done. apply negb_true_iff, nonempty_false in E5. by apply (H m Em eq_refl). }
  destruct (bool_decide (mode = js "pass_headers") && _) eqn:E6.
  { right. split; [eauto|]. intros [_ _ _ _ _ H]. apply andb_true_iff in E6 as [Em%bool_decide_eq_true E6].
    apply negb_true_iff, nonempty_false in E6. by apply H. }
  left. split; [done|]. constructor; fold mode meta.
  - intros Hp. rewrite Hp in E1. by apply negb_false_iff, nonempty_true in E1.
  - intros Hm%set_has_spec. rewrite Hm in E2. destruct (nonempty (trim (from op))) eqn:En; [left; by apply nonempty_true|right].
    apply Halias. by apply negb_false_iff in E2.
  - intros Hm%set_has_spec. rewrite Hm in E3. destruct (nonempty (trim (to op))) eqn:En; [left; by apply nonempty_true|right].
    apply Halias. by apply negb_false_iff in E3.
  - intros Hm%set_has_spec. rewrite Hm in E4. by apply negb_false_iff, nonempty_true in E4.
  - intros m Em Ej. rewrite bool_decide_true, Ej in E5 by done. by apply negb_false_iff, nonempty_true in E5.
  - intros Em. rewrite bool_decide_true in E6 by done. by apply negb_false_iff, nonempty_true in E6.
Qed.

(** The validator reports the first incomplete operation, with its line. *)
Lemma validateFrom_spec ops line :
  (validateFrom t line ops = [] ∧ Forall complete ops)
  ∨ ∃ a op b key, ops = a ++ op :: b ∧ Forall complete a ∧ ~ complete op
      ∧ validateFrom t line ops = t key (Some (line + length a)%nat).
Proof.
  revert line. induction ops as [|op ops IH]; intros line; [left; split; [done|constructor]|]. cbn [validateFrom].
  destruct (validateOperation_spec op line) as [[-> Hc]|[[key ->] Hc]].
  - cbn [nonempty]. destruct (IH (S line)) as [[-> Hf]|(a & op' & b & key & -> & Ha & Hn & ->)]; [left; split; [done|by constructor]|].
    right. exists (op :: a), op', b, key. split; [done|]. split; [by constructor|]. split; [done|]. cbn [length]. do 2 f_equal. lia.
  - right. exists [], op, ops, key. split; [done|]. split; [constructor|]. split; [done|].
    rewrite (proj2 (nonempty_true _) (Ht key (Some line))). cbn [length]. by rewrite Nat.add_0_r.
Qed.
End validation.

Definition nonblank_ops (ops : list ParamOverrideOperation) : list ParamOverrideOperation :=
  List.filter (fun o => negb (isOperationBlank o)) ops.

(** Saving from the visual editor hands over the JSON of the operations that are
    not blank when all of them are complete; otherwise it saves nothing and shows
    the message of the first incomplete one with its line among them. *)
Theorem save_reports_first_incomplete t d :
  (∀ k l, t k l ≠ []) → editMode (editor d) = Visual → visualMode (editor d) = Operations →
  let ops := nonblank_ops (operations (editor d)) in
  (Forall complete ops ∧
     handleSave t d = with_saved d (if nonempty ops then pretty (JObj [(js "operations", JArr (map buildOperationPayload ops))]) else []))
  ∨ ∃ a op b key, ops = a ++ op :: b ∧ Forall complete a ∧ ~ complete op
      ∧ handleSave t d = with_toast d (t key (Some (S (length a)))).
Proof.
  intros Ht He Hv ops. unfold handleSave, saveText, buildVisualJson, buildOperationsJson. rewrite He, Hv. fold (nonblank_ops (operations (editor d))).
  fold ops. destruct (nonempty ops) eqn:En; cbn [negb].
  - unfold validateOperations. destruct (validateFrom_spec t Ht ops 1) as [[-> Hc]|(a & op & b & key & E & Ha & Hn & ->)]; cbn [nonempty].
    + by left.
    + right. exists a, op, b, key. rewrite (proj2 (nonempty_true _) (Ht key _)). done.
  - left. apply nonempty_false in En. rewrite En. split; [constructor|done].
Qed.

(** A translation that names the line after the message. *)
Definition demo_t (k : jsstr) (l : option nat) : jsstr := js "! " ++ k ++ match l with Some n => 35%N :: print_N (N.of_nat n) | None => [] end.

Definition demo_dialog (ops : list ParamOverrideOperation) : Dialog :=
  mkDialog (mkEditor Visual Operations [] ops [] []) [] [] [] [] [] Before (js "operations_default") [] [] 0.

Lemma save_reports_first_incomplete_witness :
  let d := demo_dialog [demo_op "a" EmptyString EmptyString; demo_op "b" "x" "1"; demo_op "c" EmptyString "2"] in
  toasts (handleSave demo_t d) = [js "! Rule {{line}} is missing target path#2"]
  ∧ let ops := nonblank_ops (operations (editor d)) in
  (Forall complete ops ∧
     handleSave demo_t d = with_saved d (if nonempty ops then pretty (JObj [(js "operations", JArr (map buildOperationPayload ops))]) else []))
  ∨ ∃ a op b key, ops = a ++ op :: b ∧ Forall complete a ∧ ~ complete op
      ∧ handleSave demo_t d = with_toast d (demo_t key (Some (S (length a)))).
Proof.
  split; [vm_compute; reflexivity|].
  apply (save_reports_first_incomplete demo_t (demo_dialog [demo_op "a" EmptyString EmptyString; demo_op "b" "x" "1"; demo_op "c" EmptyString "2"]));
    [intros k l; discriminate|reflexivity|reflexivity].
Defined.

(** ** Sync targets *)

Lemma cut_at_app c s r : c ∉ s → cut_at c (s ++ c :: r) = Some (s, r).
Proof.
  induction s as [|d s IH]; intros Hc; cbn [cut_at app]; [by rewrite N.eqb_refl|].
  destruct (N.eqb_spec d c); [set_solver|]. rewrite IH by set_solver. done.
Qed.

Lemma trim_last s c : last (trim s) = Some c → is_ws c = false.
Proof.
  unfold trim. rewrite last_reverse. destruct (drop_ws (reverse (drop_ws s))) as [|d l] eqn:E; [done|]. intros [= ->].
  pose proof (drop_ws_idem (reverse (drop_ws s))) as H. rewrite E in H. by apply drop_ws_fixed in H.
Qed.

Lemma trim_keeps_end c a s : is_ws c = false → trim s ≠ [] → trim (c :: a ++ trim s) = c :: a ++ trim s.
Proof.
  intros Hc Hs. destruct (last (trim s)) as [d|] eqn:El; [|by apply last_None in El].
  apply (trim_ends _ c d); [done| |done|by apply (trim_last s)].
  change (c :: a ++ trim s) with ((c :: a) ++ trim s). rewrite last_app, El. done.
Qed.

(** A sync target reads back: the type and the trimmed key of a target that is
    not blank are recovered from its text, and a blank one from the empty text. *)
Theorem sync_target_roundtrip toLowerCase type key :
  toLowerCase (js "header") = js "header" → toLowerCase (js "json") = js "json" → type = js "header" ∨ type = js "json" →
  parseSyncTargetSpec toLowerCase (buildSyncTargetSpec type key)
  = if nonempty (trim key) then (type, trim key) else (js "json", []).
Proof.
  intros Hh Hj Ht. unfold buildSyncTargetSpec. destruct (nonempty (trim key)) eqn:En; cbn [negb]; [|done].
  apply nonempty_true in En. unfold parseSyncTargetSpec.
  assert (H : ∀ ty, no_ws ty → 58%N ∉ ty → ty ≠ [] → trim (ty ++ 58%N :: trim key) = ty ++ 58%N :: trim key).
  { intros [|c ty] Hw _ Hn; [done|]. apply Forall_cons in Hw as [Hw _].
    change ((c :: ty) ++ 58%N :: trim key) with (c :: ty ++ [58%N] ++ trim key). rewrite app_assoc. by apply trim_keeps_end. }
  destruct Ht as [-> | ->]; [rewrite bool_decide_true by done|rewrite bool_decide_false by done].
  - rewrite H by (try done; apply (bool_decide_unpack _); vm_compute; exact I). cbn [nonempty negb app js].
    rewrite cut_at_app by (apply (bool_decide_unpack _); vm_compute; exact I).
    change (trim (js "header")) with (js "header"). by rewrite Hh, bool_decide_true, trim_idem.
  - rewrite H by (try done; apply (bool_decide_unpack _); vm_compute; exact I). cbn [nonempty negb app js].
    rewrite cut_at_app by (apply (bool_decide_unpack _); vm_compute; exact I).
    change (trim (js "json")) with (js "json"). by rewrite Hj, bool_decide_false, trim_idem.
Qed.

Lemma sync_target_roundtrip_witness :
  parseSyncTargetSpec (fun s => s) (buildSyncTargetSpec (js "header") (js " X-Id ")) = (js "header", js "X-Id").
Proof. apply (sync_target_roundtrip (fun s => s) (js "header") (js " X-Id ")); [reflexivity|reflexivity|left; reflexivity]. Defined.

(** * Parameter overrides: structured drafts

    A return_error draft is read back from the text it prints. The drafts of
    prune_objects are not: the editor draws new identifiers for the rules each time
    it parses them, so an edit addressed to a rule on the screen reaches none, a new
    rule is dropped before it can be filled in, and the advanced mode is left as
    soon as it is entered when a type is given. *)

(** ** return_error *)

Lemma status_printable z : (100 <= z <= 599)%Z → num_back json_number (num_of_Z z) = true ∧ valid_status (num_of_Z z) = true.
Proof.
  intros Hz. assert (H : forallb (fun i => num_back json_number (num_of_Z (100 + Z.of_nat i)) && valid_status (num_of_Z (100 + Z.of_nat i))) (seq 0 500) = true)
    by (vm_compute; reflexivity).
  rewrite forallb_forall in H. specialize (H (Z.to_nat (z - 100))).
  rewrite andb_true_iff in H. replace (100 + Z.of_nat (Z.to_nat (z - 100)))%Z with z in H by lia.
  apply H, in_seq. lia.
Qed.

Lemma text_or_default_str s : text_or_default (Some (JStr s)) [] = s.
Proof. by destruct s. Qed.

Lemma text_or_default_opt s : text_or_default (opt_prop (nonempty s) (JStr s)) [] = s.
Proof. by destruct s. Qed.

Definition trimmed (s : jsstr) : Prop := trim s = s.

(** A detailed return_error draft (a message, a status from 100 to 599, a code,
    a type and the retry choice) is read back, field for field, from the text the
    editor stores for it. *)
Theorem return_error_roundtrip message z code type skipRetry :
  trimmed message → trimmed code → trimmed type → (100 <= z <= 599)%Z →
  let d := mkReturnError message (num_of_Z z) code type skipRetry false in
  parseReturnErrorDraft (buildReturnErrorValueText d) = d.
Proof.
  intros Hm Hc Ht Hz d. destruct (status_printable z Hz) as [Hb Hv]. unfold d, buildReturnErrorValueText.
  cbn [re_simpleMode re_message re_statusCode re_code re_type re_skipRetry]. rewrite Hm, Hc, Ht. unfold status_or_400 at 1. rewrite Hv.
  set (tbl := [(js "message", _); _; _; _; _]).
  assert (Hd : NoDup tbl.*1) by literal_keys.
  unfold parseReturnErrorDraft, JSON_stringify. rewrite trim_printed.
  replace (nonempty (stringify compact json_number 0 (JObj (present tbl)))) with true
    by (cbn [stringify]; unfold print_seq; by destruct (map _ _)).
  cbn [negb]. rewrite (parse_record compact tbl); [|done|done| |].
  - rewrite !map_get_present by done. cbn [tbl map_get mjoin option_join]. repeat first [rewrite decide_True by done | rewrite decide_False by done].
    cbn [mjoin option_join]. rewrite text_or_default_opt, text_or_default_opt, Hc, Ht. cbn [Number_value]. unfold status_or_400. rewrite Hv.
    f_equal; [|by destruct skipRetry]. destruct message; [done|]. exact Hm.
  - each_field.
  - each_field; exact Hb.
Qed.

Lemma return_error_roundtrip_witness :
  let d := mkReturnError (js "quota exceeded") (num_of_Z 429) (js "quota") [] false false in
  parseReturnErrorDraft (buildReturnErrorValueText d) = d.
Proof. apply (return_error_roundtrip (js "quota exceeded") 429 (js "quota") [] false); [reflexivity..|lia]. Defined.

(** ** prune_objects *)

Section prune.
Context (nextLocalId : nat → jsstr) (toUpperCase : jsstr → jsstr).
Context (Hfresh : ∀ a b, nextLocalId a = nextLocalId b → a = b).

(** Rules whose identifiers were drawn from [n] on. *)
Definition drawn_from (n : nat) (rs : list PruneRule) : Prop := Forall (fun r => ∃ k, (n <= k)%nat ∧ pr_id r = nextLocalId k) rs.

Lemma pushRules_drawn n l acc :
  drawn_from n acc.1 → (n <= acc.2)%nat →
  drawn_from n (pushPruneRules nextLocalId l acc).1 ∧ (n <= (pushPruneRules nextLocalId l acc).2)%nat.
Proof.
  revert acc. induction l as [|x l IH]; intros acc Ha Hn; [done|]. unfold pushPruneRules. cbn [foldl]. apply IH; cbn [fst snd].
  - apply Forall_app. split; [done|]. repeat constructor. by exists acc.2.
  - cbn. lia.
Qed.

Lemma parsed_rules_drawn v n :
  drawn_from n (rules (parsePruneObjectsDraft nextLocalId toUpperCase v n).1)
  ∧ (n <= (parsePruneObjectsDraft nextLocalId toUpperCase v n).2)%nat.
Proof.
  unfold parsePruneObjectsDraft. destruct (negb _); [split; [constructor|done]|].
  destruct (JSON_parse (trim v)) as [[| | | | |m]|]; try (split; [constructor|cbn; lia]). cbn [fst snd rules]. unfold draft_rules.
  set (acc := match map_get (js "where") m with Some (JObj w) => _ | _ => _ end).
  assert (Ha : drawn_from n acc.1 ∧ (n <= acc.2)%nat).
  { unfold acc. destruct (map_get (js "where") m) as [[| | | | |w]|]; try (split; [constructor|cbn; lia]).
    apply pushRules_drawn; [constructor|done]. }
  destruct Ha as [Ha Hn]. destruct (map_get (js "conditions") m) as [[| | | |l|c]|]; try done; by apply pushRules_drawn.
Qed.

Lemma old_rule_absent n k rs : drawn_from n rs → (k < n)%nat → Forall (fun r => rule_id (nextLocalId k) r = false) rs.
Proof.
  intros Hd Hk. eapply Forall_impl; [exact Hd|]. intros r (j & Hj & Er). apply bool_decide_eq_false. rewrite Er.
  intros E%Hfresh. lia.
Qed.

Lemma updatePruneOps_ext i f g ops n :
  (∀ v n', (n <= n')%nat → let d := parsePruneObjectsDraft nextLocalId toUpperCase v n' in f d.1 d.2 = g d.1 d.2) →
  (∀ d n', (n' <= (g d n').2)%nat) →
  updatePruneOps nextLocalId toUpperCase i f ops n = updatePruneOps nextLocalId toUpperCase i g ops n.
Proof.
  revert n. induction ops as [|o ops IH]; intros n Hfg Hg; [done|]. cbn [updatePruneOps].
  destruct (has_id i o); [|by rewrite IH]. rewrite Hfg by lia. rewrite IH; [done| |done].
  intros v n' Hn'. apply Hfg. etransitivity; [apply (parsed_rules_drawn (value_text o))|]. etransitivity; [apply Hg|exact Hn'].
Qed.

(** An update that leaves a draft with fresh rules alone. *)
Lemma unchanged_draft d i f :
  (∀ draft n', (nextId d <= n')%nat → drawn_from (nextId d) (rules draft) → f draft n' = (draft, n')) →
  updatePruneObjectsDraft nextLocalId toUpperCase d i f = updatePruneObjectsDraft nextLocalId toUpperCase d i (fun draft n => (draft, n)).
Proof.
  intros Hf. unfold updatePruneObjectsDraft. rewrite (updatePruneOps_ext i f (fun draft n => (draft, n))); [done| |done].
  intros v n' Hn'. cbn zeta. pose proof (parsed_rules_drawn v n') as [Hd Hm].
  destruct (parsePruneObjectsDraft nextLocalId toUpperCase v n') as [draft m]. cbn [fst snd] in *. apply Hf; [lia|].
  eapply Forall_impl; [exact Hd|]. intros r (k & Hk & E). exists k. split; [lia|done].
Qed.

(** A rule identifier the page shows was drawn before the handler runs, so no rule
    of the freshly parsed draft has it: changing or removing a rule only parses and
    prints the draft again. *)
Theorem prune_rule_edits_lost d operationId k patch :
  (k < nextId d)%nat →
  let reprint := updatePruneObjectsDraft nextLocalId toUpperCase d operationId (fun draft n => (draft, n)) in
  updatePruneRule nextLocalId toUpperCase d operationId (nextLocalId k) patch = reprint
  ∧ removePruneRule nextLocalId toUpperCase d operationId (nextLocalId k) = reprint.
Proof.
  intros Hk reprint. split; apply unchanged_draft; intros [s ty lg rc rs] n' Hn' Hd; cbn [rules] in Hd;
    apply (old_rule_absent _ k) in Hd; [|lia| |lia]; unfold with_rules; cbn [typeText pd_logic recursive rules pd_simpleMode]; do 2 f_equal.
  - apply map_id_Forall. eapply Forall_impl; [exact Hd|]. intros r Hr. cbn. by rewrite Hr.
  - apply List_filter_all. eapply Forall_impl; [exact Hd|]. intros r Hr. cbn. by rewrite Hr.
Qed.

(** A new rule has no path yet, and rules without a path are not stored. *)
Theorem added_prune_rule_dropped draft n :
  let r := normalizePruneRule nextLocalId (JObj []) n in
  buildPruneObjectsValueText toUpperCase (with_rules draft false (rules draft ++ [r.1]))
  = buildPruneObjectsValueText toUpperCase (with_rules draft false (rules draft)).
Proof.
  intros r. unfold buildPruneObjectsValueText. cbn [with_rules pd_simpleMode rules typeText pd_logic recursive].
  rewrite List.filter_app. change (List.filter _ [r.1]) with (@nil PruneRule). by rewrite app_nil_r.
Qed.

(** Entering the advanced mode with a type and the default choices stores an object
    that is read back as the simple mode. *)
Theorem prune_advanced_reverts type n :
  trimmed type → type ≠ [] → toUpperCase (js "AND") ≠ js "OR" →
  pd_simpleMode (parsePruneObjectsDraft nextLocalId toUpperCase
    (buildPruneObjectsValueText toUpperCase (mkPrune false type (js "AND") true [])) n).1 = true.
Proof.
  intros Ht Hn Hu. unfold buildPruneObjectsValueText. cbn [pd_simpleMode typeText rules List.filter map pd_logic recursive].
  rewrite Ht, (proj2 (nonempty_true type) Hn). cbn [negb andb nonempty opt_prop]. change (str_or (js "AND") (js "AND")) with (js "AND").
  rewrite bool_decide_false by done. cbn [opt_prop]. set (tbl := [_; _; _; _]). unfold parsePruneObjectsDraft, JSON_stringify. rewrite trim_printed.
  rewrite (parse_record compact tbl); [|literal_keys|done|each_field|each_field].
  by replace (nonempty (stringify compact json_number 0 (JObj (present tbl)))) with true by done.
Qed.
End prune.
