(* ===== verification/ParamSave.v ===== *)
(** * Parameter overrides: saving and reopening

    What the editor saves, it reopens as operations that save to the same text, and
    so do the switches between the visual and the JSON view, for operations whose
    value texts are stable: a text that stands for a JSON string which itself looks
    like JSON, or has outer spaces, is not, and changes its type when it is saved
    again. *)

From S2P Require Import Prelude JsNum IntNum Json NumText Records JsValue ParamOverride ParamDrafts ParamPresets ParamEditor ParamLaws.
From Stdlib Require Import Floats.SpecFloat.

#[local] Open Scope js_scope.

Lemma parseLooseValue_ok v : js_ok (parseLooseValue v).
Proof.
  unfold parseLooseValue. destruct (negb _); [done|]. destruct (JSON_parse (trim v)) eqn:E; [by eapply JSON_parse_ok|done].
Qed.

(** ** Stable texts and normal operations *)

(** A value text that stands for the same value after it is stored and reopened. *)
Record stable (v : jsstr) : Prop := mkStable {
  stable_value : parseLooseValue (toValueText (Some (parseLooseValue v))) = parseLooseValue v;
  stable_nums : nums_ok json_number (parseLooseValue v) = true;
  stable_given : trim v ≠ [] → trim (toValueText (Some (parseLooseValue v))) ≠ []
}.

Definition normal_condition (c : ParamOverrideCondition) : Prop := c_mode c ∈ CONDITION_MODE_VALUES ∧ stable (c_value_text c).

Record normal_op (o : ParamOverrideOperation) : Prop := mkNormal {
  normal_mode : o_mode o ∈ OPERATION_MODE_VALUES;
  normal_value : stable (value_text o);
  normal_conditions : Forall normal_condition (conditions o)
}.

Lemma mode_nonempty m : m ∈ OPERATION_MODE_VALUES → nonempty m = true.
Proof.
  intros Hm. assert (H : forallb nonempty OPERATION_MODE_VALUES = true) by (vm_compute; reflexivity).
  rewrite forallb_forall in H. apply H. by apply list_elem_of_In.
Qed.

Lemma cond_mode_nonempty m : m ∈ CONDITION_MODE_VALUES → nonempty m = true.
Proof.
  intros Hm. assert (H : forallb nonempty CONDITION_MODE_VALUES = true) by (vm_compute; reflexivity).
  rewrite forallb_forall in H. apply H. by apply list_elem_of_In.
Qed.

(** What the table of modes guarantees. *)
Record meta_fits (mode : jsstr) (m : ModeMeta) : Prop := mkFits {
  alias_shape : m_pathAlias m = true → m_from m = true ∧ m_to m = true ∧ m_path m = false ∧ m_pathOptional m = false;
  from_shape : mode ∈ FROM_REQUIRED_MODES → m_from m = true;
  to_shape : mode ∈ TO_REQUIRED_MODES → m_to m = true;
  value_shape : mode ∈ VALUE_REQUIRED_MODES → m_value m = true;
  set_shape : mode = js "set" → m_path m = true;
  return_shape : mode = js "return_error" → m_value m = true;
  pass_shape : mode = js "pass_headers" → m_value m = true
}.

Definition meta_fitsb (mode : jsstr) : bool :=
  let m := meta_of mode in
  implb (m_pathAlias m) (m_from m && m_to m && negb (m_path m) && negb (m_pathOptional m))
  && implb (set_has mode FROM_REQUIRED_MODES) (m_from m) && implb (set_has mode TO_REQUIRED_MODES) (m_to m)
  && implb (set_has mode VALUE_REQUIRED_MODES) (m_value m) && implb (bool_decide (mode = js "set")) (m_path m)
  && implb (bool_decide (mode = js "return_error") || bool_decide (mode = js "pass_headers")) (m_value m).

Lemma modes_fit mode : mode ∈ OPERATION_MODE_VALUES → meta_fits mode (meta_of mode).
Proof.
  intros Hm. assert (H : forallb meta_fitsb OPERATION_MODE_VALUES = true) by (vm_compute; reflexivity).
  rewrite forallb_forall in H. specialize (H mode (proj1 (list_elem_of_In _ _) Hm)). unfold meta_fitsb in H.
  rewrite !andb_true_iff, !implb_true_iff, !andb_true_iff, !negb_true_iff, orb_true_iff, !bool_decide_eq_true, !set_has_spec in H.
  constructor; tauto.
Qed.

(** ** An operation reopened *)

Section reopen.
Context (nextLocalId : nat → jsstr) (toUpperCase : jsstr → jsstr).
Context (Hand : toUpperCase (js "AND") = js "AND") (Hor : toUpperCase (js "OR") = js "OR").

Definition cond_table (c : ParamOverrideCondition) : list (jsstr * option json) :=
  [(js "path", Some (JStr (trim (c_path c)))); (js "mode", Some (JStr (str_or (c_mode c) (js "full"))));
   (js "value", Some (parseLooseValue (c_value_text c))); (js "invert", opt_prop (c_invert c) (JBool true));
   (js "pass_missing_key", opt_prop (c_pass_missing_key c) (JBool true))].

Definition reopened_cond (c : ParamOverrideCondition) (n : nat) : ParamOverrideCondition :=
  mkCond (nextLocalId n) (trim (c_path c)) (c_mode c) (toValueText (Some (parseLooseValue (c_value_text c)))) (c_invert c) (c_pass_missing_key c).

Lemma field_present tbl k : NoDup tbl.*1 → field (JObj (present tbl)) k = Ok (mjoin (map_get (js k) tbl)).
Proof. intros H. cbn [field]. by rewrite map_get_present. Qed.

Lemma is_true_opt b : is_true (opt_prop b (JBool true)) = b.
Proof. by destruct b. Qed.

Lemma member_or_elem s values fb : s ∈ values → member_or values (Some (JStr s)) fb = s.
Proof. intros H. cbn [member_or]. by rewrite (proj2 (set_has_spec s values) H). Qed.

Lemma str_or_given s fb : nonempty s = true → str_or s fb = s.
Proof. unfold str_or. by intros ->. Qed.

(** The conditions with a path, which are the ones stored. *)
Definition stored_conds (cs : list ParamOverrideCondition) : list ParamOverrideCondition :=
  List.filter (fun c => nonempty (trim (c_path c))) cs.

Lemma cond_payloads cs : omap buildConditionPayload cs = map (fun c => JObj (present (cond_table c))) (stored_conds cs).
Proof.
  induction cs as [|c cs IH]; [done|]. cbn [omap list_omap stored_conds List.filter]. unfold buildConditionPayload at 1.
  destruct (nonempty (trim (c_path c))); cbn [negb map]; [|exact IH]. f_equal. exact IH.
Qed.

Lemma reopen_cond c n :
  c_mode c ∈ CONDITION_MODE_VALUES →
  normalizeCondition nextLocalId (JObj (present (cond_table c))) n = Ok (reopened_cond c n, S n).
Proof.
  intros Hm. unfold normalizeCondition. assert (Hd : NoDup (cond_table c).*1) by literal_keys. rewrite !field_present by done.
  cbn [res_bind]. unfold cond_table. cbn [map_get]. repeat first [rewrite decide_True by done | rewrite decide_False by done].
  cbn [mjoin option_join string_or_empty]. rewrite (str_or_given _ _ (cond_mode_nonempty _ Hm)), member_or_elem, !is_true_opt by done. done.
Qed.

Fixpoint reopened_conds (cs : list ParamOverrideCondition) (n : nat) : list ParamOverrideCondition :=
  match cs with [] => [] | c :: cs' => reopened_cond c n :: reopened_conds cs' (S n) end.

Lemma reopen_conds cs n :
  Forall (fun c => c_mode c ∈ CONDITION_MODE_VALUES) cs →
  map_ids (normalizeCondition nextLocalId) (map (fun c => JObj (present (cond_table c))) cs) n
  = Ok (reopened_conds cs n, (n + length cs)%nat).
Proof.
  intros H. revert n. induction H as [|c cs Hc Hcs IH]; intros n; cbn [map map_ids reopened_conds length]; [by rewrite Nat.add_0_r|].
  rewrite reopen_cond by done. cbn [res_bind fst snd]. rewrite IH. cbn [res_bind fst snd]. do 2 f_equal. lia.
Qed.

Lemma reopened_payloads cs n :
  Forall normal_condition cs →
  omap buildConditionPayload (reopened_conds (stored_conds cs) n) = omap buildConditionPayload cs.
Proof.
  intros H. rewrite (cond_payloads cs). revert n. unfold stored_conds.
  induction H as [|c cs [Hm Hs] Hcs IH]; intros n; [done|]. cbn [List.filter]. destruct (nonempty (trim (c_path c))) eqn:E; [|apply IH].
  cbn [reopened_conds omap list_omap map]. unfold buildConditionPayload at 1, reopened_cond.
  cbn [c_path c_mode c_value_text c_invert c_pass_missing_key]. rewrite trim_idem, E. cbn [negb].
  rewrite (stable_value _ Hs). unfold cond_table at 1. f_equal. apply IH.
Qed.

(** [x], or the path when [x] is missing and the mode accepts the path instead. *)
Definition aliased (o : ParamOverrideOperation) (x : jsstr) : jsstr :=
  if m_pathAlias (meta_of (o_mode o)) && negb (nonempty x) && nonempty (trim (o_path o)) then trim (o_path o) else x.

Definition op_table (o : ParamOverrideOperation) : list (jsstr * option json) :=
  let meta := meta_of (o_mode o) in
  let conds := omap buildConditionPayload (conditions o) in
  [(js "mode", Some (JStr (o_mode o))); (js "description", opt_prop (nonempty (trim (description o))) (JStr (trim (description o))));
   (js "path", opt_prop (m_path meta || m_pathOptional meta && nonempty (trim (o_path o))) (JStr (trim (o_path o))));
   (js "value", opt_prop (m_value meta) (parseLooseValue (value_text o)));
   (js "keep_origin", opt_prop (m_keepOrigin meta && keep_origin o) (JBool true));
   (js "from", opt_prop (m_from meta) (JStr (aliased o (trim (from o)))));
   (js "to", opt_prop (m_to meta || nonempty (trim (to o))) (JStr (aliased o (trim (to o)))));
   (js "conditions", opt_prop (nonempty conds) (JArr conds));
   (js "logic", opt_prop (nonempty conds) (JStr (if bool_decide (logic o = js "AND") then js "AND" else js "OR")))].

Lemma payload_table o : o_mode o ∈ OPERATION_MODE_VALUES → buildOperationPayload o = JObj (present (op_table o)).
Proof. intros Hm%mode_nonempty. unfold buildOperationPayload. by rewrite (str_or_given _ _ Hm). Qed.

(** The fields an operation has after it was stored and read. *)
Definition reopened_op (o : ParamOverrideOperation) (n : nat) : ParamOverrideOperation :=
  let meta := meta_of (o_mode o) in
  let stored (b : bool) (x : jsstr) := if b then x else [] in
  let conds := omap buildConditionPayload (conditions o) in
  mkOp (nextLocalId n) (trim (description o))
    (stored (m_path meta || m_pathOptional meta && nonempty (trim (o_path o))) (trim (o_path o))) (o_mode o)
    (stored (m_from meta) (aliased o (trim (from o)))) (stored (m_to meta || nonempty (trim (to o))) (aliased o (trim (to o))))
    (toValueText (opt_prop (m_value meta) (parseLooseValue (value_text o)))) (m_keepOrigin meta && keep_origin o)
    (if nonempty conds && bool_decide (logic o = js "AND") then js "AND" else js "OR")
    (reopened_conds (stored_conds (conditions o)) (S n)).

Lemma string_opt b s : string_or_empty (opt_prop b (JStr s)) = if b then s else [].
Proof. by destruct b. Qed.

Lemma string_opt_nonempty (s : jsstr) : (if nonempty s then s else []) = s.
Proof. by destruct s. Qed.

Lemma reopen_op o n :
  normal_op o →
  normalizeOperation nextLocalId toUpperCase (buildOperationPayload o) n
  = Ok (reopened_op o n, (S n + length (stored_conds (conditions o)))%nat).
Proof.
  intros [Hm _ Hc]. rewrite payload_table by done. unfold normalizeOperation. assert (Hd : NoDup (op_table o).*1) by literal_keys.
  rewrite !field_present by done. cbn [res_bind]. unfold op_table. cbn [map_get].
  repeat first [rewrite decide_True by done | rewrite decide_False by done]. cbn [mjoin option_join].
  rewrite member_or_elem, !string_opt, is_true_opt, string_opt_nonempty by done. unfold reopened_op. rewrite (cond_payloads (conditions o)).
  assert (Hcm : Forall (fun c => c_mode c ∈ CONDITION_MODE_VALUES) (stored_conds (conditions o))).
  { apply Forall_forall. intros c [Hin _]%elem_of_List_filter. rewrite Forall_forall in Hc. by apply Hc. }
  destruct (stored_conds (conditions o)) as [|c cs] eqn:Es.
  - cbn [map nonempty opt_prop res_bind fst snd reopened_conds length andb text_or_default]. rewrite Hor, bool_decide_false by done.
    by rewrite Nat.add_0_r.
  - cbn [map nonempty opt_prop andb]. change (JObj (present (cond_table c)) :: map (fun c => JObj (present (cond_table c))) cs)
      with (map (fun c => JObj (present (cond_table c))) (c :: cs)). rewrite reopen_conds by done. cbn [res_bind fst snd].
    do 3 f_equal. destruct (bool_decide (logic o = js "AND")); cbn [text_or_default truthy nonempty to_text].
    + change (toUpperCase (if nonempty (js "AND") then js "AND" else js "OR")) with (toUpperCase (js "AND")). by rewrite Hand, bool_decide_true.
    + change (toUpperCase (if nonempty (js "OR") then js "OR" else js "OR")) with (toUpperCase (js "OR")). by rewrite Hor, bool_decide_false.
Qed.

Lemma aliased_trimmed o x : trim x = x → trim (aliased o x) = aliased o x.
Proof. intros Hx. unfold aliased. destruct (_ && _); [apply trim_idem|done]. Qed.

(** After reopening no alias is left to apply: the mode stores no path. *)
Lemma aliased_reopened o n x : o_mode o ∈ OPERATION_MODE_VALUES → aliased (reopened_op o n) x = x.
Proof.
  intros Hm. unfold aliased. cbn [reopened_op o_mode o_path]. destruct (m_pathAlias (meta_of (o_mode o))) eqn:Ea; [|done].
  destruct (alias_shape _ _ (modes_fit _ Hm) Ea) as (_ & _ & -> & ->). cbn [orb andb nonempty]. by rewrite andb_false_r.
Qed.

Lemma trim_stored (b : bool) s : trim s = s → trim (if b then s else []) = if b then s else [].
Proof. by destruct b. Qed.

Lemma reopened_payload o n : normal_op o → buildOperationPayload (reopened_op o n) = buildOperationPayload o.
Proof.
  intros [Hm Hv Hc]. rewrite (payload_table o) by done. rewrite payload_table by done. do 2 f_equal. unfold op_table.
  rewrite !aliased_reopened by done.
  cbn [reopened_op o_mode description o_path value_text keep_origin from to conditions logic].
  set (meta := meta_of (o_mode o)). rewrite reopened_payloads by done. rewrite !trim_stored, trim_idem by auto using trim_idem, aliased_trimmed.
  assert (Hp : ∀ a b : bool, opt_prop (a || b && nonempty (if a || b && nonempty (trim (o_path o)) then trim (o_path o) else []))
       (JStr (if a || b && nonempty (trim (o_path o)) then trim (o_path o) else [])) = opt_prop (a || b && nonempty (trim (o_path o))) (JStr (trim (o_path o)))).
  { intros [] b; [done|]. cbn [orb]. destruct b; [|done]. cbn [andb]. destruct (nonempty (trim (o_path o))) eqn:E; [by rewrite E|done]. }
  rewrite Hp. clear Hp.
  assert (Hto : opt_prop (m_to meta || nonempty (if m_to meta || nonempty (trim (to o)) then aliased o (trim (to o)) else []))
       (JStr (if m_to meta || nonempty (trim (to o)) then aliased o (trim (to o)) else []))
       = opt_prop (m_to meta || nonempty (trim (to o))) (JStr (aliased o (trim (to o))))).
  { destruct (m_to meta) eqn:Et; [done|]. cbn [orb]. destruct (nonempty (trim (to o))) eqn:E; [|done].
    unfold aliased. rewrite E, andb_false_r. cbn [andb]. by rewrite E. }
  rewrite Hto. clear Hto.
  assert (Hval : opt_prop (m_value meta) (parseLooseValue (toValueText (opt_prop (m_value meta) (parseLooseValue (value_text o)))))
       = opt_prop (m_value meta) (parseLooseValue (value_text o))).
  { destruct (m_value meta); [|done]. cbn [opt_prop]. by rewrite (stable_value _ Hv). }
  rewrite Hval. clear Hval. f_equal. f_equal. f_equal. f_equal. f_equal; [by destruct (m_keepOrigin meta)|]. f_equal; [by destruct (m_from meta)|].
  do 3 f_equal. f_equal. destruct (nonempty (omap buildConditionPayload (conditions o))); [|done]. by destruct (bool_decide (logic o = js "AND")).
Qed.

Lemma loose_object x m : trim x ≠ [] → JSON_parse (trim x) = Some (JObj m) ↔ parseLooseValue x = JObj m.
Proof.
  intros Hx. unfold parseLooseValue. rewrite (proj2 (nonempty_true _) Hx). cbn [negb]. destruct (JSON_parse (trim x)); naive_solver.
Qed.

Lemma reopened_complete o n : normal_op o → complete o → complete (reopened_op o n).
Proof.
  intros [Hm Hv Hc] [Cp Cf Ct Cv Cm Ch]. pose proof (modes_fit _ Hm) as [Sa Sf St Sv Ss Sr Sh].
  pose proof (mode_nonempty _ Hm) as Hne. rewrite !(str_or_given _ _ Hne) in *.
  assert (Hgiven : ∀ x, trim x ≠ [] ∨ (m_pathAlias (meta_of (o_mode o)) = true ∧ trim (o_path o) ≠ []) → trim (aliased o (trim x)) ≠ []).
  { intros x Hx. unfold aliased. destruct (nonempty (trim x)) eqn:En; cbn [negb].
    - rewrite andb_false_r. cbn [andb]. rewrite trim_idem. by apply nonempty_true.
    - apply nonempty_false in En. destruct Hx as [Hx|[Ha Hp]]; [done|]. rewrite Ha, (proj2 (nonempty_true _) Hp). cbn [andb]. by rewrite trim_idem. }
  constructor; cbn [reopened_op o_mode o_path from to value_text]; rewrite ?(str_or_given _ _ Hne).
  - intros Hp. rewrite Hp. cbn [orb]. rewrite trim_idem. auto.
  - intros Hf. left. rewrite (Sf Hf). auto.
  - intros Ht. left. rewrite (St Ht). cbn [orb]. auto.
  - intros Hval. rewrite (Sv Hval). cbn [opt_prop]. apply (stable_given _ Hv). auto.
  - intros m Em Hj. rewrite (Sr Em) in Hj. cbn [opt_prop] in Hj.
    assert (Hx : trim (value_text o) ≠ []) by (apply Cv; rewrite Em; apply set_has_spec; reflexivity).
    apply loose_object in Hj; [|by apply (stable_given _ Hv)]. rewrite (stable_value _ Hv) in Hj. apply loose_object in Hj; [|done]. by apply Cm.
  - intros Em. rewrite (Sh Em). cbn [opt_prop]. rewrite (stable_value _ Hv). auto.
Qed.

Lemma complete_nonblank o : o_mode o ∈ OPERATION_MODE_VALUES → complete o → isOperationBlank o = false.
Proof.
  intros Hm [Cp _ _ _ _ _]. unfold isOperationBlank. destruct (bool_decide (o_mode o = js "set")) eqn:E; [|done].
  apply bool_decide_eq_true in E. rewrite (str_or_given _ _ (mode_nonempty _ Hm)) in Cp.
  rewrite (proj2 (nonempty_true _) (Cp (set_shape _ _ (modes_fit _ Hm) E))). done.
Qed.
End reopen.

(** ** The stored text *)

Lemma wellformed_loose v : stable v → wellformed (parseLooseValue v).
Proof. intros H. split; [apply parseLooseValue_ok|apply (stable_nums _ H)]. Qed.

Lemma condition_wellformed c : normal_condition c → wellformed (JObj (present (cond_table c))).
Proof.
  intros [_ Hs]. apply wellformed_record; [literal_keys|vm_compute; reflexivity|]. each_field. by apply wellformed_loose.
Qed.

Lemma payload_wellformed o : normal_op o → wellformed (buildOperationPayload o).
Proof.
  intros [Hm Hv Hc]. rewrite payload_table by done. apply wellformed_record; [literal_keys|vm_compute; reflexivity|]. each_field.
  - by apply wellformed_loose.
  - apply wellformed_arr. rewrite cond_payloads. apply Forall_forall. intros v (c & -> & [Hin _]%elem_of_List_filter)%list_elem_of_fmap.
    apply condition_wellformed. rewrite Forall_forall in Hc. by apply Hc.
Qed.

(** The operations read back from the payloads. *)
Fixpoint reopened_ops (nextLocalId : nat → jsstr) (ops : list ParamOverrideOperation) (n : nat) : list ParamOverrideOperation :=
  match ops with
  | [] => []
  | o :: ops' => reopened_op nextLocalId o n :: reopened_ops nextLocalId ops' (S n + length (stored_conds (conditions o)))
  end.

Section resave.
Context (nextLocalId : nat → jsstr) (toUpperCase : jsstr → jsstr) (t : jsstr → option nat → jsstr).
Context (Hand : toUpperCase (js "AND") = js "AND") (Hor : toUpperCase (js "OR") = js "OR").
Context (Ht : ∀ k l, t k l ≠ []).

Lemma reopen_ops ops n :
  Forall normal_op ops →
  ∃ n', map_ids (normalizeOperation nextLocalId toUpperCase) (map buildOperationPayload ops) n = Ok (reopened_ops nextLocalId ops n, n').
Proof.
  intros H. revert n. induction H as [|o ops Ho Hops IH]; intros n; cbn [map map_ids reopened_ops]; [by exists n|].
  rewrite reopen_op by done. cbn [res_bind fst snd]. destruct (IH (S n + length (stored_conds (conditions o)))%nat) as [n' ->].
  cbn [res_bind fst snd]. by exists n'.
Qed.

Lemma reopened_ops_payloads ops n :
  Forall normal_op ops → map buildOperationPayload (reopened_ops nextLocalId ops n) = map buildOperationPayload ops.
Proof.
  intros H. revert n. induction H as [|o ops Ho Hops IH]; intros n; cbn [map reopened_ops]; [done|]. by rewrite reopened_payload, IH.
Qed.

Lemma reopened_ops_complete ops n :
  Forall normal_op ops → Forall complete ops →
  Forall complete (reopened_ops nextLocalId ops n) ∧ nonblank_ops (reopened_ops nextLocalId ops n) = reopened_ops nextLocalId ops n.
Proof.
  intros H. revert n. induction H as [|o ops Ho Hops IH]; intros n Hc; cbn [reopened_ops]; [done|].
  apply Forall_cons in Hc as [Hc Hcs]. destruct (IH (S n + length (stored_conds (conditions o)))%nat Hcs) as [IH1 IH2].
  pose proof (reopened_complete nextLocalId o n Ho Hc) as Hr. split; [by constructor|].
  unfold nonblank_ops in *. cbn [List.filter]. rewrite complete_nonblank by (done || apply Ho). cbn [negb]. by rewrite IH2.
Qed.

(** The text the editor stores for complete operations. *)
Definition stored_text (ops : list ParamOverrideOperation) : jsstr :=
  pretty (JObj [(js "operations", JArr (map buildOperationPayload ops))]).

Lemma built_iff ops text :
  buildOperationsJson t ops true = Ok text ↔
  (nonblank_ops ops = [] ∧ text = []) ∨ (nonblank_ops ops ≠ [] ∧ Forall complete (nonblank_ops ops) ∧ text = stored_text (nonblank_ops ops)).
Proof.
  unfold buildOperationsJson. fold (nonblank_ops ops). destruct (nonblank_ops ops) as [|o l] eqn:E; cbn [nonempty negb]; [naive_solver|].
  unfold validateOperations. destruct (validateFrom_spec t Ht (o :: l) 1) as [[-> Hc]|(a & op & b & key & El & Ha & Hn & ->)]; cbn [nonempty].
  - split; [intros [= <-]; naive_solver|intros [[? _]|(_ & _ & ->)]; done].
  - rewrite (proj2 (nonempty_true _) (Ht key _)). split; [done|]. intros [[? _]|(_ & Hc & _)]; [done|]. rewrite El in Hc.
    apply Forall_app in Hc as [_ [Hc _]%Forall_cons]. done.
Qed.

Lemma stored_text_nonempty ops : stored_text ops ≠ [].
Proof. done. Qed.

Lemma parse_stored_text ops :
  Forall normal_op ops → JSON_parse (stored_text ops) = Some (JObj [(js "operations", JArr (map buildOperationPayload ops))]).
Proof.
  intros H. assert (Hw : wellformed (JObj (present [(js "operations", Some (JArr (map buildOperationPayload ops)))]))).
  { apply wellformed_record; [literal_keys|vm_compute; reflexivity|]. constructor; [|constructor]. cbn [snd]. apply wellformed_arr.
    apply List.Forall_map. eapply Forall_impl; [exact H|]. intros o Ho. by apply payload_wellformed. }
  destruct Hw as [Hj Hn]. by apply (JSON_parse_printed indent2 json_number).
Qed.

Lemma nonblank_normal ops : Forall normal_op ops → Forall normal_op (nonblank_ops ops).
Proof. intros H. apply Forall_forall. intros o [Ho _]%elem_of_List_filter. rewrite Forall_forall in H. by apply H. Qed.

Lemma reopen_stored ops n :
  Forall normal_op ops → ops ≠ [] →
  ∃ n', parseInitialState nextLocalId toUpperCase (stored_text ops) n
        = Ok (mkEditor Visual Operations [] (reopened_ops nextLocalId ops n) (stored_text ops) [], n').
Proof.
  intros H Hne. unfold parseInitialState, stored_text, pretty. rewrite trim_printed. fold (pretty (JObj [(js "operations", JArr (map buildOperationPayload ops))])).
  fold (stored_text ops). rewrite (proj2 (nonempty_true _) (stored_text_nonempty ops)), parse_stored_text by done. cbn [negb].
  change (operations_member (JObj [(js "operations", JArr (map buildOperationPayload ops))])) with (Some (map buildOperationPayload ops)).
  unfold loadOperations. destruct (reopen_ops ops n H) as [n' En].
  replace (nonempty (map buildOperationPayload ops)) with true by (by destruct ops).
  cbv iota beta. rewrite En. cbn [res_bind fst snd]. by exists n'.
Qed.
End resave.

(** C24: What the visual editor saves, if it is not empty, it reopens in the visual
    editor, and saving the reopened operations without a change gives the same
    text, for operations and conditions whose modes are among the editor's and whose
    value texts are stable: stored and reopened, such a text stands for the same
    value, and is not blank if it was not. (A quoted number is not stable, see
    [quoted_number_retyped].) Assumed are messages that are not empty and an upper
    case that leaves AND and OR as they are. *)
Theorem resave_identical nextLocalId toUpperCase t ops text n :
  (∀ k l, t k l ≠ []) → toUpperCase (js "AND") = js "AND" → toUpperCase (js "OR") = js "OR" →
  Forall normal_op ops → buildOperationsJson t ops true = Ok text → text ≠ [] →
  ∃ s n', parseInitialState nextLocalId toUpperCase text n = Ok (s, n')
    ∧ editMode s = Visual ∧ visualMode s = Operations ∧ jsonText s = text
    ∧ length (operations s) = length (nonblank_ops ops)
    ∧ buildOperationsJson t (operations s) true = Ok text.
Proof.
  intros Ht Hand Hor Hn Hb Hne. apply (built_iff t Ht) in Hb as [[_ ->]|(Hops & Hc & ->)]; [done|].
  apply nonblank_normal in Hn. destruct (reopen_stored nextLocalId toUpperCase Hand Hor _ n Hn Hops) as [n' ->].
  eexists _, n'. split; [done|]. cbn [editMode visualMode jsonText operations].
  pose proof (reopened_ops_payloads nextLocalId _ n Hn) as Hp. pose proof (reopened_ops_complete nextLocalId _ n Hn Hc) as [Hrc Hrn].
  assert (Hl : length (reopened_ops nextLocalId (nonblank_ops ops) n) = length (nonblank_ops ops)) by (rewrite <- (length_map buildOperationPayload), Hp; apply length_map).
  repeat (split; [done|]). apply (built_iff t Ht). right. rewrite Hrn. unfold stored_text. rewrite Hp.
  split; [|done]. intros E. rewrite E in Hl. by destruct (nonblank_ops ops).
Qed.

(** Texts that are stable, checked by evaluation. *)
Lemma stable_text v :
  bool_decide (toValueText (Some (parseLooseValue v)) = trim v) = true → nums_ok json_number (parseLooseValue v) = true → stable v.
Proof.
  intros H%bool_decide_eq_true Hn. constructor; rewrite ?H; [apply parseLooseValue_trim|done|by rewrite trim_idem].
Qed.

(** A supply of identifiers. *)
Definition local_id (n : nat) : jsstr := js "op-" ++ print_N (N.of_nat n).

Definition demo_cond (i path value : string) : ParamOverrideCondition := mkCond (js i) (js path) (js "prefix") (js value) true false.

Definition demo_ops : list ParamOverrideOperation :=
  [demo_op "a" " temperature " "0.7"; demo_op "b" EmptyString EmptyString;
   mkOp (js "c") (js "note") (js "X-Trace") (js "copy_header") [] (js "X-Id") (js "true") true (js "AND") [demo_cond "d" "model" "gpt-4"; demo_cond "e" EmptyString "x"]].

Lemma demo_ops_normal : Forall normal_op demo_ops.
Proof.
  repeat constructor; try (apply set_has_spec; vm_compute; reflexivity); apply stable_text; vm_compute; reflexivity.
Qed.

Lemma resave_identical_witness :
  ∃ text, buildOperationsJson demo_t demo_ops true = Ok text ∧
  ∃ s n', parseInitialState local_id (fun s => s) text 7 = Ok (s, n')
    ∧ editMode s = Visual ∧ visualMode s = Operations ∧ jsonText s = text
    ∧ length (operations s) = length (nonblank_ops demo_ops)
    ∧ buildOperationsJson demo_t (operations s) true = Ok text.
Proof.
  eexists. split; [vm_compute; reflexivity|].
  apply (resave_identical local_id (fun s => s) demo_t demo_ops _ 7);
    [intros k l; discriminate|reflexivity|reflexivity|apply demo_ops_normal|vm_compute; reflexivity|discriminate].
Defined.

(** From a visual editor that can be saved, switching to the JSON view and back
    and then saving hands over the same text as saving at once, and no message is
    shown on the way. *)
Theorem switching_keeps_saved_text nextLocalId toUpperCase t d text :
  (∀ k l, t k l ≠ []) → toUpperCase (js "AND") = js "AND" → toUpperCase (js "OR") = js "OR" →
  editMode (editor d) = Visual → visualMode (editor d) = Operations →
  Forall normal_op (operations (editor d)) → buildOperationsJson t (operations (editor d)) true = Ok text → text ≠ [] →
  let json := switchToJsonMode t d in
  let visual := switchToVisualMode nextLocalId toUpperCase t json in
  saved (handleSave t d) = saved d ++ [text] ∧ saved (handleSave t json) = saved d ++ [text]
  ∧ editMode (editor visual) = Visual ∧ saved (handleSave t visual) = saved d ++ [text] ∧ toasts visual = toasts d.
Proof.
  intros Ht Hand Hor He Hv Hn Hb Hne json visual. pose proof Hb as Hb'.
  apply (built_iff t Ht) in Hb' as [[_ ->]|(Hops & Hc & ->)]; [done|]. set (ops := nonblank_ops (operations (editor d))) in *.
  assert (Hno : Forall normal_op ops) by by apply nonblank_normal.
  assert (Etrim : trim (stored_text ops) = stored_text ops) by apply trim_printed.
  assert (Ej : json = with_editor d (mkEditor JsonMode Operations (legacyValue (editor d)) (operations (editor d)) (stored_text ops) [])).
  { unfold json, switchToJsonMode, buildVisualJson. by rewrite He, Hv, Hb. }
  destruct (reopen_ops nextLocalId toUpperCase Hand Hor ops (nextId d) Hno) as [n' En].
  assert (Ev : editor visual = mkEditor Visual Operations [] (reopened_ops nextLocalId ops (nextId d)) (stored_text ops) []
               ∧ toasts visual = toasts d ∧ saved visual = saved d).
  { unfold visual, switchToVisualMode. rewrite Ej. cbn [with_editor editor editMode jsonText nextId]. rewrite Etrim, parse_stored_text by done.
    rewrite (proj2 (nonempty_true _) Hne). cbn [negb]. change (operations_member _) with (Some (map buildOperationPayload ops)).
    unfold loadOperations. replace (nonempty (map buildOperationPayload ops)) with true by (by destruct ops). cbv iota beta. by rewrite En. }
  destruct Ev as (Ev & Evt & Evs). pose proof (reopened_ops_payloads nextLocalId ops (nextId d) Hno) as Hp.
  pose proof (reopened_ops_complete nextLocalId ops (nextId d) Hno Hc) as [Hrc Hrn].
  assert (Hb2 : buildOperationsJson t (reopened_ops nextLocalId ops (nextId d)) true = Ok (stored_text ops)).
  { apply (built_iff t Ht). right. rewrite Hrn. unfold stored_text. rewrite Hp. split; [|done]. intros E. by destruct ops. }
  split; [unfold handleSave, saveText, buildVisualJson; by rewrite He, Hv, Hb|]. split.
  { unfold handleSave, saveText. rewrite Ej. cbn [with_editor editor editMode jsonText]. rewrite Etrim, parse_stored_text by done.
    by rewrite (proj2 (nonempty_true _) Hne). }
  split; [by rewrite Ev|]. split; [|done]. unfold handleSave, saveText, buildVisualJson. rewrite Ev. cbn [editMode visualMode operations].
  rewrite Hb2. cbn [with_saved saved]. by rewrite Evs.
Qed.

Lemma switching_keeps_saved_text_witness :
  let d := demo_dialog demo_ops in
  ∃ text, saved (handleSave demo_t d) = [text] ∧
    saved (handleSave demo_t (switchToVisualMode local_id (fun s => s) demo_t (switchToJsonMode demo_t d))) = [text].
Proof.
  eexists. split; [vm_compute; reflexivity|].
  eapply (switching_keeps_saved_text local_id (fun s => s) demo_t (demo_dialog demo_ops));
    [intros k l; discriminate|reflexivity|reflexivity|reflexivity|reflexivity|apply demo_ops_normal|vm_compute; reflexivity|discriminate].
Defined.

(** A text that stands for a JSON string which looks like a number is stored as the
    string and reopened as the number: saving twice changes the type of the value. *)
Theorem quoted_number_retyped :
  ∃ text s n', buildOperationsJson demo_t [demo_op "a" "user" (String (Ascii.ascii_of_nat 34) ("42" ++ String (Ascii.ascii_of_nat 34) EmptyString))] true = Ok text
    ∧ parseInitialState local_id (fun s => s) text 0 = Ok (s, n')
    ∧ map (fun o => parseLooseValue (value_text o)) (operations s) = [JNum (num_of_Z 42)]
    ∧ buildOperationsJson demo_t (operations s) true ≠ Ok text.
Proof. do 3 eexists. split; [vm_compute; reflexivity|]. split; [vm_compute; reflexivity|]. split; [vm_compute; reflexivity|vm_compute; discriminate]. Qed.

(** A stored list of operations with a null among them makes the parser throw. *)
Theorem null_operation_throws nextLocalId toUpperCase n :
  ∃ m, parseInitialState nextLocalId toUpperCase (pretty (JObj [(js "operations", JArr [JNull])])) n = Throw m.
Proof. eexists. vm_compute. reflexivity. Qed.
