(* ===== verification/ParamReach.v ===== *)
(** * Parameter overrides: what every reachable dialog satisfies

    The handlers as a step relation. Whatever the user does, the list of operations
    is never empty, its identifiers are distinct, and an operation is selected. *)

From S2P Require Import Prelude JsNum IntNum Json NumText Records JsValue ParamOverride ParamDrafts ParamPresets ParamEditor ParamLaws ParamSave.
From Stdlib Require Import Floats.SpecFloat.

#[local] Open Scope js_scope.

(** ** Identifiers *)

(** The local identifier number [seed], drawn at the time [now seed]. *)
Definition nextLocalId (now : nat → N) (seed : nat) : jsstr :=
  js "po_" ++ print_N (now seed) ++ 95%N :: print_N (N.of_nat seed).

Lemma no_underscore n : 95%N ∉ print_N n.
Proof.
  destruct (print_N_spec n) as (_ & Hd & _). intros Hin. rewrite Forall_forall in Hd. specialize (Hd _ Hin). done.
Qed.

Lemma print_N_inj a b : print_N a = print_N b → a = b.
Proof. intros E. destruct (print_N_spec a) as [<- _], (print_N_spec b) as [<- _]. by rewrite E. Qed.

Lemma nextLocalId_inj now a b : nextLocalId now a = nextLocalId now b → a = b.
Proof.
  unfold nextLocalId. intros E%app_inv_head. assert (Ec := f_equal (cut_at 95%N) E). rewrite !cut_at_app in Ec by apply no_underscore.
  injection Ec as _ Ec. apply print_N_inj in Ec. lia.
Qed.

Section handling.
Context (newId : nat → jsstr) (toUpperCase : jsstr → jsstr) (t : jsstr → option nat → jsstr).

(** One thing the user does; drawing the page may use up identifiers as well. *)
Inductive handled (d : Dialog) : Dialog → Prop :=
  | Reopened value d' : openDialog newId toUpperCase d value = Ok d' → handled d d'
  | Selected i : handled d (with_selected d i)
  | LegacyEdited v : handled d (let e := editor d in
      with_editor d (mkEditor (editMode e) (visualMode e) v (operations e) (jsonText e) (jsonError e)))
  | ConditionToggled c b : handled d (with_expanded d (map_set c b (expandedConditions d)))
  | Rendered n : (nextId d <= n)%nat → handled d (with_next d n)
  | Searched q : handled d (mkDialog (editor d) q (selectedOverride d) (expandedConditions d) (draggedOperationId d)
      (dragOverOperationId d) (dragOverPosition d) (templatePresetKey d) (toasts d) (saved d) (nextId d))
  | ChosePreset k : handled d (with_preset d k)
  | Updated i patch : handled d (updateOperation d i patch)
  | Added : handled d (addOperation newId d)
  | Duplicated i eager : handled d (duplicateOperation newId toUpperCase d i eager)
  | Removed i : handled d (removeOperation newId d i)
  | ConditionAdded i : handled d (addCondition newId d i)
  | ConditionUpdated i c patch : handled d (updateCondition d i c patch)
  | ConditionRemoved i c : handled d (removeCondition d i c)
  | ReturnErrorUpdated i patch : handled d (updateReturnErrorDraft d i patch)
  | PruneUpdated i patch : handled d (updatePruneObjectsDraft newId toUpperCase d i (fun draft n => (patch draft, n)))
  | RuleAdded i : handled d (addPruneRule newId toUpperCase d i)
  | RuleUpdated i r patch : handled d (updatePruneRule newId toUpperCase d i r patch)
  | RuleRemoved i r : handled d (removePruneRule newId toUpperCase d i r)
  | DragStarted i : handled d (handleDragStart d i)
  | DraggedOver i lower : handled d (handleDragOver d i lower)
  | Dropped i data : handled d (handleDrop d i data)
  | DragEnded : handled d (resetDragState d)
  | ToJson : handled d (switchToJsonMode t d)
  | ToVisual : handled d (switchToVisualMode newId toUpperCase t d)
  | Filled mode : handled d (fillTemplate newId toUpperCase t d mode)
  | ResetAll : handled d (resetEditorState newId d)
  | JsonChanged v : handled d (handleJsonChange t d v)
  | JsonFormatted : handled d (formatJson t d)
  | Saved : handled d (handleSave t d)
  | Expanded : handled d (expandAllConditions d)
  | Collapsed : handled d (collapseAllConditions d).

(** The dialog before it is opened. *)
Definition initialDialog (n : nat) : Dialog :=
  let created := createDefaultOperation newId n in
  mkDialog (mkEditor Visual Operations [] [created.1] [] []) [] [] [] [] [] Before (js "operations_default") [] [] created.2.

(** The dialogs the user can get to. *)
Inductive reachable : Dialog → Prop :=
  | Mounted n : reachable (initialDialog n)
  | Handled d d' : reachable d → handled d d' → reachable d'.

Context (Hfresh : ∀ a b, newId a = newId b → a = b).

(** Operations with distinct identifiers drawn from [n] on and before [n']. *)
Definition drawn (n n' : nat) (ops : list ParamOverrideOperation) : Prop :=
  Forall (fun o => ∃ k, (n <= k < n')%nat ∧ o_id o = newId k) ops ∧ NoDup (map o_id ops).

Lemma drawn_weaken n n' m' ops : drawn n n' ops → (n' <= m')%nat → drawn n m' ops.
Proof. intros [Hf Hn] Hl. split; [|done]. eapply Forall_impl; [exact Hf|]. intros o (k & Hk & Ho). exists k. split; [lia|done]. Qed.

Lemma drawn_lower n m n' ops : drawn n n' ops → (m <= n)%nat → drawn m n' ops.
Proof. intros [Hf Hn] Hl. split; [|done]. eapply Forall_impl; [exact Hf|]. intros o (k & Hk & Ho). exists k. split; [lia|done]. Qed.

Lemma drawn_app n m n' a b : drawn n m a → drawn m n' b → (n <= m <= n')%nat → drawn n n' (a ++ b).
Proof.
  intros Ha Hb Hl. split.
  - apply Forall_app. split; [apply (drawn_weaken _ _ n' _ Ha)|apply (drawn_lower _ n _ _ Hb)]; lia.
  - rewrite map_app. destruct Ha as [Ha Hna], Hb as [Hb Hnb]. apply NoDup_app. split; [done|]. split; [|done].
    intros i (o & -> & Ho)%list_elem_of_fmap (o' & E & Ho')%list_elem_of_fmap. rewrite Forall_forall in Ha, Hb.
    destruct (Ha o Ho) as (k & Hk & Ek), (Hb o' Ho') as (k' & Hk' & Ek'). rewrite Ek, Ek' in E. apply Hfresh in E. lia.
Qed.

Lemma drawn_perm n n' a b : a ≡ₚ b → drawn n n' a → drawn n n' b.
Proof. intros Hp [Hf Hn]. split; [by rewrite <- Hp|]. by rewrite <- (Permutation_map o_id Hp). Qed.

Lemma drawn_filter n n' q ops : drawn n n' ops → drawn n n' (List.filter q ops).
Proof.
  intros [Hf Hn]. split.
  - apply Forall_forall. intros o [Ho _]%elem_of_List_filter. rewrite Forall_forall in Hf. by apply Hf.
  - clear Hf. induction ops as [|o ops IH]; cbn [List.filter map] in *; [done|]. apply NoDup_cons in Hn as [Ho Hn].
    destruct (q o); [|by apply IH]. cbn [map]. constructor; [|by apply IH]. intros (o' & E & [Hin _]%elem_of_List_filter)%list_elem_of_fmap.
    apply Ho. rewrite E. apply list_elem_of_fmap. by exists o'.
Qed.

(** Operations with the same identifiers. *)
Lemma drawn_ids n n' a b : map o_id a = map o_id b → drawn n n' a → drawn n n' b.
Proof.
  intros E [Hf Hn]. split; [|by rewrite <- E].
  apply Forall_forall. intros o Ho. assert (Hi : o_id o ∈ map o_id a) by (rewrite E; apply list_elem_of_fmap; by exists o).
  apply list_elem_of_fmap in Hi as (o' & -> & Ho'). rewrite Forall_forall in Hf. by apply Hf.
Qed.

Lemma drawn_one n o n' : o_id o = newId n → (n < n')%nat → drawn n n' [o].
Proof. intros Ho Hn. split; [|cbn; apply NoDup_singleton]. repeat constructor. exists n. split; [lia|done]. Qed.

(** ** Parsing *)

Lemma map_ids_next {A} (f : json → nat → res (A * nat)) :
  (∀ x n r, f x n = Ok r → (n <= r.2)%nat) → ∀ l n r, map_ids f l n = Ok r → (n <= r.2)%nat.
Proof.
  intros Hf. induction l as [|x l IH]; intros n r; cbn [map_ids]; [by intros [= <-]|].
  destruct (f x n) as [[y m]|] eqn:E; cbn [res_bind fst snd]; [|done]. destruct (map_ids f l m) as [[ys m']|] eqn:E'; cbn [res_bind fst snd]; [|done].
  intros [= <-]. apply Hf in E. apply IH in E'. cbn [fst snd] in *. lia.
Qed.

Lemma normalizeCondition_next x n r : normalizeCondition newId x n = Ok r → (n <= r.2)%nat.
Proof. unfold normalizeCondition. destruct x; cbn [field res_bind]; intros [= <-]; cbn; lia. Qed.

Lemma normalizeOperation_id x n r : normalizeOperation newId toUpperCase x n = Ok r → o_id r.1 = newId n ∧ (n < r.2)%nat.
Proof.
  assert (H : ∀ (conds : option json) (cs : list ParamOverrideCondition * nat),
     match conds with Some (JArr l) => map_ids (normalizeCondition newId) l (S n) | _ => Ok ([], S n) end = Ok cs → (n < cs.2)%nat).
  { intros conds cs E. destruct conds as [[| | | |l|]|]; try (injection E as <-; cbn; lia).
    apply (map_ids_next _ normalizeCondition_next) in E. lia. }
  unfold normalizeOperation. destruct x; cbn [field res_bind]; try done.
  all: try (intros [= <-]; cbn [fst snd o_id]; split; [done|lia]).
  specialize (H (map_get (js "conditions") m)).
  destruct (match map_get (js "conditions") m with Some (JArr l) => _ | _ => _ end) as [cs|] eqn:E; cbn [res_bind]; [|done].
  intros [= <-]. cbn [fst snd o_id]. split; [done|by apply H].
Qed.

Lemma map_ids_drawn l n r :
  map_ids (normalizeOperation newId toUpperCase) l n = Ok r → drawn n r.2 r.1 ∧ (n <= r.2)%nat ∧ length r.1 = length l.
Proof.
  revert n r. induction l as [|x l IH]; intros n r; cbn [map_ids].
  { intros [= <-]. cbn [fst snd]. split; [|done]. split; [apply List.Forall_nil|apply NoDup_nil_2]. }
  destruct (normalizeOperation newId toUpperCase x n) as [[o m]|] eqn:E; cbn [res_bind fst snd]; [|done].
  destruct (map_ids _ l m) as [[os m']|] eqn:E'; cbn [res_bind fst snd]; [|done]. intros [= <-]. cbn [fst snd].
  apply normalizeOperation_id in E as [Hi Hm]. apply IH in E' as (Hd & Hl & Hlen). cbn [fst snd] in *.
  split; [|cbn [length]; lia]. change (o :: os) with ([o] ++ os). apply (drawn_app n m m'); [by apply drawn_one|done|lia].
Qed.

Lemma loadOperations_drawn l n r :
  loadOperations newId toUpperCase l n = Ok r → drawn n r.2 r.1 ∧ (n <= r.2)%nat ∧ r.1 ≠ [].
Proof.
  unfold loadOperations. destruct l as [|x l]; cbn [nonempty].
  - intros [= <-]. cbn [fst snd createDefaultOperation]. split; [apply drawn_one; [done|lia]|]. split; [lia|done].
  - intros (Hd & Hl & Hlen)%map_ids_drawn. split; [done|]. split; [done|]. by destruct r.1.
Qed.

(** ** The invariant *)

Lemma app_cons_not_nil' {A} (l : list A) x l' : l ++ x :: l' ≠ [].
Proof. by destruct l. Qed.


Definition steady (n : nat) (ops : list ParamOverrideOperation) : Prop := drawn 0 n ops ∧ ops ≠ [].

Definition well_kept (d : Dialog) : Prop := steady (nextId d) (operations (editor d)).

Lemma steady_default n : steady (S n) [(createDefaultOperation newId n).1].
Proof. split; [|done]. apply (drawn_lower n); [apply drawn_one; [done|lia]|lia]. Qed.

Lemma steady_ids n n' a b : map o_id a = map o_id b → (n <= n')%nat → steady n a → steady n' b.
Proof. intros E Hl [Hd Hn]. split; [apply (drawn_ids 0 n' a); [done|by apply (drawn_weaken 0 n)]|]. destruct a, b; done. Qed.

Lemma update_at_ids i f ops : (∀ o, o_id (f o) = o_id o) → map o_id ops = map o_id (update_at i f ops).
Proof. intros Hf. unfold update_at. rewrite map_map. apply map_ext. intros o. destruct (has_id i o); [by rewrite Hf|done]. Qed.

Lemma assign_ops_id patch o : o_id (foldl assign_op o patch) = o_id o.
Proof. revert o. induction patch as [|f patch IH]; intros o; [done|]. cbn [foldl]. rewrite IH. by destruct o, f. Qed.

Lemma updatePruneOps_ids i f ops n :
  (∀ draft m, (m <= (f draft m).2)%nat) →
  map o_id ops = map o_id (updatePruneOps newId toUpperCase i f ops n).1 ∧ (n <= (updatePruneOps newId toUpperCase i f ops n).2)%nat.
Proof.
  intros Hf. revert n. induction ops as [|o ops IH]; intros n; [done|]. cbn [updatePruneOps]. destruct (has_id i o); cbn [fst snd map].
  - set (draft := parsePruneObjectsDraft newId toUpperCase (value_text o) n). destruct (IH (f draft.1 draft.2).2) as [IH1 IH2].
    split; [rewrite <- IH1; f_equal; by destruct o|]. pose proof (parsed_rules_drawn newId toUpperCase (value_text o) n) as [_ Hn].
    fold draft in Hn. specialize (Hf draft.1 draft.2). lia.
  - destruct (IH n) as [IH1 IH2]. split; [by rewrite <- IH1|done].
Qed.

(** An update of the drafts keeps the identifiers. *)
Lemma well_kept_drafts d i f :
  (∀ draft m, (m <= (f draft m).2)%nat) → well_kept d → well_kept (updatePruneObjectsDraft newId toUpperCase d i f).
Proof.
  intros Hf Hd. destruct (updatePruneOps_ids i f (operations (editor d)) (nextId d) Hf) as [E Hn].
  apply (steady_ids (nextId d) _ (operations (editor d))); [exact E|exact Hn|exact Hd].
Qed.

Lemma well_kept_update d i f : (∀ o, o_id (f o) = o_id o) → well_kept d → well_kept (with_ops d (update_at i f (operations (editor d)))).
Proof. intros Hf Hd. apply (steady_ids (nextId d) _ (operations (editor d))); [by apply update_at_ids|cbn; lia|exact Hd]. Qed.

Lemma well_kept_reset d n : (nextId d <= n)%nat → well_kept d → steady n (operations (editor d)).
Proof. intros Hn Hd. by apply (steady_ids (nextId d) n (operations (editor d))). Qed.

Lemma reorder_perm ops a b p : reorderOperations ops a b p ≡ₚ ops.
Proof.
  unfold reorderOperations. destruct (_ || _); [done|]. destruct (find_index (has_id a) ops) as [i|] eqn:Ei; [|done].
  apply find_index_Some in Ei as (m & Hl & Hi & _). rewrite Hi. set (next := take i ops ++ drop (S i) ops).
  destruct (find_index (has_id b) next) as [j|]; [|done]. set (k := match p with Before => j | After => S j end).
  rewrite <- Permutation_middle, take_drop. unfold next. rewrite Permutation_middle. by rewrite <- Hl.
Qed.

(** Leaving one operation out of several leaves some. *)
Lemma without_nonempty i ops : NoDup (map o_id ops) → (1 < length ops)%nat → List.filter (fun o => negb (has_id i o)) ops ≠ [].
Proof.
  destruct ops as [|o [|o' ops]]; cbn [length]; [lia|lia|]. intros Hn _ E. cbn [map] in Hn. apply NoDup_cons in Hn as [Hn _].
  cbn [List.filter] in E. destruct (has_id i o) eqn:E1; [|done]. destruct (has_id i o') eqn:E2; [|done].
  apply has_id_true in E1, E2. apply Hn. rewrite E1, <- E2. apply list_elem_of_here.
Qed.

Lemma well_kept_removed d i : well_kept d → well_kept (removeOperation newId d i).
Proof.
  intros [Hd Hn]. unfold removeOperation. destruct (Nat.leb_spec (length (operations (editor d))) 1) as [Hl|Hl].
  - apply steady_default.
  - split; cbn [with_ops with_editor editor operations nextId]; [by apply drawn_filter|]. apply without_nonempty; [apply Hd|done].
Qed.

Lemma well_kept_duplicated d i eager : well_kept d → well_kept (duplicateOperation newId toUpperCase d i eager).
Proof.
  intros Hd. unfold duplicateOperation. destruct (find_index _ _) as [idx|]; [|done]. destruct (_ !! idx); [|done].
  destruct (normalizeOperation _ _ _ _) as [[o m]|] eqn:E; [|done]. apply normalizeOperation_id in E as [Hi Hm]. cbn [fst snd] in *.
  assert (H : steady m (take (S idx) (operations (editor d)) ++ o :: drop (S idx) (operations (editor d)))).
  { split; [|by destruct (take _ _)]. apply (drawn_perm 0 m (operations (editor d) ++ [o])).
    - rewrite <- (Permutation_middle (take _ _)), take_drop. by rewrite <- Permutation_cons_append.
    - apply (drawn_app 0 (nextId d) m); [apply Hd|by apply drawn_one|lia]. }
  by destruct (eager && _).
Qed.

Lemma presets_nonempty k :
  let preset := default (mkPreset (js "New Format Template") POperations OPERATION_TEMPLATE) (map_get k TEMPLATE_PRESET_CONFIG) in
  preset_kind preset = POperations → default [] (operations_member (payload preset)) ≠ [].
Proof.
  cbn zeta. destruct (map_get k TEMPLATE_PRESET_CONFIG) as [preset|] eqn:E; cbn [default from_option id]; unfold id; [|by intros _].
  apply map_get_Some in E. apply list_elem_of_In in E.
  assert (H : forallb (fun kv => match preset_kind kv.2 with POperations => nonempty (default [] (operations_member (payload kv.2))) | PLegacy => true end)
                TEMPLATE_PRESET_CONFIG = true) by (vm_compute; reflexivity).
  rewrite forallb_forall in H. specialize (H _ E). cbn [snd] in H. intros Hk. rewrite Hk in H. by apply nonempty_true.
Qed.

Lemma well_kept_filled d mode : well_kept d → well_kept (fillTemplate newId toUpperCase t d mode).
Proof.
  intros Hd. unfold fillTemplate. set (preset := default _ _). destruct (preset_kind preset) eqn:Ek.
  - pose proof (presets_nonempty _ Ek) as Hne. fold preset in Hne.
    destruct (map_ids _ _ _) as [[ops n]|] eqn:E; [|done]. apply map_ids_drawn in E as (Hdr & Hl & Hlen). cbn [fst snd] in *.
    assert (Hops : ops ≠ []) by (intros ->; by destruct (default [] (operations_member (payload preset)))).
    destruct mode.
    + rewrite (proj2 (nonempty_true ops) Hops). split; [|done]. apply (drawn_lower (nextId d)); [exact Hdr|lia].
    + set (existing := match visualMode (editor d) with Operations => _ | Legacy => _ end).
      assert (He : drawn 0 (nextId d) existing).
      { unfold existing. destruct (visualMode (editor d)); [apply drawn_filter, Hd|]. split; [apply List.Forall_nil|apply NoDup_nil_2]. }
      assert (Hn : nonempty (existing ++ ops) = true) by (apply nonempty_true; destruct existing; done).
      rewrite Hn. split; [|by apply nonempty_true]. apply (drawn_app 0 (nextId d)); [done|done|cbn; lia].
  - assert (Hl : ∀ text, well_kept (load_legacy newId d text)) by (intros; apply steady_default).
    destruct mode; [apply Hl|]. destruct (visualMode (editor d)); [apply Hl|]. destruct (negb _); [apply Hl|]. destruct (JSON_parse _); [apply Hl|done].
Qed.

Lemma well_kept_visual d : well_kept d → well_kept (switchToVisualMode newId toUpperCase t d).
Proof.
  intros Hd. unfold switchToVisualMode. destruct (editMode (editor d)); [done|]. destruct (negb _); [apply steady_default|].
  destruct (JSON_parse _) as [parsed|]; [|done]. destruct (operations_member parsed) as [l|].
  - destruct (loadOperations _ _ _ _) as [[ops n]|] eqn:E; [|done]. apply loadOperations_drawn in E as (Hdr & Hl & Hne). cbn [fst snd] in *.
    split; [|done]. by apply (drawn_lower (nextId d)); [|lia].
  - destruct (is_object parsed); [apply steady_default|done].
Qed.

Lemma well_kept_opened d value d' : openDialog newId toUpperCase d value = Ok d' → well_kept d'.
Proof.
  unfold openDialog, parseInitialState. destruct (negb _).
  { intros [= <-]. apply steady_default. }
  destruct (JSON_parse _) as [parsed|]; [|intros [= <-]; apply steady_default].
  destruct (operations_member parsed) as [l|].
  - destruct (loadOperations _ _ _ _) as [[ops n]|] eqn:E; cbn [res_bind]; [|done]. intros [= <-].
    apply loadOperations_drawn in E as (Hdr & Hl & Hne). split; [|done]. by apply (drawn_lower (nextId d)); [|lia].
  - destruct (is_object parsed); intros [= <-]; apply steady_default.
Qed.

Lemma well_kept_json d : well_kept d → well_kept (switchToJsonMode t d).
Proof. intros Hd. unfold switchToJsonMode. destruct (editMode (editor d)); [|done]. by destruct (buildVisualJson t (editor d)). Qed.

Lemma well_kept_formatted d : well_kept d → well_kept (formatJson t d).
Proof. intros Hd. unfold formatJson. destruct (negb _); [done|]. by destruct (JSON_parse _). Qed.

Lemma well_kept_dropped d i data : well_kept d → well_kept (handleDrop d i data).
Proof.
  intros [Hd Hn]. unfold handleDrop. destruct (_ && _); [|by split]. cbn.
  split; cbn [editor operations with_editor with_ops with_selected resetDragState with_drag nextId].
  - eapply drawn_perm; [symmetry; apply reorder_perm|done].
  - intros E. apply Hn. apply Permutation_nil. rewrite <- E. apply reorder_perm.
Qed.

Lemma well_kept_handled d d' : well_kept d → handled d d' → well_kept d'.
Proof.
  intros Hd. destruct 1; try exact Hd.
  - by eapply well_kept_opened.
  - apply (well_kept_reset d n); [done|exact Hd].
  - apply well_kept_update; [intros; apply assign_ops_id|done].
  - split; [|apply app_cons_not_nil']. apply (drawn_app 0 (nextId d)); [apply Hd|apply drawn_one; [done|cbn; lia]|cbn; lia].
  - by apply well_kept_duplicated.
  - by apply well_kept_removed.
  - apply (well_kept_reset (with_ops d _)); [cbn; lia|]. by apply well_kept_update.
  - by apply well_kept_update.
  - by apply well_kept_update.
  - apply well_kept_update; [by intros []|done].
  - apply well_kept_drafts; [cbn; lia|done].
  - apply well_kept_drafts; [cbn; lia|done].
  - apply well_kept_drafts; [cbn; lia|done].
  - apply well_kept_drafts; [cbn; lia|done].
  - unfold handleDragOver. by destruct (_ || _).
  - by apply well_kept_dropped.
  - by apply well_kept_json.
  - by apply well_kept_visual.
  - by apply well_kept_filled.
  - apply steady_default.
  - by apply well_kept_formatted.
  - unfold handleSave. by destruct (saveText t (editor d)).
  - unfold expandAllConditions, setAllConditions. by destruct (selectedOperation d).
  - unfold collapseAllConditions, setAllConditions. by destruct (selectedOperation d).
Qed.

Lemma reachable_kept d : reachable d → well_kept d.
Proof. induction 1; [apply steady_default|by eapply well_kept_handled]. Qed.
End handling.

Lemma find_exists {A} (q : A → bool) l : existsb q l = true → ∃ x, List.find q l = Some x ∧ x ∈ l ∧ q x = true.
Proof.
  intros (x & Hx & Hq)%existsb_exists. destruct (List.find q l) as [y|] eqn:E.
  - apply List.find_some in E as [Hy Hqy]. exists y. split; [done|]. split; [by apply list_elem_of_In|done].
  - pose proof (List.find_none _ _ E x Hx). congruence.
Qed.

(** However the dialog is used, its list of operations has at least one
    operation, no two share an identifier, and the selected operation exists and is
    the only one with the selected identifier. *)
Theorem reachable_selection now toUpperCase t d :
  reachable (nextLocalId now) toUpperCase t d →
  operations (editor d) ≠ [] ∧ NoDup (map o_id (operations (editor d)))
  ∧ ∃ a op b, selectedOperation d = Some op ∧ o_id op = selectedOperationId d ∧ operations (editor d) = a ++ op :: b
      ∧ selectedOperationId d ∉ map o_id (a ++ b).
Proof.
  intros [[_ Hn] Hne]%(reachable_kept _ _ _ (nextLocalId_inj now)). split; [done|]. split; [done|].
  assert (He : existsb (has_id (selectedOperationId d)) (operations (editor d)) = true).
  { unfold selectedOperationId. destruct (existsb (has_id (selectedOverride d)) (operations (editor d))) eqn:E; [done|].
    destruct (operations (editor d)) as [|o ops]; [done|]. cbn [existsb first_id]. by rewrite (proj2 (has_id_true (o_id o) o) eq_refl). }
  apply find_exists in He as (op & Hf & (a & b & E)%list_elem_of_split & Hi%has_id_true). exists a, op, b.
  split; [exact Hf|]. split; [done|]. split; [done|]. rewrite E, map_app in Hn. cbn [map] in Hn.
  rewrite <- Hi, map_app. assert (Hp : map o_id a ++ o_id op :: map o_id b ≡ₚ o_id op :: map o_id a ++ map o_id b) by by rewrite Permutation_middle.
  rewrite Hp in Hn. by apply NoDup_cons in Hn as [Hn _].
Qed.

(** A new dialog, with an operation added, the first removed and the
    other duplicated. *)
Definition demo_clock (seed : nat) : N := (1700 + N.of_nat seed)%N.
Definition demo_ids : nat → jsstr := nextLocalId demo_clock.
Definition demo_reached : Dialog :=
  let d := initialDialog demo_ids 0 in
  duplicateOperation demo_ids (fun s => s) (removeOperation demo_ids (addOperation demo_ids d) (demo_ids 0)) (demo_ids 1) true.

Lemma reachable_selection_witness :
  reachable demo_ids (fun s => s) demo_t demo_reached
  ∧ map o_id (operations (editor demo_reached)) = map js ["po_1701_1"; "po_1702_2"]%string
  ∧ NoDup (map o_id (operations (editor demo_reached))).
Proof.
  assert (H : reachable demo_ids (fun s => s) demo_t demo_reached).
  { unfold demo_reached. eapply Handled; [|apply Duplicated]. eapply Handled; [|apply Removed]. eapply Handled; [|apply Added].
    apply Mounted. }
  split; [exact H|]. split; [vm_compute; reflexivity|]. apply (reachable_selection demo_clock (fun s => s) demo_t demo_reached H).
Defined.
