(* ===== verification/ChannelForm.v ===== *)
(** * The channel form: validation

    The declared types of the form's fields and the checks of
    features/channels/lib/channel-form.ts. A form is an object, the list of its
    properties; a property that is missing is [undefined]. *)

From S2P Require Import Prelude JsNum Json NumText Records JsValue ModelMapping.
From Stdlib Require Import Floats.SpecFloat.

#[local] Open Scope js_scope.

Notation object := (list (jsstr * json)).

(** [o.key]. *)
Definition get (o : object) (key : string) : option json := map_get (js key) o.

(** A value of type [string | undefined]. *)
Definition text_of (v : option json) : option jsstr := match v with Some (JStr s) => Some s | _ => None end.

(** [value?.trim()], empty for [undefined]. *)
Definition trimmed_text (v : option jsstr) : jsstr := trim (default [] v).

(** ** Checks of texts *)

Definition parseOptionalJson (value : option jsstr) : res (option json) :=
  if negb (nonempty (trimmed_text value)) then Ok None
  else match JSON_parse (default [] value) with
       | Some v => Ok (Some v)
       | None => Throw (js "SyntaxError")
       end.

Definition isJsonObjectValue (v : json) : bool := match v with JObj _ => true | _ => false end.

(** [try { check } catch { return false }], where [undefined] passes. *)
Definition optional_json (check : json → bool) (value : option jsstr) : bool :=
  match parseOptionalJson value with
  | Ok None => true
  | Ok (Some parsed) => check parsed
  | Throw _ => false
  end.

Definition isOptionalJsonObject : option jsstr → bool := optional_json isJsonObjectValue.

Definition isOptionalModelMapping (value : option jsstr) : bool := (ModelMapping.validateModelMappingJson (default [] value)).1.

Definition isOptionalStatusCodeMapping : option jsstr → bool :=
  optional_json (fun parsed =>
    match parsed with
    | JObj m => forallb (fun kv => valid_status (Number kv.1) && valid_status (Number_value (Some kv.2))) m
    | _ => false
    end).

(** A text that is not blank. *)
Definition filled_text (v : option json) : bool := match v with Some (JStr s) => nonempty (trim s) | _ => false end.

Definition isCodexCredential : option jsstr → bool :=
  optional_json (fun parsed =>
    isJsonObjectValue parsed && filled_text (prop_of parsed "access_token") && filled_text (prop_of parsed "account_id")).

Definition isVertexJsonKey : option jsstr → bool :=
  optional_json (fun parsed =>
    match parsed with JArr l => forallb isJsonObjectValue l | _ => isJsonObjectValue parsed end).

(** ** Declared types *)

Inductive FieldType :=
  | TString | TNumber | TBoolean | TEnum (names : list string) | TStrings | TEnums (names : list string) | TRecord.

(** A member of a union of literals. *)
Definition is_name (names : list string) (v : json) : bool :=
  match v with JStr s => set_has s (map js names) | _ => false end.

Definition is_text (v : json) : bool := match v with JStr _ => true | _ => false end.

(** A number is finite. *)
Definition has_type (ty : FieldType) (v : json) : bool :=
  match ty, v with
  | TString, JStr _ | TBoolean, JBool _ | TRecord, JObj _ => true
  | TNumber, JNum x => num_is_finite x
  | TEnum names, _ => is_name names v
  | TStrings, JArr l => forallb is_text l
  | TEnums names, JArr l => forallb (is_name names) l
  | _, _ => false
  end.

(** The fields and their types, [true] for a required field. *)
Definition channelFormSchema : list (string * (bool * FieldType)) :=
  let req ty := (true, ty) in
  let opt ty := (false, ty) in
  let tri := TEnum ["auto"; "true"; "false"] in
  [("advanced_custom", opt TString); ("disable_task_polling_sleep", opt TBoolean); ("max_input_tokens", opt TNumber);
   ("name", req TString); ("type", req TNumber); ("base_url", opt TString); ("key", req TString);
   ("openai_organization", opt TString); ("models", req TString); ("group", req TStrings); ("model_mapping", opt TString);
   ("priority", opt TNumber); ("weight", opt TNumber); ("test_model", opt TString); ("channel_test_prompt_id", opt TNumber);
   ("auto_ban", opt TNumber); ("status", req TNumber); ("status_code_mapping", opt TString); ("tag", opt TString);
   ("remark", opt TString); ("setting", opt TString); ("param_override", opt TString); ("header_override", opt TString);
   ("settings", opt TString); ("other", opt TString);
   ("multi_key_mode", opt (TEnum ["single"; "batch"; "multi_to_single"])); ("multi_key_type", opt (TEnum ["random"; "polling"]));
   ("batch_add_set_key_prefix_2_name", opt TBoolean); ("key_mode", opt (TEnum ["append"; "replace"]));
   ("responses_websocket", opt TBoolean); ("force_format", opt TBoolean); ("thinking_to_content", opt TBoolean);
   ("proxy", opt TString); ("tls_insecure_skip_verify", opt TBoolean); ("pass_through_body_enabled", opt TBoolean);
   ("system_prompt", opt TString); ("system_prompt_override", opt TBoolean); ("user_agent_id", opt TNumber);
   ("user_agent_override", opt TString); ("normalize_upstream_errors", opt TBoolean);
   ("allow_model_protocol_override", opt TBoolean);
   ("model_protocol_override_targets", opt (TEnums ["openai"; "openai-response"; "anthropic"]));
   ("responses_function_call_arguments_format", opt (TEnum ["auto"; "string"; "object"]));
   ("responses_compaction_capability", opt (TEnum ["unknown"; "disabled"; "native_v2"; "legacy"; "native_v2_and_legacy"]));
   ("responses_compaction_native_stream", opt TBoolean); ("responses_compaction_continuation", opt TBoolean);
   ("responses_compaction_route_fingerprint", opt TString); ("responses_compaction_model_capabilities", opt TRecord);
   ("anti_poison_profile", opt (TEnum ["inherit"; "trusted"; "unknown"; "probation"; "quarantine"]));
   ("anti_poison_enabled", opt TBoolean);
   ("anti_poison_answer_envelope", opt (TEnum ["inherit"; "off"; "auto"; "required"; "required_non_stream"]));
   ("anti_poison_response_proof", opt (TEnum ["inherit"; "off"; "warn"; "auto"; "required"; "required_non_stream"]));
   ("anti_poison_response_proof_enabled", opt TBoolean);
   ("anti_poison_tool_call_guard", opt (TEnum ["inherit"; "off"; "warn"; "auto"; "strict"; "strict_when_tools"]));
   ("anti_poison_opaque_scan", opt (TEnum ["inherit"; "off"; "warn"; "score"; "score_strict"]));
   ("anti_poison_probe_before_every_request", opt TBoolean);
   ("anti_poison_stream_mode", opt (TEnum ["inherit"; "direct_stream_light_scan"; "preflight_probe_first_bytes_buffer";
      "aggregate_then_replay"; "disabled"]));
   ("anti_poison_hard_failures_to_quarantine", opt TNumber); ("anti_poison_soft_failures_to_degrade", opt TNumber);
   ("anti_poison_failure_mode", opt (TEnum ["inherit"; "block"; "warn"])); ("anti_poison_canary_echo_enabled", opt TBoolean);
   ("anti_poison_shape_check_enabled", opt TBoolean); ("requires_codex_identity", opt tri);
   ("responses_request_profile", opt (TEnum ["auto"; "responses"; "codex"])); ("responses_supports_max_output_tokens", opt tri);
   ("upstream_param_override", opt TString); ("supports_claude_thinking", opt tri); ("auto_test_interval", opt TNumber);
   ("auto_test_retry_count", opt TNumber); ("auto_test_retry_threshold", opt TNumber);
   ("auto_test_time_window_start", opt TString); ("auto_test_time_window_end", opt TString); ("auto_test_timezone", opt TString);
   ("is_enterprise_account", opt TBoolean); ("vertex_key_type", opt (TEnum ["json"; "api_key"]));
   ("aws_key_type", opt (TEnum ["ak_sk"; "api_key"])); ("azure_responses_version", opt TString);
   ("allow_service_tier", opt TBoolean); ("disable_store", opt TBoolean); ("allow_safety_identifier", opt TBoolean);
   ("allow_include_obfuscation", opt TBoolean); ("allow_inference_geo", opt TBoolean); ("allow_speed", opt TBoolean);
   ("claude_beta_query", opt TBoolean); ("auto_test_and_recover_enabled", opt TBoolean);
   ("upstream_model_update_check_enabled", opt TBoolean); ("upstream_model_update_auto_sync_enabled", opt TBoolean);
   ("upstream_model_update_ignored_models", opt TString)]%string.

Definition field_typed (form : object) (f : string * (bool * FieldType)) : bool :=
  match get form f.1 with
  | None => negb f.2.1
  | Some v => has_type f.2.2 v
  end.

(** A form with the declared types. *)
Definition typed (form : object) : bool := forallb (field_typed form) channelFormSchema.

(** The check of [upstream_param_override]. *)
Definition isOptionalOverride (value : option jsstr) : bool :=
  if negb (nonempty (trimmed_text value)) then true
  else match JSON_parse (default [] value) with Some parsed => isJsonObjectValue parsed | None => false end.

(** The refinements of the fields, with their messages. *)
Definition refinements : list (string * (option jsstr → bool) * string) :=
  [("model_mapping", isOptionalModelMapping, "Invalid model mapping");
   ("status_code_mapping", isOptionalStatusCodeMapping, "Status code mapping must use valid HTTP status codes");
   ("setting", isOptionalJsonObject, "Invalid JSON format"); ("param_override", isOptionalJsonObject, "Invalid JSON format");
   ("header_override", isOptionalJsonObject, "Invalid JSON format"); ("settings", isOptionalJsonObject, "Invalid JSON format");
   ("upstream_param_override", isOptionalOverride, "Must be a JSON object")]%string.

Definition refined (form : object) : bool := forallb (fun r => r.1.2 (text_of (get form r.1.1))) refinements.

(** [[a, b, …].includes(type)]. *)
Definition type_in (form : object) (types : list Z) : bool :=
  match get form "type" with Some (JNum x) => existsb (fun z => bool_decide (x = num_of_Z z)) types | _ => false end.
Definition is_type (form : object) (z : Z) : bool := type_in form [z].

(** [form[key] === name]. *)
Definition is_choice (form : object) (key name : string) : bool := bool_decide (text_of (get form key) = Some (js name)).

(** A field that is a nonempty text other than the one given. *)
Definition chosen_other (form : object) (key name : string) : bool :=
  truthy (get form key) && negb (is_choice form key name).

(** An issue of the form's own check: the field and the message. *)
Definition superRefine (data : object) : list (string * string) :=
  let blank key := negb (nonempty (trimmed_text (text_of (get data key)))) in
  let issue (b : bool) (path message : string) := if b then [(path, message)] else [] in
  issue (type_in data [3; 8; 36; 45]%Z && blank "base_url") "base_url" "Base URL is required for this channel type"
  ++ issue (type_in data [3; 18; 21; 39; 41; 49]%Z && blank "other") "other" "This channel type requires additional configuration"
  ++ issue (is_type data 57 && chosen_other data "multi_key_mode" "single") "multi_key_mode"
       "Codex channels do not support batch creation"
  ++ issue (is_type data 57 && negb (blank "key") && negb (isCodexCredential (text_of (get data "key")))) "key"
       "Codex credential must be a JSON object with access_token and account_id"
  ++ issue (is_type data 41 && is_choice data "vertex_key_type" "json" && negb (blank "key")
            && negb (isVertexJsonKey (text_of (get data "key")))) "key" "Vertex AI service account key must be valid JSON"
  ++ issue (is_type data 41 && is_choice data "vertex_key_type" "api_key" && chosen_other data "multi_key_mode" "single")
       "multi_key_mode" "Vertex AI API Key mode does not support batch creation".

(** The bounds of the schema: texts and lists that must not be empty, the length of
    the remark, and the numbers that must not be negative; an integer is a safe one. *)
Definition bounds : list (string * (object → bool)) :=
  [("name", fun form => nonempty (default [] (text_of (get form "name"))));
   ("models", fun form => nonempty (default [] (text_of (get form "models"))));
   ("group", fun form => match get form "group" with Some (JArr l) => nonempty l | _ => false end);
   ("remark", fun form => (length (default [] (text_of (get form "remark"))) <=? 255)%nat);
   ("type", fun form => match get form "type" with Some (JNum x) => num_leb (num_of_Z 0) x | _ => false end);
   ("channel_test_prompt_id", fun form =>
      match get form "channel_test_prompt_id" with
      | Some (JNum x) => num_is_integer x && num_leb (num_of_Z 0) x && num_leb x (num_of_Z (2 ^ 53 - 1))
      | _ => true
      end)]%string.

Definition bounded (form : object) : bool := forallb (fun b => b.2 form) bounds.

(** A form that passes validation. *)
Definition accepted (form : object) : bool :=
  typed form && refined form && bounded form && negb (nonempty (superRefine form)).
