(* ===== verification/ChannelTransform.v ===== *)
(** * The channel form: reading and writing a channel

    The transforms of features/channels/lib/channel-form.ts: the form's values for a
    channel of the server, and the payloads that create and update a channel. Part
    of a channel's configuration is stored as JSON text in its fields setting and
    settings. *)

From S2P Require Import Prelude JsNum Json NumText IntNum Records JsValue ModelMapping ChannelForm.
From Stdlib Require Import Floats.SpecFloat.

#[local] Open Scope js_scope.

(** ** Lists in texts *)

(** [text.split(',').map(trim).filter(nonempty)]. *)
Definition split_list_all (text : jsstr) : list jsstr := List.filter nonempty (map trim (split_char 44 text)).
Definition split_list (text : jsstr) : list jsstr := if negb (nonempty text) then [] else split_list_all text.

Definition parseModels (models : jsstr) : list jsstr := split_list models.
Definition parseGroups (groups : jsstr) : list jsstr := split_list groups.
Definition formatModels (models : list jsstr) : jsstr := join [44%N] models.
Definition formatGroups (groups : list jsstr) : jsstr := join [44%N] groups.

Definition validateJSON (value : jsstr) : bool :=
  if negb (nonempty value) || bool_decide (trim value = []) then true
  else match JSON_parse value with Some _ => true | None => false end.

Definition validateModelMapping (value : jsstr) : bool := (ModelMapping.validateModelMappingJson value).1.

(** ** Values of fields *)

(** [x === true] and [x !== false]. *)
Definition flag (v : option json) : json := JBool (is_true v).
Definition unless_false (v : option json) : json := JBool (negb (is_false v)).

(** [Number(x || d)]. *)
Definition number_or (v : option json) (d : Z) : json := JNum (Number_value (Some (orv v (JNum (num_of_Z d))))).

(** A member of the list, or the fallback. *)
Definition one_of (names : list string) (fallback : string) (v : option json) : json :=
  match v with Some x => if is_name names x then x else str fallback | None => str fallback end.

(** [typeof x === 'boolean' ? String(x) : 'auto']. *)
Definition tristate (v : option json) : json :=
  match v with Some (JBool b) => str (if b then "true" else "false") | _ => str "auto" end.

Definition num0 : json := JNum (num_of_Z 0).

Definition EXTRA_DEFAULTS : object := table
  [("responses_websocket", JBool false); ("force_format", JBool false); ("thinking_to_content", JBool false);
   ("proxy", JStr []); ("tls_insecure_skip_verify", JBool false); ("pass_through_body_enabled", JBool false);
   ("system_prompt", JStr []); ("system_prompt_override", JBool false); ("user_agent_id", num0);
   ("user_agent_override", JStr []); ("normalize_upstream_errors", JBool true); ("allow_model_protocol_override", JBool false);
   ("model_protocol_override_targets", JArr []); ("responses_function_call_arguments_format", str "auto");
   ("responses_compaction_capability", str "unknown"); ("responses_compaction_native_stream", JBool false);
   ("responses_compaction_continuation", JBool false); ("responses_compaction_route_fingerprint", JStr []);
   ("responses_compaction_model_capabilities", JObj []); ("anti_poison_profile", str "inherit");
   ("anti_poison_enabled", JBool true); ("anti_poison_answer_envelope", str "inherit");
   ("anti_poison_response_proof", str "inherit"); ("anti_poison_response_proof_enabled", JBool false);
   ("anti_poison_tool_call_guard", str "inherit"); ("anti_poison_opaque_scan", str "inherit");
   ("anti_poison_probe_before_every_request", JBool false); ("anti_poison_stream_mode", str "inherit");
   ("anti_poison_hard_failures_to_quarantine", num0); ("anti_poison_soft_failures_to_degrade", num0);
   ("anti_poison_failure_mode", str "inherit"); ("anti_poison_canary_echo_enabled", JBool false);
   ("anti_poison_shape_check_enabled", JBool true); ("requires_codex_identity", str "auto");
   ("responses_request_profile", str "auto"); ("responses_supports_max_output_tokens", str "auto");
   ("upstream_param_override", JStr []); ("supports_claude_thinking", str "auto"); ("auto_test_interval", num0);
   ("auto_test_retry_count", JNum (num_of_Z 2)); ("auto_test_retry_threshold", JNum (num_of_Z 2));
   ("auto_test_time_window_start", str "08:00"); ("auto_test_time_window_end", str "18:00");
   ("auto_test_timezone", str "Asia/Taipei")]%string.

(** The form of a new channel. *)
Definition CHANNEL_FORM_DEFAULT_VALUES_BASE : object := table
  [("name", JStr []); ("type", JNum (num_of_Z 1)); ("base_url", JStr []); ("key", JStr []); ("openai_organization", JStr []);
   ("models", JStr []); ("group", JArr [str "default"]); ("model_mapping", JStr ModelMapping.EMPTY_RULE_MAPPING);
   ("priority", num0); ("weight", num0); ("test_model", JStr []); ("channel_test_prompt_id", num0);
   ("auto_ban", JNum (num_of_Z 1)); ("status", JNum (num_of_Z 1)); ("status_code_mapping", JStr []); ("tag", JStr []);
   ("remark", JStr []); ("setting", JStr []); ("param_override", JStr []); ("header_override", JStr []); ("settings", str "{}");
   ("other", JStr []); ("multi_key_mode", str "single"); ("multi_key_type", str "random");
   ("batch_add_set_key_prefix_2_name", JBool false); ("key_mode", str "append")]%string.

(** The settings of the form that are read from the object in the field setting. *)
Definition extraTable (parsed : json) : list (string * json) :=
  let p := prop_of parsed in
  let compaction := p "responses_compaction"%string in
  let capability := prop_opt compaction "default_capability" in
  let or_text key d := orv (p key) (str d) in
  [("responses_websocket", flag (p "responses_websocket")); ("force_format", orv (p "force_format") (JBool false));
   ("thinking_to_content", orv (p "thinking_to_content") (JBool false)); ("proxy", orv (p "proxy") (JStr []));
   ("tls_insecure_skip_verify", flag (p "tls_insecure_skip_verify"));
   ("pass_through_body_enabled", orv (p "pass_through_body_enabled") (JBool false));
   ("system_prompt", orv (p "system_prompt") (JStr [])); ("system_prompt_override", orv (p "system_prompt_override") (JBool false));
   ("user_agent_id", number_or (p "user_agent_id") 0); ("user_agent_override", orv (p "user_agent_override") (JStr []));
   ("normalize_upstream_errors", unless_false (p "normalize_upstream_errors"));
   ("allow_model_protocol_override", flag (p "allow_model_protocol_override"));
   ("model_protocol_override_targets",
     match p "model_protocol_override_targets" with
     | Some (JArr l) => JArr (List.filter (is_name ["openai"; "openai-response"; "anthropic"]) l)
     | _ => JArr []
     end);
   ("responses_function_call_arguments_format", one_of ["string"; "object"] "auto" (p "responses_function_call_arguments_format"));
   ("responses_compaction_capability",
     one_of ["unknown"; "disabled"; "native_v2"; "legacy"; "native_v2_and_legacy"] "unknown" (prop_opt capability "capability"));
   ("responses_compaction_native_stream", flag (prop_opt capability "native_stream"));
   ("responses_compaction_continuation", flag (prop_opt capability "continuation"));
   ("responses_compaction_route_fingerprint", orv (prop_opt capability "route_fingerprint") (JStr []));
   ("responses_compaction_model_capabilities",
     match prop_opt compaction "model_capabilities" with
     | Some (JObj m) => JObj m
     | Some (JArr l) => JArr l
     | _ => JObj []
     end);
   ("anti_poison_profile", or_text "anti_poison_profile" "inherit");
   ("anti_poison_enabled", unless_false (p "anti_poison_enabled"));
   ("anti_poison_answer_envelope", or_text "anti_poison_answer_envelope" "inherit");
   ("anti_poison_response_proof", or_text "anti_poison_response_proof" "inherit");
   ("anti_poison_response_proof_enabled", flag (p "anti_poison_response_proof_enabled"));
   ("anti_poison_tool_call_guard", or_text "anti_poison_tool_call_guard" "inherit");
   ("anti_poison_opaque_scan", or_text "anti_poison_opaque_scan" "inherit");
   ("anti_poison_probe_before_every_request", flag (p "anti_poison_probe_before_every_request"));
   ("anti_poison_stream_mode", or_text "anti_poison_stream_mode" "inherit");
   ("anti_poison_hard_failures_to_quarantine", number_or (p "anti_poison_hard_failures_to_quarantine") 0);
   ("anti_poison_soft_failures_to_degrade", number_or (p "anti_poison_soft_failures_to_degrade") 0);
   ("anti_poison_failure_mode", or_text "anti_poison_failure_mode" "inherit");
   ("anti_poison_canary_echo_enabled", flag (p "anti_poison_canary_echo_enabled"));
   ("anti_poison_shape_check_enabled", unless_false (p "anti_poison_shape_check_enabled"));
   ("requires_codex_identity", tristate (p "requires_codex_identity"));
   ("responses_request_profile", or_text "responses_request_profile" "auto");
   ("responses_supports_max_output_tokens", tristate (p "responses_supports_max_output_tokens"));
   ("upstream_param_override",
     match p "upstream_param_override" with
     | Some v => if truthy (Some v) then JStr (stringify indent2 json_number 0 v) else JStr []
     | None => JStr []
     end);
   ("supports_claude_thinking", tristate (p "supports_claude_thinking"));
   ("auto_test_interval", number_or (p "auto_test_interval") 0); ("auto_test_retry_count", number_or (p "auto_test_retry_count") 2);
   ("auto_test_retry_threshold", number_or (p "auto_test_retry_threshold") 2);
   ("auto_test_time_window_start", or_text "auto_test_time_window_start" "08:00");
   ("auto_test_time_window_end", or_text "auto_test_time_window_end" "18:00");
   ("auto_test_timezone", or_text "auto_test_timezone" "Asia/Taipei")]%string.

Definition extraOf (parsed : json) : object := table (extraTable parsed).

(** [JSON.parse] of a field of the channel and the reads of its properties, in a
    [try]: a text that is not JSON and [null] leave the defaults. *)
Definition parsed_or (defaults : object) (reader : json → object) (text : option json) : object :=
  match text with
  | Some (JStr s) =>
      if negb (nonempty s) then defaults
      else match JSON_parse s with
           | None | Some JNull => defaults
           | Some parsed => reader parsed
           end
  | _ => defaults
  end.

Definition OTHER_DEFAULTS : object := table
  [("is_enterprise_account", JBool false); ("vertex_key_type", str "json"); ("azure_responses_version", JStr []);
   ("aws_key_type", str "ak_sk"); ("allow_service_tier", JBool false); ("disable_store", JBool false);
   ("allow_include_obfuscation", JBool false); ("allow_inference_geo", JBool false); ("allow_speed", JBool false);
   ("claude_beta_query", JBool false); ("auto_test_and_recover_enabled", JBool true); ("allow_safety_identifier", JBool false);
   ("upstream_model_update_check_enabled", JBool false); ("upstream_model_update_auto_sync_enabled", JBool false);
   ("upstream_model_update_ignored_models", JStr [])]%string.

(** The rest of a new form has the same values as a form without settings. *)
Definition CHANNEL_FORM_DEFAULT_VALUES : object := CHANNEL_FORM_DEFAULT_VALUES_BASE ++ EXTRA_DEFAULTS ++ OTHER_DEFAULTS.

(** The settings of the form that are read from the object in the field settings. *)
Definition otherTable (parsed : json) : list (string * json) :=
  let p := prop_of parsed in
  [("is_enterprise_account", flag (p "openrouter_enterprise")); ("vertex_key_type", orv (p "vertex_key_type") (str "json"));
   ("azure_responses_version", orv (p "azure_responses_version") (JStr [])); ("aws_key_type", orv (p "aws_key_type") (str "ak_sk"));
   ("allow_service_tier", flag (p "allow_service_tier")); ("disable_store", flag (p "disable_store"));
   ("allow_include_obfuscation", flag (p "allow_include_obfuscation")); ("allow_inference_geo", flag (p "allow_inference_geo"));
   ("allow_speed", flag (p "allow_speed")); ("claude_beta_query", flag (p "claude_beta_query"));
   ("auto_test_and_recover_enabled", JBool (negb (is_true (p "auto_test_and_recover_disabled"))));
   ("allow_safety_identifier", flag (p "allow_safety_identifier"));
   ("upstream_model_update_check_enabled", flag (p "upstream_model_update_check_enabled"));
   ("upstream_model_update_auto_sync_enabled", flag (p "upstream_model_update_auto_sync_enabled"));
   ("upstream_model_update_ignored_models",
     match p "upstream_model_update_ignored_models" with Some (JArr l) => JStr (to_text (JArr l)) | _ => JStr [] end)]%string.

Definition otherOf (parsed : json) : object := table (otherTable parsed).

(** The fields of the form that are fields of the channel. *)
Definition baseTable (channel : object) : list (string * option json) :=
  let c := get channel in
  let text key := Some (orv (c key) (JStr [])) in
  [("name", text "name"); ("type", c "type"); ("base_url", text "base_url"); ("key", Some (JStr []));
   ("openai_organization", text "openai_organization"); ("models", text "models");
   ("group", Some (JArr (map JStr (parseGroups (match orv (c "group") (str "default") with JStr s => s | _ => [] end)))));
   ("model_mapping", text "model_mapping"); ("priority", Some (orv (c "priority") num0)); ("weight", Some (orv (c "weight") num0));
   ("test_model", text "test_model"); ("channel_test_prompt_id", Some (nullish (c "channel_test_prompt_id") num0));
   ("auto_ban", Some (nullish (c "auto_ban") (JNum (num_of_Z 1)))); ("status", c "status");
   ("status_code_mapping", text "status_code_mapping"); ("tag", text "tag"); ("remark", text "remark");
   ("setting", text "setting"); ("param_override", text "param_override"); ("header_override", text "header_override");
   ("settings", Some (orv (c "settings") (str "{}"))); ("other", text "other"); ("multi_key_mode", Some (str "single"));
   ("multi_key_type", Some (orv (prop_opt (c "channel_info") "multi_key_mode") (str "random")));
   ("batch_add_set_key_prefix_2_name", Some (JBool false)); ("key_mode", Some (str "append"))]%string.

Definition transformChannelToFormDefaults (channel : object) : object :=
  present (table (baseTable channel))
  ++ parsed_or EXTRA_DEFAULTS extraOf (get channel "setting")
  ++ parsed_or OTHER_DEFAULTS otherOf (get channel "settings").

(** ** Writing *)

(** A field that is stored when it is a choice other than inherit. *)
Definition unless_inherit (v : option json) : option json :=
  match v with
  | Some (JStr s) => if nonempty s && negb (bool_decide (s = js "inherit")) then Some (JStr s) else None
  | _ => None
  end.

(** [true] and [false] of a three-way choice; nothing for the rest. *)
Definition choice_flag (v : option json) : option json :=
  match v with
  | Some (JStr s) => if bool_decide (s = js "true") then Some (JBool true)
                     else if bool_decide (s = js "false") then Some (JBool false) else None
  | _ => None
  end.

(** A counter that is stored when it is positive. *)
Definition positive_number (v : option json) : option json :=
  let x := Number_value (Some (orv v num0)) in
  opt_prop (num_pos x) (JNum x).

Definition true_prop (v : option json) : option json := opt_prop (is_true v) (JBool true).

(** The object stored in the field setting; an override is given as parsed. *)
Definition settingTable (formData : object) (override : option json) : list (string * option json) :=
  let f := get formData in
  let allowed := negb (is_type formData 57) && is_true (f "allow_model_protocol_override"%string) in
  let trimmed key := trim (default [] (text_of (f key))) in
  let text key d := orv (f key) (str d) in
  [("responses_websocket", Some (flag (f "responses_websocket"))); ("force_format", Some (orv (f "force_format") (JBool false)));
   ("thinking_to_content", Some (orv (f "thinking_to_content") (JBool false))); ("proxy", Some (orv (f "proxy") (JStr [])));
   ("tls_insecure_skip_verify", Some (flag (f "tls_insecure_skip_verify")));
   ("pass_through_body_enabled", Some (orv (f "pass_through_body_enabled") (JBool false)));
   ("system_prompt", Some (orv (f "system_prompt") (JStr [])));
   ("system_prompt_override", Some (orv (f "system_prompt_override") (JBool false)));
   ("user_agent_id", opt_prop (truthy (f "user_agent_id")) (JNum (Number_value (f "user_agent_id"))));
   ("user_agent_override", Some (orv (f "user_agent_override") (JStr [])));
   ("normalize_upstream_errors", Some (unless_false (f "normalize_upstream_errors")));
   ("allow_model_protocol_override", Some (JBool allowed));
   ("model_protocol_override_targets", Some (if allowed then orv (f "model_protocol_override_targets") (JArr []) else JArr []));
   ("responses_function_call_arguments_format", Some (text "responses_function_call_arguments_format" "auto"));
   ("responses_compaction", Some (JObj (present (table
      [("default_capability", Some (JObj (present (table
          [("capability", Some (text "responses_compaction_capability" "unknown"));
           ("native_stream", Some (flag (f "responses_compaction_native_stream")));
           ("continuation", Some (flag (f "responses_compaction_continuation")));
           ("route_fingerprint", opt_prop (nonempty (trimmed "responses_compaction_route_fingerprint"))
              (JStr (trimmed "responses_compaction_route_fingerprint")))]))));
       ("model_capabilities", Some (orv (f "responses_compaction_model_capabilities") (JObj [])))]))));
   ("anti_poison_enabled", Some (unless_false (f "anti_poison_enabled")));
   ("anti_poison_shape_check_enabled", Some (flag (f "anti_poison_shape_check_enabled")));
   ("auto_test_interval", Some (number_or (f "auto_test_interval") 0));
   ("auto_test_retry_count", Some (number_or (f "auto_test_retry_count") 2));
   ("auto_test_retry_threshold", Some (number_or (f "auto_test_retry_threshold") 2));
   ("auto_test_time_window_start", Some (text "auto_test_time_window_start" "08:00"));
   ("auto_test_time_window_end", Some (text "auto_test_time_window_end" "18:00"));
   ("auto_test_timezone", Some (text "auto_test_timezone" "Asia/Taipei"));
   ("supports_claude_thinking", choice_flag (f "supports_claude_thinking"));
   ("requires_codex_identity", choice_flag (f "requires_codex_identity"));
   ("responses_request_profile", Some (text "responses_request_profile" "auto"));
   ("responses_supports_max_output_tokens",
     match text_of (f "responses_supports_max_output_tokens") with
     | Some s => opt_prop (negb (bool_decide (s = js "auto"))) (JBool (bool_decide (s = js "true")))
     | None => None
     end);
   ("upstream_param_override", override);
   ("anti_poison_response_proof_enabled", true_prop (f "anti_poison_response_proof_enabled"));
   ("anti_poison_canary_echo_enabled", true_prop (f "anti_poison_canary_echo_enabled"));
   ("anti_poison_profile", unless_inherit (f "anti_poison_profile"));
   ("anti_poison_answer_envelope", unless_inherit (f "anti_poison_answer_envelope"));
   ("anti_poison_response_proof", unless_inherit (f "anti_poison_response_proof"));
   ("anti_poison_tool_call_guard", unless_inherit (f "anti_poison_tool_call_guard"));
   ("anti_poison_opaque_scan", unless_inherit (f "anti_poison_opaque_scan"));
   ("anti_poison_probe_before_every_request", true_prop (f "anti_poison_probe_before_every_request"));
   ("anti_poison_stream_mode", unless_inherit (f "anti_poison_stream_mode"));
   ("anti_poison_hard_failures_to_quarantine", positive_number (f "anti_poison_hard_failures_to_quarantine"));
   ("anti_poison_soft_failures_to_degrade", positive_number (f "anti_poison_soft_failures_to_degrade"));
   ("anti_poison_failure_mode", unless_inherit (f "anti_poison_failure_mode"))]%string.

Definition settingObj (formData : object) (override : option json) : object :=
  present (table (settingTable formData override)).

Definition buildSettingJSON (formData : object) : res jsstr :=
  let override := default [] (text_of (get formData "upstream_param_override")) in
  if nonempty (trim override) then
    match JSON_parse override with
    | Some parsed => Ok (JSON_stringify (JObj (settingObj formData (Some parsed))))
    | None => Throw (js "SyntaxError")
    end
  else Ok (JSON_stringify (JObj (settingObj formData None))).

(** ** The field settings *)

(** [o.key = v], or [delete o.key] when there is nothing to store. *)
Definition put (key : string) (v : option json) (o : object) : object :=
  match v with
  | Some x => map_set (js key) x o
  | None => obj_delete (js key) o
  end.

(** [o.key = v] when [b]; otherwise the object is left alone. *)
Definition put_if (b : bool) (key : string) (v : json) (o : object) : object := if b then put key (Some v) o else o.

Definition MODEL_FETCHABLE_TYPES : list Z := [1; 4; 14; 17; 20; 23; 24; 25; 26; 27; 31; 34; 35; 40; 42; 43; 47; 48]%Z.

Definition is_array (v : option json) : bool := match v with Some (JArr _) => true | _ => false end.
Definition is_number (v : option json) : bool := match v with Some (JNum _) => true | _ => false end.

(** The settings of upstream model updates, for types whose models can be fetched. *)
Definition putUpdates (formData o : object) : object :=
  let f := get formData in
  let check := is_true (f "upstream_model_update_check_enabled"%string) in
  let o := put "upstream_model_update_check_enabled" (Some (JBool check)) o in
  let o := put "upstream_model_update_auto_sync_enabled"
             (Some (JBool (check && is_true (f "upstream_model_update_auto_sync_enabled"%string)))) o in
  let ignored := split_list_all (match orv (f "upstream_model_update_ignored_models"%string) (JStr []) with JStr s => s | _ => [] end) in
  let o := put "upstream_model_update_ignored_models" (Some (JArr (map JStr (set_of ignored)))) o in
  let o := put_if (negb (is_array (get o "upstream_model_update_last_detected_models")) || negb check)
             "upstream_model_update_last_detected_models" (JArr []) o in
  put_if (negb (is_number (get o "upstream_model_update_last_check_time"))) "upstream_model_update_last_check_time" num0 o.

(** The stored object after the form's values are put in. *)
Definition settingsObj (formData o : object) : object :=
  let f := get formData in
  let when (b : bool) (v : json) := opt_prop b v in
  let t := is_type formData in
  let o := put "vertex_key_type" (when (t 41%Z) (orv (f "vertex_key_type"%string) (str "json"))) o in
  let o := put "azure_responses_version"
             (when (t 3%Z && truthy (f "azure_responses_version"%string)) (orv (f "azure_responses_version"%string) (JStr []))) o in
  let o := put "openrouter_enterprise" (when (t 20%Z) (flag (f "is_enterprise_account"%string))) o in
  let o := put "aws_key_type" (when (t 33%Z) (orv (f "aws_key_type"%string) (str "ak_sk"))) o in
  let o := put "allow_service_tier" (when (t 1%Z || t 14%Z) (flag (f "allow_service_tier"%string))) o in
  let o := put "disable_store" (when (t 1%Z) (flag (f "disable_store"%string))) o in
  let o := put "allow_safety_identifier" (when (t 1%Z) (flag (f "allow_safety_identifier"%string))) o in
  let o := put "allow_include_obfuscation" (when (t 1%Z) (flag (f "allow_include_obfuscation"%string))) o in
  let o := put "allow_inference_geo" (when (t 1%Z || t 14%Z) (flag (f "allow_inference_geo"%string))) o in
  let o := put "allow_speed" (when (t 14%Z) (flag (f "allow_speed"%string))) o in
  let o := put "claude_beta_query" (when (t 14%Z) (flag (f "claude_beta_query"%string))) o in
  let o := put "auto_test_and_recover_disabled" (Some (JBool (is_false (f "auto_test_and_recover_enabled"%string)))) o in
  if type_in formData MODEL_FETCHABLE_TYPES then putUpdates formData o else o.

(** What is parsed of the field settings; a text that is not JSON counts as the
    empty object. *)
Definition parsedSettings (formData : object) : json :=
  match get formData "settings" with
  | Some (JStr s) =>
      if nonempty s && negb (bool_decide (s = js "{}")) then default (JObj []) (JSON_parse s) else JObj []
  | _ => JObj []
  end.

(** Properties put on an array are not printed; on [null] and on the primitives the
    operator [in] and the assignments throw. *)
Definition buildSettingsJSON (formData : object) : res jsstr :=
  match parsedSettings formData with
  | JObj o => Ok (JSON_stringify (JObj (settingsObj formData o)))
  | JArr l => Ok (JSON_stringify (JArr l))
  | _ => Throw (js "TypeError")
  end.

(** ** Payloads *)

(** [.trim().replace(/\/+$/, '')]. *)
Fixpoint drop_slashes (s : jsstr) : jsstr :=
  match s with 47%N :: s' => drop_slashes s' | _ => s end.
Definition normalizeBaseUrl (value : option json) : jsstr :=
  reverse (drop_slashes (reverse (trim (match orv value (JStr []) with JStr s => s | _ => [] end)))).

(** A payload, with the properties that are [undefined]. *)
Notation payload := (list (jsstr * option json)).

(** [x || null]. *)
Definition or_null (v : option json) : option json := Some (orv v JNull).

(** Empty texts become [null]. *)
Definition cleanEmpty (p : payload) : payload :=
  map (fun kv => match kv.2 with Some (JStr []) => (kv.1, Some JNull) | _ => kv end) p.

Definition groups_of (v : option json) : list jsstr :=
  match v with Some (JArr l) => omap (fun j => text_of (Some j)) l | _ => [] end.

Inductive AddMode := Single | Batch | MultiToSingle.

Definition add_mode (v : option json) : AddMode :=
  match text_of v with
  | Some s => if bool_decide (s = js "batch") then Batch else if bool_decide (s = js "multi_to_single") then MultiToSingle else Single
  | None => Single
  end.

Record CreatePayload := mkCreate {
  cp_mode : AddMode; cp_multi_key_mode : option json; cp_prefix : option json; cp_channel : payload
}.

Definition transformFormDataToCreatePayload (formData : object) : res CreatePayload :=
  let f := get formData in
  let! setting := buildSettingJSON formData in
  let! settings := buildSettingsJSON formData in
  let mode := add_mode (f "multi_key_mode"%string) in
  let base := normalizeBaseUrl (f "base_url"%string) in
  Ok (mkCreate mode
    (match mode with MultiToSingle => f "multi_key_type"%string | _ => None end)
    (match mode with Batch => f "batch_add_set_key_prefix_2_name"%string | _ => None end)
    (cleanEmpty (table
    [("name", f "name"); ("type", f "type"); ("base_url", or_null (Some (JStr base))); ("key", f "key");
     ("openai_organization", or_null (f "openai_organization")); ("models", f "models");
     ("group", Some (JStr (formatGroups (groups_of (f "group"))))); ("model_mapping", or_null (f "model_mapping"));
     ("priority", or_null (f "priority")); ("weight", or_null (f "weight")); ("test_model", or_null (f "test_model"));
     ("channel_test_prompt_id", Some (nullish (f "channel_test_prompt_id") num0));
     ("auto_ban", Some (nullish (f "auto_ban") (JNum (num_of_Z 1)))); ("status", f "status");
     ("status_code_mapping", or_null (f "status_code_mapping")); ("tag", or_null (f "tag"));
     ("remark", Some (orv (f "remark") (JStr []))); ("setting", Some (JStr setting)); ("param_override", or_null (f "param_override"));
     ("header_override", or_null (f "header_override")); ("settings", Some (JStr settings));
     ("other", Some (orv (f "other") (JStr [])))]%string))).

(** The properties of an update before the empty texts are cleaned up. *)
Definition updateTable (formData : object) (channelId : num) (setting settings : jsstr) : list (string * option json) :=
  let f := get formData in
  let base := normalizeBaseUrl (f "base_url"%string) in
    [("id", Some (JNum channelId)); ("name", f "name"); ("type", f "type"); ("base_url", or_null (Some (JStr base)));
     ("openai_organization", or_null (f "openai_organization")); ("models", f "models");
     ("group", Some (JStr (formatGroups (groups_of (f "group"))))); ("model_mapping", or_null (f "model_mapping"));
     ("priority", Some (nullish (f "priority") num0)); ("weight", Some (nullish (f "weight") num0));
     ("test_model", or_null (f "test_model")); ("channel_test_prompt_id", Some (nullish (f "channel_test_prompt_id") num0));
     ("auto_ban", Some (nullish (f "auto_ban") (JNum (num_of_Z 1)))); ("status", f "status");
     ("status_code_mapping", or_null (f "status_code_mapping")); ("tag", or_null (f "tag"));
     ("remark", Some (orv (f "remark") (JStr []))); ("setting", Some (JStr setting)); ("param_override", or_null (f "param_override"));
     ("header_override", or_null (f "header_override")); ("settings", Some (JStr settings));
     ("other", Some (orv (f "other") (JStr [])))]%string.

(** The properties that are sent as empty texts, so that the server clears them. *)
Definition clearedTable (formData : object) : list (string * option json) :=
  let f := get formData in
  let base := normalizeBaseUrl (f "base_url"%string) in
  let text key := Some (orv (f key) (JStr [])) in
    [("base_url", Some (JStr base)); ("openai_organization", text "openai_organization"); ("test_model", text "test_model");
     ("tag", text "tag"); ("remark", text "remark"); ("model_mapping", text "model_mapping");
     ("status_code_mapping", text "status_code_mapping"); ("param_override", text "param_override");
     ("header_override", text "header_override")]%string.

(** The key is sent only when one was entered. *)
Definition keyProp (formData : object) : payload :=
  match get formData "key" with
  | Some (JStr s) => if nonempty (trim s) then [(js "key", Some (JStr s))] else []
  | _ => []
  end.

Definition transformFormDataToUpdatePayload (formData : object) (channelId : num) : res payload :=
  let! setting := buildSettingJSON formData in
  let! settings := buildSettingsJSON formData in
  Ok (foldl (fun p kv => map_set (js kv.1) kv.2 p)
        (cleanEmpty (table (updateTable formData channelId setting settings) ++ keyProp formData)) (clearedTable formData)).
