(* ===== verification/ChannelUtils.v ===== *)
(** * Channel helpers

    The helpers of features/channels/lib/channel-utils.ts that the channel list and
    the channel form share: masking of keys, lists in texts, checks, the rows of the
    list grouped by tag, and the removal of repeated keys. *)

From S2P Require Import Prelude JsNum Json NumText IntNum JsValue ChannelForm ChannelTransform.
From Stdlib Require Import Floats.SpecFloat.

#[local] Open Scope js_scope.

(** ** Channels *)

Record ChannelInfo := mkInfo {
  is_multi_key : bool; multi_key_size : num; multi_key_status_list : option (list (jsstr * num))
}.

(** A channel of the list. A property that is [null] or missing is [None]; the
    properties that the helpers do not name are kept in [ch_rest]. *)
Record Channel := mkChannel {
  ch_id : json; ch_key : jsstr; ch_tag : option jsstr; ch_name : jsstr; ch_type : num; ch_status : option num;
  ch_group : jsstr; used_quota : num; response_time : num; ch_priority : option num; ch_weight : option num;
  balance : num; test_time : num; created_time : num; balance_updated_time : num; ch_models : jsstr;
  channel_info : option ChannelInfo; ch_rest : object
}.

(** [a === b] for a number or [null]. *)
Definition same_num (a b : option num) : bool :=
  match a, b with
  | Some x, Some y => num_eqb x y
  | None, None => true
  | _, _ => false
  end.

Definition is_num (v : option num) (z : Z) : bool := same_num v (Some (num_of_Z z)).


Definition isMultiKeyChannel (channel : Channel) : bool :=
  match channel_info channel with Some i => is_multi_key i | None => false end.

(** ** Keys *)

(** [s.slice(-n)] for a positive [n]. *)
Definition slice_last (n : nat) (s : jsstr) : jsstr := drop (length s - n) s.

(** The lines that are not blank. *)
Definition key_lines (key : jsstr) : list jsstr := List.filter (fun k => nonempty (trim k)) (split_char 10 key).

Definition formatChannelKey (key : jsstr) (isMultiKey : bool) : jsstr :=
  if negb (nonempty key) then []
  else if isMultiKey then print_N (N.of_nat (length (key_lines key))) ++ js " keys"
  else if (length key <=? 16)%nat then take 4 key ++ js "..." ++ slice_last 4 key
  else take 8 key ++ js "..." ++ slice_last 8 key.

Definition formatKeyPreview (key : jsstr) (maxLength : nat) : jsstr :=
  if negb (nonempty key) then []
  else if (length key <=? maxLength)%nat then key
  else take maxLength key ++ js "...".

Definition countKeys (key : jsstr) : nat := if negb (nonempty key) then 0 else length (key_lines key).

Record Deduplicated := mkDedup { deduplicatedText : jsstr; beforeCount : Z; afterCount : Z; removedCount : Z }.

(** One line: [keySet] and [deduplicatedKeys] hold the same keys. *)
Definition keepKey (keys : list jsstr) (line : jsstr) : list jsstr :=
  let trimmedLine := trim line in
  if nonempty trimmedLine && negb (set_has trimmedLine keys) then keys ++ [trimmedLine] else keys.

Definition deduplicateKeys (keysText : jsstr) : Deduplicated :=
  if negb (nonempty keysText) || bool_decide (trim keysText = []) then mkDedup [] 0 0 0
  else
    let keyLines := split_char 10 keysText in
    let deduplicatedKeys := foldl keepKey [] keyLines in
    let before := Z.of_nat (length keyLines) in
    let after := Z.of_nat (length deduplicatedKeys) in
    mkDedup (join [10%N] deduplicatedKeys) before after (before - after).

(** ** Lists and settings in texts *)

Definition parseModelsList (models : jsstr) : list jsstr := split_list models.

Section Locale.
(** The order of texts in the user's language. *)
Variable localeCompare : jsstr → jsstr → Z.

Definition compareGroups (a b : jsstr) : Z :=
  if bool_decide (a = js "Free") then (-1)%Z
  else if bool_decide (b = js "Free") then 1%Z
  else localeCompare a b.

Definition parseGroupsList (groups : jsstr) : list jsstr :=
  if negb (nonempty groups) then [] else sort_by compareGroups (split_list_all groups).

Definition validateGroups (groups : jsstr) : bool := nonempty (parseGroupsList groups).
End Locale.

Definition formatModelsString (models : list jsstr) : jsstr := join [44%N] models.
Definition formatGroupsString (groups : list jsstr) : jsstr := join [44%N] groups.

(** A text that is not JSON counts as the empty object. *)
Definition parseChannelSettings (settingStr : option jsstr) : json :=
  match settingStr with
  | Some s => if nonempty s then default (JObj []) (JSON_parse s) else JObj []
  | None => JObj []
  end.

Definition parseChannelOtherSettings (settingsStr : option jsstr) : json :=
  match settingsStr with
  | Some s => if nonempty s && negb (bool_decide (s = js "{}")) then default (JObj []) (JSON_parse s) else JObj []
  | None => JObj []
  end.

Definition validateChannelSettings (settings : jsstr) : bool := validateJSON settings.

Definition validateChannelName (name : jsstr) : bool := nonempty (trim name).
Definition validateApiKey (key : jsstr) : bool := nonempty (trim key).
Definition validateModels (models : jsstr) : bool := nonempty (parseModelsList models).

(** ** Display *)

Inductive Variant := VSuccess | VWarning | VDanger | VNeutral.

Definition getBalanceVariant (balance : num) : Variant :=
  if num_eqb balance (num_of_Z 0) then VNeutral
  else if num_ltb balance (num_of_Z 1) then VDanger
  else if num_ltb balance (num_of_Z 10) then VWarning
  else VSuccess.

Inductive Rating := EXCELLENT | GOOD | FAIR | POOR | UNKNOWN.

Definition RESPONSE_TIME_THRESHOLDS : list (Rating * Z) := [(EXCELLENT, 500); (GOOD, 1000); (FAIR, 2000); (POOR, 5000)]%Z.

Fixpoint rate (timeMs : num) (thresholds : list (Rating * Z)) : Rating :=
  match thresholds with
  | [] => POOR
  | (r, z) :: rest => if num_leb timeMs (num_of_Z z) then r else rate timeMs rest
  end.

Definition getResponseTimeConfig (timeMs : num) : Rating :=
  if num_eqb timeMs (num_of_Z 0) then UNKNOWN else rate timeMs RESPONSE_TIME_THRESHOLDS.

Definition getPriorityDisplay (priority : option num) : jsstr :=
  match priority with None => js "0" | Some x => Number_toString x end.
Definition getWeightDisplay (weight : option num) : jsstr :=
  match weight with None => js "0" | Some x => Number_toString x end.

(** ** Attention *)

Definition lowBalance (channel : Channel) : bool :=
  num_ltb (num_of_Z 0) (balance channel) && num_ltb (balance channel) (num_of_Z 1).

(** The list of key statuses has an entry for every key that is not enabled. *)
Definition allKeysDisabled (channel : Channel) : bool :=
  match channel_info channel with
  | Some i =>
      is_multi_key i && match multi_key_status_list i with
                        | Some l => num_leb (multi_key_size i) (num_of_Z (Z.of_nat (length l)))
                        | None => false
                        end
  | None => false
  end.

Definition channelNeedsAttention (channel : Channel) : bool :=
  if is_num (ch_status channel) 3 then true
  else if lowBalance channel then true
  else if allKeysDisabled channel then true
  else false.

Definition getAttentionReason (channel : Channel) : option string :=
  if is_num (ch_status channel) 3 then Some "Auto-disabled"%string
  else if lowBalance channel then Some "Low balance"%string
  else if allKeysDisabled channel then Some "All keys disabled"%string
  else None.

(** ** Rows grouped by tag *)

Record TagRow := mkTagRow { row : Channel; children : list Channel }.

(** [channel.tag || '']. *)
Definition tag_of (channel : Channel) : jsstr := default [] (ch_tag channel).

Definition minus_one : num := num_of_Z (-1).

Definition newTagRow (channel : Channel) : TagRow :=
  let tag := tag_of channel in
  let zero := num_of_Z 0 in
  mkTagRow
    (mkChannel (JStr tag) tag (Some tag) tag zero None [] zero zero (Some minus_one) (Some minus_one) zero zero zero zero []
       (channel_info channel) (ch_rest channel))
    [].

(** The common value, [-1] before the first child and [null] when children differ. *)
Definition common (so_far value : option num) : option num :=
  if same_num so_far (Some minus_one) then value
  else if negb (same_num so_far value) then None
  else so_far.

Definition addGroups (so_far group : jsstr) : jsstr :=
  if bool_decide (so_far = []) then group
  else
    let existingGroups := List.filter nonempty (split_char 44 so_far) in
    let newGroups := List.filter nonempty (split_char 44 group) in
    foldl (fun acc g => if set_has g existingGroups then acc else acc ++ [44%N] ++ g) so_far newGroups.

Definition addStatus (so_far status : option num) : option num :=
  if is_num status 1 then Some (num_of_Z 1)
  else match so_far with None => status | Some _ => so_far end.

Definition addChild (r : TagRow) (channel : Channel) : TagRow :=
  let c := row r in
  let kids := children r ++ [channel] in
  let childCount := Z.of_nat (length kids) in
  mkTagRow
    (mkChannel (ch_id c) (ch_key c) (ch_tag c) (ch_name c) (ch_type c)
       (addStatus (ch_status c) (ch_status channel))
       (addGroups (ch_group c) (ch_group channel))
       (num_add (used_quota c) (used_quota channel))
       (num_div (num_add (num_mul (response_time c) (num_of_Z (childCount - 1))) (response_time channel)) (num_of_Z childCount))
       (common (ch_priority c) (ch_priority channel))
       (common (ch_weight c) (ch_weight channel))
       (balance c) (test_time c) (created_time c) (balance_updated_time c) (ch_models c) (channel_info c) (ch_rest c))
    kids.

(** [tagMap.has(tag)]: the rows of the map are the rows of the result, which are
    updated in place. *)
Definition has_tag (tag : jsstr) (r : TagRow) : bool := bool_decide (tag_of (row r) = tag).

Definition aggregateStep (result : list TagRow) (channel : Channel) : list TagRow :=
  let tag := tag_of channel in
  let result := if existsb (has_tag tag) result then result else result ++ [newTagRow channel] in
  map (fun r => if has_tag tag r then addChild r channel else r) result.

Definition aggregateChannelsByTag (channels : list Channel) : list TagRow := foldl aggregateStep [] channels.

(** ** Tables *)

Definition TYPE_TO_ICON : list (Z * string) :=
  [(1, "OpenAI"); (6, "OpenAI"); (7, "OpenAI"); (8, "OpenAI"); (58, "NewAPI"); (3, "Azure"); (14, "Claude"); (24, "Gemini");
   (11, "Google"); (41, "Gemini"); (33, "Aws"); (39, "Cloudflare"); (15, "Baidu"); (46, "Baidu"); (16, "Zhipu"); (26, "Zhipu");
   (17, "Qwen"); (18, "Spark"); (23, "Hunyuan"); (19, "Ai360"); (25, "Moonshot"); (31, "Yi"); (35, "Minimax"); (45, "Volcengine");
   (4, "Ollama"); (27, "Perplexity"); (34, "Cohere"); (42, "Mistral"); (43, "DeepSeek"); (48, "XAI"); (49, "Coze");
   (40, "SiliconCloud"); (44, "OpenAI"); (20, "OpenRouter"); (50, "Kling"); (51, "Jimeng"); (52, "Vidu"); (55, "OpenAI");
   (54, "Doubao"); (56, "Replicate"); (37, "Dify"); (38, "Jina"); (22, "FastGPT"); (47, "Xinference"); (53, "OpenAI");
   (10, "OpenAI"); (21, "OpenAI"); (12, "OpenAI"); (13, "OpenAI"); (9, "OpenAI")]%Z%string.

Definition TYPE_TO_KEY_PROMPT : list (Z * string) :=
  [(15, "Format: APIKey|SecretKey"); (18, "Format: APPID|APISecret|APIKey");
   (22, "Format: APIKey-AppId, e.g., fastgpt-0sp2gtvfdgyi4k30jwlgwf1i-64f335d84283f05518e9e041");
   (23, "Format: AppId|SecretId|SecretKey"); (33, "Format: Ak|Sk|Region");
   (50, "Format: AccessKey|SecretKey (or just ApiKey if upstream is New API)"); (51, "Format: Access Key ID|Secret Access Key");
   (57, "Paste Codex OAuth JSON credential (access_token / refresh_token / account_id)")]%Z%string.

Definition lookup_type (type : Z) (l : list (Z * string)) : option string :=
  match List.find (fun kv => (kv.1 =? type)%Z) l with Some kv => Some kv.2 | None => None end.

Definition getChannelTypeIcon (type : Z) : string := default "OpenAI"%string (lookup_type type TYPE_TO_ICON).
Definition getKeyPromptForType (type : Z) : string :=
  default "Enter API key for this channel"%string (lookup_type type TYPE_TO_KEY_PROMPT).

Definition sample_channel (id : Z) (tag : string) (status quota : Z) (prio : option Z) (groups : string) : Channel :=
  mkChannel (JNum (num_of_Z id)) (js "k") (Some (js tag)) (js "c") (num_of_Z 1) (Some (num_of_Z status)) (js groups) (num_of_Z quota)
    (num_of_Z 100) (num_of_Z <$> prio) None (num_of_Z 0) (num_of_Z 0) (num_of_Z 0) (num_of_Z 0) (js "m") None [].

Example aggregate_demo :
  map (fun r => (tag_of (row r), length (children r), num_to_Z (used_quota (row r)), num_to_Z <$> ch_priority (row r),
                 num_to_Z <$> ch_status (row r), ch_group (row r)))
    (aggregateChannelsByTag [sample_channel 1 "a" 2 10 (Some 5%Z) "x,y"; sample_channel 2 "b" 3 1 (Some 5%Z) "x"; sample_channel 3 "a" 1 7 (Some 6%Z) "y,z"])
  = [(js "a", 2%nat, 17%Z, None, Some 1%Z, js "x,y,z"); (js "b", 1%nat, 1%Z, Some 5%Z, Some 3%Z, js "x")].
Proof. vm_compute. reflexivity. Qed.

Example dedup_demo :
  deduplicateKeys (js "k1" ++ [10; 32]%N ++ js "k1" ++ [10; 10]%N ++ js "k2") = mkDedup (js "k1" ++ [10%N] ++ js "k2") 4 2 2.
Proof. vm_compute. reflexivity. Qed.

(** ** Keys: laws *)

Lemma foldl_keepKey lines keys :
  foldl keepKey keys lines = foldl set_add keys (List.filter nonempty (map trim lines)).
Proof.
  revert keys. induction lines as [|l lines IH]; intros keys; [done|]. cbn [foldl map List.filter]. rewrite IH.
  unfold keepKey. destruct (nonempty (trim l)) eqn:E; cbn [andb]; [|done]. cbn [foldl]. unfold set_add, set_has.
  case_bool_decide; cbn [negb]; [by rewrite decide_True|by rewrite decide_False].
Qed.

(** The distinct keys of a text, trimmed, in the order of their first lines. *)
Definition keys_of (text : jsstr) : list jsstr := set_of (List.filter nonempty (map trim (split_char 10 text))).

Lemma keys_of_blank text : trim text = [] → keys_of text = [].
Proof.
  intros H. unfold keys_of. replace (List.filter nonempty (map trim (split_char 10 text))) with (@nil jsstr); [done|].
  symmetry. destruct (List.filter _ _) as [|k l] eqn:E; [done|].
  assert (Hk : k ∈ List.filter nonempty (map trim (split_char 10 text))) by (rewrite E; set_solver).
  apply elem_of_List_filter in Hk as [Hk Hn]. apply list_elem_of_fmap in Hk as (seg & -> & Hseg).
  destruct (trim seg) as [|c r] eqn:Et; [done|]. assert (Hc : c ∈ trim seg) by (rewrite Et; set_solver).
  pose proof (trim_head seg c r Et) as Hw.
  assert (Hin : c ∈ text) by (eapply split_char_incl; [exact Hseg|by apply trim_elem_of]).
  pose proof (trim_not_blank text c Hin Hw) as Hb. by rewrite H in Hb.
Qed.

Lemma deduplicate_keys_of text :
  deduplicatedText (deduplicateKeys text) = join [10%N] (keys_of text)
  ∧ afterCount (deduplicateKeys text) = Z.of_nat (length (keys_of text)).
Proof.
  unfold deduplicateKeys. destruct (negb (nonempty text) || _) eqn:E.
  - assert (H : trim text = []).
    { destruct text; [done|]. cbn [nonempty negb orb] in E. by apply bool_decide_eq_true in E. }
    by rewrite (keys_of_blank text H).
  - cbn [deduplicatedText afterCount]. unfold keys_of, set_of. by rewrite foldl_keepKey.
Qed.

(** The lines of a text whose lines are distinct keys. *)
Lemma keys_of_join keys :
  NoDup keys → Forall (fun k => 10%N ∉ k ∧ trim k = k ∧ k ≠ []) keys →
  keys_of (join [10%N] keys) = keys ∧ (keys ≠ [] → trim (join [10%N] keys) ≠ [] ∧ split_char 10 (join [10%N] keys) = keys).
Proof.
  intros Hd Hk. destruct (decide (keys = [])) as [->|Hne]; [done|].
  assert (Hs : split_char 10 (join [10%N] keys) = keys).
  { apply split_char_join; [done|]. eapply Forall_impl; [exact Hk|]. naive_solver. }
  assert (Hm : List.filter nonempty (map trim keys) = keys).
  { clear Hd Hs Hne. induction Hk as [|k keys (H1 & H2 & H3) Hk IH]; [done|]. cbn [map List.filter]. rewrite H2.
    destruct k; [done|]. cbn [nonempty]. by rewrite IH. }
  assert (Hkk : keys_of (join [10%N] keys) = keys) by (unfold keys_of; rewrite Hs, Hm; by apply set_of_id).
  split; [done|]. intros _. split; [|done]. intros Hb. apply keys_of_blank in Hb. congruence.
Qed.

Lemma keys_of_lines text : NoDup (keys_of text) ∧ Forall (fun k => 10%N ∉ k ∧ trim k = k ∧ k ≠ []) (keys_of text).
Proof.
  split; [apply NoDup_set_of|]. apply Forall_forall. intros k Hk. apply elem_of_set_of, elem_of_List_filter in Hk as [Hk Hn].
  apply list_elem_of_fmap in Hk as (seg & -> & Hseg). split_and!.
  - intros Hin%trim_elem_of. pose proof (split_char_segment_fresh 10 text) as Hf. rewrite Forall_forall in Hf. by apply (Hf seg).
  - apply trim_idem.
  - by destruct (trim seg).
Qed.

(** Removing repeated keys keeps each key once, trimmed and in the order of its first
    line, reports how many it kept, and leaves nothing to remove: the resulting text
    has exactly those keys as its lines and a second pass changes nothing. *)
Theorem dedup_exact text :
  let r := deduplicateKeys text in
  let keys := set_of (List.filter nonempty (map trim (split_char 10 text))) in
  deduplicatedText r = join [10%N] keys ∧ afterCount r = Z.of_nat (length keys)
  ∧ countKeys (deduplicatedText r) = length keys
  ∧ deduplicateKeys (deduplicatedText r) = mkDedup (deduplicatedText r) (afterCount r) (afterCount r) 0.
Proof.
  cbn zeta. change (set_of _) with (keys_of text). destruct (deduplicate_keys_of text) as [-> ->]. split_and!; [done|done|..];
    destruct (keys_of_lines text) as [Hd Hl]; destruct (keys_of_join _ Hd Hl) as [Hk Hj]; set (keys := keys_of text) in *; clearbody keys;
    destruct (decide (keys = [])) as [->|Hne]; try done; destruct (Hj Hne) as [Ht Hs].
  - unfold countKeys, key_lines. destruct (join [10%N] keys) eqn:E; [done|]. cbn [nonempty negb]. rewrite Hs. f_equal.
    clear -Hl. induction Hl as [|k l (_ & Hk & Hn) Hl IH]; [done|]. cbn [List.filter]. rewrite Hk. destruct k; [done|]. cbn [nonempty]. by rewrite IH.
  - unfold deduplicateKeys. destruct (join [10%N] keys) eqn:E; [done|]. cbn [nonempty negb orb].
    rewrite bool_decide_false by done. rewrite Hs, foldl_keepKey. unfold keys_of in Hk. rewrite Hs in Hk. unfold set_of in Hk. rewrite Hk, E.
    f_equal. lia.
Qed.

(** ** Rows: laws *)



Lemma tag_addChild r c : tag_of (row (addChild r c)) = tag_of (row r).
Proof. done. Qed.














(** A mixed pair of priorities is shown as the second one when the first is -1. *)
Theorem mixed_priority_shown (d : Z) :
  let row_of p q := head (map (fun r => ch_priority (row r)) (aggregateChannelsByTag
                      [sample_channel 1 "a" 1 0 (Some p) "x"; sample_channel 2 "a" 1 0 (Some q) "x"])) in
  row_of (-1)%Z d = Some (Some (num_of_Z d)).
Proof. reflexivity. Qed.

(** Groups that are new to a row are added as often as the channel names them. *)
Theorem repeated_group_shown : addGroups (js "a") (js "b,b") = js "a,b,b".
Proof. reflexivity. Qed.

(** A key of eight characters can be read off its masked form. *)
Theorem short_key_revealed key :
  length key = 8%nat → let shown := formatChannelKey key false in take 4 shown ++ slice_last 4 shown = key.
Proof.
  intros H. do 8 (destruct key as [|? key]; [done|]). by destruct key.
Qed.

(** The reason shown for a channel is there exactly when the channel is marked. *)
Theorem attention_has_reason c : channelNeedsAttention c = true ↔ is_Some (getAttentionReason c).
Proof.
  unfold channelNeedsAttention, getAttentionReason. destruct (is_num _ 3), (lowBalance c), (allKeysDisabled c);
    split; try done; intros [? [=]].
Qed.
