(* ===== verification/ChannelDrawer.v ===== *)
(** * The channel drawer

    The component ChannelMutateDrawer of
    features/channels/components/drawers/channel-mutate-drawer.tsx with the hook
    useChannelMutateForm: loading a channel into the form, the handlers that change
    the form, and submitting it. Submitting may ask two questions; while one is
    shown, and while the answer of the server is awaited, other events arrive. *)

From S2P Require Import Prelude JsNum Json NumText IntNum JsValue RiskGuard ModelMapping ChannelForm ChannelTransform ChannelUtils.
From Stdlib Require Import Floats.SpecFloat.

#[local] Open Scope js_scope.

(** ** The form library

    The form is kept by react-hook-form. [setValue] leaves the dirty state alone;
    [setDirty] is [setValue] with [shouldDirty], and what an input of the form does. *)
Class FormLib := {
  Form : Type;
  getValues : Form → object;
  defaultValues : Form → object;
  isDirty : Form → bool;
  dirtyField : Form → string → bool;
  reset : object → Form → Form;
  setValue : string → json → Form → Form;
  setDirty : string → json → Form → Form
}.

(** What its documentation promises. *)
Class FormLaws `{FormLib} : Prop := {
  reset_values v f : getValues (reset v f) = v;
  reset_defaults v f : defaultValues (reset v f) = v;
  reset_dirty v f : isDirty (reset v f) = false;
  reset_fields v f k : dirtyField (reset v f) k = false;
  setValue_values k v f : getValues (setValue k v f) = map_set (js k) v (getValues f);
  setValue_defaults k v f : defaultValues (setValue k v f) = defaultValues f;
  setValue_dirty k v f : isDirty (setValue k v f) = isDirty f;
  setDirty_values k v f : getValues (setDirty k v f) = map_set (js k) v (getValues f);
  setDirty_defaults k v f : defaultValues (setDirty k v f) = defaultValues f
}.

(** ** Values that the page derives from the form *)

(** [x || ''] for a text. *)
Definition text_or_empty (v : option json) : jsstr := match orv v (JStr []) with JStr s => s | _ => [] end.

(** [x?.trim()] in a condition. *)
Definition filled (v : option json) : bool := nonempty (trimmed_text (text_of v)).

Definition hasConfiguredOverrideValue (value : option json) : bool :=
  match value with
  | Some (JStr s) =>
      let trimmed := trim s in
      if negb (nonempty trimmed) || bool_decide (trimmed = js "null") then false
      else match JSON_parse trimmed with
           | None => true
           | Some JNull => false
           | Some (JArr l) => nonempty l
           | Some (JObj m) => nonempty m
           | Some _ => true
           end
  | _ => false
  end.

Definition hasAdvancedSettingsValues (values : object) : bool :=
  let v := get values in
  (hasConfiguredOverrideValue (v "param_override") || hasConfiguredOverrideValue (v "header_override")
   || filled (v "advanced_custom") || hasConfiguredOverrideValue (v "status_code_mapping") || filled (v "tag")
   || filled (v "remark") || truthy (v "priority") || truthy (v "weight") || filled (v "proxy") || filled (v "system_prompt")
   || truthy (v "force_format") || truthy (v "thinking_to_content") || truthy (v "pass_through_body_enabled")
   || truthy (v "system_prompt_override") || truthy (v "claude_beta_query")
   || truthy (v "upstream_model_update_check_enabled") || truthy (v "upstream_model_update_auto_sync_enabled")
   || filled (v "upstream_model_update_ignored_models"))%string.

Definition parseSettingsRecord (settings : option jsstr) : object :=
  match settings with
  | Some s =>
      if negb (nonempty (trim s)) then []
      else match JSON_parse s with Some (JObj m) => m | _ => [] end
  | None => []
  end.

(** The last time the models were checked and the models that were found. *)
Definition upstreamUpdateMeta (settings : option jsstr) : option json * list jsstr :=
  let s := parseSettingsRecord settings in
  (get s "upstream_model_update_last_check_time",
   match get s "upstream_model_update_last_detected_models" with
   | Some (JArr l) => set_of (List.filter nonempty (map (fun model => trim (text_or_default (Some model) [])) l))
   | _ => []
   end).

Inductive SectionStatus := SComplete | SConfigured | SError | SIdle.

Definition getCompletionStatus (hasErrors isComplete : bool) : SectionStatus :=
  if hasErrors then SError else if isComplete then SComplete else SIdle.

Definition getSectionStatusLabel (status : SectionStatus) : string :=
  match status with
  | SError => "Error"
  | SComplete | SConfigured => "Ready"
  | SIdle => "Incomplete"
  end%string.

Definition identityComplete (values : object) : bool :=
  filled (get values "name") && match get values "type" with Some (JNum x) => num_pos x | _ => false end.

Definition credentialsComplete (isEditing : bool) (values : object) : bool :=
  (isEditing || filled (get values "key"))
  && (negb (type_in values [3; 8; 36; 45]%Z) || filled (get values "base_url"))
  && (negb (type_in values [3; 18; 21; 39; 41; 49]%Z) || filled (get values "other")).

Definition modelsComplete (values : object) : bool :=
  nonempty (ModelMapping.parseModelsString (text_or_empty (get values "models")))
  && match get values "group" with Some (JArr l) => nonempty l | _ => false end.

Definition requiredCompletedCount (isEditing : bool) (values : object) : nat :=
  length (List.filter (fun b => b) [identityComplete values; credentialsComplete isEditing values; modelsComplete values]).

(** *** The sections of the advanced settings *)

Definition routingStrategyConfigured (values : object) : bool :=
  truthy (get values "priority") || truthy (get values "weight") || filled (get values "test_model")
  || match nullish (get values "auto_ban") (JNum (num_of_Z 1)) with JNum x => negb (num_eqb x (num_of_Z 1)) | _ => true end.

Definition internalNotesConfigured (values : object) : bool := filled (get values "tag") || filled (get values "remark").

Definition overrideRulesConfigured (values : object) : bool :=
  hasConfiguredOverrideValue (get values "status_code_mapping") || hasConfiguredOverrideValue (get values "param_override")
  || hasConfiguredOverrideValue (get values "header_override").

Definition extraSettingsConfigured (values : object) : bool :=
  let v := get values in
  (truthy (v "force_format") || truthy (v "thinking_to_content") || truthy (v "pass_through_body_enabled")
   || truthy (v "disable_task_polling_sleep") || filled (v "proxy") || filled (v "system_prompt")
   || truthy (v "system_prompt_override"))%string.

Definition fieldPassthroughConfigured (values : object) : bool :=
  let v := get values in
  if type_in values [1; 57]%Z then
    (truthy (v "allow_service_tier") || truthy (v "disable_store") || truthy (v "allow_safety_identifier")
     || truthy (v "allow_include_obfuscation") || truthy (v "allow_inference_geo"))%string
  else if is_type values 14 then
    (truthy (v "allow_service_tier") || truthy (v "allow_inference_geo") || truthy (v "allow_speed")
     || truthy (v "claude_beta_query"))%string
  else false.

Definition upstreamModelDetectionConfigured (values : object) : bool :=
  let v := get values in
  (truthy (v "upstream_model_update_check_enabled") || truthy (v "upstream_model_update_auto_sync_enabled")
   || filled (v "upstream_model_update_ignored_models"))%string.

Definition advancedConfigured (values : object) : bool :=
  routingStrategyConfigured values || internalNotesConfigured values || overrideRulesConfigured values
  || extraSettingsConfigured values || fieldPassthroughConfigured values || upstreamModelDetectionConfigured values.

(** The entries of the navigation, each with its mark. *)
Definition advancedNavChildren (values : object) : list (string * bool) :=
  [("channel-section-advanced-routing-strategy", routingStrategyConfigured values);
   ("channel-section-advanced-internal-notes", internalNotesConfigured values);
   ("channel-section-advanced-override-rules", overrideRulesConfigured values);
   ("channel-section-advanced-extra-settings", extraSettingsConfigured values)]%string
  ++ (if type_in values [1; 14; 57]%Z
      then [("channel-section-advanced-field-passthrough"%string, fieldPassthroughConfigured values)] else [])
  ++ (if type_in values MODEL_FETCHABLE_TYPES
      then [("channel-section-advanced-upstream-model-detection"%string, upstreamModelDetectionConfigured values)] else []).

(** *** The guardrail under the model mapping *)

Record ModelMappingGuardrail := mkGuardrail {
  invalidJson : bool; entries : list (jsstr * jsstr); missingSourceModels : list jsstr; exposedTargetModels : list jsstr
}.

Definition createEmptyModelMappingGuardrail : ModelMappingGuardrail := mkGuardrail false [] [] [].

(** [flatMap] over the sources; resolving one of them may throw. *)
Fixpoint guardrailEntries (config : ModelMapping.ModelMappingConfig) (sources : list jsstr) : res (list (jsstr * jsstr)) :=
  match sources with
  | [] => Ok []
  | source :: rest =>
      let! (targets, _) := ModelMapping.mappingCandidates config source 8192 in
      let! more := guardrailEntries config rest in
      Ok (map (fun target => (source, target)) targets ++ more)
  end.

Definition modelMappingGuardrail (currentModelMapping : option jsstr) (currentModelsArray : list jsstr) : ModelMappingGuardrail :=
  if negb (nonempty (trimmed_text currentModelMapping)) then createEmptyModelMappingGuardrail
  else
    match (let! parsed := ModelMapping.parseModelMappingConfig (default [] currentModelMapping) in
           guardrailEntries parsed (ModelMapping.mappingSources parsed)) with
    | Ok es =>
        mkGuardrail false es
          (set_of (map fst (List.filter (fun e => nonempty e.1 && negb (set_has e.1 currentModelsArray)) es)))
          (set_of (map snd (List.filter (fun e => nonempty e.2 && set_has e.2 currentModelsArray) es)))
    | Throw _ => mkGuardrail true [] [] []
    end.
