(* ===== verification/ChannelSubmit.v ===== *)
(** * The channel drawer: state and submission

    The state of the drawer, the effect that loads a channel into the form, the
    handlers that change the form, the submit handler with its two questions, and
    the mutation that sends the request and reports its outcome. *)

From S2P Require Import Prelude JsNum Json NumText IntNum JsValue RiskGuard ModelMapping ChannelForm ChannelTransform ChannelUtils ChannelDrawer.
From Stdlib Require Import Floats.SpecFloat.

#[local] Open Scope js_scope.

(** ** Errors of requests *)

(** An error that was thrown: an [ApiBusinessError] with its message, or another value,
    which may be an [Error]. *)
Inductive ApiError := BusinessError (message : jsstr) | OtherError (isError : bool) (value : json).

Definition isRecordValue (v : option json) : bool := match v with Some (JObj _) | Some (JArr _) => true | _ => false end.

(** [isRecord(v) ? v : undefined]. *)
Definition record_of (v : option json) : option json := if isRecordValue v then v else None.

(** [a ?? b]. *)
Definition first_of (a b : option json) : option json := match a with None | Some JNull => b | _ => a end.

Definition error_value (error : ApiError) : json :=
  match error with BusinessError m => JObj (table [("message"%string, JStr m)]) | OtherError _ v => v end.

Definition isChannelConfigConflict (error : ApiError) : bool :=
  let e := error_value error in
  if negb (isRecordValue (Some e)) then false
  else
    let response := record_of (prop_of e "response") in
    if match prop_opt response "status" with Some (JNum x) => num_eqb x (num_of_Z 409) | _ => false end then true
    else
      let responseData := record_of (prop_opt response "data") in
      bool_decide (text_of (prop_opt responseData "code") = Some (js "CHANNEL_CONFIG_CONFLICT")).

Definition getApiErrorMessage (error : ApiError) (fallback : jsstr) : jsstr :=
  match error with
  | BusinessError m => m
  | OtherError isError e =>
      let message :=
        if isRecordValue (Some e) then
          let response := record_of (prop_of e "response") in
          let responseData := record_of (prop_opt response "data") in
          first_of (prop_opt responseData "message") (first_of (prop_opt responseData "title") (prop_of e "message"))
        else None in
      match message with
      | Some (JStr ((_ :: _) as s)) => s
      | _ =>
          if isError then match prop_of e "message" with Some (JStr ((_ :: _) as s)) => s | _ => fallback end
          else fallback
      end
  end.

Definition REQUIRED_KEY : jsstr := js "API key is required".
Definition CREATE_FAILED : jsstr := js "Failed to create channel".
Definition UPDATE_FAILED : jsstr := js "Failed to update channel".
Definition SUCCESS_CREATED : jsstr := js "Channel created successfully".
Definition SUCCESS_UPDATED : jsstr := js "Channel updated successfully".

(** ** State *)

(** A channel as the server returned it; [snap_ref] is the identity of the object. *)
Record Snapshot := mkSnap { snap_ref : nat; snap : object }.

(** What the page remembers of the channel it loaded. *)
Record Loaded := mkLoaded {
  initializedChannel : option num; initializedSnapshot : option Snapshot; editConfigVersion : option json;
  initialModels : list jsstr; initialModelMapping : jsstr; initialStatusCodeMapping : jsstr
}.

Inductive MissingModelsAction := Cancel | Submit | Add.

(** The question that is shown. A submission that waits for an answer holds the
    values that were validated. *)
Inductive Question :=
  | NoQuestion
  | AskRisk (data : object) (items : list jsstr)
  | AskMissing (data : object) (normalizedModels missingModels : list jsstr).

Inductive Request :=
  | Update (id : num) (p : payload) (configVersion : json)
  | Create (p : CreatePayload).

(** A message next to a field, or a notification with the values put into it. *)
Inductive Notice :=
  | FieldError (field : string) (message : jsstr)
  | ErrorToast (message : jsstr) (values : list jsstr)
  | InfoToast (message : string)
  | SuccessToast (message : jsstr).

(** ** Fields with errors *)

Definition ADVANCED_SETTINGS_FIELDS : list string :=
  ["priority"; "weight"; "test_model"; "auto_ban"; "tag"; "remark"; "param_override"; "header_override"; "status_code_mapping";
   "advanced_custom"; "force_format"; "thinking_to_content"; "pass_through_body_enabled"; "proxy"; "system_prompt";
   "system_prompt_override"; "allow_service_tier"; "disable_store"; "allow_safety_identifier"; "allow_include_obfuscation";
   "allow_inference_geo"; "allow_speed"; "claude_beta_query"; "disable_task_polling_sleep";
   "upstream_model_update_check_enabled"; "upstream_model_update_auto_sync_enabled"; "upstream_model_update_ignored_models"]%string.

Definition isAdvancedSettingsField (fieldName : string) : bool := set_has fieldName ADVANCED_SETTINGS_FIELDS.
Definition hasAdvancedSettingsErrors (errors : list string) : bool := existsb isAdvancedSettingsField errors.

(** The fields of a form that validation marks. *)
Definition issueFields (form : object) : list string :=
  map fst (List.filter (fun f => negb (field_typed form f)) channelFormSchema)
  ++ map (fun r => r.1.1) (List.filter (fun r => negb (r.1.2 (text_of (get form r.1.1)))) refinements)
  ++ map fst (List.filter (fun b => negb (b.2 form)) bounds)
  ++ map fst (superRefine form).

Section Drawer.
Context `{FormLib}.

(** Whether the user may edit credentials and addresses. *)
Variable canEditSensitive : bool.

Record Drawer := mkDrawer {
  d_open : bool; currentRow : option num; channelData : option Snapshot; d_form : Form; loaded : Loaded;
  mappingHasErrors : bool; advancedPreference : bool; advancedSettingsOpen : bool; question : Question;
  isSubmitting : bool; requests : list Request; notices : list Notice
}.

Definition with_form (f : Form) (d : Drawer) : Drawer :=
  mkDrawer (d_open d) (currentRow d) (channelData d) f (loaded d) (mappingHasErrors d) (advancedPreference d)
    (advancedSettingsOpen d) (question d) (isSubmitting d) (requests d) (notices d).
Definition with_loaded (l : Loaded) (d : Drawer) : Drawer :=
  mkDrawer (d_open d) (currentRow d) (channelData d) (d_form d) l (mappingHasErrors d) (advancedPreference d)
    (advancedSettingsOpen d) (question d) (isSubmitting d) (requests d) (notices d).
Definition with_props (open : bool) (row : option num) (data : option Snapshot) (d : Drawer) : Drawer :=
  mkDrawer open row data (d_form d) (loaded d) (mappingHasErrors d) (advancedPreference d)
    (advancedSettingsOpen d) (question d) (isSubmitting d) (requests d) (notices d).
Definition with_errors (b : bool) (d : Drawer) : Drawer :=
  mkDrawer (d_open d) (currentRow d) (channelData d) (d_form d) (loaded d) b (advancedPreference d)
    (advancedSettingsOpen d) (question d) (isSubmitting d) (requests d) (notices d).
Definition with_advanced (preference open : bool) (d : Drawer) : Drawer :=
  mkDrawer (d_open d) (currentRow d) (channelData d) (d_form d) (loaded d) (mappingHasErrors d) preference
    open (question d) (isSubmitting d) (requests d) (notices d).
Definition with_question (q : Question) (d : Drawer) : Drawer :=
  mkDrawer (d_open d) (currentRow d) (channelData d) (d_form d) (loaded d) (mappingHasErrors d) (advancedPreference d)
    (advancedSettingsOpen d) q (isSubmitting d) (requests d) (notices d).
Definition with_sending (b : bool) (new : list Request) (d : Drawer) : Drawer :=
  mkDrawer (d_open d) (currentRow d) (channelData d) (d_form d) (loaded d) (mappingHasErrors d) (advancedPreference d)
    (advancedSettingsOpen d) (question d) b (requests d ++ new) (notices d).
Definition with_notice (n : Notice) (d : Drawer) : Drawer :=
  mkDrawer (d_open d) (currentRow d) (channelData d) (d_form d) (loaded d) (mappingHasErrors d) (advancedPreference d)
    (advancedSettingsOpen d) (question d) (isSubmitting d) (requests d) (notices d ++ [n]).

Definition isEditing (d : Drawer) : bool := match currentRow d with Some _ => true | None => false end.
Definition sensitiveLocked (d : Drawer) : bool := isEditing d && negb canEditSensitive.
Definition isMultiKey (d : Drawer) : bool :=
  isEditing d && match channelData d with
                 | Some s => is_true (prop_opt (get (snap s) "channel_info") "is_multi_key")
                 | None => false
                 end.

(** ** Loading *)

(** The channel number -1 stands for a new channel. *)
Definition new_channel : num := num_of_Z (-1).

(** What is remembered of a channel for later comparison. *)
Definition loadedFrom (id : num) (s : Snapshot) : Loaded :=
  mkLoaded (Some id) (Some s) (get (snap s) "config_version")
    (ModelMapping.parseModelsString (text_or_empty (get (snap s) "models")))
    (text_or_empty (get (snap s) "model_mapping")) (text_or_empty (get (snap s) "status_code_mapping")).

Definition same_snapshot (a : option Snapshot) (s : Snapshot) : bool :=
  match a with Some x => (snap_ref x =? snap_ref s)%nat | None => false end.

(** The effect that runs when the drawer opens or closes, when the channel's data
    arrive, and when the state of the mapping editor changes. *)
Definition loadEffect (d : Drawer) : Drawer :=
  let l := loaded d in
  if negb (d_open d) then
    with_loaded (mkLoaded None None None (initialModels l) (initialModelMapping l) (initialStatusCodeMapping l)) d
  else
    match currentRow d, channelData d with
    | Some id, Some s =>
        if same_snapshot (initializedSnapshot l) s then d
        else if bool_decide (initializedChannel l = Some id) && (isDirty (d_form d) || mappingHasErrors d) then d
        else
          let defaults := transformChannelToFormDefaults (snap s) in
          with_advanced (advancedPreference d) (advancedPreference d || hasAdvancedSettingsValues defaults)
            (with_loaded (loadedFrom id s) (with_form (reset defaults (d_form d)) d))
    | Some _, None => d
    | None, _ =>
        if bool_decide (initializedChannel l = Some new_channel) then d
        else
          with_advanced (advancedPreference d) false
            (with_loaded (mkLoaded (Some new_channel) (initializedSnapshot l) (editConfigVersion l) [] [] [])
               (with_form (reset CHANNEL_FORM_DEFAULT_VALUES (d_form d)) d))
    end.

(** The drawer is opened for a channel or for a new one, with what is cached of it. *)
Definition openDrawer (row : option num) (data : option Snapshot) (d : Drawer) : Drawer := loadEffect (with_props true row data d).

(** Closing hides the row: the page passes it only while the drawer is open. *)
Definition closed (d : Drawer) : Drawer := loadEffect (with_props false None None d).

(** [handleOpenChange(false)]. *)
Definition handleClose (d : Drawer) : Drawer :=
  closed (with_advanced (advancedPreference d) false (with_form (reset CHANNEL_FORM_DEFAULT_VALUES (d_form d)) d)).

Definition dataArrives (s : Snapshot) (d : Drawer) : Drawer := loadEffect (with_props (d_open d) (currentRow d) (Some s) d).

Definition handleMappingStateChange (errors : list jsstr) (d : Drawer) : Drawer := loadEffect (with_errors (nonempty errors) d).

Definition handleAdvancedSettingsOpenChange (nextOpen : bool) (d : Drawer) : Drawer := with_advanced nextOpen nextOpen d.

(** ** Handlers that change the form *)

Definition value_of (d : Drawer) (key : string) : option json := get (getValues (d_form d)) key.
Definition set_form (key : string) (v : json) (d : Drawer) : Drawer := with_form (setValue key v (d_form d)) d.
Definition set_dirty (key : string) (v : json) (d : Drawer) : Drawer := with_form (setDirty key v (d_form d)) d.

(** An input of the form. *)
Definition editField := set_dirty.

Definition currentModelsArray (d : Drawer) : list jsstr := ModelMapping.parseModelsString (text_or_empty (value_of d "models")).

Definition updateModels (newModels : list jsstr) (merge : bool) (d : Drawer) : Drawer :=
  let finalModels := if merge then ModelMapping.formatModelsArray (currentModelsArray d ++ newModels)
                     else ModelMapping.formatModelsArray newModels in
  set_form "models" (JStr finalModels) d.

(** The models offered for the channel's type. *)
Definition basicModels (allModelsList : list jsstr) (d : Drawer) : list jsstr :=
  if is_type (getValues (d_form d)) 1
  then List.filter (fun model => starts_with (js "gpt-") model || starts_with (js "text-") model) allModelsList
  else allModelsList.

Definition handleFillRelatedModels (allModelsList : list jsstr) (d : Drawer) : Drawer :=
  let models := basicModels allModelsList d in
  if negb (nonempty models) then with_notice (InfoToast "No related models available for this channel type") d
  else with_notice (SuccessToast (js "Filled {{count}} related model(s)")) (updateModels models false d).

Definition handleFillAllModels (allModelsList : list jsstr) (d : Drawer) : Drawer :=
  if negb (nonempty allModelsList) then with_notice (InfoToast "No models available") d
  else with_notice (SuccessToast (js "Filled {{count}} model(s)")) (updateModels allModelsList false d).

Definition handleClearModels (d : Drawer) : Drawer :=
  with_notice (SuccessToast (js "Cleared all models")) (set_form "models" (JStr []) d).

(** The items of a group are a list or its JSON text; items that are not texts are
    joined as texts. *)
Definition handleAddPrefillGroup (items : json) (d : Drawer) : Drawer :=
  let list_of v := match v with JArr l => Some (map to_text l) | _ => None end in
  let parsed := match items with JArr _ => list_of items | JStr s => JSON_parse s ≫= list_of | _ => None end in
  match parsed with
  | Some models => with_notice (SuccessToast (js "Added {{count}} models from {{name}}")) (updateModels models true d)
  | None => with_notice (ErrorToast (js "Failed to parse group items") []) d
  end.

Definition handleModelsChange (selected : list jsstr) (d : Drawer) : Drawer := set_form "models" (JStr (join [44%N] selected)) d.

Definition handleDeduplicateKeys (d : Drawer) : Drawer :=
  let key := default [] (text_of (value_of d "key")) in
  if negb (nonempty key) || bool_decide (trim key = []) then with_notice (InfoToast "Please enter keys first") d
  else
    let result := deduplicateKeys key in
    if (removedCount result =? 0)%Z then with_notice (InfoToast "No duplicate keys found") d
    else with_notice (SuccessToast (js "Removed {{removed}} duplicate key(s). Before: {{before}}, After: {{after}}"))
           (set_form "key" (JStr (deduplicatedText result)) d).

(** The connection of another channel, copied as JSON. *)
Definition parseChannelConnectionInfo (text : jsstr) : option (jsstr * jsstr) :=
  if negb (nonempty text) then None
  else
    match JSON_parse (trim text) with
    | Some parsed =>
        if bool_decide (text_of (prop_of parsed "_type") = Some (js "newapi_channel_conn")) then
          match prop_of parsed "key", prop_of parsed "url" with
          | Some (JStr key), Some (JStr url) => Some (key, url)
          | _, _ => None
          end
        else None
    | None => None
    end.

Definition encodeChannelConnectionInfo (key url : jsstr) : jsstr :=
  JSON_stringify (JObj (table [("_type", str "newapi_channel_conn"); ("key", JStr key); ("url", JStr url)]%string)).

Definition applyConnectionInfo (info : jsstr * jsstr) (d : Drawer) : Drawer :=
  with_notice (SuccessToast (js "Connection info filled in"))
    (set_dirty "base_url" (JStr info.2) (set_dirty "key" (JStr info.1) d)).

Definition pasteConnectionInfoFromClipboard (text : option jsstr) (d : Drawer) : Drawer :=
  match text with
  | None => with_notice (ErrorToast (js "Unable to read clipboard") []) d
  | Some s =>
      match parseChannelConnectionInfo s with
      | Some info => applyConnectionInfo info d
      | None => with_notice (InfoToast "No connection info found in clipboard") d
      end
  end.

(** *** Effects on the form *)

(** Defaults of some types, for a new channel whose type changed. *)
Definition typeEffect (d : Drawer) : Drawer :=
  if isEditing d then d
  else
    let values := getValues (d_form d) in
    let d := if is_type values 45 && negb (truthy (get values "base_url"))
             then set_form "base_url" (str "https://ark.cn-beijing.volces.com") d else d in
    if is_type values 18 && negb (truthy (value_of d "other")) then set_form "other" (str "v2.1") d else d.

Definition codingPlanEffect (d : Drawer) : Drawer :=
  let values := getValues (d_form d) in
  if negb (is_type values 45) || negb (is_choice values "base_url" "doubao-coding-plan") then d
  else set_form "base_url" (str "https://ark.cn-beijing.volces.com") d.

Definition supportsMultiKeyAddMode (values : object) : bool :=
  negb (is_type values 57) && negb (is_type values 41 && is_choice values "vertex_key_type" "api_key").

Definition addModeEffect (d : Drawer) : Drawer :=
  let values := getValues (d_form d) in
  if isEditing d || supportsMultiKeyAddMode values then d
  else if chosen_other values "multi_key_mode" "single" then set_dirty "multi_key_mode" (str "single") d
  else d.

(** ** Sending *)

(** The request of [mutationFn], or the message of what it throws. *)
Definition mutationFn (d : Drawer) (data : object) : res Request :=
  match currentRow d with
  | Some id =>
      match editConfigVersion (loaded d) with
      | Some configVersion =>
          if negb (truthy (Some configVersion)) then Throw UPDATE_FAILED
          else
            let! p := transformFormDataToUpdatePayload data id in
            let keyMode := get data "key_mode" in
            Ok (Update id (if isMultiKey d && filled (get data "key") && truthy keyMode
                           then map_set (js "key_mode") keyMode p else p) configVersion)
      | None => Throw UPDATE_FAILED
      end
  | None =>
      let! p := transformFormDataToCreatePayload data in
      Ok (Create p)
  end.

(** [onError]. *)
Definition reportError (error : ApiError) (d : Drawer) : Drawer :=
  let failed := if isEditing d then UPDATE_FAILED else CREATE_FAILED in
  if isEditing d && isChannelConfigConflict error then with_notice (ErrorToast (getApiErrorMessage error UPDATE_FAILED) []) d
  else with_notice (ErrorToast (getApiErrorMessage error failed) []) d.

Definition thrown (message : jsstr) : ApiError := OtherError true (JObj (table [("message"%string, JStr message)])).

Definition mutate (d : Drawer) (data : object) : Drawer :=
  match mutationFn d data with
  | Ok r => with_sending true [r] d
  | Throw message => reportError (thrown message) d
  end.

(** The answer of the server: success, a refusal with a message, or an error. *)
Inductive Answer := Accepted | Refused (message : option jsstr) | Failed (error : ApiError).

Definition answerArrives (a : Answer) (d : Drawer) : Drawer :=
  let d := with_sending false [] d in
  match a with
  | Accepted => closed (with_notice (SuccessToast (if isEditing d then SUCCESS_UPDATED else SUCCESS_CREATED)) d)
  | Refused message =>
      let failed := if isEditing d then UPDATE_FAILED else CREATE_FAILED in
      reportError (thrown (str_or (default [] message) failed)) d
  | Failed error => reportError error d
  end.

(** ** Submitting *)

Definition SENSITIVE_FORM_FIELDS : list string :=
  ["type"; "base_url"; "key"; "openai_organization"; "other"; "key_mode"; "param_override"; "header_override"; "settings";
   "setting"; "advanced_custom"; "is_enterprise_account"; "vertex_key_type"; "aws_key_type"; "azure_responses_version";
   "force_format"; "thinking_to_content"; "proxy"; "pass_through_body_enabled"; "system_prompt"; "system_prompt_override";
   "allow_service_tier"; "disable_store"; "allow_safety_identifier"; "allow_include_obfuscation"; "allow_inference_geo";
   "allow_speed"; "claude_beta_query"; "disable_task_polling_sleep"; "upstream_model_update_check_enabled";
   "upstream_model_update_auto_sync_enabled"; "upstream_model_update_ignored_models"]%string.

Definition hasSensitiveChanges (d : Drawer) : bool := existsb (dirtyField (d_form d)) SENSITIVE_FORM_FIELDS.

Definition mapping_text (data : object) : jsstr := default [] (text_of (get data "model_mapping")).
Definition status_text (data : object) : jsstr := default [] (text_of (get data "status_code_mapping")).

(** The submit handler after the first question. *)
Definition submitModels (d : Drawer) (data : object) : Drawer :=
  let mapping := mapping_text data in
  let hasModelMapping := nonempty (trim mapping) in
  let validation := ModelMapping.validateModelMappingJson mapping in
  if hasModelMapping && negb validation.1 then
    with_notice (ErrorToast (str_or (default [] validation.2) (js "Invalid model mapping")) []) d
  else
    let normalizedModels := ModelMapping.parseModelsString (text_or_empty (get data "models")) in
    let missingModels := ModelMapping.findMissingModelsInMapping mapping normalizedModels in
    if hasModelMapping && nonempty missingModels
       && ModelMapping.hasModelConfigChanged normalizedModels mapping (initialModels (loaded d)) (initialModelMapping (loaded d))
    then with_question (AskMissing data normalizedModels missingModels) d
    else mutate d data.

Definition onSubmit (d : Drawer) (data : object) : Drawer :=
  if mappingHasErrors d then d
  else if negb (isEditing d) && negb (filled (get data "key")) then with_notice (FieldError "key" REQUIRED_KEY) d
  else if sensitiveLocked d && hasSensitiveChanges d then
    with_notice (ErrorToast (js "You do not have permission to edit sensitive channel settings.") []) d
  else if nonempty (trim (status_text data)) then
    let invalidEntries := RiskGuard.collectInvalidStatusCodeEntries (status_text data) in
    if nonempty invalidEntries then with_notice (ErrorToast (js "Invalid status code mapping entries: {{entries}}") invalidEntries) d
    else
      let riskyRedirects := RiskGuard.collectNewDisallowedStatusCodeRedirects (initialStatusCodeMapping (loaded d)) (status_text data) in
      if nonempty riskyRedirects then with_question (AskRisk data riskyRedirects) d
      else submitModels d data
  else submitModels d data.

Definition onInvalid (errors : list string) (d : Drawer) : Drawer :=
  with_notice (ErrorToast (js "Please fix the highlighted fields before saving") [])
    (if hasAdvancedSettingsErrors errors then handleAdvancedSettingsOpenChange true d else d).

(** [form.handleSubmit(onSubmit, onInvalid)]. *)
Definition handleSubmit (d : Drawer) : Drawer :=
  let data := getValues (d_form d) in
  if accepted data then onSubmit d data else onInvalid (issueFields data) d.

Definition handleStatusCodeRiskAction (confirmed : bool) (d : Drawer) : Drawer :=
  match question d with
  | AskRisk data _ =>
      let d := with_question NoQuestion d in
      if confirmed then submitModels d data else d
  | _ => d
  end.

Definition handleMissingModelsAction (action : MissingModelsAction) (d : Drawer) : Drawer :=
  match question d with
  | AskMissing data normalizedModels missingModels =>
      let d := with_question NoQuestion d in
      match action with
      | Cancel => d
      | Submit => mutate d data
      | Add =>
          let models := JStr (ModelMapping.formatModelsArray (set_of (normalizedModels ++ missingModels))) in
          mutate (set_form "models" models d) (map_set (js "models") models data)
      end
  | _ => d
  end.
End Drawer.
