(* ===== verification/ChannelLaws.v ===== *)
(** * The channel form: what a save stores

    A form that passes validation can be sent; the properties of the stored settings
    that the form does not manage are kept, and those of other channel types removed;
    what was saved is what the form shows when the channel is opened again. *)

From S2P Require Import Prelude JsNum Json NumText IntNum Records JsValue ModelMapping ChannelForm ChannelTransform.
From Stdlib Require Import Floats.SpecFloat.

#[local] Open Scope js_scope.

(** ** Forms that pass validation can be sent *)

Lemma refined_field form key check message :
  refined form = true → (key, check, message) ∈ refinements → check (text_of (get form key)) = true.
Proof.
  unfold refined. intros H Hin. rewrite forallb_forall in H. by apply (H (key, check, message)), list_elem_of_In.
Qed.

Lemma optional_object value o :
  isOptionalJsonObject value = true → JSON_parse (default [] value) = Some o → ∃ m, o = JObj m.
Proof.
  unfold isOptionalJsonObject, optional_json, parseOptionalJson, trimmed_text. intros H Ho.
  destruct (trim (default [] value)) eqn:E; cbn [nonempty negb] in H; [by rewrite JSON_parse_blank in Ho|].
  rewrite Ho in H. destruct o; try done. eauto.
Qed.

Lemma settings_object form :
  typed form = true → refined form = true → ∃ o, parsedSettings form = JObj o.
Proof.
  intros Ht Hr. assert (Hc : isOptionalJsonObject (text_of (get form "settings")) = true).
  { apply (refined_field form "settings" _ "Invalid JSON format" Hr). unfold refinements. rewrite !elem_of_cons. tauto. }
  unfold parsedSettings. destruct (get form "settings") as [[| | |s| |]|]; try by exists []. cbn [text_of] in Hc.
  destruct (nonempty s && negb _); [|by exists []]. destruct (JSON_parse s) as [v|] eqn:E; [|by exists []].
  destruct (optional_object (Some s) v Hc E) as [m ->]. by exists m.
Qed.

Lemma override_parses form :
  refined form = true → let s := default [] (text_of (get form "upstream_param_override")) in
  trim s ≠ [] → ∃ m, JSON_parse s = Some (JObj m).
Proof.
  intros Hr s Hs. assert (Hc : isOptionalOverride (text_of (get form "upstream_param_override")) = true).
  { apply (refined_field form "upstream_param_override" _ "Must be a JSON object" Hr). unfold refinements. rewrite !elem_of_cons. tauto. }
  unfold isOptionalOverride, trimmed_text in Hc. fold s in Hc. rewrite (proj2 (nonempty_true _) Hs) in Hc. cbn [negb] in Hc.
  destruct (JSON_parse s) as [[| | | | |m]|]; try done. by exists m.
Qed.

(** The object a form stores in the field setting. *)
Definition form_override (form : object) : option json :=
  let s := default [] (text_of (get form "upstream_param_override")) in
  if nonempty (trim s) then JSON_parse s else None.

Lemma buildSetting_ok form : refined form = true → buildSettingJSON form = Ok (JSON_stringify (JObj (settingObj form (form_override form)))).
Proof.
  intros Hr. unfold buildSettingJSON, form_override. destruct (nonempty (trim _)) eqn:E; [|done]. apply nonempty_true in E.
  by destruct (override_parses form Hr E) as [m ->].
Qed.

Lemma form_sends form id :
  typed form = true → refined form = true →
  (∃ p, transformFormDataToUpdatePayload form id = Ok p) ∧ ∃ c, transformFormDataToCreatePayload form = Ok c.
Proof.
  intros Ht Hr. destruct (settings_object form Ht Hr) as [o Ho].
  unfold transformFormDataToUpdatePayload, transformFormDataToCreatePayload, buildSettingsJSON. rewrite buildSetting_ok, Ho by done.
  cbn [res_bind]. eauto.
Qed.

(** A form with its declared types that passes the checks of its fields can be
    sent: neither the update nor the create payload runs into an exception, whatever
    text the stored settings hold. *)
Theorem accepted_form_sends form id :
  typed form = true → refined form = true →
  (∃ p, transformFormDataToUpdatePayload form id = Ok p) ∧ ∃ c, transformFormDataToCreatePayload form = Ok c.
Proof. apply form_sends. Qed.

(** A form that was filled in. *)
Definition demo_form : object :=
  foldl (fun o kv => map_set (js kv.1) kv.2 o) CHANNEL_FORM_DEFAULT_VALUES
  [("name", str "main"); ("models", str "gpt-4o,o3"); ("base_url", str "https://api.example.com"); ("proxy", str "socks5://p");
   ("supports_claude_thinking", str "false"); ("settings", JStr (jsq "{'custom':1,'aws_key_type':'api_key'}"));
   ("upstream_param_override", JStr (stringify indent2 json_number 0 (JObj [(js "temperature", JNum (num_of_Z 1))])));
   ("allow_service_tier", JBool true)]%string.

Lemma accepted_form_sends_witness :
  accepted demo_form = true ∧ ∃ p, transformFormDataToUpdatePayload demo_form (num_of_Z 7) = Ok p.
Proof.
  split; [vm_compute; reflexivity|].
  apply (accepted_form_sends demo_form (num_of_Z 7)); vm_compute; reflexivity.
Defined.

(** ** The stored settings *)

Lemma map_get_put key k v o : map_get key (put k v o) = if decide (key = js k) then v else map_get key o.
Proof.
  unfold put. destruct v as [x|]; [|apply map_get_obj_delete].
  case_decide; [subst; apply map_get_set_eq|by apply map_get_set_ne].
Qed.

Lemma get_put key k v o : get (put k v o) key = if String.eqb key k then v else get o key.
Proof.
  unfold get. rewrite map_get_put. destruct (String.eqb_spec key k) as [->|Hne]; [by rewrite decide_True|].
  rewrite decide_False; [done|]. by intros E%js_inj.
Qed.

Lemma map_get_put_if key b k v o : key ≠ js k → map_get key (put_if b k v o) = map_get key o.
Proof. intros H. unfold put_if. destruct b; [|done]. rewrite map_get_put. by rewrite decide_False. Qed.

(** The properties of the field settings that the form writes. *)
Definition UPDATE_KEYS : list string :=
  ["upstream_model_update_check_enabled"; "upstream_model_update_auto_sync_enabled"; "upstream_model_update_ignored_models";
   "upstream_model_update_last_detected_models"; "upstream_model_update_last_check_time"]%string.
Definition MANAGED_KEYS : list string :=
  ["vertex_key_type"; "azure_responses_version"; "openrouter_enterprise"; "aws_key_type"; "allow_service_tier"; "disable_store";
   "allow_safety_identifier"; "allow_include_obfuscation"; "allow_inference_geo"; "allow_speed"; "claude_beta_query";
   "auto_test_and_recover_disabled"]%string.

Lemma putUpdates_other form o key : key ∉ map js UPDATE_KEYS → map_get key (putUpdates form o) = map_get key o.
Proof.
  unfold UPDATE_KEYS. cbn [map]. rewrite !not_elem_of_cons. intros (H1 & H2 & H3 & H4 & H5 & _). unfold putUpdates.
  rewrite !map_get_put_if, !map_get_put by done. by rewrite !decide_False.
Qed.

Lemma settings_unmanaged form o key :
  key ∉ map js (UPDATE_KEYS ++ MANAGED_KEYS) → map_get key (settingsObj form o) = map_get key o.
Proof.
  rewrite map_app. intros [Hu Hm]%not_elem_of_app. unfold MANAGED_KEYS in Hm. cbn [map] in Hm. rewrite !not_elem_of_cons in Hm.
  destruct_and! Hm. unfold settingsObj. destruct (type_in form MODEL_FETCHABLE_TYPES); rewrite ?putUpdates_other by done;
    rewrite !map_get_put; by rewrite !decide_False.
Qed.

Lemma typed_field form key v r ty :
  typed form = true → get form key = Some v → assoc key channelFormSchema = Some (r, ty) → has_type ty v = true.
Proof.
  unfold typed. intros Ht Hg Ha. rewrite forallb_forall in Ht.
  assert (Hin : (key, (r, ty)) ∈ channelFormSchema).
  { revert Ha. generalize channelFormSchema. clear. induction l as [|[k' x] l IH]; cbn [assoc]; [done|].
    destruct (String.eqb_spec key k') as [->|_]; [intros [= ->]; apply list_elem_of_here|]. intros H%IH. by apply elem_of_cons; right. }
  specialize (Ht _ (proj1 (list_elem_of_In _ _) Hin)). unfold field_typed in Ht. cbn [fst snd] in Ht. by rewrite Hg in Ht.
Qed.

(** The settings of particular channel types: the field of the form, and the types
    that have it. *)
Definition TYPE_FIELDS : list (string * list Z) :=
  [("vertex_key_type", [41]); ("azure_responses_version", [3]); ("is_enterprise_account", [20]); ("aws_key_type", [33]);
   ("allow_service_tier", [1; 14]); ("disable_store", [1]); ("allow_safety_identifier", [1]); ("allow_include_obfuscation", [1]);
   ("allow_inference_geo", [1; 14]); ("allow_speed", [14]); ("claude_beta_query", [14])]%string%Z.

Lemma get_putUpdates form o key :
  forallb (fun k => negb (String.eqb key k)) UPDATE_KEYS = true → get (putUpdates form o) key = get o key.
Proof.
  intros H. apply putUpdates_other. intros (k & E%js_inj & Hk)%list_elem_of_fmap. subst k. rewrite forallb_forall in H.
  specialize (H key (proj1 (list_elem_of_In _ _) Hk)). by rewrite String.eqb_refl in H.
Qed.

Ltac eval_keys := cbn [String.eqb Ascii.eqb Bool.eqb andb].

(** The value of a property of the stored object, for a literal name. *)
Ltac settings_lookup :=
  unfold settingsObj; cbn zeta; destruct (type_in _ MODEL_FETCHABLE_TYPES); rewrite ?get_putUpdates by reflexivity;
  rewrite !get_put; eval_keys.

Lemma is_type_cases form a b : type_in form [a; b] = is_type form a || is_type form b.
Proof. unfold is_type, type_in. destruct (get form "type") as [[]|]; try done. cbn [existsb]. by rewrite !orb_false_r. Qed.

Lemma flag_of_bool v : has_type TBoolean v = true → flag (Some v) = v.
Proof. by destruct v. Qed.

(** A stored property is read as a flag. *)
Lemma flag_stored (b : bool) v : has_type TBoolean v = true → flag (opt_prop b (flag (Some v))) = if b then v else JBool false.
Proof. destruct v; try done. by destruct b. Qed.

Lemma orv_stored (b : bool) names v d :
  has_type (TEnum names) v = true → forallb nonempty (map js names) = true →
  orv (opt_prop b (orv (Some v) d)) d = if b then v else d.
Proof.
  destruct v as [| | |s| |]; try done. cbn [has_type is_name]. rewrite set_has_spec. intros Hs%list_elem_of_In Hn.
  rewrite forallb_forall in Hn. specialize (Hn s Hs). destruct b; [|done]. cbn [opt_prop]. unfold orv, truthy. by rewrite Hn, Hn.
Qed.

Lemma azure_stored (b : bool) v :
  has_type TString v = true →
  orv (opt_prop (b && truthy (Some v)) (orv (Some v) (JStr []))) (JStr []) = if b then v else JStr [].
Proof. destruct v as [| | |s| |]; try done. by destruct b, s. Qed.

Lemma get_other m k : get (otherOf (JObj m)) k = assoc k (otherTable (JObj m)).
Proof. apply map_get_table. Qed.

(** What the form shows of a setting of a channel type after it was stored. *)
Lemma type_field_stored form o field types v :
  typed form = true → (field, types) ∈ TYPE_FIELDS → get form field = Some v →
  get (otherOf (JObj (settingsObj form o))) field = (if type_in form types then Some v else get OTHER_DEFAULTS field).
Proof.
  intros Ht Hin. revert v.
  assert (H : Forall (fun ft => ∀ v, get form ft.1 = Some v →
     get (otherOf (JObj (settingsObj form o))) ft.1 = (if type_in form ft.2 then Some v else get OTHER_DEFAULTS ft.1)) TYPE_FIELDS).
  2:{ rewrite Forall_forall in H. apply (H _ Hin). }
  clear Hin field types. unfold TYPE_FIELDS.
  repeat (apply List.Forall_cons; [cbn [fst snd]; intros v Hv; pose proof (typed_field _ _ _ _ _ Ht Hv eq_refl) as Hty;
     rewrite get_other; cbn [otherTable assoc prop_of]; eval_keys;
     repeat match goal with |- context [map_get (js ?k) (settingsObj form o)] => change (map_get (js k) (settingsObj form o)) with (get (settingsObj form o) k) end;
     settings_lookup; rewrite Hv, ?is_type_cases;
     first [rewrite (flag_stored _ _ Hty) | rewrite (orv_stored _ _ _ _ Hty eq_refl) | rewrite (azure_stored _ _ Hty)];
     unfold is_type; match goal with |- Some (if ?b then _ else _) = _ => destruct b end; reflexivity|]).
  apply List.Forall_nil.
Qed.

(** The settings of a channel type: after saving, the form shows the entered
    value of each field that the type has and the default of each that it does not
    have, whatever was stored before; the properties that the form does not know are
    kept. *)
Theorem type_settings_exact form o field types v :
  typed form = true → (field, types) ∈ TYPE_FIELDS → get form field = Some v →
  let stored := settingsObj form o in
  get (otherOf (JObj stored)) field = (if type_in form types then Some v else get OTHER_DEFAULTS field)
  ∧ ∀ key, key ∉ map js (UPDATE_KEYS ++ MANAGED_KEYS) → map_get key stored = map_get key o.
Proof. intros Ht Hin Hv stored. split; [by apply type_field_stored|intros key Hk; by apply settings_unmanaged]. Qed.

Lemma type_settings_exact_witness :
  let stored := settingsObj demo_form [(js "custom", JNum (num_of_Z 1)); (js "aws_key_type", str "api_key")] in
  map fst stored = map js ["custom"; "allow_service_tier"; "disable_store"; "allow_safety_identifier"; "allow_include_obfuscation";
    "allow_inference_geo"; "auto_test_and_recover_disabled"; "upstream_model_update_check_enabled";
    "upstream_model_update_auto_sync_enabled"; "upstream_model_update_ignored_models"; "upstream_model_update_last_detected_models";
    "upstream_model_update_last_check_time"]%string
  ∧ get (otherOf (JObj stored)) "allow_service_tier" = Some (JBool true).
Proof.
  split; [vm_compute; reflexivity|].
  apply (type_settings_exact demo_form [(js "custom", JNum (num_of_Z 1)); (js "aws_key_type", str "api_key")] "allow_service_tier" [1; 14]%Z (JBool true));
    [vm_compute; reflexivity| |vm_compute; reflexivity]. apply (bool_decide_unpack _). vm_compute. exact I.
Defined.

(** ** The stored object is JSON *)

Lemma put_wellformed k v o : is_index (js k) = false → (∀ x, v = Some x → wellformed x) → wellformed (JObj o) → wellformed (JObj (put k v o)).
Proof. intros Hk Hv Ho. unfold put. destruct v as [x|]; [apply wellformed_set; auto|by apply wellformed_delete]. Qed.

Lemma put_if_wellformed b k v o : is_index (js k) = false → wellformed v → wellformed (JObj o) → wellformed (JObj (put_if b k v o)).
Proof. intros Hk Hv Ho. unfold put_if. destruct b; [|done]. apply put_wellformed; [done| |done]. by intros x [= <-]. Qed.
