(* ===== verification/ChannelReopen.v ===== *)
(** * The channel form: reopening a saved channel

    What the form stores in the field setting is read back, field for field, when
    the channel is opened again; and what the form does not know is lost. *)

From S2P Require Import Prelude JsNum Json NumText IntNum Records JsValue ModelMapping ChannelForm ChannelTransform ChannelLaws.
From Stdlib Require Import Floats.SpecFloat.

#[local] Open Scope js_scope.

(** ** Values that are stored *)

(** Types whose values always print and read back. *)
Definition simple_type (ty : FieldType) : bool := match ty with TNumber | TRecord => false | _ => true end.

Lemma simple_wellformed ty v : simple_type ty = true → has_type ty v = true → wellformed v.
Proof.
  assert (Harr : ∀ l, (∀ x, x ∈ l → is_text x = true) → wellformed (JArr l)).
  { intros l H. apply wellformed_arr, Forall_forall. intros x Hx. specialize (H x Hx). by destruct x. }
  intros Hs. destruct ty, v; try done; cbn [has_type]; intros H; apply Harr; intros x Hx; rewrite forallb_forall in H;
    specialize (H x (proj1 (list_elem_of_In _ _) Hx)); by destruct x.
Qed.

Lemma orv_wellformed (v : option json) d : (∀ x, v = Some x → wellformed x) → wellformed d → wellformed (orv v d).
Proof. intros H Hd. destruct v as [x|]; [|done]. cbn [orv]. destruct (truthy (Some x)); auto. Qed.

Lemma typed_orv_wellformed form key r ty d :
  typed form = true → assoc key channelFormSchema = Some (r, ty) → simple_type ty = true → wellformed d → wellformed (orv (get form key) d).
Proof.
  intros Ht Ha Hs Hd. apply orv_wellformed; [|done]. intros x Hx. apply (simple_wellformed ty); [done|]. by apply (typed_field form key x r).
Qed.

(** A counter: an integer from [low] on that prints and reads back. *)
Definition counter (low : Z) (v : json) : Prop :=
  ∃ z, (low <= z)%Z ∧ safe z ∧ v = JNum (num_of_Z z) ∧ num_back json_number (num_of_Z z) = true.

(** The names of the settings that are stored in the field setting. *)
Definition EXTRA_FIELDS : list string :=
  ["responses_websocket"; "force_format"; "thinking_to_content"; "proxy"; "tls_insecure_skip_verify"; "pass_through_body_enabled";
   "system_prompt"; "system_prompt_override"; "user_agent_id"; "user_agent_override"; "normalize_upstream_errors";
   "allow_model_protocol_override"; "model_protocol_override_targets"; "responses_function_call_arguments_format";
   "responses_compaction_capability"; "responses_compaction_native_stream"; "responses_compaction_continuation";
   "responses_compaction_route_fingerprint"; "responses_compaction_model_capabilities"; "anti_poison_profile"; "anti_poison_enabled";
   "anti_poison_answer_envelope"; "anti_poison_response_proof"; "anti_poison_response_proof_enabled"; "anti_poison_tool_call_guard";
   "anti_poison_opaque_scan"; "anti_poison_probe_before_every_request"; "anti_poison_stream_mode";
   "anti_poison_hard_failures_to_quarantine"; "anti_poison_soft_failures_to_degrade"; "anti_poison_failure_mode";
   "anti_poison_canary_echo_enabled"; "anti_poison_shape_check_enabled"; "requires_codex_identity"; "responses_request_profile";
   "responses_supports_max_output_tokens"; "upstream_param_override"; "supports_claude_thinking"; "auto_test_interval";
   "auto_test_retry_count"; "auto_test_retry_threshold"; "auto_test_time_window_start"; "auto_test_time_window_end";
   "auto_test_timezone"]%string.

(** The settings of upstream updates, as they are stored for a type that has them. *)
Definition UPDATE_FIELDS : list string :=
  ["upstream_model_update_check_enabled"; "upstream_model_update_auto_sync_enabled"; "upstream_model_update_ignored_models"]%string.

Definition ignored_models (form : object) : list jsstr :=
  set_of (split_list_all (match get form "upstream_model_update_ignored_models" with Some (JStr s) => s | _ => [] end)).

Definition updates_saved (form : object) : list (string * json) :=
  let check := is_true (get form "upstream_model_update_check_enabled") in
  [("upstream_model_update_check_enabled", JBool check);
   ("upstream_model_update_auto_sync_enabled", JBool (check && is_true (get form "upstream_model_update_auto_sync_enabled")));
   ("upstream_model_update_ignored_models", JStr (join [44%N] (ignored_models form)))]%string.

(** The fields that start anew, and those that are never sent. *)
Definition FIXED_FIELDS : list (string * json) :=
  [("key", JStr []); ("multi_key_mode", str "single"); ("batch_add_set_key_prefix_2_name", JBool false); ("key_mode", str "append")]%string.
Definition UNSAVED_FIELDS : list string := ["advanced_custom"; "disable_task_polling_sleep"; "max_input_tokens"]%string.

(** A text that is not empty. *)
Definition given_text (v : json) : Prop := match v with JStr s => s ≠ [] | _ => False end.

(** A form whose values need no correction before they are stored. *)
Record settled (form : object) : Prop := mkSettled {
  settled_protocol :
    (is_type form 57 = false ∧ get form "allow_model_protocol_override" = Some (JBool true))
    ∨ (get form "allow_model_protocol_override" = Some (JBool false) ∧ get form "model_protocol_override_targets" = Some (JArr []));
  settled_fingerprint : ∀ s, get form "responses_compaction_route_fingerprint" = Some (JStr s) → trim s = s;
  settled_capabilities : ∀ v, get form "responses_compaction_model_capabilities" = Some v → wellformed v;
  settled_override : ∀ v, get form "upstream_param_override" = Some v →
    v = JStr [] ∨ ∃ m, wellformed (JObj m) ∧ v = JStr (stringify indent2 json_number 0 (JObj m));
  settled_counters : ∀ k v, k ∈ ["user_agent_id"; "anti_poison_hard_failures_to_quarantine"; "anti_poison_soft_failures_to_degrade";
    "auto_test_interval"]%string → get form k = Some v → counter 0 v;
  settled_retries : ∀ k v, k ∈ ["auto_test_retry_count"; "auto_test_retry_threshold"]%string → get form k = Some v → counter 1 v;
  settled_window : ∀ k v, k ∈ ["auto_test_time_window_start"; "auto_test_time_window_end"; "auto_test_timezone"]%string →
    get form k = Some v → given_text v
}.

Lemma counter_number low v d : counter low v → (0 <= low)%Z → wellformed d → wellformed (orv (Some v) d).
Proof. intros (z & Hz & Hs & -> & Hb) Hl Hd. apply orv_wellformed; [|done]. by intros x [= <-]. Qed.

Lemma number_or_wellformed v d : (∀ x, v = Some x → counter 0 x) → num_back json_number (num_of_Z d) = true → wellformed (number_or v d).
Proof.
  intros H Hd. split; [done|]. unfold number_or. destruct v as [x|]; [|done]. destruct (H x eq_refl) as (z & _ & _ & -> & Hb).
  cbn [orv]. by destruct (truthy _).
Qed.

Lemma counter_weaken a b v : (a <= b)%Z → counter b v → counter a v.
Proof. intros Hab (z & Hz & H). exists z. split; [lia|done]. Qed.

Lemma override_stored form v :
  settled form → get form "upstream_param_override" = Some v →
  (v = JStr [] ∧ form_override form = None)
  ∨ ∃ m, wellformed (JObj m) ∧ v = JStr (stringify indent2 json_number 0 (JObj m)) ∧ form_override form = Some (JObj m).
Proof.
  intros Hs Hv. unfold form_override. rewrite Hv. destruct (settled_override _ Hs v Hv) as [->|(m & [Hj Hn] & ->)]; [by left|]. right.
  exists m. split; [done|]. split; [done|]. cbn [text_of default from_option]. unfold id. rewrite trim_printed.
  rewrite (JSON_parse_printed indent2 json_number) by done.
  by replace (nonempty (stringify indent2 json_number 0 (JObj m))) with true by (cbn [stringify]; unfold print_seq; by destruct (map _ m)).
Qed.

Lemma unless_inherit_wellformed v x : unless_inherit v = Some x → wellformed x.
Proof. destruct v as [[| | |s| |]|]; try done. cbn [unless_inherit]. destruct (_ && _); [|done]. by intros [= <-]. Qed.

Lemma choice_flag_wellformed v x : choice_flag v = Some x → wellformed x.
Proof. destruct v as [[| | |s| |]|]; try done. cbn [choice_flag]. repeat case_bool_decide; try done; by intros [= <-]. Qed.

Lemma positive_wellformed v x : (∀ y, v = Some y → counter 0 y) → positive_number v = Some x → wellformed x.
Proof.
  intros H. unfold positive_number. destruct v as [y|]; [|done]. destruct (H y eq_refl) as (z & Hz & Hs & -> & Hb). cbn [orv].
  destruct (truthy _); [|done]. cbn [Number_value]. destruct (num_pos _); [|done]. by intros [= <-].
Qed.

(** Every property of the object is a value, or is left out. *)
Definition stored_ok (v : option json) : Prop := ∀ x, v = Some x → wellformed x.

Lemma stored_ok_forall (l : list (string * option json)) :
  Forall (fun kv => stored_ok kv.2) l → Forall (fun kv => match kv.2 with Some v => wellformed v | None => True end) (table l).
Proof. intros H. unfold table. apply List.Forall_map. eapply Forall_impl; [exact H|]. intros [k [v|]] Hv; [|done]. by apply Hv. Qed.

Lemma stored_some v : wellformed v → stored_ok (Some v).
Proof. by intros H x [= <-]. Qed.

Lemma stored_opt b v : wellformed v → stored_ok (opt_prop b v).
Proof. intros H. destruct b; [by apply stored_some|]. by intros x. Qed.

Lemma compaction_wellformed form fp :
  typed form = true → settled form →
  wellformed (JObj (present (table
      [("default_capability", Some (JObj (present (table
          [("capability", Some (orv (get form "responses_compaction_capability") (str "unknown")));
           ("native_stream", Some (flag (get form "responses_compaction_native_stream")));
           ("continuation", Some (flag (get form "responses_compaction_continuation")));
           ("route_fingerprint", opt_prop (nonempty fp) (JStr fp))]))));
       ("model_capabilities", Some (orv (get form "responses_compaction_model_capabilities") (JObj [])))]%string))).
Proof.
  intros Ht Hs. apply wellformed_record; [literal_keys|reflexivity|]. repeat apply List.Forall_cons; try apply List.Forall_nil; cbn [snd].
  - apply wellformed_record; [literal_keys|reflexivity|]. each_field. by eapply typed_orv_wellformed.
  - apply orv_wellformed; [apply (settled_capabilities _ Hs)|done].
Qed.

Lemma setting_wellformed form :
  typed form = true → settled form → wellformed (JObj (settingObj form (form_override form))).
Proof.
  intros Ht Hs. unfold settingObj. apply wellformed_record; [eapply distinct_keys; [reflexivity|vm_compute; reflexivity]|reflexivity|].
  apply stored_ok_forall. unfold settingTable. cbn zeta.
  assert (Hc : ∀ k v, k ∈ ["user_agent_id"; "anti_poison_hard_failures_to_quarantine"; "anti_poison_soft_failures_to_degrade"; "auto_test_interval"]%string →
     get form k = Some v → counter 0 v) by apply (settled_counters _ Hs).
  assert (Hr : ∀ k v, k ∈ ["auto_test_retry_count"; "auto_test_retry_threshold"]%string → get form k = Some v → counter 0 v)
    by (intros k v Hk Hv; apply (counter_weaken 0 1); [lia|by apply (settled_retries _ Hs k)]).
  repeat apply List.Forall_cons; try apply List.Forall_nil; cbn [snd].
  all: try (apply stored_some; done).
  all: try (apply stored_some; eapply typed_orv_wellformed; [done|reflexivity|reflexivity|done]).
  all: try (intros x; by apply choice_flag_wellformed).
  all: try (intros x; by apply unless_inherit_wellformed).
  all: try (apply stored_opt; done).
  all: try (intros x; apply positive_wellformed; intros y Hy; eapply Hc; [|exact Hy]; rewrite !elem_of_cons; tauto).
  all: try (apply stored_some, number_or_wellformed; [intros y Hy; (eapply Hc + eapply Hr); [|exact Hy]; rewrite !elem_of_cons; tauto|reflexivity]).
  - intros x Hx. destruct (get form "user_agent_id") as [v|] eqn:E; [|done]. destruct (truthy (Some v)); [|done]. injection Hx as <-.
    destruct (Hc "user_agent_id"%string v ltac:(rewrite !elem_of_cons; tauto) E) as (z & _ & _ & -> & Hb). done.
  - apply stored_some. destruct (_ && _); [|done]. by eapply typed_orv_wellformed.
  - apply stored_some. by apply compaction_wellformed.
  - destruct (text_of _) as [s|]; [by apply stored_opt|by intros x].
  - intros x Hx. destruct (get form "upstream_param_override") as [v|] eqn:E.
    + destruct (override_stored form v Hs E) as [[_ Ho]|(m & Hm & _ & Ho)]; rewrite Ho in Hx; [done|]. by injection Hx as <-.
    + unfold form_override in Hx. by rewrite E in Hx.
Qed.

(** ** Reading a stored value *)

Lemma bool_back v (d : bool) : has_type TBoolean v = true → orv (Some (orv (Some v) (JBool false))) (JBool false) = v.
Proof. destruct v as [|[]| | | |]; done. Qed.

Lemma flag_back v : has_type TBoolean v = true → flag (Some (flag (Some v))) = v.
Proof. by destruct v as [|[]| | | |]. Qed.

Lemma unless_false_back v : has_type TBoolean v = true → unless_false (Some (unless_false (Some v))) = v.
Proof. by destruct v as [|[]| | | |]. Qed.

Lemma shape_back v : has_type TBoolean v = true → unless_false (Some (flag (Some v))) = v.
Proof. by destruct v as [|[]| | | |]. Qed.

Lemma true_prop_back v : has_type TBoolean v = true → flag (true_prop (Some v)) = v.
Proof. by destruct v as [|[]| | | |]. Qed.

Lemma text_back v : has_type TString v = true → orv (Some (orv (Some v) (JStr []))) (JStr []) = v.
Proof. destruct v as [| | |[]| |]; done. Qed.

Lemma enum_text names v : has_type (TEnum names) v = true → forallb nonempty (map js names) = true → ∃ s, v = JStr s ∧ nonempty s = true ∧ s ∈ map js names.
Proof.
  destruct v as [| | |s| |]; try done. cbn [has_type is_name]. rewrite set_has_spec. intros Hs Hn. exists s. split; [done|].
  rewrite forallb_forall in Hn. split; [|done]. by apply Hn, list_elem_of_In.
Qed.

Lemma enum_back names v d :
  has_type (TEnum names) v = true → forallb nonempty (map js names) = true → orv (Some (orv (Some v) d)) d = v.
Proof. intros H Hn. destruct (enum_text names v H Hn) as (s & -> & Hs & _). unfold orv, truthy. by rewrite !Hs. Qed.

Lemma given_back v d : given_text v → orv (Some (orv (Some v) d)) d = v.
Proof. destruct v as [| | |s| |]; try done. cbn [given_text]. intros Hs%nonempty_true. unfold orv, truthy. by rewrite !Hs. Qed.

Lemma inherit_back names v :
  has_type (TEnum names) v = true → forallb nonempty (map js names) = true → orv (unless_inherit (Some v)) (str "inherit") = v.
Proof.
  intros H Hn. destruct (enum_text names v H Hn) as (s & -> & Hs & _). cbn [unless_inherit]. rewrite Hs. cbn [andb].
  case_bool_decide as E; cbn [negb]; [by rewrite E|]. unfold orv, truthy. by rewrite Hs.
Qed.

Lemma tristate_back v : has_type (TEnum ["auto"; "true"; "false"]) v = true → tristate (choice_flag (Some v)) = v.
Proof.
  intros H. destruct (enum_text _ v H eq_refl) as (s & -> & _ & Hs). cbn [map] in Hs. rewrite !elem_of_cons, elem_of_nil in Hs.
  by destruct Hs as [->|[->|[->|[]]]].
Qed.

Lemma limit_back v :
  has_type (TEnum ["auto"; "true"; "false"]) v = true →
  tristate (match text_of (Some v) with
            | Some s => opt_prop (negb (bool_decide (s = js "auto"))) (JBool (bool_decide (s = js "true")))
            | None => None
            end) = v.
Proof.
  intros H. destruct (enum_text _ v H eq_refl) as (s & -> & _ & Hs). cbn [map] in Hs. rewrite !elem_of_cons, elem_of_nil in Hs.
  by destruct Hs as [->|[->|[->|[]]]].
Qed.

Lemma one_of_back names fallback v d :
  has_type (TEnum names) v = true → forallb nonempty (map js names) = true → one_of names fallback (Some (orv (Some v) d)) = v.
Proof.
  intros H Hn. destruct (enum_text names v H Hn) as (s & -> & Hs & Hin). unfold orv, truthy. rewrite Hs. cbn [one_of is_name].
  by rewrite (proj2 (set_has_spec _ _) Hin).
Qed.

Lemma format_back v :
  has_type (TEnum ["auto"; "string"; "object"]) v = true → one_of ["string"; "object"] "auto" (Some (orv (Some v) (str "auto"))) = v.
Proof.
  intros H. destruct (enum_text _ v H eq_refl) as (s & -> & _ & Hs). cbn [map] in Hs. rewrite !elem_of_cons, elem_of_nil in Hs.
  by destruct Hs as [->|[->|[->|[]]]].
Qed.

Lemma counter_back low d v : counter low v → (0 <= low)%Z → (d = 0 ∨ 1 <= low)%Z → number_or (Some (number_or (Some v) d)) d = v.
Proof.
  intros (z & Hz & Hs & -> & _) Hl Hd. unfold number_or. cbn [orv truthy]. rewrite num_truthy_Z by done.
  destruct (Z.eqb_spec z 0) as [->|Hne]; cbn [negb Number_value].
  - destruct Hd as [->|Hd]; [done|lia].
  - rewrite num_truthy_Z by done. by destruct (Z.eqb_spec z 0).
Qed.

Lemma positive_back v : counter 0 v → number_or (positive_number (Some v)) 0 = v.
Proof.
  intros (z & Hz & Hs & -> & _). unfold positive_number. cbn [orv truthy]. rewrite num_truthy_Z by done.
  destruct (Z.eqb_spec z 0) as [->|Hne]; cbn [negb Number_value]; [done|]. rewrite num_pos_Z by done.
  destruct (Z.ltb_spec 0 z); [|lia]. cbn [opt_prop]. unfold number_or. cbn [orv truthy]. rewrite num_truthy_Z by done.
  by destruct (Z.eqb_spec z 0).
Qed.

Lemma agent_back v : counter 0 v → number_or (opt_prop (truthy (Some v)) (JNum (Number_value (Some v)))) 0 = v.
Proof.
  intros (z & Hz & Hs & -> & _). cbn [truthy Number_value]. rewrite num_truthy_Z by done.
  destruct (Z.eqb_spec z 0) as [->|Hne]; cbn [negb opt_prop]; [done|]. unfold number_or. cbn [orv truthy]. rewrite num_truthy_Z by done.
  by destruct (Z.eqb_spec z 0).
Qed.

Ltac eval_table := lazy beta iota zeta delta [assoc extraTable settingTable String.eqb Ascii.eqb Bool.eqb].

Lemma get_extra m k : get (extraOf (JObj m)) k = assoc k (extraTable (JObj m)).
Proof. apply map_get_table. Qed.

Lemma get_stored form ov k : map_get (js k) (settingObj form ov) = mjoin (assoc k (settingTable form ov)).
Proof. apply map_get_literal. vm_compute. reflexivity. Qed.

Section read_back.
Context (form : object) (Ht : typed form = true) (Hs : settled form).
Notation stored := (settingObj form (form_override form)).

Ltac read_field := rewrite get_extra; eval_table; f_equal; cbn [prop_of]; rewrite get_stored; eval_table; cbn [mjoin option_join].

(** One field of a literal name, with the lemma of its kind. *)
Ltac simple_field :=
  match goal with Hv : get form ?k = Some _ |- _ =>
    pose proof (typed_field _ _ _ _ _ Ht Hv eq_refl) as Hty; read_field; rewrite Hv;
    first [apply (flag_back _ Hty) | apply (bool_back _ true Hty) | apply (text_back _ Hty) | apply (unless_false_back _ Hty)
          | apply (shape_back _ Hty) | apply (true_prop_back _ Hty) | apply (tristate_back _ Hty) | apply (limit_back _ Hty)
          | apply (format_back _ Hty) | apply (inherit_back _ _ Hty eq_refl) | apply (enum_back _ _ _ Hty eq_refl)
          | apply given_back, (settled_window _ Hs k); [rewrite !elem_of_cons; tauto|done]
          | apply agent_back, (settled_counters _ Hs k); [rewrite !elem_of_cons; tauto|done]
          | apply positive_back, (settled_counters _ Hs k); [rewrite !elem_of_cons; tauto|done]
          | apply (counter_back 0); [apply (settled_counters _ Hs k); [rewrite !elem_of_cons; tauto|done]|lia|lia]
          | apply (counter_back 1); [apply (settled_retries _ Hs k); [rewrite !elem_of_cons; tauto|done]|lia|lia]]
  end.

(** A field is read back. *)
Definition back (k : string) : Prop := ∀ v, get form k = Some v → get (extraOf (JObj stored)) k = Some v.

Lemma protocol_back : back "allow_model_protocol_override".
Proof.
  intros v Hv. read_field. destruct (settled_protocol _ Hs) as [[-> Hp]|[Hp _]]; rewrite Hp in *; injection Hv as <-; [done|].
  by rewrite andb_false_r.
Qed.

Lemma targets_back : back "model_protocol_override_targets".
Proof.
  intros v Hv. pose proof (typed_field _ _ _ _ _ Ht Hv eq_refl) as Hty. read_field.
  destruct (settled_protocol _ Hs) as [[-> Hp]|[Hp He]]; rewrite Hp.
  - cbn [negb is_true andb]. rewrite Hv. destruct v as [| | | |l|]; try done. cbn [orv truthy]. f_equal. apply List_filter_all.
    apply Forall_forall. intros x Hx. cbn [has_type] in Hty. rewrite forallb_forall in Hty. by apply Hty, list_elem_of_In.
  - rewrite Hv in He. injection He as ->. by rewrite andb_false_r.
Qed.

Ltac capability_field Hv :=
  read_field; cbn [prop_opt prop_of]; rewrite map_get_literal by (vm_compute; reflexivity); eval_table; cbn [mjoin option_join];
  cbn [prop_opt prop_of]; try (rewrite map_get_literal by (vm_compute; reflexivity); eval_table; cbn [mjoin option_join]); rewrite Hv.

Lemma capability_back : back "responses_compaction_capability".
Proof. intros v Hv. pose proof (typed_field _ _ _ _ _ Ht Hv eq_refl) as Hty. capability_field Hv. apply (one_of_back _ _ _ _ Hty eq_refl). Qed.

Lemma native_stream_back : back "responses_compaction_native_stream".
Proof. intros v Hv. pose proof (typed_field _ _ _ _ _ Ht Hv eq_refl) as Hty. capability_field Hv. apply (flag_back _ Hty). Qed.

Lemma continuation_back : back "responses_compaction_continuation".
Proof. intros v Hv. pose proof (typed_field _ _ _ _ _ Ht Hv eq_refl) as Hty. capability_field Hv. apply (flag_back _ Hty). Qed.

Lemma fingerprint_back : back "responses_compaction_route_fingerprint".
Proof.
  intros v Hv. pose proof (typed_field _ _ _ _ _ Ht Hv eq_refl) as Hty. capability_field Hv. destruct v as [| | |s| |]; try done.
  cbn [text_of default from_option]. unfold id. rewrite (settled_fingerprint _ Hs s Hv). by destruct s.
Qed.

Lemma capabilities_back : back "responses_compaction_model_capabilities".
Proof. intros v Hv. pose proof (typed_field _ _ _ _ _ Ht Hv eq_refl) as Hty. capability_field Hv. by destruct v. Qed.

Lemma override_back : back "upstream_param_override".
Proof.
  intros v Hv. read_field. by destruct (override_stored form v Hs Hv) as [[-> ->]|(m & _ & -> & ->)].
Qed.

Lemma fields_back : Forall back EXTRA_FIELDS.
Proof.
  unfold EXTRA_FIELDS.
  repeat (apply List.Forall_cons; [first [apply protocol_back | apply targets_back | apply capability_back | apply native_stream_back
    | apply continuation_back | apply fingerprint_back | apply capabilities_back | apply override_back | intros v Hv; simple_field]|]).
  apply List.Forall_nil.
Qed.
End read_back.

(** ** The payload and the channel it makes *)

Lemma map_get_app {K V} `{EqDecision K} (k : K) (a b : list (K * V)) :
  map_get k (a ++ b) = match map_get k a with Some v => Some v | None => map_get k b end.
Proof. induction a as [|[k' v] a IH]; [done|]. cbn [app map_get]. by case_decide. Qed.

Lemma map_get_sets {A} k (l : list (string * A)) (p : list (jsstr * A)) :
  bool_decide (NoDup (map fst l)) = true →
  map_get (js k) (foldl (fun p kv => map_set (js kv.1) kv.2 p) p l) = match assoc k l with Some v => Some v | None => map_get (js k) p end.
Proof.
  intros Hd%bool_decide_eq_true. revert p. induction l as [|[k' v] l IH]; intros p; [done|]. cbn [map fst] in Hd.
  apply NoDup_cons in Hd as [Hn Hd]. cbn [foldl fst snd assoc]. rewrite IH by done. destruct (String.eqb_spec k k') as [->|Hne].
  - assert (Ha : assoc k' l = None).
    { clear -Hn. induction l as [|[k2 v2] l IH]; [done|]. cbn [map fst] in Hn. apply not_elem_of_cons in Hn as [Hne Hn]. cbn [assoc].
      destruct (String.eqb_spec k' k2); [done|]. by apply IH. }
    rewrite Ha. apply map_get_set_eq.
  - destruct (assoc k l); [done|]. apply map_get_set_ne. by intros E%js_inj.
Qed.

(** What [cleanEmpty] does to a value. *)
Definition clean (v : option json) : option json := match v with Some (JStr []) => Some JNull | _ => v end.

Lemma map_get_clean k p : map_get k (cleanEmpty p) = clean <$> map_get k p.
Proof.
  induction p as [|[k' v] p IH]; [done|]. cbn [cleanEmpty map map_get fst snd].
  destruct v as [[| | |[|c s]| |]|]; cbn [map_get]; case_decide; try done; exact IH.
Qed.

(** A channel that has the values of a payload, as the server stores them. *)
Definition stores (channel : object) (p : payload) : Prop := ∀ k v, map_get (js k) p = Some (Some v) → get channel k = Some v.

Lemma updates_wellformed form o : wellformed (JObj o) → wellformed (JObj (putUpdates form o)).
Proof.
  intros Ho. assert (Hsome : ∀ v, wellformed v → ∀ x : json, Some v = Some x → wellformed x) by (intros v Hv x; by intros [= <-]).
  unfold putUpdates. cbn zeta. apply put_if_wellformed; [reflexivity|done|]. apply put_if_wellformed; [reflexivity|done|].
  repeat (apply put_wellformed; [reflexivity| |]); try exact Ho; apply Hsome; try done.
  apply wellformed_arr, Forall_forall. by intros v (s & -> & _)%list_elem_of_fmap.
Qed.

(** Properties that are kept, with the ones the form puts in. *)
Lemma settings_wellformed form o : typed form = true → wellformed (JObj o) → wellformed (JObj (settingsObj form o)).
Proof.
  intros Ht Ho. assert (Hopt : ∀ b v, wellformed v → ∀ x, opt_prop b v = Some x → wellformed x) by (intros [] v Hv x; [by intros [= <-]|done]).
  assert (Hsome : ∀ v, wellformed v → ∀ x : json, Some v = Some x → wellformed x) by (intros v Hv x; by intros [= <-]).
  assert (Horv : ∀ k r ty d, assoc k channelFormSchema = Some (r, ty) → simple_type ty = true → wellformed d → wellformed (orv (get form k) d))
    by (intros; by eapply typed_orv_wellformed).
  unfold settingsObj. cbn zeta. match goal with |- wellformed (JObj (if _ then putUpdates _ ?x else _)) => assert (Hx : wellformed (JObj x)) end.
  { repeat (apply put_wellformed; [reflexivity| |]); try exact Ho; first [apply Hopt; (done || (eapply Horv; [reflexivity|reflexivity|done])) | by apply Hsome]. }
  destruct (type_in form MODEL_FETCHABLE_TYPES); [by apply updates_wellformed|exact Hx].
Qed.

(** A form whose other fields need no correction either. *)
Record settled_base (form : object) : Prop := mkBase {
  base_normal : ∀ s, get form "base_url" = Some (JStr s) → normalizeBaseUrl (Some (JStr s)) = s;
  base_groups : ∃ gs, get form "group" = Some (JArr (map JStr gs)) ∧ gs ≠ []
    ∧ Forall (fun g => trim g = g ∧ g ≠ [] ∧ 44%N ∉ g) gs;
  base_settings : ∀ o, parsedSettings form = JObj o → nums_ok json_number (JObj o) = true;
  base_numbers : ∀ k v, k ∈ ["priority"; "weight"]%string → get form k = Some v → counter 0 v
}.

Section saved.
Context (form : object) (id : num) (p : payload) (channel : object).
Context (Ht : typed form = true) (Hr : refined form = true) (Hs : settled form) (Hb : settled_base form).
Context (Hp : transformFormDataToUpdatePayload form id = Ok p) (Hc : stores channel p).

Definition BASE_FIELDS : list string :=
  ["name"; "type"; "base_url"; "openai_organization"; "models"; "group"; "model_mapping"; "priority"; "weight"; "test_model";
   "channel_test_prompt_id"; "auto_ban"; "status"; "status_code_mapping"; "tag"; "remark"; "param_override"; "header_override";
   "other"]%string.

Lemma Ok_inj {A} (a b : A) : Ok a = Ok b → a = b.
Proof. by intros [= ->]. Qed.

(** A property of the payload, by its name. *)
Lemma payload_get :
  ∃ settings, buildSettingsJSON form = Ok settings ∧
  ∀ k, k ≠ "key"%string →
  map_get (js k) p
  = match assoc k (clearedTable form) with
    | Some v => Some v
    | None => clean <$> assoc k (updateTable form id (JSON_stringify (JObj (settingObj form (form_override form)))) settings)
    end.
Proof.
  pose proof Hp as Hp'. unfold transformFormDataToUpdatePayload in Hp'. rewrite buildSetting_ok in Hp' by done. cbn [res_bind] in Hp'.
  destruct (buildSettingsJSON form) as [settings|]; cbn [res_bind] in Hp'; [|done]. apply Ok_inj in Hp'.
  exists settings. split; [done|]. intros k Hk. rewrite <- Hp', map_get_sets by reflexivity. destruct (assoc k (clearedTable form)); [done|].
  rewrite map_get_clean, map_get_app, map_get_table. destruct (assoc k (updateTable _ _ _ _)); [done|].
  unfold keyProp. destruct (get form "key") as [[| | |s| |]|]; try done. destruct (nonempty (trim s)); [|done]. cbn [map_get].
  rewrite decide_False; [done|]. by intros E%js_inj.
Qed.

(** A field of the form that the channel has under its own name. *)
Lemma base_get k v : assoc k (baseTable channel) = Some (Some v) → get (transformChannelToFormDefaults channel) k = Some v.
Proof.
  intros H. unfold get, transformChannelToFormDefaults. rewrite map_get_app, map_get_literal by (vm_compute; reflexivity). by rewrite H.
Qed.

(** The value the channel gets for a name. *)
Lemma channel_get : ∃ settings, buildSettingsJSON form = Ok settings ∧
  ∀ k w, bool_decide (k = "key"%string) = false →
  match assoc k (clearedTable form) with
  | Some v => Some v
  | None => clean <$> assoc k (updateTable form id (JSON_stringify (JObj (settingObj form (form_override form)))) settings)
  end = Some (Some w) → get channel k = Some w.
Proof.
  destruct payload_get as (settings & Hset & Hget). exists settings. split; [done|]. intros k w Hk%bool_decide_eq_false Hw.
  apply Hc. by rewrite Hget.
Qed.

(** A field of the form is shown again. *)
Definition shown (k : string) : Prop := ∀ v, get form k = Some v → get (transformChannelToFormDefaults channel) k = Some v.

(** A text that is sent as it is, or as nothing when it is empty. *)
Lemma text_shown v w : has_type TString v = true → w = v ∨ clean (Some v) = Some w → orv (Some w) (JStr []) = v.
Proof. destruct v as [| | |[|c s]| |]; try done; intros _ [->|H]; try done; by injection H as <-. Qed.

Lemma group_shown gs :
  gs ≠ [] → Forall (fun g => trim g = g ∧ g ≠ [] ∧ 44%N ∉ g) gs →
  groups_of (Some (JArr (map JStr gs))) = gs ∧ formatGroups gs ≠ [] ∧ parseGroups (formatGroups gs) = gs.
Proof.
  intros Hne H. split; [cbn [groups_of]; clear -gs; induction gs as [|g gs IH]; [done|]; cbn [map omap list_omap text_of]; by f_equal|].
  assert (Hj : formatGroups gs ≠ []).
  { destruct gs as [|g [|g' gs]]; [done| |]; apply Forall_cons in H as [(_ & Hg & _) _]; by destruct g. }
  split; [done|]. unfold parseGroups, split_list, split_list_all. rewrite (proj2 (nonempty_true _) Hj). cbn [negb]. unfold formatGroups.
  rewrite split_char_join; [|done|eapply Forall_impl; [exact H|]; by intros g (_ & _ & ?)].
  rewrite (map_id_Forall trim) by (eapply Forall_impl; [exact H|]; by intros g (? & _)).
  apply List_filter_all. eapply Forall_impl; [exact H|]. intros g (_ & Hg & _). by apply nonempty_true.
Qed.

Lemma base_shown : Forall shown BASE_FIELDS.
Proof.
  destruct channel_get as (settings & _ & Hch).
  assert (Htext : ∀ k v, get form k = Some v → has_type TString v = true → assoc k (clearedTable form) = Some (Some (orv (get form k) (JStr []))) →
     bool_decide (k = "key"%string) = false → orv (get channel k) (JStr []) = v).
  { intros k v Hv Hty Ha Hk. rewrite (Hch k _ Hk ltac:(rewrite Ha; reflexivity)), Hv. by destruct v as [| | |[]| |]. }
  assert (Hplain : ∀ k v, get form k = Some v → has_type TString v = true → assoc k (clearedTable form) = None →
     bool_decide (k = "key"%string) = false →
     clean <$> assoc k (updateTable form id (JSON_stringify (JObj (settingObj form (form_override form)))) settings) = Some (clean (Some v)) →
     orv (get channel k) (JStr []) = v).
  { intros k v Hv Hty Ha Hk Hu. destruct (clean (Some v)) as [w|] eqn:Ew; [|by destruct v as [| | |[]| |]].
    rewrite (Hch k w Hk) by (by rewrite Ha, Hu). apply text_shown; [done|by right]. }
  unfold BASE_FIELDS. repeat (apply List.Forall_cons;
    [intros v Hv; pose proof (typed_field _ _ _ _ _ Ht Hv eq_refl) as Hty;
     try (apply base_get; cbn [baseTable assoc]; eval_keys; do 2 f_equal;
          first [apply (Htext _ _ Hv Hty); reflexivity
                | apply (Hplain _ _ Hv Hty); [reflexivity|reflexivity|cbn [updateTable assoc]; eval_keys; rewrite Hv; try reflexivity]])|]); try apply List.Forall_nil.
  all: try (destruct v as [| |x| | |]; try done; apply base_get; cbn [baseTable assoc]; eval_keys;
            match goal with H : get form ?k = Some (JNum ?x) |- _ => rewrite (Hch k (JNum x) eq_refl) end; [|cbn [clearedTable updateTable assoc]; eval_keys; rewrite Hv]; reflexivity).
  - destruct v as [| | |s| |]; try done. apply base_get. cbn [baseTable assoc]. eval_keys.
    rewrite (Hch "base_url"%string (JStr s) eq_refl); [by destruct s|]. cbn [clearedTable assoc]. eval_keys.
    by rewrite Hv, (base_normal _ Hb s Hv).
  - destruct (base_groups _ Hb) as (gs & Hg & Hne & Hgs). rewrite Hv in Hg. injection Hg as ->.
    destruct (group_shown gs Hne Hgs) as (Ho & Hj & Hpg). apply base_get. cbn [baseTable assoc]. eval_keys.
    rewrite (Hch "group"%string (JStr (formatGroups gs)) eq_refl).
    + cbn [orv truthy]. by rewrite (proj2 (nonempty_true _) Hj), Hpg.
    + cbn [clearedTable updateTable assoc]. eval_keys. rewrite Hv, Ho. cbn [fmap option_fmap option_map clean]. by destruct (formatGroups gs).
  - destruct (base_numbers _ Hb "priority"%string v ltac:(rewrite !elem_of_cons; tauto) Hv) as (z & _ & Hz & -> & _).
    apply base_get. cbn [baseTable assoc]. eval_keys. rewrite (Hch "priority"%string (JNum (num_of_Z z)) eq_refl).
    + cbn [orv truthy]. rewrite num_truthy_Z by done. by destruct (Z.eqb_spec z 0) as [->|].
    + cbn [clearedTable updateTable assoc]. eval_keys. by rewrite Hv.
  - destruct (base_numbers _ Hb "weight"%string v ltac:(rewrite !elem_of_cons; tauto) Hv) as (z & _ & Hz & -> & _).
    apply base_get. cbn [baseTable assoc]. eval_keys. rewrite (Hch "weight"%string (JNum (num_of_Z z)) eq_refl).
    + cbn [orv truthy]. rewrite num_truthy_Z by done. by destruct (Z.eqb_spec z 0) as [->|].
    + cbn [clearedTable updateTable assoc]. eval_keys. by rewrite Hv.
  - by destruct v as [| | |[]| |].
Qed.

Lemma printed_nonempty m : JSON_stringify (JObj m) ≠ [].
Proof. unfold JSON_stringify. cbn [stringify]. unfold print_seq. by destruct (map _ m). Qed.

Lemma clean_printed m : clean (Some (JStr (JSON_stringify (JObj m)))) = Some (JStr (JSON_stringify (JObj m))).
Proof. pose proof (printed_nonempty m). by destruct (JSON_stringify (JObj m)). Qed.

(** Reading a field that was stored as an object. *)
Lemma parsed_or_stored defaults reader m :
  wellformed (JObj m) → parsed_or defaults reader (Some (JStr (JSON_stringify (JObj m)))) = reader (JObj m).
Proof.
  intros [Hj Hn]. cbn [parsed_or]. rewrite (proj2 (nonempty_true _) (printed_nonempty m)). cbn [negb].
  unfold JSON_stringify. by rewrite (JSON_parse_printed compact json_number).
Qed.

(** What the form shows is what the two stored objects hold. *)
Lemma opened_settings :
  ∃ o, parsedSettings form = JObj o ∧
  transformChannelToFormDefaults channel
  = present (table (baseTable channel)) ++ extraOf (JObj (settingObj form (form_override form))) ++ otherOf (JObj (settingsObj form o)).
Proof.
  destruct (settings_object form Ht Hr) as [o Ho]. exists o. split; [done|].
  destruct channel_get as (settings & Hset & Hch). unfold buildSettingsJSON in Hset. rewrite Ho in Hset. apply Ok_inj in Hset. subst settings.
  assert (Hw : wellformed (JObj o)).
  { split; [|by apply (base_settings _ Hb)]. unfold parsedSettings in Ho. destruct (get form "settings") as [[| | |s| |]|]; try (by injection Ho as <-).
    destruct (_ && _); [|by injection Ho as <-]. destruct (JSON_parse s) as [v|] eqn:E; cbn [default from_option] in Ho; unfold Datatypes.id in Ho.
    - subst v. by apply JSON_parse_ok in E.
    - by injection Ho as <-. }
  unfold transformChannelToFormDefaults. f_equal.
  rewrite (Hch "setting"%string (JStr (JSON_stringify (JObj (settingObj form (form_override form))))) eq_refl)
    by (cbn [clearedTable updateTable assoc]; eval_keys; cbn [fmap option_fmap option_map]; by rewrite clean_printed).
  rewrite (Hch "settings"%string (JStr (JSON_stringify (JObj (settingsObj form o)))) eq_refl)
    by (cbn [clearedTable updateTable assoc]; eval_keys; cbn [fmap option_fmap option_map]; by rewrite clean_printed).
  rewrite !parsed_or_stored; [done|by apply settings_wellformed|by apply setting_wellformed].
Qed.

Lemma not_base k : k ∈ EXTRA_FIELDS ++ map fst TYPE_FIELDS → map_get (js k) (present (table (baseTable channel))) = None.
Proof.
  intros Hk. rewrite map_get_literal by (vm_compute; reflexivity).
  assert (H : Forall (fun k => assoc k (baseTable channel) = None) (EXTRA_FIELDS ++ map fst TYPE_FIELDS)).
  { cbn [app EXTRA_FIELDS TYPE_FIELDS map fst]. repeat (apply List.Forall_cons; [reflexivity|]). apply List.Forall_nil. }
  rewrite Forall_forall in H. by rewrite (H k Hk).
Qed.

Lemma extra_shown : Forall shown EXTRA_FIELDS.
Proof.
  destruct opened_settings as (o & Ho & E). apply Forall_forall. intros k Hk v Hv. rewrite E. unfold get.
  rewrite map_get_app, not_base, map_get_app by (apply elem_of_app; by left).
  pose proof (fields_back form Ht Hs) as Hf. rewrite Forall_forall in Hf. specialize (Hf k Hk v Hv). unfold get in Hf. by rewrite Hf.
Qed.

Lemma types_shown field types v :
  (field, types) ∈ TYPE_FIELDS → get form field = Some v →
  get (transformChannelToFormDefaults channel) field = (if type_in form types then Some v else get OTHER_DEFAULTS field).
Proof.
  intros Hin Hv. destruct opened_settings as (o & Ho & E).
  assert (Hk : field ∈ map fst TYPE_FIELDS) by (apply list_elem_of_fmap; by exists (field, types)).
  rewrite E. unfold get at 1. rewrite map_get_app, not_base, map_get_app by (apply elem_of_app; by right).
  assert (Hn : Forall (fun k => assoc k (extraTable (JObj (settingObj form (form_override form)))) = None) (map fst TYPE_FIELDS)).
  { cbn [TYPE_FIELDS map fst]. repeat (apply List.Forall_cons; [reflexivity|]). apply List.Forall_nil. }
  rewrite Forall_forall in Hn. unfold extraOf. rewrite map_get_table, (Hn field Hk). by apply (type_field_stored form o field types v).
Qed.
(** A field of the field settings, which the channel itself does not have. *)
Lemma other_shown k : bool_decide (k ∈ "auto_test_and_recover_enabled" :: UPDATE_FIELDS)%string = true →
  ∃ o, parsedSettings form = JObj o
    ∧ get (transformChannelToFormDefaults channel) k = assoc k (otherTable (JObj (settingsObj form o))).
Proof.
  intros Hk%bool_decide_eq_true. destruct opened_settings as (o & Ho & E). exists o. split; [done|].
  assert (Hb0 : Forall (fun k => assoc k (baseTable channel) = None ∧ assoc k (extraTable (JObj (settingObj form (form_override form)))) = None)
                  ("auto_test_and_recover_enabled" :: UPDATE_FIELDS)%string).
  { unfold UPDATE_FIELDS. repeat (apply List.Forall_cons; [split; reflexivity|]). apply List.Forall_nil. }
  rewrite Forall_forall in Hb0. destruct (Hb0 k Hk) as [H1 H2].
  rewrite E. unfold get. rewrite !map_get_app, map_get_literal, H1 by (vm_compute; reflexivity).
  unfold extraOf. rewrite map_get_table, H2. apply map_get_table.
Qed.

Lemma recover_shown v : get form "auto_test_and_recover_enabled" = Some v →
  get (transformChannelToFormDefaults channel) "auto_test_and_recover_enabled" = Some v.
Proof.
  intros Hv. pose proof (typed_field _ _ _ _ _ Ht Hv eq_refl) as Hty. destruct (other_shown "auto_test_and_recover_enabled" eq_refl) as (o & _ & ->).
  cbn [otherTable assoc prop_of]. eval_keys.
  change (map_get (js "auto_test_and_recover_disabled") (settingsObj form o)) with (get (settingsObj form o) "auto_test_and_recover_disabled").
  settings_lookup; rewrite Hv; by destruct v as [|[]| | | |].
Qed.

Lemma get_put_if key b k v o : String.eqb key k = false → get (put_if b k v o) key = get o key.
Proof. intros H. unfold put_if. destruct b; [|done]. by rewrite get_put, H. Qed.

(** What the settings of upstream updates are stored as. *)
Lemma updates_stored o :
  get (putUpdates form o) "upstream_model_update_check_enabled" = assoc "upstream_model_update_check_enabled" (updates_saved form)
  ∧ get (putUpdates form o) "upstream_model_update_auto_sync_enabled" = assoc "upstream_model_update_auto_sync_enabled" (updates_saved form)
  ∧ get (putUpdates form o) "upstream_model_update_ignored_models" = Some (JArr (map JStr (ignored_models form))).
Proof.
  assert (E : ignored_models form
    = set_of (split_list_all (match orv (get form "upstream_model_update_ignored_models") (JStr []) with JStr s => s | _ => [] end))).
  { unfold ignored_models. destruct (get form "upstream_model_update_ignored_models") as [[| | |[]| |]|]; try done; cbn [orv]; by destruct (truthy _). }
  rewrite E. unfold putUpdates. cbn zeta. rewrite !get_put_if by reflexivity. rewrite !get_put. eval_keys. done.
Qed.

Lemma texts_joined l : to_text (JArr (map JStr l)) = join [44%N] l.
Proof. cbn [to_text]. f_equal. induction l as [|x l IH]; [done|]. cbn [map]. by f_equal. Qed.

Lemma updates_shown k : k ∈ UPDATE_FIELDS →
  ∃ o, parsedSettings form = JObj o ∧
  get (transformChannelToFormDefaults channel) k
  = if type_in form MODEL_FETCHABLE_TYPES then assoc k (updates_saved form) else assoc k (otherTable (JObj o)).
Proof.
  intros Hk. destruct (other_shown k) as (o & Ho & ->); [apply bool_decide_eq_true; by right|]. exists o. split; [done|].
  destruct (type_in form MODEL_FETCHABLE_TYPES) eqn:Et.
  - unfold settingsObj. cbn zeta. rewrite Et. match goal with |- context [putUpdates form ?o'] => set (o1 := o') end.
    destruct (updates_stored o1) as (U1 & U2 & U3). unfold UPDATE_FIELDS in Hk. rewrite !elem_of_cons, elem_of_nil in Hk.
    destruct_or! Hk; subst; try done; cbn [otherTable assoc prop_of]; eval_keys;
      repeat match goal with |- context [map_get (js ?k) (putUpdates form o1)] => change (map_get (js k) (putUpdates form o1)) with (get (putUpdates form o1) k) end.
    + by rewrite U1.
    + by rewrite U2.
    + rewrite U3. cbn [updates_saved assoc]. eval_keys. by rewrite texts_joined.
  - unfold UPDATE_FIELDS in Hk. rewrite !elem_of_cons, elem_of_nil in Hk. destruct_or! Hk; subst; try done;
      cbn [otherTable assoc prop_of]; eval_keys;
      match goal with |- context [map_get (js ?k) (settingsObj form o)] =>
        assert (Eo : map_get (js k) (settingsObj form o) = map_get (js k) o) end;
      try (rewrite Eo; reflexivity);
      unfold settingsObj; cbn zeta; rewrite Et;
      match goal with |- map_get (js ?k) ?x = map_get (js ?k) o => change (get x k = get o k) end; rewrite !get_put; eval_keys; reflexivity.
Qed.

(** The fields that have the same value whenever a channel is opened, and those that
    are not read at all. *)
Lemma fixed_shown k v : (k, v) ∈ FIXED_FIELDS → get (transformChannelToFormDefaults channel) k = Some v.
Proof. unfold FIXED_FIELDS. intros Hk. rewrite !elem_of_cons, elem_of_nil in Hk. destruct_or! Hk; try done; injection Hk as -> ->; by apply base_get. Qed.

Lemma unsaved_shown k : k ∈ UNSAVED_FIELDS → get (transformChannelToFormDefaults channel) k = None.
Proof.
  intros Hk. destruct opened_settings as (o & _ & E).
  assert (H : Forall (fun k => assoc k (baseTable channel) = None ∧ assoc k (extraTable (JObj (settingObj form (form_override form)))) = None
                               ∧ assoc k (otherTable (JObj (settingsObj form o))) = None) UNSAVED_FIELDS).
  { unfold UNSAVED_FIELDS. repeat (apply List.Forall_cons; [split; [reflexivity|split; reflexivity]|]). apply List.Forall_nil. }
  rewrite Forall_forall in H. destruct (H k Hk) as (H1 & H2 & H3).
  rewrite E. unfold get. rewrite !map_get_app, map_get_literal, H1 by (vm_compute; reflexivity).
  unfold extraOf, otherOf. by rewrite !map_get_table, H2, H3.
Qed.
End saved.

(** Every field of the schema is in one of the lists; the texts of the two stored objects
    are fields of the form too, and the kind of a key with several parts is kept by the
    server apart from the payload. *)
Lemma fields_covered : ∀ k, k ∈ map fst channelFormSchema →
  k ∈ BASE_FIELDS ++ EXTRA_FIELDS ++ map fst TYPE_FIELDS ++ ["auto_test_and_recover_enabled"%string] ++ UPDATE_FIELDS ++ map fst FIXED_FIELDS
      ++ UNSAVED_FIELDS ++ ["setting"; "settings"; "multi_key_type"]%string.
Proof. apply Forall_forall. apply (bool_decide_unpack _). vm_compute. exact I. Qed.

(** C16: A saved channel opens as it was saved. When the server stores what an update
    sends, the form of the channel shows again every field of the channel, every setting
    of the field setting, the switch of automatic tests, and every setting that its type
    has, while the settings of other types show their defaults. The settings of upstream
    updates are shown as they are stored for a type whose models can be fetched (the
    synchronization only together with the check, the ignored models without
    repetitions), and otherwise as they were. The key and the choices for adding keys
    start anew, and three fields that no payload contains are empty. The form is valid
    and its values need no correction before they are stored: [settled] and
    [settled_base]. *)
Theorem saved_form_reopens form id p channel :
  typed form = true → refined form = true → settled form → settled_base form →
  transformFormDataToUpdatePayload form id = Ok p → stores channel p →
  let form' := transformChannelToFormDefaults channel in
  (∀ k v, k ∈ BASE_FIELDS ++ EXTRA_FIELDS → get form k = Some v → get form' k = Some v)
  ∧ (∀ k types v, (k, types) ∈ TYPE_FIELDS → get form k = Some v →
       get form' k = if type_in form types then Some v else get OTHER_DEFAULTS k)
  ∧ (∀ v, get form "auto_test_and_recover_enabled" = Some v → get form' "auto_test_and_recover_enabled" = Some v)
  ∧ (∀ k, k ∈ UPDATE_FIELDS → ∃ o, parsedSettings form = JObj o ∧
       get form' k = if type_in form MODEL_FETCHABLE_TYPES then assoc k (updates_saved form) else assoc k (otherTable (JObj o)))
  ∧ (∀ k v, (k, v) ∈ FIXED_FIELDS → get form' k = Some v)
  ∧ (∀ k, k ∈ UNSAVED_FIELDS → get form' k = None).
Proof.
  intros Ht Hr Hs Hb Hp Hc form'. split; [|split; [|split; [|split; [|split]]]].
  - intros k v Hk Hv. pose proof (base_shown form id p channel Ht Hr Hb Hp Hc) as H1. pose proof (extra_shown form id p channel Ht Hr Hs Hb Hp Hc) as H2.
    rewrite Forall_forall in H1, H2. apply elem_of_app in Hk as [Hk|Hk]; [by apply H1|by apply H2].
  - intros k types v Hk Hv. by apply (types_shown form id p channel Ht Hr Hs Hb Hp Hc).
  - by apply (recover_shown form id p channel).
  - by apply (updates_shown form id p channel).
  - intros k v Hk. by apply (fixed_shown channel).
  - by apply (unsaved_shown form id p channel).
Qed.

(** A counter, checked by evaluation. *)
Lemma counter_check low v :
  match v with
  | JNum x => let z := num_to_Z x in
      (low <=? z)%Z && (-2 ^ 53 <? z)%Z && (z <? 2 ^ 53)%Z && bool_decide (x = num_of_Z z) && num_back json_number x
  | _ => false
  end = true → counter low v.
Proof.
  destruct v as [| |x| | |]; try done. cbn zeta. rewrite !andb_true_iff, Z.leb_le, !Z.ltb_lt, bool_decide_eq_true.
  intros [[[[Hl H1] H2] E] Hb]. exists (num_to_Z x). rewrite <- E. unfold safe. repeat split; try done; lia.
Qed.

Ltac found H := vm_compute in H; (discriminate H || injection H as <-).

Lemma demo_form_settled : settled demo_form.
Proof.
  constructor.
  - right. by split.
  - intros s H. by found H.
  - intros v H. found H. by split.
  - intros v H. right. exists [(js "temperature", JNum (num_of_Z 1))]. split; [by split|]. found H. by vm_compute.
  - intros k v Hk H. rewrite !elem_of_cons, elem_of_nil in Hk. destruct_or! Hk; subst; try done; found H; by apply counter_check.
  - intros k v Hk H. rewrite !elem_of_cons, elem_of_nil in Hk. destruct_or! Hk; subst; try done; found H; by apply counter_check.
  - intros k v Hk H. rewrite !elem_of_cons, elem_of_nil in Hk. destruct_or! Hk; subst; try done; found H; done.
Qed.

Lemma demo_form_base : settled_base demo_form.
Proof.
  constructor.
  - intros s H. by found H.
  - exists [js "default"]. split; [by vm_compute|]. split; [done|]. repeat constructor; [done..|]. apply (bool_decide_unpack _). vm_compute. exact I.
  - intros o H. found H. by vm_compute.
  - intros k v Hk H. rewrite !elem_of_cons, elem_of_nil in Hk. destruct_or! Hk; subst; try done; found H; by apply counter_check.
Qed.

Definition demo_payload : payload := match transformFormDataToUpdatePayload demo_form (num_of_Z 7) with Ok p => p | Throw _ => [] end.
Definition demo_channel : object := present demo_payload.

Lemma demo_stores : stores demo_channel demo_payload.
Proof.
  intros k v H. unfold get, demo_channel. rewrite map_get_present; [by rewrite H|].
  apply (bool_decide_unpack _). vm_compute. exact I.
Qed.

Lemma saved_form_reopens_witness :
  let form' := transformChannelToFormDefaults demo_channel in
  get form' "proxy" = Some (str "socks5://p") ∧ get form' "supports_claude_thinking" = Some (str "false")
  ∧ get form' "aws_key_type" = Some (str "ak_sk")
  ∧ (∀ k v, k ∈ BASE_FIELDS ++ EXTRA_FIELDS → get demo_form k = Some v → get form' k = Some v).
Proof.
  split; [vm_compute; reflexivity|]. split; [vm_compute; reflexivity|]. split; [vm_compute; reflexivity|].
  apply (saved_form_reopens demo_form (num_of_Z 7) demo_payload demo_channel);
    [vm_compute; reflexivity|vm_compute; reflexivity|apply demo_form_settled|apply demo_form_base|vm_compute; reflexivity|apply demo_stores].
Defined.

(** ** What is lost *)

#[local] Opaque put put_if.

(** The routes of an advanced custom channel are a field of the form that no payload
    contains. *)
Theorem advanced_custom_never_sent form id v :
  transformFormDataToUpdatePayload (map_set (js "advanced_custom") v form) id = transformFormDataToUpdatePayload form id
  ∧ transformFormDataToCreatePayload (map_set (js "advanced_custom") v form) = transformFormDataToCreatePayload form.
Proof.
  set (form' := map_set (js "advanced_custom") v form).
  assert (H : ∀ k, bool_decide (k = "advanced_custom"%string) = false → get form' k = get form k).
  { intros k Hk%bool_decide_eq_false. apply map_get_set_ne. by intros E%js_inj. }
  clearbody form'.
  assert (Htype : ∀ l, type_in form' l = type_in form l) by (intros l; unfold type_in; by rewrite H).
  assert (H1 : ∀ ov, settingTable form' ov = settingTable form ov).
  { intros ov. unfold settingTable, is_type. cbn zeta. by rewrite Htype, !H by reflexivity. }
  assert (H2 : buildSettingJSON form' = buildSettingJSON form).
  { unfold buildSettingJSON, settingObj. rewrite H by reflexivity. cbn zeta. destruct (nonempty _); [destruct (JSON_parse _)|]; by rewrite ?H1. }
  assert (H3 : ∀ o, settingsObj form' o = settingsObj form o).
  { assert (Hu : ∀ o, putUpdates form' o = putUpdates form o).
    { intros o. unfold putUpdates. rewrite (H "upstream_model_update_check_enabled"%string), (H "upstream_model_update_auto_sync_enabled"%string),
        (H "upstream_model_update_ignored_models"%string) by reflexivity. reflexivity. }
    intros o. unfold settingsObj, is_type. cbn zeta. rewrite !Htype, Hu. by rewrite !H by reflexivity. }
  assert (H4 : buildSettingsJSON form' = buildSettingsJSON form).
  { unfold buildSettingsJSON. replace (parsedSettings form') with (parsedSettings form) by (unfold parsedSettings; by rewrite H).
    destruct (parsedSettings form); try done. by rewrite H3. }
  split.
  - unfold transformFormDataToUpdatePayload, updateTable, clearedTable, keyProp. cbn zeta. rewrite H2, H4. by rewrite !H by reflexivity.
  - unfold transformFormDataToCreatePayload. cbn zeta. rewrite H2, H4. by rewrite !H by reflexivity.
Qed.

#[local] Transparent put put_if.

(** The setting of a channel that the server also understands, and the form does not:
    saving the opened form without a change drops it, and stores choices that were
    not made. *)
Theorem unknown_setting_lost :
  let channel := [(js "name", str "a"); (js "type", JNum (num_of_Z 1)); (js "status", JNum (num_of_Z 1)); (js "models", str "m");
                  (js "setting", JStr (jsq "{'http_protocol':'http1'}"))] in
  let form := transformChannelToFormDefaults channel in
  ∃ text, buildSettingJSON form = Ok text
    ∧ option_map (fun j => prop_of j "http_protocol") (JSON_parse text) = Some None
    ∧ option_map (fun j => prop_of j "anti_poison_shape_check_enabled") (JSON_parse text) = Some (Some (JBool true)).
Proof. eexists. split; [vm_compute; reflexivity|]. split; vm_compute; reflexivity. Qed.
