(* ===== verification/ChannelSession.v ===== *)
(** * The channel drawer: sessions

    The events of the drawer and the states they lead to. While a question is shown
    it must be answered first; data of the channel may arrive at any time. The form
    library is known by its laws only. *)

From stdpp Require Import relations.
From S2P Require Import Prelude JsNum Json NumText IntNum JsValue RiskGuard ModelMapping MappingParse ChannelForm ChannelTransform ChannelUtils ChannelDrawer ChannelSubmit ChannelLaws ChannelReopen.
From Stdlib Require Import Floats.SpecFloat.

#[local] Open Scope js_scope.

Create HintDb drawer.

Inductive Event :=
  | EOpen (row : option num) (data : option Snapshot)
  | EClose
  | EData (s : Snapshot)
  | EMapping (errors : list jsstr)
  | EAdvanced (nextOpen : bool)
  | EEdit (key : string) (v : json)
  | EModels (selected : list jsstr)
  | EFillRelated (all : list jsstr)
  | EFillAll (all : list jsstr)
  | EClear
  | EPrefill (items : json)
  | EDedup
  | EPaste (text : option jsstr)
  | EType
  | EPlan
  | EAddMode
  | ESubmit
  | ERisk (confirmed : bool)
  | EMissing (action : MissingModelsAction)
  | EAnswer (a : Answer).

Section Session.
Context `{FormLib} `{!FormLaws} (canEditSensitive : bool).

Definition handle (e : Event) (d : Drawer) : Drawer :=
  match e with
  | EOpen row data => openDrawer row data d
  | EClose => handleClose d
  | EData s => dataArrives s d
  | EMapping errors => handleMappingStateChange errors d
  | EAdvanced nextOpen => handleAdvancedSettingsOpenChange nextOpen d
  | EEdit key v => editField key v d
  | EModels selected => handleModelsChange selected d
  | EFillRelated all => handleFillRelatedModels all d
  | EFillAll all => handleFillAllModels all d
  | EClear => handleClearModels d
  | EPrefill items => handleAddPrefillGroup items d
  | EDedup => handleDeduplicateKeys d
  | EPaste text => pasteConnectionInfoFromClipboard text d
  | EType => typeEffect d
  | EPlan => codingPlanEffect d
  | EAddMode => addModeEffect d
  | ESubmit => handleSubmit canEditSensitive d
  | ERisk confirmed => handleStatusCodeRiskAction confirmed d
  | EMissing action => handleMissingModelsAction action d
  | EAnswer a => answerArrives a d
  end.

(** Which events can happen. *)
Definition can (e : Event) (d : Drawer) : bool :=
  match e, question d with
  | EData _, _ => d_open d && isEditing d
  | EAnswer _, _ => isSubmitting d
  | ERisk _, AskRisk _ _ => true
  | EMissing _, AskMissing _ _ _ => true
  | EOpen _ _, NoQuestion => negb (d_open d)
  | ESubmit, NoQuestion => d_open d && negb (isSubmitting d)
  | (ERisk _ | EMissing _), _ => false
  | _, NoQuestion => d_open d
  | _, _ => false
  end.

Inductive drawer_step : Drawer → Drawer → Prop :=
  step_event e d : can e d = true → drawer_step d (handle e d).

Definition initial (f : Form) (preference : bool) : Drawer :=
  mkDrawer false None None f (mkLoaded None None None [] [] []) false preference false NoQuestion false [] [].

Definition reached (d : Drawer) : Prop := ∃ f preference, rtc drawer_step (initial f preference) d.

(** ** What holds in every session *)

(** The values that a question waits with passed validation, and the models it names
    are the ones that are missing. *)
Definition asked (q : Question) : Prop :=
  match q with
  | NoQuestion => True
  | AskRisk data _ => accepted data = true
  | AskMissing data normalizedModels missingModels =>
      accepted data = true
      ∧ normalizedModels = ModelMapping.parseModelsString (text_or_empty (get data "models"))
      ∧ missingModels = ModelMapping.findMissingModelsInMapping (mapping_text data) normalizedModels
      ∧ trim (mapping_text data) ≠ []
  end.

(** What is remembered of the loaded channel comes from one snapshot of the channel of
    the row, the one the form was filled from. *)
Definition one_snapshot (d : Drawer) : Prop :=
  match initializedSnapshot (loaded d) with
  | Some s =>
      d_open d = true ∧ ∃ id, currentRow d = Some id ∧ loaded d = loadedFrom id s
      ∧ defaultValues (d_form d) = transformChannelToFormDefaults (snap s)
  | None => editConfigVersion (loaded d) = None
  end.

Definition coherent (d : Drawer) : Prop :=
  one_snapshot d ∧ asked (question d) ∧ (question d ≠ NoQuestion → isSubmitting d = false).

(** Changes that keep what was loaded and the question. *)
Definition unloaded (d d' : Drawer) : Prop :=
  d_open d' = d_open d ∧ currentRow d' = currentRow d ∧ loaded d' = loaded d ∧ defaultValues (d_form d') = defaultValues (d_form d)
  ∧ question d' = question d ∧ isSubmitting d' = isSubmitting d.

Lemma unloaded_refl d : unloaded d d.
Proof. done. Qed.

Lemma unloaded_trans a b c : unloaded a b → unloaded b c → unloaded a c.
Proof. unfold unloaded. intuition congruence. Qed.

Lemma unloaded_coherent d d' : unloaded d d' → coherent d → coherent d'.
Proof. intros (H1 & H2 & H3 & H4 & H5 & H6). unfold coherent, one_snapshot. by rewrite H1, H2, H3, H4, H5, H6. Qed.

Lemma unloaded_notice n d : unloaded d (with_notice n d).
Proof. done. Qed.

Lemma unloaded_set key v d : unloaded d (set_form key v d).
Proof. unfold unloaded, set_form. cbn. by rewrite setValue_defaults. Qed.

Lemma unloaded_dirty key v d : unloaded d (set_dirty key v d).
Proof. unfold unloaded, set_dirty. cbn. by rewrite setDirty_defaults. Qed.

Lemma unloaded_set_notice n key v d : unloaded d (with_notice n (set_form key v d)).
Proof. exact (unloaded_set key v d). Qed.

Lemma unloaded_advanced p o d : unloaded d (with_advanced p o d).
Proof. done. Qed.

Hint Resolve unloaded_refl unloaded_notice unloaded_set unloaded_dirty unloaded_advanced : drawer.

(** ** Loading keeps one snapshot *)

Lemma loadEffect_question d : question (loadEffect d) = question d ∧ isSubmitting (loadEffect d) = isSubmitting d.
Proof.
  unfold loadEffect. destruct (d_open d); cbn [negb]; [|done]. destruct (currentRow d), (channelData d); try done;
    repeat match goal with |- context[if ?b then _ else _] => destruct b end; done.
Qed.

(** From a drawer that is closed or shows the channel of its row. *)
Lemma loadEffect_snapshot d :
  (initializedSnapshot (loaded d) = None → editConfigVersion (loaded d) = None) →
  (d_open d = true → one_snapshot d) → one_snapshot (loadEffect d).
Proof.
  intros Hv Ho. unfold loadEffect. destruct (d_open d) eqn:Eo; cbn [negb]; [|done]. specialize (Ho eq_refl).
  destruct (currentRow d) as [id|] eqn:Er.
  - destruct (channelData d) as [s|]; [|done]. destruct (same_snapshot _ s); [done|]. destruct (_ && _); [done|].
    unfold one_snapshot. cbn. split; [done|]. exists id. by rewrite reset_defaults.
  - destruct (initializedSnapshot (loaded d)) as [s|] eqn:Es.
    + unfold one_snapshot in Ho. rewrite Es in Ho. destruct Ho as (_ & id & Hid & _). congruence.
    + specialize (Hv eq_refl). destruct (bool_decide _); done.
Qed.

Lemma snapshot_version d : one_snapshot d → initializedSnapshot (loaded d) = None → editConfigVersion (loaded d) = None.
Proof. unfold one_snapshot. intros Hd Hs. by rewrite Hs in Hd. Qed.

(** A drawer that is closed has loaded nothing. *)
Lemma closed_snapshot d : one_snapshot d → d_open d = false → initializedSnapshot (loaded d) = None.
Proof. unfold one_snapshot. destruct (initializedSnapshot (loaded d)); [|done]. intros (Ho & _) Hc. congruence. Qed.

Lemma opened_coherent row data d : d_open d = false → question d = NoQuestion → coherent d → coherent (openDrawer row data d).
Proof.
  intros Hc Hq (Hs & Ha & Hsub). unfold coherent, openDrawer. destruct (loadEffect_question (with_props true row data d)) as [-> ->].
  split; [|done]. pose proof (closed_snapshot d Hs Hc) as Hn. pose proof (snapshot_version d Hs Hn) as Hv.
  apply loadEffect_snapshot; [done|]. intros _. unfold one_snapshot. cbn. by rewrite Hn.
Qed.

Lemma closed_coherent d : question d = NoQuestion ∨ isSubmitting d = false → asked (question d) → coherent (closed d).
Proof.
  intros Hq Ha. unfold coherent, closed. destruct (loadEffect_question (with_props false None None d)) as [-> ->].
  split; [done|]. split; [done|]. intros Hne. destruct Hq; [done|]. done.
Qed.

Lemma data_coherent s d : coherent d → coherent (dataArrives s d).
Proof.
  intros (Hs & Ha & Hsub). unfold coherent, dataArrives.
  destruct (loadEffect_question (with_props (d_open d) (currentRow d) (Some s) d)) as [-> ->]. split; [|done].
  apply loadEffect_snapshot; [exact (snapshot_version d Hs)|]. done.
Qed.

Lemma mapping_coherent errors d : coherent d → coherent (handleMappingStateChange errors d).
Proof.
  intros (Hs & Ha & Hsub). unfold coherent, handleMappingStateChange.
  destruct (loadEffect_question (with_errors (nonempty errors) d)) as [-> ->]. split; [|done].
  apply loadEffect_snapshot; [exact (snapshot_version d Hs)|]. done.
Qed.

(** ** Submitting keeps one snapshot *)

Lemma mutate_coherent d data : one_snapshot d → question d = NoQuestion → coherent (mutate d data).
Proof.
  intros Hs Hq. unfold mutate. destruct (mutationFn d data) as [r|m].
  - unfold coherent. cbn [with_sending question isSubmitting]. rewrite Hq. split; [exact Hs|done].
  - unfold reportError. assert (Hc : coherent d) by (unfold coherent; rewrite Hq; split; done).
    destruct (_ && _); apply (unloaded_coherent d); auto with drawer.
Qed.

Lemma submitModels_coherent d data :
  one_snapshot d → question d = NoQuestion → isSubmitting d = false → accepted data = true → coherent (submitModels d data).
Proof.
  intros Hs Hq Hb Ha. assert (Hc : coherent d) by (unfold coherent; rewrite Hq; split; done). unfold submitModels.
  destruct (_ && negb _); [by apply (unloaded_coherent d); auto with drawer|].
  destruct (nonempty (trim (mapping_text data)) && _ && _) eqn:E; [|by apply mutate_coherent].
  rewrite !andb_true_iff in E. destruct E as [[Hm _] _]. apply nonempty_true in Hm.
  unfold coherent. cbn [with_question question isSubmitting]. split; [exact Hs|]. split; [|done]. done.
Qed.

(** The ways a submission ends: it stops with a notice, asks, or goes on. *)
Ltac submit_cases d :=
  repeat match goal with
    | |- coherent (if ?b then _ else _) => destruct b
    | |- coherent (let _ := _ in _) => cbv zeta
    | |- coherent (submitModels _ _) => by apply submitModels_coherent
    | |- coherent (with_question _ _) => unfold coherent; cbn [with_question question isSubmitting]; by split
    | |- coherent _ => apply (unloaded_coherent d); auto with drawer; done
    end.

Lemma submit_coherent d : coherent d → question d = NoQuestion → isSubmitting d = false → coherent (handleSubmit canEditSensitive d).
Proof.
  intros Hc Hq Hb. pose proof Hc as (Hs & _). unfold handleSubmit. destruct (accepted _) eqn:Ha.
  - unfold onSubmit. submit_cases d.
  - unfold onInvalid. apply (unloaded_coherent d); [|done]. destruct (hasAdvancedSettingsErrors _); done.
Qed.

Lemma risk_coherent confirmed d : coherent d → coherent (handleStatusCodeRiskAction confirmed d).
Proof.
  intros Hc. pose proof Hc as (Hs & Ha & Hb). unfold handleStatusCodeRiskAction. destruct (question d) as [|data items|] eqn:Eq; try done.
  destruct confirmed; [|unfold coherent; by cbn].
  apply submitModels_coherent; try done. by apply Hb.
Qed.

Lemma missing_coherent action d : coherent d → coherent (handleMissingModelsAction action d).
Proof.
  intros Hc. pose proof Hc as (Hs & Ha & Hb). unfold handleMissingModelsAction. destruct (question d) as [| |data nm mm] eqn:Eq; try done.
  destruct action; [unfold coherent; by cbn|by apply mutate_coherent|]. apply mutate_coherent; [|done].
  assert (Hd : coherent (with_question NoQuestion d)) by (unfold coherent; by cbn).
  eapply (unloaded_coherent _ _ (unloaded_set _ _ _) Hd).
Qed.

Lemma answer_coherent a d : isSubmitting d = true → coherent d → coherent (answerArrives a d).
Proof.
  intros Hi (Hs & Ha & Hb). assert (Hq : question d = NoQuestion).
  { destruct (question d); [done|..]; exfalso; specialize (Hb ltac:(done)); congruence. }
  assert (Hc : coherent (with_sending false [] d)) by (unfold coherent; cbn; by rewrite Hq).
  unfold answerArrives. destruct a; cbv zeta.
  - apply closed_coherent; cbn; [by left|by rewrite Hq].
  - unfold reportError. destruct (_ && _); apply (unloaded_coherent (with_sending false [] d)); auto with drawer.
  - unfold reportError. destruct (_ && _); apply (unloaded_coherent (with_sending false [] d)); auto with drawer.
Qed.

Lemma form_handlers_unloaded e d :
  match e with
  | EAdvanced _ | EEdit _ _ | EModels _ | EFillRelated _ | EFillAll _ | EClear | EPrefill _ | EDedup | EPaste _ | EType | EPlan | EAddMode =>
      unloaded d (handle e d)
  | _ => True
  end.
Proof.
  destruct e; try done; cbn [handle]; auto with drawer.
  - apply unloaded_set.
  - unfold handleFillRelatedModels. cbv zeta. destruct (negb _); [done|]. apply unloaded_set_notice.
  - unfold handleFillAllModels. destruct (negb _); [done|]. apply unloaded_set_notice.
  - apply unloaded_set_notice.
  - unfold handleAddPrefillGroup. cbv zeta. destruct (match items with JArr _ => _ | _ => _ end); [|done].
    apply unloaded_set_notice.
  - unfold handleDeduplicateKeys. cbv zeta. destruct (_ || _); [done|]. destruct (_ =? 0)%Z; [done|].
    apply unloaded_set_notice.
  - unfold pasteConnectionInfoFromClipboard. destruct text as [s|]; [|done]. destruct (parseChannelConnectionInfo s); [|done].
    unfold applyConnectionInfo. eapply unloaded_trans; [|apply unloaded_notice].
    eapply unloaded_trans; [apply unloaded_dirty|apply unloaded_dirty].
  - unfold typeEffect. destruct (isEditing d); [done|]. cbv zeta.
    destruct (is_type _ 45 && _), (is_type _ 18 && _); try apply unloaded_set; try done.
    eapply unloaded_trans; [apply unloaded_set|apply unloaded_set].
  - unfold codingPlanEffect. cbv zeta. destruct (_ || _); [done|apply unloaded_set].
  - unfold addModeEffect. cbv zeta. destruct (_ || _); [done|]. destruct (chosen_other _ _ _); [apply unloaded_dirty|done].
Qed.

(** An event that needs no question to be shown. *)
Lemma can_idle e d : can e d = true → match e with EData _ | EAnswer _ | ERisk _ | EMissing _ => True | _ => question d = NoQuestion end.
Proof. unfold can. destruct e, (question d); done. Qed.

Lemma handle_coherent e d : can e d = true → coherent d → coherent (handle e d).
Proof.
  intros Hcan Hc. pose proof (can_idle e d Hcan) as Hq. pose proof (form_handlers_unloaded e d) as Hu.
  destruct e; try by apply (unloaded_coherent d).
  - unfold can in Hcan. rewrite Hq in Hcan. apply opened_coherent; [|done..]. by destruct (d_open d).
  - cbn [handle]. apply closed_coherent; [by left|]. apply Hc.
  - by apply data_coherent.
  - by apply mapping_coherent.
  - unfold can in Hcan. rewrite Hq in Hcan. apply andb_true_iff in Hcan as [_ Hs]. apply submit_coherent; try done. by destruct (isSubmitting d).
  - by apply risk_coherent.
  - by apply missing_coherent.
  - apply answer_coherent; [|done]. unfold can in Hcan. by destruct (question d).
Qed.

Lemma reached_coherent d : reached d → coherent d.
Proof.
  intros (f & p & Hr). assert (Hi : coherent (initial f p)) by done. induction Hr as [|a b c [e d0 Hcan] _ IH]; [done|].
  apply IH. by apply handle_coherent.
Qed.

(** ** A save in progress *)

(** What can happen while a submission waits for answers. *)
Definition quiet (e : Event) : bool :=
  match e with EData _ | ERisk _ | EMissing _ | EAnswer _ => true | _ => false end.

(** The same, without the confirmation of risky redirects. *)
Definition unconfirmed (e : Event) : bool :=
  match e with ERisk true => false | _ => quiet e end.

Inductive wait_step (ok : Event → bool) : Drawer → Drawer → Prop :=
  wait_event e d : ok e = true → can e d = true → wait_step ok d (handle e d).

Lemma loadEffect_requests d : requests (loadEffect d) = requests d.
Proof.
  unfold loadEffect. destruct (d_open d); cbn [negb]; [|done]. destruct (currentRow d), (channelData d); try done;
    repeat match goal with |- context[if ?b then _ else _] => destruct b end; done.
Qed.

(** Once a request was sent, waiting sends no other. *)
Lemma idle_waits e d :
  quiet e = true → can e d = true → question d = NoQuestion →
  question (handle e d) = NoQuestion ∧ requests (handle e d) = requests d.
Proof.
  intros Hq Hc Hn. destruct e; try done; cbn [handle].
  - unfold dataArrives. rewrite loadEffect_requests. destruct (loadEffect_question (with_props (d_open d) (currentRow d) (Some s) d)) as [-> _]. done.
  - unfold can in Hc. by rewrite Hn in Hc.
  - unfold can in Hc. by rewrite Hn in Hc.
  - unfold answerArrives. cbv zeta. destruct a.
    + unfold closed. rewrite loadEffect_requests. destruct (loadEffect_question (with_props false None None
        (with_notice (SuccessToast (if isEditing (with_sending false [] d) then SUCCESS_UPDATED else SUCCESS_CREATED)) (with_sending false [] d)))) as [-> _].
      cbn. by rewrite app_nil_r.
    + unfold reportError. destruct (_ && _); cbn; by rewrite app_nil_r.
    + unfold reportError. destruct (_ && _); cbn; by rewrite app_nil_r.
Qed.

(** *** The version that is sent *)

Section Version.
Context (sent : list Request) (id : num) (s : Snapshot).

Definition waiting (d : Drawer) : Prop :=
  requests d = sent ∧ d_open d = true ∧ currentRow d = Some id ∧ loaded d = loadedFrom id s ∧ isDirty (d_form d) = true ∧ isSubmitting d = false.

Definition versioned (d : Drawer) : Prop :=
  waiting d ∨ (question d = NoQuestion ∧ ∃ p v, requests d = sent ++ [Update id p v] ∧ get (snap s) "config_version" = Some v).

Lemma waiting_notice n d : waiting d → waiting (with_notice n d).
Proof. done. Qed.

Lemma waiting_question q d : waiting d → waiting (with_question q d).
Proof. done. Qed.

Lemma waiting_set key v d : waiting d → waiting (set_form key v d).
Proof. unfold waiting, set_form. cbn. by rewrite setValue_dirty. Qed.

Lemma waiting_mutate d data : waiting d → question d = NoQuestion → versioned (mutate d data).
Proof.
  intros Hw Hq. pose proof Hw as (Hr & Ho & Hrow & Hl & Hd & Hs). unfold mutate, mutationFn. rewrite Hrow, Hl. cbn [loadedFrom editConfigVersion].
  destruct (get (snap s) "config_version") as [v|] eqn:Ev.
  - destruct (negb (truthy (Some v))); [left; unfold reportError; by destruct (_ && _)|].
    destruct (transformFormDataToUpdatePayload data id) as [p|m]; cbn [res_bind]; [|left; unfold reportError; by destruct (_ && _)].
    right. split; [done|]. eexists _, v. split; [|done]. cbn. by rewrite Hr.
  - left. unfold reportError. by destruct (_ && _).
Qed.

Lemma waiting_models d data : waiting d → question d = NoQuestion → versioned (submitModels d data).
Proof.
  intros Hw Hq. unfold submitModels. destruct (_ && negb _); [by left|]. cbv zeta. destruct (_ && _ && _); [by left|by apply waiting_mutate].
Qed.

Lemma waiting_submit d : waiting d → question d = NoQuestion → versioned (handleSubmit canEditSensitive d).
Proof.
  intros Hw Hq. unfold handleSubmit. destruct (accepted _).
  - unfold onSubmit. repeat match goal with
      | |- versioned (if ?b then _ else _) => destruct b
      | |- versioned (let _ := _ in _) => cbv zeta
      | |- versioned (submitModels _ _) => by apply waiting_models
      | |- versioned _ => by left
      end.
  - left. unfold onInvalid. by destruct (hasAdvancedSettingsErrors _).
Qed.

(** Data that arrive leave a draft alone. *)
Lemma waiting_data d t : waiting d → waiting (dataArrives t d).
Proof.
  intros (Hr & Ho & Hrow & Hl & Hd & Hs). unfold dataArrives, loadEffect. cbn. rewrite Ho, Hrow, Hl. cbn [negb loadedFrom initializedSnapshot initializedChannel].
  destruct (same_snapshot (Some s) t); [done|]. rewrite bool_decide_true by done. rewrite Hd. done.
Qed.

Lemma versioned_step a b : versioned a → wait_step quiet a b → versioned b.
Proof.
  intros Hv Hs. destruct Hs as [e d Hq Hc]. destruct Hv as [Hw|(Hn & p & v & Hr & Hv)].
  - destruct e; try done; cbn [handle].
    + left. by apply waiting_data.
    + unfold handleStatusCodeRiskAction. destruct (question d); try by left. destruct confirmed; [by apply waiting_models|by left].
    + unfold handleMissingModelsAction. destruct (question d); try by left. destruct action; [by left|by apply waiting_mutate|].
      apply waiting_mutate; [by apply waiting_set|done].
    + unfold can in Hc. destruct Hw as (_ & _ & _ & _ & _ & Hf). destruct (question d); congruence.
  - right. destruct (idle_waits e d Hq Hc Hn) as [-> ->]. eauto.
Qed.
End Version.

(** C17: A save of an edited form carries the configuration version of the channel that
    the form was filled from. Whatever data of the channel arrive while the questions
    are shown, at most one update is sent, for the channel of the row and with that
    version, so that the server can tell when the channel was changed meanwhile. *)
Theorem save_sends_loaded_version d id s d' :
  reached d → can ESubmit d = true → currentRow d = Some id → initializedSnapshot (loaded d) = Some s → isDirty (d_form d) = true →
  rtc (wait_step quiet) (handle ESubmit d) d' →
  requests d' = requests d ∨ ∃ p v, requests d' = requests d ++ [Update id p v] ∧ get (snap s) "config_version" = Some v.
Proof.
  intros Hr Hc Hrow Hs Hd Hrun. destruct (reached_coherent d Hr) as (Hsnap & _ & _). unfold one_snapshot in Hsnap. rewrite Hs in Hsnap.
  destruct Hsnap as (Ho & id' & Hrow' & Hl & _). assert (id' = id) as -> by congruence.
  pose proof (can_idle _ _ Hc) as Hq. assert (Hb : isSubmitting d = false) by (unfold can in Hc; rewrite Hq in Hc; by destruct (isSubmitting d), (d_open d)).
  assert (Hv : versioned (requests d) id s (handle ESubmit d)) by (by apply waiting_submit).
  revert Hv. induction Hrun as [|a b c Hab _ IH]; intros Hv; [|by eapply IH, versioned_step].
  destruct Hv as [(Hreq & _)|(_ & p & v & Hreq & Hver)]; [by left|right; eauto].
Qed.

(** *** What is sent *)

Definition payload_of (r : Request) : payload := match r with Update _ p _ => p | Create c => cp_channel c end.

(** The text of a property of a request, empty when it is [null] or missing. *)
Definition sent_text (r : Request) (key : string) : jsstr := default [] (text_of (mjoin (map_get (js key) (payload_of r)))).

(** Texts of the form that requests carry. *)
Definition SENT_TEXTS : list string := ["models"; "model_mapping"; "status_code_mapping"]%string.

Lemma clean_text v : default [] (text_of (clean (Some v))) = default [] (text_of (Some v)).
Proof. by destruct v as [| | |[|]| |]. Qed.

Lemma or_text form key : typed form = true → key ∈ SENT_TEXTS → text_of (get form key) = None ∨ ∃ s, get form key = Some (JStr s).
Proof.
  intros Ht Hk. destruct (get form key) as [v|] eqn:E; [|by left].
  assert (Hty : ∃ r, assoc key channelFormSchema = Some (r, TString)).
  { unfold SENT_TEXTS in Hk. rewrite !elem_of_cons, elem_of_nil in Hk. destruct Hk as [->|[->|[->|[]]]]; eexists; reflexivity. }
  destruct Hty as [r Hty]. pose proof (typed_field form key v r TString Ht E Hty) as Hv. destruct v; try done. right. eauto.
Qed.

Lemma orv_text form key : typed form = true → key ∈ SENT_TEXTS →
  default [] (text_of (Some (orv (get form key) (JStr [])))) = default [] (text_of (get form key))
  ∧ default [] (text_of (clean (Some (orv (get form key) JNull)))) = default [] (text_of (get form key))
  ∧ default [] (text_of (clean (get form key))) = default [] (text_of (get form key)).
Proof.
  intros Ht Hk. pose proof (or_text form key Ht Hk) as [Hn|[[|c s] ->]]; [|done..].
  destruct (get form key) as [v|]; [|done]. destruct v as [|b|x|s| |]; cbn [text_of] in Hn; try done; unfold orv; cbn [truthy].
  - by destruct b.
  - by destruct (num_truthy x).
Qed.

Lemma update_texts data id p v key :
  typed data = true → refined data = true → transformFormDataToUpdatePayload data id = Ok p → key ∈ SENT_TEXTS →
  sent_text (Update id p v) key = default [] (text_of (get data key)).
Proof.
  intros Ht Hr Hp Hk. destruct (payload_get data id p Hr Hp) as (settings & _ & Hget). unfold sent_text. cbn [payload_of].
  destruct (orv_text data key Ht Hk) as (H1 & H2 & H3).
  unfold SENT_TEXTS in Hk. rewrite !elem_of_cons, elem_of_nil in Hk. destruct Hk as [->|[->|[->|[]]]]; rewrite Hget by done;
    lazy beta iota zeta delta [assoc clearedTable updateTable String.eqb Ascii.eqb Bool.eqb]; cbn [fmap option_fmap option_map mjoin option_join].
  - exact H3.
  - exact H1.
  - exact H1.
Qed.

Lemma create_texts data c key :
  typed data = true → transformFormDataToCreatePayload data = Ok c → key ∈ SENT_TEXTS →
  sent_text (Create c) key = default [] (text_of (get data key)).
Proof.
  intros Ht Hp Hk. unfold transformFormDataToCreatePayload in Hp.
  destruct (buildSettingJSON data) as [setting|]; cbn [res_bind] in Hp; [|done].
  destruct (buildSettingsJSON data) as [settings|]; cbn [res_bind] in Hp; [|done]. apply Ok_inj in Hp. rewrite <- Hp. clear Hp.
  unfold sent_text. cbn [payload_of cp_channel]. rewrite map_get_clean, map_get_table.
  destruct (orv_text data key Ht Hk) as (H1 & H2 & H3).
  unfold SENT_TEXTS in Hk. rewrite !elem_of_cons, elem_of_nil in Hk. destruct Hk as [->|[->|[->|[]]]];
    lazy beta iota zeta delta [assoc String.eqb Ascii.eqb Bool.eqb]; cbn [fmap option_fmap option_map mjoin option_join].
  - exact H3.
  - exact H2.
  - exact H2.
Qed.

(** What a mutation sends has the texts of the form. *)
Lemma mutate_texts d data r key :
  typed data = true → refined data = true → mutationFn d data = Ok r → key ∈ SENT_TEXTS →
  sent_text r key = default [] (text_of (get data key)).
Proof.
  intros Ht Hr Hm Hk. unfold mutationFn in Hm. destruct (currentRow d) as [id|].
  - destruct (editConfigVersion (loaded d)) as [v|]; [|done]. destruct (negb _); [done|].
    destruct (transformFormDataToUpdatePayload data id) as [p|] eqn:Ep; cbn [res_bind] in Hm; [|done]. apply Ok_inj in Hm. subst r.
    rewrite <- (update_texts data id p v key Ht Hr Ep Hk). unfold sent_text. cbn [payload_of]. destruct (_ && _ && _); [|done].
    rewrite map_get_set_ne; [done|]. intros E%js_inj. subst key. unfold SENT_TEXTS in Hk. rewrite !elem_of_cons, elem_of_nil in Hk. by destruct Hk as [|[|[|]]].
  - destruct (transformFormDataToCreatePayload data) as [c|] eqn:Ec; cbn [res_bind] in Hm; [|done]. apply Ok_inj in Hm. subst r.
    by apply create_texts.
Qed.
End Session.

(** ** A form library *)

(** A form that marks what was edited. *)
Record SimpleForm := mkSimple { sf_values : object; sf_defaults : object; sf_dirty : bool; sf_fields : list string }.

#[export] Instance simple_lib : FormLib := {|
  Form := SimpleForm;
  getValues := sf_values;
  defaultValues := sf_defaults;
  isDirty := sf_dirty;
  dirtyField f k := set_has k (sf_fields f);
  reset v _ := mkSimple v v false [];
  setValue k v f := mkSimple (map_set (js k) v (sf_values f)) (sf_defaults f) (sf_dirty f) (sf_fields f);
  setDirty k v f := mkSimple (map_set (js k) v (sf_values f)) (sf_defaults f) true (set_add (sf_fields f) k)
|}.

#[export] Instance simple_laws : FormLaws.
Proof. by split. Qed.

(** A stored channel, and a session that edits it. *)
Definition stored_channel (version : Z) : object := table
  [("id", JNum (num_of_Z 7)); ("config_version", JNum (num_of_Z version)); ("name", str "main"); ("type", JNum (num_of_Z 1));
   ("status", JNum (num_of_Z 1)); ("models", str "gpt-4o"); ("group", str "default"); ("settings", str "{}");
   ("channel_info", JObj [])]%string.

Definition shown_drawer : Drawer :=
  handle true (EOpen (Some (num_of_Z 7)) (Some (mkSnap 0 (stored_channel 3))))
    (initial (mkSimple CHANNEL_FORM_DEFAULT_VALUES CHANNEL_FORM_DEFAULT_VALUES false []) false).

Definition edited_drawer : Drawer := handle true (EEdit "name" (str "renamed")) shown_drawer.

Lemma shown_reached : reached true shown_drawer.
Proof.
  eexists _, _. eapply rtc_r; [apply rtc_refl|]. apply step_event. reflexivity.
Qed.

Lemma edited_reached : reached true edited_drawer.
Proof.
  destruct shown_reached as (f & p & Hr). exists f, p. eapply rtc_r; [exact Hr|]. apply step_event. vm_compute. reflexivity.
Qed.

Lemma save_sends_loaded_version_witness :
  let d' := handle true (EData (mkSnap 1 (stored_channel 4))) (handle true ESubmit edited_drawer) in
  length (requests d') = 1%nat ∧
  (requests d' = [] ∨ ∃ p v, requests d' = [] ++ [Update (num_of_Z 7) p v] ∧ get (stored_channel 3) "config_version" = Some v).
Proof.
  cbv zeta. split; [vm_compute; reflexivity|].
  apply (save_sends_loaded_version true edited_drawer (num_of_Z 7) (mkSnap 0 (stored_channel 3))
    (handle true (EData (mkSnap 1 (stored_channel 4))) (handle true ESubmit edited_drawer)));
    [exact edited_reached|vm_compute; reflexivity..|].
  eapply rtc_l; [|apply rtc_refl]. apply wait_event; vm_compute; reflexivity.
Defined.
