(* ===== verification/ChannelSave.v ===== *)
(** * The channel drawer: what a save guarantees

    Risky redirects are sent only when they were confirmed; models that are added to
    the list complete it; the guardrail shows what the submission asks about; and two
    ways in which changes are lost, because some handlers do not mark them. *)

From stdpp Require Import relations.
From S2P Require Import Prelude JsNum Json NumText IntNum JsValue RiskGuard ModelMapping MappingResolve MappingParse ChannelForm ChannelTransform ChannelUtils ChannelDrawer ChannelSubmit ChannelLaws ChannelReopen ChannelSession.
From Stdlib Require Import Floats.SpecFloat.

#[local] Open Scope js_scope.

Lemma accepted_parts data : accepted data = true → typed data = true ∧ refined data = true.
Proof. unfold accepted. rewrite !andb_true_iff. tauto. Qed.

(** A field that is set to a value of its type. *)
Lemma get_set data k key v : get (map_set (js k) v data) key = if String.eqb key k then Some v else get data key.
Proof.
  unfold get. destruct (String.eqb_spec key k) as [->|Hne]; [apply map_get_set_eq|]. apply map_get_set_ne. by intros E%js_inj.
Qed.

Lemma assoc_elem {A} k (x : A) l : NoDup (map fst l) → (k, x) ∈ l → assoc k l = Some x.
Proof.
  induction l as [|[k' y] l IH]; intros Hd Hin; [by apply elem_of_nil in Hin|]. cbn [map fst] in Hd. apply NoDup_cons in Hd as [Hn Hd].
  cbn [assoc]. apply elem_of_cons in Hin as [[= <- <-]|Hin]; [by rewrite String.eqb_refl|].
  destruct (String.eqb_spec k k') as [->|_]; [|by apply IH]. destruct Hn. apply list_elem_of_fmap. by exists (k', x).
Qed.

Lemma typed_models data s : typed data = true → typed (map_set (js "models") (JStr s) data) = true.
Proof.
  unfold typed. rewrite !forallb_forall. intros Ht [k [r ty]] Hin. specialize (Ht _ Hin). unfold field_typed in *. cbn [fst snd] in *.
  rewrite get_set. destruct (String.eqb_spec k "models") as [->|_]; [|exact Ht].
  apply list_elem_of_In, assoc_elem in Hin; [|apply (bool_decide_unpack _); vm_compute; exact I]. vm_compute in Hin. by injection Hin as <- <-.
Qed.

Lemma refined_models data s : refined data = true → refined (map_set (js "models") (JStr s) data) = true.
Proof.
  unfold refined. rewrite !forallb_forall. intros Hr x Hin. specialize (Hr x Hin). rewrite get_set.
  destruct (String.eqb_spec x.1.1 "models") as [E|_]; [|exact Hr].
  assert (Hk : forallb (fun r : string * (option jsstr → bool) * string => negb (String.eqb r.1.1 "models")) refinements = true) by reflexivity.
  rewrite forallb_forall in Hk. specialize (Hk x Hin). by rewrite E in Hk.
Qed.

Section Save.
Context `{FormLib} `{!FormLaws} (canEditSensitive : bool).

Notation can := (can).
Notation handle := (handle canEditSensitive).

(** ** Risky redirects *)

Section Risk.
Context (sent : list Request) (original : jsstr).

(** Redirects that the stored mapping does not have. *)
Definition no_new_risk (mapping : jsstr) : Prop := RiskGuard.collectNewDisallowedStatusCodeRedirects original mapping = [].

Definition harmless (q : Question) : Prop :=
  match q with
  | AskMissing data _ _ => typed data = true ∧ refined data = true ∧ no_new_risk (status_text data)
  | AskRisk data _ => True
  | NoQuestion => True
  end.

Definition guarded (d : Drawer) : Prop :=
  (requests d = sent ∧ isSubmitting d = false ∧ harmless (question d))
  ∨ (question d = NoQuestion ∧ ∃ r, requests d = sent ++ [r] ∧ no_new_risk (sent_text r "status_code_mapping")).

Lemma guarded_mutate d data :
  requests d = sent → isSubmitting d = false → question d = NoQuestion →
  typed data = true → refined data = true → no_new_risk (status_text data) → guarded (mutate d data).
Proof.
  intros Hr Hs Hq Ht Hf Hn. unfold mutate. destruct (mutationFn d data) as [r|m] eqn:Em.
  - right. split; [done|]. exists r. split; [cbn; by rewrite Hr|].
    rewrite (mutate_texts d data r "status_code_mapping" Ht Hf Em); [exact Hn|]. unfold SENT_TEXTS. rewrite !elem_of_cons. tauto.
  - left. unfold reportError. destruct (_ && _); cbn; by rewrite Hq.
Qed.

Lemma guarded_models d data :
  requests d = sent → isSubmitting d = false → question d = NoQuestion →
  typed data = true → refined data = true → no_new_risk (status_text data) → guarded (submitModels d data).
Proof.
  intros Hr Hs Hq Ht Hf Hn. unfold submitModels. destruct (_ && negb _); [left; cbn; by rewrite Hq|]. cbv zeta.
  destruct (_ && _ && _); [by left|by apply guarded_mutate].
Qed.

Lemma blank_no_risk mapping : nonempty (trim mapping) = false → no_new_risk mapping.
Proof.
  intros Hb. unfold no_new_risk, RiskGuard.collectNewDisallowedStatusCodeRedirects, RiskGuard.collectDisallowedStatusCodeRedirects, RiskGuard.mappingEntries.
  by rewrite Hb.
Qed.

Lemma guarded_submit d :
  requests d = sent → isSubmitting d = false → question d = NoQuestion → initialStatusCodeMapping (loaded d) = original →
  guarded (handleSubmit canEditSensitive d).
Proof.
  intros Hr Hs Hq Ho. assert (Hidle : guarded d) by (left; by rewrite Hq). unfold handleSubmit. destruct (accepted _) eqn:Ha.
  - apply accepted_parts in Ha as [Ht Hf]. unfold onSubmit. destruct (mappingHasErrors d); [done|].
    destruct (negb (isEditing d) && _); [exact Hidle|]. destruct (sensitiveLocked _ _ && _); [exact Hidle|].
    destruct (nonempty (trim (status_text _))) eqn:Eb; [|apply guarded_models; try done; by apply blank_no_risk].
    cbv zeta. destruct (nonempty (RiskGuard.collectInvalidStatusCodeEntries _)); [exact Hidle|]. rewrite Ho.
    destruct (RiskGuard.collectNewDisallowedStatusCodeRedirects original _) eqn:En; cbn [nonempty]; [by apply guarded_models|by left].
  - left. unfold onInvalid. destruct (hasAdvancedSettingsErrors _); cbn; by rewrite Hq.
Qed.

Lemma guarded_step a b : guarded a → wait_step canEditSensitive unconfirmed a b → guarded b.
Proof.
  intros Hg Hs. destruct Hs as [e d Hq Hc]. assert (Hquiet : quiet e = true) by (destruct e as [| | | | | | | | | | | | | | | | |[|]| |]; done).
  destruct Hg as [(Hr & Hi & Hh)|(Hn & r & Hr & Hv)].
  - destruct e; try done; cbn [ChannelSession.handle].
    + left. unfold dataArrives. rewrite loadEffect_requests.
      destruct (loadEffect_question (with_props (d_open d) (currentRow d) (Some s) d)) as [-> ->]. done.
    + destruct confirmed; [done|]. unfold handleStatusCodeRiskAction. destruct (question d) eqn:Eq; left; cbn; by rewrite ?Eq.
    + unfold handleMissingModelsAction. destruct (question d) as [| |data nm mm] eqn:Eq; [by left; rewrite Eq..|].
      destruct Hh as (Ht & Hf & Hn). destruct action; [by left|by apply guarded_mutate|].
      apply guarded_mutate; try done; [by apply typed_models|by apply refined_models|].
      unfold status_text in *. rewrite get_set. exact Hn.
    + unfold ChannelSession.can in Hc. destruct (question d); congruence.
  - right. destruct (idle_waits canEditSensitive e d Hquiet Hc Hn) as [-> ->]. eauto.
Qed.
End Risk.

(** C27: A redirect of a protected status that the stored channel does not have is never
    sent unless the user confirmed it: without the confirmation, whatever else happens
    while the save waits, a request has no redirect that is new and risky. *)
Theorem risky_redirect_confirmed d d' r :
  can ESubmit d = true → rtc (wait_step canEditSensitive unconfirmed) (handle ESubmit d) d' → requests d' = requests d ++ [r] →
  RiskGuard.collectNewDisallowedStatusCodeRedirects (initialStatusCodeMapping (loaded d)) (sent_text r "status_code_mapping") = [].
Proof.
  intros Hc Hrun Hr. pose proof (can_idle _ _ Hc) as Hq.
  assert (Hb : isSubmitting d = false) by (unfold ChannelSession.can in Hc; rewrite Hq in Hc; by destruct (isSubmitting d), (d_open d)).
  assert (Hg : guarded (requests d) (initialStatusCodeMapping (loaded d)) (handle ESubmit d)) by (by apply guarded_submit).
  revert Hg. induction Hrun as [x|a b c Hab _ IH]; intros Hg; [|by eapply IH, guarded_step; [..|exact Hab]].
  destruct Hg as [(Hreq & _)|(_ & r' & Hreq & Hv)]; rewrite Hr in Hreq.
  - apply (f_equal length) in Hreq. rewrite length_app in Hreq. cbn in Hreq. lia.
  - apply app_inj_tail in Hreq as [_ ->]. exact Hv.
Qed.

(** ** Missing models *)

(** A name that survives a list in a text. *)
Definition list_name (s : jsstr) : Prop := 44%N ∉ s ∧ trim s = s ∧ s ≠ [].

Lemma parse_join names : Forall list_name names → ModelMapping.parseModelsString (join [44%N] names) = names.
Proof.
  intros Hn. unfold ModelMapping.parseModelsString. destruct (decide (names = [])) as [->|Hne]; [done|].
  assert (Hs : split_char 44 (join [44%N] names) = names).
  { apply split_char_join; [done|]. eapply Forall_impl; [exact Hn|]. by intros x (Hx & _). }
  destruct (join [44%N] names) eqn:E; [rewrite split_char_fresh in Hs by set_solver; subst names; apply Forall_cons in Hn as [(_ & _ & Hx) _]; done|].
  cbn [nonempty]. rewrite Hs. clear -Hn. induction Hn as [|x l (_ & Hx & Hx') Hl IH]; [done|]. cbn [map List.filter]. rewrite Hx.
  destruct x; [done|]. cbn [nonempty]. by rewrite IH.
Qed.

Lemma parsed_names text : Forall list_name (ModelMapping.parseModelsString text).
Proof.
  unfold ModelMapping.parseModelsString. destruct (nonempty text); [|constructor]. apply Forall_forall. intros x Hx.
  apply elem_of_List_filter in Hx as [Hx Hn]. apply list_elem_of_fmap in Hx as (seg & -> & Hseg). unfold list_name. split_and!.
  - intros Hin%trim_elem_of. pose proof (split_char_segment_fresh 44 text) as Hf. rewrite Forall_forall in Hf. by apply (Hf seg).
  - apply trim_idem.
  - by destruct (trim seg).
Qed.

Lemma source_names raw config s :
  ModelMapping.parseModelMappingConfig raw = Ok config → s ∈ ModelMapping.mappingSources config → trim s = s ∧ s ≠ [].
Proof.
  intros Hp%MappingParse.parse_wf Hs. unfold ModelMapping.mappingSources in Hs. rewrite elem_of_sort_by, elem_of_set_of in Hs.
  assert (Hv : MappingParse.valid_name 255 s).
  { destruct config as [legacy|rules]; cbn [MappingParse.wf_config] in Hp.
    - apply list_elem_of_fmap in Hs as (e & -> & He). destruct Hp as (_ & _ & Hf & _). rewrite Forall_forall in Hf. by apply Hf.
    - apply list_elem_of_fmap in Hs as (r & -> & Hr). apply elem_of_List_filter in Hr as [Hr _].
      destruct Hp as (_ & _ & Hf). rewrite Forall_forall in Hf. by apply Hf. }
  unfold MappingParse.valid_name in Hv. naive_solver.
Qed.

(** Added to the list, the missing models are no longer missing. *)
Lemma added_none_missing mapping models :
  Forall list_name models →
  let missing := ModelMapping.findMissingModelsInMapping mapping models in
  Forall (fun m => 44%N ∉ m) missing →
  let all := set_of (models ++ missing) in
  ModelMapping.parseModelsString (ModelMapping.formatModelsArray all) = all ∧ ModelMapping.findMissingModelsInMapping mapping all = [].
Proof.
  cbv zeta. intros Hm Hc. destruct (MappingParse.missing_models_spec mapping models) as (_ & _ & Hspec).
  set (missing := ModelMapping.findMissingModelsInMapping mapping models) in *.
  assert (Hnames : Forall list_name (set_of (models ++ missing))).
  { apply Forall_forall. intros x Hx. rewrite elem_of_set_of in Hx. apply elem_of_app in Hx as [Hx|Hx].
    - rewrite Forall_forall in Hm. by apply Hm.
    - rewrite Forall_forall in Hc. destruct (proj1 (Hspec x) Hx) as (config & Hp & Hs & _). split; [by apply Hc|]. by eapply source_names. }
  split.
  - unfold ModelMapping.formatModelsArray. rewrite set_of_id by apply NoDup_set_of. by apply parse_join.
  - destruct (MappingParse.missing_models_spec mapping (set_of (models ++ missing))) as (_ & _ & Hspec').
    destruct (ModelMapping.findMissingModelsInMapping mapping (set_of (models ++ missing))) as [|x l] eqn:E; [done|exfalso].
    destruct (proj1 (Hspec' x)) as (config & Hp & Hs & Hno); [set_solver|].
    assert (Hin : x ∈ models ++ missing).
    { apply elem_of_app. destruct (decide (x ∈ models)) as [|Hx]; [by left|right]. apply Hspec. exists config. split_and!; [done|done|].
      intros m Hmm Et. apply Hx. rewrite Forall_forall in Hm. destruct (Hm m Hmm) as (_ & Ht & _). rewrite Ht in Et. by subst. }
    apply (Hno x); [by rewrite elem_of_set_of|]. rewrite <- elem_of_set_of in Hin. rewrite Forall_forall in Hnames. by apply Hnames.
Qed.

(** When a save asks about models of the mapping that are not in the list and they
    are added, one request is sent, its list has the models that were listed and the
    missing ones, and by the check of the form itself nothing is missing any more. The
    names of the missing models contain no comma, which separates the list. *)
Theorem added_models_complete d data nm mm :
  reached canEditSensitive d → question d = AskMissing data nm mm → Forall (fun m => 44%N ∉ m) mm →
  (isEditing d = true → truthy (editConfigVersion (loaded d)) = true) →
  ∃ r, requests (handle (EMissing Add) d) = requests d ++ [r]
    ∧ ModelMapping.parseModelsString (sent_text r "models") = set_of (nm ++ mm)
    ∧ ModelMapping.findMissingModelsInMapping (sent_text r "model_mapping") (ModelMapping.parseModelsString (sent_text r "models")) = [].
Proof.
  intros Hr Hq Hc Hv. destruct (reached_coherent _ d Hr) as (_ & Ha & _). rewrite Hq in Ha. destruct Ha as (Hacc & Hnm & Hmm & _).
  apply accepted_parts in Hacc as [Ht Hf]. cbn [ChannelSession.handle]. unfold handleMissingModelsAction. rewrite Hq. cbv zeta.
  set (models := ModelMapping.formatModelsArray (set_of (nm ++ mm))). set (data' := map_set (js "models") (JStr models) data).
  assert (Ht' : typed data' = true) by (by apply typed_models). assert (Hf' : refined data' = true) by (by apply refined_models).
  set (d1 := set_form "models" (JStr models) (with_question NoQuestion d)).
  assert (Hm : ∃ r, mutationFn d1 data' = Ok r).
  { unfold mutationFn. change (currentRow d1) with (currentRow d). change (loaded d1) with (loaded d). unfold isEditing in Hv.
    destruct (currentRow d) as [id|].
    - destruct (editConfigVersion (loaded d)) as [v|]; [|by specialize (Hv eq_refl)]. rewrite (Hv eq_refl). cbn [negb].
      destruct (form_sends data' id Ht' Hf') as [[p ->] _]. cbn [res_bind]. eauto.
    - destruct (form_sends data' (num_of_Z 0) Ht' Hf') as [_ [c ->]]. cbn [res_bind]. eauto. }
  destruct Hm as [r Hm]. exists r. unfold mutate. rewrite Hm. split; [done|].
  assert (Hks : "models"%string ∈ SENT_TEXTS ∧ "model_mapping"%string ∈ SENT_TEXTS) by (unfold SENT_TEXTS; rewrite !elem_of_cons; tauto).
  rewrite !(mutate_texts d1 data' r _ Ht' Hf' Hm) by apply Hks. unfold data'. rewrite !get_set. cbn [String.eqb Ascii.eqb Bool.eqb andb text_of default from_option].
  unfold id. change (default [] (text_of (get data "model_mapping"))) with (mapping_text data).
  subst mm. destruct (added_none_missing (mapping_text data) nm) as [H1 H2]; [subst nm; apply parsed_names|done|].
  unfold models. rewrite H1. done.
Qed.
End Save.

(** ** The guardrail *)

Lemma fold_result_nonempty {A} (f : ModelMapping.walk → A → res ModelMapping.walk) l w w' :
  (∀ w a w', f w a = Ok w' → ModelMapping.result w' ≠ []) → l ≠ [] → res_fold f w l = Ok w' → ModelMapping.result w' ≠ [].
Proof.
  intros Hf Hl. revert w Hl. induction l as [|a l IH]; intros w Hl; [done|]. cbn [res_fold]. intros (w1 & H1 & H2)%res_bind_Ok.
  destruct l as [|b l]; [|by apply (IH w1)]. cbn [res_fold] in H2. injection H2 as <-. by eapply Hf.
Qed.

Lemma add_nonempty t w w' : ModelMapping.add t w = Ok w' → ModelMapping.result w' ≠ [].
Proof.
  unfold ModelMapping.add. destruct (128 <? _)%nat; [done|]. intros [= <-]. cbn. intros E.
  assert (Hin : t ∈ set_add (ModelMapping.result w) t) by (apply elem_of_set_add; by right). rewrite E in Hin. by apply elem_of_nil in Hin.
Qed.

Lemma expand_nonempty legacy :
  (∀ k ts, map_get k legacy = Some ts → ts ≠ []) →
  ∀ fuel w current depth w', ModelMapping.expand legacy fuel w current depth = Ok w' → ModelMapping.result w' ≠ [].
Proof.
  intros Hl. induction fuel as [|fuel IH]; intros w current depth w'; [done|]. rewrite MappingResolve.expand_unfold.
  intros (w1 & _ & Hw)%res_bind_Ok. destruct (32 <? depth)%nat; [done|]. destruct (set_has current _); [done|].
  destruct (map_get current legacy) as [ts|] eqn:E; [|by eapply add_nonempty].
  apply res_bind_Ok in Hw as (w2 & Hw & [= <-]). cbn. eapply fold_result_nonempty; [|by eapply Hl|exact Hw].
  clear -IH. intros w a w' H. unfold MappingResolve.visit in H. destruct (bool_decide (a = current)); [|by eapply IH].
  apply res_bind_Ok in H as (w1 & _ & H). by eapply add_nonempty.
Qed.

(** A source of a mapping stands for at least one model. *)
Lemma candidates_nonempty raw config s b l b' :
  ModelMapping.parseModelMappingConfig raw = Ok config → s ∈ ModelMapping.mappingSources config →
  ModelMapping.mappingCandidates config s b = Ok (l, b') → l ≠ [].
Proof.
  intros Hp%MappingParse.parse_wf Hs. unfold ModelMapping.mappingCandidates. destruct config as [legacy|rules].
  - apply MappingResolve.mappingSources_V1 in Hs. rewrite Hs. cbn [negb]. intros (w & Hw & [= <- <-])%res_bind_Ok.
    eapply expand_nonempty; [|exact Hw]. intros k ts Hk%map_get_Some. destruct Hp as (_ & _ & Hf & _). rewrite Forall_forall in Hf.
    by destruct (Hf _ Hk) as (_ & Hne & _).
  - intros (w & Hw & [= <- <-])%res_bind_Ok. eapply fold_result_nonempty; [|..|exact Hw]; [intros ? ? ?; apply add_nonempty|].
    unfold ModelMapping.mappingSources in Hs. rewrite elem_of_sort_by, elem_of_set_of in Hs. apply list_elem_of_fmap in Hs as (r & -> & Hr).
    apply elem_of_List_filter in Hr as [Hr He].
    assert (Hin : r ∈ sort_by (fun a b => (ModelMapping.priority b - ModelMapping.priority a)%Z)
      (List.filter (fun r0 => ModelMapping.enabled r0 && bool_decide (ModelMapping.from r0 = ModelMapping.from r)) rules)).
    { apply elem_of_sort_by, elem_of_List_filter. split; [done|]. rewrite He. by rewrite bool_decide_true. }
    intros E. rewrite E in Hin. by apply elem_of_nil in Hin.
Qed.

Lemma foldl_set_add_same {A} `{EqDecision A} (acc : list A) x n : foldl set_add acc (x :: replicate n x) = set_add acc x.
Proof.
  cbn [foldl]. induction n as [|n IH]; [done|]. cbn [replicate foldl].
  replace (set_add (set_add acc x) x) with (set_add acc x); [done|]. unfold set_add at 2. by rewrite decide_True by (apply elem_of_set_add; by right).
Qed.

Lemma guardrail_sources config (q : jsstr → bool) sources :
  (∀ s, s ∈ sources → ∃ l b, ModelMapping.mappingCandidates config s 8192 = Ok (l, b) ∧ l ≠ []) →
  ∃ es, guardrailEntries config sources = Ok es ∧
  ∀ acc, foldl set_add acc (map fst (List.filter (fun e => q e.1) es)) = foldl set_add acc (List.filter q sources).
Proof.
  induction sources as [|s sources IH]; intros Hc; [by exists []|]. destruct (Hc s) as (l & b & Hl & Hne); [set_solver|].
  destruct IH as (es & He & Hacc); [set_solver|]. cbn [guardrailEntries]. rewrite Hl. cbn [res_bind]. rewrite He. cbn [res_bind].
  eexists. split; [done|]. intros acc. rewrite List.filter_app, map_app, foldl_app, Hacc. cbn [List.filter].
  assert (Hb : map fst (List.filter (fun e => q e.1) (map (fun target => (s, target)) l)) = if q s then replicate (length l) s else []).
  { clear. induction l as [|t l IH]; [by destruct (q s)|]. cbn [map List.filter fst]. destruct (q s); [|exact IH]. cbn [map length replicate fst]. by rewrite IH. }
  rewrite Hb. destruct (q s); [|done]. destruct l as [|t l]; [done|]. cbn [length replicate]. by rewrite foldl_set_add_same.
Qed.

(** The guardrail under a valid model mapping warns of exactly the models that saving
    asks about: the sources that are not in the list of models, in the same order. *)
Theorem guardrail_matches_question mapping modelsText :
  trim mapping ≠ [] → (ModelMapping.validateModelMappingJson mapping).1 = true →
  let models := ModelMapping.parseModelsString modelsText in
  let g := modelMappingGuardrail (Some mapping) models in
  invalidJson g = false ∧ missingSourceModels g = ModelMapping.findMissingModelsInMapping mapping models.
Proof.
  intros Hb Hv models g. assert (Hv' : ModelMapping.validateModelMappingJson mapping = (true, None)).
  { unfold ModelMapping.validateModelMappingJson in *. by destruct (ModelMapping.checkMapping mapping). }
  apply MappingParse.validate_spec in Hv' as (config & Hp & _ & Hc & _). unfold g, modelMappingGuardrail, trimmed_text.
  cbn [default from_option]. unfold id. rewrite (proj2 (nonempty_true _) Hb). cbn [negb]. rewrite Hp. cbn [res_bind].
  destruct (guardrail_sources config (fun s => nonempty s && negb (set_has s models)) (ModelMapping.mappingSources config)) as (es & He & Hacc).
  { intros s Hs. destruct (Hc s Hs) as (l & b & Hl). exists l, b. split; [done|]. by eapply candidates_nonempty. }
  rewrite He. cbn [invalidJson missingSourceModels]. split; [done|]. unfold set_of. rewrite Hacc. fold (set_of (List.filter (fun s => nonempty s && negb (set_has s models)) (ModelMapping.mappingSources config))).
  rewrite set_of_id.
  - unfold ModelMapping.findMissingModelsInMapping, ModelMapping.extractMappingSourceModels. rewrite Hp. apply List.filter_ext_in.
    intros s Hs%list_elem_of_In. destruct (source_names mapping config s Hp Hs) as [_ Hne]. destruct s as [|c s]; [done|]. cbn [nonempty andb]. f_equal.
    apply eq_true_iff_eq. rewrite !set_has_spec, elem_of_set_of. pose proof (parsed_names modelsText) as Hn. fold models in Hn.
    rewrite Forall_forall in Hn. split.
    + intros Hin. apply list_elem_of_fmap. exists (c :: s). split; [|done]. unfold ModelMapping.normalizeModelName. by destruct (Hn _ Hin) as (_ & -> & _).
    + intros (m & -> & Hm)%list_elem_of_fmap. unfold ModelMapping.normalizeModelName. by destruct (Hn _ Hm) as (_ & -> & _).
  - apply NoDup_ListNoDup, List.NoDup_filter, NoDup_ListNoDup. unfold ModelMapping.mappingSources. rewrite sort_by_perm. apply NoDup_set_of.
Qed.

(** ** Questions end *)

Section Settle.
Context `{FormLib} `{!FormLaws} (canEditSensitive : bool).

Notation handle := (handle canEditSensitive).

(** A run of the events that can happen while a save waits. *)
Inductive wait_run : Drawer → list Event → Drawer → Prop :=
  | run_nil d : wait_run d [] d
  | run_cons e evs d d' : quiet e = true → can e d = true → wait_run (handle e d) evs d' → wait_run d (e :: evs) d'.

Definition is_answer (e : Event) : bool := match e with ERisk _ | EMissing _ => true | _ => false end.
Definition answers (evs : list Event) : nat := length (List.filter is_answer evs).

(** How many questions may still come. *)
Definition rank (q : Question) : nat := match q with NoQuestion => 0 | AskMissing _ _ _ => 1 | AskRisk _ _ => 2 end.

Lemma mutate_question d data : question (mutate d data) = question d.
Proof. unfold mutate. destruct (mutationFn d data); [done|]. unfold reportError. by destruct (_ && _). Qed.

Lemma models_rank d data : question d = NoQuestion → (rank (question (submitModels d data)) <= 1)%nat.
Proof.
  intros Hq. unfold submitModels. destruct (_ && negb _); [cbn; rewrite Hq; cbn; lia|]. cbv zeta.
  destruct (_ && _ && _); [cbn; lia|]. rewrite mutate_question, Hq. cbn. lia.
Qed.

Lemma submit_rank d : question d = NoQuestion → (rank (question (handleSubmit canEditSensitive d)) <= 2)%nat.
Proof.
  intros Hq. assert (Hz : (rank (question d) <= 2)%nat) by (rewrite Hq; cbn; lia). unfold handleSubmit. destruct (accepted _).
  - pose proof (models_rank d (getValues (d_form d)) Hq). unfold onSubmit.
    repeat match goal with |- context[if ?b then _ else _] => destruct b end; cbn; try lia.
  - unfold onInvalid. destruct (hasAdvancedSettingsErrors _); cbn; exact Hz.
Qed.

Lemma wait_rank e d :
  quiet e = true → can e d = true → (rank (question (handle e d)) + (if is_answer e then 1 else 0) <= rank (question d))%nat.
Proof.
  intros Hq Hc. destruct e; try done; cbn [ChannelSession.handle is_answer].
  - unfold dataArrives. destruct (loadEffect_question (with_props (d_open d) (currentRow d) (Some s) d)) as [-> _]. cbn. lia.
  - unfold handleStatusCodeRiskAction. unfold can in Hc. destruct (question d) eqn:E; try done. cbv zeta. destruct confirmed; [|cbn; lia].
    pose proof (models_rank (with_question NoQuestion d) data eq_refl). cbn [rank]. lia.
  - unfold handleMissingModelsAction. unfold can in Hc. destruct (question d) eqn:E; try done. cbv zeta.
    destruct action; rewrite ?mutate_question; cbn; lia.
  - unfold answerArrives. cbv zeta. destruct a.
    + unfold closed. match goal with |- context[loadEffect ?x] => destruct (loadEffect_question x) as [-> _] end. cbn. lia.
    + unfold reportError. destruct (_ && _); cbn; lia.
    + unfold reportError. destruct (_ && _); cbn; lia.
Qed.

Lemma run_rank d evs d' : wait_run d evs d' → (rank (question d') + answers evs <= rank (question d))%nat.
Proof.
  induction 1 as [d|e evs d d' Hq Hc _ IH]; [cbn; lia|]. pose proof (wait_rank e d Hq Hc). unfold answers in *. cbn [List.filter].
  destruct (is_answer e); cbn [length] in *; lia.
Qed.

(** C40: A save comes to an end: it asks at most two questions, each question that is
    shown can be answered, and once as many answers were given as questions can come,
    none is left, whatever arrives in between. *)
Theorem save_settles d evs d' :
  can ESubmit d = true → wait_run (handle ESubmit d) evs d' →
  (answers evs <= 2)%nat
  ∧ (answers evs = 2%nat → question d' = NoQuestion)
  ∧ (question d' = NoQuestion ∨ ∃ e, is_answer e = true ∧ can e d' = true ∧ (rank (question (handle e d')) < rank (question d'))%nat).
Proof.
  intros Hc Hrun. pose proof (submit_rank d (can_idle _ _ Hc)) as Hs. pose proof (run_rank _ _ _ Hrun) as Hr.
  change (question (handle ESubmit d)) with (question (handleSubmit canEditSensitive d)) in Hr. split_and!.
  - lia.
  - intros Ha. destruct (question d'); cbn in Hr; [done|lia|lia].
  - destruct (question d') as [|data items|data nm mm] eqn:Eq; [by left|right..].
    + exists (ERisk false). assert (Hcan : can (ERisk false) d' = true) by (unfold can; by rewrite Eq). split_and!; [done|done|].
      pose proof (wait_rank (ERisk false) d' eq_refl Hcan) as Hd. rewrite Eq in Hd. cbn [is_answer] in Hd. lia.
    + exists (EMissing Cancel). assert (Hcan : can (EMissing Cancel) d' = true) by (unfold can; by rewrite Eq). split_and!; [done|done|].
      pose proof (wait_rank (EMissing Cancel) d' eq_refl Hcan) as Hd. rewrite Eq in Hd. cbn [is_answer] in Hd. lia.
Qed.

(** ** Changes that are not marked *)

(** Models that are picked do not mark the form: data that arrive reset it, and the
    picked models are gone. *)
Theorem picked_models_lost d id old new selected :
  d_open d = true → currentRow d = Some id → initializedSnapshot (loaded d) = Some old → snap_ref old ≠ snap_ref new →
  isDirty (d_form d) = false → mappingHasErrors d = false →
  getValues (d_form (handle (EData new) (handle (EModels selected) d))) = transformChannelToFormDefaults (snap new).
Proof.
  intros Ho Hr Hs Hne Hd Hm. cbn [ChannelSession.handle]. unfold dataArrives, loadEffect, handleModelsChange, set_form. cbn. rewrite Ho, Hr, Hs. cbn [negb same_snapshot].
  rewrite (proj2 (Nat.eqb_neq _ _) Hne), setValue_dirty, Hd, Hm. cbn [orb]. rewrite andb_false_r. cbn. apply reset_values.
Qed.

(** A save that waits for an answer while the form is not marked is sent with the
    version of data that arrive meanwhile, although its values are older. *)
Theorem unmarked_save_takes_new_version d id old new data nm mm v :
  d_open d = true → currentRow d = Some id → initializedSnapshot (loaded d) = Some old → snap_ref old ≠ snap_ref new →
  isDirty (d_form d) = false → mappingHasErrors d = false → question d = AskMissing data nm mm → accepted data = true →
  get (snap new) "config_version" = Some v → truthy (Some v) = true →
  ∃ p, requests (handle (EMissing Submit) (handle (EData new) d)) = requests d ++ [Update id p v].
Proof.
  intros Ho Hr Hs Hne Hd Hm Hq Ha Hv Htv. apply accepted_parts in Ha as [Ht Hf]. destruct (form_sends data id Ht Hf) as [[p Hp] _].
  cbn [ChannelSession.handle]. unfold dataArrives, loadEffect. cbn. rewrite Ho, Hr, Hs. cbn [negb same_snapshot].
  rewrite (proj2 (Nat.eqb_neq _ _) Hne), Hd, Hm. cbn [orb]. rewrite andb_false_r. unfold handleMissingModelsAction. cbn. rewrite Hq.
  unfold mutate, mutationFn. cbn. rewrite Hv. unfold truthy in Htv. rewrite Htv. cbn [negb]. rewrite Hp. cbn [res_bind]. eauto.
Qed.
End Settle.

(** ** Sessions *)

Lemma risky_redirect_confirmed_witness :
  ∃ r, requests (handle true ESubmit edited_drawer) = requests edited_drawer ++ [r] ∧
  RiskGuard.collectNewDisallowedStatusCodeRedirects (initialStatusCodeMapping (loaded edited_drawer)) (sent_text r "status_code_mapping") = [].
Proof.
  eexists. split; [vm_compute; reflexivity|].
  eapply (risky_redirect_confirmed true edited_drawer (handle true ESubmit edited_drawer)); [vm_compute; reflexivity|apply rtc_refl|].
  vm_compute. reflexivity.
Defined.

(** A session in which a mapping names a model that is not in the list. *)
Definition mapped_drawer : Drawer := handle true (EEdit "model_mapping" (JStr (jsq "{'x':'gpt-4o'}"))) shown_drawer.
Definition asking_drawer : Drawer := handle true ESubmit mapped_drawer.

Lemma asking_reached : reached true asking_drawer.
Proof.
  destruct shown_reached as (f & p & Hr). exists f, p. eapply rtc_r; [eapply rtc_r; [exact Hr|]|].
  - apply (step_event true (EEdit "model_mapping" (JStr (jsq "{'x':'gpt-4o'}"))) shown_drawer). reflexivity.
  - apply (step_event true ESubmit mapped_drawer). vm_compute. reflexivity.
Qed.

Lemma added_models_complete_witness :
  ∃ r, requests (handle true (EMissing Add) asking_drawer) = requests asking_drawer ++ [r]
    ∧ ModelMapping.parseModelsString (sent_text r "models") = set_of ([js "gpt-4o"] ++ [js "x"])
    ∧ ModelMapping.findMissingModelsInMapping (sent_text r "model_mapping") (ModelMapping.parseModelsString (sent_text r "models")) = [].
Proof.
  apply (added_models_complete true asking_drawer (getValues (d_form mapped_drawer)) [js "gpt-4o"] [js "x"]);
    [exact asking_reached|vm_compute; reflexivity|apply (bool_decide_unpack _); vm_compute; exact I|vm_compute; reflexivity].
Defined.

Lemma guardrail_matches_question_witness :
  let g := modelMappingGuardrail (Some (jsq "{'x':'gpt-4o'}")) (ModelMapping.parseModelsString (js "gpt-4o, o3")) in
  missingSourceModels g = [js "x"] ∧
  (invalidJson g = false ∧ missingSourceModels g
     = ModelMapping.findMissingModelsInMapping (jsq "{'x':'gpt-4o'}") (ModelMapping.parseModelsString (js "gpt-4o, o3"))).
Proof.
  split; [vm_compute; reflexivity|].
  apply (guardrail_matches_question (jsq "{'x':'gpt-4o'}") (js "gpt-4o, o3")); [vm_compute; discriminate|vm_compute; reflexivity].
Defined.

Lemma save_settles_witness :
  question asking_drawer ≠ NoQuestion ∧
  (answers [EData (mkSnap 1 (stored_channel 4)); EMissing Cancel] <= 2)%nat ∧
  question (handle true (EMissing Cancel) (handle true (EData (mkSnap 1 (stored_channel 4))) asking_drawer)) = NoQuestion.
Proof.
  split; [vm_compute; discriminate|].
  assert (Hrun : wait_run true asking_drawer [EData (mkSnap 1 (stored_channel 4)); EMissing Cancel]
    (handle true (EMissing Cancel) (handle true (EData (mkSnap 1 (stored_channel 4))) asking_drawer))).
  { apply run_cons; [reflexivity|vm_compute; reflexivity|]. apply run_cons; [reflexivity|vm_compute; reflexivity|]. apply run_nil. }
  split; [|vm_compute; reflexivity].
  eapply (save_settles true mapped_drawer); [vm_compute; reflexivity|exact Hrun].
Defined.
