(* ===== verification/PricingEditor.v ===== *)
(** * The tiered pricing editor
      (src/web/default/src/features/system-settings/models/tiered-pricing-editor.tsx)

    The administrator edits a model's billing expression either as cards of
    tiers and request rules or as text. The component keeps the mode, the visual
    configuration, the text and the rule groups; the page that shows it keeps
    the two expressions, which the component's effects bring up to date. One
    [commit] runs the effects of a render against the values of that render;
    [settle] renders again until nothing changes. The wording of labels, the
    layout and the prompt offered for copying are left out. *)

From S2P Require Import Prelude JsNum IntNum Json NumText Regex BillingExpr TierExpr.
From Stdlib Require Import Floats.SpecFloat.
Import BillingExpr TierExpr.

Module PricingEditor.
Open Scope js_scope.

(** ** Numbers being typed *)

Notation zero := (S754_zero false).

Definition unitCostToPrice (uc : option num) : num := number_or_zero uc.
Definition priceToUnitCost (price : num) : num := num_or_zero price.

Section hint.
(** The host's text of a number in the user's locale. *)
Context (toLocaleString : num → jsstr).

Definition value_number (v : cond_value) : num :=
  match v with VNum x => x | VStr s => Number s end.

Definition formatTokenHint (n : option cond_value) : jsstr :=
  match n with
  | None | Some (VStr []) => []
  | Some n =>
      match value_number n with
      | S754_nan => []
      | v =>
          if num_eqb v zero then js "= 0"
          else if num_leb (num_of_Z 1000000) v
          then js "= " ++ toLocaleString (IntNum.num_div v (num_of_Z 1000000)) ++ js "M tokens"
          else if num_leb (num_of_Z 1000) v
          then js "= " ++ toLocaleString (IntNum.num_div v (num_of_Z 1000)) ++ js "K tokens"
          else js "= " ++ toLocaleString v ++ js " tokens"
      end
  end.
End hint.

Definition formatNumberDraft (value : cond_value) : jsstr :=
  match value with
  | VNum x => if num_is_finite x then Number_toString x else js "0"
  | VStr s => s
  end.

Definition parseNumberDraft (value : jsstr) : num :=
  if negb (nonempty (trim value)) then zero
  else let next := Number value in if num_is_finite next then next else zero.

Definition isZeroDraft (value : jsstr) : bool :=
  nonempty (trim value) && num_eqb (parseNumberDraft value) zero.

(** *** The number input: the text being typed and whether it has the focus. *)

Record DraftNumberInput := mkDraft { draft : jsstr; focused : bool }.

Inductive draft_event := DChange (text : jsstr) | DFocus | DBlur.

(** The state when the input appears, and the effect that follows the value. *)
Definition draftMount (value : cond_value) : DraftNumberInput := mkDraft (formatNumberDraft value) false.

Definition draftSync (value : cond_value) (d : DraftNumberInput) : DraftNumberInput :=
  if focused d then d else mkDraft (formatNumberDraft value) false.

(** A handler: the next state and the number given to [onValueChange]. *)
Definition draftHandle (ev : draft_event) (d : DraftNumberInput) : DraftNumberInput * option num :=
  match ev with
  | DChange text => (mkDraft text (focused d), Some (parseNumberDraft text))
  | DFocus => (mkDraft (draft d) true, None)
  | DBlur => let normalized := parseNumberDraft (draft d) in
             (mkDraft (Number_toString normalized) false, Some normalized)
  end.

(** Focus and mouse-up select the whole text when it is a zero. *)
Definition selectsAll (d : DraftNumberInput) : bool := isZeroDraft (draft d).

(** An event at an input whose owner keeps the reported number as its value. *)
Definition draftStep (ev : draft_event) (s : DraftNumberInput * num) : DraftNumberInput * num :=
  let '(d, reported) := draftHandle ev s.1 in
  let value := default s.2 reported in
  (draftSync (VNum value) d, value).

(** ** One tier *)

Definition CACHE_PRICE_VARS : list BillingVar :=
  List.filter (fun v => bool_decide (vgroup v = Some (js "cache"))) BILLING_EXTRA_VARS.
Definition MEDIA_PRICE_VARS : list BillingVar :=
  List.filter (fun v => bool_decide (vgroup v = Some (js "media"))) BILLING_EXTRA_VARS.

(** (value, label key). *)
Definition CONDITION_INPUT_OPTIONS : list (jsstr * jsstr) :=
  [(js "len", js "Full input length"); (js "p", js "Billable input tokens"); (js "c", js "Billable output tokens")].
Definition OPS : list jsstr := [js "<"; js "<="; js ">"; js ">="].

(** The callbacks of [ConditionRow]: a variable, an operator or a number is chosen. *)
Inductive condition_edit := CVar (v : jsstr) | COp (o : jsstr) | CValue (x : num).

Definition ConditionRow (c : TierConditionInput) (ev : condition_edit) : TierConditionInput :=
  match ev with
  | CVar v => mkCond v (cop c) (cval c)
  | COp o => mkCond (cvar c) o (cval c)
  | CValue x => mkCond (cvar c) (cop c) (Some (VNum x))
  end.

Definition with_conditions (t : VisualTier) (cs : list TierConditionInput) : VisualTier :=
  mkVTier (vlabel t) cs (input_unit_cost t) (output_unit_cost t) (cache_mode t) (costs t).

(** [l.filter((_, i) => i !== index)]. *)
Definition remove_at {A} (index : nat) (l : list A) : list A := take index l ++ drop (S index) l.

Definition handleConditionChange (t : VisualTier) (i : nat) (next : TierConditionInput) : VisualTier :=
  with_conditions t (<[i := next]> (vconditions t)).
Definition handleConditionRemove (t : VisualTier) (i : nat) : VisualTier :=
  with_conditions t (remove_at i (vconditions t)).

(** [{ ...tier, [field]: value }]. *)
Definition handlePriceChange (t : VisualTier) (field : jsstr) (x : num) : VisualTier :=
  if str_eqb field (js "input_unit_cost")
  then mkVTier (vlabel t) (vconditions t) x (output_unit_cost t) (cache_mode t) (costs t)
  else if str_eqb field (js "output_unit_cost")
  then mkVTier (vlabel t) (vconditions t) (input_unit_cost t) x (cache_mode t) (costs t)
  else mkVTier (vlabel t) (vconditions t) (input_unit_cost t) (output_unit_cost t) (cache_mode t)
         (map_set field x (costs t)).

Definition handleCacheModeChange (t : VisualTier) (mode : jsstr) : VisualTier :=
  let f := js "cache_create_1h_unit_cost" in
  mkVTier (vlabel t) (vconditions t) (input_unit_cost t) (output_unit_cost t) mode
    (map_set f (if str_eqb mode CACHE_MODE_TIMED then default zero (map_get f (costs t)) else zero) (costs t)).

Definition hasMediaPricing (t : VisualTier) : bool :=
  existsb (fun v => num_ltb zero (unitCostToPrice (Some (default zero
             (map_get (default [] (tierField v)) (costs t)))))) MEDIA_PRICE_VARS.

(** The effect that opens the media section. *)
Definition mediaOpenEffect (t : VisualTier) (mediaOpen : bool) : bool := hasMediaPricing t || mediaOpen.

(** The cache prices on show. *)
Definition shownCacheVars (t : VisualTier) : list jsstr :=
  let cacheMode := getTierCacheMode (Some (cache_mode t)) (costs t) in
  map key (List.filter (fun v => negb (str_eqb (key v) (js "cc1h") && negb (str_eqb cacheMode CACHE_MODE_TIMED)))
             CACHE_PRICE_VARS).

Inductive tier_edit :=
| TLabel (label : jsstr)
| TCondition (i : nat) (ev : condition_edit)
| TConditionRemove (i : nat)
| TPrice (field : jsstr) (price : num)
| TCacheMode (mode : jsstr).

(** The callbacks of [VisualTierCard]; a row that does not exist has none. *)
Definition VisualTierCard (t : VisualTier) (ev : tier_edit) : VisualTier :=
  match ev with
  | TLabel l => mkVTier l (vconditions t) (input_unit_cost t) (output_unit_cost t) (cache_mode t) (costs t)
  | TCondition i ev =>
      match vconditions t !! i with
      | Some c => handleConditionChange t i (ConditionRow c ev)
      | None => t
      end
  | TConditionRemove i => handleConditionRemove t i
  | TPrice field price => handlePriceChange t field (priceToUnitCost price)
  | TCacheMode mode => handleCacheModeChange t mode
  end.

(** ** The list of tiers *)

Definition handleTierChange (config : VisualConfig) (index : nat) (next : VisualTier) : VisualConfig :=
  <[index := normalizeVisualTier (TierExpr.partial_of next)]> config.

Definition default_condition (v : jsstr) : TierConditionInput :=
  mkCond v (js "<") (Some (VNum (num_of_Z 200000))).

Definition boundLast (tiers : VisualConfig) : VisualConfig :=
  let lastIndex := (length tiers - 1)%nat in
  match tiers !! lastIndex with
  | Some t =>
      match vconditions t with
      | [] => <[lastIndex := normalizeVisualTier (TierExpr.partial_of (with_conditions t [default_condition (js "len")]))]> tiers
      | _ => tiers
      end
  | None => tiers
  end.

Definition handleAddTier (config : VisualConfig) : VisualConfig :=
  let tiers := boundLast config in
  tiers ++ [normalizeVisualTier (mkPTier (Some (js "tier_" ++ print_N (N.of_nat (length tiers + 1)))) (Some [])
                                   (Some zero) (Some zero) None [])].

Definition handleRemoveTier (config : VisualConfig) (index : nat) : VisualConfig :=
  let tiers := remove_at index config in
  if nonempty tiers then tiers else config.

Definition handleAddCondition (config : VisualConfig) (index : nat) : option VisualConfig :=
  match config !! index with
  | None => None
  | Some tier =>
      if (2 <=? length (vconditions tier))%nat then None
      else
        let usedVars := map cvar (vconditions tier) in
        let nextVar := if set_has (js "len") usedVars then js "c" else js "len" in
        Some (<[index := with_conditions tier (vconditions tier ++ [default_condition nextVar])]> config)
  end.

Inductive visual_edit :=
| VTier (index : nat) (ev : tier_edit)
| VAddTier
| VRemoveTier (index : nat)
| VAddCondition (index : nat).

(** The callbacks of [VisualEditor]: the configuration given to [onChange], if any.
    The button that removes the only tier is disabled. *)
Definition VisualEditor (visualConfig : option VisualConfig) (ev : visual_edit) : option VisualConfig :=
  let config := normalizeVisualConfig visualConfig in
  match ev with
  | VTier i ev => (fun t => handleTierChange config i (VisualTierCard t ev)) <$> config !! i
  | VAddTier => Some (handleAddTier config)
  | VRemoveTier i => if (length config <=? 1)%nat then None else Some (handleRemoveTier config i)
  | VAddCondition i => handleAddCondition config i
  end.

(** ** Request rules *)

Inductive row_edit :=
| RSource (source : jsstr) | RMode (mode : jsstr) | RTimeFunc (f : jsstr) | RTimezone (tz : jsstr)
| RRangeStart (x : num) | RRangeEnd (x : num) | RTimeValue (x : num) | RPath (s : jsstr) | RValue (s : jsstr).

Definition handleSourceChange (source : jsstr) : option RequestCondition :=
  if str_eqb source SOURCE_TIME then Some createEmptyTimeCondition
  else if str_eqb source SOURCE_HEADER || str_eqb source SOURCE_PARAM then
    match createEmptyCondition with
    | ParamHeaderCondition _ p m v => Some (ParamHeaderCondition source p m v)
    | c => Some c
    end
  else None.

Definition handleModeChange_rule (c : RequestCondition) (mode : jsstr) : RequestCondition :=
  match c with
  | ParamHeaderCondition s p _ v => ParamHeaderCondition s p mode v
  | TimeCondition f tz _ v a b => TimeCondition f tz mode v a b
  end.

(** The callbacks of [RuleConditionRow]; a kind of row has only its own fields. *)
Definition RuleConditionRow (c : RequestCondition) (ev : row_edit) : option RequestCondition :=
  match ev, c with
  | RSource source, _ => handleSourceChange source
  | RMode mode, _ => Some (handleModeChange_rule c mode)
  | RTimeFunc f, TimeCondition _ tz m v a b => Some (TimeCondition f tz m v a b)
  | RTimezone tz, TimeCondition f _ m v a b => Some (TimeCondition f tz m v a b)
  | RRangeStart x, TimeCondition f tz m v _ b => Some (TimeCondition f tz m v (Number_toString x) b)
  | RRangeEnd x, TimeCondition f tz m v a _ => Some (TimeCondition f tz m v a (Number_toString x))
  | RTimeValue x, TimeCondition f tz m _ a b => Some (TimeCondition f tz m (Number_toString x) a b)
  | RPath p, ParamHeaderCondition s _ m v => Some (ParamHeaderCondition s p m v)
  | RValue v, ParamHeaderCondition s p m _ => Some (ParamHeaderCondition s p m v)
  | _, _ => None
  end.

Inductive group_edit :=
| GCondition (i : nat) (ev : row_edit) | GConditionRemove (i : nat) | GAddCondition (timeMode : bool)
| GMultiplier (x : num).

Definition RuleGroupCard (g : RequestRuleGroup) (ev : group_edit) : option RequestRuleGroup :=
  match ev with
  | GCondition i ev =>
      c ← conditions g !! i; next ← RuleConditionRow c ev;
      Some (mkGroup (<[i := next]> (conditions g)) (multiplier g))
  | GConditionRemove i => Some (mkGroup (remove_at i (conditions g)) (multiplier g))
  | GAddCondition timeMode =>
      Some (mkGroup (conditions g ++ [if timeMode then createEmptyTimeCondition else createEmptyCondition])
              (multiplier g))
  | GMultiplier x => Some (mkGroup (conditions g) (Number_toString x))
  end.

Inductive rules_edit := RGroup (i : nat) (ev : group_edit) | RRemoveGroup (i : nat) | RAddGroup.

Definition rulesEdit (groups : list RequestRuleGroup) (ev : rules_edit) : option (list RequestRuleGroup) :=
  match ev with
  | RGroup i ev => g ← groups !! i; next ← RuleGroupCard g ev; Some (<[i := next]> groups)
  | RRemoveGroup i => Some (remove_at i groups)
  | RAddGroup => Some (groups ++ [createEmptyRuleGroup])
  end.

(** ** Presets *)

Record Preset := mkPreset { pkey : jsstr; plabel : jsstr; expr : jsstr; requestRules : list RequestRuleGroup }.

Definition header_rule (path mode value mult : jsstr) : RequestRuleGroup :=
  mkGroup [ParamHeaderCondition SOURCE_HEADER path mode value] mult.
Definition param_rule (path mode value mult : jsstr) : RequestRuleGroup :=
  mkGroup [ParamHeaderCondition SOURCE_PARAM path mode value] mult.
Definition weekday_rule (day mult : jsstr) : RequestRuleGroup :=
  mkGroup [TimeCondition (js "weekday") (js "Asia/Shanghai") MATCH_EQ day [] []] mult.

Definition fixed_presets : list Preset :=
  [mkPreset (js "flat") (js "Flat") (jsq "tier('base', p * 2 + c * 4)") [];
   mkPreset (js "claude-opus") (js "Claude Opus 4.6")
     (jsq "tier('base', p * 5 + c * 25 + cr * 0.5 + cc * 6.25 + cc1h * 10)") [];
   mkPreset (js "gpt-5.4") (js "GPT-5.4")
     (jsq "len <= 272000 ? tier('standard', p * 2.5 + c * 15 + cr * 0.25) : tier('long_context', p * 5 + c * 22.5 + cr * 0.5)") []].

Definition tiered_presets : list Preset :=
  [mkPreset (js "claude-sonnet") (js "Claude Sonnet 4.5")
     (jsq "len <= 200000 ? tier('standard', p * 3 + c * 15 + cr * 0.3 + cc * 3.75 + cc1h * 6) : tier('long_context', p * 6 + c * 22.5 + cr * 0.6 + cc * 7.5 + cc1h * 12)") [];
   mkPreset (js "qwen3-max") (js "Qwen3 Max")
     (jsq "len <= 32000 ? tier('short', p * 1.2 + c * 6 + cr * 0.24 + cc * 1.5) : len <= 128000 ? tier('mid', p * 2.4 + c * 12 + cr * 0.48 + cc * 3) : tier('long', p * 3 + c * 15 + cr * 0.6 + cc * 3.75)") [];
   mkPreset (js "glm-4.5-air") (js "GLM-4.5 Air")
     (jsq "len < 32000 && c < 200 ? tier('short_output', p * 0.8 + c * 2 + cr * 0.16) : len < 32000 && c >= 200 ? tier('long_output', p * 0.8 + c * 6 + cr * 0.16) : tier('mid_context', p * 1.2 + c * 8 + cr * 0.24)") [];
   mkPreset (js "doubao-seed-1.8") (js "Doubao Seed 1.8")
     (jsq "len <= 32000 && c <= 200 ? tier('discount', p * 0.8 + c * 2 + cr * 0.16 + cc * 0.17) : len <= 32000 ? tier('short', p * 0.8 + c * 8 + cr * 0.16 + cc * 0.17) : len <= 128000 ? tier('mid', p * 1.2 + c * 16 + cr * 0.16 + cc * 0.17) : tier('long', p * 2.4 + c * 24 + cr * 0.16 + cc * 0.17)") []].

Definition multimodal_presets : list Preset :=
  [mkPreset (js "gpt-image-1-mini") (js "GPT Image 1 Mini") (jsq "tier('base', p * 2 + c * 8 + img * 2.5)") [];
   mkPreset (js "gemini-2.5-flash") (js "Gemini 2.5 Flash")
     (jsq "tier('base', p * 0.3 + c * 2.5 + cr * 0.03 + ai * 1.0)") [];
   mkPreset (js "gemini-3-pro-image") (js "Gemini 3 Pro Image") (jsq "tier('base', p * 2 + c * 12 + img_o * 120)") [];
   mkPreset (js "qwen3-omni-flash") (js "Qwen3 Omni Flash")
     (jsq "tier('base', p * 0.43 + c * 3.06 + img * 0.78 + ai * 3.81 + ao * 15.11)") []].

Definition rule_presets : list Preset :=
  [mkPreset (js "claude-opus-fast") (js "Claude Opus 4.6 Fast")
     (jsq "tier('base', p * 5 + c * 25 + cr * 0.5 + cc * 6.25 + cc1h * 10)")
     [header_rule (js "anthropic-beta") MATCH_CONTAINS (js "fast-mode-2026-02-01") (js "6")];
   mkPreset (js "gpt-5.4-tiers") (js "GPT-5.4 Priority/Flex")
     (jsq "len <= 272000 ? tier('standard', p * 2.5 + c * 15 + cr * 0.25) : tier('long_context', p * 5 + c * 22.5 + cr * 0.5)")
     [param_rule (js "service_tier") MATCH_EQ (js "priority") (js "2");
      param_rule (js "service_tier") MATCH_EQ (js "flex") (js "0.5")]].

Definition time_presets : list Preset :=
  [mkPreset (js "night-discount") (js "Night discount (50%)") (jsq "tier('base', p * 3 + c * 15)")
     [mkGroup [TimeCondition (js "hour") (js "Asia/Shanghai") MATCH_RANGE [] (js "21") (js "6")] (js "0.5")];
   mkPreset (js "weekend-discount") (js "Weekend discount (80%)") (jsq "tier('base', p * 3 + c * 15)")
     [weekday_rule (js "0") (js "0.8"); weekday_rule (js "6") (js "0.8")]].

(** (group, presets). *)
Definition PRESET_GROUPS : list (jsstr * list Preset) :=
  [(js "Fixed price", fixed_presets); (js "Tiered", tiered_presets); (js "Multimodal", multimodal_presets);
   (js "Request rule", rule_presets); (js "Time-based", time_presets)].

(** The groups [PresetSection] shows. *)
Definition visiblePresets (expanded : bool) : list (jsstr * list Preset) :=
  if expanded then PRESET_GROUPS else take 2 PRESET_GROUPS.

(** ** The estimator *)

(** [s.replace(pattern, replacement)]: the first occurrence. *)
Fixpoint replaceFirst (pat repl s : jsstr) : jsstr :=
  if starts_with pat s then repl ++ drop (length pat) s
  else match s with [] => [] | c :: s' => c :: replaceFirst pat repl s' end.

Record CostEstimator := mkEstimator {
  promptTokens : num; completionTokens : num; extras : list (jsstr * num)
}.

Definition estimator_init : CostEstimator :=
  mkEstimator zero zero
    (map (fun k => (k, zero)) [js "cacheReadTokens"; js "cacheCreateTokens"; js "cacheCreate1hTokens";
      js "imageTokens"; js "imageOutputTokens"; js "audioInputTokens"; js "audioOutputTokens"]).

(** The extra inputs: (variable, the key its number is stored under). *)
Definition extraInputs : list (jsstr * jsstr) :=
  omap (fun v => (fun f => (key v, replaceFirst (js "Price") (js "Tokens") f)) <$> field v) BILLING_EXTRA_VARS.

Definition setExtra (e : CostEstimator) (stateKey : jsstr) (x : num) : CostEstimator :=
  mkEstimator (promptTokens e) (completionTokens e) (map_set stateKey x (extras e)).

Section estimate.
Context (Function : list (jsstr * num) → jsstr → (num * jsstr) + jsstr).

(** Whether the extra inputs are shown, and the result. *)
Definition estimate (effectiveExpr : jsstr) (e : CostEstimator) : bool * EvalResult :=
  (exprUsesExtraVars effectiveExpr,
   evalExprLocally Function effectiveExpr (promptTokens e) (completionTokens e) (extras e)).
End estimate.

(** ** The editor *)

Inductive EditorMode := visual | raw.

Record editor := mkEditor {
  editorMode : EditorMode;
  visualConfig : option VisualConfig;
  rawExpr : jsstr;
  requestRuleGroups : list RequestRuleGroup;
  initRef : bool
}.

(** What the page that shows the editor keeps and passes to it. *)
Record props := mkProps { modelName : jsstr; currentExpr : jsstr; currentRequestRuleExpr : jsstr }.

Record page := mkPage { ed : editor; pr : props }.

#[export] Instance EditorMode_eq_dec : EqDecision EditorMode.
Proof. solve_decision. Defined.
#[export] Instance editor_eq_dec : EqDecision editor.
Proof. solve_decision. Defined.
#[export] Instance props_eq_dec : EqDecision props.
Proof. solve_decision. Defined.
#[export] Instance page_eq_dec : EqDecision page.
Proof. solve_decision. Defined.

Definition set_rules (r : jsstr) (q : props) : props := mkProps (modelName q) (currentExpr q) r.
Definition set_billing (b : jsstr) (q : props) : props := mkProps (modelName q) b (currentRequestRuleExpr q).

(** [tryParseRequestRuleExpr(s) || []]. *)
Definition groupsOf (s : jsstr) : res (list RequestRuleGroup) :=
  let! gs := tryParseRequestRuleExpr s in Ok (default [] gs).

(** The initial values of the state. *)
Definition mount (q : props) : res page :=
  let! gs := groupsOf (currentRequestRuleExpr q) in
  Ok (mkPage (mkEditor visual (tryParseVisualConfig (Some (currentExpr q)))
                (combineBillingExpr (currentExpr q) (currentRequestRuleExpr q)) gs false) q).

Definition canUseVisualRules (q : props) : res bool :=
  if negb (nonempty (currentRequestRuleExpr q)) then Ok true
  else let! gs := tryParseRequestRuleExpr (currentRequestRuleExpr q) in
       Ok (match gs with Some _ => true | None => false end).

Definition effectiveExpr (e : editor) : res jsstr :=
  match editorMode e with
  | visual => Ok (generateExprFromVisualConfig (visualConfig e))
  | raw => let! s := splitBillingExprAndRequestRules (rawExpr e) in Ok (billingExpr s)
  end.

(** *** The effects of a render

    [prev] is what the previous render was given, [None] at the first. *)

Definition exprs_changed (prev : option props) (q : props) : bool :=
  match prev with
  | None => true
  | Some q0 => negb (str_eqb (currentExpr q0) (currentExpr q)
                     && str_eqb (currentRequestRuleExpr q0) (currentRequestRuleExpr q))
  end.

Definition name_changed (prev : option props) (q : props) : bool :=
  match prev with None => true | Some q0 => negb (str_eqb (modelName q0) (modelName q)) end.

(** What the first effect sets when it runs. *)
Definition reread (q : props) (e : editor) : res editor :=
  let! gs := groupsOf (currentRequestRuleExpr q) in
  let text := combineBillingExpr (currentExpr q) (currentRequestRuleExpr q) in
  match tryParseVisualConfig (Some (currentExpr q)) with
  | Some parsedConfig => Ok (mkEditor visual (Some parsedConfig) text gs true)
  | None =>
      if nonempty (currentExpr q) then Ok (mkEditor raw None text gs true)
      else Ok (mkEditor (editorMode e) (Some createDefaultVisualConfig) text gs true)
  end.

Definition initEffect (prev : option props) (q : props) (e : editor) : res editor :=
  if exprs_changed prev q && negb (initRef e) then reread q e else Ok e.

Definition resetEffect (prev : option props) (q : props) (e : editor) : editor :=
  if name_changed prev q
  then mkEditor (editorMode e) (visualConfig e) (rawExpr e) (requestRuleGroups e) false else e.

(** The two effects that report to the page. They run when a value they read has
    changed; without a change the page already has what they would report. *)
Definition billingEffect (e : editor) (q : props) : res props :=
  let! x := effectiveExpr e in
  if str_eqb x (currentExpr q) then Ok q else Ok (set_billing x q).

Definition rulesEffect (e : editor) (q : props) : props :=
  match editorMode e with
  | raw => q
  | visual =>
      let ruleExpr := buildRequestRuleExpr (requestRuleGroups e) in
      if str_eqb ruleExpr (currentRequestRuleExpr q) then q else set_rules ruleExpr q
  end.

(** The effects run in their order; each reads the values of the render, and what
    they set is seen by the next one. *)
Definition commit (prev : option props) (p : page) : res page :=
  let! e := initEffect prev (pr p) (ed p) in
  let e := resetEffect prev (pr p) e in
  let! q := billingEffect (ed p) (pr p) in
  Ok (mkPage e (rulesEffect (ed p) q)).

(** Renders until a render changes nothing. *)
Fixpoint settle (fuel : nat) (prev : option props) (p : page) : res page :=
  match fuel with
  | O => Ok p
  | S fuel' =>
      let! p' := commit prev p in
      if decide (p' = p) then Ok p else settle fuel' (Some (pr p)) p'
  end.

(** *** Handlers *)

Definition handleVisualChange (next : VisualConfig) (p : page) : page :=
  let e := ed p in
  mkPage (mkEditor (editorMode e) (Some next) (rawExpr e) (requestRuleGroups e) (initRef e)) (pr p).

Definition handleRawChange (value : jsstr) (p : page) : res page :=
  let e := ed p in
  let! s := splitBillingExprAndRequestRules value in
  Ok (mkPage (mkEditor (editorMode e) (visualConfig e) value (requestRuleGroups e) (initRef e))
        (set_rules (requestRuleExpr s) (pr p))).

Definition handleModeChange (next : EditorMode) (p : page) : res page :=
  let e := ed p in
  match next with
  | visual =>
      let! s := splitBillingExprAndRequestRules (rawExpr e) in
      let config := match tryParseVisualConfig (Some (billingExpr s)) with
                    | Some parsed => parsed
                    | None => createDefaultVisualConfig
                    end in
      let! gs := groupsOf (requestRuleExpr s) in
      Ok (mkPage (mkEditor visual (Some config) (rawExpr e) gs (initRef e)) (set_rules (requestRuleExpr s) (pr p)))
  | raw =>
      let expr := generateExprFromVisualConfig (visualConfig e) in
      let ruleExpr := buildRequestRuleExpr (requestRuleGroups e) in
      Ok (mkPage (mkEditor raw (visualConfig e) (str_or (combineBillingExpr expr ruleExpr) expr)
                    (requestRuleGroups e) (initRef e)) (pr p))
  end.

Definition applyPreset (preset : Preset) (p : page) : page :=
  let presetGroups := requestRules preset in
  let ruleExpr := buildRequestRuleExpr presetGroups in
  let combined := str_or (combineBillingExpr (expr preset) ruleExpr) (expr preset) in
  let '(mode, config) := match tryParseVisualConfig (Some (expr preset)) with
                         | Some parsed => (visual, Some parsed)
                         | None => (raw, None)
                         end in
  mkPage (mkEditor mode config combined presetGroups (initRef (ed p))) (set_rules ruleExpr (pr p)).

Definition handleRuleGroupsChange (next : list RequestRuleGroup) (p : page) : page :=
  let e := ed p in
  mkPage (mkEditor (editorMode e) (visualConfig e) (rawExpr e) next (initRef e)) (pr p).

(** *** Events *)

Inductive editor_event :=
| EVisual (ev : visual_edit)
| ERules (ev : rules_edit)
| ERaw (value : jsstr)
| EMode (next : EditorMode)
| EPreset (preset : Preset)
| EProps (q : props).

(** The handler of an event. The cards answer in the visual mode only, the rule
    cards only while the rules can be shown, and the text only in the raw mode. *)
Definition handleEvent (ev : editor_event) (p : page) : res page :=
  match ev, editorMode (ed p) with
  | EVisual ev, visual =>
      Ok (match VisualEditor (visualConfig (ed p)) ev with Some c => handleVisualChange c p | None => p end)
  | ERules ev, visual =>
      let! shown := canUseVisualRules (pr p) in
      if shown then
        Ok (match rulesEdit (requestRuleGroups (ed p)) ev with Some gs => handleRuleGroupsChange gs p | None => p end)
      else Ok p
  | ERaw value, raw => handleRawChange value p
  | EMode next, _ => handleModeChange next p
  | EPreset preset, _ => Ok (applyPreset preset p)
  | EProps q, _ => Ok (mkPage (ed p) q)
  | _, _ => Ok p
  end.

(** Five renders are enough (see [commits_settle]). *)
Definition RENDERS : nat := 5.

Definition open_editor (q : props) : res page := let! p := mount q in settle RENDERS None p.

Definition dispatch (ev : editor_event) (p : page) : res page :=
  let! p' := handleEvent ev p in settle RENDERS (Some (pr p)) p'.
End PricingEditor.
