(* ===== verification/PricingCommit.v ===== *)
(** * The pricing editor's effects settle

    An effect of the editor writes what another one reads: the page's expressions
    are re-read into the editor, and the editor's state is reported to the page.
    Whatever the state, the renders come to an end within five. Then the page has
    the billing expression that the editor shows. It has the rules that the editor
    shows when the cards show them; the text of the raw mode reports no rules. *)

From S2P Require Import Prelude JsNum Json NumText Regex BillingExpr TierExpr PricingEditor.
Import BillingExpr TierExpr PricingEditor.
Open Scope js_scope.

Module PricingCommit.

(** The page's billing expression is the one of the cards or of the text. The
    effect that reports the rules only runs for the cards, so that only there the
    page's rules are compared with the ones shown. *)
Definition agrees (p : page) : Prop :=
  effectiveExpr (ed p) = Ok (currentExpr (pr p)) ∧
  (editorMode (ed p) = visual → buildRequestRuleExpr (requestRuleGroups (ed p)) = currentRequestRuleExpr (pr p)).

(** A render that changes nothing. *)
Definition settled (p : page) : Prop := commit (Some (pr p)) p = Ok p.

(** ** The effects *)

Lemma str_eqb_refl s : str_eqb s s = true.
Proof. unfold str_eqb. by rewrite bool_decide_eq_true_2. Qed.

Lemma name_same q q' : modelName q = modelName q' → name_changed (Some q) q' = false.
Proof. unfold name_changed. intros ->. by rewrite str_eqb_refl. Qed.

Lemma exprs_same q : exprs_changed (Some q) q = false.
Proof. unfold exprs_changed. by rewrite !str_eqb_refl. Qed.

(** The reports of a state. *)
Lemma billing_ok e q q' : billingEffect e q = Ok q' →
  effectiveExpr e = Ok (currentExpr q') ∧ modelName q' = modelName q
  ∧ currentRequestRuleExpr q' = currentRequestRuleExpr q.
Proof.
  unfold billingEffect. destruct (effectiveExpr e) as [x|]; [|done]. cbn [res_bind].
  unfold str_eqb. case_bool_decide as E; intros [= <-]; [by rewrite E|done].
Qed.

Lemma rules_ok e q :
  (editorMode e = visual → buildRequestRuleExpr (requestRuleGroups e) = currentRequestRuleExpr (rulesEffect e q))
  ∧ currentExpr (rulesEffect e q) = currentExpr q ∧ modelName (rulesEffect e q) = modelName q.
Proof.
  unfold rulesEffect. destruct (editorMode e); [|done].
  unfold str_eqb. case_bool_decide as E; [by rewrite E|done].
Qed.

(** A commit: what becomes of the editor, and what is reported of the one rendered. *)
Lemma commit_parts prev p p' : commit prev p = Ok p' →
  (∃ e, initEffect prev (pr p) (ed p) = Ok e ∧ ed p' = resetEffect prev (pr p) e)
  ∧ agrees (mkPage (ed p) (pr p')) ∧ modelName (pr p') = modelName (pr p).
Proof.
  unfold commit. destruct (initEffect _ _ _) as [e|]; [|done]. cbn [res_bind].
  destruct (billingEffect _ _) as [q|] eqn:Eb; [|done]. intros [= <-]. cbn [ed pr].
  apply billing_ok in Eb as (H1 & H2 & H3). destruct (rules_ok (ed p) q) as (R1 & R2 & R3).
  split; [by exists e|]. split; [|congruence]. split; cbn [ed pr]; [by rewrite H1, R2|done].
Qed.

Lemma agrees_unique e q q' :
  agrees (mkPage e q) → agrees (mkPage e q') → modelName q = modelName q' →
  (editorMode e = raw → currentRequestRuleExpr q = currentRequestRuleExpr q') → q = q'.
Proof.
  intros [H1 H2] [H3 H4] Hn Hr. cbn [ed pr] in *. rewrite H1 in H3. injection H3 as H3.
  destruct q as [n1 b1 r1], q' as [n2 b2 r2]. cbn [modelName currentExpr currentRequestRuleExpr] in *.
  subst. f_equal. destruct (editorMode e); [|by apply Hr]. rewrite <- H2 by done. by apply H4.
Qed.

(** Reports of a state the page agrees with change nothing. *)
Lemma report_idle e q : agrees (mkPage e q) → billingEffect e q = Ok q ∧ rulesEffect e q = q.
Proof.
  intros [H1 H2]. cbn [ed pr] in *. unfold billingEffect, rulesEffect. rewrite H1. cbn [res_bind].
  rewrite str_eqb_refl. split; [done|]. destruct (editorMode e); [|done].
  by rewrite H2, str_eqb_refl.
Qed.

Lemma commit_idle prev e q :
  agrees (mkPage e q) → name_changed prev q = false → exprs_changed prev q && negb (initRef e) = false →
  commit prev (mkPage e q) = Ok (mkPage e q).
Proof.
  intros Ha Hn Hx. unfold commit, initEffect, resetEffect. cbn [ed pr]. rewrite Hx. cbn [res_bind].
  rewrite Hn. destruct (report_idle e q Ha) as [Hb Hr]. rewrite Hb. cbn [res_bind]. by rewrite Hr.
Qed.

Lemma agrees_settled p : agrees p → settled p.
Proof.
  intros Ha. destruct p as [e q]. apply commit_idle; [done|by apply name_same|].
  cbn [pr]. by rewrite exprs_same.
Qed.

(** ** Counting renders *)

Lemma settle_at fuel prev p : commit prev p = Ok p → (1 <= fuel)%nat → settle fuel prev p = Ok p.
Proof.
  intros H Hf. destruct fuel as [|fuel]; [lia|]. cbn [settle]. rewrite H. cbn [res_bind].
  by rewrite decide_True.
Qed.

(** A commit that changes something is followed by another render. *)
Lemma settle_next fuel prev p p' q :
  commit prev p = Ok p' → settle (S fuel) prev p = Ok q →
  (p' = p ∧ q = p) ∨ settle fuel (Some (pr p)) p' = Ok q.
Proof.
  cbn [settle]. intros ->. cbn [res_bind]. destruct (decide (p' = p)) as [->|]; [|by right].
  intros [= <-]. by left.
Qed.

Definition done_at (q : page) : Prop := settled q ∧ agrees q.

Lemma done_agrees p : agrees p → done_at p.
Proof. intros. split; [by apply agrees_settled|done]. Qed.

(** A commit that re-reads nothing leaves the editor and reports it. *)
Lemma commit_still prev p p' :
  exprs_changed prev (pr p) && negb (initRef (ed p)) = false → name_changed prev (pr p) = false →
  commit prev p = Ok p' → ed p' = ed p ∧ agrees p'.
Proof.
  intros Hx Hn Hc. apply commit_parts in Hc as ((e & He & Hr) & Ha & _).
  unfold initEffect in He. rewrite Hx in He. injection He as <-. unfold resetEffect in Hr. rewrite Hn in Hr.
  split; [done|]. destruct p' as [e' q']. cbn [ed pr] in *. by subst.
Qed.

Lemma reread_ref q e e' : reread q e = Ok e' → initRef e' = true.
Proof.
  unfold reread. destruct (groupsOf _); [|done]. cbn [res_bind].
  destruct (tryParseVisualConfig _); [by intros [= <-]|]. by destruct (nonempty _); intros [= <-].
Qed.

(** Once the flag is set, two renders are enough. *)
Lemma settle_flagged fuel prev p q :
  (2 <= fuel)%nat → initRef (ed p) = true → name_changed prev (pr p) = false →
  settle fuel prev p = Ok q → done_at q.
Proof.
  intros Hf Hi Hn Hs. destruct fuel as [|fuel]; [lia|].
  destruct (commit prev p) as [p'|] eqn:Ec; [|by cbn [settle] in Hs; rewrite Ec in Hs].
  pose proof (commit_parts _ _ _ Ec) as (_ & _ & Hname).
  destruct (commit_still prev p p') as [He Ha]; [rewrite Hi; apply andb_false_r|done|done|].
  destruct (settle_next _ _ _ _ _ Ec Hs) as [[-> ->]|Hs']; [by apply done_agrees|].
  rewrite settle_at in Hs'; [|destruct p' as [e' q']; apply commit_idle; [done|by apply name_same|]|lia].
  - injection Hs' as <-. by apply done_agrees.
  - cbn [ed] in *. subst. rewrite Hi. apply andb_false_r.
Qed.

(** A commit that re-reads leaves the flag set. *)
Lemma commit_reads prev p p' :
  exprs_changed prev (pr p) && negb (initRef (ed p)) = true → name_changed prev (pr p) = false →
  commit prev p = Ok p' → initRef (ed p') = true.
Proof.
  intros Hx Hn Hc. apply commit_parts in Hc as ((e & He & Hr) & _ & _).
  unfold initEffect in He. rewrite Hx in He. apply reread_ref in He.
  unfold resetEffect in Hr. rewrite Hn in Hr. by subst.
Qed.

(** A render that reads: at most three. A render that does not is followed by
    at most three more. *)
Lemma settle_reads fuel prev p q :
  (3 <= fuel)%nat → exprs_changed prev (pr p) && negb (initRef (ed p)) = true →
  name_changed prev (pr p) = false → settle fuel prev p = Ok q → done_at q.
Proof.
  intros Hf Hx Hn Hs. destruct fuel as [|fuel]; [lia|].
  destruct (commit prev p) as [p'|] eqn:Ec; [|by cbn [settle] in Hs; rewrite Ec in Hs].
  pose proof (commit_parts _ _ _ Ec) as (_ & _ & Hname). pose proof (commit_reads _ _ _ Hx Hn Ec) as Hi.
  destruct (settle_next _ _ _ _ _ Ec Hs) as [[-> ->]|Hs'].
  - rewrite Hi in Hx. by rewrite andb_false_r in Hx.
  - eapply settle_flagged; [|exact Hi|by apply name_same|exact Hs']. lia.
Qed.

Lemma settle_named fuel prev p q :
  (4 <= fuel)%nat → name_changed prev (pr p) = false → settle fuel prev p = Ok q → done_at q.
Proof.
  intros Hf Hn Hs. destruct (exprs_changed prev (pr p) && negb (initRef (ed p))) eqn:Hx.
  { by eapply (settle_reads fuel); [lia|..]. }
  destruct fuel as [|fuel]; [lia|].
  destruct (commit prev p) as [p'|] eqn:Ec; [|by cbn [settle] in Hs; rewrite Ec in Hs].
  pose proof (commit_parts _ _ _ Ec) as (_ & _ & Hname).
  destruct (commit_still prev p p' Hx Hn Ec) as [He Ha].
  destruct (settle_next _ _ _ _ _ Ec Hs) as [[-> ->]|Hs']; [by apply done_agrees|].
  destruct (exprs_changed (Some (pr p)) (pr p') && negb (initRef (ed p'))) eqn:Hx'.
  - eapply (settle_reads fuel); [lia|exact Hx'|by apply name_same|exact Hs'].
  - rewrite settle_at in Hs'; [|destruct p'; by apply commit_idle; [|apply name_same|]|lia].
    injection Hs' as <-. by apply done_agrees.
Qed.

(** Whatever was rendered before, five renders are enough. *)
Lemma settle_done prev p q : settle RENDERS prev p = Ok q → done_at q.
Proof.
  intros Hs. unfold RENDERS in Hs.
  destruct (commit prev p) as [p'|] eqn:Ec; [|by cbn [settle] in Hs; rewrite Ec in Hs].
  pose proof (commit_parts _ _ _ Ec) as (_ & Ha & Hname).
  destruct (settle_next _ _ _ _ _ Ec Hs) as [[-> ->]|Hs'].
  - destruct p as [e q]. cbn [ed pr] in Ha. by apply done_agrees.
  - apply (settle_named 4 (Some (pr p)) p'); [lia|by apply name_same|done].
Qed.

(** The renders that follow each other. *)
Inductive rendered : option props → page → option props → page → Prop :=
| rendered_here prev p : rendered prev p prev p
| rendered_next prev p p' prev1 p1 :
    commit prev p = Ok p' → rendered (Some (pr p)) p' prev1 p1 → rendered prev p prev1 p1.

Lemma settle_throws fuel prev p msg :
  settle fuel prev p = Throw msg → ∃ prev1 p1, rendered prev p prev1 p1 ∧ commit prev1 p1 = Throw msg.
Proof.
  revert prev p. induction fuel as [|fuel IH]; intros prev p; [done|]. cbn [settle].
  destruct (commit prev p) as [p'|e] eqn:Ec; cbn [res_bind].
  - destruct (decide _); [done|]. intros (prev1 & p1 & Hr & Ht)%IH.
    exists prev1, p1. split; [by eapply rendered_next|done].
  - intros [= <-]. exists prev, p. by split; [apply rendered_here|].
Qed.

(** Only a render that shows the cards reports rules. *)
Definition rules_from (prev : option props) (p q : page) : Prop :=
  currentRequestRuleExpr (pr q) = currentRequestRuleExpr (pr p)
  ∨ ∃ prev1 p1, rendered prev p prev1 p1 ∧ editorMode (ed p1) = visual
      ∧ buildRequestRuleExpr (requestRuleGroups (ed p1)) = currentRequestRuleExpr (pr q).

Lemma commit_rules prev p p' : commit prev p = Ok p' →
  currentRequestRuleExpr (pr p') = currentRequestRuleExpr (pr p)
  ∨ editorMode (ed p) = visual ∧ buildRequestRuleExpr (requestRuleGroups (ed p)) = currentRequestRuleExpr (pr p').
Proof.
  intros Hc. destruct (editorMode (ed p)) eqn:Em.
  - apply commit_parts in Hc as (_ & [_ Hr] & _). right. split; [done|]. by apply Hr.
  - left. unfold commit in Hc. destruct (initEffect _ _ _) as [e|]; [|done]. cbn [res_bind] in Hc.
    destruct (billingEffect _ _) as [q|] eqn:Eb; [|done]. injection Hc as <-. cbn [pr].
    apply billing_ok in Eb as (_ & _ & H). unfold rulesEffect. by rewrite Em.
Qed.

Lemma settle_rules fuel prev p q : settle fuel prev p = Ok q → rules_from prev p q.
Proof.
  revert prev p. induction fuel as [|fuel IH]; intros prev p; [intros [= <-]; by left|]. cbn [settle].
  destruct (commit prev p) as [p'|e] eqn:Ec; [|done]. cbn [res_bind].
  destruct (decide _) as [->|]; [intros [= <-]; left; reflexivity|].
  intros [H|(prev1 & p1 & Hr & Hv & H)]%IH.
  - destruct (commit_rules _ _ _ Ec) as [E|[Hv E]]; [left; congruence|].
    right. exists prev, p. split; [apply rendered_here|]. split; [done|congruence].
  - right. exists prev1, p1. by split; [eapply rendered_next|].
Qed.

(** C36: The editor's effects come to an end. Whatever the state and whatever was
    rendered before, either one of the renders throws, or five of them reach a
    state that renders to itself. In that state the page has the billing
    expression that the editor shows and, when the editor shows the cards, the rule
    expression of its cards. The effects never report the rules of the raw text:
    the page's rules are the ones it had, or the ones of cards that one of these
    renders showed. (So the raw text and the page can disagree on the rules, see
    [raw_switch_doubles_rules].) *)
Theorem commits_settle prev p :
  (∃ q, settle RENDERS prev p = Ok q ∧ settled q ∧ agrees q ∧ rules_from prev p q)
  ∨ (∃ prev1 p1 msg, rendered prev p prev1 p1 ∧ commit prev1 p1 = Throw msg).
Proof.
  destruct (settle RENDERS prev p) as [q|msg] eqn:E.
  - left. exists q. split; [done|]. destruct (settle_done prev p q E).
    split; [done|]. split; [done|]. by apply (settle_rules RENDERS).
  - right. destruct (settle_throws _ _ _ _ E) as (prev1 & p1 & ? & ?). by exists prev1, p1, msg.
Qed.
End PricingCommit.
