(* ===== verification/PricingText.v ===== *)
(** * The expression a configuration prints

    The text printed from tiers whose labels hold no parentheses is an expression
    that is split from the request rules again, alone or combined with them. *)

From S2P Require Import Prelude JsNum Json NumText Regex BillingExpr RuleRoundtrip TierExpr TierRoundtrip.
From S2P Require Import PricingEditor.
Import BillingExpr RuleRoundtrip TierExpr TierRoundtrip PricingEditor.
Open Scope js_scope.

Module PricingText.

(** ** Configurations with a fallback *)

Definition label_flat (t : VisualTier) : Prop := 40%N ∉ vlabel t ∧ 41%N ∉ vlabel t.

(** Tiers as the reader returns them; all but the last have a condition. *)
Record shape_ok (cfg : VisualConfig) : Prop := {
  sh_some : cfg ≠ [];
  sh_tiers : Forall tier_ok cfg;
  sh_last : ∀ t, last cfg = Some t → vconditions t = [];
  sh_guard : ∀ i t, cfg !! i = Some t → (S i < length cfg)%nat → vconditions t ≠ []
}.

Lemma shape_config cfg : shape_ok cfg → config_ok cfg.
Proof. intros [H1 H2 H3 _]. by repeat split. Qed.

(** ** Its parts *)

Lemma free_conditions d cs :
  d ∈ [40; 41; 42]%N → Forall cond_ok cs → free d (buildConditionStr cs).
Proof.
  intros Hd Hcs. destruct (conds_triples cs Hcs) as (ps & _ & Hps & ->).
  assert (Hsep : free d (js " && ")) by by cases_in Hd; repeat constructor.
  induction Hps as [|[[v o] w] ps (Hv & Ho & Hw) Hps IH]; [constructor|]. cbn [fst snd] in *.
  assert (Ht : free d (ctext v o w)).
  { unfold ctext. repeat (apply Forall_app; split).
    - by cases_in Hv; cases_in Hd; repeat constructor.
    - by cases_in Hd; repeat constructor.
    - by cases_in Ho; cases_in Hd; repeat constructor.
    - by cases_in Hd; repeat constructor.
    - apply free_condtext; [done|]. by cases_in Hd. }
  destruct ps as [|p ps]; [exact Ht|]. cbn [map join]. apply Forall_app. split; [exact Ht|].
  apply Forall_app. by split.
Qed.

Lemma free_open_extras vars ws :
  Forall (free 40) vars → Forall opt_numtext ws → free 40 (extras_text vars ws).
Proof.
  intros Hv. revert ws. induction Hv as [|v vars Hv Hvars IH]; intros ws Hws; [constructor|].
  destruct ws as [|w ws]; [constructor|]. apply Forall_cons in Hws as [Hw Hws]. cbn [extras_text].
  apply Forall_app. split; [|by apply IH]. destruct w as [w|]; [|constructor].
  repeat (apply Forall_app; split); [by repeat constructor|done|by repeat constructor|].
  apply free_spec. by apply numtext_fresh.
Qed.

Lemma free_open_body t : tier_ok t → free 40 (buildTierBodyExpr t).
Proof.
  intros Ht. pose proof Ht as [_ _ Hi Ho _ [_ Hp]]. rewrite body_of_tier by done. unfold body_text.
  repeat (apply Forall_app; split); [by repeat constructor| |by repeat constructor| |].
  - apply free_spec. by apply numtext_fresh; [apply printable_numtext|].
  - apply free_spec. by apply numtext_fresh; [apply printable_numtext|].
  - apply free_open_extras; [by repeat constructor|]. unfold cost_texts. apply Forall_fmap.
    eapply Forall_impl; [exact Hp|]. apply cost_text_numtext.
Qed.

(** What is between the parentheses of a tier. *)
Definition inside (t : VisualTier) : jsstr := 34%N :: vlabel t ++ jsq "', " ++ buildTierBodyExpr t.

Lemma call_inside t : call_of t = js "tier" ++ 40%N :: inside t ++ [41%N].
Proof. unfold call_of, tierCall, inside. cbn [app]. by rewrite <- !app_assoc. Qed.

Lemma bal_inside t : tier_ok t → label_flat t → bal (inside t).
Proof.
  intros Ht [H1 H2]. apply bal_free; (constructor; [done|]; apply Forall_app; split; [by apply free_spec|];
    apply Forall_app; split; [by repeat constructor|]).
  - by apply free_open_body.
  - by apply free_body.
Qed.

Lemma bal_part t : tier_ok t → label_flat t → bal (part_of t).
Proof.
  intros Ht Hl. assert (Hc : bal (call_of t)).
  { rewrite call_inside. apply bal_app; [by apply bal_free; repeat constructor|]. by apply bal_paren, bal_inside. }
  unfold part_of. destruct (nonempty _); [|done]. apply bal_app; [|apply bal_app; [|done]].
  - apply bal_free; apply free_conditions; [left|apply Ht|right; left|apply Ht].
  - by apply bal_free; repeat constructor.
Qed.

Lemma head_part t u : tier_ok t → ∃ c, head (part_of t ++ u) = Some c ∧ is_ws c = false ∧ c ∉ [40; 42]%N.
Proof.
  intros Ht. unfold part_of. destruct (conds_triples _ (ok_conditions t Ht)) as (ps & _ & Hps & ->).
  destruct ps as [|[[v o] w] ps]; [exists 116%N; repeat split; rewrite !elem_of_cons, elem_of_nil; lia|].
  rewrite join_more. apply Forall_cons in Hps as [(Hv & _) _]. unfold ttext, ctext. cbn [fst snd] in *.
  cases_in Hv; [exists 112%N|exists 99%N|exists 108%N];
    (repeat split; rewrite !elem_of_cons, elem_of_nil; lia).
Qed.

Lemma head_parts t ts : tier_ok t →
  ∃ c, head (join (js " : ") (map part_of (t :: ts))) = Some c ∧ is_ws c = false ∧ c ∉ [40; 42]%N.
Proof.
  intros Ht. destruct ts as [|t' ts]; [|by apply head_part].
  destruct (head_part t [] Ht) as (c & Hc & H). exists c. by rewrite app_nil_r in Hc.
Qed.

Lemma last_part t : last (part_of t) = Some 41%N.
Proof.
  assert (Hc : last (call_of t) = Some 41%N).
  { rewrite call_inside. by apply last_app_Some, (last_app_Some (40%N :: inside t)). }
  unfold part_of. destruct (nonempty _); [|done]. by do 2 apply last_app_Some.
Qed.

(** ** The whole text *)

Lemma text_parts cfg :
  config_ok cfg → (∀ t, last cfg = Some t → vconditions t = []) →
  generateExprFromVisualConfig (Some cfg) = join (js " : ") (map part_of cfg).
Proof.
  intros Hcfg Hlast. destruct (parts_of_config cfg Hcfg) as [Hp|Hlen].
  - destruct cfg as [|t [|t' cfg]]; [by destruct Hcfg| |by rewrite <- Hp].
    cbn [imap length] in Hp. destruct Hcfg as (_ & Hok & _). apply Forall_cons in Hok as [[[Hl _] _ _ _ _ _] _].
    unfold generateExprFromVisualConfig. cbn [map join]. unfold part_of, call_of.
    assert (Hlab : str_or (vlabel t) (js "default") = vlabel t) by by destruct (vlabel t).
    by rewrite Hlab, (Hlast t).
  - destruct cfg as [|t [|]]; [done| |done]. destruct Hcfg as (_ & Hok & _).
    apply Forall_cons in Hok as [[[Hl _] _ _ _ _ _] _].
    unfold generateExprFromVisualConfig. cbn [map join]. unfold part_of, call_of.
    assert (Hlab : str_or (vlabel t) (js "default") = vlabel t) by by destruct (vlabel t).
    by rewrite Hlab, (Hlast t).
Qed.

Lemma last_parts ts : ts ≠ [] → last (join (js " : ") (map part_of ts)) = Some 41%N.
Proof.
  induction ts as [|t ts IH]; [done|]. intros _. destruct ts as [|t' ts]; [apply last_part|].
  cbn [map join]. do 2 apply last_app_Some. by apply IH.
Qed.

(** A pattern that ends in a literal matches only texts that end in it. *)
Lemma factor_end s : exec factor_re s ≠ None → ∃ w, s = w ++ js " : 1)".
Proof.
  unfold factor_re. rewrite exec_bol. intros Hm. destruct (m _ _ _) as [st|] eqn:E; [|done].
  change [lit (js "("); ?a; ?b; ?c; ?d; Eol] with ([lit (js "("); a; b; c] ++ [d; Eol]) in E.
  rewrite seqs_app in E. apply (over_consumes (fun _ => True)) in E as (s' & w & Hk & Hs & _).
  - destruct s' as [b' s' cs']. cbn [rest] in Hs. rewrite m_seqs_cons in Hk.
    destruct (starts_with (js " : 1)") s') eqn:Es; [|by rewrite m_lit_none in Hk].
    apply starts_with_spec in Es as [x ->]. rewrite m_lit in Hk. destruct x; [|done].
    exists w. by rewrite app_nil_r in Hs.
  - cbn. by repeat split.
Qed.

Lemma no_rule_text s : bal s → last s = Some 41%N → tryParseRequestRuleExpr (js "(" ++ s ++ js ")") = Ok None.
Proof.
  intros Hb Hl. assert (Hp : part_ok (js "(" ++ s ++ js ")")) by by exists s.
  destruct (part_trim _ Hp) as [Ht Hne]. unfold tryParseRequestRuleExpr. rewrite Ht.
  rewrite (proj2 (nonempty_true _)) by done. cbn [negb].
  pose proof (splitTopLevelMultiply_join [js "(" ++ s ++ js ")"]) as Hj. cbn [join] in Hj.
  rewrite Hj by (constructor; [done|constructor]). cbn [parseGroups]. unfold tryParseRuleGroupFactor.
  destruct (exec factor_re _) as [st|] eqn:E; [|done]. exfalso.
  destruct (factor_end (js "(" ++ s ++ js ")")) as [w Hw]; [by rewrite E|].
  rewrite app_assoc in Hw. change (js " : 1)") with (js " : 1" ++ js ")") in Hw. rewrite app_assoc in Hw.
  apply app_inj_tail in Hw as [Hw _]. apply (f_equal last) in Hw.
  rewrite (last_app_Some _ _ _ Hl), (last_app_Some w (js " : 1") 49%N) in Hw by done. done.
Qed.

(** ** Splitting it *)

Lemma splitMultiply_flat w cur s :
  free 40 w → free 41 w → free 42 w → head s ≠ Some 42%N →
  splitMultiply_go 0 cur (w ++ s) = splitMultiply_go 0 (reverse w ++ cur) s.
Proof.
  intros H1 H2 H3 Hs. revert cur H1 H2 H3. induction w as [|c w IH]; intros cur H1 H2 H3; [done|].
  apply Forall_cons in H1 as [H1 H1'], H2 as [H2 H2'], H3 as [H3 H3']. cbn [app splitMultiply_go].
  unfold bump. rewrite H1, H2. cbn [Z.eqb andb].
  assert (Hst : starts_with (js " * ") (c :: w ++ s) = false).
  { change (js " * ") with [32; 42; 32]%N. cbn [starts_with]. apply andb_false_intro2.
    destruct w as [|c' w]; cbn [app].
    - destruct s as [|x s]; [done|]. cbn in Hs. apply andb_false_intro1, N.eqb_neq. congruence.
    - apply Forall_cons in H3' as [H4 _]. apply andb_false_intro1. by rewrite N.eqb_sym. }
  rewrite Hst. rewrite IH by done. by rewrite reverse_app_cons.
Qed.

Lemma splitMultiply_paren w cur s :
  bal w → splitMultiply_go 0 cur ((40%N :: w ++ [41%N]) ++ s)
          = splitMultiply_go 0 (reverse (40%N :: w ++ [41%N]) ++ cur) s.
Proof.
  intros Hw. cbn [app splitMultiply_go]. change (bump 0 40) with 1%Z. cbn [Z.eqb andb].
  rewrite <- app_assoc, splitMultiply_inside by done. cbn [app splitMultiply_go].
  change (bump 1 41) with 0%Z. cbn [Z.eqb andb]. change (starts_with (js " * ") (41%N :: s)) with false.
  cbn iota. by rewrite reverse_cons, reverse_app, <- !app_assoc.
Qed.

Lemma splitMultiply_tier t cur s :
  tier_ok t → label_flat t → splitMultiply_go 0 cur (part_of t ++ s) = splitMultiply_go 0 (reverse (part_of t) ++ cur) s.
Proof.
  intros Ht Hl. assert (Hc : ∀ cur, splitMultiply_go 0 cur (call_of t ++ s) = splitMultiply_go 0 (reverse (call_of t) ++ cur) s).
  { intros cur'. rewrite call_inside, <- app_assoc.
    rewrite splitMultiply_flat by (done || by repeat constructor).
    rewrite splitMultiply_paren by by apply bal_inside. by rewrite reverse_app, <- app_assoc. }
  unfold part_of. destruct (nonempty _); [|done]. rewrite <- !app_assoc.
  rewrite splitMultiply_flat; [|apply free_conditions; [left|apply Ht]|apply free_conditions; [right; left|apply Ht]
    |apply free_conditions; [do 2 right; left|apply Ht]|done].
  rewrite splitMultiply_flat; [|by repeat constructor..|by rewrite call_inside].
  rewrite Hc, !reverse_app. by rewrite <- !app_assoc.
Qed.

Lemma splitMultiply_tiers ts cur :
  Forall tier_ok ts → Forall label_flat ts →
  splitMultiply_go 0 cur (join (js " : ") (map part_of ts))
  = [trim (reverse cur ++ join (js " : ") (map part_of ts))].
Proof.
  intros Hok. revert cur. induction Hok as [|t ts Ht Hts IH]; intros cur Hl.
  { cbn [map join splitMultiply_go]. by rewrite app_nil_r. }
  apply Forall_cons in Hl as [Hlt Hls]. destruct ts as [|t' ts].
  - cbn [map join]. rewrite <- (app_nil_r (part_of t)) at 1. rewrite splitMultiply_tier by done.
    cbn [splitMultiply_go]. by rewrite reverse_app, reverse_involutive.
  - change (join (js " : ") (map part_of (t :: t' :: ts)))
      with (part_of t ++ js " : " ++ join (js " : ") (map part_of (t' :: ts))).
    rewrite splitMultiply_tier by done. rewrite splitMultiply_flat; [|by repeat constructor..|].
    + rewrite IH by done. rewrite !reverse_app, !reverse_involutive. by rewrite <- !app_assoc.
    + apply Forall_cons in Hts as [Ht' _]. destruct (head_parts t' ts Ht') as (c & -> & _ & Hc).
      intros [= ->]. set_solver.
Qed.

(** A printed configuration. *)
Definition text_of_config (cfg : VisualConfig) : jsstr := generateExprFromVisualConfig (Some cfg).

Section printed.
Context (cfg : VisualConfig) (Hcfg : shape_ok cfg) (Hflat : Forall label_flat cfg).

Lemma text_eq : text_of_config cfg = join (js " : ") (map part_of cfg).
Proof. apply text_parts; [by apply shape_config|apply Hcfg]. Qed.

Lemma text_head : ∃ c, head (text_of_config cfg) = Some c ∧ is_ws c = false ∧ c ∉ [40; 42]%N.
Proof.
  rewrite text_eq. pose proof Hcfg as [Hne Hok _ _]. destruct cfg as [|t ts]; [done|].
  apply Forall_cons in Hok as [Ht _]. by apply head_parts.
Qed.

Lemma text_last : last (text_of_config cfg) = Some 41%N.
Proof. rewrite text_eq. apply last_parts, Hcfg. Qed.

Lemma printed_trim : trim (text_of_config cfg) = text_of_config cfg.
Proof. destruct text_head as (c & Hc & Hw & _). by apply (trim_ends _ c 41%N); [|apply text_last|..]. Qed.

Lemma text_some : text_of_config cfg ≠ [].
Proof. intros E. pose proof text_last as Hl. by rewrite E in Hl. Qed.

Lemma printed_bal : bal (text_of_config cfg).
Proof.
  rewrite text_eq. apply bal_join; [by apply bal_free; repeat constructor|]. apply Forall_fmap.
  pose proof (sh_tiers cfg Hcfg) as Hok. rewrite Forall_forall in Hok, Hflat. apply Forall_forall.
  intros t Ht. by apply bal_part; [apply Hok|apply Hflat].
Qed.

Lemma text_base : base_ok (text_of_config cfg).
Proof.
  split; [apply text_some|apply printed_trim|apply printed_bal| |apply no_rule_text; [apply printed_bal|apply text_last]].
  destruct text_head as (c & Hc & _ & Hn). unfold hasFullOuterParens.
  destruct (text_of_config cfg) as [|x s]; [done|]. injection Hc as ->.
  replace (starts_with (js "(") (c :: s)) with false; [done|]. symmetry. cbn [js starts_with].
  apply andb_false_intro1, N.eqb_neq. intros E. apply Hn. vm_compute in E. subst. left.
Qed.

Lemma text_split : splitBillingExprAndRequestRules (text_of_config cfg) = Ok (mkSplit (text_of_config cfg) []).
Proof.
  unfold splitBillingExprAndRequestRules. rewrite printed_trim.
  rewrite (proj2 (nonempty_true _)) by apply text_some. cbn [negb].
  unfold splitTopLevelMultiply. rewrite text_eq, splitMultiply_tiers by (done || apply Hcfg).
  cbn [List.filter]. destruct (nonempty _); done.
Qed.
End printed.
(** ** A configuration with a condition and a fallback *)

Definition demo_config : VisualConfig := [demo_tier demo_conds; demo_tier []].

Lemma demo_cond_ok : Forall cond_ok demo_conds.
Proof.
  constructor; [|constructor]. split; [right; right; left|right; left|].
  exists (Number (js "200000")). split; [done|]. split; [by split; vm_compute|].
  apply free_spec. vm_compute. by repeat constructor.
Qed.

Lemma demo_shape : shape_ok demo_config.
Proof.
  split; [done| |by intros t [= <-]|].
  - constructor; [apply demo_tier_ok, demo_cond_ok|]. by constructor; [apply demo_tier_ok|].
  - intros [|[|i]] t Hi Hl; [|cbn in Hl; lia..]. by injection Hi as <-.
Qed.

Lemma demo_flat : Forall label_flat demo_config.
Proof. by repeat (constructor; [split; apply free_spec; vm_compute; by repeat constructor|]). Qed.
End PricingText.
