(* ===== verification/PricingLaws.v ===== *)
(** * The pricing editor's sessions

    What opening the editor, switching its mode, editing a card and applying a
    preset do to the expressions the page saves, including the cases in which
    they lose what was there. *)

From S2P Require Import Prelude JsNum Json NumText Regex BillingExpr RuleRoundtrip TierExpr TierRoundtrip.
From S2P Require Import PricingEditor PricingCommit PricingText.
Import BillingExpr RuleRoundtrip TierExpr TierRoundtrip PricingEditor PricingCommit PricingText.
Open Scope js_scope.

Module PricingLaws.

Notation rules_text := buildRequestRuleExpr.

(** ** Stepping through renders *)

Lemma settle_via n prev p p' q :
  commit prev p = Ok p' → settle n (Some (pr p)) p' = Ok q → (p' = p → q = p) →
  settle (S n) prev p = Ok q.
Proof.
  intros Hc Hs Hq. cbn [settle]. rewrite Hc. cbn [res_bind].
  destruct (decide (p' = p)) as [E|E]; [by rewrite (Hq E)|done].
Qed.

(** The reports of a visual editor, and of a raw one. *)
Lemma report_visual c r gs ref q :
  billingEffect (mkEditor visual c r gs ref) q = Ok (set_billing (generateExprFromVisualConfig c) q).
Proof.
  unfold billingEffect, effectiveExpr. cbn [editorMode visualConfig res_bind].
  unfold str_eqb. case_bool_decide as E; [|done]. destruct q. cbn in *. by subst.
Qed.

Lemma report_raw c r gs ref q s :
  splitBillingExprAndRequestRules r = Ok s →
  billingEffect (mkEditor raw c r gs ref) q = Ok (set_billing (billingExpr s) q).
Proof.
  intros Hs. unfold billingEffect, effectiveExpr. cbn [editorMode rawExpr]. rewrite Hs. cbn [res_bind].
  unfold str_eqb. case_bool_decide as E; [|done]. destruct q. cbn in *. by subst.
Qed.

Lemma report_rules c r gs ref q :
  rulesEffect (mkEditor visual c r gs ref) q = set_rules (rules_text gs) q.
Proof.
  unfold rulesEffect. cbn [editorMode requestRuleGroups].
  unfold str_eqb. case_bool_decide as E; [|done]. destruct q. cbn in *. by subst.
Qed.

Lemma groups_read gs : Forall group_ok gs → groupsOf (rules_text gs) = Ok gs.
Proof. intros H. unfold groupsOf. by rewrite rules_read_back. Qed.

(** A render that does not read keeps the editor. *)
Lemma commit_kept prev e q q' :
  exprs_changed prev q && negb (initRef e) = false → name_changed prev q = false →
  billingEffect e q = Ok q' → commit prev (mkPage e q) = Ok (mkPage e (rulesEffect e q')).
Proof.
  intros Hx Hn Hb. unfold commit, initEffect, resetEffect. cbn [ed pr]. rewrite Hx. cbn [res_bind].
  by rewrite Hb, Hn.
Qed.

(** A render that reads. *)
Lemma commit_read prev e e' q q' :
  exprs_changed prev q && negb (initRef e) = true → name_changed prev q = false →
  reread q e = Ok e' → billingEffect e q = Ok q' →
  commit prev (mkPage e q) = Ok (mkPage e' (rulesEffect e q')).
Proof.
  intros Hx Hn Hr Hb. unfold commit, initEffect, resetEffect. cbn [ed pr]. rewrite Hx, Hr. cbn [res_bind].
  by rewrite Hb, Hn.
Qed.

(** The first render reads, and the flag is cleared again by the second effect. *)
Definition unflag (e : editor) : editor :=
  mkEditor (editorMode e) (visualConfig e) (rawExpr e) (requestRuleGroups e) false.

Lemma commit_first e e' q q' :
  initRef e = false → reread q e = Ok e' → billingEffect e q = Ok q' →
  commit None (mkPage e q) = Ok (mkPage (unflag e') (rulesEffect e q')).
Proof.
  intros Hi Hr Hb. unfold commit, initEffect, resetEffect. cbn [ed pr exprs_changed name_changed].
  rewrite Hi, Hr. cbn [negb andb res_bind]. by rewrite Hb.
Qed.

Lemma exprs_differ q q' : currentExpr q ≠ currentExpr q' ∨ currentRequestRuleExpr q ≠ currentRequestRuleExpr q' →
  exprs_changed (Some q) q' = true.
Proof.
  intros H. unfold exprs_changed, str_eqb. apply negb_true_iff.
  destruct H as [H|H]; rewrite (bool_decide_eq_false_2 _ H); [done|by rewrite andb_false_r].
Qed.

(** ** Opening *)

Definition canonical (name : jsstr) (cfg : VisualConfig) (gs : list RequestRuleGroup) : props :=
  mkProps name (text_of_config cfg) (rules_text gs).

Lemma reread_canonical name cfg gs e :
  config_ok cfg → Forall group_ok gs →
  reread (canonical name cfg gs) e
  = Ok (mkEditor visual (Some cfg) (combineBillingExpr (text_of_config cfg) (rules_text gs)) gs true).
Proof.
  intros Hc Hg. unfold reread. cbn [canonical currentExpr currentRequestRuleExpr]. rewrite groups_read by done.
  cbn [res_bind]. unfold text_of_config. by rewrite config_reads_back.
Qed.

Lemma opens_canonical name cfg gs :
  config_ok cfg → Forall group_ok gs →
  open_editor (canonical name cfg gs)
  = Ok (mkPage (mkEditor visual (Some cfg) (combineBillingExpr (text_of_config cfg) (rules_text gs)) gs false)
          (canonical name cfg gs)).
Proof.
  intros Hc Hg. unfold open_editor, mount. cbn [canonical currentExpr currentRequestRuleExpr].
  rewrite groups_read by done. cbn [res_bind]. fold (canonical name cfg gs).
  assert (Hp : tryParseVisualConfig (Some (text_of_config cfg)) = Some cfg) by by apply config_reads_back.
  rewrite Hp. apply settle_at; [|unfold RENDERS; lia].
  erewrite commit_first; [|done|by apply reread_canonical|apply report_visual]. by rewrite report_rules.
Qed.

(** Opening the editor on expressions it printed changes nothing: it shows
    the tiers and the rules they were printed from, in the visual mode, and
    reports no change to the page. *)
Theorem open_canonical name cfg gs :
  config_ok cfg → Forall group_ok gs →
  open_editor (canonical name cfg gs)
  = Ok (mkPage (mkEditor visual (Some cfg) (combineBillingExpr (text_of_config cfg) (rules_text gs)) gs false)
          (canonical name cfg gs)).
Proof. apply opens_canonical. Qed.

(** ** Switching the mode *)

Lemma split_combined cfg gs :
  shape_ok cfg → Forall label_flat cfg → Forall group_ok gs →
  splitBillingExprAndRequestRules
    (str_or (combineBillingExpr (text_of_config cfg) (rules_text gs)) (text_of_config cfg))
  = Ok (mkSplit (text_of_config cfg) (rules_text gs)).
Proof.
  intros Hc Hf Hg. pose proof (text_base cfg Hc Hf) as Hb. destruct gs as [|g gs].
  - unfold combineBillingExpr. rewrite (base_trim _ Hb). change (trim (rules_text [])) with (@nil N).
    rewrite (proj2 (nonempty_true _)) by apply (base_some _ Hb). cbn [negb nonempty].
    unfold str_or. destruct (nonempty _); by apply text_split.
  - rewrite <- (combine_parts _ (g :: gs)) by done. unfold str_or.
    rewrite (proj2 (nonempty_true _)); [done|]. unfold combineBillingExpr. rewrite (base_trim _ Hb).
    rewrite (proj2 (nonempty_true _)) by apply (base_some _ Hb). cbn [negb].
    by destruct (nonempty (trim _)); [|apply (base_some _ Hb)].
Qed.

Lemma combined_split cfg gs :
  shape_ok cfg → Forall label_flat cfg → Forall group_ok gs →
  combineBillingExpr (text_of_config cfg) (rules_text gs) ≠ []
  ∧ splitBillingExprAndRequestRules (combineBillingExpr (text_of_config cfg) (rules_text gs))
    = Ok (mkSplit (text_of_config cfg) (rules_text gs)).
Proof.
  intros Hc Hf Hg. assert (Hne : combineBillingExpr (text_of_config cfg) (rules_text gs) ≠ []).
  { unfold combineBillingExpr. rewrite printed_trim by done.
    rewrite (proj2 (nonempty_true _)) by by apply text_some. cbn [negb].
    by destruct (nonempty (trim _)); [|apply text_some]. }
  split; [done|]. pose proof (split_combined cfg gs Hc Hf Hg) as Hs. unfold str_or in Hs.
  by rewrite (proj2 (nonempty_true _)) in Hs.
Qed.

(** A raw editor whose text is what the page has. *)
Lemma raw_idle prev c r gs ref q s :
  splitBillingExprAndRequestRules r = Ok s → billingExpr s = currentExpr q →
  name_changed prev q = false → exprs_changed prev q = false →
  settle RENDERS prev (mkPage (mkEditor raw c r gs ref) q) = Ok (mkPage (mkEditor raw c r gs ref) q).
Proof.
  intros Hs Hb Hn Hx. apply settle_at; [|unfold RENDERS; lia]. apply commit_idle; [|done|by rewrite Hx].
  split; [|done]. cbn [ed pr]. unfold effectiveExpr. cbn [editorMode rawExpr]. by rewrite Hs, <- Hb.
Qed.

Lemma visual_idle prev c r gs ref q :
  generateExprFromVisualConfig c = currentExpr q → rules_text gs = currentRequestRuleExpr q →
  name_changed prev q = false → exprs_changed prev q && negb ref = false →
  settle RENDERS prev (mkPage (mkEditor visual c r gs ref) q) = Ok (mkPage (mkEditor visual c r gs ref) q).
Proof.
  intros Hb Hr Hn Hx. apply settle_at; [|unfold RENDERS; lia]. apply commit_idle; [|done|done].
  split; [|done]. cbn [ed pr]. unfold effectiveExpr. cbn [editorMode visualConfig]. by rewrite Hb.
Qed.

(** Switching from the cards to the text and back restores the cards: the
    tiers and the rule groups are those shown before, and at no point do the
    expressions of the page change. *)
Theorem mode_roundtrip name cfg gs r ref p :
  shape_ok cfg → Forall label_flat cfg → Forall group_ok gs →
  p = mkPage (mkEditor visual (Some cfg) r gs ref) (canonical name cfg gs) →
  ∃ text,
    dispatch (EMode raw) p = Ok (mkPage (mkEditor raw (Some cfg) text gs ref) (pr p))
    ∧ dispatch (EMode visual) (mkPage (mkEditor raw (Some cfg) text gs ref) (pr p))
      = Ok (mkPage (mkEditor visual (Some cfg) text gs ref) (pr p)).
Proof.
  intros Hc Hf Hg ->. pose proof (split_combined cfg gs Hc Hf Hg) as Hs.
  exists (str_or (combineBillingExpr (text_of_config cfg) (rules_text gs)) (text_of_config cfg)).
  assert (Hp : tryParseVisualConfig (Some (text_of_config cfg)) = Some cfg)
    by by apply config_reads_back, shape_config.
  split; unfold dispatch, handleEvent, handleModeChange; cbn [ed pr editorMode visualConfig requestRuleGroups rawExpr initRef].
  - cbn [res_bind]. eapply raw_idle; [exact Hs|done|by apply name_same|apply exprs_same].
  - rewrite Hs. cbn [res_bind billingExpr requestRuleExpr]. rewrite Hp, groups_read by done. cbn [res_bind].
    apply visual_idle; [done|done|by apply name_same|]. unfold canonical, set_rules.
    cbn [modelName currentExpr currentRequestRuleExpr]. by rewrite exprs_same.
Qed.

(** ** Editing the cards *)

(** What the page has once a visual editor has reported. *)
Definition shown_props (q : props) (c : option VisualConfig) (gs : list RequestRuleGroup) : props :=
  mkProps (modelName q) (generateExprFromVisualConfig c) (rules_text gs).

Lemma commit_visual prev c r gs ref q :
  exprs_changed prev q && negb ref = false → name_changed prev q = false →
  commit prev (mkPage (mkEditor visual c r gs ref) q) = Ok (mkPage (mkEditor visual c r gs ref) (shown_props q c gs)).
Proof.
  intros Hx Hn.
  rewrite (commit_kept prev (mkEditor visual c r gs ref) q _ Hx Hn (report_visual c r gs ref q)).
  by rewrite report_rules.
Qed.

Lemma commit_again prev c r gs q :
  modelName prev = modelName q →
  commit (Some prev) (mkPage (mkEditor visual c r gs true) (shown_props q c gs))
  = Ok (mkPage (mkEditor visual c r gs true) (shown_props q c gs)).
Proof. intros Hn. apply (commit_visual (Some prev) c r gs true (shown_props q c gs)); [apply andb_false_r|by apply name_same]. Qed.

Lemma commit_visual_read prev c r gs ref q e' :
  exprs_changed prev q && negb ref = true → name_changed prev q = false →
  reread q (mkEditor visual c r gs ref) = Ok e' →
  commit prev (mkPage (mkEditor visual c r gs ref) q) = Ok (mkPage e' (shown_props q c gs)).
Proof.
  intros Hx Hn Hr.
  rewrite (commit_read prev (mkEditor visual c r gs ref) e' q _ Hx Hn Hr (report_visual c r gs ref q)).
  by rewrite report_rules.
Qed.

(** Its tiers and rules read back. *)
Definition readable (c : option VisualConfig) (gs : list RequestRuleGroup) : Prop :=
  ∃ cfg, c = Some cfg ∧ config_ok cfg ∧ Forall group_ok gs.

Lemma visual_settles c r gs ref q :
  ref = true ∨ readable c gs →
  ∃ r' ref', settle RENDERS (Some q) (mkPage (mkEditor visual c r gs ref) q)
             = Ok (mkPage (mkEditor visual c r' gs ref') (shown_props q c gs)).
Proof.
  intros Hok. set (q' := shown_props q c gs).
  assert (H1 : commit (Some q) (mkPage (mkEditor visual c r gs ref) q) = Ok (mkPage (mkEditor visual c r gs ref) q')).
  { apply commit_visual; [by rewrite exprs_same|by apply name_same]. }
  destruct (exprs_changed (Some q) q' && negb ref) eqn:Hx.
  - destruct Hok as [->|(cfg & -> & Hc & Hg)]; [by rewrite andb_false_r in Hx|].
    set (text := combineBillingExpr (text_of_config cfg) (rules_text gs)). exists text, true.
    assert (H2 : commit (Some q) (mkPage (mkEditor visual (Some cfg) r gs ref) q')
                 = Ok (mkPage (mkEditor visual (Some cfg) text gs true) q')).
    { apply commit_visual_read; [done|by apply name_same|]. by apply (reread_canonical (modelName q)). }
    apply (settle_via _ _ _ _ _ H1); [|intros E; injection E as E; rewrite E, exprs_same in Hx; done].
    apply (settle_via _ _ _ _ _ H2); [|intros E; injection E as _ E; rewrite <- E in Hx; by rewrite andb_false_r in Hx].
    apply settle_at; [|lia]. apply commit_visual; [by rewrite andb_false_r|by apply name_same].
  - exists r, ref. apply (settle_via _ _ _ _ _ H1); [|by intros ->].
    apply settle_at; [|lia]. by apply commit_visual; [|apply name_same].
Qed.

(** An edit of the cards: the handler changes the tiers or the rules only. *)
Lemma edit_keeps ev p p1 :
  match ev with EVisual _ | ERules _ => True | _ => False end → editorMode (ed p) = visual →
  handleEvent ev p = Ok p1 →
  pr p1 = pr p ∧ ed p1 = mkEditor visual (visualConfig (ed p1)) (rawExpr (ed p)) (requestRuleGroups (ed p1)) (initRef (ed p)).
Proof.
  intros Hev Hm Hh. destruct p as [[m c r gs ref] q]. cbn [ed editorMode] in Hm. subst m.
  assert (Hid : ∀ x, Ok (mkPage (mkEditor visual c r gs ref) q) = Ok x →
    pr x = q ∧ ed x = mkEditor visual (visualConfig (ed x)) r (requestRuleGroups (ed x)) ref) by by intros x [= <-].
  destruct ev as [ev|ev| | | |]; try done; cbn [handleEvent ed editorMode pr visualConfig requestRuleGroups rawExpr initRef] in *.
  - destruct (VisualEditor c ev); [|by apply Hid]. by injection Hh as <-.
  - destruct (canUseVisualRules q) as [[]|]; [|by apply Hid|done]. cbn [res_bind] in Hh.
    destruct (rulesEdit gs ev); [|by apply Hid]. by injection Hh as <-.
Qed.

(** An edit of the cards is what gets saved. Whatever tier, condition, price
    or rule is changed, the editor then shows the tiers and the rules the handler
    computed, and the page has the two expressions printed from them. For the
    first edit after opening, when the page's expressions are read again, the
    tiers and the rules must be ones that read back. *)
Theorem edit_saved ev p p1 :
  match ev with EVisual _ | ERules _ => True | _ => False end → editorMode (ed p) = visual →
  handleEvent ev p = Ok p1 → initRef (ed p) = true ∨ readable (visualConfig (ed p1)) (requestRuleGroups (ed p1)) →
  ∃ p', dispatch ev p = Ok p' ∧ editorMode (ed p') = visual
        ∧ visualConfig (ed p') = visualConfig (ed p1) ∧ requestRuleGroups (ed p') = requestRuleGroups (ed p1)
        ∧ currentExpr (pr p') = generateExprFromVisualConfig (visualConfig (ed p1))
        ∧ currentRequestRuleExpr (pr p') = rules_text (requestRuleGroups (ed p1)).
Proof.
  intros Hev Hm Hh Hok. destruct (edit_keeps ev p p1 Hev Hm Hh) as [Hp He].
  unfold dispatch. rewrite Hh. cbn [res_bind]. destruct p1 as [e1 q1]. cbn [ed pr] in *. subst q1.
  rewrite He. set (c := visualConfig e1) in *. set (gs := requestRuleGroups e1) in *. clearbody c gs.
  destruct (visual_settles c (rawExpr (ed p)) gs (initRef (ed p)) (pr p) Hok) as (r' & ref' & Hs).
  rewrite Hs. by eexists.
Qed.
End PricingLaws.
