(* ===== verification/PricingCards.v ===== *)
(** * The pricing editor's cards

    The edits of the cards keep the shape of a configuration: one fallback at the
    end and conditions before it. The number inputs report what they show, and
    the estimator's inputs are the variables the expression reads. *)

From S2P Require Import Prelude JsNum Json NumText Regex BillingExpr RuleRoundtrip TierExpr TierRoundtrip.
From S2P Require Import PricingEditor PricingText.
From Stdlib Require Import Floats.SpecFloat.
Import BillingExpr RuleRoundtrip TierExpr TierRoundtrip PricingEditor PricingText.
Open Scope js_scope.

Module PricingCards.

(** ** Lists *)

Lemma remove_at_lookup {A} i j (l : list A) :
  remove_at i l !! j = if decide (j < i)%nat then l !! j else l !! S j.
Proof.
  unfold remove_at. destruct (decide (i <= length l)%nat) as [Hi|Hi].
  - destruct (decide (j < i)%nat) as [Hj|Hj].
    + rewrite lookup_app_l by (rewrite length_take; lia). by rewrite lookup_take_lt.
    + rewrite lookup_app_r by (rewrite length_take; lia). rewrite length_take, lookup_drop. f_equal. lia.
  - rewrite take_ge, drop_ge, app_nil_r by lia. destruct (decide (j < i)%nat); [done|].
    rewrite !lookup_ge_None_2 by lia. done.
Qed.

Lemma length_remove_at {A} i (l : list A) : (i < length l)%nat → length (remove_at i l) = (length l - 1)%nat.
Proof. intros Hi. unfold remove_at. rewrite length_app, length_take, length_drop. lia. Qed.

(** ** Shapes *)

(** The shape by positions. *)
Lemma shape_intro cfg :
  cfg ≠ [] → (∀ i t, cfg !! i = Some t → tier_ok t ∧ (vconditions t = [] ↔ S i = length cfg)) → shape_ok cfg.
Proof.
  intros Hne H. split; [done| | |].
  - apply Forall_lookup. intros i t Hi. by apply (H i).
  - intros t Ht. rewrite last_lookup in Ht. apply (H _ _ Ht).
    destruct cfg; [done|]. cbn [length]. lia.
  - intros i t Hi Hl Hc. apply (H i t Hi) in Hc. lia.
Qed.

Lemma shape_elim cfg i t :
  shape_ok cfg → cfg !! i = Some t → tier_ok t ∧ (vconditions t = [] ↔ S i = length cfg).
Proof.
  intros [Hne Hok Hl Hg] Hi. rewrite Forall_lookup in Hok. split; [by apply (Hok i)|]. split.
  - intros Hc. pose proof (lookup_lt_Some _ _ _ Hi). destruct (decide (S i = length cfg)); [done|].
    exfalso. apply (Hg i t); [done|lia|done].
  - intros Hlen. apply Hl. rewrite last_lookup, <- Hi. f_equal. lia.
Qed.

Lemma shape_insert cfg i t t' :
  shape_ok cfg → cfg !! i = Some t → tier_ok t' → (vconditions t' = [] ↔ vconditions t = []) →
  shape_ok (<[i := t']> cfg).
Proof.
  intros Hs Hi Ht Hc. apply shape_intro.
  - intros E. apply (f_equal length) in E. rewrite length_insert in E. apply (sh_some cfg Hs). by destruct cfg.
  - intros j u Hj. rewrite length_insert. destruct (decide (i = j)) as [<-|Hne].
    + rewrite list_lookup_insert_eq in Hj by by eapply lookup_lt_Some. injection Hj as <-.
      split; [done|]. rewrite Hc. by apply (shape_elim cfg).
    + rewrite list_lookup_insert_ne in Hj by done. by apply (shape_elim cfg).
Qed.

(** ** One tier *)

Lemma with_conditions_ok t cs : tier_ok t → Forall cond_ok cs → tier_ok (with_conditions t cs).
Proof. by intros [? ? ? ? ? ?] Hcs. Qed.

Lemma default_condition_ok v : v ∈ [js "p"; js "c"; js "len"] → cond_ok (default_condition v).
Proof.
  intros Hv. split; [exact Hv|left|]. exists (num_of_Z 200000). split; [done|]. split; [by split; vm_compute|].
  apply free_spec. vm_compute. by repeat constructor.
Qed.

Definition cache_1h : jsstr := js "cache_create_1h_unit_cost".

Lemma map_set_keys (f : jsstr) (x : num) l : f ∈ l.*1 → (map_set f x l).*1 = l.*1.
Proof.
  induction l as [|[k v] l IH]; intros Hf; [by apply elem_of_nil in Hf|]. cbn in *.
  case_decide as E; [by subst|]. cbn. f_equal. apply IH. by apply elem_of_cons in Hf as [->|].
Qed.

Lemma map_set_values (P : num → Prop) (f : jsstr) x l : P x → Forall P l.*2 → Forall P (map_set f x l).*2.
Proof.
  intros Hx. induction l as [|[k v] l IH]; intros Hl; cbn in *; [by repeat constructor|].
  apply Forall_cons in Hl as [Hv Hl]. case_decide; cbn; constructor; auto.
Qed.

(** Prices that keep the cache mode the costs imply. *)
Definition price_field (f : jsstr) : Prop :=
  f ∈ js "input_unit_cost" :: js "output_unit_cost" :: cost_fields ∧ f ≠ cache_1h.

Lemma price_ok t f x : tier_ok t → price_field f → printable x → tier_ok (handlePriceChange t f x).
Proof.
  intros [Hl Hc Hi Ho Hm [Hk Hv]] [Hf Hne] Hx. unfold handlePriceChange, str_eqb.
  case_bool_decide as E1; [by split|]. case_bool_decide as E2; [by split|].
  do 2 (apply elem_of_cons in Hf as [?|Hf]; [done|]). split; cbn [vlabel vconditions input_unit_cost output_unit_cost cache_mode costs]; try done.
  - rewrite Hm. unfold getTierCacheMode. do 2 f_equal. f_equal. rewrite map_get_set_ne; [done|]. by apply not_eq_sym.
  - rewrite map_set_keys by by rewrite Hk. split; [done|]. by apply map_set_values.
Qed.

(** The edits of a card that keep its tier canonical and its kind. *)
Definition tier_edit_ok (t : VisualTier) (ev : tier_edit) : Prop :=
  match ev with
  | TLabel l => l ≠ [] ∧ 34%N ∉ l
  | TCondition _ (CVar v) => v ∈ CONDITION_INPUT_OPTIONS.*1
  | TCondition _ (COp o) => o ∈ OPS
  | TCondition _ (CValue x) => printable x ∧ 45%N ∉ Number_toString x
  | TConditionRemove _ => (2 <= length (vconditions t))%nat
  | TPrice f x => price_field f ∧ printable x
  | TCacheMode _ => False
  end.

Lemma condition_row_ok c ev i t :
  cond_ok c → tier_edit_ok t (TCondition i ev) → cond_ok (ConditionRow c ev).
Proof.
  intros [Hv Ho Hx] He. destruct ev as [v|o|x]; cbn [tier_edit_ok] in He; split; try done.
  - cbn. vm_compute in He. set_solver.
  - by exists x.
Qed.

Lemma remove_at_some {A} i (l : list A) : (2 <= length l)%nat → remove_at i l ≠ [].
Proof.
  intros Hl E. destruct (decide (i < length l)%nat) as [Hi|Hi].
  - apply (f_equal length) in E. rewrite length_remove_at in E by done. cbn in E. lia.
  - unfold remove_at in E. rewrite take_ge, drop_ge, app_nil_r in E by lia. rewrite E in Hl. cbn in Hl. lia.
Qed.

Lemma card_ok t ev :
  tier_ok t → tier_edit_ok t ev →
  tier_ok (VisualTierCard t ev) ∧ (vconditions (VisualTierCard t ev) = [] ↔ vconditions t = []).
Proof.
  intros Ht He. pose proof Ht as [Hl Hc Hi Ho Hm Hk]. destruct ev as [l|i ev|i|f x|m]; cbn [VisualTierCard].
  - by split.
  - destruct (vconditions t !! i) as [c|] eqn:Ei; [|done]. rewrite Forall_lookup in Hc. split.
    + apply with_conditions_ok; [done|]. apply Forall_insert; [by apply Forall_lookup|].
      eapply condition_row_ok; [by apply (Hc i)|exact He].
    + cbn [handleConditionChange with_conditions vconditions].
      by destruct (vconditions t) as [|c0 cs]; destruct i.
  - cbn [tier_edit_ok] in He. split.
    + apply with_conditions_ok; [done|]. unfold remove_at. apply Forall_app. split; [by apply Forall_take|by apply Forall_drop].
    + cbn [handleConditionRemove with_conditions vconditions].
      pose proof (remove_at_some i _ He). split; [done|]. intros E. rewrite E in He. cbn in He. lia.
  - destruct He as [Hf Hx]. unfold priceToUnitCost. rewrite printable_or_zero by done.
    split; [by apply price_ok|]. unfold handlePriceChange. by repeat case_match.
  - done.
Qed.

(** ** The list of tiers *)

Definition edit_ok (cfg : VisualConfig) (ev : visual_edit) : Prop :=
  match ev with
  | VTier i ev => ∀ t, cfg !! i = Some t → tier_edit_ok t ev
  | VAddTier => True
  | VRemoveTier i | VAddCondition i => (S i < length cfg)%nat
  end.

Lemma new_tier_ok n :
  tier_ok (normalizeVisualTier (mkPTier (Some (js "tier_" ++ print_N n)) (Some []) (Some zero) (Some zero) None [])).
Proof.
  split; [|constructor|by split; vm_compute|by split; vm_compute|by vm_compute|].
  - split; [done|]. apply free_spec. apply Forall_app. split; [by repeat constructor|].
    destruct (print_N_spec n) as (_ & Hd & _). eapply Forall_impl; [exact Hd|].
    intros c Hc. unfold is_digit in Hc. cbn. lia.
  - split; [by vm_compute|]. repeat (constructor; [by split; vm_compute|]). constructor.
Qed.

Lemma add_tier_shape cfg : shape_ok cfg → shape_ok (handleAddTier cfg).
Proof.
  intros Hs. pose proof (sh_some cfg Hs) as Hne. unfold handleAddTier, boundLast.
  assert (Hlen : (0 < length cfg)%nat) by (destruct cfg; [done|cbn; lia]).
  destruct (cfg !! (length cfg - 1)%nat) as [t|] eqn:Et; [|by apply lookup_ge_None in Et; lia].
  destruct (shape_elim cfg _ t Hs Et) as [Ht Hc]. rewrite (proj2 Hc) by lia.
  set (u := normalizeVisualTier _).
  assert (Hu : tier_ok u ∧ vconditions u ≠ []).
  { assert (Hw : tier_ok (with_conditions t [default_condition (js "len")])).
    { apply with_conditions_ok; [done|]. constructor; [|constructor]. apply default_condition_ok. set_solver. }
    unfold u. rewrite normalize_tier_id by done. by split. }
  rewrite length_insert. set (w := normalizeVisualTier _). assert (Hw : tier_ok w) by apply new_tier_ok.
  apply shape_intro; [intros E; by apply app_eq_nil in E as [_ ?]|].
  intros i v Hi. rewrite length_app, length_insert. cbn [length].
  destruct (decide (i < length cfg)%nat) as [Hlt|Hge].
  - rewrite lookup_app_l in Hi by by rewrite length_insert.
    destruct (decide (i = (length cfg - 1)%nat)) as [->|Hd].
    + rewrite list_lookup_insert_eq in Hi by lia. injection Hi as <-. split; [apply Hu|].
      split; [by intros E; destruct Hu|lia].
    + rewrite list_lookup_insert_ne in Hi by lia. destruct (shape_elim cfg i v Hs Hi) as [Hv1 Hv2].
      split; [done|]. rewrite Hv2. lia.
  - pose proof (lookup_lt_Some _ _ _ Hi) as Hlt. rewrite length_app, length_insert in Hlt. cbn [length] in Hlt.
    replace i with (length (<[(length cfg - 1)%nat := u]> cfg) + 0)%nat in Hi by (rewrite length_insert; lia).
    rewrite lookup_app_r in Hi by lia. replace (_ + 0 - _)%nat with 0%nat in Hi by lia. injection Hi as <-.
    split; [done|]. split; [lia|done].
Qed.

Lemma remove_tier_shape cfg i : shape_ok cfg → (S i < length cfg)%nat → shape_ok (handleRemoveTier cfg i).
Proof.
  intros Hs Hi. unfold handleRemoveTier.
  assert (Hne : remove_at i cfg ≠ []) by (apply remove_at_some; lia).
  rewrite (proj2 (nonempty_true _)) by done. apply shape_intro; [done|]. intros j t Hj.
  rewrite length_remove_at by lia. rewrite remove_at_lookup in Hj. destruct (decide (j < i)%nat).
  - destruct (shape_elim cfg j t Hs Hj) as [H1 H2]. split; [done|]. rewrite H2. lia.
  - destruct (shape_elim cfg (S j) t Hs Hj) as [H1 H2]. split; [done|]. rewrite H2. lia.
Qed.

Lemma add_condition_shape cfg i cfg' :
  shape_ok cfg → (S i < length cfg)%nat → handleAddCondition cfg i = Some cfg' → shape_ok cfg'.
Proof.
  intros Hs Hi. unfold handleAddCondition. destruct (cfg !! i) as [t|] eqn:Et; [|done].
  destruct (2 <=? _)%nat; [done|]. intros [= <-]. destruct (shape_elim cfg i t Hs Et) as [Ht Hc].
  apply (shape_insert cfg i t); [done|done| |].
  - apply with_conditions_ok; [done|]. apply Forall_app. split; [apply Ht|]. constructor; [|constructor].
    apply default_condition_ok. destruct (set_has _ _); set_solver.
  - cbn [with_conditions vconditions]. rewrite Hc. split; [|lia]. intros E. by apply app_eq_nil in E as [_ ?].
Qed.

(** The edits of the cards keep a configuration well formed. From tiers of
    which only the last has no condition, adding a tier, changing or removing
    one that is not the fallback, changing its label, its conditions or its
    prices gives such tiers again: they print to an expression with a fallback
    that reads back as the same cards. *)
Theorem cards_keep_shape cfg ev cfg' :
  shape_ok cfg → edit_ok cfg ev → VisualEditor (Some cfg) ev = Some cfg' →
  shape_ok cfg' ∧ tryParseVisualConfig (Some (generateExprFromVisualConfig (Some cfg'))) = Some cfg'.
Proof.
  intros Hs He Hv. enough (shape_ok cfg') as H'.
  { split; [done|]. by apply config_reads_back, shape_config. }
  unfold VisualEditor in Hv. pose proof Hs as [Hne Hok _ _]. rewrite normalize_config_id in Hv by done.
  destruct ev as [i ev| |i|i]; cbn [edit_ok] in He.
  - destruct (cfg !! i) as [t|] eqn:Et; [|done]. injection Hv as <-.
    destruct (shape_elim cfg i t Hs Et) as [Ht _]. destruct (card_ok t ev Ht (He t eq_refl)) as [Hc1 Hc2].
    unfold handleTierChange. rewrite normalize_tier_id by done. by apply (shape_insert cfg i t).
  - injection Hv as <-. by apply add_tier_shape.
  - destruct (_ <=? 1)%nat; [done|]. injection Hv as <-. by apply remove_tier_shape.
  - by eapply add_condition_shape.
Qed.
Lemma cards_keep_shape_witness :
  ∃ cfg', VisualEditor (Some demo_config) VAddTier = Some cfg' ∧ shape_ok cfg' ∧ length cfg' = 3%nat.
Proof.
  exists (handleAddTier demo_config). split; [vm_compute; reflexivity|]. split; [|vm_compute; reflexivity].
  apply (cards_keep_shape demo_config VAddTier (handleAddTier demo_config)).
  - apply demo_shape.
  - exact I.
  - vm_compute; reflexivity.
Defined.

(** After a tier is added to a new configuration, removing the condition that
    the first tier was given prints the two tiers with a colon and no question
    mark, which is no conditional expression. *)
Theorem unguarded_tier_printed :
  (fun cfg => generateExprFromVisualConfig (Some cfg)) <$>
    (VisualEditor (Some createDefaultVisualConfig) VAddTier
       ≫= (fun cfg => VisualEditor (Some cfg) (VTier 0 (TConditionRemove 0))))
  = Some (jsq "tier('base', p * 0 + c * 0) : tier('tier_2', p * 0 + c * 0)").
Proof. by vm_compute. Qed.

(** ** Number inputs *)

Lemma parse_shown x : printable x → parseNumberDraft (Number_toString x) = x.
Proof.
  intros Hx. pose proof (printable_numtext x Hx) as Hn. unfold parseNumberDraft.
  rewrite numtext_trim by done. rewrite (proj2 (nonempty_true _)) by apply Hn. cbn [negb].
  rewrite printable_back by done. by destruct Hx as [-> _].
Qed.

Definition typed_ok (ev : draft_event) : Prop :=
  match ev with DChange text => printable (parseNumberDraft text) | _ => True end.

(** What the input shows reads as the owner's number. *)
Definition shows_value (s : DraftNumberInput * num) : Prop :=
  printable s.2 ∧ parseNumberDraft (draft s.1) = s.2 ∧ (focused s.1 = false → draft s.1 = Number_toString s.2).

Lemma sync_shows d x :
  printable x → parseNumberDraft (draft d) = x → shows_value (draftSync (VNum x) d, x).
Proof.
  intros Hx Hd. unfold draftSync. destruct (focused d) eqn:E; [split; [done|split; [done|cbn; congruence]]|].
  cbn [formatNumberDraft]. destruct Hx as [Hf Hb] eqn:Hx'. rewrite Hf. split; [done|]. split; [|done].
  by apply parse_shown.
Qed.

Lemma draft_step_shows ev s : typed_ok ev → shows_value s → shows_value (draftStep ev s).
Proof.
  destruct s as [d x]. intros Hev (Hx & Hd & Hf). cbn [fst snd] in *. destruct ev as [text| |]; unfold draftStep; cbn.
  - by apply sync_shows.
  - split; [done|]. by split.
  - rewrite Hd. apply (sync_shows (mkDraft (Number_toString x) false)); [done|]. by apply parse_shown.
Qed.

(** A number input reports what it shows. After any sequence of typing,
    focusing and leaving, the text on show reads as the number its owner has,
    and without the focus it is that number's text; a number that comes from
    outside never replaces a text being typed. *)
Theorem draft_reports v evs :
  printable v → Forall typed_ok evs →
  shows_value (foldl (fun s ev => draftStep ev s) (draftMount (VNum v), v) evs).
Proof.
  intros Hv Hevs. assert (H0 : shows_value (draftMount (VNum v), v)).
  { apply (sync_shows (mkDraft (Number_toString v) false)); [done|]. by apply parse_shown. }
  revert H0. generalize (draftMount (VNum v), v). induction Hevs as [|ev evs He Hevs IH]; intros s Hs; [done|].
  cbn [foldl]. by apply IH, draft_step_shows.
Qed.

Lemma draft_reports_witness :
  shows_value (foldl (fun s ev => draftStep ev s) (draftMount (VNum (Number (js "3"))), Number (js "3"))
                 [DFocus; DChange (js "1e3"); DChange (js " "); DBlur]).
Proof.
  apply (draft_reports (Number (js "3")) [DFocus; DChange (js "1e3"); DChange (js " "); DBlur]).
  - split; vm_compute; reflexivity.
  - repeat constructor; vm_compute; reflexivity.
Defined.

(** ** The estimator *)

Lemma extra_inputs : extraInputs = ESTIMATOR_VARS.
Proof. by vm_compute. Qed.

Lemma estimator_env_extra p c state v k :
  (v, k) ∈ ESTIMATOR_VARS → map_get v (estimatorEnv p c state) = Some (token state k).
Proof.
  intros Hv. apply list_elem_of_In in Hv. cbn [ESTIMATOR_VARS In] in Hv.
  repeat (destruct Hv as [[= <- <-]|Hv]; [reflexivity|]). done.
Qed.

Lemma estimator_keys_apart v v' k : (v, k) ∈ ESTIMATOR_VARS → (v', k) ∈ ESTIMATOR_VARS → v = v'.
Proof.
  intros H1 H2. assert (Hn : NoDup ESTIMATOR_VARS.*2) by (apply (bool_decide_unpack _); by vm_compute).
  apply list_elem_of_lookup in H1 as [i Hi], H2 as [j Hj].
  assert (i = j) as <-.
  { eapply NoDup_lookup; [exact Hn| |]; rewrite list_lookup_fmap; [by rewrite Hi|by rewrite Hj]. }
  rewrite Hi in Hj. by injection Hj.
Qed.

(** The estimator evaluates what its inputs show. Entering a count in the
    input of a variable gives that variable this value in the environment of the
    expression and leaves every other extra variable as it was. *)
Theorem estimator_input_read e v k x p c :
  (v, k) ∈ extraInputs → printable x →
  map_get v (estimatorEnv p c (extras (setExtra e k x))) = Some x
  ∧ ∀ v', v' ∈ ESTIMATOR_VARS.*1 → v' ≠ v →
      map_get v' (estimatorEnv p c (extras (setExtra e k x))) = map_get v' (estimatorEnv p c (extras e)).
Proof.
  rewrite extra_inputs. intros Hv Hx. split.
  - rewrite (estimator_env_extra _ _ _ _ _ Hv). unfold token, setExtra. cbn [extras].
    rewrite map_get_set_eq. unfold number_or_zero, to_number. cbn [default]. by rewrite printable_or_zero.
  - intros v' Hv' Hne. apply list_elem_of_fmap in Hv' as ([v0 k'] & -> & Hk'). cbn [fst] in *.
    rewrite !(estimator_env_extra _ _ _ _ _ Hk'). unfold token, setExtra. cbn [extras].
    rewrite map_get_set_ne; [done|]. intros ->. apply Hne. by eapply estimator_keys_apart.
Qed.

Lemma estimator_input_read_witness :
  map_get (js "cr") (estimatorEnv (Number (js "1")) (Number (js "2"))
    (extras (setExtra estimator_init (js "cacheReadTokens") (Number (js "7"))))) = Some (Number (js "7")).
Proof.
  apply (estimator_input_read estimator_init (js "cr") (js "cacheReadTokens") (Number (js "7"))
           (Number (js "1")) (Number (js "2"))).
  - apply (list_elem_of_lookup_2 _ 0). vm_compute. reflexivity.
  - split; vm_compute; reflexivity.
Defined.
End PricingCards.
