(* ===== verification/PricingLoss.v ===== *)
(** * What the pricing editor applies and what it loses

    Presets, and the states in which opening the editor, switching to the cards or
    to the text, or applying a preset replaces an expression by another one. *)

From S2P Require Import Prelude JsNum Json NumText Regex BillingExpr RuleRoundtrip TierExpr TierRoundtrip.
From S2P Require Import PricingEditor PricingCommit PricingText PricingLaws.
Import BillingExpr RuleRoundtrip TierExpr TierRoundtrip PricingEditor PricingCommit PricingText PricingLaws.
Open Scope js_scope.

Module PricingLoss.

(** ** Presets *)

Definition all_presets : list Preset := concat (map snd PRESET_GROUPS).

Definition groups_back (gs : list RequestRuleGroup) : bool :=
  match groupsOf (rules_text gs) with Ok gs' => bool_decide (gs' = gs) | Throw _ => false end.

Definition preset_readable (preset : Preset) : bool :=
  match tryParseVisualConfig (Some (expr preset)) with
  | Some c => bool_decide (tryParseVisualConfig (Some (text_of_config c)) = Some c)
  | None => false
  end && groups_back (requestRules preset).

Lemma presets_readable : forallb preset_readable all_presets = true.
Proof. by vm_compute. Qed.

(** A visual page in which the flag is set. *)
Lemma visual_reports n prev c r gs q :
  (2 <= n)%nat → name_changed prev q = false →
  settle n prev (mkPage (mkEditor visual c r gs true) q)
  = Ok (mkPage (mkEditor visual c r gs true) (shown_props q c gs)).
Proof.
  intros Hl Hn. destruct n as [|n]; [lia|]. eapply settle_via; [apply commit_visual; [by rewrite andb_false_r|done]| |done].
  apply settle_at; [|lia]. by apply commit_again.
Qed.

(** Once the editor has been edited, each of the presets it offers is applied
    in full: the cards show the preset's tiers and rules, the page has the two
    expressions printed from them, and these read back as the same cards. *)
Theorem preset_applied p preset :
  initRef (ed p) = true → preset ∈ all_presets →
  ∃ c p', tryParseVisualConfig (Some (expr preset)) = Some c
    ∧ dispatch (EPreset preset) p = Ok p'
    ∧ editorMode (ed p') = visual ∧ visualConfig (ed p') = Some c
    ∧ requestRuleGroups (ed p') = requestRules preset
    ∧ pr p' = mkProps (modelName (pr p)) (text_of_config c) (rules_text (requestRules preset))
    ∧ tryParseVisualConfig (Some (text_of_config c)) = Some c
    ∧ groupsOf (rules_text (requestRules preset)) = Ok (requestRules preset).
Proof.
  intros Hi Hin. pose proof presets_readable as Hall. rewrite forallb_forall in Hall.
  apply list_elem_of_In in Hin. apply Hall in Hin as Hp. unfold preset_readable in Hp.
  apply andb_true_iff in Hp as [Hp Hg].
  destruct (tryParseVisualConfig (Some (expr preset))) as [c|] eqn:Ec; [|done].
  apply bool_decide_eq_true in Hp. unfold groups_back in Hg.
  destruct (groupsOf _) as [gs'|] eqn:Eg; [|done]. apply bool_decide_eq_true in Hg as ->.
  exists c. unfold dispatch, handleEvent, applyPreset. rewrite Ec, Hi. cbn [res_bind].
  assert (Hn : name_changed (Some (pr p)) (set_rules (rules_text (requestRules preset)) (pr p)) = false)
    by by apply name_same.
  destruct (ed p) as [m c0 r0 gs0 ref0]. cbn [editorMode].
  destruct m; rewrite visual_reports by (unfold RENDERS; lia || done); by eexists.
Qed.

(** ** A preset applied first *)

(** A preset that changes the request rules is not applied in full as the
    first action after opening: the rules change, but the editor reads the old
    expression again and the page keeps it. *)
Theorem preset_expression_reverted name cfg gs r preset c :
  config_ok cfg → tryParseVisualConfig (Some (expr preset)) = Some c →
  Forall group_ok (requestRules preset) → rules_text (requestRules preset) ≠ rules_text gs →
  ∃ p', dispatch (EPreset preset) (mkPage (mkEditor visual (Some cfg) r gs false) (canonical name cfg gs)) = Ok p'
    ∧ visualConfig (ed p') = Some cfg ∧ pr p' = canonical name cfg (requestRules preset).
Proof.
  intros Hc Hp Hg Hne. unfold dispatch, handleEvent, applyPreset. rewrite Hp.
  cbn [ed pr editorMode initRef res_bind]. set (gs' := requestRules preset) in *.
  set (q := set_rules (rules_text gs') (canonical name cfg gs)).
  set (text := combineBillingExpr (text_of_config cfg) (rules_text gs')).
  exists (mkPage (mkEditor visual (Some cfg) text gs' true) (canonical name cfg gs')). split; [|done].
  eapply settle_via; [apply commit_visual_read| |].
  - rewrite exprs_differ; [done|]. right. cbn. by apply not_eq_sym.
  - by apply name_same.
  - change q with (canonical name cfg gs'). by apply reread_canonical.
  - rewrite visual_reports; [done|lia|by apply name_same].
  - done.
Qed.

(** ** Expressions the cards cannot show *)

Definition zero_expr : jsstr := js "p * 0 + c * 0".

Lemma zero_split : splitBillingExprAndRequestRules zero_expr = Ok (mkSplit zero_expr []).
Proof. by vm_compute. Qed.
Lemma zero_unread : tryParseVisualConfig (Some zero_expr) = None.
Proof. by vm_compute. Qed.

Lemma raw_rules c r gs ref q : rulesEffect (mkEditor raw c r gs ref) q = q.
Proof. done. Qed.

Lemma reread_unread name x e :
  x ≠ [] → tryParseVisualConfig (Some x) = None →
  reread (mkProps name x []) e = Ok (mkEditor raw None (combineBillingExpr x []) [] true).
Proof.
  intros Hx Hp. unfold reread. cbn [currentExpr currentRequestRuleExpr].
  change (groupsOf []) with (Ok (@nil RequestRuleGroup)). cbn [res_bind]. rewrite Hp.
  by rewrite (proj2 (nonempty_true x)).
Qed.

(** A raw editor with the flag set reports its expression. *)
Lemma raw_reports n prev c r gs q s :
  (2 <= n)%nat → splitBillingExprAndRequestRules r = Ok s → name_changed prev q = false →
  settle n prev (mkPage (mkEditor raw c r gs true) q)
  = Ok (mkPage (mkEditor raw c r gs true) (set_billing (billingExpr s) q)).
Proof.
  intros Hl Hs Hn. destruct n as [|n]; [lia|].
  eapply settle_via; [apply commit_kept; [by rewrite andb_false_r|done|by apply report_raw]| |done].
  rewrite raw_rules. apply settle_at; [|lia].
  rewrite (commit_kept _ _ _ (set_billing (billingExpr s) q)); [done|by rewrite andb_false_r|by apply name_same|].
  rewrite (report_raw _ _ _ _ _ s) by done. done.
Qed.

(** Opening the editor on an expression that the cards cannot show replaces
    it by the expression that costs nothing: the first render reports the empty
    configuration before the raw mode is entered, and the second reads that
    report back into the text. *)
Theorem unreadable_expression_lost name x s :
  x ≠ [] → tryParseVisualConfig (Some x) = None →
  splitBillingExprAndRequestRules (combineBillingExpr x []) = Ok s →
  ∃ p, open_editor (mkProps name x []) = Ok p ∧ editorMode (ed p) = raw
       ∧ currentExpr (pr p) = zero_expr
       ∧ splitBillingExprAndRequestRules (rawExpr (ed p)) = Ok (mkSplit zero_expr []).
Proof.
  intros Hx Hp Hs. unfold open_editor, mount. cbn [currentExpr currentRequestRuleExpr].
  change (groupsOf []) with (Ok (@nil RequestRuleGroup)). cbn [res_bind]. rewrite Hp.
  set (text := combineBillingExpr x []) in *.
  assert (H1 : commit None (mkPage (mkEditor visual None text [] false) (mkProps name x []))
               = Ok (mkPage (mkEditor raw None text [] false) (mkProps name zero_expr []))).
  { erewrite commit_first; [|done|by apply reread_unread|apply report_visual]. by rewrite report_rules. }
  destruct (decide (x = zero_expr)) as [->|Hz].
  - exists (mkPage (mkEditor raw None text [] false) (mkProps name zero_expr [])).
    split; [|split; [done|split; [done|apply zero_split]]].
    apply (settle_via _ _ _ _ _ H1); [|done]. apply settle_at; [|lia].
    apply commit_idle; [|by apply name_same|by rewrite exprs_same]. split; [|done].
    cbn [ed pr]. by vm_compute.
  - exists (mkPage (mkEditor raw None zero_expr [] true) (mkProps name zero_expr [])).
    split; [|split; [done|split; [done|apply zero_split]]].
    apply (settle_via _ _ _ _ _ H1); [|done].
    eapply settle_via; [eapply commit_read; [by rewrite exprs_differ by by left|by apply name_same
      |by apply (reread_unread name zero_expr)|by apply report_raw]| |by intros E].
    rewrite raw_rules. change (combineBillingExpr zero_expr []) with zero_expr.
    rewrite (raw_reports _ _ _ _ _ _ (mkSplit zero_expr [])); [done|lia|apply zero_split|by apply name_same].
Qed.
(** Opening the editor on request rules that it cannot read erases them: it
    shows no rule, and the visual mode reports the empty text of no rules. The
    comparisons and the containment test on a request parameter, which the editor
    itself writes, are such rules. *)
Theorem unreadable_rules_erased name cfg rules :
  config_ok cfg → tryParseRequestRuleExpr rules = Ok None →
  ∃ p, open_editor (mkProps name (text_of_config cfg) rules) = Ok p
       ∧ editorMode (ed p) = visual ∧ visualConfig (ed p) = Some cfg ∧ requestRuleGroups (ed p) = []
       ∧ pr p = mkProps name (text_of_config cfg) [].
Proof.
  intros Hc Hr. assert (Hg : groupsOf rules = Ok []) by (unfold groupsOf; by rewrite Hr).
  assert (Hp : tryParseVisualConfig (Some (text_of_config cfg)) = Some cfg) by by apply config_reads_back.
  assert (Hne : rules ≠ []) by (intros ->; done).
  exists (mkPage (mkEditor visual (Some cfg) (combineBillingExpr (text_of_config cfg) []) [] true)
            (canonical name cfg [])). split; [|done].
  unfold open_editor, mount. cbn [currentExpr currentRequestRuleExpr]. rewrite Hg. cbn [res_bind]. rewrite Hp.
  eapply settle_via; [eapply commit_first; [done| |apply report_visual]| |].
  - unfold reread. cbn [currentExpr currentRequestRuleExpr]. rewrite Hg. cbn [res_bind]. by rewrite Hp.
  - unfold unflag. cbn [editorMode visualConfig rawExpr requestRuleGroups]. rewrite report_rules.
    eapply settle_via; [apply commit_visual_read| |done].
    + rewrite exprs_differ; [done|]. by right.
    + by apply name_same.
    + by apply (reread_canonical name cfg []).
    + by rewrite visual_reports; [|lia|apply name_same].
  - intros E. injection E as E. by rewrite report_rules in E; injection E as E.
Qed.

(** Switching to the cards with an expression that they cannot show replaces
    it: the page gets the expression of one tier that costs nothing. *)
Theorem switch_replaces_expression p r s gs :
  ed p = mkEditor raw (visualConfig (ed p)) r (requestRuleGroups (ed p)) true →
  splitBillingExprAndRequestRules r = Ok s → tryParseVisualConfig (Some (billingExpr s)) = None →
  groupsOf (requestRuleExpr s) = Ok gs →
  ∃ p', dispatch (EMode visual) p = Ok p' ∧ visualConfig (ed p') = Some createDefaultVisualConfig
        ∧ currentExpr (pr p') = jsq "tier('base', p * 0 + c * 0)".
Proof.
  intros He Hs Hp Hg. unfold dispatch, handleEvent, handleModeChange. rewrite He. cbn [editorMode rawExpr initRef].
  rewrite Hs. cbn [res_bind]. rewrite Hp, Hg. cbn [res_bind].
  rewrite visual_reports by (unfold RENDERS; lia || by apply name_same). eexists. split; [done|]. split; [done|].
  by vm_compute.
Qed.

(** Switching to the text multiplies twice by the rules that the text cannot be
    split into. The text holds the price and the rules; the billing effect reports
    the part of it that is not recognised as rules, which is all of it, and no
    effect reports the rules, so that the page keeps them beside an expression
    that already has them. The expression saved from the page has them twice. *)
Theorem raw_switch_doubles_rules p cfg r gs x :
  ed p = mkEditor visual (Some cfg) r gs true → agrees p →
  combineBillingExpr (text_of_config cfg) (rules_text gs) ≠ [] →
  splitBillingExprAndRequestRules (combineBillingExpr (text_of_config cfg) (rules_text gs)) = Ok (mkSplit x []) →
  ∃ p', dispatch (EMode raw) p = Ok p' ∧ settled p'
        ∧ rawExpr (ed p') = combineBillingExpr (currentExpr (pr p)) (currentRequestRuleExpr (pr p))
        ∧ currentExpr (pr p') = x ∧ currentRequestRuleExpr (pr p') = currentRequestRuleExpr (pr p)
        ∧ combineBillingExpr (currentExpr (pr p')) (currentRequestRuleExpr (pr p'))
          = combineBillingExpr x (rules_text gs).
Proof.
  intros He [Hb Hr] Hne Hs. rewrite He in Hb, Hr. cbn [editorMode requestRuleGroups effectiveExpr visualConfig] in Hb, Hr.
  injection Hb as Hb. specialize (Hr eq_refl). change (buildRequestRuleExpr gs) with (rules_text gs) in Hr.
  change (generateExprFromVisualConfig (Some cfg)) with (text_of_config cfg) in Hb.
  set (text := combineBillingExpr (text_of_config cfg) (rules_text gs)) in *.
  exists (mkPage (mkEditor raw (Some cfg) text gs true) (set_billing x (pr p))).
  split; [|split; [|by cbn [pr ed rawExpr set_billing currentExpr currentRequestRuleExpr]; rewrite <- ?Hb, <- ?Hr]].
  - unfold dispatch, handleEvent, handleModeChange. rewrite He.
    cbn [visualConfig requestRuleGroups initRef pr ed res_bind].
    change (generateExprFromVisualConfig (Some cfg)) with (text_of_config cfg).
    change (buildRequestRuleExpr gs) with (rules_text gs). fold text.
    replace (str_or text (text_of_config cfg)) with text by (by destruct text).
    apply (raw_reports _ _ _ _ _ _ (mkSplit x [])); [unfold RENDERS; lia|done|by apply name_same].
  - apply agrees_settled. split; [|done]. cbn [ed pr effectiveExpr editorMode rawExpr]. by rewrite Hs.
Qed.

(** ** Witnesses *)

Definition demo_page : page :=
  mkPage (mkEditor visual (Some demo_config) [] [demo_group] false) (canonical (js "m") demo_config [demo_group]).

Lemma demo_groups : Forall group_ok [demo_group].
Proof. by constructor; [apply demo_group_ok|]. Qed.

Lemma open_canonical_witness :
  ∃ p, open_editor (canonical (js "m") demo_config [demo_group]) = Ok p ∧ pr p = pr demo_page.
Proof.
  eexists. split; [apply (open_canonical (js "m") demo_config [demo_group]); [apply shape_config, demo_shape|apply demo_groups]|].
  reflexivity.
Defined.

Lemma mode_roundtrip_witness :
  ∃ text, dispatch (EMode raw) demo_page = Ok (mkPage (mkEditor raw (Some demo_config) text [demo_group] false) (pr demo_page))
    ∧ dispatch (EMode visual) (mkPage (mkEditor raw (Some demo_config) text [demo_group] false) (pr demo_page))
      = Ok (mkPage (mkEditor visual (Some demo_config) text [demo_group] false) (pr demo_page)).
Proof.
  apply (mode_roundtrip (js "m") demo_config [demo_group] [] false demo_page);
    [apply demo_shape|apply demo_flat|apply demo_groups|reflexivity].
Defined.

Lemma preset_applied_witness :
  ∃ c p', tryParseVisualConfig (Some (expr (hd (mkPreset [] [] [] []) time_presets))) = Some c
    ∧ dispatch (EPreset (hd (mkPreset [] [] [] []) time_presets))
        (mkPage (mkEditor raw None [] [] true) (mkProps [] [] [])) = Ok p' ∧ visualConfig (ed p') = Some c.
Proof.
  destruct (preset_applied (mkPage (mkEditor raw None [] [] true) (mkProps [] [] []))
              (hd (mkPreset [] [] [] []) time_presets)) as (c & p' & H1 & H2 & _ & H3 & _).
  - reflexivity.
  - apply (list_elem_of_lookup_2 _ 13). reflexivity.
  - exists c, p'. repeat split; assumption.
Defined.

(** The expression that the editor's own prompt gives as an example of three tiers. *)
Definition three_tiers : jsstr :=
  jsq "len <= 128000
  ? tier('standard', p * 1.1 + c * 4.4)
  : (len <= 1000000
    ? tier('medium', p * 2.2 + c * 8.8)
    : tier('long', p * 4.4 + c * 17.6))".

Lemma unreadable_expression_lost_witness :
  ∃ p, open_editor (mkProps (js "m") three_tiers []) = Ok p ∧ editorMode (ed p) = raw
       ∧ currentExpr (pr p) = js "p * 0 + c * 0"
       ∧ splitBillingExprAndRequestRules (rawExpr (ed p)) = Ok (mkSplit (js "p * 0 + c * 0") []).
Proof.
  apply (unreadable_expression_lost (js "m") three_tiers (mkSplit (trim three_tiers) []));
    [discriminate|vm_compute; reflexivity|vm_compute; reflexivity].
Defined.

Definition contains_rule : RequestRuleGroup := param_rule (js "service_tier") MATCH_CONTAINS (js "fast") (js "2").

Lemma unreadable_rules_erased_witness :
  ∃ p, open_editor (mkProps (js "m") (text_of_config demo_config) (rules_text [contains_rule])) = Ok p
       ∧ editorMode (ed p) = visual ∧ visualConfig (ed p) = Some demo_config ∧ requestRuleGroups (ed p) = []
       ∧ pr p = mkProps (js "m") (text_of_config demo_config) [].
Proof.
  apply (unreadable_rules_erased (js "m") demo_config (rules_text [contains_rule]));
    [apply shape_config, demo_shape|vm_compute; reflexivity].
Defined.

(** A first edit, a containment rule and the switch to the text: the price is
    then multiplied by the rule twice. *)
Lemma raw_switch_doubles_rules_witness :
  let p := mkPage (mkEditor visual (Some demo_config) [] [contains_rule] true) (canonical (js "m") demo_config [contains_rule]) in
  ∃ p', dispatch (EMode raw) p = Ok p'
    ∧ combineBillingExpr (currentExpr (pr p')) (currentRequestRuleExpr (pr p'))
      = combineBillingExpr (combineBillingExpr (text_of_config demo_config) (rules_text [contains_rule])) (rules_text [contains_rule]).
Proof.
  intros p.
  destruct (raw_switch_doubles_rules p demo_config [] [contains_rule]
              (combineBillingExpr (text_of_config demo_config) (rules_text [contains_rule])))
    as (p' & H1 & _ & _ & _ & _ & H2);
    [reflexivity|split; vm_compute; reflexivity|vm_compute; discriminate|vm_compute; reflexivity|].
  exists p'. split; [exact H1|exact H2].
Defined.

Lemma preset_expression_reverted_witness :
  ∃ p', dispatch (EPreset (hd (mkPreset [] [] [] []) time_presets))
          (mkPage (mkEditor visual (Some demo_config) [] [] false) (canonical (js "m") demo_config [])) = Ok p'
    ∧ visualConfig (ed p') = Some demo_config
    ∧ pr p' = canonical (js "m") demo_config (requestRules (hd (mkPreset [] [] [] []) time_presets)).
Proof.
  refine (preset_expression_reverted (js "m") demo_config [] [] (hd (mkPreset [] [] [] []) time_presets) _
            (shape_config _ demo_shape) eq_refl _ _).
  - constructor; [|constructor]. split; [discriminate| |reflexivity].
    constructor; [|constructor]. apply sup_range; [left|done|by repeat constructor|by vm_compute..].
  - discriminate.
Defined.

Lemma switch_replaces_expression_witness :
  ∃ p', dispatch (EMode visual) (mkPage (mkEditor raw None three_tiers [] true) (mkProps (js "m") three_tiers [])) = Ok p'
    ∧ visualConfig (ed p') = Some createDefaultVisualConfig
    ∧ currentExpr (pr p') = jsq "tier('base', p * 0 + c * 0)".
Proof.
  apply (switch_replaces_expression _ three_tiers (mkSplit (trim three_tiers) []) []);
    [reflexivity|vm_compute; reflexivity|vm_compute; reflexivity|reflexivity].
Defined.

Lemma edit_saved_witness :
  ∃ p', dispatch (EVisual VAddTier)
          (mkPage (mkEditor visual (Some demo_config) [] [] true) (canonical (js "m") demo_config [])) = Ok p'
        ∧ length <$> visualConfig (ed p') = Some 3%nat
        ∧ currentExpr (pr p') = generateExprFromVisualConfig (visualConfig (ed p')).
Proof.
  destruct (edit_saved (EVisual VAddTier)
    (mkPage (mkEditor visual (Some demo_config) [] [] true) (canonical (js "m") demo_config []))
    (mkPage (mkEditor visual (Some (handleAddTier demo_config)) [] [] true) (canonical (js "m") demo_config [])))
    as (p' & H1 & _ & H2 & _ & H3 & _).
  - exact I.
  - reflexivity.
  - reflexivity.
  - left. reflexivity.
  - exists p'. rewrite H2, H3. split; [exact H1|]. split; reflexivity.
Defined.
End PricingLoss.
