(* ===== verification/PricingPanel.v ===== *)
(** * The pricing panel
      (src/web/default/src/features/system-settings/models/model-pricing-sheet.tsx and pricing-format.ts)

    A model is priced by tokens, by request or by an expression. The panel shows
    token prices and stores ratios: the input price is twice the ratio, and the
    price of a lane is its ratio times the input price (times the audio input
    price for audio output). An optional text that is absent is the empty text:
    the code reads both alike. *)

From S2P Require Import Prelude JsNum IntNum Json NumText Regex BillingExpr.
From Stdlib Require Import Floats.SpecFloat.
Import BillingExpr.

Module PricingPanel.
Open Scope js_scope.

(** ** Numbers as texts *)

(** [x.toFixed(digits)] of a finite number: the nearest decimal, halves away from zero. *)
Definition toFixed (digits : nat) (x : num) : jsstr :=
  match x with
  | S754_finite s m e =>
      let scaled := (Z.pos m * 10 ^ Z.of_nat digits)%Z in
      if (10 ^ 21 <=? (if 0 <=? e then Z.pos m * 2 ^ e else Z.pos m / 2 ^ (- e)))%Z then Number_toString x
      else
        let n := (if 0 <=? e then scaled * 2 ^ e else (2 * scaled + 2 ^ (- e)) / (2 * 2 ^ (- e)))%Z in
        let ds := print_N (Z.to_N n) in
        let ds := replicate (digits + 1 - length ds) 48%N ++ ds in
        (if s then js "-" else []) ++ take (length ds - digits) ds
          ++ (if (digits =? 0)%nat then [] else js "." ++ drop (length ds - digits) ds)
  | S754_zero _ => js "0" ++ (if (digits =? 0)%nat then [] else js "." ++ replicate digits 48%N)
  | _ => Number_toString x
  end.

(** [parseFloat]: the longest prefix that is a decimal literal. *)
Definition exponent_re : re :=
  Opt (seqs [Chr (fun c => (c =? 101)%N || (c =? 69)%N); Opt (Chr (fun c => (c =? 43)%N || (c =? 45)%N)); Plus digit_re]).
Definition float_re : re :=
  Seq Bol (Cap 1 (seqs [Opt (Chr (fun c => (c =? 43)%N || (c =? 45)%N));
    alts [lit (js "Infinity");
          seqs [Plus digit_re; Opt (seqs [lit (js "."); Star digit_re]); exponent_re];
          seqs [lit (js "."); Plus digit_re; exponent_re]]])).
Definition parseFloat (s : jsstr) : num :=
  match exec float_re (drop_ws s) with Some m => Number (grp 1 m) | None => S754_nan end.

(** *** [pricing-format.ts] *)

Definition DISPLAY_DECIMALS : nat := 12.
Definition SNAP_DECIMALS : nat := 8.
Definition SNAP_EPSILON : num := Number (js "1e-12").
Definition DISPLAY_DRIFT_EPSILON : num := Number (js "5e-6").
Definition EPSILON : num := Number (js "2.220446049250313e-16").

Definition num_abs (x : num) : num := SFabs x.
Definition num_max (a b : num) : num := if num_ltb a b then b else a.

(** A text or nothing as a finite number; [hasValue] of a text is that it is not empty. *)
Definition hasValue (value : jsstr) : bool := nonempty value.

Definition toNumberOrNull (value : jsstr) : option num :=
  if negb (hasValue value) then None
  else let x := Number value in if num_is_finite x then Some x else None.

Definition roundToDecimals (value : num) (decimals : nat) : num :=
  let factor := num_of_Z (10 ^ Z.of_nat decimals) in
  num_div (Math_round (num_mul value factor)) factor.

Fixpoint snapLoop (value tolerance : num) (decimals turns : nat) : num :=
  match turns with
  | O => value
  | S turns' =>
      let rounded := roundToDecimals value decimals in
      if num_leb (num_abs (num_sub value rounded)) tolerance then rounded
      else snapLoop value tolerance (S decimals) turns'
  end.

Definition snapFloatDrift (value : num) : num :=
  let tolerance := num_max (num_max SNAP_EPSILON DISPLAY_DRIFT_EPSILON)
                     (num_mul (num_mul (num_abs value) EPSILON) (num_of_Z 8)) in
  snapLoop value tolerance 0 (SNAP_DECIMALS + 1).

(** Of a number that may be infinite or not a number, as an argument. *)
Definition formatPricingNumber (value : num) : jsstr :=
  if num_is_finite value
  then Number_toString (parseFloat (toFixed DISPLAY_DECIMALS (snapFloatDrift value)))
  else [].

(** ** Fields, lanes and modes *)

Inductive PricingMode := per_token | per_request | tiered_expr.

(** The numeric settings of a model. *)
Inductive Field :=
| Price | Ratio | CacheRatio | CreateCacheRatio | CompletionRatio | ImageRatio | AudioRatio | AudioCompletionRatio.

Inductive LaneKey := completion | cache | createCache | image | audioInput | audioOutput.

#[export] Instance PricingMode_eq_dec : EqDecision PricingMode.
Proof. solve_decision. Defined.
#[export] Instance Field_eq_dec : EqDecision Field.
Proof. solve_decision. Defined.
#[export] Instance LaneKey_eq_dec : EqDecision LaneKey.
Proof. solve_decision. Defined.

Definition ratioFieldByLane (l : LaneKey) : Field :=
  match l with
  | completion => CompletionRatio | cache => CacheRatio | createCache => CreateCacheRatio
  | image => ImageRatio | audioInput => AudioRatio | audioOutput => AudioCompletionRatio
  end.

(** The keys of [laneConfigs], in their order. *)
Definition laneConfigs : list LaneKey := [completion; cache; createCache; image; audioInput; audioOutput].

Definition EMPTY_LANE_PRICES : LaneKey → jsstr := fun _ => [].
Definition EMPTY_LANE_ENABLED : LaneKey → bool := fun _ => false.

(** [{ ...record, [key]: value }]. *)
Definition set_at {K A} `{EqDecision K} (k : K) (x : A) (f : K → A) : K → A :=
  fun k' => if decide (k' = k) then x else f k'.

(** What the panel is opened with and what it saves. *)
Record ModelRatioData := mkData {
  name : jsstr;
  values : Field → jsstr;
  billingMode : PricingMode;
  billingExpr : jsstr;
  requestRuleExpr : jsstr
}.

(** [/^(\d+(\.\d* )?|\.\d* )?$/] *)
Definition numericDraftRegex : re :=
  Seq Bol (seqs [Opt (alts [seqs [Plus digit_re; Opt (seqs [lit (js "."); Star digit_re])];
                            seqs [lit (js "."); Star digit_re]]); Eol]).

Definition ratioToBasePrice (ratio : jsstr) : jsstr :=
  match toNumberOrNull ratio with
  | None => []
  | Some x => formatPricingNumber (num_mul x (num_of_Z 2))
  end.

Definition deriveLanePrice (ratio denominator : jsstr) : jsstr :=
  match toNumberOrNull ratio, toNumberOrNull denominator with
  | Some r, Some d => formatPricingNumber (num_mul r d)
  | _, _ => []
  end.

Record laneState := mkLanes { l_prompt : jsstr; l_prices : LaneKey → jsstr; l_enabled : LaneKey → bool }.

Definition createInitialLaneState (data : option ModelRatioData) : laneState :=
  match data with
  | None => mkLanes [] EMPTY_LANE_PRICES EMPTY_LANE_ENABLED
  | Some d =>
      let promptPrice := ratioToBasePrice (values d Ratio) in
      let audioInputPrice := deriveLanePrice (values d AudioRatio) promptPrice in
      mkLanes promptPrice
        (fun l => match l with
                  | audioInput => audioInputPrice
                  | audioOutput => deriveLanePrice (values d AudioCompletionRatio) audioInputPrice
                  | l => deriveLanePrice (values d (ratioFieldByLane l)) promptPrice
                  end)
        (fun l => hasValue (values d (ratioFieldByLane l)))
  end.

(** ** The panel *)

Inductive form_error := NameRequired | InputPriceRequired | AudioInputRequired.

Record panel := mkPanel {
  pricingMode : PricingMode;
  promptPrice : jsstr;
  lanePrices : LaneKey → jsstr;
  laneEnabled : LaneKey → bool;
  p_billingExpr : jsstr;
  p_requestRuleExpr : jsstr;
  formName : jsstr;
  form : Field → jsstr;
  errors : list form_error
}.

(** The effect that fills the panel. *)
Definition loadPanel (editData : option ModelRatioData) : panel :=
  let lanes := createInitialLaneState editData in
  match editData with
  | Some d =>
      mkPanel (if decide (billingMode d = tiered_expr) then tiered_expr
               else if nonempty (values d Price) then per_request else per_token)
        (l_prompt lanes) (l_prices lanes) (l_enabled lanes) (billingExpr d) (requestRuleExpr d)
        (name d) (values d) []
  | None =>
      mkPanel per_token (l_prompt lanes) (l_prices lanes) (l_enabled lanes) [] [] [] (fun _ => []) []
  end.

Definition setFormValue (f : Field) (v : jsstr) (form : Field → jsstr) : Field → jsstr := set_at f v form.

Definition deriveLaneRatio (lane : LaneKey) (price nextPromptPrice : jsstr) (nextLanePrices : LaneKey → jsstr) : jsstr :=
  match toNumberOrNull price with
  | None => []
  | Some priceNumber =>
      let denominator := match lane with audioOutput => nextLanePrices audioInput | _ => nextPromptPrice end in
      match toNumberOrNull denominator with
      | None => []
      | Some d => if num_eqb d (S754_zero false) then [] else formatPricingNumber (num_div priceNumber d)
      end
  end.

(** What a lane's field is set to. *)
Definition laneRatio (prompt : jsstr) (prices : LaneKey → jsstr) (enabled : LaneKey → bool) (lane : LaneKey) : jsstr :=
  if enabled lane then deriveLaneRatio lane (prices lane) prompt prices else [].

Definition syncLaneRatios (prompt : jsstr) (prices : LaneKey → jsstr) (enabled : LaneKey → bool)
    (form : Field → jsstr) : Field → jsstr :=
  let ratio := match toNumberOrNull prompt with
               | Some x => formatPricingNumber (num_div x (num_of_Z 2))
               | None => []
               end in
  foldl (fun form lane => setFormValue (ratioFieldByLane lane) (laneRatio prompt prices enabled lane) form)
    (setFormValue Ratio ratio form) laneConfigs.

Definition with_lanes (p : panel) (prompt : jsstr) (prices : LaneKey → jsstr) (enabled : LaneKey → bool)
    (f : Field → jsstr) : panel :=
  mkPanel (pricingMode p) prompt prices enabled (p_billingExpr p) (p_requestRuleExpr p) (formName p) f (errors p).

Definition handlePromptPriceChange (value : jsstr) (p : panel) : panel :=
  if negb (test numericDraftRegex value) then p
  else with_lanes p value (lanePrices p) (laneEnabled p) (syncLaneRatios value (lanePrices p) (laneEnabled p) (form p)).

Definition handleLanePriceChange (lane : LaneKey) (value : jsstr) (p : panel) : panel :=
  if negb (test numericDraftRegex value) then p
  else
    let nextLanePrices := set_at lane value (lanePrices p) in
    let form1 := if laneEnabled p lane
                 then setFormValue (ratioFieldByLane lane)
                        (deriveLaneRatio lane value (promptPrice p) nextLanePrices) (form p)
                 else form p in
    let form2 := if bool_decide (lane = audioInput) && laneEnabled p audioOutput
                 then setFormValue AudioCompletionRatio
                        (deriveLaneRatio audioOutput (nextLanePrices audioOutput) (promptPrice p) nextLanePrices) form1
                 else form1 in
    with_lanes p (promptPrice p) nextLanePrices (laneEnabled p) form2.

Definition handleLaneToggle (lane : LaneKey) (checked : bool) (p : panel) : panel :=
  let nextEnabled := set_at lane checked (laneEnabled p) in
  if checked then
    with_lanes p (promptPrice p) (lanePrices p) nextEnabled
      (setFormValue (ratioFieldByLane lane)
         (deriveLaneRatio lane (lanePrices p lane) (promptPrice p) (lanePrices p)) (form p))
  else
    let nextPrices := set_at lane [] (lanePrices p) in
    let form1 := setFormValue (ratioFieldByLane lane) [] (form p) in
    if decide (lane = audioInput) then
      with_lanes p (promptPrice p) (set_at audioOutput [] nextPrices) (set_at audioOutput false nextEnabled)
        (setFormValue AudioCompletionRatio [] form1)
    else with_lanes p (promptPrice p) nextPrices nextEnabled form1.

Definition handleModeChange (nextMode : PricingMode) (p : panel) : panel :=
  mkPanel nextMode (promptPrice p) (lanePrices p) (laneEnabled p)
    (if bool_decide (nextMode = tiered_expr) && negb (nonempty (p_billingExpr p))
     then jsq "tier('base', p * 0 + c * 0)" else p_billingExpr p)
    (p_requestRuleExpr p) (formName p) (form p) (errors p).

(** The input of the fixed price, and the input of the name (disabled for a model being edited). *)
Definition handlePriceInput (value : jsstr) (p : panel) : panel :=
  if test numericDraftRegex value
  then with_lanes p (promptPrice p) (lanePrices p) (laneEnabled p) (setFormValue Price value (form p)) else p.

Definition handleNameInput (isEditMode : bool) (value : jsstr) (p : panel) : panel :=
  if isEditMode then p
  else mkPanel (pricingMode p) (promptPrice p) (lanePrices p) (laneEnabled p) (p_billingExpr p)
         (p_requestRuleExpr p) value (form p) (errors p).

(** What the editor of expressions reports. *)
Definition handleExprChange (expr : jsstr) (p : panel) : panel :=
  mkPanel (pricingMode p) (promptPrice p) (lanePrices p) (laneEnabled p) expr (p_requestRuleExpr p)
    (formName p) (form p) (errors p).
Definition handleRulesChange (rules : jsstr) (p : panel) : panel :=
  mkPanel (pricingMode p) (promptPrice p) (lanePrices p) (laneEnabled p) (p_billingExpr p) rules
    (formName p) (form p) (errors p).

(** *** Saving *)

Definition dependentPrices (p : panel) : bool :=
  existsb (fun l => laneEnabled p l && hasValue (lanePrices p l)) laneConfigs.

Definition missingInput (p : panel) : bool :=
  bool_decide (pricingMode p = per_token) && bool_decide (toNumberOrNull (promptPrice p) = None) && dependentPrices p.

Definition missingAudioInput (p : panel) : bool :=
  bool_decide (pricingMode p = per_token) && laneEnabled p audioOutput && negb (hasValue (lanePrices p audioInput)).

(** [warnings]: the conflict of the model being edited, then the two checks. *)
Inductive warning := ConflictWarning | InputWarning | AudioWarning.

Definition warnings (editData : option ModelRatioData) (p : panel) : list warning :=
  let hasConflict :=
    match editData with
    | Some d => nonempty (values d Price)
                && existsb (fun f => hasValue (values d f))
                     [Ratio; CompletionRatio; CacheRatio; CreateCacheRatio; ImageRatio; AudioRatio; AudioCompletionRatio]
    | None => false
    end in
  (if hasConflict then [ConflictWarning] else [])
  ++ (if missingInput p then [InputWarning] else [])
  ++ (if missingAudioInput p then [AudioWarning] else []).

Definition with_errors (p : panel) (es : list form_error) : panel :=
  mkPanel (pricingMode p) (promptPrice p) (lanePrices p) (laneEnabled p) (p_billingExpr p) (p_requestRuleExpr p)
    (formName p) (form p) es.

Definition submitted (p : panel) : ModelRatioData :=
  mkData (trim (formName p)) (form p) (pricingMode p)
    (if decide (pricingMode p = tiered_expr) then p_billingExpr p else [])
    (if decide (pricingMode p = tiered_expr) then p_requestRuleExpr p else []).

(** [form.handleSubmit(handleSubmit)]: the schema asks for a name; then the two checks. *)
Definition handleSubmit (p : panel) : panel * option ModelRatioData :=
  if negb (nonempty (formName p)) then (with_errors p [NameRequired], None)
  else if missingInput p then (with_errors p [InputPriceRequired], None)
  else if missingAudioInput p then (with_errors p [AudioInputRequired], None)
  else (with_errors p [], Some (submitted p)).

(** ** The preview *)

Section preview.
Context (t : jsstr → jsstr).

(** (key, label, value). *)
Definition laneRow (p : panel) (key label : jsstr) (l : LaneKey) : jsstr * jsstr * jsstr :=
  (key, t label, if laneEnabled p l && nonempty (lanePrices p l) then js "$" ++ lanePrices p l else t (js "Empty")).

Definition buildPreviewRows (p : panel) : list (jsstr * jsstr * jsstr) :=
  match pricingMode p with
  | tiered_expr =>
      [(js "mode", js "BillingMode", js "tiered_expr");
       (js "expr", t (js "Expression"), str_or (combineBillingExpr (p_billingExpr p) (p_requestRuleExpr p)) (t (js "Empty")))]
  | per_request => [(js "price", js "ModelPrice", str_or (form p Price) (t (js "Empty")))]
  | per_token =>
      [(js "inputPrice", t (js "Input price"), if nonempty (promptPrice p) then js "$" ++ promptPrice p else t (js "Empty"));
       laneRow p (js "completion") (js "Completion price") completion;
       laneRow p (js "cache") (js "Cache read price") cache;
       laneRow p (js "createCache") (js "Cache write price") createCache;
       laneRow p (js "image") (js "Image input price") image;
       laneRow p (js "audio") (js "Audio input price") audioInput;
       laneRow p (js "audioCompletion") (js "Audio output price") audioOutput]
  end.
End preview.
End PricingPanel.
