(* ===== verification/PricingTable.v ===== *)
(** * The table of model prices
      (src/web/default/src/features/system-settings/models/model-ratio-visual-editor.tsx)

    The prices of all models are ten settings, each the text of a JSON object
    from model names to a value. The table shows one row per name, the panel edits
    one of them, and saving, copying and deleting write all ten texts anew. A
    setting whose text is JSON but no object is outside the types of the code; the
    model throws there. Filtering, sorting by clicks, paging and the visibility of
    columns, which belong to the table library, are left out. *)

From S2P Require Import Prelude JsNum IntNum Json NumText JsValue Regex BillingExpr PricingPanel.
From Stdlib Require Import Floats.SpecFloat.
Import BillingExpr PricingPanel.

Module PricingTable.
Open Scope js_scope.

Notation object := (list (jsstr * json)).

(** ** The settings *)

Definition FIELDS : list Field :=
  [Price; Ratio; CacheRatio; CreateCacheRatio; CompletionRatio; ImageRatio; AudioRatio; AudioCompletionRatio].

(** Their texts, and the objects the texts stand for. *)
Record settings := mkSettings { s_field : Field → jsstr; s_mode : jsstr; s_expr : jsstr }.
Record maps := mkMaps { m_field : Field → object; m_mode : object; m_expr : object }.

(** The names under which [onChange] reports them. *)
Definition option_key (f : Field) : jsstr :=
  match f with
  | Price => js "ModelPrice" | Ratio => js "ModelRatio" | CacheRatio => js "CacheRatio"
  | CreateCacheRatio => js "CreateCacheRatio" | CompletionRatio => js "CompletionRatio"
  | ImageRatio => js "ImageRatio" | AudioRatio => js "AudioRatio"
  | AudioCompletionRatio => js "AudioCompletionRatio"
  end.

(** [safeJsonParse(value, { fallback: {} })]. *)
Definition safeJsonParse (value : jsstr) : json :=
  if negb (nonempty (trim value)) then JObj []
  else default (JObj []) (JSON_parse (trim value)).

Definition entries (value : jsstr) : object :=
  match safeJsonParse value with JObj m => m | _ => [] end.

Definition is_object (value : jsstr) : bool :=
  match safeJsonParse value with JObj _ => true | _ => false end.

Definition readMaps (s : settings) : res maps :=
  if forallb (fun f => is_object (s_field s f)) FIELDS && is_object (s_mode s) && is_object (s_expr s)
  then Ok (mkMaps (fun f => entries (s_field s f)) (entries (s_mode s)) (entries (s_expr s)))
  else Throw (js "not an object").

(** [JSON.stringify(map, null, 2)]. *)
Definition pretty (m : object) : jsstr := stringify indent2 json_number 0 (JObj m).

Definition writeMaps (m : maps) : settings :=
  mkSettings (fun f => pretty (m_field m f)) (pretty (m_mode m)) (pretty (m_expr m)).

(** ** Rows *)

Record ModelRow := mkRow {
  r_name : jsstr;
  r_values : list (Field * jsstr);
  r_mode : PricingMode;
  r_expr : jsstr;
  r_rules : jsstr;
  hasConflict : bool
}.

(** [map[name]?.toString() || '']. *)
Definition cell (m : object) (name : jsstr) : jsstr :=
  match map_get name m with None | Some JNull => [] | Some j => to_text j end.

(** [map[name] || ''] of an expression; what is truthy and no text cannot be trimmed. *)
Definition expr_cell (m : object) (name : jsstr) : res jsstr :=
  match map_get name m with
  | Some (JStr s) => Ok s
  | v => if truthy v then Throw (js "TypeError") else Ok []
  end.

Definition is_tiered (m : object) (name : jsstr) : bool :=
  match map_get name m with Some (JStr s) => str_eqb s (js "tiered_expr") | _ => false end.

Definition r_value (r : ModelRow) (f : Field) : jsstr := default [] (map_get f (r_values r)).

Definition buildRow (m : maps) (name : jsstr) : res ModelRow :=
  let vs := map (fun f => (f, cell (m_field m f) name)) FIELDS in
  let price := cell (m_field m Price) name in
  if is_tiered (m_mode m) name then
    let! fullExpr := expr_cell (m_expr m) name in
    let! s := splitBillingExprAndRequestRules fullExpr in
    Ok (mkRow name vs tiered_expr (BillingExpr.billingExpr s) (BillingExpr.requestRuleExpr s) false)
  else
    Ok (mkRow name vs (if nonempty price then per_request else per_token) [] []
          (nonempty price && existsb (fun f => nonempty (cell (m_field m f) name))
             [Ratio; CompletionRatio; CacheRatio; CreateCacheRatio; ImageRatio; AudioRatio; AudioCompletionRatio])).

Definition modelNames (m : maps) : list jsstr :=
  set_of (concat (map (fun f => (m_field m f).*1) FIELDS) ++ (m_mode m).*1 ++ (m_expr m).*1).

Section models.
Context (localeCompare : jsstr → jsstr → Z).

Definition models (s : settings) : res (list ModelRow) :=
  let! m := readMaps s in
  let! rows := res_map (buildRow m) (modelNames m) in
  Ok (sort_by (fun a b => localeCompare (r_name a) (r_name b)) rows).
End models.

(** (per token, per request, expressions). *)
Definition modeCounts (rows : list ModelRow) : nat * nat * nat :=
  let count mode := length (List.filter (fun r => bool_decide (r_mode r = mode)) rows) in
  (count per_token, count per_request, count tiered_expr).

(** ** Summaries *)

Definition ratioToPrice (ratio denominator : jsstr) : jsstr :=
  let d := if nonempty denominator then toNumberOrNull denominator else Some (num_of_Z 2) in
  match toNumberOrNull ratio, d with
  | Some r, Some d => formatPricingNumber (num_mul r d)
  | _, _ => []
  end.

Definition EXTRAS : list Field :=
  [CompletionRatio; CacheRatio; CreateCacheRatio; ImageRatio; AudioRatio; AudioCompletionRatio].

Section summaries.
Context (t : jsstr → jsstr).

Definition getExpressionSummary (r : ModelRow) : jsstr :=
  let tierCount := length (exec_all (lit (js "tier(")) (r_expr r)) in
  if (0 <? tierCount)%nat
  then t (js "Tiered pricing") ++ [32; 183; 32]%N ++ print_N (N.of_nat tierCount) ++ js " " ++ t (js "tiers")
  else t (js "Expression pricing").

Definition getPriceSummary (r : ModelRow) : jsstr :=
  match r_mode r with
  | tiered_expr => getExpressionSummary r
  | per_request =>
      if nonempty (r_value r Price) then js "$" ++ r_value r Price ++ js " / " ++ t (js "request") else t (js "Unset price")
  | per_token =>
      let inputPrice := ratioToPrice (r_value r Ratio) [] in
      if negb (nonempty inputPrice) then t (js "Unset price")
      else
        let extraCount := length (List.filter (fun f => nonempty (r_value r f)) EXTRAS) in
        t (js "Input") ++ js " $" ++ inputPrice
          ++ (if (0 <? extraCount)%nat
              then [32; 183; 32]%N ++ print_N (N.of_nat extraCount) ++ js " " ++ t (js "extras") else [])
  end.

(** One entry of [details]. *)
Definition detail (r : ModelRow) (inputPrice label : jsstr) (f : Field) : option jsstr :=
  if nonempty (r_value r f) then Some (t label ++ js " $" ++ ratioToPrice (r_value r f) inputPrice) else None.

Definition getPriceDetail (r : ModelRow) : jsstr :=
  match r_mode r with
  | tiered_expr => if nonempty (r_rules r) then t (js "Includes request rules") else t (js "Expression based")
  | per_request => t (js "Fixed request price")
  | per_token =>
      let inputPrice := ratioToPrice (r_value r Ratio) [] in
      if negb (nonempty inputPrice) then t (js "No base input price")
      else
        let details := omap id [detail r inputPrice (js "Output") CompletionRatio;
                                detail r inputPrice (js "Cache") CacheRatio;
                                detail r inputPrice (js "Cache write") CreateCacheRatio] in
        if (0 <? length details)%nat then join [32; 183; 32]%N details else t (js "Base input price only")
  end.
End summaries.

(** ** Writing *)

(** [map[name] = value]: an index-like name is placed among the indices. *)
Definition obj_put (name : jsstr) (v : json) (m : object) : object := property_order (map_set name v m).

Definition setIfPresent (target : object) (name value : jsstr) : object :=
  if negb (nonempty value) then target
  else let parsed := parseFloat value in
       if num_is_finite parsed then obj_put name (JNum parsed) target else target.

(** The ten [delete]s. *)
Definition clearModel (name : jsstr) (m : maps) : maps :=
  mkMaps (fun f => obj_delete name (m_field m f)) (obj_delete name (m_mode m)) (obj_delete name (m_expr m)).

(** The fields that are written, by the mode and the price of the data. *)
Definition writtenFields (d : ModelRatioData) : list Field :=
  match billingMode d with
  | tiered_expr => FIELDS
  | _ => if nonempty (values d Price) then [Price]
         else [Ratio; CacheRatio; CreateCacheRatio; CompletionRatio; ImageRatio; AudioRatio; AudioCompletionRatio]
  end.

Definition writeModel (d : ModelRatioData) (m : maps) (name : jsstr) : maps :=
  let m := clearModel name m in
  let fields f := if bool_decide (f ∈ writtenFields d) then setIfPresent (m_field m f) name (values d f) else m_field m f in
  let combined := combineBillingExpr (PricingPanel.billingExpr d) (PricingPanel.requestRuleExpr d) in
  if bool_decide (billingMode d = tiered_expr) && nonempty combined
  then mkMaps fields (obj_put name (JStr (js "tiered_expr")) (m_mode m)) (obj_put name (JStr combined) (m_expr m))
  else mkMaps fields (m_mode m) (m_expr m).

Definition persistPricingData (d : ModelRatioData) (targetNames : list jsstr) (s : settings) : res settings :=
  let! m := readMaps s in Ok (writeMaps (foldl (writeModel d) m targetNames)).

Definition handleDelete (name : jsstr) (s : settings) : res settings :=
  let! m := readMaps s in Ok (writeMaps (clearModel name m)).

(** ** The component *)

Inductive toast := SavedToDraft | OpenSourceFirst | SelectTarget | AppliedTo (name : jsstr) (count : nat).

Record editor_state := mkState {
  s_settings : settings;
  editData : option ModelRatioData;
  editorOpen : bool;
  globalFilter : jsstr;
  rowSelection : list jsstr;
  notice : option toast
}.

Definition handleEdit (r : ModelRow) (st : editor_state) : editor_state :=
  let d := mkData (r_name r) (r_value r)
             (match r_mode r with
              | tiered_expr => tiered_expr
              | _ => if nonempty (r_value r Price) then per_request else per_token
              end) (r_expr r) (r_rules r) in
  mkState (s_settings st) (Some d) true (globalFilter st) (rowSelection st) (notice st).

Definition handleAdd (st : editor_state) : editor_state :=
  mkState (s_settings st) None true (globalFilter st) (rowSelection st) (notice st).

Definition handleCancel (st : editor_state) : editor_state :=
  mkState (s_settings st) None false (globalFilter st) (rowSelection st) (notice st).

(** A changed filter closes the panel. *)
Definition handleGlobalFilterChange (next : jsstr) (st : editor_state) : editor_state :=
  if str_eqb next (globalFilter st) then st
  else mkState (s_settings st) None false next (rowSelection st) (notice st).

Definition setRowSelection (names : list jsstr) (st : editor_state) : editor_state :=
  mkState (s_settings st) (editData st) (editorOpen st) (globalFilter st) names (notice st).

Definition handleSave (d : ModelRatioData) (st : editor_state) : res editor_state :=
  let! s := persistPricingData d [name d] (s_settings st) in
  Ok (mkState s (Some d) true (globalFilter st) (rowSelection st) (Some SavedToDraft)).

(** Submitting the panel saves and then cancels it. *)
Definition submitPanel (p : panel) (st : editor_state) : res (panel * editor_state) :=
  match handleSubmit p with
  | (p', None) => Ok (p', st)
  | (p', Some d) => let! st' := handleSave d st in Ok (p', handleCancel st')
  end.

(** [targetNames] are the selected rows that the filter shows. *)
Definition handleBatchCopy (targetNames : list jsstr) (st : editor_state) : res editor_state :=
  match editData st with
  | None => Ok (mkState (s_settings st) None (editorOpen st) (globalFilter st) (rowSelection st) (Some OpenSourceFirst))
  | Some d =>
      if (length targetNames =? 0)%nat
      then Ok (mkState (s_settings st) (Some d) (editorOpen st) (globalFilter st) (rowSelection st) (Some SelectTarget))
      else let! s := persistPricingData d targetNames (s_settings st) in
           Ok (mkState s (Some d) (editorOpen st) (globalFilter st) [] (Some (AppliedTo (name d) (length targetNames))))
  end.
End PricingTable.
