(* ===== verification/PricingPanelLaws.v ===== *)
(** * The pricing panel's ratios

    Whatever is typed and toggled in the panel of a new model, the ratios in the
    form are those of the prices on show. *)

From S2P Require Import Prelude JsNum IntNum Json NumText Regex BillingExpr PricingPanel.
From Stdlib Require Import Floats.SpecFloat.
Import BillingExpr PricingPanel.
Open Scope js_scope.

Module PricingPanelLaws.

(** ** Updates *)

Lemma set_at_eq {K A} `{EqDecision K} (k : K) (x : A) f : set_at k x f k = x.
Proof. unfold set_at. by rewrite decide_True. Qed.

Lemma set_at_ne {K A} `{EqDecision K} (k k' : K) (x : A) f : k' ≠ k → set_at k x f k' = f k'.
Proof. intros H. unfold set_at. by rewrite decide_False. Qed.

#[export] Instance ratioFieldByLane_inj : Inj (=) (=) ratioFieldByLane.
Proof. by intros [] []. Qed.

Lemma lane_not_ratio l : ratioFieldByLane l ≠ Ratio.
Proof. by destruct l. Qed.
Lemma lane_not_price l : ratioFieldByLane l ≠ Price.
Proof. by destruct l. Qed.

Lemma all_lanes l : l ∈ laneConfigs.
Proof. destruct l; set_solver. Qed.

(** ** The invariant *)

Definition promptRatio (prompt : jsstr) : jsstr :=
  match toNumberOrNull prompt with
  | Some x => formatPricingNumber (num_div x (num_of_Z 2))
  | None => []
  end.

(** The form has the ratios of the prices on show. *)
Definition consistent (p : panel) : Prop :=
  form p Ratio = promptRatio (promptPrice p) ∧
  ∀ l, form p (ratioFieldByLane l) = laneRatio (promptPrice p) (lanePrices p) (laneEnabled p) l.

(** What the user does to the panel. *)
Inductive panel_event :=
| PPrompt (v : jsstr) | PLane (l : LaneKey) (v : jsstr) | PToggle (l : LaneKey) (checked : bool)
| PMode (m : PricingMode) | PPrice (v : jsstr) | PName (v : jsstr) | PExpr (v : jsstr) | PRules (v : jsstr)
| PSubmit.

Definition panelStep (p : panel) (ev : panel_event) : panel :=
  match ev with
  | PPrompt v => handlePromptPriceChange v p
  | PLane l v => handleLanePriceChange l v p
  | PToggle l b => handleLaneToggle l b p
  | PMode m => handleModeChange m p
  | PPrice v => handlePriceInput v p
  | PName v => handleNameInput false v p
  | PExpr v => handleExprChange v p
  | PRules v => handleRulesChange v p
  | PSubmit => (handleSubmit p).1
  end.

(** ** The handlers keep it *)

Lemma sync_other ls prompt prices enabled f0 f :
  (∀ l, l ∈ ls → f ≠ ratioFieldByLane l) →
  foldl (fun form l => setFormValue (ratioFieldByLane l) (laneRatio prompt prices enabled l) form) f0 ls f = f0 f.
Proof.
  revert f0. induction ls as [|l ls IH]; intros f0 H; [done|]. cbn [foldl]. rewrite IH by set_solver.
  apply set_at_ne, H. set_solver.
Qed.

Lemma sync_lane ls prompt prices enabled f0 l :
  l ∈ ls →
  foldl (fun form l => setFormValue (ratioFieldByLane l) (laneRatio prompt prices enabled l) form) f0 ls
    (ratioFieldByLane l) = laneRatio prompt prices enabled l.
Proof.
  revert f0. induction ls as [|l' ls IH]; intros f0 Hl; [by apply elem_of_nil in Hl|]. cbn [foldl].
  destruct (decide (l ∈ ls)) as [Hin|Hin]; [by apply IH|]. apply elem_of_cons in Hl as [->|]; [|done].
  rewrite sync_other; [apply set_at_eq|]. intros k Hk E%(inj ratioFieldByLane). by subst.
Qed.

Lemma prompt_consistent v p : consistent p → consistent (handlePromptPriceChange v p).
Proof.
  intros Hc. unfold handlePromptPriceChange. destruct (test _ v); [|done]. cbn [negb].
  split; cbn [with_lanes form promptPrice lanePrices laneEnabled]; unfold syncLaneRatios.
  - rewrite sync_other; [apply set_at_eq|]. intros l _ E. by apply (lane_not_ratio l).
  - intros l. apply sync_lane, all_lanes.
Qed.

(** A lane's ratio depends on its own price, or on the audio input's too. *)
Lemma lane_ratio_ext prompt prices prices' enabled enabled' l :
  prices l = prices' l → enabled l = enabled' l →
  (l = audioOutput → enabled l = true → prices audioInput = prices' audioInput) →
  laneRatio prompt prices enabled l = laneRatio prompt prices' enabled' l.
Proof.
  intros Hp He Ha. unfold laneRatio. rewrite <- He. destruct (enabled l) eqn:E; [|done].
  unfold deriveLaneRatio. rewrite Hp. destruct l; try done. by rewrite Ha.
Qed.

Lemma lane_consistent l v p : consistent p → consistent (handleLanePriceChange l v p).
Proof.
  intros [Hr Hl]. unfold handleLanePriceChange. destruct (test _ v); [|done]. cbn [negb].
  set (prices := set_at l v (lanePrices p)).
  set (form1 := if laneEnabled p l then _ else form p).
  assert (H1 : ∀ k, k ≠ l → form1 (ratioFieldByLane k) = form p (ratioFieldByLane k)).
  { intros k Hk. unfold form1. destruct (laneEnabled p l); [|done]. apply set_at_ne. by intros E%(inj _). }
  assert (H1l : form1 (ratioFieldByLane l) = laneRatio (promptPrice p) prices (laneEnabled p) l).
  { unfold form1, laneRatio. destruct (laneEnabled p l) eqn:E.
    - unfold setFormValue. rewrite set_at_eq. unfold prices. by rewrite set_at_eq.
    - rewrite Hl. unfold laneRatio. by rewrite E. }
  assert (H1r : form1 Ratio = form p Ratio).
  { unfold form1. destruct (laneEnabled p l); [|done]. apply set_at_ne. by destruct l. }
  split; cbn [with_lanes form promptPrice lanePrices laneEnabled].
  - destruct (_ && _); [|by rewrite H1r]. unfold setFormValue. by rewrite set_at_ne, H1r.
  - intros k. destruct (decide (l = audioInput)) as [->|Hne].
    + rewrite bool_decide_eq_true_2 by done. cbn [andb].
      destruct (decide (k = audioOutput)) as [->|Hk].
      * destruct (laneEnabled p audioOutput) eqn:E.
        { unfold laneRatio, setFormValue. rewrite E. apply set_at_eq. }
        rewrite H1, Hl by done. unfold laneRatio. by rewrite E.
      * assert (Hf : (if laneEnabled p audioOutput then setFormValue AudioCompletionRatio
            (deriveLaneRatio audioOutput (prices audioOutput) (promptPrice p) prices) form1 else form1)
            (ratioFieldByLane k) = form1 (ratioFieldByLane k)).
        { destruct (laneEnabled p audioOutput); [|done]. apply set_at_ne. by destruct k. }
        rewrite Hf. destruct (decide (k = audioInput)) as [->|Hk']; [done|]. rewrite H1, Hl by done.
        apply lane_ratio_ext; [|done|by intros ->]. unfold prices. by rewrite set_at_ne.
    + rewrite bool_decide_eq_false_2 by done. cbn [andb]. destruct (decide (k = l)) as [->|Hk]; [done|].
      rewrite H1, Hl by done. apply lane_ratio_ext; [|done|]; unfold prices; [by rewrite set_at_ne|].
      intros -> _. rewrite set_at_ne; [done|]. by apply not_eq_sym.
Qed.

Lemma toggle_consistent l b p : consistent p → consistent (handleLaneToggle l b p).
Proof.
  intros [Hr Hl]. unfold handleLaneToggle. destruct b.
  - split; cbn [with_lanes form promptPrice lanePrices laneEnabled].
    + unfold setFormValue. rewrite set_at_ne; [done|]. by destruct l.
    + intros k. unfold setFormValue. destruct (decide (k = l)) as [->|Hk].
      * rewrite set_at_eq. unfold laneRatio. by rewrite set_at_eq.
      * rewrite set_at_ne by by intros E%(inj _). rewrite Hl. apply lane_ratio_ext; [done| |done]. by rewrite set_at_ne.
  - destruct l; (split; [exact Hr|]); intros k; destruct k; first [done | exact (Hl completion) | exact (Hl cache)
      | exact (Hl createCache) | exact (Hl image) | exact (Hl audioInput) | exact (Hl audioOutput)].
Qed.

Lemma price_consistent v p : consistent p → consistent (handlePriceInput v p).
Proof.
  intros [Hr Hl]. unfold handlePriceInput. destruct (test _ v); [|done].
  split; cbn [with_lanes form promptPrice lanePrices laneEnabled]; unfold setFormValue.
  - by rewrite set_at_ne.
  - intros l. rewrite set_at_ne; [apply Hl|apply lane_not_price].
Qed.

Lemma step_consistent p ev : consistent p → consistent (panelStep p ev).
Proof.
  intros Hp. destruct ev; cbn [panelStep].
  - by apply prompt_consistent.
  - by apply lane_consistent.
  - by apply toggle_consistent.
  - done.
  - by apply price_consistent.
  - done.
  - done.
  - done.
  - unfold handleSubmit. by repeat case_match.
Qed.

Lemma steps_consistent evs p : consistent p → consistent (foldl panelStep p evs).
Proof.
  revert p. induction evs as [|ev evs IH]; intros p Hp; [done|]. cbn [foldl]. by apply IH, step_consistent.
Qed.

Lemma new_consistent : consistent (loadPanel None).
Proof. split; [done|by intros []]. Qed.

(** The panel of a new model keeps its ratios in step with its prices. After
    any sequence of typing, toggling and switching, the input ratio in the form is
    half the input price, every lane that is on has the ratio of its price to the
    input price (to the audio input price for audio output), and every lane that
    is off has none. *)
Theorem ratios_follow_prices evs :
  consistent (foldl panelStep (loadPanel None) evs).
Proof. apply steps_consistent, new_consistent. Qed.

(** ** Saving *)

Lemma Number_toString_some x : Number_toString x ≠ [].
Proof.
  destruct x as [| | |s m e]; try done; [by destruct s|].
  by apply (Number_toString_numtext (S754_finite s m e)).
Qed.

(** A token price is not lost when it is saved. From the panel of a new model,
    a save by tokens is refused unless every lane price has an input price to
    refer to; when it is accepted, each lane that is on with a number as its price
    is saved with a ratio, provided the price it is divided by is not zero. *)
Theorem saved_prices_kept evs p p' d l x y :
  p = foldl panelStep (loadPanel None) evs → pricingMode p = per_token → handleSubmit p = (p', Some d) →
  laneEnabled p l = true → toNumberOrNull (lanePrices p l) = Some x →
  toNumberOrNull (match l with audioOutput => lanePrices p audioInput | _ => promptPrice p end) = Some y →
  num_eqb y (S754_zero false) = false → num_is_finite (num_div x y) = true →
  values d (ratioFieldByLane l) = formatPricingNumber (num_div x y) ∧ values d (ratioFieldByLane l) ≠ []
  ∧ toNumberOrNull (promptPrice p) ≠ None.
Proof.
  intros -> Hm Hs He Hx Hy Hz Hf. set (p := foldl _ _ _) in *.
  assert (Hc : consistent p) by apply steps_consistent, new_consistent. destruct Hc as [_ Hl]. specialize (Hl l).
  unfold handleSubmit in Hs. destruct (negb _); [done|].
  destruct (missingInput p) eqn:Ei; [done|]. destruct (missingAudioInput p); [done|]. injection Hs as _ <-.
  cbn [submitted values]. unfold laneRatio in Hl. rewrite He in Hl. unfold deriveLaneRatio in Hl.
  rewrite Hx, Hy, Hz in Hl. rewrite Hl. split; [done|]. split.
  - unfold formatPricingNumber. rewrite Hf. apply Number_toString_some.
  - intros Hn. unfold missingInput in Ei. rewrite Hm, Hn in Ei.
    rewrite !bool_decide_eq_true_2 in Ei by done. cbn [andb] in Ei. unfold dependentPrices in Ei.
    apply not_true_iff_false in Ei. apply Ei, existsb_exists. exists l.
    split; [apply list_elem_of_In, all_lanes|]. rewrite He. cbn [andb].
    unfold toNumberOrNull in Hx. by destruct (hasValue _).
Qed.

(** A new model with an input price of 3, and an output price of 15. *)
Definition demo_events : list panel_event :=
  [PName (js "m"); PPrompt (js "3"); PToggle completion true; PLane completion (js "15")].

Lemma saved_prices_kept_witness :
  ∃ p' d, handleSubmit (foldl panelStep (loadPanel None) demo_events) = (p', Some d)
    ∧ values d CompletionRatio = js "5".
Proof.
  eexists _, _. split; [reflexivity|].
  destruct (saved_prices_kept demo_events (foldl panelStep (loadPanel None) demo_events) _ _ completion
              (Number (js "15")) (Number (js "3")) eq_refl eq_refl eq_refl eq_refl) as [H _];
    [vm_compute; reflexivity..|].
  etransitivity; [exact H|]. vm_compute. reflexivity.
Defined.

(** ** What the ratios lose *)

(** The panel of a model that was saved and is opened again. *)
Definition reopened (evs : list panel_event) : option panel :=
  (fun d => loadPanel (Some d)) <$> (handleSubmit (foldl panelStep (loadPanel None) evs)).2.

(** A price of one dollar for output at three dollars for input is not one
    dollar any more when the model is opened again: ratios are rounded to five
    decimals. *)
Theorem price_drifts :
  (fun p => lanePrices p completion)
    <$> reopened [PName (js "m"); PPrompt (js "3"); PToggle completion true; PLane completion (js "1")]
  = Some (js "0.99999").
Proof. by vm_compute. Qed.

(** A price below the rounding tolerance is saved as nothing: an input price
    of 0.000004 dollars becomes zero. *)
Theorem small_price_lost :
  (fun p => promptPrice p) <$> reopened [PName (js "m"); PPrompt (js "0.000004")] = Some (js "0").
Proof. by vm_compute. Qed.

(** With an input price of zero the price of output is dropped without a
    warning: the save is accepted and has no ratio for it. *)
Theorem free_input_drops_output :
  (fun d => values d CompletionRatio)
    <$> (handleSubmit (foldl panelStep (loadPanel None)
           [PName (js "m"); PPrompt (js "0"); PToggle completion true; PLane completion (js "15")])).2
  = Some [].
Proof. by vm_compute. Qed.
(** A name of spaces passes the check for a name and is saved as the empty name. *)
Theorem blank_name_saved :
  name <$> (handleSubmit (foldl panelStep (loadPanel None) [PName (js "  "); PPrompt (js "3")])).2 = Some [].
Proof. by vm_compute. Qed.
End PricingPanelLaws.
