(* ===== verification/PricingTableLaws.v ===== *)
(** * What the table of prices stores

    Saving, copying and deleting write exactly the rows they are about and leave
    every other row as it was; an expression saved from the panel is the one the
    editor opens next time. *)

From stdpp Require Import base.
From S2P Require Import Prelude JsNum IntNum Json NumText JsValue Regex BillingExpr RuleRoundtrip TierExpr TierRoundtrip.
From S2P Require Import PricingEditor PricingText PricingLaws PricingPanel PricingTable.
From Stdlib Require Import Floats.SpecFloat.
Import BillingExpr RuleRoundtrip TierExpr TierRoundtrip PricingEditor PricingText PricingLaws PricingPanel PricingTable.
Open Scope js_scope.

Module PricingTableLaws.

(** ** Settings that print and read back *)

Record maps_ok (m : maps) : Prop := {
  ok_fields : ∀ f, wellformed (JObj (m_field m f));
  ok_modes : wellformed (JObj (m_mode m));
  ok_exprs : wellformed (JObj (m_expr m))
}.

(** Maps with the same members. *)
Record same_maps (m m' : maps) : Prop := {
  same_fields : ∀ f, m_field m f = m_field m' f;
  same_modes : m_mode m = m_mode m';
  same_exprs : m_expr m = m_expr m'
}.

Lemma parse_pretty m : wellformed (JObj m) → safeJsonParse (pretty m) = JObj m.
Proof.
  intros [Hj Hn]. unfold safeJsonParse, pretty. rewrite trim_printed.
  rewrite (proj2 (nonempty_true _)) by (cbn [stringify]; by destruct m). cbn [negb].
  by rewrite (JSON_parse_printed indent2 json_number (JObj m) Hn Hj).
Qed.

Lemma read_written m : maps_ok m → ∃ m', readMaps (writeMaps m) = Ok m' ∧ same_maps m' m.
Proof.
  intros [Hf Hm He]. unfold readMaps, writeMaps. cbn [s_field s_mode s_expr].
  assert (Ho : ∀ x, wellformed (JObj x) → is_object (pretty x) = true) by (intros x Hx; unfold is_object; by rewrite parse_pretty).
  rewrite (proj2 (forallb_forall _ _)), !Ho by (done || by intros; apply Ho, Hf). cbn [andb].
  eexists. split; [done|]. unfold entries. split; cbn [m_field m_mode m_expr]; [intros f|..]; by rewrite parse_pretty.
Qed.

(** ** What a row depends on *)

(** What the settings hold for a name. *)
Record same_model (n : jsstr) (m m' : maps) : Prop := {
  same_field_at : ∀ f, map_get n (m_field m f) = map_get n (m_field m' f);
  same_mode_at : map_get n (m_mode m) = map_get n (m_mode m');
  same_expr_at : map_get n (m_expr m) = map_get n (m_expr m')
}.

#[export] Instance same_model_equiv n : Equivalence (same_model n).
Proof.
  split.
  - intros m. by split.
  - intros m m' [H1 H2 H3]. by split.
  - intros m1 m2 m3 [H1 H2 H3] [H4 H5 H6]. split; [intros f|..]; etrans; eauto.
Qed.

Lemma same_maps_model n m m' : same_maps m m' → same_model n m m'.
Proof. intros [H1 H2 H3]. split; [intros f|..]; congruence. Qed.

#[export] Instance buildRow_proper n : Proper (same_model n ==> eq) (fun m => buildRow m n).
Proof.
  intros m m' [Hf Hm He]. assert (Hc : ∀ f, cell (m_field m f) n = cell (m_field m' f) n) by (intros f; unfold cell; by rewrite Hf).
  unfold buildRow, is_tiered, expr_cell. rewrite Hm, He, Hc.
  replace (map (fun f => (f, cell (m_field m f) n)) FIELDS) with (map (fun f => (f, cell (m_field m' f) n)) FIELDS)
    by (apply map_ext; intros f; by rewrite Hc).
  replace (existsb (fun f => nonempty (cell (m_field m f) n))) with (existsb (fun f : Field => nonempty (cell (m_field m f) n))) by done.
  cbn [existsb]. by rewrite !Hc.
Qed.

(** ** Writing one model *)

Definition plain_name (n : jsstr) : Prop := is_index n = false.

Lemma put_set n v m : plain_name n → wellformed (JObj m) → obj_put n v m = map_set n v m.
Proof. intros Hn (_ & Hp & _)%wellformed_obj. unfold obj_put. by rewrite property_order_set, Hp. Qed.

Lemma put_ok n v m : plain_name n → wellformed v → wellformed (JObj m) → wellformed (JObj (obj_put n v m)).
Proof. intros Hn Hv Hm. rewrite put_set by done. by apply wellformed_set. Qed.

(** A text that is the text of the number it reads as. *)
Definition field_ok (v : jsstr) : bool :=
  negb (nonempty v)
  || (let x := parseFloat v in num_is_finite x && str_eqb (Number_toString x) v && num_back json_number x).

Definition data_ok (d : ModelRatioData) : Prop := ∀ f, field_ok (values d f) = true.

Lemma set_if_present_ok n v m :
  plain_name n → field_ok v = true → wellformed (JObj m) →
  wellformed (JObj (setIfPresent m n v))
  ∧ map_get n (setIfPresent m n v) = (if nonempty v then Some (JNum (parseFloat v)) else map_get n m)
  ∧ ∀ n', n' ≠ n → map_get n' (setIfPresent m n v) = map_get n' m.
Proof.
  intros Hn Hv Hm. unfold setIfPresent, field_ok in *. destruct (nonempty v); cbn [negb orb] in *; [|done].
  apply andb_true_iff in Hv as [Hv Hb]. apply andb_true_iff in Hv as [Hf _]. rewrite Hf.
  split; [apply put_ok; [done| |done]; by split|]. rewrite put_set by done.
  split; [apply map_get_set_eq|]. intros n' Hne. by apply map_get_set_ne.
Qed.

Lemma clear_ok n m : plain_name n → maps_ok m → maps_ok (clearModel n m).
Proof. intros Hn [Hf Hm He]. split; [intros f|..]; by apply wellformed_delete. Qed.

(** What the settings hold for a model that was written. *)
Definition stored_field (d : ModelRatioData) (f : Field) : option json :=
  if bool_decide (f ∈ writtenFields d) && nonempty (values d f) then Some (JNum (parseFloat (values d f))) else None.

Definition combined (d : ModelRatioData) : jsstr :=
  combineBillingExpr (PricingPanel.billingExpr d) (PricingPanel.requestRuleExpr d).

Definition stored_tiered (d : ModelRatioData) : bool :=
  bool_decide (billingMode d = tiered_expr) && nonempty (combined d).

Record stored (d : ModelRatioData) (n : jsstr) (m : maps) : Prop := {
  st_field : ∀ f, map_get n (m_field m f) = stored_field d f;
  st_mode : map_get n (m_mode m) = if stored_tiered d then Some (JStr (js "tiered_expr")) else None;
  st_expr : map_get n (m_expr m) = if stored_tiered d then Some (JStr (combined d)) else None
}.

Lemma deleted {A} n (m : list (jsstr * A)) : map_get n (obj_delete n m) = None.
Proof. rewrite map_get_obj_delete. by rewrite decide_True. Qed.

Lemma kept {A} n n' (m : list (jsstr * A)) : n' ≠ n → map_get n' (obj_delete n m) = map_get n' m.
Proof. intros H. rewrite map_get_obj_delete. by rewrite decide_False. Qed.

Lemma write_fields d m n f :
  plain_name n → data_ok d → maps_ok m →
  wellformed (JObj (m_field (writeModel d m n) f))
  ∧ map_get n (m_field (writeModel d m n) f) = stored_field d f
  ∧ ∀ n', n' ≠ n → map_get n' (m_field (writeModel d m n) f) = map_get n' (m_field m f).
Proof.
  intros Hn Hd Hm. destruct (clear_ok n m Hn Hm) as [Hf _ _]. specialize (Hf f).
  assert (Hw : m_field (writeModel d m n) f
               = if bool_decide (f ∈ writtenFields d) then setIfPresent (m_field (clearModel n m) f) n (values d f)
                 else m_field (clearModel n m) f) by (unfold writeModel; by destruct (_ && _)).
  rewrite Hw. unfold stored_field. case_bool_decide; cbn [andb].
  - destruct (set_if_present_ok n (values d f) (m_field (clearModel n m) f) Hn (Hd f) Hf) as (H1 & H2 & H3).
    split; [done|]. split; [rewrite H2; cbn [clearModel m_field]; by rewrite deleted|].
    intros n' Hne. rewrite H3 by done. by apply kept.
  - split; [done|]. split; [apply deleted|]. intros n' Hne. by apply kept.
Qed.

(** The mode and the expression. *)
Lemma write_rest d m n :
  plain_name n → maps_ok m →
  wellformed (JObj (m_mode (writeModel d m n))) ∧ wellformed (JObj (m_expr (writeModel d m n)))
  ∧ map_get n (m_mode (writeModel d m n)) = (if stored_tiered d then Some (JStr (js "tiered_expr")) else None)
  ∧ map_get n (m_expr (writeModel d m n)) = (if stored_tiered d then Some (JStr (combined d)) else None)
  ∧ ∀ n', n' ≠ n → map_get n' (m_mode (writeModel d m n)) = map_get n' (m_mode m)
                   ∧ map_get n' (m_expr (writeModel d m n)) = map_get n' (m_expr m).
Proof.
  intros Hn Hm. destruct (clear_ok n m Hn Hm) as [_ H1 H2]. unfold writeModel. fold (combined d). fold (stored_tiered d).
  destruct (stored_tiered d); cbn [m_mode m_expr].
  - rewrite !put_set by done. split; [by apply wellformed_set|]. split; [by apply wellformed_set|].
    split; [apply map_get_set_eq|]. split; [apply map_get_set_eq|]. intros n' Hne.
    rewrite !map_get_set_ne by done. split; by apply kept.
  - split; [done|]. split; [done|]. split; [apply deleted|]. split; [apply deleted|].
    intros n' Hne. split; by apply kept.
Qed.

Lemma write_ok d m n : plain_name n → data_ok d → maps_ok m → maps_ok (writeModel d m n).
Proof. intros Hn Hd Hm. destruct (write_rest d m n Hn Hm) as (H1 & H2 & _). split; [intros f; by apply write_fields|done|done]. Qed.

Lemma write_stored d m n : plain_name n → data_ok d → maps_ok m → stored d n (writeModel d m n).
Proof.
  intros Hn Hd Hm. destruct (write_rest d m n Hn Hm) as (_ & _ & H1 & H2 & _). split; [intros f; by apply write_fields|done|done].
Qed.

Lemma write_frame d m n n' : plain_name n → data_ok d → maps_ok m → n' ≠ n → same_model n' (writeModel d m n) m.
Proof.
  intros Hn Hd Hm Hne. destruct (write_rest d m n Hn Hm) as (_ & _ & _ & _ & H). destruct (H n' Hne).
  split; [intros f; by apply write_fields|done|done].
Qed.

(** ** Writing several models *)

Lemma stored_same d n m m' : same_model n m m' → stored d n m' → stored d n m.
Proof. intros [H1 H2 H3] [H4 H5 H6]. split; [intros f|..]; congruence. Qed.

Lemma write_all d ns m :
  data_ok d → Forall plain_name ns → maps_ok m →
  maps_ok (foldl (writeModel d) m ns)
  ∧ ∀ n, (n ∈ ns → stored d n (foldl (writeModel d) m ns))
         ∧ (n ∉ ns → same_model n (foldl (writeModel d) m ns) m).
Proof.
  intros Hd Hns. revert m. induction Hns as [|n0 ns Hn0 Hns IH]; intros m Hm.
  { split; [done|]. intros n. split; [intros H; by apply elem_of_nil in H|done]. }
  cbn [foldl]. destruct (IH (writeModel d m n0)) as [H1 H2]; [by apply write_ok|].
  split; [done|]. intros n. destruct (H2 n) as [H3 H4]. split.
  - intros Hin. destruct (decide (n ∈ ns)) as [|Hn]; [by apply H3|]. apply elem_of_cons in Hin as [->|]; [|done].
    eapply stored_same; [by apply H4|]. by apply write_stored.
  - intros [Hne Hn]%not_elem_of_cons. etrans; [by apply H4|]. by apply write_frame.
Qed.

(** ** The rows *)

Definition saved_value (d : ModelRatioData) (f : Field) : jsstr :=
  if bool_decide (f ∈ writtenFields d) then values d f else [].

(** The row that a model has once the data are written under its name. *)
Definition expected_row (d : ModelRatioData) (n : jsstr) : res ModelRow :=
  let vs := map (fun f => (f, saved_value d f)) FIELDS in
  if stored_tiered d then
    let! s := splitBillingExprAndRequestRules (combined d) in
    Ok (mkRow n vs tiered_expr (BillingExpr.billingExpr s) (BillingExpr.requestRuleExpr s) false)
  else
    Ok (mkRow n vs (if nonempty (saved_value d Price) then per_request else per_token) [] []
          (nonempty (saved_value d Price) && existsb (fun f => nonempty (saved_value d f))
             [Ratio; CompletionRatio; CacheRatio; CreateCacheRatio; ImageRatio; AudioRatio; AudioCompletionRatio])).

Lemma stored_cell d n m f : data_ok d → stored d n m → cell (m_field m f) n = saved_value d f.
Proof.
  intros Hd [Hf _ _]. unfold cell. rewrite Hf. unfold stored_field, saved_value. specialize (Hd f). unfold field_ok in Hd.
  case_bool_decide; cbn [andb]; [|done]. destruct (values d f) as [|c v] eqn:E; cbn [nonempty negb orb] in *; [done|].
  apply andb_true_iff in Hd as [Hd _]. apply andb_true_iff in Hd as [_ Ht]. unfold str_eqb in Ht.
  by apply bool_decide_eq_true in Ht.
Qed.

Lemma stored_row d n m : data_ok d → stored d n m → buildRow m n = expected_row d n.
Proof.
  intros Hd Hs. pose proof (fun f => stored_cell d n m f Hd Hs) as Hc. destruct Hs as [_ Hm He].
  unfold buildRow, expected_row, is_tiered, expr_cell. rewrite Hm, He.
  replace (map (fun f => (f, cell (m_field m f) n)) FIELDS) with (map (fun f => (f, saved_value d f)) FIELDS)
    by (apply map_ext; intros f; by rewrite Hc).
  destruct (stored_tiered d); [done|]. cbn [existsb]. by rewrite !Hc.
Qed.

Lemma persist_rows d ns s m :
  data_ok d → Forall plain_name ns → readMaps s = Ok m → maps_ok m →
  ∃ s' m', persistPricingData d ns s = Ok s' ∧ readMaps s' = Ok m'
    ∧ (∀ n, n ∈ ns → buildRow m' n = expected_row d n)
    ∧ (∀ n, n ∉ ns → buildRow m' n = buildRow m n).
Proof.
  intros Hd Hns Hr Hm. unfold persistPricingData. rewrite Hr. cbn [res_bind].
  destruct (write_all d ns m Hd Hns Hm) as [Hok Hall].
  destruct (read_written _ Hok) as (m' & Hm' & Hsame). eexists _, m'. split; [done|]. split; [done|].
  split; intros n Hn.
  - rewrite (buildRow_proper n m' _ (same_maps_model n _ _ Hsame)). apply stored_row; [done|]. by apply Hall.
  - apply (buildRow_proper n m' m). etrans; [by apply same_maps_model|]. by apply Hall.
Qed.

(** *** The row a save is meant to give

    Written from the data alone, one case after the other: an expression keeps every
    number next to it; an expression mode without a text, and the other modes, are rows
    of a fixed price when there is a price and of token prices when there is none; and
    outside the expression mode a price is kept alone. *)

Definition all_numbers (d : ModelRatioData) : list (Field * jsstr) :=
  [(Price, values d Price); (Ratio, values d Ratio); (CacheRatio, values d CacheRatio); (CreateCacheRatio, values d CreateCacheRatio);
   (CompletionRatio, values d CompletionRatio); (ImageRatio, values d ImageRatio); (AudioRatio, values d AudioRatio);
   (AudioCompletionRatio, values d AudioCompletionRatio)].

Definition price_alone (d : ModelRatioData) : list (Field * jsstr) :=
  [(Price, values d Price); (Ratio, []); (CacheRatio, []); (CreateCacheRatio, []); (CompletionRatio, []); (ImageRatio, []); (AudioRatio, []);
   (AudioCompletionRatio, [])].

Definition some_ratio (d : ModelRatioData) : bool :=
  nonempty (values d Ratio) || nonempty (values d CompletionRatio) || nonempty (values d CacheRatio) || nonempty (values d CreateCacheRatio)
  || nonempty (values d ImageRatio) || nonempty (values d AudioRatio) || nonempty (values d AudioCompletionRatio).

Definition data_row (d : ModelRatioData) (n : jsstr) : res ModelRow :=
  match billingMode d, combineBillingExpr (PricingPanel.billingExpr d) (PricingPanel.requestRuleExpr d), values d Price with
  | tiered_expr, (_ :: _) as full, _ =>
      let! s := splitBillingExprAndRequestRules full in
      Ok (mkRow n (all_numbers d) tiered_expr (BillingExpr.billingExpr s) (BillingExpr.requestRuleExpr s) false)
  | tiered_expr, [], [] => Ok (mkRow n (all_numbers d) per_token [] [] false)
  | tiered_expr, [], _ :: _ => Ok (mkRow n (all_numbers d) per_request [] [] (some_ratio d))
  | _, _, _ :: _ => Ok (mkRow n (price_alone d) per_request [] [] false)
  | _, _, [] => Ok (mkRow n (all_numbers d) per_token [] [] false)
  end.

Lemma saved_all d f : billingMode d = tiered_expr ∨ values d Price = [] → saved_value d f = values d f.
Proof.
  unfold saved_value, writtenFields. intros H. destruct (billingMode d) eqn:Em; [..|by destruct f];
    (destruct H as [|H]; [done|]; rewrite H; destruct f; try done; by rewrite H).
Qed.

Lemma saved_price d f : billingMode d ≠ tiered_expr → nonempty (values d Price) = true →
  saved_value d f = if decide (f = Price) then values d Price else [].
Proof. unfold saved_value, writtenFields. intros Hm Hp. rewrite Hp. by destruct (billingMode d), f. Qed.

(** [expected_row] read off a map from the fields to the texts that were saved. *)
Lemma expected_by d n (g : Field → jsstr) : (∀ f, saved_value d f = g f) →
  expected_row d n
  = (let vs := map (fun f => (f, g f)) FIELDS in
     if stored_tiered d then
       let! s := splitBillingExprAndRequestRules (combined d) in
       Ok (mkRow n vs tiered_expr (BillingExpr.billingExpr s) (BillingExpr.requestRuleExpr s) false)
     else Ok (mkRow n vs (if nonempty (g Price) then per_request else per_token) [] []
                (nonempty (g Price) && existsb (fun f => nonempty (g f))
                   [Ratio; CompletionRatio; CacheRatio; CreateCacheRatio; ImageRatio; AudioRatio; AudioCompletionRatio]))).
Proof.
  intros H. unfold expected_row. rewrite (map_ext (fun f => (f, saved_value d f)) (fun f => (f, g f))) by (intros f; by rewrite H).
  cbn [existsb]. by rewrite !H.
Qed.

Lemma expected_data_row d n : expected_row d n = data_row d n.
Proof.
  assert (Hall : billingMode d = tiered_expr ∨ values d Price = [] → expected_row d n = data_row d n).
  { intros H. rewrite (expected_by d n (values d)) by (intros f; by apply saved_all). unfold data_row, stored_tiered. fold (combined d).
    destruct (billingMode d) eqn:Em; rewrite ?bool_decide_eq_true_2, ?bool_decide_eq_false_2 by done; cbn [andb].
    1,2: destruct H as [|H]; [done|]; unfold all_numbers; cbn; by rewrite H.
    destruct (combined d) eqn:Ec; [|done]. cbn [nonempty]. unfold all_numbers, some_ratio. cbn.
    destruct (values d Price); [done|]. cbn. by rewrite orb_false_r, !orb_assoc. }
  destruct (decide (billingMode d = tiered_expr)) as [|Hm]; [by apply Hall; left|].
  destruct (values d Price) as [|c v] eqn:Ep; [by apply Hall; right|].
  rewrite (expected_by d n _ (fun f => saved_price d f Hm ltac:(by rewrite Ep))).
  unfold data_row, stored_tiered, price_alone. rewrite bool_decide_eq_false_2 by done. cbn. rewrite Ep.
  by destruct (billingMode d), (combineBillingExpr (PricingPanel.billingExpr d) (PricingPanel.requestRuleExpr d)).
Qed.

(** C29: Saving and copying write exactly the models they are about. Afterwards every
    target has the row that is meant ([data_row]): all numbers and the expression in the
    expression mode; otherwise the price alone when there is one, even if ratios are
    given too, and all ratios when there is none; and every other model has the row it
    had. The numbers of the data print and read back, the names are no array indices, and
    the stored settings are objects of values that print and read back. *)
Theorem persist_exact d ns s m :
  data_ok d → Forall plain_name ns → readMaps s = Ok m → maps_ok m →
  ∃ s' m', persistPricingData d ns s = Ok s' ∧ readMaps s' = Ok m'
    ∧ (∀ n, n ∈ ns → buildRow m' n = data_row d n)
    ∧ (∀ n, n ∉ ns → buildRow m' n = buildRow m n).
Proof.
  intros Hd Hns Hr Hm. destruct (persist_rows d ns s m Hd Hns Hr Hm) as (s' & m' & H1 & H2 & H3 & H4).
  exists s', m'. do 2 (split; [done|]). split; [|done]. intros n Hn. rewrite <- expected_data_row. by apply H3.
Qed.

(** ** Deleting *)

Lemma names_spec m n :
  n ∈ modelNames m ↔ (∃ f, is_Some (map_get n (m_field m f))) ∨ is_Some (map_get n (m_mode m)) ∨ is_Some (map_get n (m_expr m)).
Proof.
  unfold modelNames. rewrite elem_of_set_of, !elem_of_app, !map_get_is_Some.
  assert (Hf : n ∈ concat (map (fun f => (m_field m f).*1) FIELDS) ↔ ∃ f, is_Some (map_get n (m_field m f))).
  { setoid_rewrite map_get_is_Some. cbn [FIELDS map concat]. rewrite app_nil_r, !elem_of_app. split.
    - intros H. destruct H as [H|[H|[H|[H|[H|[H|[H|H]]]]]]]; eexists; exact H.
    - intros [[] H]; tauto. }
  rewrite Hf. tauto.
Qed.

(** Deleting a model removes it from all ten settings, so that the table has
    no row for it, and leaves every other model's row and name in place. *)
Theorem delete_exact n s m :
  plain_name n → readMaps s = Ok m → maps_ok m →
  ∃ s' m', handleDelete n s = Ok s' ∧ readMaps s' = Ok m' ∧ n ∉ modelNames m'
    ∧ ∀ n', n' ≠ n → buildRow m' n' = buildRow m n' ∧ (n' ∈ modelNames m' ↔ n' ∈ modelNames m).
Proof.
  intros Hn Hr Hm. unfold handleDelete. rewrite Hr. cbn [res_bind]. pose proof (clear_ok n m Hn Hm) as Hok.
  destruct (read_written _ Hok) as (m' & Hm' & [Hf Hmo He]). eexists _, m'. split; [done|]. split; [done|].
  cbn [clearModel m_field m_mode m_expr] in *. split.
  - rewrite names_spec. setoid_rewrite Hf. rewrite Hmo, He. setoid_rewrite deleted.
    intros [[f H]|[H|H]]; by apply is_Some_None in H.
  - intros n' Hne. assert (Hs : same_model n' m' m).
    { split; [intros f; rewrite Hf|rewrite Hmo|rewrite He]; by apply kept. }
    split; [by apply (buildRow_proper n' m' m)|]. destruct Hs as [H1 H2 H3]. rewrite !names_spec.
    setoid_rewrite H1. by rewrite H2, H3.
Qed.
(** ** Saving an expression and opening it again *)

Lemma row_value n (g : Field → jsstr) mode e r c f :
  r_value (mkRow n (map (fun f => (f, g f)) FIELDS) mode e r c) f = g f.
Proof. by destruct f. Qed.

Lemma expected_tiered name0 vs cfg gs n :
  shape_ok cfg → Forall label_flat cfg → Forall group_ok gs →
  expected_row (mkData name0 vs tiered_expr (text_of_config cfg) (rules_text gs)) n
  = Ok (mkRow n (map (fun f => (f, vs f)) FIELDS) tiered_expr (text_of_config cfg) (rules_text gs) false).
Proof.
  intros Hc Hf Hg. destruct (combined_split cfg gs Hc Hf Hg) as [Hne Hs].
  unfold expected_row, stored_tiered, combined. cbn [billingMode PricingPanel.billingExpr PricingPanel.requestRuleExpr].
  rewrite (proj2 (nonempty_true _)) by done. rewrite bool_decide_eq_true_2 by done. cbn [andb].
  by rewrite Hs.
Qed.

(** C31: An expression saved from the panel is the one the editor opens next time.
    Submitting the panel in the expression mode closes it and stores the model;
    its row, edited again, gives the panel the same name, mode, ratios and the two
    expressions, and the editor opens on them with the same tiers and rules. The
    panel holds the texts printed from tiers and rule groups. The tiers are as the
    reader returns them, the last without a condition and the others with one, their
    labels without parentheses; the rule groups have supported conditions and
    numeric multipliers (rules that the editor cannot read are lost, see
    [unreadable_rules_erased]); each ratio text is empty or the text of the number
    it reads as; the name is not empty and not an array index; and the stored
    settings are well-formed objects. *)
Theorem saved_expression_reopens p st m cfg gs :
  pricingMode p = tiered_expr → formName p ≠ [] → plain_name (trim (formName p)) →
  p_billingExpr p = text_of_config cfg → p_requestRuleExpr p = rules_text gs →
  shape_ok cfg → Forall label_flat cfg → Forall group_ok gs →
  (∀ f, field_ok (form p f) = true) → readMaps (s_settings st) = Ok m → maps_ok m →
  ∃ st' m' row d,
    submitPanel p st = Ok (with_errors p [], st') ∧ editorOpen st' = false
    ∧ readMaps (s_settings st') = Ok m' ∧ buildRow m' (trim (formName p)) = Ok row
    ∧ editData (handleEdit row st') = Some d
    ∧ pricingMode (loadPanel (Some d)) = tiered_expr ∧ formName (loadPanel (Some d)) = trim (formName p)
    ∧ (∀ f, form (loadPanel (Some d)) f = form p f)
    ∧ ∃ e, open_editor (mkProps (trim (formName p)) (p_billingExpr (loadPanel (Some d))) (p_requestRuleExpr (loadPanel (Some d))))
           = Ok (mkPage e (canonical (trim (formName p)) cfg gs))
           ∧ visualConfig e = Some cfg ∧ requestRuleGroups e = gs.
Proof.
  intros Hm Hname Hplain He Hr Hc Hf Hg Hform Hread Hok. set (n := trim (formName p)) in *.
  assert (Hd : submitted p = mkData n (form p) tiered_expr (text_of_config cfg) (rules_text gs)).
  { unfold submitted. by rewrite Hm, !decide_True, He, Hr. }
  destruct (persist_rows (submitted p) [n] (s_settings st) m) as (s' & m' & Hp & Hm' & Hrow & _);
    [by rewrite Hd|by repeat constructor|done|done|].
  specialize (Hrow n (list_elem_of_here n [])). rewrite Hd, expected_tiered in Hrow by done.
  assert (Hsub : handleSubmit p = (with_errors p [], Some (submitted p))).
  { unfold handleSubmit, missingInput, missingAudioInput. rewrite (proj2 (nonempty_true _)) by done. by rewrite Hm. }
  eexists (mkState s' None false (globalFilter st) (rowSelection st) (Some SavedToDraft)), m', _, _.
  split; [unfold submitPanel, handleSave; rewrite Hsub; change (name (submitted p)) with n; by rewrite Hp|].
  split; [done|]. split; [done|]. split; [exact Hrow|]. split; [done|]. split; [done|]. split; [done|].
  split; [intros f; cbn [loadPanel form values]; apply row_value|].
  eexists. split; [by apply (opens_canonical n cfg gs); [apply shape_config|]|done].
Qed.

(** ** A fixed price that stays *)

(** A model with a fixed price cannot be given token prices: whatever ratios
    the panel saves in the token mode, the price still in the form is the only
    thing written, and the model stays priced by request. *)
Theorem token_save_keeps_price d n :
  billingMode d = per_token → values d Price ≠ [] →
  expected_row d n = Ok (mkRow n (map (fun f => (f, if decide (f = Price) then values d Price else [])) FIELDS)
                           per_request [] [] false).
Proof.
  intros Hm Hp. apply nonempty_true in Hp.
  assert (Hs : ∀ f, saved_value d f = if decide (f = Price) then values d Price else []).
  { intros f. unfold saved_value, writtenFields. rewrite Hm, Hp. by destruct f. }
  unfold expected_row, stored_tiered. rewrite Hm, bool_decide_eq_false_2 by done. cbn [andb].
  replace (map (fun f => (f, saved_value d f)) FIELDS)
    with (map (fun f => (f, if decide (f = Price) then values d Price else [])) FIELDS)
    by (apply map_ext; intros f; by rewrite Hs).
  cbn [existsb]. rewrite !Hs, decide_True by done. rewrite Hp. done.
Qed.
(** ** Witnesses *)

Definition demo_data : ModelRatioData :=
  mkData (js "m") (fun f => match f with Ratio => js "1.5" | CompletionRatio => js "5" | _ => [] end) per_token [] [].

Lemma demo_data_ok : data_ok demo_data.
Proof. intros []; vm_compute; reflexivity. Qed.

(** Settings with a fixed price for one model and nothing else. *)
Definition demo_settings : settings :=
  mkSettings (fun f => match f with Price => jsq "{ 'n': 0.5 }" | _ => [] end) (js "{}") [].

Lemma demo_read : ∃ m, readMaps demo_settings = Ok m ∧ maps_ok m.
Proof.
  eexists. split; [reflexivity|]. split; cbn [m_field m_mode m_expr].
  - intros []; by split; vm_compute.
  - by split; vm_compute.
  - by split; vm_compute.
Qed.

Lemma persist_exact_witness :
  ∃ s' m', persistPricingData demo_data [js "m"; js "k"] demo_settings = Ok s' ∧ readMaps s' = Ok m'
    ∧ buildRow m' (js "k") = data_row demo_data (js "k").
Proof.
  destruct demo_read as (m & Hr & Hm).
  destruct (persist_exact demo_data [js "m"; js "k"] demo_settings m demo_data_ok
              ltac:(repeat constructor; vm_compute; reflexivity) Hr Hm) as (s' & m' & H1 & H2 & H3 & _).
  exists s', m'. split; [exact H1|]. split; [exact H2|]. apply H3. right. left.
Defined.

Lemma delete_exact_witness :
  ∃ s' m', handleDelete (js "n") demo_settings = Ok s' ∧ readMaps s' = Ok m' ∧ js "n" ∉ modelNames m'.
Proof.
  destruct demo_read as (m & Hr & Hm).
  destruct (delete_exact (js "n") demo_settings m ltac:(vm_compute; reflexivity) Hr Hm) as (s' & m' & H1 & H2 & H3 & _).
  exists s', m'. split; [exact H1|]. split; [exact H2|exact H3].
Defined.

Definition demo_panel : panel :=
  mkPanel tiered_expr [] EMPTY_LANE_PRICES EMPTY_LANE_ENABLED (text_of_config demo_config) (rules_text [demo_group])
    (js "m") (fun f => match f with Ratio => js "1.5" | _ => [] end) [].

Lemma saved_expression_reopens_witness :
  ∃ st' m' row, submitPanel demo_panel (mkState demo_settings None true [] [] None) = Ok (with_errors demo_panel [], st')
    ∧ readMaps (s_settings st') = Ok m' ∧ buildRow m' (js "m") = Ok row.
Proof.
  destruct demo_read as (m & Hr & Hm).
  destruct (saved_expression_reopens demo_panel (mkState demo_settings None true [] [] None) m demo_config [demo_group])
    as (st' & m' & row & d & H1 & _ & H2 & H3 & _).
  - reflexivity.
  - discriminate.
  - vm_compute; reflexivity.
  - reflexivity.
  - reflexivity.
  - apply demo_shape.
  - apply demo_flat.
  - constructor; [apply demo_group_ok|constructor].
  - intros []; vm_compute; reflexivity.
  - exact Hr.
  - exact Hm.
  - exists st', m', row. split; [exact H1|]. split; [exact H2|exact H3].
Defined.

Lemma token_save_keeps_price_witness :
  expected_row (mkData (js "m") (fun f => match f with Price => js "0.5" | Ratio => js "1.5" | _ => [] end) per_token [] []) (js "m")
  = Ok (mkRow (js "m") (map (fun f => (f, if decide (f = Price) then js "0.5" else [])) FIELDS) per_request [] [] false).
Proof.
  apply (token_save_keeps_price (mkData (js "m") (fun f => match f with Price => js "0.5" | Ratio => js "1.5" | _ => [] end) per_token [] []) (js "m"));
    [reflexivity|discriminate].
Defined.

(** The whole way: a model with a fixed price is edited, switched to token prices
    and given an input price; after the save its row has the old price alone. *)
Example token_prices_lost :
  (let! m := readMaps demo_settings in
   let! row := buildRow m (js "n") in
   let st := handleEdit row (mkState demo_settings None false [] [] None) in
   let p := handlePromptPriceChange (js "3") (PricingPanel.handleModeChange per_token (loadPanel (editData st))) in
   let! r := submitPanel p st in
   let! m' := readMaps (s_settings r.2) in
   buildRow m' (js "n"))
  = Ok (mkRow (js "n") (map (fun f => (f, if decide (f = Price) then js "0.5" else [])) FIELDS) per_request [] [] false).
Proof. by vm_compute. Qed.
End PricingTableLaws.
