(* ===== verification/NumRound.v ===== *)
(** * Rounding

    The operations of [spec_float] are correctly rounded: the result of a division,
    a product or a difference is the number nearest to the exact result, which
    bounds its error, and depends on the exact result only. Values are rationals.
    [good] numbers are those in canonical form, as every operation returns them;
    on them comparison is that of the values. *)

From Stdlib Require Import QArith Qpower Lqa.
From S2P Require Import Prelude JsNum IntNum.
From Stdlib Require Import Floats.SpecFloat.

Module NumRound.

(** [x] and [y] differ by at most [d]. *)
Definition within (d x y : Q) : Prop := (x - d <= y /\ y <= x + d)%Q.

#[export] Instance within_Proper : Proper (Qeq ==> Qeq ==> Qeq ==> iff) within.
Proof. intros d d' Hd x x' Hx y y' Hy. unfold within. split; intros []; split; lra. Qed.

(** ** Powers of two *)

Definition p2 (e : Z) : Q := Qpower 2 e.

Lemma p2_pos e : (0 < p2 e)%Q.
Proof. by apply Qpower_0_lt. Qed.

Lemma p2_add a b : (p2 (a + b) == p2 a * p2 b)%Q.
Proof. by apply Qpower_plus. Qed.

Lemma p2_0 : (p2 0 == 1)%Q.
Proof. done. Qed.

Lemma p2_S e : (p2 (e + 1) == 2 * p2 e)%Q.
Proof. rewrite p2_add. change (p2 1) with (2 # 1)%Q. ring. Qed.

Lemma p2_Z e : (0 <= e)%Z → (p2 e == inject_Z (2 ^ e))%Q.
Proof. intros He. symmetry. by apply Zpower_Qpower. Qed.

Lemma p2_inv e : (p2 e * p2 (- e) == 1)%Q.
Proof. rewrite <- p2_add. by rewrite Z.add_opp_diag_r. Qed.

Lemma p2_le a b : (a <= b)%Z → (p2 a <= p2 b)%Q.
Proof. intros H. by apply Qpower_le_compat_l. Qed.

Lemma p2_lt_inv a b : (p2 a < p2 b)%Q → (a < b)%Z.
Proof.
  intros H. destruct (Z.lt_ge_cases a b) as [|Hab]; [done|]. pose proof (p2_le b a Hab). lra.
Qed.

Lemma p2_lt a b : (a < b)%Z → (p2 a < p2 b)%Q.
Proof. intros H. by apply Qpower_lt_compat_l. Qed.

#[global] Opaque p2.

Lemma Z_xO p : (inject_Z (Z.pos p~0) == 2 * inject_Z (Z.pos p))%Q.
Proof. unfold inject_Z, Qeq. cbn. lia. Qed.
Lemma Z_xI p : (inject_Z (Z.pos p~1) == 2 * inject_Z (Z.pos p) + 1)%Q.
Proof. unfold inject_Z, Qeq. cbn. lia. Qed.

(** ** A position with two bits of remainder *)

(** [x] lies where the record says: at its integer, below the half above it, at the
    half, or beyond. *)
Definition Loc (x : Q) (r : shr_record) : Prop :=
  (0 <= shr_m r)%Z ∧
  let m := inject_Z (shr_m r) in
  match shr_r r, shr_s r with
  | false, false => (x == m)%Q
  | false, true => (m < x /\ x < m + (1 # 2))%Q
  | true, false => (x == m + (1 # 2))%Q
  | true, true => (m + (1 # 2) < x /\ x < m + 1)%Q
  end.

Lemma Loc_Proper x y r : (x == y)%Q → Loc x r → Loc y r.
Proof.
  intros E [Hm H]. split; [done|]. cbn zeta in *.
  destruct (shr_r r), (shr_s r); [split; lra|lra|split; lra|lra].
Qed.

Lemma Loc_shr1 x r : Loc x r → Loc (x * (1 # 2)) (shr_1 r).
Proof.
  destruct r as [m r s]. unfold Loc. cbn [shr_m shr_r shr_s]. intros [Hm H].
  assert (H1 : (inject_Z 1 == 1)%Q) by done. assert (H0 : (inject_Z 0 == 0)%Q) by done.
  destruct m as [|[p|p|]|p]; [| | | |lia]; cbn [shr_1 shr_m shr_r shr_s orb]; (split; [lia|]); cbn zeta in *;
    try pose proof (Z_xO p); try pose proof (Z_xI p); destruct r, s; cbn [orb]; try split; lra.
Qed.

Lemma Loc_shr x r n : Loc x r → Loc (x * p2 (- Z.of_nat n)) (Nat.iter n shr_1 r).
Proof.
  intros H. induction n as [|n IH].
  - eapply Loc_Proper; [|exact H]. cbn [Z.of_nat Z.opp]. rewrite p2_0. ring.
  - rewrite Nat.iter_succ. eapply Loc_Proper; [|apply Loc_shr1, IH].
    replace (- Z.of_nat n)%Z with (- Z.of_nat (S n) + 1)%Z by lia. rewrite p2_S. ring.
Qed.

(** The record is determined by the position. *)
Lemma Loc_inj x r r' : Loc x r → Loc x r' → r = r'.
Proof.
  destruct r as [m a b], r' as [m' a' b']. unfold Loc. cbn [shr_m shr_r shr_s]. intros [Hm H] [Hm' H'].
  assert (E : m = m').
  { assert (inject_Z m < inject_Z m' + 1 /\ inject_Z m' < inject_Z m + 1)%Q as [H1 H2].
    { destruct a, b, a', b'; lra. }
    change 1%Q with (inject_Z 1) in H1, H2. rewrite <- inject_Z_plus, <- Zlt_Qlt in H1, H2. lia. }
  subst m'. destruct a, b, a', b'; try done; exfalso; lra.
Qed.

(** Rounding to the nearest integer is off by at most a half. *)
Lemma round_half x r : Loc x r →
  (0 <= round_nearest_even (shr_m r) (loc_of_shr_record r))%Z ∧
  within (1 # 2) x (inject_Z (round_nearest_even (shr_m r) (loc_of_shr_record r))) ∧
  (shr_m r <= round_nearest_even (shr_m r) (loc_of_shr_record r) <= shr_m r + 1)%Z.
Proof.
  destruct r as [m a b]. unfold Loc. cbn [shr_m shr_r shr_s]. intros [Hm H].
  assert (Hs : (inject_Z (m + 1) == inject_Z m + 1)%Q) by (rewrite inject_Z_plus; done).
  destruct a, b; cbn [loc_of_shr_record round_nearest_even]; [|destruct (Z.even m)| |];
    (split; [lia|]); (split; [|lia]); unfold within; rewrite ?Hs; split; lra.
Qed.

(** ** Rounding of a mantissa *)

Definition fexp64 (d : Z) : Z := fexp prec emax d.

Lemma fexp64_eq d : fexp64 d = Z.max (d - 53) (-1074).
Proof. done. Qed.

Lemma digits_pow m : (2 ^ (Z.pos (digits2_pos m) - 1) <= Z.pos m < 2 ^ Z.pos (digits2_pos m))%Z.
Proof. apply digits_bounds. Qed.

(** A mantissa of at most 53 bits, or the next power of two, with its exponent. *)
Definition pack (s : bool) (m : Z) (e : Z) : num :=
  match m with
  | Z.pos m => if (Z.pos m =? 2 ^ 53)%Z then S754_finite s (2 ^ 52) (e + 1) else S754_finite s m e
  | _ => S754_zero s
  end.

Lemma shr_fexp_iter m e l :
  (e <= fexp64 (Zdigits2 m + e))%Z →
  shr_fexp prec emax m e l
  = (Nat.iter (Z.to_nat (fexp64 (Zdigits2 m + e) - e)) shr_1 (shr_record_of_loc m l), fexp64 (Zdigits2 m + e)).
Proof.
  intros He. unfold shr_fexp, shr. fold (fexp64 (Zdigits2 m + e)). set (E := fexp64 _) in *.
  destruct (E - e)%Z as [|p|p] eqn:Hd; [|rewrite iter_pos_nat|lia].
  - replace E with e by lia. done.
  - rewrite Z2Nat.inj_pos. f_equal. lia.
Qed.

Lemma shr_fexp_pack s m e :
  (0 <= m <= 2 ^ 53)%Z → (-1074 <= e <= 900)%Z →
  (let '(mrs, e') := shr_fexp prec emax m e loc_Exact in
   match shr_m mrs with
   | Z0 => S754_zero s
   | Z.pos m => if (e' <=? emax - prec)%Z then S754_finite s m e' else S754_infinity s
   | _ => S754_nan
   end) = pack s m e.
Proof.
  intros Hm He. destruct (decide (m = 2 ^ 53)%Z) as [->|Hne].
  - change (shr_fexp prec emax (2 ^ 53) e loc_Exact) with (shr (shr_record_of_loc (2 ^ 53) loc_Exact) e (fexp64 (54 + e) - e)).
    rewrite fexp64_eq. replace (Z.max (54 + e - 53) (-1074) - e)%Z with 1%Z by lia. cbn [shr shr_record_of_loc].
    change (SpecFloat.iter_pos shr_1 1 _) with (Build_shr_record (Z.pos (2 ^ 52)) false false). cbn [shr_m].
    change (pack s (2 ^ 53) e) with (S754_finite s (2 ^ 52) (e + 1)).
    unfold emax, prec. by rewrite (proj2 (Z.leb_le _ _)) by lia.
  - unfold shr_fexp. fold (fexp64 (Zdigits2 m + e)). rewrite fexp64_eq.
    assert (Hd : (Zdigits2 m <= 53)%Z).
    { destruct m as [|m|m]; cbn [Zdigits2]; [lia| |lia]. pose proof (digits_pow m) as [H _].
      destruct (Z.le_gt_cases (Z.pos (digits2_pos m)) 53) as [|Hgt]; [done|].
      assert (2 ^ 53 <= 2 ^ (Z.pos (digits2_pos m) - 1))%Z by (apply Z.pow_le_mono_r; lia). lia. }
    destruct (Z.max (Zdigits2 m + e - 53) (-1074) - e)%Z as [|p|p] eqn:Hp; [|lia|]; cbn [shr shr_record_of_loc shr_m];
      (destruct m as [|m|m]; [done| |lia]); unfold pack, emax, prec; rewrite (proj2 (Z.leb_le _ _)) by lia;
      (rewrite (proj2 (Z.eqb_neq _ _)); [done|]); lia.
Qed.

Lemma Loc_bounds x r : Loc x r → (inject_Z (shr_m r) <= x /\ x < inject_Z (shr_m r) + 1)%Q.
Proof. intros [_ H]. cbn zeta in H. destruct (shr_r r), (shr_s r); split; lra. Qed.

Lemma rec_m m l : shr_m (shr_record_of_loc m l) = m.
Proof. by destruct l as [|[]]. Qed.

Section rounded.
Context (s : bool) (mx ex : Z) (lx : location) (v : Q).
Context (HL : Loc (v * p2 (- ex)) (shr_record_of_loc mx lx)).
Context (He : (ex <= fexp64 (Zdigits2 mx + ex))%Z).

Let E := fexp64 (Zdigits2 mx + ex).
Let r := Nat.iter (Z.to_nat (E - ex)) shr_1 (shr_record_of_loc mx lx).

Lemma scaled a b : (v * p2 a * p2 b == v * p2 (a + b))%Q.
Proof. rewrite p2_add. ring. Qed.

Lemma r_loc : Loc (v * p2 (- E)) r.
Proof.
  eapply Loc_Proper; [|apply Loc_shr, HL]. rewrite scaled. subst E. rewrite Z2Nat.id by lia.
  replace (- ex + - (fexp64 (Zdigits2 mx + ex) - ex))%Z with (- fexp64 (Zdigits2 mx + ex))%Z by lia. done.
Qed.

Lemma mx_nonneg : (0 <= mx)%Z.
Proof. destruct HL as [H _]. by rewrite rec_m in H. Qed.

Lemma mx_bounds : (mx < 2 ^ Zdigits2 mx)%Z ∧ (0 < mx → 2 ^ (Zdigits2 mx - 1) <= mx)%Z ∧ (0 <= Zdigits2 mx)%Z.
Proof.
  pose proof mx_nonneg. destruct mx as [|m|m]; [done| |lia]. cbn [Zdigits2].
  pose proof (digits_pow m). repeat split; lia.
Qed.

Lemma v_bounds : (inject_Z mx * p2 ex <= v /\ v < inject_Z (mx + 1) * p2 ex)%Q.
Proof.
  pose proof (Loc_bounds _ _ HL) as [H1 H2]. rewrite rec_m in H1, H2. pose proof (p2_pos ex). pose proof (p2_inv ex).
  rewrite inject_Z_plus. change (inject_Z 1) with 1%Q. assert (Hv : (v == v * p2 (- ex) * p2 ex)%Q) by (rewrite <- Qmult_assoc, (Qmult_comm (p2 (- ex))), H0; ring).
  split; rewrite Hv; [apply Qmult_le_compat_r; [done|lra]|apply Qmult_lt_compat_r; done].
Qed.

Lemma v_small : (v * p2 (- E) < p2 53)%Q.
Proof.
  destruct mx_bounds as (Hlt & _ & Hd). destruct v_bounds as [_ Hv]. pose proof (p2_pos (- E)).
  assert (H1 : (inject_Z (mx + 1) <= p2 (Zdigits2 mx))%Q) by (rewrite p2_Z by done; rewrite <- Zle_Qle; lia).
  assert (H2 : (v < p2 (Zdigits2 mx + ex))%Q).
  { rewrite p2_add. pose proof (p2_pos ex). eapply Qlt_le_trans; [exact Hv|]. apply Qmult_le_compat_r; lra. }
  eapply Qlt_le_trans; [apply Qmult_lt_compat_r; [done|exact H2]|]. rewrite <- p2_add. apply p2_le.
  subst E. rewrite fexp64_eq. lia.
Qed.

Let m' := round_nearest_even (shr_m r) (loc_of_shr_record r).

Lemma m'_bounds : (0 <= m' <= 2 ^ 53)%Z.
Proof.
  destruct (round_half _ _ r_loc) as (H0 & _ & H1). fold m' in H0, H1. split; [done|].
  pose proof (Loc_bounds _ _ r_loc) as [H2 _]. pose proof v_small as H3. rewrite (p2_Z 53) in H3 by done.
  assert (H4 : (inject_Z (shr_m r) < inject_Z (2 ^ 53))%Q) by lra. rewrite <- Zlt_Qlt in H4. lia.
Qed.

Lemma aux_pack : (E <= 900)%Z → binary_round_aux prec emax s mx ex lx = pack s m' E.
Proof.
  intros HE. unfold binary_round_aux. rewrite shr_fexp_iter by done. fold E. fold r. fold m'.
  apply shr_fexp_pack; [apply m'_bounds|]. split; [|done]. subst E. rewrite fexp64_eq. lia.
Qed.

Lemma m'_error : within (p2 (E - 1)) v (inject_Z m' * p2 E).
Proof.
  destruct (round_half _ _ r_loc) as (_ & [H1 H2] & _). fold m' in H1, H2. pose proof (p2_pos E) as HE. pose proof (p2_inv E).
  assert (Hh : (p2 (E - 1) == (1 # 2) * p2 E)%Q) by (replace E with (E - 1 + 1)%Z at 2 by lia; rewrite p2_S; ring).
  assert (Hv : (v == v * p2 (- E) * p2 E)%Q) by (rewrite <- Qmult_assoc, (Qmult_comm (p2 (- E))), H; ring).
  unfold within. rewrite Hh, Hv. split; nra.
Qed.

Lemma m'_canonical : (E = -1074 ∨ 2 ^ 52 <= m')%Z.
Proof.
  destruct (decide (E = -1074)%Z) as [|Hne]; [by left|right]. destruct mx_bounds as (_ & Hlo & Hd).
  destruct (round_half _ _ r_loc) as (_ & _ & H1). fold m' in H1. pose proof (Loc_bounds _ _ r_loc) as [_ H2].
  assert (HE : E = (Zdigits2 mx + ex - 53)%Z) by (subst E; rewrite fexp64_eq in *; lia).
  assert (Hmx : (0 < mx)%Z).
  { pose proof mx_nonneg. destruct (decide (mx = 0)%Z) as [->|]; [|lia]. cbn [Zdigits2] in HE. subst E. rewrite fexp64_eq in *. cbn [Zdigits2] in *. lia. }
  destruct v_bounds as [Hv _]. pose proof (p2_pos ex). pose proof (p2_pos (- E)).
  assert (H3 : (p2 52 <= v * p2 (- E))%Q).
  { replace 52%Z with ((Zdigits2 mx - 1) + ex + - E)%Z by lia. rewrite p2_add. apply Qmult_le_compat_r; [|lra].
    eapply Qle_trans; [|exact Hv]. rewrite p2_add. apply Qmult_le_compat_r; [|lra]. rewrite p2_Z.
    - rewrite <- Zle_Qle. by apply Hlo.
    - destruct mx; [lia|cbn [Zdigits2]; lia|lia]. }
  rewrite p2_Z in H3 by done. change 1%Q with (inject_Z 1) in H2. rewrite <- inject_Z_plus in H2.
  assert (H4 : (inject_Z (2 ^ 52) < inject_Z (shr_m r + 1))%Q) by lra. rewrite <- Zlt_Qlt in H4. lia.
Qed.

Lemma E_bound p : (v < p2 p)%Q → (E <= Z.max (p - 53) (-1074))%Z.
Proof.
  intros Hp. destruct mx_bounds as (_ & Hlo & Hd). destruct v_bounds as [Hv _].
  pose proof mx_nonneg. destruct (decide (mx = 0)%Z) as [Hz|].
  { subst E. rewrite fexp64_eq in *. rewrite Hz in *. cbn [Zdigits2] in *. lia. }
  assert (Zdigits2 mx - 1 + ex < p)%Z; [|subst E; rewrite fexp64_eq; lia].
  apply p2_lt_inv. eapply Qle_lt_trans; [|exact Hp]. eapply Qle_trans; [|exact Hv]. rewrite p2_add.
  pose proof (p2_pos ex). apply Qmult_le_compat_r; [|lra]. rewrite p2_Z.
  - rewrite <- Zle_Qle. apply Hlo. lia.
  - destruct mx; [lia|cbn [Zdigits2]; lia|lia].
Qed.

Lemma digits_place : (0 < mx)%Z → (p2 (Zdigits2 mx + ex - 1) <= v /\ v < p2 (Zdigits2 mx + ex))%Q.
Proof.
  intros Hmx. destruct mx_bounds as (Hhi & Hlo & Hd). destruct v_bounds as [Hv Hv']. pose proof (p2_pos ex). split.
  - replace (Zdigits2 mx + ex - 1)%Z with (Zdigits2 mx - 1 + ex)%Z by lia. rewrite p2_add.
    eapply Qle_trans; [|exact Hv]. apply Qmult_le_compat_r; [|lra]. rewrite p2_Z.
    + rewrite <- Zle_Qle. by apply Hlo.
    + destruct mx; [lia|cbn [Zdigits2]; lia|lia].
  - eapply Qlt_le_trans; [exact Hv'|]. rewrite p2_add. apply Qmult_le_compat_r; [|lra]. rewrite p2_Z by done.
    rewrite <- Zle_Qle. lia.
Qed.
End rounded.

(** ** Values *)

Definition sg (s : bool) (v : Q) : Q := if s then (- v)%Q else v.

#[export] Instance sg_Proper : Proper ((=) ==> Qeq ==> Qeq) sg.
Proof. intros s ? <- v w E. destruct s; cbn [sg]; by rewrite E. Qed.

Definition num_Q (x : num) : Q :=
  match x with S754_finite s m e => sg s (inject_Z (Z.pos m) * p2 e) | _ => 0%Q end.

Definition negative (x : num) : bool :=
  match x with S754_zero s | S754_infinity s | S754_finite s _ _ => s | S754_nan => false end.

(** Finite and in canonical form. *)
Definition good (x : num) : Prop :=
  match x with
  | S754_zero _ => True
  | S754_finite _ m e => (-1074 <= e ∧ Z.pos m < 2 ^ 53 ∧ (e = -1074 ∨ 2 ^ 52 <= Z.pos m))%Z
  | _ => False
  end.

Lemma pack_Q s m e : (0 <= m)%Z → (num_Q (pack s m e) == sg s (inject_Z m * p2 e))%Q.
Proof.
  intros Hm. destruct m as [|m|m]; [by destruct s| |lia]. unfold pack.
  destruct (Z.eqb_spec (Z.pos m) (2 ^ 53)) as [->|]; [|done]. cbn [num_Q]. rewrite p2_S.
  change (inject_Z (2 ^ 53)) with (2 * inject_Z (2 ^ 52))%Q. change (Z.pos (2 ^ 52)) with (2 ^ 52)%Z. f_equiv. ring.
Qed.

Lemma pack_good s m e : (0 <= m <= 2 ^ 53)%Z → (-1074 <= e)%Z → (e = -1074 ∨ 2 ^ 52 <= m)%Z → good (pack s m e).
Proof.
  intros Hm He Hc. destruct m as [|m|m]; [done| |lia]. unfold pack.
  destruct (Z.eqb_spec (Z.pos m) (2 ^ 53)) as [_|]; cbn [good]; [|lia]. change (Z.pos (2 ^ 52)) with (2 ^ 52)%Z. lia.
Qed.

Lemma pack_sign s m e : negative (pack s m e) = s.
Proof. destruct m as [|m|m]; [done| |done]. unfold pack. by destruct (_ =? _)%Z. Qed.

(** [x] is [v] rounded: canonical, with the sign of [v] and within half a unit of
    the last place of any power of two above [v]. *)
Record rounds (x : num) (v : Q) : Prop := {
  rounds_good : good x;
  rounds_error p : (-1000 <= p <= 900)%Z → (- p2 p < v /\ v < p2 p)%Q → within (p2 (p - 54)) v (num_Q x);
  rounds_sign : (0 < v)%Q → negative x = false
}.

Lemma within_sg s d v w : within d v w → within d (sg s v) (sg s w).
Proof. unfold within. destruct s; cbn [sg]; intros []; split; lra. Qed.

Lemma within_le d d' v w : (d <= d')%Q → within d v w → within d' v w.
Proof. unfold within. intros ? []; split; lra. Qed.

Lemma aux_rounds s mx ex lx v :
  Loc (v * p2 (- ex)) (shr_record_of_loc mx lx) → (ex <= fexp64 (Zdigits2 mx + ex))%Z → (v < p2 900)%Q →
  rounds (binary_round_aux prec emax s mx ex lx) (sg s v).
Proof.
  intros HL He Hv. pose proof (E_bound mx ex lx v HL He 900 Hv) as HE.
  rewrite (aux_pack s mx ex lx v) by (done || lia). pose proof (m'_bounds mx ex lx v HL He) as Hm.
  assert (Hv0 : (0 <= v)%Q).
  { destruct (v_bounds mx ex lx v HL) as [H _]. pose proof (mx_nonneg mx ex lx v HL) as H0. rewrite Zle_Qle in H0.
    pose proof (p2_pos ex). change (inject_Z 0) with 0%Q in H0. nra. }
  split.
  - apply pack_good; [done|rewrite fexp64_eq; lia|]. by apply m'_canonical with (lx := lx) (v := v).
  - intros p Hp Hvp. rewrite pack_Q by lia. apply within_sg.
    assert (Hvp' : (v < p2 p)%Q) by (pose proof (p2_pos p); destruct s; cbn [sg] in Hvp; lra).
    eapply within_le; [|by apply m'_error]. apply p2_le. pose proof (E_bound mx ex lx v HL He p Hvp'). lia.
  - intros Hpos. rewrite pack_sign. destruct s; [|done]. cbn [sg] in Hpos. lra.
Qed.

Lemma zero_rounds s v : (v == 0)%Q → rounds (S754_zero s) v.
Proof.
  intros Hv. split; [done| |lra]. intros p _ _. cbn [num_Q]. unfold within. pose proof (p2_pos (p - 54)). split; lra.
Qed.

Lemma rounds_Proper x v w : (v == w)%Q → rounds x v → rounds x w.
Proof.
  intros E [Hg He Hs]. split; [done| |].
  - intros p Hp Hw. destruct (He p Hp) as [H1 H2]; [split; lra|]. split; lra.
  - intros Hw. apply Hs. lra.
Qed.

#[export] Instance rounds_iff_Proper : Proper ((=) ==> Qeq ==> iff) rounds.
Proof. intros x ? <- v w E. split; apply rounds_Proper; done. Qed.

(** ** Products *)

Lemma sg_mul a b v w : (sg a v * sg b w == sg (xorb a b) (v * w))%Q.
Proof. destruct a, b; cbn [sg xorb]; ring. Qed.

Lemma sg_lt s v w : (- w < sg s v /\ sg s v < w)%Q → (v < w)%Q.
Proof. destruct s; cbn [sg]; lra. Qed.

Lemma Loc_exact m : (0 <= m)%Z → Loc (inject_Z m) (shr_record_of_loc m loc_Exact).
Proof. intros H. split; [done|]. cbn. reflexivity. Qed.

Lemma exact_place (m e : Z) : (inject_Z m * p2 e * p2 (- e) == inject_Z m)%Q.
Proof. rewrite <- Qmult_assoc, p2_inv. ring. Qed.

Lemma digits_ge m k : (2 ^ k <= Z.pos m)%Z → (0 <= k)%Z → (k < Z.pos (digits2_pos m))%Z.
Proof.
  intros H Hk. destruct (digits_pow m) as [_ Hm]. destruct (Z.lt_ge_cases k (Z.pos (digits2_pos m))) as [|Hge]; [done|].
  assert (2 ^ Z.pos (digits2_pos m) <= 2 ^ k)%Z by (apply Z.pow_le_mono_r; lia). lia.
Qed.

Lemma mul_place mx ex my ey :
  good (S754_finite false mx ex) → good (S754_finite false my ey) → (ex + ey <= fexp64 (Zdigits2 (Z.pos (mx * my)) + (ex + ey)))%Z.
Proof.
  intros (Hx1 & Hx2 & Hx3) (Hy1 & Hy2 & Hy3). cbn [Zdigits2]. rewrite fexp64_eq.
  destruct (decide (ex = -1074 ∧ ey = -1074)%Z) as [[-> ->]|Hne]; [lia|].
  assert (52 < Z.pos (digits2_pos (mx * my)))%Z; [|lia]. apply digits_ge; [|done]. rewrite Pos2Z.inj_mul. nia.
Qed.

Lemma mul_value mx ex my ey :
  (inject_Z (Z.pos mx) * p2 ex * (inject_Z (Z.pos my) * p2 ey) == inject_Z (Z.pos (mx * my)) * p2 (ex + ey))%Q.
Proof. rewrite p2_add, Pos2Z.inj_mul, inject_Z_mult. ring. Qed.

Lemma mul_rounds x y :
  good x → good y → (- p2 900 < num_Q x * num_Q y /\ num_Q x * num_Q y < p2 900)%Q →
  rounds (num_mul x y) (num_Q x * num_Q y).
Proof.
  destruct x as [sx| | |sx mx ex], y as [sy| | |sy my ey]; cbn [good]; try done; intros Hx Hy Hv.
  1-3: cbn [num_Q]; apply zero_rounds; ring.
  cbn [num_Q num_mul SFmul] in *. rewrite sg_mul in Hv.
  eapply rounds_Proper; [symmetry; apply sg_mul|]. apply aux_rounds.
  - eapply Loc_Proper; [|apply Loc_exact; lia]. by rewrite mul_value, exact_place.
  - by apply mul_place.
  - by apply sg_lt in Hv.
Qed.

(** ** Differences *)

Lemma self_rounds x : good x → rounds x (num_Q x).
Proof.
  intros Hx. split; [done| |].
  - intros p _ _. unfold within. pose proof (p2_pos (p - 54)). split; lra.
  - destruct x as [| | |[] m e]; cbn [num_Q sg negative good] in *; try done; intros H.
    pose proof (p2_pos e). assert (0 < inject_Z (Z.pos m))%Q by (change 0%Q with (inject_Z 0); rewrite <- Zlt_Qlt; lia). nra.
Qed.

Lemma sg_negb s v : (sg (negb s) v == - sg s v)%Q.
Proof. destruct s; cbn [sg negb]; ring. Qed.

Lemma align_value m e e' : (e' <= e)%Z →
  (inject_Z (Z.pos (fst (shl_align m e e'))) * p2 e' == inject_Z (Z.pos m) * p2 e)%Q.
Proof.
  intros He. unfold shl_align. destruct (e' - e)%Z as [|d|d] eqn:Hd; [|lia|]; cbn [fst].
  - by replace e' with e by lia.
  - rewrite shl_iter, shl_Z, inject_Z_mult, positive_nat_Z. rewrite <- p2_Z by lia.
    replace e with (Z.pos d + e')%Z by lia. rewrite p2_add. ring.
Qed.

(** The mantissa that is rounded, of the same value. *)
Lemma binary_round_place s m e : ∃ mz ez,
  binary_round prec emax s m e = binary_round_aux prec emax s (Z.pos mz) ez loc_Exact ∧
  (inject_Z (Z.pos mz) * p2 ez == inject_Z (Z.pos m) * p2 e)%Q ∧ (ez <= fexp64 (Zdigits2 (Z.pos mz) + ez))%Z.
Proof.
  unfold binary_round. fold (fexp64 (Z.pos (digits2_pos m) + e)). set (E := fexp64 _).
  unfold shl_align. destruct (E - e)%Z as [|d|d] eqn:Hd; [exists m, e|exists m, e|].
  1-2: split_and!; [done|done|cbn [Zdigits2]; fold E; lia].
  rewrite shl_iter. exists (shl (Pos.to_nat d) m), E. split; [done|]. split.
  - rewrite shl_Z, inject_Z_mult, positive_nat_Z, <- p2_Z by lia. replace e with (Z.pos d + E)%Z by lia. rewrite p2_add. ring.
  - cbn [Zdigits2]. rewrite digits_shl, positive_nat_Z.
    replace (Z.pos (digits2_pos m) + Z.pos d + E)%Z with (Z.pos (digits2_pos m) + e)%Z by lia. fold E. lia.
Qed.

Lemma exact_loc m e v : (inject_Z (Z.pos m) * p2 e == v)%Q → Loc (v * p2 (- e)) (shr_record_of_loc (Z.pos m) loc_Exact).
Proof. intros E. eapply Loc_Proper; [|apply Loc_exact; lia]. by rewrite <- E, exact_place. Qed.

Lemma binary_round_rounds s m e :
  (inject_Z (Z.pos m) * p2 e < p2 900)%Q →
  rounds (binary_round prec emax s m e) (sg s (inject_Z (Z.pos m) * p2 e)).
Proof.
  intros Hv. destruct (binary_round_place s m e) as (mz & ez & -> & HQ & He). apply aux_rounds; [by apply exact_loc|done|done].
Qed.

Lemma normalize_rounds z e :
  (- p2 900 < inject_Z z * p2 e /\ inject_Z z * p2 e < p2 900)%Q →
  rounds (binary_normalize prec emax z e false) (inject_Z z * p2 e).
Proof.
  intros [H1 H2]. destruct z as [|m|m]; cbn [binary_normalize].
  - apply zero_rounds. ring.
  - by apply binary_round_rounds.
  - change (Z.neg m) with (- Z.pos m)%Z in *. rewrite inject_Z_opp in *.
    eapply rounds_Proper; [|apply (binary_round_rounds true)]; [cbn [sg]; ring|lra].
Qed.

Lemma sub_rounds x y :
  good x → good y → (- p2 900 < num_Q x - num_Q y /\ num_Q x - num_Q y < p2 900)%Q →
  rounds (num_sub x y) (num_Q x - num_Q y).
Proof.
  destruct x as [sx| | |sx mx ex], y as [sy| | |sy my ey]; cbn [good]; try done; intros Hx Hy Hv.
  - cbn [num_sub SFsub]. destruct sx, sy; apply zero_rounds; cbn [num_Q]; ring.
  - eapply rounds_Proper; [|apply (self_rounds (S754_finite (negb sy) my ey)), Hy]. cbn [num_Q]. rewrite sg_negb. ring.
  - eapply rounds_Proper; [|apply (self_rounds (S754_finite sx mx ex)), Hx]. cbn [num_Q]. ring.
  - unfold num_sub, SFsub. set (ez := Z.min ex ey). set (z := (_ - _)%Z).
    assert (Hz : (inject_Z z * p2 ez == num_Q (S754_finite sx mx ex) - num_Q (S754_finite sy my ey))%Q).
    { assert (Hs : ∀ s m e, (ez <= e)%Z → (inject_Z (cond_Zopp s (Z.pos (fst (shl_align m e ez)))) * p2 ez == num_Q (S754_finite s m e))%Q).
      { intros s m e He. cbn [num_Q]. rewrite <- (align_value m e ez He). destruct s; cbn [cond_Zopp sg]; [rewrite inject_Z_opp|]; ring. }
      subst z. unfold Z.sub at 1. rewrite inject_Z_plus, inject_Z_opp, Qmult_plus_distr_l.
      rewrite <- (Hs sx mx ex), <- (Hs sy my ey) by lia. ring. }
    eapply rounds_Proper; [exact Hz|]. apply normalize_rounds. by rewrite Hz.
Qed.

(** ** Quotients *)

Lemma new_location_spec d r q :
  (0 < d)%Z → (0 <= r < d)%Z → (0 <= q)%Z →
  Loc (inject_Z (q * d + r) / inject_Z d) (shr_record_of_loc q (new_location d r)).
Proof.
  intros Hd Hr Hq. assert (Hd' : (0 < inject_Z d)%Q) by (change 0%Q with (inject_Z 0); by rewrite <- Zlt_Qlt).
  set (f := (inject_Z r / inject_Z d)%Q).
  assert (E : (inject_Z (q * d + r) / inject_Z d == inject_Z q + f)%Q).
  { subst f. rewrite inject_Z_plus, inject_Z_mult. field. lra. }
  assert (Hf : (f * inject_Z d == inject_Z r)%Q) by (subst f; field; lra).
  assert (Hcmp : ∀ a b c : Z, (a * r < b * d + c)%Z → (c <= 0)%Z → (inject_Z a * f < inject_Z b)%Q).
  { intros a b c H Hc. apply (Qmult_lt_r _ _ (inject_Z d) Hd'). rewrite <- Qmult_assoc, Hf, <- !inject_Z_mult, <- Zlt_Qlt. lia. }
  assert (Hcmp' : ∀ a b : Z, (b * d < a * r)%Z → (inject_Z b < inject_Z a * f)%Q).
  { intros a b H. apply (Qmult_lt_r _ _ (inject_Z d) Hd'). rewrite <- Qmult_assoc, Hf, <- !inject_Z_mult, <- Zlt_Qlt. lia. }
  assert (H1 : (f < 1)%Q) by (pose proof (Hcmp 1 1 0 ltac:(lia) ltac:(lia))%Z as H; change (inject_Z 1) with 1%Q in H; lra).
  eapply Loc_Proper; [symmetry; exact E|]. unfold new_location, new_location_even, new_location_odd.
  assert (Hz : r = 0%Z → (f == 0)%Q) by (intros ->; subst f; unfold Qdiv; change (inject_Z 0) with 0%Q; ring).
  assert (Hp : r ≠ 0%Z → (0 < f)%Q).
  { intros Hne. pose proof (Hcmp' 1 0 ltac:(lia))%Z as H. change (inject_Z 1) with 1%Q in H. change (inject_Z 0) with 0%Q in H. lra. }
  assert (Hlt : (2 * r < d)%Z → (f < 1 # 2)%Q).
  { intros H. pose proof (Hcmp 2 1 0 ltac:(lia) ltac:(lia))%Z as H'. change (inject_Z 2) with 2%Q in H'. change (inject_Z 1) with 1%Q in H'. lra. }
  assert (Hgt : (d < 2 * r)%Z → (1 # 2 < f)%Q).
  { intros H. pose proof (Hcmp' 2 1 ltac:(lia))%Z as H'. change (inject_Z 2) with 2%Q in H'. change (inject_Z 1) with 1%Q in H'. lra. }
  assert (Heq : (2 * r = d)%Z → (f == 1 # 2)%Q).
  { intros H. subst f. rewrite <- H, inject_Z_mult. change (inject_Z 2) with 2%Q. field.
    assert (0 < inject_Z r)%Q by (change 0%Q with (inject_Z 0); rewrite <- Zlt_Qlt; lia). lra. }
  destruct (Z.even d) eqn:He; destruct (Z.eqb_spec r 0) as [Hr0|Hr0]; try (split; [done|]; cbn; rewrite (Hz Hr0); ring); specialize (Hp Hr0).
  - destruct (Z.compare_spec (2 * r) d) as [H|H|H]; (split; [done|]); cbn;
      [rewrite (Heq H); ring|specialize (Hlt H); split; lra|specialize (Hgt H); split; lra].
  - assert (Hodd : (d mod 2 = 1)%Z) by (rewrite Zmod_even, He; done).
    destruct (Z.compare_spec (2 * r + 1) d) as [H|H|H]; (split; [done|]); cbn;
      [pose proof (Hlt ltac:(lia)); split; lra|pose proof (Hlt ltac:(lia)); split; lra|].
    assert (d < 2 * r)%Z as H'%Hgt by (pose proof (Z.mod_mul r 2); Z.to_euclidean_division_equations; lia). split; lra.
Qed.

Lemma Zpos_Q m : (0 < inject_Z (Z.pos m))%Q.
Proof. change 0%Q with (inject_Z 0). rewrite <- Zlt_Qlt. lia. Qed.

Lemma div_core m1 e1 m2 e2 q e l :
  SFdiv_core_binary prec emax (Z.pos m1) e1 (Z.pos m2) e2 = (q, e, l) →
  Loc (inject_Z (Z.pos m1) * p2 e1 / (inject_Z (Z.pos m2) * p2 e2) * p2 (- e)) (shr_record_of_loc q l)
  ∧ (e <= fexp64 (Zdigits2 q + e))%Z.
Proof.
  unfold SFdiv_core_binary. fold (fexp64 (Zdigits2 (Z.pos m1) + e1 - (Zdigits2 (Z.pos m2) + e2))). cbn [Zdigits2].
  set (D := fexp64 _). set (e' := Z.min D (e1 - e2)).
  assert (Hm : match (e1 - e2 - e')%Z with Z0 => Z.pos m1 | Z.pos _ => Z.shiftl (Z.pos m1) (e1 - e2 - e') | Z.neg _ => 0%Z end
               = (Z.pos m1 * 2 ^ (e1 - e2 - e'))%Z).
  { destruct (e1 - e2 - e')%Z as [|k|k] eqn:Hk; [lia| |lia]. rewrite Z.shiftl_mul_pow2; lia. }
  rewrite Hm. clear Hm. set (n := (Z.pos m1 * 2 ^ (e1 - e2 - e'))%Z).
  pose proof (Z_div_mod n (Z.pos m2) ltac:(lia)) as Hdm. destruct (Z.div_eucl n (Z.pos m2)) as [q' r]. intros [= <- <- <-].
  destruct Hdm as [Hn Hr]. assert (Hn0 : (0 < n)%Z) by (apply Z.mul_pos_pos; [lia|apply Z.pow_pos_nonneg; lia]).
  assert (Hq : (0 <= q')%Z) by nia. split.
  - eapply Loc_Proper; [|apply new_location_spec; [lia|lia|exact Hq]].
    replace (q' * Z.pos m2 + r)%Z with n by lia. subst n. rewrite inject_Z_mult, <- p2_Z by lia.
    replace (e1 - e2 - e')%Z with (e1 + - e2 + - e')%Z by lia. rewrite !p2_add.
    pose proof (Zpos_Q m2). pose proof (p2_pos e2). pose proof (p2_inv e2) as Hi.
    assert (Hi' : (p2 (- e2) == / p2 e2)%Q) by (apply (Qmult_inj_l _ _ (p2 e2)); [lra|rewrite Hi; field; lra]).
    rewrite Hi'. field. split; lra.
  - rewrite fexp64_eq. destruct (Z.le_gt_cases e' (-1074)) as [|Hgt]; [lia|].
    assert (HD : (e' <= Z.pos (digits2_pos m1) + e1 - (Z.pos (digits2_pos m2) + e2) - 53)%Z).
    { subst e'. unfold D in *. rewrite fexp64_eq in *. lia. }
    assert (H52 : (2 ^ 52 <= q')%Z).
    { destruct (digits_pow m1) as [H1 _], (digits_pow m2) as [_ H2].
      assert (Hlow : (2 ^ (52 + Z.pos (digits2_pos m2)) <= n)%Z).
      { subst n. transitivity (2 ^ (Z.pos (digits2_pos m1) - 1) * 2 ^ (e1 - e2 - e'))%Z.
        - rewrite <- Z.pow_add_r by lia. apply Z.pow_le_mono_r; lia.
        - apply Z.mul_le_mono_nonneg_r; [apply Z.pow_nonneg; lia|done]. }
      rewrite Z.pow_add_r in Hlow by lia. nia. }
    destruct q' as [|q'|q']; [lia| |lia]. cbn [Zdigits2]. pose proof (digits_ge q' 52 H52 ltac:(lia)). lia.
Qed.

Definition finite_pos (x : num) : Prop := match x with S754_finite false _ _ => True | _ => False end.

Lemma div_rounds x y :
  finite_pos x → finite_pos y → (num_Q x / num_Q y < p2 900)%Q → rounds (num_div x y) (num_Q x / num_Q y).
Proof.
  destruct x as [| | |[] m1 e1], y as [| | |[] m2 e2]; try done. intros _ _ Hv. unfold num_div, SFdiv.
  destruct (SFdiv_core_binary _ _ _ _ _ _) as [[q e] l] eqn:E. apply div_core in E as [HL He].
  by apply (aux_rounds false).
Qed.

Lemma div_rounds_signed x y :
  num_is_finite x = true → finite_pos y → (- p2 900 < num_Q x / num_Q y /\ num_Q x / num_Q y < p2 900)%Q →
  rounds (num_div x y) (num_Q x / num_Q y).
Proof.
  destruct y as [| | |[] m2 e2]; try done. destruct x as [s| | |s m1 e1]; try done; intros _ _ Hv.
  - cbn [num_Q num_div SFdiv]. apply zero_rounds. unfold Qdiv. ring.
  - assert (E : (num_Q (S754_finite s m1 e1) / num_Q (S754_finite false m2 e2)
              == sg s (inject_Z (Z.pos m1) * p2 e1 / (inject_Z (Z.pos m2) * p2 e2)))%Q).
    { pose proof (Zpos_Q m2). pose proof (p2_pos e2). cbn [num_Q sg]. destruct s; cbn [sg]; field; split; lra. }
    rewrite E in Hv |- *. unfold num_div, SFdiv. destruct (SFdiv_core_binary _ _ _ _ _ _) as [[q e] l] eqn:Ed. apply div_core in Ed as [HL He].
    rewrite xorb_false_r. apply aux_rounds; [done|done|]. by apply sg_lt in Hv.
Qed.

(** The result depends on the exact quotient only. *)
Lemma aux_unique s mx ex lx mx' ex' lx' v :
  Loc (v * p2 (- ex)) (shr_record_of_loc mx lx) → (ex <= fexp64 (Zdigits2 mx + ex))%Z → (0 < mx)%Z →
  Loc (v * p2 (- ex')) (shr_record_of_loc mx' lx') → (ex' <= fexp64 (Zdigits2 mx' + ex'))%Z → (0 < mx')%Z →
  (v < p2 900)%Q →
  binary_round_aux prec emax s mx ex lx = binary_round_aux prec emax s mx' ex' lx'.
Proof.
  intros HL He Hm HL' He' Hm' Hv. pose proof (E_bound mx ex lx v HL He 900 Hv). pose proof (E_bound mx' ex' lx' v HL' He' 900 Hv).
  rewrite (aux_pack s mx ex lx v), (aux_pack s mx' ex' lx' v) by (done || lia).
  assert (HE : (Zdigits2 mx + ex = Zdigits2 mx' + ex')%Z).
  { pose proof (digits_place mx ex lx v HL He Hm) as [H1 H2]. pose proof (digits_place mx' ex' lx' v HL' He' Hm') as [H3 H4].
    pose proof (p2_lt_inv (Zdigits2 mx + ex - 1) (Zdigits2 mx' + ex') ltac:(lra)).
    pose proof (p2_lt_inv (Zdigits2 mx' + ex' - 1) (Zdigits2 mx + ex) ltac:(lra)). lia. }
  pose proof (r_loc mx ex lx v HL He) as Hr. pose proof (r_loc mx' ex' lx' v HL' He') as Hr'.
  rewrite <- HE in Hr'. rewrite <- HE. by rewrite (Loc_inj _ _ _ Hr Hr').
Qed.

Lemma div_unique x y x' y' :
  finite_pos x → finite_pos y → finite_pos x' → finite_pos y' → (num_Q x / num_Q y == num_Q x' / num_Q y')%Q →
  (p2 (-1000) <= num_Q x / num_Q y /\ num_Q x / num_Q y < p2 900)%Q →
  num_div x y = num_div x' y'.
Proof.
  destruct x as [| | |[] m1 e1], y as [| | |[] m2 e2], x' as [| | |[] m3 e3], y' as [| | |[] m4 e4]; try done.
  intros _ _ _ _ HQ [Hlo Hv]. unfold num_div, SFdiv.
  destruct (SFdiv_core_binary _ _ (Z.pos m1) _ _ _) as [[q e] l] eqn:E. destruct (SFdiv_core_binary _ _ (Z.pos m3) _ _ _) as [[q' e'] l'] eqn:E'.
  apply div_core in E as [HL He], E' as [HL' He']. cbn [num_Q sg xorb] in *.
  set (v := (_ / _)%Q) in HQ, HL, Hlo, Hv. set (v' := (_ / _)%Q) in HQ, HL'.
  assert (Hpos : ∀ q e l w, Loc (w * p2 (- e)) (shr_record_of_loc q l) → (e <= fexp64 (Zdigits2 q + e))%Z → (p2 (-1000) <= w)%Q → (0 < q)%Z).
  { clear. intros q e l w HL He Hw. pose proof (mx_nonneg q e l w HL). destruct (decide (q = 0)%Z) as [->|]; [exfalso|lia].
    destruct (v_bounds 0 e l w HL) as [_ H2]. cbn [Zdigits2] in He. rewrite fexp64_eq in He.
    assert (p2 (-1000) < p2 e)%Q as ?%p2_lt_inv by (change (inject_Z (0 + 1)) with 1%Q in H2; lra). lia. }
  apply (aux_unique false _ _ _ _ _ _ v); [done|done|by eapply Hpos| |done| |done].
  - eapply Loc_Proper; [|exact HL']. by rewrite HQ.
  - eapply Hpos; [exact HL'|done|]. by rewrite <- HQ.
Qed.

(** ** Integers *)

Lemma num_of_Z_rounds z : (Z.abs z < 2 ^ 60)%Z → rounds (num_of_Z z) (inject_Z z).
Proof.
  intros Hz. eapply rounds_Proper; [|apply (normalize_rounds z 0)]; rewrite p2_0, Qmult_1_r; [done|].
  assert (Hb : (inject_Z (2 ^ 60) < p2 900)%Q) by (rewrite <- p2_Z by done; by apply p2_lt).
  assert (H : (- inject_Z (2 ^ 60) < inject_Z z /\ inject_Z z < inject_Z (2 ^ 60))%Q).
  { rewrite <- inject_Z_opp, <- !Zlt_Qlt. lia. }
  split; lra.
Qed.

(** An integer below [2 ^ 53] is represented exactly. *)
Lemma num_of_Z_Q z : safe z → (num_Q (num_of_Z z) == inject_Z z)%Q.
Proof.
  intros Hz. destruct (Z_signed z) as [->|(s & m & ->)]; [done|]. rewrite num_of_signed by done.
  pose proof (safe_digits s m Hz). cbn [num_Q canon]. rewrite shl_Z, Z2Nat.id by lia.
  set (d := Z.pos (digits2_pos m)) in *. rewrite inject_Z_mult, <- p2_Z by lia.
  rewrite <- Qmult_assoc, <- p2_add. replace (53 - d + (d - 53))%Z with 0%Z by lia. rewrite p2_0, Qmult_1_r.
  destruct s; cbn [sg signed cond_Zopp]; [by rewrite <- inject_Z_opp|done].
Qed.

Lemma num_of_Z_good z : safe z → good (num_of_Z z).
Proof. intros Hz. apply (rounds_good _ (inject_Z z)), num_of_Z_rounds. unfold safe in Hz. lia. Qed.

(** [Math.round] of a number near an integer. *)
Lemma round_near x n d :
  good x → (1 <= n < 2 ^ 40)%Z → (d < 1 # 2)%Q → within d (inject_Z n) (num_Q x) → Math_round x = num_of_Z n.
Proof.
  intros Hg Hn Hd [H1 H2]. assert (Hn1 : (1 <= inject_Z n)%Q) by (change 1%Q with (inject_Z 1); rewrite <- Zle_Qle; lia).
  assert (Hn2 : (inject_Z n + 1 <= p2 41)%Q).
  { rewrite p2_Z by done. change 1%Q with (inject_Z 1). rewrite <- inject_Z_plus, <- Zle_Qle. lia. }
  destruct x as [| | |s m e]; cbn [num_Q good] in *; [lra|done|done|]. pose proof (p2_pos e). pose proof (Zpos_Q m).
  destruct s; cbn [sg] in *; [nra|]. destruct Hg as (He & Hm & Hc).
  assert (Hneg : (e < 0)%Z).
  { destruct Hc as [->|Hc]; [lia|]. assert (52 + e < 41)%Z; [|lia]. apply p2_lt_inv. rewrite p2_add.
    eapply Qle_lt_trans; [|apply (Qlt_le_trans _ (inject_Z n + 1)); [|exact Hn2]].
    - apply Qmult_le_compat_r; [|lra]. rewrite p2_Z by done. rewrite <- Zle_Qle. exact Hc.
    - lra. }
  unfold Math_round. rewrite (proj2 (Z.leb_gt _ _)) by done. set (k := (2 ^ (- e))%Z).
  assert (Hk : (0 < k)%Z) by (apply Z.pow_pos_nonneg; lia).
  assert (HkQ : (inject_Z k * p2 e == 1)%Q) by (subst k; rewrite <- p2_Z by lia; rewrite Qmult_comm; apply p2_inv).
  assert (Hdiv : ((2 * Z.pos m + k) / (2 * k) = n)%Z).
  { assert (Hlo : (2 * n * k <= 2 * Z.pos m + k)%Z).
    { rewrite Zle_Qle, inject_Z_plus, !inject_Z_mult. change (inject_Z 2) with 2%Q.
      apply (Qmult_le_r _ _ (p2 e)); [done|]. rewrite Qmult_plus_distr_l, HkQ, <- !Qmult_assoc, HkQ. lra. }
    assert (Hhi : (2 * Z.pos m + k < 2 * n * k + 2 * k)%Z).
    { rewrite Zlt_Qlt, !inject_Z_plus, !inject_Z_mult. change (inject_Z 2) with 2%Q.
      apply (Qmult_lt_r _ _ (p2 e)); [done|]. rewrite !Qmult_plus_distr_l, HkQ, <- !Qmult_assoc, HkQ. lra. }
    symmetry. apply (Z.div_unique_pos _ _ _ (2 * Z.pos m + k - 2 * k * n)); lia. }
  rewrite Hdiv. by rewrite (proj2 (Z.eqb_neq _ _)) by lia.
Qed.

(** ** Comparison *)

Lemma finite_order s m e s' m' e' :
  good (S754_finite s m e) → good (S754_finite s' m' e') → (e < e')%Z →
  (inject_Z (Z.pos m) * p2 e < inject_Z (Z.pos m') * p2 e')%Q.
Proof.
  cbn [good]. intros (H1 & H2 & H3) (H4 & H5 & H6) He. assert (Hm' : (2 ^ 52 <= Z.pos m')%Z) by lia.
  apply (Qlt_le_trans _ (p2 (53 + e))).
  - rewrite p2_add. apply Qmult_lt_compat_r; [apply p2_pos|]. rewrite p2_Z by done. by rewrite <- Zlt_Qlt.
  - apply (Qle_trans _ (p2 (52 + e'))); [apply p2_le; lia|]. rewrite p2_add.
    apply Qmult_le_compat_r; [|pose proof (p2_pos e'); lra]. rewrite p2_Z by done. by rewrite <- Zle_Qle.
Qed.

Lemma mantissa_order m m' e : (m < m')%positive → (inject_Z (Z.pos m) * p2 e < inject_Z (Z.pos m') * p2 e)%Q.
Proof. intros H. apply Qmult_lt_compat_r; [apply p2_pos|]. by rewrite <- Zlt_Qlt. Qed.

Lemma SFcompare_Q x y : good x → good y → SFcompare x y = Some (Qcompare (num_Q x) (num_Q y)).
Proof.
  assert (HP : ∀ m e, (0 < inject_Z (Z.pos m) * p2 e)%Q) by (intros; apply Qmult_lt_0_compat; [apply Zpos_Q|apply p2_pos]).
  assert (Hlt : ∀ a b, (a < b)%Q → Qcompare a b = Lt) by (intros; by apply Qlt_alt).
  assert (Hgt : ∀ a b, (b < a)%Q → Qcompare a b = Gt) by (intros; by apply Qgt_alt).
  destruct x as [sx| | |sx m e], y as [sy| | |sy m' e']; intros Hx Hy; try done; cbn [SFcompare num_Q]; f_equal.
  - specialize (HP m' e'). destruct sy; cbn [sg]; symmetry; [apply Hgt|apply Hlt]; lra.
  - specialize (HP m e). destruct sx; cbn [sg]; symmetry; [apply Hlt|apply Hgt]; lra.
  - pose proof (HP m e). pose proof (HP m' e'). destruct sx, sy; cbn [sg]; symmetry; try (apply Hlt; lra); try (apply Hgt; lra);
      destruct (Z.compare_spec e e') as [->|He|He]; try (pose proof (finite_order _ _ _ _ _ _ Hx Hy He); (apply Hlt; lra) || (apply Hgt; lra));
      try (pose proof (finite_order _ _ _ _ _ _ Hy Hx He); (apply Hlt; lra) || (apply Hgt; lra)).
    all: fold (Pos.compare m m'); destruct (Pos.compare_spec m m') as [->|Hm|Hm]; cbn [CompOpp];
      [apply Qeq_alt; reflexivity| |]; pose proof (mantissa_order _ _ e' Hm); (apply Hlt; lra) || (apply Hgt; lra).
Qed.

Lemma ltb_Q x y : good x → good y → num_ltb x y = true ↔ (num_Q x < num_Q y)%Q.
Proof.
  intros Hx Hy. unfold num_ltb, SFltb. rewrite SFcompare_Q by done. rewrite Qlt_alt.
  by destruct (Qcompare (num_Q x) (num_Q y)).
Qed.

Lemma eqb_Q x y : good x → good y → num_eqb x y = true ↔ (num_Q x == num_Q y)%Q.
Proof.
  intros Hx Hy. unfold num_eqb, SFeqb. rewrite SFcompare_Q by done. rewrite Qeq_alt.
  by destruct (Qcompare (num_Q x) (num_Q y)).
Qed.

Lemma leb_Q x y : good x → good y → num_leb x y = true ↔ (num_Q x <= num_Q y)%Q.
Proof.
  intros Hx Hy. unfold num_leb, SFleb. rewrite SFcompare_Q by done. rewrite Qle_alt.
  by destruct (Qcompare (num_Q x) (num_Q y)).
Qed.

Lemma ltb_Q_false x y : good x → good y → num_ltb x y = false ↔ (num_Q y <= num_Q x)%Q.
Proof. intros Hx Hy. rewrite <- not_true_iff_false, ltb_Q by done. split; lra. Qed.

(** On integers. *)
Section ints.
Context (a b : Z) (Ha : safe a) (Hb : safe b).

Lemma int_ltb : num_ltb (num_of_Z a) (num_of_Z b) = (a <? b)%Z.
Proof. apply eq_true_iff_eq. rewrite ltb_Q, !num_of_Z_Q, <- Zlt_Qlt by (done || by apply num_of_Z_good). lia. Qed.

Lemma int_leb : num_leb (num_of_Z a) (num_of_Z b) = (a <=? b)%Z.
Proof. apply eq_true_iff_eq. rewrite leb_Q, !num_of_Z_Q, <- Zle_Qle by (done || by apply num_of_Z_good). lia. Qed.

Lemma int_eqb : num_eqb (num_of_Z a) (num_of_Z b) = (a =? b)%Z.
Proof. apply eq_true_iff_eq. rewrite eqb_Q, !num_of_Z_Q, inject_Z_injective by (done || by apply num_of_Z_good). lia. Qed.
End ints.

(** Products of integers are exact. *)
Lemma num_mul_Z a b : (0 < a < 2 ^ 53)%Z → (0 < b < 2 ^ 53)%Z → (a * b < 2 ^ 53)%Z →
  num_mul (num_of_Z a) (num_of_Z b) = num_of_Z (a * b).
Proof.
  intros Ha Hb Hab. assert (Sa : safe a) by (unfold safe; lia). assert (Sb : safe b) by (unfold safe; lia).
  pose proof (num_of_Z_Q a Sa) as Qa. pose proof (num_of_Z_Q b Sb) as Qb. pose proof (num_of_Z_good a Sa) as Ga. pose proof (num_of_Z_good b Sb) as Gb.
  destruct a as [|ma|ma]; [lia| |lia]. destruct b as [|mb|mb]; [lia| |lia].
  rewrite (num_of_Z_pos ma Sa) in *. rewrite (num_of_Z_pos mb Sb) in *. unfold canon in *.
  set (x := shl _ ma) in *. set (ex := (_ - 53)%Z) in *. set (y := shl _ mb) in *. set (ey := (Z.pos (digits2_pos mb) - 53)%Z) in *.
  cbn [num_Q sg] in Qa, Qb. change (num_mul _ _) with (binary_round_aux prec emax false (Z.pos (x * y)) (ex + ey) loc_Exact).
  change (Z.pos ma * Z.pos mb)%Z with (Z.pos (ma * mb)). unfold num_of_Z. cbn [binary_normalize].
  destruct (binary_round_place false (ma * mb) 0) as (mz & ez & -> & HQ & He). rewrite p2_0, Qmult_1_r in HQ.
  assert (Hx : (inject_Z (Z.pos (x * y)) * p2 (ex + ey) == inject_Z (Z.pos (ma * mb)))%Q).
  { rewrite <- mul_value, Qa, Qb, Pos2Z.inj_mul, inject_Z_mult. done. }
  apply (aux_unique false _ _ _ _ _ _ (inject_Z (Z.pos (ma * mb)))); [by apply exact_loc|by apply mul_place|lia|by apply exact_loc|done|lia|].
  apply (Qlt_trans _ (p2 53)); [|by apply p2_lt]. rewrite p2_Z by done. rewrite <- Zlt_Qlt. lia.
Qed.

End NumRound.
