(* ===== verification/NumPrint.v ===== *)
(** * Printed numbers read back

    [String(x)] prints the shortest decimal that reads back as [x]. For a number
    that is a short decimal, rounded, the search succeeds, and the layout of its
    digits is read as the number it was printed from: integers below [2 ^ 53] and
    amounts in cents survive [JSON.stringify] and [JSON.parse]. *)

From S2P Require Import Prelude JsNum IntNum Json NumText.
From Stdlib Require Import Floats.SpecFloat.

Module NumPrint.

(** ** Digits *)

Lemma parse_digits_app a b : parse_digits (a ++ b) = (parse_digits a * 10 ^ N.of_nat (length b) + parse_digits b)%N.
Proof.
  unfold parse_digits. rewrite foldl_app. generalize (foldl (fun acc c : N => (10 * acc + (c - 48))%N) 0%N a).
  induction b as [|c b IH] using rev_ind; intros x; [cbn; lia|].
  rewrite !foldl_app, IH, length_app. cbn [foldl length].
  rewrite Nat2N.inj_add, N.pow_add_r. change (10 ^ N.of_nat 1)%N with 10%N. lia.
Qed.

Lemma parse_zeros n : parse_digits (replicate n 48%N) = 0%N.
Proof. induction n as [|n IH]; [done|]. by rewrite replicate_S_end, parse_digits_app, IH. Qed.

Lemma parse_digits_lt ds : Forall (fun c => is_digit c = true) ds → (parse_digits ds < 10 ^ N.of_nat (length ds))%N.
Proof.
  induction ds as [|c ds IH] using rev_ind; [done|]. intros [Hd Hc]%Forall_app. apply Forall_cons in Hc as [Hc _]. specialize (IH Hd).
  rewrite parse_digits_app, length_app. cbn [length]. rewrite Nat2N.inj_add, N.pow_add_r.
  change (10 ^ N.of_nat 1)%N with 10%N. change (parse_digits [c]) with (c - 48)%N. unfold is_digit in Hc. lia.
Qed.

Lemma digits_aux_head fuel n acc :
  (0 < n < 2 ^ N.of_nat fuel)%N → ∃ c ds, digits_aux fuel n acc = c :: ds ∧ (48 < c)%N.
Proof.
  revert n acc. induction fuel as [|fuel IH]; intros n acc Hn; [cbn in Hn; lia|]. cbn [digits_aux].
  destruct (N.eqb_spec (n / 10) 0) as [Hq|Hq].
  - eexists _, _. split; [reflexivity|]. pose proof (N.div_mod n 10 ltac:(lia)). lia.
  - apply IH. rewrite Nat2N.inj_succ, N.pow_succ_r' in Hn. split; [lia|]. apply N.Div0.div_lt_upper_bound. lia.
Qed.

Lemma print_N_head n : (0 < n)%N → ∃ c ds, print_N n = c :: ds ∧ (48 < c)%N.
Proof. intros Hn. apply digits_aux_head. split; [done|apply N_lt_pow2_size]. Qed.

Lemma print_N_length n k : (0 < k)%nat → (10 ^ N.of_nat (k - 1) <= n < 10 ^ N.of_nat k)%N → length (print_N n) = k.
Proof.
  intros Hk Hn. destruct (print_N_spec n) as (Hp & Hd & _). pose proof (parse_digits_lt _ Hd) as Hlt. rewrite Hp in Hlt.
  assert (H0 : (0 < 10 ^ N.of_nat (k - 1))%N) by (apply N.neq_0_lt_0, N.pow_nonzero; lia).
  destruct (print_N_head n) as (c & ds & E & Hc); [lia|].
  assert (Hge : (10 ^ N.of_nat (length ds) <= n)%N).
  { rewrite <- Hp, E. change (c :: ds) with ([c] ++ ds). rewrite parse_digits_app. change (parse_digits [c]) with (c - 48)%N. nia. }
  rewrite E in Hlt |- *. cbn [length] in *.
  destruct (Nat.lt_trichotomy (S (length ds)) k) as [H|[H|H]]; [exfalso|done|exfalso].
  - assert (10 ^ N.of_nat (S (length ds)) <= 10 ^ N.of_nat (k - 1))%N by (apply N.pow_le_mono_r; lia). lia.
  - assert (10 ^ N.of_nat k <= 10 ^ N.of_nat (length ds))%N by (apply N.pow_le_mono_r; lia). lia.
Qed.

Lemma digit_count_spec z : (0 < z)%Z → (1 <= digit_count z)%Z ∧ (10 ^ (digit_count z - 1) <= z < 10 ^ digit_count z)%Z.
Proof.
  intros Hz. unfold digit_count. rewrite (proj2 (Z.leb_gt _ _)) by done. set (n := Z.to_N z).
  destruct (print_N_spec n) as (Hp & Hd & _). pose proof (parse_digits_lt _ Hd) as Hlt. rewrite Hp in Hlt.
  destruct (print_N_head n) as (c & ds & E & Hc); [lia|].
  assert (Hge : (10 ^ N.of_nat (length ds) <= n)%N).
  { rewrite <- Hp, E. change (c :: ds) with ([c] ++ ds). rewrite parse_digits_app. change (parse_digits [c]) with (c - 48)%N. nia. }
  rewrite E in *. cbn [length] in *. split; [lia|].
  replace (Z.of_nat (S (length ds)) - 1)%Z with (Z.of_N (N.of_nat (length ds))) by lia.
  replace (Z.of_nat (S (length ds))) with (Z.of_N (N.of_nat (S (length ds)))) by lia.
  change 10%Z with (Z.of_N 10). rewrite <- !N2Z.inj_pow. lia.
Qed.

(** ** Reading the three layouts without an exponent *)

Lemma take_digits_all ds rest :
  Forall (fun c => is_digit c = true) ds → match rest with c :: _ => is_digit c = false | [] => True end →
  take_digits (ds ++ rest) = (ds, rest).
Proof.
  intros Hd Hr. apply (take_digits_app ds ds [] rest); [|by right].
  induction Hd as [|c ds Hc Hd IH]; [done|]. cbn [take_digits]. by rewrite Hc, IH.
Qed.

(** Digits that do not start with a superfluous zero, with or without a fraction. *)
Lemma parse_plain ints frac :
  Forall (fun c => is_digit c = true) (ints ++ frac) → ints ≠ [] → (∀ c t, ints ≠ 48%N :: c :: t) →
  parse_number (ints ++ (if nonempty frac then 46%N :: frac else [])) = Some (num_of_dec false (parse_digits (ints ++ frac)) (- Z.of_nat (length frac)), []).
Proof.
  intros [Hi Hf]%Forall_app Hne Hz. unfold parse_number.
  assert (Hs : match ints ++ (if nonempty frac then 46%N :: frac else []) with 45%N :: s1 => (true, s1) | _ => (false, ints ++ (if nonempty frac then 46%N :: frac else [])) end
               = (false, ints ++ (if nonempty frac then 46%N :: frac else []))).
  { destruct ints as [|c ints]; [done|]. apply Forall_cons in Hi as [Hc _]. cbn [app]. unfold is_digit in Hc.
    destruct (decide (c = 45%N)) as [->|]; [done|]. repeat (case_match; try done; try lia). }
  rewrite Hs. rewrite take_digits_all; [|done|by destruct frac].
  rewrite (proj2 (negb_false_iff _)) by by destruct ints.
  assert (Hm : ∀ X : option (num * jsstr), match ints with 48%N :: _ :: _ => None | _ => X end = X).
  { intros X. destruct ints as [|c [|d t]]; [done| |].
    - repeat case_match; done.
    - destruct (decide (c = 48%N)) as [->|]; [by destruct (Hz d t)|]. repeat (case_match; try done; try lia). }
  rewrite Hm. destruct frac as [|f frac]; cbn [nonempty].
  - cbn [parse_frac parse_exp]. rewrite app_nil_r. done.
  - cbn [parse_frac]. assert (Ht : take_digits (f :: frac) = (f :: frac, [])).
    { rewrite <- (app_nil_r (f :: frac)) at 1. by apply take_digits_all. }
    rewrite Ht. cbn [nonempty parse_exp]. done.
Qed.

Lemma num_of_dec_scale s j : (0 < s)%N → (0 <= j)%Z → num_of_dec false (s * 10 ^ Z.to_N j) 0 = num_of_dec false s j.
Proof.
  intros Hs Hj. destruct s as [|p]; [lia|]. unfold num_of_dec. cbn [Z.leb Z.compare]. rewrite (proj2 (Z.leb_le _ _)) by done.
  destruct (N.pos p * 10 ^ Z.to_N j)%N as [|q] eqn:E.
  { assert (10 ^ Z.to_N j ≠ 0)%N by (apply N.pow_nonzero; lia). nia. }
  f_equal. f_equal. change (Z.to_pos (10 ^ 0)) with 1%positive. rewrite Pos.mul_1_r.
  assert (HZ : Z.pos q = (Z.pos p * 10 ^ j)%Z).
  { change (Z.pos q) with (Z.of_N (N.pos q)). rewrite <- E, N2Z.inj_mul, N2Z.inj_pow, Z2N.id by done. done. }
  assert (Hp : (0 < 10 ^ j)%Z) by (apply Z.pow_pos_nonneg; lia). apply Pos2Z.inj. rewrite HZ, Pos2Z.inj_mul, Z2Pos.id by done. done.
Qed.

Lemma layout_back s k n :
  (0 < s)%N → length (print_N s) = k → (-6 < n <= 21)%Z →
  parse_number (format_digits (print_N s) (Z.of_nat k) n) = Some (num_of_dec false s (n - Z.of_nat k), []).
Proof.
  intros Hs Hk Hn. destruct (print_N_spec s) as (Hp & Hd & Hne). destruct (print_N_head s Hs) as (c & t & E & Hc).
  unfold format_digits. rewrite (proj2 (Z.leb_le n 21)), andb_true_r by lia. destruct (Z.leb_spec (Z.of_nat k) n) as [Hkn|Hkn].
  - pose proof (parse_plain (print_N s ++ replicate (Z.to_nat (n - Z.of_nat k)) 48%N) []) as HP. cbn [nonempty length] in HP.
    rewrite !app_nil_r in HP. rewrite HP.
    + rewrite parse_digits_app, parse_zeros, Hp, length_replicate, N.add_0_r. cbn [Z.opp].
      replace (N.of_nat (Z.to_nat (n - Z.of_nat k))) with (Z.to_N (n - Z.of_nat k)) by lia. rewrite num_of_dec_scale by lia. done.
    + apply Forall_app. split; [done|]. by apply Forall_replicate.
    + by destruct (print_N s).
    + intros c' t'. rewrite E. intros [= ->]. lia.
  - rewrite andb_true_r. destruct (Z.ltb_spec 0 n) as [H0|H0].
    + set (j := Z.to_nat n). assert (Hj : (0 < j < k)%nat) by lia.
      assert (Hlen : length (drop j (print_N s)) = (k - j)%nat) by (rewrite length_drop; lia).
      pose proof (parse_plain (take j (print_N s)) (drop j (print_N s))) as HP. rewrite take_drop in HP.
      assert (Hnf : nonempty (drop j (print_N s)) = true) by (destruct (drop j (print_N s)); [cbn in Hlen; lia|done]).
      rewrite Hnf in HP. rewrite HP; [|done| |].
      * rewrite Hp, Hlen. repeat f_equal. lia.
      * rewrite E. destruct j; [lia|done].
      * intros c' t'. rewrite E. destruct j; [lia|]. cbn [take]. intros [= ->]. lia.
    + rewrite (proj2 (Z.ltb_lt _ _)), (proj2 (Z.leb_le n 0)) by lia. cbn [andb].
      set (z := Z.to_nat (- n)). pose proof (parse_plain [48%N] (replicate z 48%N ++ print_N s)) as HP.
      assert (Hnf : nonempty (replicate z 48%N ++ print_N s) = true) by (rewrite E; by destruct z).
      rewrite Hnf in HP. change ([48%N; 46%N] ++ replicate z 48%N ++ print_N s) with ([48%N] ++ 46%N :: replicate z 48%N ++ print_N s). rewrite HP; [|..].
      * rewrite parse_digits_app, (parse_digits_app (replicate z 48%N)), parse_zeros, Hp. change (parse_digits [48%N]) with 0%N.
        rewrite !N.mul_0_l, !N.add_0_l, length_app, length_replicate, Hk. repeat f_equal. lia.
      * constructor; [done|]. apply Forall_app. split; [by apply Forall_replicate|done].
      * done.
      * done.
Qed.

(** ** The search *)

(** [10 ^ (n - 1) <= a / b < 10 ^ n], scaled by [10 ^ t]. *)
Lemma decimal_point_spec a b t : (0 < a)%Z → (0 < b)%Z → let n := decimal_point a b in
  (0 <= t)%Z → (1 <= t + n)%Z → (b * 10 ^ (t + n - 1) <= a * 10 ^ t < b * 10 ^ (t + n))%Z.
Proof.
  intros Ha Hb n Ht Hn. assert (Hp : ∀ k, (0 <= k → 0 < 10 ^ k)%Z) by (intros; apply Z.pow_pos_nonneg; lia).
  unfold n, decimal_point in *. destruct (Z.leb_spec b a) as [Hab|Hab].
  - destruct (digit_count_spec (a / b)) as [H1 H2]; [by apply Z.div_str_pos|]. set (D := digit_count (a / b)) in *.
    pose proof (Z.mul_div_le a b Hb). pose proof (Z.mul_succ_div_gt a b Hb).
    replace (t + D - 1)%Z with (D - 1 + t)%Z by lia. rewrite (Z.add_comm t D), !Z.pow_add_r, !Z.mul_assoc by lia.
    specialize (Hp t Ht). assert (H3 : (b * 10 ^ (D - 1) <= a)%Z) by nia. assert (H4 : (a < b * 10 ^ D)%Z) by nia.
    split; [by apply Z.mul_le_mono_pos_r|by apply Z.mul_lt_mono_pos_r].
  - set (T := ((b + a - 1) / a - 1)%Z) in *. assert (HT : (T * a < b <= (T + 1) * a)%Z).
    { pose proof (Z.mul_div_le (b + a - 1) a Ha). pose proof (Z.mul_succ_div_gt (b + a - 1) a Ha). subst T. nia. }
    assert (HT1 : (0 < T)%Z) by nia. destruct (digit_count_spec T HT1) as [H1 H2]. set (D := digit_count T) in *.
    replace (t + (1 - D) - 1)%Z with (t - D)%Z by lia. pose proof (Hp (t - D) ltac:(lia))%Z as Hp1.
    assert (E1 : (10 ^ t = 10 ^ D * 10 ^ (t - D))%Z) by (rewrite <- Z.pow_add_r by lia; f_equal; lia).
    assert (E2 : (10 ^ (t + (1 - D)) = 10 * 10 ^ (t - D))%Z).
    { replace (t + (1 - D))%Z with (1 + (t - D))%Z by lia. by rewrite Z.pow_add_r by lia. }
    assert (E3 : (10 ^ D = 10 * 10 ^ (D - 1))%Z) by (replace D with (1 + (D - 1))%Z at 1 by lia; by rewrite Z.pow_add_r by lia).
    rewrite E2. split; [rewrite E1; nia|]. rewrite E1, E3.
    assert (a * 10 ^ (D - 1) < b)%Z by nia. nia.
Qed.

Section search.
Context (a b : Z) (Ha : (0 < a)%Z) (Hb : (0 < b)%Z).
Let n := decimal_point a b.

(** A candidate has the digits it was asked for. *)
Lemma candidate_digits k s n' : (1 <= k)%Z → (s, n') ∈ candidates a b n k →
  (10 ^ (k - 1) <= Z.of_N s < 10 ^ k)%Z ∧ (n' = n ∨ n' = n + 1)%Z.
Proof.
  intros Hk. unfold candidates.
  set (pq := if (n <=? k)%Z then _ else _). assert (Hpq : (0 < pq.2)%Z ∧ (pq.2 * 10 ^ (k - 1) <= pq.1 < pq.2 * 10 ^ k)%Z).
  { subst pq. destruct (Z.leb_spec n k) as [Hnk|Hnk]; cbn [fst snd].
    - split; [done|]. pose proof (decimal_point_spec a b (k - n) Ha Hb ltac:(lia)) as H. fold n in H.
      specialize (H ltac:(lia)). replace (k - n + n - 1)%Z with (k - 1)%Z in H by lia. by replace (k - n + n)%Z with k in H by lia.
    - split; [apply Z.mul_pos_pos; [done|apply Z.pow_pos_nonneg; lia]|].
      pose proof (decimal_point_spec a b 0 Ha Hb ltac:(lia)) as H. fold n in H. specialize (H ltac:(lia)).
      rewrite Z.pow_0_r, Z.mul_1_r, !Z.add_0_l in H. rewrite <- !Z.mul_assoc, <- !Z.pow_add_r by lia.
      replace (n - k + (k - 1))%Z with (n - 1)%Z by lia. by replace (n - k + k)%Z with n by lia. }
  destruct pq as [p q]; cbn [fst snd] in Hpq. destruct Hpq as [Hq Hpq].
  assert (Hf : (10 ^ (k - 1) <= p / q < 10 ^ k)%Z).
  { split; [apply Z.div_le_lower_bound; lia|apply Z.div_lt_upper_bound; lia]. }
  assert (Hp1 : (1 <= 10 ^ (k - 1))%Z) by (apply (Z.pow_le_mono_r 10 0 (k - 1)); lia).
  assert (Hp2 : (10 ^ (k - 1) < 10 ^ k)%Z) by (apply Z.pow_lt_mono_r; lia).
  intros Hin. rewrite list_elem_of_fmap in Hin. destruct Hin as (f & Heq & Hin).
  assert (Hf' : (f = p / q ∨ f = p / q + 1)%Z) by (destruct (_ <=? q)%Z; set_solver).
  destruct (Z.ltb_spec f (10 ^ k)) as [Hlt|Hge]; injection Heq as -> ->; rewrite Z2N.id by lia; lia.
Qed.

Lemma shortest_ok fuel x k :
  (1 <= k)%Z →
  (∃ j s n', (k <= j <= k + Z.of_nat fuel)%Z ∧ (s, n') ∈ candidates a b n j ∧ num_of_dec false s (n' - j) = x) →
  let '(s, k', n') := shortest fuel x a b n k in
  (1 <= k')%Z ∧ (s, n') ∈ candidates a b n k' ∧ num_of_dec false s (n' - k') = x.
Proof.
  revert k. induction fuel as [|fuel IH]; intros k Hk (j & s & n' & Hj & Hin & Hx); cbn [shortest];
    destruct (List.find _ (candidates a b n k)) as [[s0 n0]|] eqn:Hfind.
  1,3: apply List.find_some in Hfind as [Hi Hs]; apply bool_decide_eq_true in Hs; rewrite <- list_elem_of_In in Hi; done.
  - replace j with k in * by lia. rewrite list_elem_of_In in Hin.
    eapply List.find_none in Hfind; [|exact Hin]. apply bool_decide_eq_false in Hfind. by destruct Hfind.
  - apply IH; [lia|]. exists j, s, n'. split; [|done]. destruct (decide (j = k)) as [->|]; [|lia].
    rewrite list_elem_of_In in Hin. eapply List.find_none in Hfind; [|exact Hin]. apply bool_decide_eq_false in Hfind. by destruct Hfind.
Qed.

(** A decimal next to [a / b] is among the candidates. *)
Lemma candidate_near N j :
  (0 <= j)%Z → (Z.abs (a * 10 ^ j - Z.of_N N * b) < b)%Z → (Z.of_N N < 10 ^ (n + j))%Z → (N, n) ∈ candidates a b n (n + j).
Proof.
  intros Hj Hd HN. unfold candidates. rewrite (proj2 (Z.leb_le _ _)) by lia. replace (n + j - n)%Z with j by lia.
  set (p := (a * 10 ^ j)%Z) in *. assert (Hf : (Z.of_N N = p / b ∨ Z.of_N N = p / b + 1)%Z).
  { pose proof (Z.mul_div_le p b Hb). pose proof (Z.mul_succ_div_gt p b Hb). nia. }
  rewrite list_elem_of_fmap. exists (Z.of_N N). rewrite (proj2 (Z.ltb_lt _ _)) by done. split; [by rewrite N2Z.id|].
  destruct (_ <=? b)%Z; set_solver.
Qed.
End search.

(** The fraction a positive number stands for. *)
Definition ratio (m : positive) (e : Z) : Z * Z :=
  if (0 <=? e)%Z then (Z.pos m * 2 ^ e, 1)%Z else (Z.pos m, 2 ^ (- e))%Z.

Lemma ratio_pos m e : (0 < (ratio m e).1 ∧ 0 < (ratio m e).2)%Z.
Proof.
  assert (Hp : ∀ k, (0 <= k → 0 < 2 ^ k)%Z) by (intros; apply Z.pow_pos_nonneg; lia).
  unfold ratio. destruct (Z.leb_spec 0 e) as [He|He]; cbn [fst snd].
  - specialize (Hp e He). nia.
  - specialize (Hp (- e)%Z ltac:(lia)). lia.
Qed.

(** A number that is a decimal of at most 17 digits, rounded, reads back. *)
Lemma decimal_back m e N j :
  let a := (ratio m e).1 in let b := (ratio m e).2 in let n := decimal_point a b in
  num_of_dec false N (- j) = S754_finite false m e → (0 <= j)%Z → (-6 < n < 21)%Z → (1 <= n + j <= 17)%Z →
  (Z.abs (a * 10 ^ j - Z.of_N N * b) < b)%Z → (Z.of_N N < 10 ^ (n + j))%Z →
  num_back json_number (S754_finite false m e) = true.
Proof.
  intros a b n HN Hj Hn Hk Hd Hlt. destruct (ratio_pos m e) as [Ha Hb]. fold a in Ha. fold b in Hb.
  pose proof (shortest_ok a b 16 (S754_finite false m e) 1 ltac:(lia)) as Hs. fold n in Hs.
  assert (Hf : json_number (S754_finite false m e)
               = let '(s, k, n') := shortest 16 (S754_finite false m e) a b n 1 in format_digits (print_N s) k n').
  { unfold json_number. cbn [num_is_finite Number_toString app]. unfold format_positive. fold (ratio m e).
    unfold n, a, b. by destruct (ratio m e) as [a' b']. }
  destruct (shortest 16 (S754_finite false m e) a b n 1) as [[s k] n'] eqn:E.
  destruct Hs as (Hk1 & Hin & Hx).
  { exists (n + j)%Z, N, n. split; [lia|]. split; [by apply candidate_near|]. replace (n - (n + j))%Z with (- j)%Z by lia. done. }
  pose proof (candidate_digits a b Ha Hb k s n' Hk1 Hin) as [Hdig Hn']. fold n in Hn'.
  assert (Hs0 : (0 < s)%N).
  { assert (0 < 10 ^ (k - 1))%Z by (apply Z.pow_pos_nonneg; lia). lia. }
  assert (Hlen : length (print_N s) = Z.to_nat k).
  { apply print_N_length; [lia|]. split; apply N2Z.inj_le || apply N2Z.inj_lt; rewrite N2Z.inj_pow.
    - replace (Z.of_N (N.of_nat (Z.to_nat k - 1))) with (k - 1)%Z by lia. change (Z.of_N 10) with 10%Z. lia.
    - replace (Z.of_N (N.of_nat (Z.to_nat k))) with k by lia. change (Z.of_N 10) with 10%Z. lia. }
  pose proof (layout_back s (Z.to_nat k) n' Hs0 Hlen ltac:(lia)) as HB. rewrite Z2Nat.id in HB by lia. rewrite Hx in HB.
  unfold num_back. rewrite Hf, HB. rewrite (bool_decide_eq_true_2 _ eq_refl), andb_true_r.
  pose proof (format_digits_numtext (print_N s) k n' (print_N_numtext s)) as [Hne Hc].
  destruct (format_digits (print_N s) k n') as [|c t] eqn:Ef; [done|].
  destruct (is_digit c) eqn:Hdc; [done|]. destruct (N.eqb_spec c 45) as [|Hc45]; [done|].
  exfalso. unfold parse_number in HB. apply Forall_cons in Hc as [Hcc _].
  assert (Hm : ∀ X Y : bool * jsstr, match c :: t with 45%N :: s1 => X | _ => Y end = Y).
  { intros X Y. repeat (case_match; try done; try lia). }
  rewrite Hm in HB. cbn [take_digits] in HB. rewrite Hdc in HB. done.
Qed.

End NumPrint.
