(* ===== verification/DemoFixtures.v ===== *)
(** * Data of the demonstration server (src/web/default/src/demo/fixtures.ts)

    The console can run without a server: requests are then answered in the browser
    from the plans, models, groups, channels, settings and usage written here. The
    path under which the console is served (lib/deployment-mode.ts) comes from the
    build, and the logo is a file: both are parameters. *)

From S2P Require Import Prelude JsNum IntNum Json NumText JsValue.
From Stdlib Require Import Floats.SpecFloat.

Module DemoFixtures.
Open Scope js_scope.

(** ** Literals *)

Definition obj (l : list (string * json)) : json := JObj (table l).
Definition int (z : Z) : json := JNum (num_of_Z z).
Definition blank : json := JStr [].
Definition dec (s : string) : num := Number (js s).
Definition idx (i : nat) : num := num_of_Z (Z.of_nat i).
Definition strs (l : list jsstr) : json := JArr (map JStr l).

(** [Array.from({ length: n }, (_, index) => f(index))]. *)
Definition array_from {A} (n : nat) (f : nat → A) : list A := map f (seq 0 n).

(** A template with one number, [`text${n}`]. *)
Definition numbered (s : string) (n : nat) : jsstr := js s ++ print_N (N.of_nat n).

(** ** Plans, groups and models *)

Definition DEMO_QUOTA_PER_USD : num := num_of_Z 500000.
Definition DEMO_GROUPS : list jsstr := map js ["Free"; "Light"; "Moderate"; "Heavy"; "Storm"]%string.
Definition DEMO_MONTH : num := num_of_Z (30 * 24 * 60 * 60).

Record plan := mkPlan {
  p_id : num;
  p_title : jsstr;
  p_price : num;
  p_order : nat;
  p_total : num;
  p_fiveHour : num
}.

Definition demoPlan (index : nat) (row : string * (Z * (Z * Z))) : plan :=
  let '(title, (price, (total, five))) := row in
  mkPlan (idx (index + 1)) (js title) (num_of_Z price) index
    (num_mul (num_of_Z total) DEMO_QUOTA_PER_USD) (num_mul (num_of_Z five) DEMO_QUOTA_PER_USD).

Definition demoPlans : list plan :=
  imap demoPlan [("Light", (50, (10, 4))); ("Moderate", (100, (25, 8))); ("Heavy", (200, (70, 20)));
                 ("Storm", (600, (250, 80)))]%Z%string.

Definition planJson (p : plan) : json :=
  obj [("plan", obj [
    ("id", JNum (p_id p)); ("title", JStr (p_title p)); ("subtitle", blank); ("price_amount", JNum (p_price p));
    ("currency", str "USD"); ("duration_unit", str "month"); ("duration_value", int 1);
    ("quota_reset_period", str "monthly"); ("enabled", JBool true); ("sort_order", JNum (idx (p_order p)));
    ("allow_balance_pay", JBool true); ("allow_wallet_overflow", JBool true); ("max_purchase_per_user", int 0);
    ("total_amount", JNum (p_total p)); ("five_hour_quota", JNum (p_fiveHour p));
    ("upgrade_group", JStr (p_title p)); ("downgrade_group", str "Free")])]%string.

Record model := mkModel {
  m_id : nat;
  model_name : jsstr;
  icon : jsstr;
  endpoint : jsstr;
  model_ratio : num;
  completion_ratio : num;
  enable_groups : list jsstr
}.

Definition demoModel (index : nat) (row : string * string * string * string * string * nat) : model :=
  let '(name, icon, endpoint, input, output, tier) := row in
  mkModel (index + 1) (js name) (js icon) (js endpoint)
    (num_div (dec input) (num_of_Z 2)) (num_div (dec output) (dec input)) (drop tier DEMO_GROUPS).

Definition demoModels : list model :=
  imap demoModel [
    ("deepseek-v4-flash", "DeepSeek", "openai", "0.15", "0.3", 1);
    ("deepseek-v4-pro", "DeepSeek", "openai", "0.3", "0.9", 1);
    ("glm-5.2", "Zhipu", "openai", "0.4", "1.2", 1);
    ("glm-5.3", "Zhipu", "openai", "0.5", "1.5", 1);
    ("grok-4.6", "Grok", "openai", "0.6", "1.8", 1);
    ("kimi-k3", "Moonshot", "openai", "0.5", "1.5", 2);
    ("kimi-k2.7-code", "Moonshot", "openai", "0.4", "1.2", 2);
    ("qwen-3.8-max", "Qwen", "anthropic", "0.4", "1.2", 2);
    ("gpt-5.6-luna", "OpenAI", "openai-response", "0.3", "1.2", 2);
    ("gpt-5.6-terra", "OpenAI", "openai-response", "0.5", "2", 2);
    ("gpt-5.6-sol", "OpenAI", "openai-response", "0.8", "3.2", 2);
    ("gpt-6-astra", "OpenAI", "openai-response", "1.5", "6", 3);
    ("claude-opus-4.8", "Claude", "anthropic", "1", "5", 2);
    ("claude-opus-5", "Claude", "anthropic", "1.5", "7.5", 2);
    ("claude-fable-5.1", "Claude", "anthropic", "2", "10", 3);
    ("claude-sonnet-5", "Claude", "anthropic", "0.6", "3", 2);
    ("mimo-v2.5-pro", "Xiaomi", "openai", "0.2", "0.6", 1)]%nat%string.

(** The vendor of a model has the name of its icon and the number of the model. *)
Definition modelTable (m : model) : list (jsstr * json) :=
  table [
    ("id", JNum (idx (m_id m))); ("model_name", JStr (model_name m)); ("icon", JStr (icon m));
    ("vendor_name", JStr (icon m)); ("vendor_id", JNum (idx (m_id m))); ("vendor_icon", JStr (icon m));
    ("quota_type", int 0); ("model_ratio", JNum (model_ratio m)); ("completion_ratio", JNum (completion_ratio m));
    ("cache_ratio", JNum (dec "0.1")); ("enable_groups", strs (enable_groups m));
    ("supported_endpoint_types", strs [endpoint m])]%string.

(** A group and its limits. *)
Definition groupProfile (index : nat) (row : jsstr * (Z * Z * Z)) : jsstr * json :=
  let '(name, (requests, concurrency, tpm)) := row in
  (name, obj [
    ("name", JStr name); ("description", JStr name); ("is_default", JBool (index =? 0)%nat);
    ("max_requests", int requests); ("max_successful_requests", int 0); ("period_minutes", int 1);
    ("concurrency_limit", int concurrency); ("tpm_limit", int tpm)]%string).

Definition demoGroupProfiles : list (jsstr * json) :=
  imap groupProfile (zip DEMO_GROUPS
    [(10, 1, 100000); (20, 5, 1000000); (30, 10, 3000000); (60, 20, 6000000); (120, 50, 12000000)]%Z).

(** ** Status and settings *)

Fixpoint drop_slashes (s : jsstr) : jsstr :=
  match s with 47%N :: s' => drop_slashes s' | _ => s end.

(** [s.replace(/\/+$/, '')]. *)
Definition strip_slashes (s : jsstr) : jsstr := reverse (drop_slashes (reverse s)).

Section build.
Context (VITE_APP_BASE_PATH : option jsstr) (snowApiLogo : jsstr).

Definition APP_BASE_PATH : jsstr :=
  str_or (strip_slashes (str_or (default [] VITE_APP_BASE_PATH) (js "/"))) (js "/").

Definition appPath (path : jsstr) : jsstr :=
  (if bool_decide (APP_BASE_PATH = js "/") then [] else APP_BASE_PATH) ++ js "/" ++ drop_slashes path.

Definition api_info_setting : jsstr :=
  JSON_stringify (JArr [obj [
    ("id", str "demo-api"); ("route", str "/v1"); ("url", str "https://api.example.invalid/v1");
    ("description", str "Browser-only demo; no upstream connection."); ("route_description", str "Demo");
    ("color", str "blue")]%string]).

Definition faq : json :=
  JArr [obj [("question", str "Is this a live account?");
             ("answer", str "No. All data and purchases are simulated in your browser.")]%string].

Definition announcements : json :=
  JArr [obj [("id", str "demo-welcome");
             ("content", str "Welcome to the SnowAPI demo. All balances, models and purchases are virtual.");
             ("publishDate", str "2026-09-17"); ("revision", int 1)]%string].

Definition demoStatus : json :=
  obj [
    ("system_name", str "SnowAPI"); ("logo", JStr snowApiLogo); ("version", str "snowapi-frontend-demo");
    ("setup", JBool true); ("demo_site_enabled", JBool true); ("display_in_currency", JBool true);
    ("display_token_stat_enabled", JBool true); ("quota_display_type", str "USD");
    ("quota_per_unit", JNum DEMO_QUOTA_PER_USD); ("usd_exchange_rate", int 1);
    ("password_login_enabled", JBool true); ("invitation_registration_enabled", JBool false);
    ("linuxdo_oauth", JBool false); ("github_oauth", JBool false); ("discord_oauth", JBool false);
    ("oidc_enabled", JBool false); ("telegram_oauth", JBool false); ("wechat_login", JBool false);
    ("passkey_login", JBool false); ("custom_oauth_providers", JArr []); ("turnstile_check", JBool false);
    ("checkin_enabled", JBool false); ("user_agreement_enabled", JBool false);
    ("privacy_policy_enabled", JBool false); ("server_address", JStr (appPath []));
    ("minimal_mode_enabled", JBool true); ("api_info_enabled", JBool true); ("faq_enabled", JBool true);
    ("announcements_enabled", JBool true);
    ("api_info", JArr [obj [
      ("id", str "demo-api"); ("url", str "https://api.example.invalid/v1"); ("route", str "Demo");
      ("description", str "Browser-only demo; no upstream connection."); ("color", str "blue")]]);
    ("faq", faq); ("announcements", announcements);
    ("console_setting.api_info", JStr api_info_setting);
    ("console_setting.faq", JStr (JSON_stringify faq));
    ("console_setting.announcements", JStr (JSON_stringify announcements))]%string.

Definition option_text (v : json) : jsstr :=
  match v with JObj _ | JArr _ | JNull => JSON_stringify v | _ => to_text v end.

Definition demoOptions : json :=
  JArr (map (fun kv : string * json => obj [("key", str kv.1); ("value", JStr (option_text kv.2))]%string) [
    ("SystemName", str "SnowAPI"); ("Logo", JStr snowApiLogo);
    ("ServerAddress", str "https://demo.unsnow.online/snowapi"); ("PasswordLoginEnabled", JBool true);
    ("RegisterEnabled", JBool false); ("PasswordRegisterEnabled", JBool false);
    ("EmailVerificationEnabled", JBool false); ("DefaultUserGroup", str "Free");
    ("QuotaPerUnit", JNum DEMO_QUOTA_PER_USD); ("DisplayInCurrencyEnabled", JBool true);
    ("DisplayTokenStatEnabled", JBool true); ("general_setting.quota_display_type", str "USD");
    ("Price", int 10); ("MinTopUp", int 1);
    ("GroupRatio", JObj (map (fun group => (group, int 1)) DEMO_GROUPS));
    ("GroupPolicies", JObj demoGroupProfiles);
    ("ModelRatio", JObj (map (fun m => (model_name m, JNum (model_ratio m))) demoModels));
    ("CompletionRatio", JObj (map (fun m => (model_name m, JNum (completion_ratio m))) demoModels));
    ("ModelPrice", obj []); ("CacheRatio", obj []); ("CreateCacheRatio", obj []);
    ("ModelRequestRateLimitEnabled", JBool false); ("minimal_mode_setting.enabled", JBool true);
    ("payment_setting.enable", JBool false);
    ("PayMethods", JArr [obj [("name", str "LDC"); ("type", str "epay")]]);
    ("console_setting.api_info", JStr api_info_setting);
    ("console_setting.faq", JStr (JSON_stringify faq));
    ("console_setting.announcements", JStr (JSON_stringify announcements))]%string).

End build.

(** ** Channels and usage *)

Record channel := mkChannel {
  c_id : num;
  c_name : jsstr;
  c_response : num;
  c_models : jsstr
}.

Definition upstream_url : json := str "https://upstream.example.invalid".

Definition demoChannel (index : nat) (name : string) : channel :=
  mkChannel (idx (index + 1)) (js name) (num_of_Z (180 + Z.of_nat index * 60))
    (join (js ",") (map model_name (omap id (imap (fun i m => if (i mod 3 =? index)%nat then Some m else None) demoModels)))).

Definition demoChannels : list channel := imap demoChannel ["OpenAI Demo"; "Anthropic Demo"; "DeepSeek Demo"]%string.

Definition channelJson (now : num) (c : channel) : json :=
  obj [
    ("id", JNum (c_id c)); ("type", int 1); ("key", blank); ("name", JStr (c_name c)); ("status", int 1);
    ("priority", int 0); ("weight", int 1); ("created_time", JNum (num_sub now DEMO_MONTH));
    ("test_time", JNum (num_sub now (num_of_Z 60))); ("response_time", JNum (c_response c)); ("base_url", upstream_url);
    ("models", JStr (c_models c)); ("group", JStr (join (js ",") (drop 1 DEMO_GROUPS))); ("balance", int 1000);
    ("balance_updated_time", JNum (num_sub now (num_of_Z 60)));
    ("used_quota", JNum (num_mul (num_of_Z 250) DEMO_QUOTA_PER_USD)); ("other", blank); ("model_mapping", str "{}");
    ("status_code_mapping", str "{}"); ("setting", str "{}"); ("param_override", str "{}");
    ("header_override", str "{}"); ("tag", str "Demo");
    ("channel_info", obj [("is_multi_key", JBool false); ("multi_key_size", int 1);
                          ("multi_key_status_list", obj []); ("multi_key_mode", str "random")])]%string.

Record usage := mkUsage {
  u_index : nat;
  prompt_tokens : num;
  completion_tokens : num;
  u_channel : num;
  u_group : jsstr
}.

Definition demoUsage : list usage :=
  array_from 72 (fun index =>
    let i := Z.of_nat index in
    mkUsage index (num_of_Z (1000 + i * 123)) (num_of_Z (200 + i * 17)) (num_of_Z (i mod 3 + 1)) (js "Light")).

Definition usageTable (now : num) (u : usage) : list (jsstr * json) :=
  let index := u_index u in
  let i := Z.of_nat index in
  table [
    ("id", int (i + 1)); ("user_id", int 1); ("username", str "snowapidemo");
    ("created_at", JNum (num_sub now (num_of_Z (i * 1200)))); ("type", int 2); ("content", blank);
    ("model_name", JStr (default [] (model_name <$> demoModels !! (index mod length demoModels)%nat)));
    ("quota", int (400 + i * 13)); ("prompt_tokens", JNum (prompt_tokens u));
    ("completion_tokens", JNum (completion_tokens u)); ("use_time", int (1 + i mod 4)); ("is_stream", JBool true);
    ("token_name", str "Demo key"); ("token_id", int 1); ("channel", JNum (u_channel u));
    ("channel_name", str "Demo"); ("group", JStr (u_group u)); ("ip", str "192.0.2.10");
    ("request_id", JStr (numbered "demo-request-" (index + 1)));
    ("other", JStr (JSON_stringify (obj [
      ("model_ratio", JNum (dec "0.15")); ("completion_ratio", int 3); ("cache_tokens", int 0);
      ("group_ratio", int 1); ("frt", int 250)])))]%string.

Example plan_prices : map (fun p => num_to_Z (p_price p)) demoPlans = [50; 100; 200; 600]%Z.
Proof. vm_compute. reflexivity. Qed.
Example third_channel : c_models <$> demoChannels !! 2%nat
  = Some (js "glm-5.2,kimi-k3,gpt-5.6-luna,gpt-6-astra,claude-fable-5.1").
Proof. vm_compute. reflexivity. Qed.

End DemoFixtures.
