(* ===== verification/DemoEngine.v ===== *)
(** * State of the demonstration server (src/web/default/src/demo/engine.ts)

    A [DemoEngine] keeps whether the visitor is signed in, a virtual balance, the
    plan that was bought with its period, the language and the purchases, and saves
    them in the browser's storage. This file has the state, its schema, loading and
    saving, the profile, the subscriptions and the quote of a plan. The clock is read
    several times by one request: [clock k] is its [k]-th reading, and the readings
    may differ. *)

From S2P Require Import Prelude JsNum IntNum Json NumText JsValue Playground PlaygroundStorage DemoFixtures.
From Stdlib Require Import Floats.SpecFloat.
Import PlaygroundStorage DemoFixtures.

Module DemoEngine.
Open Scope js_scope.

(** ** Math *)

Definition is_nan (x : num) : bool := match x with S754_nan => true | _ => false end.

Definition Math_max (a b : num) : num :=
  if is_nan a || is_nan b then S754_nan
  else if num_ltb a b then b else if num_ltb b a then a
  else match a with S754_zero true => b | _ => a end.

Definition Math_min (a b : num) : num :=
  if is_nan a || is_nan b then S754_nan
  else if num_ltb a b then a else if num_ltb b a then b
  else match a with S754_zero false => b | _ => a end.

Definition Math_floor (x : num) : num :=
  match x with
  | S754_finite s m e =>
      if (0 <=? e)%Z then x
      else num_of_Z ((if s then - Z.pos m else Z.pos m) / 2 ^ (- e))
  | _ => x
  end.

(** ** State *)

Record Purchase := mkPurchase { o_id : num; o_planId : num; amount : num; time : num }.

Record DemoState := mkState {
  authenticated : bool;
  balance : num;
  planId : num;
  startTime : num;
  endTime : num;
  language : jsstr;
  purchases : list Purchase
}.

Definition STORAGE_KEY : jsstr := js "snowapi:demo:v1".

(** *** The schema: what [stateSchema.safeParse] returns as [data] *)

Definition zero : num := S754_zero false.

(** [z.number()]: neither NaN nor infinite. *)
Definition z_number (v : option json) : option num :=
  match v with Some (JNum x) => if num_is_finite x then Some x else None | _ => None end.

Definition z_check (q : num → bool) (v : option json) : option num :=
  x ← z_number v; if q x then Some x else None.

Definition nonnegative (x : num) : bool := num_leb zero x.

Definition is_safe_integer (x : num) : bool := num_is_integer x && (Z.abs (num_to_Z x) <? 2 ^ 53)%Z.

Definition z_string (v : option json) : option jsstr := match v with Some (JStr s) => Some s | _ => None end.
Definition z_boolean (v : option json) : option bool := match v with Some (JBool b) => Some b | _ => None end.

Definition purchaseSchema (v : json) : option Purchase :=
  match v with
  | JObj m =>
      id ← z_number (map_get (js "id") m);
      planId ← z_number (map_get (js "planId") m);
      amount ← z_check nonnegative (map_get (js "amount") m);
      time ← z_number (map_get (js "time") m);
      Some (mkPurchase id planId amount time)
  | _ => None
  end.

Definition z_purchases (v : option json) : option (list Purchase) :=
  match v with
  | Some (JArr l) =>
      ps ← mapM purchaseSchema l;
      if (length l <=? 100)%nat then Some ps else None
  | _ => None
  end.

Definition stateSchema (v : json) : option DemoState :=
  match v with
  | JObj m =>
      authenticated ← z_boolean (map_get (js "authenticated") m);
      balance ← z_check (fun x => nonnegative x && num_leb x (num_of_Z 10000)) (map_get (js "balance") m);
      planId ← z_check (fun x => is_safe_integer x && nonnegative x && num_leb x (num_of_Z 4))
                 (map_get (js "planId") m);
      startTime ← z_check nonnegative (map_get (js "startTime") m);
      endTime ← z_check nonnegative (map_get (js "endTime") m);
      language ← z_string (map_get (js "language") m);
      purchases ← z_purchases (map_get (js "purchases") m);
      Some (mkState authenticated balance planId startTime endTime language purchases)
  | _ => None
  end.

(** *** Loading and saving *)

Definition initial : DemoState := mkState false (num_of_Z 10000) zero zero zero [] [].

Record engine := mkEngine { storage : option Storage; state : DemoState }.

(** [storage?.getItem(STORAGE_KEY) || 'null'], which may throw. *)
Definition storedText (s : option Storage) : res jsstr :=
  match s with
  | None => Ok (js "null")
  | Some st => let! v := getItem st STORAGE_KEY in Ok (str_or (default [] v) (js "null"))
  end.

(** [new DemoEngine(storage)]. *)
Definition construct (s : option Storage) : engine :=
  mkEngine s
    match storedText s with
    | Ok text => default initial (JSON_parse text ≫= stateSchema)
    | Throw _ => initial
    end.

Definition purchaseJson (o : Purchase) : json :=
  obj [("id", JNum (o_id o)); ("planId", JNum (o_planId o)); ("amount", JNum (amount o));
       ("time", JNum (time o))]%string.

Definition stateJson (st : DemoState) : json :=
  obj [("authenticated", JBool (authenticated st)); ("balance", JNum (balance st)); ("planId", JNum (planId st));
       ("startTime", JNum (startTime st)); ("endTime", JNum (endTime st)); ("language", JStr (language st));
       ("purchases", JArr (map purchaseJson (purchases st)))]%string.

Definition save (e : engine) : engine :=
  mkEngine
    match storage e with
    | None => None
    | Some s => Some (try_storage s (setItem s STORAGE_KEY (JSON_stringify (stateJson (state e)))))
    end (state e).

(** ** Plans and quotes *)

Definition findPlan (id : num) : option plan := List.find (fun p => num_eqb (p_id p) id) demoPlans.

(** [activePlan()], with the clock read at [now]. *)
Definition activePlan (now : num) (st : DemoState) : option plan :=
  if num_leb (endTime st) now then None else findPlan (planId st).

(** The part of the period that is left. *)
Definition fraction (now : num) (st : DemoState) : num :=
  Math_min (num_of_Z 1)
    (Math_max zero
       (num_div (num_sub (endTime st) now)
          (Math_max (num_of_Z 1) (num_sub (endTime st) (startTime st))))).

Record Quote := mkQuote {
  plan_id : num;
  original_price : num;
  upgrade_credit : num;
  amount_due : num;
  required_quota : num;
  is_upgrade : bool;
  current_plan : option plan;
  current_end_time : option num
}.

(** A number to the cent. *)
Definition cents (x : num) : num := num_div (Math_round (num_mul x (num_of_Z 100))) (num_of_Z 100).

(** [quote(planId)], reading the clock from [clock k] on. *)
Definition quote (clock : nat → num) (k : nat) (st : DemoState) (id : num) : option Quote :=
  match findPlan id with
  | None => None
  | Some target =>
      let current := activePlan (clock k) st in
      if match current with Some c => num_leb (p_price target) (p_price c) | None => false end then None
      else
        let part := match current with Some _ => fraction (clock (k + 1)%nat) st | None => num_of_Z 1 end in
        let price := match current with Some c => p_price c | None => zero end in
        let due := cents (num_mul (num_sub (p_price target) price) part) in
        Some (mkQuote id (p_price target) (num_sub (p_price target) due) due
                (Math_round (num_mul due DEMO_QUOTA_PER_USD)) (bool_decide (is_Some current)) current
                (match current with Some _ => Some (endTime st) | None => None end))
  end.

Definition quoteJson (q : Quote) : json :=
  JObj (present (table [
    ("plan_id", Some (JNum (plan_id q))); ("original_price", Some (JNum (original_price q)));
    ("upgrade_credit", Some (JNum (upgrade_credit q))); ("amount_due", Some (JNum (amount_due q)));
    ("required_quota", Some (JNum (required_quota q))); ("is_upgrade", Some (JBool (is_upgrade q)));
    ("current_subscription_id", (fun _ => int 1) <$> current_plan q);
    ("current_plan_id", (fun c => JNum (p_id c)) <$> current_plan q);
    ("current_plan_title", (fun c => JStr (p_title c)) <$> current_plan q);
    ("current_end_time", JNum <$> current_end_time q)]%string)).

(** ** The account *)

Definition groupName (p : option plan) : jsstr :=
  match p with Some p => str_or (p_title p) (js "Free") | None => js "Free" end.

Definition subscriptionJson (st : DemoState) (p : plan) : json :=
  obj [
    ("subscription_id", int 1); ("plan_id", JNum (p_id p)); ("plan_title", JStr (p_title p)); ("source", str "order");
    ("group", JStr (groupName (Some p))); ("period_total", JNum (p_total p)); ("period_remaining", JNum (p_total p));
    ("five_hour_total", JNum (p_fiveHour p)); ("five_hour_remaining", JNum (p_fiveHour p));
    ("end_time", JNum (endTime st)); ("version", JNum (idx (length (purchases st))))]%string.

(** [profile()], reading the clock four times from [clock k] on. *)
Definition profile (clock : nat → num) (k : nat) (st : DemoState) : list (jsstr * json) :=
  let plan := activePlan (clock k) st in
  let group := groupName plan in
  present (table [
    ("id", Some (int 1)); ("username", Some (str "snowapidemo")); ("display_name", Some (str "SnowAPI Demo"));
    ("email", Some (str "demo@example.invalid")); ("role", Some (int 100)); ("status", Some (int 1));
    ("group", Some (JStr group));
    ("quota", Some (JNum (Math_round (num_mul (balance st) DEMO_QUOTA_PER_USD)))); ("used_quota", Some (int 0));
    ("request_count", Some (int 72)); ("total_topup", Some (JNum (num_mul (num_of_Z 10000) DEMO_QUOTA_PER_USD)));
    ("created_at", Some (JNum (num_sub (clock (k + 1)%nat) DEMO_MONTH)));
    ("created_time", Some (JNum (num_sub (clock (k + 2)%nat) DEMO_MONTH)));
    ("last_login_at", Some (JNum (clock (k + 3)%nat))); ("has_password", Some (JBool true));
    ("group_expires_at", Some (match plan with Some _ => JNum (endTime st) | None => int 0 end));
    ("group_policy", map_get group demoGroupProfiles);
    ("setting", Some (JStr (JSON_stringify (obj [
       ("language", JStr (language st)); ("billing_preference", str "subscription_first")]))));
    ("subscription", Some (match plan with Some p => subscriptionJson st p | None => JNull end))]%string).

(** [subscriptions()], reading the clock once. *)
Definition subscriptions (now : num) (st : DemoState) : json :=
  match activePlan now st with
  | None => JArr []
  | Some p =>
      JArr [obj [
        ("subscription", obj [
          ("id", int 1); ("user_id", int 1); ("plan_id", JNum (p_id p)); ("status", str "active");
          ("source", str "order"); ("start_time", JNum (startTime st)); ("end_time", JNum (endTime st));
          ("amount_total", JNum (p_total p)); ("amount_used", int 0); ("five_hour_quota", JNum (p_fiveHour p));
          ("next_reset_time", JNum (endTime st))]);
        ("five_hour_window", obj [
          ("state", str "idle"); ("amount_total", JNum (p_fiveHour p)); ("amount_used", int 0);
          ("remaining", JNum (p_fiveHour p))])]]%string
  end.

End DemoEngine.
