(* ===== verification/DemoServer.v ===== *)
(** * Requests of the demonstration server (src/web/default/src/demo/engine.ts, adapter.ts)

    [request] answers one request and may change the engine. Its routes are tried
    in the order of the source: those open to everyone, the few that write, and the
    groups of read-only routes. The platform's URL parser is an interface, as is the
    lower-case mapping of the search. [demoAdapter] connects the HTTP client of the
    console to the engine. *)

From S2P Require Import Prelude JsNum IntNum Json NumText JsValue Regex Playground PlaygroundStorage DemoFixtures DemoEngine.
From Stdlib Require Import Floats.SpecFloat.
Import PlaygroundStorage DemoFixtures DemoEngine.

(** [URL] objects: [new URL(input, 'https://demo.invalid')], which throws on some
    texts, [pathname], [searchParams.get], [searchParams.set] and [href]. *)
Class UrlLib := {
  url : Type;
  url_new : jsstr → option url;
  pathname : url → jsstr;
  param_get : url → jsstr → option jsstr;
  param_set : url → jsstr → jsstr → url;
  href : url → jsstr
}.

Module DemoServer.
Open Scope js_scope.

(** ** Answers *)

Record DemoResult := mkResult { status : Z; body : list (jsstr * json) }.

Definition ok_with (value : json) (extra : list (jsstr * json)) : DemoResult :=
  mkResult 200
    (foldl (fun b kv => map_set kv.1 kv.2 b)
       (table [("success", JBool true); ("message", blank); ("data", value)]%string) extra).

Definition ok (value : json) : DemoResult := ok_with value [].

Definition fail (message : string) (code : Z) : DemoResult :=
  mkResult code (table [("success", JBool false); ("message", str message)]%string).

Definition path_is (path : jsstr) (s : string) : bool := bool_decide (path = js s).
Definition path_in (path : jsstr) (l : list string) : bool := existsb (path_is path) l.

(** [/^pre\d+post$/.test(path)]. *)
Definition id_path (pre post path : jsstr) : bool :=
  test (seqs [Bol; lit pre; Plus (Chr is_digit); lit post; Eol]) path.

(** [Number(path.split('/').pop())]. *)
Definition last_number (path : jsstr) : num := Number (List.last (split_char 47 path) []).

(** ** Payloads *)

(** [payload && typeof payload === 'object' ? payload : {}]. *)
Definition data_of (payload : option json) : json :=
  match payload with Some (JObj m) => JObj m | Some (JArr l) => JArr l | _ => JObj [] end.

Definition is_text (v : option json) (s : string) : bool :=
  match v with Some (JStr x) => bool_decide (x = js s) | _ => false end.

Definition key_count (v : json) : nat := match v with JObj m => length m | JArr l => length l | _ => 0 end.

(** ** Open and writing routes *)

Definition set_auth (b : bool) (st : DemoState) : DemoState :=
  mkState b (balance st) (planId st) (startTime st) (endTime st) (language st) (purchases st).
Definition set_language (l : jsstr) (st : DemoState) : DemoState :=
  mkState (authenticated st) (balance st) (planId st) (startTime st) (endTime st) l (purchases st).

(** The state after a quote has been paid, at the time [now]. *)
Definition pay (now : num) (q : Quote) (st : DemoState) : DemoState :=
  mkState (authenticated st) (cents (num_sub (balance st) (amount_due q))) (plan_id q)
    (if is_upgrade q then startTime st else now)
    (if is_upgrade q then endTime st else num_add now DEMO_MONTH)
    (language st)
    (purchases st ++ [mkPurchase (idx (length (purchases st) + 1)) (plan_id q) (amount_due q) now]).

Definition update (f : DemoState → DemoState) (e : engine) : engine := save (mkEngine (storage e) (f (state e))).

Definition answer : Type := DemoResult * engine.

Section server.
Context `{UrlLib} (toLowerCase : jsstr → jsstr) (VITE_APP_BASE_PATH : option jsstr) (snowApiLogo : jsstr).

Definition request_open (clock : nat → num) (e : engine) (method path : jsstr) (data : json) : option answer :=
  let GET := bool_decide (method = js "GET") in
  let POST := bool_decide (method = js "POST") in
  if GET && path_is path "/api/status" then Some (ok (demoStatus VITE_APP_BASE_PATH snowApiLogo), e)
  else if GET && path_is path "/api/setup" then
    Some (ok (obj [("status", JBool true); ("root_init", JBool true)]%string), e)
  else if GET && path_in path ["/api/user-agreement"; "/api/privacy-policy"]%string then Some (ok blank, e)
  else if GET && path_is path "/api/subscription/plans" then Some (ok (JArr (map planJson demoPlans)), e)
  else if POST && path_is path "/api/user/login" then
    if negb (is_text (prop_of data "username") "snowapidemo") || negb (is_text (prop_of data "password") "1234567890")
    then Some (fail "Invalid demo credentials" 400, e)
    else
      let e' := update (set_auth true) e in
      Some (ok (JObj (profile clock 1 (state e'))), e')
  else if GET && path_is path "/api/user/logout" then Some (ok JNull, update (set_auth false) e)
  else if negb (authenticated (state e)) then Some (fail "Please sign in to the demo first" 401, e)
  else None.

(** The price of a top-up, which is shown and never charged. *)
Definition topup_price (v : option json) : num :=
  let amount := Number_value v in
  if num_is_finite amount && num_ltb zero amount then num_mul (Math_min amount (num_of_Z 10000)) (num_of_Z 10) else zero.

Definition request_write (clock : nat → num) (e : engine) (method path : jsstr) (data : json) : option answer :=
  let GET := bool_decide (method = js "GET") in
  let POST := bool_decide (method = js "POST") in
  let PUT := bool_decide (method = js "PUT") in
  if POST && path_is path "/api/user/amount" then
    Some (ok (JStr (Number_toString (topup_price (prop_of data "amount")))), e)
  else
    match (if PUT && path_is path "/api/user/self" && (key_count data =? 1)%nat
           then z_string (prop_of data "language") else None) with
    | Some language =>
        let e' := update (set_language language) e in
        Some (ok (JObj (profile clock 1 (state e'))), e')
    | None =>
        if POST && path_is path "/api/subscription/balance/pay" then
          match quote clock 1 (state e) (Number_value (prop_of data "plan_id")) with
          | None => Some (fail "This plan cannot be purchased" 400, e)
          | Some q =>
              if num_ltb (balance (state e)) (amount_due q) then Some (fail "Insufficient demo balance" 400, e)
              else Some (ok (quoteJson q), update (pay (clock 0%nat) q) e)
          end
        else if POST && id_path (js "/api/token/") (js "/key") path then
          Some (ok (obj [("key", str "demo-not-a-real-api-key")]%string), e)
        else if negb GET then
          Some (fail "Demo mode is read-only. Only virtual plan purchases are available." 403, e)
        else None
    end.

(** ** Read-only routes *)

Section read.
Context (clock : nat → num) (st : DemoState) (path : jsstr) (param : jsstr → option jsstr).

(** [const now = this.now()]; the profile is built next, then the rest reads on. *)
Definition now : num := clock 0%nat.
Definition self : list (jsstr * json) := profile clock 1 st.
Definition self_group : json := default JNull (map_get (js "group") self).

(** [l.slice(start, end)]. *)
Definition relative (x : num) (len : nat) : nat :=
  match x with
  | S754_infinity false => len
  | S754_infinity true | S754_nan => 0
  | _ =>
      let i := num_to_Z x in
      Z.to_nat (if (i <? 0)%Z then Z.max 0 (Z.of_nat len + i) else Z.min i (Z.of_nat len))
  end.

Definition slice {A} (from to : num) (l : list A) : list A :=
  let a := relative from (length l) in
  let b := relative to (length l) in
  take (b - a) (drop a l).

(** [params.get(name)], with [null] and the empty text both falsy. *)
Definition text_param (name : string) : jsstr := default [] (param (js name)).

Definition field_text (item : json) (field : string) : jsstr :=
  match prop_of item field with Some v => to_text v | None => js "undefined" end.

Definition filtered (items : list json) : list json :=
  let keyword := match param (js "keyword") with Some s => toLowerCase (trim s) | None => [] end in
  let items :=
    if nonempty keyword then List.filter (fun item => includes keyword (toLowerCase (JSON_stringify item))) items
    else items in
  foldl (fun items field =>
    let value := text_param field in
    if nonempty value then List.filter (fun item => bool_decide (field_text item field = value)) items else items)
    items ["status"; "role"; "group"; "model_name"; "username"]%string.

(** [Number(x) || d]. *)
Definition number_or (v : jsstr) (d : num) : num := if num_truthy (Number v) then Number v else d.

Definition page_size : num :=
  Math_min (num_of_Z 100)
    (Math_max (num_of_Z 1) (number_or (str_or (text_param "page_size") (text_param "size")) (num_of_Z 10))).
Definition page_number : num := Math_max (num_of_Z 1) (number_or (text_param "p") (num_of_Z 1)).

Definition page_items (items : list json) : list json :=
  slice (num_mul (num_sub page_number (num_of_Z 1)) page_size) (num_mul page_number page_size) (filtered items).

Definition page (items : list json) : json :=
  obj [("items", JArr (page_items items)); ("total", JNum (idx (length (filtered items))));
       ("page", JNum page_number); ("page_size", JNum page_size)]%string.

(** [{ ...base, ...changes }]. *)
Definition spread (base changes : list (jsstr * json)) : list (jsstr * json) :=
  foldl (fun b kv => map_set kv.1 kv.2 b) base changes.

(** [String(n).padStart(2, '0')]. *)
Definition padded (n : nat) : jsstr :=
  let s := print_N (N.of_nat n) in replicate (2 - length s) 48%N ++ s.

Definition otherUser (index : nat) : json :=
  JObj (spread self (table [
    ("id", JNum (idx (index + 2))); ("username", JStr (js "demo_user_" ++ padded (index + 1)));
    ("display_name", JStr (numbered "Demo " (index + 1)));
    ("email", JStr (numbered "demo" (index + 1) ++ js "@example.invalid")); ("role", int 1);
    ("quota", JNum (num_mul (num_of_Z (120 + Z.of_nat index * 10)) DEMO_QUOTA_PER_USD));
    ("group", JStr (default [] (DEMO_GROUPS !! (index mod 5)%nat))); ("subscription", JNull)]%string)).

Definition users : list json := JObj self :: array_from 29 otherUser.

(** [item.id === n]. *)
Definition has_id (n : num) (item : json) : bool :=
  match prop_of item "id" with Some (JNum x) => num_eqb x n | _ => false end.

Definition groups : json :=
  JObj (map (fun group => (group, obj [("desc", JStr group); ("ratio", int 1)]%string)) DEMO_GROUPS).
Definition ratios : json := JObj (map (fun group => (group, int 1)) DEMO_GROUPS).
Definition channels : list json := map (channelJson now) demoChannels.

Definition read_users : option DemoResult :=
  if path_is path "/api/user/self" then Some (ok (JObj self))
  else if path_in path ["/api/user"; "/api/user/search"]%string then Some (ok (page users))
  else if id_path (js "/api/user/") [] path then
    Some (ok (default (JObj self) (List.find (has_id (last_number path)) users)))
  else if id_path (js "/api/user/") (js "/subscription-status") path then
    Some (ok (if path_is path "/api/user/1/subscription-status"
              then default JNull (map_get (js "subscription") self) else JNull))
  else if path_is path "/api/user/announcements" then Some (ok JNull)
  else if path_is path "/api/user/relay-ban" then
    Some (ok (obj [("active", JBool false); ("code", str "user_relay_banned"); ("starts_at", int 0);
                   ("expires_at", int 0)]%string))
  else None.

Definition readiness : json :=
  obj [
    ("configured_mode", str "disabled"); ("effective_mode", str "disabled"); ("proxy_ready", JBool true);
    ("resolver", obj [("ready", JBool true); ("country_ready", JBool true); ("asn_ready", JBool true);
                      ("version", str "demo")]);
    ("enforced_ready", JBool false); ("blocking", JArr [])]%string.

(** The head of an audit report: no items in the last ten minutes. *)
Definition audit_head : list (string * json) :=
  [("generated_at", JNum now); ("start_at", JNum (num_sub now (num_of_Z 600))); ("end_at", JNum now);
   ("retention_days", int 7); ("items", JArr []); ("page", int 1); ("page_size", int 20); ("total", int 0)]%string.

Definition percent (s : string) : json := JNum (dec s).

Definition metric_summary (m : model) : json :=
  obj [
    ("model_name", JStr (model_name m)); ("avg_latency_ms", int 1200); ("success_rate", percent "99.2");
    ("avg_tps", int 48); ("recent_success_rates", JArr (map int [100; 99; 98; 100]%Z)); ("request_count", int 120)]%string.

Definition metric_values : list (string * json) :=
  [("avg_ttft_ms", int 180); ("avg_latency_ms", int 1200); ("success_rate", percent "99.2"); ("avg_tps", int 48)]%string.

Definition metric_group (group : jsstr) : json :=
  obj (("group"%string, JStr group) :: metric_values ++
       [("series"%string, JArr (array_from 12 (fun index =>
          obj (("ts"%string, JNum (num_sub now (num_of_Z ((11 - Z.of_nat index) * 300)))) :: metric_values))))]).

Definition read_monitoring : option DemoResult :=
  if path_is path "/api/user-relay-bans/readiness" then Some (ok readiness)
  else if path_is path "/api/user-relay-bans" then Some (ok (page []))
  else if id_path (js "/api/user-relay-bans/") (js "/events") path then Some (ok (JArr []))
  else if path_is path "/api/log/ip-audit" then
    Some (ok (obj (audit_head ++ [
      ("thresholds", obj [("request_count", int 200); ("user_count", int 5); ("rpm", int 60)]);
      ("summary", obj [("total_ips", int 0); ("total_users", int 0); ("total_requests", int 0);
                       ("count_anomaly_ips", int 0); ("rpm_anomaly_ips", int 0); ("any_anomaly_ips", int 0)]);
      ("readiness", readiness);
      ("risk", obj (audit_head ++ [
        ("summary", obj [("total_users", int 0); ("total_requests", int 0); ("triggering_users", int 0);
                         ("actively_banned", int 0)])]))]%string)))
  else if path_is path "/api/perf-metrics/summary" then
    Some (ok (obj [("models", JArr (map metric_summary demoModels))]%string))
  else if path_is path "/api/perf-metrics" then
    Some (ok (obj [("model_name", match param (js "model_name") with Some s => JStr s | None => JNull end);
                   ("groups", JArr (map metric_group (drop 1 DEMO_GROUPS)))]%string))
  else if includes (js "/oauth/bindings") path || path_is path "/api/user/oauth" then Some (ok (JArr []))
  else if path_is path "/api/user/2fa/status" then
    Some (ok (obj [("enabled", JBool false); ("backup_codes_remaining", int 0)]%string))
  else if includes (js "/passkey") path then
    Some (ok (obj [("enabled", JBool false); ("credentials", JArr [])]%string))
  else None.

(** The quote for the plan of the query, after the profile has read the clock. *)
Definition queried_quote : option Quote :=
  quote clock 5 st (match param (js "plan_id") with Some s => Number s | None => zero end).

Definition not_for_sale : DemoResult := fail "This plan cannot be purchased" 400.

Definition catalog_extra : list (jsstr * json) :=
  table [
    ("vendors", JArr (map (fun m => obj [("id", JNum (idx (m_id m))); ("name", JStr (icon m)); ("icon", JStr (icon m))]) demoModels));
    ("current_group", self_group); ("group_ratio", ratios); ("usable_group", groups); ("auto_groups", JArr []);
    ("supported_endpoint", obj [
      ("openai", obj [("path", str "/v1/chat/completions"); ("method", str "POST")]);
      ("openai-response", obj [("path", str "/v1/responses"); ("method", str "POST")]);
      ("anthropic", obj [("path", str "/v1/messages"); ("method", str "POST")])])]%string.

Definition hour_start : num := num_mul (Math_floor (num_div now (num_of_Z 3600))) (num_of_Z 3600).

Definition health (index : nat) (m : model) : json :=
  obj [
    ("model_name", JStr (model_name m));
    ("buckets", JArr (array_from 24 (fun hour =>
       let rate := int (100 - Z.of_nat ((hour + index) mod 5)) in
       obj [("hour", JNum (num_sub hour_start (num_of_Z ((23 - Z.of_nat hour) * 3600)))); ("total_count", int 100);
            ("success_count", rate); ("probe_count", int 0); ("success_rate", rate)])))]%string.

Definition read_account : option DemoResult :=
  if path_is path "/api/group" then Some (ok (strs DEMO_GROUPS))
  else if path_is path "/api/group/policies" then Some (ok (JArr (map snd demoGroupProfiles)))
  else if path_is path "/api/user/self/groups" then Some (ok groups)
  else if path_in path ["/api/user/models"; "/api/channel/models_enabled"]%string then
    Some (ok (strs (map model_name demoModels)))
  else if path_is path "/api/subscription/admin/plans" then Some (ok (JArr (map planJson demoPlans)))
  else if path_is path "/api/subscription/self" then
    Some (ok (obj [("billing_preference", str "subscription_first"); ("subscriptions", subscriptions (clock 5%nat) st);
                   ("all_subscriptions", subscriptions (clock 6%nat) st)]%string))
  else if id_path (js "/api/subscription/admin/users/") (js "/subscriptions") path then
    Some (ok (if includes (js "/users/1/") path then subscriptions (clock 5%nat) st else JArr []))
  else if path_is path "/api/subscription/balance/quote" then
    Some (match queried_quote with Some q => ok (quoteJson q) | None => not_for_sale end)
  else if path_is path "/api/subscription/checkout" then
    Some (match queried_quote with
          | Some q => ok (obj [("quote", quoteJson q); ("payment_methods", JArr [])]%string)
          | None => not_for_sale
          end)
  else if path_is path "/api/user/model-catalog" then
    Some (ok_with (JArr (map (fun m => JObj (modelTable m)) demoModels)) catalog_extra)
  else if path_is path "/api/user/model-health" then
    Some (ok (obj [
      ("generated_at", JNum now); ("start_hour", JNum (num_sub hour_start (num_of_Z (23 * 3600))));
      ("end_hour", JNum hour_start); ("window_hours", int 24); ("models", JArr (imap health demoModels))]%string))
  else None.

Definition tokenJson (index : nat) (name : string) : json :=
  obj [
    ("id", JNum (idx (index + 1))); ("user_id", int 1); ("name", str name);
    ("key", JStr (numbered "demo-display-only-" (index + 1))); ("status", int (if (index =? 3)%nat then 2 else 1));
    ("remain_quota", JNum (num_mul (num_of_Z 100) DEMO_QUOTA_PER_USD)); ("used_quota", int 0);
    ("unlimited_quota", JBool true); ("expired_time", int (-1)); ("created_time", JNum (num_sub now DEMO_MONTH));
    ("accessed_time", JNum (num_sub now (num_of_Z 60))); ("group", self_group); ("model_limits_enabled", JBool false);
    ("model_limits", blank); ("allow_ips", blank); ("cross_group_retry", JBool false)]%string.

(** [demoPlans[order.planId - 1].plan.title], which throws outside of the plans. *)
Definition order_title (o : Purchase) : res jsstr :=
  let i := num_sub (o_planId o) (num_of_Z 1) in
  match (if num_is_integer i && nonnegative i then demoPlans !! Z.to_nat (num_to_Z i) else None) with
  | Some p => Ok (p_title p)
  | None => Throw (js "TypeError")
  end.

Definition orderJson (o : Purchase) : res json :=
  let! title := order_title o in
  Ok (obj [
    ("id", JNum (o_id o)); ("user_id", int 1); ("amount", JNum (amount o)); ("money", JNum (amount o));
    ("trade_no", JStr (js "DEMO-" ++ Number_toString (o_id o))); ("create_time", JNum (time o));
    ("complete_time", JNum (time o)); ("status", str "success"); ("payment_method", str "balance");
    ("type", str "subscription"); ("plan_title", JStr title)]%string).

Definition read_billing : option (res DemoResult) :=
  if path_in path ["/api/token"; "/api/token/search"]%string then
    Some (Ok (ok (page (imap tokenJson ["Demo key"; "Playground"; "Development"; "Archive"]%string))))
  else if path_is path "/api/user/topup/info" then
    Some (Ok (ok (obj [
      ("enable_online_topup", JBool true); ("payment_enabled", JBool false);
      ("pay_methods", JArr [obj [("name", str "LDC"); ("type", str "epay"); ("min_topup", int 1)]]);
      ("min_topup", int 1); ("amount_options", JArr (map int [5; 10; 50; 100]%Z)); ("discount", obj []);
      ("enable_redemption", JBool true)]%string)))
  else if path_in path ["/api/user/topup"; "/api/user/topup/self"]%string then
    if path_is path "/api/user/topup"
       && match param (js "user_id") with Some u => negb (bool_decide (u = js "1")) | None => false end
    then Some (Ok (ok (page [])))
    else Some (let! orders := res_map orderJson (purchases st) in Ok (ok (page orders)))
  else None.

Definition read_usage : option DemoResult :=
  if path_in path ["/api/log"; "/api/log/self"]%string then
    Some (ok (page (map (fun u => JObj (usageTable now u)) demoUsage)))
  else if path_in path ["/api/log/stat"; "/api/log/self/stat"]%string then
    Some (ok (obj [("quota", int 63000); ("rpm", int 12); ("tpm", int 18600)]%string))
  else if path_is path "/api/data/token-usage/overview" then
    Some (ok (obj [
      ("total_tokens", int 2400000); ("last_24h_tokens", int 840000);
      ("hourly", JArr (array_from 24 (fun index =>
         obj [("timestamp", JNum (num_sub now (num_of_Z ((23 - Z.of_nat index) * 3600))));
              ("tokens", int (24000 + Z.of_nat index * 950))])))]%string))
  else if starts_with (js "/api/data") path then
    Some (ok (JArr (map (fun u => JObj (spread (usageTable now u) (table [
      ("count", int 1); ("token_used", JNum (num_add (prompt_tokens u) (completion_tokens u)));
      ("channel_id", JNum (u_channel u)); ("use_group", JStr (u_group u)); ("node_name", str "demo-browser")]%string)))
      demoUsage)))
  else if path_is path "/api/option" then Some (ok (demoOptions snowApiLogo))
  else None.

Definition read_performance : option DemoResult :=
  if path_is path "/api/performance/logs" then
    Some (ok (obj [("enabled", JBool false); ("log_dir", str "demo"); ("file_count", int 0); ("total_size", int 0)]%string))
  else if path_is path "/api/performance/stats" then
    Some (ok (obj [
      ("cache_stats", obj [
        ("current_disk_usage_bytes", int 0); ("disk_cache_max_bytes", int (10 ^ 9)); ("active_disk_files", int 0);
        ("disk_cache_hits", int 0); ("current_memory_usage_bytes", int (8 * 10 ^ 6)); ("active_memory_buffers", int 12);
        ("memory_cache_hits", int 72)]);
      ("disk_space_info", obj [("total", int (100 * 10 ^ 9)); ("free", int (88 * 10 ^ 9)); ("used", int (12 * 10 ^ 9));
                               ("used_percent", int 12)]);
      ("memory_stats", obj [("alloc", int (64 * 10 ^ 6)); ("total_alloc", int (256 * 10 ^ 6)); ("sys", int (128 * 10 ^ 6));
                            ("num_gc", int 24); ("num_goroutine", int 32)]);
      ("disk_cache_info", obj [("path", str "demo"); ("file_count", int 0); ("total_size", int 0)]);
      ("config", obj [("is_running_in_container", JBool false)])]%string))
  else if path_is path "/api/option/channel_affinity_cache" then
    Some (ok (obj [("enabled", JBool false); ("total", int 0); ("unknown", int 0); ("by_rule_name", obj []);
                   ("cache_capacity", int 10000); ("cache_algo", str "LRU")]%string))
  else None.

(** A channel as a source of the minimal mode, with the models it lists. *)
Definition sourceJson (c : channel) : json :=
  let listed m := bool_decide (model_name m ∈ split_char 44 (c_models c)) in
  obj [
    ("id", JNum (c_id c)); ("channel_id", JNum (c_id c)); ("revision", int 1); ("name", JStr (c_name c));
    ("provider_name", blank); ("base_url", upstream_url); ("channel_type", int 1);
    ("groups", strs (drop 1 DEMO_GROUPS)); ("has_api_key", JBool true); ("sync_state", str "in_sync");
    ("models", JArr (map (fun m => obj [
       ("display_model", JStr (model_name m)); ("upstream_model", JStr (model_name m)); ("icon_key", JStr (icon m));
       ("endpoint_type", JStr (endpoint m)); ("billing_mode", str "token"); ("model_ratio", JNum (model_ratio m));
       ("completion_ratio", JNum (completion_ratio m)); ("cache_ratio", JNum (dec "0.1"))])
       (List.filter listed demoModels)))]%string.

Definition read_channels : option DemoResult :=
  if path_in path ["/api/channel"; "/api/channel/search"]%string then
    Some (ok_with (page channels) (table [("type_counts", obj [("1", int 3)])]%string))
  else if id_path (js "/api/channel/") [] path then
    Some (ok (default JNull (List.find (has_id (last_number path)) channels)))
  else if path_is path "/api/channel/models" then
    Some (ok (JArr (map (fun m => obj [("id", JStr (model_name m)); ("name", JStr (model_name m))]%string) demoModels)))
  else if path_is path "/api/channel/ops" then Some (ok (obj []))
  else if path_is path "/api/minimal-mode" then
    Some (ok (obj [
      ("enabled", JBool true); ("private_upstreams_enabled", JBool false); ("private_host_allowlist", JArr []);
      ("private_cidr_allowlist", JArr []); ("cache_degraded", JBool false);
      ("channel_types", JArr [obj [("id", int 1); ("name", str "OpenAI")]; obj [("id", int 14); ("name", str "Anthropic")]]);
      ("icon_keys", strs (set_of (map icon demoModels))); ("groups", strs DEMO_GROUPS);
      ("sources", JArr (map sourceJson demoChannels))]%string))
  else None.

Definition redemptionJson (index : nat) : json :=
  obj [
    ("id", JNum (idx (index + 1))); ("user_id", int 1); ("name", str "Demo Light");
    ("key", JStr (numbered "DEMO-NOT-REDEEMABLE-" (index + 1))); ("status", int (if (index mod 3 =? 0)%nat then 3 else 1));
    ("quota", int 0); ("type", str "group"); ("group_name", str "Light"); ("group_duration_minutes", int 4320);
    ("created_time", JNum (num_sub now (num_of_Z 3600))); ("redeemed_time", int 0);
    ("expired_time", JNum (num_add now (num_of_Z 86400)));
    ("used_user_id", JNum (if (index mod 3 =? 0)%nat then idx (index + 2) else zero))]%string.

Definition invitationJson (index : nat) : json :=
  obj [
    ("id", JNum (idx (index + 1))); ("name", str "Demo invite"); ("code_prefix", JStr (numbered "DEMO" (index + 1)));
    ("status", int 1); ("created_by", int 1); ("used_by", int 0); ("created_at", JNum (num_sub now (num_of_Z 3600)));
    ("used_at", int 0); ("creator_username", str "snowapidemo"); ("used_username", blank)]%string.

Definition read_catalog : option DemoResult :=
  if path_in path ["/api/models"; "/api/models/search"]%string then
    Some (ok (page (map (fun m => JObj (spread (modelTable m) (table [
      ("status", int 1); ("name_rule", int 0); ("created_time", JNum (num_sub now DEMO_MONTH));
      ("updated_time", JNum now); ("sync_official", int 0)]%string))) demoModels)))
  else if path_in path ["/api/vendors"; "/api/vendors/search"]%string then
    Some (ok (page (map (fun m => obj [
      ("id", JNum (idx (m_id m))); ("name", JStr (icon m)); ("icon", JStr (icon m)); ("description", blank);
      ("status", int 1)]%string) demoModels)))
  else if path_in path ["/api/redemption"; "/api/redemption/search"]%string then
    Some (ok (page (array_from 15 redemptionJson)))
  else if path_is path "/api/invitation" then Some (ok (page (array_from 8 invitationJson)))
  else None.

Definition instanceJson : json :=
  let started := JNum (num_sub now (num_of_Z 86400)) in
  obj [
    ("node_name", str "demo-browser"); ("status", str "online"); ("stale_after_seconds", int 60);
    ("started_at", started); ("last_seen_at", JNum now);
    ("info", obj [
      ("node", obj [("name", str "demo-browser")]); ("role", obj [("is_master", JBool true)]);
      ("runtime", obj [("version", str "frontend-demo"); ("goos", str "browser"); ("goarch", str "virtual");
                       ("started_at", started)]);
      ("host", obj [("hostname", str "demo")]);
      ("resources", obj [
        ("cpu", obj [("usage_percent", int 12)]); ("memory", obj [("usage_percent", int 28)]);
        ("storage", obj [("total_bytes", int (100 * 10 ^ 9)); ("used_bytes", int (12 * 10 ^ 9));
                         ("free_bytes", int (88 * 10 ^ 9)); ("used_percent", int 12)])])])]%string.

Definition read_system : option DemoResult :=
  if path_is path "/api/system-info/instances" then Some (ok (JArr [instanceJson]))
  else if path_in path ["/api/system-info/stale-instances"; "/api/system-task/list"; "/api/prefill_group";
                        "/api/models/missing"; "/api/custom-oauth-provider"; "/api/ratio_sync/channels"]%string
  then Some (ok (JArr []))
  else if path_is path "/api/system-task/current" then Some (ok JNull)
  else if path_is path "/api/authz/catalog" then Some (ok (obj [("resources", JArr []); ("roles", JArr [])]%string))
  else None.

Definition not_available : DemoResult := fail "This action is not available in the frontend demo" 403.

(** The first route that answers. *)
Fixpoint first_of (routes : list (option (res DemoResult))) : res DemoResult :=
  match routes with
  | [] => Ok not_available
  | Some r :: _ => r
  | None :: routes' => first_of routes'
  end.

Definition request_read : res DemoResult :=
  first_of [Ok <$> read_users; Ok <$> read_monitoring; Ok <$> read_account; read_billing; Ok <$> read_usage;
            Ok <$> read_performance; Ok <$> read_channels; Ok <$> read_catalog; Ok <$> read_system].
End read.

(** ** Requests *)

Definition request (clock : nat → num) (e : engine) (method address : jsstr) (payload : option json) :
    res DemoResult * engine :=
  match url_new address with
  | None => (Throw (js "TypeError"), e)
  | Some parsed =>
      let path := strip_slashes (pathname parsed) in
      let data := data_of payload in
      match request_open clock e method path data with
      | Some (r, e') => (Ok r, e')
      | None =>
          match request_write clock e method path data with
          | Some (r, e') => (Ok r, e')
          | None => (request_read clock (state e) path (param_get parsed), e)
          end
      end
  end.

(** ** The adapter of the HTTP client *)

Record config := mkConfig {
  cfg_url : option jsstr;
  cfg_params : list (jsstr * option json);
  cfg_data : option json;
  cfg_method : option jsstr
}.

Record response := mkResponse { r_data : list (jsstr * json); r_status : Z; r_statusText : jsstr }.

(** What the promise settles to: a response, or an [AxiosError] with its message,
    its code and the response. Anything else that is thrown is [Throw]. *)
Inductive outcome :=
| Resolved (r : response)
| Rejected (message : json) (code : jsstr) (r : response).

Context (toUpperCase : jsstr → jsstr) (t : jsstr → jsstr).

(** [url.searchParams.set(key, String(value))] for the values that are there. *)
Definition with_params (u : url) (params : list (jsstr * option json)) : url :=
  foldl (fun u kv => match kv.2 with None | Some JNull => u | Some v => param_set u kv.1 (to_text v) end) u params.

Definition payload_of (data : option json) : option json :=
  match data with
  | Some (JStr s) => Some (default (JObj []) (JSON_parse s))
  | _ => data
  end.

(** The translated message of a body. *)
Definition translated (b : list (jsstr * json)) : json :=
  match map_get (js "message") b with
  | Some (JStr m) => if nonempty m then JStr (t m) else blank
  | _ => blank
  end.

Definition respond (result : DemoResult) : response :=
  mkResponse (map_set (js "message") (translated (body result)) (body result)) (status result)
    (print_N (Z.to_N (status result))).

Definition demoAdapter (clock : nat → num) (e : engine) (c : config) : res outcome * engine :=
  match url_new (str_or (default [] (cfg_url c)) (js "/")) with
  | None => (Throw (js "TypeError"), e)
  | Some u =>
      let method := toUpperCase (str_or (default [] (cfg_method c)) (js "GET")) in
      let '(r, e') := request clock e method (href (with_params u (cfg_params c))) (payload_of (cfg_data c)) in
      (let! result := r in
       let response := respond result in
       Ok (if (400 <=? status result)%Z
           then Rejected (translated (body result)) (js "ERR_DEMO_READ_ONLY") response
           else Resolved response), e')
  end.

End server.
End DemoServer.
