(* ===== verification/DemoMoney.v ===== *)
(** * Amounts in cents

    The demonstration server keeps money as binary numbers of dollars and rounds
    to the cent after each operation (Module DemoQuote has the quotes of plans). This is exact: [cent k], the number nearest
    to [k / 100], stands for [k] cents, and subtraction, comparison, conversion to
    quota and the JSON text of such numbers are those of the cents. The error
    bounds are those of NumRound. *)

From Stdlib Require Import QArith Qpower Lqa.
From Stdlib Require Import QArith Qpower Qminmax Lqa.
From S2P Require Import Prelude JsNum Json NumText IntNum NumRound NumPrint DemoFixtures DemoEngine.
From Stdlib Require Import Floats.SpecFloat.
Import NumRound NumPrint DemoFixtures DemoEngine.

Module DemoMoney.

(** [k / 100]. *)
Definition cent (k : Z) : num := num_div (num_of_Z k) (num_of_Z 100).

Definition Zc (z : Z) : Q := inject_Z z.

Lemma cent_zero : cent 0 = zero.
Proof. done. Qed.

Lemma int_pos z : (0 < z < 2 ^ 53)%Z → finite_pos (num_of_Z z).
Proof. intros Hz. destruct z as [|m|m]; [lia| |lia]. by rewrite num_of_Z_pos by (unfold safe; lia). Qed.

Lemma hundred_Q : (num_Q (num_of_Z 100) == 100)%Q.
Proof. apply num_of_Z_Q. unfold safe. lia. Qed.

Section cents.
Context (k : Z) (Hk : (0 <= k <= 1000000)%Z).

Lemma safe_k : safe k.
Proof. unfold safe. lia. Qed.

Lemma k_bounds : (0 <= inject_Z k /\ inject_Z k <= 1000000)%Q.
Proof. change 0%Q with (inject_Z 0). change 1000000%Q with (inject_Z 1000000). rewrite <- !Zle_Qle. lia. Qed.

Lemma p2_20 : (1000000 < p2 20)%Q.
Proof. rewrite p2_Z by done. done. Qed.

Lemma cent_rounds : rounds (cent k) (inject_Z k / 100).
Proof.
  destruct (decide (k = 0)%Z) as [->|Hne]; [apply (zero_rounds false); field|].
  pose proof k_bounds. pose proof p2_20. pose proof (p2_lt 20 900 ltac:(lia)).
  assert (E : (num_Q (num_of_Z k) / num_Q (num_of_Z 100) == inject_Z k / 100)%Q).
  { rewrite hundred_Q, num_of_Z_Q by apply safe_k. done. }
  eapply rounds_Proper; [exact E|]. apply div_rounds; [apply int_pos; lia|done|]. rewrite E.
  assert (inject_Z k / 100 == inject_Z k * (1 # 100))%Q as -> by field. lra.
Qed.

Lemma cent_good : good (cent k).
Proof. apply (rounds_good _ _ cent_rounds). Qed.

Lemma cent_error : within (p2 (-40)) (inject_Z k / 100) (num_Q (cent k)).
Proof.
  pose proof k_bounds. apply (rounds_error _ _ cent_rounds 14); [lia|].
  assert (inject_Z k / 100 == inject_Z k * (1 # 100))%Q as -> by field.
  assert (p2 14 == 16384)%Q as -> by (rewrite p2_Z by done; done). lra.
Qed.

Lemma cent_sign : negative (cent k) = false.
Proof.
  destruct (decide (k = 0)%Z) as [->|Hne]; [done|]. apply (rounds_sign _ _ cent_rounds).
  assert (0 < inject_Z k)%Q by (change 0%Q with (inject_Z 0); rewrite <- Zlt_Qlt; lia).
  assert (inject_Z k / 100 == inject_Z k * (1 # 100))%Q as -> by field. lra.
Qed.

Lemma cent_nonneg : (0 <= num_Q (cent k))%Q.
Proof.
  pose proof cent_sign as H. destruct (cent k) as [| | |[] m e]; cbn [num_Q sg negative] in *; try lra; try done.
  pose proof (Zpos_Q m). pose proof (p2_pos e). nra.
Qed.
End cents.

Lemma p2_small : (p2 (-40) == 1 # 1099511627776)%Q.
Proof. apply (Qmult_inj_r _ _ (p2 40)); [by rewrite p2_Z by done|]. rewrite Qmult_comm, p2_inv, p2_Z by done. done. Qed.

Lemma over_100 x : (x / 100 == x * (1 # 100))%Q.
Proof. field. Qed.

(** Comparison is that of the cents. *)
Lemma cent_ltb a b : (0 <= a <= 1000000)%Z → (0 <= b <= 1000000)%Z → num_ltb (cent a) (cent b) = (a <? b)%Z.
Proof.
  intros Ha Hb. destruct (cent_error a Ha) as [A1 A2], (cent_error b Hb) as [B1 B2]. rewrite p2_small, over_100 in *.
  destruct (Z.ltb_spec a b) as [H|H].
  - apply ltb_Q; [by apply cent_good|by apply cent_good|]. assert (Hs : (inject_Z a + 1 <= inject_Z b)%Q).
    { change 1%Q with (inject_Z 1). rewrite <- inject_Z_plus, <- Zle_Qle. lia. } lra.
  - apply ltb_Q_false; [by apply cent_good|by apply cent_good|].
    destruct (decide (a = b)) as [->|Hne]; [lra|]. assert (Hs : (inject_Z b + 1 <= inject_Z a)%Q).
    { change 1%Q with (inject_Z 1). rewrite <- inject_Z_plus, <- Zle_Qle. lia. } lra.
Qed.

Lemma sub_self x : good x → negative x = false → num_sub x x = zero.
Proof.
  destruct x as [s| | |s m e]; cbn [good negative]; try done; [by intros _ ->|]. intros _ ->.
  unfold num_sub, SFsub. rewrite Z.min_id, Z.sub_diag. done.
Qed.

Lemma p2_26 : (p2 (-26) == 1 # 67108864)%Q.
Proof. apply (Qmult_inj_r _ _ (p2 26)); [by rewrite p2_Z by done|]. rewrite Qmult_comm, p2_inv, p2_Z by done. done. Qed.

Lemma hundred_good : good (num_of_Z 100).
Proof. apply num_of_Z_good. unfold safe. lia. Qed.

(** Multiplying a number below [2 ^ 20] by 100. *)
Lemma times_100 x : good x → (0 <= num_Q x /\ num_Q x <= 1000000)%Q →
  good (num_mul x (num_of_Z 100)) ∧ within (1 # 67108864) (num_Q x * 100) (num_Q (num_mul x (num_of_Z 100))).
Proof.
  intros Hx [H1 H2]. pose proof (p2_lt 28 900 ltac:(lia)) as H9. assert (E28 : (p2 28 == 268435456)%Q) by (by rewrite p2_Z by done).
  assert (E : (num_Q x * num_Q (num_of_Z 100) == num_Q x * 100)%Q) by (by rewrite hundred_Q).
  pose proof (mul_rounds x (num_of_Z 100) Hx hundred_good ltac:(rewrite E; split; lra)) as R. rewrite E in R.
  split; [apply (rounds_good _ _ R)|]. rewrite <- p2_26. apply (rounds_error _ _ R 28); [lia|]. split; lra.
Qed.

(** The arithmetic of [cents_sub]: errors of at most [e] in both operands and in the
    difference, and [f] in the product. *)
Lemma sub_errors A B qa qb x y e f :
  within e (A * (1 # 100)) qa → within e (B * (1 # 100)) qb → within e (qb - qa) x → within f (x * 100) y →
  (e <= 1 # 10000)%Q → (f <= 1 # 10)%Q → within (1 # 4) (B - A) y.
Proof. unfold within. intros [] [] [] [] ? ?. split; lra. Qed.

(** The difference of two amounts, rounded to the cent, is the amount of the
    difference. *)
Lemma cents_sub a b : (0 <= a <= b)%Z → (b <= 1000000)%Z → cents (num_sub (cent b) (cent a)) = cent (b - a).
Proof.
  intros Ha Hb. destruct (decide (a = b)) as [->|Hne].
  { rewrite sub_self by (apply cent_good || apply cent_sign; lia). by rewrite Z.sub_diag. }
  pose proof (cent_error a ltac:(lia)) as A. pose proof (cent_error b ltac:(lia)) as B. rewrite p2_small, over_100 in A, B.
  assert (HD : (inject_Z (b - a) == inject_Z b - inject_Z a)%Q) by (unfold Z.sub; rewrite inject_Z_plus, inject_Z_opp; done).
  assert (HS : (0 <= num_Q (cent b) - num_Q (cent a) /\ num_Q (cent b) - num_Q (cent a) <= 10001)%Q).
  { pose proof (k_bounds a ltac:(lia)) as [? ?]. pose proof (k_bounds b ltac:(lia)) as [? ?].
    assert (inject_Z a + 1 <= inject_Z b)%Q by (change 1%Q with (inject_Z 1); rewrite <- inject_Z_plus, <- Zle_Qle; lia).
    destruct A, B. split; lra. }
  assert (E14 : (p2 14 == 16384)%Q) by (by rewrite p2_Z by done). pose proof (p2_lt 14 900 ltac:(lia)) as H9.
  pose proof (sub_rounds (cent b) (cent a) (cent_good b ltac:(lia)) (cent_good a ltac:(lia)) ltac:(split; lra)) as R1.
  pose proof (rounds_error _ _ R1 14 ltac:(lia) ltac:(split; lra)) as X. change (14 - 54)%Z with (-40)%Z in X. rewrite p2_small in X.
  set (x := num_sub (cent b) (cent a)) in *.
  assert (Hneg : negative x = false ∨ (num_Q x == 0)%Q).
  { destruct (Qlt_le_dec 0 (num_Q (cent b) - num_Q (cent a))) as [Hp|Hp]; [left; by apply (rounds_sign _ _ R1)|right; destruct X; exfalso].
    assert (cent_lt : num_ltb (cent a) (cent b) = true) by (rewrite cent_ltb by lia; lia).
    apply ltb_Q in cent_lt; [lra|apply cent_good; lia|apply cent_good; lia]. }
  assert (Hx0 : (0 <= num_Q x)%Q).
  { destruct Hneg as [Hneg|Hneg]; [|lra]. clear -Hneg. destruct x as [| | |[] m e]; cbn [num_Q sg negative] in *; try lra; try done.
    pose proof (Zpos_Q m). pose proof (p2_pos e). nra. }
  destruct (times_100 x (rounds_good _ _ R1)) as [HG Y]; [destruct X; split; lra|].
  unfold cents. rewrite (round_near _ (b - a) (1 # 4)); [done|exact HG|lia|lra|]. rewrite HD.
  eapply sub_errors; [exact A|exact B|exact X|exact Y|lra|lra].
Qed.

(** ** Rounding to an integer *)

Lemma nonneg_Q x : negative x = false → (0 <= num_Q x)%Q.
Proof.
  destruct x as [| | |[] m e]; cbn [num_Q sg negative]; try done; intros _.
  pose proof (Zpos_Q m). pose proof (p2_pos e). nra.
Qed.

Lemma round_spec x : good x → negative x = false → (num_Q x <= 1000000)%Q →
  ∃ n, (0 <= n)%Z ∧ Math_round x = num_of_Z n ∧ within (1 # 2) (num_Q x) (inject_Z n).
Proof.
  intros Hg Hs Hb. destruct x as [s| | |s m e]; cbn [good negative num_Q] in *; try done.
  { exists 0%Z. subst s. split_and!; [done|done|]. split; change (inject_Z 0) with 0%Q; lra. }
  subst s. cbn [sg] in *. pose proof (p2_pos e) as He. destruct Hg as (H1 & H2 & H3).
  assert (Hneg : (e < 0)%Z).
  { destruct H3 as [->|H3]; [lia|]. assert (52 + e < 20)%Z; [|lia]. apply p2_lt_inv. pose proof p2_20.
    eapply Qle_lt_trans; [|exact H]. eapply Qle_trans; [|exact Hb]. rewrite p2_add. apply Qmult_le_compat_r; [|lra].
    rewrite p2_Z by done. by rewrite <- Zle_Qle. }
  set (k := (2 ^ (- e))%Z). assert (Hk : (0 < k)%Z) by (apply Z.pow_pos_nonneg; lia).
  assert (HkQ : (inject_Z k * p2 e == 1)%Q) by (subst k; rewrite <- p2_Z by lia; rewrite Qmult_comm; apply p2_inv).
  set (n := ((2 * Z.pos m + k) / (2 * k))%Z). exists n. assert (Hn : (0 <= n)%Z) by (apply Z.div_pos; lia). split; [done|].
  split.
  - unfold Math_round. rewrite (proj2 (Z.leb_gt _ _)) by done. fold k. fold n. by destruct (Z.eqb_spec n 0) as [->|].
  - pose proof (Z.mul_div_le (2 * Z.pos m + k) (2 * k) ltac:(lia)) as L1. pose proof (Z.mul_succ_div_gt (2 * Z.pos m + k) (2 * k) ltac:(lia)) as L2.
    fold n in L1, L2. assert (L3 : (2 * k * n <= 2 * Z.pos m + k)%Z) by lia. assert (L4 : (2 * Z.pos m <= 2 * k * n + k)%Z) by lia.
    rewrite Zle_Qle, inject_Z_plus, !inject_Z_mult in L3, L4. change (inject_Z 2) with 2%Q in L3, L4.
    apply (Qmult_le_compat_r _ _ (p2 e)) in L3, L4; [|lra|lra].
    rewrite !Qmult_plus_distr_l, HkQ in L3, L4. set (M := inject_Z (Z.pos m)) in *. set (K := inject_Z k) in *. set (I := inject_Z n) in *.
    assert (E : (2 * K * I * p2 e == 2 * I)%Q) by (rewrite <- (Qmult_1_r (2 * I)), <- HkQ; ring).
    rewrite E in L3, L4. split; lra.
Qed.

(** ** A part of a price *)

Lemma part_errors D f x y n :
  within (1 # 1000000) (D * f) x → within (1 # 1000000) (x * 100) y → within (1 # 2) y n →
  within ((1 # 2) + (1 # 1000)) (100 * D * f) n.
Proof. unfold within. intros [] [] []. split; lra. Qed.

(** A part [f] of [d] dollars, rounded to the cent, is at most [d] dollars and
    within half a cent, up to the rounding of the arithmetic, of the exact part. *)
Lemma cents_part d f :
  (0 < d <= 1000)%Z → good f → negative f = false → (num_Q f <= 1)%Q →
  ∃ n, (0 <= n <= 100 * d)%Z ∧ cents (num_mul (num_of_Z d) f) = cent n
       ∧ within ((1 # 2) + (1 # 1000)) (100 * inject_Z d * num_Q f) (inject_Z n).
Proof.
  intros Hd Hf Hs Hf1. pose proof (nonneg_Q f Hs) as Hf0. assert (Sd : safe d) by (unfold safe; lia).
  assert (Hdq : (1 <= inject_Z d /\ inject_Z d <= 1000)%Q).
  { change 1%Q with (inject_Z 1). change 1000%Q with (inject_Z 1000). rewrite <- !Zle_Qle. lia. }
  assert (E : (num_Q (num_of_Z d) * num_Q f == inject_Z d * num_Q f)%Q) by (by rewrite num_of_Z_Q).
  assert (Hb : (0 <= inject_Z d * num_Q f /\ inject_Z d * num_Q f <= 1000)%Q) by (split; nra).
  pose proof (p2_lt 14 900 ltac:(lia)) as H9. assert (E14 : (p2 14 == 16384)%Q) by (by rewrite p2_Z by done).
  pose proof (mul_rounds (num_of_Z d) f (num_of_Z_good d Sd) Hf ltac:(rewrite E; split; lra)) as R1. rewrite E in R1.
  pose proof (rounds_error _ _ R1 14 ltac:(lia) ltac:(split; lra)) as X. change (14 - 54)%Z with (-40)%Z in X. rewrite p2_small in X.
  assert (X' : within (1 # 1000000) (inject_Z d * num_Q f) (num_Q (num_mul (num_of_Z d) f))) by (eapply within_le; [|exact X]; lra).
  assert (Sx : negative (num_mul (num_of_Z d) f) = false).
  { destruct (Qlt_le_dec 0 (num_Q f)) as [Hp|Hp]; [apply (rounds_sign _ _ R1); nra|].
    destruct f as [s| | |[] m e]; cbn [good negative num_Q sg] in *; try done.
    - subst s. pose proof (int_pos d ltac:(lia)) as Hi. destruct (num_of_Z d) as [| | |[] ? ?]; done.
    - pose proof (Zpos_Q m). pose proof (p2_pos e). nra. }
  set (x := num_mul (num_of_Z d) f) in *. pose proof (nonneg_Q x Sx) as Hx0.
  destruct (times_100 x (rounds_good _ _ R1)) as [HG Y]; [destruct X; split; lra|].
  assert (Y' : within (1 # 1000000) (num_Q x * 100) (num_Q (num_mul x (num_of_Z 100)))) by (eapply within_le; [|exact Y]; lra).
  assert (Sy : negative (num_mul x (num_of_Z 100)) = false).
  { pose proof (rounds_good _ _ R1) as Hgx. clear -Sx Hgx. pose proof (int_pos 100 ltac:(lia)) as Hi.
    destruct (num_of_Z 100) as [| | |[] m e] eqn:E100; try done. destruct x as [s| | |s m' e']; cbn [good negative] in *; try done; subst s; [done|].
    cbn [num_mul SFmul xorb]. unfold binary_round_aux. repeat case_match; done. }
  destruct (round_spec _ HG Sy) as (n & Hn0 & Hn & HR); [destruct X', Y'; lra|].
  pose proof (part_errors _ _ _ _ _ X' Y' HR) as HE. exists n. split; [|split; [unfold cents, cent; by rewrite Hn|done]].
  split; [done|]. destruct HE as [_ HE]. assert (HL : (inject_Z n < inject_Z (100 * d + 1))%Q); [|rewrite <- Zlt_Qlt in HL; lia].
  rewrite inject_Z_plus, inject_Z_mult. change (inject_Z 100) with 100%Q. change (inject_Z 1) with 1%Q. nra.
Qed.

(** ** Quota *)

(** The quota of an amount is exact. *)
Lemma cent_quota k : (0 <= k <= 1000000)%Z →
  Math_round (num_mul (cent k) DEMO_QUOTA_PER_USD) = num_of_Z (5000 * k).
Proof.
  intros Hk. destruct (decide (k = 0)%Z) as [->|Hne]; [done|]. pose proof (cent_error k Hk) as A. rewrite p2_small, over_100 in A.
  pose proof (k_bounds k Hk) as [K1 K2]. assert (Sq : safe 500000) by (unfold safe; lia).
  assert (E : (num_Q (cent k) * num_Q DEMO_QUOTA_PER_USD == num_Q (cent k) * 500000)%Q).
  { unfold DEMO_QUOTA_PER_USD. by rewrite num_of_Z_Q. }
  pose proof (p2_lt 33 900 ltac:(lia)) as H9. assert (E33 : (p2 33 == 8589934592)%Q) by (by rewrite p2_Z by done).
  assert (E21 : (p2 (-21) == 1 # 2097152)%Q).
  { apply (Qmult_inj_r _ _ (p2 21)); [by rewrite p2_Z by done|]. rewrite Qmult_comm, p2_inv, p2_Z by done. done. }
  destruct A as [A1 A2].
  pose proof (mul_rounds (cent k) DEMO_QUOTA_PER_USD (cent_good k Hk) (num_of_Z_good _ Sq) ltac:(rewrite E; split; lra)) as R. rewrite E in R.
  pose proof (rounds_error _ _ R 33 ltac:(lia) ltac:(split; lra)) as [X1 X2]. change (33 - 54)%Z with (-21)%Z in X1, X2. rewrite E21 in X1, X2.
  apply (round_near _ (5000 * k) (1 # 4)); [apply (rounds_good _ _ R)|lia|lra|].
  rewrite inject_Z_mult. change (inject_Z 5000) with 5000%Q. split; lra.
Qed.

(** ** Texts *)

Lemma ratio_Q m e : (inject_Z (ratio m e).1 == num_Q (S754_finite false m e) * inject_Z (ratio m e).2)%Q.
Proof.
  unfold ratio. cbn [num_Q sg]. destruct (Z.leb_spec 0 e) as [He|He]; cbn [fst snd].
  - rewrite inject_Z_mult, <- p2_Z by done. change (inject_Z 1) with 1%Q. ring.
  - rewrite <- p2_Z by lia. rewrite <- Qmult_assoc, p2_inv. ring.
Qed.

(** Where the decimal point is, scaled by [10 ^ t]. *)
Lemma point_Q m e t : let n := decimal_point (ratio m e).1 (ratio m e).2 in
  (0 <= t)%Z → (1 <= t + n)%Z →
  (inject_Z (10 ^ (t + n - 1)) <= num_Q (S754_finite false m e) * inject_Z (10 ^ t) /\
   num_Q (S754_finite false m e) * inject_Z (10 ^ t) < inject_Z (10 ^ (t + n)))%Q.
Proof.
  intros n Ht Hn. destruct (ratio_pos m e) as [Ha Hb]. pose proof (decimal_point_spec _ _ t Ha Hb Ht Hn) as [H1 H2]. fold n in H1, H2.
  pose proof (ratio_Q m e) as E. set (x := num_Q (S754_finite false m e)) in *. set (b := (ratio m e).2) in *.
  assert (Hb' : (0 < inject_Z b)%Q) by (change 0%Q with (inject_Z 0); by rewrite <- Zlt_Qlt).
  rewrite Zle_Qle in H1. rewrite Zlt_Qlt in H2. rewrite !inject_Z_mult, E in H1, H2.
  split; [apply (Qmult_le_l _ _ (inject_Z b) Hb')|apply (Qmult_lt_l _ _ (inject_Z b) Hb')].
  - eapply Qle_trans; [exact H1|]. assert (HE : (x * inject_Z b * inject_Z (10 ^ t) == inject_Z b * (x * inject_Z (10 ^ t)))%Q) by ring. rewrite HE. apply Qle_refl.
  - eapply Qle_lt_trans; [|exact H2]. assert (HE : (x * inject_Z b * inject_Z (10 ^ t) == inject_Z b * (x * inject_Z (10 ^ t)))%Q) by ring. rewrite HE. apply Qle_refl.
Qed.

Lemma pow10_ge a b : (0 <= a <= b)%Z → (inject_Z (10 ^ a) <= inject_Z (10 ^ b))%Q.
Proof. intros H. rewrite <- Zle_Qle. apply Z.pow_le_mono_r; lia. Qed.

(** The point of a number between [1 / 100] and [10 ^ h]. *)
Lemma point_low m e : let n := decimal_point (ratio m e).1 (ratio m e).2 in
  (1 # 100 <= num_Q (S754_finite false m e))%Q → (-1 <= n)%Z.
Proof.
  intros n Hx. destruct (Z.le_gt_cases (-1) n) as [|Hn]; [done|exfalso].
  destruct (point_Q m e (1 - n) ltac:(lia) ltac:(unfold n in *; lia)) as [_ H]. fold n in H. replace (1 - n + n)%Z with 1%Z in H by lia.
  pose proof (pow10_ge 3 (1 - n) ltac:(lia)) as H3. change (inject_Z (10 ^ 1)) with 10%Q in H. change (inject_Z (10 ^ 3)) with 1000%Q in H3. nra.
Qed.

Lemma point_high m e h : let n := decimal_point (ratio m e).1 (ratio m e).2 in
  (0 <= h)%Z → (num_Q (S754_finite false m e) < inject_Z (10 ^ h))%Q → (n <= h)%Z.
Proof.
  intros n Hh Hx. destruct (Z.le_gt_cases n h) as [|Hn]; [done|exfalso].
  destruct (point_Q m e 0 ltac:(lia) ltac:(unfold n in *; lia)) as [H _]. fold n in H. rewrite Z.add_0_l, Z.pow_0_r in H.
  change (inject_Z 1) with 1%Q in H. pose proof (pow10_ge h (n - 1) ltac:(lia)). lra.
Qed.

(** Amounts in cents read back. *)
Lemma cent_back k : (0 <= k <= 1000000)%Z → num_back json_number (cent k) = true.
Proof.
  intros Hk. destruct (decide (k ∈ [0; 1; 10; 100; 1000; 10000; 100000; 1000000]%Z)) as [Hin|Hout].
  { repeat (apply elem_of_cons in Hin as [->|Hin]; [vm_compute; reflexivity|]). by apply not_elem_of_nil in Hin. }
  assert (Hk2 : (2 <= k)%Z) by (destruct (decide (k = 0)%Z); [set_solver|]; destruct (decide (k = 1)%Z); [set_solver|]; lia).
  pose proof (cent_error k Hk) as HA. rewrite p2_small, over_100 in HA. destruct HA as [A1 A2].
  assert (HkQ : (2 <= inject_Z k /\ inject_Z k <= 1000000)%Q).
  { change 2%Q with (inject_Z 2). change 1000000%Q with (inject_Z 1000000). rewrite <- !Zle_Qle. lia. }
  pose proof (cent_sign k Hk) as Hs. destruct (cent k) as [| | |s m e] eqn:E; cbn [num_Q] in A1, A2; try (exfalso; lra).
  cbn [negative] in Hs. subst s. change (sg false _) with (num_Q (S754_finite false m e)) in A1, A2. set (x := num_Q (S754_finite false m e)) in *.
  set (n := decimal_point (ratio m e).1 (ratio m e).2).
  assert (Hn : (-1 <= n <= 5)%Z).
  { split; [apply point_low; fold x; lra|]. apply point_high; [done|]. fold x. change (inject_Z (10 ^ 5)) with 100000%Q. lra. }
  destruct (point_Q m e 2 ltac:(lia) ltac:(fold n; lia)) as [_ P2]. fold n x in P2. change (inject_Z (10 ^ 2)) with 100%Q in P2.
  apply (decimal_back m e (Z.to_N k) 2); [|lia|fold n; lia|fold n; lia| |].
  - rewrite <- E. destruct k as [|p|p]; [lia| |lia]. cbn [Z.to_N num_of_dec]. change (0 <=? - (2))%Z with false. cbn iota.
    change (Z.to_pos (10 ^ (- - (2)))) with 100%positive. apply div_unique; [done|done|apply int_pos; lia|done|..].
    all: assert (Eq : (num_Q (S754_finite false p 0) / num_Q (S754_finite false 100 0) == inject_Z (Z.pos p) * (1 # 100))%Q)
      by (cbn [num_Q sg]; rewrite !p2_0; change (inject_Z 100) with 100%Q; field).
    + rewrite Eq, hundred_Q, num_of_Z_Q by (apply safe_k; lia). field.
    + rewrite Eq. pose proof (p2_lt (-1000) 0 ltac:(lia)) as Hl. rewrite p2_0 in Hl. pose proof p2_20. pose proof (p2_lt 20 900 ltac:(lia)).
      assert (p2 (-1000) <= p2 (-40))%Q by (apply p2_le; lia). rewrite p2_small in *. split; lra.
  - rewrite Z2N.id by lia. pose proof (ratio_Q m e) as R. fold x in R. destruct (ratio_pos m e) as [_ Hb].
    set (a := (ratio m e).1) in *. set (b := (ratio m e).2) in *. change (10 ^ 2)%Z with 100%Z.
    assert (Hb' : (1 <= inject_Z b)%Q) by (change 1%Q with (inject_Z 1); rewrite <- Zle_Qle; lia).
    assert ((- b < a * 100 - k * b)%Z ∧ (a * 100 - k * b < b)%Z); [|lia].
    unfold Z.sub. rewrite !Zlt_Qlt, !inject_Z_plus, !inject_Z_opp, !inject_Z_mult, R. change (inject_Z 100) with 100%Q. split; nra.
  - rewrite Z2N.id by lia. fold n. replace (n + 2)%Z with (2 + n)%Z by lia.
    assert (Hle : (inject_Z k < inject_Z (10 ^ (2 + n) + 1))%Q) by (rewrite inject_Z_plus; change (inject_Z 1) with 1%Q; lra).
    rewrite <- Zlt_Qlt in Hle. destruct (decide (k = 10 ^ (2 + n))%Z) as [Heq|]; [exfalso|lia].
    assert (Hc : (n = -1 ∨ n = 0 ∨ n = 1 ∨ n = 2 ∨ n = 3 ∨ n = 4 ∨ n = 5)%Z) by lia.
    destruct Hc as [Hc|[Hc|[Hc|[Hc|[Hc|[Hc|Hc]]]]]]; rewrite Hc in Heq; [..|rewrite Heq in Hk; lia].
    all: apply Hout; rewrite Heq; apply (bool_decide_eq_true_1 _); vm_compute; reflexivity.
Qed.

(** So do integers. *)
Lemma int_back z : (0 <= z < 2 ^ 53)%Z → num_back json_number (num_of_Z z) = true.
Proof.
  intros Hz. destruct (decide (z = 0)%Z) as [->|Hne]; [done|].
  pose proof (num_of_Z_Q z ltac:(unfold safe; lia)) as HQ. pose proof (int_pos z ltac:(lia)) as Hp.
  destruct (num_of_Z z) as [| | |[] m e] eqn:E; try done. set (x := num_Q (S754_finite false m e)) in *.
  set (n := decimal_point (ratio m e).1 (ratio m e).2).
  assert (H1 : (1 <= inject_Z z)%Q) by (change 1%Q with (inject_Z 1); rewrite <- Zle_Qle; lia).
  assert (Hn1 : (1 <= n)%Z).
  { destruct (Z.le_gt_cases 1 n) as [|Hn]; [done|exfalso].
    destruct (point_Q m e (1 - n) ltac:(lia) ltac:(unfold n in *; lia)) as [_ H]. fold n x in H. replace (1 - n + n)%Z with 1%Z in H by lia.
    pose proof (pow10_ge 1 (1 - n) ltac:(lia)) as H3. change (inject_Z (10 ^ 1)) with 10%Q in H, H3. nra. }
  assert (Hn2 : (n <= 16)%Z).
  { apply point_high; [done|]. fold x. rewrite HQ, <- Zlt_Qlt. lia. }
  destruct (point_Q m e 0 ltac:(lia) ltac:(fold n; lia)) as [_ P]. fold n x in P. rewrite Z.pow_0_r, Z.add_0_l in P. change (inject_Z 1) with 1%Q in P.
  apply (decimal_back m e (Z.to_N z) 0); [|lia|fold n; lia|fold n; lia| |].
  - rewrite <- E. destruct z as [|p|p]; [lia| |lia]. cbn [Z.to_N num_of_dec Z.opp]. change (0 <=? 0)%Z with true. cbn iota.
    change (Z.to_pos (10 ^ 0)) with 1%positive. by rewrite Pos.mul_1_r.
  - rewrite Z2N.id, Z.pow_0_r, Z.mul_1_r by lia. pose proof (ratio_Q m e) as R. fold x in R. destruct (ratio_pos m e) as [_ Hb].
    assert (R' : (ratio m e).1 = (z * (ratio m e).2)%Z) by (apply inject_Z_injective; rewrite inject_Z_mult, <- HQ; exact R).
    rewrite R', Z.sub_diag. exact Hb.
  - rewrite Z2N.id, Z.add_0_r by lia. fold n. rewrite Zlt_Qlt. lra.
Qed.

End DemoMoney.

(** * Quotes of the demonstration server

    What a plan costs: the full price without a plan, and otherwise the difference
    of the prices for the part of the period that is left, to the cent. The times
    of a state and the readings of the clock are whole seconds. *)

Import NumRound NumPrint DemoFixtures DemoEngine DemoMoney.

Module DemoQuote.

(** ** Whole seconds *)

Definition second (x : num) (t : Z) : Prop := (0 <= t < 2 ^ 51)%Z ∧ x = num_of_Z t.
Definition is_second (x : num) : Prop := ∃ t, second x t.

(** The readings of the clock, [Math.floor(Date.now() / 1000)]. *)
Definition ticks (clock : nat → num) : Prop := ∀ k, ∃ t, (0 <= t < 2 ^ 50)%Z ∧ clock k = num_of_Z t.

(** ** The part of the period that is left *)

Definition clamp (x : Q) : Q := Qmin 1 (Qmax 0 x).

Definition part (start stop now : Z) : Q := clamp (inject_Z (stop - now) / inject_Z (Z.max 1 (stop - start))).

Lemma clamp_within d x y : (0 <= d)%Q → within d x y → within d (clamp x) (clamp y).
Proof.
  unfold within, clamp. intros Hd [H1 H2].
  destruct (Q.max_spec 0 x) as [[? ->]|[? ->]], (Q.max_spec 0 y) as [[? ->]|[? ->]];
    repeat match goal with |- context [Qmin 1 ?z] => destruct (Q.min_spec 1 z) as [[? ->]|[? ->]] end; split; lra.
Qed.

Lemma good_not_nan x : good x → is_nan x = false.
Proof. by destruct x. Qed.

Lemma one_Q : (num_Q (num_of_Z 1) == 1)%Q.
Proof. apply num_of_Z_Q. unfold safe. lia. Qed.

Lemma clamp_num x : good x →
  let y := Math_min (num_of_Z 1) (Math_max zero x) in
  good y ∧ negative y = false ∧ (num_Q y == clamp (num_Q x))%Q.
Proof.
  intros Hx. assert (H1 : good (num_of_Z 1)) by (apply num_of_Z_good; unfold safe; lia).
  assert (Hm : let m := Math_max zero x in good m ∧ negative m = false ∧ (num_Q m == Qmax 0 (num_Q x))%Q).
  { unfold Math_max. rewrite (good_not_nan x Hx). cbn [is_nan zero orb].
    destruct (num_ltb zero x) eqn:E1.
    - apply ltb_Q in E1; [|done|done]. change (num_Q zero) with 0%Q in E1. split; [done|]. split; [|by rewrite Q.max_r by lra].
      destruct x as [| | |[] m e]; cbn [num_Q sg negative] in *; try done; try lra.
      pose proof (Zpos_Q m). pose proof (p2_pos e). nra.
    - apply ltb_Q_false in E1; [|done|done]. change (num_Q zero) with 0%Q in E1.
      assert (E : (if num_ltb x zero then zero else zero) = zero) by (by destruct (num_ltb x zero)).
      cbn. rewrite E. split; [done|]. split; [done|]. rewrite Q.max_l by lra. done. }
  cbn zeta in *. destruct Hm as (Hg & Hs & HQ). set (m := Math_max zero x) in *. unfold clamp. rewrite <- HQ.
  unfold Math_min. rewrite (good_not_nan m Hg), (good_not_nan (num_of_Z 1) H1). cbn [orb].
  destruct (num_ltb (num_of_Z 1) m) eqn:E1.
  - apply ltb_Q in E1; [|done|done]. rewrite one_Q in E1. split; [done|]. split; [done|]. rewrite one_Q, Q.min_l by lra. done.
  - apply ltb_Q_false in E1; [|done|done]. rewrite one_Q in E1. destruct (num_ltb m (num_of_Z 1)) eqn:E2.
    + split; [done|]. split; [done|]. by rewrite Q.min_r by lra.
    + apply ltb_Q_false in E2; [|done|done]. rewrite one_Q in E2. change (match num_of_Z 1 with S754_zero false => m | _ => num_of_Z 1 end) with (num_of_Z 1).
      split; [done|]. split; [done|]. rewrite one_Q, Q.min_l by lra. done.
Qed.

Lemma max_one z : safe z → Math_max (num_of_Z 1) (num_of_Z z) = num_of_Z (Z.max 1 z).
Proof.
  intros Hz. assert (H1 : safe 1) by (unfold safe; lia). unfold Math_max.
  rewrite (good_not_nan (num_of_Z z)), (good_not_nan (num_of_Z 1)) by (by apply num_of_Z_good). cbn [orb].
  rewrite !int_ltb by done. destruct (Z.ltb_spec 1 z) as [H|H]; [f_equal; lia|].
  replace (Z.max 1 z) with 1%Z by lia. by destruct (z <? 1)%Z.
Qed.

Lemma p2_minus2 : (p2 (-2) == 1 # 4)%Q.
Proof. apply (Qmult_inj_r _ _ (p2 2)); [by rewrite p2_Z by done|]. rewrite Qmult_comm, p2_inv, p2_Z by done. done. Qed.

(** The part computed by the code is exact up to [10 ^ -9]. *)
Lemma fraction_spec st now s e n :
  second (startTime st) s → second (endTime st) e → second now n →
  good (fraction now st) ∧ negative (fraction now st) = false ∧ (num_Q (fraction now st) <= 1)%Q
  ∧ within (1 # 1000000000) (part s e n) (num_Q (fraction now st)).
Proof.
  intros [Hs Es] [He Ee] [Hn En]. unfold fraction. rewrite Es, Ee, En.
  rewrite !num_sub_Z, max_one by (unfold safe; lia). set (M := Z.max 1 (e - s)) in *.
  unfold part. fold M. assert (HM : (1 <= M < 2 ^ 52)%Z) by lia. set (v := (inject_Z (e - n) / inject_Z M)%Q).
  assert (HMQ : (1 <= inject_Z M)%Q) by (change 1%Q with (inject_Z 1); rewrite <- Zle_Qle; lia).
  assert (HV : (num_Q (num_of_Z (e - n)) / num_Q (num_of_Z M) == v)%Q) by (rewrite !num_of_Z_Q by (unfold safe; lia); done).
  assert (HvM : (v * inject_Z M == inject_Z (e - n))%Q) by (subst v; field; lra).
  assert (Hb : (- inject_Z (2 ^ 51) < inject_Z (e - n) /\ inject_Z (e - n) < inject_Z (2 ^ 51))%Q).
  { rewrite <- inject_Z_opp, <- !Zlt_Qlt. lia. }
  assert (Hvb : (- p2 51 < v /\ v < p2 51)%Q) by (rewrite p2_Z by done; split; nra).
  pose proof (p2_lt 51 900 ltac:(lia)) as H9.
  pose proof (div_rounds_signed (num_of_Z (e - n)) (num_of_Z M) ltac:(apply num_finite_Z; unfold safe; lia) ltac:(apply int_pos; lia)
                ltac:(rewrite HV; split; lra)) as R. rewrite HV in R.
  set (x := num_div _ _) in *. destruct (clamp_num x (rounds_good _ _ R)) as (Hg & Hsg & HQ). split; [done|]. split; [done|]. rewrite HQ.
  split; [unfold clamp; apply Q.le_min_l|].
  destruct (Qlt_le_dec v 2) as [H2|H2]; [destruct (Qlt_le_dec (-2) v) as [H3|H3]|].
  - apply clamp_within; [done|]. eapply within_le; [|apply (rounds_error _ _ R 14); [lia|]].
    + change (14 - 54)%Z with (-40)%Z. rewrite p2_small. lra.
    + rewrite p2_Z by done. change (inject_Z (2 ^ 14)) with 16384%Q. split; lra.
  - pose proof (rounds_error _ _ R 52 ltac:(lia)) as HE. pose proof (p2_lt 51 52 ltac:(lia)). destruct HE as [E1 E2]; [split; lra|].
    change (52 - 54)%Z with (-2)%Z in *. rewrite p2_minus2 in *. unfold clamp. rewrite !Q.max_l, Q.min_r by lra. split; lra.
  - pose proof (rounds_error _ _ R 52 ltac:(lia)) as HE. pose proof (p2_lt 51 52 ltac:(lia)). destruct HE as [E1 E2]; [split; lra|].
    change (52 - 54)%Z with (-2)%Z in *. rewrite p2_minus2 in *. unfold clamp. rewrite !Q.max_r, !Q.min_l by lra. split; lra.
Qed.

(** ** Plans *)

(** The price of a plan in dollars. *)
Definition price (p : plan) : Z := num_to_Z (p_price p).

Definition plan_number (p : plan) : Z := num_to_Z (p_id p).

Lemma plan_facts p : p ∈ demoPlans →
  p_price p = num_of_Z (price p) ∧ (50 <= price p <= 600)%Z ∧ p_id p = num_of_Z (plan_number p) ∧ (1 <= plan_number p <= 4)%Z.
Proof.
  intros Hp. assert (H : Forall (fun p => bool_decide (p_price p = num_of_Z (price p)) && (50 <=? price p)%Z && (price p <=? 600)%Z
    && bool_decide (p_id p = num_of_Z (plan_number p)) && (1 <=? plan_number p)%Z && (plan_number p <=? 4)%Z = true) demoPlans).
  { repeat (constructor; [vm_compute; reflexivity|]). constructor. }
  rewrite Forall_forall in H. specialize (H p Hp). rewrite !andb_true_iff, !bool_decide_eq_true in H.
  destruct H as [[[[[H1 H2] H3] H4] H5] H6]. split_and!; (done || lia).
Qed.

Lemma findPlan_elem id p : findPlan id = Some p → p ∈ demoPlans ∧ num_eqb (p_id p) id = true.
Proof. intros [H1 H2]%List.find_some. by rewrite <- list_elem_of_In in H1. Qed.

Lemma activePlan_elem now st p : activePlan now st = Some p → p ∈ demoPlans.
Proof. unfold activePlan. destruct (num_leb _ _); [done|]. by intros [? _]%findPlan_elem. Qed.

(** ** Quotes *)

(** What [quote] answers: nothing for an unknown plan or one that is not dearer than
    the current one; otherwise [n] cents are due, the whole price or the part of the
    difference. *)
Definition quoted (clock : nat → num) (k : nat) (st : DemoState) (s e : Z) (id : num) (q : option Quote) : Prop :=
  match findPlan id, activePlan (clock k) st with
  | None, _ => q = None
  | Some target, None =>
      ∃ q', q = Some q' ∧ plan_id q' = id ∧ is_upgrade q' = false ∧ amount_due q' = cent (100 * price target)
  | Some target, Some current =>
      if (price target <=? price current)%Z then q = None
      else ∃ q' n, q = Some q' ∧ plan_id q' = id ∧ is_upgrade q' = true ∧ amount_due q' = cent n
        ∧ (0 <= n <= 100 * (price target - price current))%Z
        ∧ within (51 # 100) (100 * inject_Z (price target - price current) * part s e (num_to_Z (clock (k + 1)%nat))) (inject_Z n)
  end.

Lemma quote_exact clock k st s e id :
  ticks clock → second (startTime st) s → second (endTime st) e → quoted clock k st s e id (quote clock k st id).
Proof.
  intros Hclk Hs He. unfold quoted, quote. destruct (findPlan id) as [target|] eqn:Et; [|done].
  apply findPlan_elem in Et as [Ht _]. destruct (plan_facts target Ht) as (Pt & Bt & _ & _).
  destruct (activePlan (clock k) st) as [c|] eqn:Ec.
  - apply activePlan_elem in Ec. destruct (plan_facts c Ec) as (Pc & Bc & _ & _). rewrite Pt, Pc, int_leb by (unfold safe; lia).
    destruct (Z.leb_spec (price target) (price c)) as [|Hlt]; [done|]. rewrite num_sub_Z by (unfold safe; lia).
    destruct (Hclk (k + 1)%nat) as (n & Hn & En).
    destruct (fraction_spec st (clock (k + 1)%nat) s e n Hs He ltac:(split; [lia|done])) as (Hg & Hsg & H1 & HE).
    destruct (cents_part (price target - price c) (fraction (clock (k + 1)%nat) st) ltac:(lia) Hg Hsg H1) as (d & Hd & Ed & HD).
    eexists _, d. split; [reflexivity|]. cbn [plan_id is_upgrade amount_due]. split_and!; [done|done|done|lia|lia|].
    rewrite En, num_to_Z_of by (unfold safe; lia).
    assert (HDb : (0 <= inject_Z (price target - price c) /\ inject_Z (price target - price c) <= 1000)%Q).
    { change 0%Q with (inject_Z 0). change 1000%Q with (inject_Z 1000). rewrite <- !Zle_Qle. lia. }
    destruct HE, HD. split; nra.
  - rewrite Pt. change zero with (num_of_Z 0). rewrite num_sub_Z, Z.sub_0_r by (unfold safe; lia).
    assert (Hone : good (num_of_Z 1)) by (apply num_of_Z_good; unfold safe; lia).
    destruct (cents_part (price target) (num_of_Z 1) ltac:(lia) Hone eq_refl ltac:(rewrite one_Q; lra)) as (d & Hd & Ed & [HD1 HD2]).
    eexists. split; [reflexivity|]. cbn [plan_id is_upgrade amount_due]. split_and!; [done|done|]. rewrite Ed. f_equal.
    rewrite one_Q in HD1, HD2. assert (inject_Z (100 * price target - 1) < inject_Z d)%Q as Hl; [|rewrite <- Zlt_Qlt in Hl; lia].
    unfold Z.sub. rewrite inject_Z_plus, inject_Z_mult. change (inject_Z 100) with 100%Q. change (inject_Z (- (1))) with (- (1))%Q. lra.
Qed.

End DemoQuote.
