(* ===== verification/DemoLedger.v ===== *)
(** * The ledger of the demonstration server, and its stored text (Module DemoReload)

    The state of the engine is a ledger: the balance is what is left of ten thousand
    dollars after the purchases, to the cent, although it is computed with binary
    numbers. Every request keeps it, and so does loading the state again. *)

From stdpp Require Import relations.
From S2P Require Import Prelude JsNum Json NumText Records JsValue Playground PlaygroundStorage IntNum NumRound NumPrint DemoFixtures DemoEngine DemoServer DemoMoney.
From Stdlib Require Import Floats.SpecFloat.
Import PlaygroundStorage DemoFixtures DemoEngine DemoServer DemoMoney DemoQuote.

Module DemoLedger.

(** ** Ledgers *)

(** The [i]-th purchase, of [c] cents. *)
Record booked (i : nat) (o : Purchase) (c : Z) : Prop := {
  bk_id : o_id o = idx (i + 1);
  bk_amount : amount o = cent c ∧ (0 <= c)%Z;
  bk_plan : ∃ p, (1 <= p <= 4)%Z ∧ o_planId o = num_of_Z p;
  bk_time : is_second (time o)
}.

Record ledger (st : DemoState) (spent : list Z) : Prop := {
  ld_balance : balance st = cent (1000000 - zsum spent) ∧ (0 <= zsum spent <= 1000000)%Z;
  ld_length : length spent = length (purchases st);
  ld_purchases : ∀ i o c, purchases st !! i = Some o → spent !! i = Some c → booked i o c;
  (** [f] purchases started a period, at fifty dollars or more, and each period has
      at most one purchase per plan, in ascending order. *)
  ld_plan : ∃ p f, (0 <= p <= 4)%Z ∧ planId st = num_of_Z p ∧ (0 <= 5000 * f <= zsum spent)%Z ∧
    ((p = 0 ∧ Z.of_nat (length spent) = 0) ∨ (1 <= f ∧ Z.of_nat (length spent) <= 4 * f - 4 + p))%Z;
  ld_start : is_second (startTime st);
  ld_end : is_second (endTime st)
}.

Lemma zero_second : is_second zero.
Proof. exists 0%Z. split; [lia|done]. Qed.

Lemma ledger_initial : ledger initial [].
Proof.
  split; try apply zero_second; cbn.
  - split; [|lia]. vm_compute. reflexivity.
  - done.
  - done.
  - exists 0%Z, 0%Z. split_and!; (done || lia).
Qed.

Lemma ledger_count st spent : ledger st spent → (length (purchases st) <= 800)%nat.
Proof. intros [[_ Hz] Hl _ (p & f & Hp & _ & Hf & Hc) _ _]. lia. Qed.

(** ** Paying *)

(** A number that is [===] a positive integer is that integer. *)
Lemma eqb_int z x : (0 < z < 2 ^ 53)%Z → num_eqb (num_of_Z z) x = true → x = num_of_Z z.
Proof.
  intros Hz. destruct z as [|m|m]; [lia| |lia]. rewrite num_of_Z_pos by (unfold safe; lia). unfold canon.
  set (d := (_ - 53)%Z). set (m' := shl _ m). unfold num_eqb, SFeqb. destruct x as [|[]| |[] mx ex]; try done. cbn [SFcompare].
  destruct (Z.compare_spec d ex) as [->| |]; try done. fold (Pos.compare m' mx). by destruct (Pos.compare_spec m' mx) as [->| |].
Qed.

(** Dearer plans have larger numbers. *)
Lemma dearer_plan p q : p ∈ demoPlans → q ∈ demoPlans → (price p < price q)%Z → (plan_number p < plan_number q)%Z.
Proof.
  assert (H : Forall (fun p => Forall (fun q => ((price q <=? price p)%Z || (plan_number p <? plan_number q)%Z) = true) demoPlans) demoPlans).
  { repeat (apply List.Forall_cons; [repeat (apply List.Forall_cons; [vm_compute; reflexivity|]); apply List.Forall_nil|]). apply List.Forall_nil. }
  intros Hp Hq Hlt. rewrite Forall_forall in H. specialize (H p Hp). rewrite Forall_forall in H. specialize (H q Hq). lia.
Qed.

Lemma plan_found id p : findPlan id = Some p → p ∈ demoPlans ∧ id = num_of_Z (plan_number p) ∧ (1 <= plan_number p <= 4)%Z.
Proof.
  intros [Hp He]%findPlan_elem. destruct (plan_facts p Hp) as (_ & _ & Pi & Bi). rewrite Pi in He. apply eqb_int in He; [done|lia].
Qed.

(** A quote names a plan and an amount: at least fifty dollars without a current
    plan, and otherwise a plan with a larger number. *)
Lemma quoted_plan clock k st s e id q p :
  quoted clock k st s e id (Some q) → planId st = num_of_Z p → (0 <= p <= 4)%Z →
  ∃ p' n, (1 <= p' <= 4)%Z ∧ plan_id q = num_of_Z p' ∧ (0 <= n <= 60000)%Z ∧ amount_due q = cent n
    ∧ if is_upgrade q then (1 <= p < p')%Z else (5000 <= n)%Z.
Proof.
  unfold quoted. intros Hq Ep Hp. destruct (findPlan id) as [target|] eqn:Et; [|done]. apply plan_found in Et as (Ht & -> & Bi).
  destruct (plan_facts target Ht) as (_ & Bt & _ & _). destruct (activePlan (clock k) st) as [c|] eqn:Ec.
  - unfold activePlan in Ec. destruct (num_leb _ _); [done|]. apply plan_found in Ec as (Hc & Ec & Bc).
    rewrite Ep in Ec. apply num_of_Z_inj in Ec; [|unfold safe; lia|unfold safe; lia]. destruct (plan_facts c Hc) as (_ & Bc' & _ & _).
    destruct (Z.leb_spec (price target) (price c)) as [|Hlt]; [done|]. destruct Hq as (q' & n & [= <-] & Hpl & Hu & Hn & Hb & _).
    pose proof (dearer_plan c target Hc Ht Hlt). exists (plan_number target), n. rewrite Hpl, Hu. split_and!; (done || lia).
  - destruct Hq as (q' & [= <-] & Hpl & Hu & Hn). exists (plan_number target), (100 * price target)%Z. rewrite Hpl, Hu. split_and!; (done || lia).
Qed.

Lemma zsum_snoc l c : zsum (l ++ [c]) = (zsum l + c)%Z.
Proof. rewrite zsum_app. cbn. lia. Qed.

Lemma ledger_pay clock st spent s e id q :
  ticks clock → ledger st spent → quoted clock 1 st s e id (Some q) → num_ltb (balance st) (amount_due q) = false →
  ∃ c, amount_due q = cent c ∧ ledger (pay (clock 0%nat) q st) (spent ++ [c]).
Proof.
  intros Hclk [[Hb Hs] Hlen Hpur (p0 & f & Hp0 & Ep0 & Hf & Hcount) Hst Hen] Hq Hlt.
  destruct (quoted_plan _ _ _ _ _ _ _ p0 Hq Ep0 Hp0) as (p & c & Hp & Ep & Hc & Ec & Hup).
  destruct (Hclk 0%nat) as (t & Ht & Et). exists c. split; [done|].
  rewrite Hb, Ec, cent_ltb in Hlt by lia. apply Z.ltb_ge in Hlt.
  split; cbn [pay balance purchases planId startTime endTime].
  - rewrite zsum_snoc. split; [|lia]. rewrite Hb, Ec, cents_sub by lia. f_equal. lia.
  - rewrite !length_app. cbn. lia.
  - intros i o c' Ho Hc'. destruct (decide (i < length spent)%nat) as [Hi|Hi].
    + rewrite lookup_app_l in Ho by lia. rewrite lookup_app_l in Hc' by lia. by apply Hpur.
    + assert (i = length spent) as -> by (apply lookup_lt_Some in Hc'; rewrite length_app in Hc'; cbn in Hc'; lia).
      rewrite list_lookup_middle in Hc' by done. rewrite Hlen, list_lookup_middle in Ho by done. injection Ho as <-. injection Hc' as <-.
      split; cbn; [by rewrite Hlen|split; [done|lia]|by exists p|exists t; split; [lia|done]].
  - rewrite zsum_snoc, length_app. cbn [length]. exists p, (if is_upgrade q then f else f + 1)%Z.
    destruct (is_upgrade q); split_and!; (done || lia).
  - destruct (is_upgrade q); [done|]. exists t. split; [lia|done].
  - destruct (is_upgrade q); [done|]. exists (t + 2592000)%Z. split; [lia|]. rewrite Et. unfold DEMO_MONTH.
    change (30 * 24 * 60 * 60)%Z with 2592000%Z. apply num_add_Z; unfold safe; lia.
Qed.

(** ** What a request changes *)

Lemma answered_engine {A B} (a a' : A) (b b' : B) : Some (a, b) = Some (a', b') → b = b'.
Proof. by intros [= _ ->]. Qed.

(** One goal per branch of a cascade of routes. *)
Ltac routes := repeat match goal with |- (if ?b then _ else _) = _ → _ => let E := fresh "E" in destruct b eqn:E end.

Section server.
Context `{UrlLib} (toLowerCase : jsstr → jsstr) (VITE_APP_BASE_PATH : option jsstr) (snowApiLogo : jsstr).

Notation request := (request toLowerCase VITE_APP_BASE_PATH snowApiLogo).

Inductive effect (clock : nat → num) (e : engine) : engine → Prop :=
| eff_none : effect clock e e
| eff_auth b : effect clock e (update (set_auth b) e)
| eff_language l : authenticated (state e) = true → effect clock e (update (set_language l) e)
| eff_pay id q :
    authenticated (state e) = true → quote clock 1 (state e) id = Some q →
    num_ltb (balance (state e)) (amount_due q) = false → effect clock e (update (pay (clock 0%nat) q) e).

Lemma open_effect clock e method path data r e' :
  request_open VITE_APP_BASE_PATH snowApiLogo clock e method path data = Some (r, e') → effect clock e e'.
Proof.
  unfold request_open. routes; intros Hr; first [apply answered_engine in Hr as <-; first [apply eff_auth|apply eff_none]|done].
Qed.

Lemma open_none clock e method path data :
  request_open VITE_APP_BASE_PATH snowApiLogo clock e method path data = None → authenticated (state e) = true.
Proof. unfold request_open. routes; intros Hr; first [discriminate Hr|by apply negb_false_iff]. Qed.

Lemma write_effect clock e method path data r e' :
  authenticated (state e) = true → request_write clock e method path data = Some (r, e') → effect clock e e'.
Proof.
  intros Ha. unfold request_write. destruct (_ && _).
  { intros Hr. apply answered_engine in Hr as <-. apply eff_none. }
  match goal with |- match ?x with Some _ => _ | None => _ end = _ → _ => destruct x as [l|] end.
  { intros Hr. apply answered_engine in Hr as <-. by apply eff_language. }
  destruct (_ && _); [|routes; intros Hr; first [apply answered_engine in Hr as <-; apply eff_none|done]].
  destruct (quote _ _ _ _) as [q|] eqn:Hq; [destruct (num_ltb _ _) eqn:Hb|]; intros Hr; apply answered_engine in Hr as <-;
    [apply eff_none|by eapply eff_pay|apply eff_none].
Qed.

Lemma request_effect clock e method address payload : effect clock e (request clock e method address payload).2.
Proof.
  unfold DemoServer.request. destruct (url_new address) as [u|]; [|apply eff_none]. cbn zeta.
  destruct (request_open _ _ _ _ _ _ _) as [[r e']|] eqn:Ho; [by eapply open_effect|]. apply open_none in Ho.
  destruct (request_write _ _ _ _ _) as [[r e']|] eqn:Hw; [by eapply write_effect|apply eff_none].
Qed.

Lemma ledger_set_auth b st spent : ledger st spent → ledger (set_auth b st) spent.
Proof. by intros []. Qed.
Lemma ledger_set_language l st spent : ledger st spent → ledger (set_language l st) spent.
Proof. by intros []. Qed.

Lemma effect_ledger clock e e' spent :
  ticks clock → effect clock e e' → ledger (state e) spent →
  ∃ spent', ledger (state e') spent' ∧ spent `prefix_of` spent'.
Proof.
  intros Hclk [|b|l Ha|id q Ha Hq Hb] HL; [by exists spent|exists spent; split; [by apply ledger_set_auth|done]|
    exists spent; split; [by apply ledger_set_language|done]|].
  destruct (ld_start _ _ HL) as [s Hs], (ld_end _ _ HL) as [t Ht].
  pose proof (quote_exact clock 1 (state e) s t id Hclk Hs Ht) as HQ. rewrite Hq in HQ.
  destruct (ledger_pay clock (state e) spent s t id q Hclk HL HQ Hb) as (c & _ & Hl). exists (spent ++ [c]). split; [done|]. by exists [c].
Qed.

End server.
End DemoLedger.

(** * Saving and loading the demonstration state

    The state that is saved is the one loaded, up to the hundred purchases the
    schema allows, and the ledger survives any sequence of requests and reloads. *)

Import PlaygroundStorage DemoFixtures DemoEngine DemoServer DemoMoney DemoQuote DemoLedger.

Module DemoReload.

(** ** The text of a state *)

Lemma wellformed_num x : num_back json_number x = true → wellformed (JNum x).
Proof. done. Qed.

Lemma wellformed_int z : (0 <= z < 2 ^ 53)%Z → wellformed (JNum (num_of_Z z)).
Proof. intros Hz. apply wellformed_num. by apply int_back. Qed.

Lemma wellformed_second x : is_second x → wellformed (JNum x).
Proof. intros (t & Ht & ->). apply wellformed_int. lia. Qed.

Lemma wellformed_obj_table l :
  NoDup (table l).*1 → plain_keys (table (map (fun kv : string * json => (kv.1, Some kv.2)) l)) = true →
  Forall (fun kv => wellformed kv.2) l → wellformed (obj l).
Proof.
  intros Hd Hp Hw. assert (E : obj l = JObj (present (table (map (fun kv : string * json => (kv.1, Some kv.2)) l)))).
  { unfold obj. f_equal. unfold table, present. clear. induction l as [|[k v] l IH]; [done|]. cbn. by rewrite IH. }
  rewrite E. apply wellformed_record; [|done|].
  - assert (Ek : (table (map (fun kv : string * json => (kv.1, Some kv.2)) l)).*1 = (table l).*1).
    { clear. induction l as [|[k v] l IH]; [done|]. cbn. f_equal. exact IH. }
    by rewrite Ek.
  - unfold table. clear -Hw. induction Hw as [|[k v] l Hv Hw IH]; [apply List.Forall_nil|]. cbn. by apply List.Forall_cons.
Qed.

Lemma booked_wellformed i o c : (Z.of_nat i < 1000000)%Z → (c <= 1000000)%Z → booked i o c → wellformed (purchaseJson o).
Proof.
  intros Hi Hc [Hid [Ha Hc0] (p & Hp & Ep) Ht]. apply wellformed_obj_table; [literal_keys|vm_compute; reflexivity|].
  repeat apply List.Forall_cons; try apply List.Forall_nil; cbn [snd].
  - rewrite Hid. apply wellformed_int. lia.
  - rewrite Ep. apply wellformed_int. lia.
  - rewrite Ha. apply wellformed_num, cent_back. lia.
  - by apply wellformed_second.
Qed.

Lemma zsum_elem l i c : Forall (Z.le 0) l → l !! i = Some c → (c <= zsum l)%Z.
Proof.
  intros Hl Hi. apply list_elem_of_lookup_2 in Hi. induction Hl as [|x l Hx Hl IH]; [by apply not_elem_of_nil in Hi|].
  cbn [zsum foldr]. fold (zsum l). pose proof (zsum_nonneg l Hl). apply elem_of_cons in Hi as [->|Hi]; [lia|]. specialize (IH Hi). lia.
Qed.

Section ledgers.
Context (st : DemoState) (spent : list Z) (HL : ledger st spent).

Lemma spent_nonneg : Forall (Z.le 0) spent.
Proof.
  apply Forall_lookup. intros i c Hc. destruct (lookup_lt_is_Some_2 (purchases st) i) as [o Ho].
  - apply lookup_lt_Some in Hc. by rewrite <- (ld_length _ _ HL).
  - by destruct (bk_amount _ _ _ (ld_purchases _ _ HL i o c Ho Hc)).
Qed.

Lemma purchase_booked i o : purchases st !! i = Some o → ∃ c, booked i o c ∧ (0 <= c <= 1000000)%Z.
Proof.
  intros Ho. destruct (lookup_lt_is_Some_2 spent i) as [c Hc].
  - apply lookup_lt_Some in Ho. by rewrite (ld_length _ _ HL).
  - exists c. pose proof (ld_purchases _ _ HL i o c Ho Hc) as Hb. split; [done|]. destruct (bk_amount _ _ _ Hb).
    pose proof (zsum_elem spent i c spent_nonneg Hc). destruct (ld_balance _ _ HL). lia.
Qed.

Lemma state_wellformed : wellformed (stateJson st).
Proof.
  pose proof (ledger_count _ _ HL) as Hlen. destruct (ld_balance _ _ HL) as [Hb Hs]. destruct (ld_plan _ _ HL) as (p & f & Hp & Ep & _ & _).
  apply wellformed_obj_table; [literal_keys|vm_compute; reflexivity|].
  repeat apply List.Forall_cons; try apply List.Forall_nil; cbn [snd]; try done.
  - rewrite Hb. apply wellformed_num, cent_back. lia.
  - rewrite Ep. apply wellformed_int. lia.
  - apply wellformed_second, (ld_start _ _ HL).
  - apply wellformed_second, (ld_end _ _ HL).
  - apply wellformed_arr, Forall_fmap, Forall_lookup. intros i o Ho. destruct (purchase_booked i o Ho) as (c & Hc & Hb2).
    apply lookup_lt_Some in Ho. eapply booked_wellformed; [|by apply Hb2|exact Hc]. lia.
Qed.

Lemma state_parsed : JSON_parse (JSON_stringify (stateJson st)) = Some (stateJson st).
Proof. destruct state_wellformed. by apply (JSON_parse_printed compact json_number). Qed.

(** ** The schema *)

Lemma z_number_int z : safe z → z_number (Some (JNum (num_of_Z z))) = Some (num_of_Z z).
Proof. intros Hz. unfold z_number. by rewrite num_finite_Z. Qed.

Lemma good_finite x : NumRound.good x → num_is_finite x = true.
Proof. by destruct x. Qed.

Lemma cent_leb a b : (0 <= a <= b)%Z → (b <= 1000000)%Z → num_leb (cent a) (cent b) = true.
Proof.
  intros Ha Hb. apply NumRound.leb_Q; [apply cent_good; lia|apply cent_good; lia|].
  apply NumRound.ltb_Q_false; [apply cent_good; lia|apply cent_good; lia|]. rewrite cent_ltb by lia. apply Z.ltb_ge. lia.
Qed.

Lemma z_check_num q x : num_is_finite x = true → q x = true → z_check q (Some (JNum x)) = Some x.
Proof. intros Hf Hq. unfold z_check, z_number. rewrite Hf. cbn. by rewrite Hq. Qed.

Lemma z_check_cent c : (0 <= c <= 1000000)%Z → z_check nonnegative (Some (JNum (cent c))) = Some (cent c).
Proof.
  intros Hc. apply z_check_num; [by apply good_finite, cent_good|]. unfold nonnegative. change zero with (cent 0). apply cent_leb; lia.
Qed.

Lemma z_check_balance c : (0 <= c <= 1000000)%Z →
  z_check (fun x => nonnegative x && num_leb x (num_of_Z 10000)) (Some (JNum (cent c))) = Some (cent c).
Proof.
  intros Hc. apply z_check_num; [by apply good_finite, cent_good|]. unfold nonnegative. change zero with (cent 0).
  assert (E : num_of_Z 10000 = cent 1000000) by (vm_compute; reflexivity). rewrite E, !cent_leb by lia. done.
Qed.

Lemma z_check_plan p : (0 <= p <= 4)%Z →
  z_check (fun x => is_safe_integer x && nonnegative x && num_leb x (num_of_Z 4)) (Some (JNum (num_of_Z p))) = Some (num_of_Z p).
Proof. intros Hp. assert (p = 0 ∨ p = 1 ∨ p = 2 ∨ p = 3 ∨ p = 4)%Z as [->|[->|[->|[->| ->]]]] by lia; vm_compute; reflexivity. Qed.

Lemma nonnegative_int z : (0 <= z < 2 ^ 53)%Z → nonnegative (num_of_Z z) = true.
Proof. intros Hz. unfold nonnegative. change zero with (num_of_Z 0). rewrite NumRound.int_leb by (unfold safe; lia). lia. Qed.

Lemma z_check_second x : is_second x → z_check nonnegative (Some (JNum x)) = Some x.
Proof.
  intros (t & Ht & ->). apply z_check_num; [apply num_finite_Z; unfold safe; lia|]. apply nonnegative_int. lia.
Qed.

Lemma purchase_accepted i o : purchases st !! i = Some o → (Z.of_nat i < 1000000)%Z → purchaseSchema (purchaseJson o) = Some o.
Proof.
  intros Ho Hi. destruct (purchase_booked i o Ho) as (c & [Hid [Ha Hc0] (p & Hp & Ep) (t & Ht & Et)] & Hc).
  unfold purchaseSchema, purchaseJson, obj. rewrite !map_get_table. cbn [assoc String.eqb Ascii.eqb Bool.eqb].
  rewrite Hid, Ep, Ha, Et. unfold idx. rewrite !z_number_int, z_check_cent by (unfold safe; lia). cbn [mbind option_bind].
  f_equal. destruct o; cbn in *. by subst.
Qed.

Lemma purchases_accepted : mapM purchaseSchema (map purchaseJson (purchases st)) = Some (purchases st).
Proof.
  pose proof (ledger_count _ _ HL). apply mapM_Some_2. apply Forall2_lookup. intros i. rewrite list_lookup_fmap.
  destruct (purchases st !! i) as [o|] eqn:Ho; cbn; constructor. apply (purchase_accepted i); [done|]. apply lookup_lt_Some in Ho. lia.
Qed.

(** Up to a hundred purchases the schema returns the state that was printed; beyond
    them it refuses it. *)
Lemma schema_limit :
  stateSchema (stateJson st) = if (length (purchases st) <=? 100)%nat then Some st else None.
Proof.
  destruct (ld_balance _ _ HL) as [Hb Hs]. destruct (ld_plan _ _ HL) as (p & f & Hp & Ep & _ & _).
  unfold stateSchema, stateJson, obj. rewrite !map_get_table. cbn [assoc String.eqb Ascii.eqb Bool.eqb z_boolean z_string].
  rewrite Hb, Ep, z_check_balance, z_check_plan, !z_check_second by (lia || apply (ld_start _ _ HL) || apply (ld_end _ _ HL)).
  cbn [mbind option_bind z_purchases]. rewrite purchases_accepted by done. cbn [mbind option_bind]. rewrite length_map.
  destruct (_ <=? 100)%nat; [|done]. f_equal. destruct st; cbn in *. by subst.
Qed.
End ledgers.

End DemoReload.
