(* ===== verification/DemoSession.v ===== *)
(** * Sessions with the demonstration server

    A session is a sequence of requests and reloads of the page. The ledger holds
    after every session; a reload restores the state; every request is answered; a
    visitor who is not signed in reaches the open routes only; a purchase is charged
    as it was quoted; pages list the items in order (Module DemoPages). Beyond a hundred purchases a
    reload loses the session, and a stored purchase of an unknown plan makes the
    list of orders throw. *)

From stdpp Require Import relations.
From Stdlib Require Import QArith Lqa.
From S2P Require Import Prelude JsNum Json NumText Records JsValue Playground PlaygroundStorage IntNum NumRound NumPrint DemoFixtures DemoEngine DemoServer DemoMoney DemoLedger.
From Stdlib Require Import Floats.SpecFloat.
Import PlaygroundStorage DemoFixtures DemoEngine DemoServer DemoMoney DemoQuote DemoLedger DemoReload.

Module DemoSession.

(** ** Loading *)

(** The storage has no state or one that the engine has saved. *)
Definition kept (s : option Storage) : Prop :=
  match s with
  | None => True
  | Some s => ∀ text, map_get STORAGE_KEY (items s) = Some text →
      ∃ st spent, ledger st spent ∧ text = JSON_stringify (stateJson st)
  end.

Lemma state_text_nonempty st : nonempty (JSON_stringify (stateJson st)) = true.
Proof. done. Qed.

(** A saved state is loaded when the schema accepts it. *)
Lemma loaded_saved s st spent : ledger st spent → map_get STORAGE_KEY (items s) = Some (JSON_stringify (stateJson st)) →
  readable s = true → construct (Some s) = mkEngine (Some s) (if (length (purchases st) <=? 100)%nat then st else initial).
Proof.
  intros HL Hs Hr. unfold construct, storedText, getItem. rewrite Hr. cbn [res_bind]. rewrite Hs. cbn [default from_option id].
  unfold str_or. rewrite state_text_nonempty, (state_parsed st spent HL). cbn [mbind option_bind]. rewrite (schema_limit st spent HL).
  by destruct (_ <=? 100)%nat.
Qed.

Lemma loaded_ledger s : kept s → ∃ spent, ledger (state (construct s)) spent.
Proof.
  destruct s as [s|]; [|intros _; exists []; apply ledger_initial]. intros Hk. destruct (readable s) eqn:Hr.
  - destruct (map_get STORAGE_KEY (items s)) as [text|] eqn:Ht.
    + destruct (Hk text Ht) as (st & spent & HL & ->). rewrite (loaded_saved s st spent HL Ht Hr). cbn [state].
      destruct (_ <=? 100)%nat; [by exists spent|exists []; apply ledger_initial].
    + exists []. unfold construct, storedText, getItem. rewrite Hr. cbn [res_bind]. rewrite Ht. apply ledger_initial.
  - exists []. unfold construct, storedText, getItem. rewrite Hr. apply ledger_initial.
Qed.

Lemma save_kept e spent : kept (storage e) → ledger (state e) spent → kept (storage (save e)).
Proof.
  unfold save. cbn [storage]. destruct (storage e) as [s|]; [|done]. intros Hk HL. unfold setItem.
  destruct (accepts s _ _ _); cbn [try_storage kept]; [|done]. intros text. cbn [items with_items].
  rewrite map_get_set_eq. intros [= <-]. by exists (state e), spent.
Qed.

Section server.
Context `{UrlLib} (toLowerCase : jsstr → jsstr) (VITE_APP_BASE_PATH : option jsstr) (snowApiLogo : jsstr).

Notation request := (request toLowerCase VITE_APP_BASE_PATH snowApiLogo).

(** ** Sessions *)

Inductive event :=
| Ask (clock : nat → num) (method address : jsstr) (payload : option json)
| Reload.

Definition happen (e : engine) (ev : event) : engine :=
  match ev with
  | Ask clock method address payload => (request clock e method address payload).2
  | Reload => construct (storage e)
  end.

Definition session (s : option Storage) (evs : list event) : engine := foldl happen (construct s) evs.

Definition timed (ev : event) : Prop := match ev with Ask clock _ _ _ => ticks clock | Reload => True end.

Definition sound (e : engine) : Prop := kept (storage e) ∧ ∃ spent, ledger (state e) spent.

Lemma effect_kept clock e e' : ticks clock → effect clock e e' → sound e → sound e'.
Proof.
  intros Hclk He [Hk [spent HL]]. destruct (effect_ledger clock e e' spent Hclk He HL) as (spent' & HL' & _).
  split; [|by exists spent']. destruct He as [|b|l Ha|id q Ha Hq Hb]; [done|..]; by apply (save_kept _ spent').
Qed.

Lemma happen_sound e ev : timed ev → sound e → sound (happen e ev).
Proof.
  destruct ev as [clock method address payload|]; intros Ht Hs; cbn [happen].
  - eapply effect_kept; [exact Ht|apply request_effect|exact Hs].
  - destruct Hs as [Hk _]. split; [done|]. by apply loaded_ledger.
Qed.

Lemma session_sound s evs : kept s → Forall timed evs → sound (session s evs).
Proof.
  intros Hk. unfold session. assert (Hs : sound (construct s)) by (split; [done|by apply loaded_ledger]).
  revert Hs. generalize (construct s). induction evs as [|ev evs IH]; intros e Hs Ht; [done|].
  apply Forall_cons in Ht as [Ht Hts]. cbn [foldl]. apply IH; [|done]. by apply happen_sound.
Qed.

(** C11: Whatever requests a visitor sends and however often the page is reloaded, the
    balance is ten thousand dollars less the amounts of the purchases, exactly to the
    cent; the purchases are numbered from one, name plans that exist, and are at most
    eight hundred. *)
Theorem session_ledger s evs :
  kept s → Forall timed evs →
  ∃ spent, ledger (state (session s evs)) spent ∧ (length (purchases (state (session s evs))) <= 800)%nat.
Proof.
  intros Hk Ht. destruct (session_sound s evs Hk Ht) as [_ [spent HL]]. exists spent. split; [done|]. by eapply ledger_count.
Qed.

(** C34: The state saved by a request that changed it is the state after a reload, as
    long as there are at most a hundred purchases and the storage takes the text. *)
Theorem reload_keeps_state s e st spent :
  storage e = Some s → state e = st → ledger st spent → readable s = true →
  accepts s (items s) STORAGE_KEY (JSON_stringify (stateJson st)) = true → (length (purchases st) <= 100)%nat →
  state (construct (storage (save e))) = st.
Proof.
  intros Hs <- HL Hr Ha Hl. unfold save. rewrite Hs. cbn [storage]. unfold setItem. rewrite Ha. cbn [try_storage].
  rewrite (loaded_saved _ (state e) spent HL); [|cbn [items with_items]; apply map_get_set_eq|done]. cbn [state].
  by rewrite (proj2 (Nat.leb_le _ _)).
Qed.

(** A session with more than a hundred purchases is lost by a reload: the schema of
    the stored state refuses it, and the visitor is signed out with a full balance. *)
Theorem long_session_lost s e st spent :
  storage e = Some s → state e = st → ledger st spent → readable s = true →
  accepts s (items s) STORAGE_KEY (JSON_stringify (stateJson st)) = true → (100 < length (purchases st))%nat →
  state (construct (storage (save e))) = initial.
Proof.
  intros Hs <- HL Hr Ha Hl. unfold save. rewrite Hs. cbn [storage]. unfold setItem. rewrite Ha. cbn [try_storage].
  rewrite (loaded_saved _ (state e) spent HL); [|cbn [items with_items]; apply map_get_set_eq|done]. cbn [state].
  by rewrite (proj2 (Nat.leb_gt _ _)).
Qed.

(** ** Answers *)

(** The statuses the server uses. *)
Definition answered (r : DemoResult) : Prop :=
  status r ∈ [200; 400; 401; 403]%Z ∧ map_get (js "success") (body r) = Some (JBool (status r =? 200)%Z).

Lemma answered_with v extra : js "success" ∉ extra.*1 → answered (ok_with v extra).
Proof.
  intros Hx. split; [by constructor|]. cbn [ok_with status body]. change (200 =? 200)%Z with true.
  assert (Hf : ∀ b, map_get (js "success") b = Some (JBool true) →
    map_get (js "success") (foldl (fun b kv => map_set kv.1 kv.2 b) b extra) = Some (JBool true)).
  { clear v. induction extra as [|[k x] extra IH]; intros b Hb; [done|]. cbn [foldl fst snd]. cbn in Hx.
    apply not_elem_of_cons in Hx as [Hk Hx]. apply IH; [done|]. by rewrite map_get_set_ne. }
  apply Hf. reflexivity.
Qed.

Lemma answered_ok v : answered (ok v).
Proof. apply answered_with. apply not_elem_of_nil. Qed.

Lemma answered_fail m code : code ∈ [400; 401; 403]%Z → answered (fail m code).
Proof.
  intros Hc. split; cbn [fail status]; [by constructor|]. assert (code = 400 ∨ code = 401 ∨ code = 403)%Z as [->|[->| ->]] by set_solver; reflexivity.
Qed.

Lemma some_eq {A} (a b : A) : Some a = Some b → a = b.
Proof. by intros [=]. Qed.

(** Every branch of a group of routes is an answer. *)
Ltac branches := routes; let Hr := fresh in intros Hr; first [discriminate Hr|apply some_eq in Hr as <-; first [apply answered_ok|apply answered_with; apply (bool_decide_eq_false_1 _); vm_compute; reflexivity]].

Section routes.
Context (clock : nat → num) (st : DemoState) (path : jsstr) (param : jsstr → option jsstr).

Lemma users_answered r : read_users toLowerCase clock st path param = Some r → answered r.
Proof. unfold read_users. branches. Qed.
Lemma monitoring_answered r : read_monitoring toLowerCase clock path param = Some r → answered r.
Proof. unfold read_monitoring. branches. Qed.
Lemma account_answered r : read_account clock st path param = Some r → answered r.
Proof.
  assert (Hq : ∀ f, answered (match queried_quote clock st param with Some q => ok (f q) | None => not_for_sale end)).
  { intros f. destruct (queried_quote clock st param); [apply answered_ok|]. apply answered_fail. set_solver. }
  unfold read_account. routes; intros Hr; first [discriminate Hr|apply some_eq in Hr as <-; first [apply answered_ok|apply Hq|apply (Hq (fun q => obj _))|apply answered_with; apply (bool_decide_eq_false_1 _); vm_compute; reflexivity]].
Qed.
Lemma usage_answered r : read_usage toLowerCase snowApiLogo clock path param = Some r → answered r.
Proof. unfold read_usage. branches. Qed.
Lemma performance_answered r : read_performance path = Some r → answered r.
Proof. unfold read_performance. branches. Qed.
Lemma channels_answered r : read_channels toLowerCase clock path param = Some r → answered r.
Proof. unfold read_channels. branches. Qed.
Lemma catalog_answered r : read_catalog toLowerCase clock path param = Some r → answered r.
Proof. unfold read_catalog. branches. Qed.
Lemma system_answered r : read_system clock path = Some r → answered r.
Proof. unfold read_system. branches. Qed.

(** The orders of a ledger are listed. *)
Lemma orders_listed spent : ledger st spent → ∃ l, res_map orderJson (purchases st) = Ok l.
Proof.
  intros HL. assert (Ho : Forall (fun o => ∃ j, orderJson o = Ok j) (purchases st)).
  { apply Forall_lookup. intros i o Ho. destruct (purchase_booked st spent HL i o Ho) as (c & [_ _ (p & Hp & Ep) _] & _).
    unfold orderJson, order_title. rewrite Ep. assert (p = 1 ∨ p = 2 ∨ p = 3 ∨ p = 4)%Z as [->|[->|[->| ->]]] by lia; by eexists. }
  induction Ho as [|o l [j Hj] Hl [js Hjs]]; [by exists []|]. exists (j :: js). cbn [res_map]. rewrite Hj. cbn [res_bind]. by rewrite Hjs.
Qed.

Lemma billing_answered spent r : ledger st spent → read_billing toLowerCase clock st path param = Some r → ∃ x, r = Ok x ∧ answered x.
Proof.
  intros HL. unfold read_billing. destruct (orders_listed spent HL) as [l Hl].
  destruct (path_in path ["/api/token"; "/api/token/search"]%string); [intros Hr; apply some_eq in Hr as <-; eexists; split; [reflexivity|apply answered_ok]|].
  destruct (path_is path "/api/user/topup/info"); [intros Hr; apply some_eq in Hr as <-; eexists; split; [reflexivity|apply answered_ok]|].
  destruct (path_in path _); [|done]. destruct (_ && _); [intros Hr; apply some_eq in Hr as <-; eexists; split; [reflexivity|apply answered_ok]|].
  rewrite Hl. cbn [res_bind]. intros Hr. apply some_eq in Hr as <-. eexists. split; [reflexivity|apply answered_ok].
Qed.

Lemma first_answered l : Forall (fun o => match o with Some r => ∃ x, r = Ok x ∧ answered x | None => True end) l →
  ∃ x, first_of l = Ok x ∧ answered x.
Proof.
  induction 1 as [|[r|] l Hr Hl IH]; cbn [first_of]; [|done|done]. eexists. split; [reflexivity|]. apply answered_fail. set_solver.
Qed.

Lemma lifted (o : option DemoResult) : (∀ r, o = Some r → answered r) →
  match Ok <$> o with Some r => ∃ x, r = Ok x ∧ answered x | None => True end.
Proof. intros Hr. destruct o as [r|]; [|done]. exists r. split; [done|]. by apply Hr. Qed.

Lemma read_answered spent : ledger st spent → ∃ r, request_read toLowerCase snowApiLogo clock st path param = Ok r ∧ answered r.
Proof.
  intros HL. apply first_answered. repeat apply List.Forall_cons; try apply List.Forall_nil; try apply lifted.
  - apply users_answered.
  - apply monitoring_answered.
  - apply account_answered.
  - destruct (read_billing _ _ _ _ _) as [r|] eqn:Hr; [|done]. by eapply billing_answered.
  - apply usage_answered.
  - apply performance_answered.
  - apply channels_answered.
  - apply catalog_answered.
  - apply system_answered.
Qed.
End routes.

Lemma open_answered clock e method path data r e' :
  request_open VITE_APP_BASE_PATH snowApiLogo clock e method path data = Some (r, e') → answered r.
Proof.
  unfold request_open. routes; intros Hr; first [discriminate Hr|injection Hr as <- _; first [apply answered_ok|apply answered_fail; set_solver]].
Qed.

Lemma write_answered clock e method path data r e' : request_write clock e method path data = Some (r, e') → answered r.
Proof.
  unfold request_write. destruct (_ && _); [intros Hr; injection Hr as <- _; apply answered_ok|].
  match goal with |- match ?x with Some _ => _ | None => _ end = _ → _ => destruct x as [l|] end; [intros Hr; injection Hr as <- _; apply answered_ok|].
  destruct (_ && _); [destruct (quote _ _ _ _); [destruct (num_ltb _ _)|]|routes]; intros Hr; try discriminate Hr; injection Hr as <- _;
    first [apply answered_ok|apply answered_fail; set_solver].
Qed.

Lemma request_answers clock e method address payload u spent :
  url_new address = Some u → ledger (state e) spent →
  ∃ r, (request clock e method address payload).1 = Ok r ∧ answered r.
Proof.
  intros Hu HL. unfold DemoServer.request. rewrite Hu. cbn zeta.
  destruct (request_open _ _ _ _ _ _ _) as [[r e']|] eqn:Ho; [exists r; split; [done|by eapply open_answered]|].
  destruct (request_write _ _ _ _ _) as [[r e']|] eqn:Hw; [exists r; split; [done|by eapply write_answered]|].
  by eapply read_answered.
Qed.

(** C39: In a session every request with a well-formed address is answered: with one of
    four statuses, and with success exactly when the status is 200. *)
Theorem request_answered clock s evs method address payload u :
  url_new address = Some u → kept s → Forall timed evs →
  ∃ r, (request clock (session s evs) method address payload).1 = Ok r ∧ answered r.
Proof.
  intros Hu Hk Ht. destruct (session_sound s evs Hk Ht) as [_ [spent HL]]. by apply (request_answers _ _ _ _ _ u spent).
Qed.

(** ** Signing in *)

Definition open_routes : list (jsstr * jsstr) :=
  [(js "GET", js "/api/status"); (js "GET", js "/api/setup"); (js "GET", js "/api/user-agreement");
   (js "GET", js "/api/privacy-policy"); (js "GET", js "/api/subscription/plans"); (js "POST", js "/api/user/login");
   (js "GET", js "/api/user/logout")].

Definition credentials (data : json) : bool :=
  is_text (prop_of data "username") "snowapidemo" && is_text (prop_of data "password") "1234567890".

Ltac open_route := apply (bool_decide_eq_true_1 _); vm_compute; reflexivity.

Lemma set_auth_same st : set_auth (authenticated st) st = st.
Proof. by destruct st. Qed.

Lemma route_is method path m p : bool_decide (method = js m) && path_is path p = true → (method, path) = (js m, js p).
Proof. unfold path_is. intros [H1%bool_decide_eq_true H2%bool_decide_eq_true]%andb_true_iff. by subst. Qed.

(** A visitor who is not signed in reaches the seven open routes only; every other
    request is refused with 401 and changes nothing. What an open route changes is
    whether the visitor is signed in, and only the credentials of the demo sign in. *)
Theorem signed_out_confined clock e method address payload u :
  url_new address = Some u → authenticated (state e) = false →
  let path := strip_slashes (pathname u) in
  let '(r, e') := request clock e method address payload in
  (r = Ok (fail "Please sign in to the demo first" 401) ∧ e' = e)
  ∨ ((method, path) ∈ open_routes ∧ (∃ b, state e' = set_auth b (state e))
     ∧ (authenticated (state e') = true → credentials (data_of payload) = true)).
Proof.
  intros Hu Ha path. unfold DemoServer.request. rewrite Hu. fold path. cbn zeta.
  assert (Hkeep : ∃ b, state e = set_auth b (state e)) by (exists (authenticated (state e)); by rewrite set_auth_same).
  assert (Hno : authenticated (state e) = true → credentials (data_of payload) = true) by (by rewrite Ha).
  destruct (request_open _ _ _ _ _ _ _) as [[r e']|] eqn:Ho; [|apply open_none in Ho; congruence].
  revert Ho. unfold request_open.
  destruct (bool_decide (method = js "GET") && path_is path "/api/status") eqn:E1.
  { intros Ho. apply answered_engine in Ho as <-. right. rewrite (route_is _ _ _ _ E1). split; [open_route|done]. }
  destruct (bool_decide (method = js "GET") && path_is path "/api/setup") eqn:E2.
  { intros Ho. apply answered_engine in Ho as <-. right. rewrite (route_is _ _ _ _ E2). split; [open_route|done]. }
  destruct (bool_decide (method = js "GET") && path_in path _) eqn:E3.
  { intros Ho. apply answered_engine in Ho as <-. right. split; [|done]. unfold path_in in E3. cbn [existsb] in E3.
    rewrite orb_false_r, andb_orb_distrib_r in E3. apply orb_true_iff in E3 as [E3|E3]; rewrite (route_is _ _ _ _ E3); open_route. }
  destruct (bool_decide (method = js "GET") && path_is path "/api/subscription/plans") eqn:E4.
  { intros Ho. apply answered_engine in Ho as <-. right. rewrite (route_is _ _ _ _ E4). split; [open_route|done]. }
  destruct (bool_decide (method = js "POST") && path_is path "/api/user/login") eqn:E5.
  { rewrite <- negb_andb. fold (credentials (data_of payload)). destruct (credentials (data_of payload)); cbn [negb];
      intros Ho; apply answered_engine in Ho as <-; right; rewrite (route_is _ _ _ _ E5); (split; [open_route|]); [|done].
    split; [by exists true|done]. }
  destruct (bool_decide (method = js "GET") && path_is path "/api/user/logout") eqn:E6.
  { intros Ho. apply answered_engine in Ho as <-. right. rewrite (route_is _ _ _ _ E6). split; [open_route|]. split; [by exists false|done]. }
  rewrite Ha. intros Ho. left. by injection Ho as <- <-.
Qed.

(** ** Buying a plan *)

Lemma period_end t : (0 <= t < 2 ^ 50)%Z → num_add (num_of_Z t) DEMO_MONTH = num_of_Z (t + 2592000).
Proof. intros Ht. unfold DEMO_MONTH. change (30 * 24 * 60 * 60)%Z with 2592000%Z. apply num_add_Z; unfold safe; lia. Qed.

(** C26: A purchase. A plan that does not exist or is not dearer than the current one is
    refused, and so is one the balance does not cover, with nothing changed. Otherwise
    the balance falls by exactly the cents quoted, the plan is the one asked for, a
    first purchase starts a period of thirty days and an upgrade keeps the period, and
    the purchase is listed last. What is quoted is the full price, or for an upgrade the
    difference of the prices for the part of the period that is left, to within 0.51
    cents. *)
Theorem purchase_charged clock e spent payload address u s t :
  ticks clock → ledger (state e) spent → authenticated (state e) = true →
  second (startTime (state e)) s → second (endTime (state e)) t →
  url_new address = Some u → strip_slashes (pathname u) = js "/api/subscription/balance/pay" →
  let id := Number_value (prop_of (data_of payload) "plan_id") in
  let left := (1000000 - zsum spent)%Z in
  let '(r, e') := request clock e (js "POST") address payload in
  ∃ q, quoted clock 1 (state e) s t id q ∧
  match q with
  | None => r = Ok (fail "This plan cannot be purchased" 400) ∧ e' = e
  | Some q => ∃ n now, amount_due q = cent n ∧ clock 0%nat = num_of_Z now ∧
      if (left <? n)%Z then r = Ok (fail "Insufficient demo balance" 400) ∧ e' = e
      else r = Ok (ok (quoteJson q)) ∧ balance (state e') = cent (left - n) ∧ planId (state e') = id
        ∧ (startTime (state e'), endTime (state e'))
          = (if is_upgrade q then (startTime (state e), endTime (state e)) else (num_of_Z now, num_of_Z (now + 2592000)))
        ∧ purchases (state e') = purchases (state e) ++ [mkPurchase (idx (length spent + 1)) id (cent n) (num_of_Z now)]
  end.
Proof.
  intros Hclk HL Ha Hs Ht Hu Hp id left. unfold DemoServer.request. rewrite Hu, Hp.
  assert (Ho : request_open VITE_APP_BASE_PATH snowApiLogo clock e (js "POST") (js "/api/subscription/balance/pay") (data_of payload) = None).
  { unfold request_open. rewrite Ha. reflexivity. }
  cbn zeta. rewrite Ho. unfold request_write.
  change (bool_decide (js "POST" = js "POST") && path_is (js "/api/subscription/balance/pay") "/api/user/amount") with false.
  change (bool_decide (js "POST" = js "PUT") && path_is (js "/api/subscription/balance/pay") "/api/user/self") with false.
  change (bool_decide (js "POST" = js "POST") && path_is (js "/api/subscription/balance/pay") "/api/subscription/balance/pay") with true.
  cbn [andb]. fold id. pose proof (quote_exact clock 1 (state e) s t id Hclk Hs Ht) as HQ.
  destruct (quote clock 1 (state e) id) as [q|] eqn:Eq; [|by exists None].
  destruct (Hclk 0%nat) as (now & Hnow & Enow). destruct (ld_balance _ _ HL) as [Hb Hz]. destruct (ld_plan _ _ HL) as (p & f & Hpl & Epl & _ & _).
  destruct (quoted_plan _ _ _ _ _ _ _ p HQ Epl Hpl) as (p' & n & Hp' & Ep' & Hn & En & _).
  assert (Eid : plan_id q = id).
  { clear -Eq. unfold quote in Eq. destruct (findPlan id); [|done]. match goal with H : (if ?b then _ else _) = _ |- _ => destruct b end; [done|]. by injection Eq as <-. }
  rewrite Hb, En, cent_ltb by lia. fold left.
  destruct (left <? n)%Z eqn:El; exists (Some q); (split; [done|]); exists n, now; (split; [done|]); (split; [done|]); rewrite El; [done|].
  apply Z.ltb_ge in El. split; [done|]. cbn [update save state pay balance planId startTime endTime purchases].
  rewrite Hb, En, cents_sub, Enow, (period_end now Hnow), Eid, <- (ld_length _ _ HL) by lia. fold left.
  split; [done|]. split; [done|]. split; [by destruct (is_upgrade q)|done].
Qed.

End server.
(** ** Concrete sessions *)

(** Addresses without escapes: a path, and after a question mark the parameters. *)
Definition plain_param (s : jsstr) : jsstr * jsstr :=
  match split_char 61 s with k :: v :: _ => (k, v) | [k] => (k, []) | [] => ([], []) end.

Definition plain_new (s : jsstr) : option (jsstr * list (jsstr * jsstr)) :=
  match split_char 63 s with
  | path :: query :: _ => Some (path, map plain_param (split_char 38 query))
  | [path] => Some (path, [])
  | [] => None
  end.

Definition plain_href (u : jsstr * list (jsstr * jsstr)) : jsstr :=
  u.1 ++ (if nonempty u.2 then js "?" ++ join (js "&") (map (fun kv => kv.1 ++ js "=" ++ kv.2) u.2) else []).

#[export] Instance plain_url : UrlLib := {
  url := jsstr * list (jsstr * jsstr);
  url_new := plain_new;
  pathname := fst;
  param_get u k := map_get k u.2;
  param_set u k v := (u.1, map_set k v u.2);
  href := plain_href
}.

Definition plain (path : string) : @url plain_url := (js path, []).

Definition empty_storage : Storage := mkStorage [] true true (fun _ _ _ => true).

Definition at_second (t : Z) : nat → num := fun _ => num_of_Z t.

Lemma at_second_ticks t : (0 <= t < 2 ^ 50)%Z → ticks (at_second t).
Proof. intros Ht k. by exists t. Qed.

Definition start : Z := 2000000000.

Definition login_event : event :=
  Ask (at_second start) (js "POST") (js "/api/user/login")
    (Some (obj [("username", str "snowapidemo"); ("password", str "1234567890")]%string)).
Definition buy (t : Z) (plan : Z) : event :=
  Ask (at_second t) (js "POST") (js "/api/subscription/balance/pay") (Some (obj [("plan_id", int plan)]%string)).

Definition run (s : option Storage) (evs : list event) : engine := session id None [] s evs.

Lemma empty_kept : kept (Some empty_storage).
Proof. done. Qed.

(** Light for fifty dollars, after half a month Moderate for half of the difference,
    and the page loaded again. *)
Definition short_session : list event := [login_event; buy start 1; buy (start + 15 * 86400) 2; Reload].

Lemma short_timed : Forall timed short_session.
Proof. repeat apply List.Forall_cons; try apply List.Forall_nil; try done; apply at_second_ticks; unfold start; lia. Qed.

Example short_balance : balance (state (run (Some empty_storage) short_session)) = cent (1000000 - 5000 - 2500).
Proof. vm_compute. reflexivity. Qed.

Lemma session_ledger_witness :
  (∃ spent, ledger (state (run (Some empty_storage) short_session)) spent
     ∧ (length (purchases (state (run (Some empty_storage) short_session))) <= 800)%nat)
  ∧ length (purchases (state (run (Some empty_storage) short_session))) = 2%nat.
Proof.
  split; [exact (session_ledger id None [] (Some empty_storage) short_session empty_kept short_timed)|vm_compute; reflexivity].
Defined.

Lemma reload_keeps_state_witness : state (construct (storage (save (mkEngine (Some empty_storage) initial)))) = initial.
Proof. apply (reload_keeps_state empty_storage _ initial []); [reflexivity|reflexivity|apply ledger_initial|reflexivity|reflexivity|cbn; lia]. Defined.

(** A plan a month for a hundred and one months. *)
Definition long_session : list event := login_event :: map (fun i => buy (start + 2592000 * Z.of_nat i) 1) (seq 0 101).

Lemma long_timed : Forall timed long_session.
Proof.
  apply List.Forall_cons; [apply at_second_ticks; unfold start; lia|]. apply Forall_fmap, Forall_forall.
  intros i Hi%elem_of_seq. apply at_second_ticks. unfold start. lia.
Qed.

Lemma long_purchases : length (purchases (state (run None long_session))) = 101%nat.
Proof. vm_compute. reflexivity. Qed.

Lemma long_ledger : ∃ spent, ledger (state (run None long_session)) spent.
Proof. unfold run. apply (session_sound id None [] None long_session I long_timed). Qed.

Lemma long_session_lost_witness :
  state (construct (storage (save (mkEngine (Some empty_storage) (state (run None long_session)))))) = initial.
Proof.
  destruct long_ledger as [spent HL]. pose proof long_purchases as HN. revert HL HN. generalize (state (run None long_session)). intros st HL HN.
  apply (long_session_lost empty_storage (mkEngine (Some empty_storage) st) st spent);
    [reflexivity|reflexivity|exact HL|reflexivity|reflexivity|rewrite HN; lia].
Defined.

Lemma request_answered_witness :
  ∃ r, (request id None [] (at_second start) (run (Some empty_storage) short_session) (js "GET") (js "/api/user/topup") None).1 = Ok r ∧ answered r.
Proof. exact (request_answered id None [] (at_second start) _ _ (js "GET") (js "/api/user/topup") None (plain "/api/user/topup") eq_refl empty_kept short_timed). Defined.

Lemma signed_out_confined_witness :
  let '(r, e') := request id None [] (at_second start) (mkEngine None initial) (js "GET") (js "/api/user/self/") None in
  (r = Ok (fail "Please sign in to the demo first" 401) ∧ e' = mkEngine None initial)
  ∨ ((js "GET", js "/api/user/self") ∈ open_routes ∧ (∃ b, state e' = set_auth b initial)
     ∧ (authenticated (state e') = true → credentials (data_of None) = true)).
Proof.
  exact (signed_out_confined id None [] (at_second start) (mkEngine None initial) (js "GET") (js "/api/user/self/") None (plain "/api/user/self/") eq_refl eq_refl).
Defined.

Definition signed_in : DemoState := set_auth true initial.

Lemma purchase_charged_witness :
  let '(r, e') := request id None [] (at_second start) (mkEngine None signed_in) (js "POST") (js "/api/subscription/balance/pay")
                    (Some (obj [("plan_id", int 1)]%string)) in
  balance (state e') = cent 995000 ∧ ∃ q, quoted (at_second start) 1 signed_in 0 0 (num_of_Z 1) q.
Proof.
  pose proof (purchase_charged id None [] (at_second start) (mkEngine None signed_in) [] (Some (obj [("plan_id", int 1)]%string))
    (js "/api/subscription/balance/pay") (plain "/api/subscription/balance/pay") 0 0
    ltac:(apply at_second_ticks; unfold start; lia) (ledger_set_auth true _ _ ledger_initial) eq_refl
    ltac:(split; [lia|reflexivity]) ltac:(split; [lia|reflexivity]) eq_refl eq_refl) as HP.
  cbn zeta in HP. destruct (request _ _ _ _ _ _ _ _) as [r e'] eqn:E. destruct HP as (q & Hq & _). split; [|by exists q].
  assert (Hs : e' = (request id None [] (at_second start) (mkEngine None signed_in) (js "POST") (js "/api/subscription/balance/pay") (Some (obj [("plan_id", int 1)]%string))).2) by (by rewrite E).
  rewrite Hs. vm_compute. reflexivity.
Defined.

(** A stored purchase of a plan outside of the four. *)
Definition foreign_state : DemoState :=
  mkState true (num_of_Z 10000) zero zero zero [] [mkPurchase (num_of_Z 1) (num_of_Z 9) zero zero].
Definition foreign_storage : Storage :=
  mkStorage [(STORAGE_KEY, JSON_stringify (stateJson foreign_state))] true true (fun _ _ _ => true).

(** The schema accepts a purchase of any plan, and the list of orders then throws. *)
Theorem foreign_plan_throws :
  state (construct (Some foreign_storage)) = foreign_state
  ∧ (request id None [] (at_second start) (construct (Some foreign_storage)) (js "GET") (js "/api/user/topup/self") None).1
    = Throw (js "TypeError").
Proof. split; vm_compute; reflexivity. Qed.

End DemoSession.

(** * Pages and the adapter of the demonstration server

    The pages of a list, one after the other, are the list; and the promise of the
    HTTP client is rejected exactly for the answers without success. *)

Import NumPrint DemoFixtures DemoEngine DemoServer DemoMoney DemoQuote DemoLedger DemoSession.

Module DemoPages.

(** ** Numbers in addresses *)

(** [Number] of the digits of an integer. *)
Lemma Number_print n : (0 < n)%N → Number (print_N n) = num_of_Z (Z.of_N n).
Proof.
  intros Hn. destruct (print_N_spec n) as (Hp & Hd & Hne). destruct (print_N_head n Hn) as (c & ds & E & Hc).
  assert (Hdec : number_decimal false (print_N n) = num_of_Z (Z.of_N n)).
  { unfold number_decimal. rewrite <- (app_nil_r (print_N n)) at 1. rewrite take_digits_all by done. cbn [nonempty orb].
    assert (nonempty (print_N n) = true) as -> by (by rewrite E). cbn [orb negb parse_exp app length]. rewrite app_nil_r, Hp.
    destruct n as [|p]; [lia|]. unfold num_of_dec. cbn [Z.of_nat Z.sub Z.opp Z.add Z.leb Z.compare]. change (Z.to_pos (10 ^ 0)) with 1%positive.
    by rewrite Pos.mul_1_r. }
  assert (Ht : trim (print_N n) = print_N n).
  { apply trim_no_ws. eapply Forall_impl; [exact Hd|]. intros x Hx. by apply is_digit_not_ws. }
  unfold Number. rewrite Ht, E in *. apply Forall_cons in Hd as [Hdc Hds]. unfold is_digit in Hdc.
  assert (Hs : number_signed false (c :: ds) = num_of_Z (Z.of_N n)).
  { unfold number_signed. rewrite bool_decide_false; [done|]. intros Heq. change (js "Infinity") with (73%N :: js "nfinity") in Heq. injection Heq as -> _. lia. }
  rewrite <- Hs. repeat (case_match; try done; try lia).
Qed.

Section pages.
Context (toLowerCase : jsstr → jsstr) (items : list json) (param : jsstr → option jsstr).

(** The parameters with another page. *)
Definition with_page (i : nat) : jsstr → option jsstr :=
  fun k => if decide (k = js "p") then Some (print_N (N.of_nat i)) else param k.

Lemma with_page_other i (name : string) : name ≠ "p"%string → with_page i (js name) = param (js name).
Proof. intros Hn. unfold with_page. rewrite decide_False; [done|]. by intros E%js_inj. Qed.

Lemma filtered_with_page i : filtered toLowerCase (with_page i) items = filtered toLowerCase param items.
Proof. unfold filtered, text_param. cbn [foldl]. by rewrite !with_page_other. Qed.

Lemma size_with_page i : page_size (with_page i) = page_size param.
Proof. unfold page_size, text_param. by rewrite !with_page_other. Qed.

Lemma min_int a b : safe a → safe b → Math_min (num_of_Z a) (num_of_Z b) = num_of_Z (Z.min a b).
Proof.
  intros Ha Hb. unfold Math_min. rewrite !good_not_nan by (by apply NumRound.num_of_Z_good). cbn [orb]. rewrite !NumRound.int_ltb by done.
  destruct (Z.ltb_spec a b); [f_equal; lia|]. destruct (Z.ltb_spec b a); [f_equal; lia|]. replace b with a by lia. rewrite Z.min_id.
  by destruct (num_of_Z a) as [[]| | |].
Qed.

(** The size asked for, up to a hundred. *)
Lemma size_exact s : param (js "page_size") = Some (print_N (N.of_nat s)) → (1 <= s)%nat → (Z.of_nat s < 2 ^ 52)%Z →
  page_size param = num_of_Z (Z.of_nat (Nat.min 100 s)).
Proof.
  intros Hp Hs1 Hs2. unfold page_size, text_param. rewrite Hp. cbn [default from_option id].
  destruct (print_N_head (N.of_nat s) ltac:(lia)) as (c & ds & E & _). unfold str_or. rewrite E. cbn [nonempty]. rewrite <- E.
  unfold number_or. rewrite Number_print, nat_N_Z by lia. rewrite num_truthy_Z by (unfold safe; lia).
  rewrite (proj2 (Z.eqb_neq _ _)) by lia. cbn [negb]. rewrite max_one, min_int by (unfold safe; lia). f_equal. lia.
Qed.

Lemma number_exact i : (1 <= i)%nat → (Z.of_nat i < 2 ^ 52)%Z → page_number (with_page i) = num_of_Z (Z.of_nat i).
Proof.
  intros H1 H2. unfold page_number, text_param, with_page. rewrite decide_True by done. cbn [default from_option id].
  unfold number_or. rewrite Number_print, nat_N_Z by lia. rewrite num_truthy_Z by (unfold safe; lia).
  rewrite (proj2 (Z.eqb_neq _ _)) by lia. cbn [negb]. rewrite max_one by (unfold safe; lia). f_equal. lia.
Qed.

Lemma relative_int z len : (0 <= z < 2 ^ 53)%Z → relative (num_of_Z z) len = Nat.min (Z.to_nat z) len.
Proof.
  intros Hz. assert (Hs : safe z) by (unfold safe; lia). pose proof (num_to_Z_of z Hs) as HZ. pose proof (num_finite_Z z Hs) as Hf.
  unfold relative. destruct (num_of_Z z) as [b|b| |b m e]; try done; rewrite HZ, (proj2 (Z.ltb_ge _ _)) by lia; lia.
Qed.

(** A page has the items after those of the pages before it. *)
Lemma page_exact s i :
  page_size param = num_of_Z (Z.of_nat s) → (1 <= s)%nat → (1 <= i)%nat → (Z.of_nat i * Z.of_nat s < 2 ^ 52)%Z →
  page_items toLowerCase (with_page i) items = take s (drop ((i - 1) * s) (filtered toLowerCase param items)).
Proof.
  intros Hsz Hs Hi Hb. unfold page_items. rewrite filtered_with_page, size_with_page, number_exact, Hsz by nia.
  set (l := filtered toLowerCase param items). unfold slice.
  rewrite num_sub_Z by (unfold safe; nia). assert (HB : num_mul (num_of_Z (Z.of_nat i)) (num_of_Z (Z.of_nat s)) = num_of_Z (Z.of_nat (i * s))).
  { rewrite NumRound.num_mul_Z by nia. f_equal. lia. }
  assert (HA : relative (num_mul (num_of_Z (Z.of_nat i - 1)) (num_of_Z (Z.of_nat s))) (length l) = Nat.min ((i - 1) * s) (length l)).
  { destruct (decide (i = 1)%nat) as [->|Hne].
    - change (Z.of_nat 1 - 1)%Z with 0%Z. change (num_of_Z 0) with zero. pose proof (int_pos (Z.of_nat s) ltac:(nia)) as Hp.
      destruct (num_of_Z (Z.of_nat s)) as [| | |[] m e]; try done. change (num_mul zero (S754_finite false m e)) with (num_of_Z 0).
      rewrite relative_int by lia. lia.
    - rewrite NumRound.num_mul_Z by nia. rewrite relative_int by nia. f_equal. nia. }
  rewrite HA, HB, relative_int by nia. rewrite Nat2Z.id.
  destruct (Nat.le_gt_cases (length l) ((i - 1) * s)) as [Hlen|Hlen].
  - rewrite (Nat.min_r ((i - 1) * s)), !drop_ge, !take_nil by nia. done.
  - rewrite (Nat.min_l ((i - 1) * s)) by lia. destruct (Nat.le_gt_cases (i * s) (length l)) as [H1|H1].
    + rewrite Nat.min_l by lia. f_equal. nia.
    + rewrite Nat.min_r by lia. rewrite !take_ge; [done|rewrite length_drop; nia|rewrite length_drop; lia].
Qed.

(** The pages of a list, from the first on, have its items in order, each once:
    joined up to the [m]-th they are the first [m] times the size. The size is the one
    asked for, up to a hundred. *)
Theorem pages_in_order s m :
  param (js "page_size") = Some (print_N (N.of_nat s)) → (1 <= s)%nat → (Z.of_nat s < 2 ^ 52)%Z → (Z.of_nat m * 100 < 2 ^ 52)%Z →
  concat (map (fun i => page_items toLowerCase (with_page i) items) (seq 1 m))
  = take (m * Nat.min 100 s) (filtered toLowerCase param items).
Proof.
  intros Hp Hs Hs2 Hm. pose proof (size_exact s Hp Hs Hs2) as Hsz. set (k := Nat.min 100 s) in *. assert (Hk : (1 <= k <= 100)%nat) by lia.
  clearbody k. clear Hp Hs Hs2. induction m as [|m IH]; [done|]. rewrite seq_S, map_app, concat_app, IH by lia. cbn [map concat].
  rewrite app_nil_r, (page_exact k) by (done || nia). replace (1 + m - 1)%nat with m by lia.
  rewrite <- (take_drop (m * k) (filtered toLowerCase param items)) at 3.
  destruct (Nat.le_gt_cases (m * k) (length (filtered toLowerCase param items))) as [Hl|Hl].
  - rewrite take_app_ge by (rewrite length_take; nia). f_equal. f_equal. rewrite length_take. nia.
  - rewrite (drop_ge _ (m * k)), take_nil, !app_nil_r, take_take by lia. f_equal. nia.
Qed.
End pages.

(** The users on three pages of ten. *)
Definition ten : jsstr → option jsstr := fun k => if decide (k = js "page_size") then Some (js "10") else None.

Lemma pages_in_order_witness :
  concat (map (fun i => page_items id (with_page ten i) (users (at_second start) signed_in)) (seq 1 3))
  = take (3 * Nat.min 100 10) (filtered id ten (users (at_second start) signed_in)).
Proof. apply (pages_in_order id _ ten 10 3); [reflexivity|lia|lia|lia]. Defined.

(** ** The adapter *)

Section adapter.
Context `{UrlLib} (toLowerCase : jsstr → jsstr) (VITE_APP_BASE_PATH : option jsstr) (snowApiLogo : jsstr).
Context (toUpperCase : jsstr → jsstr) (t : jsstr → jsstr).

Definition has_success (r : response) : bool := match map_get (js "success") (r_data r) with Some (JBool b) => b | _ => false end.

(** In a session the promise of a request settles: it is resolved with the answers
    that have success, and rejected, with the translated message, with the others. *)
Theorem adapter_settles clock e c u u' spent :
  url_new (str_or (default [] (cfg_url c)) (js "/")) = Some u → url_new (href (with_params u (cfg_params c))) = Some u' →
  ledger (state e) spent →
  ∃ r o, (demoAdapter toLowerCase VITE_APP_BASE_PATH snowApiLogo toUpperCase t clock e c).1 = Ok o
    ∧ o = (if has_success r then Resolved r else Rejected (default blank (map_get (js "message") (r_data r))) (js "ERR_DEMO_READ_ONLY") r).
Proof.
  intros Hu Hu' HL. unfold demoAdapter. rewrite Hu.
  destruct (request_answers toLowerCase VITE_APP_BASE_PATH snowApiLogo clock e (toUpperCase (str_or (default [] (cfg_method c)) (js "GET")))
    (href (with_params u (cfg_params c))) (payload_of (cfg_data c)) u' spent Hu' HL) as (r & Hr & Hs & Hb).
  cbn zeta. destruct (request _ _ _ _ _ _ _ _) as [r' e'] eqn:E. cbn [fst] in Hr. subst r'. cbn [fst res_bind].
  exists (respond t r). eexists. split; [reflexivity|].
  assert (Hsucc : has_success (respond t r) = (status r =? 200)%Z).
  { unfold has_success, respond. cbn [r_data]. rewrite map_get_set_ne by done. by rewrite Hb. }
  rewrite Hsucc. unfold respond. cbn [r_data]. rewrite map_get_set_eq. cbn [default from_option id].
  assert (Hc : (status r = 200 ∨ 400 <= status r)%Z).
  { rewrite !elem_of_cons in Hs. destruct Hs as [->|[->|[->|[->|Hs]]]]; try lia. by apply not_elem_of_nil in Hs. }
  destruct Hc as [->|Hc]; [done|]. by rewrite (proj2 (Z.leb_le _ _)), (proj2 (Z.eqb_neq _ _)) by lia.
Qed.
End adapter.

End DemoPages.
