(* ===== verification/NavConfig.v ===== *)
(** * Navigation settings (src/web/default/src/features/system-settings/maintenance/config.ts)

    What an administrator may say about the console's navigation: the modules of the
    header, the sections and modules of the sidebar, the areas of the settings pages,
    and the order of each. Every setting is stored as a text. This file holds the
    types, the defaults, the parsers, which fill in what the text does not say, and
    the serializers. *)

From S2P Require Import Prelude JsNum Json NumText JsValue.

(** ** Objects *)

Module NavObjects.

(** The names a plain object inherits. *)
Definition inherited : list jsstr :=
  map js ["constructor"; "__proto__"; "hasOwnProperty"; "isPrototypeOf"; "propertyIsEnumerable"; "toLocaleString"; "toString";
          "valueOf"; "__defineGetter__"; "__defineSetter__"; "__lookupGetter__"; "__lookupSetter__"].

Definition proto : jsstr := js "__proto__".

(** [object[key] = value]. The name [__proto__] is an inherited setter: the object
    gets no property of that name. *)
Definition assign {A} (key : jsstr) (value : A) (object : list (jsstr * A)) : list (jsstr * A) :=
  if decide (key = proto) then object else map_set key value object.

(** [Object.entries] of a value of [JSON.parse] that is not [null]. *)
Definition Object_entries (v : json) : list (jsstr * json) :=
  match v with
  | JObj m => m
  | JArr l => imap (fun i x => (print_N (N.of_nat i), x)) l
  | JStr s => imap (fun i c => (print_N (N.of_nat i), JStr [c])) s
  | _ => []
  end.

(** [v[key]] where it may be [false], an object or an array; what is inherited is
    neither [false] nor read further. *)
Definition member (v : json) (key : jsstr) : option json := map_get key (Object_entries v).

(** [value.filter((item) => typeof item === 'string')]. *)
Definition only_strings (l : list json) : list jsstr := omap (fun v => match v with JStr s => Some s | _ => None end) l.

(** [Array.isArray(value) ? value.filter(...) : []]. *)
Definition strings_of (value : option json) : list jsstr := match value with Some (JArr l) => only_strings l | _ => [] end.

Definition texts (l : list jsstr) : json := JArr (map JStr l).

End NavObjects.

Module NavConfig.
Import NavObjects.
Open Scope js_scope.

(** ** Orders *)

(** The loop [configured.filter(...)] with its set [seen]. *)
Definition keep_known (available : list jsstr) (st : list jsstr * list jsstr) (item : jsstr) : list jsstr * list jsstr :=
  let '(ordered, seen) := st in
  if negb (set_has item available) || set_has item seen then st else (ordered ++ [item], set_add seen item).

(** The loop that appends the items the configuration does not name. *)
Definition push_missing (st : list jsstr * list jsstr) (item : jsstr) : list jsstr * list jsstr :=
  let '(ordered, seen) := st in
  if negb (set_has item seen) then (ordered ++ [item], set_add seen item) else st.

(** The order of [available] that a configured order gives. *)
Definition arrange (configured available : list jsstr) : list jsstr :=
  (foldl push_missing (foldl (keep_known (set_of available)) ([], []) configured) available).1.

Definition SIDEBAR_SECTION_ORDER_DEFAULT : list jsstr := map js ["chat"; "console"; "personal"; "admin"].

(** [value.split(',').map(trim).filter(Boolean)]. *)
Definition order_items (value : option jsstr) : list jsstr :=
  match value with
  | Some s => if nonempty s then List.filter nonempty (map trim (split_char 44 s)) else []
  | None => []
  end.

Definition parseSidebarSectionOrder (value : option jsstr) (availableSections : list jsstr) : list jsstr :=
  arrange (order_items value) availableSections.

Definition serializeSidebarSectionOrder (order availableSections : list jsstr) : jsstr :=
  join (js ",") (parseSidebarSectionOrder (Some (join (js ",") order)) availableSections).

Definition HEADER_NAV_ORDER_DEFAULT : list jsstr := map js ["home"; "console"; "pricing"; "rankings"; "docs"; "about"].

Definition normalizeHeaderNavOrder (value : option json) : list jsstr := arrange (strings_of value) HEADER_NAV_ORDER_DEFAULT.

Definition normalizeStringOrder (value : option json) (availableItems : list jsstr) : list jsstr :=
  arrange (strings_of value) availableItems.

(** ** Header *)

Record HeaderNavAccessConfig := mkAccess { enabled : bool; requireAuth : bool }.

(** The values of the members of a header configuration. *)
Inductive header_value :=
| HBool (b : bool)
| HAccess (a : HeaderNavAccessConfig)
| HOrder (order : list jsstr).

(** The object, with its properties in insertion order. *)
Definition HeaderNavModulesConfig : Type := list (jsstr * header_value).

Definition open_access : HeaderNavAccessConfig := mkAccess true false.

Definition HEADER_NAV_DEFAULT : HeaderNavModulesConfig :=
  table [("order", HOrder HEADER_NAV_ORDER_DEFAULT); ("home", HBool true); ("console", HBool true); ("pricing", HAccess open_access);
         ("rankings", HAccess open_access); ("docs", HBool true); ("about", HBool true)].

(** A member of the type [HeaderNavAccessConfig], such as [config.pricing]. *)
Definition access_of (config : HeaderNavModulesConfig) (key : string) : HeaderNavAccessConfig :=
  match map_get (js key) config with Some (HAccess a) => a | _ => open_access end.

Definition cloneHeaderNavDefault : HeaderNavModulesConfig :=
  let d := HEADER_NAV_DEFAULT in
  map_set (js "rankings") (HAccess (access_of d "rankings"))
    (map_set (js "pricing") (HAccess (access_of d "pricing")) (map_set (js "order") (HOrder HEADER_NAV_ORDER_DEFAULT) d)).

Section parsers.
Context (toLowerCase : jsstr → jsstr).

Definition toBoolean (value : option json) (fallback : bool) : bool :=
  match value with
  | Some (JBool b) => b
  | Some (JNum x) => num_eqb x (num_of_Z 1)
  | Some (JStr s) =>
      let normalized := toLowerCase (trim s) in
      if bool_decide (normalized = js "true") || bool_decide (normalized = js "1") then true
      else if bool_decide (normalized = js "false") || bool_decide (normalized = js "0") then false
      else fallback
  | _ => fallback
  end.

Definition parseAccessModule (raw : json) (fallback : HeaderNavAccessConfig) : HeaderNavAccessConfig :=
  match raw with
  | JBool _ | JStr _ | JNum _ => mkAccess (toBoolean (Some raw) (enabled fallback)) (requireAuth fallback)
  | JObj _ | JArr _ =>
      mkAccess (toBoolean (prop_of raw "enabled") (enabled fallback)) (toBoolean (prop_of raw "requireAuth") (requireAuth fallback))
  | JNull => fallback
  end.

(** [Boolean(base[key])]; a function an object inherits counts as true. *)
Definition base_truthy (base : HeaderNavModulesConfig) (key : jsstr) : bool :=
  match map_get key base with Some (HBool b) => b | Some _ => true | None => set_has key inherited end.

(** The callback of [Object.entries(parsed).forEach]. *)
Definition header_entry (base result : HeaderNavModulesConfig) (entry : jsstr * json) : HeaderNavModulesConfig :=
  let '(key, raw) := entry in
  if decide (key = js "order") then result
  else if decide (key = js "pricing") then map_set key (HAccess (parseAccessModule raw (access_of base "pricing"))) result
  else if decide (key = js "rankings") then map_set key (HAccess (parseAccessModule raw (access_of base "rankings"))) result
  else match raw with
       | JBool b => assign key (HBool b) result
       | JStr _ | JNum _ => assign key (HBool (toBoolean (Some raw) (base_truthy base key))) result
       | _ => result
       end.

(** [parsed.order] throws when the text is the JSON value [null]. *)
Definition parseHeaderNavModules (value : option jsstr) : HeaderNavModulesConfig :=
  let base := cloneHeaderNavDefault in
  match value with
  | Some s =>
      if negb (nonempty s) then base
      else match JSON_parse s with
           | None | Some JNull => base
           | Some parsed =>
               let result :=
                 map_set (js "rankings") (HAccess (access_of base "rankings"))
                   (map_set (js "pricing") (HAccess (access_of base "pricing"))
                     (map_set (js "order") (HOrder (normalizeHeaderNavOrder (prop_of parsed "order"))) base)) in
               foldl (header_entry base) result (Object_entries parsed)
           end
  | None => base
  end.

Definition access_json (a : HeaderNavAccessConfig) : json :=
  JObj (table [("enabled", JBool (enabled a)); ("requireAuth", JBool (requireAuth a))]).

Definition header_json (v : header_value) : json :=
  match v with HBool b => JBool b | HAccess a => access_json a | HOrder l => texts l end.

(** [config.order], as the unknown argument of [normalizeHeaderNavOrder]. *)
Definition header_order (config : HeaderNavModulesConfig) : option json := header_json <$> map_get (js "order") config.

Definition serializeHeaderNavModules (config : HeaderNavModulesConfig) : jsstr :=
  let members := map_set (js "order") (HOrder (normalizeHeaderNavOrder (header_order config))) config in
  JSON_stringify (JObj (property_order (map (fun kv => (kv.1, header_json kv.2)) members))).

(** ** Sidebar *)

Inductive section_value :=
| SBool (b : bool)
| SOrder (order : list jsstr)
| SUndefined.

Definition SidebarSectionConfig : Type := list (jsstr * section_value).
Definition SidebarModulesAdminConfig : Type := list (jsstr * SidebarSectionConfig).

(** A section all of whose modules are on, in the given order. *)
Definition default_section (modules : list string) : SidebarSectionConfig :=
  (js "enabled", SBool true) :: (js "order", SOrder (map js modules)) :: map (fun m => (js m, SBool true)) modules.

Definition SIDEBAR_MODULES_DEFAULT : SidebarModulesAdminConfig :=
  table [("chat", default_section ["playground"; "chat"]);
         ("console", default_section ["pricing"; "detail"; "token"; "log"; "midjourney"; "task"]);
         ("personal", default_section ["topup"; "personal"]);
         ("admin", default_section ["channel"; "models"; "redemption"; "user"; "setting"; "subscription"])].

Definition cloneSidebarDefault : SidebarModulesAdminConfig :=
  foldl (fun acc '(section, config) =>
           map_set section
             (map_set (js "order") (match map_get (js "order") config with Some (SOrder l) => SOrder l | _ => SUndefined end) config) acc)
    [] SIDEBAR_MODULES_DEFAULT.

Definition is_module (entry : jsstr * section_value) : bool :=
  negb (bool_decide (entry.1 = js "enabled")) && negb (bool_decide (entry.1 = js "order"))
  && match entry.2 with SBool _ => true | _ => false end.

Definition getSidebarModuleKeys (sectionConfig : SidebarSectionConfig) : list jsstr :=
  map fst (List.filter is_module (property_order sectionConfig)).

(** [Array.isArray(sectionConfig.order) ? sectionConfig.order : []]. *)
Definition section_order (sectionConfig : SidebarSectionConfig) : list jsstr :=
  match map_get (js "order") sectionConfig with Some (SOrder l) => l | _ => [] end.

Definition getSidebarSectionOrder (sectionConfig : SidebarSectionConfig) : list jsstr :=
  arrange (section_order sectionConfig) (getSidebarModuleKeys sectionConfig).

Definition normalizeSidebarSectionConfig (sectionConfig : SidebarSectionConfig) : SidebarSectionConfig :=
  map_set (js "order") (SOrder (getSidebarSectionOrder sectionConfig)) sectionConfig.

Definition normalizeSidebarModulesAdmin (config : SidebarModulesAdminConfig) : SidebarModulesAdminConfig :=
  foldl (fun acc '(sectionKey, sectionConfig) => assign sectionKey (normalizeSidebarSectionConfig sectionConfig) acc)
    [] (property_order config).

(** A member of a section that is a boolean. *)
Definition section_flag (config : SidebarSectionConfig) (key : jsstr) (fallback : bool) : bool :=
  match map_get key config with Some (SBool b) => b | _ => fallback end.

(** The configuration read from one member of the text that is an object. *)
Definition parse_section (defaultSection : SidebarSectionConfig) (raw : json) : SidebarSectionConfig :=
  let start := [(js "enabled", SBool (toBoolean (prop_of raw "enabled") (section_flag defaultSection (js "enabled") true)))] in
  let with_order :=
    match prop_of raw "order" with
    | Some (JArr l) => map_set (js "order") (SOrder (only_strings l)) start
    | _ => start
    end in
  foldl (fun acc '(moduleKey, moduleValue) =>
           if decide (moduleKey = js "enabled") then acc
           else if decide (moduleKey = js "order") then acc
           else assign moduleKey (SBool (toBoolean (Some moduleValue) (section_flag defaultSection moduleKey true))) acc)
    with_order (Object_entries raw).

(** The sections read so far, and the prototype of the object that holds them,
    which a member named [__proto__] replaces. *)
Definition read_sections (defaults : SidebarModulesAdminConfig) (parsed : json)
    : SidebarModulesAdminConfig * option SidebarSectionConfig :=
  foldl (fun '(result, prototype) '(sectionKey, raw) =>
           match raw with
           | JObj _ | JArr _ =>
               let config := parse_section (default [(js "enabled", SBool true)] (map_get sectionKey defaults)) raw in
               if decide (sectionKey = proto) then (result, Some config) else (map_set sectionKey config result, prototype)
           | _ => (result, prototype)
           end)
    ([], None) (Object_entries parsed).

(** [if (!(moduleKey in result[sectionKey])) result[sectionKey][moduleKey] = moduleValue]. *)
Definition add_missing (section : SidebarSectionConfig) (entry : jsstr * section_value) : SidebarSectionConfig :=
  if map_has entry.1 section then section else map_set entry.1 entry.2 section.

(** One default section is merged. A flag the prototype holds under the section's
    name stands for the section: [in] throws on it when it is [true]. *)
Definition merge_section (prototype : option SidebarSectionConfig) (result : SidebarModulesAdminConfig)
    (entry : jsstr * SidebarSectionConfig) : res SidebarModulesAdminConfig :=
  let '(sectionKey, config) := entry in
  match map_get sectionKey result with
  | Some section => Ok (map_set sectionKey (foldl add_missing section config) result)
  | None =>
      match prototype with
      | Some p => if section_flag p sectionKey false then Throw (js "TypeError") else Ok (map_set sectionKey config result)
      | None => Ok (map_set sectionKey config result)
      end
  end.

Definition parseSidebarModulesAdmin (value : option jsstr) : SidebarModulesAdminConfig :=
  let defaults := cloneSidebarDefault in
  match value with
  | Some s =>
      if negb (nonempty s) || negb (nonempty (trim s)) then defaults
      else match JSON_parse s with
           | None | Some JNull => defaults
           | Some parsed =>
               let '(result, prototype) := read_sections defaults parsed in
               match res_fold (merge_section prototype) result defaults with
               | Ok merged => normalizeSidebarModulesAdmin merged
               | Throw _ => defaults
               end
           end
  | None => defaults
  end.

(** A member whose value is [undefined] is not printed. *)
Definition section_json (config : SidebarSectionConfig) : json :=
  JObj (property_order (omap (fun kv => match kv.2 with
                                        | SBool b => Some (kv.1, JBool b)
                                        | SOrder l => Some (kv.1, texts l)
                                        | SUndefined => None
                                        end) config)).

Definition admin_json (config : SidebarModulesAdminConfig) : json :=
  JObj (property_order (map (fun kv => (kv.1, section_json kv.2)) config)).

Definition serializeSidebarModulesAdmin (config : SidebarModulesAdminConfig) : jsstr :=
  JSON_stringify (admin_json (normalizeSidebarModulesAdmin config)).

(** ** Settings pages *)

Record SystemSettingsAreaConfig := mkArea {
  a_enabled : bool; a_order : option (list jsstr); a_sections : option (list (jsstr * bool))
}.

Record SystemSettingsNavigationConfig := mkNavigation {
  n_order : list jsstr; n_areas : list (jsstr * SystemSettingsAreaConfig)
}.

Definition SYSTEM_SETTINGS_AREA_ORDER_DEFAULT : list jsstr :=
  map js ["site"; "auth"; "models"; "security"; "billing"; "operations"; "content"].

Definition SYSTEM_SETTINGS_SECTION_ORDER_DEFAULT : list (jsstr * list jsstr) :=
  table [("site", map js ["system-info"; "notice"]);
         ("auth", map js ["basic-auth"; "oauth"; "passkey"; "bot-protection"; "custom-oauth"]);
         ("models", map js ["overview"; "global"; "gemini"; "claude"; "grok"; "channel-affinity"; "model-deployment"; "header-rules";
                            "upstream-error-rules"]);
         ("security", map js ["rate-limit"; "sensitive-words"; "ssrf"; "anti-poison-guard"; "request-guard"; "client-identity"; "user-agents"]);
         ("billing", map js ["quota"; "currency"; "model-pricing"; "group-pricing"; "payment"; "checkin"]);
         ("operations", map js ["email"; "worker"; "monitoring"; "channel-test"; "uptime-kuma"; "behavior"; "logs"; "performance"; "update-checker"]);
         ("content", map js ["appearance"; "header-navigation"; "sidebar-modules"; "settings-navigation"; "dashboard"; "announcements"; "api-info";
                             "faq"; "chat"; "drawing"])].

Definition cloneSystemSettingsNavigationDefault : SystemSettingsNavigationConfig :=
  mkNavigation SYSTEM_SETTINGS_AREA_ORDER_DEFAULT
    (map (fun '(area, order) => (area, mkArea true (Some order) (Some (map (fun section => (section, true)) order))))
       SYSTEM_SETTINGS_SECTION_ORDER_DEFAULT).

Definition getSystemSettingsAreaOrder (config : SystemSettingsNavigationConfig) : list jsstr :=
  normalizeStringOrder (Some (texts (n_order config))) (map fst (n_areas config)).

Definition getSystemSettingsSectionOrder (config : SystemSettingsNavigationConfig) (area : jsstr) : list jsstr :=
  normalizeStringOrder (texts <$> (a ← map_get area (n_areas config); a_order a))
    (default [] (map_get area SYSTEM_SETTINGS_SECTION_ORDER_DEFAULT)).

(** A member that is an object, or an empty one. *)
Definition object_or_empty (v : option json) : json := match v with Some (JObj m) => JObj m | Some (JArr l) => JArr l | _ => JObj [] end.

Definition parse_area (rawAreas : json) (area : jsstr) (fallback : SystemSettingsAreaConfig) : SystemSettingsAreaConfig :=
  let order := default [] (a_order fallback) in
  match member rawAreas area with
  | Some ((JObj _ | JArr _) as record) =>
      let rawSections := object_or_empty (prop_of record "sections") in
      mkArea (toBoolean (prop_of record "enabled") (a_enabled fallback)) (Some (normalizeStringOrder (prop_of record "order") order))
        (Some (map (fun section => (section, toBoolean (member rawSections section) true)) order))
  | _ => mkArea (a_enabled fallback) (Some order) (Some (default [] (a_sections fallback)))
  end.

Definition parseSystemSettingsNavigation (value : option jsstr) : SystemSettingsNavigationConfig :=
  let defaults := cloneSystemSettingsNavigationDefault in
  match value with
  | Some s =>
      if negb (nonempty s) || negb (nonempty (trim s)) then defaults
      else match JSON_parse s with
           | None | Some JNull => defaults
           | Some parsed =>
               let rawAreas := object_or_empty (prop_of parsed "areas") in
               mkNavigation (normalizeStringOrder (prop_of parsed "order") (n_order defaults))
                 (map (fun '(area, fallback) => (area, parse_area rawAreas area fallback)) (n_areas defaults))
           end
  | None => defaults
  end.

(** The area that is written for a default area. *)
Definition serialize_area (config : SystemSettingsNavigationConfig) (area : jsstr) (fallback : SystemSettingsAreaConfig) : SystemSettingsAreaConfig :=
  let current := default fallback (map_get area (n_areas config)) in
  let order := default [] (a_order fallback) in
  mkArea (toBoolean (Some (JBool (a_enabled current))) (a_enabled fallback)) (Some (normalizeStringOrder (texts <$> a_order current) order))
    (Some (map (fun section => (section, toBoolean (JBool <$> (s ← a_sections current; map_get section s)) true)) order)).

Definition area_json (a : SystemSettingsAreaConfig) : json :=
  JObj (present (table [("enabled", Some (JBool (a_enabled a))); ("order", texts <$> a_order a);
                        ("sections", (fun s => JObj (property_order (map (fun kv => (kv.1, JBool kv.2)) s))) <$> a_sections a)])).

Definition navigation_json (c : SystemSettingsNavigationConfig) : json :=
  JObj (table [("order", texts (n_order c));
               ("areas", JObj (property_order (map (fun kv => (kv.1, area_json kv.2)) (n_areas c))))]).

Definition serializeSystemSettingsNavigation (config : SystemSettingsNavigationConfig) : jsstr :=
  let defaults := cloneSystemSettingsNavigationDefault in
  JSON_stringify (navigation_json
    (mkNavigation (normalizeStringOrder (Some (texts (n_order config))) (n_order defaults))
       (map (fun '(area, fallback) => (area, serialize_area config area fallback)) (n_areas defaults)))).

End parsers.

(** ** Examples *)

Example header_demo :
  map_get (js "pricing") (parseHeaderNavModules id (Some (jsq "{'docs': '0', 'pricing': {'requireAuth': 1}, 'x': 'true'}")))
  = Some (HAccess (mkAccess true true)).
Proof. vm_compute. reflexivity. Qed.

Example sidebar_demo :
  getSidebarSectionOrder (default [] (map_get (js "chat") (parseSidebarModulesAdmin id (Some (jsq "{'chat': {'order': ['chat', 'none'], 'more': 1}}")))))
  = map js ["chat"; "more"; "playground"].
Proof. vm_compute. reflexivity. Qed.

(** A member named [__proto__] whose flag carries the name of a section makes the
    merge throw, and the whole text counts for nothing. *)
Example prototype_demo :
  parseSidebarModulesAdmin id (Some (jsq "{'admin': {'enabled': false}, '__proto__': {'chat': true}}")) = cloneSidebarDefault
  ∧ parseSidebarModulesAdmin id (Some (jsq "{'admin': {'enabled': false}, '__proto__': {'chat': false}}")) ≠ cloneSidebarDefault.
Proof. split; vm_compute; [reflexivity|discriminate]. Qed.

End NavConfig.
