(* ===== verification/NavModules.v ===== *)
(** * Navigation as the site reads it (src/web/default/src/lib/nav-modules.ts)

    The header modules of the public pages and the guards of their routes, read from
    the status the server sends, which is kept in the browser's storage. The parser
    is written apart from the one of the settings page (NavConfig). *)

From S2P Require Import Prelude JsNum Json NumText JsValue Playground PlaygroundStorage NavConfig.
Import PlaygroundStorage NavObjects.

Module NavModules.
Open Scope js_scope.

(** The types are those of the settings page. *)
Notation ModuleAccess := NavConfig.HeaderNavAccessConfig (only parsing).
Notation HeaderNavModules := NavConfig.HeaderNavModulesConfig (only parsing).
Notation HBool := NavConfig.HBool.
Notation HAccess := NavConfig.HAccess.
Notation HOrder := NavConfig.HOrder.
Notation mkAccess := NavConfig.mkAccess.
Notation enabled := NavConfig.enabled.
Notation requireAuth := NavConfig.requireAuth.

Inductive HeaderNavModule := MRankings | MPricing.

Definition module_name (m : HeaderNavModule) : string := match m with MRankings => "rankings" | MPricing => "pricing" end.

Definition HEADER_NAV_ORDER_DEFAULT : list jsstr := map js ["home"; "console"; "pricing"; "rankings"; "docs"; "about"].

Definition DEFAULT_HEADER_NAV_MODULES : HeaderNavModules :=
  table [("order", HOrder HEADER_NAV_ORDER_DEFAULT); ("home", HBool true); ("console", HBool true); ("pricing", HAccess (mkAccess true false));
         ("rankings", HAccess (mkAccess true false)); ("docs", HBool true); ("about", HBool true)].

Definition DEFAULTS (m : HeaderNavModule) : ModuleAccess :=
  match m with
  | MPricing => NavConfig.access_of DEFAULT_HEADER_NAV_MODULES "pricing"
  | MRankings => NavConfig.access_of DEFAULT_HEADER_NAV_MODULES "rankings"
  end.

Definition cloneHeaderNavDefaults : HeaderNavModules :=
  let d := DEFAULT_HEADER_NAV_MODULES in
  map_set (js "rankings") (HAccess (NavConfig.access_of d "rankings"))
    (map_set (js "pricing") (HAccess (NavConfig.access_of d "pricing")) (map_set (js "order") (HOrder HEADER_NAV_ORDER_DEFAULT) d)).

Definition normalizeHeaderNavOrder (value : option json) : list jsstr := NavConfig.arrange (strings_of value) HEADER_NAV_ORDER_DEFAULT.

Section parsers.
Context (toLowerCase : jsstr → jsstr).

Definition parseHeaderNavBoolean (raw : option json) (fallback : bool) : bool :=
  match raw with
  | Some (JBool b) => b
  | Some (JNum x) => if num_eqb x (num_of_Z 1) then true else if num_eqb x (num_of_Z 0) then false else fallback
  | Some (JStr s) =>
      let normalized := toLowerCase (trim s) in
      if bool_decide (normalized = js "true") || bool_decide (normalized = js "1") then true
      else if bool_decide (normalized = js "false") || bool_decide (normalized = js "0") then false
      else fallback
  | _ => fallback
  end.

Definition parseAccess (raw : json) (fallback : ModuleAccess) : ModuleAccess :=
  match raw with
  | JBool _ | JStr _ | JNum _ => mkAccess (parseHeaderNavBoolean (Some raw) (enabled fallback)) (requireAuth fallback)
  | JObj _ | JArr _ =>
      mkAccess (parseHeaderNavBoolean (prop_of raw "enabled") (enabled fallback))
        (parseHeaderNavBoolean (prop_of raw "requireAuth") (requireAuth fallback))
  | JNull => fallback
  end.

(** An object is taken to have the inherited [toString]. *)
Definition parseHeaderNavRecord (raw : option json) : option json :=
  match raw with
  | Some v =>
      if negb (truthy raw) || negb (nonempty (trim (to_text v))) then None
      else match v with JObj _ | JArr _ => Some v | _ => JSON_parse (to_text v) end
  | None => None
  end.

Definition is_primitive (v : json) : bool := match v with JBool _ | JNum _ | JStr _ => true | _ => false end.

Definition header_entry (result : HeaderNavModules) (entry : jsstr * json) : HeaderNavModules :=
  let '(key, value) := entry in
  if decide (key = js "order") then result
  else if decide (key = js "pricing") then map_set key (HAccess (parseAccess value (NavConfig.access_of result "pricing"))) result
  else if decide (key = js "rankings") then map_set key (HAccess (parseAccess value (NavConfig.access_of result "rankings"))) result
  else match map_get key result with
       | Some (HBool fallback) => assign key (HBool (parseHeaderNavBoolean (Some value) fallback)) result
       | _ => if is_primitive value then assign key (HBool (parseHeaderNavBoolean (Some value) true)) result else result
       end.

Definition parseHeaderNavModules (raw : option json) : HeaderNavModules :=
  let result := cloneHeaderNavDefaults in
  match parseHeaderNavRecord raw with
  | Some parsed =>
      if negb (truthy (Some parsed)) then result
      else foldl header_entry (map_set (js "order") (HOrder (normalizeHeaderNavOrder (prop_of parsed "order"))) result) (Object_entries parsed)
  | None => result
  end.

Definition parseHeaderNavModulesFromStatus (status : option json) : HeaderNavModules :=
  parseHeaderNavModules (prop_opt status "HeaderNavModules").

(** ** The status *)

Definition STATUS : jsstr := js "status".

(** The storage is [None] outside a browser. [null] is [None]. *)
Definition getCachedStatus (window : option Storage) : option json :=
  match window with
  | None => None
  | Some s =>
      match getItem s STATUS with
      | Ok (Some raw) => if nonempty raw then match JSON_parse raw with Some JNull | None => None | Some v => Some v end else None
      | _ => None
      end
  end.

Definition cacheStatus (status : option json) (window : option Storage) : option Storage :=
  match window, status with
  | Some s, Some v => if truthy status then Some (try_storage s (setItem s STATUS (JSON_stringify v))) else window
  | _, _ => window
  end.

Definition getModuleAccessFromStatus (status : option json) (module : HeaderNavModule) : ModuleAccess :=
  match map_get (js (module_name module)) (parseHeaderNavModulesFromStatus status) with
  | Some (HAccess a) => a
  | _ => DEFAULTS module
  end.

Definition getModuleAccess (window : option Storage) (module : HeaderNavModule) : ModuleAccess :=
  getModuleAccessFromStatus (getCachedStatus window) module.

(** The answer of [getStatus] is an argument; [Throw] is a rejected promise. *)
Definition getFreshModuleAccess (answer : res (option json)) (window : option Storage) (module : HeaderNavModule)
    : ModuleAccess * option Storage :=
  match answer with
  | Ok status => (getModuleAccessFromStatus status module, cacheStatus status window)
  | Throw _ => (mkAccess false true, window)
  end.

Definition isSidebarModuleEnabled (window : option Storage) (section module : jsstr) : bool :=
  let status := getCachedStatus window in
  if negb (truthy status) then true
  else let raw := prop_opt status "SidebarModulesAdmin" in
       match raw with
       | None => true
       | Some v =>
           if negb (truthy raw) || negb (nonempty (trim (to_text v))) then true
           else match JSON_parse (to_text v) with
                | None | Some JNull => true
                | Some parsed =>
                    match member parsed section with
                    | Some sectionConfig =>
                        if negb (truthy (Some sectionConfig)) then true
                        else if is_false (member sectionConfig (js "enabled")) then false
                        else if is_false (member sectionConfig module) then false
                        else true
                    | None => true
                    end
                end
       end.

(** ** Routes *)

(** What [beforeLoad] of a route does. *)
Inductive loading := Proceed | RedirectTo (path : jsstr) (redirect : option jsstr).

(** [beforeLoad] of the pages of prices and of rankings. *)
Definition module_route (answer : res (option json)) (window : option Storage) (module : HeaderNavModule) (signedIn : bool) (href : jsstr)
    : loading * option Storage :=
  let '(access, window') := getFreshModuleAccess answer window module in
  (if negb (enabled access) then RedirectTo (js "/") None
   else if requireAuth access && negb signedIn then RedirectTo (js "/sign-in") (Some href)
   else Proceed, window').

(** [beforeLoad] of the playground. *)
Definition playground_route (window : option Storage) : loading :=
  if negb (isSidebarModuleEnabled window (js "chat") (js "playground")) then RedirectTo (js "/dashboard") None else Proceed.

(** ** Links of the header (src/web/default/src/hooks/use-top-nav-links.ts) *)

Record TopNavLink := mkTop { tl_title : jsstr; tl_href : jsstr; tl_external : bool }.

(** [modules?.key !== false]. *)
Definition not_off (modules : HeaderNavModules) (key : string) : bool :=
  match map_get (js key) modules with Some (HBool b) => b | _ => true end.

Definition useTopNavLinks (t : jsstr → jsstr) (status : option json) : list TopNavLink :=
  let modules := parseHeaderNavModulesFromStatus status in
  (if not_off modules "home" then [mkTop (t (js "Home")) (js "/") false] else [])
  ++ (if not_off modules "console" then [mkTop (t (js "Console")) (js "/dashboard") false] else [])
  ++ (if not_off modules "docs"
      then match prop_opt status "docs_link" with
           | Some (JStr link) => if nonempty link then [mkTop (t (js "Docs")) link true] else [mkTop (t (js "Docs")) (js "/docs") false]
           | _ => [mkTop (t (js "Docs")) (js "/docs") false]
           end
      else []).

End parsers.

Example site_demo :
  NavConfig.access_of (parseHeaderNavModulesFromStatus id
    (Some (JObj (table [("HeaderNavModules", JStr (jsq "{'pricing': {'requireAuth': '1'}}"))])))) "pricing" = mkAccess true true.
Proof. vm_compute. reflexivity. Qed.

End NavModules.
