(* ===== verification/NavSidebar.v ===== *)
(** * The sidebar (src/web/default/src/components/layout/lib/sidebar-navigation.ts)

    The entries of the sidebar, who may see them, and how they are grouped by task.
    The entries come from hooks/use-sidebar-data.ts and, for the settings pages, from
    components/layout/config/system-settings.config.ts; what is shown is decided by
    the role, by the administrator's settings and by the user's own, which are both
    given in the old sections and modules; hooks/use-sidebar-config.ts and
    hooks/use-sidebar-view.ts put it together. *)

From S2P Require Import Prelude JsNum Json NumText JsValue NavConfig.
Import NavObjects NavConfig.

Module NavSidebar.
Open Scope js_scope.

(** ** Items (components/layout/types.ts, lib/roles.ts) *)

Definition ROLE_GUEST : Z := 0.
Definition ROLE_USER : Z := 1.
Definition ROLE_ADMIN : Z := 10.
Definition ROLE_SUPER_ADMIN : Z := 100.

(** A module of a section, whose switch governs an entry. *)
Record module_ref := mkRef { r_section : jsstr; r_module : jsstr }.

#[global] Instance module_ref_eq_dec : EqDecision module_ref.
Proof. solve_decision. Defined.

Record BaseNavItem := mkBase {
  id : option jsstr; title : jsstr; minimumRole : option Z; rootOnly : bool; taskSection : option jsstr;
  permissions : option (list module_ref); activeUrls : option (list jsstr); configUrls : option (list jsstr)
}.

(** The three kinds of entries. *)
Inductive nav_kind :=
| NavLink (url : jsstr)
| NavCollapsible (items : list (BaseNavItem * jsstr))
| NavChatPresets.

Record NavItem := mkItem { base : BaseNavItem; kind : nav_kind }.

Record NavGroup := mkGroup { g_id : option jsstr; g_title : jsstr; g_items : list NavItem }.

(** [item.url]. *)
Definition url_of (item : NavItem) : option jsstr := match kind item with NavLink u => Some u | _ => None end.

(** A sub-entry is given to the functions on entries. *)
Definition sub_item (sub : BaseNavItem * jsstr) : NavItem := mkItem sub.1 (NavLink sub.2).

Definition permission (section : string) (modules : list string) : list module_ref := map (fun m => mkRef (js section) (js m)) modules.

(** ** Menu *)

Definition TASK_SECTIONS : list (jsstr * jsstr) :=
  map (fun s => (js s.1, js s.2))
    [("access", "Access & debugging"); ("usage", "Usage & troubleshooting"); ("account", "Funds & account");
     ("models", "Models & channels"); ("operations", "Users & operations"); ("system", "System administration")].

Record MenuDefinition := mkMenu { m_id : jsstr; m_titleKey : jsstr; m_taskSection : jsstr; m_item : NavItem }.

Definition menu (i titleKey task : string) (min : option Z) (root : bool) (refs : list module_ref)
    (active config : option (list jsstr)) (k : nav_kind) : MenuDefinition :=
  mkMenu (js i) (js titleKey) (js task) (mkItem (mkBase (Some (js i)) [] min root (Some (js task)) (Some refs) active config) k).

(** An entry for everyone that is a link. *)
Definition menu_link (i titleKey task : string) (u : string) (refs : list module_ref) : MenuDefinition :=
  menu i titleKey task None false refs None None (NavLink (js u)).

(** An entry for administrators. *)
Definition admin_link (i titleKey task : string) (u : string) (refs : list module_ref) : MenuDefinition :=
  menu i titleKey task (Some ROLE_ADMIN) false refs None None (NavLink (js u)).

Definition MENU_ITEMS : list MenuDefinition :=
  [menu_link "overview" "Overview" "overview" "/dashboard/overview" (permission "console" ["detail"]);
   menu_link "pricing" "Models & pricing" "access" "/pricing" (permission "console" ["pricing"]);
   menu_link "model-list" "Model List" "access" "/model-list" (permission "console" ["pricing"]);
   menu_link "api-keys" "API Keys" "access" "/keys" (permission "console" ["token"]);
   menu_link "playground" "Playground" "access" "/playground" (permission "chat" ["playground"]);
   menu "chat-presets" "Chat" "access" None false (permission "chat" ["chat"]) None None NavChatPresets;
   menu_link "analytics" "Data analytics" "usage" "/dashboard/models" (permission "console" ["detail"]);
   menu_link "request-logs" "Request logs" "usage" "/usage-logs/common" (permission "console" ["log"]);
   menu "task-logs" "Task Logs" "usage" None false (permission "console" ["midjourney"; "task"]) (Some [js "/usage-logs/drawing"])
     (Some [js "/usage-logs/drawing"; js "/usage-logs/task"]) (NavLink (js "/usage-logs/task"));
   menu_link "wallet" "Wallet & subscriptions" "account" "/wallet" (permission "personal" ["topup"]);
   menu_link "profile" "Personal Settings" "account" "/profile" (permission "personal" ["personal"]);
   admin_link "channels" "Upstream channels" "models" "/channels" (permission "admin" ["channel"]);
   admin_link "models" "Model management" "models" "/models/metadata" (permission "admin" ["models"]);
   admin_link "users" "Users" "operations" "/users" (permission "admin" ["user"]);
   admin_link "subscription-plans" "Subscription plans" "operations" "/subscriptions" (permission "admin" ["subscription"]);
   admin_link "redemptions" "Redemption Codes" "operations" "/redemption-codes" (permission "admin" ["redemption"]);
   menu "settings" "Platform settings" "system" None true (permission "admin" ["setting"]) (Some [js "/system-settings"]) None
     (NavLink (js "/system-settings/operations/overview"))].

Definition menu_by_id (i : jsstr) : option MenuDefinition := List.find (fun entry => bool_decide (m_id entry = i)) MENU_ITEMS.

(** [/^path(?:\/|$)/.test(url)] for a literal path. *)
Definition under (path : string) (url : jsstr) : bool :=
  bool_decide (url = js path) || starts_with (js path ++ js "/") url.

(** The patterns that stand for an entry, in order. *)
Definition alias_of (url : jsstr) : option jsstr :=
  if under "/system-settings" url then Some (js "settings")
  else if under "/models" url then Some (js "models")
  else if under "/dashboard" url then Some (js "analytics")
  else if bool_decide (url = js "/usage-logs/drawing") then Some (js "task-logs")
  else if bool_decide (url = js "/usage-logs") then Some (js "request-logs")
  else None.

Definition definitionFor (item : NavItem) : option MenuDefinition :=
  match id (base item) with
  | Some ((_ :: _) as i) => menu_by_id i
  | _ =>
      match kind item with
      | NavChatPresets => menu_by_id (js "chat-presets")
      | _ =>
          let url := default [] (url_of item) in
          match List.find (fun entry => bool_decide (url_of (m_item entry) = Some url)) MENU_ITEMS with
          | Some exact => Some exact
          | None => alias ← alias_of url; menu_by_id alias
          end
      end
  end.

(** [item.permissions ?? definitionFor(item)?.permissions]. *)
Definition refs_of (item : NavItem) : option (list module_ref) :=
  match permissions (base item) with Some r => Some r | None => d ← definitionFor item; permissions (base (m_item d)) end.

Definition canAccessMenuItem (item : NavItem) (role : Z) : bool :=
  let definition := definitionFor item in
  if rootOnly (base item) || match definition with Some d => rootOnly (base (m_item d)) | None => false end
     || under "/system-settings" (default [] (url_of item))
  then (role =? ROLE_SUPER_ADMIN)%Z
  else (match minimumRole (base item) with
        | Some r => r
        | None => default ROLE_GUEST (d ← definition; minimumRole (base (m_item d)))
        end <=? role)%Z.

(** The configuration is the administrator's, printed as the value it is, or the
    user's, which is any JSON value. *)
Definition moduleAllowed (config : json) (section module : jsstr) : bool :=
  let sectionConfig := member config section in
  negb (is_false (s ← sectionConfig; member s (js "enabled"))) && negb (is_false (s ← sectionConfig; member s module)).

Section sidebar.
Context (toLowerCase : jsstr → jsstr).

(** [options.user ? (JSON.parse(options.user) ?? {}) : {}], or [{}] when it throws. *)
Definition user_overlay (user : option jsstr) : json :=
  match user with
  | Some s => if nonempty s then match JSON_parse s with Some JNull | None => JObj [] | Some v => v end else JObj []
  | None => JObj []
  end.

Record filter_options := mkOptions { o_admin : option jsstr; o_user : option jsstr; o_role : Z; o_header : option jsstr }.

(** The references that decide an entry. *)
Definition governing_refs (item : NavItem) : option (list module_ref) :=
  match configUrls (base item) with
  | Some urls =>
      Some (urls ≫= fun url =>
              if bool_decide (url = js "/usage-logs/drawing") then permission "console" ["midjourney"]
              else if bool_decide (url = js "/usage-logs/task") then permission "console" ["task"]
              else default [] (d ← definitionFor (mkItem (mkBase None [] None false None None None None) (NavLink url)); permissions (base (m_item d))))
  | None =>
      match permissions (base item) with
      | Some r => Some r
      | None =>
          if bool_decide (url_of item = Some (js "/usage-logs/drawing")) then Some (permission "console" ["midjourney"])
          else if bool_decide (url_of item = Some (js "/usage-logs/task")) then Some (permission "console" ["task"])
          else refs_of item
      end
  end.

Definition ref_allowed (admin user : json) (ref : module_ref) : bool :=
  moduleAllowed admin (r_section ref) (r_module ref) && moduleAllowed user (r_section ref) (r_module ref).

Definition visible (options : filter_options) (item : NavItem) : bool :=
  let admin := admin_json (parseSidebarModulesAdmin toLowerCase (o_admin options)) in
  let user := user_overlay (o_user options) in
  let pricing := access_of (parseHeaderNavModules toLowerCase (o_header options)) "pricing" in
  if negb (canAccessMenuItem item (o_role options)) then false
  else if (bool_decide (id (base item) = Some (js "pricing")) || bool_decide (url_of item = Some (js "/pricing")))
          && (negb (enabled pricing) || (requireAuth pricing && (o_role options <? ROLE_USER)%Z))
  then false
  else match governing_refs item with
       | None | Some [] => true
       | Some refs => existsb (ref_allowed admin user) refs
       end.

(** The sub-entries of an entry are filtered; an entry that loses all is dropped. *)
Definition filter_subs (options : filter_options) (item : NavItem) : NavItem :=
  match kind item with
  | NavCollapsible subs => mkItem (base item) (NavCollapsible (List.filter (fun s => visible options (sub_item s)) subs))
  | _ => item
  end.

Definition has_subs (item : NavItem) : bool := match kind item with NavCollapsible [] => false | _ => true end.

Definition filterSidebarGroups (groups : list NavGroup) (options : filter_options) : list NavGroup :=
  List.filter (fun group => nonempty (g_items group))
    (map (fun group => mkGroup (g_id group) (g_title group)
            (List.filter has_subs (map (filter_subs options) (List.filter (visible options) (g_items group))))) groups).

(** ** Tasks *)

Definition classic_mapping (section : jsstr) : list jsstr :=
  map js (if bool_decide (section = js "chat") then ["access"]
          else if bool_decide (section = js "console") then ["access"; "usage"]
          else if bool_decide (section = js "personal") then ["account"]
          else if bool_decide (section = js "admin") then ["models"; "operations"; "system"]
          else []).

Definition task_ids : list jsstr := map fst TASK_SECTIONS.

Definition resolveTaskSectionOrder (value classic : option jsstr) : list jsstr :=
  if nonempty (default [] (trim <$> value)) then parseSidebarSectionOrder value task_ids
  else let legacy := parseSidebarSectionOrder classic SIDEBAR_SECTION_ORDER_DEFAULT in
       if bool_decide (join (js ",") legacy = join (js ",") SIDEBAR_SECTION_ORDER_DEFAULT) then task_ids
       else parseSidebarSectionOrder (Some (join (js ",") (legacy ≫= classic_mapping))) task_ids.

(** [item.taskSection ?? definitionFor(item)?.taskSection]. *)
Definition task_of (item : NavItem) : option jsstr :=
  match taskSection (base item) with Some s => Some s | None => m_taskSection <$> definitionFor item end.

(** [list.indexOf(x)]. *)
Fixpoint indexOf {A} `{EqDecision A} (x : A) (l : list A) : Z :=
  match l with
  | [] => -1
  | y :: l' => if decide (x = y) then 0 else let i := indexOf x l' in if (i <? 0)%Z then (-1)%Z else (i + 1)%Z
  end.

Definition MAX_SAFE_INTEGER : Z := 9007199254740991.

Definition rank (admin : SidebarModulesAdminConfig) (sections : list (option jsstr)) (item : NavItem) : Z :=
  match refs_of item with
  | Some (ref :: _) =>
      (indexOf (Some (r_section ref)) sections * 1000
       + indexOf (r_module ref) (getSidebarSectionOrder (default [(js "enabled", SBool true)] (map_get (r_section ref) admin))))%Z
  | _ => MAX_SAFE_INTEGER
  end.

(** [(permissions ?? ...)?.[0]?.section]. *)
Definition first_section (item : NavItem) : option jsstr := r_section <$> (refs_of item ≫= head).

Definition task_group (translate : jsstr → jsstr) (admin : SidebarModulesAdminConfig) (items : list NavItem) (section : jsstr * jsstr) : NavGroup :=
  let entries := List.filter (fun item => bool_decide (task_of item = Some section.1)) items in
  let sections := set_of (map first_section entries) in
  mkGroup (Some section.1) (translate section.2)
    (sort_by (fun a b => (rank admin sections a - rank admin sections b)%Z) entries).

Definition projectTaskGroups (groups : list NavGroup) (translate : jsstr → jsstr) (order : list jsstr) (adminRaw : option jsstr) : list NavGroup :=
  let items := groups ≫= g_items in
  let admin := parseSidebarModulesAdmin toLowerCase adminRaw in
  List.filter (fun group => nonempty (g_items group))
    (map (task_group translate admin items)
       ((js "overview", js "Overview")
        :: omap (fun i => List.find (fun section => bool_decide (section.1 = i)) TASK_SECTIONS) order)).

(** ** Switches of a task *)

Record task_ref := mkTaskRef { t_ref : module_ref; t_titleKey : jsstr; t_minimumRole : Z }.

(** The references of a task, the first of each module. *)
Definition taskModuleRefs (task : jsstr) : list task_ref :=
  (foldl (fun '(kept, seen) ref =>
            let key := r_section (t_ref ref) ++ js "." ++ r_module (t_ref ref) in
            if set_has key seen then (kept, seen) else (kept ++ [ref], set_add seen key))
     ([], [])
     (List.filter (fun d => bool_decide (m_taskSection d = task)) MENU_ITEMS ≫= fun d =>
        map (fun ref => mkTaskRef ref (if bool_decide (r_module ref = js "midjourney") then js "Drawing Logs" else m_titleKey d)
                          (if rootOnly (base (m_item d)) then ROLE_SUPER_ADMIN else default ROLE_USER (minimumRole (base (m_item d)))))
          (default [] (permissions (base (m_item d)))))).1.

(** [next[section] = { ...next[section], enabled: next[section]?.enabled ?? true, [module]: enabled }]. *)
Definition set_module (next : SidebarModulesAdminConfig) (section module : jsstr) (on : bool) : SidebarModulesAdminConfig :=
  let config := default [] (map_get section next) in
  map_set section
    (map_set module (SBool on)
       (map_set (js "enabled") (match map_get (js "enabled") config with Some SUndefined | None => SBool true | Some v => v end) config)) next.

Definition setTaskSectionEnabled (config : SidebarModulesAdminConfig) (task : jsstr) (on : bool) (global : option SidebarModulesAdminConfig)
    : SidebarModulesAdminConfig :=
  foldl (fun next ref =>
           let '(mkRef section module) := t_ref ref in
           if match global with Some g => negb (moduleAllowed (admin_json g) section module) | None => false end then next
           else set_module next section module on)
    config (taskModuleRefs task).

(** ** The root entries (hooks/use-sidebar-data.ts) *)

Section groups.
Context (t : jsstr → jsstr).

Definition USAGE_LOGS_SECTIONS : list (string * string * string) :=
  [("common", "Common Logs", "log"); ("drawing", "Drawing Logs", "midjourney"); ("task", "Task Logs", "task")].

Definition root_item (i titleKey u : string) (refs : option (list module_ref)) (task : string) (min : option Z) (root : bool)
    (active : option (list jsstr)) : NavItem :=
  mkItem (mkBase (Some (js i)) (t (js titleKey)) min root (Some (js task)) refs active None) (NavLink (js u)).

Definition buildUsageLogItems : list NavItem :=
  map (fun '(i, titleKey, m) =>
         root_item (String.append "usage-log-" i) titleKey (String.append "/usage-logs/" i) (Some (permission "console" [m])) "usage" None false None)
    USAGE_LOGS_SECTIONS.

(** [backendCapabilities]: neither invitation codes nor the audit of addresses. *)
Definition root_items : list NavItem :=
  [root_item "overview" "Overview" "/dashboard/overview" (Some (permission "console" ["detail"])) "overview" None false None;
   root_item "model-list" "Model List" "/model-list" None "access" None false None;
   root_item "api-keys" "API Keys" "/keys" (Some (permission "console" ["token"])) "access" None false None;
   root_item "playground" "Playground" "/playground" (Some (permission "chat" ["playground"])) "access" None false None;
   root_item "analytics" "Data analytics" "/dashboard/models" (Some (permission "console" ["detail"])) "usage" None false None]
  ++ buildUsageLogItems
  ++ [root_item "wallet" "Wallet & subscriptions" "/wallet" (Some (permission "personal" ["topup"])) "account" None false None;
      root_item "profile" "Personal Settings" "/profile" (Some (permission "personal" ["personal"])) "account" None false None;
      root_item "channels" "Upstream channels" "/channels" (Some (permission "admin" ["channel"])) "models" (Some ROLE_ADMIN) false None;
      root_item "models" "Model management" "/models/metadata" (Some (permission "admin" ["models"])) "models" (Some ROLE_ADMIN) false None;
      root_item "users" "Users" "/users" (Some (permission "admin" ["user"])) "operations" (Some ROLE_ADMIN) false None;
      root_item "subscription-plans" "Subscription plans" "/subscriptions" (Some (permission "admin" ["subscription"])) "operations" (Some ROLE_ADMIN) false None;
      root_item "redemptions" "Redemption Codes" "/redemption-codes" (Some (permission "admin" ["redemption"])) "operations" (Some ROLE_ADMIN) false None;
      root_item "group-settings" "Group Settings" "/group-settings" (Some (permission "admin" ["setting"])) "system" None true None;
      root_item "settings" "Platform settings" "/system-settings/site" (Some (permission "admin" ["setting"])) "system" None true
        (Some [js "/system-settings"])].

Definition buildRootSidebarGroups : list NavGroup :=
  List.filter (fun group => nonempty (g_items group))
    (map (fun section => mkGroup (Some section.1) (t section.2)
                           (List.filter (fun item => bool_decide (taskSection (base item) = Some section.1)) root_items))
       ((js "overview", js "Overview") :: TASK_SECTIONS)).

(** ** The settings pages (components/layout/config/system-settings.config.ts) *)

(** The sections of the areas, from their registries: the identifiers and the titles of
    the entries, without the pages they build. *)
Definition SITE_SECTIONS : list (string * string) :=
  [("system-info", "System Information"); ("notice", "System Notice")].

Definition AUTH_SECTIONS : list (string * string) :=
  [("basic-auth", "Basic Authentication"); ("oauth", "OAuth Integrations"); ("passkey", "Passkey Authentication");
   ("bot-protection", "Bot Protection"); ("custom-oauth", "Custom OAuth")].

Definition BILLING_SECTIONS : list (string * string) :=
  [("quota", "Quota Settings"); ("currency", "Currency & Display"); ("model-pricing", "Model Pricing");
   ("group-pricing", "Group Pricing"); ("payment", "Payment Gateway"); ("checkin", "Check-in Rewards")].

Definition MODELS_SECTIONS : list (string * string) :=
  [("overview", "Model Operations"); ("global", "Global Model Configuration"); ("gemini", "Gemini"); ("claude", "Claude");
   ("grok", "Grok"); ("header-rules", "Header Rules"); ("upstream-error-rules", "Upstream Error Rules");
   ("channel-affinity", "Channel Affinity"); ("model-deployment", "Model Deployment")].

Definition SECURITY_SECTIONS : list (string * string) :=
  [("rate-limit", "Rate Limiting"); ("sensitive-words", "Sensitive Words"); ("ssrf", "SSRF Protection");
   ("anti-poison-guard", "Anti-Poison Guard"); ("request-guard", "Request Guard"); ("client-identity", "Client Identity");
   ("user-agents", "User-Agent Management")].

Definition CONTENT_SECTIONS : list (string * string) :=
  [("dashboard", "Data Dashboard"); ("appearance", "Appearance"); ("announcements", "Announcements"); ("api-info", "API Addresses");
   ("faq", "FAQ"); ("header-navigation", "Header navigation"); ("sidebar-modules", "Sidebar modules");
   ("settings-navigation", "System settings navigation"); ("chat", "Chat Presets"); ("drawing", "Drawing")].

Definition OPERATIONS_SECTIONS : list (string * string) :=
  [("email", "SMTP Email"); ("worker", "Worker Proxy"); ("monitoring", "Monitoring & Alerts"); ("channel-test", "Channel Test");
   ("model-endpoint-defaults", "Model Endpoint Defaults"); ("uptime-kuma", "Uptime Kuma"); ("behavior", "System Behavior");
   ("logs", "Log Maintenance"); ("performance", "Performance"); ("update-checker", "System maintenance")].

Definition settings_sections (area : jsstr) : list (string * string) :=
  default [] (map_get area (table
    [("site", SITE_SECTIONS); ("auth", AUTH_SECTIONS); ("billing", BILLING_SECTIONS); ("models", MODELS_SECTIONS); ("security", SECURITY_SECTIONS); ("content", CONTENT_SECTIONS); ("operations", OPERATIONS_SECTIONS)])).

(** [getSectionNavItems] of an area's registry. *)
Definition getSectionNavItems (area : jsstr) : list (BaseNavItem * jsstr) :=
  map (fun '(i, titleKey) =>
         (mkBase None (t (js titleKey)) None false None None None None, js "/system-settings/" ++ area ++ js "/" ++ js i))
    (settings_sections area).

(** The titles of the areas. *)
Definition area_titles : list (jsstr * jsstr) :=
  [(js "site", js "Site & Branding"); (js "auth", [35775; 38382; 19982; 36523; 20221]%N); (js "billing", js "Billing & Payment");
   (js "models", js "Models & Routing"); (js "security", [23433; 20840; 19982; 39118; 25511]%N);
   (js "content", [25511; 21046; 21488; 19982; 23637; 31034]%N); (js "operations", [36816; 32500; 19982; 25805; 20316]%N)].

(** [String(item.url).split('/').filter(Boolean).pop()]. *)
Definition last_part (url : jsstr) : option jsstr := last (List.filter nonempty (split_char 47 url)).

Definition area_entry (navigationConfig : SystemSettingsNavigationConfig) (area : jsstr) : list NavItem :=
  match map_get area (n_areas navigationConfig), map_get area area_titles with
  | Some config, Some title =>
      if negb (a_enabled config) then []
      else
        let sectionOrder := getSystemSettingsSectionOrder navigationConfig area in
        let sectionEnabled := default [] (a_sections config) in
        let place (sub : BaseNavItem * jsstr) := let i := indexOf (default [] (last_part sub.2)) sectionOrder in if (i <? 0)%Z then MAX_SAFE_INTEGER else i in
        let items :=
          sort_by (fun a b => (place a - place b)%Z)
            (List.filter (fun sub => match last_part sub.2 with
                                     | Some section => default true (map_get section sectionEnabled)
                                     | None => true
                                     end) (getSectionNavItems area)) in
        if nonempty items then [mkItem (mkBase None (t title) None false None None None None) (NavCollapsible items)] else []
  | _, _ => []
  end.

Definition getSystemSettingsNavGroups (systemSettingsNavigation : option jsstr) : list NavGroup :=
  let navigationConfig := parseSystemSettingsNavigation toLowerCase systemSettingsNavigation in
  [mkGroup (Some (js "system-administration")) (t (js "System Administration")) (getSystemSettingsAreaOrder navigationConfig ≫= area_entry navigationConfig)].

(** ** The view (hooks/use-sidebar-config.ts, hooks/use-sidebar-view.ts) *)

(** The texts of the status that the sidebar reads. *)
Record StatusTexts := mkStatus {
  SidebarModulesAdmin : option jsstr; HeaderNavModules : option jsstr; SidebarTaskSectionOrder : option jsstr; SidebarSectionOrder : option jsstr
}.

(** What the sidebar reads of the user who is signed in. *)
Record SidebarUser := mkUser { u_role : Z; u_sidebar_settings : option bool; u_sidebar_modules : option jsstr }.

Definition sidebar_options (status : StatusTexts) (user : option SidebarUser) : filter_options :=
  mkOptions (SidebarModulesAdmin status)
    (match user with
     | Some u => match u_sidebar_settings u with Some false => None | _ => u_sidebar_modules u end
     | None => None
     end)
    (match user with Some u => u_role u | None => 0%Z end) (HeaderNavModules status).

Definition useSidebarConfig (status : StatusTexts) (user : option SidebarUser) (navGroups : list NavGroup) : list NavGroup :=
  filterSidebarGroups navGroups (sidebar_options status user).

Definition useIsSidebarModuleVisible (status : StatusTexts) (user : option SidebarUser) (url : jsstr) : bool :=
  existsb (fun group => nonempty (g_items group))
    (useSidebarConfig status user [mkGroup None [] [mkItem (mkBase None [] None false None None None None) (NavLink url)]]).

(** The groups of the view for a path: those of the settings pages, or the root
    entries grouped by task. *)
Definition useSidebarView (pathname : jsstr) (status : StatusTexts) (user : option SidebarUser) (systemSettingsNavigation : option jsstr)
    : list NavGroup :=
  if under "/system-settings" pathname
  then useSidebarConfig status user (getSystemSettingsNavGroups systemSettingsNavigation)
  else projectTaskGroups (useSidebarConfig status user buildRootSidebarGroups) t
         (resolveTaskSectionOrder (SidebarTaskSectionOrder status) (SidebarSectionOrder status)) (SidebarModulesAdmin status).

End groups.
End sidebar.

(** ** Examples *)

(** The titles of the view, by group. *)
Definition shown (groups : list NavGroup) : list (jsstr * list jsstr) := map (fun g => (default [] (g_id g), map (fun i => title (base i)) (g_items g))) groups.

Example classic_demo :
  resolveTaskSectionOrder None (Some (js "admin,personal,console,chat")) = map js ["models"; "operations"; "system"; "account"; "access"; "usage"].
Proof. vm_compute. reflexivity. Qed.

Example view_demo :
  shown (useSidebarView (fun s => s) (fun s => s) (js "/dashboard/overview")
    (mkStatus (Some (jsq "{'console': {'token': false, 'order': ['task', 'log']}}")) None (Some (js "usage,access")) None)
    (Some (mkUser 1 None (Some (jsq "{'personal': {'enabled': false}}")))) None)
  = [(js "overview", map js ["Overview"]); (js "usage", map js ["Task Logs"; "Common Logs"; "Data analytics"; "Drawing Logs"]);
     (js "access", map js ["Model List"; "Playground"])].
Proof. vm_compute. reflexivity. Qed.

End NavSidebar.
