(* ===== verification/NavEditors.v ===== *)
(** * Editors of the navigation settings

    The pages that edit the header
    (src/web/default/src/features/system-settings/maintenance/header-navigation-section.tsx),
    the settings pages (settings-navigation-section.tsx) and the sidebar
    (sidebar-modules-section.tsx), and the card where a user narrows the sidebar
    (src/web/default/src/features/profile/components/sidebar-modules-card.tsx). Each is a
    state and a step for every handler; saving gives the options to update, in order.
    The form library is a store of the values it is given. *)

From S2P Require Import Prelude JsNum Json NumText JsValue NavConfig NavSidebar.
Import NavObjects NavConfig NavSidebar.

Module NavEditors.
Open Scope js_scope.

(** An option to update: [updateOption.mutateAsync({ key, value })]. *)
Definition update : Type := jsstr * jsstr.

(** [[l[i], l[j]] = [l[j], l[i]]]; the buttons are off where an index is out of range. *)
Definition swap_at {A} (i j : nat) (l : list A) : list A :=
  match l !! i, l !! j with Some x, Some y => <[j:=x]> (<[i:=y]> l) | _, _ => l end.

(** [l.indexOf(x)] as a position, when it is not [-1]. *)
Definition position (x : jsstr) (l : list jsstr) : option nat := let i := indexOf x l in if (i <? 0)%Z then None else Some (Z.to_nat i).

(** The swap of an item with its neighbour, up or down. *)
Definition move_item (item : jsstr) (up : bool) (order : list jsstr) : list jsstr :=
  match position item order with
  | None => order
  | Some i =>
      if up then match i with O => order | S j => swap_at i j order end
      else if (S i <? length order)%nat then swap_at i (S i) order else order
  end.

(** The dialog that takes the text of an import. *)
Record dialog := mkDialog { importOpen : bool; importText : jsstr }.

Inductive dialog_event := OpenImport | TypeImport (text : jsstr) | CancelImport.

Definition dialog_step (d : dialog) (e : dialog_event) : dialog :=
  match e with
  | OpenImport => mkDialog true []
  | TypeImport text => mkDialog (importOpen d) text
  | CancelImport => mkDialog false (importText d)
  end.

Section editors.
Context (toLowerCase : jsstr → jsstr).

(** ** Header *)

(** An import may put any value in the field of the link. *)
Record HeaderNavFormValues := mkValues {
  home : bool; console : bool; pricingEnabled : bool; pricingRequireAuth : bool; rankingsEnabled : bool; rankingsRequireAuth : bool;
  docs : bool; docsLink : json; about : bool
}.

(** [config.key === undefined ? HEADER_NAV_DEFAULT.key : Boolean(config.key)]. *)
Definition header_flag (config : HeaderNavModulesConfig) (key : string) : bool :=
  match map_get (js key) config with
  | Some (HBool b) => b
  | Some _ => true
  | None => match map_get (js key) HEADER_NAV_DEFAULT with Some (HBool b) => b | _ => true end
  end.

Definition toFormValues (config : HeaderNavModulesConfig) (link : json) : HeaderNavFormValues :=
  mkValues (header_flag config "home") (header_flag config "console")
    (enabled (access_of config "pricing")) (requireAuth (access_of config "pricing"))
    (enabled (access_of config "rankings")) (requireAuth (access_of config "rankings"))
    (header_flag config "docs") link (header_flag config "about").

Record HeaderProps := mkHeaderProps { h_config : HeaderNavModulesConfig; h_initialSerialized : jsstr; h_docsLink : jsstr }.

Record HeaderEditor := mkHeaderEditor { h_values : HeaderNavFormValues; headerOrder : list jsstr; h_dialog : dialog }.

(** The page of the section registry builds the editor from the stored texts. *)
Definition header_props (stored : option jsstr) (link : option jsstr) : HeaderProps :=
  let config := parseHeaderNavModules toLowerCase stored in
  mkHeaderProps config (serializeHeaderNavModules config) (default [] link).

Definition header_open (p : HeaderProps) : HeaderEditor :=
  mkHeaderEditor (toFormValues (h_config p) (JStr (h_docsLink p))) (normalizeHeaderNavOrder (header_order (h_config p))) (mkDialog false []).

Definition buildPayload (p : HeaderProps) (order : list jsstr) (values : HeaderNavFormValues) : HeaderNavModulesConfig :=
  map_set (js "rankings") (HAccess (mkAccess (rankingsEnabled values) (rankingsRequireAuth values)))
    (map_set (js "pricing") (HAccess (mkAccess (pricingEnabled values) (pricingRequireAuth values)))
      (map_set (js "about") (HBool (about values))
        (map_set (js "docs") (HBool (docs values))
          (map_set (js "console") (HBool (console values))
            (map_set (js "home") (HBool (home values))
              (map_set (js "order") (HOrder (normalizeHeaderNavOrder (Some (texts order)))) (h_config p))))))).

(** The schema lets through only a text as the link. *)
Definition header_submit (p : HeaderProps) (s : HeaderEditor) : option (list update) :=
  match docsLink (h_values s) with
  | JStr link =>
      let serialized := serializeHeaderNavModules (buildPayload p (headerOrder s) (h_values s)) in
      let nextDocsLink := trim link in
      Some ((if bool_decide (serialized = h_initialSerialized p) then [] else [(js "HeaderNavModules", serialized)])
            ++ (if bool_decide (nextDocsLink = h_docsLink p) then [] else [(js "general_setting.docs_link", nextDocsLink)]))
  | _ => None
  end.

Definition header_reset (s : HeaderEditor) : HeaderEditor :=
  mkHeaderEditor (toFormValues HEADER_NAV_DEFAULT (JStr [])) (normalizeHeaderNavOrder (header_order HEADER_NAV_DEFAULT)) (h_dialog s).

(** The text of an export; [trim] throws on a link that is not a text. *)
Definition header_export (p : HeaderProps) (s : HeaderEditor) : option jsstr :=
  match docsLink (h_values s), JSON_parse (serializeHeaderNavModules (buildPayload p (headerOrder s) (h_values s))) with
  | JStr link, Some modules =>
      Some (stringify indent2 json_number 0 (JObj (table [("HeaderNavModules", modules); ("docs_link", JStr (trim link))])))
  | _, _ => None
  end.

(** [raw.HeaderNavModules ?? Object.fromEntries(...)]. *)
Definition imported_modules (raw : json) : json :=
  nullish (prop_of raw "HeaderNavModules")
    (JObj (List.filter (fun kv => negb (bool_decide (kv.1 = js "docs_link")) && negb (bool_decide (kv.1 = js "general_setting.docs_link")))
             (Object_entries raw))).

Definition header_import (s : HeaderEditor) : HeaderEditor :=
  match JSON_parse (importText (h_dialog s)) with
  | None | Some JNull => s
  | Some raw =>
      let rawModules := imported_modules raw in
      let importedConfig := parseHeaderNavModules toLowerCase (Some (match rawModules with JStr text => text | _ => JSON_stringify rawModules end)) in
      let link := nullish (prop_of raw "docs_link") (nullish (prop_of raw "general_setting.docs_link") (docsLink (h_values s))) in
      mkHeaderEditor (toFormValues importedConfig link) (normalizeHeaderNavOrder (header_order importedConfig)) (mkDialog false (importText (h_dialog s)))
  end.

(** [next.splice(currentIndex, 1)], then [next.splice(targetIndex, 0, item)]. *)
Definition moveHeaderModule (moduleKey : jsstr) (up : bool) (current : list jsstr) : list jsstr :=
  let next := normalizeHeaderNavOrder (Some (texts current)) in
  match position moduleKey next with
  | None => next
  | Some i =>
      let target := if up then match i with O => None | S j => Some j end else if (S i <? length next)%nat then Some (S i) else None in
      match target with
      | None => next
      | Some j => let removed := delete i next in take j removed ++ moduleKey :: drop j removed
      end
  end.

Inductive header_event :=
| HEdit (values : HeaderNavFormValues)
| HMove (moduleKey : jsstr) (up : bool)
| HReset
| HImport
| HDialog (e : dialog_event).

Definition header_step (s : HeaderEditor) (e : header_event) : HeaderEditor :=
  match e with
  | HEdit values => mkHeaderEditor values (headerOrder s) (h_dialog s)
  | HMove moduleKey up => mkHeaderEditor (h_values s) (moveHeaderModule moduleKey up (headerOrder s)) (h_dialog s)
  | HReset => header_reset s
  | HImport => header_import s
  | HDialog e => mkHeaderEditor (h_values s) (headerOrder s) (dialog_step (h_dialog s) e)
  end.

(** ** Settings pages *)

Record SettingsEditor := mkSettingsEditor { n_values : SystemSettingsNavigationConfig; n_dialog : dialog }.

Definition settings_open (config : SystemSettingsNavigationConfig) : SettingsEditor := mkSettingsEditor config (mkDialog false []).

Definition settings_submit (initialSerialized : jsstr) (s : SettingsEditor) : list update :=
  let serialized := serializeSystemSettingsNavigation toLowerCase (n_values s) in
  if bool_decide (serialized = initialSerialized) then [] else [(js "SystemSettingsNavigation", serialized)].

Definition settings_reset : SystemSettingsNavigationConfig :=
  parseSystemSettingsNavigation toLowerCase (Some (JSON_stringify (navigation_json
    (mkNavigation SYSTEM_SETTINGS_AREA_ORDER_DEFAULT
       (map (fun '(area, order) => (area, mkArea true (Some order) (Some (map (fun section => (section, true)) order))))
          SYSTEM_SETTINGS_SECTION_ORDER_DEFAULT))))).

Definition moveArea (area : jsstr) (up : bool) (values : SystemSettingsNavigationConfig) : SystemSettingsNavigationConfig :=
  let order := getSystemSettingsAreaOrder values in
  match position area order with
  | None => values
  | Some i =>
      if (if up then (i =? 0)%nat else (length order <=? S i)%nat) then values
      else mkNavigation (move_item area up order) (n_areas values)
  end.

(** [form.setValue(`areas.${area}.order`, nextOrder)]. *)
Definition set_area_order (area : jsstr) (order : list jsstr) (values : SystemSettingsNavigationConfig) : SystemSettingsNavigationConfig :=
  match map_get area (n_areas values) with
  | Some a => mkNavigation (n_order values) (map_set area (mkArea (a_enabled a) (Some order) (a_sections a)) (n_areas values))
  | None => values
  end.

Definition moveSettingsSection (area section : jsstr) (up : bool) (values : SystemSettingsNavigationConfig) : SystemSettingsNavigationConfig :=
  let order := getSystemSettingsSectionOrder values area in
  match position section order with
  | None => values
  | Some i =>
      if (if up then (i =? 0)%nat else (length order <=? S i)%nat) then values
      else set_area_order area (move_item section up order) values
  end.

(** The switches of an area and of a section. *)
Definition set_area_enabled (area : jsstr) (on : bool) (values : SystemSettingsNavigationConfig) : SystemSettingsNavigationConfig :=
  match map_get area (n_areas values) with
  | Some a => mkNavigation (n_order values) (map_set area (mkArea on (a_order a) (a_sections a)) (n_areas values))
  | None => values
  end.
Definition set_section_enabled (area section : jsstr) (on : bool) (values : SystemSettingsNavigationConfig) : SystemSettingsNavigationConfig :=
  match map_get area (n_areas values) with
  | Some a => mkNavigation (n_order values) (map_set area (mkArea (a_enabled a) (a_order a) (Some (map_set section on (default [] (a_sections a))))) (n_areas values))
  | None => values
  end.

Definition settings_export (s : SettingsEditor) : option jsstr :=
  v ← JSON_parse (serializeSystemSettingsNavigation toLowerCase (n_values s));
  Some (stringify indent2 json_number 0 (JObj (table [("SystemSettingsNavigation", v)]))).

Definition settings_import (s : SettingsEditor) : SettingsEditor :=
  match JSON_parse (importText (n_dialog s)) with
  | None | Some JNull => s
  | Some raw =>
      let payload := nullish (prop_of raw "SystemSettingsNavigation") raw in
      mkSettingsEditor (parseSystemSettingsNavigation toLowerCase (Some (match payload with JStr text => text | _ => JSON_stringify payload end)))
        (mkDialog false (importText (n_dialog s)))
  end.

Inductive settings_event :=
| NArea (area : jsstr) (on : bool)
| NSection (area section : jsstr) (on : bool)
| NMoveArea (area : jsstr) (up : bool)
| NMoveSection (area section : jsstr) (up : bool)
| NReset
| NImport
| NDialog (e : dialog_event).

Definition settings_step (s : SettingsEditor) (e : settings_event) : SettingsEditor :=
  match e with
  | NArea area on => mkSettingsEditor (set_area_enabled area on (n_values s)) (n_dialog s)
  | NSection area section on => mkSettingsEditor (set_section_enabled area section on (n_values s)) (n_dialog s)
  | NMoveArea area up => mkSettingsEditor (moveArea area up (n_values s)) (n_dialog s)
  | NMoveSection area section up => mkSettingsEditor (moveSettingsSection area section up (n_values s)) (n_dialog s)
  | NReset => mkSettingsEditor settings_reset (n_dialog s)
  | NImport => settings_import s
  | NDialog e => mkSettingsEditor (n_values s) (dialog_step (n_dialog s) e)
  end.

(** ** Sidebar *)

Record SidebarEditor := mkSidebarEditor { s_config : SidebarModulesAdminConfig; s_order : list jsstr; s_dialog : dialog }.

Record SidebarProps := mkSidebarProps {
  p_config : SidebarModulesAdminConfig; p_initialSerialized : jsstr; p_sectionOrder : list jsstr; p_initialSectionOrderSerialized : jsstr;
  p_classicSectionOrder : option jsstr
}.

Definition sidebar_props (modules taskOrder classic : option jsstr) : SidebarProps :=
  let config := parseSidebarModulesAdmin toLowerCase modules in
  let order := resolveTaskSectionOrder taskOrder classic in
  mkSidebarProps config (serializeSidebarModulesAdmin config) order (join (js ",") order) classic.

Definition sidebar_open (p : SidebarProps) : SidebarEditor := mkSidebarEditor (p_config p) (p_sectionOrder p) (mkDialog false []).

Definition sidebar_save (p : SidebarProps) (s : SidebarEditor) : list update :=
  let serialized := serializeSidebarModulesAdmin (s_config s) in
  let sectionOrder := join (js ",") (resolveTaskSectionOrder (Some (join (js ",") (s_order s))) None) in
  (if bool_decide (serialized = p_initialSerialized p) then [] else [(js "SidebarModulesAdmin", serialized)])
  ++ (if bool_decide (sectionOrder = p_initialSectionOrderSerialized p) then [] else [(js "SidebarTaskSectionOrder", sectionOrder)]).

(** [{ ...config, [section]: { ...config[section], [key]: value } }]. *)
Definition set_in_section (section key : jsstr) (value : section_value) (config : SidebarModulesAdminConfig) : SidebarModulesAdminConfig :=
  map_set section (map_set key value (default [] (map_get section config))) config.

Definition moveModule (section module other : jsstr) (config : SidebarModulesAdminConfig) : SidebarModulesAdminConfig :=
  let next := getSidebarSectionOrder (default [] (map_get section config)) in
  match position module next, position other next with
  | Some a, Some b => set_in_section section (js "order") (SOrder (swap_at a b next)) config
  | _, _ => config
  end.

Definition sidebar_export (p : SidebarProps) (s : SidebarEditor) : option jsstr :=
  v ← JSON_parse (serializeSidebarModulesAdmin (s_config s));
  Some (stringify indent2 json_number 0
    (JObj (table [("SidebarModulesAdmin", v); ("SidebarTaskSectionOrder", JStr (join (js ",") (s_order s)));
                  ("SidebarSectionOrder", JStr (default [] (p_classicSectionOrder p)))]))).

(** The callback [csv]. *)
Definition csv (value : option json) : option jsstr :=
  match value with Some (JArr l) => Some (to_text (JArr l)) | Some (JStr s) => Some s | _ => None end.

Definition sidebar_import (s : SidebarEditor) : SidebarEditor :=
  match JSON_parse (importText (s_dialog s)) with
  | Some (JObj m) =>
      let raw := JObj m in
      let modules := nullish (prop_of raw "SidebarModulesAdmin") raw in
      mkSidebarEditor (parseSidebarModulesAdmin toLowerCase (Some (match modules with JStr text => text | _ => JSON_stringify modules end)))
        (resolveTaskSectionOrder (csv (prop_of raw "SidebarTaskSectionOrder")) (csv (prop_of raw "SidebarSectionOrder")))
        (mkDialog false (importText (s_dialog s)))
  | _ => s
  end.

Inductive sidebar_event :=
| SSection (section : jsstr) (on : bool)
| SModule (section module : jsstr) (on : bool)
| STask (task : jsstr) (on : bool)
| SMoveSection (index : nat) (up : bool)
| SMoveModule (section module other : jsstr)
| SReset
| SImport
| SDialog (e : dialog_event).

Definition sidebar_step (s : SidebarEditor) (e : sidebar_event) : SidebarEditor :=
  match e with
  | SSection section on => mkSidebarEditor (set_in_section section (js "enabled") (SBool on) (s_config s)) (s_order s) (s_dialog s)
  | SModule section module on => mkSidebarEditor (set_in_section section module (SBool on) (s_config s)) (s_order s) (s_dialog s)
  | STask task on => mkSidebarEditor (setTaskSectionEnabled (s_config s) task on None) (s_order s) (s_dialog s)
  | SMoveSection index up => mkSidebarEditor (s_config s) (swap_at index (if up then pred index else S index) (s_order s)) (s_dialog s)
  | SMoveModule section module other => mkSidebarEditor (moveModule section module other (s_config s)) (s_order s) (s_dialog s)
  | SReset => mkSidebarEditor (parseSidebarModulesAdmin toLowerCase (Some [])) (resolveTaskSectionOrder None None) (s_dialog s)
  | SImport => sidebar_import s
  | SDialog e => mkSidebarEditor (s_config s) (s_order s) (dialog_step (s_dialog s) e)
  end.

(** The switches the page shows: those of the sections of the configuration, and
    those of the modules of a task. *)
Definition switch_offered (s : SidebarEditor) (e : sidebar_event) : bool :=
  match e with
  | SSection section _ => map_has section (s_config s)
  | SModule section module _ | SMoveModule section module _ =>
      existsb (fun task => existsb (fun ref => bool_decide (r_section (t_ref ref) = section) && bool_decide (r_module (t_ref ref) = module))
                             (taskModuleRefs task)) (s_order s)
  | STask task _ => set_has task (s_order s)
  | _ => true
  end.

(** ** The card of the profile *)

(** Sections of flags, as the card edits them; what is stored is read as JSON. *)
Definition card_sections : list (string * list string) := [("console", ["detail"; "token"; "log"]); ("personal", ["topup"; "personal"])].

Definition card_defaults : json :=
  JObj (map (fun s => (js s.1, JObj ((js "enabled", JBool true) :: map (fun m => (js m, JBool true)) s.2))) card_sections).

(** [loadConfig]: the answer of the server, or [None] when the request fails. *)
Definition card_load (answer : option json) (config : json) : json :=
  match answer with
  | None => config
  | Some data =>
      let raw := prop_opt (prop_of data "data") "sidebar_modules" in
      if truthy (prop_of data "success") && truthy raw
      then match raw with
           | Some (JStr text) => default config (JSON_parse text)
           | Some v => v
           | None => config
           end
      else card_defaults
  end.

(** The members an object literal copies from a value. *)
Definition spread (v : option json) : list (jsstr * json) := match v with Some v => Object_entries v | None => [] end.

(** [toggleSection] and [toggleModule]: both set one flag of a section. *)
Definition card_toggle (section key : jsstr) (on : bool) (prev : json) : res json :=
  match prev with
  | JNull => Throw (js "TypeError")
  | _ => Ok (JObj (map_set section (JObj (map_set key (JBool on) (spread (member prev section)))) (spread (Some prev))))
  end.

(** [handleSave]: the text that is sent. *)
Definition card_text (config : json) : jsstr := JSON_stringify config.

End editors.
End NavEditors.
