(* ===== verification/NavOrder.v ===== *)
(** * Objects built member by member (Module NavFold), and orders (Module NavOrder)

    The parsers of the navigation settings go over the members of a value and set, for
    each, at most one property of the result. This file describes such a loop at once:
    the properties the result has, their values and their order; and it relates the
    order of properties to filters and to changes of the values. *)

From S2P Require Import Prelude JsNum Json NumText JsValue NavConfig NavSidebar NavEditors.
Import NavObjects.

Module NavFold.

(** ** The order of properties *)

Lemma sort_by_fmap {A B} (cmp : A → A → Z) (cmp' : B → B → Z) (f : A → B) l :
  (∀ x y, cmp' (f x) (f y) = cmp x y) → sort_by cmp' (map f l) = map f (sort_by cmp l).
Proof.
  intros H. assert (Hi : ∀ x l, insert_by cmp' (f x) (map f l) = map f (insert_by cmp x l)).
  { intros x l'. induction l' as [|y r IH]; [done|]. cbn [map insert_by]. rewrite H. destruct (_ <=? 0)%Z; [done|]. cbn [map]. by rewrite IH. }
  induction l as [|x r IH]; [done|]. cbn [map sort_by]. by rewrite IH, Hi.
Qed.

Lemma filter_map_swap {A B} (q : B → bool) (f : A → B) l : List.filter q (map f l) = map f (List.filter (fun x => q (f x)) l).
Proof. induction l as [|x r IH]; [done|]. cbn [map List.filter]. destruct (q (f x)); cbn [map]; by rewrite IH. Qed.

(** A change of the values keeps the order. *)
Lemma property_order_values {A B} (f : jsstr * A → jsstr * B) m :
  (∀ kv, (f kv).1 = kv.1) → property_order (map f m) = map f (property_order m).
Proof.
  intros H. unfold property_order. rewrite !filter_map_swap, map_app. f_equal.
  - rewrite (sort_by_fmap cmpIndex); [|intros x y; unfold cmpIndex; by rewrite !H]. f_equal. f_equal.
    apply List.filter_ext. intros kv. by rewrite H.
  - f_equal. apply List.filter_ext. intros kv. by rewrite H.
Qed.

Lemma sort_by_filter {A} (cmp : A → A → Z) `{!Comparator cmp} (q : A → bool) l :
  List.filter q (sort_by cmp l) = sort_by cmp (List.filter q l).
Proof.
  assert (Hi : ∀ x l, StronglySorted (cmp_le cmp) l →
    List.filter q (insert_by cmp x l) = if q x then insert_by cmp x (List.filter q l) else List.filter q l).
  { intros x r Hs. induction Hs as [|y r Hs IH Hy]; [cbn; by destruct (q x)|]. cbn [insert_by List.filter].
    destruct (cmp x y <=? 0)%Z eqn:E; cbn [List.filter].
    - destruct (q x); [|done]. symmetry. destruct (q y); [cbn [insert_by]; by rewrite E|]. apply insert_by_head.
      apply Forall_forall. intros z [Hz _]%elem_of_List_filter. rewrite Forall_forall in Hy.
      apply (cmp_trans cmp x y z); [unfold cmp_le; lia|by apply Hy].
    - rewrite IH. destruct (q y); [|by destruct (q x)]. destruct (q x); [|done]. cbn [insert_by]. by rewrite E. }
  induction l as [|x r IH]; [done|]. cbn [sort_by List.filter]. rewrite Hi by (by apply sort_by_sorted). rewrite IH. by destruct (q x).
Qed.

#[local] Instance cmpIndex_ok {A} : Comparator (@cmpIndex A).
Proof. split; unfold cmp_le, cmpIndex; lia. Qed.

Lemma property_order_filter {A} (q : jsstr * A → bool) m : property_order (List.filter q m) = List.filter q (property_order m).
Proof. unfold property_order. rewrite List.filter_app, sort_by_filter by apply _. by rewrite !(filter_comm q). Qed.

Lemma property_order_filter_id {A} (q : jsstr * A → bool) m : property_order m = m → property_order (List.filter q m) = List.filter q m.
Proof. intros H. by rewrite property_order_filter, H. Qed.

(** ** Entries *)

Lemma is_index_print i : is_index (print_N i) = (i <? 4294967295)%N.
Proof.
  destruct (print_N_spec i) as (Hp & Hd & Hn). unfold is_index. rewrite Hp, bool_decide_true, (proj2 (nonempty_true _)) by done.
  rewrite (proj2 (forallb_forall _ _)); [done|]. intros c Hc%list_elem_of_In. rewrite Forall_forall in Hd. by apply Hd.
Qed.

Lemma print_index_inj i j : print_N i = print_N j → i = j.
Proof. intros E. destruct (print_N_spec i) as [<- _], (print_N_spec j) as [<- _]. by rewrite E. Qed.

Section numbering.
Context {A B : Type} (f : A → B).

(** The entries of a sequence, numbered from [n]. *)
Fixpoint entries_from (n : N) (l : list A) : list (jsstr * B) :=
  match l with [] => [] | x :: l' => (print_N n, f x) :: entries_from (N.succ n) l' end.

Lemma imap_numbered l n : imap (fun i x => (print_N (n + N.of_nat i), f x)) l = entries_from n l.
Proof.
  revert n. induction l as [|x l IH]; intros n; [done|]. cbn [imap entries_from]. rewrite N.add_0_r. f_equal.
  rewrite <- IH. apply imap_ext. intros i y _. cbn [compose]. by replace (n + N.of_nat (S i))%N with (N.succ n + N.of_nat i)%N by lia.
Qed.

Lemma imap_numbered0 l : imap (fun i x => (print_N (N.of_nat i), f x)) l = entries_from 0 l.
Proof. exact (imap_numbered l 0). Qed.

Lemma numbered_keys k l n : k ∈ (entries_from n l).*1 → ∃ i, (n <= i)%N ∧ k = print_N i.
Proof.
  revert n. induction l as [|x l IH]; intros n; [by intros ?%elem_of_nil|]. cbn [entries_from fmap list_fmap fst]. rewrite elem_of_cons.
  intros [->|(i & Hi & ->)%IH]; [by exists n|]. exists i. split; [lia|done].
Qed.

Lemma numbered_NoDup l n : NoDup (entries_from n l).*1.
Proof.
  revert n. induction l as [|x l IH]; intros n; [constructor|]. cbn [entries_from fmap list_fmap fst]. constructor; [|apply IH].
  intros (i & Hi & E%print_index_inj)%numbered_keys. lia.
Qed.

Lemma numbered_ordered l n : property_order (entries_from n l) = entries_from n l.
Proof.
  revert n. induction l as [|x l IH]; intros n; [done|]. cbn [entries_from]. specialize (IH (N.succ n)).
  assert (Hk : Forall (fun kv => ∃ i, (N.succ n <= i)%N ∧ kv.1 = print_N i) (entries_from (N.succ n) l)).
  { apply Forall_forall. intros kv Hkv. apply numbered_keys with l. apply list_elem_of_fmap. by exists kv. }
  unfold property_order in *. cbn [List.filter fst]. rewrite is_index_print. destruct (n <? 4294967295)%N eqn:E; cbn [negb].
  - cbn [sort_by]. rewrite insert_by_head; [cbn [app]; by f_equal|]. rewrite sort_by_perm. apply Forall_forall.
    intros kv [Hkv _]%elem_of_List_filter. rewrite Forall_forall in Hk. destruct (Hk kv Hkv) as (i & Hi & Ei).
    unfold cmp_le, cmpIndex. rewrite Ei. cbn [fst]. destruct (print_N_spec n) as [-> _], (print_N_spec i) as [-> _]. lia.
  - assert (Hz : Forall (fun kv : jsstr * B => is_index kv.1 = false) (entries_from (N.succ n) l)).
    { eapply Forall_impl; [exact Hk|]. intros kv (i & Hi & ->). rewrite is_index_print. lia. }
    rewrite List_filter_none by done. cbn [sort_by app]. rewrite List_filter_all; [done|]. eapply Forall_impl; [exact Hz|].
    intros kv Hkv. cbn beta in Hkv. by rewrite Hkv.
Qed.
End numbering.

(** The members of a parsed value have distinct names, in the order of properties. *)
Lemma entries_ok v : js_ok v → NoDup (Object_entries v).*1 ∧ property_order (Object_entries v) = Object_entries v.
Proof.
  destruct v as [| | |s|l|m]; cbn [Object_entries]; intros H; try by split; [constructor|].
  - rewrite (imap_numbered0 (fun c => JStr [c]) s).
    split; [apply numbered_NoDup|apply numbered_ordered].
  - rewrite (imap_numbered0 (fun x : json => x) l).
    split; [apply numbered_NoDup|apply numbered_ordered].
  - cbn [js_ok] in H. destruct H as [H _]. by apply obj_of_fixed.
Qed.

(** ** The loop *)

Section loop.
Context {A B : Type} (f : jsstr → A → option B → option B).

(** A member may set the property of its name, seeing the value it has. *)
Definition enter (acc : list (jsstr * B)) (entry : jsstr * A) : list (jsstr * B) :=
  match f entry.1 entry.2 (map_get entry.1 acc) with Some v => map_set entry.1 v acc | None => acc end.

Lemma map_get_enter acc k k' raw : map_get k (enter acc (k', raw)) = if decide (k = k') then
    match f k raw (map_get k acc) with Some v => Some v | None => map_get k acc end else map_get k acc.
Proof.
  unfold enter. cbn [fst snd]. case_decide as E.
  - subst k'. destruct (f k raw (map_get k acc)); [apply map_get_set_eq|done].
  - destruct (f k' raw (map_get k' acc)); [by apply map_get_set_ne|done].
Qed.

(** The values of the result. *)
Lemma map_get_loop entries acc k : NoDup entries.*1 →
  map_get k (foldl enter acc entries)
  = match map_get k entries with
    | Some raw => match f k raw (map_get k acc) with Some v => Some v | None => map_get k acc end
    | None => map_get k acc
    end.
Proof.
  revert acc. induction entries as [|[k' raw] l IH]; intros acc Hd; [done|]. cbn [fmap list_fmap fst] in Hd. apply NoDup_cons in Hd as [Hn Hd].
  cbn [foldl map_get]. rewrite IH by done. rewrite map_get_enter. case_decide as E; [|done]. subst k'.
  by rewrite (proj2 (map_get_None k l) Hn).
Qed.

Lemma NoDup_loop entries acc : NoDup acc.*1 → NoDup (foldl enter acc entries).*1.
Proof.
  revert acc. induction entries as [|kv l IH]; intros acc H; [done|]. apply IH. unfold enter. destruct (f _ _ _); [|done].
  by apply NoDup_keys_map_set.
Qed.
End loop.
End NavFold.

(** * Orders

    How a configured order is applied to the items there are: the loops of [arrange]
    have a closed form, from which follow that every item appears once, that the
    configured items come first and that an order which is read again is kept. *)

Import NavObjects NavConfig NavSidebar NavEditors.

Module NavOrder.

(** ** The closed form *)

Lemma set_add_new {A} `{EqDecision A} (s : list A) x : x ∉ s → set_add s x = s ++ [x].
Proof. intros H. unfold set_add. by rewrite decide_False. Qed.

Lemma set_add_old {A} `{EqDecision A} (s : list A) x : x ∈ s → set_add s x = s.
Proof. intros H. unfold set_add. by rewrite decide_True. Qed.

Lemma set_has_false {A} `{EqDecision A} (x : A) s : set_has x s = false ↔ x ∉ s.
Proof. unfold set_has. apply bool_decide_eq_false. Qed.

(** In both loops the items kept so far are the items seen. *)
Lemma keep_known_loop available configured o :
  foldl (keep_known available) (o, o) configured
  = (foldl set_add o (List.filter (fun x => set_has x available) configured), foldl set_add o (List.filter (fun x => set_has x available) configured)).
Proof.
  revert o. induction configured as [|x l IH]; intros o; [done|]. cbn [foldl List.filter keep_known].
  destruct (set_has x available); cbn [negb orb foldl]; [|apply IH].
  destruct (set_has x o) eqn:E; [apply set_has_spec in E|apply set_has_false in E].
  - rewrite set_add_old by done. apply IH.
  - rewrite <- (set_add_new o x E). apply IH.
Qed.

Lemma push_missing_loop available o : foldl push_missing (o, o) available = (foldl set_add o available, foldl set_add o available).
Proof.
  revert o. induction available as [|x l IH]; intros o; [done|]. cbn [foldl push_missing].
  destruct (set_has x o) eqn:E; [apply set_has_spec in E|apply set_has_false in E]; cbn [negb].
  - rewrite set_add_old by done. apply IH.
  - rewrite <- (set_add_new o x E). apply IH.
Qed.

(** The items of a configuration that exist. *)
Definition known (configured available : list jsstr) : list jsstr := List.filter (fun x => set_has x available) configured.

Lemma elem_of_known x configured available : x ∈ known configured available ↔ x ∈ configured ∧ x ∈ available.
Proof. unfold known. by rewrite elem_of_List_filter, set_has_spec. Qed.

Lemma known_ext configured (a a' : list jsstr) : (∀ x, x ∈ a ↔ x ∈ a') → known configured a = known configured a'.
Proof.
  intros H. unfold known. induction configured as [|x l IH]; [done|]. cbn [List.filter]. rewrite IH.
  replace (set_has x a') with (set_has x a); [done|]. unfold set_has. apply bool_decide_ext, H.
Qed.

Lemma arrange_set configured available : arrange configured available = set_of (known configured available ++ available).
Proof.
  unfold arrange. rewrite keep_known_loop, push_missing_loop. cbn [fst]. unfold set_of. rewrite foldl_app. do 2 f_equal.
  apply known_ext. intros x. apply elem_of_set_of.
Qed.

(** ** Consequences *)

Lemma elem_of_arrange x configured available : x ∈ arrange configured available ↔ x ∈ available.
Proof. rewrite arrange_set, elem_of_set_of, elem_of_app, elem_of_known. tauto. Qed.

Lemma NoDup_arrange configured available : NoDup (arrange configured available).
Proof. rewrite arrange_set. apply NoDup_set_of. Qed.

Lemma arrange_perm configured available : NoDup available → arrange configured available ≡ₚ available.
Proof. intros H. apply NoDup_Permutation; [apply NoDup_arrange|done|]. intros x. apply elem_of_arrange. Qed.

Lemma foldl_set_add_app l s :
  foldl set_add s l = s ++ List.filter (fun x => negb (set_has x s)) (set_of (l : list jsstr)).
Proof.
  induction l as [|x l IH] using rev_ind; [cbn; by rewrite app_nil_r|]. rewrite foldl_app, set_of_snoc. cbn [foldl]. rewrite IH. clear IH.
  destruct (decide (x ∈ set_of l)) as [Hl|Hl].
  - rewrite (set_add_old (set_of l)) by done. apply set_add_old. rewrite elem_of_app, elem_of_List_filter.
    destruct (decide (x ∈ s)) as [Hs|Hs]; [by left|]. right. split; [done|]. by rewrite (proj2 (set_has_false x s)).
  - rewrite (set_add_new (set_of l)), List.filter_app by done. cbn [List.filter].
    destruct (set_has x s) eqn:E; [apply set_has_spec in E|apply set_has_false in E]; cbn [negb].
    + rewrite app_nil_r, set_add_old; [done|]. apply elem_of_app. by left.
    + rewrite set_add_new; [by rewrite app_assoc|]. rewrite elem_of_app, elem_of_List_filter. tauto.
Qed.

(** The configured items, each once, and then the others in the order they have. *)
Lemma arrange_parts configured available :
  arrange configured available
  = set_of (known configured available) ++ List.filter (fun x => negb (set_has x configured)) (set_of available).
Proof.
  rewrite arrange_set. unfold set_of at 1. rewrite foldl_app. fold (set_of (known configured available)).
  rewrite foldl_set_add_app. f_equal. apply List.filter_ext_in. intros x Hx%list_elem_of_In. rewrite elem_of_set_of in Hx.
  f_equal. unfold set_has. apply bool_decide_ext. rewrite elem_of_set_of, elem_of_known. tauto.
Qed.

Lemma known_all l available : (∀ x, x ∈ l → x ∈ available) → known l available = l.
Proof. intros H. apply List_filter_all, Forall_forall. intros x Hx. by apply set_has_spec, H. Qed.

(** A complete order without repetitions is kept. *)
Lemma arrange_complete l available : NoDup l → (∀ x, x ∈ l ↔ x ∈ available) → arrange l available = l.
Proof.
  intros Hd H. rewrite arrange_parts, known_all by (intros x; apply H). rewrite (set_of_id l) by done.
  rewrite List_filter_none; [apply app_nil_r|]. apply Forall_forall. intros x Hx. rewrite elem_of_set_of in Hx. apply negb_false_iff, set_has_spec. by apply H.
Qed.

Lemma arrange_idem configured available : arrange (arrange configured available) available = arrange configured available.
Proof. apply arrange_complete; [apply NoDup_arrange|]. intros x. apply elem_of_arrange. Qed.

(** Items that are there under another arrangement of the same items. *)
Lemma arrange_available configured (a a' : list jsstr) : NoDup configured → (∀ x, x ∈ configured ↔ x ∈ a) → (∀ x, x ∈ a ↔ x ∈ a') →
  arrange configured a' = configured.
Proof. intros Hd H H'. apply arrange_complete; [done|]. intros x. by rewrite H, H'. Qed.

(** ** Orders as texts *)

(** A name that survives in a list separated by commas. *)
Definition plain_name (x : jsstr) : Prop := 44%N ∉ x ∧ trim x = x ∧ x ≠ [].

#[global] Instance plain_name_dec x : Decision (plain_name x).
Proof. unfold plain_name. apply _. Defined.

Lemma join_nil l : Forall plain_name l → join (js ",") l = [] → l = [].
Proof.
  intros H. destruct H as [|x l [_ [_ Hx]] Hl]; [done|]. cbn [join]. destruct l; [done|]. by destruct x.
Qed.

Lemma order_items_join l : Forall plain_name l → order_items (Some (join (js ",") l)) = l.
Proof.
  intros H. unfold order_items. destruct (nonempty (join (js ",") l)) eqn:E.
  - assert (Hl : l ≠ []) by (intros ->; done). change (js ",") with [44%N]. rewrite split_char_join; [|done|].
    + rewrite map_id_Forall; [|eapply Forall_impl; [exact H|by intros x (_ & ? & _)]].
      apply List_filter_all. eapply Forall_impl; [exact H|]. intros x (_ & _ & Hx). by apply nonempty_true.
    + eapply Forall_impl; [exact H|]. by intros x [? _].
  - symmetry. apply join_nil; [done|]. by destruct (join _ _).
Qed.

Lemma parse_order_join l available : Forall plain_name l → NoDup l → (∀ x, x ∈ l ↔ x ∈ available) →
  parseSidebarSectionOrder (Some (join (js ",") l)) available = l.
Proof. intros Hl Hd H. unfold parseSidebarSectionOrder. rewrite order_items_join by done. by apply arrange_complete. Qed.

Lemma parse_order_plain value available : Forall plain_name available → Forall plain_name (parseSidebarSectionOrder value available).
Proof.
  intros H. apply Forall_forall. intros x Hx. apply elem_of_arrange in Hx. rewrite Forall_forall in H. by apply H.
Qed.

(** What is saved reads back. *)
Lemma parse_order_saved order available : Forall plain_name available →
  parseSidebarSectionOrder (Some (serializeSidebarSectionOrder order available)) available
  = parseSidebarSectionOrder (Some (join (js ",") order)) available.
Proof.
  intros H. apply parse_order_join; [by apply parse_order_plain|apply NoDup_arrange|]. intros x. apply elem_of_arrange.
Qed.

(** ** Task sections *)

Lemma task_ids_plain : Forall plain_name task_ids.
Proof. apply (bool_decide_unpack _). vm_compute. exact I. Qed.

Lemma task_ids_NoDup : NoDup task_ids.
Proof. apply (bool_decide_unpack _). vm_compute. exact I. Qed.

Lemma resolve_perm value classic : resolveTaskSectionOrder value classic ≡ₚ task_ids.
Proof.
  unfold resolveTaskSectionOrder. repeat case_match; try done; apply arrange_perm, task_ids_NoDup.
Qed.

Lemma resolve_elem value classic x : x ∈ resolveTaskSectionOrder value classic ↔ x ∈ task_ids.
Proof. by rewrite (resolve_perm value classic). Qed.

(** An order of the tasks that is saved reads back. *)
Lemma resolve_saved order classic : order ≡ₚ task_ids → resolveTaskSectionOrder (Some (join (js ",") order)) classic = order.
Proof.
  intros Hp. assert (Hpl : Forall plain_name order) by (rewrite Hp; apply task_ids_plain).
  assert (Hd : NoDup order) by (rewrite Hp; apply task_ids_NoDup).
  unfold resolveTaskSectionOrder. change (default [] (trim <$> Some (join (js ",") order))) with (trim (join (js ",") order)).
  destruct (nonempty (trim (join (js ",") order))) eqn:E; [apply parse_order_join; [done|done|by intros x; rewrite Hp]|].
  exfalso. destruct order as [|x order]; [by apply Permutation_nil_l in Hp|].
  apply Forall_cons in Hpl as [(_ & Ht & Hx) _]. destruct (trim x) as [|c r] eqn:Ex; [congruence|].
  assert (Hc : is_ws c = false) by (by eapply trim_head). assert (Hin : c ∈ x) by (rewrite <- Ht; apply list_elem_of_here).
  rewrite (trim_not_blank _ c) in E; [done| |done]. cbn [join]. destruct order; [done|]. apply elem_of_app. by left.
Qed.

(** ** Moves keep the items *)

Lemma swap_at_perm {A} i j (l : list A) : swap_at i j l ≡ₚ l.
Proof.
  unfold swap_at. destruct (l !! i) as [x|] eqn:Ei; [|done]. destruct (l !! j) as [y|] eqn:Ej; [|done]. by apply Permutation_insert_swap.
Qed.
End NavOrder.
