(* ===== verification/NavHeader.v ===== *)
(** * The header modules, as settings and as the site reads them

    What the parser of the settings page returns, member by member; that a saved
    configuration reads back; and that the parser of the site
    (src/web/default/src/lib/nav-modules.ts) agrees with it on the modules the console
    has, unless a switch is a number other than 0 and 1. *)

From S2P Require Import Prelude JsNum Json NumText Records JsValue Playground PlaygroundStorage NavConfig NavModules NavSidebar NavEditors NavOrder.
Import NavObjects NavFold NavOrder.

Module NavHeader.
Import NavConfig.

(** ** Printing *)

Lemma wellformed_texts l : wellformed (texts l).
Proof. apply wellformed_arr, Forall_forall. intros v (s & -> & _)%list_elem_of_fmap. by split. Qed.

Lemma wellformed_table (l : list (string * json)) :
  bool_decide (NoDup (map fst l)) = true → forallb (fun kv => negb (is_index (js kv.1))) l = true → Forall (fun kv => wellformed kv.2) l →
  wellformed (JObj (table l)).
Proof.
  intros Hd%bool_decide_eq_true Hp Hw. apply wellformed_obj. split; [|split].
  - unfold table. rewrite <- list_fmap_compose. change (fst ∘ (fun kv : string * json => (js kv.1, kv.2))) with (js ∘ (@fst string json)).
    rewrite list_fmap_compose. apply NoDup_fmap_2; [|done]. intros a b. apply js_inj.
  - rewrite forallb_forall in Hp.
    assert (Hz : Forall (fun kv : jsstr * json => is_index kv.1 = false) (table l)).
    { apply Forall_forall. intros kv ([k v] & -> & Hk)%list_elem_of_fmap. apply negb_true_iff, (Hp (k, v)). by apply list_elem_of_In. }
    unfold property_order. rewrite List_filter_none by done. cbn [sort_by app]. apply List_filter_all.
    eapply Forall_impl; [exact Hz|]. intros kv Hkv. cbn beta in Hkv. by rewrite Hkv.
  - apply Forall_forall. intros kv ([k v] & -> & Hk)%list_elem_of_fmap. rewrite Forall_forall in Hw. by apply (Hw (k, v)).
Qed.

Lemma wellformed_header v : wellformed (header_json v).
Proof.
  destruct v as [b|[e r]|l]; [by split| |apply wellformed_texts]. apply wellformed_table; [by vm_compute..|].
  repeat apply List.Forall_cons; try apply List.Forall_nil; by split.
Qed.

(** An object whose members print and read back does so itself. *)
Lemma wellformed_members {A} (h : A → json) (m : list (jsstr * A)) : NoDup m.*1 → (∀ k v, (k, v) ∈ m → wellformed (h v)) →
  wellformed (JObj (property_order (map (fun kv => (kv.1, h kv.2)) m))).
Proof.
  intros Hd Hw. apply wellformed_obj. split; [|split; [apply property_order_idem|]].
  - rewrite ordered_perm, <- list_fmap_compose. exact Hd.
  - rewrite ordered_perm. apply Forall_forall. intros kv ([k v] & -> & Hk)%list_elem_of_fmap. by apply (Hw k).
Qed.

Lemma parse_printed v : wellformed v → JSON_parse (JSON_stringify v) = Some v.
Proof. intros [Hj Hn]. by apply (JSON_parse_printed compact json_number). Qed.

Lemma map_get_values {A B} (h : A → B) (m : list (jsstr * A)) k : map_get k (map (fun kv => (kv.1, h kv.2)) m) = h <$> map_get k m.
Proof. induction m as [|[k' v] m IH]; [done|]. cbn [map map_get fst snd]. by case_decide. Qed.

(** Reading a member of a printed object. *)
Lemma map_get_printed {A} (h : A → json) (m : list (jsstr * A)) k : NoDup m.*1 →
  map_get k (property_order (map (fun kv => (kv.1, h kv.2)) m)) = h <$> map_get k m.
Proof.
  intros Hd. rewrite <- map_get_values. apply map_get_perm; [|apply ordered_perm]. rewrite ordered_perm, <- list_fmap_compose. exact Hd.
Qed.

Lemma strings_texts l : strings_of (Some (texts l)) = l.
Proof. cbn [strings_of texts]. unfold only_strings. induction l as [|x l IH]; [done|]. cbn. by rewrite IH. Qed.

Lemma map_set_same {A} (k : jsstr) (v : A) m : map_get k m = Some v → map_set k v m = m.
Proof.
  induction m as [|[k' v'] m IH]; [done|]. cbn [map_get map_set]. case_decide as E; [intros [= ->]; by subst|]. intros Hk. by rewrite IH.
Qed.

(** ** The parser of the settings page *)

Section parser.
Context (toLowerCase : jsstr → jsstr).

(** What a member of the text sets. *)
Definition reads (key : jsstr) (raw : json) (_ : option header_value) : option header_value :=
  if decide (key = js "order") then None
  else if decide (key = js "pricing") then Some (HAccess (parseAccessModule toLowerCase raw open_access))
  else if decide (key = js "rankings") then Some (HAccess (parseAccessModule toLowerCase raw open_access))
  else if decide (key = proto) then None
  else match raw with
       | JBool b => Some (HBool b)
       | JStr _ | JNum _ => Some (HBool (toBoolean toLowerCase (Some raw) (base_truthy HEADER_NAV_DEFAULT key)))
       | _ => None
       end.

Lemma clone_default : cloneHeaderNavDefault = HEADER_NAV_DEFAULT.
Proof. vm_compute. reflexivity. Qed.

Lemma header_entry_put acc kv : header_entry toLowerCase cloneHeaderNavDefault acc kv = enter reads acc kv.
Proof.
  destruct kv as [k raw]. unfold header_entry, enter, reads. cbn [fst snd]. rewrite clone_default. unfold assign.
  repeat case_decide; try done; subst; destruct raw; done.
Qed.

(** The configuration that a value of the text stands for, by member. *)
Definition header_of (parsed : json) (k : jsstr) : option header_value :=
  let start := if decide (k = js "order") then Some (HOrder (normalizeHeaderNavOrder (prop_of parsed "order"))) else map_get k HEADER_NAV_DEFAULT in
  match map_get k (Object_entries parsed) with
  | Some raw => match reads k raw start with Some v => Some v | None => start end
  | None => start
  end.

Definition header_start (parsed : json) : HeaderNavModulesConfig :=
  map_set (js "order") (HOrder (normalizeHeaderNavOrder (prop_of parsed "order"))) HEADER_NAV_DEFAULT.

Lemma header_start_get parsed k :
  map_get k (header_start parsed)
  = if decide (k = js "order") then Some (HOrder (normalizeHeaderNavOrder (prop_of parsed "order"))) else map_get k HEADER_NAV_DEFAULT.
Proof. unfold header_start. case_decide as E; [subst; apply map_get_set_eq|by apply map_get_set_ne]. Qed.

(** The value a text stands for, when it is neither empty nor [null]. *)
Definition text_json (value : option jsstr) : option json :=
  match value with
  | Some s => if nonempty s then match JSON_parse s with Some JNull | None => None | Some v => Some v end else None
  | None => None
  end.

Lemma text_value_ok value v : text_json value = Some v → js_ok v.
Proof.
  unfold text_json. destruct value as [s|]; [|done]. destruct (nonempty s); [|done]. destruct (JSON_parse s) as [w|] eqn:E; [|done].
  intros H. apply (JSON_parse_ok s). destruct w; simplify_eq; done.
Qed.

Lemma text_value_parsed s v : text_json (Some s) = Some v → JSON_parse s = Some v.
Proof. unfold text_json. destruct (nonempty s); [|done]. destruct (JSON_parse s) as [[]|]; congruence. Qed.

Lemma header_loop parsed acc :
  foldl (header_entry toLowerCase cloneHeaderNavDefault) acc (Object_entries parsed) = foldl (enter reads) acc (Object_entries parsed).
Proof.
  revert acc. induction (Object_entries parsed) as [|kv l IH]; intros acc; [done|]. cbn [foldl]. rewrite header_entry_put. apply IH.
Qed.

Lemma parse_header value :
  parseHeaderNavModules toLowerCase value
  = match text_json value with
    | Some parsed => foldl (enter reads) (header_start parsed) (Object_entries parsed)
    | None => HEADER_NAV_DEFAULT
    end.
Proof.
  unfold parseHeaderNavModules, text_json. destruct value as [s|]; [|apply clone_default].
  destruct (nonempty s); cbn [negb]; [|apply clone_default]. destruct (JSON_parse s) as [parsed|]; [|apply clone_default].
  destruct parsed; [apply clone_default|by rewrite header_loop..].
Qed.

Lemma header_get value k :
  map_get k (parseHeaderNavModules toLowerCase value)
  = match text_json value with Some parsed => header_of parsed k | None => map_get k HEADER_NAV_DEFAULT end.
Proof.
  rewrite parse_header. destruct (text_json value) as [parsed|] eqn:E; [|done]. rewrite map_get_loop, header_start_get; [done|].
  by apply entries_ok, (text_value_ok value).
Qed.

Lemma header_NoDup value : NoDup (parseHeaderNavModules toLowerCase value).*1.
Proof.
  assert (Hd : NoDup HEADER_NAV_DEFAULT.*1) by (apply (bool_decide_unpack _); vm_compute; exact I).
  rewrite parse_header. destruct (text_json value); [|done]. by apply NoDup_loop, NoDup_keys_map_set.
Qed.

(** ** The shape of a configuration *)

Lemma reads_other k raw cur : k ∉ map js ["order"; "pricing"; "rankings"] → reads k raw cur = None ∨ ∃ b, reads k raw cur = Some (HBool b).
Proof.
  intros Hk. unfold reads. rewrite !(decide_False (P := k = js _)) by set_solver.
  case_decide; [by left|]. destruct raw; try (by left); right; by eexists.
Qed.

(** What the type of the configuration says, and that its order is complete. *)
Record tidy_header (c : HeaderNavModulesConfig) : Prop := {
  th_keys : NoDup c.*1;
  th_order : ∃ l, map_get (js "order") c = Some (HOrder l) ∧ arrange l HEADER_NAV_ORDER_DEFAULT = l;
  th_pricing : ∃ a, map_get (js "pricing") c = Some (HAccess a);
  th_rankings : ∃ a, map_get (js "rankings") c = Some (HAccess a);
  th_others k v : k ∉ map js ["order"; "pricing"; "rankings"] → map_get k c = Some v → ∃ b, v = HBool b;
  th_base k : k ∈ HEADER_NAV_ORDER_DEFAULT → is_Some (map_get k c);
  th_proto : map_get proto c = None
}.

Lemma default_others k v : k ∉ map js ["order"; "pricing"; "rankings"] → map_get k HEADER_NAV_DEFAULT = Some v → ∃ b, v = HBool b.
Proof.
  intros Hk Hv%map_get_Some. assert (Hall : Forall (fun kv => kv.1 ∈ map js ["order"; "pricing"; "rankings"] ∨ ∃ b, kv.2 = HBool b) HEADER_NAV_DEFAULT).
  { repeat apply List.Forall_cons; try apply List.Forall_nil; first [by right; eexists | left; apply (bool_decide_unpack _); vm_compute; exact I]. }
  rewrite Forall_forall in Hall. by destruct (Hall _ Hv).
Qed.

Lemma default_base k : k ∈ HEADER_NAV_ORDER_DEFAULT → is_Some (map_get k HEADER_NAV_DEFAULT).
Proof.
  intros Hk. assert (H : Forall (fun k => is_Some (map_get k HEADER_NAV_DEFAULT)) HEADER_NAV_ORDER_DEFAULT).
  { apply (bool_decide_unpack _). vm_compute. exact I. }
  rewrite Forall_forall in H. by apply H.
Qed.

Lemma header_tidy value : tidy_header (parseHeaderNavModules toLowerCase value).
Proof.
  split; [apply header_NoDup|..].
  - rewrite header_get. destruct (text_json value) as [parsed|].
    + unfold header_of. rewrite decide_True by done. exists (normalizeHeaderNavOrder (prop_of parsed "order")).
      split; [|apply arrange_idem]. by destruct (map_get (js "order") (Object_entries parsed)).
    + eexists. split; [reflexivity|]. vm_compute. reflexivity.
  - rewrite header_get. destruct (text_json value) as [parsed|]; [|by eexists]. unfold header_of.
    destruct (map_get (js "pricing") (Object_entries parsed)); by eexists.
  - rewrite header_get. destruct (text_json value) as [parsed|]; [|by eexists]. unfold header_of.
    destruct (map_get (js "rankings") (Object_entries parsed)); by eexists.
  - intros k v Hk. rewrite header_get. destruct (text_json value) as [parsed|]; [|by apply default_others]. unfold header_of.
    rewrite decide_False by set_solver. destruct (map_get k (Object_entries parsed)) as [raw|]; [|by apply default_others].
    destruct (reads_other k raw (map_get k HEADER_NAV_DEFAULT) Hk) as [->|[b ->]]; [by apply default_others|]. intros [= <-]. by eexists.
  - intros k [v Hv]%default_base. rewrite header_get. destruct (text_json value) as [parsed|]; [|by eexists]. unfold header_of.
    assert (Hs : is_Some (if decide (k = js "order") then Some (HOrder (normalizeHeaderNavOrder (prop_of parsed "order"))) else map_get k HEADER_NAV_DEFAULT))
      by (case_decide; by eexists).
    destruct (map_get k (Object_entries parsed)); [|done]. destruct (reads k _ _); [by eexists|done].
  - rewrite header_get. destruct (text_json value) as [parsed|]; [|done]. unfold header_of.
    by destruct (map_get proto (Object_entries parsed)).
Qed.

(** ** Saving *)

(** What is printed of a configuration. *)
Definition saved_header (c : HeaderNavModulesConfig) : json :=
  JObj (property_order (map (fun kv => (kv.1, header_json kv.2)) (map_set (js "order") (HOrder (normalizeHeaderNavOrder (header_order c))) c))).

Lemma saved_header_text c : tidy_header c → text_json (Some (serializeHeaderNavModules c)) = Some (saved_header c).
Proof.
  intros H. assert (Hp : JSON_parse (serializeHeaderNavModules c) = Some (saved_header c)).
  { apply parse_printed, wellformed_members; [apply NoDup_keys_map_set, H|]. intros k v _. apply wellformed_header. }
  unfold text_json. rewrite Hp. destruct (nonempty (serializeHeaderNavModules c)) eqn:E; [done|].
  destruct (serializeHeaderNavModules c); [discriminate Hp|discriminate E].
Qed.

Lemma header_order_kept c : tidy_header c → map_set (js "order") (HOrder (normalizeHeaderNavOrder (header_order c))) c = c.
Proof.
  intros H. destruct (th_order c H) as (l & Hl & Ha). apply map_set_same. rewrite Hl. unfold normalizeHeaderNavOrder, header_order.
  rewrite Hl. cbn [fmap option_fmap option_map header_json]. by rewrite strings_texts, Ha.
Qed.

Lemma saved_header_back c k : tidy_header c → map_get k (parseHeaderNavModules toLowerCase (Some (serializeHeaderNavModules c))) = map_get k c.
Proof.
  intros H. rewrite header_get, saved_header_text by done. unfold saved_header. rewrite header_order_kept by done.
  set (m := property_order _). assert (Hm : ∀ k, map_get k m = header_json <$> map_get k c) by (intros k'; apply map_get_printed, H).
  unfold header_of. cbn [Object_entries prop_of]. rewrite !Hm. destruct (th_order c H) as (l & Hl & Ha).
  destruct (decide (k = js "order")) as [->|Ho].
  { rewrite Hl. cbn [fmap option_fmap option_map header_json]. unfold normalizeHeaderNavOrder. by rewrite strings_texts, Ha. }
  destruct (decide (k = js "pricing")) as [->|Hp]; [destruct (th_pricing c H) as [a ->]; by destruct a|].
  destruct (decide (k = js "rankings")) as [->|Hr]; [destruct (th_rankings c H) as [a ->]; by destruct a|].
  destruct (map_get k c) as [v|] eqn:E.
  - destruct (th_others c H k v) as [b ->]; [set_solver|done|]. assert (Hp' : k ≠ proto) by (intros ->; by rewrite (th_proto c H) in E).
    cbn [fmap option_fmap option_map header_json]. unfold reads. by rewrite !decide_False.
  - cbn [fmap option_fmap option_map]. destruct (map_get k HEADER_NAV_DEFAULT) as [v|] eqn:Ed; [|done]. exfalso.
    destruct (th_base c H k) as [v' Hv]; [|congruence]. apply map_get_Some in Ed.
    assert (Hall : Forall (fun kv => kv.1 = js "order" ∨ kv.1 ∈ HEADER_NAV_ORDER_DEFAULT) HEADER_NAV_DEFAULT).
    { apply (bool_decide_unpack _). vm_compute. exact I. }
    rewrite Forall_forall in Hall. by destruct (Hall _ Ed).
Qed.
(** ** The parser of the site *)

Notation site := (NavModules.parseHeaderNavModules toLowerCase).

Definition site_reads (key : jsstr) (value : json) (cur : option header_value) : option header_value :=
  if decide (key = js "order") then None
  else if decide (key = js "pricing") then Some (HAccess (NavModules.parseAccess toLowerCase value match cur with Some (HAccess a) => a | _ => open_access end))
  else if decide (key = js "rankings") then Some (HAccess (NavModules.parseAccess toLowerCase value match cur with Some (HAccess a) => a | _ => open_access end))
  else if decide (key = proto) then None
  else match cur with
       | Some (HBool fallback) => Some (HBool (NavModules.parseHeaderNavBoolean toLowerCase (Some value) fallback))
       | _ => if NavModules.is_primitive value then Some (HBool (NavModules.parseHeaderNavBoolean toLowerCase (Some value) true)) else None
       end.

Lemma site_entry_put acc kv : NavModules.header_entry toLowerCase acc kv = enter site_reads acc kv.
Proof.
  destruct kv as [k raw]. unfold NavModules.header_entry, enter, site_reads, assign, access_of. cbn [fst snd].
  destruct (decide (k = js "order")) as [->|]; [done|]. destruct (decide (k = js "pricing")) as [->|]; [done|].
  destruct (decide (k = js "rankings")) as [->|]; [done|].
  destruct (map_get k acc) as [[]|]; destruct (decide (k = proto)); destruct raw; done.
Qed.

Lemma site_clone : NavModules.cloneHeaderNavDefaults = HEADER_NAV_DEFAULT.
Proof. vm_compute. reflexivity. Qed.

Lemma site_loop parsed acc :
  foldl (NavModules.header_entry toLowerCase) acc (Object_entries parsed) = foldl (enter site_reads) acc (Object_entries parsed).
Proof.
  revert acc. induction (Object_entries parsed) as [|kv l IH]; intros acc; [done|]. cbn [foldl]. rewrite site_entry_put. apply IH.
Qed.

Lemma site_text s :
  site (Some (JStr s))
  = match text_json (Some s) with
    | Some parsed => if truthy (Some parsed) then foldl (enter site_reads) (header_start parsed) (Object_entries parsed) else HEADER_NAV_DEFAULT
    | None => HEADER_NAV_DEFAULT
    end.
Proof.
  unfold NavModules.parseHeaderNavModules, NavModules.parseHeaderNavRecord, text_json. cbn [truthy to_text]. rewrite site_clone.
  destruct (nonempty s); cbn [negb orb]; [|done]. destruct (nonempty (trim s)) eqn:Et; cbn [negb].
  - destruct (JSON_parse s) as [parsed|]; [|done]. rewrite site_loop.
    destruct parsed; try reflexivity; cbn [truthy]; match goal with |- context [negb ?b] => destruct b end; reflexivity.
  - rewrite JSON_parse_blank; [done|]. by destruct (trim s).
Qed.

Lemma site_get s k :
  map_get k (site (Some (JStr s)))
  = match text_json (Some s) with
    | Some parsed =>
        let start := if decide (k = js "order") then Some (HOrder (normalizeHeaderNavOrder (prop_of parsed "order"))) else map_get k HEADER_NAV_DEFAULT in
        match map_get k (Object_entries parsed) with
        | Some raw => match site_reads k raw start with Some v => Some v | None => start end
        | None => start
        end
    | None => map_get k HEADER_NAV_DEFAULT
    end.
Proof.
  rewrite site_text. destruct (text_json (Some s)) as [parsed|] eqn:E; [|done]. destruct (truthy (Some parsed)) eqn:Et.
  - rewrite map_get_loop, header_start_get; [done|]. by apply entries_ok, (text_value_ok (Some s)).
  - assert (He : Object_entries parsed = [] ∧ prop_of parsed "order" = None) by (destruct parsed as [| | |[]| |]; done).
    destruct He as [-> ->]. cbn [map_get]. case_decide as Eo; [|done]. subst k. vm_compute. reflexivity.
Qed.

(** ** Agreement *)

(** A switch is not a number other than 0 and 1. *)
Definition binary (v : option json) : bool := match v with Some (JNum x) => num_eqb x (num_of_Z 0) || num_eqb x (num_of_Z 1) | _ => true end.
Definition switch_ok (v : json) : bool := binary (Some v) && binary (prop_of v "enabled") && binary (prop_of v "requireAuth").

(** The modules of the console are switched by booleans, texts, 0 or 1 in the text. *)
Definition binary_switches (s : jsstr) : bool :=
  match JSON_parse s with
  | Some parsed => forallb (fun k => match map_get k (Object_entries parsed) with Some raw => switch_ok raw | None => true end) HEADER_NAV_ORDER_DEFAULT
  | None => true
  end.

Lemma booleans_agree v fallback : binary v = true → NavModules.parseHeaderNavBoolean toLowerCase v fallback = toBoolean toLowerCase v fallback.
Proof.
  destruct v as [[| |x| | |]|]; try done. cbn [binary NavModules.parseHeaderNavBoolean toBoolean].
  destruct (num_eqb x (num_of_Z 1)) eqn:E1; [done|]. destruct (num_eqb x (num_of_Z 0)) eqn:E0; done.
Qed.

Lemma access_agree v fallback : switch_ok v = true → NavModules.parseAccess toLowerCase v fallback = parseAccessModule toLowerCase v fallback.
Proof.
  unfold switch_ok. rewrite !andb_true_iff. intros [[H1 H2] H3]. destruct v; try done; cbn [NavModules.parseAccess parseAccessModule];
    rewrite !booleans_agree by done; done.
Qed.

Lemma simple_agree k v : k ∈ map js ["home"; "console"; "docs"; "about"] → binary (Some v) = true →
  match site_reads k v (map_get k HEADER_NAV_DEFAULT) with Some x => Some x | None => map_get k HEADER_NAV_DEFAULT end
  = match reads k v (map_get k HEADER_NAV_DEFAULT) with Some x => Some x | None => map_get k HEADER_NAV_DEFAULT end.
Proof.
  intros Hk Hb. assert (Hd : map_get k HEADER_NAV_DEFAULT = Some (HBool true)).
  { assert (H : Forall (fun k => map_get k HEADER_NAV_DEFAULT = Some (HBool true)) (map js ["home"; "console"; "docs"; "about"])).
    { repeat apply List.Forall_cons; try apply List.Forall_nil; by vm_compute. }
    rewrite Forall_forall in H. by apply H. }
  assert (Hn : k ≠ js "order" ∧ k ≠ js "pricing" ∧ k ≠ js "rankings" ∧ k ≠ proto).
  { assert (H : Forall (fun k => k ≠ js "order" ∧ k ≠ js "pricing" ∧ k ≠ js "rankings" ∧ k ≠ proto) (map js ["home"; "console"; "docs"; "about"])).
    { apply (bool_decide_unpack _). vm_compute. exact I. }
    rewrite Forall_forall in H. by apply H. }
  destruct Hn as (H1 & H2 & H3 & H4). unfold site_reads, reads. rewrite !decide_False, Hd, booleans_agree by done.
  unfold base_truthy. rewrite Hd. by destruct v.
Qed.

Lemma parsers_agree s k : binary_switches s = true → k ∈ js "order" :: HEADER_NAV_ORDER_DEFAULT →
  map_get k (site (Some (JStr s))) = map_get k (parseHeaderNavModules toLowerCase (Some s)).
Proof.
  intros Hb Hk. rewrite site_get, header_get. destruct (text_json (Some s)) as [parsed|] eqn:E; [|done]. unfold header_of.
  destruct (map_get k (Object_entries parsed)) as [raw|] eqn:Er; [|done].
  destruct (decide (k = js "order")) as [->|Ho]; [done|]. apply elem_of_cons in Hk as [?|Hk]; [done|].
  assert (Hs : switch_ok raw = true).
  { unfold binary_switches in Hb. rewrite (text_value_parsed s parsed E), forallb_forall in Hb.
    specialize (Hb k (proj1 (list_elem_of_In _ _) Hk)). by rewrite Er in Hb. }
  destruct (decide (k = js "pricing")) as [->|Hp]; [unfold site_reads, reads; cbn; by rewrite access_agree|].
  destruct (decide (k = js "rankings")) as [->|Hr]; [unfold site_reads, reads; cbn; by rewrite access_agree|].
  apply simple_agree; [|unfold switch_ok in Hs; by apply andb_true_iff in Hs as [[? _]%andb_true_iff _]].
  unfold HEADER_NAV_ORDER_DEFAULT in Hk. cbn [map] in *. set_solver.
Qed.

(** A saved configuration is one of those the two parsers agree on. *)
Lemma saved_binary c : tidy_header c → binary_switches (serializeHeaderNavModules c) = true.
Proof.
  intros H. unfold binary_switches. rewrite (text_value_parsed _ _ (saved_header_text c H)). unfold saved_header. rewrite header_order_kept by done.
  apply forallb_forall. intros k _. cbn [Object_entries]. rewrite (map_get_printed header_json) by apply H.
  destruct (map_get k c) as [[b|[e r]|l]|]; done.
Qed.

Lemma saved_read_by_site c k : tidy_header c → k ∈ js "order" :: HEADER_NAV_ORDER_DEFAULT →
  map_get k (site (Some (JStr (serializeHeaderNavModules c)))) = map_get k c.
Proof. intros H Hk. rewrite parsers_agree by (done || by apply saved_binary). by apply saved_header_back. Qed.
End parser.

(** C23: the page of settings and the site read the header's text alike. For every text
    in which the switches of the modules are booleans, texts, 0 or 1, the parser behind
    the settings page and the sidebar and the one behind the public pages find the same
    modules, the same rules of access and the same order, also when the text is
    malformed; so a guard opens the page of prices exactly to those the sidebar means. *)
Theorem header_parsers_agree toLowerCase s : binary_switches s = true →
  (∀ k, k ∈ js "order" :: HEADER_NAV_ORDER_DEFAULT →
     map_get k (NavModules.parseHeaderNavModules toLowerCase (Some (JStr s))) = map_get k (parseHeaderNavModules toLowerCase (Some s)))
  ∧ ∀ status, prop_opt status "HeaderNavModules" = Some (JStr s) →
     NavModules.getModuleAccessFromStatus toLowerCase status NavModules.MPricing = access_of (parseHeaderNavModules toLowerCase (Some s)) "pricing".
Proof.
  intros Hb. split; [intros k Hk; by apply parsers_agree|]. intros status Hs. unfold NavModules.getModuleAccessFromStatus, NavModules.parseHeaderNavModulesFromStatus.
  rewrite Hs. cbn [NavModules.module_name]. rewrite (parsers_agree toLowerCase) by (done || (unfold HEADER_NAV_ORDER_DEFAULT; cbn [map]; set_solver)).
  unfold access_of. by destruct (th_pricing _ (header_tidy toLowerCase (Some s))) as [a ->].
Qed.

Lemma header_parsers_agree_witness :
  map_get (js "pricing") (NavModules.parseHeaderNavModules (fun s => s) (Some (JStr (jsq "{'pricing': {'requireAuth': 'true'}}"))))
  = map_get (js "pricing") (parseHeaderNavModules (fun s => s) (Some (jsq "{'pricing': {'requireAuth': 'true'}}"))).
Proof.
  apply (header_parsers_agree (fun s => s) (jsq "{'pricing': {'requireAuth': 'true'}}")); [reflexivity|].
  do 3 apply list_elem_of_further. apply list_elem_of_here.
Defined.

(** Another number is read apart: the sidebar hides the page of prices, which stays
    open to everyone. *)
Lemma numbers_read_apart :
  enabled (access_of (parseHeaderNavModules (fun s => s) (Some (jsq "{'pricing': 2}"))) "pricing") = false
  ∧ enabled (access_of (NavModules.parseHeaderNavModules (fun s => s) (Some (JStr (jsq "{'pricing': 2}")))) "pricing") = true.
Proof. split; vm_compute; reflexivity. Qed.
End NavHeader.
