(* ===== verification/NavSections.v ===== *)
(** * The sidebar settings, read and saved

    What the parser of the sidebar settings returns, section by section and member by
    member, for any text; the shape every parsed configuration has; and that saving
    such a configuration and reading it again gives the same sections. *)

From S2P Require Import Prelude JsNum Json NumText Records JsValue Playground PlaygroundStorage NavConfig NavModules NavSidebar NavEditors NavOrder NavHeader.
Import NavObjects NavFold NavOrder NavHeader.

Module NavSections.
Import NavConfig.

(** Configurations with the same members; the order of the members is not compared. *)
Definition same_section (s s' : SidebarSectionConfig) : Prop := ∀ k, map_get k s = map_get k s'.
Definition same_sidebar (c c' : SidebarModulesAdminConfig) : Prop := ∀ k, option_Forall2 same_section (map_get k c) (map_get k c').

#[global] Instance same_section_equiv : Equivalence same_section.
Proof. split; [by intros s k|by intros s s' H k; rewrite H|by intros a b c H1 H2 k; rewrite H1]. Qed.
#[global] Instance same_sidebar_equiv : Equivalence same_sidebar.
Proof.
  split; [by intros c k|by intros c c' H k; symmetry; apply H|]. intros a b c H1 H2 k. transitivity (map_get k b); [apply H1|apply H2].
Qed.

(** ** Modules of a section *)

Lemma elem_of_modules sec x : NoDup sec.*1 →
  x ∈ getSidebarModuleKeys sec ↔ x ≠ js "enabled" ∧ x ≠ js "order" ∧ ∃ b, map_get x sec = Some (SBool b).
Proof.
  intros Hd. unfold getSidebarModuleKeys. rewrite list_elem_of_fmap. split.
  - intros ([k v] & -> & [Hin Hm]%elem_of_List_filter). rewrite ordered_perm in Hin. unfold is_module in Hm. cbn [fst snd] in *.
    rewrite !andb_true_iff, !negb_true_iff, !bool_decide_eq_false in Hm. destruct Hm as [[H1 H2] Hv]. split; [done|]. split; [done|].
    destruct v; try done. exists b. by apply map_get_elem_of.
  - intros (H1 & H2 & b & Hb). exists (x, SBool b). split; [done|]. apply elem_of_List_filter. split; [rewrite ordered_perm; by apply map_get_Some|].
    unfold is_module. cbn [fst snd]. by rewrite !bool_decide_false.
Qed.

Lemma modules_same s s' x : NoDup s.*1 → NoDup s'.*1 → same_section s s' → x ∈ getSidebarModuleKeys s ↔ x ∈ getSidebarModuleKeys s'.
Proof. intros Hd Hd' H. rewrite !elem_of_modules by done. by rewrite H. Qed.

(** ** Tidy configurations *)

Record tidy_section (required : list jsstr) (s : SidebarSectionConfig) : Prop := {
  ts_keys : NoDup s.*1;
  ts_enabled : ∃ b, map_get (js "enabled") s = Some (SBool b);
  ts_order : ∃ l, map_get (js "order") s = Some (SOrder l) ∧ NoDup l ∧ ∀ x, x ∈ l ↔ x ∈ getSidebarModuleKeys s;
  ts_others k v : k ≠ js "enabled" → k ≠ js "order" → map_get k s = Some v → ∃ b, v = SBool b;
  ts_proto : map_get proto s = None;
  ts_required k : k ∈ required → is_Some (map_get k s)
}.

(** The members a default section names. *)
Definition required_keys (section : jsstr) : list jsstr := (default [] (map_get section SIDEBAR_MODULES_DEFAULT)).*1.

Record tidy_sidebar (c : SidebarModulesAdminConfig) : Prop := {
  tc_keys : NoDup c.*1;
  tc_proto : map_get proto c = None;
  tc_sections k s : map_get k c = Some s → tidy_section (required_keys k) s;
  tc_defaults k : k ∈ SIDEBAR_MODULES_DEFAULT.*1 → is_Some (map_get k c)
}.

Lemma order_kept required s : tidy_section required s → getSidebarSectionOrder s = section_order s.
Proof.
  intros H. destruct (ts_order _ _ H) as (l & Hl & Hd & Hm). unfold getSidebarSectionOrder, section_order. rewrite Hl.
  by apply arrange_complete.
Qed.

Lemma normalize_kept required s : tidy_section required s → normalizeSidebarSectionConfig s = s.
Proof.
  intros H. unfold normalizeSidebarSectionConfig. rewrite (order_kept required) by done. apply map_set_same.
  unfold section_order. by destruct (ts_order _ _ H) as (l & -> & _).
Qed.

Section parser.
Context (toLowerCase : jsstr → jsstr).

(** ** One section *)

Definition module_reads (d : SidebarSectionConfig) (k : jsstr) (v : json) (_ : option section_value) : option section_value :=
  if decide (k = js "enabled") then None else if decide (k = js "order") then None else if decide (k = proto) then None
  else Some (SBool (toBoolean toLowerCase (Some v) (section_flag d k true))).

Definition section_start (d : SidebarSectionConfig) (raw : json) : SidebarSectionConfig :=
  let start := [(js "enabled", SBool (toBoolean toLowerCase (prop_of raw "enabled") (section_flag d (js "enabled") true)))] in
  match prop_of raw "order" with Some (JArr l) => map_set (js "order") (SOrder (only_strings l)) start | _ => start end.

Lemma parse_section_loop d raw : parse_section toLowerCase d raw = foldl (enter (module_reads d)) (section_start d raw) (Object_entries raw).
Proof.
  unfold parse_section. cbv zeta.
  match goal with |- foldl ?f _ _ = _ => assert (H : ∀ l acc, foldl f acc l = foldl (enter (module_reads d)) acc l) end; [|apply H].
  induction l as [|[k v] l IH]; intros acc; [done|]. cbn [foldl]. rewrite IH. f_equal. unfold enter, module_reads, assign. cbn [fst snd].
  by repeat case_decide.
Qed.

Lemma section_start_NoDup d raw : NoDup (section_start d raw).*1.
Proof.
  unfold section_start. destruct (prop_of raw "order") as [[]|]; try apply NoDup_singleton. apply NoDup_keys_map_set, NoDup_singleton.
Qed.

Lemma section_start_get d raw k :
  map_get k (section_start d raw)
  = if decide (k = js "enabled") then Some (SBool (toBoolean toLowerCase (prop_of raw "enabled") (section_flag d (js "enabled") true)))
    else if decide (k = js "order") then match prop_of raw "order" with Some (JArr l) => Some (SOrder (only_strings l)) | _ => None end
    else None.
Proof.
  unfold section_start. set (e := toBoolean _ _ _). assert (H0 : map_get k [(js "enabled", SBool e)] = if decide (k = js "enabled") then Some (SBool e) else None).
  { cbn [map_get]. by case_decide. }
  destruct (decide (k = js "order")) as [->|Hk].
  - rewrite (decide_False (P := js "order" = js "enabled")) by done. destruct (prop_of raw "order") as [[]|]; try exact H0. apply map_get_set_eq.
  - destruct (prop_of raw "order") as [[]|]; try exact H0. rewrite map_get_set_ne by done. exact H0.
Qed.

(** The members of a section that is read. *)
Lemma parse_section_get d raw k : js_ok raw →
  map_get k (parse_section toLowerCase d raw)
  = if decide (k = js "enabled") then Some (SBool (toBoolean toLowerCase (prop_of raw "enabled") (section_flag d (js "enabled") true)))
    else if decide (k = js "order") then match prop_of raw "order" with Some (JArr l) => Some (SOrder (only_strings l)) | _ => None end
    else if decide (k = proto) then None
    else (fun v => SBool (toBoolean toLowerCase (Some v) (section_flag d k true))) <$> map_get k (Object_entries raw).
Proof.
  intros Hj. rewrite parse_section_loop, map_get_loop, section_start_get by (by apply entries_ok). unfold module_reads.
  destruct (map_get k (Object_entries raw)); by repeat case_decide.
Qed.

Lemma parse_section_NoDup d raw : NoDup (parse_section toLowerCase d raw).*1.
Proof. rewrite parse_section_loop. apply NoDup_loop, section_start_NoDup. Qed.

(** ** All sections *)

(** The section that is read for a member that is an object. *)
Definition read_one (k : jsstr) (raw : json) : SidebarSectionConfig :=
  parse_section toLowerCase (default [(js "enabled", SBool true)] (map_get k cloneSidebarDefault)) raw.

Definition is_object (v : json) : bool := match v with JObj _ | JArr _ => true | _ => false end.

Definition section_reads (k : jsstr) (raw : json) (_ : option SidebarSectionConfig) : option SidebarSectionConfig :=
  if is_object raw then if decide (k = proto) then None else Some (read_one k raw) else None.

Definition prototype_of (parsed : json) : option SidebarSectionConfig :=
  match map_get proto (Object_entries parsed) with Some raw => if is_object raw then Some (read_one proto raw) else None | None => None end.

Lemma read_sections_loop parsed : NoDup (Object_entries parsed).*1 →
  read_sections toLowerCase cloneSidebarDefault parsed = (foldl (enter section_reads) [] (Object_entries parsed), prototype_of parsed).
Proof.
  intros Hd. unfold read_sections, prototype_of.
  match goal with |- foldl ?f _ _ = _ =>
    assert (H : ∀ l acc p, NoDup l.*1 → foldl f (acc, p) l = (foldl (enter section_reads) acc l,
      match map_get proto l with Some raw => if is_object raw then Some (read_one proto raw) else p | None => p end)) end.
  { induction l as [|[k raw] l IH]; intros acc p Hl; [done|]. cbn [fmap list_fmap fst] in Hl. apply NoDup_cons in Hl as [Hn Hl].
    cbn [foldl map_get]. destruct (decide (k = proto)) as [->|Hk].
    - rewrite (decide_True (P := proto = proto)) by done. apply map_get_None in Hn.
      destruct raw; rewrite IH, Hn by done; reflexivity.
    - rewrite (decide_False (P := proto = k)) by done. unfold enter at 2. cbn [fst snd]. unfold section_reads at 2. rewrite decide_False by done.
      destruct raw; by rewrite IH. }
  rewrite H by done. by destruct (map_get proto (Object_entries parsed)).
Qed.

Lemma add_missing_put sec kv : add_missing sec kv = enter (fun _ v cur => match cur with Some _ => None | None => Some v end) sec kv.
Proof. unfold add_missing, enter, map_has. by destruct (map_get kv.1 sec). Qed.

Definition completed (sec config : SidebarSectionConfig) : SidebarSectionConfig := foldl add_missing sec config.

Lemma completed_loop sec config : completed sec config = foldl (enter (fun _ v cur => match cur with Some _ => None | None => Some v end)) sec config.
Proof. unfold completed. revert sec. induction config as [|kv l IH]; intros sec; [done|]. cbn [foldl]. rewrite add_missing_put. apply IH. Qed.

Lemma completed_get sec config k : NoDup config.*1 →
  map_get k (completed sec config) = match map_get k sec with Some v => Some v | None => map_get k config end.
Proof. intros H. rewrite completed_loop, map_get_loop by done. destruct (map_get k config), (map_get k sec); done. Qed.

Lemma completed_NoDup sec config : NoDup sec.*1 → NoDup (completed sec config).*1.
Proof. intros H. rewrite completed_loop. by apply NoDup_loop. Qed.

(** The merge of the defaults, when it does not throw. *)
Definition merge_reads (k : jsstr) (config : SidebarSectionConfig) (cur : option SidebarSectionConfig) : option SidebarSectionConfig :=
  Some (match cur with Some sec => completed sec config | None => config end).

Lemma merge_loop prototype l r merged : res_fold (merge_section prototype) r l = Ok merged → merged = foldl (enter merge_reads) r l.
Proof.
  revert r. induction l as [|[k config] l IH]; intros r; [by intros [= ->]|]. cbn [res_fold foldl merge_section].
  change (enter merge_reads r (k, config)) with (map_set k (match map_get k r with Some sec => completed sec config | None => config end) r).
  destruct (map_get k r) as [sec|]; cbn [res_bind]; [apply IH|].
  destruct prototype as [p|]; [|apply IH]. destruct (section_flag p k false); [done|apply IH].
Qed.

Definition tidied (k : jsstr) (s : SidebarSectionConfig) (_ : option SidebarSectionConfig) : option SidebarSectionConfig :=
  if decide (k = proto) then None else Some (normalizeSidebarSectionConfig s).

Lemma normalize_get (c : SidebarModulesAdminConfig) k : NoDup c.*1 →
  map_get k (normalizeSidebarModulesAdmin c) = if decide (k = proto) then None else normalizeSidebarSectionConfig <$> map_get k c.
Proof.
  intros Hd. unfold normalizeSidebarModulesAdmin.
  match goal with |- map_get k (foldl ?f _ _) = _ => assert (H : ∀ l acc, foldl f acc l = foldl (enter tidied) acc l) end.
  { induction l as [|[k' s] l IH]; intros acc; [done|]. cbn [foldl]. rewrite IH. f_equal. unfold enter, tidied, assign. cbn [fst snd]. by case_decide. }
  rewrite H, map_get_loop by (by rewrite ordered_perm). cbn [map_get]. unfold tidied.
  rewrite (map_get_perm k c (property_order c)); [|done|symmetry; apply ordered_perm]. destruct (map_get k (property_order c)); by case_decide.
Qed.

Lemma normalize_NoDup c : NoDup (normalizeSidebarModulesAdmin c).*1.
Proof.
  unfold normalizeSidebarModulesAdmin. generalize (property_order c). intros l.
  assert (H : ∀ acc : SidebarModulesAdminConfig, NoDup acc.*1 → NoDup (foldl (fun acc '(sectionKey, sectionConfig) =>
    assign sectionKey (normalizeSidebarSectionConfig sectionConfig) acc) acc l).*1).
  { induction l as [|[k s] l IH]; intros acc Ha; [done|]. cbn [foldl]. apply IH. unfold assign. case_decide; [done|]. by apply NoDup_keys_map_set. }
  apply H, NoDup_nil_2.
Qed.

Lemma clone_sidebar : cloneSidebarDefault = SIDEBAR_MODULES_DEFAULT.
Proof. vm_compute. reflexivity. Qed.

(** ** Every parsed configuration is tidy *)

Lemma default_NoDup : NoDup SIDEBAR_MODULES_DEFAULT.*1.
Proof. apply (bool_decide_unpack _). vm_compute. exact I. Qed.

(** A section before its order is completed. *)
Record prepared (required : list jsstr) (s : SidebarSectionConfig) : Prop := {
  ps_keys : NoDup s.*1;
  ps_enabled : is_Some (map_get (js "enabled") s);
  ps_bool k v : k ≠ js "order" → map_get k s = Some v → ∃ b, v = SBool b;
  ps_proto : map_get proto s = None;
  ps_required k : k ∈ required → k ≠ js "order" → is_Some (map_get k s)
}.

Lemma modules_set_order s l x : NoDup s.*1 → x ∈ getSidebarModuleKeys (map_set (js "order") (SOrder l) s) ↔ x ∈ getSidebarModuleKeys s.
Proof.
  intros Hd. rewrite !elem_of_modules by (done || by apply NoDup_keys_map_set). destruct (decide (x = js "order")) as [->|Hx]; [tauto|].
  by rewrite map_get_set_ne.
Qed.

Lemma prepared_tidy required s : prepared required s → tidy_section required (normalizeSidebarSectionConfig s).
Proof.
  intros H. unfold normalizeSidebarSectionConfig. split.
  - apply NoDup_keys_map_set, H.
  - rewrite map_get_set_ne by done. destruct (ps_enabled _ _ H) as [v Hv]. rewrite Hv.
    destruct (ps_bool _ _ H (js "enabled") v) as [b ->]; [done|done|]. by exists b.
  - exists (getSidebarSectionOrder s). split; [apply map_get_set_eq|]. split; [apply NoDup_arrange|]. intros x.
    rewrite modules_set_order by apply H. apply elem_of_arrange.
  - intros k v _ Ho. rewrite map_get_set_ne by done. by apply (ps_bool _ _ H).
  - rewrite map_get_set_ne by done. apply H.
  - intros k Hk. destruct (decide (k = js "order")) as [->|Ho]; [rewrite map_get_set_eq; by eexists|]. rewrite map_get_set_ne by done. by apply (ps_required _ _ H).
Qed.

Lemma read_prepared k raw : js_ok raw → prepared [] (read_one k raw).
Proof.
  intros Hj. unfold read_one. split; [apply parse_section_NoDup|..].
  - rewrite parse_section_get by done. rewrite decide_True by done. by eexists.
  - intros k' v Ho. rewrite parse_section_get by done. rewrite (decide_False (P := k' = js "order")) by done.
    repeat case_decide; [intros [= <-]; by eexists|done|]. destruct (map_get k' (Object_entries raw)); [|done]. intros [= <-]. by eexists.
  - rewrite parse_section_get by done. by rewrite (decide_False (P := proto = js "enabled")), (decide_False (P := proto = js "order")), (decide_True (P := proto = proto)).
  - by intros k' ?%elem_of_nil.
Qed.

Definition default_flags : bool :=
  forallb (fun kv => bool_decide (NoDup kv.2.*1) && map_has (js "enabled") kv.2 && negb (map_has proto kv.2)
    && forallb (fun e => bool_decide (e.1 = js "order") || match e.2 with SBool _ => true | _ => false end) kv.2) SIDEBAR_MODULES_DEFAULT.

Lemma default_prepared k config : map_get k SIDEBAR_MODULES_DEFAULT = Some config → prepared (required_keys k) config.
Proof.
  intros Hk. unfold required_keys. rewrite Hk. cbn [default from_option Datatypes.id].
  assert (Hf : default_flags = true) by (vm_compute; reflexivity). unfold default_flags in Hf. rewrite forallb_forall in Hf.
  specialize (Hf (k, config) (proj1 (list_elem_of_In _ _) (map_get_Some _ _ _ Hk))). cbn [snd] in Hf.
  rewrite !andb_true_iff, bool_decide_eq_true, negb_true_iff, forallb_forall in Hf. destruct Hf as [[[Hd He] Hp] Hb]. split.
  - done.
  - apply map_get_is_Some. by apply map_has_spec.
  - intros k' v Ho Hv%map_get_Some. specialize (Hb _ (proj1 (list_elem_of_In _ _) Hv)). cbn [fst snd] in Hb. rewrite bool_decide_false in Hb by done.
    destruct v; try done. by eexists.
  - apply map_get_None. intros Hin. apply map_has_spec in Hin. congruence.
  - intros k' Hk' _. by apply map_get_is_Some.
Qed.

Lemma completed_prepared required sec config : prepared [] sec → prepared required config → prepared required (completed sec config).
Proof.
  intros Hs Hc. assert (Hg := fun k => completed_get sec config k (ps_keys _ _ Hc)). split.
  - apply completed_NoDup, Hs.
  - rewrite Hg. by destruct (ps_enabled _ _ Hs) as [v ->].
  - intros k v Ho. rewrite Hg. destruct (map_get k sec) as [w|] eqn:E; [intros [= <-]; by apply (ps_bool _ _ Hs k)|by apply (ps_bool _ _ Hc)].
  - rewrite Hg, (ps_proto _ _ Hs). apply Hc.
  - intros k Hk Ho. rewrite Hg. destruct (map_get k sec); [by eexists|]. by apply (ps_required _ _ Hc).
Qed.

Lemma entries_member_ok v k raw : js_ok v → map_get k (Object_entries v) = Some raw → js_ok raw.
Proof.
  intros Hj Hr%map_get_Some. destruct v as [| | |s|l|m]; cbn [Object_entries] in Hr; try by apply elem_of_nil in Hr.
  - apply elem_of_lookup_imap_1 in Hr as (i & c & [= _ ->] & _). done.
  - apply elem_of_lookup_imap_1 in Hr as (i & x & [= _ ->] & Hx). apply list_elem_of_lookup_2 in Hx. cbn [js_ok] in Hj.
    induction l as [|y l IH]; [by apply elem_of_nil in Hx|]. destruct Hj as [Hy Hl]. apply elem_of_cons in Hx as [->|Hx]; [done|by apply IH].
  - cbn [js_ok] in Hj. destruct Hj as [_ Hj]. induction m as [|y m IH]; [by apply elem_of_nil in Hr|]. destruct Hj as [Hy Hl].
    apply elem_of_cons in Hr as [<-|Hr]; [done|by apply IH].
Qed.

(** The sections that the parser leaves, before the orders are completed. *)
Lemma merged_prepared parsed k s : js_ok parsed →
  map_get k (foldl (enter merge_reads) (foldl (enter section_reads) [] (Object_entries parsed)) SIDEBAR_MODULES_DEFAULT) = Some s →
  prepared (required_keys k) s.
Proof.
  intros Hj. rewrite map_get_loop by apply default_NoDup. rewrite map_get_loop by (by apply entries_ok).
  cbn [map_get]. set (cur := match map_get k (Object_entries parsed) with Some _ => _ | None => _ end).
  assert (Hcur : ∀ s, cur = Some s → prepared [] s).
  { intros s' Hs. unfold cur in Hs. destruct (map_get k (Object_entries parsed)) as [raw|] eqn:E; [|done]. unfold section_reads in Hs.
    destruct (is_object raw); [|done]. case_decide; [done|]. injection Hs as <-. apply read_prepared. eapply entries_member_ok; [exact Hj|exact E]. }
  unfold merge_reads. destruct (map_get k SIDEBAR_MODULES_DEFAULT) as [config|] eqn:E.
  - intros [= <-]. apply default_prepared in E as Hc. destruct cur as [sec|]; [|done]. apply completed_prepared; [by apply Hcur|done].
  - unfold required_keys. rewrite E. apply Hcur.
Qed.

Lemma proto_no_default : proto ∉ SIDEBAR_MODULES_DEFAULT.*1.
Proof. apply (bool_decide_unpack _). vm_compute. exact I. Qed.

Lemma sidebar_tidy value : tidy_sidebar (parseSidebarModulesAdmin toLowerCase value).
Proof.
  assert (Hdef : tidy_sidebar cloneSidebarDefault).
  { rewrite clone_sidebar. split; [apply default_NoDup|done| |].
    - intros k s Hk. apply default_prepared in Hk as Hp. replace s with (normalizeSidebarSectionConfig s); [by apply prepared_tidy|].
      assert (Hn : Forall (fun kv => normalizeSidebarSectionConfig kv.2 = kv.2) SIDEBAR_MODULES_DEFAULT).
      { repeat apply List.Forall_cons; try apply List.Forall_nil; by vm_compute. }
      rewrite Forall_forall in Hn. exact (Hn _ (map_get_Some _ _ _ Hk)).
    - intros k Hk. by apply map_get_is_Some. }
  unfold parseSidebarModulesAdmin. cbv zeta. destruct value as [text|]; [|done]. destruct (_ || _); [done|].
  destruct (JSON_parse text) as [parsed|] eqn:Ej; [|done]. apply JSON_parse_ok in Ej.
  rewrite read_sections_loop by (by apply entries_ok).
  destruct (res_fold _ _ _) as [merged|e] eqn:Em; [|by destruct parsed].
  apply merge_loop in Em. rewrite clone_sidebar in Em.
  assert (Hm : ∀ k s, map_get k merged = Some s → prepared (required_keys k) s) by (intros k s; rewrite Em; by apply merged_prepared).
  assert (Hk : NoDup merged.*1) by (rewrite Em; apply NoDup_loop, NoDup_loop, NoDup_nil_2).
  assert (Ht : tidy_sidebar (normalizeSidebarModulesAdmin merged)); [|by destruct parsed].
  split; [apply normalize_NoDup|by rewrite normalize_get, decide_True| |].
  - intros k s. rewrite normalize_get by done. case_decide; [done|]. destruct (map_get k merged) as [s'|] eqn:E; [|done]. intros [= <-].
    by apply prepared_tidy, Hm.
  - intros k Hd. rewrite normalize_get by done. rewrite decide_False; [|by intros ->; revert Hd; apply proto_no_default].
    rewrite Em, map_get_loop by apply default_NoDup. apply map_get_is_Some in Hd as [config ->]. by eexists.
Qed.

(** ** Saving *)

(** The value of a member, as it is printed. *)
Definition member_json (v : section_value) : option json :=
  match v with SBool b => Some (JBool b) | SOrder l => Some (texts l) | SUndefined => None end.

Lemma section_json_members sec : section_json sec = JObj (property_order (present (map (fun kv => (kv.1, member_json kv.2)) sec))).
Proof. unfold section_json. do 2 f_equal. unfold present. induction sec as [|[k []] l IH]; [done|..]; cbn; by f_equal. Qed.

Lemma member_keys sec : (map (fun kv : jsstr * section_value => (kv.1, member_json kv.2)) sec).*1 = sec.*1.
Proof. rewrite <- list_fmap_compose. done. Qed.

Lemma section_json_get sec k : NoDup sec.*1 → member (section_json sec) k = map_get k sec ≫= member_json.
Proof.
  intros Hd. rewrite section_json_members. unfold member. cbn [Object_entries].
  rewrite (map_get_arranged k (map (fun kv => (kv.1, member_json kv.2)) sec)); [|by rewrite member_keys|apply ordered_perm].
  rewrite (map_get_values member_json). by destruct (map_get k sec).
Qed.

Lemma section_json_ok sec : NoDup sec.*1 → wellformed (section_json sec).
Proof.
  intros Hd. rewrite section_json_members. apply wellformed_obj. split; [|split; [apply property_order_idem|]].
  - rewrite ordered_perm. apply present_NoDup. by rewrite member_keys.
  - rewrite ordered_perm. apply Forall_forall. intros [k v] ([k' o] & Hin & Ho)%list_elem_of_omap.
    apply list_elem_of_fmap in Hin as ([k2 v2] & [= -> ->] & _). destruct v2; cbn in Ho; simplify_eq; [by split|apply wellformed_texts].
Qed.

Lemma member_admin (c : SidebarModulesAdminConfig) k : NoDup c.*1 → member (admin_json c) k = section_json <$> map_get k c.
Proof. intros Hd. unfold member. cbn [Object_entries admin_json]. by apply map_get_printed. Qed.

Lemma admin_json_ok (c : SidebarModulesAdminConfig) : NoDup c.*1 → (∀ k s, map_get k c = Some s → NoDup s.*1) → wellformed (admin_json c).
Proof. intros Hd Hs. apply wellformed_members; [done|]. intros k v Hkv. by apply section_json_ok, (Hs k), map_get_elem_of. Qed.

Lemma merge_ok l r : res_fold (merge_section None) r l = Ok (foldl (enter merge_reads) r l).
Proof.
  revert r. induction l as [|[k config] l IH]; intros r; [done|]. cbn [res_fold foldl merge_section].
  change (enter merge_reads r (k, config)) with (map_set k (match map_get k r with Some sec => completed sec config | None => config end) r).
  destruct (map_get k r); apply IH.
Qed.

(** What is read from a printed configuration. *)
Lemma parse_admin (c : SidebarModulesAdminConfig) : NoDup c.*1 → (∀ k s, map_get k c = Some s → NoDup s.*1) → map_get proto c = None →
  parseSidebarModulesAdmin toLowerCase (Some (JSON_stringify (admin_json c)))
  = normalizeSidebarModulesAdmin (foldl (enter merge_reads) (foldl (enter section_reads) [] (Object_entries (admin_json c))) SIDEBAR_MODULES_DEFAULT).
Proof.
  intros Hd Hs Hp. pose proof (admin_json_ok c Hd Hs) as Hw. pose proof (parse_printed _ Hw) as Hj.
  unfold parseSidebarModulesAdmin. cbv zeta. destruct (nonempty (trim (JSON_stringify (admin_json c)))) eqn:Et.
  2:{ rewrite JSON_parse_blank in Hj; [done|]. by destruct (trim _). }
  rewrite (proj2 (nonempty_true (JSON_stringify (admin_json c)))) by (intros E; by rewrite E in Et). cbn [negb orb].
  assert (Hn : map_get proto (Object_entries (admin_json c)) = None) by (change (member (admin_json c) proto = None); by rewrite member_admin, Hp).
  rewrite Hj, read_sections_loop by (apply entries_ok, Hw). unfold prototype_of. rewrite Hn, merge_ok, clone_sidebar. done.
Qed.

Lemma read_back required k sec : tidy_section required sec → same_section (read_one k (section_json sec)) sec.
Proof.
  intros H k'. unfold read_one. rewrite parse_section_get by (apply section_json_ok, H).
  assert (Hg := fun k => section_json_get sec k (ts_keys _ _ H)).
  assert (Hp : ∀ key, prop_of (section_json sec) key = map_get (js key) sec ≫= member_json) by (intros key; apply Hg).
  rewrite !Hp. destruct (ts_enabled _ _ H) as [e He]. destruct (ts_order _ _ H) as (l & Hl & _).
  destruct (decide (k' = js "enabled")) as [->|H1]; [by rewrite He|]. destruct (decide (k' = js "order")) as [->|H2].
  { rewrite Hl. cbn. do 2 f_equal. apply (strings_texts l). }
  destruct (decide (k' = proto)) as [->|H3]; [by rewrite (ts_proto _ _ H)|]. fold (member (section_json sec) k'). rewrite Hg.
  destruct (map_get k' sec) as [v|] eqn:E; [|done]. by destruct (ts_others _ _ H k' v H1 H2 E) as [b ->].
Qed.

Lemma normalize_same required m sec : NoDup m.*1 → same_section m sec → tidy_section required sec → same_section (normalizeSidebarSectionConfig m) sec.
Proof.
  intros Hd Hm H k. unfold normalizeSidebarSectionConfig. destruct (decide (k = js "order")) as [->|Hk]; [|by rewrite map_get_set_ne].
  destruct (ts_order _ _ H) as (l & Hl & Hn & Hx). rewrite map_get_set_eq, Hl. unfold getSidebarSectionOrder, section_order.
  rewrite Hm, Hl. do 2 f_equal. apply arrange_complete; [done|]. intros x. rewrite Hx. symmetry. by apply modules_same; [|apply H|].
Qed.

Lemma sidebar_back c : tidy_sidebar c → same_sidebar (parseSidebarModulesAdmin toLowerCase (Some (JSON_stringify (admin_json c)))) c.
Proof.
  intros H k. rewrite parse_admin; [|apply H|intros k' s Hs; apply (tc_sections _ H _ _ Hs)|apply H].
  rewrite normalize_get by apply NoDup_loop, NoDup_loop, NoDup_nil_2. destruct (decide (k = proto)) as [->|Hp]; [by rewrite (tc_proto _ H)|].
  rewrite map_get_loop by apply default_NoDup.
  rewrite map_get_loop by (apply entries_ok, admin_json_ok; [apply H|intros k' s Hs; apply (tc_sections _ H _ _ Hs)]).
  fold (member (admin_json c) k). rewrite member_admin by apply H. cbn [map_get].
  destruct (map_get k c) as [sec|] eqn:E; cbn [fmap option_fmap option_map].
  - pose proof (tc_sections _ H _ _ E) as Ht. unfold section_reads. replace (is_object (section_json sec)) with true by done.
    rewrite decide_False by done. pose proof (read_back _ k sec Ht) as Hr. unfold merge_reads.
    destruct (map_get k SIDEBAR_MODULES_DEFAULT) as [config|] eqn:Ed; constructor.
    + apply (normalize_same (required_keys k)); [apply completed_NoDup, parse_section_NoDup| |done]. intros k'.
      rewrite completed_get by (apply default_prepared in Ed; apply Ed). rewrite Hr. destruct (map_get k' sec) eqn:Es; [done|].
      apply map_get_None. intros Hin. destruct (ts_required _ _ Ht k') as [v Hv]; [|congruence]. unfold required_keys. by rewrite Ed.
    + apply (normalize_same (required_keys k)); [apply parse_section_NoDup|done|done].
  - destruct (map_get k SIDEBAR_MODULES_DEFAULT) as [config|] eqn:Ed; [|by constructor]. exfalso.
    destruct (tc_defaults _ H k) as [s Hs]; [apply map_get_is_Some; by eexists|congruence].
Qed.

Lemma normalize_tidy (c : SidebarModulesAdminConfig) k : tidy_sidebar c → map_get k (normalizeSidebarModulesAdmin c) = map_get k c.
Proof.
  intros H. rewrite normalize_get by apply H. case_decide as E; [subst; by rewrite (tc_proto _ H)|].
  destruct (map_get k c) as [s|] eqn:Es; [|done]. cbn. by rewrite (normalize_kept (required_keys k)) by (by apply (tc_sections _ H)).
Qed.

Lemma tidy_ext (c c' : SidebarModulesAdminConfig) : NoDup c'.*1 → (∀ k, map_get k c' = map_get k c) → tidy_sidebar c → tidy_sidebar c'.
Proof.
  intros Hd He H. split; [done|by rewrite He; apply H| |intros k Hk; rewrite He; by apply (tc_defaults _ H)].
  intros k s. rewrite He. apply (tc_sections _ H).
Qed.

(** A tidy configuration that is saved reads back. *)
Lemma sidebar_saved c : tidy_sidebar c → same_sidebar (parseSidebarModulesAdmin toLowerCase (Some (serializeSidebarModulesAdmin c))) c.
Proof.
  intros H. unfold serializeSidebarModulesAdmin. assert (Hn := fun k => normalize_tidy c k H). intros k. rewrite <- Hn.
  apply sidebar_back, (tidy_ext c); [apply normalize_NoDup|done|done].
Qed.
End parser.
End NavSections.
