(* ===== verification/NavVisible.v ===== *)
(** * What the sidebar shows (Modules NavVisible, NavSwitch and NavView)

    Which entries [filterSidebarGroups] keeps, in closed form; that a user's own
    settings only narrow them; that the entries of the settings pages are for the root
    user; and that the view by task shows every entry that is kept exactly once. *)

From S2P Require Import Prelude JsNum Json NumText Records JsValue Playground PlaygroundStorage NavConfig NavModules NavSidebar NavEditors NavOrder NavHeader NavSections.
Import NavObjects NavFold NavOrder NavHeader NavSections.

Module NavVisible.
Import NavConfig NavSidebar.

(** ** Modules *)

(** The switches of a section and of a module in the administrator's settings. *)
Definition switched_on (c : SidebarModulesAdminConfig) (section module : jsstr) : bool :=
  match map_get section c with
  | Some s => section_flag s (js "enabled") true && section_flag s module true
  | None => true
  end.

Lemma is_false_member v : negb (is_false (v ≫= member_json)) = match v with Some (SBool b) => b | _ => true end.
Proof. by destruct v as [[[]| |]|]. Qed.

Lemma allowed_admin (c : SidebarModulesAdminConfig) section module : NoDup c.*1 → (∀ k s, map_get k c = Some s → NoDup s.*1) →
  moduleAllowed (admin_json c) section module = switched_on c section module.
Proof.
  intros Hd Hs. unfold moduleAllowed, switched_on. rewrite member_admin by done. destruct (map_get section c) as [s|] eqn:E; [|done].
  cbn [fmap option_fmap option_map mbind option_bind]. rewrite !section_json_get by (by apply (Hs section)).
  rewrite !is_false_member. unfold section_flag. done.
Qed.

Lemma allowed_tidy c section module : tidy_sidebar c → moduleAllowed (admin_json c) section module = switched_on c section module.
Proof. intros H. apply allowed_admin; [apply H|]. intros k s Hs. apply (tc_sections _ H _ _ Hs). Qed.

#[global] Instance switched_on_proper : Proper (same_sidebar ==> eq ==> eq ==> eq) switched_on.
Proof.
  intros c c' H s ? <- m ? <-. unfold switched_on. destruct (H s) as [x y Hxy|]; [|done]. unfold section_flag. by rewrite !Hxy.
Qed.

(** A user with no settings allows every module. *)
Lemma allowed_empty section module : moduleAllowed (JObj []) section module = true.
Proof. done. Qed.

(** ** Entries *)

(** The links of an entry: itself, or its sub-entries. *)
Definition links (item : NavItem) : list NavItem :=
  match kind item with NavCollapsible subs => map sub_item subs | _ => [item] end.

Definition all_links (groups : list NavGroup) : list NavItem := (groups ≫= g_items) ≫= links.

Section sidebar.
Context (toLowerCase : jsstr → jsstr).

Notation visible := (visible toLowerCase).
Notation filterSidebarGroups := (filterSidebarGroups toLowerCase).

(** The links of an entry that are kept: none unless the entry itself is visible. *)
Definition kept_links (o : filter_options) (item : NavItem) : list NavItem :=
  if visible o item then match kind item with NavCollapsible subs => List.filter (visible o) (map sub_item subs) | _ => [item] end else [].

Lemma links_filter_subs o item : links (filter_subs toLowerCase o item) = match kind item with
  NavCollapsible subs => List.filter (visible o) (map sub_item subs) | _ => [item] end.
Proof. destruct item as [b []]; try done. unfold links, filter_subs. cbn [kind]. by rewrite filter_map_swap. Qed.

Lemma no_subs_no_links item : has_subs item = false → links item = [].
Proof. destruct item as [b [|[]|]]; done. Qed.

(** The links that are shown. *)
Lemma shown_links groups o : all_links (filterSidebarGroups groups o) = (groups ≫= g_items) ≫= kept_links o.
Proof.
  unfold all_links, NavSidebar.filterSidebarGroups. induction groups as [|g gs IH]; [done|]. cbn [map List.filter].
  set (items := List.filter has_subs _). assert (Hi : items ≫= links = g_items g ≫= kept_links o).
  { unfold items. induction (g_items g) as [|x l IHl]; [done|]. cbn [List.filter]. cbn [mbind list_bind]. unfold kept_links at 1.
    destruct (visible o x); [|exact IHl]. cbn [map List.filter]. rewrite <- links_filter_subs.
    destruct (has_subs (filter_subs toLowerCase o x)) eqn:E; [cbn [mbind list_bind]; by rewrite IHl|]. by rewrite (no_subs_no_links _ E). }
  cbn [g_items]. destruct (nonempty items) eqn:En.
  - rewrite !bind_cons. cbn [g_items]. by rewrite !bind_app, IH, Hi.
  - rewrite bind_cons, bind_app, <- Hi, <- IH. by destruct items.
Qed.

(** ** The rules *)

(** The page of prices is closed to the user. *)
Definition pricing_closed (o : filter_options) (item : NavItem) : bool :=
  let pricing := access_of (parseHeaderNavModules toLowerCase (o_header o)) "pricing" in
  (bool_decide (id (base item) = Some (js "pricing")) || bool_decide (url_of item = Some (js "/pricing")))
  && (negb (enabled pricing) || (requireAuth pricing && (o_role o <? ROLE_USER)%Z)).

(** Some module that governs the entry is on for the site and for the user. *)
Definition modules_open (o : filter_options) (item : NavItem) : Prop :=
  default [] (governing_refs item) = []
  ∨ ∃ r, r ∈ default [] (governing_refs item)
       ∧ switched_on (parseSidebarModulesAdmin toLowerCase (o_admin o)) (r_section r) (r_module r) = true
       ∧ moduleAllowed (user_overlay (o_user o)) (r_section r) (r_module r) = true.

Lemma visible_spec o item :
  visible o item = true ↔ canAccessMenuItem item (o_role o) = true ∧ pricing_closed o item = false ∧ modules_open o item.
Proof.
  unfold NavSidebar.visible. fold (pricing_closed o item).
  destruct (canAccessMenuItem item (o_role o)); cbn [negb]; [|by split; [|intros [? _]]].
  destruct (pricing_closed o item); [by split; [|intros (_ & ? & _)]|]. unfold modules_open.
  destruct (governing_refs item) as [[|r l]|]; cbn [default from_option Datatypes.id]; [by split; [intros _; auto|]| |by split; [intros _; auto|]].
  rewrite existsb_exists. unfold ref_allowed. assert (Ha := fun s m => allowed_tidy _ s m (sidebar_tidy toLowerCase (o_admin o))). split.
  - intros (x & Hx%list_elem_of_In & [H1 H2]%andb_true_iff). split; [done|]. split; [done|]. right. exists x. by rewrite Ha in H1.
  - intros (_ & _ & [H|(x & Hx & H1 & H2)]); [done|]. exists x. split; [by apply list_elem_of_In|]. by rewrite Ha, H1, H2.
Qed.

(** Only the root user sees a link into the settings pages. *)
Lemma settings_root o item u : url_of item = Some u → under "/system-settings" u = true → visible o item = true → o_role o = ROLE_SUPER_ADMIN.
Proof.
  intros Hu Hs [Ha _]%visible_spec. unfold canAccessMenuItem in Ha. rewrite Hu in Ha. cbn [default from_option Datatypes.id] in Ha. rewrite Hs, orb_true_r in Ha. by apply Z.eqb_eq.
Qed.

(** ** The user's settings only narrow *)

Definition without_user (o : filter_options) : filter_options := mkOptions (o_admin o) None (o_role o) (o_header o).

Lemma visible_without_user o item : visible o item = true → visible (without_user o) item = true.
Proof.
  rewrite !visible_spec. intros (H1 & H2 & H3). split; [exact H1|]. split; [exact H2|]. destruct H3 as [H3|(r & Hr & Ha & _)]; [by left|].
  right. exists r. done.
Qed.

Lemma filter_sublist {A} (p q : A → bool) l : (∀ x, p x = true → q x = true) → List.filter p l `sublist_of` List.filter q l.
Proof.
  intros H. induction l as [|x l IH]; [done|]. cbn [List.filter]. destruct (p x) eqn:E; [rewrite (H x E); by apply sublist_skip|].
  destruct (q x); [by apply sublist_cons|done].
Qed.

Lemma bind_sublist {A B} (f g : A → list B) l : (∀ x, f x `sublist_of` g x) → l ≫= f `sublist_of` l ≫= g.
Proof. intros H. induction l as [|x l IH]; [done|]. cbn. by apply sublist_app. Qed.

Lemma narrowed groups o : all_links (filterSidebarGroups groups o) `sublist_of` all_links (filterSidebarGroups groups (without_user o)).
Proof.
  rewrite !shown_links. apply bind_sublist. intros item. unfold kept_links.
  destruct (visible o item) eqn:E; [rewrite (visible_without_user _ _ E)|apply sublist_nil_l].
  destruct (kind item); [done| |done]. apply filter_sublist. intros x. apply visible_without_user.
Qed.

(** ** The view by task *)

Definition is_flat (item : NavItem) : bool := match kind item with NavCollapsible _ => false | _ => true end.

Lemma flat_filter groups o : Forall (fun x => is_flat x = true) (groups ≫= g_items) →
  filterSidebarGroups groups o ≫= g_items = List.filter (visible o) (groups ≫= g_items).
Proof.
  unfold NavSidebar.filterSidebarGroups. induction groups as [|g gs IH]; [done|]. rewrite bind_cons, Forall_app. intros [Hg Hgs].
  cbn [map List.filter g_items]. rewrite List.filter_app, <- IH by done. set (items := List.filter has_subs _).
  assert (Hi : items = List.filter (visible o) (g_items g)).
  { unfold items. clear -Hg. induction Hg as [|x l Hx Hl IHl]; [done|]. cbn [List.filter]. destruct (visible o x); [|exact IHl].
    cbn [map List.filter]. assert (Hs : filter_subs toLowerCase o x = x ∧ has_subs x = true) by (by destruct x as [b []]).
    destruct Hs as [-> ->]. by rewrite IHl. }
  rewrite <- Hi. destruct items; reflexivity.
Qed.

(** Grouping by a key loses nothing and repeats nothing. *)
Lemma grouped_perm {A} (key : A → option jsstr) ids (l : list A) : NoDup ids → (∀ x, x ∈ l → ∃ i, i ∈ ids ∧ key x = Some i) →
  ids ≫= (fun i => List.filter (fun x => bool_decide (key x = Some i)) l) ≡ₚ l.
Proof.
  intros Hd. induction l as [|x l IH]; intros Hk.
  { clear. by induction ids. }
  destruct (Hk x) as (i & Hi & Ex); [apply list_elem_of_here|]. specialize (IH (fun y Hy => Hk y (list_elem_of_further _ _ _ Hy))).
  etrans; [|apply perm_skip, IH]. clear IH Hk. apply list_elem_of_split in Hi as (a & b & ->). apply NoDup_app in Hd as (_ & Ha & Hb). apply NoDup_cons in Hb as [Hb _].
  assert (Hout : ∀ c : list jsstr, i ∉ c → c ≫= (fun i => List.filter (fun x => bool_decide (key x = Some i)) (x :: l))
                 = c ≫= (fun i => List.filter (fun x => bool_decide (key x = Some i)) l)).
  { clear -Ex. intros c. induction c as [|j c IHc]; [done|]. intros Hn. rewrite !bind_cons, IHc by set_solver. f_equal. cbn [List.filter].
    rewrite bool_decide_false; [done|]. rewrite Ex. intros [= ->]. apply Hn, list_elem_of_here. }
  rewrite !bind_app, !bind_cons, (Hout a), (Hout b); [|done|by intros Hin; apply (Ha i Hin), list_elem_of_here].
  cbn [List.filter]. rewrite bool_decide_true by done. cbn [app]. by rewrite <- Permutation_middle.
Qed.

(** Groups that are empty are left out. *)
Lemma nonempty_groups groups : List.filter (fun g => nonempty (g_items g)) groups ≫= g_items = groups ≫= g_items.
Proof.
  induction groups as [|g gs IH]; [done|]. cbn [List.filter]. rewrite bind_cons, <- IH. destruct (g_items g) eqn:E; [done|].
  cbn [nonempty]. by rewrite bind_cons, E.
Qed.

Lemma found_sections order : (∀ i, i ∈ order → i ∈ task_ids) →
  (omap (fun i => List.find (fun section => bool_decide (section.1 = i)) TASK_SECTIONS) order).*1 = order.
Proof.
  intros H. induction order as [|i l IH]; [done|]. assert (Hi : i ∈ task_ids) by (apply H, list_elem_of_here).
  assert (Hf : Forall (fun i => fst <$> List.find (fun section => bool_decide (section.1 = i)) TASK_SECTIONS = Some i) task_ids).
  { repeat apply List.Forall_cons; try apply List.Forall_nil; by vm_compute. }
  rewrite Forall_forall in Hf. specialize (Hf i Hi). cbn [omap list_omap]. destruct (List.find _ TASK_SECTIONS) as [sec|]; [|done].
  injection Hf as Hf. cbn [fmap list_fmap]. rewrite Hf. f_equal. apply IH. intros j Hj. apply H. by apply list_elem_of_further.
Qed.

Section project.
Context (translate : jsstr → jsstr) (order : list jsstr) (adminRaw : option jsstr) (Horder : order ≡ₚ task_ids).

Let sections := (js "overview", js "Overview") :: omap (fun i => List.find (fun section => bool_decide (section.1 = i)) TASK_SECTIONS) order.

Lemma section_ids : sections.*1 = js "overview" :: order.
Proof. unfold sections. cbn [fmap list_fmap fst]. f_equal. apply found_sections. intros i. by rewrite Horder. Qed.

Lemma section_ids_NoDup : NoDup (js "overview" :: order).
Proof. rewrite Horder. apply (bool_decide_unpack _). vm_compute. exact I. Qed.

Lemma project_perm groups : (∀ x, x ∈ groups ≫= g_items → ∃ i, i ∈ js "overview" :: order ∧ task_of x = Some i) →
  projectTaskGroups toLowerCase groups translate order adminRaw ≫= g_items ≡ₚ groups ≫= g_items.
Proof.
  intros H. unfold projectTaskGroups. rewrite nonempty_groups. set (admin := parseSidebarModulesAdmin _ _). fold sections.
  etrans; [|apply (grouped_perm task_of (js "overview" :: order)); [apply section_ids_NoDup|done]].
  rewrite <- section_ids. clear H. induction sections as [|sec l IH]; [done|]. cbn [map fmap list_fmap]. rewrite !bind_cons, IH. f_equiv.
  unfold task_group. cbn [g_items]. apply sort_by_perm.
Qed.

Lemma project_ids groups : map g_id (projectTaskGroups toLowerCase groups translate order adminRaw) `sublist_of` map Some (js "overview" :: order).
Proof.
  unfold projectTaskGroups. set (admin := parseSidebarModulesAdmin _ _). fold sections. rewrite <- section_ids. induction sections as [|sec l IH]; [done|].
  cbn [map List.filter]. destruct (nonempty _); cbn [map]; [by apply sublist_skip|by apply sublist_cons].
Qed.

(** A group holds entries of its task, in the order of the ranks. *)
Lemma project_group groups g : g ∈ projectTaskGroups toLowerCase groups translate order adminRaw →
  (∀ x, x ∈ g_items g → task_of x = g_id g)
  ∧ ∃ places, StronglySorted (fun a b => rank (parseSidebarModulesAdmin toLowerCase adminRaw) places a ≤ rank (parseSidebarModulesAdmin toLowerCase adminRaw) places b)%Z (g_items g).
Proof.
  unfold projectTaskGroups. intros [(sec & -> & _)%list_elem_of_fmap _]%elem_of_List_filter. unfold task_group. cbn [g_items g_id]. split.
  - intros x Hx. rewrite elem_of_sort_by, elem_of_List_filter, bool_decide_eq_true in Hx. apply Hx.
  - set (places := set_of _). exists places. set (cmp := fun a b => _ : Z). assert (Comparator cmp) by (split; unfold cmp_le, cmp; lia).
    eapply (StronglySorted_impl _ _ (fun _ => True)); [|by apply Forall_true|apply sort_by_sorted; apply _]. intros a b _ _. unfold cmp_le, cmp. lia.
Qed.
End project.
(** C12: the sidebar lets nothing through that it should not. Whatever the entries, the
    stored texts and the user: a user's own settings only narrow what the site lets the
    role see, in the same order; and a link that is shown, be it an entry or one of its
    sub-entries, is allowed to the role, is not a closed page of prices, and is governed
    by no module or by one that is on both for the site and for the user. A link into
    the settings pages is shown to the root user alone. *)
Theorem sidebar_guarded status u groups :
  let o := sidebar_options status (Some u) in
  let shown := all_links (useSidebarConfig toLowerCase status (Some u) groups) in
  shown `sublist_of` all_links (useSidebarConfig toLowerCase status (Some (mkUser (u_role u) (u_sidebar_settings u) None)) groups)
  ∧ ∀ x, x ∈ shown →
      canAccessMenuItem x (u_role u) = true ∧ pricing_closed o x = false ∧ modules_open o x
      ∧ ∀ url, url_of x = Some url → under "/system-settings" url = true → u_role u = ROLE_SUPER_ADMIN.
Proof.
  intros o shown. split.
  - replace (useSidebarConfig toLowerCase status (Some (mkUser (u_role u) (u_sidebar_settings u) None)) groups)
      with (filterSidebarGroups groups (without_user o)); [apply narrowed|].
    unfold useSidebarConfig. f_equal. unfold without_user, o, sidebar_options. cbn. f_equal. by destruct (u_sidebar_settings u) as [[]|].
  - intros x Hx. assert (Hv : visible o x = true).
    { unfold shown, useSidebarConfig in Hx. rewrite shown_links in Hx. apply list_elem_of_bind in Hx as (item & Hx & _). unfold kept_links in Hx. fold o in Hx.
      destruct (visible o item) eqn:E; [|by apply elem_of_nil in Hx]. destruct (kind item); [apply list_elem_of_singleton in Hx as ->; done| |apply list_elem_of_singleton in Hx as ->; done].
      by apply elem_of_List_filter in Hx as [_ Hx]. }
    pose proof (proj1 (visible_spec o x) Hv) as (H1 & H2 & H3). do 3 (split; [done|]). intros url Hu Hs. exact (settings_root o x url Hu Hs Hv).
Qed.

End sidebar.

Definition guarded_group : NavGroup :=
  mkGroup None [] [mkItem (mkBase None [] None false None None None None) (NavLink (js "/keys"));
                   mkItem (mkBase None [] None false None None None None) (NavLink (js "/system-settings/site"))].

Lemma sidebar_guarded_witness :
  let shown := all_links (useSidebarConfig (fun s => s) (mkStatus None None None None) (Some (mkUser 10 None (Some (jsq "{'chat': {'enabled': false}}")))) [guarded_group]) in
  map url_of shown = [Some (js "/keys")] ∧ ∀ x, x ∈ shown → canAccessMenuItem x 10 = true.
Proof.
  intros shown. split; [vm_compute; reflexivity|]. intros x Hx.
  apply (sidebar_guarded (fun s => s) (mkStatus None None None None) (mkUser 10 None (Some (jsq "{'chat': {'enabled': false}}"))) [guarded_group]). exact Hx.
Defined.

End NavVisible.

(** * Switches and orders of the sidebar settings

    The edits of a configuration: a switch that is there is turned on or off, the
    order of a section is changed. A tidy configuration stays tidy, and nothing else
    in it changes. *)

Import NavObjects NavFold NavOrder NavHeader NavSections NavVisible.

Module NavSwitch.
Import NavConfig NavSidebar NavEditors.

(** A member of a section. *)
Definition flag_of (c : SidebarModulesAdminConfig) (section key : jsstr) : option section_value := map_get section c ≫= map_get key.

Lemma flag_set c section key value s k :
  flag_of (set_in_section section key value c) s k = if decide (s = section ∧ k = key) then Some value else flag_of c s k.
Proof.
  unfold flag_of, set_in_section. destruct (decide (s = section)) as [->|Hs].
  - rewrite map_get_set_eq. cbn [mbind option_bind]. destruct (decide (k = key)) as [->|Hk].
    + rewrite map_get_set_eq, decide_True; done.
    + rewrite map_get_set_ne, (decide_False (P := section = section ∧ k = key)) by (done || tauto). by destruct (map_get section c).
  - rewrite map_get_set_ne, decide_False by (done || tauto). done.
Qed.

(** ** Edits of a section *)

Lemma tidy_set_flag required s k b : tidy_section required s → k ≠ js "order" → is_Some (map_get k s) → tidy_section required (map_set k (SBool b) s).
Proof.
  intros H Ho [v Hv]. assert (Hd : NoDup (map_set k (SBool b) s).*1) by apply NoDup_keys_map_set, H.
  assert (Hb : k ≠ js "enabled" → ∃ b', map_get k s = Some (SBool b')).
  { intros He. destruct (ts_others _ _ H k v He Ho Hv) as [b' ->]. by exists b'. }
  assert (Hg : ∀ x, map_get x (map_set k (SBool b) s) = if decide (x = k) then Some (SBool b) else map_get x s).
  { intros x. case_decide; [subst; apply map_get_set_eq|by apply map_get_set_ne]. }
  split; [done|..].
  - rewrite Hg. case_decide; [by eexists|apply H].
  - destruct (ts_order _ _ H) as (l & Hl & Hn & Hx). exists l. rewrite Hg, decide_False by done. split; [done|]. split; [done|]. intros x.
    rewrite Hx, !elem_of_modules by (done || apply H). rewrite Hg. case_decide as E; [|done]. subst x. split; [intros (? & ? & _)|intros (He & ? & _)]; eauto.
  - intros x w He Hx. rewrite Hg. case_decide; [intros [= <-]; by eexists|by apply (ts_others _ _ H)].
  - rewrite Hg. case_decide as E; [|apply H]. subst k. by rewrite (ts_proto _ _ H) in Hv.
  - intros x Hx. rewrite Hg. case_decide; [by eexists|by apply (ts_required _ _ H)].
Qed.

Lemma tidy_set_order required s l : tidy_section required s → l ≡ₚ getSidebarSectionOrder s → tidy_section required (map_set (js "order") (SOrder l) s).
Proof.
  intros H Hl. assert (Hg : ∀ x, x ≠ js "order" → map_get x (map_set (js "order") (SOrder l) s) = map_get x s) by (intros x Hx; by apply map_get_set_ne).
  split.
  - apply NoDup_keys_map_set, H.
  - rewrite Hg by done. apply H.
  - exists l. rewrite map_get_set_eq. split; [done|]. split; [rewrite Hl; apply NoDup_arrange|]. intros x. rewrite modules_set_order by apply H.
    rewrite Hl. apply elem_of_arrange.
  - intros k v He Ho. rewrite Hg by done. by apply (ts_others _ _ H).
  - rewrite Hg by done. apply H.
  - intros k Hk. destruct (decide (k = js "order")) as [->|Ho]; [rewrite map_get_set_eq; by eexists|]. rewrite Hg by done. by apply (ts_required _ _ H).
Qed.

Lemma tidy_set_section c section s : tidy_sidebar c → is_Some (map_get section c) → tidy_section (required_keys section) s → tidy_sidebar (map_set section s c).
Proof.
  intros H [s0 Hs0] Hs. split.
  - apply NoDup_keys_map_set, H.
  - rewrite map_get_set_ne; [apply H|]. intros <-. by rewrite (tc_proto _ H) in Hs0.
  - intros k s'. destruct (decide (k = section)) as [->|Hk]; [rewrite map_get_set_eq; by intros [= <-]|]. rewrite map_get_set_ne by done. apply (tc_sections _ H).
  - intros k Hk. destruct (decide (k = section)) as [->|Hn]; [rewrite map_get_set_eq; by eexists|]. rewrite map_get_set_ne by done. by apply (tc_defaults _ H).
Qed.

(** A switch that is there may be turned. *)
Lemma tidy_switch c section key b : tidy_sidebar c → key ≠ js "order" → is_Some (flag_of c section key) → tidy_sidebar (set_in_section section key (SBool b) c).
Proof.
  intros H Ho [v Hv]. unfold flag_of in Hv. destruct (map_get section c) as [s|] eqn:E; [|done]. cbn [mbind option_bind] in Hv.
  apply tidy_set_section; [done|by eexists|]. rewrite E. cbn [default from_option Datatypes.id].
  apply tidy_set_flag; [by apply (tc_sections _ H)|done|by eexists].
Qed.

(** ** Modules of the tasks *)

Definition task_refs (task : jsstr) : list module_ref := map t_ref (taskModuleRefs task).

(** Every module of a task is a member of a default section. *)
Definition ref_known (r : module_ref) : bool :=
  match map_get (r_section r) SIDEBAR_MODULES_DEFAULT with Some s => map_has (r_module r) s | None => false end
  && negb (bool_decide (r_module r = js "order")) && negb (bool_decide (r_module r = js "enabled")).

Lemma first_only_incl {A} (key : A → jsstr) l kept seen x :
  x ∈ (foldl (fun '(kept, seen) ref => if set_has (key ref) seen then (kept, seen) else (kept ++ [ref], set_add seen (key ref))) (kept, seen) l).1 →
  x ∈ kept ∨ x ∈ l.
Proof.
  revert kept seen. induction l as [|y l IH]; intros kept seen; [by left|]. cbn [foldl].
  destruct (set_has _ seen); intros Hx%IH; rewrite ?elem_of_app in Hx; set_solver.
Qed.

Lemma task_refs_menu task r : r ∈ task_refs task → ∃ d, d ∈ MENU_ITEMS ∧ r ∈ default [] (permissions (base (m_item d))).
Proof.
  unfold task_refs, taskModuleRefs. generalize MENU_ITEMS as menu. intros menu Hr%list_elem_of_In. apply in_map_iff in Hr as (x & <- & Hx%list_elem_of_In).
  apply (first_only_incl (fun ref => r_section (t_ref ref) ++ js "." ++ r_module (t_ref ref))) in Hx as [Hx|Hx]; [by apply elem_of_nil in Hx|].
  apply list_elem_of_bind in Hx as (d & Hd%list_elem_of_In & Hm%elem_of_List_filter). exists d. split; [by apply Hm|].
  apply in_map_iff in Hd as (r & <- & Hr). by apply list_elem_of_In.
Qed.

Lemma task_ref_known task r : r ∈ task_refs task → ref_known r = true.
Proof.
  intros (d & Hd%list_elem_of_In & Hr%list_elem_of_In)%task_refs_menu.
  assert (H : forallb (fun d => forallb ref_known (default [] (permissions (base (m_item d))))) MENU_ITEMS = true) by (vm_compute; reflexivity).
  rewrite forallb_forall in H. specialize (H d Hd). rewrite forallb_forall in H. by apply H.
Qed.

(** In a tidy configuration the switches of these modules are there. *)
Lemma known_flag c r : tidy_sidebar c → ref_known r = true →
  is_Some (flag_of c (r_section r) (r_module r)) ∧ r_module r ≠ js "order" ∧ r_module r ≠ js "enabled".
Proof.
  intros H. unfold ref_known. rewrite !andb_true_iff, !negb_true_iff, !bool_decide_eq_false. intros [[Hm Ho] He]. split; [|done].
  destruct (map_get (r_section r) SIDEBAR_MODULES_DEFAULT) as [d|] eqn:E; [|done]. unfold flag_of.
  destruct (tc_defaults _ H (r_section r)) as [s Hs]; [apply map_get_is_Some; by eexists|]. rewrite Hs. cbn [mbind option_bind].
  apply (ts_required _ _ (tc_sections _ H _ _ Hs)). unfold required_keys. rewrite E. by apply map_has_spec.
Qed.

Lemma set_module_tidy c r b : tidy_sidebar c → ref_known r = true →
  set_module c (r_section r) (r_module r) b = set_in_section (r_section r) (r_module r) (SBool b) c
  ∧ tidy_sidebar (set_in_section (r_section r) (r_module r) (SBool b) c).
Proof.
  intros H Hr. destruct (known_flag c r H Hr) as (Hf & Ho & He). split; [|by apply tidy_switch].
  unfold set_module, set_in_section. destruct Hf as [v Hv]. unfold flag_of in Hv. destruct (map_get (r_section r) c) as [s|] eqn:E; [|done].
  cbn [default from_option Datatypes.id]. do 2 f_equal. destruct (ts_enabled _ _ (tc_sections _ H _ _ E)) as [e He']. rewrite He'. by apply map_set_same.
Qed.

(** ** The switch of a task *)

Lemma task_switch_fold c refs b : tidy_sidebar c → Forall (fun r => ref_known r = true) (map t_ref refs) →
  let c' := foldl (fun next ref => let '(mkRef section module) := t_ref ref in set_module next section module b) c refs in
  tidy_sidebar c' ∧ ∀ s m, flag_of c' s m = if bool_decide (mkRef s m ∈ map t_ref refs) then Some (SBool b) else flag_of c s m.
Proof.
  revert c. induction refs as [|x l IH]; intros c H Hf; [split; [done|]; intros s m; by rewrite bool_decide_false by apply not_elem_of_nil|].
  cbn [map] in Hf. apply Forall_cons in Hf as [Hr Hl]. cbn [foldl map]. destruct (set_module_tidy c (t_ref x) b H Hr) as [E Ht].
  destruct (t_ref x) as [sx mx] eqn:Ex. cbn [r_section r_module] in E, Ht. rewrite E. destruct (IH _ Ht Hl) as [H1 H2]. split; [exact H1|].
  intros s m. rewrite H2, flag_set. destruct (decide (mkRef s m ∈ map t_ref l)) as [Hin|Hn].
  - rewrite !bool_decide_true; [done| |done]. by apply list_elem_of_further.
  - rewrite (bool_decide_false _ Hn). destruct (decide (s = sx ∧ m = mx)) as [[-> ->]|Hs].
    + rewrite bool_decide_true; [done|]. apply list_elem_of_here.
    + rewrite bool_decide_false; [done|]. rewrite elem_of_cons. intros [[= -> ->]|?]; tauto.
Qed.

Lemma task_switch c task b : tidy_sidebar c →
  tidy_sidebar (setTaskSectionEnabled c task b None)
  ∧ ∀ s m, flag_of (setTaskSectionEnabled c task b None) s m = if bool_decide (mkRef s m ∈ task_refs task) then Some (SBool b) else flag_of c s m.
Proof.
  intros H. apply task_switch_fold; [done|]. apply Forall_forall. intros r. apply task_ref_known.
Qed.
End NavSwitch.

(** * The view, the switches of a task and the guards of the routes

    The sidebar as a whole: the view by task of the root entries; the switch that
    turns the modules of a task on or off, up to what is shown after it is saved; and
    the guard of the playground, which reads the saved settings apart from the sidebar
    and agrees with it. *)

Import PlaygroundStorage NavObjects NavFold NavOrder NavHeader NavSections NavVisible NavSwitch.

Module NavView.
Import NavConfig NavSidebar NavEditors.

(** ** The root entries *)

Section root.
Context (toLowerCase t : jsstr → jsstr).

Definition task_known (x : NavItem) : bool :=
  existsb (fun i => bool_decide (taskSection (base x) = Some i)) (js "overview" :: task_ids).

Lemma root_flat : Forall (fun x => is_flat x = true) (root_items t).
Proof. apply Forall_forall. intros x Hx%list_elem_of_In. revert x Hx. apply forallb_forall. vm_compute. reflexivity. Qed.

Lemma root_tasks x : x ∈ root_items t → ∃ i, i ∈ js "overview" :: task_ids ∧ taskSection (base x) = Some i ∧ task_of x = Some i.
Proof.
  intros Hx%list_elem_of_In. assert (H : forallb task_known (root_items t) = true) by (vm_compute; reflexivity).
  rewrite forallb_forall in H. apply H, existsb_exists in Hx as (i & Hi%list_elem_of_In & E%bool_decide_eq_true). exists i.
  split; [done|]. split; [done|]. unfold task_of. by rewrite E.
Qed.

Lemma root_groups : buildRootSidebarGroups t ≫= g_items ≡ₚ root_items t.
Proof.
  unfold buildRootSidebarGroups. rewrite nonempty_groups.
  etrans; [|apply (grouped_perm (fun x => taskSection (base x)) (js "overview" :: task_ids))].
  - change (js "overview" :: task_ids) with (((js "overview", js "Overview") :: TASK_SECTIONS).*1).
    induction ((js "overview", js "Overview") :: TASK_SECTIONS) as [|s l IH]; [done|]. cbn [map fmap list_fmap]. rewrite !bind_cons. cbn [g_items]. by rewrite IH.
  - apply (bool_decide_unpack _). vm_compute. exact I.
  - intros x (i & Hi & E & _)%root_tasks. by exists i.
Qed.

Lemma root_groups_elem x : x ∈ buildRootSidebarGroups t ≫= g_items ↔ x ∈ root_items t.
Proof. by rewrite root_groups. Qed.

Lemma filter_perm {A} (q : A → bool) l l' : l ≡ₚ l' → List.filter q l ≡ₚ List.filter q l'.
Proof.
  induction 1 as [|x l l' H IH|x y l|l1 l2 l3 H1 IH1 H2 IH2]; [done|..].
  - cbn [List.filter]. destruct (q x); [by constructor|done].
  - cbn [List.filter]. destruct (q x), (q y); [constructor|done..].
  - by etrans.
Qed.

(** What [useSidebarConfig] leaves of the root entries. *)
Lemma root_shown status user :
  useSidebarConfig toLowerCase status user (buildRootSidebarGroups t) ≫= g_items
  = List.filter (visible toLowerCase (sidebar_options status user)) (buildRootSidebarGroups t ≫= g_items).
Proof. unfold useSidebarConfig. apply flat_filter. rewrite root_groups. apply root_flat. Qed.

(** Where a module stands in the configured order of its section. *)
Definition module_place (admin : SidebarModulesAdminConfig) (item : NavItem) : Z :=
  match refs_of item with
  | Some (ref :: _) => indexOf (r_module ref) (getSidebarSectionOrder (default [(js "enabled", SBool true)] (map_get (r_section ref) admin)))
  | _ => 0%Z
  end.

Lemma rank_place admin places a b :
  first_section a = first_section b → (rank admin places a ≤ rank admin places b)%Z → (module_place admin a ≤ module_place admin b)%Z.
Proof.
  unfold first_section, rank, module_place. destruct (refs_of a) as [[|ra la]|], (refs_of b) as [[|rb lb]|]; try done; cbn [mbind option_bind head fmap option_fmap option_map].
  intros [= E]. rewrite E. lia.
Qed.

(** C19: away from the settings pages the sidebar shows every root entry that the role,
    the site's settings and the user's settings let through, and each exactly once:
    grouping by task neither loses nor repeats an entry. The groups come in the
    resolved order of the tasks, the overview first; each holds entries of its own
    task, and among the entries of one section the configured order of the modules
    is kept. *)
Theorem view_complete pathname status user nav : under "/system-settings" pathname = false →
  let view := useSidebarView toLowerCase t pathname status user nav in
  view ≫= g_items ≡ₚ List.filter (visible toLowerCase (sidebar_options status user)) (root_items t)
  ∧ map g_id view `sublist_of` map Some (js "overview" :: resolveTaskSectionOrder (SidebarTaskSectionOrder status) (SidebarSectionOrder status))
  ∧ ∀ g, g ∈ view → (∀ x, x ∈ g_items g → task_of x = g_id g)
      ∧ StronglySorted (fun a b => first_section a = first_section b →
          (module_place (parseSidebarModulesAdmin toLowerCase (SidebarModulesAdmin status)) a
           ≤ module_place (parseSidebarModulesAdmin toLowerCase (SidebarModulesAdmin status)) b)%Z) (g_items g).
Proof.
  intros Hp view. unfold view, useSidebarView. rewrite Hp. set (order := resolveTaskSectionOrder _ _). assert (Ho : order ≡ₚ task_ids) by apply resolve_perm.
  split; [|split].
  - rewrite project_perm; [|done|].
    + rewrite root_shown. apply filter_perm, root_groups.
    + intros x. rewrite root_shown, elem_of_List_filter, root_groups_elem. intros [(i & Hi & _ & E)%root_tasks _]. exists i. split; [|done]. by rewrite Ho.
  - by apply project_ids.
  - intros g [Hx (places & Hs)]%project_group. split; [done|].
    eapply (StronglySorted_impl _ _ (fun _ => True)); [|by apply Forall_true|exact Hs]. intros a b _ _ Hr E. by apply (rank_place _ places).
Qed.
End root.

Lemma view_complete_witness :
  useSidebarView (fun s => s) (fun s => s) (js "/keys") (mkStatus None None None None) (Some (mkUser 1 None None)) None ≫= g_items
  ≡ₚ List.filter (visible (fun s => s) (sidebar_options (mkStatus None None None None) (Some (mkUser 1 None None)))) (root_items (fun s => s)).
Proof.
  apply (view_complete (fun s => s) (fun s => s) (js "/keys") (mkStatus None None None None) (Some (mkUser 1 None None)) None). reflexivity.
Defined.

(** ** The switch of a task *)

Section switch.
Context (toLowerCase t : jsstr → jsstr).

(** Every entry of a task is governed by modules of the task alone. *)
Definition governed_by_task (x : NavItem) : bool :=
  match task_of x, governing_refs x with
  | Some task, Some ((_ :: _) as refs) => forallb (fun r => bool_decide (r ∈ task_refs task)) refs
  | _, _ => false
  end.

Lemma root_governed x : x ∈ root_items t → governed_by_task x = true.
Proof. intros Hx%list_elem_of_In. revert x Hx. apply forallb_forall. vm_compute. reflexivity. Qed.

Lemma flag_same c c' s m : same_sidebar c c' → flag_of c s m = flag_of c' s m.
Proof. intros H. unfold flag_of. destruct (H s) as [x y Hxy|]; [apply Hxy|done]. Qed.

Lemma switched_off (c : SidebarModulesAdminConfig) s m : flag_of c s m = Some (SBool false) → switched_on c s m = false.
Proof.
  unfold flag_of, switched_on, section_flag. destruct (map_get s c) as [sec|]; [|done]. cbn [mbind option_bind]. intros ->. apply andb_false_r.
Qed.

(** C30: the switch of a task turns the modules of the task and nothing else. The
    administrator's page reads the stored text, turns the switch and saves; the text
    that is stored then has every module of the task as the switch says, and every
    other switch and order as before. Off, it hides every entry of the task from
    everyone, whatever their role and their own settings. *)
Theorem task_switched stored task on :
  let saved := serializeSidebarModulesAdmin (setTaskSectionEnabled (parseSidebarModulesAdmin toLowerCase stored) task on None) in
  (∀ s m, flag_of (parseSidebarModulesAdmin toLowerCase (Some saved)) s m
          = if bool_decide (mkRef s m ∈ task_refs task) then Some (SBool on) else flag_of (parseSidebarModulesAdmin toLowerCase stored) s m)
  ∧ (on = false → ∀ x user role header, x ∈ root_items t → task_of x = Some task →
       visible toLowerCase (mkOptions (Some saved) user role header) x = false).
Proof.
  intros saved. destruct (task_switch (parseSidebarModulesAdmin toLowerCase stored) task on (sidebar_tidy toLowerCase stored)) as [Ht Hf].
  assert (Hs : ∀ s m, flag_of (parseSidebarModulesAdmin toLowerCase (Some saved)) s m
          = if bool_decide (mkRef s m ∈ task_refs task) then Some (SBool on) else flag_of (parseSidebarModulesAdmin toLowerCase stored) s m).
  { intros s m. rewrite <- Hf. by apply flag_same, sidebar_saved. }
  split; [exact Hs|]. intros -> x user role header Hx Htask. apply not_true_is_false. intros Hv. apply visible_spec in Hv as (_ & _ & Hm).
  pose proof (root_governed x Hx) as Hg. unfold governed_by_task in Hg. rewrite Htask in Hg. unfold modules_open in Hm. cbn [o_admin] in Hm.
  destruct (governing_refs x) as [[|r0 refs]|]; [done| |done]. cbn [default from_option Datatypes.id] in Hm. destruct Hm as [Hm|([s m] & Hr & Hon & _)]; [done|].
  rewrite forallb_forall in Hg. specialize (Hg _ (proj1 (list_elem_of_In _ _) Hr)). apply bool_decide_eq_true in Hg.
  cbn [r_section r_module] in Hon. rewrite switched_off in Hon; [done|]. by rewrite Hs, bool_decide_true.
Qed.
End switch.

Lemma task_switched_witness :
  visible (fun s => s) (mkOptions (Some (serializeSidebarModulesAdmin (setTaskSectionEnabled (parseSidebarModulesAdmin (fun s => s) None) (js "access") false None)))
    None 100 None) (root_item (fun s => s) "api-keys" "API Keys" "/keys" (Some (permission "console" ["token"])) "access" None false None) = false.
Proof.
  apply (task_switched (fun s => s) (fun s => s) None (js "access") false); [reflexivity| |reflexivity].
  do 2 apply list_elem_of_further. apply list_elem_of_here.
Defined.

(** ** The guard of the playground *)

Section guard.
Context (toLowerCase : jsstr → jsstr).

Lemma switched_ext (c c' : SidebarModulesAdminConfig) s m : map_get s c = map_get s c' → switched_on c s m = switched_on c' s m.
Proof. unfold switched_on. by intros ->. Qed.

Lemma saved_sidebar_parse c : tidy_sidebar c → JSON_parse (serializeSidebarModulesAdmin c) = Some (admin_json (normalizeSidebarModulesAdmin c)).
Proof.
  intros H. apply parse_printed, admin_json_ok; [apply normalize_NoDup|]. intros k s. rewrite normalize_tidy by done. intros Hs. apply (tc_sections _ H _ _ Hs).
Qed.

(** The guard on the value of a printed configuration. *)
Lemma guard_admin (c : SidebarModulesAdminConfig) s m : NoDup c.*1 → (∀ k sec, map_get k c = Some sec → NoDup sec.*1) →
  match member (admin_json c) s with
  | Some sectionConfig =>
      if negb (truthy (Some sectionConfig)) then true
      else if is_false (member sectionConfig (js "enabled")) then false
      else if is_false (member sectionConfig m) then false else true
  | None => true
  end = switched_on c s m.
Proof.
  intros Hd Hs. rewrite <- allowed_admin by done. unfold moduleAllowed. rewrite member_admin by done.
  destruct (map_get s c) as [sec|]; [|done]. cbn [fmap option_fmap option_map mbind option_bind].
  change (truthy (Some (section_json sec))) with true. cbn [negb]. by destruct (is_false (member (section_json sec) (js "enabled"))), (is_false (member (section_json sec) m)).
Qed.

(** The status a fetch leaves in the storage. *)
Lemma cached_status storage m module : wellformed (JObj m) → readable storage = true →
  accepts storage (items storage) NavModules.STATUS (JSON_stringify (JObj m)) = true →
  NavModules.getCachedStatus (NavModules.getFreshModuleAccess toLowerCase (Ok (Some (JObj m))) (Some storage) module).2 = Some (JObj m).
Proof.
  intros Hw Hr Ha. cbn [NavModules.getFreshModuleAccess snd NavModules.cacheStatus truthy]. unfold setItem. rewrite Ha. cbn [try_storage].
  unfold NavModules.getCachedStatus, getItem. cbn [with_items readable items]. rewrite Hr, map_get_set_eq.
  assert (Hp := parse_printed _ Hw). destruct (nonempty (JSON_stringify (JObj m))) eqn:E; [by rewrite Hp|].
  destruct (JSON_stringify (JObj m)); [discriminate Hp|discriminate E].
Qed.

(** C10: the guard of a route agrees with the sidebar. Once a page has fetched and kept
    a status whose sidebar settings were saved by the administrator's page, the guard
    lets a module through exactly when the sidebar's settings allow it, although it
    reads the raw text and fills in no defaults; the playground opens exactly then. *)
Theorem guard_agrees c storage m module : tidy_sidebar c → wellformed (JObj m) → readable storage = true →
  accepts storage (items storage) NavModules.STATUS (JSON_stringify (JObj m)) = true →
  map_get (js "SidebarModulesAdmin") m = Some (JStr (serializeSidebarModulesAdmin c)) →
  let window := (NavModules.getFreshModuleAccess toLowerCase (Ok (Some (JObj m))) (Some storage) module).2 in
  let admin := admin_json (parseSidebarModulesAdmin toLowerCase (Some (serializeSidebarModulesAdmin c))) in
  (∀ section key, NavModules.isSidebarModuleEnabled window section key = moduleAllowed admin section key)
  ∧ (NavModules.playground_route window = NavModules.Proceed ↔ moduleAllowed admin (js "chat") (js "playground") = true).
Proof.
  intros H Hw Hr Ha Hm window admin. assert (Hall : ∀ section key, NavModules.isSidebarModuleEnabled window section key = moduleAllowed admin section key).
  { intros s k. unfold admin. rewrite allowed_tidy by apply sidebar_tidy. rewrite (sidebar_saved toLowerCase c H).
    unfold NavModules.isSidebarModuleEnabled, window. rewrite cached_status by done. cbn [truthy negb prop_opt prop_of]. rewrite Hm. cbn [truthy to_text].
    pose proof (saved_sidebar_parse c H) as Hp. destruct (nonempty (trim (serializeSidebarModulesAdmin c))) eqn:Et.
    2:{ rewrite JSON_parse_blank in Hp; [done|]. by destruct (trim _). }
    rewrite (proj2 (nonempty_true (serializeSidebarModulesAdmin c))) by (intros E; by rewrite E in Et). cbn [negb orb]. rewrite Hp.
    transitivity (switched_on (normalizeSidebarModulesAdmin c) s k); [|apply switched_ext; by apply normalize_tidy].
    apply guard_admin; [apply normalize_NoDup|]. intros k' sec. rewrite normalize_tidy by done. intros Hs. apply (tc_sections _ H _ _ Hs). }
  split; [exact Hall|]. unfold NavModules.playground_route. rewrite Hall. by destruct (moduleAllowed admin _ _).
Qed.
End guard.

Definition guard_config : SidebarModulesAdminConfig := parseSidebarModulesAdmin (fun s => s) (Some (jsq "{'chat': {'playground': 0}}")).

Lemma guard_agrees_witness :
  let m := [(js "SidebarModulesAdmin", JStr (serializeSidebarModulesAdmin guard_config))] in
  let window := (NavModules.getFreshModuleAccess (fun s => s) (Ok (Some (JObj m))) (Some demo_storage) NavModules.MPricing).2 in
  NavModules.isSidebarModuleEnabled window (js "chat") (js "chat")
  = moduleAllowed (admin_json (parseSidebarModulesAdmin (fun s => s) (Some (serializeSidebarModulesAdmin guard_config)))) (js "chat") (js "chat")
  ∧ NavModules.playground_route window ≠ NavModules.Proceed.
Proof.
  intros m window. destruct (guard_agrees (fun s => s) guard_config demo_storage m NavModules.MPricing) as [H1 H2];
    [apply sidebar_tidy| |reflexivity|reflexivity|reflexivity|].
  { apply wellformed_obj. split; [apply NoDup_singleton|]. split; [reflexivity|]. apply List.Forall_cons; [by split|apply List.Forall_nil]. }
  split; [apply H1|]. intros E%H2. vm_compute in E. discriminate E.
Defined.

End NavView.
