(* ===== verification/NavEdits.v ===== *)
(** * Sessions in the editors of the navigation, and the settings pages (Module NavPages)

    What an administrator edits is what is read back. In each editor any sequence of
    the handlers the page offers keeps the configuration tidy; saving it and opening
    the page again, on the options as they are then stored, shows the same. *)

From S2P Require Import Prelude JsNum Json NumText Records JsValue Playground PlaygroundStorage NavConfig NavModules NavSidebar NavEditors NavOrder NavHeader NavSections NavVisible.
Import NavObjects NavFold NavOrder NavHeader NavSections NavVisible NavSwitch.

Module NavEdits.
Import NavConfig NavSidebar NavEditors.

(** The options that are stored, after the updates. *)
Definition updated (key : string) (updates : list update) (stored : option jsstr) : option jsstr :=
  match map_get (js key) updates with Some v => Some v | None => stored end.

(** Two options, each updated unless its text is the same. *)
Lemma updated_first k1 k2 (b1 b2 : bool) (v1 v2 : jsstr) st : k1 ≠ k2 →
  updated k1 ((if b1 then [] else [(js k1, v1)]) ++ (if b2 then [] else [(js k2, v2)])) st = if b1 then st else Some v1.
Proof.
  intros H. unfold updated. destruct b1; cbn [app map_get]; [|by rewrite decide_True]. destruct b2; [done|]. cbn [map_get].
  rewrite decide_False; [done|]. by intros ?%js_inj.
Qed.

Lemma updated_second k1 k2 (b1 b2 : bool) (v1 v2 : jsstr) st : k1 ≠ k2 →
  updated k2 ((if b1 then [] else [(js k1, v1)]) ++ (if b2 then [] else [(js k2, v2)])) st = if b2 then st else Some v2.
Proof.
  intros H. assert (H' : js k2 ≠ js k1) by (by intros ?%js_inj). unfold updated.
  destruct b1, b2; cbn [app map_get]; rewrite ?(decide_False (P := js k2 = js k1)), ?(decide_True (P := js k2 = js k2)) by done; done.
Qed.

(** ** Sidebar *)

Section sidebar.
Context (toLowerCase : jsstr → jsstr).

Inductive sidebar_session (p : SidebarProps) : SidebarEditor → Prop :=
| sidebar_start : sidebar_session p (sidebar_open p)
| sidebar_next s e : sidebar_session p s → switch_offered s e = true → sidebar_session p (sidebar_step toLowerCase s e).

Definition sidebar_inv (s : SidebarEditor) : Prop := tidy_sidebar (s_config s) ∧ s_order s ≡ₚ task_ids.

Lemma offered_known s section module :
  existsb (fun task => existsb (fun ref => bool_decide (r_section (t_ref ref) = section) && bool_decide (r_module (t_ref ref) = module)) (taskModuleRefs task)) (s_order s) = true →
  ref_known (mkRef section module) = true.
Proof.
  rewrite existsb_exists. intros (task & _ & Hr). apply existsb_exists in Hr as (ref & Hin%list_elem_of_In & [<-%bool_decide_eq_true <-%bool_decide_eq_true]%andb_true_iff).
  replace (mkRef (r_section (t_ref ref)) (r_module (t_ref ref))) with (t_ref ref) by (by destruct (t_ref ref)).
  apply (task_ref_known task). unfold task_refs. apply list_elem_of_fmap. by exists ref.
Qed.

Lemma move_module_tidy c section module other : tidy_sidebar c → ref_known (mkRef section module) = true → tidy_sidebar (moveModule section module other c).
Proof.
  intros H Hr. destruct (known_flag c _ H Hr) as [[v Hv] _]. unfold flag_of in Hv. cbn [r_section r_module] in Hv. unfold moveModule.
  destruct (map_get section c) as [sec|] eqn:E; [|done]. cbn [default from_option Datatypes.id].
  destruct (position module _) as [a|]; [|done]. destruct (position other _) as [b|]; [|done].
  unfold set_in_section. rewrite E. apply tidy_set_section; [done|by eexists|]. cbn [default from_option Datatypes.id].
  apply tidy_set_order; [by apply (tc_sections _ H)|apply swap_at_perm].
Qed.

Lemma sidebar_step_inv s e : sidebar_inv s → switch_offered s e = true → sidebar_inv (sidebar_step toLowerCase s e).
Proof.
  intros [H Ho] He. destruct e as [section on|section module on|task on|i up|section module other| | |e]; cbn [sidebar_step switch_offered] in *; unfold sidebar_inv; cbn [s_config s_order].
  - split; [|done]. apply tidy_switch; [done|done|]. apply map_has_spec, map_get_is_Some in He as [sec Hs]. unfold flag_of. rewrite Hs. cbn [mbind option_bind].
    destruct (ts_enabled _ _ (tc_sections _ H _ _ Hs)) as [b ->]. by eexists.
  - split; [|done]. apply (set_module_tidy _ (mkRef section module)); [done|by apply (offered_known s)].
  - split; [by apply task_switch|done].
  - split; [done|]. by rewrite swap_at_perm.
  - split; [apply move_module_tidy; [done|by apply (offered_known s)]|done].
  - split; [apply sidebar_tidy|apply resolve_perm].
  - unfold sidebar_import. destruct (JSON_parse _) as [[]|]; try done. cbn [s_config s_order]. split; [apply sidebar_tidy|apply resolve_perm].
  - done.
Qed.

Lemma sidebar_session_inv modules taskOrder classic s : sidebar_session (sidebar_props toLowerCase modules taskOrder classic) s → sidebar_inv s.
Proof. induction 1 as [|s e _ IH He]; [split; [apply sidebar_tidy|apply resolve_perm]|by apply sidebar_step_inv]. Qed.

(** C14: what an administrator sees in the sidebar editor is what is stored. Open the
    page on any stored texts, however malformed; turn switches, move modules and
    sections, import, reset, in any order; save; open the page again: it shows the same
    switches, the same order of the modules in every section and the same order of the
    tasks, and so does the sidebar, also where saving sends nothing because the texts
    have not changed. *)
Theorem sidebar_edits_kept modules taskOrder classic s :
  let p := sidebar_props toLowerCase modules taskOrder classic in
  sidebar_session p s →
  let updates := sidebar_save p s in
  let reopened := sidebar_props toLowerCase (updated "SidebarModulesAdmin" updates modules) (updated "SidebarTaskSectionOrder" updates taskOrder) classic in
  same_sidebar (p_config reopened) (s_config s) ∧ p_sectionOrder reopened = s_order s
  ∧ ∀ section, getSidebarSectionOrder (default [] (map_get section (p_config reopened))) = getSidebarSectionOrder (default [] (map_get section (s_config s))).
Proof.
  intros p Hs updates reopened. destruct (sidebar_session_inv _ _ _ _ Hs) as [H Ho].
  assert (Hjoin : resolveTaskSectionOrder (Some (join (js ",") (s_order s))) None = s_order s) by (by apply resolve_saved).
  assert (Hc : same_sidebar (p_config reopened) (s_config s)).
  { unfold reopened, sidebar_props. cbn [p_config]. unfold updates, sidebar_save. rewrite updated_first by done. cbn [p_initialSerialized].
    case_bool_decide as E; [|by apply sidebar_saved]. cbn [p sidebar_props p_initialSerialized] in E.
    pose proof (sidebar_saved toLowerCase _ (sidebar_tidy toLowerCase modules)) as H0. rewrite <- E in H0.
    etrans; [symmetry; exact H0|]. by apply sidebar_saved. }
  split; [exact Hc|]. split.
  - unfold reopened, sidebar_props. cbn [p_sectionOrder]. unfold updates, sidebar_save. rewrite updated_second, Hjoin by done.
    case_bool_decide as E; [|by apply resolve_saved]. cbn [p sidebar_props p_initialSectionOrderSerialized] in E.
    rewrite <- Hjoin, E. symmetry. apply resolve_saved, resolve_perm.
  - intros section. pose proof (Hc section) as Hsec. destruct (map_get section (s_config s)) as [y|] eqn:Ey; [|by destruct (map_get section (p_config reopened)); [inversion Hsec|]].
    destruct (map_get section (p_config reopened)) as [x|] eqn:Ex; [|inversion Hsec]. inversion Hsec as [? ? Hxy|]. cbn [default from_option Datatypes.id]. rewrite (order_kept (required_keys section) y) by (by apply (tc_sections _ H)).
    rewrite (order_kept (required_keys section) x) by exact (tc_sections _ (sidebar_tidy toLowerCase _) section x Ex).
    unfold section_order. by rewrite Hxy.
Qed.
End sidebar.
Lemma sidebar_edits_kept_witness :
  let p := sidebar_props (fun s => s) (Some (jsq "{'chat': {'order': ['chat']}}")) None None in
  let s := sidebar_step (fun s => s) (sidebar_open p) (SMoveModule (js "chat") (js "playground") (js "chat")) in
  let updates := sidebar_save p s in
  same_sidebar (p_config (sidebar_props (fun s => s) (updated "SidebarModulesAdmin" updates (Some (jsq "{'chat': {'order': ['chat']}}"))) (updated "SidebarTaskSectionOrder" updates None) None)) (s_config s)
  ∧ section_order (default [] (map_get (js "chat") (s_config s))) = map js ["playground"; "chat"].
Proof.
  intros p s updates. split; [|vm_compute; reflexivity].
  apply (sidebar_edits_kept (fun s => s) (Some (jsq "{'chat': {'order': ['chat']}}")) None None s). apply sidebar_next; [apply sidebar_start|reflexivity].
Defined.

(** ** Settings pages *)

(** The configuration names every area and every section, once. *)
Definition tidy_area (sections : list jsstr) (a : SystemSettingsAreaConfig) : Prop :=
  ∃ l flags, a_order a = Some l ∧ l ≡ₚ sections ∧ a_sections a = Some flags ∧ flags.*1 = sections.

Record tidy_navigation (c : SystemSettingsNavigationConfig) : Prop := {
  tn_order : n_order c ≡ₚ SYSTEM_SETTINGS_AREA_ORDER_DEFAULT;
  tn_areas : Forall2 (fun d a => a.1 = d.1 ∧ tidy_area d.2 a.2) SYSTEM_SETTINGS_SECTION_ORDER_DEFAULT (n_areas c)
}.

Section settings.
Context (toLowerCase : jsstr → jsstr).

Lemma default_areas : n_areas cloneSystemSettingsNavigationDefault
  = map (fun d => (d.1, mkArea true (Some d.2) (Some (map (fun section => (section, true)) d.2)))) SYSTEM_SETTINGS_SECTION_ORDER_DEFAULT.
Proof. reflexivity. Qed.

Lemma areas_NoDup : NoDup SYSTEM_SETTINGS_SECTION_ORDER_DEFAULT.*1.
Proof. apply (bool_decide_unpack _). vm_compute. exact I. Qed.

Lemma area_order_NoDup : NoDup SYSTEM_SETTINGS_AREA_ORDER_DEFAULT.
Proof. apply (bool_decide_unpack _). vm_compute. exact I. Qed.

Lemma sections_NoDup d : d ∈ SYSTEM_SETTINGS_SECTION_ORDER_DEFAULT → NoDup d.2.
Proof.
  intros Hd. assert (H : Forall (fun d => NoDup d.2) SYSTEM_SETTINGS_SECTION_ORDER_DEFAULT) by (apply (bool_decide_unpack _); vm_compute; exact I).
  rewrite Forall_forall in H. by apply H.
Qed.

Lemma normalize_perm v items : NoDup items → normalizeStringOrder v items ≡ₚ items.
Proof. apply arrange_perm. Qed.

Lemma normalize_complete l items : NoDup items → l ≡ₚ items → normalizeStringOrder (Some (texts l)) items = l.
Proof. intros Hd Hl. unfold normalizeStringOrder. rewrite strings_texts. apply arrange_complete; [by rewrite Hl|]. intros x. by rewrite Hl. Qed.

Lemma flags_kept (flags : list (jsstr * bool)) (f : jsstr → bool) : NoDup flags.*1 → (∀ k, f k = default true (map_get k flags)) →
  map (fun section => (section, f section)) flags.*1 = flags.
Proof.
  intros Hd Hf. rewrite <- (list_fmap_id flags) at 2. rewrite <- list_fmap_compose. apply list_fmap_ext. intros i [k b] Hi.
  cbn. rewrite Hf. f_equal. rewrite (map_get_elem_of k b); [done|done|]. by eapply list_elem_of_lookup_2.
Qed.

(** Every parsed configuration is tidy. *)
Lemma parse_area_tidy rawAreas d : d ∈ SYSTEM_SETTINGS_SECTION_ORDER_DEFAULT →
  tidy_area d.2 (parse_area toLowerCase rawAreas d.1 (mkArea true (Some d.2) (Some (map (fun section => (section, true)) d.2)))).
Proof.
  intros Hd. assert (Hk : ∀ f : jsstr → bool, (map (fun section => (section, f section)) d.2).*1 = d.2).
  { intros f. rewrite <- list_fmap_compose. apply list_fmap_id. }
  unfold parse_area. cbn [a_order a_sections a_enabled default from_option Datatypes.id].
  destruct (member rawAreas d.1) as [[]|]; eexists _, _; (split; [reflexivity|]; split; [|split; [reflexivity|apply Hk]]); try done;
    apply normalize_perm; by apply sections_NoDup.
Qed.

Lemma default_tidy : tidy_navigation cloneSystemSettingsNavigationDefault.
Proof.
  split; [done|]. rewrite default_areas. apply Forall2_fmap_r, Forall_Forall2_diag, Forall_forall. intros d Hd. split; [done|].
  eexists _, _. split; [reflexivity|]. split; [done|]. split; [reflexivity|]. cbn [snd]. rewrite <- list_fmap_compose. apply list_fmap_id.
Qed.

Lemma settings_tidy value : tidy_navigation (parseSystemSettingsNavigation toLowerCase value).
Proof.
  unfold parseSystemSettingsNavigation. destruct value as [s|]; [|apply default_tidy]. destruct (_ || _); [apply default_tidy|].
  destruct (JSON_parse s) as [parsed|]; [|apply default_tidy].
  assert (H : ∀ rawAreas v, tidy_navigation (mkNavigation (normalizeStringOrder v (n_order cloneSystemSettingsNavigationDefault))
    (map (fun '(area, fallback) => (area, parse_area toLowerCase rawAreas area fallback)) (n_areas cloneSystemSettingsNavigationDefault)))).
  { intros rawAreas v. split; [apply normalize_perm, area_order_NoDup|]. cbn [n_areas]. rewrite default_areas, map_map.
    apply Forall2_fmap_r, Forall_Forall2_diag, Forall_forall. intros d Hd. split; [done|]. by apply parse_area_tidy. }
  destruct parsed; try apply H. apply default_tidy.
Qed.

(** ** Saving the settings pages *)

Lemma map_Forall2 {A B} (P : A → B → Prop) (f : A → B) ds l :
  Forall2 P ds l → (∀ d a, d ∈ ds → a ∈ l → P d a → f d = a) → map f ds = l.
Proof.
  induction 1 as [|d a ds l Hda H IH]; intros Hf; [done|]. cbn [map]. f_equal.
  - apply Hf; [apply list_elem_of_here..|done].
  - apply IH. intros d' a' Hd Ha. apply Hf; by apply list_elem_of_further.
Qed.

Lemma area_names c : tidy_navigation c → (n_areas c).*1 = SYSTEM_SETTINGS_SECTION_ORDER_DEFAULT.*1.
Proof. intros H. pose proof (tn_areas c H) as Ha. induction Ha as [|d a ds l [E _] _ IH]; [done|]. cbn [fmap list_fmap]. by f_equal. Qed.

Lemma area_get c (a : jsstr * SystemSettingsAreaConfig) : tidy_navigation c → a ∈ n_areas c → map_get a.1 (n_areas c) = Some a.2.
Proof. intros H Ha. apply map_get_elem_of; [rewrite area_names by done; apply areas_NoDup|by destruct a]. Qed.

Definition whole_area (d : jsstr * list jsstr) : SystemSettingsAreaConfig := mkArea true (Some d.2) (Some (map (fun section => (section, true)) d.2)).

Lemma serialize_area_kept c d (a : jsstr * SystemSettingsAreaConfig) : tidy_navigation c → d ∈ SYSTEM_SETTINGS_SECTION_ORDER_DEFAULT → a ∈ n_areas c →
  a.1 = d.1 → tidy_area d.2 a.2 → serialize_area toLowerCase c d.1 (whole_area d) = a.2.
Proof.
  intros H Hd Ha E (l & flags & Hl & Hp & Hf & Hk). unfold serialize_area. rewrite <- E, (area_get c a) by done.
  cbn [default from_option Datatypes.id whole_area a_order a_enabled toBoolean]. rewrite Hl, Hf. cbn [fmap option_fmap option_map mbind option_bind].
  rewrite normalize_complete by (done || by apply sections_NoDup). destruct a as [n [e o s]]. cbn [snd a_order a_sections a_enabled] in *. subst o s. do 2 f_equal.
  rewrite <- Hk. apply flags_kept; [rewrite Hk; by apply sections_NoDup|]. intros k. by destruct (map_get k flags).
Qed.

Lemma serialize_kept c : tidy_navigation c → serializeSystemSettingsNavigation toLowerCase c = JSON_stringify (navigation_json c).
Proof.
  intros H. unfold serializeSystemSettingsNavigation. f_equal. f_equal. destruct c as [order areas] eqn:Ec. f_equal.
  - apply normalize_complete; [apply area_order_NoDup|apply H].
  - rewrite default_areas, map_map. rewrite <- Ec in *. replace areas with (n_areas c) by (by rewrite Ec).
    apply (map_Forall2 _ _ _ _ (tn_areas c H)). intros d a Hd Ha [E Ht]. destruct a as [n a]. cbn [fst snd] in *. f_equal; [done|].
    by apply (serialize_area_kept c d (n, a)).
Qed.

Lemma area_json_ok order a : NoDup order → tidy_area order a → wellformed (area_json a).
Proof.
  intros Hd (l & flags & Hl & _ & Hf & Hk). unfold area_json. rewrite Hl, Hf. apply wellformed_record; [literal_keys|reflexivity|].
  repeat apply List.Forall_cons; try apply List.Forall_nil; cbn [snd fmap option_fmap option_map]; [by split|apply wellformed_texts|].
  apply (wellformed_members JBool); [by rewrite Hk|]. intros k v _. by split.
Qed.

Lemma navigation_json_ok c : tidy_navigation c → wellformed (navigation_json c).
Proof.
  intros H. apply wellformed_table; [by vm_compute..|]. repeat apply List.Forall_cons; try apply List.Forall_nil; cbn [snd]; [apply wellformed_texts|].
  apply (wellformed_members area_json); [rewrite area_names by done; apply areas_NoDup|]. intros k v Hkv.
  pose proof (tn_areas c H) as Ha. apply list_elem_of_lookup in Hkv as [i Hi]. destruct (Forall2_lookup_r _ _ _ _ _ Ha Hi) as (d & Hd & _ & Ht).
  apply (area_json_ok d.2); [|exact Ht]. apply sections_NoDup. by eapply list_elem_of_lookup_2.
Qed.

Lemma parse_area_back c d (a : jsstr * SystemSettingsAreaConfig) : tidy_navigation c → d ∈ SYSTEM_SETTINGS_SECTION_ORDER_DEFAULT → a ∈ n_areas c →
  a.1 = d.1 → tidy_area d.2 a.2 →
  parse_area toLowerCase (JObj (property_order (map (fun kv => (kv.1, area_json kv.2)) (n_areas c)))) d.1 (whole_area d) = a.2.
Proof.
  intros H Hd Ha E (l & flags & Hl & Hp & Hf & Hk). unfold parse_area. unfold member at 1. cbn [Object_entries].
  rewrite map_get_printed by (rewrite area_names by done; apply areas_NoDup). rewrite <- E, (area_get c a) by done.
  cbn [fmap option_fmap option_map]. destruct a as [n [e o s]]. cbn [snd a_order a_sections] in Hl, Hf. subst o s.
  unfold area_json. cbn [snd a_order a_sections a_enabled fmap option_fmap option_map prop_of whole_area default from_option Datatypes.id].
  rewrite !map_get_literal by reflexivity. cbn [assoc String.eqb Ascii.eqb Bool.eqb mjoin option_join object_or_empty toBoolean].
  rewrite normalize_complete by (done || by apply sections_NoDup). do 2 f_equal.
  rewrite <- Hk. apply flags_kept; [rewrite Hk; by apply sections_NoDup|]. intros k. unfold member. cbn [Object_entries].
  rewrite (map_get_printed JBool) by (rewrite Hk; by apply sections_NoDup). by destruct (map_get k flags).
Qed.

(** A tidy configuration that is saved reads back, exactly. *)
Lemma settings_saved c : tidy_navigation c → parseSystemSettingsNavigation toLowerCase (Some (serializeSystemSettingsNavigation toLowerCase c)) = c.
Proof.
  intros H. rewrite serialize_kept by done. pose proof (parse_printed _ (navigation_json_ok c H)) as Hp.
  unfold parseSystemSettingsNavigation. cbv zeta. destruct (nonempty (trim (JSON_stringify (navigation_json c)))) eqn:Et.
  2:{ rewrite JSON_parse_blank in Hp; [done|]. by destruct (trim _). }
  rewrite (proj2 (nonempty_true (JSON_stringify (navigation_json c)))) by (intros E; by rewrite E in Et). cbn [negb orb]. rewrite Hp.
  assert (Ho : prop_of (navigation_json c) "order" = Some (texts (n_order c))) by reflexivity.
  assert (Ha' : prop_of (navigation_json c) "areas" = Some (JObj (property_order (map (fun kv => (kv.1, area_json kv.2)) (n_areas c))))) by reflexivity.
  rewrite Ho, Ha'. cbn [object_or_empty]. clear Ho Ha' Hp Et.
  destruct c as [order areas] eqn:Ec. f_equal; [apply normalize_complete; [apply area_order_NoDup|apply H]|].
  rewrite default_areas, map_map. rewrite <- Ec in *. replace areas with (n_areas c) by (by rewrite Ec).
  apply (map_Forall2 _ _ _ _ (tn_areas c H)). intros d a Hd Ha [E Ht]. destruct a as [n a]. cbn [fst snd] in *. f_equal; [done|].
  by apply (parse_area_back c d (n, a)).
Qed.

(** ** A session on the settings pages *)

Lemma keys_set_present {A} (k : jsstr) (v : A) m : k ∈ m.*1 → (map_set k v m).*1 = m.*1.
Proof.
  induction m as [|[k' v'] m IH]; [by intros ?%elem_of_nil|]. cbn [fmap list_fmap fst map_set]. intros Hk. case_decide as E; [by subst|].
  cbn [fmap list_fmap fst]. f_equal. apply IH. set_solver.
Qed.

Lemma Forall2_map_set {A B} (P : jsstr * A → jsstr * B → Prop) ds l (k : jsstr) (v : B) :
  Forall2 P ds l → (∀ d a, d ∈ ds → P d (k, a) → map_get k l = Some a → P d (k, v)) → is_Some (map_get k l) → Forall2 P ds (map_set k v l).
Proof.
  induction 1 as [|d [k' a] ds l Hda H IH]; intros Hv [w Hw]; [done|]. cbn [map_set map_get] in *. case_decide as E.
  - subst k'. constructor; [|done]. apply (Hv d a); [apply list_elem_of_here|done|done].
  - constructor; [done|]. apply IH; [|by exists w]. intros d' a' Hd. apply Hv. by apply list_elem_of_further.
Qed.

Lemma tidy_set_area c area a a' : tidy_navigation c → map_get area (n_areas c) = Some a →
  (∀ d, d ∈ SYSTEM_SETTINGS_SECTION_ORDER_DEFAULT → d.1 = area → tidy_area d.2 a → tidy_area d.2 a') →
  tidy_navigation (mkNavigation (n_order c) (map_set area a' (n_areas c))).
Proof.
  intros H Ha Ht. split; [apply H|]. cbn [n_areas]. apply Forall2_map_set; [apply H| |by eexists]. intros d b Hd [E Hb] Hg. cbn [fst snd] in *.
  split; [done|]. apply Ht; [done|done|]. congruence.
Qed.

Lemma default_sections d : d ∈ SYSTEM_SETTINGS_SECTION_ORDER_DEFAULT → default [] (map_get d.1 SYSTEM_SETTINGS_SECTION_ORDER_DEFAULT) = d.2.
Proof. intros Hd. rewrite (map_get_elem_of d.1 d.2); [done|apply areas_NoDup|by destruct d]. Qed.

Lemma section_order_perm c d : d ∈ SYSTEM_SETTINGS_SECTION_ORDER_DEFAULT → getSystemSettingsSectionOrder c d.1 ≡ₚ d.2.
Proof. intros Hd. unfold getSystemSettingsSectionOrder. rewrite default_sections by done. by apply normalize_perm, sections_NoDup. Qed.

Lemma area_order_perm c : tidy_navigation c → getSystemSettingsAreaOrder c ≡ₚ SYSTEM_SETTINGS_AREA_ORDER_DEFAULT.
Proof.
  intros H. unfold getSystemSettingsAreaOrder. change (map fst (n_areas c)) with ((n_areas c).*1). rewrite area_names by done.
  rewrite normalize_perm by apply areas_NoDup. by vm_compute.
Qed.

Lemma move_item_perm item up l : move_item item up l ≡ₚ l.
Proof.
  unfold move_item. destruct (position item l) as [i|]; [|done]. destruct up; [destruct i; [done|apply swap_at_perm]|].
  destruct (_ <? _)%nat; [apply swap_at_perm|done].
Qed.

(** The switches the page shows. *)
Definition settings_offered (s : SettingsEditor) (e : settings_event) : bool :=
  match e with
  | NSection area section _ => set_has area (getSystemSettingsAreaOrder (n_values s)) && set_has section (getSystemSettingsSectionOrder (n_values s) area)
  | _ => true
  end.

Inductive settings_session (config : SystemSettingsNavigationConfig) : SettingsEditor → Prop :=
| settings_start : settings_session config (settings_open config)
| settings_next s e : settings_session config s → settings_offered s e = true → settings_session config (settings_step toLowerCase s e).

Lemma settings_step_inv s e : tidy_navigation (n_values s) → settings_offered s e = true → tidy_navigation (n_values (settings_step toLowerCase s e)).
Proof.
  intros H He. destruct e as [area on|area section on|area up|area section up| | |e]; cbn [settings_step n_values].
  - unfold set_area_enabled. destruct (map_get area _) as [a|] eqn:E; [|done]. apply (tidy_set_area _ _ a); [done|done|].
    intros d _ _ (l & flags & Hl & Hp & Hf & Hk). by exists l, flags.
  - cbn [settings_offered] in He. apply andb_true_iff in He as [_ Hs%set_has_spec].
    unfold set_section_enabled. destruct (map_get area _) as [a|] eqn:E; [|done]. apply (tidy_set_area _ _ a); [done|done|].
    intros d Hd Ed (l & flags & Hl & Hp & Hf & Hk). subst area. rewrite section_order_perm in Hs by done.
    exists l, (map_set section on flags). cbn [a_order a_sections]. rewrite Hf. split; [done|]. split; [done|]. split; [done|].
    by rewrite keys_set_present; rewrite Hk.
  - unfold moveArea. destruct (position area _); [|done]. destruct (if up then _ else _); [done|]. split; [|apply H]. cbn [n_order].
    rewrite move_item_perm. by apply area_order_perm.
  - unfold moveSettingsSection. destruct (position section _); [|done]. destruct (if up then _ else _); [done|]. unfold set_area_order.
    destruct (map_get area _) as [a|] eqn:E; [|done]. apply (tidy_set_area _ _ a); [done|done|].
    intros d Hd Ed (l & flags & Hl & Hp & Hf & Hk). subst area. eexists _, flags. split; [reflexivity|]. split; [|done].
    rewrite move_item_perm. by apply section_order_perm.
  - apply settings_tidy.
  - unfold settings_import. destruct (JSON_parse _) as [[]|]; try done; apply settings_tidy.
  - done.
Qed.

(** C33: the editor of the settings pages keeps what is edited. Open it on any stored
    text, use its switches, arrows, reset and import in any order, save and open it
    again: every area and section, and both orders, are exactly those of the editor;
    and the text that is sent is the same whenever nothing has changed. *)
Theorem settings_edits_kept stored s :
  let config := parseSystemSettingsNavigation toLowerCase stored in
  let initial := serializeSystemSettingsNavigation toLowerCase config in
  settings_session config s →
  parseSystemSettingsNavigation toLowerCase (updated "SystemSettingsNavigation" (settings_submit toLowerCase initial s) stored) = n_values s
  ∧ (settings_submit toLowerCase initial s = [] ↔ n_values s = config).
Proof.
  intros config initial Hs. assert (H : tidy_navigation (n_values s)).
  { induction Hs as [|s e _ IH He]; [apply settings_tidy|by apply settings_step_inv]. }
  assert (H0 : tidy_navigation config) by apply settings_tidy.
  assert (Hinj : serializeSystemSettingsNavigation toLowerCase (n_values s) = initial → n_values s = config).
  { intros E. rewrite <- (settings_saved _ H), E. by apply settings_saved. }
  unfold settings_submit. case_bool_decide as E; cbn [updated map_get].
  - split; [|by split; [intros _; apply Hinj|]]. unfold updated. cbn [map_get]. symmetry. by apply Hinj.
  - unfold updated. cbn [map_get]. rewrite decide_True by done. split; [by apply settings_saved|]. split; [done|]. intros Ec. by rewrite Ec in E.
Qed.
End settings.

Lemma settings_edits_kept_witness :
  let config := parseSystemSettingsNavigation (fun s => s) (Some (jsq "{'order': ['content']}")) in
  let s := settings_step (fun s => s) (settings_open config) (NMoveSection (js "site") (js "notice") true) in
  parseSystemSettingsNavigation (fun s => s) (updated "SystemSettingsNavigation" (settings_submit (fun s => s) (serializeSystemSettingsNavigation (fun s => s) config) s)
    (Some (jsq "{'order': ['content']}"))) = n_values s
  ∧ getSystemSettingsSectionOrder (n_values s) (js "site") = map js ["notice"; "system-info"].
Proof.
  intros config s. split; [|vm_compute; reflexivity].
  apply (settings_edits_kept (fun s => s) (Some (jsq "{'order': ['content']}")) s). apply settings_next; [apply settings_start|reflexivity].
Defined.

(** ** Header *)

Section header.
Context (toLowerCase : jsstr → jsstr).

Lemma indexOf_lookup (x : jsstr) l i : position x l = Some i → l !! i = Some x.
Proof.
  unfold position. revert i. induction l as [|y l IH]; intros i; [done|]. cbn [indexOf]. case_decide as E; [intros [= <-]; by subst|].
  destruct (indexOf x l <? 0)%Z eqn:Ei; [done|]. destruct (indexOf x l + 1 <? 0)%Z eqn:Ej; [done|]. intros [= <-].
  replace (Z.to_nat (indexOf x l + 1)) with (S (Z.to_nat (indexOf x l))) by lia. by apply IH.
Qed.

Definition complete_order (l : list jsstr) : Prop := l ≡ₚ HEADER_NAV_ORDER_DEFAULT.

Lemma header_order_NoDup : NoDup HEADER_NAV_ORDER_DEFAULT.
Proof. apply (bool_decide_unpack _). vm_compute. exact I. Qed.

Lemma normalize_header_perm v : complete_order (normalizeHeaderNavOrder v).
Proof. apply arrange_perm, header_order_NoDup. Qed.

Lemma normalize_header_id l : complete_order l → normalizeHeaderNavOrder (Some (texts l)) = l.
Proof. apply normalize_complete, header_order_NoDup. Qed.

Lemma move_header_perm k up l : complete_order (moveHeaderModule k up l).
Proof.
  unfold moveHeaderModule. pose proof (normalize_header_perm (Some (texts l))) as H. set (next := normalizeHeaderNavOrder _) in *.
  destruct (position k next) as [i|] eqn:E; [|done]. apply indexOf_lookup in E. destruct (if up then _ else _) as [j|]; [|done].
  unfold complete_order in *. rewrite <- H. rewrite <- Permutation_middle, take_drop. symmetry. by apply delete_Permutation.
Qed.

Inductive header_session (p : HeaderProps) : HeaderEditor → Prop :=
| header_start : header_session p (header_open p)
| header_next s e : header_session p s → header_session p (header_step toLowerCase s e).

Lemma header_session_order p s : header_session p s → complete_order (headerOrder s).
Proof.
  induction 1 as [|s e _ IH]; [apply normalize_header_perm|]. destruct e; cbn [header_step headerOrder]; try done.
  - apply move_header_perm.
  - apply normalize_header_perm.
  - unfold header_import. destruct (JSON_parse _) as [[]|]; try done; apply normalize_header_perm.
Qed.

(** The members of what is saved. *)
Lemma header_payload_get p order v k :
  map_get k (buildPayload p order v)
  = if decide (k = js "rankings") then Some (HAccess (mkAccess (rankingsEnabled v) (rankingsRequireAuth v)))
    else if decide (k = js "pricing") then Some (HAccess (mkAccess (pricingEnabled v) (pricingRequireAuth v)))
    else if decide (k = js "about") then Some (HBool (about v)) else if decide (k = js "docs") then Some (HBool (docs v))
    else if decide (k = js "console") then Some (HBool (console v)) else if decide (k = js "home") then Some (HBool (home v))
    else if decide (k = js "order") then Some (HOrder (normalizeHeaderNavOrder (Some (texts order)))) else map_get k (h_config p).
Proof. unfold buildPayload. repeat (case_decide as E; [subst k; apply map_get_set_eq|rewrite map_get_set_ne by done; clear E]). done. Qed.

Lemma payload_tidy p order v : tidy_header (h_config p) → tidy_header (buildPayload p order v).
Proof.
  intros H. split.
  - unfold buildPayload. repeat apply NoDup_keys_map_set. apply H.
  - exists (normalizeHeaderNavOrder (Some (texts order))). split; [by rewrite header_payload_get|]. apply arrange_idem.
  - rewrite header_payload_get. by eexists.
  - rewrite header_payload_get. by eexists.
  - intros k w Hk. rewrite header_payload_get. repeat (case_decide as E; [subst k; first [by exfalso; apply Hk; set_solver | by intros [= <-]; eexists]|clear E]).
    by apply (th_others _ H).
  - intros k Hk. rewrite header_payload_get. repeat (case_decide; [by eexists|]). by apply (th_base _ H).
  - rewrite header_payload_get. apply H.
Qed.

(** C32: the editor of the header keeps what is edited, for the site too. Open it on any
    stored text, edit, move, reset and import in any order, save and open it again: the
    form has the same switches and rules of access, the link of the documents without
    the blanks around it, and the same order. When a text of the modules is sent, the
    public pages read from it just what the form said. *)
Theorem header_edits_kept stored link s updates :
  let p := header_props toLowerCase stored link in
  header_session p s → header_submit p s = Some updates →
  let v := h_values s in
  let reopened := header_open (header_props toLowerCase (updated "HeaderNavModules" updates stored) (updated "general_setting.docs_link" updates link)) in
  headerOrder reopened = headerOrder s
  ∧ (∃ text, docsLink v = JStr text
     ∧ h_values reopened = mkValues (home v) (console v) (pricingEnabled v) (pricingRequireAuth v) (rankingsEnabled v) (rankingsRequireAuth v)
                             (docs v) (JStr (trim text)) (about v))
  ∧ ∀ text, map_get (js "HeaderNavModules") updates = Some text →
      ∀ k, k ∈ js "order" :: HEADER_NAV_ORDER_DEFAULT →
        map_get k (NavModules.parseHeaderNavModules toLowerCase (Some (JStr text))) = map_get k (buildPayload p (headerOrder s) v).
Proof.
  intros p Hs Hu v reopened. pose proof (header_session_order p s Hs) as Ho. assert (Hp : tidy_header (h_config p)) by apply header_tidy.
  set (payload := buildPayload p (headerOrder s) v) in *. assert (Ht : tidy_header payload) by (by apply payload_tidy).
  unfold header_submit in Hu. fold v in Hu. fold payload in Hu. destruct (docsLink v) as [| | |text| |] eqn:El; try done. injection Hu as <-.
  unfold reopened. match goal with |- context [header_open ?x] => set (p' := x) end.
  assert (Hc : ∀ k, map_get k (h_config p') = map_get k payload).
  { intros k. unfold p', header_props. cbn [h_config]. rewrite updated_first by done. case_bool_decide as E; [|by apply saved_header_back].
    rewrite <- (saved_header_back toLowerCase payload k) by done. rewrite E. symmetry. by apply saved_header_back. }
  split; [|split].
  - unfold header_open. cbn [headerOrder]. unfold header_order. rewrite Hc. unfold payload. rewrite header_payload_get.
    transitivity (normalizeHeaderNavOrder (Some (texts (normalizeHeaderNavOrder (Some (texts (headerOrder s))))))); [reflexivity|].
    by rewrite !(normalize_header_id (headerOrder s)).
  - exists text. split; [done|]. unfold header_open, toFormValues. cbn [h_values]. unfold header_flag, access_of.
    rewrite !Hc. unfold payload. rewrite !header_payload_get. f_equal. f_equal. unfold p', header_props. cbn [h_docsLink]. rewrite updated_second by done.
    case_bool_decide as E; [by rewrite E|done].
  - intros sent Hsent k Hk. match type of Hsent with map_get _ ?u = _ => assert (E : updated "HeaderNavModules" u None = Some sent) by (unfold updated; by rewrite Hsent) end.
    rewrite updated_first in E by done. case_bool_decide; [done|]. injection E as <-. by apply saved_read_by_site.
Qed.
End header.

Lemma header_edits_kept_witness :
  let p := header_props (fun s => s) (Some (jsq "{'docs': '0', 'pricing': {'requireAuth': 1}}")) (Some (js "https://d")) in
  let s := header_step (fun s => s) (header_open p) (HMove (js "docs") true) in
  let updates := default [] (header_submit p s) in
  headerOrder (header_open (header_props (fun s => s) (updated "HeaderNavModules" updates (Some (jsq "{'docs': '0', 'pricing': {'requireAuth': 1}}")))
    (updated "general_setting.docs_link" updates (Some (js "https://d"))))) = headerOrder s
  ∧ headerOrder s = map js ["home"; "console"; "pricing"; "docs"; "rankings"; "about"].
Proof.
  intros p s updates. split; [|vm_compute; reflexivity].
  apply (header_edits_kept (fun s => s) (Some (jsq "{'docs': '0', 'pricing': {'requireAuth': 1}}")) (Some (js "https://d")) s updates); [|vm_compute; reflexivity].
  apply header_next, header_start.
Defined.
End NavEdits.

(** * The settings pages in the sidebar

    The groups that replace the root entries inside the settings pages
    (src/web/default/src/components/layout/config/system-settings.config.ts), for any
    stored text: which pages have a link, and in which order. *)

Import NavObjects NavFold NavOrder NavHeader NavSections NavVisible NavEdits.

Module NavPages.
Import NavConfig NavSidebar.

(** The address of a page. *)
Definition page_url (area section : jsstr) : jsstr := js "/system-settings/" ++ area ++ js "/" ++ section.

(** The pages an area has. *)
Definition pages (area : jsstr) : list jsstr := map (fun s => js s.1) (settings_sections area).

Definition page_parts : bool :=
  forallb (fun area => forallb (fun section => bool_decide (last_part (page_url area section) = Some section)) (pages area)) SYSTEM_SETTINGS_AREA_ORDER_DEFAULT.

Lemma page_part area section : area ∈ SYSTEM_SETTINGS_AREA_ORDER_DEFAULT → section ∈ pages area → last_part (page_url area section) = Some section.
Proof.
  intros Ha%list_elem_of_In Hs%list_elem_of_In. assert (H : page_parts = true) by (vm_compute; reflexivity). unfold page_parts in H.
  rewrite forallb_forall in H. specialize (H area Ha). rewrite forallb_forall in H. specialize (H section Hs). by apply bool_decide_eq_true in H.
Qed.

Section pages.
Context (toLowerCase t : jsstr → jsstr).

(** The place of a page in the configured order; pages it does not name come last. *)
Definition place (order : list jsstr) (section : jsstr) : Z := let i := indexOf section order in if (i <? 0)%Z then MAX_SAFE_INTEGER else i.

(** The addresses of the links of an entry. *)
Definition entry_urls (items : list NavItem) : list jsstr := omap url_of (items ≫= links).

Lemma nav_item_urls area : map snd (getSectionNavItems t area) = map (page_url area) (pages area).
Proof. unfold getSectionNavItems, pages. rewrite !map_map. apply map_ext. by intros [i ti]. Qed.

Lemma links_urls (subs : list (BaseNavItem * jsstr)) : omap url_of (map sub_item subs) = map snd subs.
Proof. induction subs as [|[b u] l IH]; [done|]. cbn. by rewrite IH. Qed.

Lemma pages_items area : area ∈ SYSTEM_SETTINGS_AREA_ORDER_DEFAULT → map (fun x => default [] (last_part x.2)) (getSectionNavItems t area) = pages area.
Proof.
  intros Ha. unfold getSectionNavItems. rewrite map_map. unfold pages. apply map_ext_in. intros [i ti] Hi. cbn [snd].
  change (js "/system-settings/" ++ area ++ js "/" ++ js i) with (page_url area (js i)). rewrite page_part; [done|done|].
  apply list_elem_of_In, in_map_iff. by exists (i, ti).
Qed.

Lemma StronglySorted_map {A B} (f : A → B) (R : A → A → Prop) (R' : B → B → Prop) l :
  (∀ x y, R x y → R' (f x) (f y)) → StronglySorted R l → StronglySorted R' (map f l).
Proof.
  intros H. induction 1 as [|x l Hl IH Hx]; cbn [map]; constructor; [done|]. apply Forall_forall. intros y (z & -> & Hz)%list_elem_of_fmap.
  rewrite Forall_forall in Hx. by apply H, Hx.
Qed.

(** The links of an area. *)
Lemma area_urls c area a : area ∈ SYSTEM_SETTINGS_AREA_ORDER_DEFAULT → map_get area (n_areas c) = Some a → a_enabled a = true →
  ∃ shown, entry_urls (area_entry t c area) = map (page_url area) shown
    ∧ shown ≡ₚ List.filter (fun section => default true (map_get section (default [] (a_sections a)))) (pages area)
    ∧ StronglySorted (fun x y => place (getSystemSettingsSectionOrder c area) x ≤ place (getSystemSettingsSectionOrder c area) y)%Z shown.
Proof.
  intros Ha Hg He. unfold area_entry. rewrite Hg, He. cbn [negb].
  assert (Ht : is_Some (map_get area area_titles)).
  { assert (H : Forall (fun area => is_Some (map_get area area_titles)) SYSTEM_SETTINGS_AREA_ORDER_DEFAULT) by (apply (bool_decide_unpack _); vm_compute; exact I).
    rewrite Forall_forall in H. by apply H. }
  destruct Ht as [title ->]. set (order := getSystemSettingsSectionOrder c area). set (flags := default [] (a_sections a)).
  set (cmp := fun x y : BaseNavItem * jsstr => _ : Z). set (kept := List.filter _ (getSectionNavItems t area)).
  assert (Hitems : entry_urls (if nonempty (sort_by cmp kept) then [mkItem (mkBase None (t title) None false None None None None) (NavCollapsible (sort_by cmp kept))] else [])
            = map snd (sort_by cmp kept)).
  { destruct (sort_by cmp kept) as [|x l] eqn:E; [done|]. cbn [nonempty]. rewrite <- E. unfold entry_urls. cbn [links kind mbind list_bind].
    rewrite app_nil_r. apply links_urls. }
  rewrite Hitems. clear Hitems.
  assert (Hpart : ∀ x, x ∈ getSectionNavItems t area → ∃ section, section ∈ pages area ∧ x.2 = page_url area section ∧ last_part x.2 = Some section).
  { intros x Hx. assert (Hu : x.2 ∈ map snd (getSectionNavItems t area)) by (apply list_elem_of_fmap; by exists x). rewrite nav_item_urls in Hu.
    apply list_elem_of_fmap in Hu as (section & Eu & Hs). exists section. split; [done|]. split; [done|]. rewrite Eu. by apply page_part. }
  exists (map (fun x => default [] (last_part x.2)) (sort_by cmp kept)). split; [|split].
  - rewrite map_map. apply map_ext_in. intros x Hx%list_elem_of_In. rewrite elem_of_sort_by in Hx. apply elem_of_List_filter in Hx as [Hx _].
    destruct (Hpart x Hx) as (section & _ & Eu & El). rewrite El. exact Eu.
  - rewrite sort_by_perm. unfold kept. rewrite <- (pages_items area Ha), filter_map_swap. erewrite List.filter_ext_in; [reflexivity|].
    intros x Hx%list_elem_of_In. destruct (Hpart x Hx) as (section & _ & _ & El). by rewrite El.
  - apply (StronglySorted_map _ (cmp_le cmp)); [intros x y; unfold cmp_le, cmp, place; lia|]. apply sort_by_sorted. split; unfold cmp_le, cmp; lia.
Qed.

(** inside the settings pages the sidebar follows the stored settings. For every
    text, malformed ones included, its entries are the areas in the stored order; an
    area that is switched off has none; one that is on links to exactly those of its
    pages whose switch is not off, each once and in the stored order, with the pages the
    settings do not name after the others. *)
Theorem settings_view stored :
  let c := parseSystemSettingsNavigation toLowerCase stored in
  concat (map g_items (getSystemSettingsNavGroups toLowerCase t stored)) = n_order c ≫= area_entry t c
  ∧ n_order c ≡ₚ SYSTEM_SETTINGS_AREA_ORDER_DEFAULT
  ∧ ∀ area a, map_get area (n_areas c) = Some a →
      if a_enabled a
      then ∃ shown, entry_urls (area_entry t c area) = map (page_url area) shown
             ∧ shown ≡ₚ List.filter (fun section => default true (map_get section (default [] (a_sections a)))) (pages area)
             ∧ StronglySorted (fun x y => place (default [] (a_order a)) x ≤ place (default [] (a_order a)) y)%Z shown
      else area_entry t c area = [].
Proof.
  intros c. assert (H : tidy_navigation c) by apply settings_tidy. split; [|split; [apply H|]].
  - unfold getSystemSettingsNavGroups. cbn [map concat g_items]. fold c. rewrite app_nil_r. f_equal. unfold getSystemSettingsAreaOrder.
    change (map fst (n_areas c)) with ((n_areas c).*1). rewrite area_names by done. apply normalize_complete; [apply areas_NoDup|].
    rewrite (tn_order c H). reflexivity.
  - intros area a Hg. destruct (a_enabled a) eqn:He; [|unfold area_entry; by rewrite Hg, He; destruct (map_get area area_titles)].
    pose proof (map_get_Some _ _ _ Hg) as Hin. apply list_elem_of_lookup in Hin as [i Hi].
    destruct (Forall2_lookup_r _ _ _ _ _ (tn_areas c H) Hi) as (d & Hd & E & (l & flags & Hl & Hp & _)). cbn [fst snd] in *. apply list_elem_of_lookup_2 in Hd.
    assert (Ha : area ∈ SYSTEM_SETTINGS_AREA_ORDER_DEFAULT).
    { subst area. change SYSTEM_SETTINGS_AREA_ORDER_DEFAULT with (SYSTEM_SETTINGS_SECTION_ORDER_DEFAULT.*1). apply list_elem_of_fmap. by exists d. }
    destruct (area_urls c area a Ha Hg He) as (shown & H1 & H2 & H3). exists shown. split; [done|]. split; [done|].
    replace (getSystemSettingsSectionOrder c area) with (default [] (a_order a)) in H3; [done|].
    unfold getSystemSettingsSectionOrder. rewrite Hg, Hl. cbn [mbind option_bind fmap option_fmap option_map default from_option Datatypes.id].
    symmetry. rewrite E. fold (default [] (map_get d.1 SYSTEM_SETTINGS_SECTION_ORDER_DEFAULT)). rewrite default_sections by done.
    rewrite ?Hl. cbn [fmap option_fmap option_map default from_option Datatypes.id]. apply normalize_complete; [by apply sections_NoDup|done].
Qed.

(** The page of the endpoint defaults is none of the pages the settings name: no stored
    text can take its link away from an area that is on. *)
Lemma endpoint_defaults_stay stored a :
  map_get (js "operations") (n_areas (parseSystemSettingsNavigation toLowerCase stored)) = Some a → a_enabled a = true →
  page_url (js "operations") (js "model-endpoint-defaults") ∈ entry_urls (area_entry t (parseSystemSettingsNavigation toLowerCase stored) (js "operations")).
Proof.
  intros Hg He. set (c := parseSystemSettingsNavigation toLowerCase stored) in *. assert (H : tidy_navigation c) by apply settings_tidy.
  destruct (area_urls c (js "operations") a) as (shown & E & Hs & _); [|done|done|].
  { apply (bool_decide_unpack _). vm_compute. exact I. }
  rewrite E. apply list_elem_of_fmap. exists (js "model-endpoint-defaults"). split; [done|]. rewrite Hs. apply elem_of_List_filter. split.
  - apply (bool_decide_unpack _). vm_compute. exact I.
  - pose proof (map_get_Some _ _ _ Hg) as Hin. apply list_elem_of_lookup in Hin as [i Hi].
    destruct (Forall2_lookup_r _ _ _ _ _ (tn_areas c H) Hi) as (d & Hd & Ed & (l & flags & _ & _ & Hf & Hk)). cbn [fst snd] in *. rewrite Hf.
    cbn [default from_option Datatypes.id]. rewrite (proj2 (map_get_None _ flags)); [done|]. rewrite Hk. apply list_elem_of_lookup_2 in Hd.
    rewrite <- (default_sections d) by done. rewrite <- Ed. apply (bool_decide_unpack _). vm_compute. exact I.
Qed.
End pages.

Lemma settings_view_witness :
  let stored := Some (jsq "{'order': ['auth', 'site'], 'areas': {'site': {'order': ['notice']}, 'auth': {'enabled': 'false'}}}") in
  let c := parseSystemSettingsNavigation (fun s => s) stored in
  take 2 (n_order c) = map js ["auth"; "site"]
  ∧ area_entry (fun s => s) c (js "auth") = []
  ∧ ∃ shown, entry_urls (area_entry (fun s => s) c (js "site")) = map (page_url (js "site")) shown ∧ shown ≡ₚ map js ["notice"; "system-info"].
Proof.
  intros stored c. destruct (settings_view (fun s => s) (fun s => s) stored) as (_ & _ & H). split; [vm_compute; reflexivity|]. split.
  - exact (H (js "auth") _ eq_refl).
  - destruct (H (js "site") _ eq_refl) as (shown & E & Hs & _). exists shown. split; [done|]. rewrite Hs.
    change (map js ["notice"; "system-info"]) with (reverse (map js ["system-info"; "notice"])). rewrite reverse_Permutation.
    vm_compute. reflexivity.
Defined.
End NavPages.
