(* ===== verification/Account.v ===== *)
(** * Accounts and requests

    Who is signed in (src/web/default/src/stores/auth-store.ts), the HTTP client every
    page uses (src/web/default/src/lib/api.ts), the cache of queries that is emptied when the
    account changes (lib/account-query-cache.ts), the other tabs (main.tsx) and the clean-up of
    the storage at the start (lib/frontend-cache.ts). A request lives through several
    turns of the event loop; each turn is an event here, and events come in any order. *)

From S2P Require Import Prelude JsNum Json NumText JsValue Playground PlaygroundStorage.
From Stdlib Require Import Floats.SpecFloat.
Import PlaygroundStorage.

Module Account.
Open Scope js_scope.

(** ** The user (stores/auth-store.ts) *)

Definition USER : jsstr := js "user".
Definition UID : jsstr := js "uid".

(** [state.auth]; the user is a JSON value, [null] is [None]. *)
Record Auth := mkAuth { auth_user : option json; sessionVersion : N }.

(** [a === b]; two objects are never the same one. *)
Definition same_value (a b : option json) : bool :=
  match a, b with
  | None, None => true
  | Some JNull, Some JNull => true
  | Some (JBool x), Some (JBool y) => Bool.eqb x y
  | Some (JNum x), Some (JNum y) => num_eqb x y
  | Some (JStr x), Some (JStr y) => bool_decide (x = y)
  | _, _ => false
  end.

(** [user?.id]. *)
Definition id_of (u : option json) : option json := prop_opt u "id".

(** [String(user.id)]. *)
Definition id_text (u : json) : jsstr := match prop_of u "id" with Some v => to_text v | None => js "undefined" end.

(** The user the storage holds when the page starts. The store is not created when
    the storage can be neither read nor cleaned: the [catch] throws again. *)
Definition initUser (s : Storage) : res (option json * Storage) :=
  let dirty := match removeItem s USER with Ok s' => Ok (None, s') | Throw e => Throw e end in
  match getItem s USER with
  | Ok (Some saved) =>
      if nonempty saved then match JSON_parse saved with Some JNull => Ok (None, s) | Some v => Ok (Some v, s) | None => dirty end
      else Ok (None, s)
  | Ok None => Ok (None, s)
  | Throw _ => dirty
  end.

(** What [setUser] writes; a failure leaves what was written before it. *)
Definition persistUser (u : option json) (s : Storage) : Storage :=
  match u with
  | Some v =>
      match setItem s USER (JSON_stringify v) with
      | Ok s1 => try_storage s1 (setItem s1 UID (id_text v))
      | Throw _ => s
      end
  | None =>
      match removeItem s USER with Ok s1 => try_storage s1 (removeItem s1 UID) | Throw _ => s end
  end.

(** [setUser] on the state; a change of the account is a new session. *)
Definition changed_user (u : option json) (a : Auth) : Auth :=
  mkAuth u (sessionVersion a + (if same_value (id_of (auth_user a)) (id_of u) then 0 else 1))%N.

(** [reset] on the state. *)
Definition reset_user (a : Auth) : Auth := mkAuth None (sessionVersion a + 1)%N.

(** ** The start of the page (lib/frontend-cache.ts) *)

Definition FRONTEND_CACHE_VERSION : jsstr := js "default-v1".
Definition FRONTEND_CACHE_VERSION_KEY : jsstr := js "newapi:default:cache-version".
Definition PRESERVED_LOCAL_STORAGE_KEYS : list jsstr := [FRONTEND_CACHE_VERSION_KEY; USER; UID; js "aff"; js "oauth:binding:result"].

(** [keys.forEach(removeItem)], and whether it went through; what was removed before a
    failure stays removed. *)
Fixpoint remove_each (s : Storage) (keys : list jsstr) : Storage * bool :=
  match keys with
  | [] => (s, true)
  | key :: rest => match removeItem s key with Ok s' => remove_each s' rest | Throw _ => (s, false) end
  end.

Definition removed_key (key : jsstr) : bool := nonempty key && negb (set_has key PRESERVED_LOCAL_STORAGE_KEYS).

(** The keys are collected first. *)
Definition clearLocalUiCache (s : Storage) : Storage * bool := remove_each s (List.filter removed_key (map fst (items s))).

Definition initializeFrontendCache (s : Storage) : Storage :=
  match getItem s FRONTEND_CACHE_VERSION_KEY with
  | Throw _ => s
  | Ok currentVersion =>
      if bool_decide (currentVersion = Some FRONTEND_CACHE_VERSION) then s
      else let '(s1, done) := clearLocalUiCache s in
           if done then try_storage s1 (setItem s1 FRONTEND_CACHE_VERSION_KEY FRONTEND_CACHE_VERSION) else s1
  end.

(** ** The client (lib/api.ts) *)

(** [getUserId]. *)
Definition getUserId (s : Storage) : option jsstr := match getItem s UID with Ok v => v | Throw _ => None end.

Definition account_scope (version : N) (uid : option jsstr) : jsstr := print_N version ++ js ":" ++ default [] uid.

Definition getAccountScope (a : Auth) (s : Storage) : jsstr := account_scope (sessionVersion a) (getUserId s).

(** The header [New-Api-User]. *)
Definition user_header (s : Storage) : option jsstr :=
  match getUserId s with Some uid => if nonempty uid then Some uid else None | None => None end.

Definition getCommonHeaders (s : Storage) : list (jsstr * jsstr) :=
  (js "Content-Type", js "application/json") :: match user_header s with Some uid => [(js "New-Api-User", uid)] | None => [] end.

Inductive timeout_class := interactive | background | export | upload.

Definition timeoutByClass (c : timeout_class) : Z :=
  match c with interactive => 30000 | background => 60000 | export => 120000 | upload => 300000 end%Z.

Record Config := mkConfig {
  c_params : option json; c_signal : bool; c_disableDuplicate : bool; c_skipBusinessError : bool; c_skipErrorHandler : bool;
  c_timeout : option Z; c_timeoutClass : option timeout_class
}.

(** A given timeout is kept, also when it is [0]. *)
Definition resolve_timeout (c : Config) : Z :=
  match c_timeout c with Some t => t | None => timeoutByClass (default interactive (c_timeoutClass c)) end.

(** How the promise of a request ends. *)
Inductive outcome := Resolved (data : json) | Rejected (status : option Z) | Cancelled.

(** A request: called, sent by the interceptor, settled by the answer; the callers see
    the outcome a turn later. *)
Inductive phase := Called | Sent | Settled (o : outcome) | Seen (o : outcome).

Record ApiCall := mkCall {
  r_url : jsstr; r_config : Config; accountScope : option jsstr; r_shared : option jsstr; r_user : option jsstr; r_timeout : Z; r_phase : phase
}.

(** What the network gives: an answer, or an error with the answer it may carry. *)
Record ApiFailure := mkFailure { f_canceled : bool; f_response : option (Z * json); f_message : jsstr }.

(** ** The cache of queries (lib/account-query-cache.ts)

    The library of queries is outside: [start] begins a query and gives the object that
    stands for it, [resolve] stores what its function returned, here the answer of a
    request with the request's number. *)

Class QueryLib := {
  Queries : Type;
  query : Type;
  no_queries : Queries;
  start : jsstr → Queries → query * Queries;
  resolve : query → nat * json → Queries → Queries;
  clear : Queries → Queries;
  query_data : Queries → jsstr → option (nat * json)
}.

(** What the library documents: a cleared cache is empty, and a query that was cleared
    stores nothing any more. *)
Class QueryLaws (L : QueryLib) := {
  live : query → Queries → Prop;
  issued : query → Queries → Prop;
  data_none : ∀ k, query_data no_queries k = None;
  issued_none : ∀ h, ¬ issued h no_queries;
  data_clear : ∀ q k, query_data (clear q) k = None;
  live_clear : ∀ h q, ¬ live h (clear q);
  issued_clear : ∀ h q, issued h (clear q) ↔ issued h q;
  data_start : ∀ k q k', query_data (start k q).2 k' = query_data q k';
  start_new : ∀ k q, ¬ issued (start k q).1 q;
  live_start : ∀ k q h, live h (start k q).2 → live h q ∨ h = (start k q).1;
  issued_start : ∀ k q h, issued h (start k q).2 ↔ issued h q ∨ h = (start k q).1;
  data_resolve : ∀ h d q k d', query_data (resolve h d q) k = Some d' → query_data q k = Some d' ∨ live h q ∧ d' = d;
  live_resolve : ∀ h d q h', live h' (resolve h d q) → live h' q;
  issued_resolve : ∀ h d q h', issued h' (resolve h d q) ↔ issued h' q
}.

Section client.
Context `{L : QueryLib} (localizeApiMessage : jsstr → jsstr) (t : jsstr → jsstr).

Record Client := mkClient {
  auth : Auth; storage : Storage; inFlightGet : list (jsstr * nat); calls : list ApiCall; toasts : list (nat * json); notified : list nat;
  shields : nat; queries : Queries; waiting : list (query * nat)
}.

Definition with_calls (c : Client) (l : list ApiCall) : Client :=
  mkClient (auth c) (storage c) (inFlightGet c) l (toasts c) (notified c) (shields c) (queries c) (waiting c).
Definition with_toast_of (i : nat) (message : json) (c : Client) : Client :=
  mkClient (auth c) (storage c) (inFlightGet c) (calls c) (toasts c ++ [(i, message)]) (notified c) (shields c) (queries c) (waiting c).

Definition scope_of (c : Client) : jsstr := getAccountScope (auth c) (storage c).

Definition set_phase (i : nat) (p : phase) (c : Client) : Client :=
  match calls c !! i with
  | Some r => with_calls c (<[i := mkCall (r_url r) (r_config r) (accountScope r) (r_shared r) (r_user r) (r_timeout r) p]> (calls c))
  | None => c
  end.

(** ** Accounts *)

(** [set(...)] of the store, and its subscriber, which compares the sessions. *)
Definition set_auth (a : Auth) (s : Storage) (c : Client) : Client :=
  mkClient a s (inFlightGet c) (calls c) (toasts c) (notified c) (shields c)
    (if (sessionVersion a =? sessionVersion (auth c))%N then queries c else clear (queries c)) (waiting c).

Definition setUser (u : option json) (c : Client) : Client := set_auth (changed_user u (auth c)) (persistUser u (storage c)) c.

Definition reset (c : Client) : Client := set_auth (reset_user (auth c)) (persistUser None (storage c)) c.

(** The client of a page that starts on a storage. *)
Definition boot (s : Storage) : res Client :=
  match initUser s with
  | Ok (u, s1) => Ok (mkClient (mkAuth u 0) (initializeFrontendCache s1) [] [] [] [] 0 no_queries [])
  | Throw e => Throw e
  end.

(** ** Requests *)

(** [axios.get] and the other methods: the request waits for the interceptor. *)
Definition originalRequest (url : jsstr) (config : Config) (scope shared : option jsstr) (c : Client) : nat * Client :=
  (length (calls c), with_calls c (calls c ++ [mkCall url config scope shared None 0 Called])).

(** The key under which a [GET] is shared. *)
Definition share_key (scope url : jsstr) (config : Config) : jsstr :=
  scope ++ js ":" ++ url ++ js "?" ++ (if truthy (c_params config) then match c_params config with Some v => JSON_stringify v | None => [] end else js "{}").

(** [api.get]: the number of the request whose promise is returned. *)
Definition get (url : jsstr) (config : Config) (c : Client) : nat * Client :=
  let scope := scope_of c in
  if c_disableDuplicate config || c_signal config then originalRequest url config (Some scope) None c
  else let key := share_key scope url config in
       match map_get key (inFlightGet c) with
       | Some i => (i, c)
       | None =>
           let '(i, c) := originalRequest url config (Some scope) (Some key) c in
           (i, mkClient (auth c) (storage c) (map_set key i (inFlightGet c)) (calls c) (toasts c) (notified c) (shields c) (queries c) (waiting c))
       end.

(** The request interceptor: a request of an earlier account is not sent. *)
Definition intercept (i : nat) (c : Client) : Client :=
  match calls c !! i with
  | Some r =>
      match r_phase r with
      | Called =>
          let scope := scope_of c in
          if match accountScope r with Some s => negb (bool_decide (s = scope)) | None => false end
          then set_phase i (Settled Cancelled) c
          else with_calls c (<[i := mkCall (r_url r) (r_config r) (Some scope) (r_shared r) (user_header (storage c)) (resolve_timeout (r_config r)) Sent]> (calls c))
      | _ => c
      end
  | None => c
  end.

(** [data.message = localizeApiMessage(data.message)]. *)
Definition localized (data : json) : json :=
  match data with
  | JObj m => match map_get (js "message") m with Some (JStr s) => JObj (map_set (js "message") (JStr (localizeApiMessage s)) m) | _ => data end
  | _ => data
  end.

(** The response interceptor on an answer. *)
Definition respond (i : nat) (data : json) (c : Client) : Client :=
  match calls c !! i with
  | Some r =>
      match r_phase r with
      | Sent =>
          if negb (bool_decide (accountScope r = Some (scope_of c))) then set_phase i (Settled Cancelled) c
          else
            let data := localized data in
            let c := if negb (c_skipBusinessError (r_config r)) && is_false (prop_of data "success")
                     then with_toast_of i (orv (prop_of data "message") (JStr (t (js "Request failed")))) c else c in
            set_phase i (Settled (Resolved data)) c
      | _ => c
      end
  | None => c
  end.

(** [claimErrorNotification] of the error of a request. *)
Definition claim (i : nat) (message : json) (c : Client) : Client :=
  if set_has i (notified c) then c
  else mkClient (auth c) (storage c) (inFlightGet c) (calls c) (toasts c ++ [(i, message)]) (set_add (notified c) i) (shields c) (queries c) (waiting c).

(** The response interceptor on an error. *)
Definition failed (i : nat) (e : ApiFailure) (c : Client) : Client :=
  match calls c !! i with
  | Some r =>
      match r_phase r with
      | Sent =>
          if f_canceled e then set_phase i (Settled Cancelled) c
          else if match accountScope r with Some s => negb (bool_decide (s = scope_of c)) | None => false end
          then set_phase i (Settled Cancelled) c
          else
            let status := fst <$> f_response e in
            let data := snd <$> f_response e in
            if same_value (prop_opt data "code") (Some (JStr (js "snow_shield_required")))
            then set_phase i (Settled (Rejected status))
                   (mkClient (auth c) (storage c) (inFlightGet c) (calls c) (toasts c) (notified c) (S (shields c)) (queries c) (waiting c))
            else
              let message := prop_opt (localized <$> data) "message" in
              let skip := c_skipErrorHandler (r_config r) in
              let c :=
                if bool_decide (status = Some 401%Z)
                then let c := reset c in if skip then c else claim i (JStr (t (js "Session expired!"))) c
                else if skip then c else claim i (orv message (orv (Some (JStr (f_message e))) (JStr (t (js "Request failed"))))) c in
              set_phase i (Settled (Rejected status)) c
      | _ => c
      end
  | None => c
  end.

(** The callers see the outcome: the promise of a shared request is first removed from
    the map, and a query that waits for an answer stores it. *)
Definition deliver (i : nat) (c : Client) : Client :=
  match calls c !! i with
  | Some r =>
      match r_phase r with
      | Settled o =>
          let inFlight := match r_shared r with
                          | Some key => obj_delete key (inFlightGet c)
                          | None => inFlightGet c
                          end in
          let queries' := match o with
                          | Resolved data => foldl (fun q w => if bool_decide (w.2 = i) then resolve w.1 (i, data) q else q) (queries c) (waiting c)
                          | _ => queries c
                          end in
          set_phase i (Seen o) (mkClient (auth c) (storage c) inFlight (calls c) (toasts c) (notified c) (shields c) queries' (waiting c))
      | _ => c
      end
  | None => c
  end.

(** A query whose function is a [GET]. *)
Definition fetch (key url : jsstr) (config : Config) (c : Client) : Client :=
  let '(h, queries') := start key (queries c) in
  let '(i, c) := get url config c in
  mkClient (auth c) (storage c) (inFlightGet c) (calls c) (toasts c) (notified c) (shields c) queries' (waiting c ++ [(h, i)]).

(** ** Other tabs (main.tsx) *)

(** The listener of the event [storage]: another account reloads the page. *)
Definition storage_event (key : option jsstr) (c : Client) : res Client :=
  if match key with Some k => negb (bool_decide (k = USER)) | None => false end then Ok c
  else
    let nextId := match getItem (storage c) USER with
                  | Ok (Some saved) => if nonempty saved then v ← JSON_parse saved; prop_of v "id" else None
                  | _ => None
                  end in
    if same_value nextId (id_of (auth_user (auth c))) then Ok c else boot (storage c).

(** ** Events *)

Inductive event :=
| SetUser (u : json)
| SignOut
| Reset
| Get (url : jsstr) (config : Config)
| Send (url : jsstr) (config : Config)
| Fetch (key url : jsstr) (config : Config)
| Intercept (i : nat)
| Respond (i : nat) (data : json)
| Failed (i : nat) (e : ApiFailure)
| Deliver (i : nat).

(** One turn of this tab. *)
Definition client_step (c : Client) (e : event) : Client :=
  match e with
  | SetUser u => setUser (Some u) c
  | SignOut => setUser None c
  | Reset => reset c
  | Get url config => (get url config c).2
  | Send url config => (originalRequest url config None None c).2
  | Fetch key url config => fetch key url config c
  | Intercept i => intercept i c
  | Respond i data => respond i data c
  | Failed i e => failed i e c
  | Deliver i => deliver i c
  end.

Definition client_run (c : Client) (l : list event) : Client := foldl client_step c l.

(** The storage as another tab leaves it. *)
Definition other_tab (m : list (jsstr * jsstr)) (c : Client) : Client :=
  mkClient (auth c) (with_items (storage c) m) (inFlightGet c) (calls c) (toasts c) (notified c) (shields c) (queries c) (waiting c).

End client.
End Account.

(** * Accounts and requests: isolation and sharing

    Whatever the order of events, what an account was answered stays with it: the cache
    holds answers of the present session only, a late answer or error of an earlier
    account changes nothing, and concurrent equal requests are one request. *)

Import PlaygroundStorage Account.

Module AccountLaws.
Open Scope js_scope.

(** ** Scopes *)

Lemma digits_then (a a' b b' : jsstr) : Forall (fun c => is_digit c = true) a → Forall (fun c => is_digit c = true) a' →
  a ++ 58%N :: b = a' ++ 58%N :: b' → a = a' ∧ b = b'.
Proof.
  intros Ha. revert a'. induction Ha as [|x a Hx Ha IH]; intros a' Ha' E; destruct Ha' as [|y a' Hy Ha'].
  - by injection E.
  - injection E as <- _. discriminate Hy.
  - injection E as -> _. discriminate Hx.
  - injection E as <- E. by destruct (IH _ Ha' E) as [-> ->].
Qed.

(** The session is the text before the first colon. *)
Lemma scope_inj v v' rest rest' : print_N v ++ js ":" ++ rest = print_N v' ++ js ":" ++ rest' → v = v' ∧ rest = rest'.
Proof.
  intros E. destruct (digits_then _ _ _ _ (proj1 (proj2 (print_N_spec v))) (proj1 (proj2 (print_N_spec v'))) E) as [E1 E2].
  split; [|done]. rewrite <- (proj1 (print_N_spec v)), <- (proj1 (print_N_spec v')). by rewrite E1.
Qed.

Lemma account_scope_inj v v' u u' : account_scope v u = account_scope v' u' → v = v' ∧ default [] u = default [] u'.
Proof. apply scope_inj. Qed.

Lemma share_key_scope v u url config v' u' url' config' :
  share_key (account_scope v u) url config = share_key (account_scope v' u') url' config' → v = v'.
Proof. unfold share_key, account_scope. rewrite <- !app_assoc. intros E. by destruct (scope_inj _ _ _ _ E). Qed.

(** The header that goes with the identifier in the storage. *)
Definition uid_header (uid : jsstr) : option jsstr := if nonempty uid then Some uid else None.

Lemma user_header_text s : user_header s = uid_header (default [] (getUserId s)).
Proof. unfold user_header. by destruct (getUserId s) as [[|]|]. Qed.

(** ** Keys *)

Definition params_text (config : Config) : jsstr :=
  if truthy (c_params config) then match c_params config with Some v => JSON_stringify v | None => [] end else js "{}".

Definition plain_uid (u : option jsstr) : bool := forallb (fun c => negb (c =? 58)%N) (default [] u).
Definition plain_url (url : jsstr) : bool := negb (includes (js "?{") url).
Definition plain_params (config : Config) : bool := match c_params config with None | Some (JObj _) => true | _ => false end.

Lemma params_brace config : plain_params config = true → ∃ rest, params_text config = 123%N :: rest.
Proof.
  unfold plain_params, params_text. destruct (c_params config) as [v|]; [|by eexists]. destruct v; try done. intros _. cbn [truthy].
  unfold JSON_stringify. cbn [stringify]. unfold print_seq. destruct (map _ _); by eexists.
Qed.

Lemma brace_inj a b x y : includes (js "?{") a = false → includes (js "?{") b = false → a ++ 63%N :: 123%N :: x = b ++ 63%N :: 123%N :: y → a = b ∧ x = y.
Proof.
  assert (Hhead : ∀ l x y, includes (js "?{") l = false → 63%N :: 123%N :: x = l ++ 63%N :: 123%N :: y → l = [] ∧ x = y).
  { intros [|c [|d l]] x' y' Hl E; cbn [app] in E; simplify_eq; first [done|discriminate Hl]. }
  revert b. induction a as [|c a IH]; intros b Ha Hb E.
  - destruct (Hhead b x y Hb E) as [-> ->]. done.
  - destruct b as [|d b].
    + destruct (Hhead (c :: a) y x Ha (eq_sym E)) as [[=] _].
    + injection E as <- E. cbn [includes] in Ha, Hb. apply orb_false_iff in Ha as [_ Ha], Hb as [_ Hb]. by destruct (IH b Ha Hb E) as [-> ->].
Qed.

Lemma colon_inj u u' x x' : plain_uid (Some u) = true → plain_uid (Some u') = true → u ++ 58%N :: x = u' ++ 58%N :: x' → u = u' ∧ x = x'.
Proof.
  unfold plain_uid. cbn [default from_option Datatypes.id]. revert u'. induction u as [|c u IH]; intros [|c' u'] Hu Hu' E; simplify_eq/=; try done.
  apply andb_true_iff in Hu as [_ Hu], Hu' as [_ Hu']. match goal with E : u ++ _ = _ |- _ => by destruct (IH u' Hu Hu' E) as [-> ->] end.
Qed.

(** A shared key says the session, the user, the address and the parameters. *)
Lemma share_key_inj v v' u u' url url' config config' :
  plain_uid u = true → plain_uid u' = true → plain_url url = true → plain_url url' = true → plain_params config = true → plain_params config' = true →
  share_key (account_scope v u) url config = share_key (account_scope v' u') url' config'
  ↔ v = v' ∧ default [] u = default [] u' ∧ url = url' ∧ params_text config = params_text config'.
Proof.
  intros Hu Hu' Hl%negb_true_iff Hl'%negb_true_iff Hc Hc'. unfold share_key. fold (params_text config) (params_text config'). split.
  - unfold account_scope. rewrite <- !app_assoc. intros E. apply scope_inj in E as [-> E]. split; [done|].
    change (js ":" ++ url ++ js "?" ++ params_text config) with (58%N :: url ++ js "?" ++ params_text config) in E.
    change (js ":" ++ url' ++ js "?" ++ params_text config') with (58%N :: url' ++ js "?" ++ params_text config') in E.
    apply colon_inj in E as [-> E]; [|by destruct u|by destruct u']. split; [done|].
    destruct (params_brace config Hc) as [x Hx], (params_brace config' Hc') as [x' Hx']. rewrite Hx, Hx' in E |- *.
    apply (brace_inj url url' x x' Hl Hl') in E as [-> ->]. done.
  - intros (-> & Eu & -> & ->). unfold account_scope. by rewrite Eu.
Qed.

Section laws.
Context {L : QueryLib} {QL : QueryLaws L} (localizeApiMessage : jsstr → jsstr) (t : jsstr → jsstr).

(** ** The invariant *)

(** The request was sent, and was not cancelled. *)
Definition carries (p : phase) : bool :=
  match p with Sent | Settled (Resolved _) | Seen (Resolved _) => true | _ => false end.

Definition seen (p : phase) : bool := match p with Seen _ => true | _ => false end.

Definition sent_in (v : N) (r : ApiCall) : Prop := ∃ u, accountScope r = Some (account_scope v u).

(** The requests: a scope is one of a session up to the present one; a request that was
    sent carried the user of its scope. *)
Definition call_ok (v : N) (r : ApiCall) : Prop :=
  (∀ s, accountScope r = Some s → ∃ v' u, s = account_scope v' u ∧ (v' <= v)%N)
  ∧ (carries (r_phase r) = true → ∃ v' u, accountScope r = Some (account_scope v' u) ∧ r_user r = uid_header (default [] u))
  ∧ (∀ key, r_shared r = Some key → ∃ s, accountScope r = Some s ∧ key = share_key s (r_url r) (r_config r)).

Record scoped (c : Client) : Prop := {
  sc_calls : ∀ i r, calls c !! i = Some r → call_ok (sessionVersion (auth c)) r;
  sc_waiting : ∀ h i, (h, i) ∈ waiting c → issued h (queries c)
    ∧ ∃ r, calls c !! i = Some r ∧ (live h (queries c) → sent_in (sessionVersion (auth c)) r);
  sc_flight : ∀ key i, map_get key (inFlightGet c) = Some i → ∃ r, calls c !! i = Some r ∧ r_shared r = Some key ∧ seen (r_phase r) = false;
  sc_shared : ∀ i r key, calls c !! i = Some r → r_shared r = Some key → seen (r_phase r) = false → map_get key (inFlightGet c) = Some i;
  sc_cache : ∀ k i d, query_data (queries c) k = Some (i, d) → ∃ r, calls c !! i = Some r ∧ r_phase r = Seen (Resolved d)
    ∧ sent_in (sessionVersion (auth c)) r
}.

(** What happens to a request: its scope is set once. *)
Record evolves (r r' : ApiCall) : Prop := {
  ev_url : r_url r' = r_url r;
  ev_config : r_config r' = r_config r;
  ev_shared : r_shared r' = r_shared r;
  ev_scope : ∀ s, accountScope r = Some s → accountScope r' = Some s;
  ev_seen : seen (r_phase r') = seen (r_phase r) ∧ seen (r_phase r) = false
}.

Lemma sent_in_evolves v r r' : evolves r r' → sent_in v r → sent_in v r'.
Proof. intros H [u Hu]. exists u. by apply (ev_scope _ _ H). Qed.

(** The states that agree on what the invariant reads. *)
Definition agrees (c c' : Client) : Prop :=
  sessionVersion (auth c') = sessionVersion (auth c) ∧ inFlightGet c' = inFlightGet c ∧ queries c' = queries c ∧ waiting c' = waiting c.

Lemma scoped_agrees c c' : scoped c → agrees c c' → calls c' = calls c → scoped c'.
Proof. intros [] (E1 & E2 & E3 & E4) E5. split; rewrite ?E1, ?E2, ?E3, ?E4, ?E5; done. Qed.

Lemma scoped_update c c' i r r' : scoped c → agrees c c' → calls c !! i = Some r → calls c' = <[i:=r']> (calls c) →
  evolves r r' → call_ok (sessionVersion (auth c)) r' → scoped c'.
Proof.
  intros H (Ev & Ef & Eq & Ew) Hi Ec He Hr. assert (Hlt : i < length (calls c)) by (by eapply lookup_lt_Some).
  split; rewrite ?Ev, ?Ef, ?Eq, ?Ew, ?Ec.
  - intros j s [(<- & <- & _)|[_ Hj]]%list_lookup_insert_Some; [done|by apply (sc_calls c H j)].
  - intros h j Hw. destruct (sc_waiting c H h j Hw) as (Hq & s & Hs & Hl). split; [done|]. destruct (decide (i = j)) as [<-|Hne].
    + exists r'. rewrite list_lookup_insert_eq by done. split; [done|]. intros Hh. apply (sent_in_evolves _ r); [done|]. rewrite Hs in Hi. injection Hi as <-. by apply Hl.
    + exists s. by rewrite list_lookup_insert_ne by done.
  - intros key j Hk. destruct (sc_flight c H key j Hk) as (s & Hs & Hsh & Hse). destruct (decide (i = j)) as [<-|Hne].
    + exists r'. rewrite list_lookup_insert_eq by done. rewrite Hs in Hi. injection Hi as <-. destruct (ev_seen _ _ He) as [-> ->]. by rewrite (ev_shared _ _ He).
    + exists s. by rewrite list_lookup_insert_ne by done.
  - intros j s key [(<- & <- & _)|[_ Hj]]%list_lookup_insert_Some Hsh Hse; [|by apply (sc_shared c H j s key)].
    apply (sc_shared c H i r key Hi); [by rewrite <- (ev_shared _ _ He)|apply (ev_seen _ _ He)].
  - intros k j d Hk. destruct (sc_cache c H k j d Hk) as (s & Hs & Hp & Hv). destruct (decide (i = j)) as [<-|Hne].
    + exfalso. rewrite Hs in Hi. injection Hi as <-. destruct (ev_seen _ _ He) as [_ E]. rewrite Hp in E. discriminate E.
    + exists s. by rewrite list_lookup_insert_ne by done.
Qed.

(** ** The operations *)

Notation set_phase := (set_phase (L := L)).

Lemma set_phase_calls i p c r : calls c !! i = Some r →
  calls (set_phase i p c) = <[i := mkCall (r_url r) (r_config r) (accountScope r) (r_shared r) (r_user r) (r_timeout r) p]> (calls c).
Proof. intros H. unfold Account.set_phase. by rewrite H. Qed.

Lemma set_phase_agrees i p c : agrees c (set_phase i p c).
Proof. unfold Account.set_phase. by destruct (calls c !! i). Qed.

(** A request that has not been seen moves on without being seen. *)
Lemma set_phase_scoped i p c r : scoped c → calls c !! i = Some r → seen (r_phase r) = false → seen p = false →
  (carries p = true → carries (r_phase r) = true) → scoped (set_phase i p c).
Proof.
  intros H Hi Hs Hp Hc. eapply (scoped_update c _ i r); [done|apply set_phase_agrees|done|by apply set_phase_calls| |].
  - split; try done. cbn [r_phase]. by rewrite Hp.
  - destruct (sc_calls c H i r Hi) as (H1 & H2 & H3). split; [done|]. split; [|done]. cbn [r_phase accountScope r_user]. intros E. by apply H2, Hc.
Qed.

Lemma set_auth_scoped a s c : scoped c → (sessionVersion (auth c) <= sessionVersion a)%N → scoped (set_auth a s c).
Proof.
  intros H Hle. unfold set_auth. destruct (N.eqb_spec (sessionVersion a) (sessionVersion (auth c))) as [E|Hne].
  - eapply scoped_agrees; [exact H|by split|done].
  - split; cbn [auth inFlightGet calls queries waiting]; [| |apply H|apply H|by intros k i d; rewrite data_clear].
    + intros i r Hi. destruct (sc_calls c H i r Hi) as (H1 & H2). split; [|done]. intros u Hu. destruct (H1 u Hu) as (v & w & Ew & Hv).
      exists v, w. split; [done|lia].
    + intros h i Hw. destruct (sc_waiting c H h i Hw) as (Hq & r & Hr & _). rewrite issued_clear. split; [done|]. exists r. split; [done|].
      intros Hl. by apply live_clear in Hl.
Qed.

Lemma setUser_scoped u c : scoped c → scoped (setUser u c).
Proof. intros H. apply set_auth_scoped; [done|]. cbn [changed_user sessionVersion]. lia. Qed.

Lemma reset_scoped c : scoped c → scoped (reset c).
Proof. intros H. apply set_auth_scoped; [done|]. cbn [reset_user sessionVersion]. lia. Qed.

Lemma scope_ok c : ∃ v u, scope_of c = account_scope v u ∧ (v <= sessionVersion (auth c))%N.
Proof. exists (sessionVersion (auth c)), (getUserId (storage c)). split; [done|lia]. Qed.

Lemma lookup_snoc {A} (l : list A) x i y : (l ++ [x]) !! i = Some y ↔ l !! i = Some y ∨ i = length l ∧ y = x.
Proof.
  rewrite lookup_app_Some. split; (intros [?|[H E]]; [by left|right]).
  - apply list_lookup_singleton_Some in E as [E ->]. split; [lia|done].
  - subst. split; [lia|]. by rewrite Nat.sub_diag.
Qed.

Lemma lookup_snoc_l {A} (l : list A) x i y : l !! i = Some y → (l ++ [x]) !! i = Some y.
Proof. intros H. apply lookup_snoc. by left. Qed.

(** A new request; a shared one is entered in the map. *)
Lemma added_scoped c c' r : scoped c → calls c' = calls c ++ [r] → auth c' = auth c → queries c' = queries c → waiting c' = waiting c →
  call_ok (sessionVersion (auth c)) r → r_phase r = Called →
  inFlightGet c' = match r_shared r with Some key => map_set key (length (calls c)) (inFlightGet c) | None => inFlightGet c end →
  match r_shared r with Some key => map_get key (inFlightGet c) = None | None => True end → scoped c'.
Proof.
  intros H Ec Ea Eq Ew Hr Hp Ef Hn. split; rewrite ?Ea, ?Eq, ?Ew, ?Ec.
  - intros i s [Hi|[_ ->]]%lookup_snoc; [by apply (sc_calls c H i)|done].
  - intros h i Hw. destruct (sc_waiting c H h i Hw) as (Hq & s & Hs & Hl). split; [done|]. exists s. split; [by apply lookup_snoc_l|done].
  - intros key i. rewrite Ef. assert (Hold : map_get key (inFlightGet c) = Some i → ∃ s, (calls c ++ [r]) !! i = Some s ∧ r_shared s = Some key ∧ seen (r_phase s) = false).
    { intros Hk. destruct (sc_flight c H key i Hk) as (s & Hs & Hrest). exists s. split; [by apply lookup_snoc_l|done]. }
    destruct (r_shared r) as [key'|] eqn:E; [|done]. destruct (decide (key = key')) as [->|Hne].
    + rewrite map_get_set_eq. intros [= <-]. exists r. rewrite Hp, E. split; [|done]. apply lookup_snoc. by right.
    + rewrite map_get_set_ne by done. done.
  - intros i s key Hi Hsh Hse. rewrite Ef. apply lookup_snoc in Hi as [Hi|[-> ->]].
    + pose proof (sc_shared c H i s key Hi Hsh Hse) as Hk. destruct (r_shared r) as [key'|]; [|done].
      rewrite map_get_set_ne; [done|]. intros ->. congruence.
    + rewrite Hsh. by rewrite map_get_set_eq.
  - intros k i d Hk. destruct (sc_cache c H k i d Hk) as (s & Hs & Hrest). exists s. split; [by apply lookup_snoc_l|done].
Qed.


Lemma new_call_ok c url config scope shared : (∀ s, scope = Some s → s = scope_of c) →
  (∀ key, shared = Some key → ∃ s, scope = Some s ∧ key = share_key s url config) →
  call_ok (sessionVersion (auth c)) (mkCall url config scope shared None 0 Called).
Proof.
  intros Hs Hk. split; [|split; [done|exact Hk]]. cbn [accountScope]. intros s E. rewrite (Hs s E). apply scope_ok.
Qed.

(** [api.get] returns a request of the present session. *)
Lemma get_scoped url config c : scoped c → let '(i, c') := get url config c in
  scoped c' ∧ auth c' = auth c ∧ queries c' = queries c ∧ waiting c' = waiting c
  ∧ ∃ r, calls c' !! i = Some r ∧ sent_in (sessionVersion (auth c)) r.
Proof.
  intros H. unfold get, originalRequest. assert (Hnew : ∀ r, (calls c ++ [r]) !! length (calls c) = Some r) by (intros r; apply lookup_snoc; by right).
  destruct (c_disableDuplicate config || c_signal config).
  - split; [|repeat split; eexists; split; [apply Hnew|by eexists]].
    apply (added_scoped c _ (mkCall url config (Some (scope_of c)) None None 0 Called)); try done. apply new_call_ok; [congruence|done].
  - destruct (map_get (share_key (scope_of c) url config) (inFlightGet c)) as [i|] eqn:E.
    + split; [done|]. repeat split. destruct (sc_flight c H _ i E) as (r & Hr & Hs & _). exists r. split; [done|].
      destruct (sc_calls c H i r Hr) as (H1 & _ & H3). destruct (H3 _ Hs) as (s & Es & Ek). destruct (H1 s Es) as (v & u & -> & _).
      exists u. rewrite Es. apply share_key_scope in Ek as <-. done.
    + split; [|repeat split; eexists; split; [apply Hnew|by eexists]].
      apply (added_scoped c _ (mkCall url config (Some (scope_of c)) (Some (share_key (scope_of c) url config)) None 0 Called)); try done.
      apply new_call_ok; [congruence|]. intros key [= <-]. by eexists.
Qed.

Lemma request_scoped url config c : scoped c → scoped (originalRequest url config None None c).2.
Proof. intros H. apply (added_scoped c _ (mkCall url config None None None 0 Called)); first [done | by apply new_call_ok]. Qed.

Lemma intercept_scoped i c : scoped c → scoped (intercept i c).
Proof.
  intros H. unfold intercept. destruct (calls c !! i) as [r|] eqn:Hi; [|done]. destruct (r_phase r) eqn:Hp; try done.
  destruct (match accountScope r with Some s => negb (bool_decide (s = scope_of c)) | None => false end) eqn:E.
  - apply (set_phase_scoped i _ c r); [done|done|by rewrite Hp|done|done].
  - eapply (scoped_update c _ i r); [done|by repeat split|done|done| |].
    + split; try done; cbn [accountScope r_phase]; [|by rewrite Hp]. intros s Es. rewrite Es in E. apply negb_false_iff, bool_decide_eq_true in E. by subst s.
    + split; [|split]; cbn [accountScope r_phase r_user r_shared r_url r_config].
      * intros s [= <-]. apply scope_ok.
      * intros _. exists (sessionVersion (auth c)), (getUserId (storage c)). split; [done|]. apply user_header_text.
      * intros key Hk. destruct (sc_calls c H i r Hi) as (_ & _ & H3). destruct (H3 key Hk) as (s & Es & ->). rewrite Es in E.
        apply negb_false_iff, bool_decide_eq_true in E. subst s. by eexists.
Qed.

Lemma toast_agrees i m c : agrees c (with_toast_of i m c) ∧ calls (with_toast_of i m c) = calls c.
Proof. by repeat split. Qed.

Lemma claim_agrees i m c : agrees c (claim i m c) ∧ calls (claim i m c) = calls c.
Proof. unfold claim. destruct (set_has i (notified c)); by repeat split. Qed.

Lemma respond_scoped i data c : scoped c → scoped (respond localizeApiMessage t i data c).
Proof.
  intros H. unfold respond. destruct (calls c !! i) as [r|] eqn:Hi; [|done]. destruct (r_phase r) eqn:Hp; try done.
  destruct (negb _); [apply (set_phase_scoped i _ c r); [done|done|by rewrite Hp|done|done]|].
  match goal with |- scoped (set_phase i _ ?c') => set (c1 := c') end.
  assert (Hc1 : scoped c1 ∧ calls c1 = calls c). { subst c1. destruct (_ && _); [|done]. split; [by eapply scoped_agrees; [exact H|apply toast_agrees|]|done]. }
  apply (set_phase_scoped i _ c1 r); [apply Hc1|by rewrite (proj2 Hc1)|by rewrite Hp|done|by rewrite Hp].
Qed.

Lemma failed_scoped i e c : scoped c → scoped (failed localizeApiMessage t i e c).
Proof.
  intros H. unfold failed. destruct (calls c !! i) as [r|] eqn:Hi; [|done]. destruct (r_phase r) eqn:Hp; try done.
  assert (Hset : ∀ o c', scoped c' → calls c' = calls c → carries (Settled o) = false → scoped (set_phase i (Settled o) c')).
  { intros o c' Hc' Ec' Ho. apply (set_phase_scoped i _ c' r); [done|by rewrite Ec'|by rewrite Hp|done|by rewrite Ho]. }
  destruct (f_canceled e); [by apply Hset|]. destruct (match accountScope r with Some _ => _ | None => _ end); [by apply Hset|].
  destruct (same_value _ _); [apply Hset; [eapply scoped_agrees; [exact H|by repeat split|done]|done|done]|].
  assert (Hclaim : ∀ m c', scoped c' → calls c' = calls c → scoped (claim i m c') ∧ calls (claim i m c') = calls c).
  { intros m c' Hc' Ec'. destruct (claim_agrees i m c') as [Ha E]. split; [by eapply scoped_agrees|by rewrite E]. }
  destruct (bool_decide _); destruct (c_skipErrorHandler _).
  - apply Hset; [by apply reset_scoped|done|done].
  - destruct (Hclaim (JStr (t (js "Session expired!"))) (reset c)) as [H1 H2]; [by apply reset_scoped|done|]. by apply Hset.
  - by apply Hset.
  - match goal with |- scoped (set_phase i _ (claim i ?m c)) => destruct (Hclaim m c) as [H1 H2]; [done|done|] end. by apply Hset.
Qed.

(** The queries that wait for a request store its answer, unless they were cleared. *)
Lemma resolve_waiting i data l q :
  let q' := foldl (fun q w => if bool_decide (w.2 = i) then resolve w.1 (i, data) q else q) q l in
  (∀ h, live h q' → live h q) ∧ (∀ h, issued h q' ↔ issued h q)
  ∧ ∀ k d, query_data q' k = Some d → query_data q k = Some d ∨ d = (i, data) ∧ ∃ h, (h, i) ∈ l ∧ live h q.
Proof.
  revert q. induction l as [|[h j] l IH]; intros q; [by repeat split; try done; left|]. cbn [foldl snd fst].
  destruct (bool_decide_reflect (j = i)) as [->|Hne].
  - destruct (IH (resolve h (i, data) q)) as (H1 & H2 & H3). split; [|split].
    + intros h' Hh. eapply live_resolve. by apply H1.
    + intros h'. rewrite H2. apply issued_resolve.
    + intros k d Hk. destruct (H3 k d Hk) as [Hd|(-> & h' & Hin & Hl)].
      * apply data_resolve in Hd as [?|[Hl ->]]; [by left|]. right. split; [done|]. exists h. split; [by left|done].
      * right. split; [done|]. exists h'. split; [by right|by eapply live_resolve].
  - destruct (IH q) as (H1 & H2 & H3). split; [done|]. split; [done|]. intros k d Hk. destruct (H3 k d Hk) as [?|(-> & h' & Hin & Hl)]; [by left|].
    right. split; [done|]. exists h'. split; [by right|done].
Qed.

Lemma deliver_scoped i c : scoped c → scoped (deliver i c).
Proof.
  intros H. unfold deliver. destruct (calls c !! i) as [r|] eqn:Hi; [|done]. destruct (r_phase r) as [| |o|] eqn:Hp; try done.
  match goal with |- scoped (set_phase i (Seen o) ?c') => set (c1 := c') end.
  assert (Hseen : seen (r_phase r) = false) by by rewrite Hp.
  assert (Hlt : i < length (calls c)) by (by eapply lookup_lt_Some).
  set (q' := match o with Resolved _ => _ | _ => queries c end) in c1.
  assert (Hq : (∀ h, live h q' → live h (queries c)) ∧ (∀ h, issued h q' ↔ issued h (queries c))
    ∧ ∀ k d, query_data q' k = Some d → query_data (queries c) k = Some d ∨ ∃ data, o = Resolved data ∧ d = (i, data) ∧ ∃ h, (h, i) ∈ waiting c ∧ live h (queries c)).
  { subst q'. destruct o as [data| |]; [|by repeat split; try done; left|by repeat split; try done; left].
    destruct (resolve_waiting i data (waiting c) (queries c)) as (H1 & H2 & H3). split; [done|]. split; [done|].
    intros k d Hk. destruct (H3 k d Hk) as [?|[-> ?]]; [by left|]. right. by exists data. }
  destruct Hq as (Hl & His & Hd).
  set (r' := mkCall (r_url r) (r_config r) (accountScope r) (r_shared r) (r_user r) (r_timeout r) (Seen o)).
  assert (Ec : calls (set_phase i (Seen o) c1) = <[i:=r']> (calls c)) by (by apply (set_phase_calls i (Seen o) c1 r)).
  destruct (set_phase_agrees i (Seen o) c1) as (Ev & Ef & Eq & Ew).
  assert (Hcall : ∀ j s, calls c !! j = Some s → ∃ s', <[i:=r']> (calls c) !! j = Some s' ∧ accountScope s' = accountScope s ∧ (j ≠ i → s' = s)).
  { intros j s Hj. destruct (decide (i = j)) as [<-|Hne]; [exists r'; rewrite list_lookup_insert_eq by done; by simplify_eq|].
    exists s. by rewrite list_lookup_insert_ne by done. }
  split; rewrite ?Ev, ?Ef, ?Eq, ?Ew, ?Ec; cbn [c1 auth inFlightGet queries waiting].
  - intros j s [(<- & <- & _)|[_ Hj]]%list_lookup_insert_Some; [|by apply (sc_calls c H j)].
    destruct (sc_calls c H i r Hi) as (H1 & H2 & H3). split; [done|]. split; [|done]. rewrite Hp in H2. by destruct o.
  - intros h j Hw. destruct (sc_waiting c H h j Hw) as (Hq & s & Hs & Hv). rewrite His. split; [done|].
    destruct (Hcall j s Hs) as (s' & Hs' & Ea & _). exists s'. split; [done|]. intros Hlive. destruct (Hv (Hl h Hlive)) as [u Hu]. exists u. by rewrite Ea.
  - intros key j Hk. assert (Hk' : map_get key (inFlightGet c) = Some j ∧ j ≠ i).
    { destruct (r_shared r) as [key'|] eqn:Esh.
      - rewrite map_get_obj_delete in Hk. case_decide; [done|]. split; [done|]. intros ->. destruct (sc_flight c H key i Hk) as (s & Hs & Esh' & _).
        rewrite Hi in Hs. injection Hs as <-. congruence.
      - split; [done|]. intros ->. destruct (sc_flight c H key i Hk) as (s & Hs & Esh' & _). rewrite Hi in Hs. injection Hs as <-. congruence. }
    destruct Hk' as [Hk' Hne]. destruct (sc_flight c H key j Hk') as (s & Hs & Hrest). exists s. by rewrite list_lookup_insert_ne by done.
  - intros j s key [(<- & <- & _)|[Hne Hj]]%list_lookup_insert_Some Hsh Hse; [done|]. pose proof (sc_shared c H j s key Hj Hsh Hse) as Hk.
    destruct (r_shared r) as [key'|] eqn:Esh; [|done]. rewrite map_get_obj_delete. case_decide as E; [|done]. subst key'.
    pose proof (sc_shared c H i r key Hi Esh Hseen). congruence.
  - intros k j d Hk. destruct (Hd k (j, d) Hk) as [Hk'|(data & -> & [= -> ->] & h & Hw & Hlive)].
    + destruct (sc_cache c H k j d Hk') as (s & Hs & Hps & Hv). exists s. destruct (decide (i = j)) as [<-|Hne].
      * rewrite Hi in Hs. injection Hs as <-. congruence.
      * by rewrite list_lookup_insert_ne by done.
    + exists r'. rewrite list_lookup_insert_eq by done. split; [done|]. split; [done|].
      destruct (sc_waiting c H h i Hw) as (_ & s & Hs & Hv). rewrite Hi in Hs. injection Hs as <-. by apply Hv.
Qed.

Lemma fetch_scoped key url config c : scoped c → scoped (fetch key url config c).
Proof.
  intros H. unfold fetch. destruct (start key (queries c)) as [h q'] eqn:Es. pose proof (get_scoped url config c H) as Hg.
  destruct (get url config c) as [i c'] eqn:Eg. destruct Hg as (H' & Ea & Eq & Ew & r & Hr & Hv).
  assert (E1 : h = (start key (queries c)).1) by by rewrite Es. assert (E2 : q' = (start key (queries c)).2) by by rewrite Es.
  split; cbn [auth inFlightGet calls queries waiting]; [apply H'| |apply H'|apply H'|].
  - intros h' j [Hw|[= -> ->]%list_elem_of_singleton]%elem_of_app.
    + destruct (sc_waiting c' H' h' j Hw) as (Hi & s & Hs & Hl). rewrite Eq in Hi, Hl. rewrite E2. split; [apply issued_start; by left|]. exists s. split; [done|].
      intros [Hq| ->]%live_start; [by apply Hl|]. by apply start_new in Hi.
    + rewrite E2. split; [apply issued_start; by right|]. exists r. split; [done|]. intros _. by rewrite Ea.
  - intros k j d. rewrite E2, data_start, <- Eq. apply (sc_cache c' H').
Qed.

Lemma boot_scoped s c : boot s = Ok c → scoped c.
Proof.
  unfold boot. destruct (initUser s) as [[u s1]|]; [|done]. intros [= <-]. split; cbn [auth inFlightGet calls queries waiting]; [done| |done|done|].
  - by intros h i ?%elem_of_nil.
  - intros k i d. by rewrite data_none.
Qed.

Lemma step_scoped c e : scoped c → scoped (client_step localizeApiMessage t c e).
Proof.
  intros H. destruct e as [u| | |url cfg|url cfg|key url cfg|i|i data|i e|i]; cbn [client_step].
  - by apply setUser_scoped.
  - by apply setUser_scoped.
  - by apply reset_scoped.
  - pose proof (get_scoped url cfg c H) as Hg. destruct (get url cfg c). apply Hg.
  - by apply request_scoped.
  - by apply fetch_scoped.
  - by apply intercept_scoped.
  - by apply respond_scoped.
  - by apply failed_scoped.
  - by apply deliver_scoped.
Qed.

(** ** Sessions *)

(** The states a page can reach, with other tabs writing to the storage at any time. *)
Inductive reachable : Client → Prop :=
| at_boot s c : boot s = Ok c → reachable c
| at_step c e : reachable c → reachable (client_step localizeApiMessage t c e)
| at_tab c m : reachable c → reachable (other_tab m c)
| at_event c k c' : reachable c → storage_event k c = Ok c' → reachable c'.

Lemma reachable_scoped c : reachable c → scoped c.
Proof.
  induction 1 as [s c Hb|c e _ IH|c m _ IH|c k c' _ IH He].
  - by eapply boot_scoped.
  - by apply step_scoped.
  - by eapply scoped_agrees; [exact IH|by repeat split|done].
  - unfold storage_event in He. destruct (match k with Some _ => _ | None => _ end); [by simplify_eq|].
    destruct (same_value _ _); [by simplify_eq|]. by eapply boot_scoped.
Qed.

(** ** Isolation *)

(** C4: accounts are isolated. Whatever the order of events, and whatever other tabs do
    to the storage: every answer in the cache of queries was given to a request of the
    present session, sent with the user of its scope; and a request that is under way
    either belongs to the present account, with its header, or whatever comes back,
    an answer or an error such as an expired session, only cancels it: nothing is shown,
    nothing is stored and nobody is signed out. *)
Theorem account_isolated c : reachable c →
  (∀ k i d, query_data (queries c) k = Some (i, d) → ∃ r u, calls c !! i = Some r
     ∧ accountScope r = Some (account_scope (sessionVersion (auth c)) u) ∧ r_user r = uid_header (default [] u))
  ∧ ∀ i r, calls c !! i = Some r → r_phase r = Sent →
      accountScope r = Some (scope_of c) ∧ r_user r = user_header (storage c)
      ∨ ∀ data e, respond localizeApiMessage t i data c = set_phase i (Settled Cancelled) c
                  ∧ failed localizeApiMessage t i e c = set_phase i (Settled Cancelled) c.
Proof.
  intros H%reachable_scoped. split.
  - intros k i d Hk. destruct (sc_cache c H k i d Hk) as (r & Hr & Hp & u & Hu). exists r, u. split; [done|]. split; [done|].
    destruct (sc_calls c H i r Hr) as (_ & H2 & _). destruct H2 as (v & w & Hw & ->); [by rewrite Hp|]. rewrite Hu in Hw. injection Hw as Hw.
    by destruct (account_scope_inj _ _ _ _ Hw) as [_ ->].
  - intros i r Hr Hp. destruct (decide (accountScope r = Some (scope_of c))) as [E|Hne]; [left|right].
    + split; [done|]. destruct (sc_calls c H i r Hr) as (_ & H2 & _). destruct H2 as (v & w & Hw & ->); [by rewrite Hp|].
      rewrite E in Hw. injection Hw as Hw. rewrite user_header_text. by destruct (account_scope_inj _ _ _ _ Hw) as [_ ->].
    + intros data e. unfold respond, failed. rewrite Hr, Hp. rewrite (bool_decide_false _ Hne). split; [done|]. destruct (f_canceled e); [done|].
      destruct (sc_calls c H i r Hr) as (_ & H2 & _). destruct H2 as (v & w & Hw & _); [by rewrite Hp|]. rewrite Hw in Hne |- *.
      rewrite bool_decide_false; [done|]. congruence.
Qed.

(** ** Late answers *)

Definition unanswered (p : phase) : bool :=
  match p with Called | Sent | Settled Cancelled | Seen Cancelled => true | _ => false end.

(** The request belongs to an earlier session and has not been answered. *)
Definition late (v : N) (r : ApiCall) : Prop :=
  unanswered (r_phase r) = true ∧ ∃ v' u, accountScope r = Some (account_scope v' u) ∧ (v' < v)%N.

Lemma late_mono v v' r : (v <= v')%N → late v r → late v' r.
Proof. intros Hle (Hp & w & u & Hu & Hw). split; [done|]. exists w, u. split; [done|lia]. Qed.

Lemma late_stale c r : late (sessionVersion (auth c)) r → accountScope r ≠ Some (scope_of c).
Proof.
  intros (_ & v & u & Hu & Hv) E. rewrite E in Hu. injection Hu as Hu. destruct (account_scope_inj _ _ _ _ Hu) as [E' _]. lia.
Qed.

Lemma stale_test c r : late (sessionVersion (auth c)) r →
  match accountScope r with Some s => negb (bool_decide (s = scope_of c)) | None => false end = true.
Proof.
  intros H. pose proof (late_stale c r H) as Hne. destruct H as (_ & v & u & Hu & _). rewrite Hu in Hne |- *. rewrite bool_decide_false; [done|]. congruence.
Qed.

(** [c'] comes after [c]: the session has not gone back, and the request is still late. *)
Definition keeps_late (i : nat) (c c' : Client) : Prop :=
  ∀ r, calls c !! i = Some r → late (sessionVersion (auth c)) r →
    ∃ r', calls c' !! i = Some r' ∧ late (sessionVersion (auth c')) r'.

Lemma keeps_same i c c' : (sessionVersion (auth c) <= sessionVersion (auth c'))%N → calls c' !! i = calls c !! i → keeps_late i c c'.
Proof. intros Hle E r Hr Hl. exists r. rewrite E. split; [done|by eapply late_mono]. Qed.

Lemma keeps_at i c c' r : (sessionVersion (auth c) <= sessionVersion (auth c'))%N → calls c' !! i = calls c !! i →
  calls c !! i = Some r → late (sessionVersion (auth c)) r → ∃ r', calls c' !! i = Some r' ∧ late (sessionVersion (auth c')) r'.
Proof. intros Hle E. by apply keeps_same. Qed.

Lemma set_phase_auth i p c : auth (set_phase i p c) = auth c.
Proof. unfold Account.set_phase. by destruct (calls c !! i). Qed.

Lemma keeps_cancelled i c p : unanswered p = true → keeps_late i c (set_phase i p c).
Proof.
  intros Hp r Hr (_ & Hv). rewrite (set_phase_calls i p c r Hr), set_phase_auth. eexists. split; [apply list_lookup_insert_eq; by eapply lookup_lt_Some|]. by split.
Qed.

Lemma set_phase_other i j p c : i ≠ j → calls (set_phase j p c) !! i = calls c !! i.
Proof. intros Hne. unfold Account.set_phase. destruct (calls c !! j); [|done]. by apply list_lookup_insert_ne. Qed.

Lemma keeps_grown i c c' r : auth c' = auth c → calls c' = calls c ++ [r] → keeps_late i c c'.
Proof. intros Ea E s Hs Hl. exists s. rewrite E, Ea. split; [by apply lookup_snoc_l|done]. Qed.

Lemma get_late i url config c : keeps_late i c (get url config c).2.
Proof.
  unfold get, originalRequest. destruct (_ || _); [by eapply keeps_grown|]. destruct (map_get _ _); [|by eapply keeps_grown].
  by apply keeps_same.
Qed.

Lemma fetch_late i key url config c : keeps_late i c (fetch key url config c).
Proof.
  unfold fetch. destruct (start key (queries c)). pose proof (get_late i url config c) as H. destruct (get url config c). exact H.
Qed.

Lemma intercept_late i j c : keeps_late i c (intercept j c).
Proof.
  unfold intercept. destruct (calls c !! j) as [r|] eqn:Hj; [|by apply keeps_same]. destruct (r_phase r) eqn:Hp; try by apply keeps_same.
  intros s Hs Hl. destruct (decide (j = i)) as [->|Hne].
  - rewrite Hj in Hs. injection Hs as <-. rewrite stale_test by done. exact (keeps_cancelled i c (Settled Cancelled) eq_refl r Hj Hl).
  - destruct (match accountScope r with Some _ => _ | None => _ end).
    + apply (keeps_at i c _ s); [by rewrite set_phase_auth|by apply set_phase_other|done|done].
    + apply (keeps_at i c _ s); [done|by apply list_lookup_insert_ne|done|done].
Qed.

Lemma respond_late i j data c : keeps_late i c (respond localizeApiMessage t j data c).
Proof.
  unfold respond. destruct (calls c !! j) as [r|] eqn:Hj; [|by apply keeps_same]. destruct (r_phase r) eqn:Hp; try by apply keeps_same.
  intros s Hs Hl. destruct (decide (j = i)) as [->|Hne].
  - rewrite Hj in Hs. injection Hs as <-. rewrite bool_decide_false by (by apply late_stale). exact (keeps_cancelled i c (Settled Cancelled) eq_refl r Hj Hl).
  - destruct (negb _); [apply (keeps_at i c _ s); [by rewrite set_phase_auth|by apply set_phase_other|done|done]|].
    match goal with |- context [set_phase j _ ?c'] => set (c1 := c') end. assert (H1 : calls c1 = calls c ∧ auth c1 = auth c) by (subst c1; by destruct (_ && _)).
    apply (keeps_at i c _ s); [by rewrite set_phase_auth, (proj2 H1)|rewrite set_phase_other by done; by rewrite (proj1 H1)|done|done].
Qed.

Lemma failed_late i j e c : keeps_late i c (failed localizeApiMessage t j e c).
Proof.
  unfold failed. destruct (calls c !! j) as [r|] eqn:Hj; [|by apply keeps_same]. destruct (r_phase r) eqn:Hp; try by apply keeps_same.
  intros s Hs Hl. destruct (decide (j = i)) as [->|Hne].
  - rewrite Hj in Hs. injection Hs as <-. rewrite stale_test by done. destruct (f_canceled e); exact (keeps_cancelled i c (Settled Cancelled) eq_refl r Hj Hl).
  - assert (Hset : ∀ p c1, calls c1 = calls c → (sessionVersion (auth c) <= sessionVersion (auth c1))%N →
        ∃ r', calls (set_phase j p c1) !! i = Some r' ∧ late (sessionVersion (auth (set_phase j p c1))) r').
    { intros p c1 E Hle. exists s. rewrite set_phase_auth, set_phase_other, E by done. split; [done|by eapply late_mono]. }
    assert (Hclaim : ∀ m c1, calls (claim j m c1) = calls c1 ∧ auth (claim j m c1) = auth c1) by (intros m c1; unfold claim; by destruct (set_has _ _)).
    destruct (f_canceled e); [by apply Hset|]. destruct (match accountScope r with Some _ => _ | None => _ end); [by apply Hset|].
    destruct (same_value _ _); [by apply Hset|].
    destruct (bool_decide _); destruct (c_skipErrorHandler _); apply Hset; rewrite ?(proj1 (Hclaim _ _)), ?(proj2 (Hclaim _ _)); try done;
      cbn [reset set_auth auth reset_user sessionVersion]; lia.
Qed.

Lemma deliver_late i j c : keeps_late i c (deliver j c).
Proof.
  unfold deliver. destruct (calls c !! j) as [r|] eqn:Hj; [|by apply keeps_same]. destruct (r_phase r) as [| |o|] eqn:Hp; try by apply keeps_same.
  match goal with |- context [set_phase j _ ?c'] => set (c1 := c') end. intros s Hs Hl. destruct (decide (j = i)) as [->|Hne].
  - rewrite Hj in Hs. injection Hs as <-. refine (keeps_cancelled i c1 (Seen o) _ r Hj Hl). destruct Hl as [Hu _]. rewrite Hp in Hu. by destruct o.
  - apply (keeps_at i c _ s); [by rewrite set_phase_auth|by rewrite set_phase_other by done|done|done].
Qed.

Lemma step_late i c e : keeps_late i c (client_step localizeApiMessage t c e).
Proof.
  destruct e as [u| | |url cfg|url cfg|key url cfg|j|j data|j e|j]; cbn [client_step].
  - apply keeps_same; [cbn [setUser set_auth auth changed_user sessionVersion]; lia|done].
  - apply keeps_same; [cbn [setUser set_auth auth changed_user sessionVersion]; lia|done].
  - apply keeps_same; [cbn [reset set_auth auth reset_user sessionVersion]; lia|done].
  - apply get_late.
  - by eapply keeps_grown.
  - apply fetch_late.
  - apply intercept_late.
  - apply respond_late.
  - apply failed_late.
  - apply deliver_late.
Qed.

Lemma run_late i l c r : calls c !! i = Some r → late (sessionVersion (auth c)) r →
  ∃ r', calls (client_run localizeApiMessage t c l) !! i = Some r' ∧ unanswered (r_phase r') = true.
Proof.
  revert c r. induction l as [|e l IH]; intros c r Hr Hl; [exists r; split; [done|apply Hl]|].
  destruct (step_late i c e r Hr Hl) as (r' & Hr' & Hl'). by apply (IH _ r').
Qed.

(** C6: no answer comes late. A request that is under way when the account changes, by
    signing in or out or because the session expired, is never answered afterwards:
    through any later events of the page its promise stays open or is cancelled. *)
Theorem no_late_answers c e i r : reachable c → calls c !! i = Some r →
  r_phase r = Sent ∨ r_phase r = Called ∧ accountScope r ≠ None →
  let c1 := client_step localizeApiMessage t c e in
  (sessionVersion (auth c) < sessionVersion (auth c1))%N → calls c1 !! i = Some r →
  ∀ l, ∃ r', calls (client_run localizeApiMessage t c1 l) !! i = Some r' ∧ unanswered (r_phase r') = true.
Proof.
  intros H%reachable_scoped Hr Hp c1 Hv Hr1 l.
  assert (Hl : late (sessionVersion (auth c1)) r).
  { destruct (sc_calls c H i r Hr) as (H1 & H2 & _). split; [by destruct Hp as [->|[-> _]]|].
    assert (Hs : ∃ s, accountScope r = Some s).
    { destruct Hp as [E|[_ E]]; [|destruct (accountScope r); [by eexists|done]]. destruct H2 as (v & u & Hu & _); [by rewrite E|by eexists]. }
    destruct Hs as [s Hs]. destruct (H1 s Hs) as (v & u & -> & Hle). exists v, u. split; [done|lia]. }
  by apply (run_late i l c1 r).
Qed.

(** ** Sharing *)

(** C21: concurrent equal requests are one request, and only equal ones are. While a
    shared [GET] is under way, [api.get] returns its promise, and sends nothing, exactly
    when the session, the user, the address and the parameters are the same. The
    identifiers of users hold no colon, the parameters are objects, and no address
    holds a question mark before a brace. *)
Theorem requests_shared c url config i r v u :
  reachable c → calls c !! i = Some r → r_shared r ≠ None → seen (r_phase r) = false → accountScope r = Some (account_scope v u) →
  c_disableDuplicate config || c_signal config = false →
  forallb plain_uid [u; getUserId (storage c)] = true → forallb plain_url [url; r_url r] = true → forallb plain_params [config; r_config r] = true →
  ((get url config c).1 = i
   ↔ v = sessionVersion (auth c) ∧ default [] u = default [] (getUserId (storage c)) ∧ r_url r = url ∧ params_text (r_config r) = params_text config)
  ∧ ((get url config c).1 = i → (get url config c).2 = c).
Proof.
  intros H%reachable_scoped Hr Hs Hp Hu Hd [Hu1 [Hu2 _]%andb_true_iff]%andb_true_iff [Hl1 [Hl2 _]%andb_true_iff]%andb_true_iff [Hc1 [Hc2 _]%andb_true_iff]%andb_true_iff.
  destruct (r_shared r) as [key|] eqn:Ek; [|done]. destruct (sc_calls c H i r Hr) as (_ & _ & H3). destruct (H3 key Ek) as (s & Es & Hk).
  rewrite Hu in Es. injection Es as <-. pose proof (sc_shared c H i r key Hr Ek Hp) as Hin.
  assert (Hget : (get url config c).1 = i ↔ share_key (scope_of c) url config = key).
  { unfold get. rewrite Hd. split.
    - destruct (map_get (share_key (scope_of c) url config) (inFlightGet c)) as [j|] eqn:Ej; cbn [fst originalRequest].
      + intros ->. destruct (sc_flight c H _ i Ej) as (r' & Hr' & Hs' & _). congruence.
      + intros E. apply lookup_lt_Some in Hr. lia.
    - intros ->. by rewrite Hin. }
  split.
  - rewrite Hget, Hk. unfold scope_of, getAccountScope. rewrite (share_key_inj (sessionVersion (auth c)) v) by done. naive_solver.
  - intros E%Hget. unfold get. by rewrite Hd, E, Hin.
Qed.

(** ** One tab and a storage that works *)

Record working (s : Storage) : Prop := {
  w_read : readable s = true;
  w_remove : removable s = true;
  w_accept : ∀ m k v, accepts s m k v = true
}.

(** The identifier of a user is a number. *)
Definition has_number (u : json) : Prop := ∃ x, prop_of u "id" = Some (JNum x).

Definition numbered_calls (u : option json) : Prop := match u with Some v => has_number v | None => True end.

(** The identifier in the storage is the one of the user. *)
Definition matching (c : Client) : Prop :=
  numbered_calls (auth_user (auth c)) ∧ getUserId (storage c) = id_text <$> auth_user (auth c).

Record home (c : Client) : Prop := {
  hm_working : working (storage c);
  hm_matching : matching c;
  hm_scopes : ∀ i r u, calls c !! i = Some r → accountScope r = Some (account_scope (sessionVersion (auth c)) u) →
    default [] u = default [] (getUserId (storage c))
}.

Lemma working_items s m : working s → working (with_items s m).
Proof. by intros []. Qed.

Lemma persist_working u s : working s → working (persistUser u s) ∧ getUserId (persistUser u s) = id_text <$> u.
Proof.
  intros H. destruct H as [Hr Hd Ha] eqn:E. clear E. unfold persistUser, setItem, removeItem. destruct u as [v|].
  - rewrite Ha. cbn [with_items accepts]. rewrite Ha. cbn [try_storage]. split; [by apply working_items, working_items|].
    unfold getUserId, getItem. cbn [with_items readable items]. by rewrite Hr, map_get_set_eq.
  - rewrite Hd. cbn [with_items removable]. rewrite Hd. cbn [try_storage]. split; [by apply working_items, working_items|].
    unfold getUserId, getItem. cbn [with_items readable items]. rewrite Hr.
    match goal with |- Ok _ = _ => idtac | |- context [map_delete UID ?m] => change (map_delete UID m) with (obj_delete UID m) end.
    by rewrite map_get_obj_delete, decide_True.
Qed.

Lemma num_eqb_same x y : num_eqb x y = true → x = y ∨ ∃ s s', x = S754_zero s ∧ y = S754_zero s'.
Proof.
  unfold num_eqb, SFeqb. destruct x as [s|s| |s m e], y as [s'|s'| |s' m' e']; cbn [SFcompare]; try discriminate;
    try (destruct s; discriminate); try (destruct s'; discriminate); try (intros _; right; by exists s, s').
  - destruct s, s'; try discriminate; intros _; by left.
  - change (Pos.compare_cont Eq m m') with (m ?= m')%positive.
    destruct (Z.compare_spec e e') as [<-|Hlt|Hlt]; [|destruct s, s'; discriminate|destruct s, s'; discriminate].
    destruct (Pos.compare_spec m m') as [<-|Hlt|Hlt]; destruct s, s'; try discriminate; intros _; by left.
Qed.

Lemma same_number x y : num_eqb x y = true → Number_toString x = Number_toString y.
Proof. intros [->|(s & s' & -> & ->)]%num_eqb_same; reflexivity. Qed.

Lemma same_id a b : numbered_calls a → numbered_calls b → same_value (id_of a) (id_of b) = true → id_text <$> a = id_text <$> b.
Proof.
  unfold numbered_calls, id_of, id_text. destruct a as [a|], b as [b|]; cbn [prop_opt]; try done.
  - intros [x Hx] [y Hy]. rewrite Hx, Hy. cbn [same_value fmap option_fmap option_map to_text]. rewrite ?Hx, ?Hy. intros E%same_number. cbn [to_text]. by rewrite E.
  - intros [x ->]. done.
  - intros _ [y ->]. done.
Qed.

(** A change of the account keeps the pages at home. *)
Lemma account_home a u c : scoped c → home c → numbered_calls u → a = changed_user u (auth c) ∨ u = None ∧ a = reset_user (auth c) →
  home (set_auth a (persistUser u (storage c)) c).
Proof.
  intros Hsc H Hu Ha. destruct (persist_working u (storage c) (hm_working c H)) as [Hw Hid]. destruct (hm_matching c H) as [Hn Hm].
  assert (Eu : auth_user a = u) by (by destruct Ha as [->|[-> ->]]).
  split; cbn [set_auth auth storage calls]; [done| |].
  - unfold matching. cbn [set_auth auth storage]. rewrite Eu. by split.
  - intros i r w Hr Hs. rewrite Hid.
    assert (Hv : sessionVersion a = sessionVersion (auth c) ∧ same_value (id_of (auth_user (auth c))) (id_of u) = true ∨ sessionVersion a = (sessionVersion (auth c) + 1)%N).
    { destruct Ha as [->|[-> ->]]; [|by right]. cbn [changed_user sessionVersion]. destruct (same_value _ _); [left; split; [lia|done]|by right]. }
    destruct Hv as [[Ev E]|Ev]; rewrite Ev in Hs.
    + rewrite (hm_scopes c H i r w Hr Hs), Hm. by rewrite (same_id _ _ Hn Hu E).
    + destruct (sc_calls c Hsc i r Hr) as (H1 & _). destruct (H1 _ Hs) as (v & w' & E & Hle). destruct (account_scope_inj _ _ _ _ E) as [<- _]. lia.
Qed.

(** What happens to the requests: their scopes are old ones or the present one. *)
Definition same_scopes (c c' : Client) : Prop :=
  auth c' = auth c ∧ storage c' = storage c
  ∧ ∀ i r s, calls c' !! i = Some r → accountScope r = Some s → s = scope_of c ∨ ∃ j r', calls c !! j = Some r' ∧ accountScope r' = Some s.

Lemma same_scopes_home c c' : home c → same_scopes c c' → home c'.
Proof.
  intros H (Ea & Es & Hc). split; [by rewrite Es; apply H|unfold matching; rewrite Ea, Es; apply H|].
  intros i r u Hr Hu. rewrite Ea in Hu. rewrite Es. destruct (Hc i r _ Hr Hu) as [E|(j & r' & Hj & Hs)].
  - by destruct (account_scope_inj _ _ _ _ E).
  - by apply (hm_scopes c H j r').
Qed.

Lemma same_scopes_calls c c' : auth c' = auth c → storage c' = storage c → calls c' = calls c → same_scopes c c'.
Proof. intros E1 E2 E3. split; [done|]. split; [done|]. intros i r s Hr Hs. right. exists i, r. by rewrite E3 in Hr. Qed.

Lemma same_scopes_phase i p c : same_scopes c (set_phase i p c).
Proof.
  unfold Account.set_phase. destruct (calls c !! i) as [r|] eqn:E; [|by apply same_scopes_calls]. split; [done|]. split; [done|].
  intros j r' s [(<- & <- & _)|[_ Hj]]%list_lookup_insert_Some Hs; right; [exists i, r|exists j, r']; done.
Qed.

Lemma same_scopes_snoc c c' r : auth c' = auth c → storage c' = storage c → calls c' = calls c ++ [r] →
  (accountScope r = None ∨ accountScope r = Some (scope_of c)) → same_scopes c c'.
Proof.
  intros E1 E2 E3 Hr. split; [done|]. split; [done|]. rewrite E3. intros i s w [Hi|[-> ->]]%lookup_snoc Hs; [right; by exists i, s|].
  left. destruct Hr; congruence.
Qed.

Lemma same_scopes_trans c1 c2 c3 : same_scopes c1 c2 → same_scopes c2 c3 → same_scopes c1 c3.
Proof.
  intros (E1 & E2 & H1) (F1 & F2 & H2). split; [by rewrite F1|]. split; [by rewrite F2|]. intros i r s Hr Hs. destruct (H2 i r s Hr Hs) as [->|(j & r' & Hj & Hs')].
  - left. unfold scope_of. by rewrite E1, E2.
  - by apply (H1 j r').
Qed.

Lemma get_scopes url config c : same_scopes c (get url config c).2.
Proof.
  unfold get, originalRequest. destruct (_ || _).
  - by eapply same_scopes_snoc; [done|done|done|right].
  - destruct (map_get _ _); [by apply same_scopes_calls|]. by eapply same_scopes_snoc; [done|done|done|right].
Qed.

Lemma fetch_scopes key url config c : same_scopes c (fetch key url config c).
Proof.
  unfold fetch. destruct (start key (queries c)). pose proof (get_scopes url config c) as H. destruct (get url config c) as [i c']. exact H.
Qed.

Lemma intercept_scopes i c : same_scopes c (intercept i c).
Proof.
  unfold intercept. destruct (calls c !! i) as [r|] eqn:E; [|by apply same_scopes_calls]. destruct (r_phase r); try by apply same_scopes_calls.
  destruct (match accountScope r with Some _ => _ | None => _ end); [apply same_scopes_phase|]. split; [done|]. split; [done|].
  intros j r' s [(<- & <- & _)|[_ Hj]]%list_lookup_insert_Some Hs; [left; by injection Hs as <-|right; by exists j, r'].
Qed.

Lemma respond_scopes i data c : same_scopes c (respond localizeApiMessage t i data c).
Proof.
  unfold respond. destruct (calls c !! i) as [r|]; [|by apply same_scopes_calls]. destruct (r_phase r); try by apply same_scopes_calls.
  destruct (negb _); [apply same_scopes_phase|]. eapply same_scopes_trans; [|apply same_scopes_phase]. destruct (_ && _); by apply same_scopes_calls.
Qed.

Lemma deliver_scopes i c : same_scopes c (deliver i c).
Proof.
  unfold deliver. destruct (calls c !! i) as [r|]; [|by apply same_scopes_calls]. destruct (r_phase r); try by apply same_scopes_calls.
  eapply same_scopes_trans; [|apply same_scopes_phase]. by apply same_scopes_calls.
Qed.

Lemma claim_scopes i m c : same_scopes c (claim i m c).
Proof. unfold claim. destruct (set_has i (notified c)); by apply same_scopes_calls. Qed.

Lemma reset_home c : scoped c → home c → home (reset c).
Proof. intros Hs H. apply (account_home (reset_user (auth c)) None); [done|done|done|by right]. Qed.

(** An expired session signs out; any other error leaves the account. *)
Lemma failed_home i e c : scoped c → home c → home (failed localizeApiMessage t i e c).
Proof.
  intros Hs H. unfold failed. destruct (calls c !! i) as [r|]; [|done]. destruct (r_phase r); try done.
  assert (Hp : ∀ p c', home c' → home (set_phase i p c')) by (intros p c' H'; eapply same_scopes_home; [exact H'|apply same_scopes_phase]).
  assert (Hm : ∀ m c', home c' → home (claim i m c')) by (intros m c' H'; eapply same_scopes_home; [exact H'|apply claim_scopes]).
  destruct (f_canceled e); [by apply Hp|]. destruct (match accountScope r with Some _ => _ | None => _ end); [by apply Hp|].
  destruct (same_value _ _); [apply Hp; eapply same_scopes_home; [exact H|by apply same_scopes_calls]|].
  destruct (bool_decide _); destruct (c_skipErrorHandler _); apply Hp; try apply Hm; try done; by apply reset_home.
Qed.

Lemma remove_each_working keys s : working s → working (remove_each s keys).1.
Proof.
  revert s. induction keys as [|k keys IH]; intros s H; [done|]. cbn [remove_each]. unfold removeItem. destruct (removable s); [|done].
  by apply IH, working_items.
Qed.

Lemma boot_working s c : working s → boot s = Ok c → working (storage c).
Proof.
  intros H. unfold boot. destruct (initUser s) as [[u s1]|] eqn:E; [|done]. intros [= <-]. cbn [storage].
  assert (H1 : working s1).
  { unfold initUser, getItem, removeItem in E. destruct H as [Hr Hd Ha] eqn:EH. clear EH. rewrite Hr, Hd in E.
    destruct (map_get USER (items s)) as [saved|]; [|by simplify_eq]. destruct (nonempty saved); [|by simplify_eq].
    destruct (JSON_parse saved) as [[]|]; simplify_eq; first [done|by apply working_items]. }
  unfold initializeFrontendCache. destruct (getItem s1 _); [|done]. destruct (bool_decide _); [done|]. unfold clearLocalUiCache.
  pose proof (remove_each_working (List.filter removed_key (map fst (items s1))) s1 H1) as H2. destruct (remove_each s1 _) as [s2 done']. cbn [fst] in H2.
  destruct done'; [|done]. unfold setItem. destruct (accepts s2 _ _ _); [|done]. by apply working_items.
Qed.

(** A page of its own, on a storage that works, that starts with the identifier of the
    stored user; who signs in has a number. *)
Inductive own_tab : Client → Prop :=
| own_start s c : working s → boot s = Ok c → matching c → own_tab c
| own_step c e : own_tab c → (∀ u, e = SetUser u → has_number u) → own_tab (client_step localizeApiMessage t c e).

Lemma own_home c : own_tab c → scoped c ∧ home c.
Proof.
  induction 1 as [s c Hw Hb Hm|c e _ [Hs H] He].
  - split; [by eapply boot_scoped|]. split; [by eapply boot_working|done|]. unfold boot in Hb. destruct (initUser s) as [[u s1]|]; [|done].
    by injection Hb as <-.
  - split; [by apply step_scoped|]. destruct e as [u| | |url cfg|url cfg|key url cfg|i|i data|i e|i]; cbn [client_step].
    + apply account_home; [done|done|by apply He|by left].
    + apply account_home; [done|done|done|by left].
    + by apply reset_home.
    + apply (same_scopes_home c); [done|apply get_scopes].
    + apply (same_scopes_home c); [done|]. by eapply same_scopes_snoc; [done|done|done|left].
    + apply (same_scopes_home c); [done|apply fetch_scopes].
    + apply (same_scopes_home c); [done|apply intercept_scopes].
    + apply (same_scopes_home c); [done|apply respond_scopes].
    + by apply failed_home.
    + apply (same_scopes_home c); [done|apply deliver_scopes].
Qed.

(** C13: what is stored is the user's own. In a page of its own, on a storage that works,
    every answer in the cache was given to a request that named the user who is signed in
    now, or to one without a user when nobody is; and every request that has been sent
    and will be answered names that user too. *)
Theorem cache_is_users c : own_tab c →
  (∀ k i d, query_data (queries c) k = Some (i, d) → ∃ r, calls c !! i = Some r ∧ r_user r = uid_header (default [] (id_text <$> auth_user (auth c))))
  ∧ ∀ i r data, calls c !! i = Some r → r_phase r = Sent →
      calls (respond localizeApiMessage t i data c) !! i ≠ calls (set_phase i (Settled Cancelled) c) !! i →
      r_user r = uid_header (default [] (id_text <$> auth_user (auth c))).
Proof.
  intros [Hs H]%own_home. rewrite <- (proj2 (hm_matching c H)).
  assert (Hu : ∀ i r u, calls c !! i = Some r → carries (r_phase r) = true → accountScope r = Some (account_scope (sessionVersion (auth c)) u) →
    r_user r = uid_header (default [] (getUserId (storage c)))).
  { intros i r u Hr Hp E. destruct (sc_calls c Hs i r Hr) as (_ & H2 & _). destruct (H2 Hp) as (v & w & Hw & ->). rewrite E in Hw. injection Hw as Hw.
    destruct (account_scope_inj _ _ _ _ Hw) as [_ <-]. by rewrite (hm_scopes c H i r u Hr E). }
  split.
  - intros k i d Hk. destruct (sc_cache c Hs k i d Hk) as (r & Hr & Hp & u & E). exists r. split; [done|]. apply (Hu i r u Hr); [by rewrite Hp|done].
  - intros i r data Hr Hp Hne. unfold respond in Hne. rewrite Hr, Hp in Hne. destruct (bool_decide_reflect (accountScope r = Some (scope_of c))) as [E|E]; [|by destruct Hne].
    apply (Hu i r (getUserId (storage c)) Hr); [by rewrite Hp|exact E].
Qed.
End laws.

(** ** A simple cache of queries *)

#[global] Instance plain_queries : QueryLib := {
  Queries := nat * list (nat * jsstr) * list (jsstr * (nat * json));
  query := nat;
  no_queries := (0, [], []);
  start k q := let '(n, open, data) := q in (n, (S n, (n, k) :: open, data));
  resolve h d q := let '(n, open, data) := q in
    match List.find (fun w => Nat.eqb w.1 h) open with Some w => (n, open, map_set w.2 d data) | None => q end;
  clear q := let '(n, open, data) := q in (n, [], []);
  query_data q k := map_get k q.2
}.

#[global] Program Instance plain_laws : QueryLaws plain_queries := {
  live h q := h ∈ (q.1.2).*1;
  issued h q := h < q.1.1
}.
Next Obligation. done. Qed.
Next Obligation. intros h. cbn. lia. Qed.
Next Obligation. by intros [[n open] data] k. Qed.
Next Obligation. intros h [[n open] data]. cbn. by intros ?%elem_of_nil. Qed.
Next Obligation. by intros h [[n open] data]. Qed.
Next Obligation. by intros k [[n open] data] k'. Qed.
Next Obligation. intros k [[n open] data]. cbn. lia. Qed.
Next Obligation. intros k [[n open] data] h. cbn. intros [->|?]%elem_of_cons; [by right|by left]. Qed.
Next Obligation. intros k [[n open] data] h. cbn. lia. Qed.
Next Obligation.
  intros h d [[n open] data] k d'. cbn. destruct (List.find _ open) as [w|] eqn:E; [|by left]. cbn. apply List.find_some in E as [Hin Hw%Nat.eqb_eq].
  destruct (decide (k = w.2)) as [->|Hne]; [|rewrite map_get_set_ne by done; by left]. rewrite map_get_set_eq. intros [= <-]. right. split; [|done].
  apply list_elem_of_fmap. exists w. split; [done|]. by apply list_elem_of_In.
Qed.
Next Obligation. intros h d [[n open] data] h'. cbn. by destruct (List.find _ open). Qed.
Next Obligation. intros h d [[n open] data] h'. cbn. by destruct (List.find _ open). Qed.

(** ** A page *)

Notation run_page := (client_run (fun s => s) (fun s => s)).

Definition home_page : Client := match boot demo_storage with Ok c => c | Throw _ => mkClient (mkAuth None 0) demo_storage [] [] [] [] 0 no_queries [] end.

Definition plain_config : Config := mkConfig None false false false false None None.
Definition user_of (id : Z) : json := JObj (table [("id", JNum (num_of_Z id))]).

(** The first user signs in, and the page asks for the user's data. *)
Definition asked : list event := [SetUser (user_of 1); Fetch (js "self") (js "/api/user/self") plain_config; Intercept 0].

Lemma run_reachable l c : reachable (fun s => s) (fun s => s) c → reachable (fun s => s) (fun s => s) (run_page c l).
Proof. revert c. induction l as [|e l IH]; intros c H; [done|]. apply (IH (client_step _ _ c e)). by apply at_step. Qed.

Lemma page_reachable l : reachable (fun s => s) (fun s => s) (run_page home_page l).
Proof. apply run_reachable, (at_boot _ _ demo_storage). reflexivity. Qed.

Lemma account_isolated_witness :
  let c := run_page home_page (asked ++ [SignOut; SetUser (user_of 2)]) in
  respond (fun s => s) (fun s => s) 0 (user_of 1) c = set_phase 0 (Settled Cancelled) c.
Proof.
  intros c. destruct (account_isolated (fun s => s) (fun s => s) c) as [_ H]; [apply page_reachable|].
  edestruct (H 0) as [[E _]|Hs]; [reflexivity|reflexivity|vm_compute in E; discriminate E|]. apply (Hs (user_of 1) (mkFailure false None [])).
Defined.

Lemma no_late_answers_witness :
  ∃ r', calls (run_page (run_page home_page (asked ++ [SignOut])) [SetUser (user_of 2); Respond 0 (user_of 1); Deliver 0]) !! 0 = Some r' ∧ unanswered (r_phase r') = true.
Proof.
  apply (no_late_answers (fun s => s) (fun s => s) (run_page home_page asked) SignOut 0
    (mkCall (js "/api/user/self") plain_config (Some (js "1:1")) (Some (js "1:1:/api/user/self?{}")) (Some (js "1")) 30000 Sent));
    [apply page_reachable|reflexivity|by left|reflexivity|reflexivity].
Defined.

Lemma requests_shared_witness :
  let c := run_page home_page asked in get (js "/api/user/self") plain_config c = (0, c).
Proof.
  intros c. destruct (requests_shared (fun s => s) (fun s => s) c (js "/api/user/self") plain_config 0
    (mkCall (js "/api/user/self") plain_config (Some (js "1:1")) (Some (js "1:1:/api/user/self?{}")) (Some (js "1")) 30000 Sent) 1 (Some (js "1"))) as [H1 H2];
    [apply page_reachable|reflexivity|done|reflexivity|reflexivity|reflexivity|reflexivity|reflexivity|reflexivity|].
  assert (E : (get (js "/api/user/self") plain_config c).1 = 0) by (apply H1; repeat split). pose proof (H2 E) as E2.
  destruct (get (js "/api/user/self") plain_config c) as [i c']. cbn [fst snd] in E, E2. by rewrite E, E2.
Defined.

Lemma cache_is_users_witness :
  let c := run_page home_page (asked ++ [Respond 0 (user_of 1); Deliver 0; Fetch (js "more") (js "/api/more") plain_config]) in
  query_data (queries c) (js "self") = Some (0, user_of 1) ∧ ∃ r, calls c !! 0 = Some r ∧ r_user r = Some (js "1").
Proof.
  intros c. split; [vm_compute; reflexivity|]. destruct (cache_is_users (fun s => s) (fun s => s) c) as [H _].
  - unfold c. cbn [app asked client_run foldl]. repeat (apply own_step; [|intros u [= <-]; by eexists || discriminate]).
    apply (own_start _ _ demo_storage); [by split|reflexivity|by split].
  - exact (H (js "self") 0 (user_of 1) eq_refl).
Defined.

(** ** The start of the page *)

Lemma remove_each_all keys s : working s → ∃ m, remove_each s keys = (with_items s m, true)
  ∧ ∀ k, map_get k m = if decide (k ∈ keys) then None else map_get k (items s).
Proof.
  revert s. induction keys as [|key keys IH]; intros s H.
  - exists (items s). split; [by destruct s|]. intros k. rewrite decide_False; [done|apply not_elem_of_nil].
  - cbn [remove_each]. unfold removeItem. rewrite (w_remove s H). destruct (IH (with_items s (map_delete key (items s)))) as (m & -> & Hm); [by apply working_items|].
    exists m. split; [done|]. intros k. rewrite Hm. cbn [with_items items]. change (map_delete key (items s)) with (obj_delete key (items s)).
    rewrite map_get_obj_delete. destruct (decide (k = key)) as [->|Hne]; [rewrite (decide_True (P := key ∈ key :: keys)) by (by left); by case_decide|].
    apply decide_ext. rewrite elem_of_cons. naive_solver.
Qed.

(** The first start of a version removes what the interface had stored, but not who is
    signed in; the next one changes nothing. *)
Lemma frontend_cache_cleared s : working s →
  let s' := initializeFrontendCache s in
  (∀ k, map_get k (items s') =
     if decide (k = FRONTEND_CACHE_VERSION_KEY) then Some FRONTEND_CACHE_VERSION
     else if bool_decide (map_get FRONTEND_CACHE_VERSION_KEY (items s) = Some FRONTEND_CACHE_VERSION) || negb (removed_key k)
     then map_get k (items s) else None)
  ∧ initializeFrontendCache s' = s'.
Proof.
  intros H s'. assert (Hs : ∃ m, s' = with_items s m ∧ ∀ k, map_get k m =
     if decide (k = FRONTEND_CACHE_VERSION_KEY) then Some FRONTEND_CACHE_VERSION
     else if bool_decide (map_get FRONTEND_CACHE_VERSION_KEY (items s) = Some FRONTEND_CACHE_VERSION) || negb (removed_key k)
     then map_get k (items s) else None).
  { subst s'. unfold initializeFrontendCache, getItem. rewrite (w_read s H).
    destruct (bool_decide_reflect (map_get FRONTEND_CACHE_VERSION_KEY (items s) = Some FRONTEND_CACHE_VERSION)) as [E|E].
    - exists (items s). split; [by destruct s|]. intros k. by case_decide as Ek; [rewrite Ek|].
    - unfold clearLocalUiCache. destruct (remove_each_all (List.filter removed_key (map fst (items s))) s H) as (m & -> & Hm). unfold setItem.
      cbn [with_items accepts]. rewrite (w_accept s H). cbn [try_storage with_items]. exists (map_set FRONTEND_CACHE_VERSION_KEY FRONTEND_CACHE_VERSION m).
      split; [done|]. intros k. case_decide as Ek; [subst k; apply map_get_set_eq|]. rewrite map_get_set_ne by done. rewrite Hm. cbn [orb].
      destruct (removed_key k) eqn:Er; cbn [negb].
      + case_decide as Hin; [done|]. apply map_get_None. intros Hk. apply Hin, list_elem_of_In, List.filter_In. split; [|done]. by apply list_elem_of_In.
      + rewrite decide_False; [done|]. intros [_ Hk]%list_elem_of_In%List.filter_In. congruence. }
  destruct Hs as (m & -> & Hm). split; [done|]. unfold initializeFrontendCache, getItem. cbn [with_items readable items]. rewrite (w_read s H), Hm, decide_True by done.
  by rewrite bool_decide_true.
Qed.

(** A storage that the browser refuses keeps the page from starting: the [catch] that
    should survive it touches the storage again. *)
Lemma refused_storage_stops s : readable s = false → removable s = false → ∃ e, boot (L := plain_queries) s = Throw e.
Proof. intros Hr Hd. unfold boot, initUser, getItem, removeItem. rewrite Hr, Hd. by eexists. Qed.

End AccountLaws.
