(* ===== verification/Wallet.v ===== *)
(** * The wallet: recharging the account (src/web/default/src/features/wallet)

    What the server says about recharging (hooks/use-topup-info.ts), the amounts and
    limits (lib/payment.ts), the watch over a payment window, and the payment itself
    (hooks/use-payment.ts): quotes and orders are requests whose answers come back later,
    in any order, so the hook is a state with a step for every call and every answer.
    The page (index.tsx) decides what is quoted and ordered. *)

From S2P Require Import Prelude JsNum IntNum Json NumText JsValue PricingPanel DemoEngine.
From Stdlib Require Import Floats.SpecFloat.

Module Wallet.
Import PricingPanel DemoEngine.
Open Scope js_scope.

Definition one : num := num_of_Z 1.

(** ** Constants (constants.ts) *)

Definition DEFAULT_PRESET_MULTIPLIERS : list num := map num_of_Z [1; 5; 10; 30; 50; 100; 300; 500]%Z.

Definition ALIPAY : jsstr := js "alipay".
Definition WECHAT : jsstr := js "wxpay".
Definition STRIPE : jsstr := js "stripe".
Definition WAFFO : jsstr := js "waffo".
Definition WAFFO_PANCAKE : jsstr := js "waffo_pancake".

Definition DEFAULT_PAYMENT_TYPE : jsstr := ALIPAY.
Definition DEFAULT_MIN_TOPUP : num := one.
Definition DEFAULT_DISCOUNT_RATE : num := one.

(** ** Types (types.ts) *)

Record PaymentMethod := mkMethod { pm_name : jsstr; pm_type : jsstr; pm_color : option jsstr; pm_min_topup : option json }.
Record WaffoPayMethod := mkWaffo { wf_name : jsstr; wf_icon : option jsstr; wf_type : option jsstr; wf_methodName : option jsstr }.
Record CreemProduct := mkProduct { cp_name : jsstr; cp_productId : jsstr; cp_price : num; cp_quota : num; cp_euro : bool }.
Record PresetAmount := mkPreset { p_value : num; p_discount : option num }.

(** The answer of the server with the fields that are parsed replaced. *)
Record TopupInfo := mkTopup {
  ti_data : json; pay_methods : list PaymentMethod; amount_options : list num; discount : list (jsstr * num);
  creem_products : list CreemProduct; waffo_pay_methods : list WaffoPayMethod
}.

(** A field that is not replaced. *)
Definition topup_field (info : TopupInfo) (k : string) : option json := prop_of (ti_data info) k.

Definition is_positive (x : num) : bool := num_ltb (S754_zero false) x.

(** ** Reading the answer (hooks/use-topup-info.ts) *)

Definition parseJsonArray (data : option json) : list json :=
  match data with
  | Some (JArr l) => l
  | Some (JStr s) => match JSON_parse s with Some (JArr l) => l | _ => [] end
  | _ => []
  end.

(** [!!item && typeof item === 'object']. *)
Definition is_record (item : json) : bool := match item with JObj _ | JArr _ => true | _ => false end.

(** [typeof item.key === 'string' ? item.key : '']. *)
Definition text_field (item : json) (k : string) : jsstr := match prop_of item k with Some (JStr s) => s | _ => [] end.
Definition text_field_opt (item : json) (k : string) : option jsstr := match prop_of item k with Some (JStr s) => Some s | _ => None end.

Definition payment_method (stripeMinTopup : option json) (item : json) : PaymentMethod :=
  let rawMinTopup := Number_value (prop_of item "min_topup") in
  let normalizedMinTopup := if num_is_finite rawMinTopup then Math_max (S754_zero false) rawMinTopup else S754_zero false in
  let type := text_field item "type" in
  mkMethod (text_field item "name") type (text_field_opt item "color")
    (if bool_decide (type = STRIPE) && num_leb normalizedMinTopup (S754_zero false) then stripeMinTopup else Some (JNum normalizedMinTopup)).

Definition parsePaymentMethods (data stripeMinTopup : option json) : list PaymentMethod :=
  List.filter (fun item => nonempty (pm_name item) && nonempty (pm_type item) && negb (bool_decide (pm_type item = WAFFO)))
    (map (payment_method stripeMinTopup) (List.filter is_record (parseJsonArray data))).

Definition parseWaffoPayMethods (data : option json) : list WaffoPayMethod :=
  List.filter (fun item => nonempty (wf_name item))
    (map (fun item => mkWaffo (text_field item "name") (text_field_opt item "icon") (text_field_opt item "payMethodType") (text_field_opt item "payMethodName"))
       (List.filter is_record (parseJsonArray data))).

(** [Number(x) || 0]. *)
Definition number_or_zero (v : option json) : num := let x := Number_value v in if num_truthy x then x else S754_zero false.

Definition parseCreemProducts (data : option json) : list CreemProduct :=
  List.filter (fun item => nonempty (cp_name item) && nonempty (cp_productId item) && is_positive (cp_price item))
    (map (fun item => mkProduct (text_field item "name") (text_field item "productId") (number_or_zero (prop_of item "price"))
                        (number_or_zero (prop_of item "quota"))
                        (match prop_of item "currency" with Some (JStr s) => bool_decide (s = js "EUR") | _ => false end))
       (List.filter is_record (parseJsonArray data))).

Definition whole_positive (x : num) : bool := num_is_finite x && num_is_integer x && is_positive x.

Definition parseAmountOptions (data : option json) : list num :=
  List.filter whole_positive (map (fun item => Number_value (Some item)) (parseJsonArray data)).

(** The keys of the result are numbers, written as texts. *)
Definition discount_entry (result : list (jsstr * num)) (entry : jsstr * json) : list (jsstr * num) :=
  let numericKey := Number entry.1 in
  let numericValue := Number_value (Some entry.2) in
  if whole_positive numericKey && num_is_finite numericValue && is_positive numericValue
  then map_set (Number_toString numericKey) numericValue result else result.

Definition parseDiscountMap (data : option json) : list (jsstr * num) :=
  if negb (truthy data) then []
  else match match data with Some (JStr s) => JSON_parse s | _ => data end with
       | Some (JObj m) => foldl discount_entry [] m
       | _ => []
       end.

(** ** Amounts (lib/payment.ts) *)

Definition isStripePayment (paymentType : jsstr) : bool := bool_decide (paymentType = STRIPE).
Definition isWaffoPancakePayment (paymentType : jsstr) : bool := bool_decide (paymentType = WAFFO_PANCAKE).

Definition getDefaultPaymentType (topupInfo : option TopupInfo) : jsstr :=
  match topupInfo with
  | None => DEFAULT_PAYMENT_TYPE
  | Some info =>
      match pay_methods info with
      | m :: _ => pm_type m
      | [] =>
          if truthy (topup_field info "enable_stripe_topup") then STRIPE
          else if truthy (topup_field info "enable_waffo_topup") then WAFFO
          else if truthy (topup_field info "enable_waffo_pancake_topup") then WAFFO_PANCAKE
          else DEFAULT_PAYMENT_TYPE
      end
  end.

Definition configuredAmount (value : option json) : option num :=
  match value with Some (JNum x) => if num_is_finite x && is_positive x then Some x else None | _ => None end.

Definition minimum_field (info : TopupInfo) (k : string) : num := default DEFAULT_MIN_TOPUP (configuredAmount (topup_field info k)).

(** The limit of a channel, or of the first one that is on. *)
Definition getMinTopupAmount (topupInfo : option TopupInfo) (paymentType : option jsstr) : num :=
  match topupInfo with
  | None => DEFAULT_MIN_TOPUP
  | Some info =>
      let paid_by (x : jsstr) := bool_decide (paymentType = Some x) in
      if paid_by STRIPE then minimum_field info "stripe_min_topup"
      else if paid_by WAFFO then minimum_field info "waffo_min_topup"
      else if paid_by WAFFO_PANCAKE then minimum_field info "waffo_pancake_min_topup"
      else if paid_by ALIPAY || paid_by WECHAT then minimum_field info "min_topup"
      else if truthy (topup_field info "enable_online_topup") then minimum_field info "min_topup"
      else if truthy (topup_field info "enable_stripe_topup") then minimum_field info "stripe_min_topup"
      else if truthy (topup_field info "enable_waffo_topup") then minimum_field info "waffo_min_topup"
      else if truthy (topup_field info "enable_waffo_pancake_topup") then minimum_field info "waffo_pancake_min_topup"
      else DEFAULT_MIN_TOPUP
  end.

Definition generatePresetAmounts (minAmount : num) : list PresetAmount :=
  let base := default DEFAULT_MIN_TOPUP (configuredAmount (Some (JNum minAmount))) in
  map (fun multiplier => mkPreset (Math_max one (Math_round (num_mul base multiplier))) None) DEFAULT_PRESET_MULTIPLIERS.

(** [discounts[amount] || 1.0]. *)
Definition discount_of (discounts : list (jsstr * num)) (amount : num) : num :=
  match map_get (Number_toString amount) discounts with Some x => if num_truthy x then x else DEFAULT_DISCOUNT_RATE | None => DEFAULT_DISCOUNT_RATE end.

Definition mergePresetAmounts (amountOptions : list num) (discounts : list (jsstr * num)) : list PresetAmount :=
  map (fun amount => mkPreset amount (Some (discount_of discounts amount))) amountOptions.

Definition parseTopupAmount (value : jsstr) (minimum : num) : option num :=
  if negb (nonempty value) || negb (forallb is_digit value) then None
  else let amount := Number value in
       if is_safe_integer amount && num_leb (Math_max one minimum) amount then Some amount else None.

Definition getPaymentTradeNo (params : json) : option jsstr :=
  match nullish (prop_of params "out_trade_no") (default JNull (prop_of params "trade_no")) with
  | JStr tradeNo => if nonempty (trim tradeNo) then Some (trim tradeNo) else None
  | _ => None
  end.

(** ** Loading (hooks/use-topup-info.ts) *)

(** The answer as it is kept, and the amounts offered. *)
Definition processedData (data : json) : TopupInfo :=
  mkTopup data (parsePaymentMethods (prop_of data "pay_methods") (prop_of data "stripe_min_topup")) (parseAmountOptions (prop_of data "amount_options"))
    (parseDiscountMap (prop_of data "discount")) (parseCreemProducts (prop_of data "creem_products")) (parseWaffoPayMethods (prop_of data "waffo_pay_methods")).

Definition presets (info : TopupInfo) : list PresetAmount :=
  match amount_options info with
  | [] => generatePresetAmounts (getMinTopupAmount (Some info) None)
  | options => mergePresetAmounts options (discount info)
  end.

Record TopupState := mkTopupState {
  topupInfo : option TopupInfo; presetAmounts : list PresetAmount; topup_loading : bool; topupRequest : nat; mounted : bool
}.

Definition topup_start (s : TopupState) : TopupState :=
  mkTopupState (topupInfo s) (presetAmounts s) true (S (topupRequest s)) (mounted s).

(** The answer of the request with the given number; [None] is a failure. *)
Definition topup_answer (id : nat) (answer : option json) (s : TopupState) : TopupState :=
  if negb (mounted s) || negb (Nat.eqb id (topupRequest s)) then s
  else match answer with
       | Some response =>
           match prop_of response "data" with
           | Some data =>
               if truthy (prop_of response "success") && truthy (Some data)
               then let info := processedData data in mkTopupState (Some info) (presets info) false (topupRequest s) true
               else mkTopupState (topupInfo s) (presetAmounts s) false (topupRequest s) true
           | None => mkTopupState (topupInfo s) (presetAmounts s) false (topupRequest s) true
           end
       | None => mkTopupState (topupInfo s) (presetAmounts s) false (topupRequest s) true
       end.

(** ** Watching a payment window (lib/payment.ts) *)

Inductive TopupStatus := StatusSuccess | StatusFailed | StatusExpired | StatusPending.

Inductive PaymentMonitorResult := MonitorSuccess | MonitorFailed | MonitorCancelled | MonitorPending.

(** What one check finds: whether the watch was stopped, the status of the order, [None]
    when there is none or the request fails, and whether the window is closed. *)
Record check := mkCheck { aborted : bool; order_status : option TopupStatus; window_closed : bool }.

(** The loop over the checks. [None] while it goes on: the checks are not all there yet. *)
Fixpoint monitor_loop (left : nat) (closureGraceChecks : Z) (remaining : option Z) (checks : list check) (aborted_at_end : bool)
    : option PaymentMonitorResult :=
  match left with
  | O => Some (if aborted_at_end then MonitorCancelled else MonitorPending)
  | S left' =>
      match checks with
      | [] => None
      | c :: checks' =>
          if aborted c then Some MonitorCancelled
          else match order_status c with
               | Some StatusSuccess => Some MonitorSuccess
               | Some StatusFailed | Some StatusExpired => Some MonitorFailed
               | _ =>
                   if window_closed c
                   then match remaining with
                        | None => monitor_loop left' closureGraceChecks (Some closureGraceChecks) checks' aborted_at_end
                        | Some r => if (r <=? 0)%Z then Some MonitorPending else monitor_loop left' closureGraceChecks (Some (r - 1)%Z) checks' aborted_at_end
                        end
                   else monitor_loop left' closureGraceChecks remaining checks' aborted_at_end
               end
      end
  end.

Definition monitorPaymentWindow (maxChecks : nat) (closureGraceChecks : Z) (checks : list check) (aborted_at_end : bool)
    : option PaymentMonitorResult :=
  monitor_loop maxChecks closureGraceChecks None checks aborted_at_end.

(** ** Paying (hooks/use-payment.ts) *)

(** A URL as the platform parses it. [targetName w] is the name given to the [w]-th
    payment window, read from the clock. *)
Record parsed_url := mkUrl { u_protocol : jsstr; u_username : jsstr; u_password : jsstr; u_href : jsstr }.

Section payment.
Context (URL : jsstr → option parsed_url) (safari : bool) (t : jsstr → jsstr) (targetName : nat → jsstr).

(** lib/dom-utils.ts *)
Definition resolveHttpRedirect (target : option json) : option jsstr :=
  match target with
  | Some v =>
      if negb (truthy target) then None
      else u ← URL (to_text v);
           if negb (bool_decide (u_protocol u = js "https:")) && negb (bool_decide (u_protocol u = js "http:")) then None
           else if nonempty (u_username u) || nonempty (u_password u) then None
           else Some (u_href u)
  | None => None
  end.

(** The form that is posted. *)
Record payment_form := mkForm { form_action : jsstr; form_target : option jsstr; form_fields : list (jsstr * jsstr) }.

Definition submitPaymentForm (url : json) (params : json) (targetName : option jsstr) : option payment_form :=
  paymentUrl ← resolveHttpRedirect (Some url);
  Some (mkForm paymentUrl
          (match targetName with
           | Some name => if nonempty name then Some name else if safari then None else Some (js "_blank")
           | None => if safari then None else Some (js "_blank")
           end)
          (match params with JObj m => map (fun kv => (kv.1, to_text kv.2)) m | _ => [] end)).

(** [isApiSuccess] of api.ts. *)
Definition isApiSuccess (response : json) : bool :=
  match prop_of response "success" with
  | Some (JBool b) => b
  | _ => match prop_of response "message" with Some (JStr s) => bool_decide (s = js "success") | _ => false end
  end.

(** An order that was sent: what it asks for, and the window that was opened for it. *)
Record PaymentRequest := mkOrder { o_amount : num; o_method : jsstr; quote_fingerprint : option json; o_window : nat }.

(** A quote that was asked for and has not been answered. *)
Record QuoteRequest := mkQuote { q_id : nat; q_amount : num; q_type : jsstr }.

(** What the hook does outside. *)
Inductive effect :=
| SendQuote (q : QuoteRequest)
| SendOrder (o : PaymentRequest)
| OpenWindow (w : nat)
| CloseWindow (w : nat)
| NavigateWindow (w : nat) (url : jsstr)
| PostForm (f : payment_form)
| Watch (w : nat) (tradeNo : jsstr)
| ToastError (message : json)
| ToastInfo (message : json)
| OnSuccess.

Record Pay := mkPay {
  amount : num; calculating : bool; processing : bool; channelClosed : bool;
  activeMonitor : option nat; quoteRequest : nat; stripeQuote : option (num * json); processingRef : bool;
  quotes : list QuoteRequest; order : option PaymentRequest; windows : list bool; effects : list effect
}.

Definition new_pay : Pay := mkPay (S754_zero false) false false false None 0 None false [] None [] [].

Definition emit (l : list effect) (s : Pay) : Pay :=
  mkPay (amount s) (calculating s) (processing s) (channelClosed s) (activeMonitor s) (quoteRequest s) (stripeQuote s) (processingRef s)
    (quotes s) (order s) (windows s) (effects s ++ l).

(** [popup.close()]; a closed window stays closed. *)
Definition close_window (w : nat) (s : Pay) : Pay :=
  mkPay (amount s) (calculating s) (processing s) (channelClosed s) (activeMonitor s) (quoteRequest s) (stripeQuote s) (processingRef s)
    (quotes s) (order s) (<[w := true]> (windows s)) (effects s ++ [CloseWindow w]).

Definition is_payable (x : num) : bool := is_safe_integer x && is_positive x.

(** [calculatePaymentAmount] until its request; the number of the quote is returned. *)
Definition calculatePaymentAmount (topupAmount : num) (paymentType : jsstr) (s : Pay) : Pay :=
  let requestId := S (quoteRequest s) in
  if negb (is_payable topupAmount)
  then mkPay (S754_zero false) false (processing s) (channelClosed s) (activeMonitor s) requestId None (processingRef s) (quotes s) (order s) (windows s) (effects s)
  else let q := mkQuote requestId topupAmount paymentType in
       mkPay (amount s) true (processing s) (channelClosed s) (activeMonitor s) requestId None (processingRef s) (quotes s ++ [q]) (order s) (windows s)
         (effects s ++ [SendQuote q]).

(** The amount and the quote for Stripe that an answer gives. *)
Definition quoted (q : QuoteRequest) (response : option json) : num * option (num * json) :=
  match response with
  | Some r =>
      if isApiSuccess r && truthy (prop_of r "data")
      then let calculatedAmount := match prop_of r "data" with Some d => parseFloat (to_text d) | None => S754_nan end in
           if negb (num_is_finite calculatedAmount) || negb (is_positive calculatedAmount) then (S754_zero false, None)
           else (calculatedAmount,
                 if isStripePayment (q_type q) && truthy (prop_of r "quote_fingerprint")
                 then pair (q_amount q) <$> prop_of r "quote_fingerprint" else None)
      else (S754_zero false, None)
  | None => (S754_zero false, None)
  end.

(** The rest of [calculatePaymentAmount]: only the latest quote counts. The result is
    what the call returns. *)
Definition answer_quote (id : nat) (response : option json) (s : Pay) : num * Pay :=
  match List.find (fun q => Nat.eqb (q_id q) id) (quotes s) with
  | None => (S754_zero false, s)
  | Some q =>
      let rest := List.filter (fun q => negb (Nat.eqb (q_id q) id)) (quotes s) in
      if Nat.eqb id (quoteRequest s)
      then let '(calculatedAmount, quote) := quoted q response in
           (calculatedAmount,
            mkPay calculatedAmount false (processing s) (channelClosed s) (activeMonitor s) (quoteRequest s)
              (match quote with Some _ => quote | None => stripeQuote s end) (processingRef s) rest (order s) (windows s) (effects s))
      else (S754_zero false,
            mkPay (amount s) (calculating s) (processing s) (channelClosed s) (activeMonitor s) (quoteRequest s) (stripeQuote s) (processingRef s) rest (order s)
              (windows s) (effects s))
  end.

(** [stopActiveMonitor]. *)
Definition stopActiveMonitor (closePopup : bool) (s : Pay) : Pay :=
  match activeMonitor s with
  | None => s
  | Some w =>
      let s := if closePopup && negb (default true (windows s !! w)) then close_window w s else s in
      mkPay (amount s) (calculating s) (processing s) (channelClosed s) None (quoteRequest s) (stripeQuote s) (processingRef s) (quotes s) (order s) (windows s)
        (effects s)
  end.

(** [stripeQuoteRef.current?.amount !== topupAmount]. *)
Definition quote_missing (topupAmount : num) (s : Pay) : bool :=
  match stripeQuote s with Some (a, _) => negb (num_eqb a topupAmount) | None => true end.

(** [processPayment] until its request. [opens] is whether the browser opens a window. *)
Definition processPayment (topupAmount : num) (paymentType : jsstr) (opens : bool) (s : Pay) : Pay :=
  if processingRef s || match activeMonitor s with Some _ => true | None => false end then s
  else if negb (is_payable topupAmount) then s
  else if isStripePayment paymentType && quote_missing topupAmount s then emit [ToastError (JStr (t (js "Refresh the quote before paying")))] s
  else
    let s := stopActiveMonitor true s in
    if negb opens then emit [ToastError (JStr (t (js "Payment failed")))] s
    else
      let w := length (windows s) in
      let o := mkOrder (Math_floor topupAmount) paymentType (if isStripePayment paymentType then snd <$> stripeQuote s else None) w in
      mkPay (amount s) (calculating s) true (channelClosed s) (activeMonitor s) (quoteRequest s) (stripeQuote s) true (quotes s) (Some o)
        (windows s ++ [false]) (effects s ++ [OpenWindow w; SendOrder o]).

(** The [finally] of [processPayment]. *)
Definition finish_order (s : Pay) : Pay :=
  mkPay (amount s) (calculating s) false (channelClosed s) (activeMonitor s) (quoteRequest s) (stripeQuote s) false (quotes s) None (windows s) (effects s).

Definition fail_order (w : nat) (message : json) (s : Pay) : Pay := finish_order (emit [ToastError message] (close_window w s)).

(** The rest of [processPayment]: the answer to the order, [None] when it fails. *)
Definition answer_order (response : option json) (s : Pay) : bool * Pay :=
  match order s with
  | None => (false, s)
  | Some o =>
      let w := o_window o in
      let refused := JStr (t (js "Payment request failed")) in
      match response with
      | None => (false, fail_order w refused s)
      | Some r =>
          if negb (isApiSuccess r)
          then if match prop_of r "code" with Some (JStr c) => bool_decide (c = js "payment_channel_closed") | _ => false end
               then let s := close_window w s in
                    (false, finish_order (mkPay (amount s) (calculating s) (processing s) true (activeMonitor s) (quoteRequest s) (stripeQuote s) (processingRef s)
                                            (quotes s) (order s) (windows s) (effects s)))
               else (false, fail_order w (orv (prop_of r "message") refused) s)
          else if isStripePayment (o_method o)
          then match resolveHttpRedirect (prop_opt (prop_of r "data") "pay_link") with
               | None => (false, fail_order w refused s)
               | Some url => (true, finish_order (emit [NavigateWindow w url] s))
               end
          else
            let failed := (false, fail_order w (JStr (t (js "Payment failed"))) s) in
            match prop_of r "data" with
            | Some data =>
                if truthy (Some data)
                then match prop_of r "url", getPaymentTradeNo data with
                     | Some url, Some tradeNo =>
                         if truthy (Some url)
                         then match submitPaymentForm url data (Some (targetName w)) with
                              | None => (false, fail_order w refused s)
                              | Some form =>
                                  let s := emit [PostForm form; ToastInfo (JStr (t (js "Redirecting to payment page..."))); Watch w tradeNo] s in
                                  (true, finish_order (mkPay (amount s) (calculating s) (processing s) (channelClosed s) (Some w) (quoteRequest s) (stripeQuote s)
                                                         (processingRef s) (quotes s) (order s) (windows s) (effects s)))
                              end
                         else failed
                     | _, _ => failed
                     end
                else failed
            | None => failed
            end
      end
  end.

(** The watch over a window ends. *)
Definition monitored (w : nat) (result : PaymentMonitorResult) (s : Pay) : Pay :=
  if bool_decide (activeMonitor s = Some w)
  then
    let s := mkPay (amount s) (calculating s) (processing s) (channelClosed s) None (quoteRequest s) (stripeQuote s) (processingRef s) (quotes s) (order s) (windows s)
               (effects s) in
    match result with
    | MonitorSuccess =>
        let s := if negb (default true (windows s !! w)) then close_window w s else s in
        emit [ToastInfo (JStr (t (js "Payment successful"))); OnSuccess] s
    | MonitorFailed => emit [ToastError (JStr (t (js "Payment failed")))] s
    | MonitorPending =>
        emit [ToastInfo (JStr (t (js "Payment is awaiting confirmation. Check order history before paying again.")))] s
    | MonitorCancelled => s
    end
  else s.

Inductive pay_event :=
| Calculate (topupAmount : num) (paymentType : jsstr)
| AnswerQuote (id : nat) (response : option json)
| Process (topupAmount : num) (paymentType : jsstr) (opens : bool)
| AnswerOrder (response : option json)
| UserCloses (w : nat)
| Monitored (w : nat) (result : PaymentMonitorResult)
| SetChannelClosed (closed : bool)
| Unmount.

Definition pay_step (s : Pay) (e : pay_event) : Pay :=
  match e with
  | Calculate topupAmount paymentType => calculatePaymentAmount topupAmount paymentType s
  | AnswerQuote id response => (answer_quote id response s).2
  | Process topupAmount paymentType opens => processPayment topupAmount paymentType opens s
  | AnswerOrder response => (answer_order response s).2
  | UserCloses w =>
      mkPay (amount s) (calculating s) (processing s) (channelClosed s) (activeMonitor s) (quoteRequest s) (stripeQuote s) (processingRef s)
        (quotes s) (order s) (<[w := true]> (windows s)) (effects s)
  | Monitored w result => monitored w result s
  | SetChannelClosed closed =>
      mkPay (amount s) (calculating s) (processing s) closed (activeMonitor s) (quoteRequest s) (stripeQuote s) (processingRef s)
        (quotes s) (order s) (windows s) (effects s)
  | Unmount => stopActiveMonitor false s
  end.

Definition pay_run (s : Pay) (l : list pay_event) : Pay := foldl pay_step s l.

(** ** The page (index.tsx) *)

Record Page := mkPage {
  topup : TopupState; pay : Pay; topupAmountInput : option jsstr; selectedPreset : option num; selectedPaymentMethod : option PaymentMethod;
  paymentLoading : option jsstr; confirmDialogOpen : bool; selecting : list nat; toasts : list json
}.

(** The page once it is shown: the first request for the topup information is sent. *)
Definition new_page : Page := mkPage (topup_start (mkTopupState None [] true 0 true)) new_pay None None None None false [] [].

Definition info (p : Page) : option TopupInfo := topupInfo (topup p).

Definition with_pay (s : Pay) (p : Page) : Page :=
  mkPage (topup p) s (topupAmountInput p) (selectedPreset p) (selectedPaymentMethod p) (paymentLoading p) (confirmDialogOpen p) (selecting p) (toasts p).

Definition set_dialog (b : bool) (p : Page) : Page :=
  mkPage (topup p) (pay p) (topupAmountInput p) (selectedPreset p) (selectedPaymentMethod p) (paymentLoading p) b (selecting p) (toasts p).

Definition minTopup (p : Page) : num := getMinTopupAmount (info p) (pm_type <$> selectedPaymentMethod p).

Definition amountInput (p : Page) : jsstr := default (Number_toString (minTopup p)) (topupAmountInput p).

Definition topupAmount (p : Page) : num := default (S754_zero false) (parseTopupAmount (amountInput p) (minTopup p)).

Definition paymentComplianceConfirmed (p : Page) : bool :=
  match info p with Some i => is_true (topup_field i "payment_compliance_confirmed") | None => false end.

Definition getCurrentPaymentType (p : Page) : jsstr :=
  match selectedPaymentMethod p with
  | Some m => if nonempty (pm_type m) then pm_type m else getDefaultPaymentType (info p)
  | None => getDefaultPaymentType (info p)
  end.

(** The timer that quotes the amount shown while none has been typed. *)
Definition quote_default (p : Page) : Page :=
  match info p, topupAmountInput p with
  | Some _, None => if paymentComplianceConfirmed p then with_pay (calculatePaymentAmount (minTopup p) (getDefaultPaymentType (info p)) (pay p)) p else p
  | _, _ => p
  end.

Definition handleSelectPreset (preset : PresetAmount) (p : Page) : Page :=
  mkPage (topup p) (calculatePaymentAmount (p_value preset) (getCurrentPaymentType p) (pay p)) (Some (Number_toString (p_value preset))) (Some (p_value preset))
    (selectedPaymentMethod p) (paymentLoading p) (confirmDialogOpen p) (selecting p) (toasts p).

Definition handleTopupAmountChange (value : jsstr) (p : Page) : Page :=
  if negb (forallb is_digit value) then p
  else mkPage (topup p) (calculatePaymentAmount (default (S754_zero false) (parseTopupAmount value (minTopup p))) (getCurrentPaymentType p) (pay p)) (Some value) None
         (selectedPaymentMethod p) (paymentLoading p) (confirmDialogOpen p) (selecting p) (toasts p).

(** The methods that have a button (components/recharge-form-card.tsx); the buttons of the
    configured ones are off while the amount is below their minimum. *)
Definition method_minimum (i : TopupInfo) (m : PaymentMethod) : num :=
  Math_max (getMinTopupAmount (Some i) None) (Number_value (Some (orv (pm_min_topup m) (JNum (S754_zero false))))).

Definition button_methods (i : TopupInfo) : list PaymentMethod :=
  (if truthy (topup_field i "enable_stripe_topup") then [mkMethod (js "Stripe") STRIPE None None] else [])
  ++ (if truthy (topup_field i "enable_waffo_pancake_topup") then [mkMethod (js "Waffo Pancake") WAFFO_PANCAKE None None] else [])
  ++ (if truthy (topup_field i "enable_waffo_topup")
      then imap (fun index method => mkMethod (wf_name method) (js "waffo-" ++ print_N (N.of_nat index)) None None) (waffo_pay_methods i) else []).

Definition has_any_topup (i : TopupInfo) : bool :=
  truthy (topup_field i "enable_online_topup") || truthy (topup_field i "enable_stripe_topup") || truthy (topup_field i "enable_creem_topup")
  || truthy (topup_field i "enable_waffo_topup") || truthy (topup_field i "enable_waffo_pancake_topup").

Definition enabled_methods (p : Page) : list PaymentMethod :=
  match info p, match paymentLoading p with Some (_ :: _) => true | _ => false end with
  | Some i, false =>
      if paymentComplianceConfirmed p && has_any_topup i
      then button_methods i ++ List.filter (fun m => match parseTopupAmount (amountInput p) (method_minimum i m) with Some _ => true | None => false end) (pay_methods i)
      else []
  | _, _ => []
  end.

(** The limit the selection is checked against, and the one its message names. *)
Definition is_waffo (m : PaymentMethod) : bool := starts_with (js "waffo-") (pm_type m).

Definition provider_minimum (p : Page) (m : PaymentMethod) : num := getMinTopupAmount (info p) (Some (if is_waffo m then WAFFO else pm_type m)).

Definition required_minimum (p : Page) (m : PaymentMethod) : num :=
  Math_max (Math_max one (provider_minimum p m)) (Number_value (Some (orv (pm_min_topup m) (JNum (S754_zero false))))).

(** [handlePaymentMethodSelect] until it waits for the quote. *)
Definition handlePaymentMethodSelect (m : PaymentMethod) (p : Page) : Page :=
  if negb (paymentComplianceConfirmed p) || match info p with Some i => is_false (topup_field i "payment_enabled") | None => false end
  then with_pay (pay_step (pay p) (SetChannelClosed true)) p
  else
    let selected s loading waiting shown := mkPage (topup p) s (topupAmountInput p) (selectedPreset p) (Some m) loading (confirmDialogOpen p) waiting shown in
    if num_ltb (topupAmount p) (required_minimum p m)
    then selected (pay p) None (selecting p) (toasts p ++ [JArr [JStr (t (js "Minimum topup amount is {{amount}}")); JNum (provider_minimum p m)]])
    else
      let s := calculatePaymentAmount (topupAmount p) (pm_type m) (pay p) in
      if negb (is_payable (topupAmount p)) then selected s None (selecting p) (toasts p)
      else selected s (Some (pm_type m)) (selecting p ++ [quoteRequest s]) (toasts p).

(** A quote is answered: the selection that waited for it opens the dialog. *)
Definition quote_returns (id : nat) (response : option json) (p : Page) : Page :=
  let '(quote, s) := answer_quote id response (pay p) in
  if existsb (Nat.eqb id) (selecting p)
  then mkPage (topup p) s (topupAmountInput p) (selectedPreset p) (selectedPaymentMethod p) None (is_positive quote || confirmDialogOpen p)
         (List.filter (fun i => negb (Nat.eqb i id)) (selecting p)) (toasts p)
  else with_pay s p.

(** [handlePaymentConfirm]; the Waffo methods have hooks of their own. *)
Definition handlePaymentConfirm (opens : bool) (p : Page) : Page :=
  match selectedPaymentMethod p with
  | Some m =>
      if negb (paymentComplianceConfirmed p) || num_leb (topupAmount p) (S754_zero false) then p
      else if bool_decide (pm_type m = WAFFO_PANCAKE) || is_waffo m then p
      else with_pay (processPayment (topupAmount p) (pm_type m) opens (pay p)) p
  | None => p
  end.

Definition order_returns (response : option json) (p : Page) : Page :=
  let '(success, s) := answer_order response (pay p) in
  if success then set_dialog false (with_pay s p) else with_pay s p.

Definition getDiscountRate (p : Page) : num :=
  match info p with Some i => discount_of (discount i) (topupAmount p) | None => DEFAULT_DISCOUNT_RATE end.

Inductive page_event :=
| TopupAnswers (answer : option json)
| SelectPreset (preset : PresetAmount)
| ChangeAmount (value : jsstr)
| SelectMethod (button : nat)
| QuoteReturns (id : nat) (response : option json)
| Confirm (opens : bool)
| OrderReturns (response : option json)
| DialogCloses
| ChannelDialog (closed : bool)
| WindowCloses (w : nat)
| MonitorEnds (w : nat) (result : PaymentMonitorResult).

(** What an event does. The confirmation is modal: while it is open the page behind it
    takes no click. *)
Definition on_event (p : Page) (e : page_event) : Page :=
  match e with
  | TopupAnswers answer =>
      if topup_loading (topup p)
      then mkPage (topup_answer (topupRequest (topup p)) answer (topup p)) (pay p) (topupAmountInput p) (selectedPreset p) (selectedPaymentMethod p)
             (paymentLoading p) (confirmDialogOpen p) (selecting p) (toasts p)
      else p
  | SelectPreset preset => if confirmDialogOpen p then p else handleSelectPreset preset p
  | ChangeAmount value => if confirmDialogOpen p then p else handleTopupAmountChange value p
  | SelectMethod button =>
      match enabled_methods p !! button with
      | Some m => if confirmDialogOpen p then p else handlePaymentMethodSelect m p
      | None => p
      end
  | QuoteReturns id response => quote_returns id response p
  | Confirm opens => if confirmDialogOpen p then handlePaymentConfirm opens p else p
  | OrderReturns response => order_returns response p
  | DialogCloses => set_dialog false p
  | ChannelDialog closed => with_pay (pay_step (pay p) (SetChannelClosed closed)) p
  | WindowCloses w => with_pay (pay_step (pay p) (UserCloses w)) p
  | MonitorEnds w result => with_pay (monitored w result (pay p)) p
  end.

(** The page is drawn: the confirmation gives way to the notice of a closed channel. *)
Definition draw (p : Page) : Page := if channelClosed (pay p) then set_dialog false p else p.

(** Whether the effect that starts the timer runs: what it depends on has changed. *)
Definition effect_runs (p p' : Page) : bool :=
  negb (Bool.eqb (match info p with Some _ => true | None => false end) (match info p' with Some _ => true | None => false end))
  || negb (Bool.eqb (match topupAmountInput p with Some _ => true | None => false end) (match topupAmountInput p' with Some _ => true | None => false end))
  || negb (num_eqb (minTopup p) (minTopup p')).

(** An event, the drawing it causes, and the timer of no delay when it is started. *)
Definition page_step (p : Page) (e : page_event) : Page :=
  let p' := draw (on_event p e) in if effect_runs p p' then quote_default p' else p'.

Definition page_run (p : Page) (l : list page_event) : Page := foldl page_step p l.

End payment.

(** ** Compliance (lib/payment-compliance.ts) *)

Inductive PaymentComplianceStatus := ComplianceLoading | ComplianceError | Unconfirmed | Confirmed.

Definition isPaymentComplianceConfirmed (info : option json) (requiredVersion : jsstr) : bool :=
  is_true (prop_opt info "payment_compliance_confirmed")
  && match prop_opt info "payment_compliance_terms_version" with Some (JStr s) => bool_decide (s = requiredVersion) | _ => false end.

Definition derivePaymentComplianceStatus (isPending isError hasData confirmed : bool) : PaymentComplianceStatus :=
  if isPending then ComplianceLoading else if isError || negb hasData then ComplianceError else if confirmed then Confirmed else Unconfirmed.

(** ** Examples *)

Example amounts_demo :
  map (fun s => num_to_Z <$> parseTopupAmount (js s) one) ["3"; "007"; "0"; "1.5"; "1e2"; "9007199254740991"; "9007199254740992"; " 3 "]
  = [Some 3; Some 7; None; None; None; Some 9007199254740991; None; None]%Z.
Proof. vm_compute. reflexivity. Qed.

Example monitor_demo :
  monitorPaymentWindow 3 1 [mkCheck false (Some StatusPending) true; mkCheck false None true; mkCheck false None true] false = Some MonitorPending
  ∧ monitorPaymentWindow 3 2 [mkCheck false (Some StatusPending) true; mkCheck false (Some StatusSuccess) true] false = Some MonitorSuccess.
Proof. split; reflexivity. Qed.

End Wallet.
