(* ===== verification/WalletLaws.v ===== *)
(** * What the recharge keeps

    Quotes, orders and the watch over a payment window (Wallet.v): which quote an order
    stands on, one payment at a time, the outcome of a watch, and what the confirmation of
    the page shows. The places where the page does not do what it means to are at the end. *)

From S2P Require Import Prelude JsNum IntNum Json NumText JsValue PricingPanel DemoEngine Wallet.
From Stdlib Require Import Floats.SpecFloat.

Module WalletLaws.
Import PricingPanel DemoEngine Wallet.
Open Scope js_scope.

Section laws.
Context (URL : jsstr → option parsed_url) (safari : bool) (t : jsstr → jsstr) (targetName : nat → jsstr).

Notation run := (pay_run URL safari t targetName).
Notation step := (pay_step URL safari t targetName).
Notation process := (processPayment t).

Lemma run_app s l1 l2 : run s (l1 ++ l2) = run (run s l1) l2.
Proof. apply foldl_app. Qed.

(** ** The quote an order stands on *)

Definition is_calculate (e : pay_event) : bool := match e with Calculate _ _ => true | _ => false end.

(** The last quote that was asked for is [q], and it was answered by [response]. *)
Definition latest_quote (l : list pay_event) (q : QuoteRequest) (response : option json) : Prop :=
  ∃ l1 l2, l = l1 ++ AnswerQuote (q_id q) response :: l2 ∧ List.find (fun x => Nat.eqb (q_id x) (q_id q)) (quotes (run new_pay l1)) = Some q
           ∧ q_id q = quoteRequest (run new_pay l1) ∧ forallb (fun e => negb (is_calculate e)) l2 = true.

Lemma latest_quote_snoc l q r e : is_calculate e = false → latest_quote l q r → latest_quote (l ++ [e]) q r.
Proof.
  intros He (l1 & l2 & -> & Hf & Hid & Hn). exists l1, (l2 ++ [e]). repeat split; [by rewrite <- app_assoc|done|done|].
  by rewrite forallb_app, Hn; cbn; rewrite He.
Qed.

(** The part of the state that belongs to the quotes. *)
Definition quote_part (s : Pay) := (amount s, calculating s, quoteRequest s, stripeQuote s, quotes s).

Lemma stopActiveMonitor_quotes b s : quote_part (stopActiveMonitor b s) = quote_part s.
Proof. unfold stopActiveMonitor. destruct (activeMonitor s); [|done]. by destruct (b && _). Qed.

Lemma monitored_quotes w r s : quote_part (monitored t w r s) = quote_part s.
Proof. unfold monitored. case_bool_decide; [|done]. destruct r; try done. by destruct (negb _). Qed.

Lemma process_quotes a ty b s : quote_part (process a ty b s) = quote_part s.
Proof.
  unfold processPayment. destruct (_ || _); [done|]. destruct (negb (is_payable a)); [done|]. destruct (_ && _); [done|].
  destruct (negb b); apply (stopActiveMonitor_quotes true s).
Qed.

Lemma answer_order_quotes r s : quote_part (answer_order URL safari t targetName r s).2 = quote_part s.
Proof.
  unfold answer_order. destruct (order s) as [o|]; [|done]. destruct r as [r|]; [|done].
  destruct (negb (isApiSuccess r)); [by destruct (match prop_of r "code" with Some _ => _ | None => _ end)|].
  destruct (isStripePayment (o_method o)); [by destruct (resolveHttpRedirect _ _)|].
  destruct (prop_of r "data") as [data|]; [|done]. destruct (truthy (Some data)); [|done].
  destruct (prop_of r "url") as [url|]; [|done]. destruct (getPaymentTradeNo data); [|done]. destruct (truthy (Some url)); [|done].
  by destruct (submitPaymentForm _ _ _ _ _).
Qed.

Lemma classic_answer e : (∃ id r, e = AnswerQuote id r) ∨ (∀ id r, e ≠ AnswerQuote id r).
Proof. destruct e; try (by right). left. by eexists _, _. Qed.

(** Only asking for a quote, or answering one, changes that part. *)
Lemma step_quotes s e : is_calculate e = false → (∀ id r, e ≠ AnswerQuote id r) → quote_part (step s e) = quote_part s.
Proof.
  intros Hc Ha. destruct e as [| |a ty b|r|w|w r|b|]; cbn [pay_step]; try done.
  - by destruct (Ha id response).
  - apply process_quotes.
  - apply answer_order_quotes.
  - apply monitored_quotes.
  - apply stopActiveMonitor_quotes.
Qed.

(** No request with the latest number is out, and the amount and Stripe's quote are what
    the answer [r] to [q] gave. *)
Definition quoted_state (s : Pay) (q : QuoteRequest) (r : option json) : Prop :=
  amount s = (quoted q r).1 ∧ calculating s = false ∧ q_id q = quoteRequest s ∧ (∀ fp, (quoted q r).2 = Some fp → stripeQuote s = Some fp)
  ∧ Forall (fun x => q_id x ≠ quoteRequest s) (quotes s).

Lemma quoted_state_part s s' q r : quote_part s' = quote_part s → quoted_state s q r → quoted_state s' q r.
Proof. unfold quote_part, quoted_state. by intros [= -> -> -> -> ->]. Qed.

Lemma find_none_latest s : Forall (fun x => q_id x ≠ quoteRequest s) (quotes s) → List.find (fun x => Nat.eqb (q_id x) (quoteRequest s)) (quotes s) = None.
Proof. induction 1 as [|x l Hx _ IH]; [done|]. cbn. by destruct (Nat.eqb_spec (q_id x) (quoteRequest s)). Qed.

Lemma Forall_filter_ne (id : nat) l : Forall (fun x => q_id x ≠ id) (List.filter (fun q => negb (Nat.eqb (q_id q) id)) l).
Proof. apply List.Forall_forall. intros x [_ Hx]%filter_In. by apply negb_true_iff, Nat.eqb_neq in Hx. Qed.

Lemma Forall_sub {P} (f : QuoteRequest → bool) l : Forall P l → Forall P (List.filter f l).
Proof. rewrite !List.Forall_forall. intros H x [Hx _]%filter_In. by apply H. Qed.

Lemma quoted_state_step s q r e : is_calculate e = false → quoted_state s q r → quoted_state (step s e) q r.
Proof.
  intros Hc (Ha & Hk & Hi & Hs & Hn).
  destruct (classic_answer e) as [(id & r' & ->)|Hne]; [|by apply (quoted_state_part s); [apply step_quotes|]].
  cbn [pay_step]. unfold answer_quote. destruct (Nat.eqb_spec id (quoteRequest s)) as [->|Hid].
  - by rewrite find_none_latest.
  - destruct (List.find _ _) as [x|]; [|done]. repeat split; cbn; try done. by apply Forall_sub.
Qed.

Lemma quoted_state_answer s q r : List.find (fun x => Nat.eqb (q_id x) (q_id q)) (quotes s) = Some q → q_id q = quoteRequest s →
  quoted_state (answer_quote (q_id q) r s).2 q r.
Proof.
  intros Hf Hi. unfold answer_quote. rewrite Hf, Hi, Nat.eqb_refl. destruct (quoted q r) as [c o] eqn:E.
  unfold quoted_state. rewrite E. cbn. repeat split; [done|by intros ? ->|apply Forall_filter_ne].
Qed.

Lemma quoted_state_run l s q r : forallb (fun e => negb (is_calculate e)) l = true → quoted_state s q r → quoted_state (run s l) q r.
Proof.
  revert s. induction l as [|e l IH]; intros s H Hs; [done|]. cbn in H. apply andb_prop in H as [He%negb_true_iff Hl].
  cbn. apply IH; [done|]. by apply quoted_state_step.
Qed.

Lemma latest_quote_state l q r : latest_quote l q r → quoted_state (run new_pay l) q r.
Proof.
  intros (l1 & l2 & -> & Hf & Hid & Hn). rewrite run_app. cbn [pay_run foldl]. apply quoted_state_run; [done|]. by apply quoted_state_answer.
Qed.

Lemma answer_quote_stripe id r s x : stripeQuote (answer_quote id r s).2 = Some x →
  stripeQuote s = Some x ∨ ∃ q, List.find (fun y => Nat.eqb (q_id y) (q_id q)) (quotes s) = Some q ∧ q_id q = id ∧ id = quoteRequest s ∧ (quoted q r).2 = Some x.
Proof.
  unfold answer_quote. destruct (List.find _ _) as [q|] eqn:Hf; [|by left]. destruct (Nat.eqb_spec id (quoteRequest s)) as [Hid|_]; [|by left].
  pose proof (find_some _ _ Hf) as [_ E%Nat.eqb_eq]. subst id.
  destruct (quoted q r) as [c o] eqn:Hq. cbn. destruct o as [o|]; [|by left]. intros [= ->]. right. exists q. rewrite Hq, E. done.
Qed.

(** Stripe's quote is the answer to the latest request. *)
Lemma stripe_quote_latest l x : stripeQuote (run new_pay l) = Some x → ∃ q r, latest_quote l q r ∧ (quoted q r).2 = Some x.
Proof.
  revert x. induction l as [|e l IH] using rev_ind; intros x; [done|]. rewrite run_app. cbn [pay_run foldl].
  destruct (is_calculate e) eqn:Hc.
  { destruct e; try done. cbn [pay_step]. unfold calculatePaymentAmount. by destruct (negb _). }
  assert (Hold : stripeQuote (run new_pay l) = Some x → ∃ q r, latest_quote (l ++ [e]) q r ∧ (quoted q r).2 = Some x).
  { intros (q & r & Hq & E)%IH. exists q, r. split; [by apply latest_quote_snoc|done]. }
  destruct (classic_answer e) as [(id & r & ->)|Hn].
  - cbn [pay_step]. intros [H|(q & Hf & Hi & Hid & Hx)]%answer_quote_stripe; [by apply Hold|].
    exists q, r. split; [|done]. exists l, []. rewrite Hi. repeat split; [by rewrite <- Hi|done].
  - intros H. apply Hold. pose proof (f_equal (fun x => x.1.2) (step_quotes (run new_pay l) e Hc Hn)) as E. cbn in E. by rewrite <- E.
Qed.

(** ** One payment at a time *)

Definition orders_in (l : list effect) : list PaymentRequest := omap (fun e => match e with SendOrder o => Some o | _ => None end) l.

(** The order that a call sends. *)
Definition sent_order (s : Pay) (e : pay_event) : list PaymentRequest :=
  match e with
  | Process a ty true =>
      if processingRef s || match activeMonitor s with Some _ => true | None => false end || negb (is_payable a) || (isStripePayment ty && quote_missing a s)
      then [] else [mkOrder (Math_floor a) ty (if isStripePayment ty then snd <$> stripeQuote s else None) (length (windows s))]
  | _ => []
  end.

Lemma orders_in_app l1 l2 : orders_in (l1 ++ l2) = orders_in l1 ++ orders_in l2.
Proof. apply omap_app. Qed.

Definition orders (s : Pay) : list PaymentRequest := orders_in (effects s).

Lemma orders_emit l s : orders_in l = [] → orders (emit l s) = orders s.
Proof. intros H. unfold orders. cbn. by rewrite orders_in_app, H, app_nil_r. Qed.

Lemma orders_close w s : orders (close_window w s) = orders s.
Proof. unfold orders. cbn. by rewrite orders_in_app, app_nil_r. Qed.

Lemma orders_stop b s : orders (stopActiveMonitor b s) = orders s.
Proof. unfold stopActiveMonitor. destruct (activeMonitor s); [|done]. destruct (b && _); [apply orders_close|done]. Qed.

Lemma orders_fail w m s : orders (fail_order w m s) = orders s.
Proof. unfold fail_order. change (orders (finish_order ?x)) with (orders x). by rewrite orders_emit, orders_close. Qed.

(** What remains to be paid: nothing, an order whose answer has not come, or a payment
    made in the [w]-th window. *)
Inductive phase := Idle | Ordering (o : PaymentRequest) | Watching (w : nat).

Definition phase_of (s : Pay) : phase :=
  match order s, activeMonitor s with Some o, _ => Ordering o | None, Some w => Watching w | None, None => Idle end.

(** The events that end what is under way: the answer to the order that waits, the end of
    the watch over the window that is watched, and leaving the page while one is watched. *)
Definition ends (ph : phase) (e : pay_event) : bool :=
  match ph, e with
  | Ordering _, AnswerOrder _ => true
  | Watching w, Monitored w' _ => Nat.eqb w w'
  | Watching _, Unmount => true
  | _, _ => false
  end.

(** What the hook promises, event by event. An order leaves only when nothing is being
    paid, for the amount and the method of its call, and waits; its answer ends it, or, for
    an accepted order that is not Stripe's, opens the watch over its own window; the end of
    that watch or leaving the page ends the payment; and every other event leaves what is
    under way as it is and sends nothing. *)
Inductive gate : phase → pay_event → list PaymentRequest → phase → Prop :=
| gate_send a ty o : o_amount o = Math_floor a → o_method o = ty → gate Idle (Process a ty true) [o] (Ordering o)
| gate_answered o r : gate (Ordering o) (AnswerOrder r) [] Idle
| gate_watch o r : isApiSuccess r = true → o_method o ≠ STRIPE → gate (Ordering o) (AnswerOrder (Some r)) [] (Watching (o_window o))
| gate_end w result : gate (Watching w) (Monitored w result) [] Idle
| gate_leave w : gate (Watching w) Unmount [] Idle
| gate_stay ph e : ends ph e = false → gate ph e [] ph.

Definition pay_ok (s : Pay) : Prop :=
  processing s = processingRef s ∧ processingRef s = (match order s with Some _ => true | None => false end)
  ∧ (order s ≠ None → activeMonitor s = None).

(** The part of the state that says what is being paid. *)
Definition payment_part (s : Pay) := (processing s, processingRef s, order s, activeMonitor s).

Definition moves (s : Pay) (e : pay_event) (l : list PaymentRequest) (s' : Pay) : Prop :=
  orders s' = orders s ++ l ∧ gate (phase_of s) e l (phase_of s') ∧ pay_ok s'.

Lemma moves_same s e s' : pay_ok s → ends (phase_of s) e = false → orders s' = orders s → payment_part s' = payment_part s → moves s e [] s'.
Proof.
  unfold payment_part, moves, pay_ok, phase_of. intros H He E [= -> -> -> ->]. rewrite E, app_nil_r. split; [done|]. split; [by apply gate_stay|done].
Qed.

Lemma moves_answered s r s' o : order s = Some o → orders s' = orders s → payment_part s' = (false, false, None, None) → moves s (AnswerOrder r) [] s'.
Proof.
  unfold payment_part, moves, pay_ok, phase_of. intros H E [= -> -> -> ->]. rewrite E, H, app_nil_r. split; [done|]. split; [apply gate_answered|done].
Qed.

Lemma moves_watch s r s' o : order s = Some o → isApiSuccess r = true → o_method o ≠ STRIPE →
  orders s' = orders s → payment_part s' = (false, false, None, Some (o_window o)) → moves s (AnswerOrder (Some r)) [] s'.
Proof.
  unfold payment_part, moves, pay_ok, phase_of. intros H Hr Hm E [= -> -> -> ->]. rewrite E, H, app_nil_r. split; [done|]. split; [by apply gate_watch|done].
Qed.

Lemma moves_stopped s e s' w : pay_ok s → activeMonitor s = Some w → e = Unmount ∨ (∃ r, e = Monitored w r) →
  orders s' = orders s → payment_part s' = (processing s, processingRef s, order s, None) → moves s e [] s'.
Proof.
  unfold payment_part, moves, pay_ok, phase_of. intros (H1 & H2 & H3) Hm He E [= -> -> -> ->]. rewrite E, app_nil_r. split; [done|].
  destruct (order s); [by rewrite H3 in Hm|]. rewrite Hm. split; [|done]. destruct He as [->|[r ->]]; constructor.
Qed.

Lemma monitored_moves w r s : pay_ok s → moves s (Monitored w r) [] (monitored t w r s).
Proof.
  intros H. unfold monitored. case_bool_decide as Hw.
  - apply (moves_stopped s _ _ w); [done|done|right; by eexists| |]; (destruct r; [destruct (negb _)| | |]); try done; rewrite ?orders_emit by done; try done.
    by rewrite orders_close.
  - apply moves_same; [done| |done|done]. unfold phase_of. destruct (order s); [done|]. destruct (activeMonitor s) as [w'|]; [|done].
    apply Nat.eqb_neq. congruence.
Qed.

Lemma stop_moves b s : pay_ok s → moves s Unmount [] (stopActiveMonitor b s).
Proof.
  intros H. destruct (activeMonitor s) as [w|] eqn:Hw.
  - apply (moves_stopped s _ _ w); [done|done|by left|apply orders_stop|]. unfold stopActiveMonitor. rewrite Hw. by destruct (b && _).
  - unfold stopActiveMonitor. rewrite Hw. apply moves_same; [done| |done|done]. unfold phase_of. rewrite Hw. by destruct (order s).
Qed.

(** A call to pay ends nothing. *)
Lemma process_ends s a ty b : ends (phase_of s) (Process a ty b) = false.
Proof. by destruct (phase_of s). Qed.

Lemma process_moves a ty b s : pay_ok s → moves s (Process a ty b) (sent_order s (Process a ty b)) (process a ty b s).
Proof.
  intros H. pose proof (process_ends s a ty b) as He. unfold sent_order, processPayment.
  destruct (processingRef s || _) eqn:Hb; [destruct b; by apply moves_same|].
  destruct (negb (is_payable a)); [destruct b; by apply moves_same|].
  destruct (_ && _); [destruct b; (apply moves_same; [done|done|by apply orders_emit|done])|].
  apply orb_false_elim in Hb as [Hp Hm]. destruct H as (H1 & H2 & H3). destruct (order s) eqn:Ho; [congruence|].
  unfold stopActiveMonitor. destruct (activeMonitor s) eqn:Ha; [done|]. destruct b; cbn [negb orb].
  - unfold moves, pay_ok, phase_of, orders. cbn. rewrite orders_in_app, Ho, Ha. split; [done|]. split; [by apply gate_send|done].
  - apply moves_same; [|done|by apply orders_emit|done]. unfold pay_ok. rewrite Ho, Ha, H1, Hp. done.
Qed.

Lemma answer_order_moves r s : pay_ok s → moves s (AnswerOrder r) [] (answer_order URL safari t targetName r s).2.
Proof.
  intros H. unfold answer_order. destruct (order s) as [o|] eqn:Ho.
  2: { apply moves_same; [done| |done|done]. unfold phase_of. rewrite Ho. by destruct (activeMonitor s). }
  assert (Ha : activeMonitor s = None) by (apply H; by rewrite Ho).
  assert (Hf : ∀ w m, moves s (AnswerOrder r) [] (fail_order w m s)).
  { intros w m. apply (moves_answered s r _ o); [done|apply orders_fail|]. unfold payment_part. cbn. by rewrite Ha. }
  destruct r as [r|]; [|apply Hf].
  destruct (isApiSuccess r) eqn:Hr; cbn [negb].
  2: { destruct (match prop_of r "code" with Some _ => _ | None => _ end); [|apply Hf].
    apply (moves_answered s _ _ o); [done|apply orders_close|]. unfold payment_part. cbn. by rewrite Ha. }
  destruct (isStripePayment (o_method o)) eqn:Hm.
  { destruct (resolveHttpRedirect _ _); [|apply Hf]. apply (moves_answered s _ _ o); [done|by apply orders_emit|]. unfold payment_part. cbn. by rewrite Ha. }
  destruct (prop_of r "data") as [data|]; [|apply Hf]. destruct (truthy (Some data)); [|apply Hf].
  destruct (prop_of r "url") as [url|]; [|apply Hf]. destruct (getPaymentTradeNo data); [|apply Hf]. destruct (truthy (Some url)); [|apply Hf].
  destruct (submitPaymentForm _ _ _ _ _); [|apply Hf]. apply bool_decide_eq_false_1 in Hm.
  apply (moves_watch s r _ o); [done|done|done|by apply orders_emit|done].
Qed.

Lemma step_moves s e : pay_ok s → moves s e (sent_order s e) (step s e).
Proof.
  intros H. assert (Hs : ∀ s', ends (phase_of s) e = false → orders s' = orders s → payment_part s' = payment_part s → moves s e [] s') by (intros; by apply moves_same).
  assert (Hq : (∀ a ty, e = Calculate a ty → ends (phase_of s) e = false) ∧ (∀ id r, e = AnswerQuote id r → ends (phase_of s) e = false))
    by (split; intros ? ? ->; by destruct (phase_of s)). destruct Hq as [Hq1 Hq2].
  destruct e as [a ty|id r|a ty b|r|w|w r|b|]; cbn [pay_step sent_order].
  - specialize (Hq1 a ty eq_refl). unfold calculatePaymentAmount. destruct (negb _); apply Hs; try done. unfold orders. cbn. by rewrite orders_in_app, app_nil_r.
  - specialize (Hq2 id r eq_refl). unfold answer_quote. destruct (List.find _ _); [|by apply Hs]. destruct (Nat.eqb _ _); [|by apply Hs].
    destruct (quoted _ _). by apply Hs.
  - by apply process_moves.
  - by apply answer_order_moves.
  - apply Hs; try done. by destruct (phase_of s).
  - by apply monitored_moves.
  - apply Hs; try done. by destruct (phase_of s).
  - by apply stop_moves.
Qed.

Lemma run_ok l : pay_ok (run new_pay l).
Proof. induction l as [|e l IH] using rev_ind; [done|]. rewrite run_app. by apply step_moves. Qed.

(** Every order that was sent was sent by a call that could send it. *)
Lemma order_sent l o : o ∈ orders (run new_pay l) → ∃ l1 e l2, l = l1 ++ e :: l2 ∧ sent_order (run new_pay l1) e = [o].
Proof.
  induction l as [|e l IH] using rev_ind; [by intros H%elem_of_nil|]. rewrite run_app. cbn [pay_run foldl].
  destruct (step_moves (run new_pay l) e (run_ok l)) as (-> & _ & _). rewrite elem_of_app. intros [(l1 & e' & l2 & -> & H)%IH|H].
  - exists l1, e', (l2 ++ [e]). by rewrite <- app_assoc.
  - exists l, e, []. split; [done|]. destruct (sent_order _ e) as [|x [|]] eqn:E; [by apply elem_of_nil in H|by apply list_elem_of_singleton in H as ->|].
    destruct e as [| |? ? []| | | | |]; try done. cbn in E. by destruct (_ || _).
Qed.

(** C8: at most one payment is under way. Event by event the hook follows the gate: an
    order leaves only when no order waits for its answer and no window is watched, for the
    amount and the method of its call, and then it waits; only its answer, the end of the
    watch over its window, or leaving the page while the window is watched ends a payment;
    no other event, such as a quote, its answer, a closed window or a closed channel,
    changes what is under way or sends an order. The hook says it is processing exactly
    while an order waits. *)
Theorem one_payment_at_a_time l e (s := run new_pay l) :
  processing s = processingRef s ∧ (processing s = true ↔ ∃ o, phase_of s = Ordering o)
  ∧ ∃ sent, orders (step s e) = orders s ++ sent ∧ gate (phase_of s) e sent (phase_of (step s e)).
Proof.
  destruct (run_ok l) as (H1 & H2 & _). fold s in H1, H2. split; [done|]. split.
  - rewrite H1, H2. unfold phase_of. destruct (order s) as [o|]; [split; [by exists o|done]|]. split; [done|]. intros [o Ho]. by destruct (activeMonitor s).
  - destruct (step_moves s e (run_ok l)) as (H & G & _). by eexists.
Qed.

(** C7: what Stripe is asked to charge is what was shown. Every order sent to Stripe was
    sent when the last quote asked for was one of Stripe's for that very amount and had
    been answered: the amount shown was the price of that answer, a positive number, and
    the order carries the fingerprint of that answer. *)
Theorem stripe_order_quoted l o : o ∈ orders (run new_pay l) → o_method o = STRIPE →
  ∃ l1 a l2 q r, l = l1 ++ Process a STRIPE true :: l2 ∧ latest_quote l1 q (Some r) ∧ q_type q = STRIPE ∧ num_eqb (q_amount q) a = true
    ∧ o_amount o = Math_floor a ∧ quote_fingerprint o = prop_of r "quote_fingerprint" ∧ truthy (quote_fingerprint o) = true ∧ isApiSuccess r = true
    ∧ amount (run new_pay l1) = parseFloat (to_text (default JNull (prop_of r "data"))) ∧ is_positive (amount (run new_pay l1)) = true.
Proof.
  intros (l1 & e & l2 & -> & He)%order_sent Hm. destruct e as [| |a ty []| | | | |]; try done. cbn in He.
  destruct (_ || _) eqn:Hb; [done|]. injection He as <-. cbn in Hm. subst ty.
  change (isStripePayment STRIPE) with true in *. cbn [andb orb o_amount quote_fingerprint] in *.
  apply orb_false_elim in Hb as [_ Hq]. unfold quote_missing in Hq.
  destruct (stripeQuote (run new_pay l1)) as [[x fp]|] eqn:Hs; [|done]. apply negb_false_iff in Hq.
  destruct (stripe_quote_latest _ _ Hs) as (q & r & Hl & Hr). destruct (latest_quote_state _ _ _ Hl) as (Ha & _).
  exists l1, a, l2, q. unfold quoted in Hr, Ha. destruct r as [r|]; [|done]. exists r.
  destruct (isApiSuccess r && _) eqn:Hok; [|done]. apply andb_prop in Hok as [Hok Hd].
  destruct (prop_of r "data") as [d|]; [|done]. destruct (negb _ || _) eqn:Hp; [done|]. apply orb_false_elim in Hp as [_ Hp%negb_false_iff].
  destruct (isStripePayment (q_type q) && _) eqn:Ht; [|done]. apply andb_prop in Ht as [Ht%bool_decide_eq_true_1 Hf].
  destruct (prop_of r "quote_fingerprint") as [f|]; [|done]. cbn in Hr, Ha |- *. injection Hr as <- <-. rewrite Ha. by repeat split.
Qed.

End laws.

(** ** The watch over a payment window *)

Definition closed_checks (l : list check) : Z := Z.of_nat (length (List.filter window_closed l)).

(** What a check decides, after the checks [before] that decided nothing. The window may
    be seen closed [closureGraceChecks + 1] times. *)
Definition verdict (closureGraceChecks : Z) (before : list check) (c : check) : option PaymentMonitorResult :=
  if aborted c then Some MonitorCancelled
  else match order_status c with
       | Some StatusSuccess => Some MonitorSuccess
       | Some StatusFailed | Some StatusExpired => Some MonitorFailed
       | _ => if window_closed c && (Z.max 0 closureGraceChecks + 1 <=? closed_checks before)%Z then Some MonitorPending else None
       end.

(** The verdicts of the checks, each with those before it. *)
Fixpoint verdicts (closureGraceChecks : Z) (before checks : list check) : list (option PaymentMonitorResult) :=
  match checks with
  | [] => []
  | c :: checks' => verdict closureGraceChecks before c :: verdicts closureGraceChecks (before ++ [c]) checks'
  end.

Lemma closed_checks_snoc l c : closed_checks (l ++ [c]) = (closed_checks l + if window_closed c then 1 else 0)%Z.
Proof. unfold closed_checks. rewrite List.filter_app, length_app. cbn. destruct (window_closed c); cbn; lia. Qed.

(** The counter of the loop. *)
Definition counter (grace closed : Z) : option Z := if (closed =? 0)%Z then None else Some (grace - (closed - 1))%Z.

Lemma closed_checks_nonneg l : (0 <= closed_checks l)%Z.
Proof. unfold closed_checks. lia. Qed.

Lemma monitor_loop_step left g before c checks ab :
  monitor_loop (S left) g (counter g (closed_checks before)) (c :: checks) ab
  = match verdict g before c with Some r => Some r | None => monitor_loop left g (counter g (closed_checks (before ++ [c]))) checks ab end.
Proof.
  cbn [monitor_loop]. unfold verdict. destruct (aborted c); [done|]. pose proof (closed_checks_nonneg before).
  assert (H' : (if window_closed c
                then match counter g (closed_checks before) with
                     | Some r => if (r <=? 0)%Z then Some MonitorPending else monitor_loop left g (Some (r - 1)%Z) checks ab
                     | None => monitor_loop left g (Some g) checks ab
                     end
                else monitor_loop left g (counter g (closed_checks before)) checks ab)
               = match (if window_closed c && (Z.max 0 g + 1 <=? closed_checks before)%Z then Some MonitorPending else None) with
                 | Some r => Some r | None => monitor_loop left g (counter g (closed_checks (before ++ [c]))) checks ab end).
  { rewrite closed_checks_snoc. unfold counter. destruct (window_closed c); cbn [andb]; [|by rewrite Z.add_0_r].
    destruct (Z.eqb_spec (closed_checks before) 0) as [->|Hc].
    - destruct (Z.leb_spec (Z.max 0 g + 1) 0); [lia|]. cbn. do 2 f_equal. lia.
    - destruct (Z.eqb_spec (closed_checks before + 1) 0); [lia|].
      destruct (Z.leb_spec (g - (closed_checks before - 1)) 0), (Z.leb_spec (Z.max 0 g + 1) (closed_checks before)); try lia; [done|]. do 2 f_equal. lia. }
  destruct (order_status c) as [[]|]; try done; exact H'.
Qed.

Definition first_some {A} (l : list (option A)) : option A := foldr (fun x r => match x with Some _ => x | None => r end) None l.

Lemma monitor_loop_verdicts n g before checks ab : n ≤ length checks →
  monitor_loop n g (counter g (closed_checks before)) checks ab
  = Some (default (if ab then MonitorCancelled else MonitorPending) (first_some (take n (verdicts g before checks)))).
Proof.
  revert before checks. induction n as [|n IH]; intros before checks Hn; [done|].
  destruct checks as [|c checks]; [cbn in Hn; lia|]. rewrite monitor_loop_step. cbn [verdicts take first_some foldr].
  destruct (verdict g before c); [done|]. apply IH. cbn in Hn. lia.
Qed.

(** C25: the watch over a payment window ends, and its outcome is the first verdict. Among
    the [maxChecks] checks the first one that finds the watch stopped, the order paid,
    failed or expired, or the window closed once more than the grace allows decides; when
    none does the payment is pending, or cancelled if the watch was stopped meanwhile. *)
Theorem monitor_first_verdict maxChecks closureGraceChecks checks stopped : maxChecks ≤ length checks →
  monitorPaymentWindow maxChecks closureGraceChecks checks stopped
  = Some (default (if stopped then MonitorCancelled else MonitorPending) (first_some (take maxChecks (verdicts closureGraceChecks [] checks)))).
Proof. apply (monitor_loop_verdicts _ _ []). Qed.

Lemma monitor_first_verdict_witness :
  let c s w := mkCheck false s w in
  let checks := [c None false; c (Some StatusPending) true; c None true; c None true; c (Some StatusSuccess) true] in
  5 ≤ length checks ∧ monitorPaymentWindow 5 2 checks false = Some MonitorSuccess ∧ monitorPaymentWindow 5 1 checks false = Some MonitorPending.
Proof.
  intros c checks. split; [apply le_n|]. rewrite !(monitor_first_verdict 5 _ checks false) by apply le_n. split; reflexivity.
Defined.

(** ** Comparing numbers

    Numbers other than NaN are ordered by sign, exponent and mantissa. *)

Definition order_key (x : num) : Z * Z * Z :=
  match x with
  | S754_infinity true => (-2, 0, 0) | S754_finite true m e => (-1, - e, Z.neg m) | S754_zero _ | S754_nan => (0, 0, 0)
  | S754_finite false m e => (1, e, Z.pos m) | S754_infinity false => (2, 0, 0)
  end%Z.

Definition key_lt (x y : Z * Z * Z) : Prop := (x.1.1 < y.1.1 ∨ x.1.1 = y.1.1 ∧ (x.1.2 < y.1.2 ∨ x.1.2 = y.1.2 ∧ x.2 < y.2))%Z.

Lemma ltb_key x y : is_nan x = false → is_nan y = false → num_ltb x y = true ↔ key_lt (order_key x) (order_key y).
Proof.
  unfold num_ltb, SFltb, key_lt. destruct x as [a|a| |a m e], y as [b|b| |b m' e']; intros Hx Hy; try done;
    destruct a; try destruct b; cbn; try (split; [done|lia]); try (split; [intros _; lia|done]).
  all: destruct (Z.compare_spec e e'); try (split; [done|lia]); try (split; [intros _; lia|done]).
  all: fold (Pos.compare m m'); destruct (Pos.compare_spec m m'); cbn; try (split; [done|lia]); try (split; [intros _; lia|done]).
Qed.

Lemma leb_key x y : is_nan x = false → is_nan y = false → num_leb x y = true ↔ ¬ key_lt (order_key y) (order_key x).
Proof.
  unfold num_leb, SFleb, key_lt. destruct x as [a|a| |a m e], y as [b|b| |b m' e']; intros Hx Hy; try done;
    destruct a; try destruct b; cbn; try (split; [done|lia]); try (split; [intros _; lia|done]).
  all: destruct (Z.compare_spec e e'); try (split; [done|lia]); try (split; [intros _; lia|done]).
  all: fold (Pos.compare m m'); destruct (Pos.compare_spec m m'); cbn; try (split; [done|lia]); try (split; [intros _; lia|done]).
Qed.

Lemma leb_not_nan x y : num_leb x y = true → is_nan x = false ∧ is_nan y = false.
Proof. by destruct x as [[]|[]| |[]], y as [[]|[]| |[]]. Qed.

Lemma ltb_not_nan x y : num_ltb x y = true → is_nan x = false ∧ is_nan y = false.
Proof. by destruct x as [[]|[]| |[]], y as [[]|[]| |[]]. Qed.

Lemma leb_trans x y z : num_leb x y = true → num_leb y z = true → num_leb x z = true.
Proof.
  intros H1 H2. destruct (leb_not_nan _ _ H1) as [Nx Ny], (leb_not_nan _ _ H2) as [_ Nz].
  apply leb_key in H1; [|done..]. apply leb_key in H2; [|done..]. apply leb_key; [done..|]. unfold key_lt in *. lia.
Qed.

Lemma not_ltb_leb x y : is_nan x = false → is_nan y = false → num_ltb x y = false → num_leb y x = true.
Proof. intros Hx Hy H. apply leb_key; [done..|]. rewrite <- ltb_key by done. by rewrite H. Qed.

Lemma leb_refl x : is_nan x = false → num_leb x x = true.
Proof. intros H. apply leb_key; [done..|]. unfold key_lt. lia. Qed.

Lemma ltb_leb x y : num_ltb x y = true → num_leb x y = true.
Proof. intros H. destruct (ltb_not_nan _ _ H). apply leb_key; [done..|]. apply ltb_key in H; [|done..]. unfold key_lt in *. lia. Qed.

Lemma zero_or (b : bool) : num_leb (S754_zero b) (S754_zero (negb b)) = true.
Proof. by destruct b. Qed.

Lemma Math_max_nan x y : is_nan (Math_max x y) = is_nan x || is_nan y.
Proof. unfold Math_max. destruct (is_nan x) eqn:Hx, (is_nan y) eqn:Hy; try done. cbn. destruct (num_ltb x y); [done|]. destruct (num_ltb y x); [done|]. by destruct x as [[]| | |]. Qed.

Lemma Math_max_ge x y : is_nan x = false → is_nan y = false → num_leb x (Math_max x y) = true ∧ num_leb y (Math_max x y) = true.
Proof.
  intros Hx Hy. unfold Math_max. rewrite Hx, Hy. cbn. destruct (num_ltb x y) eqn:E; [by split; [apply ltb_leb|apply leb_refl]|].
  destruct (num_ltb y x) eqn:E'; [by split; [apply leb_refl|apply ltb_leb]|].
  pose proof (not_ltb_leb _ _ Hx Hy E). pose proof (not_ltb_leb _ _ Hy Hx E').
  destruct x as [[]| | |]; split; try done; by apply leb_refl.
Qed.

Lemma Math_max_least x y a : num_leb x a = true → num_leb y a = true → num_leb (Math_max x y) a = true.
Proof.
  intros H1 H2. destruct (leb_not_nan _ _ H1) as [Hx _], (leb_not_nan _ _ H2) as [Hy _]. unfold Math_max. rewrite Hx, Hy. cbn.
  destruct (num_ltb x y); [done|]. destruct (num_ltb y x); [done|]. by destruct x as [[]| | |].
Qed.

(** Positive finite numbers that are equal are the same. *)
Lemma eqb_same x y : is_positive x = true → num_eqb x y = true → x = y.
Proof.
  unfold num_eqb, SFeqb. destruct x as [[]|[]| |[] m e], y as [[]|[]| |[] m' e']; try done. cbn.
  destruct (Z.compare_spec e e') as [->| |]; try done. fold (Pos.compare m m'). by destruct (Pos.compare_spec m m') as [->| |].
Qed.

Lemma eqb_refl x : is_nan x = false → num_eqb x x = true.
Proof. destruct x as [|[]| |[] m e]; try done; intros _; unfold num_eqb, SFeqb; cbn; rewrite Z.compare_refl; fold (Pos.compare m m); by rewrite Pos.compare_refl. Qed.

(** ** The limits *)

Definition limit (x : num) : Prop := is_positive x = true ∧ num_is_finite x = true.

Lemma limit_nan x : limit x → is_nan x = false.
Proof. intros [H _]. by destruct x. Qed.

Lemma minimum_field_limit info k : limit (minimum_field info k).
Proof.
  unfold minimum_field, configuredAmount. destruct (topup_field info k) as [[]|]; try done.
  match goal with |- context [num_is_finite ?x && _] => destruct (num_is_finite x && is_positive x) eqn:E; [|done] end.
  apply andb_prop in E as [H1 H2]. by split.
Qed.

Lemma getMinTopupAmount_limit info ty : limit (getMinTopupAmount info ty).
Proof.
  destruct info as [info|]; [|done]. unfold getMinTopupAmount.
  repeat match goal with |- context [if ?b then _ else _] => destruct b end; try apply minimum_field_limit. done.
Qed.

Lemma parseTopupAmount_some s m a : parseTopupAmount s m = Some a →
  is_safe_integer a = true ∧ num_leb (Math_max one m) a = true ∧ (∀ m', num_leb (Math_max one m') a = true → parseTopupAmount s m' = Some a).
Proof.
  unfold parseTopupAmount. destruct (_ || _); [done|]. destruct (is_safe_integer (Number s)) eqn:Hs; [|done]. cbn.
  destruct (num_leb _ _) eqn:Hm; [|done]. intros [= <-]. repeat split; [done|done|]. by intros m' ->.
Qed.

(** ** The methods that can be chosen *)

Lemma method_parsed d s m : m ∈ parsePaymentMethods d s →
  nonempty (pm_type m) = true ∧ ((∃ x, pm_min_topup m = Some (JNum x) ∧ num_is_finite x = true) ∨ pm_type m = STRIPE ∧ pm_min_topup m = s).
Proof.
  intros H. apply list_elem_of_In, filter_In in H as [H Hn]. apply in_map_iff in H as (item & <- & _).
  apply andb_prop in Hn as [Hn _]. apply andb_prop in Hn as [_ Hn]. split; [done|]. unfold payment_method in *. cbn in *.
  set (x := Number_value (prop_of item "min_topup")) in *. set (y := if num_is_finite x then _ else _) in *.
  destruct (bool_decide (text_field item "type" = STRIPE) && _) eqn:E.
  - apply andb_prop in E as [E%bool_decide_eq_true_1 _]. by right.
  - left. exists y. split; [done|]. subst y. destruct (num_is_finite x) eqn:Hx; [|done]. unfold Math_max.
    destruct (is_nan x) eqn:Hnan; [by destruct x|]. cbn. destruct (num_ltb _ x); [done|]. by destruct (num_ltb x _).
Qed.

Lemma finite_nan x : num_is_finite x = true → is_nan x = false.
Proof. by destruct x. Qed.

(** The own minimum of a method, unless it is Stripe's and that is not set. *)
Definition own_minimum (m : PaymentMethod) : num := Number_value (Some (orv (pm_min_topup m) (JNum (S754_zero false)))).

Definition has_button (i : TopupInfo) (m : PaymentMethod) : Prop := m ∈ button_methods i ++ pay_methods i.

Lemma offered_ok data m (i := processedData data) : has_button i m →
  nonempty (pm_type m) = true
  ∧ (is_nan (own_minimum m) = false ∨ pm_type m = STRIPE ∧ configuredAmount (topup_field i "stripe_min_topup") = None).
Proof.
  unfold has_button. rewrite elem_of_app. intros [H|H].
  - assert (Hm : nonempty (pm_type m) = true ∧ pm_min_topup m = None).
    { unfold button_methods in H. rewrite !elem_of_app in H. destruct H as [H|[H|H]].
      - destruct (truthy _); [by apply list_elem_of_singleton in H as ->|by apply elem_of_nil in H].
      - destruct (truthy _); [by apply list_elem_of_singleton in H as ->|by apply elem_of_nil in H].
      - destruct (truthy _); [|by apply elem_of_nil in H]. apply elem_of_lookup_imap in H as (n & x & -> & _). done. }
    destruct Hm as [Hm E]. split; [done|]. left. unfold own_minimum. by rewrite E.
  - apply method_parsed in H as [Ht [(x & E & Hx)|[Hs E]]]; (split; [done|]).
    + left. unfold own_minimum. rewrite E. cbn. destruct (num_truthy x); [|done]. by apply finite_nan.
    + destruct (is_nan (own_minimum m)) eqn:Hn; [|by left]. right. split; [done|]. unfold own_minimum in Hn. rewrite E in Hn.
      unfold topup_field. change (ti_data i) with data. destruct (prop_of data "stripe_min_topup") as [j|]; [|done]. cbn [orv] in Hn.
      destruct (truthy (Some j)); [|done]. destruct j as [| |x| | |]; try done. cbn in *. by destruct x as [|[]| |].
Qed.

Lemma payable_limit a : is_payable a = true → is_positive a = true.
Proof. by intros [_ H]%andb_prop. Qed.

Lemma topupAmount_parse p : is_payable (topupAmount p) = true → parseTopupAmount (amountInput p) (minTopup p) = Some (topupAmount p).
Proof. unfold topupAmount. by destruct (parseTopupAmount _ _). Qed.

(** An amount that passes the check of the selection passes the limit of the method. *)
Lemma selection_passes data p m : info p = Some (processedData data) → has_button (processedData data) m → is_waffo m = false →
  is_payable (topupAmount p) = true → num_ltb (topupAmount p) (required_minimum p m) = false →
  num_leb (Math_max one (getMinTopupAmount (info p) (Some (pm_type m)))) (topupAmount p) = true.
Proof.
  intros Hi Hm Hw Ha Hr. destruct (offered_ok _ _ Hm) as [_ Hmin]. unfold required_minimum, provider_minimum in Hr. rewrite Hw in Hr.
  fold (own_minimum m) in Hr. set (P := getMinTopupAmount (info p) (Some (pm_type m))) in *.
  assert (HP : is_nan (Math_max one P) = false) by (rewrite Math_max_nan; apply orb_false_intro; [done|apply limit_nan, getMinTopupAmount_limit]).
  assert (H1 : num_leb one (topupAmount p) = true).
  { destruct (parseTopupAmount_some _ _ _ (topupAmount_parse _ Ha)) as (_ & Hle & _).
    eapply leb_trans; [|exact Hle]. apply Math_max_ge; [done|apply limit_nan, getMinTopupAmount_limit]. }
  destruct Hmin as [Hn|[Hs Hc]].
  - eapply leb_trans; [by apply (Math_max_ge _ (own_minimum m))|]. apply not_ltb_leb; [|by rewrite Math_max_nan, HP, Hn|done].
    apply payable_limit in Ha. by destruct (topupAmount p).
  - subst P. rewrite Hs, Hi. cbn. unfold minimum_field. rewrite Hc. by apply Math_max_least.
Qed.

(** ** What the confirmation shows *)

Section page.
Context (URL : jsstr → option parsed_url) (safari : bool) (t : jsstr → jsstr) (targetName : nat → jsstr).

Notation run := (page_run URL safari t targetName).
Notation step := (page_step URL safari t targetName).
Notation on_event := (on_event URL safari t targetName).

(** The answer to [q] came when [q] was the last quote asked for. *)
Definition answered_in (l : list page_event) (q : QuoteRequest) (response : option json) : Prop :=
  ∃ l1 l2, l = l1 ++ QuoteReturns (q_id q) response :: l2
           ∧ List.find (fun x => Nat.eqb (q_id x) (q_id q)) (quotes (pay (run new_page l1))) = Some q ∧ q_id q = quoteRequest (pay (run new_page l1)).

Lemma answered_in_snoc l q r e : answered_in l q r → answered_in (l ++ [e]) q r.
Proof. intros (l1 & l2 & -> & H). exists l1, (l2 ++ [e]). by rewrite <- app_assoc. Qed.

(** [q] is the quote for what the page shows, paid with [m]. *)
Definition asked_for (p : Page) (m : PaymentMethod) (q : QuoteRequest) : Prop :=
  q_type q = pm_type m ∧ (is_waffo m = false → q_amount q = topupAmount p ∧ is_payable (topupAmount p) = true).

Record base (p : Page) : Prop := mkBase {
  b_info : ∀ i, info p = Some i → (∃ data, i = processedData data) ∧ topup_loading (topup p) = false;
  b_loading : paymentLoading p ≠ Some [];
  b_waits : paymentLoading p = None → selecting p = [];
  b_one : length (selecting p) ≤ 1;
  b_selecting : Forall (fun id => id ≤ quoteRequest (pay p)) (selecting p);
  b_quotes : Forall (fun q => q_id q ≤ quoteRequest (pay p)) (quotes (pay p))
}.

Definition waiting_ok (p : Page) : Prop :=
  quoteRequest (pay p) ∈ selecting p → paymentComplianceConfirmed p = true ∧
    ∃ m, selectedPaymentMethod p = Some m ∧ ∀ q, q ∈ quotes (pay p) → q_id q = quoteRequest (pay p) → asked_for p m q.

Definition dialog_ok (l : list page_event) (p : Page) : Prop :=
  confirmDialogOpen p = true → paymentComplianceConfirmed p = true ∧
    ∃ m q r, selectedPaymentMethod p = Some m ∧ asked_for p m q ∧ quoted_state (pay p) q r ∧ is_positive (quoted q r).1 = true ∧ answered_in l q r.

Definition page_ok (l : list page_event) (p : Page) : Prop := base p ∧ waiting_ok p ∧ dialog_ok l p.

(** The part of the page that says what is bought. *)
Definition choice (p : Page) := (topup p, topupAmountInput p, selectedPaymentMethod p).

Lemma choice_same p p' : choice p' = choice p →
  info p' = info p ∧ minTopup p' = minTopup p ∧ paymentComplianceConfirmed p' = paymentComplianceConfirmed p ∧ topupAmount p' = topupAmount p.
Proof. unfold choice, topupAmount, amountInput, minTopup, paymentComplianceConfirmed, info. by intros [= -> -> ->]. Qed.

Lemma asked_for_same p p' m q : choice p' = choice p → asked_for p m q → asked_for p' m q.
Proof. intros (_ & _ & _ & E)%choice_same. unfold asked_for. by rewrite E. Qed.

Lemma effect_same p p' : choice p' = choice p → effect_runs p p' = false.
Proof.
  intros H. destruct (choice_same _ _ H) as (E1 & E2 & _). injection H as _ E3 _. unfold effect_runs. rewrite E1, E2, E3, !eqb_reflx, eqb_refl; [done|].
  apply limit_nan, getMinTopupAmount_limit.
Qed.

(** A page without a dialog whose pending selections are all out of date. *)
Lemma stale_ok l p : base p → Forall (fun id => id < quoteRequest (pay p)) (selecting p) → confirmDialogOpen p = false → page_ok l p.
Proof.
  intros Hb Hs Hd. split; [done|]. split; [|by intros H; rewrite Hd in H]. intros H. rewrite Forall_forall in Hs. specialize (Hs _ H). lia.
Qed.

Lemma calculate_base p a ty input preset selected loading dialog l :
  base p → loading = paymentLoading p →
  base (mkPage (topup p) (calculatePaymentAmount a ty (pay p)) input preset selected loading dialog (selecting p) l)
  ∧ Forall (fun id => id < quoteRequest (calculatePaymentAmount a ty (pay p))) (selecting p).
Proof.
  intros [H1 H2 H3 H4 H5 H6] ->.
  assert (E : quoteRequest (calculatePaymentAmount a ty (pay p)) = S (quoteRequest (pay p))) by (unfold calculatePaymentAmount; by destruct (negb _)).
  assert (Hs : Forall (fun id => id < S (quoteRequest (pay p))) (selecting p)) by (eapply Forall_impl; [exact H5|]; intros ? Hx; cbn in Hx |- *; lia).
  split; [|by rewrite E]. constructor; cbn; try done; rewrite ?E.
  - eapply Forall_impl; [exact Hs|]. intros ? Hx; cbn in Hx |- *; lia.
  - unfold calculatePaymentAmount. destruct (negb _); cbn; [|apply Forall_app; split; [|by constructor]]; (eapply Forall_impl; [exact H6|]; intros ? Hx; cbn in Hx |- *; lia).
Qed.

(** What leaves the choice and the quotes alone. *)
Lemma same_ok l p p' : choice p' = choice p → quote_part (pay p') = quote_part (pay p) → paymentLoading p' = paymentLoading p →
  selecting p' = selecting p → (confirmDialogOpen p' = true → confirmDialogOpen p = true) → page_ok l p → page_ok l p'.
Proof.
  intros Hc Hq Hl Hs Hd (Hb & Hw & Ho). destruct (choice_same _ _ Hc) as (E1 & E2 & E3 & E4).
  assert (Et : topup p' = topup p) by (by injection Hc). assert (Em : selectedPaymentMethod p' = selectedPaymentMethod p) by (by injection Hc).
  pose proof (f_equal (fun x => x.1.1.2) Hq) as Er. pose proof (f_equal snd Hq) as Ek. cbn in Er, Ek. split; [|split].
  - destruct Hb as [H1 H2 H3 H4 H5 H6]. constructor; rewrite ?E1, ?Et, ?Hl, ?Hs, ?Er, ?Ek; done.
  - unfold waiting_ok. rewrite Hs, Er, Ek, E3, Em. intros H. destruct (Hw H) as (Hy & m & Hm & Ha). split; [done|]. exists m. split; [done|].
    intros q Hi Hj. by apply (asked_for_same p), Ha.
  - intros H. rewrite E3, Em. destruct (Ho (Hd H)) as (Hy & m & q & r & Hm & Ha & Hst & Hp & Han). split; [done|]. exists m, q, r.
    split; [done|]. split; [by apply (asked_for_same p)|]. split; [by apply (quoted_state_part (pay p))|done].
Qed.

Lemma ok_snoc l p e : page_ok l p → page_ok (l ++ [e]) p.
Proof.
  intros (Hb & Hw & Hd). split; [done|]. split; [done|]. intros H. destruct (Hd H) as (Hy & m & q & r & Hm & Ha & Hst & Hp & Han).
  split; [done|]. exists m, q, r. do 4 (split; [done|]). by apply answered_in_snoc.
Qed.

Lemma draw_ok l p : page_ok l p → page_ok l (draw p).
Proof. intros H. unfold draw. destruct (channelClosed (pay p)); [|done]. by apply (same_ok l p). Qed.

Lemma draw_closed p : confirmDialogOpen p = false → confirmDialogOpen (draw p) = false.
Proof. unfold draw. by destruct (channelClosed (pay p)). Qed.

Lemma draw_base p : base p → base (draw p).
Proof. intros [H1 H2 H3 H4 H5 H6]. unfold draw. destruct (channelClosed (pay p)); by constructor. Qed.

Lemma draw_choice p : choice (draw p) = choice p.
Proof. unfold draw. by destruct (channelClosed (pay p)). Qed.

Definition will_quote (p : Page) : bool :=
  match info p, topupAmountInput p with Some _, None => paymentComplianceConfirmed p | _, _ => false end.

Lemma quote_default_ok l p : base p → confirmDialogOpen p = false → (will_quote p = false → page_ok l p) → page_ok l (quote_default p).
Proof.
  unfold will_quote, quote_default. intros Hb Hd H. destruct (info p); [|by apply H]. destruct (topupAmountInput p) eqn:Ei; [by apply H|].
  destruct (paymentComplianceConfirmed p); [|by apply H].
  edestruct (calculate_base p) as [Hb' Hs]; [exact Hb|reflexivity|]. apply stale_ok; [exact Hb'|exact Hs|done].
Qed.

(** A step whose event leaves a page without a dialog. *)
Lemma finish_ok l p p' : page_ok l p' → (confirmDialogOpen p' = false ∨ choice p' = choice p) →
  page_ok l (let p'' := draw p' in if effect_runs p p'' then quote_default p'' else p'').
Proof.
  intros H Hor. cbn. pose proof (draw_ok l p' H) as Hdr. destruct (effect_runs p (draw p')) eqn:E; [|done].
  apply quote_default_ok; [apply Hdr| |done]. destruct Hor as [Hd|Hc].
  - unfold draw. by destruct (channelClosed _).
  - rewrite effect_same in E; [done|]. by rewrite draw_choice.
Qed.

Lemma calculated_ok l p a ty input preset : base p → confirmDialogOpen p = false →
  page_ok l (mkPage (topup p) (calculatePaymentAmount a ty (pay p)) input preset (selectedPaymentMethod p) (paymentLoading p) (confirmDialogOpen p) (selecting p) (toasts p)).
Proof.
  intros Hb Hd. edestruct (calculate_base p) as [Hb' Hs]; [exact Hb|reflexivity|]. apply stale_ok; [exact Hb'|exact Hs|done].
Qed.

Lemma topup_ok l p answer : page_ok l p → topup_loading (topup p) = true →
  page_ok l (mkPage (topup_answer (topupRequest (topup p)) answer (topup p)) (pay p) (topupAmountInput p) (selectedPreset p) (selectedPaymentMethod p)
               (paymentLoading p) (confirmDialogOpen p) (selecting p) (toasts p)) ∧ confirmDialogOpen p = false.
Proof.
  intros (Hb & Hw & Hd) Hl. assert (Hi : info p = None).
  { destruct (info p) as [i|] eqn:Hi; [|done]. destruct (b_info p Hb i Hi). congruence. }
  assert (Hc : paymentComplianceConfirmed p = false) by (unfold paymentComplianceConfirmed; by rewrite Hi).
  assert (Hdc : confirmDialogOpen p = false) by (destruct (confirmDialogOpen p) eqn:Ho; [destruct (Hd Ho); congruence|done]).
  split; [|done]. apply stale_ok; [| |done].
  - destruct Hb as [H1 H2 H3 H4 H5 H6]. constructor; cbn; try done. unfold info. cbn. intros i. unfold topup_answer.
    destruct (_ || _); [change (topupInfo (topup p)) with (info p); by rewrite Hi|]. unfold info in Hi.
    destruct answer as [r|]; cbn; [|by rewrite Hi]. destruct (prop_of r "data") as [d|]; cbn; [|by rewrite Hi].
    destruct (_ && _); cbn; [|by rewrite Hi]. intros [= <-]. split; [by exists d|done].
  - apply Forall_forall. intros id Hid. pose proof (b_selecting p Hb) as Hs. rewrite Forall_forall in Hs. specialize (Hs _ Hid). cbn in Hs |- *.
    destruct (decide (id = quoteRequest (pay p))) as [->|]; [|lia]. destruct (Hw Hid). congruence.
Qed.

Lemma quote_returns_ok l p id r : p = run new_page l → page_ok l p → page_ok (l ++ [QuoteReturns id r]) (quote_returns id r p).
Proof.
  intros Hp (Hb & Hw & Hd). set (s := (answer_quote id r (pay p)).2).
  assert (Hreq : quoteRequest s = quoteRequest (pay p)) by (subst s; unfold answer_quote; destruct (List.find _ _); [|done]; destruct (Nat.eqb _ _); [by destruct (quoted _ _)|done]).
  assert (Hsub : ∀ q, q ∈ quotes s → q ∈ quotes (pay p)).
  { intros q. subst s. unfold answer_quote. destruct (List.find _ _); [|done].
    destruct (Nat.eqb _ _); [destruct (quoted _ _)|]; cbn; rewrite !list_elem_of_In; by intros [Hq _]%filter_In. }
  assert (Hold : confirmDialogOpen p = true → dialog_ok (l ++ [QuoteReturns id r]) (with_pay s p)).
  { intros Ho _. destruct (Hd Ho) as (Hy & m & q & r' & Hm & Ha & Hst & Hpos & Han). split; [done|]. exists m, q, r'.
    split; [done|]. split; [by apply (asked_for_same p)|].
    split; [by apply (quoted_state_step URL safari t targetName (pay p) q r' (AnswerQuote id r))|]. split; [done|]. by apply answered_in_snoc. }
  assert (Hbase : ∀ sel dlg load, (load ≠ Some [] ∧ (load = None → sel = []) ∧ length sel ≤ 1 ∧ ∀ i, i ∈ sel → i ∈ selecting p) →
     base (mkPage (topup p) s (topupAmountInput p) (selectedPreset p) (selectedPaymentMethod p) load dlg sel (toasts p))).
  { intros sel dlg load (L1 & L2 & L3 & L4). destruct Hb as [H1 H2 H3 H4 H5 H6]. constructor; cbn; try done.
    - rewrite Hreq. apply Forall_forall. intros i Hi. rewrite Forall_forall in H5. by apply H5, L4.
    - rewrite Hreq. apply Forall_forall. intros q Hq. rewrite Forall_forall in H6. by apply H6, Hsub. }
  unfold quote_returns. rewrite (surjective_pairing (answer_quote id r (pay p))). fold s. destruct (existsb (Nat.eqb id) (selecting p)) eqn:Hex.
  - (* the selection that waits for this quote *)
    apply existsb_exists in Hex as (x & Hx%list_elem_of_In & ->%Nat.eqb_eq).
    assert (Hsel : selecting p = [x]).
    { pose proof (b_one p Hb). destruct (selecting p) as [|y [|]]; [by apply elem_of_nil in Hx| |cbn in *; lia]. by apply list_elem_of_singleton in Hx as ->. }
    rewrite Hsel. cbn. rewrite Nat.eqb_refl. cbn. split; [|split].
    + apply Hbase. repeat split; [done|cbn; lia|]. by intros i ?%elem_of_nil.
    + intros H. by apply elem_of_nil in H.
    + intros Ho. destruct (confirmDialogOpen p) eqn:Hcd; [exact (Hold eq_refl Hcd)|]. rewrite orb_false_r in Ho. cbn in Ho.
      unfold answer_quote in Ho. destruct (List.find _ (quotes (pay p))) as [q|] eqn:Hf; [|done].
      pose proof (find_some _ _ Hf) as [Hq%list_elem_of_In Hqid%Nat.eqb_eq]. cbn in Hqid. destruct Hqid.
      destruct (Nat.eqb_spec (q_id q) (quoteRequest (pay p))) as [Hlast|]; [|done].
      destruct (quoted q r) as [c o] eqn:Eq. cbn in Ho. rewrite Hlast in Hx. destruct (Hw Hx) as (Hy & m & Hm & Ha). split; [done|]. exists m, q, r.
      split; [done|]. split; [apply (asked_for_same p); [done|]; by apply Ha|].
      split; [by apply (quoted_state_answer (pay p))|]. rewrite Eq. split; [done|].
      exists l, []. by rewrite <- Hp.
  - split; [|split].
    + apply Hbase. destruct Hb. repeat split; done.
    + unfold waiting_ok. cbn. rewrite Hreq. intros H. destruct (Hw H) as (Hy & m & Hm & Ha). split; [done|]. exists m. split; [done|].
      intros q Hq Hqid. apply (asked_for_same p); [done|]. by apply Ha; [apply Hsub|].
    + intros Ho. by apply Hold.
Qed.

(** The amount that was checked is still the one shown once the method is selected. *)
Lemma selected_amount data p p' m : info p = Some (processedData data) → has_button (processedData data) m → is_waffo m = false →
  info p' = info p → topupAmountInput p' = topupAmountInput p → selectedPaymentMethod p' = Some m →
  (topupAmountInput p = None → num_eqb (minTopup p) (minTopup p') = true) →
  is_payable (topupAmount p) = true → num_ltb (topupAmount p) (required_minimum p m) = false → topupAmount p' = topupAmount p.
Proof.
  intros Hi Hm Hw Ei Ein Em Hmin Ha Hr.
  assert (EM : minTopup p' = getMinTopupAmount (info p) (Some (pm_type m))) by (unfold minTopup; by rewrite Em, Ei).
  destruct (topupAmountInput p) as [s|] eqn:Hs.
  - pose proof (topupAmount_parse _ Ha) as Hp. unfold amountInput in Hp. rewrite Hs in Hp. cbn in Hp.
    destruct (parseTopupAmount_some _ _ _ Hp) as (_ & _ & H). unfold topupAmount at 1, amountInput. rewrite Ein, EM. cbn.
    by rewrite (H _ (selection_passes _ _ _ Hi Hm Hw Ha Hr)).
  - assert (E : minTopup p = minTopup p') by (apply eqb_same; [apply getMinTopupAmount_limit|by apply Hmin]).
    unfold topupAmount, amountInput. by rewrite Ein, Hs, E.
Qed.

Lemma enabled_offered p b m : enabled_methods p !! b = Some m →
  ∃ i, info p = Some i ∧ paymentComplianceConfirmed p = true ∧ has_button i m ∧ (paymentLoading p = None ∨ paymentLoading p = Some []).
Proof.
  unfold enabled_methods. destruct (info p) as [i|]; [|done]. destruct (paymentLoading p) as [[|]|]; try done;
    (destruct (paymentComplianceConfirmed p && _) eqn:E; [|done]); apply andb_prop in E as [E _]; intros H%list_elem_of_lookup_2;
    exists i; (split; [done|]; split; [done|]; split; [|tauto]); unfold has_button; apply elem_of_app in H as [H|H]; apply elem_of_app; [by left| |by left|];
    right; apply list_elem_of_In in H; apply filter_In in H as [H _]; by apply list_elem_of_In.
Qed.

Lemma select_ok l p b m : page_ok l p → confirmDialogOpen p = false → enabled_methods p !! b = Some m →
  page_ok l (let p'' := draw (handlePaymentMethodSelect URL safari t targetName m p) in if effect_runs p p'' then quote_default p'' else p'').
Proof.
  intros H Hd Hb. destruct (enabled_offered _ _ _ Hb) as (i & Hi & Hy & Ho & Hl). destruct H as (Hbase & Hw & Hdl).
  assert (Hl' : paymentLoading p = None) by (destruct Hl as [|Hl]; [done|]; by destruct (b_loading p Hbase)).
  pose proof (b_waits p Hbase Hl') as Hs. destruct (b_info p Hbase i Hi) as [(data & ->) Hload].
  unfold handlePaymentMethodSelect. destruct (_ || _) eqn:Hclosed.
  { apply finish_ok; [|by right]. apply (same_ok l p); done. }
  destruct (num_ltb (topupAmount p) (required_minimum p m)) eqn:Hr.
  { apply finish_ok; [|by left]. apply stale_ok; [|cbn; by rewrite Hs|done]. destruct Hbase as [H1 H2 H3 H4 H5 H6]. by constructor. }
  destruct (is_payable (topupAmount p)) eqn:Ha; cbn [negb].
  2: { apply finish_ok; [|by left]. edestruct (calculate_base p) as [Hb' Hst]; [exact Hbase|symmetry; exact Hl'|]. apply stale_ok; [exact Hb'|exact Hst|done]. }
  set (s := calculatePaymentAmount (topupAmount p) (pm_type m) (pay p)).
  rewrite Hs. cbn [app]. set (p' := mkPage _ s _ _ _ _ _ _ _).
  assert (Es : s = mkPay (amount (pay p)) true (processing (pay p)) (channelClosed (pay p)) (activeMonitor (pay p)) (S (quoteRequest (pay p))) None
                 (processingRef (pay p)) (quotes (pay p) ++ [mkQuote (S (quoteRequest (pay p))) (topupAmount p) (pm_type m)]) (order (pay p))
                 (windows (pay p)) (effects (pay p) ++ [SendQuote (mkQuote (S (quoteRequest (pay p))) (topupAmount p) (pm_type m))])).
  { subst s. unfold calculatePaymentAmount. by rewrite Ha. }
  assert (Hbase' : base p').
  { destruct (calculate_base p (topupAmount p) (pm_type m) None None None (paymentLoading p) false [] Hbase eq_refl) as [[_ _ _ _ _ C6] _].
    destruct (offered_ok _ _ Ho) as [Hne _]. constructor; cbn; try done.
    - intros i' Hi'. apply (b_info p Hbase). done.
    - by destruct (pm_type m).
    - constructor; [done|constructor]. }
  assert (Hok : (topupAmountInput p = None → num_eqb (minTopup p) (minTopup p') = true) → page_ok l p').
  { intros Hmin. split; [done|]. split; [|by intros Hx; cbn in Hx; rewrite Hd in Hx]. intros _. split; [exact Hy|]. exists m. split; [done|].
    intros q Hq Hqid. cbn in Hq, Hqid. rewrite Es in Hq, Hqid. cbn in Hq, Hqid. apply elem_of_app in Hq as [Hq|Hq].
    - pose proof (b_quotes p Hbase) as HF. rewrite Forall_forall in HF. specialize (HF _ Hq). cbn in HF. lia.
    - apply list_elem_of_singleton in Hq as ->. split; [done|]. intros Hwf. cbn [q_amount].
      assert (E : topupAmount p' = topupAmount p) by exact (selected_amount data p p' m Hi Ho Hwf eq_refl eq_refl eq_refl Hmin Ha Hr).
      split; [exact (eq_sym E)|]. rewrite E. exact Ha. }
  assert (Hdr : choice (draw p') = choice p') by apply draw_choice. destruct (choice_same _ _ Hdr) as (Di & Dm & Dc & _).
  assert (Din : topupAmountInput (draw p') = topupAmountInput p) by (by injection Hdr).
  cbn. destruct (effect_runs p (draw p')) eqn:E.
  - apply quote_default_ok; [|by apply draw_closed|].
    + by apply draw_base.
    + unfold will_quote. rewrite Di, Din, Dc. change (info p') with (info p). rewrite Hi.
      change (paymentComplianceConfirmed p') with (paymentComplianceConfirmed p). rewrite Hy.
      destruct (topupAmountInput p) eqn:Hin; [|done]. intros _. apply draw_ok. by apply Hok.
  - apply draw_ok, Hok. intros _. unfold effect_runs in E. apply orb_false_elim in E as [_ E%negb_false_iff]. by rewrite Dm in E.
Qed.

Lemma step_ok l e : page_ok l (run new_page l) → page_ok (l ++ [e]) (step (run new_page l) e).
Proof.
  intros H. set (p := run new_page l) in *. unfold page_step. pose proof (ok_snoc l p e H) as Hs.
  assert (Hsame : ∀ p', choice p' = choice p → quote_part (pay p') = quote_part (pay p) → paymentLoading p' = paymentLoading p → selecting p' = selecting p →
    (confirmDialogOpen p' = true → confirmDialogOpen p = true) → page_ok (l ++ [e]) (let p'' := draw p' in if effect_runs p p'' then quote_default p'' else p'')).
  { intros p' Hc Hq Hl Hsel Hd. apply finish_ok; [by apply (same_ok (l ++ [e]) p)|by right]. }
  destruct e as [answer|preset|value|button|id r|opens|r| |closed|w|w result]; cbn [Wallet.on_event].
  - destruct (topup_loading (topup p)) eqn:Hl; [|by apply Hsame]. destruct (topup_ok _ _ answer Hs Hl) as [Hok Hd]. apply finish_ok; [done|by left].
  - destruct (confirmDialogOpen p) eqn:Hd; [by apply Hsame|]. apply finish_ok; [by apply calculated_ok; [apply Hs|]|by left].
  - destruct (confirmDialogOpen p) eqn:Hd; [by apply Hsame|]. unfold handleTopupAmountChange. destruct (negb (forallb is_digit value)); [apply Hsame; congruence|].
    apply finish_ok; [by apply calculated_ok; [apply Hs|]|by left].
  - destruct (enabled_methods p !! button) as [m|] eqn:Hb; [|by apply Hsame]. destruct (confirmDialogOpen p) eqn:Hd; [by apply Hsame|].
    by apply (select_ok _ _ button).
  - apply finish_ok; [by apply quote_returns_ok|right]. unfold quote_returns. destruct (answer_quote id r (pay p)). by destruct (existsb _ _).
  - destruct (confirmDialogOpen p) eqn:Hd; [|apply Hsame; congruence]. unfold handlePaymentConfirm.
    destruct (selectedPaymentMethod p); [|apply Hsame; congruence]. destruct (_ || _); [apply Hsame; congruence|].
    destruct (_ || _); [apply Hsame; congruence|]. apply Hsame; try done. apply process_quotes.
  - unfold order_returns. destruct (answer_order URL safari t targetName r (pay p)) as [b s] eqn:E.
    pose proof (answer_order_quotes URL safari t targetName r (pay p)) as Hq. rewrite E in Hq. destruct b; by apply Hsame.
  - by apply Hsame.
  - by apply Hsame.
  - by apply Hsame.
  - apply Hsame; try done. apply monitored_quotes.
Qed.

Lemma page_run_ok l : page_ok l (run new_page l).
Proof.
  induction l as [|e l IH] using rev_ind.
  - apply stale_ok; [|by constructor|done]. constructor; cbn; try done; [lia|constructor..].
  - unfold page_run. rewrite foldl_app. by apply step_ok.
Qed.

(** C5: what the confirmation shows is what is paid. Whenever it is open a method is
    selected, and the last quote asked for was for that method and has been answered: the
    price shown is the one of that answer, a positive number. Unless it is one of Waffo's
    methods, the quote was for the amount shown as well, and the button passes exactly
    that amount and that method to [processPayment]. *)
Theorem dialog_shows_quote l (p := run new_page l) : confirmDialogOpen p = true →
  ∃ m q r, selectedPaymentMethod p = Some m ∧ answered_in l q r ∧ q_id q = quoteRequest (pay p) ∧ q_type q = pm_type m
    ∧ amount (pay p) = (quoted q r).1 ∧ is_positive (amount (pay p)) = true ∧ calculating (pay p) = false
    ∧ (is_waffo m = false → q_amount q = topupAmount p
       ∧ (pm_type m ≠ WAFFO_PANCAKE → ∀ opens, pay (on_event p (Confirm opens)) = processPayment t (q_amount q) (q_type q) opens (pay p))).
Proof.
  intros Hd. destruct (page_run_ok l) as (_ & _ & Hok). fold p in Hok.
  destruct (Hok Hd) as (Hy & m & q & r & Hm & [Ht Hamt] & (Ea & Ec & Ei & _) & Hpos & Han).
  exists m, q, r. do 4 (split; [done|]). split; [done|]. split; [by rewrite Ea|]. split; [done|]. intros Hw. destruct (Hamt Hw) as [E Hp]. split; [done|].
  intros Hne opens. cbn [Wallet.on_event]. rewrite Hd. unfold handlePaymentConfirm. rewrite Hm, Hy, bool_decide_eq_false_2 by done. rewrite Hw.
  apply payable_limit in Hp. rewrite E, Ht. destruct (topupAmount p) as [|[]| |[]]; try done.
Qed.
End page.

(** ** Examples, and where the page does not do what it means to *)

Module demo.
Definition URL (s : jsstr) : option parsed_url := Some (mkUrl (js "https:") [] [] s).
Definition t (s : jsstr) : jsstr := s.
Definition window_name (w : nat) : jsstr := js "snowapi-payment".
Definition run := page_run URL false t window_name.
Definition number (z : Z) : json := JNum (num_of_Z z).
Definition text (s : string) : json := JStr (js s).
Definition obj (l : list (string * json)) : json := JObj (map (fun kv => (js kv.1, kv.2)) l).

(** The topup information, with the minima of the online methods, of Stripe and of Waffo. *)
Definition topup_data (online stripe waffo : Z) : option json :=
  Some (obj [("success", JBool true);
    ("data", obj [("payment_compliance_confirmed", JBool true); ("enable_online_topup", JBool true); ("min_topup", number online);
      ("enable_stripe_topup", JBool true); ("stripe_min_topup", number stripe); ("enable_waffo_topup", JBool true); ("waffo_min_topup", number waffo);
      ("pay_methods", JArr [obj [("name", text "Alipay"); ("type", text "alipay")]]); ("waffo_pay_methods", JArr [obj [("name", text "Card")]])])])%string.

(** A quote of 12.5. *)
Definition price : option json := Some (obj [("success", JBool true); ("data", text "12.5"); ("quote_fingerprint", text "f1")])%string.

Definition to_stripe : list pay_event := [Calculate (num_of_Z 10) STRIPE; AnswerQuote 1 price; Process (num_of_Z 10) STRIPE true].
Definition stripe_order : PaymentRequest := mkOrder (num_of_Z 10) STRIPE (Some (JStr (js "f1"))) 0.
Definition to_dialog : list page_event := [TopupAnswers (topup_data 1 1 1); SelectMethod 0; QuoteReturns 2 price].
End demo.

Lemma one_payment_at_a_time_demo : phase_of (pay_run demo.URL false demo.t demo.window_name new_pay demo.to_stripe) = Ordering demo.stripe_order.
Proof. vm_compute. reflexivity. Qed.

Lemma stripe_order_quoted_witness :
  demo.stripe_order ∈ orders (pay_run demo.URL false demo.t demo.window_name new_pay demo.to_stripe)
  ∧ ∃ l1 a l2 q r, demo.to_stripe = l1 ++ Process a STRIPE true :: l2 ∧ latest_quote demo.URL false demo.t demo.window_name l1 q (Some r) ∧ q_type q = STRIPE
    ∧ num_eqb (q_amount q) a = true ∧ o_amount demo.stripe_order = Math_floor a
    ∧ quote_fingerprint demo.stripe_order = prop_of r "quote_fingerprint" ∧ truthy (quote_fingerprint demo.stripe_order) = true ∧ isApiSuccess r = true
    ∧ amount (pay_run demo.URL false demo.t demo.window_name new_pay l1) = parseFloat (to_text (default JNull (prop_of r "data")))
    ∧ is_positive (amount (pay_run demo.URL false demo.t demo.window_name new_pay l1)) = true.
Proof.
  assert (H : demo.stripe_order ∈ orders (pay_run demo.URL false demo.t demo.window_name new_pay demo.to_stripe)) by (vm_compute; left).
  split; [exact H|]. by apply (stripe_order_quoted demo.URL false demo.t demo.window_name demo.to_stripe demo.stripe_order).
Defined.

Lemma dialog_shows_quote_witness (p := demo.run new_page demo.to_dialog) :
  confirmDialogOpen p = true
  ∧ ∃ m q r, selectedPaymentMethod p = Some m ∧ answered_in demo.URL false demo.t demo.window_name demo.to_dialog q r ∧ q_id q = quoteRequest (pay p) ∧ q_type q = pm_type m
    ∧ amount (pay p) = (quoted q r).1 ∧ is_positive (amount (pay p)) = true ∧ calculating (pay p) = false
    ∧ (is_waffo m = false → q_amount q = topupAmount p
       ∧ (pm_type m ≠ WAFFO_PANCAKE → ∀ opens, pay (on_event demo.URL false demo.t demo.window_name p (Confirm opens)) = processPayment demo.t (q_amount q) (q_type q) opens (pay p))).
Proof.
  assert (H : confirmDialogOpen p = true) by (vm_compute; reflexivity).
  split; [exact H|]. exact (dialog_shows_quote demo.URL false demo.t demo.window_name demo.to_dialog H).
Defined.

(** The first click on a method whose minimum is not the one shown is lost. The amount is
    quoted for the method, and as the minimum has changed the timer quotes the new minimum
    for the default method too; the answer to the first quote is then out of date, and the
    confirmation stays closed. *)
Lemma first_selection_lost :
  let p := demo.run new_page [TopupAnswers (demo.topup_data 10 1 1); SelectMethod 0; QuoteReturns 2 demo.price; QuoteReturns 3 demo.price] in
  map (fun q => (q_amount q, q_type q)) (omap (fun e => match e with SendQuote q => Some q | _ => None end) (effects (pay p)))
  = [(num_of_Z 10, ALIPAY); (num_of_Z 10, STRIPE); (num_of_Z 1, ALIPAY)]
  ∧ pm_type <$> selectedPaymentMethod p = Some STRIPE ∧ paymentLoading p = None ∧ toasts p = [] ∧ confirmDialogOpen p = false.
Proof. vm_compute. done. Qed.

(** An amount typed while another method is selected is read with that method's minimum:
    5 is refused by a method that takes 1 and more, with a message that names 1. *)
Lemma lower_minimum_refused :
  let p := demo.run new_page [TopupAnswers (demo.topup_data 10 1 1); ChangeAmount (js "5"); SelectMethod 0] in
  toasts p = [JArr [JStr (js "Minimum topup amount is {{amount}}"); demo.number 1]] ∧ topupAmount p = num_of_Z 5 ∧ confirmDialogOpen p = false.
Proof. vm_compute. done. Qed.

(** The amount shown for one of Waffo's methods is read with the minimum of the online
    methods, not with Waffo's: 7 passes Waffo's minimum, is quoted, and the confirmation
    shows an amount of 0 and its button does nothing. *)
Lemma waffo_confirm_dead :
  let p := demo.run new_page [TopupAnswers (demo.topup_data 10 1 5); SelectMethod 0; QuoteReturns 2 demo.price; ChangeAmount (js "7"); SelectMethod 1; QuoteReturns 5 demo.price] in
  confirmDialogOpen p = true ∧ topupAmount p = S754_zero false ∧ amount (pay p) = Number (js "12.5")
  ∧ on_event demo.URL false demo.t demo.window_name p (Confirm true) = p.
Proof. vm_compute. done. Qed.
End WalletLaws.
